(* ===== verification/_CoqProject ===== *)
-Q . S2P
Prelude.v
Bitmap.v
Memory.v
Words.v
Heap.v
Paging.v
Elf.v
UserMem.v
StackArgs.v
Shootdown.v
Pipe.v
Kernel.v
Fd.v
Console.v
ProcessTable.v
Vfs.v
Initramfs.v
Syscalls.v
Scope.v
Revocation.v
Token.v
Ipc.v
Irq.v
Scheduling.v
RunQueue.v
IpcCalls.v
InodeTree.v
Superblock.v
BlockCache.v
Merkle.v
Extent.v
Objects.v
Mkfs.v
Swap.v
Hibernate.v
InitGraph.v
Supervisor.v
Nvme.v
NvmeQueue.v
NvmeIo.v
NetFilter.v
NetHeaders.v
Arp.v
Tcp.v
Dns.v
Icmp.v
NetService.v
NetSafety.v
Fat.v
FatVolume.v
FatDirs.v
FatTree.v
FatRefine.v
AbUpdate.v
Gpt.v
