(* ===== verification/Prelude.v ===== *)
(** * NexaCore OS: a verification development of its core components

    NexaCore OS is a capability-based operating system in Rust: a microkernel
    ([src/crates/nexacore-kernel]), a capability crate
    ([src/crates/nexacore-capability]) whose signed, attenuable tokens
    authorise every privileged action, a copy-on-write filesystem
    ([src/crates/nexacore-fs], format v3), and services around them: the
    service supervisor ([nexacore-init]), the NVMe driver
    ([nexacore-driver-nvme]), the network stack ([nexacore-net], with the
    packet types of [nexacore-types]), FAT volumes ([nexacore-fatfs]) and
    the installer ([nexacore-installer]).  This library models the code whose logic the rest relies
    on, as executable definitions, and proves what makes each part correct.

    ** Parts of the program and the files that model them

    - [Prelude]: outcomes ([result] for [Result], [exec] for code that can
      panic), machine integers as [Z] with their checked, wrapping and
      saturating operations, byte buffers and their ranges, ordered maps, the
      tactics and hint databases.  Every profile of the workspace sets
      [overflow-checks = true], so an overflowing [+], [-] or [*] is a panic.
    - [Bitmap], [Memory]: the physical frame allocator of
      [nexacore-kernel/src/memory.rs].  [Bitmap] relates machine words to
      lists of bits for any width; [Memory] is [BitmapFrameAllocator].
    - [Words], [Heap]: eight-byte words in memory, and the kernel heap of
      [bare_metal/heap.rs]: the bump heap and the slab heap whose free lists
      are threaded through the blocks themselves.
    - [Paging]: four-level page tables in physical memory and the address
      spaces over them ([bare_metal/paging.rs], [address_space.rs]), with
      frames from [Memory].
    - [Elf]: the ELF loader over [Paging] ([bare_metal/elf_loader.rs]).
    - [UserMem], [StackArgs]: copies to and from user memory, buffer
      validation and user stacks ([bare_metal/uaccess.rs], [usermode.rs],
      [user_stack.rs]), and the argument block of a new process
      ([user_stack_args.rs]).
    - [Shootdown]: the TLB shootdown protocol ([bare_metal/tlb_shootdown.rs])
      as steps of the initiator and of the interrupt handlers.
    - [RunQueue]: the run queues of the processors with their spin locks
      ([bare_metal/per_cpu_run_queue.rs]), as interleaved steps.
    - [Kernel]: system-call results, errno values and [KernelError]
      ([syscall.rs], [lib.rs]).
    - [Pipe], [Fd], [Console], [ProcessTable], [Vfs]: the tables of the kernel
      ([pipe.rs], [fd.rs], [console_input.rs], [process_table.rs], [vfs.rs]),
      each a record with one definition per method.
    - [Initramfs]: the boot archive and its loading into [Vfs]
      ([initramfs.rs]).
    - [Syscalls]: [KernelState] and every [handle_*] function of
      [syscall_handlers.rs], composed from those tables as in the code, error
      paths and errno mapping included.
    - [Swap]: [swap.rs], the swap header, slot map, swap-out and swap-in over a
      device interface, the zram store and the clock selector.
    - [Hibernate]: the image written before power-off and read back at resume
      ([hibernate.rs]).
    - [Scope], [Revocation], [Token]: the capability crate.  [Scope] has
      resources, actions, time windows, caveats and the subset tests
      ([scope.rs], [ttl.rs], [attenuation.rs]); [Revocation] the Bloom filter
      and the exact list ([revocation.rs]); [Token] tokens, chain links, the
      signed revocation list and the enforcement point ([token.rs], [crl.rs],
      [enforcement.rs], [attenuation.rs]).
    - [Ipc]: the channel registry of [ipc.rs] with the capability providers of
      [capabilities.rs], which call into [Token] and [Revocation].
    - [IpcCalls]: the channel system calls and TaskYield of
      [bare_metal/syscall_entry.rs] over [Ipc], [Scheduling] and [UserMem]: a
      call that blocks parks its task and repeats its loop when it runs again.
    - [Irq]: interrupt vectors bound to channels of [Ipc] ([irq_table.rs]).
    - [Scheduling]: the round-robin scheduler with its weighted fairness cycle
      ([scheduling.rs], host build) and the thermal policy ([thermal.rs]).
    - [Superblock], [BlockCache], [InodeTree], [Merkle], [Extent], [Objects],
      [Mkfs]: the v3 filesystem of [nexacore-fs/src/v3].  [Superblock] has the
      [BlockDevice] trait as a class, the in-memory device, the authenticated
      superblock, [commit] and [mount]; [BlockCache] the write-back cache and
      the retention tracker; [InodeTree] the persistent AVL tree; [Merkle] the
      keyed hash tree; [Extent] extents and the reference-counted allocation
      map; [Objects] inodes, directories and snapshots with their byte
      formats; [Mkfs] the composition of all of them in [format].
    - [InitGraph], [Supervisor]: [nexacore-init].  [InitGraph] has manifests,
      restart policies, back-off and the dependency graph ([lib.rs],
      [manifest.rs], [graph.rs]); [Supervisor] the supervisor over a
      [ServiceHost] ([supervisor.rs]).
    - [Nvme], [NvmeQueue], [NvmeIo]: [nexacore-driver-nvme].  [Nvme] has the
      rings, queue pairs, command encodings and controller registers;
      [NvmeQueue] their protocol against a model of the controller; [NvmeIo]
      the bring-up phases, sessions, Identify data, error handling, namespaces
      and PRP transfers.
    - [NetFilter]: the egress filter ([conntrack.rs], [allowlist.rs],
      [allowlist_view.rs], [egress_policy.rs], [enforcer.rs]).
    - [NetHeaders], [Arp], [Tcp]: packet headers and checksums
      ([nexacore-types/src/net.rs]), IP packets and routes ([ip.rs]), UDP
      sockets ([udp.rs]), the ARP table ([arp.rs]) and TCP ([tcp.rs]).
    - [Dns], [Icmp]: the resolver ([dns.rs]) and echo messages ([icmp.rs]).
    - [NetService], [NetSafety]: the service that composes the tables
      ([service.rs]: the frame path, socket requests and timers) and the
      typing invariant of its whole state.
    - [Fat], [FatVolume], [FatDirs], [FatTree], [FatRefine]:
      [nexacore-fatfs].  [Fat] has the reader ([lib.rs]), the writer over the
      bytes of an image ([write.rs]) and the formatter ([mkfat.rs]);
      [FatVolume] the table and the chains of clusters, [FatDirs] names and
      directories, [FatTree] the tree of files on a volume, and [FatRefine]
      the reader and the formatter against it.
    - [AbUpdate], [Gpt]: [nexacore-installer].  [AbUpdate] has the two system
      slots, their boot-control state and the verified write of an image
      ([ab.rs], [slotwrite.rs]) over a device of [Superblock]; [Gpt] the
      partition tables and the plan of an installation ([gpt.rs], [plan.rs],
      [mode.rs]).

    ** How the model follows the code

    A struct is a [Record], an enum an [Inductive] type with the same
    constructors, a [BTreeMap] or [HashMap] a [gmap] (iterated in key order
    where the code iterates), a [Vec] or [VecDeque] a [list].  A method that
    takes [&mut self] returns its result with the new state; the state is
    returned on every error path too, because the code may have changed it by
    then.  Global registries behind a lock are the state passed in.  Traits
    are classes: [KernelCapabilityCheck], [BlockDevice], [SwapDevice],
    [PageCompressor], [NfcCheck], [ServiceHost], [MmioBackend],
    [MmioReadBackend], [FrameSource], [FrameSink].  [Lowercase] is
    [str::to_lowercase], of which only the effect on ASCII is used.  [sort_unstable_by] is a class too ([UnstableSort]):
    any sorted permutation.  [ReliableDevice] states what the
    documentation of [BlockDevice] promises in the absence of I/O errors; the
    filesystem theorems are proved against it and [MemBlockDevice] implements
    it.  Strings are byte lists; UTF-8 validity is written out where the code
    checks it.

    Code outside the repository is a parameter: BLAKE3 ([blake3],
    [keyed_hash]; only the output length is assumed), Ed25519 (class
    [Ed25519], with the law that a signature made with a key verifies under
    it), the wire encodings (class [Wire]) and token decoding ([decode]),
    readings of the clock and of the TEE ([option] values, [None] for a
    failed reading).  Integrity statements about hashes are reductions: a
    forged proof yields a collision among the inputs its verification hashes.
    The loads and stores of the processor go through [mmu_walk] of [UserMem],
    the address translation of the architecture, with which the kernel's own
    walks are proved to agree; the NVMe controller and the firmware that
    reads a partition table follow their specifications in the same way.

    ** What the theorems show

    - Kernel: every system call keeps the well-formedness of the whole state,
      whatever its arguments ([kernel_invariant]), and panics only in the one
      way [kernel_panic_iff] names; pipes, files and processes behave as their
      callers expect through the handlers ([pipe_syscall_roundtrip],
      [file_syscall_roundtrip], [kill_wait], [wait_protocol]); pipes are FIFO
      streams ([pipe_fifo_stream]); frames are never handed out twice
      ([frames_exclusive]).
    - Memory: live blocks of the heap never overlap and keep their contents
      ([heap_exclusive], [heap_keeps_data]), and freed memory is reused
      ([free_then_allocate]); mapping and unmapping change the translation of
      exactly the page asked for ([map_4k_exact], [unmap_4k_exact]); address
      spaces refine independent user maps over one kernel map
      ([address_spaces_refine]); the access test is exact
      ([range_accessible_exact]).
    - Programs: a file that loads puts its segments, and zeros, at their
      addresses with frames of its own ([elf_load_exact]); copies to and from
      user memory never fault and touch exactly the range
      ([copy_from_user_exact], [copy_to_user_exact]); buffer validation is
      exact against the translation of the processor, large pages apart
      ([validate_user_buffer_exact]); a new stack is mapped over fresh
      frames with its guard ([allocate_user_stack_exact]); a process reads the
      arguments it was given ([stack_args_roundtrip]); the boot archive parses
      to what it was built from and loads as the specified tree
      ([initramfs_exact], [load_into_vfs_refines]).
    - Several processors: a completed shootdown of a page-aligned range leaves
      no stale translation of its bytes ([shootdown_complete]); no task is lost or run twice by the run queues
      ([run_queues_conserve]).
    - Interrupts: a binding stays with its owner ([irq_ownership]) and an
      interrupt is delivered once, as the kernel's message ([irq_delivery]).
    - Hibernation: resume writes back the frames of the image
      ([hibernate_roundtrip]) and refuses a damaged one before any write
      ([hibernate_detects]).
    - VFS: the inode graph refines a tree given by a map from canonical paths
      to nodes ([vfs_create_refines], [vfs_delete_refines]), reads return what
      was written ([vfs_write_read]), paths normalise to canonical ones
      ([vfs_normalize_canonical]).
    - Capabilities: the subset tests mean inclusion of the authorised actions
      ([scope_subset_sound]), attenuation and delegation chains only lose
      authority ([attenuation_exact], [attenuate_verifies],
      [chain_authority]), and the three decision procedures accept exactly
      what they should ([verify_full_exact], [check_capability_exact],
      [revocation_exact]).
    - IPC: queues stay within their bounds and quotas in every reachable
      registry ([ipc_invariant]), delivery is FIFO ([ipc_fifo]), and a channel
      opened with a signed token accepts sends of its subject only, for as
      long as it exists ([ipc_signed_channel]).  Through the system calls, no task sleeps on a
      channel that has what it waits for ([no_lost_wakeup]), and a message
      sent reaches the memory of the task that receives it
      ([ipc_transfer]).
    - Scheduling: while no real-time task is runnable, a queued task of every
      class the fairness cycle lists is picked within a bounded number of
      picks ([sched_no_starvation]); [background_starves_when_warm] shows
      where the documented guarantee fails.
    - Swap: the clock always finds a victim within its two sweeps and is a
      second-chance queue ([clock_second_chance]); swapping is lossless
      ([swap_roundtrip]).
    - Filesystem: commits are atomic under crashes ([commit_crash_atomic]),
      the cache is invisible and its barrier orders data before the
      superblock ([cache_transparent], [commit_barrier]), the inode tree is a
      balanced ordered map ([inode_tree_refines]), allocation is first-fit and
      never reuses live or retained blocks ([alloc_run_first_fit],
      [retain_protects]), Merkle proofs authenticate blocks
      ([merkle_authenticates]), every on-disk object round-trips
      ([superblock_codec], [inode_codec], [directory_codec],
      [snapshot_clone]), and formatting produces a mountable volume
      ([mkfs_mount], with the case where it does not).
    - Services: a set of manifests is accepted exactly when it is valid and
      acyclic, and the order puts every dependency first
      ([supervisor_new_exact], [start_stop_order]); a process the host runs is
      always one the supervisor tracks, as long as bring-ups are not repeated
      while services run ([supervisor_no_orphans]); a tick does
      what the restart policy says for each service ([tick_refines]), with
      delays given in closed form ([backoff_delay]).
    - NVMe: against a controller that follows the specification, commands are
      consumed in order and each completion is taken exactly once
      ([nvme_queue_protocol]), the rings stay well formed
      ([sq_ring_well_formed]), PRP entries address exactly the pages of the
      transfer ([prp_transfer_exact]), the bring-up reaches readiness exactly
      on the register values it should ([bringup_exact]) and commands decode
      to what was asked ([nvm_command_codec]).
    - Egress filter: an inbound packet is accepted only on a flow that an
      allowed outbound packet opened ([no_unsolicited_inbound],
      [reply_admitted]), lists permit what their rules say ([permits_exact])
      and rules survive their text form ([describe_parse_roundtrip]).
    - Packets: the sliced checksum equals the reference one on the
      concatenation and detects every change of one word
      ([checksum_equivalence], [checksum_detects]), headers round-trip
      ([headers_roundtrip]), a datagram sent is the datagram received
      ([udp_delivery]), routing is by longest prefix
      ([lookup_longest_prefix]), ephemeral ports are found whenever one is
      free ([allocate_ephemeral_exact]).
    - ARP: the table is well formed in every reachable state and hands over
      the packets that waited ([arp_invariant], [arp_delivers_pending]).
    - TCP: whatever the network drops, duplicates, reorders or delays, the
      bytes received are a prefix of the bytes sent ([tcp_stream_integrity]);
      what is not acknowledged is still queued for retransmission
      ([tcp_queue_covers]); the handshake establishes both ends
      ([handshake_establishes]); without loss everything arrives
      ([tcp_lossless_delivery]); segments survive their wire form
      ([segment_wire_roundtrip]).
    - Network service: two services connected by a network establish a
      connection through their frames and sockets ([service_connects]), each
      Connect request is answered once ([connect_replies_balance]), and no
      frame whatever makes the service panic ([frames_never_panic]); a
      response built for a query decodes to its addresses
      ([dns_response_decoded]); a ping is answered ([ping_roundtrip]).
    - FAT volumes: whatever is written to a formatted volume, some writes
      failing, the reader finds the tree that an abstract file system holds
      ([fat_refines]), and the data of every write that succeeded
      ([fat_write_read]).
    - Updates: a machine that updates from a proven slot never boots a partial
      image and always finds its way back to a slot that has booted before
      ([ab_update_safe]).
    - Partition tables: plans are aligned, disjoint and clear of the tables
      ([plan_partitions_exact]), and the tables pass the checks of firmware
      and give back the partitions ([gpt_roundtrip]).
    - Behaviours that differ from the documentation are theorems too:
      [close_duplicate_breaks_pipe], [evict_error_loses_write],
      [merkle_root_duplicate_tail], [background_starves_when_warm],
      [free_frame_below_base], [lost_ack_resets],
      [syn_retransmission_garbled], [domain_rules_block_packets],
      [parse_ipv4_panics_iff], [arp_learned_mapping_lost],
      [default_table_panics], [options_refused],
      [refused_connect_times_out], [reloc_writes_kernel], [unmap_4k_huge],
      [bump_wraps], [parse_overflow], [huge_page_content_decides],
      [stack_not_cleared], [failed_stack_poisons_slot], [entry_escapes_bin],
      [unaligned_range_missed], [late_ack_counted], [scan_misses_task],
      [irq_wakeup_lost], [destroy_strands_waiter], [open_panics],
      [geometry_short_table], [second_update_bricks], [second_start_orphans],
      [nul_argument_cut], [one_sector_root_refused], and the relevant parts of [kernel_panic_iff],
      [check_capability_exact], [scope_preorder], [extent_map_exact] and
      [mkfs_mount].

    ** Fuel and bounds

    Loops that are not structural run on fuel: the descriptor scan of
    [Fd.open] (size of the table plus one), the eviction loop of [BlockCache]
    (number of entries), the level loops of [Merkle] (number of nodes), the
    first-fit search of [Extent] (number of blocks plus one), the decoders
    of [Objects] (length of the buffer), Kahn's algorithm in [InitGraph]
    (number of services plus one), and in [NetHeaders], [NetFilter] and [Tcp]
    the carry folding (3), digit printing (5), chunking (length of the data)
    and option scanning (length of the buffer, each round taking a byte).  Likewise the large-run
    search of [Heap] (the runs that fit the arena), the page loops of [Paging]
    and [UserMem] (one unit per page), the search for the relocation section
    in [Elf] and the parser of [Initramfs] (length of the file) and the record
    loop of [Hibernate] (length of the payload plus one), and in [Fat] the
    directory parser and the chunks of a file (length of the data) and the
    choice of a cluster size (8, as seven doublings reach 128); [Dns] recurses on
    the number of hops the code allows, and the chain walks of [Fat] on the
    cluster count, as the code does.  In each case the lemmas about the
    loop ([open_scan_spec], [evict_ok], [root_loop_fuel],
    [alloc_run_loop_ok], [decode_tail], [decode_chunks_encode],
    [kahn_loop_done],
    [fold_carries_spec], [digits_loop_spec], [chunks_loop_spec]) show that the
    fuel is enough to reach the loop's own exit.  The two-sweep bound of
    [Swap.select_victim] is the code's.  [Shootdown]
    and [RunQueue] have no fuel: a schedule is any list of steps, each one
    atomic access, executed in sequentially consistent order.  The TCP stream theorems bound a
    stream by 2^31 bytes, half the sequence space, beyond which the code's
    wrapping comparison is ambiguous for segments of any age.

    ** Not modelled

    Allocation failure; the assembly of the bare-metal layer (context switch,
    interrupt and system-call entry, boot) and the memory orderings weaker
    than sequential consistency; the text of error messages; the v2 volume
    format, tmpfs, procfs and devfs; encryption and compression of blocks,
    which call third-party libraries; DHCP and IPv6 configuration; the other
    drivers; user interface, shell and AI services.

    ** What is left

    Self-contained parts that could follow in the same style: driver
    manifests and matching and the capability deposit of the kernel, the
    capability sandbox, the bitmap allocator and v2 volume of [nexacore-fs],
    the boot entries of the installer, DHCP, and the configuration and log
    stores. *)

From stdpp Require Export base option list list_numbers gmap sets strings sorting relations.
From Stdlib Require Export ZArith Lia.

Declare Scope nexa_scope.
Delimit Scope nexa_scope with nexa.
#[global] Open Scope Z_scope.
#[export] Set Warnings "-clear-no-such-hyp".

(** ** Outcomes of Rust code

    [result E A] is Rust's [Result<A, E>].  [exec A] is the outcome of code
    that can panic: every profile of the workspace keeps [overflow-checks]
    on, so an out-of-range [+], [-] or [*] on a machine integer, and an
    index out of bounds, abort the program. *)

Inductive result (E A : Type) : Type :=
| Ok (a : A)
| Err (e : E).
Arguments Ok {E A} a.
Arguments Err {E A} e.

Inductive exec (A : Type) : Type :=
| Done (a : A)
| Panic.
Arguments Done {A} a.
Arguments Panic {A}.

#[export] Instance result_eq_dec {E A} `{EqDecision E, EqDecision A} :
  EqDecision (result E A).
Proof. solve_decision. Defined.

#[export] Instance exec_eq_dec {A} `{EqDecision A} : EqDecision (exec A).
Proof. solve_decision. Defined.

#[export] Instance result_ret {E} : MRet (result E) := fun A a => Ok a.
#[export] Instance result_bind {E} : MBind (result E) := fun A B f m =>
  match m with Ok a => f a | Err e => Err e end.
#[export] Instance exec_ret : MRet exec := fun A a => Done a.
#[export] Instance exec_bind : MBind exec := fun A B f m =>
  match m with Done a => f a | Panic => Panic end.

(** [Option::ok_or] and the test for success. *)
Definition ok_or {E A} (o : option A) (e : E) : result E A :=
  match o with Some a => Ok a | None => Err e end.

Definition is_ok {E A} (r : result E A) : bool :=
  match r with Ok _ => true | Err _ => false end.

(** [v[i]]: indexing a slice, which panics out of bounds. *)
Definition index {A} (v : list A) (i : Z) : exec A :=
  match v !! Z.to_nat i with Some a => Done a | None => Panic end.

(** [v[i] = x]. *)
Definition index_set {A} (v : list A) (i : Z) (x : A) : exec (list A) :=
  match v !! Z.to_nat i with
  | Some _ => Done (<[Z.to_nat i := x]> v)
  | None => Panic
  end.

(** ** Machine integers of width [w], as [Z] *)

Definition in_uint (w z : Z) : Prop := 0 <= z < 2 ^ w.
#[global] Arguments in_uint w z : simpl never.

Definition uint_max (w : Z) : Z := 2 ^ w - 1.

Definition checked_add (w a b : Z) : option Z :=
  if a + b <? 2 ^ w then Some (a + b) else None.
Definition checked_mul (w a b : Z) : option Z :=
  if a * b <? 2 ^ w then Some (a * b) else None.
Definition wrapping_add (w a b : Z) : Z := (a + b) mod 2 ^ w.
Definition wrapping_mul (w a b : Z) : Z := (a * b) mod 2 ^ w.
Definition saturating_add (w a b : Z) : Z := Z.min (uint_max w) (a + b).
Definition saturating_mul (w a b : Z) : Z := Z.min (uint_max w) (a * b).
Definition saturating_sub (a b : Z) : Z := Z.max 0 (a - b).

(** The plain operators, which panic on overflow. *)
Definition add_uint (w a b : Z) : exec Z :=
  if a + b <? 2 ^ w then Done (a + b) else Panic.
Definition sub_uint (a b : Z) : exec Z :=
  if b <=? a then Done (a - b) else Panic.
Definition mul_uint (w a b : Z) : exec Z :=
  if a * b <? 2 ^ w then Done (a * b) else Panic.

(** [!x] on a [w]-bit integer. *)
Definition not_uint (w x : Z) : Z := Z.lxor (Z.ones w) x.

(** [u32::MAX << (32 - prefix)], and 0 for the empty prefix: the mask of an IPv4 network. *)
Definition prefix_mask (prefix : Z) : Z :=
  if prefix =? 0 then 0 else Z.shiftl (uint_max 32) (32 - prefix) mod 2 ^ 32.
#[global] Arguments prefix_mask prefix : simpl never.

(** ** Bytes *)

Abbreviation bytes := (list Z).
Definition is_byte (b : Z) : Prop := 0 <= b < 256.
Definition is_bytes (l : bytes) : Prop := Forall is_byte l.
#[global] Arguments is_byte b : simpl never.
#[global] Arguments is_bytes l : simpl never.

(** [x.to_le_bytes()] for an [n]-byte integer and [from_le_bytes]. *)
Definition to_le (n z : Z) : bytes := Z_to_little_endian n 8 z.
Definition from_le (l : bytes) : Z := little_endian_to_Z 8 l.
#[global] Arguments to_le n z : simpl never.
#[global] Arguments from_le l : simpl never.

(** [buf.get(off..off + n)]. *)
Definition get_range {A} (l : list A) (off n : Z) : option (list A) :=
  if off + n <=? Z.of_nat (length l) then Some (take (Z.to_nat n) (drop (Z.to_nat off) l)) else None.

(** [buf[off..off + d.len()].copy_from_slice(d)] on a buffer that is long enough. *)
Definition splice {A} (l : list A) (off : nat) (d : list A) : list A :=
  take off l ++ d ++ drop (off + length d) l.

(** [if let Some(s) = buf.get_mut(off..off + d.len()) { s.copy_from_slice(d) }]. *)
Definition put_range {A} (l : list A) (off : Z) (d : list A) : list A :=
  if off + Z.of_nat (length d) <=? Z.of_nat (length l) then splice l (Z.to_nat off) d else l.

(** ** Ordered maps

    A [BTreeMap<u64, A>] is a [gmap Z A]; its iteration is in key order. *)

Definition key_le {A} (x y : Z * A) : Prop := x.1 <= y.1.
#[export] Instance key_le_dec {A} : RelDecision (@key_le A).
Proof. intros x y. unfold key_le. apply _. Defined.

Definition btree_iter {A} (m : gmap Z A) : list (Z * A) := merge_sort key_le (map_to_list m).

(** ** Strings

    A string is its list of characters; [str_leb] is Rust's [Ord] on [str],
    which orders a [BTreeMap] or a [BTreeSet] with string keys. *)

Abbreviation str := (list Z).

Fixpoint str_leb (a b : str) : bool :=
  match a, b with
  | [], _ => true
  | _ :: _, [] => false
  | x :: a, y :: b => if x =? y then str_leb a b else x <? y
  end.

Definition str_le (a b : str) : Prop := str_leb a b = true.
#[export] Instance str_le_dec : RelDecision str_le.
Proof. intros x y. unfold str_le. apply _. Defined.

Definition name_le {A} (x y : str * A) : Prop := str_leb x.1 y.1 = true.
#[export] Instance name_le_dec {A} : RelDecision (@name_le A).
Proof. intros x y. unfold name_le. apply _. Defined.

(** [for (k, v) in &map] and [for k in &set]. *)
Definition btree_str_iter {A} (m : gmap str A) : list (str * A) := merge_sort name_le (map_to_list m).
Definition btree_set_iter (s : gset str) : list str := merge_sort str_le (elements s).

(** [s.split(c)]: the pieces between the separators, at least one. *)
Fixpoint split_on (sep : Z -> bool) (s : str) : list str :=
  match s with
  | [] => [[]]
  | c :: s =>
      if sep c then [] :: split_on sep s
      else match split_on sep s with
           | piece :: rest => (c :: piece) :: rest
           | [] => [[c]]
           end
  end.

Definition cont (b : Z) : bool := (128 <=? b) && (b <=? 191).
Definition between (lo hi b : Z) : bool := (lo <=? b) && (b <=? hi).

(** [core::str::from_utf8(..).is_ok()]. *)
Fixpoint utf8_valid (l : bytes) : bool :=
  match l with
  | [] => true
  | a :: l1 =>
      if a <? 128 then utf8_valid l1
      else
        match l1 with
        | [] => false
        | b :: l2 =>
            if between 194 223 a then cont b && utf8_valid l2
            else
              match l2 with
              | [] => false
              | c :: l3 =>
                  if a =? 224 then between 160 191 b && cont c && utf8_valid l3
                  else if a =? 237 then between 128 159 b && cont c && utf8_valid l3
                  else if between 225 239 a then cont b && cont c && utf8_valid l3
                  else
                    match l3 with
                    | [] => false
                    | d :: l4 =>
                        (if a =? 240 then between 144 191 b
                         else if a =? 244 then between 128 143 b
                         else between 241 243 a && cont b)
                        && cont c && cont d && utf8_valid l4
                    end
              end
        end
  end.

(** ** Tactics and hint databases *)

Create HintDb nexa.
Create Rewrite HintDb len.

#[export] Hint Rewrite @length_app @length_cons @length_nil @length_fmap @length_insert
  @length_replicate @length_take @length_drop @length_seqZ : len.

(** Normalises list lengths and closes the arithmetic goal. *)
Ltac len := autorewrite with len in *; simpl in *; lia.

(** Splits the boolean comparisons of a goal into propositions. *)
Ltac zbool :=
  repeat match goal with
  | H : (_ <? _) = true |- _ => apply Z.ltb_lt in H
  | H : (_ <? _) = false |- _ => apply Z.ltb_ge in H
  | H : (_ <=? _) = true |- _ => apply Z.leb_le in H
  | H : (_ <=? _) = false |- _ => apply Z.leb_gt in H
  | H : (_ =? _) = true |- _ => apply Z.eqb_eq in H
  | H : (_ =? _) = false |- _ => apply Z.eqb_neq in H
  | H : (_ >? _) = _ |- _ => rewrite Z.gtb_ltb in H
  | H : (_ >=? _) = _ |- _ => rewrite Z.geb_leb in H
  | H : negb _ = true |- _ => apply negb_true_iff in H
  | H : negb _ = false |- _ => apply negb_false_iff in H
  | H : andb _ _ = true |- _ => apply andb_true_iff in H as [? ?]
  | H : orb _ _ = false |- _ => apply orb_false_iff in H as [? ?]
  end.

(** Case analysis on the innermost match or boolean test of the goal. *)
Ltac case_code :=
  match goal with
  | |- context [if ?b then _ else _] =>
      lazymatch b with context [if _ then _ else _] => fail | _ => destruct b eqn:? end
  | |- context [match ?x with _ => _ end] =>
      lazymatch x with context [match _ with _ => _ end] => fail | _ => destruct x eqn:? end
  end.

(** All the branches of the code in the goal. *)
Ltac cases := simpl; repeat (case_code; simpl); try done.

(** The same in a hypothesis. *)
Ltac case_code_in H :=
  match type of H with
  | context [match ?x with _ => _ end] =>
      lazymatch x with context [match _ with _ => _ end] => fail | _ => destruct x eqn:? end
  end.

(** Replaces a machine operation by its exact value, with the range side condition left to [lia]. *)
Ltac uint_ok :=
  repeat match goal with
  | |- context [?a <? ?b] => rewrite (proj2 (Z.ltb_lt a b)) by lia
  | |- context [?a <=? ?b] => rewrite (proj2 (Z.leb_le a b)) by lia
  end.

(** ** Lemmas on the primitives *)

Lemma index_Done {A} (v : list A) i x :
  v !! Z.to_nat i = Some x -> index v i = Done x.
Proof. unfold index. by intros ->. Qed.

Lemma index_set_Done {A} (v : list A) i x :
  (Z.to_nat i < length v)%nat -> index_set v i x = Done (<[Z.to_nat i := x]> v).
Proof.
  intros H. unfold index_set. by destruct (lookup_lt_is_Some_2 v _ H) as [y ->].
Qed.

Lemma add_uint_Done w a b : a + b < 2 ^ w -> add_uint w a b = Done (a + b).
Proof. unfold add_uint. intros. by uint_ok. Qed.

Lemma bind_Done {A B} (m : exec A) (k : A -> exec B) b :
  (m ≫= k) = Done b -> exists a, m = Done a /\ k a = Done b.
Proof. destruct m as [a|]; [|done]. intros Hk. by exists a. Qed.

Lemma sub_uint_Done a b : b <= a -> sub_uint a b = Done (a - b).
Proof. unfold sub_uint. intros. by uint_ok. Qed.

Lemma mul_uint_Done w a b : a * b < 2 ^ w -> mul_uint w a b = Done (a * b).
Proof. unfold mul_uint. intros. by uint_ok. Qed.

(** Bit [k] of a word, as code tests it with a mask. *)
Lemma land_pow2 x k : 0 <= k -> negb (Z.land x (2 ^ k) =? 0) = Z.testbit x k.
Proof.
  intros Hk. destruct (Z.eqb_spec (Z.land x (2 ^ k)) 0) as [E|E]; cbn [negb].
  - assert (Z.testbit (Z.land x (2 ^ k)) k = false) as H by (by rewrite E, Z.bits_0).
    by rewrite Z.land_spec, Z.pow2_bits_true, andb_true_r in H.
  - destruct (Z.testbit x k) eqn:Et; [done|]. exfalso. apply E. apply Z.bits_inj'. intros n Hn.
    rewrite Z.land_spec, Z.bits_0, Z.pow2_bits_eqb by done. destruct (Z.eqb_spec k n) as [<-|]; [by rewrite Et|by rewrite andb_false_r].
Qed.

(** Joining two bit fields is adding them. *)
Lemma lor_shiftl k a b : 0 <= k -> 0 <= a < 2 ^ k -> Z.lor a (Z.shiftl b k) = a + b * 2 ^ k.
Proof.
  intros Hk Ha. rewrite Z.shiftl_mul_pow2 by done.
  assert (Hz : Z.land a (b * 2 ^ k) = 0).
  { apply Z.bits_inj'. intros i Hi.
    rewrite Z.land_spec, Z.bits_0, <- Z.shiftl_mul_pow2, Z.shiftl_spec by lia.
    destruct (Z.ltb_spec i k); [rewrite (Z.testbit_neg_r b) by lia; apply andb_false_r|].
    rewrite <- (Z.mod_small a (2 ^ k)), Z.mod_pow2_bits_high by lia. done. }
  by rewrite <- Z.lxor_lor, <- Z.add_nocarry_lxor.
Qed.

Lemma prefix_mask_bit prefix n :
  0 <= prefix <= 32 -> 0 <= n -> Z.testbit (prefix_mask prefix) n = (32 - prefix <=? n) && (n <? 32).
Proof.
  intros Hp Hn. unfold prefix_mask. destruct (Z.eqb_spec prefix 0) as [->|].
  { rewrite Z.bits_0. lia. }
  destruct (Z.ltb_spec n 32).
  - rewrite Z.mod_pow2_bits_low by lia. rewrite Z.shiftl_spec by lia.
    change (uint_max 32) with (Z.ones 32).
    destruct (Z.leb_spec (32 - prefix) n); [by rewrite Z.ones_spec_low by lia|].
    by rewrite Z.testbit_neg_r by lia.
  - rewrite Z.mod_pow2_bits_high by lia. by rewrite andb_false_r.
Qed.

Lemma land_prefix_mask ip prefix :
  in_uint 32 ip -> 0 <= prefix <= 32 ->
  Z.land ip (prefix_mask prefix) = ip / 2 ^ (32 - prefix) * 2 ^ (32 - prefix).
Proof.
  intros Hip Hp. unfold in_uint in Hip.
  rewrite <- Z.shiftl_mul_pow2, <- Z.shiftr_div_pow2 by lia. apply Z.bits_inj'. intros n Hn.
  rewrite Z.land_spec, prefix_mask_bit, Z.shiftl_spec by lia.
  destruct (Z.leb_spec (32 - prefix) n).
  - rewrite Z.shiftr_spec by lia. replace (n - (32 - prefix) + (32 - prefix)) with n by lia.
    destruct (Z.ltb_spec n 32); simpl; [apply andb_true_r|]. rewrite andb_false_r. symmetry.
    apply (Z.testbit_false ip n Hn). rewrite Z.div_small; [done|]. split; [lia|].
    apply Z.lt_le_trans with (2 ^ 32); [lia|]. apply Z.pow_le_mono_r; lia.
  - rewrite andb_false_r, Z.testbit_neg_r by lia. done.
Qed.

(** Rule induction for reachability: an invariant of one step holds in every
    state reached from a state where it holds. *)
Lemma reach_inv {A} (R : relation A) (P : A -> Prop) x y :
  (forall s s', R s s' -> P s -> P s') -> P x -> rtc R x y -> P y.
Proof. intros Hstep HP Hr. induction Hr as [|x z y Hxz _ IH]; eauto. Qed.

(** The same for a machine that is a function of its input. *)
Lemma foldl_invariant {S E} (P : S -> Prop) (f : S -> E -> S) evs s :
  (forall s ev, P s -> P (f s ev)) -> P s -> P (foldl f s evs).
Proof. intros Hstep. revert s. induction evs as [|ev evs IH]; simpl; auto. Qed.

#[export] Instance key_le_total {A} : Total (@key_le A).
Proof. intros x y. unfold key_le. lia. Qed.
#[export] Instance key_le_trans {A} : Transitive (@key_le A).
Proof. intros x y z. unfold key_le. lia. Qed.

Lemma btree_iter_perm {A} (m : gmap Z A) : btree_iter m ≡ₚ map_to_list m.
Proof. apply merge_sort_Permutation. Qed.

Lemma elem_of_btree_iter {A} (m : gmap Z A) k x : (k, x) ∈ btree_iter m <-> m !! k = Some x.
Proof. rewrite btree_iter_perm. apply elem_of_map_to_list. Qed.

Lemma btree_iter_sorted {A} (m : gmap Z A) : StronglySorted key_le (btree_iter m).
Proof. apply StronglySorted_merge_sort; apply _. Qed.

Lemma NoDup_btree_iter {A} (m : gmap Z A) : NoDup (btree_iter m).*1.
Proof. rewrite btree_iter_perm. apply NoDup_fst_map_to_list. Qed.

Lemma str_leb_total a b : str_leb a b = true \/ str_leb b a = true.
Proof.
  revert b. induction a as [|x a IH]; intros [|y b]; simpl; auto.
  rewrite (Z.eqb_sym y x). destruct (Z.eqb_spec x y); [apply IH|].
  destruct (Z.lt_total x y) as [?|[?|?]]; [left|done|right]; by apply Z.ltb_lt.
Qed.

Lemma str_leb_trans a b c : str_leb a b = true -> str_leb b c = true -> str_leb a c = true.
Proof.
  revert b c. induction a as [|x a IH]; intros [|y b] [|z c]; simpl; try done.
  destruct (Z.eqb_spec x y), (Z.eqb_spec y z), (Z.eqb_spec x z); subst; try lia; eauto;
    rewrite ?Z.ltb_lt; intros; lia.
Qed.

Lemma str_leb_antisym a b : str_leb a b = true -> str_leb b a = true -> a = b.
Proof.
  revert b. induction a as [|x a IH]; intros [|y b]; simpl; try done.
  rewrite (Z.eqb_sym y x). destruct (Z.eqb_spec x y) as [->|]; [intros; f_equal; eauto|].
  rewrite !Z.ltb_lt. lia.
Qed.

#[export] Instance str_le_total : Total str_le.
Proof. intros x y. apply str_leb_total. Qed.
#[export] Instance str_le_trans : Transitive str_le.
Proof. intros x y z. apply str_leb_trans. Qed.
#[export] Instance name_le_total {A} : Total (@name_le A).
Proof. intros x y. apply str_leb_total. Qed.
#[export] Instance name_le_trans {A} : Transitive (@name_le A).
Proof. intros x y z. apply str_leb_trans. Qed.

Lemma btree_str_iter_perm {A} (m : gmap str A) : btree_str_iter m ≡ₚ map_to_list m.
Proof. apply merge_sort_Permutation. Qed.

Lemma elem_of_btree_str_iter {A} (m : gmap str A) k x : (k, x) ∈ btree_str_iter m <-> m !! k = Some x.
Proof. rewrite btree_str_iter_perm. apply elem_of_map_to_list. Qed.

Lemma NoDup_btree_str_iter {A} (m : gmap str A) : NoDup (btree_str_iter m).*1.
Proof. rewrite btree_str_iter_perm. apply NoDup_fst_map_to_list. Qed.

Lemma elem_of_btree_set_iter (s : gset str) k : k ∈ btree_set_iter s <-> k ∈ s.
Proof. unfold btree_set_iter. rewrite merge_sort_Permutation. apply elem_of_elements. Qed.

(** [set.iter().next()] is the least element. *)
Lemma btree_set_first (s : gset str) :
  match btree_set_iter s with
  | [] => s = ∅
  | k :: _ => k ∈ s /\ forall k', k' ∈ s -> str_le k k'
  end.
Proof.
  pose proof (elem_of_btree_set_iter s) as He.
  assert (StronglySorted str_le (btree_set_iter s)) as Hs by (apply StronglySorted_merge_sort; apply _).
  destruct (btree_set_iter s) as [|k l]; [set_solver|].
  split; [apply He; left|]. intros k' Hk. apply He in Hk. inversion Hs as [|? ? _ Hf]; subst.
  apply elem_of_cons in Hk as [->|Hk]; [by destruct (str_leb_total k k)|].
  by eapply Forall_forall in Hf.
Qed.

(** Induction on a list two elements at a time. *)
Lemma pair_ind {A} (P : list A -> Prop) :
  P [] -> (forall x, P [x]) -> (forall x y l, P l -> P (x :: y :: l)) -> forall l, P l.
Proof.
  intros H0 H1 H2 l. enough (P l /\ forall x, P (x :: l)) by tauto.
  induction l as [|y l [IH1 IH2]]; auto.
Qed.

(** No character of the string is a separator. *)
Definition free_of (sep : Z -> bool) (s : str) : Prop := Forall (fun c => sep c = false) s.

Lemma split_on_free sep s : free_of sep s -> split_on sep s = [s].
Proof. induction 1 as [|c s Hc _ IH]; simpl; [done|]. by rewrite Hc, IH. Qed.

Lemma split_on_sep sep a c s :
  free_of sep a -> sep c = true -> split_on sep (a ++ c :: s) = a :: split_on sep s.
Proof.
  intros Ha Hc. induction Ha as [|x a Hx _ IH]; simpl; [by rewrite Hc|]. by rewrite Hx, IH.
Qed.

(** [s.strip_suffix(suf)]. *)
Definition strip_suffix (suf s : list Z) : option (list Z) :=
  if bool_decide (suf `suffix_of` s) then Some (take (length s - length suf) s) else None.

Lemma strip_suffix_Some suf s p : strip_suffix suf s = Some p <-> s = p ++ suf.
Proof.
  unfold strip_suffix. split.
  - case_bool_decide as H; [|done]. destruct H as [k ->]. rewrite length_app, Nat.add_sub.
    rewrite take_app_length. by intros [= ->].
  - intros ->. rewrite bool_decide_eq_true_2 by (by exists p). by rewrite length_app, Nat.add_sub, take_app_length.
Qed.

Lemma filter_keep_all {A} (P : A -> Prop) `{!forall x, Decision (P x)} (l : list A) :
  (forall x, x ∈ l -> P x) -> filter P l = l.
Proof.
  induction l as [|x l IH]; intros Hall; [done|].
  rewrite filter_cons_True by (apply Hall; left). f_equal. apply IH. intros y Hy. apply Hall. by right.
Qed.

Lemma filter_none {A} (P : A -> Prop) `{!forall x, Decision (P x)} (l : list A) :
  (forall x, x ∈ l -> ~ P x) -> filter P l = [].
Proof.
  induction l as [|x l IH]; intros Hall; [done|].
  rewrite filter_cons_False by (apply Hall; left). apply IH. intros y Hy. apply Hall. by right.
Qed.

Lemma length_splice {A} (l : list A) off d :
  (off + length d <= length l)%nat -> length (splice l off d) = length l.
Proof. intros H. unfold splice. rewrite !length_app, length_take, length_drop. lia. Qed.

Lemma length_put_range {A} (l : list A) off d : 0 <= off -> length (put_range l off d) = length l.
Proof.
  intros Ho. unfold put_range. destruct (_ <=? _) eqn:E; zbool; [|done]. apply length_splice. lia.
Qed.

Lemma get_put_same {A} (l : list A) off d n :
  0 <= off -> n = Z.of_nat (length d) -> off + n <= Z.of_nat (length l) ->
  get_range (put_range l off d) off n = Some d.
Proof.
  intros Ho -> Hl. unfold get_range. rewrite length_put_range by done. unfold put_range, splice. uint_ok. f_equal.
  rewrite drop_app_ge by (rewrite length_take; lia). rewrite length_take, Nat.min_l by lia.
  rewrite Nat.sub_diag, drop_0, take_app_le by lia. by rewrite take_ge by lia.
Qed.

Lemma get_put_other {A} (l : list A) off d off' n :
  0 <= off -> 0 <= off' -> 0 <= n -> off' + n <= off \/ off + Z.of_nat (length d) <= off' ->
  get_range (put_range l off d) off' n = get_range l off' n.
Proof.
  intros Ho Ho' Hn Hd. unfold get_range. rewrite length_put_range by done.
  destruct (off' + n <=? _) eqn:E; zbool; [|done]. f_equal. unfold put_range.
  destruct (off + _ <=? _) eqn:E2; zbool; [|done]. unfold splice.
  apply list_eq. intros i. destruct (decide (i < Z.to_nat n)%nat) as [Hi|Hi];
    [|by rewrite !lookup_take_ge by lia].
  rewrite !lookup_take_lt, !lookup_drop by lia. destruct Hd.
  - rewrite lookup_app_l by (rewrite length_take; lia). by rewrite lookup_take_lt by lia.
  - rewrite lookup_app_r by (rewrite length_take; lia). rewrite length_take, Nat.min_l by lia.
    rewrite lookup_app_r by lia. rewrite lookup_drop. f_equal. lia.
Qed.

Lemma get_range_length {A} (l : list A) off n d :
  0 <= off -> 0 <= n -> get_range l off n = Some d -> Z.of_nat (length d) = n.
Proof.
  intros Ho Hn. unfold get_range. destruct (_ <=? _) eqn:E; zbool; [|done]. intros [= <-].
  rewrite length_take, length_drop. lia.
Qed.

Lemma get_range_Some {A} (l : list A) off n :
  off + n <= Z.of_nat (length l) -> exists d, get_range l off n = Some d.
Proof. intros H. unfold get_range. uint_ok. eauto. Qed.

Lemma get_range_after {A} (a b r : list A) off n :
  Z.of_nat (length a) = off -> Z.of_nat (length b) = n -> get_range (a ++ b ++ r) off n = Some b.
Proof.
  intros Ha Hb. unfold get_range. rewrite !length_app, (proj2 (Z.leb_le _ _)) by lia. f_equal.
  replace (Z.to_nat off) with (length a) by lia. rewrite drop_app_length.
  replace (Z.to_nat n) with (length b) by lia. apply take_app_length.
Qed.

Lemma length_to_le n z : 0 <= n -> length (to_le n z) = Z.to_nat n.
Proof.
  intros Hn. unfold to_le.
  pose proof (length_Z_to_little_endian n 8 z Hn). lia.
Qed.

Lemma to_le_bytes n z : 0 <= n -> is_bytes (to_le n z).
Proof. intros Hn. unfold to_le, is_bytes. by apply (Z_to_little_endian_bound n 8). Qed.

Lemma from_to_le n z : 0 <= n -> in_uint (n * 8) z -> from_le (to_le n z) = z.
Proof.
  intros Hn Hz. unfold from_le, to_le.
  rewrite little_endian_to_Z_to_little_endian by lia.
  by apply Z.mod_small.
Qed.

Lemma to_from_le l : is_bytes l -> to_le (Z.of_nat (length l)) (from_le l) = l.
Proof. intros H. unfold to_le, from_le. by apply Z_to_little_endian_to_Z. Qed.

Lemma from_le_bound l : is_bytes l -> in_uint (Z.of_nat (length l) * 8) (from_le l).
Proof. intros H. unfold from_le, in_uint. by apply little_endian_to_Z_bound. Qed.

#[export] Hint Resolve to_le_bytes from_le_bound : nexa.

(** ** Fixed-layout encodings

    [lengths] closes the side conditions about the sizes of encoded fields
    and [ranges] reads a field back through a chain of writes. *)
Create Rewrite HintDb rlen.
#[export] Hint Rewrite @length_replicate : rlen.
#[export] Hint Rewrite @length_put_range @length_to_le using lia : rlen.

Ltac lengths := autorewrite with rlen; simpl length; lia.
Ltac ranges := repeat first [rewrite get_put_same by lengths | rewrite get_put_other by lengths].

(** ** [slice::chunks] *)

(** The length of the slice is enough fuel. *)
Fixpoint chunks_of (fuel : nat) (n : nat) (d : bytes) : list bytes :=
  match fuel, d with
  | S fuel, _ :: _ => take n d :: chunks_of fuel n (drop n d)
  | _, _ => []
  end.
Definition pad_to (n : nat) (d : bytes) : bytes := d ++ replicate (n - length d) 0.

(** The chunks, each filled up with zeros, are the data and zeros. *)
Lemma chunks_of_pad n fuel d :
  (0 < n)%nat -> (length d <= fuel)%nat ->
  Forall (fun x => (length x <= n)%nat) (chunks_of fuel n d) /\ exists k, concat (pad_to n <$> chunks_of fuel n d) = d ++ replicate k 0.
Proof.
  intros Hn. revert d. induction fuel as [|fuel IH]; intros d Hd; destruct d as [|x d]; try (simpl in Hd; lia); try (split; [constructor|by exists O]).
  cbn [chunks_of]. set (l := x :: d) in *. assert (length l = S (length d)) by done. destruct (IH (drop n l)) as [IH1 [k IH2]]; [rewrite length_drop; lia|].
  split; [constructor; [rewrite length_take; lia|done]|]. cbn [fmap list_fmap concat]. rewrite IH2. unfold pad_to. rewrite length_take.
  destruct (decide (n <= length l)%nat).
  - exists k. rewrite Nat.min_l, Nat.sub_diag by lia. cbn [replicate]. rewrite app_nil_r, app_assoc, take_drop. done.
  - exists (n - length l + k)%nat. rewrite Nat.min_r by lia. rewrite take_ge, drop_ge by lia. rewrite replicate_add, <- app_assoc. done.
Qed.

Lemma lxor_uint w a b : 0 <= w -> in_uint w a -> in_uint w b -> in_uint w (Z.lxor a b).
Proof.
  intros Hw Ha Hb. unfold in_uint in *. assert (Z.lxor a b = Z.lxor a b mod 2 ^ w) as ->; [|apply Z.mod_pos_bound; lia].
  apply Z.bits_inj'. intros n Hn. rewrite <- Z.land_ones, Z.land_spec by done. destruct (Z.lt_ge_cases n w).
  - rewrite Z.ones_spec_low by lia. by rewrite andb_true_r.
  - rewrite Z.ones_spec_high, andb_false_r, Z.lxor_spec by lia.
    rewrite <- (Z.mod_small a (2 ^ w)), <- (Z.mod_small b (2 ^ w)), !Z.mod_pow2_bits_high by lia. done.
Qed.

(** ** Slices *)

Definition bytes_at (l : bytes) (off n : Z) : bytes := take (Z.to_nat n) (drop (Z.to_nat off) l).

Lemma get_bytes_at l off n : off + n <= Z.of_nat (length l) -> get_range l off n = Some (bytes_at l off n).
Proof. intros H. unfold get_range. by rewrite (proj2 (Z.leb_le _ _)) by lia. Qed.

Lemma length_bytes_at l off n : 0 <= off -> 0 <= n -> off + n <= Z.of_nat (length l) -> length (bytes_at l off n) = Z.to_nat n.
Proof. intros. unfold bytes_at. rewrite length_take, length_drop. lia. Qed.

Lemma lookup_bytes_at (l : bytes) off n i : 0 <= off -> (i < Z.to_nat n)%nat -> bytes_at l off n !! i = l !! (Z.to_nat off + i)%nat.
Proof. intros. unfold bytes_at. by rewrite lookup_take_lt, lookup_drop by lia. Qed.

Lemma lookup_put (l : bytes) off d i :
  0 <= off -> off + Z.of_nat (length d) <= Z.of_nat (length l) ->
  put_range l off d !! i =
    if decide (Z.to_nat off <= i < Z.to_nat off + length d)%nat then d !! (i - Z.to_nat off)%nat else l !! i.
Proof.
  intros Ho Hl. unfold put_range. rewrite (proj2 (Z.leb_le _ _)) by lia. unfold splice. case_decide as E.
  - rewrite lookup_app_r by (rewrite length_take; lia). rewrite length_take, Nat.min_l by lia. by rewrite lookup_app_l by lia.
  - destruct (decide (i < Z.to_nat off)%nat).
    + rewrite lookup_app_l by (rewrite length_take; lia). by rewrite lookup_take_lt by lia.
    + rewrite lookup_app_r by (rewrite length_take; lia). rewrite length_take, Nat.min_l by lia.
      rewrite lookup_app_r by lia. rewrite lookup_drop. f_equal. lia.
Qed.

Lemma bytes_at_other l off d off' n :
  0 <= off -> 0 <= off' -> 0 <= n -> off + Z.of_nat (length d) <= Z.of_nat (length l) ->
  off' + n <= off \/ off + Z.of_nat (length d) <= off' -> bytes_at (put_range l off d) off' n = bytes_at l off' n.
Proof.
  intros Ho Ho' Hn Hl Hd. apply list_eq. intros i. destruct (decide (i < Z.to_nat n)%nat).
  - rewrite !lookup_bytes_at, lookup_put by lia. rewrite decide_False by lia. done.
  - unfold bytes_at. by rewrite !lookup_take_ge by lia.
Qed.

Lemma bytes_at_inside l off d base n :
  0 <= base -> base <= off -> off + Z.of_nat (length d) <= base + n -> base + n <= Z.of_nat (length l) ->
  bytes_at (put_range l off d) base n = put_range (bytes_at l base n) (off - base) d.
Proof.
  intros Hb Ho Hd Hl. apply list_eq. intros i. pose proof (length_bytes_at l base n Hb ltac:(lia) Hl) as Hlen.
  destruct (decide (i < Z.to_nat n)%nat).
  - rewrite lookup_bytes_at, !lookup_put by lia. destruct (decide (Z.to_nat off <= _ < _)%nat).
    + rewrite decide_True by lia. f_equal. lia.
    + rewrite decide_False by lia. by rewrite lookup_bytes_at by lia.
  - rewrite !lookup_ge_None_2; [done| |].
    + rewrite length_put_range by lia. lia.
    + unfold bytes_at. rewrite length_take. lia.
Qed.

Lemma put_app_r (a b d : bytes) off :
  Z.of_nat (length a) <= off -> off + Z.of_nat (length d) <= Z.of_nat (length a + length b) ->
  put_range (a ++ b) off d = a ++ put_range b (off - Z.of_nat (length a)) d.
Proof.
  intros Ho Hl. apply list_eq. intros i. rewrite lookup_put by (rewrite ?length_app; lia).
  destruct (decide (i < length a)%nat).
  - rewrite decide_False by lia. by rewrite !lookup_app_l by lia.
  - rewrite !lookup_app_r, lookup_put by lia. destruct (decide (_ <= i < _)%nat); [rewrite decide_True by lia; f_equal; lia|by rewrite decide_False by lia].
Qed.
Lemma put_app_l (a b d : bytes) off :
  0 <= off -> off + Z.of_nat (length d) <= Z.of_nat (length a) -> put_range (a ++ b) off d = put_range a off d ++ b.
Proof.
  intros Ho Hl. apply list_eq. intros i. rewrite lookup_put by (rewrite ?length_app; lia).
  destruct (decide (i < length a)%nat).
  - rewrite (lookup_app_l (put_range a off d)) by (rewrite length_put_range; lia). rewrite lookup_put by lia. case_decide; [done|]. by rewrite lookup_app_l by lia.
  - rewrite decide_False by lia. rewrite !lookup_app_r by (rewrite ?length_put_range; lia). by rewrite length_put_range by lia.
Qed.
Lemma put_all (a d : bytes) : length d = length a -> put_range a 0 d = d.
Proof.
  intros H. unfold put_range, splice. rewrite (proj2 (Z.leb_le _ _)) by lia. cbn [Z.to_nat take]. rewrite drop_ge by lia. by rewrite app_nil_r.
Qed.
Lemma put_zeros (d : bytes) n :
  (length d <= n)%nat -> put_range (replicate n 0) 0 d = d ++ replicate (n - length d) 0.
Proof.
  intros H. replace n with (length d + (n - length d))%nat at 1 by lia. rewrite replicate_add, put_app_l by (rewrite ?length_replicate; lia).
  by rewrite put_all by (by rewrite length_replicate).
Qed.

Lemma put_put (img a d : bytes) off k :
  0 <= off -> 0 <= k -> k + Z.of_nat (length d) <= Z.of_nat (length a) -> off + Z.of_nat (length a) <= Z.of_nat (length img) ->
  put_range (put_range img off a) (off + k) d = put_range img off (put_range a k d).
Proof.
  intros Ho Hk Hd Ha. apply list_eq. intros i. assert (length (put_range a k d) = length a) as El by (apply length_put_range; lia).
  assert (length (put_range img off a) = length img) as El2 by (apply length_put_range; lia).
  rewrite !lookup_put by lia. rewrite El. destruct (decide (_ <= i < Z.to_nat (off + k) + _)%nat).
  - rewrite decide_True by lia. rewrite decide_True by lia. f_equal. lia.
  - destruct (decide (Z.to_nat off <= i < _)%nat); [|done]. by rewrite decide_False by lia.
Qed.
Lemma bytes_at_sub l base m o k : 0 <= base -> 0 <= o -> o + k <= m -> bytes_at l (base + o) k = bytes_at (bytes_at l base m) o k.
Proof.
  intros. apply list_eq. intros i. destruct (decide (i < Z.to_nat k)%nat).
  - rewrite !lookup_bytes_at by lia. f_equal. lia.
  - unfold bytes_at at 1 2. by rewrite !lookup_take_ge by lia.
Qed.
Lemma bytes_at_app l off a b : 0 <= off -> 0 <= a -> 0 <= b -> bytes_at l off (a + b) = bytes_at l off a ++ bytes_at l (off + a) b.
Proof.
  intros. unfold bytes_at. rewrite !Z2Nat.inj_add by lia. rewrite <- drop_drop.
  rewrite <- (take_drop (Z.to_nat a) (drop (Z.to_nat off) l)) at 1. rewrite take_app, take_take, length_take, Nat.min_r by lia.
  f_equal. destruct (decide (Z.to_nat a <= length (drop (Z.to_nat off) l))%nat).
  - f_equal. lia.
  - rewrite (drop_ge (drop _ _)) by lia. by rewrite !take_nil.
Qed.
Lemma bytes_at_zeros m off k : 0 <= off -> 0 <= k -> off + k <= Z.of_nat m -> bytes_at (replicate m 0) off k = replicate (Z.to_nat k) 0.
Proof. intros. unfold bytes_at. rewrite drop_replicate, take_replicate. f_equal. lia. Qed.

(** What was written is read back. *)
Lemma bytes_at_put (l d : bytes) off n :
  0 <= off -> n = Z.of_nat (length d) -> off + n <= Z.of_nat (length l) -> bytes_at (put_range l off d) off n = d.
Proof. intros Ho -> Hl. rewrite bytes_at_inside by lia. rewrite Z.sub_diag. apply put_all. rewrite length_bytes_at by lia. lia. Qed.
Lemma is_bytes_put (l d : bytes) off : is_bytes l -> is_bytes d -> is_bytes (put_range l off d).
Proof.
  intros Hl Hd. unfold put_range. destruct (_ <=? _); [|done]. unfold splice, is_bytes in *.
  apply Forall_app. split; [by apply Forall_take|]. apply Forall_app. split; [done|by apply Forall_drop].
Qed.
