(* ===== verification/Bitmap.v ===== *)
(** * Bitmaps packed into machine words

    The frame allocator ([memory.rs], 64-bit words), the block bitmap of the
    file system ([allocator.rs], bytes) and the Bloom filter of the revocation
    list ([revocation.rs], bytes) all keep one bit per item in an array of
    [w]-bit words.  This file relates such an array to the list of its bits:
    [bits w ws] is the abstraction, and setting, clearing and testing one bit
    of one word are an update or a lookup of that list. *)

From S2P Require Import Prelude.

(** The operations the three components use on one word. *)
Definition bit_test (x b : Z) : bool := negb (Z.land x (Z.shiftl 1 b) =? 0).
Definition bit_set (x b : Z) : Z := Z.lor x (Z.shiftl 1 b).
Definition bit_clear (w x b : Z) : Z := Z.land x (not_uint w (Z.shiftl 1 b)).

(** The bits of a word, least significant first, and of an array of words. *)
Definition word_bits (w x : Z) : list bool := Z.testbit x <$> seqZ 0 w.
Definition bits (w : Z) (ws : list Z) : list bool := ws ≫= word_bits w.
#[global] Arguments word_bits w x : simpl never.
#[global] Arguments bits w ws : simpl never.

(** The least index that holds [false]. *)
Fixpoint first_zero (l : list bool) : option nat :=
  match l with
  | [] => None
  | false :: _ => Some 0%nat
  | true :: l => S <$> first_zero l
  end.

(** The number of [false] entries. *)
Fixpoint zeros (l : list bool) : Z :=
  match l with
  | [] => 0
  | b :: l => (if b then 0 else 1) + zeros l
  end.

(** [x.trailing_ones()] on a [w]-bit integer. *)
Definition trailing_ones (w x : Z) : Z :=
  match first_zero (word_bits w x) with Some i => Z.of_nat i | None => w end.

Section lists.
Implicit Types l : list bool.

Lemma first_zero_Some l i :
  first_zero l = Some i <-> l !! i = Some false /\ (forall j, (j < i)%nat -> l !! j = Some true).
Proof.
  revert i; induction l as [|[] l IH]; intros i; simpl.
  - split; [done | by intros [? _]].
  - rewrite fmap_Some. split.
    + intros (k & Hk & ->). apply IH in Hk as [H1 H2]. split; [done|].
      intros [|j] Hj; [done|]. apply H2. lia.
    + destruct i as [|i]; [by intros [? _]|]. intros [H1 H2]. exists i. split; [|done].
      apply IH. split; [done|]. intros j Hj. apply (H2 (S j)). lia.
  - split.
    + intros [= <-]. split; [done|]. lia.
    + intros [H1 H2]. destruct i as [|i]; [done|].
      specialize (H2 0%nat ltac:(lia)). done.
Qed.

Lemma first_zero_None l : first_zero l = None <-> forall i b, l !! i = Some b -> b = true.
Proof.
  induction l as [|[] l IH]; simpl.
  - split; [|done]. by intros _ i b ?.
  - rewrite fmap_None, IH. split.
    + intros H [|i] b; simpl; [by intros [= <-]|]. apply H.
    + intros H i b Hi. by apply (H (S i)).
  - split; [done|]. intros H. by specialize (H 0%nat false eq_refl).
Qed.

Lemma first_zero_app l1 l2 :
  first_zero (l1 ++ l2) =
    match first_zero l1 with
    | Some i => Some i
    | None => (fun i => (length l1 + i)%nat) <$> first_zero l2
    end.
Proof.
  induction l1 as [|[] l1 IH]; simpl; [by destruct (first_zero l2)| |done].
  rewrite IH. destruct (first_zero l1); [done|]. by destruct (first_zero l2).
Qed.

Lemma first_zero_lt l i : first_zero l = Some i -> (i < length l)%nat.
Proof. intros [H _]%first_zero_Some. by apply lookup_lt_Some in H. Qed.

Lemma zeros_app l1 l2 : zeros (l1 ++ l2) = zeros l1 + zeros l2.
Proof. induction l1 as [|[] l1 IH]; simpl; lia. Qed.

Lemma zeros_bound l : 0 <= zeros l <= Z.of_nat (length l).
Proof. induction l as [|[] l IH]; simpl; lia. Qed.

Lemma zeros_insert l i (b c : bool) :
  l !! i = Some b ->
  zeros (<[i := c]> l) = zeros l + (if c then 0 else 1) - (if b then 0 else 1).
Proof.
  revert i; induction l as [|d l IH]; intros [|i] Hi; simpl in *; simplify_eq.
  - destruct b, c; lia.
  - rewrite (IH _ Hi). lia.
Qed.

Lemma zeros_pos l i : l !! i = Some false -> 0 < zeros l.
Proof.
  revert i; induction l as [|d l IH]; intros [|i] Hi; simpl in *; simplify_eq.
  - pose proof (zeros_bound l). lia.
  - specialize (IH _ Hi). destruct d; lia.
Qed.

Lemma zeros_0_first_zero l : zeros l = 0 <-> first_zero l = None.
Proof.
  induction l as [|[] l IH]; simpl; [done| |].
  - rewrite fmap_None, <-IH. lia.
  - pose proof (zeros_bound l). split; [lia|done].
Qed.

Lemma zeros_replicate n : zeros (replicate n true) = 0.
Proof. induction n; simpl; lia. Qed.
End lists.

Section words.
Context (w : Z) (Hw : 0 < w).
Implicit Types (x b : Z) (ws : list Z).

Lemma shiftl_1_testbit b j : 0 <= b -> Z.testbit (Z.shiftl 1 b) j = (b =? j).
Proof.
  intros Hb. rewrite Z.shiftl_1_l. apply Z.pow2_bits_eqb. done.
Qed.

Lemma bit_test_testbit x b : 0 <= b -> bit_test x b = Z.testbit x b.
Proof.
  intros Hb. unfold bit_test.
  destruct (Z.eqb_spec (Z.land x (Z.shiftl 1 b)) 0) as [H|H]; simpl; symmetry.
  - apply (f_equal (fun z => Z.testbit z b)) in H.
    rewrite Z.land_spec, shiftl_1_testbit, Z.eqb_refl, andb_true_r, Z.bits_0 in H by done.
    done.
  - apply not_false_is_true. intros Hf. apply H. apply Z.bits_inj_0. intros j.
    rewrite Z.land_spec, shiftl_1_testbit by done.
    destruct (Z.eqb_spec b j) as [<-|]; [by rewrite Hf | apply andb_false_r].
Qed.

Lemma bit_set_testbit x b j : 0 <= b -> Z.testbit (bit_set x b) j = (b =? j) || Z.testbit x j.
Proof.
  intros Hb. unfold bit_set. rewrite Z.lor_spec, shiftl_1_testbit by done. apply orb_comm.
Qed.

Lemma bit_clear_testbit x b j :
  0 <= b -> 0 <= j < w -> Z.testbit (bit_clear w x b) j = negb (b =? j) && Z.testbit x j.
Proof.
  intros Hb Hj. unfold bit_clear, not_uint.
  rewrite Z.land_spec, Z.lxor_spec, shiftl_1_testbit, Z.ones_spec_low by lia.
  rewrite andb_comm. by destruct (b =? j).
Qed.

Lemma word_bits_lookup x (i : nat) :
  (i < Z.to_nat w)%nat -> word_bits w x !! i = Some (Z.testbit x (Z.of_nat i)).
Proof.
  intros Hi. unfold word_bits. rewrite list_lookup_fmap, lookup_seqZ_lt by lia. done.
Qed.

Lemma length_word_bits x : length (word_bits w x) = Z.to_nat w.
Proof. unfold word_bits. by rewrite length_fmap, length_seqZ. Qed.

Lemma bits_cons x ws : bits w (x :: ws) = word_bits w x ++ bits w ws.
Proof. done. Qed.

Lemma length_bits ws : length (bits w ws) = (length ws * Z.to_nat w)%nat.
Proof.
  induction ws as [|x ws IH]; [done|].
  rewrite bits_cons, length_app, length_word_bits, IH. done.
Qed.

(** Setting or clearing bit [b] of a word updates entry [b] of its bits. *)
Lemma word_bits_set x b :
  0 <= b < w -> word_bits w (bit_set x b) = <[Z.to_nat b := true]> (word_bits w x).
Proof.
  intros Hb. apply list_eq_same_length with (n := Z.to_nat w);
    rewrite ?length_insert, ?length_word_bits; try done.
  intros i p q Hi. rewrite word_bits_lookup by done. rewrite bit_set_testbit by lia.
  rewrite list_lookup_insert. rewrite word_bits_lookup by done. rewrite length_word_bits.
  destruct (decide _) as [[<- ?]|Hne].
  - rewrite Z2Nat.id, Z.eqb_refl by lia. simpl. congruence.
  - destruct (Z.eqb_spec b (Z.of_nat i)) as [->|]; [exfalso; apply Hne; lia|]. simpl. congruence.
Qed.

Lemma word_bits_clear x b :
  0 <= b < w -> word_bits w (bit_clear w x b) = <[Z.to_nat b := false]> (word_bits w x).
Proof.
  intros Hb. apply list_eq_same_length with (n := Z.to_nat w);
    rewrite ?length_insert, ?length_word_bits; try done.
  intros i p q Hi. rewrite word_bits_lookup by done. rewrite bit_clear_testbit by lia.
  rewrite list_lookup_insert. rewrite word_bits_lookup by done. rewrite length_word_bits.
  destruct (decide _) as [[<- ?]|Hne].
  - rewrite Z2Nat.id, Z.eqb_refl by lia. simpl. congruence.
  - destruct (Z.eqb_spec b (Z.of_nat i)) as [->|]; [exfalso; apply Hne; lia|]. simpl. congruence.
Qed.

(** The bits of an array whose word [k] changes in its bit [b]. *)
Lemma bits_insert ws k x y b (c : bool) :
  ws !! k = Some x ->
  word_bits w y = <[Z.to_nat b := c]> (word_bits w x) ->
  0 <= b < w ->
  bits w (<[k := y]> ws) = <[(k * Z.to_nat w + Z.to_nat b)%nat := c]> (bits w ws).
Proof.
  intros Hk Hy Hb. revert k Hk. induction ws as [|z ws IH]; intros [|k] Hk; simpl in *; simplify_eq.
  - rewrite !bits_cons, Hy, insert_app_l by (rewrite length_word_bits; lia). done.
  - rewrite !bits_cons, (IH _ Hk).
    replace (Z.to_nat w + k * Z.to_nat w + Z.to_nat b)%nat
      with (length (word_bits w z) + (k * Z.to_nat w + Z.to_nat b))%nat
      by (rewrite length_word_bits; lia).
    by rewrite insert_app_r.
Qed.

Lemma bits_lookup ws k x b :
  ws !! k = Some x -> 0 <= b < w ->
  bits w ws !! (k * Z.to_nat w + Z.to_nat b)%nat = Some (Z.testbit x b).
Proof.
  intros Hk Hb. revert k Hk. induction ws as [|z ws IH]; intros [|k] Hk; simpl in *; simplify_eq.
  - rewrite bits_cons, lookup_app_l by (rewrite length_word_bits; lia).
    rewrite word_bits_lookup by lia. by rewrite Z2Nat.id by lia.
  - rewrite bits_cons, lookup_app_r; rewrite length_word_bits; [|lia].
    rewrite <-(IH _ Hk). f_equal. lia.
Qed.

(** Words stay in range under both updates. *)
Lemma bit_set_range x b : in_uint w x -> 0 <= b < w -> in_uint w (bit_set x b).
Proof.
  unfold in_uint, bit_set. intros Hx Hb. rewrite Z.shiftl_1_l. split.
  - apply Z.lor_nonneg. split; [lia|]. apply Z.pow_nonneg. lia.
  - apply Z.log2_lt_cancel. rewrite Z.log2_lor by (try apply Z.pow_nonneg; lia).
    rewrite !Z.log2_pow2 by lia.
    destruct (Z.eq_dec x 0) as [->|]; [simpl; lia|].
    pose proof (proj1 (Z.log2_lt_pow2 x w ltac:(lia)) ltac:(lia)). lia.
Qed.

Lemma bit_clear_range x b : in_uint w x -> 0 <= b < w -> in_uint w (bit_clear w x b).
Proof.
  unfold in_uint, bit_clear, not_uint. intros Hx Hb.
  split; [apply Z.land_nonneg; left; lia|].
  destruct (Z.eq_dec (Z.land x (Z.lxor (Z.ones w) (Z.shiftl 1 b))) 0) as [->|Hnz];
    [apply Z.pow_pos_nonneg; lia|].
  destruct (Z.eq_dec x 0) as [->|]; [by rewrite Z.land_0_l in Hnz|].
  assert (Hn : 0 <= Z.land x (Z.lxor (Z.ones w) (Z.shiftl 1 b))) by (apply Z.land_nonneg; lia).
  assert (Hl : Z.log2 x < w) by (apply Z.log2_lt_pow2; lia).
  apply Z.log2_lt_pow2; [lia|].
  destruct (Z.lt_ge_cases (Z.log2 (Z.land x (Z.lxor (Z.ones w) (Z.shiftl 1 b)))) w) as [|Hge];
    [done|exfalso].
  pose proof (Z.bit_log2 (Z.land x (Z.lxor (Z.ones w) (Z.shiftl 1 b))) ltac:(lia)) as Hbit.
  rewrite Z.land_spec, (Z.bits_above_log2 x) in Hbit by lia. done.
Qed.

(** A word has no free bit exactly when it is the all-ones word. *)
Lemma word_full x : in_uint w x -> x = uint_max w <-> first_zero (word_bits w x) = None.
Proof.
  unfold in_uint, uint_max. intros Hx. rewrite first_zero_None.
  rewrite Z.sub_1_r, <-Z.ones_equiv. split.
  - intros -> i b Hi. pose proof (lookup_lt_Some _ _ _ Hi) as Hl.
    rewrite length_word_bits in Hl. rewrite word_bits_lookup in Hi by done.
    rewrite Z.ones_spec_low in Hi by lia. congruence.
  - intros H. apply Z.bits_inj'. intros j Hj.
    destruct (Z.lt_ge_cases j w) as [Hlt|Hge].
    + rewrite Z.ones_spec_low by lia.
      apply (H (Z.to_nat j)). rewrite word_bits_lookup by lia. by rewrite Z2Nat.id by lia.
    + rewrite Z.ones_spec_high by lia.
      destruct (Z.eq_dec x 0) as [->|]; [apply Z.bits_0|].
      apply Z.bits_above_log2; [lia|].
      pose proof (proj1 (Z.log2_lt_pow2 x w ltac:(lia)) ltac:(lia)). lia.
Qed.

Lemma bits_full n : bits w (replicate n (uint_max w)) = replicate (n * Z.to_nat w) true.
Proof.
  induction n as [|n IH]; [done|].
  cbn [replicate]. rewrite bits_cons, IH, Nat.mul_succ_l, Nat.add_comm, replicate_add. f_equal.
  apply list_eq_same_length with (n := Z.to_nat w);
    rewrite ?length_replicate, ?length_word_bits; try done.
  intros i p q Hi. rewrite word_bits_lookup by done.
  rewrite lookup_replicate_2 by done. unfold uint_max.
  rewrite Z.sub_1_r, <-Z.ones_equiv, Z.ones_spec_low by lia. congruence.
Qed.

Lemma bits_index i (n : nat) :
  0 <= i < Z.of_nat n * w ->
  (Z.to_nat (i / w) < n)%nat /\ 0 <= i mod w < w /\
  (Z.to_nat (i / w) * Z.to_nat w + Z.to_nat (i mod w))%nat = Z.to_nat i.
Proof.
  intros Hi. pose proof (Z.mod_pos_bound i w Hw).
  pose proof (Z.div_mod i w ltac:(lia)).
  assert (0 <= i / w) by (apply Z.div_pos; lia).
  assert (i / w < Z.of_nat n) by (apply Z.div_lt_upper_bound; lia).
  split; [lia|]. split; [lia|]. nia.
Qed.
End words.

#[export] Hint Rewrite length_bits length_word_bits using lia : len.
#[export] Hint Resolve bit_set_range bit_clear_range : nexa.

(** From here on the bits of a word are reasoned about with the lemmas above. *)
#[global] Opaque word_bits bits.
