(* ===== verification/Memory.v ===== *)
(** * Physical frame allocator ([crates/nexacore-kernel/src/memory.rs])

    [BitmapFrameAllocator<N>]: one bit per 4 KiB frame in [N] 64-bit words,
    [0] = free and [1] = used, with two counters.  The const parameter [N] is
    the length of the word array.  [frames a] is the abstraction: the list of
    "used" flags, one per frame. *)

From S2P Require Import Prelude Bitmap.

Record BitmapFrameAllocator := mkAllocator {
  bitmap : list Z;
  base : Z;
  total_frames : Z;
  free_frames : Z
}.

Definition FRAME_BYTES : Z := 4096.
Definition FRAMES_PER_WORD : Z := 64.
Definition CAPACITY (a : BitmapFrameAllocator) : Z :=
  Z.of_nat (length (bitmap a)) * FRAMES_PER_WORD.

(** [BitmapFrameAllocator::<N>::new]: every frame starts used. *)
Definition new (N : nat) (base : Z) : BitmapFrameAllocator :=
  mkAllocator (replicate N (uint_max 64)) base 0 0.

(** Frame index relative to [base], and its word and bit. *)
Definition frame_idx (a : BitmapFrameAllocator) (phys : Z) : Z :=
  saturating_sub phys (base a) / FRAME_BYTES.

Definition word_bit (frame_idx : Z) : Z * Z :=
  (frame_idx / FRAMES_PER_WORD, frame_idx mod FRAMES_PER_WORD).

Definition align_down (start : Z) : Z := Z.land start (not_uint 64 (FRAME_BYTES - 1)).

(** One iteration of the loop of [mark_range_free]. *)
Definition mark_free_step (i : Z) (a : BitmapFrameAllocator) : exec BitmapFrameAllocator :=
  let '(w, b) := word_bit i in
  word ← index (bitmap a) w;
  if bit_test word b then
    bm ← index_set (bitmap a) w (bit_clear 64 word b);
    total ← add_uint 64 (total_frames a) 1;
    free ← add_uint 64 (free_frames a) 1;
    Done (mkAllocator bm (base a) total free)
  else Done a.

(** One iteration of the loop of [mark_range_used]. *)
Definition mark_used_step (i : Z) (a : BitmapFrameAllocator) : exec BitmapFrameAllocator :=
  let '(w, b) := word_bit i in
  word ← index (bitmap a) w;
  if negb (bit_test word b) then
    bm ← index_set (bitmap a) w (bit_set word b);
    Done (mkAllocator bm (base a) (total_frames a) (saturating_sub (free_frames a) 1))
  else Done a.

(** [for i in i..stop { if i >= CAPACITY { break; } step }].  [CAPACITY]
    iterations are enough: after them the index is past the capacity and the
    loop breaks. *)
Fixpoint range_loop (step : Z -> BitmapFrameAllocator -> exec BitmapFrameAllocator)
    (fuel : nat) (i stop : Z) (a : BitmapFrameAllocator) : exec BitmapFrameAllocator :=
  match fuel with
  | O => Done a
  | S fuel =>
      if stop <=? i then Done a
      else if CAPACITY a <=? i then Done a
      else a' ← step i a; range_loop step fuel (i + 1) stop a'
  end.

Definition mark_range_free (start size : Z) (a : BitmapFrameAllocator) :
    exec BitmapFrameAllocator :=
  let first := frame_idx a (align_down start) in
  let count := size / FRAME_BYTES in
  range_loop mark_free_step (Z.to_nat (CAPACITY a)) first (saturating_add 64 first count) a.

Definition mark_range_used (start size : Z) (a : BitmapFrameAllocator) :
    exec BitmapFrameAllocator :=
  let first := frame_idx a (align_down start) in
  let count := (size + (FRAME_BYTES - 1)) / FRAME_BYTES in
  range_loop mark_used_step (Z.to_nat (CAPACITY a)) first (saturating_add 64 first count) a.

(** The scan of [alloc_frame]: the words from number [wi] on; the changed
    words and the index of the frame taken. *)
Fixpoint alloc_scan (wi : Z) (ws : list Z) : option (list Z * Z) :=
  match ws with
  | [] => None
  | word :: rest =>
      if word =? uint_max 64 then
        '(rest', idx) ← alloc_scan (wi + 1) rest; Some (word :: rest', idx)
      else
        let bit := trailing_ones 64 word in
        Some (bit_set word bit :: rest, wi * FRAMES_PER_WORD + bit)
  end.

Definition alloc_frame (a : BitmapFrameAllocator) : exec (option Z * BitmapFrameAllocator) :=
  match alloc_scan 0 (bitmap a) with
  | None => Done (None, a)
  | Some (bm, frame_idx) =>
      off ← mul_uint 64 frame_idx FRAME_BYTES;
      addr ← add_uint 64 (base a) off;
      Done (Some addr,
            mkAllocator bm (base a) (total_frames a) (saturating_sub (free_frames a) 1))
  end.

Definition free_frame (addr : Z) (a : BitmapFrameAllocator) :
    exec (bool * BitmapFrameAllocator) :=
  if negb (addr mod FRAME_BYTES =? 0) then Done (false, a)
  else
    let idx := frame_idx a addr in
    if CAPACITY a <=? idx then Done (false, a)
    else
      let '(w, b) := word_bit idx in
      word ← index (bitmap a) w;
      if negb (bit_test word b) then Done (false, a)
      else
        bm ← index_set (bitmap a) w (bit_clear 64 word b);
        free ← add_uint 64 (free_frames a) 1;
        Done (true, mkAllocator bm (base a) (total_frames a) free).

Definition total_bytes (a : BitmapFrameAllocator) : exec Z :=
  mul_uint 64 (total_frames a) FRAME_BYTES.
Definition free_bytes (a : BitmapFrameAllocator) : exec Z :=
  mul_uint 64 (free_frames a) FRAME_BYTES.

(** ** Abstraction and invariant *)

(** The "used" flag of every frame. *)
Definition frames (a : BitmapFrameAllocator) : list bool := bits 64 (bitmap a).
#[global] Arguments frames a : simpl never.

(** The words are 64-bit words, [free_frames] counts the free frames, the
    managed range lies in the address space. *)
Record wf (a : BitmapFrameAllocator) : Prop := mkWf {
  wf_words : Forall (in_uint 64) (bitmap a);
  wf_base : 0 <= base a;
  wf_range : base a + CAPACITY a * FRAME_BYTES <= 2 ^ 64;
  wf_free : free_frames a = zeros (frames a);
  wf_total : in_uint 64 (total_frames a)
}.

(** ** Lemmas on one frame *)

Lemma length_frames a : Z.of_nat (length (frames a)) = CAPACITY a.
Proof. unfold frames, CAPACITY, FRAMES_PER_WORD. rewrite length_bits by lia. lia. Qed.

Lemma frames_mk bm b t f : frames (mkAllocator bm b t f) = bits 64 bm.
Proof. done. Qed.

Lemma frame_lookup_word a i u :
  frames a !! Z.to_nat i = Some u -> 0 <= i ->
  exists word, bitmap a !! Z.to_nat (i / 64) = Some word /\
    Z.testbit word (i mod 64) = u /\ 0 <= i mod 64 < 64 /\
    (Z.to_nat (i / 64) * Z.to_nat 64 + Z.to_nat (i mod 64))%nat = Z.to_nat i.
Proof.
  intros Hu Hi. pose proof (lookup_lt_Some _ _ _ Hu) as Hlt.
  pose proof (length_frames a) as Hlen. unfold CAPACITY, FRAMES_PER_WORD in Hlen.
  destruct (bits_index 64 ltac:(lia) i (length (bitmap a)) ltac:(lia)) as (Hk & Hb & Hidx).
  destruct (lookup_lt_is_Some_2 _ _ Hk) as [word Hword].
  exists word. repeat split; try done; try lia.
  pose proof (bits_lookup 64 ltac:(lia) (bitmap a) _ word (i mod 64) Hword ltac:(lia)) as Hl.
  rewrite Hidx in Hl. unfold frames in Hu. congruence.
Qed.

(** Reading and writing frame [i] through its word. *)
Lemma frame_word a i u :
  wf a -> frames a !! Z.to_nat i = Some u -> 0 <= i ->
  exists word, index (bitmap a) (i / 64) = Done word /\ bit_test word (i mod 64) = u /\
    (forall (v : bool) (y : Z), y = (if v then bit_set word (i mod 64) else bit_clear 64 word (i mod 64)) ->
     exists bm, index_set (bitmap a) (i / 64) y = Done bm /\
       bits 64 bm = <[Z.to_nat i := v]> (frames a) /\
       Forall (in_uint 64) bm /\ length bm = length (bitmap a)).
Proof.
  intros Hwf Hu Hi.
  destruct (frame_lookup_word _ _ _ Hu Hi) as (word & Hword & Htest & Hb & Hidx).
  exists word. split; [by apply index_Done|].
  split; [rewrite bit_test_testbit by lia; done|].
  assert (Hrange : in_uint 64 word) by (by apply (Forall_lookup_1 _ _ _ _ (wf_words a Hwf) Hword)).
  intros v y ->. eexists. split.
  { apply index_set_Done. by apply lookup_lt_Some in Hword. }
  split; [|split; [|by rewrite length_insert]].
  - unfold frames. rewrite <-Hidx.
    apply (bits_insert 64 ltac:(lia) _ _ word); try done.
    destruct v; [apply word_bits_set | apply word_bits_clear]; lia.
  - apply Forall_insert; [by apply wf_words|]. destruct v; eauto using bit_set_range, bit_clear_range with lia.
Qed.

(** The invariant after new words and counters have been computed. *)
Lemma wf_mk a bm t f :
  wf a -> Forall (in_uint 64) bm -> length bm = length (bitmap a) ->
  f = zeros (bits 64 bm) -> in_uint 64 t -> wf (mkAllocator bm (base a) t f).
Proof.
  intros [H1 H2 H3 H4 H5] Hall Hlen Hf Ht. split; try done.
  unfold CAPACITY in *. simpl. by rewrite Hlen.
Qed.

Lemma wf_free_bound a : wf a -> 0 <= free_frames a /\ free_frames a <= CAPACITY a.
Proof.
  intros Hwf. rewrite (wf_free a Hwf), <-length_frames. apply zeros_bound.
Qed.

Lemma wf_capacity a : wf a -> 0 <= CAPACITY a < 2 ^ 53.
Proof.
  intros [_ Hb Hr _ _]. unfold CAPACITY, FRAME_BYTES, FRAMES_PER_WORD in *. lia.
Qed.

(** The quantity a range operation keeps: registering frames moves
    [total_frames] and [free_frames] together, reserving frames leaves
    [total_frames] alone. *)
Definition kept (v : bool) (a : BitmapFrameAllocator) : Z :=
  if v then total_frames a else total_frames a - free_frames a.

Definition room (v : bool) (a : BitmapFrameAllocator) : Prop :=
  v = true \/ total_frames a - free_frames a + CAPACITY a < 2 ^ 64.

(** What one iteration, and a whole range operation, do to the allocator. *)
Record updates (v : bool) (fs : list bool) (a a' : BitmapFrameAllocator) : Prop := mkUpdates {
  upd_wf : wf a';
  upd_frames : frames a' = fs;
  upd_base : base a' = base a;
  upd_length : length (bitmap a') = length (bitmap a);
  upd_kept : kept v a' = kept v a
}.

Lemma mark_free_step_ok a i :
  wf a -> 0 <= i < CAPACITY a -> room false a ->
  exists a', mark_free_step i a = Done a' /\
    updates false (<[Z.to_nat i := false]> (frames a)) a a'.
Proof.
  intros Hwf Hi [|Hroom]; [done|].
  pose proof (length_frames a). pose proof (wf_free_bound a Hwf) as [Hf0 Hf1].
  pose proof (wf_total a Hwf) as Ht. unfold in_uint in Ht. pose proof (wf_capacity a Hwf).
  destruct (lookup_lt_is_Some_2 (frames a) (Z.to_nat i) ltac:(lia)) as [u Hu].
  destruct (frame_word a i u Hwf Hu ltac:(lia)) as (word & Hidx & Htest & Hput).
  unfold mark_free_step, word_bit, FRAMES_PER_WORD. rewrite Hidx. simpl. rewrite Htest.
  destruct u.
  - destruct (Hput false _ eq_refl) as (bm & -> & Hbits & Hall & Hlen). simpl.
    pose proof (zeros_insert _ _ _ false Hu) as Hz. cbn in Hz.
    rewrite (wf_free a Hwf) in *.
    assert (Hle : zeros (<[Z.to_nat i:=false]> (frames a)) <= CAPACITY a).
    { rewrite <-length_frames, <-(length_insert (frames a) (Z.to_nat i) false). apply zeros_bound. }
    rewrite !add_uint_Done by lia. simpl. eexists; split; [done|].
    split; try done; [|unfold kept; simpl; rewrite (wf_free a Hwf); lia].
    apply wf_mk; try done; [rewrite Hbits, Hz; lia | unfold in_uint; lia].
  - eexists; split; [done|]. by rewrite list_insert_id.
Qed.

Lemma mark_used_step_ok a i :
  wf a -> 0 <= i < CAPACITY a -> room true a ->
  exists a', mark_used_step i a = Done a' /\
    updates true (<[Z.to_nat i := true]> (frames a)) a a'.
Proof.
  intros Hwf Hi _. pose proof (length_frames a).
  destruct (lookup_lt_is_Some_2 (frames a) (Z.to_nat i) ltac:(lia)) as [u Hu].
  destruct (frame_word a i u Hwf Hu ltac:(lia)) as (word & Hidx & Htest & Hput).
  unfold mark_used_step, word_bit, FRAMES_PER_WORD. rewrite Hidx. simpl. rewrite Htest.
  destruct u; simpl.
  - eexists; split; [done|]. by rewrite list_insert_id.
  - destruct (Hput true _ eq_refl) as (bm & -> & Hbits & Hall & Hlen). simpl.
    pose proof (zeros_insert _ _ _ true Hu) as Hz. cbn in Hz.
    pose proof (zeros_pos _ _ Hu) as Hpos.
    eexists; split; [done|]. split; try done.
    apply wf_mk; try done; [|apply Hwf].
    rewrite Hbits, Hz, (wf_free a Hwf). unfold saturating_sub. lia.
Qed.

(** Entries [first <= j < stop] set to [v]. *)
Definition range_set (first stop : Z) (v : bool) (l : list bool) : list bool :=
  imap (fun j u => if bool_decide (first <= Z.of_nat j < stop) then v else u) l.

Lemma range_set_nothing first stop v l :
  stop <= first \/ Z.of_nat (length l) <= first -> range_set first stop v l = l.
Proof.
  intros H. apply list_eq. intros j. unfold range_set. rewrite list_lookup_imap.
  destruct (l !! j) as [u|] eqn:Hj; [|done]. simpl.
  apply lookup_lt_Some in Hj. rewrite bool_decide_false by lia. done.
Qed.

Lemma range_set_first first stop v l :
  0 <= first < stop -> first < Z.of_nat (length l) ->
  range_set (first + 1) stop v (<[Z.to_nat first := v]> l) = range_set first stop v l.
Proof.
  intros H Hl. apply list_eq. intros j. unfold range_set. rewrite !list_lookup_imap.
  destruct (decide (j = Z.to_nat first)) as [->|Hne].
  - rewrite list_lookup_insert_eq by lia.
    destruct (lookup_lt_is_Some_2 l (Z.to_nat first) ltac:(lia)) as [u ->]. simpl.
    rewrite bool_decide_false, bool_decide_true by lia. done.
  - rewrite list_lookup_insert_ne by done. destruct (l !! j); simpl; [|done].
    f_equal. erewrite bool_decide_ext; [done|]. lia.
Qed.

(** A range operation never panics and sets exactly its range. *)
Lemma range_loop_ok v step fuel i stop a :
  (forall a i, wf a -> 0 <= i < CAPACITY a -> room v a ->
     exists a', step i a = Done a' /\ updates v (<[Z.to_nat i := v]> (frames a)) a a') ->
  wf a -> 0 <= i -> CAPACITY a - i <= Z.of_nat fuel -> room v a ->
  exists a', range_loop step fuel i stop a = Done a' /\
    updates v (range_set i stop v (frames a)) a a'.
Proof.
  intros Hstep. revert i a. induction fuel as [|fuel IH]; intros i a Hwf Hi Hfuel Hroom; simpl.
  - exists a. split; [done|]. rewrite range_set_nothing; [done|].
    right. rewrite length_frames. lia.
  - pose proof (length_frames a) as Hlf.
    destruct (Z.leb_spec stop i) as [Hs|Hs].
    { exists a. split; [done|]. rewrite range_set_nothing; [done|]. lia. }
    destruct (Z.leb_spec (CAPACITY a) i) as [Hc|Hc].
    { exists a. split; [done|]. rewrite range_set_nothing; [done|]. lia. }
    destruct (Hstep a i Hwf ltac:(lia) Hroom) as (a1 & -> & [Hwf1 Hf1 Hb1 Hl1 Hk1]). simpl.
    assert (Hcap : CAPACITY a1 = CAPACITY a) by (unfold CAPACITY; by rewrite Hl1).
    assert (Hroom1 : room v a1).
    { unfold room, kept in *. destruct v; [by left|right]. destruct Hroom; [done|]. lia. }
    destruct (IH (i + 1) a1 Hwf1 ltac:(lia) ltac:(lia) Hroom1) as (a2 & -> & [Hwf2 Hf2 Hb2 Hl2 Hk2]).
    exists a2. split; [done|]. split; try congruence.
    rewrite Hf2, Hf1. apply range_set_first; lia.
Qed.

(** The scan of [alloc_frame] finds the first zero bit and sets it. *)
Lemma alloc_scan_ok ws wi :
  Forall (in_uint 64) ws ->
  match first_zero (bits 64 ws) with
  | None => alloc_scan wi ws = None
  | Some i => exists bm, alloc_scan wi ws = Some (bm, wi * 64 + Z.of_nat i) /\
      bits 64 bm = <[i := true]> (bits 64 ws) /\ Forall (in_uint 64) bm /\ length bm = length ws
  end.
Proof.
  revert wi. induction ws as [|x ws IH]; intros wi Hall; [done|].
  apply Forall_cons in Hall as [Hx Hall]. rewrite bits_cons, first_zero_app. cbn [alloc_scan].
  pose proof (word_full 64 ltac:(lia) x Hx) as Hfull.
  destruct (Z.eqb_spec x (uint_max 64)) as [He|Hne].
  - rewrite (proj1 Hfull He). specialize (IH (wi + 1) Hall).
    destruct (first_zero (bits 64 ws)) as [i|]; simpl.
    + destruct IH as (bm & -> & Hb & Hb2 & Hb3). simpl.
      exists (x :: bm). split; [rewrite length_word_bits by lia; do 2 f_equal; lia|].
      rewrite bits_cons, Hb. split; [by rewrite insert_app_r|].
      split; [by constructor|simpl; lia].
    + by rewrite IH.
  - destruct (first_zero (word_bits 64 x)) as [i|] eqn:Hz; [|by rewrite (proj2 Hfull) in Hne].
    pose proof (first_zero_lt _ _ Hz) as Hi. rewrite length_word_bits in Hi by lia.
    unfold trailing_ones, FRAMES_PER_WORD. rewrite ?Hz.
    eexists. split; [done|].
    rewrite bits_cons, word_bits_set by lia. rewrite Nat2Z.id.
    rewrite insert_app_l by (rewrite length_word_bits; lia).
    split; [done|]. split; [|done]. constructor; [|done]. apply bit_set_range; lia || done.
Qed.

Lemma alloc_frame_ok a :
  wf a ->
  match first_zero (frames a) with
  | None => alloc_frame a = Done (None, a)
  | Some i => exists a', alloc_frame a = Done (Some (base a + Z.of_nat i * FRAME_BYTES), a') /\
      wf a' /\ frames a' = <[i := true]> (frames a) /\
      free_frames a' = free_frames a - 1 /\
      total_frames a' = total_frames a /\ base a' = base a
  end.
Proof.
  intros Hwf. pose proof (alloc_scan_ok (bitmap a) 0 (wf_words a Hwf)) as Hs.
  unfold alloc_frame. fold (frames a) in Hs.
  destruct (first_zero (frames a)) as [i|] eqn:Hz; [|by rewrite Hs].
  destruct Hs as (bm & -> & Hbits & Hall & Hlen). simpl.
  pose proof (first_zero_lt _ _ Hz) as Hi. pose proof (length_frames a).
  pose proof (proj1 (first_zero_Some _ _) Hz) as [Hl _].
  pose proof (zeros_insert _ _ _ true Hl) as Hzi. simpl in Hzi.
  pose proof (zeros_pos _ _ Hl) as Hpos.
  pose proof (wf_base a Hwf). pose proof (wf_range a Hwf). unfold FRAME_BYTES in *.
  rewrite mul_uint_Done by lia. simpl. rewrite add_uint_Done by lia. simpl.
  eexists. split; [done|]. cbn [free_frames total_frames base].
  assert (Hsub : saturating_sub (free_frames a) 1 = free_frames a - 1)
    by (rewrite (wf_free a Hwf); unfold saturating_sub; lia).
  split_and!; try done.
  apply wf_mk; try done; [|apply Hwf]. rewrite Hbits, Hzi, Hsub, (wf_free a Hwf). lia.
Qed.

Lemma free_frame_ok a addr :
  wf a -> base a <= addr ->
  let i := Z.to_nat ((addr - base a) / FRAME_BYTES) in
  if bool_decide (addr mod FRAME_BYTES = 0 /\ frames a !! i = Some true) then
    exists a', free_frame addr a = Done (true, a') /\ wf a' /\
      frames a' = <[i := false]> (frames a) /\
      free_frames a' = free_frames a + 1 /\ total_frames a' = total_frames a /\ base a' = base a
  else free_frame addr a = Done (false, a).
Proof.
  intros Hwf Hb i. unfold free_frame, frame_idx.
  assert (Hsub : saturating_sub addr (base a) = addr - base a) by (unfold saturating_sub; lia).
  rewrite Hsub. fold FRAME_BYTES. pose proof (length_frames a) as Hlen.
  assert (H0 : 0 <= (addr - base a) / FRAME_BYTES) by (apply Z.div_pos; unfold FRAME_BYTES; lia).
  destruct (Z.eqb_spec (addr mod FRAME_BYTES) 0) as [Hal|Hal]; simpl;
    [|by rewrite bool_decide_false by tauto].
  destruct (Z.leb_spec (CAPACITY a) ((addr - base a) / FRAME_BYTES)) as [Hc|Hc].
  { rewrite bool_decide_false; [done|]. intros [_ Hu%lookup_lt_Some]. lia. }
  destruct (lookup_lt_is_Some_2 (frames a) i ltac:(lia)) as [u Hu].
  destruct (frame_word a _ u Hwf Hu H0) as (word & Hidx & Htest & Hput).
  unfold word_bit, FRAMES_PER_WORD. rewrite Hidx. simpl. rewrite Htest, Hu.
  destruct u; simpl; [|rewrite bool_decide_false; [done|]; by intros [_ ?]].
  rewrite bool_decide_true by done.
  destruct (Hput false _ eq_refl) as (bm & -> & Hbits & Hall & Hl). simpl.
  pose proof (zeros_insert _ _ _ false Hu) as Hz. simpl in Hz.
  pose proof (wf_free_bound a Hwf). pose proof (wf_capacity a Hwf).
  rewrite add_uint_Done by lia. simpl. eexists. split; [done|].
  split_and!; try done.
  apply wf_mk; try done; [|apply Hwf]. rewrite Hbits, (wf_free a Hwf). fold i. rewrite Hz. lia.
Qed.

Lemma frame_idx_bounds a start : 0 <= frame_idx a start.
Proof. apply Z.div_pos; unfold saturating_sub, FRAME_BYTES; lia. Qed.

(** ** The properties *)

(** [alloc_frame] is first-fit allocation: with no free frame it returns
    [None] and changes nothing; otherwise it returns the address of the free
    frame of least index, marks exactly that frame used, decrements the free
    counter by one, keeps the invariant, and does not panic. *)
Theorem alloc_frame_first_fit a :
  wf a ->
  match first_zero (frames a) with
  | None => alloc_frame a = Done (None, a)
  | Some i => exists a', alloc_frame a = Done (Some (base a + Z.of_nat i * FRAME_BYTES), a') /\
      wf a' /\ frames a' = <[i := true]> (frames a) /\
      free_frames a' = free_frames a - 1 /\
      total_frames a' = total_frames a /\ base a' = base a
  end.
Proof. exact (alloc_frame_ok a). Qed.

(** [free_frame] on an address of the managed range: misaligned addresses,
    addresses past the end and frames that are already free are refused with
    the state unchanged; otherwise exactly that frame becomes free and the
    free counter grows by one.  It never panics on a well-formed allocator. *)
Theorem free_frame_spec a addr :
  wf a -> base a <= addr ->
  let i := Z.to_nat ((addr - base a) / FRAME_BYTES) in
  if bool_decide (addr mod FRAME_BYTES = 0 /\ frames a !! i = Some true) then
    exists a', free_frame addr a = Done (true, a') /\ wf a' /\
      frames a' = <[i := false]> (frames a) /\
      free_frames a' = free_frames a + 1 /\ total_frames a' = total_frames a /\ base a' = base a
  else free_frame addr a = Done (false, a).
Proof. exact (free_frame_ok a addr). Qed.

(** The range operations set exactly the frames of their range:
    [mark_range_free] registers [size / 4096] frames from the frame of [start]
    as free and moves both counters by the number of frames that changed,
    [mark_range_used] reserves [ceil (size / 4096)] frames and leaves
    [total_frames]; frames past the capacity are ignored, and no panic occurs
    as long as [total_frames] has room for the whole capacity. *)
Theorem mark_range_spec a start size :
  wf a -> total_frames a - free_frames a + CAPACITY a < 2 ^ 64 ->
  let first := frame_idx a (align_down start) in
  (exists a', mark_range_free start size a = Done a' /\ wf a' /\
     frames a' =
       range_set first (saturating_add 64 first (size / FRAME_BYTES)) false (frames a) /\
     total_frames a' - total_frames a = free_frames a' - free_frames a) /\
  (exists a', mark_range_used start size a = Done a' /\ wf a' /\
     frames a' =
       range_set first
         (saturating_add 64 first ((size + (FRAME_BYTES - 1)) / FRAME_BYTES)) true (frames a) /\
     total_frames a' = total_frames a).
Proof.
  intros Hwf Hroom first. pose proof (frame_idx_bounds a (align_down start)) as H0.
  unfold mark_range_free, mark_range_used. fold first. fold first in H0.
  split.
  - destruct (range_loop_ok false mark_free_step (Z.to_nat (CAPACITY a)) first
      (saturating_add 64 first (size / FRAME_BYTES)) a mark_free_step_ok Hwf H0
      ltac:(lia) ltac:(by right)) as (a' & -> & [? ? ? ? Hk]).
    exists a'. split_and!; try done. unfold kept in Hk. lia.
  - destruct (range_loop_ok true mark_used_step (Z.to_nat (CAPACITY a)) first
      (saturating_add 64 first ((size + (FRAME_BYTES - 1)) / FRAME_BYTES)) a mark_used_step_ok
      Hwf H0 ltac:(lia) ltac:(by left)) as (a' & -> & [? ? ? ? Hk]).
    exists a'. by split_and!.
Qed.

(** The constructor establishes the invariant with nothing free. *)
Lemma allocator_new_wf N b :
  0 <= b -> b + Z.of_nat N * FRAMES_PER_WORD * FRAME_BYTES <= 2 ^ 64 ->
  wf (new N b) /\ free_frames (new N b) = 0.
Proof.
  intros Hb Hr. split; [|done]. unfold new. split; simpl; try done.
  - apply Forall_replicate. vm_compute; split; [discriminate|reflexivity].
  - unfold CAPACITY. simpl. by rewrite length_replicate.
  - rewrite frames_mk, bits_full by lia. by rewrite zeros_replicate.
Qed.

Lemma frame_address a i :
  wf a -> base a mod FRAME_BYTES = 0 ->
  (base a + Z.of_nat i * FRAME_BYTES) mod FRAME_BYTES = 0 /\
  Z.to_nat ((base a + Z.of_nat i * FRAME_BYTES - base a) / FRAME_BYTES) = i.
Proof.
  intros Hwf Hal. unfold FRAME_BYTES in *. rewrite Z.mod_add by lia. split; [done|].
  replace (base a + Z.of_nat i * 4096 - base a) with (Z.of_nat i * 4096) by lia.
  rewrite Z.div_mul by lia. lia.
Qed.

(** Allocating and giving the frame back restores the allocator: the frame
    returned by a successful [alloc_frame] is accepted by [free_frame], after
    which every frame and both counters are as before. *)
Theorem alloc_free_roundtrip a p a1 :
  wf a -> base a mod FRAME_BYTES = 0 -> alloc_frame a = Done (Some p, a1) ->
  exists a2, free_frame p a1 = Done (true, a2) /\ frames a2 = frames a /\
    free_frames a2 = free_frames a /\ total_frames a2 = total_frames a.
Proof.
  intros Hwf Hal Halloc. pose proof (alloc_frame_ok a Hwf) as Ha.
  destruct (first_zero (frames a)) as [i|] eqn:Hz; [|congruence].
  destruct Ha as (a' & Ha & Hwf1 & Hf1 & Hn1 & Ht1 & Hb1). rewrite Halloc in Ha. simplify_eq.
  destruct (frame_address a i Hwf Hal) as [Hmod Hidx].
  pose proof (free_frame_ok a' (base a + Z.of_nat i * FRAME_BYTES) Hwf1
    ltac:(unfold FRAME_BYTES; lia)) as Hfree.
  rewrite Hb1, Hidx, Hf1 in Hfree. simpl in Hfree.
  apply first_zero_Some in Hz as [Hi _]. pose proof (lookup_lt_Some _ _ _ Hi).
  rewrite list_lookup_insert_eq, bool_decide_true in Hfree by done.
  destruct Hfree as (a2 & -> & _ & Hf2 & Hn2 & Ht2 & _).
  exists a2. split_and!; try done; [|lia|congruence].
  by rewrite Hf2, list_insert_insert_eq, list_insert_id.
Qed.

(** ** Ownership of frames

    Clients of the booted allocator hold the frames they were given.  A world
    is the allocator with the set of addresses handed out and not yet given
    back; clients give back only what they hold, and may reserve ranges. *)

Abbreviation world := (BitmapFrameAllocator * gset Z)%type.

Inductive step : world -> world -> Prop :=
| step_alloc a a' p o :
    alloc_frame a = Done (Some p, a') -> step (a, o) (a', {[p]} ∪ o)
| step_exhausted a a' o :
    alloc_frame a = Done (None, a') -> step (a, o) (a', o)
| step_free a a' p o ok :
    p ∈ o -> free_frame p a = Done (ok, a') -> step (a, o) (a', if ok then o ∖ {[p]} else o)
| step_reserve a a' start size o :
    mark_range_used start size a = Done a' -> step (a, o) (a', o).

(** Every held address is the address of a used frame. *)
Record owned_inv (s : world) : Prop := mkOwned {
  own_wf : wf s.1;
  own_aligned : base s.1 mod FRAME_BYTES = 0;
  own_used : forall p, p ∈ s.2 -> exists i : nat,
    p = base s.1 + Z.of_nat i * FRAME_BYTES /\ frames s.1 !! i = Some true
}.

Lemma owned_free s p :
  owned_inv s -> p ∈ s.2 ->
  exists i a', free_frame p s.1 = Done (true, a') /\ p = base s.1 + Z.of_nat i * FRAME_BYTES /\
    wf a' /\ base a' = base s.1 /\ frames a' = <[i := false]> (frames s.1).
Proof.
  intros [Hwf Hal Hown] Hp. destruct (Hown p Hp) as (i & -> & Hi).
  destruct (frame_address _ i Hwf Hal) as [Hmod Hidx].
  pose proof (free_frame_ok s.1 (base s.1 + Z.of_nat i * FRAME_BYTES) Hwf
    ltac:(unfold FRAME_BYTES; lia)) as Hf.
  rewrite Hidx in Hf. simpl in Hf. rewrite bool_decide_true in Hf by done.
  destruct Hf as (a' & ? & ? & ? & ? & ? & ?). by exists i, a'.
Qed.

Lemma owned_step s s' : step s s' -> owned_inv s -> owned_inv s'.
Proof.
  intros Hstep Hinv. pose proof Hinv as [Hwf Hal Hown].
  destruct Hstep as [a a' p o Ha|a a' o Ha|a a' p o ok Hp Ha|a a' start size o Ha]; simpl in *.
  - pose proof (alloc_frame_ok a Hwf) as Hs.
    destruct (first_zero (frames a)) as [i|] eqn:Hz; [|congruence].
    destruct Hs as (a1 & Hs & Hwf1 & Hf1 & _ & _ & Hb1). rewrite Ha in Hs. simplify_eq.
    pose proof (first_zero_lt _ _ Hz). split; simpl; [done|by rewrite Hb1|].
    intros q [->%elem_of_singleton|Hq]%elem_of_union; rewrite Hb1, Hf1.
    + exists i. by rewrite list_lookup_insert_eq.
    + destruct (Hown q Hq) as (j & -> & Hj). exists j. split; [done|].
      destruct (decide (i = j)) as [->|]; [by rewrite list_lookup_insert_eq|].
      by rewrite list_lookup_insert_ne.
  - pose proof (alloc_frame_ok a Hwf) as Hs.
    destruct (first_zero (frames a)) as [i|]; [destruct Hs as (? & ? & _); congruence|].
    rewrite Ha in Hs. by simplify_eq.
  - destruct (owned_free (a, o) p Hinv Hp) as (i & a1 & Hf & Hpi & Hwf1 & Hb1 & Hf1). simpl in *.
    rewrite Ha in Hf. simplify_eq. split; simpl; [done|by rewrite Hb1|].
    intros q [Hq Hne]%elem_of_difference. destruct (Hown q Hq) as (j & -> & Hj).
    exists j. rewrite Hb1, Hf1. split; [done|]. rewrite list_lookup_insert_ne; [done|].
    intros ->. apply Hne. by apply elem_of_singleton.
  - unfold mark_range_used in Ha.
    destruct (range_loop_ok true mark_used_step (Z.to_nat (CAPACITY a)) (frame_idx a (align_down start))
      (saturating_add 64 (frame_idx a (align_down start)) ((size + (FRAME_BYTES - 1)) / FRAME_BYTES)) a
      mark_used_step_ok Hwf (frame_idx_bounds a _)
      ltac:(pose proof (frame_idx_bounds a (align_down start)); lia) ltac:(by left))
      as (a1 & Ha1 & [Hwf1 Hf1 Hb1 _ _]).
    rewrite Ha in Ha1. simplify_eq. split; simpl; [done|by rewrite Hb1|].
    intros q Hq. destruct (Hown q Hq) as (j & -> & Hj). exists j. rewrite Hb1, Hf1. split; [done|].
    unfold range_set. rewrite list_lookup_imap, Hj. simpl. by case_bool_decide.
Qed.

(** No frame is handed out twice: in every state reached from a booted
    allocator by allocations, frees of held frames and reservations, the next
    allocation returns an address nobody holds, and every holder can give its
    frame back ([free_frame] returns [true]). *)
Theorem frames_exclusive a0 a o :
  wf a0 -> base a0 mod FRAME_BYTES = 0 -> rtc step (a0, ∅) (a, o) ->
  (forall p a', alloc_frame a = Done (Some p, a') -> p ∉ o) /\
  (forall p, p ∈ o -> exists a', free_frame p a = Done (true, a')).
Proof.
  intros Hwf Hal Hreach.
  assert (Hinv : owned_inv (a, o)).
  { apply (reach_inv step owned_inv (a0, ∅)); [exact owned_step| |done].
    by split. }
  split.
  - intros p a' Ha Hp. destruct Hinv as [Hwf1 Hal1 Hown]. simpl in *.
    destruct (Hown p Hp) as (j & -> & Hj).
    pose proof (alloc_frame_ok a Hwf1) as Hs.
    destruct (first_zero (frames a)) as [i|] eqn:Hz; [|congruence].
    destruct Hs as (a1 & Hs & _). rewrite Ha in Hs. unfold FRAME_BYTES in *.
    apply first_zero_Some in Hz as [Hi _]. assert (i = j) as -> by (simplify_eq; lia). congruence.
  - intros p Hp. destruct (owned_free (a, o) p Hinv Hp) as (i & a' & ? & _). eauto.
Qed.

(** An address below [base] is not ignored: [frame_idx] saturates at zero,
    so a page-aligned address below the managed range addresses frame 0, and
    [free_frame] gives back frame 0 and reports success. *)
Theorem free_frame_below_base a addr :
  wf a -> 0 <= addr < base a -> addr mod FRAME_BYTES = 0 -> frames a !! 0%nat = Some true ->
  exists a', free_frame addr a = Done (true, a') /\ wf a' /\ frames a' = <[0%nat := false]> (frames a).
Proof.
  intros Hwf Haddr Hal Hu.
  assert (Hidx0 : frame_idx a addr = 0) by (unfold frame_idx, saturating_sub; rewrite Z.max_l by lia; done).
  destruct (frame_word a 0 true Hwf Hu ltac:(lia)) as (word & Hidx & Htest & Hput).
  pose proof (length_frames a) as Hlen. pose proof (lookup_lt_Some _ _ _ Hu).
  pose proof (wf_free_bound a Hwf). pose proof (wf_capacity a Hwf).
  unfold free_frame. rewrite Hidx0, Hal. simpl. rewrite (proj2 (Z.leb_gt _ _)) by lia.
  unfold word_bit, FRAMES_PER_WORD. rewrite Hidx. simpl. rewrite Htest. simpl.
  destruct (Hput false _ eq_refl) as (bm & -> & Hbits & Hall & Hl). simpl.
  rewrite add_uint_Done by lia. simpl. eexists. split; [done|]. split; [|done].
  pose proof (zeros_insert _ _ _ false Hu) as Hz. simpl in Hz.
  apply wf_mk; try done; [|apply Hwf]. change (Z.to_nat 0) with 0%nat in Hbits.
  rewrite Hbits, Hz, (wf_free a Hwf). lia.
Qed.

(** ** Witnesses on a one-word allocator at 1 MiB whose frame 0 is used *)

Definition demo : BitmapFrameAllocator := mkAllocator [1] 1048576 64 63.

Lemma demo_wf : wf demo.
Proof.
  split; [|done|done|by vm_compute|done].
  constructor; [done|constructor].
Qed.

Lemma alloc_frame_first_fit_witness :
  wf demo /\ exists a', alloc_frame demo = Done (Some 1052672, a') /\ free_frames a' = 62.
Proof.
  split; [exact demo_wf|].
  pose proof (alloc_frame_first_fit demo demo_wf) as H.
  assert (E : first_zero (frames demo) = Some 1%nat) by (vm_compute; reflexivity).
  rewrite E in H. destruct H as (a' & H1 & _ & _ & H2 & _). exists a'. by split.
Defined.

Lemma free_frame_spec_witness :
  wf demo /\ free_frame 1052672 demo = Done (false, demo) /\
  exists a', free_frame 1048576 demo = Done (true, a') /\ free_frames a' = 64.
Proof.
  split; [exact demo_wf|]. split.
  - pose proof (free_frame_spec demo 1052672 demo_wf ltac:(done)) as H.
    cbv zeta in H. rewrite bool_decide_false in H; [done|]. by vm_compute; intros [_ ?].
  - pose proof (free_frame_spec demo 1048576 demo_wf ltac:(done)) as H.
    cbv zeta in H. rewrite bool_decide_true in H; [|by split; vm_compute].
    destruct H as (a' & H1 & _ & _ & H2 & _). exists a'. by split.
Defined.

Lemma mark_range_spec_witness :
  wf demo /\ exists a', mark_range_used 1056768 4097 demo = Done a' /\ total_frames a' = 64.
Proof.
  split; [exact demo_wf|].
  destruct (mark_range_spec demo 1056768 4097 demo_wf ltac:(done)) as [_ (a' & H1 & _ & _ & H2)].
  exists a'. by split.
Defined.

Lemma alloc_free_roundtrip_witness :
  exists p a1 a2, alloc_frame demo = Done (Some p, a1) /\ free_frame p a1 = Done (true, a2) /\
    frames a2 = frames demo.
Proof.
  destruct (alloc_free_roundtrip demo 1052672 (mkAllocator [3] 1048576 64 62) demo_wf
    eq_refl ltac:(vm_compute; reflexivity)) as (a2 & H1 & H2 & _).
  exists 1052672, (mkAllocator [3] 1048576 64 62), a2. split; [by vm_compute|done].
Defined.

Lemma frames_exclusive_witness :
  exists p a', alloc_frame (mkAllocator [3] 1048576 64 62) = Done (Some p, a') /\
    (p ∉ ({[1052672]} ∪ ∅ : gset Z)) /\
    exists a'', free_frame 1052672 (mkAllocator [3] 1048576 64 62) = Done (true, a'').
Proof.
  assert (Hr : rtc step (demo, ∅) (mkAllocator [3] 1048576 64 62, {[1052672]} ∪ ∅)).
  { apply rtc_once. apply step_alloc. by vm_compute. }
  destruct (frames_exclusive demo _ _ demo_wf eq_refl Hr) as [H1 H2].
  exists 1056768, (mkAllocator [7] 1048576 64 61).
  assert (Ha : alloc_frame (mkAllocator [3] 1048576 64 62) =
               Done (Some 1056768, mkAllocator [7] 1048576 64 61)) by (by vm_compute).
  split; [exact Ha|]. split; [exact (H1 _ _ Ha)|]. apply H2. set_solver.
Defined.

Lemma free_frame_below_base_witness :
  exists a', free_frame 8192 demo = Done (true, a') /\ frames a' = <[0%nat := false]> (frames demo).
Proof.
  destruct (free_frame_below_base demo 8192 demo_wf ltac:(done) eq_refl ltac:(by vm_compute))
    as (a' & H1 & _ & H2).
  by exists a'.
Defined.
