(* ===== verification/Words.v ===== *)
(** * Words of memory

    What the kernel's allocator and its page tables share: memory as 64-bit
    words by address (a word never written reads as zero), and the mask that
    rounds down to a power of two. *)

From S2P Require Import Prelude.

Abbreviation memory := (gmap Z Z).
Definition read_word (m : memory) (a : Z) : Z := default 0 (m !! a).
Definition write_word (m : memory) (a v : Z) : memory := <[a := v]> m.

Lemma read_write_same m w v : read_word (write_word m w v) w = v.
Proof. unfold read_word, write_word. by rewrite lookup_insert_eq. Qed.
Lemma read_write_other m w v a : w <> a -> read_word (write_word m w v) a = read_word m a.
Proof. intros Hw. unfold read_word, write_word. by rewrite lookup_insert_ne. Qed.

Lemma land_not_mask w a k :
  0 <= k <= w -> in_uint w a -> Z.land a (not_uint w (2 ^ k - 1)) = a / 2 ^ k * 2 ^ k.
Proof.
  intros Hk Ha. rewrite <- Z.shiftr_div_pow2, <- Z.shiftl_mul_pow2 by lia.
  apply Z.bits_inj'. intros n Hn. unfold not_uint. rewrite Z.land_spec, Z.lxor_spec, Z.shiftl_spec by done.
  replace (2 ^ k - 1) with (Z.ones k) by (rewrite Z.ones_equiv; lia).
  destruct (Z.ltb_spec n k).
  - rewrite !Z.ones_spec_low, (Z.testbit_neg_r _ (n - k)) by lia. by destruct (Z.testbit a n).
  - rewrite Z.shiftr_spec by lia. replace (n - k + k) with n by lia. rewrite (Z.ones_spec_high k n) by lia.
    destruct (Z.ltb_spec n w); [rewrite Z.ones_spec_low by lia; by destruct (Z.testbit a n)|].
    rewrite Z.ones_spec_high by lia. destruct (decide (a = 0)) as [->|]; [by rewrite Z.bits_0|].
    rewrite Z.bits_above_log2; [done|unfold in_uint in Ha; lia|]. apply Z.log2_lt_pow2; [unfold in_uint in Ha; lia|].
    eapply Z.lt_le_trans; [apply Ha|]. apply Z.pow_le_mono_r; lia.
Qed.


(** ** Bytes of words, little endian *)

Definition read_byte (m : memory) (a : Z) : Z := read_word m (a - a mod 8) / 2 ^ (8 * (a mod 8)) mod 256.
Definition write_byte (m : memory) (a b : Z) : memory :=
  let w := a - a mod 8 in
  let s := 2 ^ (8 * (a mod 8)) in
  let old := read_word m w in
  write_word m w (old + (b - old / s mod 256) * s).
Fixpoint write_bytes (m : memory) (a : Z) (bs : list Z) : memory :=
  match bs with [] => m | b :: bs => write_bytes (write_byte m a b) (a + 1) bs end.

Lemma read_write_byte_same m a b : 0 <= b < 256 -> read_byte (write_byte m a b) a = b.
Proof.
  intros Hb. unfold read_byte, write_byte. rewrite read_write_same. set (s := 2 ^ (8 * (a mod 8))).
  assert (0 < s) by (apply Z.pow_pos_nonneg; [lia|]; pose proof (Z.mod_pos_bound a 8 ltac:(lia)); lia).
  set (old := read_word m _). rewrite Z.div_add by lia. pose proof (Z.div_mod (old / s) 256 ltac:(lia)) as Hd.
  replace (old / s + (b - (old / s) mod 256)) with (b + old / s / 256 * 256) by lia. rewrite Z_mod_plus_full. by apply Z.mod_small.
Qed.

(** A digit in base 256 is not changed by a change of another digit. *)
Lemma digit_other old x j k :
  0 <= j -> 0 <= k -> j <> k -> 0 <= x < 256 ->
  (old + (x - old / 2 ^ (8 * k) mod 256) * 2 ^ (8 * k)) / 2 ^ (8 * j) mod 256 = old / 2 ^ (8 * j) mod 256.
Proof.
  intros Hj Hk Hne Hx. assert (0 < 2 ^ (8 * k)) by (apply Z.pow_pos_nonneg; lia). assert (0 < 2 ^ (8 * j)) by (apply Z.pow_pos_nonneg; lia).
  set (s := 2 ^ (8 * k)) in *. set (d := old / s mod 256). destruct (Z.lt_ge_cases j k) as [Hlt|Hge].
  - assert (s = 2 ^ (8 * (k - j - 1)) * 256 * 2 ^ (8 * j)) as ->.
    { unfold s. change 256 with (2 ^ 8). rewrite <- !Z.pow_add_r by lia. f_equal. lia. }
    rewrite Z.mul_assoc, Z.div_add by lia. rewrite Z.mul_assoc, Z_mod_plus_full. done.
  - assert (2 ^ (8 * j) = s * 256 * 2 ^ (8 * (j - k - 1))) as ->.
    { unfold s. change 256 with (2 ^ 8). rewrite <- !Z.pow_add_r by lia. f_equal. lia. }
    assert (0 < 2 ^ (8 * (j - k - 1))) by (apply Z.pow_pos_nonneg; lia). rewrite <- !Z.mul_assoc, <- !Z.div_div by lia. f_equal.
    rewrite Z.div_add by lia. pose proof (Z.div_mod (old / s) 256 ltac:(lia)) as Hd. fold d in Hd. rewrite !Z.div_div, <- !Z.div_div by lia. f_equal.
    symmetry. apply Z.div_unique with (r := x); lia.
Qed.

Lemma read_write_byte_other m a b a' : 0 <= b < 256 -> a <> a' -> read_byte (write_byte m a b) a' = read_byte m a'.
Proof.
  intros Hb Hne. unfold read_byte, write_byte. destruct (decide (a - a mod 8 = a' - a' mod 8)) as [E|E].
  - rewrite <- E, read_write_same. pose proof (Z.mod_pos_bound a 8 ltac:(lia)). pose proof (Z.mod_pos_bound a' 8 ltac:(lia)).
    apply digit_other; lia.
  - by rewrite read_write_other.
Qed.

Lemma read_write_bytes m a bs x :
  Forall is_byte bs ->
  read_byte (write_bytes m a bs) x =
    if decide (a <= x < a + Z.of_nat (length bs)) then default 0 (bs !! Z.to_nat (x - a)) else read_byte m x.
Proof.
  intros Hbs. revert m a. induction Hbs as [|b bs Hb _ IH]; intros m a; [by rewrite decide_False by (simpl; lia)|].
  cbn [write_bytes length]. rewrite IH. destruct (decide (a + 1 <= x < a + 1 + Z.of_nat (length bs))).
  - rewrite decide_True by lia. replace (Z.to_nat (x - a)) with (S (Z.to_nat (x - (a + 1)))) by lia. done.
  - destruct (decide (x = a)) as [->|Hne].
    + rewrite decide_True by lia. rewrite Z.sub_diag. by apply read_write_byte_same.
    + rewrite decide_False by lia. by apply read_write_byte_other.
Qed.

(** A byte is in the word it is in: writes elsewhere do not move it. *)
Lemma write_byte_word m a b w : w <> a - a mod 8 -> read_word (write_byte m a b) w = read_word m w.
Proof. intros Hw. unfold write_byte. by rewrite read_write_other. Qed.
Lemma write_bytes_word m a bs w :
  (forall i, 0 <= i < Z.of_nat (length bs) -> w <> (a + i) - (a + i) mod 8) -> read_word (write_bytes m a bs) w = read_word m w.
Proof.
  revert m a. induction bs as [|b bs IH]; intros m a Hw; [done|]. cbn [write_bytes]. rewrite IH.
  - apply write_byte_word. specialize (Hw 0). rewrite Z.add_0_r in Hw. apply Hw. cbn [length]. lia.
  - intros i Hi. replace (a + 1 + i) with (a + (1 + i)) by lia. apply Hw. cbn [length]. lia.
Qed.
