(* ===== verification/Heap.v ===== *)
(** * The kernel heap

    [src/crates/nexacore-kernel/src/bare_metal/heap.rs]: the slab and
    free-list allocator behind the kernel's [#[global_allocator]], the bump
    allocator it replaced, and the choice of the heap region from the memory
    map.  The free lists are intrusive: a free block holds its link in its
    first word (a free run its length in the second), so the memory is part
    of the model.  Memory is a map from word addresses to words; a word that
    was never written reads as zero.  The compare-exchange loops are run by
    one processor at a time, the execution model the code documents, so each
    of them succeeds at its first attempt. *)

From S2P Require Import Prelude Words.

Definition UNINIT : Z := 0.
Definition NULL_LINK : Z := 0.
Definition MIN_HEAP_BYTES : Z := 4 * 1024 * 1024.
Definition HEAP_MAX_BYTES : Z := 128 * 1024 * 1024.
Definition SIZE_CLASSES : list Z := [16; 32; 64; 128; 256; 512; 1024; 2048; 4096].
Definition NUM_SIZE_CLASSES : nat := length SIZE_CLASSES.
Definition MAX_SMALL_BYTES : Z := 4096.
Definition PAGE_BYTES : Z := 4096.
Definition LARGE_RUN_MIN : Z := 2 * PAGE_BYTES.

(** [core::alloc::Layout]: the alignment is a power of two and the size, rounded up to it, fits [isize]. *)
Record Layout := mkLayout { size : Z; align : Z }.
Definition layout_ok (l : Layout) : Prop :=
  0 <= size l /\ (exists k, 0 <= k /\ align l = 2 ^ k) /\ size l + align l <= 2 ^ 63.

Definition align_up (addr align : Z) : Z :=
  Z.land (wrapping_add 64 addr (align - 1)) (not_uint 64 (align - 1)).

(** ** The bump allocator *)

Record BumpHeap := mkBump { b_base : Z; b_next : Z; b_end : Z }.
Definition BumpHeap_new : BumpHeap := mkBump UNINIT UNINIT UNINIT.

(** [None] when [base + len] overflows or the heap is already initialised, which panics. *)
Definition bump_init (h : BumpHeap) (base len : Z) : exec BumpHeap :=
  match checked_add 64 base len with
  | None => Panic
  | Some end_addr => if b_base h =? UNINIT then Done (mkBump base base end_addr) else Panic
  end.
Definition bump_is_initialised (h : BumpHeap) : bool := negb (b_base h =? UNINIT).
Definition bump_used_bytes (h : BumpHeap) : Z := saturating_sub (b_next h) (b_base h).
Definition bump_total_bytes (h : BumpHeap) : Z := saturating_sub (b_end h) (b_base h).

Definition bump_alloc (h : BumpHeap) (l : Layout) : Z * BumpHeap :=
  if b_end h =? UNINIT then (0, h)
  else
    let aligned := align_up (b_next h) (align l) in
    match checked_add 64 aligned (size l) with
    | None => (0, h)
    | Some new_next =>
        if b_end h <? new_next then (0, h) else (aligned, mkBump (b_base h) new_next (b_end h))
    end.
Definition bump_dealloc (h : BumpHeap) (ptr : Z) (l : Layout) : BumpHeap := h.

(** ** The heap region *)

(** An entry of the boot loader's memory map: [r_usable] is [kind == MemoryRegionKind::Usable]. *)
Record MemoryRegion := mkRegion { r_start : Z; r_end : Z; r_usable : bool }.

(** The body of the selection loop, over the best region so far as start and length. *)
Definition pick_step (best : option (Z * Z)) (r : MemoryRegion) : option (Z * Z) :=
  if negb (r_usable r) then best
  else
    let length := saturating_sub (r_end r) (r_start r) in
    if length <? MIN_HEAP_BYTES then best
    else
      match best with
      | None => Some (r_start r, length)
      | Some (cur_start, cur_len) =>
          if (cur_len <? length) || ((length =? cur_len) && (r_start r <? cur_start))
          then Some (r_start r, length) else best
      end.
Definition pick_region (regions : list MemoryRegion) : exec (Z * Z) :=
  match foldl pick_step None regions with
  | Some (start, length) => Done (start, Z.min length HEAP_MAX_BYTES)
  | None => Panic
  end.

(** ** The slab allocator *)

Definition page_round_up (size : Z) : option Z :=
  s ← checked_add 64 size (PAGE_BYTES - 1);
  Some (Z.land s (not_uint 64 (PAGE_BYTES - 1))).

(** The scan for the first class that is large enough. *)
Fixpoint class_scan (need : Z) (i : nat) (cs : list Z) : option nat :=
  match cs with
  | [] => None
  | c :: cs => if need <=? c then Some i else class_scan need (S i) cs
  end.
Definition size_class_index (size align : Z) : option nat :=
  let need := if align <? size then size else align in
  if MAX_SMALL_BYTES <? need then None else class_scan need 0 SIZE_CLASSES.
Definition size_class_bytes (idx : nat) : option Z := SIZE_CLASSES !! idx.

Record SlabHeap := mkSlab {
  base : Z;
  next : Z;
  end_ : Z;
  free_lists : list Z;
  large_free : Z;
}.
Definition SlabHeap_new : SlabHeap :=
  mkSlab UNINIT UNINIT UNINIT (replicate NUM_SIZE_CLASSES NULL_LINK) NULL_LINK.

Definition set_next (h : SlabHeap) (n : Z) : SlabHeap := mkSlab (base h) n (end_ h) (free_lists h) (large_free h).
Definition set_free (h : SlabHeap) (idx : nat) (a : Z) : SlabHeap :=
  mkSlab (base h) (next h) (end_ h) (<[idx := a]> (free_lists h)) (large_free h).
Definition set_large (h : SlabHeap) (a : Z) : SlabHeap := mkSlab (base h) (next h) (end_ h) (free_lists h) a.

Definition init (h : SlabHeap) (b len : Z) : exec SlabHeap :=
  match checked_add 64 b len with
  | None => Panic
  | Some end_addr =>
      if base h =? UNINIT then Done (mkSlab b b end_addr (free_lists h) (large_free h)) else Panic
  end.
Definition is_initialised (h : SlabHeap) : bool := negb (base h =? UNINIT).
Definition used_bytes (h : SlabHeap) : Z := saturating_sub (next h) (base h).
Definition total_bytes (h : SlabHeap) : Z := saturating_sub (end_ h) (base h).
Definition free_list_head (h : SlabHeap) (idx : nat) : Z := default NULL_LINK (free_lists h !! idx).

Definition push_free (h : SlabHeap) (m : memory) (idx : nat) (block : Z) : SlabHeap * memory :=
  match free_lists h !! idx with
  | None => (h, m)
  | Some current => (set_free h idx block, write_word m block current)
  end.

Definition pop_free (h : SlabHeap) (m : memory) (idx : nat) : option Z * SlabHeap :=
  match free_lists h !! idx with
  | None => (None, h)
  | Some current =>
      if current =? NULL_LINK then (None, h) else (Some current, set_free h idx (read_word m current))
  end.

Definition carve (h : SlabHeap) (size align : Z) : option Z * SlabHeap :=
  if end_ h =? UNINIT then (None, h)
  else
    let aligned := align_up (next h) align in
    match checked_add 64 aligned size with
    | None => (None, h)
    | Some new_next => if end_ h <? new_next then (None, h) else (Some aligned, set_next h new_next)
    end.

(** [while k < blocks { push_free(idx, run + k * class); k += 1 }], [n] blocks to go. *)
Fixpoint thread_blocks (h : SlabHeap) (m : memory) (idx : nat) (run class k : Z) (n : nat) :
    exec (SlabHeap * memory) :=
  match n with
  | O => Done (h, m)
  | S n =>
      off ← mul_uint 64 k class;
      extra ← add_uint 64 run off;
      let '(h, m) := push_free h m idx extra in
      thread_blocks h m idx run class (k + 1) n
  end.

(** One attempt of the refill: [blocks] blocks in one run. *)
Definition refill_with (h : SlabHeap) (m : memory) (idx : nat) (class blocks : Z) :
    exec (option Z * SlabHeap * memory) :=
  bytes ← mul_uint 64 class blocks;
  match carve h bytes class with
  | (None, h) => Done (None, h, m)
  | (Some run, h) =>
      '(h, m) ← thread_blocks h m idx run class 1 (Z.to_nat (blocks - 1));
      Done (Some run, h, m)
  end.

(** [for blocks in [want, 1]]: a slab, then a single block. *)
Definition refill_class (h : SlabHeap) (m : memory) (idx : nat) : exec (Z * SlabHeap * memory) :=
  match size_class_bytes idx with
  | None => Done (0, h, m)
  | Some class =>
      let want := if PAGE_BYTES / class =? 0 then 1 else PAGE_BYTES / class in
      '(r, h, m) ← refill_with h m idx class want;
      match r with
      | Some run => Done (run, h, m)
      | None =>
          if want =? 1 then Done (0, h, m)
          else
            '(r, h, m) ← refill_with h m idx class 1;
            Done (default 0 r, h, m)
      end
  end.

Definition push_large_run (h : SlabHeap) (m : memory) (addr size : Z) : SlabHeap * memory :=
  (set_large h addr, write_word (write_word m addr (large_free h)) (addr + 8) size).

(** What happens to the rest of a run that is split. *)
Definition recycle (h : SlabHeap) (m : memory) (cur need remainder : Z) : exec (SlabHeap * memory) :=
  if LARGE_RUN_MIN <=? remainder then
    rest ← add_uint 64 cur need; Done (push_large_run h m rest remainder)
  else if remainder =? PAGE_BYTES then
    rest ← add_uint 64 cur need; Done (push_free h m 8 rest)
  else Done (h, m).

(** The traversal of the list of runs; [prev] is the previous run, [None] at the head.
    The list lives in memory, so the loop runs on fuel: one unit for each run that fits in the arena. *)
Fixpoint take_loop (fuel : nat) (h : SlabHeap) (m : memory) (need : Z) (prev : option Z) (cur : Z) :
    exec (Z * SlabHeap * memory) :=
  if cur =? NULL_LINK then Done (0, h, m)
  else
    match fuel with
    | O => Panic
    | S fuel =>
        let cur_next := read_word m cur in
        let cur_size := read_word m (cur + 8) in
        if need <=? cur_size then
          let '(h, m) := match prev with
                         | None => (set_large h cur_next, m)
                         | Some p => (h, write_word m p cur_next)
                         end in
          '(h, m) ← recycle h m cur need (cur_size - need);
          Done (cur, h, m)
        else take_loop fuel h m need (Some cur) cur_next
    end.
Definition take_large_run (h : SlabHeap) (m : memory) (need : Z) : exec (Z * SlabHeap * memory) :=
  take_loop (Z.to_nat (total_bytes h / LARGE_RUN_MIN)) h m need None (large_free h).

Definition allocate (h : SlabHeap) (m : memory) (l : Layout) : exec (Z * SlabHeap * memory) :=
  if end_ h =? UNINIT then Done (0, h, m)
  else
    match size_class_index (size l) (align l) with
    | Some idx =>
        match pop_free h m idx with
        | (Some block, h) => Done (block, h, m)
        | (None, h) => refill_class h m idx
        end
    | None =>
        if PAGE_BYTES <? align l then Done (0, h, m)
        else
          match page_round_up (size l) with
          | None => Done (0, h, m)
          | Some run_bytes =>
              '(reused, h, m) ← take_large_run h m run_bytes;
              if negb (reused =? 0) then Done (reused, h, m)
              else
                let '(r, h) := carve h run_bytes PAGE_BYTES in
                Done (default 0 r, h, m)
          end
    end.

Definition free (h : SlabHeap) (m : memory) (ptr : Z) (l : Layout) : SlabHeap * memory :=
  if ptr =? 0 then (h, m)
  else
    match size_class_index (size l) (align l) with
    | Some idx => push_free h m idx ptr
    | None =>
        if align l <=? PAGE_BYTES then
          match page_round_up (size l) with
          | Some run_bytes => push_large_run h m ptr run_bytes
          | None => (h, m)
          end
        else (h, m)
    end.

(** ** Extents *)

(** A block is its address and its length. *)
Abbreviation extent := (Z * Z)%type.
Definition disj (e f : extent) : Prop := e.1 + e.2 <= f.1 \/ f.1 + f.2 <= e.1.
Fixpoint pairwise (l : list extent) : Prop :=
  match l with [] => True | e :: l => Forall (disj e) l /\ pairwise l end.

#[export] Instance disj_sym : Symmetric disj.
Proof. intros e f [?|?]; [by right|by left]. Qed.

Lemma pairwise_perm l1 l2 : l1 ≡ₚ l2 -> pairwise l1 -> pairwise l2.
Proof.
  induction 1 as [|e l1 l2 Hp IH|e f l|l1 l2 l3 _ IH1 _ IH2]; simpl; auto.
  - intros [He Hl]. split; [by rewrite <- Hp|auto].
  - intros [He [Hf Hl]]. apply Forall_cons in He as [Hef He]. split; [constructor; [by symmetry|done]|done].
Qed.
#[export] Instance pairwise_proper : Proper ((≡ₚ) ==> iff) pairwise.
Proof. intros l1 l2 Hp. split; by apply pairwise_perm. Qed.

Lemma pairwise_app l1 l2 :
  pairwise (l1 ++ l2) <-> pairwise l1 /\ pairwise l2 /\ Forall (fun e => Forall (disj e) l2) l1.
Proof.
  induction l1 as [|e l1 IH]; simpl; [split; [by intros|by intros (_ & ? & _)]|].
  rewrite Forall_app, Forall_cons, IH. tauto.
Qed.

(** Two parts of a block, in place of the block. *)
Lemma disj_split a n k f : 0 <= k <= n -> disj (a, n) f -> disj (a, k) f /\ disj (a + k, n - k) f.
Proof. unfold disj. simpl. lia. Qed.

(** ** Sizes *)

Lemma align_up_exact addr k :
  0 <= k <= 64 -> 0 <= addr -> addr + 2 ^ k <= 2 ^ 64 -> align_up addr (2 ^ k) = (addr + 2 ^ k - 1) / 2 ^ k * 2 ^ k.
Proof.
  intros Hk Ha Hb. assert (0 < 2 ^ k) by lia. unfold align_up, wrapping_add. rewrite Z.mod_small by lia.
  replace (addr + 2 ^ k - 1) with (addr + (2 ^ k - 1)) by lia. apply land_not_mask; [lia|]. unfold in_uint. lia.
Qed.
Lemma align_up_spec addr k :
  0 <= k <= 12 -> 0 <= addr -> addr + 4096 <= 2 ^ 64 ->
  align_up addr (2 ^ k) = (addr + 2 ^ k - 1) / 2 ^ k * 2 ^ k.
Proof.
  intros Hk Ha Hb. assert (2 ^ k <= 2 ^ 12) by (apply Z.pow_le_mono_r; lia). apply align_up_exact; lia.
Qed.

Lemma round_bounds a p : 0 < p -> a <= (a + p - 1) / p * p < a + p.
Proof.
  intros Hp. pose proof (Z.mod_pos_bound (a + p - 1) p Hp). pose proof (Z.div_mod (a + p - 1) p ltac:(lia)). lia.
Qed.

(** ** The state of the heap

    The free lists are chains of links through memory.  The invariant speaks of three groups of
    blocks: those on the lists of the classes, the runs on the large list, and a list [ex] of
    blocks that belong to somebody else, the callers. *)

Fixpoint chain (m : memory) (hd : Z) (l : list Z) : Prop :=
  match l with
  | [] => hd = NULL_LINK
  | a :: l => hd = a /\ a <> NULL_LINK /\ chain m (read_word m a) l
  end.
Fixpoint runs (m : memory) (hd : Z) (l : list extent) : Prop :=
  match l with
  | [] => hd = NULL_LINK
  | (a, n) :: l => hd = a /\ a <> NULL_LINK /\ read_word m (a + 8) = n /\ runs m (read_word m a) l
  end.

Definition class_size (i : nat) : Z := default 0 (SIZE_CLASSES !! i).
Definition class_exts (i : nat) (l : list Z) : list extent := (fun a => (a, class_size i)) <$> l.
Definition small_exts (fl : list (list Z)) : list extent := concat (imap class_exts fl).

(** The sizes and alignments blocks come in. *)
Definition natural (e : extent) : Prop :=
  e.2 ∈ SIZE_CLASSES /\ e.1 mod e.2 = 0 \/
  LARGE_RUN_MIN <= e.2 /\ e.2 mod PAGE_BYTES = 0 /\ e.1 mod PAGE_BYTES = 0.
Definition placed (h : SlabHeap) (e : extent) : Prop :=
  base h <= e.1 /\ e.1 + e.2 <= next h /\ natural e.

Record owns (h : SlabHeap) (m : memory) (fl : list (list Z)) (lg ex : list extent) : Prop := mkOwns {
  ow_heads : length (free_lists h) = NUM_SIZE_CLASSES;
  ow_lists : length fl = NUM_SIZE_CLASSES;
  ow_chain : forall i hd l, free_lists h !! i = Some hd -> fl !! i = Some l -> chain m hd l;
  ow_runs : runs m (large_free h) lg;
  ow_large : Forall (fun e : extent => LARGE_RUN_MIN <= e.2) lg;
  ow_placed : Forall (placed h) (small_exts fl ++ lg ++ ex);
  ow_disj : pairwise (small_exts fl ++ lg ++ ex);
  ow_arena : 0 < base h <= next h /\ next h <= end_ h /\ end_ h + 4096 <= 2 ^ 64;
}.

Lemma classes_range c : c ∈ SIZE_CLASSES -> 16 <= c <= 4096.
Proof. intros Hc. repeat (apply elem_of_cons in Hc as [->|Hc]; [lia|]). by apply not_elem_of_nil in Hc. Qed.

Lemma natural_size e : natural e -> 16 <= e.2.
Proof. intros [[Hc _]|[Hl _]]; [by apply classes_range|unfold LARGE_RUN_MIN, PAGE_BYTES in Hl; lia]. Qed.

Lemma class_size_in i : (i < NUM_SIZE_CLASSES)%nat -> class_size i ∈ SIZE_CLASSES.
Proof.
  intros Hi. unfold class_size. destruct (SIZE_CLASSES !! i) as [c|] eqn:E; [by eapply list_elem_of_lookup_2|].
  apply lookup_ge_None in E. unfold NUM_SIZE_CLASSES in Hi. lia.
Qed.

Lemma chain_write m w v hd l : Forall (fun a => w <> a) l -> chain m hd l -> chain (write_word m w v) hd l.
Proof.
  revert hd. induction l as [|a l IH]; intros hd Hw; simpl; [done|]. apply Forall_cons in Hw as [Hwa Hw].
  intros (-> & Hn & Hc). split; [done|]. split; [done|]. rewrite read_write_other by done. by apply IH.
Qed.
Lemma runs_write m w v hd l :
  Forall (fun e : extent => w <> e.1 /\ w <> e.1 + 8) l -> runs m hd l -> runs (write_word m w v) hd l.
Proof.
  revert hd. induction l as [|[a n] l IH]; intros hd Hw; simpl; [done|]. apply Forall_cons in Hw as [[H1 H2] Hw].
  simpl in H1, H2. intros (-> & Hn & Hr & Hc). split; [done|]. split; [done|]. rewrite !read_write_other by done. split; [done|]. by apply IH.
Qed.

Lemma small_exts_lookup fl i l a : fl !! i = Some l -> a ∈ l -> (a, class_size i) ∈ small_exts fl.
Proof.
  intros Hi Ha. unfold small_exts. apply list_elem_of_In, List.in_concat. exists (class_exts i l). split.
  - apply list_elem_of_In, list_elem_of_lookup_2 with i. by rewrite list_lookup_imap, Hi.
  - apply list_elem_of_In. apply list_elem_of_fmap. by exists a.
Qed.

Lemma small_exts_split fl i l :
  fl !! i = Some l -> exists p q, forall l', small_exts (<[i := l']> fl) = p ++ class_exts i l' ++ q.
Proof.
  intros Hi. pose proof (lookup_lt_Some _ _ _ Hi) as Hl.
  exists (concat (imap class_exts (take i fl))), (concat (imap (fun j => class_exts (S i + j)) (drop (S i) fl))).
  intros l'. unfold small_exts. rewrite insert_take_drop by done. rewrite imap_app, concat_app. f_equal. simpl.
  rewrite length_take, Nat.min_l, Nat.add_0_r by lia. f_equal. f_equal. 
  apply imap_ext. intros j x _.
  cbn. f_equal. lia.
Qed.

(** Taking a block off a class list, and back. *)
Lemma small_exts_cons fl i a l :
  fl !! i = Some (a :: l) -> small_exts fl ≡ₚ (a, class_size i) :: small_exts (<[i := l]> fl).
Proof.
  intros Hi. destruct (small_exts_split _ _ _ Hi) as (p & q & Hs). pose proof (Hs (a :: l)) as Ha.
  rewrite list_insert_id in Ha by done. rewrite Ha, Hs. simpl. symmetry. apply Permutation_middle.
Qed.

Section owned.
Context (h : SlabHeap) (m : memory) (fl : list (list Z)) (lg ex : list extent).
Context (Hown : owns h m fl lg ex).

(** A word of one's own block is no link of the heap. *)
Lemma owned_word e w :
  e ∈ ex -> e.1 <= w < e.1 + e.2 ->
  Forall (fun f : extent => w <> f.1 /\ w <> f.1 + 8) (small_exts fl ++ lg).
Proof.
  intros He Hw. pose proof (ow_disj _ _ _ _ _ Hown) as Hd. pose proof (ow_placed _ _ _ _ _ Hown) as Hp.
  rewrite app_assoc in Hd, Hp. apply Forall_app in Hp as [Hp _]. apply pairwise_app in Hd as (_ & _ & Hd).
  rewrite Forall_forall in Hp, Hd |- *. intros f Hf. specialize (Hd f Hf). rewrite Forall_forall in Hd.
  specialize (Hd e He). destruct (Hp f Hf) as (_ & _ & Hn%natural_size). unfold disj in Hd. lia.
Qed.

Lemma owns_write e w v : e ∈ ex -> e.1 <= w < e.1 + e.2 -> owns h (write_word m w v) fl lg ex.
Proof.
  intros He Hw. pose proof (owned_word e w He Hw) as Hf. apply Forall_app in Hf as [Hs Hl].
  destruct Hown. split; try done.
  - intros i hd l Hhd Hli. apply chain_write; [|by eauto]. apply Forall_forall. intros a Ha.
    rewrite Forall_forall in Hs. by destruct (Hs _ (small_exts_lookup _ _ _ _ Hli Ha)).
  - by apply runs_write.
Qed.

Lemma owns_head i : (i < NUM_SIZE_CLASSES)%nat -> exists hd l, free_lists h !! i = Some hd /\ fl !! i = Some l /\ chain m hd l.
Proof.
  intros Hi. destruct Hown. destruct (lookup_lt_is_Some_2 (free_lists h) i ltac:(lia)) as [hd Hhd].
  destruct (lookup_lt_is_Some_2 fl i ltac:(lia)) as [l Hl]. exists hd, l. eauto.
Qed.
End owned.

Lemma owns_perm h m fl lg ex ex' : ex ≡ₚ ex' -> owns h m fl lg ex -> owns h m fl lg ex'.
Proof. intros Hp []. split; try done; by rewrite <- Hp. Qed.

(** ** The list operations move blocks between the groups *)

Lemma owns_base_pos h m fl lg ex e : owns h m fl lg ex -> e ∈ small_exts fl ++ lg ++ ex -> e.1 <> NULL_LINK.
Proof.
  intros [_ _ _ _ _ Hp _ Ha] He. rewrite Forall_forall in Hp. destruct (Hp e He) as (Hb & _). unfold NULL_LINK. lia.
Qed.

(** The words of other people's blocks keep their values. *)
Definition agree (ex : list extent) (m m' : memory) : Prop :=
  forall e w, e ∈ ex -> e.1 <= w < e.1 + e.2 -> read_word m' w = read_word m w.

#[export] Instance agree_preorder ex : PreOrder (agree ex).
Proof. split; [by intros m e w|]. intros m1 m2 m3 H1 H2 e w He Hw. by rewrite (H2 e w), (H1 e w). Qed.

Lemma write_agree h m fl lg ex e w v :
  owns h m fl lg ex -> e ∈ small_exts fl ++ lg -> e.1 <= w < e.1 + e.2 -> agree ex m (write_word m w v).
Proof.
  intros Ho He Hw f u Hf Hu. apply read_write_other. intros ->. pose proof (ow_disj _ _ _ _ _ Ho) as Hd.
  rewrite app_assoc in Hd. apply pairwise_app in Hd as (_ & _ & Hd). rewrite Forall_forall in Hd. specialize (Hd e He).
  rewrite Forall_forall in Hd. specialize (Hd f Hf). unfold disj in Hd. lia.
Qed.
Lemma write_own_agree h m fl lg ex e w v :
  owns h m fl lg (e :: ex) -> e.1 <= w < e.1 + e.2 -> agree ex m (write_word m w v).
Proof.
  intros Ho Hw f u Hf Hu. apply read_write_other. intros ->. pose proof (ow_disj _ _ _ _ _ Ho) as Hd.
  apply pairwise_app in Hd as (_ & Hd & _). apply pairwise_app in Hd as (_ & [Hd _] & _). rewrite Forall_forall in Hd.
  specialize (Hd f Hf). unfold disj in Hd. lia.
Qed.
Lemma agree_cons e ex m m' : agree (e :: ex) m m' -> agree ex m m'.
Proof. intros H f w Hf. apply H. by apply list_elem_of_further. Qed.
Lemma agree_app l ex m m' : agree (l ++ ex) m m' -> agree ex m m'.
Proof. intros H f w Hf. apply H. apply elem_of_app. by right. Qed.

Lemma push_free_owns h m fl lg ex i a :
  owns h m fl lg ((a, class_size i) :: ex) -> (i < NUM_SIZE_CLASSES)%nat ->
  exists h' m' l, push_free h m i a = (h', m') /\ fl !! i = Some l /\ owns h' m' (<[i := a :: l]> fl) lg ex /\
    base h' = base h /\ next h' = next h /\ end_ h' = end_ h /\ agree ex m m'.
Proof.
  intros Ho Hi. destruct (owns_head _ _ _ _ _ Ho i Hi) as (hd & l & Hhd & Hl & Hc).
  pose proof (natural_size (a, class_size i)) as Hn.
  assert (placed h (a, class_size i)) as Hpl.
  { pose proof (ow_placed _ _ _ _ _ Ho) as Hp. rewrite Forall_forall in Hp. apply Hp. set_solver. }
  assert (owns h (write_word m a hd) fl lg ((a, class_size i) :: ex)) as Hw.
  { eapply owns_write; [done|apply list_elem_of_here|]. simpl in *. destruct Hpl as (_ & _ & Hnat). specialize (Hn Hnat). lia. }
  unfold push_free. rewrite Hhd. eexists _, _, l. split; [done|]. split; [done|].
  pose proof (lookup_lt_Some _ _ _ Hhd). pose proof (lookup_lt_Some _ _ _ Hl).
  assert (small_exts (<[i := a :: l]> fl) ≡ₚ (a, class_size i) :: small_exts fl) as Hperm.
  { rewrite (small_exts_cons (<[i := a :: l]> fl) i a l) by (by apply list_lookup_insert_eq).
    by rewrite list_insert_insert_eq, list_insert_id. }
  assert (16 <= class_size i) as H16 by (by apply Hn; destruct Hpl as (_ & _ & ?)).
  split; [|split; [done|]; split; [done|]; split; [done|]; eapply write_own_agree; [exact Ho|simpl; lia]]. destruct Hw as [? ? Hch ? ? Hp Hd Har]. split; cbn; rewrite ?length_insert; try done.
  - intros j hd' l' Hhd' Hl'. destruct (decide (i = j)) as [<-|Hne].
    + rewrite list_lookup_insert_eq in Hhd' by done. rewrite list_lookup_insert_eq in Hl' by done. injection Hhd' as <-. injection Hl' as <-.
      simpl. split; [done|]. split; [apply (owns_base_pos _ _ _ _ _ (a, class_size i) Ho); set_solver|].
      rewrite read_write_same. by apply (Hch i).
    + rewrite list_lookup_insert_ne in Hhd' by done. rewrite list_lookup_insert_ne in Hl' by done. by apply (Hch j).
  - rewrite Hperm. simpl. rewrite app_assoc, <- Permutation_middle, <- app_assoc in Hp. exact Hp.
  - rewrite Hperm. simpl. rewrite app_assoc, <- Permutation_middle, <- app_assoc in Hd. exact Hd.
Qed.

Lemma pop_free_owns h m fl lg ex i :
  owns h m fl lg ex -> (i < NUM_SIZE_CLASSES)%nat ->
  (pop_free h m i = (None, h) /\ fl !! i = Some []) \/
  exists a l h', pop_free h m i = (Some a, h') /\ fl !! i = Some (a :: l) /\
    owns h' m (<[i := l]> fl) lg ((a, class_size i) :: ex) /\ base h' = base h /\ next h' = next h /\ end_ h' = end_ h.
Proof.
  intros Ho Hi. destruct (owns_head _ _ _ _ _ Ho i Hi) as (hd & l & Hhd & Hl & Hc).
  unfold pop_free. rewrite Hhd. destruct l as [|a l]; [left; simpl in Hc; subst hd; done|]. right.
  destruct Hc as (-> & Ha & Hc). rewrite (proj2 (Z.eqb_neq a NULL_LINK)) by done. exists a, l. eexists. split; [done|].
  split; [done|]. pose proof (lookup_lt_Some _ _ _ Hhd). pose proof (lookup_lt_Some _ _ _ Hl).
  pose proof (small_exts_cons _ _ _ _ Hl) as Hperm. split; [|done].
  destruct Ho as [? ? Hch ? ? Hp Hd Har]. split; cbn; rewrite ?length_insert; try done.
  - intros j hd' l' Hhd' Hl'. destruct (decide (i = j)) as [<-|Hne].
    + rewrite list_lookup_insert_eq in Hhd' by done. rewrite list_lookup_insert_eq in Hl' by done. injection Hhd' as <-. by injection Hl' as <-.
    + rewrite list_lookup_insert_ne in Hhd' by done. rewrite list_lookup_insert_ne in Hl' by done. by apply (Hch j).
  - rewrite app_assoc, <- Permutation_middle, <- app_assoc. by rewrite Hperm in Hp.
  - rewrite app_assoc, <- Permutation_middle, <- app_assoc. by rewrite Hperm in Hd.
Qed.

Lemma push_large_owns h m fl lg ex a n :
  owns h m fl lg ((a, n) :: ex) -> LARGE_RUN_MIN <= n ->
  exists h' m', push_large_run h m a n = (h', m') /\ owns h' m' fl ((a, n) :: lg) ex /\
    base h' = base h /\ next h' = next h /\ end_ h' = end_ h /\ agree ex m m'.
Proof.
  intros Ho Hn. unfold LARGE_RUN_MIN, PAGE_BYTES in Hn. eexists _, _. split; [done|].
  split; [|split; [done|]; split; [done|]; split; [done|];
    trans (write_word m a (large_free h)); apply (write_own_agree h _ fl lg ex (a, n)); try (simpl; lia);
    [exact Ho|eapply owns_write; [exact Ho|apply list_elem_of_here|simpl; lia]]].
  assert (owns h (write_word (write_word m a (large_free h)) (a + 8) n) fl lg ((a, n) :: ex)) as Hw.
  { eapply owns_write; [eapply owns_write; [done|apply list_elem_of_here|simpl; lia]|apply list_elem_of_here|simpl; lia]. }
  assert (a <> NULL_LINK) by (apply (owns_base_pos _ _ _ _ _ (a, n) Ho); set_solver).
  destruct Hw as [? ? Hch ? ? Hp Hd Har]. split; cbn; try done.
  - simpl. split; [done|]. split; [done|]. rewrite read_write_same. split; [done|].
    rewrite read_write_other by lia. by rewrite read_write_same.
  - by constructor.
  - by rewrite (Permutation_middle lg).
  - by rewrite (Permutation_middle lg).
Qed.

(** The arena grows by an extent above everything carved before. *)
Lemma carve_spec h size k :
  0 < base h <= next h -> next h <= end_ h -> end_ h + 4096 <= 2 ^ 64 -> 0 <= k <= 12 -> 0 < size ->
  (carve h size (2 ^ k) = (None, h) /\ end_ h < (next h + 2 ^ k - 1) / 2 ^ k * 2 ^ k + size) \/
  exists a, carve h size (2 ^ k) = (Some a, set_next h (a + size)) /\ next h <= a /\ a mod 2 ^ k = 0 /\ a + size <= end_ h.
Proof.
  intros Hb Hn He Hk Hs. unfold carve. unfold UNINIT. rewrite (proj2 (Z.eqb_neq (end_ h) 0)) by lia.
  rewrite align_up_spec by lia.
  assert (1 <= 2 ^ k <= 2 ^ 12) as Hp by (split; [apply Z.pow_le_mono_r with (b := 0)|apply Z.pow_le_mono_r]; lia).
  pose proof (round_bounds (next h) (2 ^ k) ltac:(lia)) as Hr. set (a := _ / _ * _) in *. unfold checked_add.
  destruct (Z.ltb_spec (a + size) (2 ^ 64)); [|left; split; [done|lia]].
  destruct (Z.ltb_spec (end_ h) (a + size)); [by left|]. right. exists a. split; [done|]. split; [lia|].
  split; [|lia]. apply Z.mod_mul. lia.
Qed.

Lemma grow_owns h m fl lg ex n news :
  owns h m fl lg ex -> next h <= n <= end_ h -> pairwise news ->
  Forall (fun e : extent => next h <= e.1 /\ e.1 + e.2 <= n /\ natural e) news ->
  owns (set_next h n) m fl lg (news ++ ex).
Proof.
  intros [? ? ? ? ? Hp Hd Har] Hn Hpw Hnew.
  assert (small_exts fl ++ lg ++ news ++ ex ≡ₚ news ++ small_exts fl ++ lg ++ ex) as Hmid.
  { rewrite !app_assoc. f_equiv. rewrite (Permutation_app_comm _ news). by rewrite !app_assoc. }
  split; cbn; try done; try lia; rewrite Hmid.
  - apply Forall_app. split; (eapply Forall_impl; [done|]); intros e; [intros (? & ? & ?)|intros (? & ? & ?)];
      (split; [cbn; lia|]; split; [cbn; lia|done]).
  - apply pairwise_app. split; [done|]. split; [done|]. eapply Forall_impl; [exact Hnew|]. intros e (He & _ & _).
    eapply Forall_impl; [exact Hp|]. intros f (_ & Hf & _). right. lia.
Qed.

Lemma carve_owns h m fl lg ex a n :
  owns h m fl lg ex -> next h <= a -> a + n <= end_ h -> natural (a, n) ->
  owns (set_next h (a + n)) m fl lg ((a, n) :: ex).
Proof.
  intros Ho Ha He Hn. pose proof (natural_size _ Hn). simpl in *.
  apply (grow_owns h m fl lg ex (a + n) [(a, n)]); [done|lia|by split|]. apply Forall_singleton. simpl. split; [lia|]. by split; [lia|].
Qed.

(** A block in the hands of a caller can be seen as two. *)
Lemma owns_split h m fl lg ex a n k :
  owns h m fl lg ((a, n) :: ex) -> 0 < k < n -> natural (a, k) -> natural (a + k, n - k) ->
  owns h m fl lg ((a, k) :: (a + k, n - k) :: ex).
Proof.
  intros [? ? ? ? ? Hp Hd Har] Hk N1 N2.
  assert (forall x y (z : list extent), small_exts fl ++ lg ++ x :: y :: z ≡ₚ x :: y :: small_exts fl ++ lg ++ z) as Hmid.
  { intros x y z. rewrite !app_assoc, <- !Permutation_middle. done. }
  assert (small_exts fl ++ lg ++ (a, n) :: ex ≡ₚ (a, n) :: small_exts fl ++ lg ++ ex) as Hmid1.
  { by rewrite !app_assoc, <- Permutation_middle. }
  rewrite Hmid1 in Hp, Hd. apply Forall_cons in Hp as [Hpa Hp]. destruct Hd as [Hda Hd].
  destruct Hpa as (? & ? & _). simpl in *.
  split; try done; rewrite Hmid.
  - apply Forall_cons_2; [by split; [|split; [simpl; lia|]]|].
    apply Forall_cons_2; [split; [simpl; lia|]; split; [simpl; lia|done]|done].
  - simpl. split; [apply Forall_cons_2; [left; simpl; lia|]|split; [|done]];
      (eapply Forall_impl; [exact Hda|]); intros f Hf; by apply (disj_split a n k f) in Hf as [? ?]; [|lia].
Qed.

(** ** Refilling a class *)

Fixpoint slab (a c k : Z) (n : nat) : list extent :=
  match n with O => [] | S n => (a + k * c, c) :: slab a c (k + 1) n end.

Lemma slab_above a c k n : 0 < c -> Forall (fun e : extent => a + k * c <= e.1 /\ e.2 = c /\ e.1 + c <= a + (k + Z.of_nat n) * c /\
  exists j, e.1 = a + j * c) (slab a c k n).
Proof.
  intros Hc. revert k. induction n as [|n IH]; intros k; [constructor|]. apply Forall_cons_2.
  - simpl. split; [lia|]. split; [done|]. split; [nia|]. by exists k.
  - eapply Forall_impl; [apply IH|]. intros e (? & ? & ? & ?). split; [nia|]. split; [done|]. split; [|done].
    replace (k + Z.of_nat (S n)) with (k + 1 + Z.of_nat n) by lia. done.
Qed.
Lemma slab_pairwise a c k n : 0 < c -> pairwise (slab a c k n).
Proof.
  intros Hc. revert k. induction n as [|n IH]; intros k; [done|]. split; [|apply IH].
  eapply Forall_impl; [by apply slab_above|]. intros e (? & ? & ? & ?). left. simpl. nia.
Qed.

Lemma class_size_pow i : (i < NUM_SIZE_CLASSES)%nat -> class_size i = 2 ^ (Z.of_nat i + 4).
Proof. unfold NUM_SIZE_CLASSES. intros Hi. do 9 (destruct i as [|i]; [done|]). simpl in Hi. lia. Qed.

Lemma thread_owns h m fl lg ex i run c k n :
  (i < NUM_SIZE_CLASSES)%nat -> c = class_size i -> 0 <= k -> 0 <= run -> run + (k + Z.of_nat n) * c < 2 ^ 64 ->
  owns h m fl lg (slab run c k n ++ ex) ->
  exists h' m' fl', thread_blocks h m i run c k n = Done (h', m') /\ owns h' m' fl' lg ex /\
    base h' = base h /\ next h' = next h /\ end_ h' = end_ h /\ agree ex m m'.
Proof.
  intros Hi Hc. pose proof (classes_range _ (class_size_in i Hi)) as Hcr. rewrite <- Hc in Hcr.
  revert h m fl k. induction n as [|n IH]; intros h m fl k Hk Hrun Hb Ho; cbn [thread_blocks].
  { by exists h, m, fl. }
  rewrite mul_uint_Done by nia. cbn [mbind exec_bind]. rewrite add_uint_Done by nia. cbn [mbind exec_bind].
  cbn [slab app] in Ho. rewrite Hc in Ho at 2. destruct (push_free_owns _ _ _ _ _ _ _ Ho Hi) as (h1 & m1 & l & -> & _ & Ho1 & Hb1 & Hn1 & He1 & Ha1).
  destruct (IH _ _ _ (k + 1) ltac:(lia) Hrun ltac:(nia) Ho1) as (h' & m' & fl' & Ht & Ho' & ? & ? & ? & ?).
  exists h', m', fl'. split; [done|]. split; [done|]. split; [congruence|]. split; [congruence|]. split; [congruence|].
  etrans; [by eapply agree_app|done].
Qed.

Lemma mod_class_mul a c j : a mod c = 0 -> (a + j * c) mod c = 0.
Proof. intros Ha. by rewrite Z_mod_plus_full. Qed.

Lemma refill_with_owns h m fl lg ex i blocks :
  owns h m fl lg ex -> (i < NUM_SIZE_CLASSES)%nat -> 1 <= blocks <= 256 ->
  (refill_with h m i (class_size i) blocks = Done (None, h, m) /\
    end_ h < (next h + class_size i - 1) / class_size i * class_size i + class_size i * blocks) \/
  exists a h' m' fl', refill_with h m i (class_size i) blocks = Done (Some a, h', m') /\
    owns h' m' fl' lg ((a, class_size i) :: ex) /\ base h' = base h /\ end_ h' = end_ h /\ agree ex m m'.
Proof.
  intros Ho Hi Hbl. pose proof (classes_range _ (class_size_in i Hi)) as Hcr. pose proof (ow_arena _ _ _ _ _ Ho) as (? & ? & ?).
  unfold refill_with. rewrite mul_uint_Done by nia. cbn [mbind exec_bind].
  pose proof (class_size_pow i Hi) as Hpow. set (c := class_size i) in *.
  assert (Z.of_nat i + 4 <= 12) by (unfold NUM_SIZE_CLASSES in Hi; simpl in Hi; lia).
  destruct (carve_spec h (c * blocks) (Z.of_nat i + 4)) as [[Hcv Hlt]|(a & Hcv & Ha & Hmod & Hend)];
    [lia|lia|lia|lia|nia| |]; rewrite <- Hpow in *; rewrite Hcv.
  { left. split; [done|]. lia. }
  right. destruct (thread_owns (set_next h (a + c * blocks)) m fl lg ((a, c) :: ex) i a c 1 (Z.to_nat (blocks - 1)))
    as (h' & m' & fl' & Ht & Ho' & ? & ? & ? & Hag%agree_cons); try done; try lia.
  - apply (owns_perm _ _ _ _ (slab a c 0 (Z.to_nat blocks) ++ ex)).
    { replace (Z.to_nat blocks) with (S (Z.to_nat (blocks - 1))) by lia. cbn [slab app].
      replace (a + 0 * c) with a by lia. apply Permutation_middle. }
    apply grow_owns; [done|nia|apply slab_pairwise; lia|].
    eapply Forall_impl; [apply slab_above; lia|]. intros e (? & He & ? & j & Hj). split; [lia|]. split; [nia|]. left. rewrite He.
    split; [by apply class_size_in|]. rewrite Hj. by apply mod_class_mul.
  - rewrite Ht. exists a, h', m', fl'. done.
Qed.

(** ** The list of free runs *)

(** Disjoint extents of at least [s] bytes between two addresses: there is room for so many only. *)
Lemma extents_count (l : list extent) lo hi s :
  0 < s -> pairwise l -> Forall (fun e : extent => lo <= e.1 /\ e.1 + e.2 <= hi /\ s <= e.2) l ->
  lo <= hi -> Z.of_nat (length l) * s <= hi - lo.
Proof.
  intros Hs Hpw Hin Hle. pose proof (merge_sort_Permutation key_le l) as Hperm. rewrite <- Hperm in Hpw, Hin |- *.
  assert (StronglySorted key_le (merge_sort key_le l)) as Hsort.
  { apply StronglySorted_merge_sort; apply _. }
  clear Hperm. revert lo Hin Hle. generalize dependent (merge_sort key_le l). clear l.
  intros l Hpw Hsort. induction l as [|e l IH]; intros lo Hin Hle; [simpl; lia|].
  apply Forall_cons in Hin as [(He1 & He2 & He3) Hin]. destruct Hpw as [Hd Hpw]. apply StronglySorted_inv in Hsort as [Hsort Hle'].
  assert (Z.of_nat (length l) * s <= hi - (e.1 + e.2)) as Hrec; [|cbn [length]; rewrite Nat2Z.inj_succ, Z.mul_succ_l; simpl in *; lia].
  apply IH; [done|done| |lia]. rewrite Forall_forall in Hin, Hd, Hle' |- *. intros f Hf.
  destruct (Hin f Hf) as (? & ? & ?). specialize (Hd f Hf). specialize (Hle' f Hf). unfold disj, key_le in *. lia.
Qed.

Lemma runs_in_arena h m fl lg ex : owns h m fl lg ex -> (length lg <= Z.to_nat (total_bytes h / LARGE_RUN_MIN))%nat.
Proof.
  intros [_ _ _ _ Hl Hp Hd Har]. unfold total_bytes, saturating_sub.
  assert (Z.of_nat (length lg) * LARGE_RUN_MIN <= end_ h - base h) as Hc.
  { apply extents_count; [done| | |lia].
    - apply pairwise_app in Hd as (_ & Hd & _). by apply pairwise_app in Hd as (Hd & _).
    - apply Forall_app in Hp as [_ Hp]. apply Forall_app in Hp as [Hp _]. rewrite Forall_forall in Hl, Hp |- *.
      intros e He. destruct (Hp e He) as (? & ? & _). specialize (Hl e He). simpl in Hl. lia. }
  unfold LARGE_RUN_MIN, PAGE_BYTES in *.
  assert (Z.of_nat (length lg) <= (end_ h - base h) / (2 * 4096)) by (apply Z.div_le_lower_bound; lia).
  rewrite Z.max_r by lia. lia.
Qed.

(** The word a run starts with is the link of no other run. *)
Lemma run_words h m fl lg ex l1 a n l2 :
  owns h m fl lg ex -> lg = l1 ++ (a, n) :: l2 ->
  Forall (fun e : extent => a <> e.1 /\ a <> e.1 + 8) (l1 ++ l2).
Proof.
  intros [_ _ _ _ Hl Hp Hd _] ->. apply Forall_app in Hp as [_ Hp]. apply Forall_app in Hp as [Hp _].
  apply pairwise_app in Hd as (_ & Hd & _). apply pairwise_app in Hd as (Hd & _ & _).
  rewrite <- Permutation_middle in Hp, Hd, Hl. destruct Hd as [Hd _]. apply Forall_cons in Hl as [Ha Hl].
  rewrite Forall_forall in Hd, Hl |- *. intros e He. specialize (Hd e He). specialize (Hl e He).
  unfold disj, LARGE_RUN_MIN, PAGE_BYTES in *. simpl in *. lia.
Qed.

(** Linking the predecessor to the successor takes a run out of the list. *)
Lemma runs_unlink m hd l1 p np c n l2 :
  Forall (fun e : extent => p <> e.1 /\ p <> e.1 + 8) (l1 ++ l2) ->
  runs m hd (l1 ++ (p, np) :: (c, n) :: l2) -> runs (write_word m p (read_word m c)) hd (l1 ++ (p, np) :: l2).
Proof.
  intros Hf. apply Forall_app in Hf as [H1 H2]. revert hd. induction l1 as [|[a na] l1 IH]; intros hd.
  - simpl. intros (-> & Hp & Hnp & Hc & Hcn & Hn & Hr). split; [done|]. split; [done|].
    rewrite read_write_other by lia. split; [done|]. rewrite read_write_same. by apply runs_write.
  - apply Forall_cons in H1 as [[Ha Ha8] H1]. simpl in *. intros (-> & Hnz & Hna & Hr).
    rewrite !read_write_other by done. split; [done|]. split; [done|]. split; [done|]. by apply IH.
Qed.

Lemma runs_suffix m hd l1 l2 : runs m hd (l1 ++ l2) -> exists hd2, runs m hd2 l2.
Proof.
  revert hd. induction l1 as [|[a n] l1 IH]; intros hd; [by exists hd|]. simpl. intros (_ & _ & _ & Hr). by eapply IH.
Qed.

(** Removing a run from the list hands it to the caller. *)
Lemma unlink_owns h m fl l1 a n l2 ex :
  owns h m fl (l1 ++ (a, n) :: l2) ex ->
  let prev := fst <$> last l1 in
  let '(h', m') := match prev with
                   | None => (set_large h (read_word m a), m)
                   | Some p => (h, write_word m p (read_word m a))
                   end in
  owns h' m' fl (l1 ++ l2) ((a, n) :: ex) /\ base h' = base h /\ next h' = next h /\ end_ h' = end_ h /\ agree ex m m'.
Proof.
  intros Ho. cbn zeta. pose proof Ho as [? ? Hch Hr Hl Hp Hd Har].
  assert (small_exts fl ++ (l1 ++ (a, n) :: l2) ++ ex ≡ₚ small_exts fl ++ (l1 ++ l2) ++ (a, n) :: ex) as Hperm.
  { f_equiv. rewrite <- !app_assoc. f_equiv. simpl. apply Permutation_middle. }
  assert (Forall (fun e : extent => LARGE_RUN_MIN <= e.2) (l1 ++ l2)) as Hl'.
  { rewrite <- Permutation_middle in Hl. by apply Forall_cons in Hl as [_ ?]. }
  rewrite Hperm in Hp, Hd.
  destruct l1 as [|x l1 _] using rev_ind; [|rewrite last_snoc; destruct x as [p np]]; simpl;
    (split; [|split; [done|]; split; [done|]; split; [done|]; try done]).
  - simpl in Hr. destruct Hr as (_ & _ & _ & Hr). by split.
  - assert (Forall (fun e : extent => p <> e.1 /\ p <> e.1 + 8) (l1 ++ (a, n) :: l2)) as Hw.
    { apply (run_words _ _ _ _ _ l1 p np ((a, n) :: l2) Ho). by rewrite <- app_assoc. }
    assert (Forall (fun e : extent => p <> e.1 /\ p <> e.1 + 8) (l1 ++ l2)) as Hw'.
    { rewrite <- Permutation_middle in Hw. by apply Forall_cons in Hw as [_ ?]. }
    assert (Forall (fun f : extent => p <> f.1) (small_exts fl)) as Hsm.
    { apply pairwise_app in Hd as (_ & _ & Hd). apply Forall_app in Hp as [Hps Hp]. rewrite Forall_forall in Hd, Hps |- *.
      intros f Hf. specialize (Hd f Hf). rewrite Forall_forall in Hd. specialize (Hd (p, np) ltac:(set_solver)).
      destruct (Hps f Hf) as (_ & _ & Hn%natural_size). rewrite Forall_forall in Hl.
      specialize (Hl (p, np) ltac:(set_solver)). unfold disj, LARGE_RUN_MIN, PAGE_BYTES in *. simpl in *. lia. }
    split; try done.
    + intros i hd l Hhd Hli. apply chain_write; [|by eauto]. apply Forall_forall. intros b Hb.
      rewrite Forall_forall in Hsm. exact (Hsm _ (small_exts_lookup _ _ _ _ Hli Hb)).
    + rewrite <- app_assoc. simpl. apply (runs_unlink m _ l1 p np a n l2); [done|]. by rewrite <- app_assoc in Hr.
  - eapply write_agree with (e := (p, np)); [exact Ho|set_solver|]. rewrite Forall_forall in Hl.
    specialize (Hl (p, np) ltac:(set_solver)). unfold LARGE_RUN_MIN, PAGE_BYTES in Hl. simpl in *. lia.
Qed.

Definition same_arena (ex : list extent) (h : SlabHeap) (m : memory) (h' : SlabHeap) (m' : memory) : Prop :=
  base h' = base h /\ next h' = next h /\ end_ h' = end_ h /\ agree ex m m'.

Lemma large_natural e : natural e -> LARGE_RUN_MIN <= e.2 -> e.2 mod PAGE_BYTES = 0 /\ e.1 mod PAGE_BYTES = 0.
Proof. intros [[Hc _]|(_ & ? & ?)] Hl; [|done]. apply classes_range in Hc. unfold LARGE_RUN_MIN, PAGE_BYTES in *. lia. Qed.

Lemma mod_page_add a b : a mod PAGE_BYTES = 0 -> b mod PAGE_BYTES = 0 -> (a + b) mod PAGE_BYTES = 0.
Proof. intros Ha Hb. rewrite Z.add_mod, Ha, Hb by done. done. Qed.
Lemma mod_page_sub a b : a mod PAGE_BYTES = 0 -> b mod PAGE_BYTES = 0 -> (a - b) mod PAGE_BYTES = 0.
Proof. intros Ha Hb. rewrite Zminus_mod, Ha, Hb by done. done. Qed.

(** What is left of a run after its front is handed out goes back to a list, whole. *)
Lemma recycle_owns h m fl lg ex a n need :
  owns h m fl lg ((a, n) :: ex) -> n mod PAGE_BYTES = 0 -> a mod PAGE_BYTES = 0 -> need mod PAGE_BYTES = 0 ->
  LARGE_RUN_MIN <= need <= n ->
  exists h' m' fl' lg', recycle h m a need (n - need) = Done (h', m') /\
    owns h' m' fl' lg' ((a, need) :: ex) /\ same_arena ex h m h' m'.
Proof.
  intros Ho Hn Ha Hneed [Hmin Hle]. unfold recycle.
  assert (placed h (a, n)) as (Hpa & Hpb & _).
  { pose proof (ow_placed _ _ _ _ _ Ho) as Hp. rewrite Forall_forall in Hp. apply Hp. set_solver. }
  pose proof (ow_arena _ _ _ _ _ Ho) as (? & ? & ?). simpl in Hpa, Hpb.
  pose proof (mod_page_sub n need Hn Hneed) as Hr. pose proof (mod_page_add a need Ha Hneed) as Hb.
  unfold LARGE_RUN_MIN in *. pose proof (Z.div_mod (n - need) PAGE_BYTES ltac:(done)) as Hdiv. rewrite Hr in Hdiv.
  assert (natural (a, need)) as Hnat by (right; done).
  destruct (Z.leb_spec (2 * PAGE_BYTES) (n - need)) as [Hbig|Hsmall].
  - rewrite add_uint_Done by (unfold PAGE_BYTES in *; lia). cbn [mbind exec_bind].
    apply owns_split with (k := need) in Ho; [|unfold PAGE_BYTES in *; lia|done|right; done].
    apply (owns_perm _ _ _ _ _ ((a + need, n - need) :: (a, need) :: ex)) in Ho; [|constructor].
    destruct (push_large_owns _ _ _ _ _ _ _ Ho Hbig) as (h' & m' & -> & Ho' & ? & ? & ? & Hag%agree_cons). by exists h', m', fl, ((a + need, n - need) :: lg).
  - destruct (Z.eqb_spec (n - need) PAGE_BYTES) as [He|Hne].
    + rewrite add_uint_Done by (unfold PAGE_BYTES in *; lia). cbn [mbind exec_bind].
      apply owns_split with (k := need) in Ho; [|unfold PAGE_BYTES in *; lia|done|left; rewrite He; split; [cbn; set_solver|exact Hb]].
      apply (owns_perm _ _ _ _ _ ((a + need, class_size 8) :: (a, need) :: ex)) in Ho; [|rewrite He; constructor].
      destruct (push_free_owns _ _ _ _ _ 8 _ Ho ltac:(cbn; lia)) as (h' & m' & l & -> & _ & Ho' & ? & ? & ? & Hag%agree_cons). by exists h', m', (<[8%nat := a + need :: l]> fl), lg.
    + replace n with need in Ho by (unfold PAGE_BYTES in *; lia). by exists h, m, fl, lg.
Qed.

Lemma runs_head m hd l : runs m hd l -> hd = default NULL_LINK (fst <$> head l).
Proof. destruct l as [|[a n] l]; [done|]. by intros (-> & _). Qed.

(** The traversal hands out the first run that is long enough, or finds none. *)
Lemma take_loop_owns fuel h m fl l1 l2 ex need :
  owns h m fl (l1 ++ l2) ex -> need mod PAGE_BYTES = 0 -> LARGE_RUN_MIN <= need -> (length l2 <= fuel)%nat ->
  forall cur, runs m cur l2 ->
  (take_loop fuel h m need (fst <$> last l1) cur = Done (0, h, m) /\ Forall (fun e : extent => e.2 < need) l2) \/
  exists a h' m' fl' lg', take_loop fuel h m need (fst <$> last l1) cur = Done (a, h', m') /\
    owns h' m' fl' lg' ((a, need) :: ex) /\ same_arena ex h m h' m'.
Proof.
  intros Ho Hneed Hmin. revert l1 l2 Ho. induction fuel as [|fuel IH]; intros l1 l2 Ho Hf cur Hr.
  - destruct l2; [|simpl in Hf; lia]. simpl in Hr. subst cur. by left.
  - destruct l2 as [|[a n] l2]; [simpl in Hr; subst cur; by left|].
    destruct Hr as (-> & Hnz & Hn & Hr). cbn [take_loop]. rewrite (proj2 (Z.eqb_neq a NULL_LINK)) by done. rewrite Hn.
    destruct (Z.leb_spec need n) as [Hle|Hgt].
    + right. pose proof (unlink_owns _ _ _ _ _ _ _ _ Ho) as Hu. cbn zeta in Hu.
      destruct (match fst <$> last l1 with None => _ | Some p => _ end) as [h1 m1].
      destruct Hu as (Hu & Hb & Hx & He & Hag).
      assert (natural (a, n)) as Hnat.
      { pose proof (ow_placed _ _ _ _ _ Ho) as Hp. rewrite Forall_forall in Hp. apply (Hp (a, n)). set_solver. }
      destruct (large_natural (a, n) Hnat) as [? ?]; [simpl; lia|].
      destruct (recycle_owns _ _ _ _ _ _ _ need Hu) as (h' & m' & fl' & lg' & -> & Ho' & ? & ? & ? & Hag'); try done.
      exists a, h', m', fl', lg'. split; [done|]. split; [done|]. split; [congruence|]. split; [congruence|]. split; [congruence|]. by etrans.
    + rewrite cons_middle, app_assoc in Ho.
      destruct (IH _ _ Ho ltac:(simpl in Hf; lia) _ Hr) as [[Heq Hall]|Hrest]; rewrite last_snoc in *; [|by right].
      left. split; [done|]. constructor; done.
Qed.

Lemma take_large_run_owns h m fl lg ex need :
  owns h m fl lg ex -> need mod PAGE_BYTES = 0 -> LARGE_RUN_MIN <= need ->
  (take_large_run h m need = Done (0, h, m) /\ Forall (fun e : extent => e.2 < need) lg) \/
  exists a h' m' fl' lg', take_large_run h m need = Done (a, h', m') /\
    owns h' m' fl' lg' ((a, need) :: ex) /\ same_arena ex h m h' m'.
Proof.
  intros Ho Hneed Hmin.
  exact (take_loop_owns _ h m fl [] lg ex need Ho Hneed Hmin (runs_in_arena _ _ _ _ _ Ho) _ (ow_runs _ _ _ _ _ Ho)).
Qed.

(** ** The class of a layout *)

Lemma class_scan_spec need i cs j :
  class_scan need i cs = Some j ->
  exists k c, j = (i + k)%nat /\ cs !! k = Some c /\ need <= c /\ (forall k' c', (k' < k)%nat -> cs !! k' = Some c' -> c' < need).
Proof.
  revert i. induction cs as [|c cs IH]; intros i; [done|]. simpl. destruct (Z.leb_spec need c).
  - intros [= <-]. exists 0%nat, c. split; [lia|]. split; [done|]. split; [done|]. lia.
  - intros (k & c' & -> & Hc & Hle & Hmin)%IH. exists (S k), c'. split; [lia|]. split; [done|]. split; [done|].
    intros [|k'] c'' Hlt Hk; [injection Hk as <-; lia|]. apply (Hmin k'); [lia|done].
Qed.
Lemma class_scan_fits need : need <= MAX_SMALL_BYTES -> is_Some (class_scan need 0 SIZE_CLASSES).
Proof. intros Hn. unfold MAX_SMALL_BYTES in Hn. cbn. repeat case_match; try done. lia. Qed.

Lemma size_class_index_Some s a i :
  size_class_index s a = Some i ->
  (i < NUM_SIZE_CLASSES)%nat /\ Z.max s a <= class_size i /\ (forall j, (j < i)%nat -> class_size j < Z.max s a).
Proof.
  unfold size_class_index. replace (if a <? s then s else a) with (Z.max s a) by (destruct (Z.ltb_spec a s); lia).
  destruct (Z.ltb_spec MAX_SMALL_BYTES (Z.max s a)); [done|].
  intros (k & c & -> & Hc & Hle & Hmin)%class_scan_spec. simpl. pose proof (lookup_lt_Some _ _ _ Hc) as Hk.
  split; [done|]. unfold class_size. split; [by rewrite Hc|]. intros j Hj.
  destruct (lookup_lt_is_Some_2 SIZE_CLASSES j ltac:(lia)) as [c' Hc']. rewrite Hc'. by apply (Hmin j).
Qed.
Lemma size_class_index_None s a : size_class_index s a = None -> MAX_SMALL_BYTES < Z.max s a.
Proof.
  unfold size_class_index. replace (if a <? s then s else a) with (Z.max s a) by (destruct (Z.ltb_spec a s); lia).
  destruct (Z.ltb_spec MAX_SMALL_BYTES (Z.max s a)) as [|Hle]; [done|]. by destruct (class_scan_fits _ Hle) as [i ->].
Qed.

Lemma page_round_up_spec s :
  0 <= s <= 2 ^ 63 -> exists r, page_round_up s = Some r /\ s <= r < s + PAGE_BYTES /\ r mod PAGE_BYTES = 0.
Proof.
  intros Hs. unfold page_round_up, checked_add, PAGE_BYTES.
  destruct (Z.ltb_spec (s + (4096 - 1)) (2 ^ 64)); [|lia]. eexists. split; [reflexivity|].
  change (4096 - 1) with (2 ^ 12 - 1). rewrite land_not_mask by (unfold in_uint; lia). change 4096 with (2 ^ 12).
  split; [|by apply Z.mod_mul]. replace (s + (2 ^ 12 - 1)) with (s + 2 ^ 12 - 1) by lia. by apply round_bounds.
Qed.

(** The bytes a layout really takes, and the alignment of its block. *)
Definition block_bytes (l : Layout) : Z :=
  match size_class_index (size l) (align l) with
  | Some i => class_size i
  | None => default 0 (page_round_up (size l))
  end.
Definition block_align (l : Layout) : Z :=
  match size_class_index (size l) (align l) with Some i => class_size i | None => PAGE_BYTES end.

Lemma mod_pow_le a j k : 0 <= j <= k -> a mod 2 ^ k = 0 -> a mod 2 ^ j = 0.
Proof.
  intros Hj Ha. apply Z.mod_divide; [lia|]. apply Z.mod_divide in Ha as [q ->]; [|lia].
  exists (q * 2 ^ (k - j)). rewrite <- Z.mul_assoc, <- Z.pow_add_r by lia. by replace (k - j + j) with k by lia.
Qed.

Lemma block_fits l a :
  layout_ok l -> align l <= PAGE_BYTES -> a mod block_align l = 0 -> a mod align l = 0 /\ size l <= block_bytes l.
Proof.
  intros (Hs & (k & Hk & Hal) & Hmax) Hpage. unfold block_align, block_bytes.
  assert (forall j, 2 ^ k <= 2 ^ j -> 0 <= j -> k <= j) as Hmono by (intros j Hle Hj; by apply (Z.pow_le_mono_r_iff 2)).
  destruct (size_class_index (size l) (align l)) as [i|] eqn:E; intros Ha.
  - apply size_class_index_Some in E as (Hi & Hle & _). split; [|lia].
    rewrite (class_size_pow i Hi) in Ha, Hle. rewrite Hal in *. eapply mod_pow_le; [|exact Ha]. split; [done|]. apply Hmono; lia.
  - destruct (page_round_up_spec (size l)) as (r & -> & Hr & _); [lia|]. split; [|simpl; lia].
    rewrite Hal in *. apply (mod_pow_le a k 12); [|exact Ha]. split; [done|]. apply Hmono; [exact Hpage|lia].
Qed.

Definition round_to (a p : Z) : Z := (a + p - 1) / p * p.

Lemma refill_class_owns h m fl lg ex i :
  owns h m fl lg ex -> (i < NUM_SIZE_CLASSES)%nat ->
  (refill_class h m i = Done (0, h, m) /\ end_ h < round_to (next h) (class_size i) + class_size i) \/
  exists a h' m' fl', refill_class h m i = Done (a, h', m') /\
    owns h' m' fl' lg ((a, class_size i) :: ex) /\ base h' = base h /\ end_ h' = end_ h /\ agree ex m m'.
Proof.
  intros Ho Hi. unfold refill_class, size_class_bytes, round_to.
  destruct (lookup_lt_is_Some_2 SIZE_CLASSES i Hi) as [c Hc]. rewrite Hc.
  assert (class_size i = c) as Hcs by (unfold class_size; by rewrite Hc).
  pose proof (classes_range _ (class_size_in i Hi)) as Hcr. rewrite Hcs in Hcr.
  assert (1 <= PAGE_BYTES / c <= 256) as Hw.
  { unfold PAGE_BYTES. split; [apply Z.div_le_lower_bound; lia|]. apply Z.div_le_upper_bound; lia. }
  rewrite (proj2 (Z.eqb_neq (PAGE_BYTES / c) 0)) by lia. rewrite <- Hcs.
  destruct (refill_with_owns h m fl lg ex i (PAGE_BYTES / class_size i) Ho Hi ltac:(by rewrite Hcs))
    as [[-> Hlt]|(a & h' & m' & fl' & -> & Hrest)]; cbn [mbind exec_bind].
  - destruct (Z.eqb_spec (PAGE_BYTES / class_size i) 1) as [E|E].
    + rewrite E, Z.mul_1_r in Hlt. by left.
    + destruct (refill_with_owns h m fl lg ex i 1 Ho Hi ltac:(lia)) as [[-> Hlt1]|(a & h' & m' & fl' & -> & Hrest)]; cbn [mbind exec_bind].
      * rewrite Z.mul_1_r in Hlt1. by left.
      * right. by exists a, h', m', fl'.
  - right. by exists a, h', m', fl'.
Qed.

(** Nothing on the lists and nothing above the cursor can serve the layout. *)
Definition exhausted (h : SlabHeap) (fl : list (list Z)) (lg : list extent) (l : Layout) : Prop :=
  match size_class_index (size l) (align l) with
  | Some i => fl !! i = Some []
  | None => Forall (fun e : extent => e.2 < block_bytes l) lg
  end /\ end_ h < round_to (next h) (block_align l) + block_bytes l.

Lemma owns_nonzero h m fl lg a n ex : owns h m fl lg ((a, n) :: ex) -> a <> 0.
Proof. intros Ho. apply (owns_base_pos _ _ _ _ _ (a, n) Ho). set_solver. Qed.

Definition granted (h : SlabHeap) (m : memory) (ex : list extent) (l : Layout) (r : exec (Z * SlabHeap * memory)) : Prop :=
  exists a h' m' fl' lg', r = Done (a, h', m') /\ a <> 0 /\ owns h' m' fl' lg' ((a, block_bytes l) :: ex) /\
    base h' = base h /\ end_ h' = end_ h /\ agree ex m m'.

Lemma granted_intro h m ex l a h' m' fl' lg' :
  owns h' m' fl' lg' ((a, block_bytes l) :: ex) -> base h' = base h -> end_ h' = end_ h -> agree ex m m' ->
  granted h m ex l (Done (a, h', m')).
Proof. intros Ho Hb He Ha. exists a, h', m', fl', lg'. split; [done|]. split; [by eapply owns_nonzero|done]. Qed.

Lemma allocate_small_owns h m fl lg ex l i :
  owns h m fl lg ex -> size_class_index (size l) (align l) = Some i ->
  (allocate h m l = Done (0, h, m) /\ exhausted h fl lg l) \/ granted h m ex l (allocate h m l).
Proof.
  intros Ho E. pose proof (ow_arena _ _ _ _ _ Ho) as (? & ? & ?). unfold allocate, exhausted, block_align.
  rewrite (proj2 (Z.eqb_neq (end_ h) UNINIT)) by (unfold UNINIT; lia).
  assert (block_bytes l = class_size i) as Hb by (unfold block_bytes; by rewrite E).
  rewrite E, Hb. apply size_class_index_Some in E as (Hi & _ & _).
  destruct (pop_free_owns _ _ _ _ _ i Ho Hi) as [[-> Hnil]|(a & l' & h' & -> & _ & Ho' & ? & ? & ?)].
  - destruct (refill_class_owns _ _ _ _ _ i Ho Hi) as [[-> Hlt]|(a & h' & m' & fl' & -> & Ho' & ? & ? & ?)]; [by left|].
    right. eapply granted_intro; [by rewrite Hb|done..].
  - right. eapply granted_intro; [by rewrite Hb|done..].
Qed.

Lemma allocate_large_owns h m fl lg ex l :
  owns h m fl lg ex -> layout_ok l -> size_class_index (size l) (align l) = None -> align l <= PAGE_BYTES ->
  (allocate h m l = Done (0, h, m) /\ exhausted h fl lg l) \/ granted h m ex l (allocate h m l).
Proof.
  intros Ho (Hs & (k & Hk & Hal) & Hmax) E Hpage. pose proof (ow_arena _ _ _ _ _ Ho) as (? & ? & ?). unfold allocate, exhausted, block_align.
  rewrite (proj2 (Z.eqb_neq (end_ h) UNINIT)) by (unfold UNINIT; lia). rewrite E.
  rewrite (proj2 (Z.ltb_ge PAGE_BYTES (align l))) by done. pose proof (size_class_index_None _ _ E) as Hbig.
  destruct (page_round_up_spec (size l)) as (r & Hr & Hrs & Hrm); [lia|]. rewrite Hr.
  assert (block_bytes l = r) as Hb by (unfold block_bytes; by rewrite E, Hr). rewrite Hb.
  assert (LARGE_RUN_MIN <= r) as Hlarge.
  { pose proof (Z.div_mod r PAGE_BYTES ltac:(done)). unfold LARGE_RUN_MIN, PAGE_BYTES, MAX_SMALL_BYTES in *. lia. }
  destruct (take_large_run_owns _ _ _ _ _ r Ho Hrm Hlarge) as [[-> Hall]|(a & h' & m' & fl' & lg' & -> & Ho' & ? & ? & ? & ?)];
    cbn [mbind exec_bind].
  - cbn. change PAGE_BYTES with (2 ^ 12).
    destruct (carve_spec h r 12) as [[Hcv Hlt]|(a & Hcv & Ha & Hmod & Hend)];
      [lia|lia|lia|lia|unfold LARGE_RUN_MIN, PAGE_BYTES in *; lia| |]; rewrite Hcv; cbn.
    + left. split; [done|]. split; [done|]. exact Hlt.
    + right. eapply granted_intro; [|done..]. rewrite Hb. apply carve_owns; [done..|]. right. done.
  - pose proof (owns_nonzero _ _ _ _ _ _ _ Ho'). rewrite (proj2 (Z.eqb_neq a 0)) by done. right.
    eapply granted_intro; [by rewrite Hb|done..].
Qed.

(** An allocation never fails while something could serve it, and hands out a block of its own. *)
Lemma allocate_owns h m fl lg ex l :
  owns h m fl lg ex -> layout_ok l ->
  (allocate h m l = Done (0, h, m) /\ (PAGE_BYTES < align l \/ exhausted h fl lg l)) \/
  align l <= PAGE_BYTES /\ granted h m ex l (allocate h m l).
Proof.
  intros Ho Hl. destruct (Z_lt_le_dec PAGE_BYTES (align l)) as [Hgt|Hle].
  - left. split; [|by left]. unfold allocate. destruct (_ =? _); [done|].
    destruct (size_class_index (size l) (align l)) as [i|] eqn:E.
    + apply size_class_index_Some in E as (Hi & Hmax & _). pose proof (classes_range _ (class_size_in i Hi)). unfold PAGE_BYTES in *. lia.
    + by rewrite (proj2 (Z.ltb_lt PAGE_BYTES (align l))).
  - destruct (size_class_index (size l) (align l)) as [i|] eqn:E.
    + destruct (allocate_small_owns _ _ _ _ _ _ _ Ho E) as [[? ?]|?]; [left|right]; auto.
    + destruct (allocate_large_owns _ _ _ _ _ _ Ho Hl E Hle) as [[? ?]|?]; [left|right]; auto.
Qed.

(** Freeing a block gives it back. *)
Lemma free_owns h m fl lg ex a l :
  owns h m fl lg ((a, block_bytes l) :: ex) -> layout_ok l -> align l <= PAGE_BYTES ->
  exists h' m' fl' lg', free h m a l = (h', m') /\ owns h' m' fl' lg' ex /\ same_arena ex h m h' m'.
Proof.
  intros Ho (Hs & (k & Hk & Hal) & Hmax) Hpage. unfold free. rewrite (proj2 (Z.eqb_neq a 0)) by (by eapply owns_nonzero). unfold block_bytes in Ho.
  destruct (size_class_index (size l) (align l)) as [i|] eqn:E.
  - apply size_class_index_Some in E as (Hi & _). destruct (push_free_owns _ _ _ _ _ _ _ Ho Hi) as (h' & m' & l' & -> & _ & Ho' & ?).
    by exists h', m', (<[i := a :: l']> fl), lg.
  - rewrite (proj2 (Z.leb_le (align l) PAGE_BYTES)) by done. pose proof (size_class_index_None _ _ E) as Hbig.
    destruct (page_round_up_spec (size l)) as (r & Hr & Hrs & Hrm); [lia|]. rewrite Hr in Ho |- *. change (default 0 (Some r)) with r in Ho.
    destruct (push_large_owns _ _ _ _ _ _ _ Ho) as (h' & m' & -> & Ho' & ?).
    { pose proof (Z.div_mod r PAGE_BYTES ltac:(done)). unfold LARGE_RUN_MIN, PAGE_BYTES, MAX_SMALL_BYTES in *. lia. }
    by exists h', m', fl, ((a, r) :: lg).
Qed.

(** A block on its way to the caller is aligned for its layout. *)
Lemma owned_block h m fl lg ex a l :
  owns h m fl lg ex -> (a, block_bytes l) ∈ ex -> layout_ok l -> align l <= PAGE_BYTES ->
  a mod align l = 0 /\ size l <= block_bytes l /\ base h <= a /\ a + block_bytes l <= end_ h.
Proof.
  intros Ho Hin Hl Hpage. pose proof (ow_placed _ _ _ _ _ Ho) as Hp. pose proof (ow_arena _ _ _ _ _ Ho) as (? & ? & ?).
  rewrite Forall_forall in Hp. destruct (Hp (a, block_bytes l)) as (Hlo & Hhi & Hn); [set_solver|]. simpl in Hlo, Hhi.
  assert (a mod block_align l = 0) as Ha.
  { unfold block_bytes, block_align in *. destruct (size_class_index (size l) (align l)) as [i|] eqn:E.
    - apply size_class_index_Some in E as (Hi & _). pose proof (classes_range _ (class_size_in i Hi)).
      destruct Hn as [[_ ?]|[Hbig _]]; [done|]. unfold LARGE_RUN_MIN, PAGE_BYTES in Hbig. simpl in Hbig. lia.
    - apply size_class_index_None in E. destruct Hl as (Hs & (k & Hk & Hal) & Hmax).
      destruct (page_round_up_spec (size l)) as (r & Hr & Hrs & Hrm); [lia|]. rewrite Hr in Hn.
      destruct Hn as [[Hc _]|(_ & _ & ?)]; [|done]. apply classes_range in Hc. simpl in Hc.
      unfold PAGE_BYTES, MAX_SMALL_BYTES in *. lia. }
  destruct (block_fits l a Hl Hpage Ha). repeat split; try done. lia.
Qed.

(** ** Clients

    The kernel's code as the heap sees it: allocations, frees of blocks that are still held, with the
    layout they were allocated with, and writes into such blocks ([GlobalAlloc]'s contract). *)

Record world := mkWorld { w_heap : SlabHeap; w_mem : memory; w_live : list (Z * Layout) }.
Inductive op := Alloc (l : Layout) | Free (k : nat) | Store (k : nat) (off v : Z).

Definition remove_at {A} (k : nat) (l : list A) : list A := take k l ++ drop (S k) l.
Definition step (w : world) (o : op) : exec world :=
  match o with
  | Alloc l =>
      '(p, h, m) ← allocate (w_heap w) (w_mem w) l;
      Done (mkWorld h m (if p =? 0 then w_live w else (p, l) :: w_live w))
  | Free k =>
      match w_live w !! k with
      | None => Done w
      | Some (p, l) =>
          let '(h, m) := free (w_heap w) (w_mem w) p l in Done (mkWorld h m (remove_at k (w_live w)))
      end
  | Store k off v =>
      match w_live w !! k with
      | None => Done w
      | Some (p, l) =>
          if (0 <=? off) && (off <? size l) then Done (mkWorld (w_heap w) (write_word (w_mem w) (p + off) v) (w_live w))
          else Done w
      end
  end.
Fixpoint run (w : world) (os : list op) : exec world :=
  match os with [] => Done w | o :: os => w ← step w o; run w os end.

Definition op_ok (o : op) : Prop := match o with Alloc l => layout_ok l | _ => True end.
Definition held (l : list (Z * Layout)) : list extent := (fun b : Z * Layout => (b.1, block_bytes b.2)) <$> l.

Definition world_ok (lo hi : Z) (w : world) : Prop :=
  (exists fl lg, owns (w_heap w) (w_mem w) fl lg (held (w_live w))) /\
  Forall (fun b : Z * Layout => layout_ok b.2 /\ align b.2 <= PAGE_BYTES) (w_live w) /\
  base (w_heap w) = lo /\ end_ (w_heap w) = hi.

Lemma remove_at_perm {A} k (l : list A) x : l !! k = Some x -> l ≡ₚ x :: remove_at k l.
Proof.
  intros Hx. unfold remove_at. rewrite <- (take_drop_middle l k x Hx) at 1. symmetry. apply Permutation_middle.
Qed.

Lemma init_owns lo len :
  0 < lo -> 0 <= len -> lo + len + 4096 <= 2 ^ 64 ->
  exists h, init SlabHeap_new lo len = Done h /\ owns h ∅ (replicate NUM_SIZE_CLASSES []) [] [] /\
    base h = lo /\ next h = lo /\ end_ h = lo + len.
Proof.
  intros Hlo Hlen Hhi. unfold init, checked_add. destruct (Z.ltb_spec (lo + len) (2 ^ 64)); [|lia]. cbn.
  eexists. split; [done|]. split; [|done]. split; cbn; try done; try lia.
  intros i hd l Hh Hl. do 9 (destruct i as [|i]; [simpl in Hh, Hl; injection Hh as <-; injection Hl as <-; done|]). done.
Qed.

Definition target (w : world) (o : op) : option (Z * Layout) :=
  match o with Alloc _ => None | Free k | Store k _ _ => w_live w !! k end.

Lemma held_in b l : b ∈ l -> (b.1, block_bytes b.2) ∈ held l.
Proof. intros Hb. apply list_elem_of_fmap. by exists b. Qed.
Lemma held_remove k l b : l !! k = Some b -> held l ≡ₚ (b.1, block_bytes b.2) :: held (remove_at k l).
Proof. intros Hb. exact (fmap_Permutation _ _ _ (remove_at_perm _ _ _ Hb)). Qed.
Lemma agree_held b l m m' : b ∈ l -> agree (held l) m m' -> agree [(b.1, block_bytes b.2)] m m'.
Proof. intros Hb Ha e x He. apply Ha. apply list_elem_of_singleton in He as ->. by apply held_in. Qed.

(** What an operation of a client may do: keep the invariant, and the words of every block but its own. *)
Definition preserves (lo hi : Z) (w : world) (o : op) : Prop :=
  exists w', step w o = Done w' /\ world_ok lo hi w' /\
    (forall b, b ∈ w_live w -> target w o <> Some b ->
       b ∈ w_live w' /\ agree [(b.1, block_bytes b.2)] (w_mem w) (w_mem w')).

Lemma preserves_idle lo hi w o : world_ok lo hi w -> step w o = Done w -> preserves lo hi w o.
Proof. intros Hw Hs. by exists w. Qed.

Lemma step_alloc lo hi w l : world_ok lo hi w -> layout_ok l -> preserves lo hi w (Alloc l).
Proof.
  intros Hw Hok. pose proof Hw as ((fl & lg & Ho) & Hl & Hlo & Hhi).
  destruct (allocate_owns _ _ _ _ _ l Ho Hok) as [[Hal _]|[Hpage (a & h' & m' & fl' & lg' & Hal & Ha & Ho' & Hb & He & Hag)]].
  - apply preserves_idle; [done|]. simpl. rewrite Hal. by destruct w.
  - eexists. simpl. rewrite Hal. cbn [mbind exec_bind]. rewrite (proj2 (Z.eqb_neq a 0)) by done. split; [done|]. split.
    + split; [by exists fl', lg'|]. cbn. split; [by constructor|]. split; congruence.
    + intros b Hin _. cbn. split; [by right|]. by eapply agree_held.
Qed.

Lemma step_free lo hi w k : world_ok lo hi w -> preserves lo hi w (Free k).
Proof.
  intros Hw. pose proof Hw as ((fl & lg & Ho) & Hl & Hlo & Hhi).
  destruct (w_live w !! k) as [[p l]|] eqn:E; [|apply preserves_idle; [done|]; simpl; by rewrite E].
  pose proof (remove_at_perm _ _ _ E) as Hperm. rewrite Hperm in Hl. apply Forall_cons in Hl as [[Hlp Hpage] Hl].
  apply (owns_perm _ _ _ _ _ _ (held_remove _ _ _ E)) in Ho.
  destruct (free_owns _ _ _ _ _ _ _ Ho Hlp Hpage) as (h' & m' & fl' & lg' & Hf & Ho' & Hb & _ & He & Hag).
  simpl in Hf. eexists. simpl. rewrite E, Hf. split; [done|].
  split; [split; [by exists fl', lg'|]; split; [done|]; split; cbn; congruence|].
  intros b Hin Hne. rewrite Hperm in Hin. apply elem_of_cons in Hin as [->|Hin]; [done|]. split; [done|]. by eapply agree_held.
Qed.

Lemma step_store lo hi w k off v : world_ok lo hi w -> preserves lo hi w (Store k off v).
Proof.
  intros Hw. pose proof Hw as ((fl & lg & Ho) & Hl & Hlo & Hhi).
  destruct (w_live w !! k) as [[p l]|] eqn:E; [|apply preserves_idle; [done|]; simpl; by rewrite E].
  destruct ((0 <=? off) && (off <? size l)) eqn:Eo; [|apply preserves_idle; [done|]; simpl; by rewrite E, Eo].
  apply andb_true_iff in Eo as [Eo1%Z.leb_le Eo2%Z.ltb_lt].
  pose proof (list_elem_of_lookup_2 _ _ _ E) as Hin. pose proof (held_in _ _ Hin) as Hin'.
  pose proof Hl as Hl'. rewrite Forall_forall in Hl'. destruct (Hl' _ Hin) as [Hlp Hpage]. simpl in Hlp, Hpage, Hin'.
  pose proof (owned_block _ _ _ _ _ _ _ Ho Hin' Hlp Hpage) as (_ & Hsz & _).
  eexists. simpl. rewrite E, (proj2 (Z.leb_le 0 off)), (proj2 (Z.ltb_lt off (size l))) by done. cbn. split; [done|]. split.
  - split; [|done]. exists fl, lg. eapply owns_write; [done|exact Hin'|simpl; lia].
  - intros b Hb Hne. split; [done|]. apply (owns_perm _ _ _ _ _ _ (held_remove _ _ _ E)) in Ho.
    rewrite (remove_at_perm _ _ _ E) in Hb. apply elem_of_cons in Hb as [->|Hb]; [done|]. eapply agree_held; [exact Hb|].
    eapply write_own_agree; [exact Ho|simpl; lia].
Qed.

Lemma step_preserves lo hi w o : world_ok lo hi w -> op_ok o -> preserves lo hi w o.
Proof. destruct o; intros Hw Hok; [by apply step_alloc|by apply step_free|by apply step_store]. Qed.

Lemma run_world_ok lo hi w os : world_ok lo hi w -> Forall op_ok os -> exists w', run w os = Done w' /\ world_ok lo hi w'.
Proof.
  intros Hw Hos. revert w Hw. induction Hos as [|o os Ho _ IH]; intros w Hw; [by exists w|]. simpl.
  destruct (step_preserves lo hi w o Hw Ho) as (w1 & -> & Hw1 & _). by apply IH.
Qed.

(** The heap as the kernel installs it, and what its clients do from then on. *)
Definition boot_run (lo len : Z) (os : list op) : exec world :=
  h ← init SlabHeap_new lo len; run (mkWorld h ∅ []) os.

Lemma boot_run_ok lo len os :
  0 < lo -> 0 <= len -> lo + len + 4096 <= 2 ^ 64 -> Forall op_ok os ->
  exists w, boot_run lo len os = Done w /\ world_ok lo (lo + len) w.
Proof.
  intros Hlo Hlen Hhi Hos. destruct (init_owns lo len Hlo Hlen Hhi) as (h & Hi & Ho & Hb & _ & He).
  unfold boot_run. rewrite Hi. cbn [mbind exec_bind]. apply run_world_ok; [|done]. split; [by eexists _, _|done].
Qed.

(** ** Exclusive blocks *)

(** C7. Safety: after any sequence of allocations, frees of blocks still held and writes into such
    blocks, the heap has not panicked (in particular the traversal of the list of free runs ended),
    and every block that is held is aligned as its layout asks, has room for the size asked for, lies
    in the region given to [init], and overlaps no other held block. *)
Theorem heap_exclusive lo len os :
  0 < lo -> 0 <= len -> lo + len + 4096 <= 2 ^ 64 -> Forall op_ok os ->
  exists w, boot_run lo len os = Done w /\ pairwise (held (w_live w)) /\
    Forall (fun b : Z * Layout => b.1 mod align b.2 = 0 /\ size b.2 <= block_bytes b.2 /\
                                  lo <= b.1 /\ b.1 + block_bytes b.2 <= lo + len) (w_live w).
Proof.
  intros Hlo Hlen Hhi Hos. destruct (boot_run_ok lo len os Hlo Hlen Hhi Hos) as (w & Hw & (fl & lg & Ho) & Hl & Hb & He).
  exists w. split; [done|]. pose proof (ow_disj _ _ _ _ _ Ho) as Hd. apply pairwise_app in Hd as (_ & Hd & _).
  apply pairwise_app in Hd as (_ & Hd & _). split; [done|]. rewrite Forall_forall in Hl |- *. intros b Hin.
  destruct (Hl b Hin) as [Hlb Hpage]. rewrite <- Hb, <- He at 1. exact (owned_block _ _ _ _ _ _ _ Ho (held_in _ _ Hin) Hlb Hpage).
Qed.

Definition demo_ops : list op :=
  [Alloc (mkLayout 24 8); Store 0 8 7; Alloc (mkLayout 5000 16); Alloc (mkLayout 20480 4096); Free 0; Free 0;
   Alloc (mkLayout 8192 8); Alloc (mkLayout 4000 64)].
Lemma demo_ops_ok : Forall op_ok demo_ops.
Proof.
  assert (forall s a k, 0 <= s -> 0 <= k -> a = 2 ^ k -> s + a <= 2 ^ 63 -> layout_ok (mkLayout s a)) as H.
  { intros s a k Hs Hk -> Hm. split; [done|]. split; [by exists k|done]. }
  unfold demo_ops. repeat apply Forall_cons_2; try done; unfold op_ok;
    [apply (H _ _ 3)|apply (H _ _ 4)|apply (H _ _ 12)|apply (H _ _ 3)|apply (H _ _ 6)]; done.
Qed.

Lemma heap_exclusive_witness :
  exists w, boot_run 0x100000 0x100000 demo_ops = Done w /\ w_live w <> [] /\ pairwise (held (w_live w)).
Proof.
  destruct (heap_exclusive 0x100000 0x100000 demo_ops ltac:(lia) ltac:(lia) ltac:(lia) demo_ops_ok) as (w & Hw & Hp & _).
  exists w. split; [exact Hw|]. split; [|exact Hp]. revert Hw. clear.
  assert (match boot_run 0x100000 0x100000 demo_ops with Done w => w_live w | Panic => [] end <> []) as Hne by (vm_compute; discriminate).
  revert Hne. destruct (boot_run 0x100000 0x100000 demo_ops) as [w'|]; [intros Hne [= <-]; exact Hne|discriminate].
Defined.

(** Safety: whatever operation comes after such a sequence, it succeeds, and every block that is
    held and is not the one it frees or writes is still held afterwards with every one of its words
    unchanged: the links of the free lists are kept in free blocks only. *)
Theorem heap_keeps_data lo len os w o :
  0 < lo -> 0 <= len -> lo + len + 4096 <= 2 ^ 64 -> Forall op_ok os -> op_ok o -> boot_run lo len os = Done w ->
  exists w', step w o = Done w' /\
    forall b a, b ∈ w_live w -> target w o <> Some b -> b.1 <= a < b.1 + block_bytes b.2 ->
      b ∈ w_live w' /\ read_word (w_mem w') a = read_word (w_mem w) a.
Proof.
  intros Hlo Hlen Hhi Hos Ho Hw. destruct (boot_run_ok lo len os Hlo Hlen Hhi Hos) as (w1 & Hw1 & Hok).
  rewrite Hw in Hw1. injection Hw1 as <-. destruct (step_preserves _ _ _ _ Hok Ho) as (w' & Hs & _ & Hk).
  exists w'. split; [done|]. intros b a Hb Hne Ha. destruct (Hk b Hb Hne) as [Hin Hag]. split; [done|].
  apply (Hag (b.1, block_bytes b.2)); [apply list_elem_of_here|done].
Qed.

Definition demo_heap : world := match boot_run 0x100000 0x100000 demo_ops with Done w => w | Panic => mkWorld SlabHeap_new ∅ [] end.
Lemma demo_heap_run : boot_run 0x100000 0x100000 demo_ops = Done demo_heap.
Proof.
  unfold demo_heap. assert (match boot_run 0x100000 0x100000 demo_ops with Done _ => True | Panic => False end) as H by (vm_compute; exact I).
  revert H. by destruct (boot_run 0x100000 0x100000 demo_ops).
Qed.

(** The first block of the run still holds the 7 stored in it after another one is freed. *)
Lemma heap_keeps_data_witness :
  exists w', step demo_heap (Free 0) = Done w' /\ read_word (w_mem w') (0x100000 + 8) = 7.
Proof.
  destruct (heap_keeps_data 0x100000 0x100000 demo_ops demo_heap (Free 0) ltac:(lia) ltac:(lia) ltac:(lia) demo_ops_ok I demo_heap_run)
    as (w' & Hs & Hk).
  exists w'. split; [exact Hs|].
  assert (w_live demo_heap !! 2%nat = Some (0x100000, mkLayout 24 8)) as E by (vm_compute; reflexivity).
  destruct (Hk (0x100000, mkLayout 24 8) (0x100000 + 8)) as [_ ->].
  - exact (list_elem_of_lookup_2 _ _ _ E).
  - assert (target demo_heap (Free 0) <> Some (0x100000, mkLayout 24 8)) as H by (vm_compute; discriminate). exact H.
  - vm_compute. split; [discriminate|reflexivity].
  - vm_compute. reflexivity.
Defined.

Lemma set_free_back h i c a : free_lists h !! i = Some c -> set_free (set_free h i a) i c = h.
Proof. intros Hc. unfold set_free. cbn. rewrite list_insert_insert_eq, list_insert_id by done. by destruct h. Qed.

Lemma free_allocate_back h m fl lg ex p l :
  owns h m fl lg ((p, block_bytes l) :: ex) -> layout_ok l -> align l <= PAGE_BYTES ->
  exists h' m', free h m p l = (h', m') /\ allocate h' m' l = Done (p, h, m').
Proof.
  intros Ho Hl Hpage. pose proof (owns_nonzero _ _ _ _ _ _ _ Ho) as Hnz. pose proof (ow_arena _ _ _ _ _ Ho) as (? & ? & ?).
  assert ((end_ h =? UNINIT) = false) as Hend by (apply Z.eqb_neq; unfold UNINIT; lia).
  destruct (size_class_index (size l) (align l)) as [i|] eqn:E; unfold free, allocate; rewrite !E, (proj2 (Z.eqb_neq p 0)) by done.
  - pose proof (size_class_index_Some _ _ _ E) as (Hi & _).
    destruct (owns_head _ _ _ _ _ Ho i Hi) as (hd & l' & Hhd & _). unfold push_free. rewrite Hhd. eexists _, _. split; [done|]. cbn [end_ set_free].
    rewrite Hend. unfold pop_free. cbn [free_lists set_free]. rewrite list_lookup_insert_eq by (by eapply lookup_lt_Some).
    rewrite (proj2 (Z.eqb_neq p NULL_LINK)) by done. rewrite read_write_same. by rewrite (set_free_back h i hd p Hhd).
  - destruct (free_owns _ _ _ _ _ _ _ Ho Hl Hpage) as (h' & m' & fl' & lg' & Hf & _). unfold free in Hf.
    rewrite E, (proj2 (Z.eqb_neq p 0)) in Hf by done. rewrite (proj2 (Z.leb_le (align l) PAGE_BYTES)) in * by done.
    rewrite (proj2 (Z.ltb_ge PAGE_BYTES (align l))) by done. pose proof (size_class_index_None _ _ E) as Hbig.
    destruct Hl as (Hs & (k & Hk & Hal) & Hmax). destruct (page_round_up_spec (size l)) as (r & Hr & Hrs & Hrm); [lia|].
    unfold block_bytes in Ho. rewrite E, Hr in Ho. change (default 0 (Some r)) with r in Ho.
    assert (LARGE_RUN_MIN <= r) as Hlarge.
    { pose proof (Z.div_mod r PAGE_BYTES ltac:(done)). unfold LARGE_RUN_MIN, PAGE_BYTES, MAX_SMALL_BYTES in *. lia. }
    destruct (push_large_owns _ _ _ _ _ _ _ Ho Hlarge) as (h2 & m2 & Hp & Ho2 & _). rewrite Hr in *. rewrite Hp. exists h2, m2. split; [done|].
    pose proof (runs_in_arena _ _ _ _ _ Ho2) as Hfuel. unfold push_large_run in Hp. injection Hp as <- <-. cbn [end_ set_large] in *. rewrite Hend.
    unfold take_large_run. destruct (Z.to_nat _) as [|fuel]; [simpl in Hfuel; lia|]. cbn [take_loop large_free set_large].
    rewrite (proj2 (Z.eqb_neq p NULL_LINK)), read_write_same by done. rewrite (proj2 (Z.leb_le r r)) by lia.
    rewrite read_write_other, read_write_same by lia. replace (r - r) with 0 by lia.
    change (recycle _ _ p r 0) with (Done (set_large (set_large h p) (large_free h), write_word (write_word m p (large_free h)) (p + 8) r)).
    cbn [mbind exec_bind].
    rewrite (proj2 (Z.eqb_neq p 0)) by done. unfold set_large. cbn. by destruct h.
Qed.

(** Functional behaviour: freed memory is reclaimed.  After any sequence of client operations,
    freeing a held block and allocating with the same layout hands out the same address again, from
    the free list of its class or from the list of runs, and leaves the allocator in exactly the
    state before the free: no fresh memory is carved. *)
Theorem free_then_allocate lo len os w k p l :
  0 < lo -> 0 <= len -> lo + len + 4096 <= 2 ^ 64 -> Forall op_ok os ->
  boot_run lo len os = Done w -> w_live w !! k = Some (p, l) ->
  exists h' m', free (w_heap w) (w_mem w) p l = (h', m') /\ allocate h' m' l = Done (p, w_heap w, m').
Proof.
  intros Hlo Hlen Hhi Hos Hw Hk. destruct (boot_run_ok lo len os Hlo Hlen Hhi Hos) as (w1 & Hw1 & (fl & lg & Ho) & Hl & _).
  rewrite Hw in Hw1. injection Hw1 as <-. rewrite Forall_forall in Hl.
  destruct (Hl _ (list_elem_of_lookup_2 _ _ _ Hk)) as [Hlp Hpage].
  apply (owns_perm _ _ _ _ _ _ (held_remove _ _ _ Hk)) in Ho. by eapply free_allocate_back.
Qed.

Lemma free_then_allocate_witness :
  exists h' m', free (w_heap demo_heap) (w_mem demo_heap) 0x101000 (mkLayout 8192 8) = (h', m') /\
    allocate h' m' (mkLayout 8192 8) = Done (0x101000, w_heap demo_heap, m').
Proof.
  assert (w_live demo_heap !! 1%nat = Some (0x101000, mkLayout 8192 8)) as E by (vm_compute; reflexivity).
  exact (free_then_allocate 0x100000 0x100000 demo_ops demo_heap 1 0x101000 (mkLayout 8192 8) ltac:(lia) ltac:(lia) ltac:(lia) demo_ops_ok demo_heap_run E).
Defined.

(** ** The bump allocator and the choice of the region *)

Definition bump_ok (h : BumpHeap) : Prop := 0 < b_base h <= b_next h /\ b_next h <= b_end h /\ b_end h < 2 ^ 64.

(** Functional behaviour of the bump allocator: unless the rounding of the cursor wraps around, it
    returns the next multiple of the alignment and moves the cursor behind the block, or returns null
    exactly when the block would not fit below the end of the region. *)
Theorem bump_alloc_exact h l :
  bump_ok h -> layout_ok l -> b_next h + align l <= 2 ^ 64 ->
  let a := round_to (b_next h) (align l) in
  bump_alloc h l = (if b_end h <? a + size l then (0, h) else (a, mkBump (b_base h) (a + size l) (b_end h))) /\
  bump_ok (bump_alloc h l).2.
Proof.
  intros (Hb & Hn & He) (Hs & (k & Hk & Hal) & Hmax) Hw. cbn zeta. unfold bump_alloc, UNINIT.
  rewrite (proj2 (Z.eqb_neq (b_end h) 0)) by lia. rewrite Hal in *.
  assert (k <= 64) by (apply (Z.pow_le_mono_r_iff 2); lia).
  rewrite align_up_exact by lia. unfold round_to. pose proof (round_bounds (b_next h) (2 ^ k) ltac:(lia)) as Hr.
  set (a := _ / _ * _) in *. unfold checked_add. destruct (Z.ltb_spec (a + size l) (2 ^ 64)); destruct (Z.ltb_spec (b_end h) (a + size l));
    try lia; (split; [done|]); unfold bump_ok; cbn; lia.
Qed.

(** The rounding can wrap: a request for an alignment of 2^63 in a region of the higher half moves the
    cursor below the region, and the allocation after it is outside of it. *)
Example bump_wraps :
  let h := mkBump 0xFFFF800000000000 0xFFFF800000000010 0xFFFF800000100000 in
  let '(p, h) := bump_alloc h (mkLayout 16 (2 ^ 63)) in
  p = 0 /\ (bump_alloc h (mkLayout 8 8)).1 = 16.
Proof. vm_compute. split; reflexivity. Qed.

Definition region_len (r : MemoryRegion) : Z := saturating_sub (r_end r) (r_start r).
Definition candidate (r : MemoryRegion) : Prop := r_usable r = true /\ MIN_HEAP_BYTES <= region_len r.
Definition better (r r' : MemoryRegion) : Prop :=
  region_len r' < region_len r \/ region_len r' = region_len r /\ r_start r <= r_start r'.

Lemma pick_fold regions :
  match foldl pick_step None regions with
  | None => forall r, r ∈ regions -> ~ candidate r
  | Some (s, n) => exists r, r ∈ regions /\ candidate r /\ s = r_start r /\ n = region_len r /\
                             forall r', r' ∈ regions -> candidate r' -> better r r'
  end.
Proof.
  induction regions as [|r rs IH] using rev_ind; [by intros r Hr%not_elem_of_nil|].
  rewrite foldl_snoc. destruct (foldl pick_step None rs) as [[s n]|]; unfold pick_step; fold (region_len r).
  - destruct IH as (r0 & Hin & Hc & -> & -> & Hbest).
    assert (~ candidate r \/ candidate r /\ better r0 r -> exists r1, r1 ∈ rs ++ [r] /\ candidate r1 /\ r_start r0 = r_start r1 /\
      region_len r0 = region_len r1 /\ (forall r', r' ∈ rs ++ [r] -> candidate r' -> better r1 r')) as Hkeep.
    { intros Hr. exists r0. split; [set_solver|]. split; [done|]. split; [done|]. split; [done|].
      intros r' [Hr'| ->%list_elem_of_singleton]%elem_of_app Hc'; [auto|tauto]. }
    destruct (r_usable r) eqn:Eu; simpl; [|apply Hkeep; left; intros [? _]; congruence].
    destruct (Z.ltb_spec (region_len r) MIN_HEAP_BYTES); [apply Hkeep; left; intros [_ ?]; lia|].
    destruct ((region_len r0 <? region_len r) || ((region_len r =? region_len r0) && (r_start r <? r_start r0))) eqn:Eb.
    + assert (candidate r) as Hcr by done. rewrite orb_true_iff, andb_true_iff, !Z.ltb_lt, Z.eqb_eq in Eb. exists r. split; [set_solver|]. split; [done|]. split; [done|]. split; [done|].
      intros r' [Hr'| ->%list_elem_of_singleton]%elem_of_app Hc'; [|right; lia].
      specialize (Hbest r' Hr' Hc'). unfold better in *. lia.
    + apply Hkeep. right. split; [done|]. rewrite orb_false_iff, andb_false_iff, !Z.ltb_ge, Z.eqb_neq in Eb. unfold better. lia.
  - assert (~ candidate r -> forall r1, r1 ∈ rs ++ [r] -> ~ candidate r1) as Hnone.
    { intros Hr r1 [Hr1| ->%list_elem_of_singleton]%elem_of_app; auto. }
    destruct (r_usable r) eqn:Eu; simpl; [|apply Hnone; intros [? _]; congruence].
    destruct (Z.ltb_spec (region_len r) MIN_HEAP_BYTES); [apply Hnone; intros [_ ?]; lia|].
    exists r. split; [set_solver|]. split; [done|]. split; [done|]. split; [done|].
    intros r' [Hr'| ->%list_elem_of_singleton]%elem_of_app Hc'; [by destruct (IH r' Hr')|right; lia].
Qed.

(** [pick_region] returns the longest usable region of at least 4 MiB, the lowest one of equally long
    ones, cut to 128 MiB; it panics exactly when there is none. *)
Theorem pick_region_best regions :
  match pick_region regions with
  | Done (s, n) => exists r, r ∈ regions /\ candidate r /\ s = r_start r /\ n = Z.min (region_len r) HEAP_MAX_BYTES /\
                             forall r', r' ∈ regions -> candidate r' -> better r r'
  | Panic => forall r, r ∈ regions -> ~ candidate r
  end.
Proof.
  pose proof (pick_fold regions) as H. unfold pick_region. destruct (foldl pick_step None regions) as [[s n]|]; [|done].
  destruct H as (r & ? & ? & -> & -> & ?). by exists r.
Qed.
