(* ===== verification/Paging.v ===== *)
(** * Page tables and address spaces

    [src/crates/nexacore-kernel/src/bare_metal/paging.rs] and
    [address_space.rs]: the walk of the four-level x86-64 tables, the mapping
    of a 4 KiB page with the tables it allocates and the huge pages it splits,
    unmapping, and the PML4 of a process.  The tables live in physical memory,
    read and written through the direct map: physical address [p] is the word
    at [phys_offset + p], so memory is indexed by the physical address.  Frames
    for new tables come from the bitmap allocator of [Memory]. *)

From S2P Require Import Prelude Bitmap Memory Words.

Definition PTE_PRESENT : Z := 1.
Definition PTE_WRITABLE : Z := 2.
Definition PTE_USER : Z := 4.
Definition PTE_HUGE : Z := 128.
Definition PTE_NO_EXEC : Z := 2 ^ 63.
Definition FRAME_MASK : Z := 0x000FFFFFFFFFF000.
Definition HUGE_1G_FRAME_MASK : Z := 0x000FFFFFC0000000.
Definition HUGE_1G_OFFSET_MASK : Z := 0x3FFFFFFF.
Definition HUGE_2M_FRAME_MASK : Z := 0x000FFFFFFFE00000.
Definition HUGE_2M_OFFSET_MASK : Z := 0x1FFFFF.

(** A bit of an entry: [e & flag != 0]. *)
Definition has (e flag : Z) : bool := negb (Z.land e flag =? 0).
Definition is_present (e : Z) : bool := has e PTE_PRESENT.
Definition phys_addr (e : Z) : Z := Z.land e FRAME_MASK.
Definition set_frame (frame flags : Z) : Z := Z.lor (Z.land frame FRAME_MASK) flags.

(** [RawPageTable::entry] and [entry_mut] of the table at physical address [t]. *)
Definition entry (m : memory) (t idx : Z) : Z := read_word m (t + 8 * idx).
Definition set_entry (m : memory) (t idx e : Z) : memory := write_word m (t + 8 * idx) e.

Inductive PageLevel := Pml4 | Pdpt | Pd | Pt.
Definition level_shift (l : PageLevel) : Z :=
  match l with Pml4 => 39 | Pdpt => 30 | Pd => 21 | Pt => 12 end.
Definition virt_index (virt : Z) (l : PageLevel) : Z := Z.land (Z.shiftr virt (level_shift l)) 0x1FF.

Record PageMapper := mkMapper { phys_offset : Z; root_phys : Z }.

(** The masked operands of the sums below are less than 2^52 and 2^30. *)
Definition translate_in (m : memory) (root virt : Z) : option Z :=
  let pml4e := entry m root (virt_index virt Pml4) in
  if negb (is_present pml4e) then None
  else
    let pdpte := entry m (phys_addr pml4e) (virt_index virt Pdpt) in
    if negb (is_present pdpte) then None
    else if has pdpte PTE_HUGE then
      Some (Z.land pdpte HUGE_1G_FRAME_MASK + Z.land virt HUGE_1G_OFFSET_MASK)
    else
      let pde := entry m (phys_addr pdpte) (virt_index virt Pd) in
      if negb (is_present pde) then None
      else if has pde PTE_HUGE then
        Some (Z.land pde HUGE_2M_FRAME_MASK + Z.land virt HUGE_2M_OFFSET_MASK)
      else
        let pte := entry m (phys_addr pde) (virt_index virt Pt) in
        if negb (is_present pte) then None
        else Some (phys_addr pte + Z.land virt 0xFFF).
Definition translate (p : PageMapper) (m : memory) (virt : Z) : option Z := translate_in m (root_phys p) virt.

Definition page_access_in (m : memory) (root virt : Z) : option bool :=
  let pml4e := entry m root (virt_index virt Pml4) in
  if negb (is_present pml4e) then None
  else
    let writable := has pml4e PTE_WRITABLE in
    let pdpte := entry m (phys_addr pml4e) (virt_index virt Pdpt) in
    if negb (is_present pdpte) then None
    else
      let writable := writable && has pdpte PTE_WRITABLE in
      if has pdpte PTE_HUGE then Some writable
      else
        let pde := entry m (phys_addr pdpte) (virt_index virt Pd) in
        if negb (is_present pde) then None
        else
          let writable := writable && has pde PTE_WRITABLE in
          if has pde PTE_HUGE then Some writable
          else
            let pte := entry m (phys_addr pde) (virt_index virt Pt) in
            if negb (is_present pte) then None else Some (writable && has pte PTE_WRITABLE).

(** The loop over the pages of a range; one unit of fuel for each page. *)
Fixpoint access_loop (fuel : nat) (m : memory) (root page stop : Z) (write : bool) : bool :=
  if stop <=? page then true
  else
    match fuel with
    | O => false
    | S fuel =>
        match page_access_in m root page with
        | Some writable =>
            if negb write || writable then
              match checked_add 64 page 0x1000 with
              | Some next => access_loop fuel m root next stop write
              | None => false
              end
            else false
        | None => false
        end
    end.
Definition range_accessible_in (m : memory) (root virt len : Z) (write : bool) : bool :=
  if len =? 0 then true
  else
    match checked_add 64 virt len with
    | None => false
    | Some stop =>
        let page := Z.land virt (not_uint 64 0xFFF) in
        access_loop (Z.to_nat (len / 0x1000 + 2)) m root page stop write
    end.

(** ** Mapping *)

(** [write_bytes(ptr, 0, 4096)], by words. *)
Fixpoint zero_words (m : memory) (a : Z) (n : nat) : memory :=
  match n with O => m | S n => zero_words (write_word m a 0) (a + 8) n end.
Definition zero_table (m : memory) (t : Z) : memory := zero_words m t 512.

Definition intermediate_flags (flags : Z) : Z :=
  if has flags PTE_USER then Z.lor (Z.lor PTE_PRESENT PTE_WRITABLE) PTE_USER
  else Z.lor PTE_PRESENT PTE_WRITABLE.

Abbreviation vm := (memory * BitmapFrameAllocator)%type.

(** A missing table: a zeroed frame, linked from entry [idx] of table [t]. *)
Definition new_table (m : memory) (a : BitmapFrameAllocator) (t idx flags : Z) : exec (option Z * vm) :=
  '(f, a) ← alloc_frame a;
  match f with
  | None => Done (None, (m, a))
  | Some f => Done (Some f, (set_entry (zero_table m f) t idx (set_frame f (intermediate_flags flags)), a))
  end.
(** A table that is there, whose entry gets [PTE_USER] when the new mapping needs it. *)
Definition keep_table (m : memory) (t idx e flags : Z) : memory :=
  if has flags PTE_USER && negb (has e PTE_USER)
  then set_entry m t idx (set_frame (phys_addr e) (intermediate_flags flags)) else m.

Fixpoint fill_pt (m : memory) (pt huge_frame child_flags skip k : Z) (n : nat) : memory :=
  match n with
  | O => m
  | S n =>
      let m := if negb (k =? skip) then set_entry m pt k (set_frame (huge_frame + k * 0x1000) child_flags) else m in
      fill_pt m pt huge_frame child_flags skip (k + 1) n
  end.
Definition split_2m_pde (m : memory) (a : BitmapFrameAllocator) (pde skip_idx : Z) : exec (option Z * vm) :=
  let huge_frame := Z.land pde HUGE_2M_FRAME_MASK in
  let child_flags := Z.lor (Z.lor (Z.land (Z.land pde 0xFFF) (not_uint 64 PTE_HUGE)) (Z.land pde PTE_NO_EXEC)) PTE_PRESENT in
  '(f, a) ← alloc_frame a;
  match f with
  | None => Done (None, (m, a))
  | Some pt_frame => Done (Some pt_frame, (fill_pt (zero_table m pt_frame) pt_frame huge_frame child_flags skip_idx 0 512, a))
  end.

Fixpoint fill_pd (m : memory) (pd huge_frame child_flags k : Z) (n : nat) : memory :=
  match n with
  | O => m
  | S n => fill_pd (set_entry m pd k (set_frame (huge_frame + k * 0x200000) child_flags)) pd huge_frame child_flags (k + 1) n
  end.
Definition split_1g_pdpte (m : memory) (a : BitmapFrameAllocator) (pdpte : Z) : exec (option Z * vm) :=
  let huge_frame := Z.land pdpte HUGE_1G_FRAME_MASK in
  let child_flags := Z.lor (Z.lor (Z.lor (Z.land pdpte 0xFFF) (Z.land pdpte PTE_NO_EXEC)) PTE_PRESENT) PTE_HUGE in
  '(f, a) ← alloc_frame a;
  match f with
  | None => Done (None, (m, a))
  | Some pd_frame => Done (Some pd_frame, (fill_pd (zero_table m pd_frame) pd_frame huge_frame child_flags 0 512, a))
  end.

(** The flags of an entry that pointed at a huge page and now points at a table. *)
Definition split_flags (e flags : Z) : Z :=
  if has e PTE_USER then Z.lor (intermediate_flags flags) PTE_USER else intermediate_flags flags.

Definition pml4_to_pdpt (m : memory) (a : BitmapFrameAllocator) (root idx flags : Z) : exec (option Z * vm) :=
  let e := entry m root idx in
  if is_present e then Done (Some (phys_addr e), (keep_table m root idx e flags, a))
  else new_table m a root idx flags.

Definition pdpt_to_pd (m : memory) (a : BitmapFrameAllocator) (pdpt idx flags : Z) : exec (option Z * vm) :=
  let e := entry m pdpt idx in
  if is_present e then
    if has e PTE_HUGE then
      '(new_pd, (m, a)) ← split_1g_pdpte m a e;
      match new_pd with
      | None => Done (None, (m, a))
      | Some new_pd => Done (Some new_pd, (set_entry m pdpt idx (set_frame new_pd (split_flags e flags)), a))
      end
    else Done (Some (phys_addr e), (keep_table m pdpt idx e flags, a))
  else new_table m a pdpt idx flags.

Definition pd_to_pt (m : memory) (a : BitmapFrameAllocator) (pd idx pt_idx flags : Z) : exec (option Z * vm) :=
  let e := entry m pd idx in
  if is_present e then
    if has e PTE_HUGE then
      '(new_pt, (m, a)) ← split_2m_pde m a e pt_idx;
      match new_pt with
      | None => Done (None, (m, a))
      | Some new_pt => Done (Some new_pt, (set_entry m pd idx (set_frame new_pt (split_flags e flags)), a))
      end
    else Done (Some (phys_addr e), (keep_table m pd idx e flags, a))
  else new_table m a pd idx flags.

Definition map_4k_into (m : memory) (a : BitmapFrameAllocator) (root virt phys flags : Z) : exec (bool * vm) :=
  let pml4_idx := virt_index virt Pml4 in
  let pdpt_idx := virt_index virt Pdpt in
  let pd_idx := virt_index virt Pd in
  let pt_idx := virt_index virt Pt in
  '(pdpt, (m, a)) ← pml4_to_pdpt m a root pml4_idx flags;
  match pdpt with
  | None => Done (false, (m, a))
  | Some pdpt =>
      '(pd, (m, a)) ← pdpt_to_pd m a pdpt pdpt_idx flags;
      match pd with
      | None => Done (false, (m, a))
      | Some pd =>
          '(pt, (m, a)) ← pd_to_pt m a pd pd_idx pt_idx flags;
          match pt with
          | None => Done (false, (m, a))
          | Some pt =>
              if is_present (entry m pt pt_idx) then Done (false, (m, a))
              else Done (true, (set_entry m pt pt_idx (set_frame phys (Z.lor flags PTE_PRESENT)), a))
          end
      end
  end.
Definition map_4k (p : PageMapper) (m : memory) (a : BitmapFrameAllocator) (virt phys flags : Z) : exec (bool * vm) :=
  map_4k_into m a (root_phys p) virt phys flags.

(** [invlpg] has no effect on memory. *)
Definition unmap_4k (p : PageMapper) (m : memory) (virt : Z) : bool * memory :=
  let pml4e := entry m (root_phys p) (virt_index virt Pml4) in
  if negb (is_present pml4e) then (false, m)
  else
    let pdpte := entry m (phys_addr pml4e) (virt_index virt Pdpt) in
    if negb (is_present pdpte) then (false, m)
    else
      let pde := entry m (phys_addr pdpte) (virt_index virt Pd) in
      if negb (is_present pde) then (false, m)
      else
        let pte := entry m (phys_addr pde) (virt_index virt Pt) in
        if negb (is_present pte) then (false, m)
        else (true, set_entry m (phys_addr pde) (virt_index virt Pt) 0).

(** ** Address spaces *)

Definition KERNEL_PML4_START : Z := 256.
Definition PML4_ENTRIES : Z := 512.

(** [for i in KERNEL_PML4_START..PML4_ENTRIES], copying entry [i]. *)
Fixpoint copy_entries (m : memory) (dst src i : Z) (n : nat) : memory :=
  match n with
  | O => m
  | S n => copy_entries (set_entry m dst i (entry m src i)) dst src (i + 1) n
  end.
Definition new_with_kernel_half (m : memory) (a : BitmapFrameAllocator) (boot_cr3 : Z) : exec (option Z * vm) :=
  '(f, a) ← alloc_frame a;
  match f with
  | None => Done (None, (m, a))
  | Some frame =>
      Done (Some frame, (copy_entries (zero_table m frame) frame boot_cr3 KERNEL_PML4_START
                           (Z.to_nat (PML4_ENTRIES - KERNEL_PML4_START)), a))
  end.

(** The [debug_assert!] on the address is on in debug builds only, and callers meet it. *)
Definition map_user_4k (pml4_phys : Z) (m : memory) (a : BitmapFrameAllocator) (virt phys flags : Z) : exec (bool * vm) :=
  map_4k_into m a pml4_phys virt phys flags.

(** ** Entries *)

Lemma has_lor a b f : 0 <= f -> has (Z.lor a b) f = has a f || has b f.
Proof.
  intros Hf. unfold has. rewrite Z.land_lor_distr_l.
  destruct (Z.eqb_spec (Z.land a f) 0) as [->|Ha]; [by rewrite Z.lor_0_l|].
  destruct (Z.eqb_spec (Z.lor (Z.land a f) (Z.land b f)) 0) as [E|]; [|done].
  apply Z.lor_eq_0_iff in E as [? _]. done.
Qed.
Lemma has_land a x f : has (Z.land a x) f = has a (Z.land x f).
Proof. unfold has. by rewrite Z.land_assoc. Qed.
Lemma land_land_0 a x y : Z.land x y = 0 -> Z.land (Z.land a x) y = 0.
Proof. intros H. by rewrite <- Z.land_assoc, H, Z.land_0_r. Qed.

(** An entry's flag bits come from its flags, its frame from its frame. *)
Lemma has_set_frame f fl b : 0 <= b -> Z.land FRAME_MASK b = 0 -> has (set_frame f fl) b = has fl b.
Proof. intros Hb Hm. unfold set_frame. rewrite has_lor, has_land, Hm by done. unfold has. by rewrite Z.land_0_r. Qed.
Lemma land_set_frame f fl k :
  Z.land FRAME_MASK k = k -> Z.land fl k = 0 -> Z.land (set_frame f fl) k = Z.land f k.
Proof. intros Hm Hf. unfold set_frame. by rewrite Z.land_lor_distr_l, <- Z.land_assoc, Hm, Hf, Z.lor_0_r. Qed.

(** The three frame masks clear the bits below [lo] and from 52 on. *)
Definition mask_from (lo : Z) : Z := Z.shiftl (Z.ones (52 - lo)) lo.
Lemma land_mask_from lo x : 0 <= lo <= 52 -> Z.land x (mask_from lo) = x mod 2 ^ 52 / 2 ^ lo * 2 ^ lo.
Proof.
  intros Hlo. rewrite <- Z.land_ones, <- Z.shiftr_div_pow2, <- Z.shiftl_mul_pow2 by lia. unfold mask_from.
  apply Z.bits_inj'. intros n Hn. rewrite Z.land_spec, !Z.shiftl_spec by done.
  destruct (Z.ltb_spec n lo).
  - rewrite !(Z.testbit_neg_r _ (n - lo)) by lia. by rewrite andb_false_r.
  - rewrite Z.shiftr_spec, Z.land_spec by lia. replace (n - lo + lo) with n by lia. f_equal.
    rewrite !Z.testbit_ones by lia. lia.
Qed.
Lemma land_aligned lo x : 0 <= lo <= 52 -> 0 <= x < 2 ^ 52 -> x mod 2 ^ lo = 0 -> Z.land x (mask_from lo) = x.
Proof.
  intros Hlo Hx Hm. rewrite land_mask_from by lia. rewrite (Z.mod_small x) by lia. pose proof (Z.div_mod x (2 ^ lo) ltac:(lia)). lia.
Qed.
Lemma land_mask_range lo x : 0 <= lo <= 52 -> 0 <= x -> 0 <= Z.land x (mask_from lo) < 2 ^ 52 /\ Z.land x (mask_from lo) mod 2 ^ lo = 0.
Proof.
  intros Hlo Hx. rewrite land_mask_from by done. pose proof (Z.mod_pos_bound x (2 ^ 52) ltac:(lia)) as Hb. split.
  - pose proof (Z.div_mod (x mod 2 ^ 52) (2 ^ lo) ltac:(lia)). pose proof (Z.mod_pos_bound (x mod 2 ^ 52) (2 ^ lo) ltac:(lia)).
    pose proof (Z.div_pos (x mod 2 ^ 52) (2 ^ lo) ltac:(lia) ltac:(lia)). nia.
  - apply Z.mod_mul. lia.
Qed.

(** A page frame: aligned, below 2^52. *)
Definition frame (p : Z) : Prop := 0 <= p < 2 ^ 52 /\ p mod 4096 = 0.
Lemma frame_land p : frame p -> Z.land p FRAME_MASK = p.
Proof. intros [Hp Hm]. exact (land_aligned 12 p ltac:(lia) Hp Hm). Qed.
Lemma phys_addr_frame e : 0 <= e -> frame (phys_addr e).
Proof. intros He. exact (land_mask_range 12 e ltac:(lia) He). Qed.

(** The words of memory are not negative. *)
Definition words (m : memory) : Prop := forall a, 0 <= read_word m a.
Lemma words_write m a v : words m -> 0 <= v -> words (write_word m a v).
Proof. intros Hm Hv b. destruct (decide (a = b)) as [->|]; [by rewrite read_write_same|by rewrite read_write_other]. Qed.
Lemma set_frame_nonneg f fl : 0 <= f -> 0 <= fl -> 0 <= set_frame f fl.
Proof. intros Hf Hfl. unfold set_frame. apply Z.lor_nonneg. split; [|done]. apply Z.land_nonneg. by left. Qed.

(** Entries of different tables, or different entries of a table, are different words. *)
Definition slot (i : Z) : Prop := 0 <= i < 512.
Lemma entry_word t t' i j : frame t -> frame t' -> slot i -> slot j -> t + 8 * i = t' + 8 * j -> t = t' /\ i = j.
Proof.
  intros [Ht Hm] [Ht' Hm'] Hi Hj He. unfold slot in *. pose proof (Z.div_mod t 4096 ltac:(lia)). pose proof (Z.div_mod t' 4096 ltac:(lia)). lia.
Qed.
Lemma entry_set_same m t i e : entry (set_entry m t i e) t i = e.
Proof. apply read_write_same. Qed.
Lemma entry_set_other m t i e t' j :
  frame t -> frame t' -> slot i -> slot j -> t <> t' \/ i <> j -> entry (set_entry m t i e) t' j = entry m t' j.
Proof. intros Ht Ht' Hi Hj Hne. apply read_write_other. intros He. destruct (entry_word t t' i j) as [-> ->]; tauto. Qed.

Lemma virt_index_range v l : slot (virt_index v l).
Proof. unfold slot, virt_index. change 0x1FF with (Z.ones 9). rewrite Z.land_ones by lia. apply Z.mod_pos_bound. lia. Qed.

(** ** The walk, level by level

    Level 3 is the PML4, level 0 the page table.  [resolve] is the walk that [translate_in] and
    [page_access_in] both make, with the address and the effective write permission it ends at. *)

Definition shift (n : nat) : Z := 12 + 9 * Z.of_nat n.
Definition idx (n : nat) (v : Z) : Z := Z.land (Z.shiftr v (shift n)) 0x1FF.
Definition leaf_at (n : nat) (e : Z) : bool :=
  match n with 0%nat => true | 1%nat | 2%nat => has e PTE_HUGE | _ => false end.
Definition leaf_addr (n : nat) (e v : Z) : Z := Z.land e (mask_from (shift n)) + Z.land v (Z.ones (shift n)).
Definition child (n : nat) (e : Z) : option Z :=
  if is_present e && negb (leaf_at n e) then Some (phys_addr e) else None.

Fixpoint resolve (n : nat) (m : memory) (t v : Z) : option (Z * bool) :=
  let e := entry m t (idx n v) in
  if negb (is_present e) then None
  else if leaf_at n e then Some (leaf_addr n e v, has e PTE_WRITABLE)
  else match n with
       | O => None
       | S n' => '(p, w) ← resolve n' m (phys_addr e) v; Some (p, has e PTE_WRITABLE && w)
       end.

Lemma translate_resolve m root v : translate_in m root v = fst <$> resolve 3 m root v.
Proof.
  unfold translate_in. cbn [resolve leaf_at].
  change (virt_index v Pml4) with (idx 3 v). change (virt_index v Pdpt) with (idx 2 v).
  change (virt_index v Pd) with (idx 1 v). change (virt_index v Pt) with (idx 0 v).
  destruct (is_present (entry m root (idx 3 v))); [|done]. simpl negb. cbn iota.
  set (e2 := entry m (phys_addr _) (idx 2 v)). destruct (is_present e2); [|done]. cbn [negb].
  destruct (has e2 PTE_HUGE); [done|].
  set (e1 := entry m (phys_addr e2) (idx 1 v)). destruct (is_present e1); [|done]. cbn [negb].
  destruct (has e1 PTE_HUGE); [done|]. destruct (is_present (entry m (phys_addr e1) (idx 0 v))); done.
Qed.
Lemma access_resolve m root v : page_access_in m root v = snd <$> resolve 3 m root v.
Proof.
  unfold page_access_in. cbn [resolve leaf_at].
  change (virt_index v Pml4) with (idx 3 v). change (virt_index v Pdpt) with (idx 2 v).
  change (virt_index v Pd) with (idx 1 v). change (virt_index v Pt) with (idx 0 v).
  destruct (is_present (entry m root (idx 3 v))); [|done]. simpl negb. cbn iota.
  set (e2 := entry m (phys_addr _) (idx 2 v)). destruct (is_present e2); [|done]. cbn [negb].
  destruct (has e2 PTE_HUGE); [done|].
  set (e1 := entry m (phys_addr e2) (idx 1 v)). destruct (is_present e1); [|done]. cbn [negb].
  destruct (has e1 PTE_HUGE); [cbn; by rewrite andb_assoc|]. destruct (is_present (entry m (phys_addr e1) (idx 0 v))); [|done].
  cbn. by rewrite !andb_assoc.
Qed.

(** The table at the end of a path of indices. *)
Fixpoint reach (n : nat) (m : memory) (t : Z) (p : list Z) {struct p} : option Z :=
  match p with
  | [] => Some t
  | i :: p =>
      match n with
      | O => None
      | S n' => t' ← child n (entry m t i); reach n' m t' p
      end
  end.

Lemma child_Some n e t : child n e = Some t -> is_present e = true /\ leaf_at n e = false /\ t = phys_addr e.
Proof. unfold child. destruct (is_present e), (leaf_at n e); try done. by intros [= <-]. Qed.

Lemma resolve_child n m t v t' :
  child (S n) (entry m t (idx (S n) v)) = Some t' ->
  resolve (S n) m t v = '(p, w) ← resolve n m t' v; Some (p, has (entry m t (idx (S n) v)) PTE_WRITABLE && w).
Proof. intros (Hp & Hl & ->)%child_Some. cbn [resolve]. by rewrite Hp, Hl. Qed.
Lemma resolve_no_child n m m' t t' v :
  entry m' t' (idx n v) = entry m t (idx n v) -> child n (entry m t (idx n v)) = None -> resolve n m' t' v = resolve n m t v.
Proof.
  intros He Hc. unfold child in Hc. destruct n; cbn [resolve]; rewrite He;
    destruct (is_present _), (leaf_at _ _); done.
Qed.

(** The indices of an address from level [n] down, [k] of them. *)
Fixpoint path (n : nat) (v : Z) (k : nat) {struct k} : list Z :=
  match k with
  | O => []
  | S k => idx n v :: match n with O => [] | S n' => path n' v k end
  end.

(** A change of memory is not seen by a walk that reads the same entries, up to a table whose
    own walk ends in the same place. *)
Lemma resolve_update n m m' t T v :
  (forall k t', reach n m t (path n v k) = Some t' -> t' <> T ->
     entry m' t' (idx (n - k) v) = entry m t' (idx (n - k) v)) ->
  (forall k, (k <= n)%nat -> reach n m t (path n v k) = Some T -> resolve (n - k) m' T v = resolve (n - k) m T v) ->
  resolve n m' t v = resolve n m t v.
Proof.
  revert t. induction n as [|n IH]; intros t Hsame HT.
  - destruct (decide (t = T)) as [->|Hne]; [by apply (HT 0%nat); [lia|]|].
    pose proof (Hsame 0%nat t eq_refl Hne) as He. simpl in He. cbn [resolve]. by rewrite He.
  - destruct (decide (t = T)) as [->|Hne]; [apply (HT 0%nat); [lia|done]|].
    pose proof (Hsame 0%nat t eq_refl Hne) as He. simpl Nat.sub in He.
    destruct (child (S n) (entry m t (idx (S n) v))) as [t'|] eqn:Hc; [|by apply resolve_no_child].
    rewrite (resolve_child n m t v t' Hc). rewrite (resolve_child n m' t v t') by (by rewrite He). rewrite He, (IH t'); [done| |].
    + intros k t'' Hr. apply (Hsame (S k)). cbn [path reach]. by rewrite Hc.
    + intros k Hk Hr. apply (HT (S k)); [lia|]. cbn [path reach]. by rewrite Hc.
Qed.

(** ** A change of one entry

    Entry [i] of table [T], met at level [L] only, either keeps its child, or gets a new one: the
    frame [f], which no table was before and which has no children. *)

Definition path_ok (p : list Z) : Prop := Forall slot p.

Section update.
Context (m m' : memory) (T i f : Z) (L : nat).
Context (Hwords : words m).
Context (Hsame : forall t j, frame t -> slot j -> t <> T -> t <> f -> entry m' t j = entry m t j).
Context (HT : forall j, slot j ->
  child L (entry m' T j) = child L (entry m T j) \/
  j = i /\ child L (entry m T j) = None /\ child L (entry m' T j) = Some f /\
  forall k, slot k -> child (L - 1) (entry m' f k) = None).

Definition level_of (n : nat) (t : Z) : Prop := forall q, path_ok q -> reach n m t q = Some T -> (length q + L = n)%nat.
Definition avoids (n : nat) (t : Z) : Prop := forall q, path_ok q -> reach n m t q <> Some f.

Lemma child_frame n t j t' : child n (entry m t j) = Some t' -> frame t'.
Proof. intros (_ & _ & ->)%child_Some. apply phys_addr_frame, Hwords. Qed.

Lemma level_of_child n t j t' : level_of (S n) t -> slot j -> child (S n) (entry m t j) = Some t' -> level_of n t'.
Proof.
  intros Hl Hj Hc q Hq Hr. specialize (Hl (j :: q) ltac:(by constructor)). cbn [reach] in Hl. rewrite Hc in Hl.
  specialize (Hl Hr). simpl in Hl. lia.
Qed.
Lemma avoids_child n t j t' : avoids (S n) t -> slot j -> child (S n) (entry m t j) = Some t' -> avoids n t'.
Proof.
  intros Ha Hj Hc q Hq Hr. apply (Ha (j :: q) ltac:(by constructor)). cbn [reach]. by rewrite Hc.
Qed.

Lemma reach_mono n t q x :
  frame t -> level_of n t -> avoids n t -> path_ok q -> reach n m t q = Some x -> reach n m' t q = Some x.
Proof.
  intros Ht Hl Ha Hq. revert n t Ht Hl Ha. induction Hq as [|j q Hj Hq IH]; intros n t Ht Hl Ha; [done|].
  destruct n as [|n]; [done|]. cbn [reach]. destruct (child (S n) (entry m t j)) as [t1|] eqn:Hc; [|done]. cbn [mbind option_bind].
  assert (t <> f) by (intros ->; by apply (Ha []); [constructor|]).
  assert (child (S n) (entry m' t j) = Some t1) as ->.
  { destruct (decide (t = T)) as [->|]; [|by rewrite Hsame].
    assert (L = S n) as HL by (exact (Hl [] (List.Forall_nil _) eq_refl)). rewrite <- HL in Hc |- *.
    destruct (HT j Hj) as [->|(-> & Hn & _)]; [done|congruence]. }
  intros Hr. cbn [mbind option_bind]. apply IH; [by eapply child_frame|by eapply level_of_child|by eapply avoids_child|done].
Qed.

Lemma reach_inv_new n t q x :
  frame t -> level_of n t -> avoids n t -> path_ok q -> reach n m' t q = Some x ->
  reach n m t q = Some x \/
  exists p, q = p ++ [i] /\ reach n m t p = Some T /\ x = f /\ forall k, slot k -> child (L - 1) (entry m' f k) = None.
Proof.
  intros Ht Hl Ha Hq. revert n t Ht Hl Ha. induction Hq as [|j q Hj Hq IH]; intros n t Ht Hl Ha; [by left|].
  destruct n as [|n]; [done|]. cbn [reach]. destruct (child (S n) (entry m' t j)) as [t1|] eqn:Hc'; [|done]. cbn [mbind option_bind]. intros Hr.
  assert (t <> f) by (intros ->; by apply (Ha []); [constructor|]).
  assert (child (S n) (entry m t j) = Some t1 \/ t = T /\ j = i /\ t1 = f /\ L = S n /\ forall k, slot k -> child n (entry m' f k) = None) as [Hc|(-> & -> & -> & HL & Hnone)].
  { destruct (decide (t = T)) as [->|]; [|left; by rewrite <- Hsame].
    assert (L = S n) as HL by (exact (Hl [] (List.Forall_nil _) eq_refl)). rewrite <- HL in Hc' |- *.
    destruct (HT j Hj) as [<-|(-> & _ & Hf & Hk)]; [by left|right]. replace (L - 1)%nat with n in Hk by lia.
    split; [done|]. split; [done|]. split; [congruence|]. done. }
  - rewrite Hc. cbn [mbind option_bind].
    destruct (IH n t1 (child_frame _ _ _ _ Hc) (level_of_child _ _ _ _ Hl Hj Hc) (avoids_child _ _ _ _ Ha Hj Hc) Hr) as [?|(p & -> & Hp & -> & Hk)];
      [by left|right]. exists (j :: p). cbn [reach]. rewrite Hc. done.
  - right. exists []. inversion Hq as [|k q' Hk Hq']; subst.
    { injection Hr as <-. split; [done|]. split; [done|]. split; [done|]. by replace (L - 1)%nat with n by lia. }
    exfalso.
    destruct n as [|n]; [done|]. cbn [reach] in Hr. by rewrite Hnone in Hr.
Qed.
End update.

(** ** Address spaces that share their kernel half

    [roots] are the PML4s of the address spaces.  A table is met on one path only, from one root
    or, through the kernel half, from several; a free frame is no table; entries that lead to a
    table are writable, as [map_4k_into] makes them. *)

Definition is_free (a : BitmapFrameAllocator) (f : Z) : Prop :=
  exists i, f = Memory.base a + Z.of_nat i * FRAME_BYTES /\ frames a !! i = Some false.
Definition alloc_ok (a : BitmapFrameAllocator) : Prop :=
  wf a /\ Memory.base a mod 4096 = 0 /\ Memory.base a + CAPACITY a * FRAME_BYTES <= 2 ^ 52.
Definition kernel_path (p : list Z) : Prop := match p with [] => False | j :: _ => KERNEL_PML4_START <= j end.

#[export] Instance kernel_path_dec p : Decision (kernel_path p).
Proof. destruct p; simpl; apply _. Defined.

Record tables_ok (roots : list Z) (m : memory) (a : BitmapFrameAllocator) : Prop := mkTables {
  ok_words : words m;
  ok_alloc : alloc_ok a;
  ok_roots : Forall frame roots;
  ok_unique : forall r1 r2 p1 p2 t, r1 ∈ roots -> r2 ∈ roots -> path_ok p1 -> path_ok p2 ->
    reach 3 m r1 p1 = Some t -> reach 3 m r2 p2 = Some t -> p1 = p2 /\ (r1 = r2 \/ kernel_path p1);
  ok_fresh : forall r p f, r ∈ roots -> path_ok p -> is_free a f -> reach 3 m r p <> Some f;
  ok_writable : forall r p t j t', r ∈ roots -> path_ok p -> slot j -> reach 3 m r p = Some t ->
    child (3 - length p) (entry m t j) = Some t' -> has (entry m t j) PTE_WRITABLE = true;
}.

Lemma free_frame_frame a f : alloc_ok a -> is_free a f -> frame f.
Proof.
  intros (Hwf & Hb & Hr) (i & -> & Hi). pose proof (wf_base a Hwf). pose proof (lookup_lt_Some _ _ _ Hi).
  pose proof (length_frames a). unfold FRAME_BYTES in *. split; [lia|]. rewrite Z_mod_plus_full. done.
Qed.

Lemma idx_slot n v : slot (idx n v).
Proof. unfold slot, idx. change 0x1FF with (Z.ones 9). rewrite Z.land_ones by lia. apply Z.mod_pos_bound. lia. Qed.
Lemma path_path_ok n v k : path_ok (path n v k).
Proof. revert n. induction k as [|k IH]; intros n; constructor; [apply idx_slot|]. destruct n; [constructor|apply IH]. Qed.
Lemma path_ok_snoc p i : path_ok p -> slot i -> path_ok (p ++ [i]).
Proof. intros Hp Hi. apply Forall_app. split; [done|]. constructor; [done|constructor]. Qed.
Lemma path_length n v k : (k <= S n)%nat -> length (path n v k) = k.
Proof. revert n. induction k as [|k IH]; intros n Hk; [done|]. simpl. f_equal. destruct n; [simpl; lia|]. apply IH. lia. Qed.

(** A frame that is in use and is no table: the allocator and the mapper leave it alone. *)
Definition data (roots : list Z) (m : memory) (a : BitmapFrameAllocator) (t : Z) : Prop :=
  frame t /\ (forall r p, r ∈ roots -> path_ok p -> reach 3 m r p <> Some t) /\ ~ is_free a t.
(** The walk ends in a present 4 KiB entry. *)
Definition small_page (m : memory) (root virt : Z) : bool :=
  match reach 3 m root (path 3 virt 3) with Some t => is_present (entry m t (idx 0 virt)) | None => false end.
Definition keeps_data (roots : list Z) (m : memory) (a : BitmapFrameAllocator) (m' : memory) (a' : BitmapFrameAllocator) : Prop :=
  (forall t, data roots m a t -> data roots m' a' t /\ forall j, slot j -> entry m' t j = entry m t j) /\
  (forall r v, r ∈ roots -> small_page m r v = true -> small_page m' r v = true).

Lemma keeps_data_refl roots m a : keeps_data roots m a m a.
Proof. split; auto. Qed.
Lemma keeps_data_trans roots m1 a1 m2 a2 m3 a3 :
  keeps_data roots m1 a1 m2 a2 -> keeps_data roots m2 a2 m3 a3 -> keeps_data roots m1 a1 m3 a3.
Proof.
  intros [H12 S12] [H23 S23]. split; [|auto]. intros t Ht. destruct (H12 t Ht) as [H2 E2]. destruct (H23 t H2) as [H3 E3].
  split; [done|]. intros j Hj. by rewrite E3, E2.
Qed.

Section tables_update.
Context (roots : list Z) (m m' : memory) (a a' : BitmapFrameAllocator) (r : Z) (p : list Z) (T i f : Z) (L : nat).
Context (Hok : tables_ok roots m a) (Hr : r ∈ roots) (Hp : path_ok p) (Hi : slot i).
Context (HpT : reach 3 m r p = Some T) (HL : (length p + L = 3)%nat).
Context (Hwords : words m').
Context (Hsame : forall t j, frame t -> slot j -> t <> T -> t <> f -> entry m' t j = entry m t j).
Context (HT : forall j, slot j ->
  child L (entry m' T j) = child L (entry m T j) \/
  j = i /\ child L (entry m T j) = None /\ child L (entry m' T j) = Some f /\
  forall k, slot k -> child (L - 1) (entry m' f k) = None).
Context (Hw : forall j t', slot j -> child L (entry m' T j) = Some t' -> has (entry m' T j) PTE_WRITABLE = true).
Context (Hf : f = -1 \/ is_free a f) (Ha' : alloc_ok a') (Hfree : forall g, is_free a' g -> is_free a g /\ g <> f).

Lemma root_frame r' : r' ∈ roots -> frame r'.
Proof. intros Hr'. pose proof (ok_roots _ _ _ Hok) as H. rewrite Forall_forall in H. by apply H. Qed.
Lemma reach_frame n t q x : frame t -> reach n m t q = Some x -> frame x.
Proof.
  revert n t. induction q as [|j q IH]; intros n t Ht; [by intros [= <-]|]. destruct n as [|n]; [done|]. cbn [reach].
  destruct (child (S n) (entry m t j)) as [t1|] eqn:Hc; [|done]. cbn. apply IH. eapply child_frame; [apply Hok|exact Hc].
Qed.
Lemma root_level r' : r' ∈ roots -> level_of m T L 3 r'.
Proof. intros Hr' q Hq Hreach. destruct (ok_unique _ _ _ Hok r r' p q T) as [<- _]; done. Qed.
Lemma root_avoids r' : r' ∈ roots -> avoids m f 3 r'.
Proof.
  intros Hr' q Hq Hreach. destruct Hf as [->|Hfr]; [|by apply (ok_fresh _ _ _ Hok r' q f)].
  apply reach_frame in Hreach as [? _]; [lia|by apply root_frame].
Qed.

Lemma update_mono r' q x : r' ∈ roots -> path_ok q -> reach 3 m r' q = Some x -> reach 3 m' r' q = Some x.
Proof.
  intros Hr' Hq. apply (reach_mono m m' T i f L); try done; [apply Hok|by apply root_frame|by apply root_level|by apply root_avoids].
Qed.
Lemma update_inv r' q x : r' ∈ roots -> path_ok q -> reach 3 m' r' q = Some x ->
  reach 3 m r' q = Some x \/
  exists p', q = p' ++ [i] /\ path_ok p' /\ reach 3 m r' p' = Some T /\ x = f /\ forall k, slot k -> child (L - 1) (entry m' f k) = None.
Proof.
  intros Hr' Hq Hreach. destruct (reach_inv_new m m' T i f L ltac:(apply Hok) Hsame HT 3 r' q x) as [?|(p' & -> & ? & -> & ?)];
    try done; [by apply root_frame|by apply root_level|by apply root_avoids|by left|].
  right. exists p'. apply Forall_app in Hq as [? _]. done.
Qed.

Lemma update_tables_ok : tables_ok roots m' a'.
Proof.
  assert (forall r' q, r' ∈ roots -> path_ok q -> reach 3 m r' q = Some f -> False) as Hnf.
  { intros r' q Hr' Hq Hreach. by apply (root_avoids r' Hr' q Hq). }
  split; [done|done|apply Hok| | |].
  - intros r1 r2 p1 p2 t H1 H2 Hp1 Hp2 Hr1 Hr2.
    destruct (update_inv r1 p1 t H1 Hp1 Hr1) as [Ho1|(q1 & -> & Hq1 & Hn1 & -> & _)];
      destruct (update_inv r2 p2 _ H2 Hp2 Hr2) as [Ho2|(q2 & -> & Hq2 & Hn2 & He & _)].
    + by apply (ok_unique _ _ _ Hok r1 r2 p1 p2 t).
    + subst t. by destruct (Hnf r1 p1).
    + by destruct (Hnf r2 p2).
    + destruct (ok_unique _ _ _ Hok r1 r2 q1 q2 T) as [<- Hk]; try done. split; [done|].
      destruct Hk as [?|Hk]; [by left|right]. by destruct q1.
  - intros r' q g Hr' Hq Hg Hreach. destruct (Hfree g Hg) as [Hg' Hne].
    destruct (update_inv r' q g Hr' Hq Hreach) as [Ho|(q1 & _ & _ & _ & -> & _)]; [|done]. by apply (ok_fresh _ _ _ Hok r' q g).
  - intros r' q t j t' Hr' Hq Hj Hreach Hc.
    destruct (update_inv r' q t Hr' Hq Hreach) as [Ho|(q1 & -> & Hq1 & Hn1 & -> & Hnone)].
    + destruct (decide (t = T)) as [->|Hne].
      * pose proof (root_level r' Hr' q Hq Ho). replace (3 - length q)%nat with L in Hc by lia. by eapply Hw.
      * assert (t <> f) as Hnef by (intros ->; by apply (Hnf r' q)).
        assert (frame t) as Hft by (eapply reach_frame; [by apply root_frame|exact Ho]).
        rewrite Hsame in Hc |- * by done. by eapply (ok_writable _ _ _ Hok).
    + pose proof (root_level r' Hr' q1 Hq1 Hn1). rewrite length_app in Hc. simpl in Hc.
      replace (3 - (length q1 + 1))%nat with (L - 1)%nat in Hc by lia. by rewrite Hnone in Hc.
Qed.

Lemma update_small r' v :
  (L = 0%nat -> forall j, slot j -> is_present (entry m T j) = true -> is_present (entry m' T j) = true) ->
  r' ∈ roots -> small_page m r' v = true -> small_page m' r' v = true.
Proof.
  unfold small_page. intros Hleaf Hr'. destruct (reach 3 m r' (path 3 v 3)) as [t|] eqn:Ht; [|done].
  rewrite (update_mono r' _ t Hr' (path_path_ok 3 v 3) Ht). intros Hpr. destruct (decide (t = T)) as [->|Hne].
  - pose proof (root_level r' Hr' _ (path_path_ok 3 v 3) Ht) as Hlen. rewrite path_length in Hlen by lia. apply Hleaf; [lia|apply idx_slot|done].
  - rewrite Hsame; [done|eapply reach_frame; [by apply root_frame|exact Ht]|apply idx_slot|done|].
    intros ->. by apply (root_avoids r' Hr' _ (path_path_ok 3 v 3)).
Qed.

Lemma update_data :
  (L = 0%nat -> forall j, slot j -> is_present (entry m T j) = true -> is_present (entry m' T j) = true) ->
  keeps_data roots m a m' a'.
Proof.
  intros Hleaf. split; [|intros r' v; by apply update_small]. intros t (Ht & Hnr & Hnf). assert (t <> T) as HtT by (intros ->; by apply (Hnr r p)).
  assert (t <> f) as Htf by (destruct Hf as [->|Hfr]; [destruct Ht; lia|by intros ->]).
  split; [|intros j Hj; by apply Hsame]. split; [done|]. split.
  - intros r' q Hr' Hq Hreach. destruct (update_inv r' q t Hr' Hq Hreach) as [?|(p' & _ & _ & _ & E & _)]; [by apply (Hnr r' q)|done].
  - intros Hfree'. by destruct (Hfree t Hfree').
Qed.

Lemma reach_app n t q q' x : reach n m t q = Some x -> reach n m t (q ++ q') = reach (n - length q) m x q'.
Proof.
  revert n t. induction q as [|j q IH]; intros n t; [intros [= ->]; simpl; by rewrite Nat.sub_0_r|].
  destruct n as [|n]; [done|]. cbn [reach app]. destruct (child (S n) (entry m t j)) as [t1|]; [|done]. cbn [mbind option_bind length Nat.sub]. apply IH.
Qed.

(** Below an entry that keeps its child and its write permission, nothing changes. *)
Lemma update_below v :
  child L (entry m' T (idx L v)) = child L (entry m T (idx L v)) ->
  (child L (entry m T (idx L v)) = None -> entry m' T (idx L v) = entry m T (idx L v)) ->
  resolve L m' T v = resolve L m T v.
Proof.
  intros Hc He. destruct (child L (entry m T (idx L v))) as [t1|] eqn:Hc1; [|apply resolve_no_child; auto].
  assert (reach 3 m r (p ++ [idx L v]) = Some t1) as Hr1.
  { rewrite (reach_app 3 r p _ T HpT). replace (3 - length p)%nat with L by lia. cbn [reach].
    assert (L <> 0%nat) by (intros E; rewrite E in Hc1; by apply child_Some in Hc1 as (_ & ? & _)).
    assert (L = S (L - 1)) as EL by lia. rewrite EL in Hc1 |- *. by rewrite Hc1. }
  assert (has (entry m' T (idx L v)) PTE_WRITABLE = has (entry m T (idx L v)) PTE_WRITABLE) as Hwr.
  { rewrite (Hw _ t1 (idx_slot _ _) Hc). symmetry. eapply (ok_writable _ _ _ Hok r p); [done|done|apply idx_slot|done|].
    by replace (3 - length p)%nat with L by lia. }
  assert (L <> 0%nat) as HL0 by (intros E; rewrite E in Hc1; by apply child_Some in Hc1 as (_ & ? & _)).
  assert (exists n, L = S n) as [n EL] by (exists (L - 1)%nat; lia).
  assert (forall q x, path_ok q -> reach n m t1 q = Some x -> x <> T /\ x <> f /\ frame x) as Hbelow.
  { intros q x Hq Hx. assert (reach 3 m r ((p ++ [idx L v]) ++ q) = Some x) as Hx'.
    { rewrite (reach_app 3 r _ q t1 Hr1), length_app. simpl. replace (3 - (length p + 1))%nat with n by lia. done. }
    assert (path_ok ((p ++ [idx L v]) ++ q)) as Hpq.
    { apply Forall_app. split; [|done]. apply path_ok_snoc; [done|apply idx_slot]. }
    split; [|split].
    - intros ->. pose proof (root_level r Hr _ Hpq Hx') as Hlen. rewrite !length_app in Hlen. simpl in Hlen. lia.
    - intros ->. by apply (root_avoids r Hr _ Hpq).
    - eapply reach_frame; [by apply root_frame|exact Hx']. }
  rewrite EL in Hc, Hc1, Hwr |- *. rewrite (resolve_child n m T v t1 Hc1), (resolve_child n m' T v t1 Hc), Hwr.
  rewrite (resolve_update n m m' t1 T v); [done| |].
  - intros k t' Hk Hne. destruct (Hbelow _ _ (path_path_ok n v k) Hk) as (_ & ? & ?). apply Hsame; try done. apply idx_slot.
  - intros k _ Hk. by destruct (Hbelow _ _ (path_path_ok n v k) Hk) as (? & _).
Qed.

Lemma update_resolve r' v :
  r' ∈ roots ->
  (reach 3 m r' p = Some T -> path 3 v (length p) = p -> resolve L m' T v = resolve L m T v) ->
  resolve 3 m' r' v = resolve 3 m r' v.
Proof.
  intros Hr' HTv. apply (resolve_update 3 m m' r' T v).
  - intros k t' Hreach Hne. apply Hsame; [eapply reach_frame; [by apply root_frame|exact Hreach]|apply idx_slot|done|].
    intros ->. by apply (root_avoids r' Hr' _ (path_path_ok 3 v k)).
  - intros k Hk Hreach. destruct (ok_unique _ _ _ Hok r r' p (path 3 v k) T) as [Hpe _]; try done; [apply path_path_ok|].
    pose proof (path_length 3 v k ltac:(lia)) as Hlen. rewrite <- Hpe in Hlen, Hreach. replace (3 - k)%nat with L by lia.
    apply HTv; [done|]. rewrite Hlen. done.
Qed.
End tables_update.

(** ** New tables *)

Lemma zero_words_in m a n k : 0 <= k < Z.of_nat n -> read_word (zero_words m a n) (a + 8 * k) = 0.
Proof.
  assert (forall n m a b, read_word m b = 0 -> read_word (zero_words m a n) b = 0) as Hz.
  { clear. intros n. induction n as [|n IH]; intros m a b Hb; [done|]. simpl. apply IH. unfold read_word, write_word in *.
    destruct (decide (a = b)) as [->|]; [by rewrite lookup_insert_eq|by rewrite lookup_insert_ne]. }
  revert m a k. induction n as [|n IH]; intros m a k Hk; [lia|]. cbn [zero_words]. destruct (decide (k = 0)) as [->|].
  - apply Hz. replace (a + 8 * 0) with a by lia. apply read_write_same.
  - replace (a + 8 * k) with (a + 8 + 8 * (k - 1)) by lia. apply IH. lia.
Qed.
Lemma zero_words_out m a n b : (forall k, 0 <= k < Z.of_nat n -> b <> a + 8 * k) -> read_word (zero_words m a n) b = read_word m b.
Proof.
  revert m a. induction n as [|n IH]; intros m a Hb; [done|]. cbn [zero_words]. rewrite IH.
  - apply read_write_other. specialize (Hb 0). lia.
  - intros k Hk. specialize (Hb (k + 1)). lia.
Qed.
Lemma words_zero m a n : words m -> words (zero_words m a n).
Proof. revert m a. induction n as [|n IH]; intros m a Hm; [done|]. apply IH. by apply words_write. Qed.

Lemma words_zero_table m f : words m -> words (zero_table m f).
Proof. apply words_zero. Qed.

Lemma entry_zero m f t j :
  frame f -> frame t -> slot j -> entry (zero_table m f) t j = if decide (t = f) then 0 else entry m t j.
Proof.
  intros Hf Ht Hj. unfold entry, zero_table. destruct (decide (t = f)) as [->|Hne].
  - apply zero_words_in. unfold slot in Hj. lia.
  - apply zero_words_out. intros k Hk He. by destruct (entry_word t f j k) as [-> _].
Qed.

Lemma fill_pt_words m pt hf cf skip k n : words m -> 0 <= hf -> 0 <= cf -> 0 <= k -> words (fill_pt m pt hf cf skip k n).
Proof.
  intros Hm Hh Hc Hk. revert m k Hm Hk. induction n as [|n IH]; intros m k Hm Hk; [done|]. simpl. apply IH; [|lia].
  destruct (k =? skip); [done|]. apply words_write; [done|]. apply set_frame_nonneg; lia.
Qed.
Lemma fill_pd_words m pd hf cf k n : words m -> 0 <= hf -> 0 <= cf -> 0 <= k -> words (fill_pd m pd hf cf k n).
Proof.
  intros Hm Hh Hc Hk. revert m k Hm Hk. induction n as [|n IH]; intros m k Hm Hk; [done|]. simpl. apply IH; [|lia].
  apply words_write; [done|]. apply set_frame_nonneg; lia.
Qed.

Lemma entry_fill_pt m pt hf cf skip k n t j :
  frame pt -> frame t -> slot j -> 0 <= k -> k + Z.of_nat n <= 512 ->
  entry (fill_pt m pt hf cf skip k n) t j =
    if decide (t = pt /\ k <= j < k + Z.of_nat n /\ j <> skip) then set_frame (hf + j * 0x1000) cf else entry m t j.
Proof.
  intros Hpt Ht Hj. revert m k. induction n as [|n IH]; intros m k Hk Hn.
  - cbn [fill_pt]. by rewrite decide_False by lia.
  - cbn [fill_pt]. rewrite IH by lia. destruct (Z.eqb_spec k skip) as [->|Hne]; cbn [negb].
    + destruct (decide (t = pt /\ skip + 1 <= j < skip + 1 + Z.of_nat n /\ j <> skip));
        [by rewrite decide_True by lia|by rewrite decide_False by lia].
    + destruct (decide (t = pt /\ k + 1 <= j < k + 1 + Z.of_nat n /\ j <> skip)); [by rewrite decide_True by lia|].
      destruct (decide (t = pt /\ j = k)) as [[-> ->]|].
      * rewrite decide_True by lia. by rewrite entry_set_same.
      * rewrite decide_False by lia. apply entry_set_other; try done; [unfold slot; lia|]. lia.
Qed.
Lemma entry_fill_pd m pd hf cf k n t j :
  frame pd -> frame t -> slot j -> 0 <= k -> k + Z.of_nat n <= 512 ->
  entry (fill_pd m pd hf cf k n) t j =
    if decide (t = pd /\ k <= j < k + Z.of_nat n) then set_frame (hf + j * 0x200000) cf else entry m t j.
Proof.
  intros Hpt Ht Hj. revert m k. induction n as [|n IH]; intros m k Hk Hn.
  - cbn [fill_pd]. by rewrite decide_False by lia.
  - cbn [fill_pd]. rewrite IH by lia. destruct (decide (t = pd /\ k + 1 <= j < k + 1 + Z.of_nat n)); [by rewrite decide_True by lia|].
    destruct (decide (t = pd /\ j = k)) as [[-> ->]|].
    * rewrite decide_True by lia. by rewrite entry_set_same.
    * rewrite decide_False by lia. apply entry_set_other; try done; [unfold slot; lia|]. lia.
Qed.

Lemma alloc_frame_fresh a :
  alloc_ok a ->
  (alloc_frame a = Done (None, a) /\ forall f, ~ is_free a f) \/
  exists f a', alloc_frame a = Done (Some f, a') /\ is_free a f /\ alloc_ok a' /\
    (forall g, is_free a' g <-> is_free a g /\ g <> f).
Proof.
  intros (Hwf & Hb & Hc). pose proof (alloc_frame_ok a Hwf) as Hs. destruct (first_zero (frames a)) as [i|] eqn:Hz.
  - destruct Hs as (a' & Ha & Hwf' & Hfr & _ & _ & Hbase). right. eexists _, a'. split; [exact Ha|].
    pose proof (proj1 (first_zero_Some _ _) Hz) as [Hi _]. split; [by exists i|]. split.
    + split; [done|]. rewrite Hbase. split; [done|]. rewrite <- length_frames, Hfr, length_insert, length_frames. done.
    + intros g. unfold is_free. rewrite Hbase, Hfr. split.
      * intros (j & -> & Hj). destruct (decide (i = j)) as [<-|Hne]; [by rewrite list_lookup_insert_eq in Hj by (by eapply lookup_lt_Some)|].
        rewrite list_lookup_insert_ne in Hj by done. split; [by exists j|]. unfold FRAME_BYTES. lia.
      * intros [(j & -> & Hj) Hne]. exists j. split; [done|]. rewrite list_lookup_insert_ne; [done|]. by intros ->.
  - left. split; [done|]. intros f (j & -> & Hj). by pose proof (proj1 (first_zero_None (frames a)) Hz j false Hj).
Qed.

(** ** The steps of the descent *)

(** Flags an entry that leads to a table can have. *)
Record table_flags (fl : Z) : Prop := mkFlags {
  tf_nonneg : 0 <= fl;
  tf_present : has fl PTE_PRESENT = true;
  tf_writable : has fl PTE_WRITABLE = true;
  tf_huge : has fl PTE_HUGE = false;
  tf_frame : Z.land fl FRAME_MASK = 0;
}.
Lemma intermediate_table_flags flags : table_flags (intermediate_flags flags).
Proof. unfold intermediate_flags. destruct (has flags PTE_USER); split; done. Qed.
Lemma split_table_flags e flags : table_flags (split_flags e flags).
Proof. unfold split_flags, intermediate_flags. destruct (has e PTE_USER), (has flags PTE_USER); split; done. Qed.

Lemma table_entry n f fl : frame f -> table_flags fl -> child (S n) (set_frame f fl) = Some f /\ has (set_frame f fl) PTE_WRITABLE = true.
Proof.
  intros Hf [? Hp Hw Hh Hm]. unfold child, is_present. rewrite !has_set_frame, Hp, Hw by done. split; [|done].
  assert (leaf_at (S n) (set_frame f fl) = false) as -> by (destruct n as [|[|]]; simpl; rewrite ?has_set_frame by done; done).
  cbn. unfold phys_addr. rewrite land_set_frame by done. by rewrite frame_land.
Qed.

Section descent.
Context (roots : list Z) (m : memory) (a : BitmapFrameAllocator) (r : Z) (p : list Z) (T i : Z) (n : nat).
Context (Hok : tables_ok roots m a) (Hr : r ∈ roots) (Hp : path_ok p) (Hi : slot i).
Context (HpT : reach 3 m r p = Some T) (HL : (length p + S n = 3)%nat).

Lemma T_frame : frame T.
Proof. eapply reach_frame; [exact Hok|eapply root_frame; [exact Hok|exact Hr]|exact HpT]. Qed.
#[local] Hint Resolve T_frame : core.

Lemma reach_next m' t' : reach 3 m' r p = Some T -> child (S n) (entry m' T i) = Some t' -> reach 3 m' r (p ++ [i]) = Some t'.
Proof.
  intros Hr' Hc. rewrite (reach_app m' 3 r p [i] T Hr'). replace (3 - length p)%nat with (S n) by lia. cbn [reach]. by rewrite Hc.
Qed.

(** The table is there: at most the flags of its entry change. *)
Lemma keep_step flags t' :
  child (S n) (entry m T i) = Some t' ->
  let m' := keep_table m T i (entry m T i) flags in
  tables_ok roots m' a /\ reach 3 m' r (p ++ [i]) = Some t' /\ keeps_data roots m a m' a /\
  (forall r' v, r' ∈ roots -> resolve 3 m' r' v = resolve 3 m r' v).
Proof.
  intros Hc m'. subst m'. pose proof (reach_next m t' HpT Hc) as Hnext. unfold keep_table. set (e := entry m T i) in *.
  destruct (has flags PTE_USER && negb (has e PTE_USER)); [|split; [done|]; split; [done|]; split; [apply keeps_data_refl|done]].
  pose proof (child_Some _ _ _ Hc) as (Hpr & Hlf & Ht').
  assert (frame t') as Hft by (subst t'; apply phys_addr_frame, Hok).
  destruct (table_entry n t' _ Hft (intermediate_table_flags flags)) as [Hc' Hw']. rewrite <- Ht'.
  set (m' := set_entry m T i _).
  assert (forall t j, frame t -> slot j -> t <> T -> t <> -1 -> entry m' t j = entry m t j) as Hsame.
  { intros t j Ht Hj Hne _. apply entry_set_other; auto. }
  assert (forall j, slot j -> child (S n) (entry m' T j) = child (S n) (entry m T j)) as Hch.
  { intros j Hj. destruct (decide (i = j)) as [<-|Hne].
    - unfold m'. rewrite entry_set_same. fold e. congruence.
    - unfold m'. rewrite entry_set_other by auto. done. }
  assert (forall j t1, slot j -> child (S n) (entry m' T j) = Some t1 -> has (entry m' T j) PTE_WRITABLE = true) as Hwr.
  { intros j t1 Hj Hc1. destruct (decide (i = j)) as [<-|Hne]; [unfold m'; by rewrite entry_set_same|].
    rewrite (Hch j Hj) in Hc1. unfold m'. rewrite entry_set_other by auto.
    eapply (ok_writable _ _ _ Hok r p); [done..|]. by replace (3 - length p)%nat with (S n) by lia. }
  assert (words m') as Hwd.
  { apply words_write; [apply Hok|]. apply set_frame_nonneg; [apply Hft|apply intermediate_table_flags]. }
  assert (forall g, is_free a g -> is_free a g /\ g <> -1) as Hfree.
  { intros g Hg. split; [done|]. pose proof (free_frame_frame a g ltac:(apply Hok) Hg) as [? _]. lia. }
  assert (alloc_ok a) as Ha by apply Hok.
  split; [|split; [|split]].
  - eapply update_tables_ok with (m := m) (a := a) (r := r) (p := p) (T := T) (i := i) (f := -1) (L := S n); eauto.
  - eapply update_mono with (m := m) (a := a) (r := r) (p := p) (T := T) (i := i) (f := -1) (L := S n); eauto using path_ok_snoc.
  - eapply update_data with (r := r) (p := p) (T := T) (i := i) (f := -1) (L := S n); eauto. done.
  - intros r' v Hr'. eapply update_resolve with (a := a) (i := i) (r := r) (p := p) (T := T) (f := -1) (L := S n); eauto. intros _ _.
    eapply update_below with (roots := roots) (a := a) (i := i) (r := r) (p := p) (f := -1); eauto; [apply Hch, idx_slot|].
    intros Hnone. unfold m'. apply entry_set_other; auto using idx_slot. right. intros Hij. fold e in Hc. subst e. rewrite <- Hij in Hnone. congruence.
Qed.

(** A new table: the frame [f], whose entries in [m1] have no children. *)
Lemma link_step m1 a' f fl :
  is_free a f -> alloc_ok a' -> (forall g, is_free a' g <-> is_free a g /\ g <> f) -> words m1 ->
  (forall t j, frame t -> slot j -> t <> f -> entry m1 t j = entry m t j) ->
  (forall k, slot k -> child n (entry m1 f k) = None) -> table_flags fl -> child (S n) (entry m T i) = None ->
  let m' := set_entry m1 T i (set_frame f fl) in
  tables_ok roots m' a' /\ reach 3 m' r (p ++ [i]) = Some f /\ (forall k, slot k -> entry m' f k = entry m1 f k) /\ keeps_data roots m a m' a' /\
  (forall r' v, r' ∈ roots ->
     (reach 3 m r' p = Some T -> path 3 v (length p) = p -> idx (S n) v = i -> resolve n m1 f v = resolve (S n) m T v) ->
     resolve 3 m' r' v = resolve 3 m r' v).
Proof.
  intros Hf Ha' Hfree0 Hw1 Hs1 Hk Hfl Hnone m'. pose proof (free_frame_frame a f ltac:(apply Hok) Hf) as Hff.
  destruct (table_entry n f fl Hff Hfl) as [Hc' Hw'].
  assert (forall g, is_free a' g -> is_free a g /\ g <> f) as Hfree by (intros g; apply Hfree0).
  assert (T <> f) as HTf by (intros ->; by apply (ok_fresh _ _ _ Hok r p f)).
  assert (forall t j, frame t -> slot j -> t <> T -> t <> f -> entry m' t j = entry m t j) as Hsame.
  { intros t j Ht Hj HtT Htf. unfold m'. rewrite entry_set_other by auto. by apply Hs1. }
  assert (forall k, slot k -> entry m' f k = entry m1 f k) as Hf'.
  { intros k Hk'. unfold m'. apply entry_set_other; auto. }
  assert (forall j, slot j -> j <> i -> entry m' T j = entry m T j) as HTj.
  { intros j Hj Hne. unfold m'. rewrite entry_set_other by auto. apply Hs1; auto. }
  assert (entry m' T i = set_frame f fl) as HTi by (apply entry_set_same).
  assert (forall j, slot j -> child (S n) (entry m' T j) = child (S n) (entry m T j) \/
    j = i /\ child (S n) (entry m T j) = None /\ child (S n) (entry m' T j) = Some f /\
    forall k, slot k -> child (S n - 1) (entry m' f k) = None) as HT.
  { intros j Hj. destruct (decide (j = i)) as [->|Hne]; [right|left; by rewrite HTj]. split; [done|]. split; [done|].
    rewrite HTi. split; [done|]. intros k Hk'. rewrite Hf' by done. simpl. rewrite Nat.sub_0_r. by apply Hk. }
  assert (forall j t1, slot j -> child (S n) (entry m' T j) = Some t1 -> has (entry m' T j) PTE_WRITABLE = true) as Hwr.
  { intros j t1 Hj Hc1. destruct (decide (j = i)) as [->|Hne]; [by rewrite HTi|].
    rewrite HTj in Hc1 |- * by done. eapply (ok_writable _ _ _ Hok r p); [done..|]. by replace (3 - length p)%nat with (S n) by lia. }
  assert (words m') as Hwd by (apply words_write; [done|apply set_frame_nonneg; [apply Hff|apply Hfl]]).
  split; [|split; [|split; [done|split]]].
  - eapply update_tables_ok with (m := m) (a := a) (r := r) (p := p) (T := T) (i := i) (f := f) (L := S n); eauto.
  - apply reach_next; [|by rewrite HTi]. eapply update_mono with (m := m) (a := a) (r := r) (p := p) (T := T) (i := i) (f := f) (L := S n); eauto.
  - eapply update_data with (r := r) (p := p) (T := T) (i := i) (f := f) (L := S n); eauto. done.
  - intros r' v Hr' Hv. eapply update_resolve with (a := a) (i := i) (r := r) (p := p) (T := T) (f := f) (L := S n); eauto. intros HTr' Hpv.
    destruct (decide (idx (S n) v = i)) as [Hii|Hne].
    + rewrite <- (Hv HTr' Hpv Hii). rewrite (resolve_child n m' T v f) by (by rewrite Hii, HTi). rewrite Hii, HTi, Hw'.
      rewrite (resolve_no_child n m1 m' f f v) by auto using idx_slot. by destruct (resolve n m1 f v) as [[? ?]|].
    + eapply update_below with (roots := roots) (a := a) (i := i) (r := r) (p := p) (f := f); eauto; [|intros _]; by rewrite HTj by auto using idx_slot.
Qed.
End descent.

(** ** Splitting a huge page *)

(** Slice [k] of a page of level [n + 1] is the page of level [n] at its place. *)
Lemma slice_addr n e v :
  (n <= 1)%nat -> 0 <= e ->
  let x := Z.land e (mask_from (shift (S n))) + idx n v * 2 ^ shift n in
  Z.land x (mask_from (shift n)) = x /\ x + Z.land v (Z.ones (shift n)) = leaf_addr (S n) e v.
Proof.
  intros Hn He x. assert (shift (S n) = shift n + 9) as Hs by (unfold shift; lia).
  assert (0 <= shift n /\ shift (S n) <= 30) as Hb by (unfold shift; lia).
  destruct (land_mask_range (shift (S n)) e) as [Hr Hm]; [lia|done|]. pose proof (idx_slot n v) as Hi. unfold slot in Hi. split.
  - apply land_aligned; [lia| |].
    + unfold x. apply Z.mod_divide in Hm as [q Hq]; [|lia]. rewrite Hq in *. rewrite Hs, Z.pow_add_r in * by lia.
      assert (2 ^ 52 = 2 ^ (52 - shift n - 9) * (2 ^ shift n * 2 ^ 9)) as H52.
      { rewrite <- !Z.pow_add_r by lia. f_equal. lia. }
      rewrite H52 in *. assert (0 < 2 ^ shift n) by lia. assert (0 < 2 ^ (52 - shift n - 9)) by (apply Z.pow_pos_nonneg; lia).
      assert (q < 2 ^ (52 - shift n - 9)) by nia. nia.
    + unfold x. rewrite Z_mod_plus_full. apply (Z.mod_divide) in Hm as [q Hq]; [|lia]. rewrite Hq, Hs, Z.pow_add_r by lia.
      replace (q * (2 ^ shift n * 2 ^ 9)) with (q * 2 ^ 9 * 2 ^ shift n) by lia. apply Z.mod_mul. lia.
  - unfold leaf_addr, x. rewrite !Z.land_ones by lia. unfold idx. change 0x1FF with (Z.ones 9). rewrite Z.land_ones, Z.shiftr_div_pow2 by lia.
    rewrite Hs, Z.pow_add_r, Z.rem_mul_r by lia. lia.
Qed.

Definition child_flags_2m (e : Z) : Z :=
  Z.lor (Z.lor (Z.land (Z.land e 0xFFF) (not_uint 64 PTE_HUGE)) (Z.land e PTE_NO_EXEC)) PTE_PRESENT.
Definition child_flags_1g (e : Z) : Z :=
  Z.lor (Z.lor (Z.lor (Z.land e 0xFFF) (Z.land e PTE_NO_EXEC)) PTE_PRESENT) PTE_HUGE.

Lemma child_flags_nonneg e : 0 <= e -> 0 <= child_flags_2m e /\ 0 <= child_flags_1g e.
Proof.
  intros He. assert (forall x, 0 <= Z.land e x) as Hl by (intros x; apply Z.land_nonneg; by left).
  assert (forall x, 0 <= Z.land (Z.land e 0xFFF) x) as Hl2 by (intros x; apply Z.land_nonneg; by left).
  split; unfold child_flags_2m, child_flags_1g; repeat (apply Z.lor_nonneg; split); auto; done.
Qed.
Lemma has_0 e : has e 0 = false.
Proof. unfold has. by rewrite Z.land_0_r. Qed.

Lemma slice_2m e v :
  0 <= e -> let e' := set_frame (Z.land e HUGE_2M_FRAME_MASK + idx 0 v * 0x1000) (child_flags_2m e) in
  is_present e' = true /\ leaf_addr 0 e' v = leaf_addr 1 e v /\ has e' PTE_WRITABLE = has e PTE_WRITABLE.
Proof.
  intros He e'. destruct (slice_addr 0 e v ltac:(lia) He) as [Hx Hv]. subst e'. split; [|split].
  - unfold is_present. rewrite has_set_frame by done. unfold child_flags_2m. rewrite !has_lor by done. by rewrite orb_true_r.
  - unfold leaf_addr at 1. rewrite land_set_frame; [|done|].
    + rewrite <- Hv. f_equal. exact Hx.
    + unfold child_flags_2m. rewrite !Z.land_lor_distr_l, <- !Z.land_assoc. by rewrite !Z.land_0_r.
  - rewrite has_set_frame by done. unfold child_flags_2m. rewrite !has_lor, !has_land by done.
    change (Z.land 0xFFF (Z.land (not_uint 64 PTE_HUGE) PTE_WRITABLE)) with PTE_WRITABLE.
    change (Z.land PTE_NO_EXEC PTE_WRITABLE) with 0. rewrite has_0. change (has PTE_PRESENT PTE_WRITABLE) with false. by rewrite !orb_false_r.
Qed.

Lemma slice_1g e v :
  0 <= e -> let e' := set_frame (Z.land e HUGE_1G_FRAME_MASK + idx 1 v * 0x200000) (child_flags_1g e) in
  is_present e' = true /\ has e' PTE_HUGE = true /\ leaf_addr 1 e' v = leaf_addr 2 e v /\ has e' PTE_WRITABLE = has e PTE_WRITABLE.
Proof.
  intros He e'. destruct (slice_addr 1 e v ltac:(lia) He) as [Hx Hv]. subst e'. split; [|split; [|split]].
  - unfold is_present. rewrite has_set_frame by done. unfold child_flags_1g. rewrite !has_lor by done.
    change (has PTE_PRESENT PTE_PRESENT) with true. by rewrite orb_true_r.
  - rewrite has_set_frame by done. unfold child_flags_1g. rewrite !has_lor by done. change (has PTE_HUGE PTE_HUGE) with true. by rewrite orb_true_r.
  - unfold leaf_addr at 1. rewrite land_set_frame; [|done|].
    + rewrite <- Hv. f_equal. exact Hx.
    + unfold child_flags_1g. rewrite !Z.land_lor_distr_l, <- !Z.land_assoc. by rewrite !Z.land_0_r.
  - rewrite has_set_frame by done. unfold child_flags_1g. rewrite !has_lor, !has_land by done.
    change (Z.land 0xFFF PTE_WRITABLE) with PTE_WRITABLE. change (Z.land PTE_NO_EXEC PTE_WRITABLE) with 0. rewrite has_0.
    change (has PTE_PRESENT PTE_WRITABLE) with false. change (has PTE_HUGE PTE_WRITABLE) with false. by rewrite !orb_false_r.
Qed.

(** ** What a step may do *)

#[local] Opaque zero_table zero_words fill_pt fill_pd.

(** An address is out of reach of a mapping at [V] in the space [r]: it is in another page, or in
    another space while [V] is in the user half. *)
Definition elsewhere (r V r' v : Z) : Prop := path 3 v 4 <> path 3 V 4 \/ r' <> r /\ idx 3 V < KERNEL_PML4_START.

Definition steps_to (roots : list Z) (m : memory) (a : BitmapFrameAllocator) (r V : Z) (k : nat) (res : exec (option Z * vm)) : Prop :=
  res = Done (None, (m, a)) /\ (forall f, ~ is_free a f) \/
  exists t' m' a', res = Done (Some t', (m', a')) /\ tables_ok roots m' a' /\ reach 3 m' r (path 3 V k) = Some t' /\
    (forall g, is_free a' g -> is_free a g) /\ keeps_data roots m a m' a' /\
    ((forall r' v, r' ∈ roots -> resolve 3 m' r' v = resolve 3 m r' v) \/
     k = 3%nat /\ entry m' t' (idx 0 V) = 0 /\
     forall r' v, r' ∈ roots -> elsewhere r V r' v -> resolve 3 m' r' v = resolve 3 m r' v).

Lemma path_next V k n : (k + S n = 3)%nat -> path 3 V (S k) = path 3 V k ++ [idx (S n) V].
Proof.
  intros Hk. assert (k = 0 /\ n = 2 \/ k = 1 /\ n = 1 \/ k = 2 /\ n = 0)%nat as [[-> ->]|[[-> ->]|[-> ->]]] by lia; done.
Qed.

Section steps.
Context (roots : list Z) (m : memory) (a : BitmapFrameAllocator) (r V T : Z) (k n : nat).
Context (Hok : tables_ok roots m a) (Hr : r ∈ roots) (Hk : (k + S n = 3)%nat) (HT : reach 3 m r (path 3 V k) = Some T).

Lemma path_here_length : (length (path 3 V k) + S n = 3)%nat.
Proof. rewrite path_length by lia. lia. Qed.

Lemma kept_step flags :
  is_present (entry m T (idx (S n) V)) = true -> leaf_at (S n) (entry m T (idx (S n) V)) = false ->
  steps_to roots m a r V (S k)
    (Done (Some (phys_addr (entry m T (idx (S n) V))), (keep_table m T (idx (S n) V) (entry m T (idx (S n) V)) flags, a))).
Proof.
  intros Hp Hl. assert (child (S n) (entry m T (idx (S n) V)) = Some (phys_addr (entry m T (idx (S n) V)))) as Hc by (unfold child; by rewrite Hp, Hl).
  destruct (keep_step roots m a r (path 3 V k) T (idx (S n) V) n Hok Hr (path_path_ok _ _ _) (idx_slot _ _) HT path_here_length flags _ Hc)
    as (Hok' & Hr' & Hda & Hres).
  right. eexists _, _, _. split; [done|]. split; [done|]. rewrite (path_next V k n Hk). split; [done|]. split; [done|]. split; [done|]. by left.
Qed.

Lemma new_table_step flags :
  is_present (entry m T (idx (S n) V)) = false ->
  steps_to roots m a r V (S k) (new_table m a T (idx (S n) V) flags).
Proof.
  intros Hp. unfold new_table. destruct (alloc_frame_fresh a ltac:(apply Hok)) as [[-> Hnone]|(f & a' & -> & Hf & Ha' & Hfree)]; [by left|].
  cbn [mbind exec_bind]. right. eexists f, _, a'. split; [done|]. pose proof (free_frame_frame a f ltac:(apply Hok) Hf) as Hff.
  assert (forall j, slot j -> is_present (entry (zero_table m f) f j) = false) as Hz.
  { intros j Hj. rewrite entry_zero, decide_True by done. done. }
  destruct (link_step roots m a r (path 3 V k) T (idx (S n) V) n Hok Hr (path_path_ok _ _ _) (idx_slot _ _) HT path_here_length
    (zero_table m f) a' f (intermediate_flags flags)) as (Hok' & Hr' & _ & Hda & Hres); [exact Hf|exact Ha'|exact Hfree| | | | | |].
  - apply words_zero_table, Hok.
  - intros t j Ht Hj Hne. by rewrite entry_zero, decide_False by done.
  - intros j Hj. unfold child. by rewrite Hz.
  - apply intermediate_table_flags.
  - unfold child. by rewrite Hp.
  - split; [done|]. rewrite (path_next V k n Hk). split; [done|]. split; [intros g; apply Hfree|]. split; [done|]. left. intros r' v Hr1. apply Hres; [done|].
    intros _ _ Hv. cbn [resolve]. rewrite Hv, Hp. cbn [negb]. destruct n; cbn [resolve]; by rewrite Hz by apply idx_slot.
Qed.
End steps.

Section descend.
Context (roots : list Z) (m : memory) (a : BitmapFrameAllocator) (r V T : Z).
Context (Hok : tables_ok roots m a) (Hr : r ∈ roots).

Lemma pml4_step flags : r = T -> steps_to roots m a r V 1 (pml4_to_pdpt m a T (idx 3 V) flags).
Proof.
  intros <-. unfold pml4_to_pdpt. destruct (is_present (entry m r (idx 3 V))) eqn:Hp.
  - by apply (kept_step roots m a r V r 0 2).
  - by apply (new_table_step roots m a r V r 0 2).
Qed.

Lemma pdpt_step flags : reach 3 m r (path 3 V 1) = Some T -> steps_to roots m a r V 2 (pdpt_to_pd m a T (idx 2 V) flags).
Proof.
  intros HT. unfold pdpt_to_pd. destruct (is_present (entry m T (idx 2 V))) eqn:Hp; [|by apply (new_table_step roots m a r V T 1 1)].
  destruct (has (entry m T (idx 2 V)) PTE_HUGE) eqn:Hh; [|by apply (kept_step roots m a r V T 1 1)].
  unfold split_1g_pdpte. fold (child_flags_1g (entry m T (idx 2 V))). set (e := entry m T (idx 2 V)) in *.
  destruct (alloc_frame_fresh a ltac:(apply Hok)) as [[-> Hnone]|(f & a' & -> & Hf & Ha' & Hfree)]; [by left|].
  cbn [mbind exec_bind]. right. eexists f, _, a'. split; [done|]. pose proof (free_frame_frame a f ltac:(apply Hok) Hf) as Hff.
  assert (0 <= e) as He by apply Hok. set (m1 := fill_pd _ _ _ _ _ _).
  assert (forall v, entry m1 f (idx 1 v) = set_frame (Z.land e HUGE_1G_FRAME_MASK + idx 1 v * 0x200000) (child_flags_1g e)) as Hm1.
  { intros v. unfold m1. pose proof (idx_slot 1 v) as Hs. rewrite entry_fill_pd by (assumption || lia). unfold slot in Hs. by rewrite decide_True by lia. }
  assert (forall j, slot j -> is_present (entry m1 f j) = true /\ has (entry m1 f j) PTE_HUGE = true) as Hhuge.
  { intros j Hj. unfold m1. rewrite entry_fill_pd by (assumption || lia). unfold slot in Hj. rewrite decide_True by lia.
    unfold is_present. rewrite !has_set_frame by done. unfold child_flags_1g. rewrite !has_lor by done. cbn. by rewrite !orb_true_r. }
  destruct (link_step roots m a r (path 3 V 1) T (idx 2 V) 1 Hok Hr (path_path_ok _ _ _) (idx_slot _ _) HT eq_refl
    m1 a' f (split_flags e flags)) as (Hok' & Hr' & _ & Hda & Hres); [exact Hf|exact Ha'|exact Hfree| | | | | |].
  - apply fill_pd_words; [apply words_zero_table, Hok|apply Z.land_nonneg; by left|by apply child_flags_nonneg|lia].
  - intros t j Ht Hj Hne. unfold m1. rewrite entry_fill_pd by (assumption || lia). rewrite decide_False by naive_solver.
    by rewrite entry_zero, decide_False by done.
  - intros j Hj. destruct (Hhuge j Hj) as [Hpj Hhj]. unfold child. cbn [leaf_at]. by rewrite Hpj, Hhj.
  - apply split_table_flags.
  - unfold child. cbn [leaf_at]. fold e. by rewrite Hp, Hh.
  - split; [done|]. split; [done|]. split; [intros g; apply Hfree|]. split; [done|]. left. intros r' v Hr1. apply Hres; [done|].
    intros _ _ Hv. destruct (slice_1g e v He) as (Hsp & Hsh & Hsl & Hsw). cbn [resolve leaf_at]. rewrite Hv. fold e. rewrite Hp, Hh, Hm1, Hsp, Hsh, Hsl, Hsw. done.
Qed.

Lemma path_2_4 v : path 3 v 2 = path 3 V 2 -> idx 1 v = idx 1 V -> idx 0 v = idx 0 V -> path 3 v 4 = path 3 V 4.
Proof. cbn. intros [= -> ->] -> ->. done. Qed.

Lemma pd_step flags : reach 3 m r (path 3 V 2) = Some T -> steps_to roots m a r V 3 (pd_to_pt m a T (idx 1 V) (idx 0 V) flags).
Proof.
  intros HT. unfold pd_to_pt. destruct (is_present (entry m T (idx 1 V))) eqn:Hp; [|by apply (new_table_step roots m a r V T 2 0)].
  destruct (has (entry m T (idx 1 V)) PTE_HUGE) eqn:Hh; [|by apply (kept_step roots m a r V T 2 0)].
  unfold split_2m_pde. fold (child_flags_2m (entry m T (idx 1 V))). set (e := entry m T (idx 1 V)) in *.
  destruct (alloc_frame_fresh a ltac:(apply Hok)) as [[-> Hnone]|(f & a' & -> & Hf & Ha' & Hfree)]; [by left|].
  cbn [mbind exec_bind]. right. eexists f, _, a'. split; [done|]. pose proof (free_frame_frame a f ltac:(apply Hok) Hf) as Hff.
  assert (0 <= e) as He by apply Hok. set (m1 := fill_pt _ _ _ _ _ _ _).
  assert (forall v, idx 0 v <> idx 0 V -> entry m1 f (idx 0 v) = set_frame (Z.land e HUGE_2M_FRAME_MASK + idx 0 v * 0x1000) (child_flags_2m e)) as Hm1.
  { intros v Hne. unfold m1. pose proof (idx_slot 0 v) as Hs. rewrite entry_fill_pt by (assumption || lia). unfold slot in Hs. by rewrite decide_True by lia. }
  destruct (link_step roots m a r (path 3 V 2) T (idx 1 V) 0 Hok Hr (path_path_ok _ _ _) (idx_slot _ _) HT eq_refl
    m1 a' f (split_flags e flags)) as (Hok' & Hr' & Hfe & Hda & Hres); [exact Hf|exact Ha'|exact Hfree| | | | | |].
  - apply fill_pt_words; [apply words_zero_table, Hok|apply Z.land_nonneg; by left|by apply child_flags_nonneg|lia].
  - intros t j Ht Hj Hne. unfold m1. rewrite entry_fill_pt by (assumption || lia). rewrite decide_False by naive_solver.
    by rewrite entry_zero, decide_False by done.
  - intros j Hj. unfold child. cbn [leaf_at]. by rewrite andb_false_r.
  - apply split_table_flags.
  - unfold child. cbn [leaf_at]. fold e. by rewrite Hp, Hh.
  - split; [done|]. split; [done|]. split; [intros g; apply Hfree|]. split; [done|]. right. split; [done|]. split.
    + pose proof (idx_slot 0 V) as HsV. rewrite Hfe by exact HsV. unfold m1. rewrite entry_fill_pt by (assumption || lia).
      rewrite decide_False by naive_solver. rewrite entry_zero by assumption. by rewrite decide_True.
    + intros r' v Hr1 Hel. apply Hres; [done|]. intros Hr2 Hpv Hv. change (length (path 3 V 2)) with 2%nat in Hpv.
      assert (idx 0 v <> idx 0 V) as Hne.
      { intros H0. destruct Hel as [Hel|[Hne Hu]]; [by apply Hel, path_2_4|].
        destruct (ok_unique _ _ _ Hok r r' _ _ T Hr Hr1 (path_path_ok 3 V 2) (path_path_ok 3 V 2) HT Hr2) as [_ [E|Hkp]]; [exact (Hne (eq_sym E))|].
        clear - Hkp Hu. cbn [path kernel_path] in Hkp. lia. }
      destruct (slice_2m e v He) as (Hsp & Hsl & Hsw). cbn [resolve leaf_at]. rewrite Hv. fold e. rewrite Hp, Hh, (Hm1 v Hne), Hsp, Hsl, Hsw. done.
Qed.
End descend.

(** ** Mapping a page *)

Lemma reach_prefix n m t q q' : reach n m t q = None -> reach n m t (q ++ q') = None.
Proof.
  revert n t. induction q as [|j q IH]; intros n t; [done|]. destruct n as [|n]; [done|]. cbn [reach app].
  destruct (child (S n) (entry m t j)) as [t1|]; [|done]. cbn. apply IH.
Qed.
Lemma resolve_path roots m a r v k t :
  tables_ok roots m a -> r ∈ roots -> (k <= 3)%nat -> reach 3 m r (path 3 v k) = Some t -> resolve 3 m r v = resolve (3 - k) m t v.
Proof.
  intros Hok Hr. revert t. induction k as [|k IH]; intros t Hk Ht; [by injection Ht as ->|].
  assert (path 3 v (S k) = path 3 v k ++ [idx (3 - k) v]) as Hnext.
  { pose proof (path_next v k (2 - k) ltac:(lia)) as H. replace (S (2 - k)) with (3 - k)%nat in H by lia. done. }
  rewrite Hnext in Ht. destruct (reach 3 m r (path 3 v k)) as [t1|] eqn:H1.
  - rewrite (IH t1 ltac:(lia) eq_refl). rewrite (reach_app m 3 r _ _ t1 H1), path_length in Ht by lia.
    assert (3 - k = S (3 - S k))%nat as E by lia. rewrite E in *. cbn [reach] in Ht.
    destruct (child (S (3 - S k)) (entry m t1 (idx (S (3 - S k)) v))) as [t2|] eqn:Hc; [|done]. injection Ht as ->.
    rewrite (resolve_child _ _ _ _ _ Hc). rewrite (ok_writable _ _ _ Hok r (path 3 v k) t1 (idx (S (3 - S k)) v) t Hr (path_path_ok _ _ _) (idx_slot _ _) H1).
    + by destruct (resolve (3 - S k) m t v) as [[? ?]|].
    + rewrite path_length by lia. by rewrite E.
  - by rewrite (reach_prefix _ _ _ _ _ H1) in Ht.
Qed.

(** The leaf entry changes: only its page, in the spaces that see its table, changes. *)
Lemma leaf_step roots m a r V T e :
  tables_ok roots m a -> r ∈ roots -> reach 3 m r (path 3 V 3) = Some T -> 0 <= e ->
  let m' := set_entry m T (idx 0 V) e in
  tables_ok roots m' a /\ reach 3 m' r (path 3 V 3) = Some T /\ (is_present e = true -> keeps_data roots m a m' a) /\
  (forall r' v, r' ∈ roots -> elsewhere r V r' v -> resolve 3 m' r' v = resolve 3 m r' v).
Proof.
  intros Hok Hr HT He m'. pose proof (path_path_ok 3 V 3) as Hp. pose proof (idx_slot 0 V) as Hi.
  assert (frame T) as HTf by (eapply reach_frame; [exact Hok|eapply root_frame; [exact Hok|exact Hr]|exact HT]).
  assert (forall t j, frame t -> slot j -> t <> T -> t <> -1 -> entry m' t j = entry m t j) as Hsame.
  { intros t j Ht Hj Hne _. apply entry_set_other; auto. }
  assert (forall e, child 0 e = None) as Hc0 by (intros e'; unfold child; cbn; by rewrite andb_false_r).
  assert (forall j, slot j -> child 0 (entry m' T j) = child 0 (entry m T j)) as Hch by (intros j _; by rewrite !Hc0).
  assert (forall j t1, slot j -> child 0 (entry m' T j) = Some t1 -> has (entry m' T j) PTE_WRITABLE = true) as Hw.
  { intros j t1 _. by rewrite Hc0. }
  assert (words m') as Hwd by (apply words_write; [apply Hok|done]).
  assert (alloc_ok a) as Ha by apply Hok.
  assert (forall g, is_free a g -> is_free a g /\ g <> -1) as Hfree.
  { intros g Hg. split; [done|]. pose proof (free_frame_frame a g Ha Hg) as [? _]. lia. }
  assert (length (path 3 V 3) + 0 = 3)%nat as HL by done.
  split; [|split; [|split]].
  - eapply update_tables_ok with (m := m) (a := a) (r := r) (p := path 3 V 3) (T := T) (i := 0) (f := -1) (L := 0%nat); eauto.
  - eapply update_mono with (m := m) (a := a) (r := r) (p := path 3 V 3) (T := T) (i := 0) (f := -1) (L := 0%nat); eauto.
  - intros Hpe. eapply update_data with (r := r) (p := path 3 V 3) (T := T) (i := 0) (f := -1) (L := 0%nat); eauto. intros _ j Hj Hpj.
    destruct (decide (j = idx 0 V)) as [->|Hne]; [unfold m'; by rewrite entry_set_same|]. unfold m'. by rewrite entry_set_other by auto.
  - intros r' v Hr' Hel. eapply update_resolve with (a := a) (i := 0) (r := r) (p := path 3 V 3) (T := T) (f := -1) (L := 0%nat); eauto.
    intros Hr2 Hpv. change (length (path 3 V 3)) with 3%nat in Hpv. apply resolve_no_child; [|apply Hc0].
    apply entry_set_other; auto using idx_slot. right. intros Hij. destruct Hel as [Hel|[Hne Hu]].
    + apply Hel. cbn [path] in Hpv |- *. injection Hpv as -> -> ->. by rewrite Hij.
    + destruct (ok_unique _ _ _ Hok r r' _ _ T Hr Hr' Hp Hp HT Hr2) as [_ [E|Hkp]]; [by apply Hne|]. cbn [path kernel_path] in Hkp. lia.
Qed.

(** The page of an address, as far as the tables see it: bits 12 to 47. *)
Definition page_of (v : Z) : Z := v / 4096 mod 2 ^ 36.

Lemma idx_div n v : idx n v = v / 4096 / 2 ^ (9 * Z.of_nat n) mod 512.
Proof.
  unfold idx, shift. change 0x1FF with (Z.ones 9). rewrite Z.land_ones, Z.shiftr_div_pow2 by lia.
  change 4096 with (2 ^ 12). rewrite Z.div_div by lia. by rewrite <- Z.pow_add_r by lia.
Qed.
Lemma page_digits v : page_of v = idx 0 v + 512 * (idx 1 v + 512 * (idx 2 v + 512 * idx 3 v)).
Proof.
  rewrite !idx_div. unfold page_of. set (x := v / 4096). change (2 ^ 36) with (512 * (512 * (512 * 512))).
  rewrite !Z.rem_mul_r by lia. rewrite !Z.div_div by lia. change (2 ^ (9 * Z.of_nat 0)) with 1. rewrite Z.div_1_r. done.
Qed.
Lemma path_page v V : path 3 v 4 = path 3 V 4 <-> page_of v = page_of V.
Proof.
  rewrite !page_digits. cbn [path]. split; [intros [= -> -> -> ->]; done|]. intros He.
  pose proof (idx_slot 0 v). pose proof (idx_slot 1 v). pose proof (idx_slot 2 v). pose proof (idx_slot 3 v).
  pose proof (idx_slot 0 V). pose proof (idx_slot 1 V). pose proof (idx_slot 2 V). pose proof (idx_slot 3 V). unfold slot in *.
  assert (idx 0 v = idx 0 V /\ idx 1 v = idx 1 V /\ idx 2 v = idx 2 V /\ idx 3 v = idx 3 V) as (-> & -> & -> & ->) by lia. done.
Qed.

Record leaf_ok (phys flags : Z) : Prop := mkLeaf { lo_frame : frame phys; lo_nonneg : 0 <= flags; lo_flags : Z.land flags FRAME_MASK = 0 }.

Lemma leaf_entry phys flags v :
  leaf_ok phys flags ->
  let e := set_frame phys (Z.lor flags PTE_PRESENT) in
  0 <= e /\ is_present e = true /\ leaf_addr 0 e v = phys + Z.land v 0xFFF /\ has e PTE_WRITABLE = has flags PTE_WRITABLE.
Proof.
  intros [Hp Hn Hf] e. assert (0 <= Z.lor flags PTE_PRESENT) by (apply Z.lor_nonneg; done). subst e. split; [|split; [|split]].
  - apply set_frame_nonneg; [apply Hp|done].
  - unfold is_present. rewrite has_set_frame, has_lor by done. by rewrite orb_true_r.
  - unfold leaf_addr. change (Z.ones (shift 0)) with 0xFFF. f_equal. change (mask_from (shift 0)) with FRAME_MASK.
    rewrite land_set_frame; [by apply frame_land|done|]. rewrite Z.land_lor_distr_l, Hf. done.
  - rewrite has_set_frame, has_lor by done. change (has PTE_PRESENT PTE_WRITABLE) with false. by rewrite orb_false_r.
Qed.

(** What [map_4k_into] does, on every branch. *)
Record mapped (roots : list Z) (r V phys flags : Z) (m : memory) (a : BitmapFrameAllocator) (ok : bool) (m' : memory) (a' : BitmapFrameAllocator) : Prop := mkMapped {
  mp_tables : tables_ok roots m' a';
  mp_free : forall g, is_free a' g -> is_free a g;
  mp_data : keeps_data roots m a m' a';
  mp_elsewhere : forall r' v, r' ∈ roots -> elsewhere r V r' v -> resolve 3 m' r' v = resolve 3 m r' v;
  mp_true : ok = true -> forall v, page_of v = page_of V ->
    resolve 3 m' r v = Some (phys + Z.land v 0xFFF, has flags PTE_WRITABLE);
  mp_small : ok = true -> small_page m' r V = true;
  mp_false : ok = false -> forall r' v, r' ∈ roots -> resolve 3 m' r' v = resolve 3 m r' v;
  mp_why : ok = false -> resolve 3 m r V <> None \/ forall f, ~ is_free a' f;
}.

Lemma mapped_none roots r V phys flags m a m0 a0 :
  tables_ok roots m a -> keeps_data roots m0 a0 m a -> (forall g, is_free a g -> is_free a0 g) -> (forall f, ~ is_free a f) ->
  (forall r' v, r' ∈ roots -> resolve 3 m r' v = resolve 3 m0 r' v) -> mapped roots r V phys flags m0 a0 false m a.
Proof. intros Hok Hda Hsub Hnone Hres. split; auto; done. Qed.

Lemma map_4k_spec roots m a r V phys flags :
  tables_ok roots m a -> r ∈ roots -> leaf_ok phys flags ->
  exists ok m' a', map_4k_into m a r V phys flags = Done (ok, (m', a')) /\ mapped roots r V phys flags m a ok m' a'.
Proof.
  intros Hok Hr Hleaf. unfold map_4k_into.
  change (virt_index V Pml4) with (idx 3 V). change (virt_index V Pdpt) with (idx 2 V).
  change (virt_index V Pd) with (idx 1 V). change (virt_index V Pt) with (idx 0 V).
  destruct (pml4_step roots m a r V r Hok Hr flags eq_refl) as [[-> Hn]|(t1 & m1 & a1 & -> & Hok1 & Hr1 & Hf1 & Hd1 & Hres1)]; cbn [mbind exec_bind].
  { exists false, m, a. split; [done|]. apply mapped_none; auto using keeps_data_refl. }
  destruct Hres1 as [Hres1|[? _]]; [|done].
  destruct (pdpt_step roots m1 a1 r V t1 Hok1 Hr flags Hr1) as [[-> Hn]|(t2 & m2 & a2 & -> & Hok2 & Hr2 & Hf2 & Hd2 & Hres2)]; cbn [mbind exec_bind].
  { exists false, m1, a1. split; [done|]. by apply mapped_none. }
  destruct Hres2 as [Hres2|[? _]]; [|done].
  destruct (pd_step roots m2 a2 r V t2 Hok2 Hr flags Hr2) as [[-> Hn]|(t3 & m3 & a3 & -> & Hok3 & Hr3 & Hf3 & Hd3 & Hres3)]; cbn [mbind exec_bind].
  { exists false, m2, a2. split; [done|]. apply mapped_none; eauto using keeps_data_trans. intros r' v Hr'. by rewrite Hres2, Hres1. }
  assert (forall r' v, r' ∈ roots -> resolve 3 m2 r' v = resolve 3 m r' v) as Hres by (intros r' v Hr'; by rewrite Hres2, Hres1).
  destruct (is_present (entry m3 t3 (idx 0 V))) eqn:Hp.
  - exists false, m3, a3. split; [done|]. destruct Hres3 as [Hres3|(_ & Hz & _)]; [|by rewrite Hz in Hp].
    split; [done|auto|eauto using keeps_data_trans|intros; by rewrite Hres3, Hres|done|done|intros; by rewrite Hres3, Hres|]. intros _. left.
    rewrite <- Hres, <- Hres3 by done. rewrite (resolve_path _ _ _ _ _ 3 t3 Hok3 Hr ltac:(lia) Hr3). cbn [Nat.sub resolve]. by rewrite Hp.
  - destruct (leaf_entry phys flags 0 Hleaf) as (He & Hpe0 & _). set (e := set_frame phys _) in *.
    destruct (leaf_step roots m3 a3 r V t3 e Hok3 Hr Hr3 He) as (Hok4 & Hr4 & Hd4 & Hres4).
    exists true, (set_entry m3 t3 (idx 0 V) e), a3. split; [done|]. split; try done; [auto|specialize (Hd4 Hpe0); eauto using keeps_data_trans| | |].
    + intros r' v Hr' Hel. rewrite Hres4 by done. destruct Hres3 as [Hres3|(_ & _ & Hres3)]; by rewrite Hres3, Hres.
    + intros _ v Hv. apply path_page in Hv. assert (path 3 v 3 = path 3 V 3 /\ idx 0 v = idx 0 V) as [Hp3 Hi0].
      { cbn [path] in Hv |- *. by injection Hv as -> -> -> ->. }
      rewrite <- Hp3 in Hr4. rewrite (resolve_path _ _ _ _ _ 3 t3 Hok4 Hr ltac:(lia) Hr4). cbn [Nat.sub resolve].
      rewrite Hi0, entry_set_same. destruct (leaf_entry phys flags v Hleaf) as (_ & Hpe & Hla & Hwe). fold e in Hpe, Hla, Hwe.
      rewrite Hpe. cbn [negb leaf_at]. by rewrite Hla, Hwe.
    + intros _. unfold small_page. rewrite Hr4. by rewrite entry_set_same.
Qed.

(** ** A new address space *)

Lemma copy_entries_words m dst src i n : words m -> words (copy_entries m dst src i n).
Proof. revert m i. induction n as [|n IH]; intros m i Hm; [done|]. apply IH. apply words_write; [done|apply Hm]. Qed.

Lemma entry_copy m dst src i n t j :
  frame dst -> frame src -> dst <> src -> frame t -> slot j -> 0 <= i -> i + Z.of_nat n <= 512 ->
  entry (copy_entries m dst src i n) t j =
    if decide (t = dst /\ i <= j < i + Z.of_nat n) then entry m src j else entry m t j.
Proof.
  intros Hd Hs Hds Ht Hj. revert m i. induction n as [|n IH]; intros m i Hi Hn.
  - cbn [copy_entries]. by rewrite decide_False by lia.
  - cbn [copy_entries]. rewrite IH by lia.
    assert (slot i) as Hsi by (unfold slot; lia).
    destruct (decide (t = dst /\ i + 1 <= j < i + 1 + Z.of_nat n)).
    + rewrite decide_True by lia. apply entry_set_other; auto.
    + destruct (decide (t = dst /\ j = i)) as [[-> ->]|].
      * rewrite decide_True by lia. apply entry_set_same.
      * rewrite decide_False by lia. apply entry_set_other; auto. lia.
Qed.

(** A change outside the tables is not seen by any walk. *)
Section untouched.
Context (roots : list Z) (m m' : memory) (a : BitmapFrameAllocator) (f : Z).
Context (Hok : tables_ok roots m a) (Hf : forall r p, r ∈ roots -> path_ok p -> reach 3 m r p <> Some f).
Context (Hsame : forall t j, frame t -> slot j -> t <> f -> entry m' t j = entry m t j).

Lemma untouched_avoids r : r ∈ roots -> avoids m f 3 r.
Proof. intros Hr q Hq. by apply Hf. Qed.
Lemma untouched_level n t : frame t -> level_of m (-1) 0 n t.
Proof. intros Ht q _ Hreach. apply (reach_frame roots m a) in Hreach as [? _]; [lia|done|done]. Qed.

Lemma untouched_reach n t q : frame t -> avoids m f n t -> path_ok q -> reach n m' t q = reach n m t q.
Proof.
  intros Ht Ha Hq. assert (forall e, child 0 e = None) as Hc0 by (intros e'; unfold child; cbn; by rewrite andb_false_r).
  assert (forall j, slot j -> child 0 (entry m' (-1) j) = child 0 (entry m (-1) j) \/
     j = 0 /\ child 0 (entry m (-1) j) = None /\ child 0 (entry m' (-1) j) = Some f /\
     forall k, slot k -> child (0 - 1) (entry m' f k) = None) as HT by (intros j _; left; by rewrite !Hc0).
  assert (forall t j, frame t -> slot j -> t <> -1 -> t <> f -> entry m' t j = entry m t j) as Hs by auto.
  pose proof (ok_words _ _ _ Hok) as Hw. pose proof (untouched_level n t Ht) as Hl.
  apply option_eq. intros x. split; intros Hx.
  - destruct (reach_inv_new m m' (-1) 0 f 0 Hw Hs HT n t q x Ht Hl Ha Hq Hx) as [?|(p & _ & Hp & _)]; [done|].
    apply (reach_frame roots m a) in Hp as [? _]; [lia|done|done].
  - exact (reach_mono m m' (-1) 0 f 0 Hw Hs HT n t q x Ht Hl Ha Hq Hx).
Qed.
Lemma untouched_resolve n t v : frame t -> avoids m f n t -> resolve n m' t v = resolve n m t v.
Proof.
  intros Ht Ha. apply (resolve_update n m m' t (-1) v).
  - intros k t' Hreach _. apply Hsame; [by eapply reach_frame|apply idx_slot|]. intros ->. by apply (Ha _ (path_path_ok n v k)).
  - intros k _ Hreach. apply (reach_frame roots m a) in Hreach as [? _]; [lia|done|done].
Qed.
Lemma untouched_root_reach r q : r ∈ roots -> path_ok q -> reach 3 m' r q = reach 3 m r q.
Proof. intros Hr Hq. apply untouched_reach; [by eapply root_frame|by apply untouched_avoids|done]. Qed.
Lemma untouched_root_resolve r v : r ∈ roots -> resolve 3 m' r v = resolve 3 m r v.
Proof. intros Hr. apply untouched_resolve; [by eapply root_frame|by apply untouched_avoids]. Qed.
Lemma untouched_tables_ok : words m' -> tables_ok roots m' a.
Proof.
  intros Hw. split; [done|apply Hok|apply Hok| | |].
  - intros r1 r2 p1 p2 t H1 H2 Hp1 Hp2. rewrite !untouched_root_reach by done. by apply Hok.
  - intros r p g Hr Hp Hg. rewrite untouched_root_reach by done. by apply Hok.
  - intros r p t j t' Hr Hp Hj. rewrite untouched_root_reach by done. intros Hreach.
    rewrite Hsame; [by eapply Hok|eapply reach_frame; [exact Hok|by eapply root_frame|exact Hreach]|done|].
    intros ->. by apply (Hf r p).
Qed.
Lemma untouched_data t : t <> f -> data roots m a t -> data roots m' a t /\ forall j, slot j -> entry m' t j = entry m t j.
Proof.
  intros Hne (Ht & Hnr & Hnf). split; [|intros j Hj; by apply Hsame]. split; [done|]. split; [|done].
  intros r p Hr Hp. rewrite untouched_root_reach by done. by apply Hnr.
Qed.
End untouched.

Record cloned (roots : list Z) (boot : Z) (m : memory) (a : BitmapFrameAllocator) (f : Z) (m' : memory) (a' : BitmapFrameAllocator) : Prop := mkCloned {
  cl_tables : tables_ok (f :: roots) m' a';
  cl_new : is_free a f;
  cl_free : forall g, is_free a' g -> is_free a g;
  cl_old : forall r v, r ∈ roots -> resolve 3 m' r v = resolve 3 m r v;
  cl_kernel : forall v, KERNEL_PML4_START <= idx 3 v -> resolve 3 m' f v = resolve 3 m boot v;
  cl_user : forall v, idx 3 v < KERNEL_PML4_START -> resolve 3 m' f v = None;
}.

Section clone.
Context (roots : list Z) (m m' : memory) (a a' : BitmapFrameAllocator) (boot f : Z).
Context (Hok : tables_ok roots m a) (Hboot : boot ∈ roots) (Hf : is_free a f).
Context (Ha' : alloc_ok a') (Hfree : forall g, is_free a' g <-> is_free a g /\ g <> f) (Hwords : words m').
Context (Hsame : forall t j, frame t -> slot j -> t <> f -> entry m' t j = entry m t j).
Context (Hnew : forall j, slot j -> entry m' f j = if decide (KERNEL_PML4_START <= j) then entry m boot j else 0).

Lemma clone_fresh r q : r ∈ roots -> path_ok q -> reach 3 m r q <> Some f.
Proof. intros Hr Hq. by apply (ok_fresh _ _ _ Hok r q f). Qed.
#[local] Hint Resolve clone_fresh : core.

Lemma clone_child j t1 : slot j -> child 3 (entry m boot j) = Some t1 -> frame t1 /\ avoids m f 2 t1.
Proof.
  intros Hj Hc. split; [eapply child_frame; [apply Hok|exact Hc]|].
  eapply avoids_child; [eapply untouched_avoids; eauto|exact Hj|exact Hc].
Qed.
Lemma clone_reach p : path_ok p -> p <> [] -> reach 3 m' f p = if decide (kernel_path p) then reach 3 m boot p else None.
Proof.
  intros Hp Hne. destruct p as [|j q]; [done|]. inversion Hp as [|? ? Hj Hq]; subst. cbn [reach kernel_path]. rewrite Hnew by done.
  unfold kernel_path_dec. destruct (decide (KERNEL_PML4_START <= j)); destruct (decide (kernel_path (j :: q))) as [Hk|Hk]; cbn [kernel_path] in Hk; try done.
  destruct (child 3 (entry m boot j)) as [t1|] eqn:Hc; [|done]. cbn [mbind option_bind].
  destruct (clone_child j t1 Hj Hc). by eapply untouched_reach.
Qed.
Lemma clone_walk r p t :
  r ∈ f :: roots -> path_ok p -> reach 3 m' r p = Some t ->
  p = [] /\ r = f /\ t = f \/ exists r0, r0 ∈ roots /\ reach 3 m r0 p = Some t /\ (r0 = r \/ r0 = boot /\ r = f /\ kernel_path p).
Proof.
  intros [->|Hr]%elem_of_cons Hp Ht.
  - destruct p as [|j q]; [left; by injection Ht as <-|right]. rewrite clone_reach in Ht by done. case_decide; [|done]. exists boot. tauto.
  - right. exists r. split; [done|]. split; [|by left]. rewrite <- Ht. symmetry.
    eapply untouched_reach; [exact Hok|exact Hsame|by eapply root_frame|eapply untouched_avoids; eauto|exact Hp].
Qed.

Lemma clone_tables_ok : tables_ok (f :: roots) m' a'.
Proof.
  pose proof (free_frame_frame a f ltac:(apply Hok) Hf) as Hff.
  split; [done|done|constructor; [done|apply Hok]| | |].
  - intros r1 r2 p1 p2 t H1 H2 Hp1 Hp2 Ht1 Ht2.
    destruct (clone_walk _ _ _ H1 Hp1 Ht1) as [(-> & -> & ->)|(s1 & Hs1 & Hw1 & Hk1)];
      destruct (clone_walk _ _ _ H2 Hp2 Ht2) as [(-> & -> & E)|(s2 & Hs2 & Hw2 & Hk2)].
    + auto.
    + by destruct (ok_fresh _ _ _ Hok s2 p2 f).
    + subst t. by destruct (ok_fresh _ _ _ Hok s1 p1 f).
    + destruct (ok_unique _ _ _ Hok s1 s2 p1 p2 t) as [<- Hk]; try done. split; [done|]. destruct Hk as [<-|?]; [|by right].
      destruct Hk1 as [->|(-> & -> & ?)], Hk2 as [E|(E & E' & ?)]; subst; auto.
  - intros r p g Hr Hp Hg Hreach. apply Hfree in Hg as [Hg Hne].
    destruct (clone_walk _ _ _ Hr Hp Hreach) as [(_ & _ & ->)|(s & Hs & Hw & _)]; [done|]. by apply (ok_fresh _ _ _ Hok s p g).
  - intros r p t j t' Hr Hp Hj Hreach Hc.
    destruct (clone_walk _ _ _ Hr Hp Hreach) as [(-> & -> & ->)|(s & Hs & Hw & _)].
    + rewrite Hnew in Hc |- * by done. case_decide; [|done]. by eapply (ok_writable _ _ _ Hok boot []).
    + assert (t <> f) by (intros ->; by apply (ok_fresh _ _ _ Hok s p f)).
      assert (frame t) by (eapply reach_frame; [exact Hok|by eapply root_frame|exact Hw]).
      rewrite Hsame in Hc |- * by done. by eapply (ok_writable _ _ _ Hok s p).
Qed.

Lemma clone_cloned : cloned roots boot m a f m' a'.
Proof.
  split; [apply clone_tables_ok|done|intros g; apply Hfree| | |].
  - intros r v Hr. eapply untouched_resolve; [exact Hok|exact Hsame|by eapply root_frame|eapply untouched_avoids; eauto].
  - intros v Hv. assert (entry m' f (idx 3 v) = entry m boot (idx 3 v)) as He by (rewrite Hnew, decide_True by (done || apply idx_slot); done).
    destruct (child 3 (entry m boot (idx 3 v))) as [t1|] eqn:Hc; [|by apply resolve_no_child].
    rewrite (resolve_child 2 m boot v t1 Hc), (resolve_child 2 m' f v t1) by (by rewrite He). rewrite He.
    destruct (clone_child _ t1 (idx_slot 3 v) Hc). rewrite (untouched_resolve roots m m' a f Hok Hsame 2 t1 v); done.
  - intros v Hv. cbn [resolve]. rewrite Hnew, decide_False by (apply idx_slot || lia). done.
Qed.
End clone.

Lemma new_with_kernel_half_spec roots m a boot :
  tables_ok roots m a -> boot ∈ roots ->
  (new_with_kernel_half m a boot = Done (None, (m, a)) /\ forall f, ~ is_free a f) \/
  exists f m' a', new_with_kernel_half m a boot = Done (Some f, (m', a')) /\ cloned roots boot m a f m' a'.
Proof.
  intros Hok Hb. unfold new_with_kernel_half.
  destruct (alloc_frame_fresh a ltac:(apply Hok)) as [[-> Hnone]|(f & a' & -> & Hf & Ha' & Hfree)]; [by left|]. right.
  cbn [mbind exec_bind]. eexists f, _, a'. split; [reflexivity|].
  pose proof (free_frame_frame a f ltac:(apply Hok) Hf) as Hff. assert (frame boot) as Hfb by (by eapply root_frame).
  assert (f <> boot) as Hne by (intros ->; by apply (ok_fresh _ _ _ Hok boot [] boot Hb (List.Forall_nil _) Hf)).
  apply clone_cloned; [exact Hok|exact Hb|exact Hf|exact Ha'|exact Hfree| | |].
  - apply copy_entries_words, words_zero_table, Hok.
  - intros t j Ht Hj Htf. rewrite entry_copy by (assumption || done). rewrite decide_False by (intros [? _]; contradiction).
    by rewrite entry_zero, decide_False by assumption.
  - intros j Hj. rewrite entry_copy by (assumption || done). pose proof Hj as Hjs. unfold slot in Hjs.
    destruct (decide (KERNEL_PML4_START <= j)) as [Hk|Hk]; unfold KERNEL_PML4_START in Hk.
    + rewrite decide_True by (unfold KERNEL_PML4_START, PML4_ENTRIES; lia). rewrite entry_zero by assumption. rewrite decide_False by (intros E; exact (Hne (eq_sym E))). done.
    + rewrite decide_False by (unfold KERNEL_PML4_START, PML4_ENTRIES; lia). rewrite entry_zero by assumption. by rewrite decide_True.
Qed.

(** ** Pages that are mapped already *)

Lemma small_page_tables m r V :
  small_page m r V = true ->
  exists t2 t1 t0, child 3 (entry m r (idx 3 V)) = Some t2 /\ child 2 (entry m t2 (idx 2 V)) = Some t1 /\
    child 1 (entry m t1 (idx 1 V)) = Some t0 /\ is_present (entry m t0 (idx 0 V)) = true.
Proof.
  unfold small_page. cbn [path reach]. destruct (child 3 (entry m r (idx 3 V))) as [t2|] eqn:H3; [|done]. cbn [mbind option_bind].
  destruct (child 2 (entry m t2 (idx 2 V))) as [t1|] eqn:H2; [|done]. cbn [mbind option_bind].
  destruct (child 1 (entry m t1 (idx 1 V))) as [t0|] eqn:H1; [|done]. cbn [mbind option_bind]. intros H0. by exists t2, t1, t0.
Qed.

Lemma keep_other m t i e flags t' j : frame t -> frame t' -> slot i -> slot j -> t <> t' -> entry (keep_table m t i e flags) t' j = entry m t' j.
Proof. intros Ht Ht' Hi Hj Hne. unfold keep_table. destruct (_ && _); [|done]. apply entry_set_other; auto. Qed.

Lemma map_4k_taken roots m a r V phys flags :
  tables_ok roots m a -> r ∈ roots -> small_page m r V = true ->
  exists m', map_4k_into m a r V phys flags = Done (false, (m', a)).
Proof.
  intros Hok Hr (t2 & t1 & t0 & H3 & H2 & H1 & H0)%small_page_tables.
  assert (reach 3 m r (path 3 V 1) = Some t2) as R2 by (cbn [path reach]; by rewrite H3).
  assert (reach 3 m r (path 3 V 2) = Some t1) as R1 by (cbn [path reach]; rewrite H3; cbn; by rewrite H2).
  assert (reach 3 m r (path 3 V 3) = Some t0) as R0 by (cbn [path reach]; rewrite H3; cbn; rewrite H2; cbn; by rewrite H1).
  assert (forall j k x y, reach 3 m r (path 3 V j) = Some x -> reach 3 m r (path 3 V k) = Some y -> (j <= 3)%nat -> (k <= 3)%nat -> j <> k -> x <> y) as Hdist.
  { intros j k x y Hx Hy Hj Hk Hne ->. destruct (ok_unique _ _ _ Hok r r _ _ y Hr Hr (path_path_ok 3 V j) (path_path_ok 3 V k) Hx Hy) as [E _].
    apply (f_equal length) in E. rewrite !path_length in E by lia. done. }
  assert (forall k x, reach 3 m r (path 3 V k) = Some x -> frame x) as Hfr.
  { intros k x Hx. eapply reach_frame; [exact Hok|by eapply root_frame|exact Hx]. }
  pose proof (Hfr 0%nat r eq_refl). pose proof (Hfr _ _ R2). pose proof (Hfr _ _ R1). pose proof (Hfr _ _ R0).
  pose proof (idx_slot 3 V). pose proof (idx_slot 2 V). pose proof (idx_slot 1 V). pose proof (idx_slot 0 V).
  assert (r <> t2) by (apply (Hdist 0%nat 1%nat); done || lia). assert (r <> t1) by (apply (Hdist 0%nat 2%nat); done || lia).
  assert (r <> t0) by (apply (Hdist 0%nat 3%nat); done || lia). assert (t2 <> t1) by (apply (Hdist 1%nat 2%nat); done || lia).
  assert (t2 <> t0) by (apply (Hdist 1%nat 3%nat); done || lia). assert (t1 <> t0) by (apply (Hdist 2%nat 3%nat); done || lia).
  apply child_Some in H3 as (P3 & _ & ->). apply child_Some in H2 as (P2 & L2 & ->). apply child_Some in H1 as (P1 & L1 & ->). cbn in L2, L1.
  unfold map_4k_into. change (virt_index V Pml4) with (idx 3 V). change (virt_index V Pdpt) with (idx 2 V).
  change (virt_index V Pd) with (idx 1 V). change (virt_index V Pt) with (idx 0 V).
  unfold pml4_to_pdpt. rewrite P3. cbn [mbind exec_bind]. unfold pdpt_to_pd. rewrite keep_other by assumption. rewrite P2, L2. cbn [mbind exec_bind].
  unfold pd_to_pt. rewrite !keep_other by assumption. rewrite P1, L1. cbn [mbind exec_bind]. rewrite !keep_other by assumption. rewrite H0. eauto.
Qed.

(** ** Mapping, as the translation sees it *)

(** C9. Functional behaviour: [map_4k_into] never panics on well-formed tables.  When it returns true,
    every address of the page translates to the frame, with the write permission of the flags, in
    that address space, and the translation and write permission of every other page (also of the
    rest of a 2 MiB or 1 GiB page that had to be split), in every address space, and of the same page in
    every other space when it is a user page, are unchanged.  When it returns false nothing
    changes in any space, and either the page was mapped or no frame is left for a table; a page
    mapped by a 4 KiB entry is always refused.  The tables stay well formed. *)
Theorem map_4k_exact roots m a r virt phys flags :
  tables_ok roots m a -> r ∈ roots -> leaf_ok phys flags ->
  exists ok m' a', map_4k_into m a r virt phys flags = Done (ok, (m', a')) /\ tables_ok roots m' a' /\
    (forall r' v, r' ∈ roots -> page_of v <> page_of virt \/ r' <> r /\ virt_index virt Pml4 < KERNEL_PML4_START ->
       translate_in m' r' v = translate_in m r' v /\ page_access_in m' r' v = page_access_in m r' v) /\
    (small_page m r virt = true -> ok = false) /\
    if ok then forall v, page_of v = page_of virt ->
      translate_in m' r v = Some (phys + Z.land v 0xFFF) /\ page_access_in m' r v = Some (has flags PTE_WRITABLE)
    else (forall r' v, r' ∈ roots -> translate_in m' r' v = translate_in m r' v /\ page_access_in m' r' v = page_access_in m r' v) /\
      (translate_in m r virt <> None \/ forall f, ~ is_free a' f).
Proof.
  intros Hok Hr Hl. destruct (map_4k_spec roots m a r virt phys flags Hok Hr Hl) as (ok & m' & a' & Hm & [Htab Hfree _ Hel Htrue _ Hfalse Hwhy]).
  exists ok, m', a'. split; [done|]. split; [done|]. split; [|split].
  - intros r' v Hr' He. rewrite !translate_resolve, !access_resolve, Hel; try done. destruct He as [He|He]; [left|by right]. by rewrite path_page.
  - intros Hsp. destruct (map_4k_taken roots m a r virt phys flags Hok Hr Hsp) as [m1 Hm1]. rewrite Hm in Hm1. by injection Hm1 as -> -> ->.
  - destruct ok.
    + intros v Hv. by rewrite translate_resolve, access_resolve, (Htrue eq_refl v Hv).
    + split; [intros r' v Hr'; rewrite !translate_resolve, !access_resolve, (Hfalse eq_refl); done|].
      destruct (Hwhy eq_refl) as [H|H]; [left|by right]. rewrite translate_resolve. by destruct (resolve 3 m r virt).
Qed.

(** ** A booted machine: the direct map as a 1 GiB page of the kernel half *)

Lemma tables_ok_empty boot a : frame boot -> alloc_ok a -> ~ is_free a boot -> tables_ok [boot] ∅ a.
Proof.
  intros Hb Ha Hnf.
  assert (forall p t, reach 3 ∅ boot p = Some t -> p = [] /\ t = boot) as Hreach.
  { intros [|j p] t; [by intros [= <-]|]. cbn [reach]. done. }
  split; [done|done|by constructor| | |].
  - intros r1 r2 p1 p2 t ->%list_elem_of_singleton ->%list_elem_of_singleton _ _ [-> _]%Hreach [-> _]%Hreach. auto.
  - intros r p f ->%list_elem_of_singleton _ Hf [_ ->]%Hreach. done.
  - intros r p t j t' ->%list_elem_of_singleton _ _ [-> ->]%Hreach. done.
Qed.

Definition demo_alloc : BitmapFrameAllocator := mkAllocator [1] 0x100000 64 63.
Definition demo_boot : Z := 0x100000.
Definition demo_pdpt : Z := 0x101000.
Definition demo_mem : memory :=
  set_entry (set_entry ∅ demo_pdpt 1 (set_frame 0x40000000 (Z.lor (Z.lor PTE_PRESENT PTE_WRITABLE) PTE_HUGE)))
    demo_boot 256 (set_frame demo_pdpt (intermediate_flags 0)).
Definition demo_vm_alloc : BitmapFrameAllocator := match alloc_frame demo_alloc with Done (_, a) => a | Panic => demo_alloc end.

Lemma demo_tables : tables_ok [demo_boot] demo_mem demo_vm_alloc.
Proof.
  assert (wf demo_alloc) as Hwf.
  { split; [|simpl; lia|vm_compute; discriminate|done|by vm_compute]. constructor; [by vm_compute|constructor]. }
  assert (alloc_ok demo_alloc) as Ha by (split; [exact Hwf|]; split; [done|vm_compute; discriminate]).
  assert (forall i, is_free demo_alloc (0x100000 + i * 4096) -> frames demo_alloc !! Z.to_nat i = Some false) as Hfr.
  { intros i (k & E & Hk). unfold demo_alloc, FRAME_BYTES in E. cbn in E. replace (Z.to_nat i) with k by lia. exact Hk. }
  assert (frame demo_boot) as Hfb by (split; [unfold demo_boot; lia|done]).
  assert (frame demo_pdpt) as Hfp by (split; [unfold demo_pdpt; lia|done]). assert (slot 1) as Hs1 by (unfold slot; lia).
  pose proof (tables_ok_empty demo_boot demo_alloc Hfb Ha) as H0.
  destruct (alloc_frame_fresh demo_alloc Ha) as [[E _]|(f & a' & E & Hf & Ha' & Hfree)]; [by vm_compute in E|].
  assert (f = demo_pdpt /\ a' = demo_vm_alloc) as [-> ->].
  { assert (alloc_frame demo_alloc = Done (Some demo_pdpt, demo_vm_alloc)) as E2 by (vm_compute; reflexivity).
    rewrite E2 in E. by injection E as <- <-. }
  eapply link_step with (m := ∅) (a := demo_alloc) (r := demo_boot) (p := []) (n := 2%nat) (fl := intermediate_flags 0); try done.
  - apply H0. intros Hb. assert (frames demo_alloc !! 0%nat = Some false) as Hx by (apply (Hfr 0); exact Hb). by vm_compute in Hx.
  - apply list_elem_of_here.
  - constructor.
  - apply words_write; [done|by vm_compute].
  - intros t j Ht Hj Hne. apply entry_set_other; auto.
  - intros k Hk. destruct (decide (k = 1)) as [->|Hne]; [by vm_compute|].
    by rewrite entry_set_other by auto.
Qed.

(** A page of the kernel's direct map is remapped: the page after it keeps its frame, and so its permission. *)
Lemma map_4k_exact_witness :
  exists m' a', map_4k_into demo_mem demo_vm_alloc demo_boot 0xFFFF800040005000 0x200000 0 = Done (true, (m', a')) /\
    translate_in m' demo_boot 0xFFFF800040005123 = Some 0x200123 /\ page_access_in m' demo_boot 0xFFFF800040005123 = Some false /\
    translate_in m' demo_boot 0xFFFF800040006123 = Some 0x40006123 /\ page_access_in m' demo_boot 0xFFFF800040006123 = Some true.
Proof.
  destruct (map_4k_exact [demo_boot] demo_mem demo_vm_alloc demo_boot 0xFFFF800040005000 0x200000 0 demo_tables) as (ok & m' & a' & Hm & _ & Hel & _ & Hres).
  - apply list_elem_of_here.
  - split; [split; [lia|reflexivity]|lia|reflexivity].
  - assert (match map_4k_into demo_mem demo_vm_alloc demo_boot 0xFFFF800040005000 0x200000 0 with Done (b, _) => b | Panic => false end = true) as Hok
      by (vm_compute; reflexivity).
    rewrite Hm in Hok. subst ok. exists m', a'. split; [exact Hm|].
    destruct (Hres 0xFFFF800040005123) as [H1 H2]; [vm_compute; reflexivity|].
    destruct (Hel demo_boot 0xFFFF800040006123) as [H3 H4]; [apply list_elem_of_here|left; vm_compute; discriminate|].
    rewrite H1, H2, H3, H4. split; [reflexivity|]. split; [reflexivity|]. split; vm_compute; reflexivity.
Defined.

(** ** Many address spaces

    The kernel creates address spaces from its boot tables and maps user pages into them.
    [s_maps] is the specification: for every space and page, the frame and write permission of the
    last mapping that was granted. *)

Record spaces := mkSpaces {
  s_mem : memory;
  s_alloc : BitmapFrameAllocator;
  s_user : list Z;
  s_maps : gmap (Z * Z) (Z * bool);
}.
Inductive space_op := NewSpace | MapUser (k : nat) (virt phys flags : Z).

Definition space_step (boot : Z) (s : spaces) (o : space_op) : exec spaces :=
  match o with
  | NewSpace =>
      '(f, (m, a)) ← new_with_kernel_half (s_mem s) (s_alloc s) boot;
      Done (mkSpaces m a (match f with Some f => f :: s_user s | None => s_user s end) (s_maps s))
  | MapUser k virt phys flags =>
      match s_user s !! k with
      | None => Done s
      | Some r =>
          '(ok, (m, a)) ← map_user_4k r (s_mem s) (s_alloc s) virt phys flags;
          Done (mkSpaces m a (s_user s)
                  (if (ok : bool) then <[(r, page_of virt) := (phys, has flags PTE_WRITABLE)]> (s_maps s) else s_maps s))
      end
  end.
Fixpoint space_run (boot : Z) (s : spaces) (os : list space_op) : exec spaces :=
  match os with [] => Done s | o :: os => s ← space_step boot s o; space_run boot s os end.

(** User addresses, page frames as frames, flags as flags. *)
Definition space_op_ok (o : space_op) : Prop :=
  match o with NewSpace => True | MapUser _ virt phys flags => 0 <= virt < 2 ^ 47 /\ leaf_ok phys flags end.

Definition user_half (v : Z) : Prop := virt_index v Pml4 < KERNEL_PML4_START.
Lemma user_virt v : 0 <= v < 2 ^ 47 -> user_half v.
Proof.
  intros Hv. unfold user_half. change (virt_index v Pml4) with (idx 3 v). rewrite idx_div. unfold KERNEL_PML4_START.
  change (2 ^ (9 * Z.of_nat 3)) with (2 ^ 27). rewrite Z.div_div by lia.
  assert (0 <= v / (4096 * 2 ^ 27) < 256) by (split; [apply Z.div_pos; lia|apply Z.div_lt_upper_bound; lia]).
  rewrite Z.mod_small by lia. lia.
Qed.

Definition frame_at (v : Z) (e : Z * bool) : Z * bool := (e.1 + Z.land v 0xFFF, e.2).

Record spaces_ok (boot : Z) (m0 : memory) (s : spaces) : Prop := mkSpacesOk {
  sp_tables : tables_ok (s_user s ++ [boot]) (s_mem s) (s_alloc s);
  sp_user : forall r v, r ∈ s_user s -> user_half v -> resolve 3 (s_mem s) r v = frame_at v <$> s_maps s !! (r, page_of v);
  sp_kernel : forall r v, r ∈ s_user s ++ [boot] -> ~ user_half v -> resolve 3 (s_mem s) r v = resolve 3 m0 boot v;
  sp_boot : forall v, resolve 3 (s_mem s) boot v = resolve 3 m0 boot v;
  sp_apart : boot ∉ s_user s;
  sp_keys : forall r pg e, s_maps s !! (r, pg) = Some e -> r ∈ s_user s;
}.

Lemma spaces_new boot m0 s : spaces_ok boot m0 s -> exists s', space_step boot s NewSpace = Done s' /\ spaces_ok boot m0 s'.
Proof.
  intros [Ht Hu Hk Hb Hap Hkeys]. simpl.
  destruct (new_with_kernel_half_spec _ _ _ boot Ht ltac:(set_solver)) as [[-> _]|(f & m' & a' & -> & [Ht' Hnew _ Hold Hker Husr])]; cbn [mbind exec_bind].
  { eexists. split; [reflexivity|]. by split. }
  assert (f ∉ s_user s ++ [boot]) as Hfn.
  { intros Hin. exact (ok_fresh _ _ _ Ht f [] f Hin (List.Forall_nil _) Hnew eq_refl). }
  eexists. split; [reflexivity|]. split; cbn [s_user s_mem s_alloc s_maps].
  - done.
  - intros r v [->|Hr]%elem_of_cons Hv.
    + rewrite Husr by done. destruct (s_maps s !! (f, page_of v)) as [e|] eqn:E; [|done]. apply Hkeys in E. set_solver.
    + rewrite Hold by set_solver. by apply Hu.
  - intros r v [->|Hr]%elem_of_cons Hv.
    + rewrite Hker; [apply Hb|]. unfold user_half in Hv. change (virt_index v Pml4) with (idx 3 v) in Hv. lia.
    + rewrite Hold by done. by apply Hk.
  - intros v. rewrite Hold by set_solver. apply Hb.
  - set_solver.
  - intros r pg e He. apply list_elem_of_further. by eapply Hkeys.
Qed.

Lemma spaces_map boot m0 s k virt phys flags :
  spaces_ok boot m0 s -> 0 <= virt < 2 ^ 47 -> leaf_ok phys flags ->
  exists s', space_step boot s (MapUser k virt phys flags) = Done s' /\ spaces_ok boot m0 s'.
Proof.
  intros Hs Hv Hl. pose proof Hs as [Ht Hu Hk Hb Hap Hkeys]. simpl. destruct (s_user s !! k) as [r|] eqn:Er; [|by exists s].
  pose proof (list_elem_of_lookup_2 _ _ _ Er) as Hr. pose proof (user_virt virt Hv) as Huv.
  unfold map_user_4k.
  destruct (map_4k_spec _ _ _ r virt phys flags Ht ltac:(set_solver) Hl) as (ok & m' & a' & -> & [Ht' _ _ Hel Htrue _ Hfalse _]).
  cbn [mbind exec_bind]. eexists. split; [reflexivity|].
  assert (forall r' v, r' ∈ s_user s ++ [boot] -> r' <> r \/ ~ user_half v -> resolve 3 m' r' v = resolve 3 (s_mem s) r' v) as Hother.
  { intros r' v Hr' Ho. apply Hel; [done|]. destruct Ho as [Ho|Ho]; [by right|left]. intros E. apply Ho.
    unfold user_half in *. change (virt_index v Pml4) with (idx 3 v). change (virt_index virt Pml4) with (idx 3 virt) in Huv.
    cbn [path] in E. by injection E as -> _ _ _. }
  split; cbn [s_user s_mem s_alloc s_maps]; [done| | | |done|].
  - intros r' v Hr' Hv'. destruct (decide (r' = r /\ page_of v = page_of virt)) as [[-> Hpg]|Hne].
    + destruct ok; [|rewrite (Hfalse eq_refl) by set_solver; by apply Hu].
      rewrite (Htrue eq_refl v Hpg), Hpg, lookup_insert_eq. done.
    + rewrite Hel; [|set_solver|].
      * rewrite (Hu r' v Hr' Hv'). f_equal. destruct ok; [|done]. rewrite lookup_insert_ne; [done|]. intros [= E1 E2]. apply Hne. by split.
      * unfold elsewhere. rewrite path_page. destruct (decide (r' = r)) as [->|]; [left|by right]. intros E. by apply Hne.
  - intros r' v Hr' Hv'. rewrite Hother by auto. by apply Hk.
  - intros v. rewrite Hother; [apply Hb|set_solver|left; intros ->; done].
  - intros r' pg e He. destruct ok; [|by eapply Hkeys]. apply lookup_insert_Some in He as [[[= <- <-] _]|[_ He]]; [done|by eapply Hkeys].
Qed.

Lemma space_run_ok boot m0 s os : spaces_ok boot m0 s -> Forall space_op_ok os -> exists s', space_run boot s os = Done s' /\ spaces_ok boot m0 s'.
Proof.
  intros Hs Hos. revert s Hs. induction Hos as [|o os Ho _ IH]; intros s Hs; [by exists s|]. cbn [space_run].
  assert (exists s1, space_step boot s o = Done s1 /\ spaces_ok boot m0 s1) as (s1 & -> & Hs1).
  { destruct o as [|k virt phys flags]; [by apply spaces_new|]. destruct Ho as [Hv Hl]. by apply spaces_map. }
  cbn [mbind exec_bind]. by apply IH.
Qed.

(** C8. Refinement: address spaces are isolated.  After any sequence of creations of address spaces
    and mappings of user pages, the translation in each space of a user address is the frame of the
    last mapping granted for its page in that very space, with the write permission asked for, and
    nothing at all where none was granted; kernel addresses translate in every space as they did in
    the boot tables, which themselves are unchanged. *)
Theorem address_spaces_refine boot m a os :
  tables_ok [boot] m a -> Forall space_op_ok os ->
  exists s, space_run boot (mkSpaces m a [] ∅) os = Done s /\
    (forall r v, r ∈ s_user s -> user_half v ->
       translate_in (s_mem s) r v = (fun e => e.1 + Z.land v 0xFFF) <$> s_maps s !! (r, page_of v) /\
       page_access_in (s_mem s) r v = snd <$> s_maps s !! (r, page_of v)) /\
    (forall r v, r ∈ s_user s -> ~ user_half v ->
       translate_in (s_mem s) r v = translate_in m boot v /\ page_access_in (s_mem s) r v = page_access_in m boot v) /\
    (forall v, translate_in (s_mem s) boot v = translate_in m boot v).
Proof.
  intros Ht Hos. destruct (space_run_ok boot m (mkSpaces m a [] ∅) os) as (s & Hrun & [_ Hu Hk Hb _ _]); [|done|].
  { split; cbn [s_user s_mem s_maps s_alloc app]; [done|by intros r v Hr%not_elem_of_nil|by intros r v ->%list_elem_of_singleton|done|apply not_elem_of_nil|done]. }
  exists s. split; [done|]. split; [|split].
  - intros r v Hr Hv. rewrite translate_resolve, access_resolve, (Hu r v Hr Hv).
    by destruct (s_maps s !! (r, page_of v)) as [[p w]|].
  - intros r v Hr Hv. rewrite !translate_resolve, !access_resolve, (Hk r v); [done|set_solver|done].
  - intros v. by rewrite !translate_resolve, Hb.
Qed.

Definition demo_spaces : list space_op :=
  [NewSpace; NewSpace; MapUser 0 0x400000 0x200000 6; MapUser 1 0x400000 0x203000 4; MapUser 1 0x400000 0x204000 6].

Lemma address_spaces_refine_witness :
  exists s r0 r1, space_run demo_boot (mkSpaces demo_mem demo_vm_alloc [] ∅) demo_spaces = Done s /\ s_user s = [r0; r1] /\
    translate_in (s_mem s) r0 0x400010 = Some 0x200010 /\ page_access_in (s_mem s) r1 0x400010 = Some false /\
    translate_in (s_mem s) r1 0xFFFF800040006123 = Some 0x40006123.
Proof.
  destruct (address_spaces_refine demo_boot demo_mem demo_vm_alloc demo_spaces demo_tables) as (s & Hrun & Hu & Hk & _).
  { repeat apply Forall_cons_2; try exact I; try (split; [lia|split; [split; [lia|reflexivity]|lia|reflexivity]]). constructor. }
  exists s, 0x103000, 0x102000. split; [exact Hrun|].
  assert (match space_run demo_boot (mkSpaces demo_mem demo_vm_alloc [] ∅) demo_spaces with
          | Done s => (s_user s, s_maps s !! (0x103000, 0x400), s_maps s !! (0x102000, 0x400)) | Panic => ([], None, None) end =
          ([0x103000; 0x102000], Some (0x200000, true), Some (0x203000, false))) as E by (vm_compute; reflexivity).
  rewrite Hrun in E. injection E as Es E0 E1. split; [exact Es|].
  assert (0x103000 ∈ s_user s) as I0 by (rewrite Es; apply list_elem_of_here).
  assert (0x102000 ∈ s_user s) as I1 by (rewrite Es; apply list_elem_of_further, list_elem_of_here).
  destruct (Hu 0x103000 0x400010 I0 eq_refl) as [-> _]. destruct (Hu 0x102000 0x400010 I1 eq_refl) as [_ ->].
  destruct (Hk 0x102000 0xFFFF800040006123 I1) as [-> _]; [vm_compute; discriminate|].
  change (page_of 0x400010) with 0x400. rewrite E0, E1. split; [reflexivity|]. split; [reflexivity|]. vm_compute. reflexivity.
Defined.

(** ** Unmapping *)

(** The walk of the address meets a huge page. *)
Definition huge_page (m : memory) (root virt : Z) : bool :=
  let e3 := entry m root (virt_index virt Pml4) in
  let e2 := entry m (phys_addr e3) (virt_index virt Pdpt) in
  let e1 := entry m (phys_addr e2) (virt_index virt Pd) in
  is_present e3 && is_present e2 && (has e2 PTE_HUGE || is_present e1 && has e1 PTE_HUGE).

Lemma unmap_4k_small p m v T :
  reach 3 m (root_phys p) (path 3 v 3) = Some T ->
  unmap_4k p m v = if is_present (entry m T (idx 0 v)) then (true, set_entry m T (idx 0 v) 0) else (false, m).
Proof.
  cbn [path reach]. destruct (child 3 (entry m (root_phys p) (idx 3 v))) as [t2|] eqn:H3; [|done]. cbn [mbind option_bind].
  destruct (child 2 (entry m t2 (idx 2 v))) as [t1|] eqn:H2; [|done]. cbn [mbind option_bind].
  destruct (child 1 (entry m t1 (idx 1 v))) as [t0|] eqn:H1; [|done]. intros [= <-].
  apply child_Some in H3 as (P3 & _ & ->). apply child_Some in H2 as (P2 & _ & ->). apply child_Some in H1 as (P1 & _ & ->).
  unfold unmap_4k. change (virt_index v Pml4) with (idx 3 v). change (virt_index v Pdpt) with (idx 2 v).
  change (virt_index v Pd) with (idx 1 v). change (virt_index v Pt) with (idx 0 v). rewrite P3, P2, P1. cbn [negb].
  by destruct (is_present (entry m _ (idx 0 v))).
Qed.

Lemma not_huge_reach m r v :
  huge_page m r v = false ->
  (exists T, reach 3 m r (path 3 v 3) = Some T) \/
  resolve 3 m r v = None /\ forall o, unmap_4k (mkMapper o r) m v = (false, m).
Proof.
  unfold huge_page, unmap_4k. cbn [path reach resolve root_phys]. change (virt_index v Pml4) with (idx 3 v). change (virt_index v Pdpt) with (idx 2 v).
  change (virt_index v Pd) with (idx 1 v). change (virt_index v Pt) with (idx 0 v). unfold child. cbn [leaf_at].
  destruct (is_present (entry m r (idx 3 v))); cbn [negb andb mbind option_bind]; [|by right].
  set (t2 := phys_addr _). destruct (is_present (entry m t2 (idx 2 v))); cbn [negb andb]; [|by right].
  destruct (has (entry m t2 (idx 2 v)) PTE_HUGE); cbn [negb andb orb mbind option_bind]; [done|].
  set (t1 := phys_addr _). destruct (is_present (entry m t1 (idx 1 v))); cbn [negb andb]; [|by right].
  destruct (has (entry m t1 (idx 1 v)) PTE_HUGE); cbn [negb andb orb mbind option_bind]; [done|]. intros _. left. eauto.
Qed.

Lemma resolve_page n m t v V :
  (forall k, (k <= n)%nat -> idx k v = idx k V) -> resolve n m t v = None <-> resolve n m t V = None.
Proof.
  revert t. induction n as [|n IH]; intros t Hi; cbn [resolve]; rewrite (Hi _ (le_n _)); destruct (is_present _), (leaf_at _ _); try done.
  cbn [negb]. specialize (IH (phys_addr (entry m t (idx (S n) V))) (fun k Hk => Hi k (le_S _ _ Hk))).
  destruct (resolve n m _ v) as [[? ?]|], (resolve n m _ V) as [[? ?]|]; cbn; split; try done; intros _; exfalso;
    [discriminate (proj2 IH eq_refl)|discriminate (proj1 IH eq_refl)].
Qed.
Lemma page_idx v V : page_of v = page_of V -> forall k, (k <= 3)%nat -> idx k v = idx k V.
Proof.
  intros Hv%path_page k Hk. cbn [path] in Hv. injection Hv as H3 H2 H1 H0.
  assert (k = 0 \/ k = 1 \/ k = 2 \/ k = 3)%nat as [->|[->|[->| ->]]] by lia; done.
Qed.
Lemma translate_page m r v V : page_of v = page_of V -> translate_in m r v = None <-> translate_in m r V = None.
Proof.
  intros Hv. rewrite !translate_resolve, !fmap_None. apply resolve_page. by apply page_idx.
Qed.

(** Functional behaviour: unmapping a page that no huge page covers.  [unmap_4k] returns whether the
    page was mapped; afterwards no address of the page translates in that space, and every other
    page, in every space, translates as before; the tables stay well formed. *)
Theorem unmap_4k_exact roots m a p virt :
  tables_ok roots m a -> root_phys p ∈ roots -> huge_page m (root_phys p) virt = false ->
  let '(ok, m') := unmap_4k p m virt in
  (ok = true <-> translate p m virt <> None) /\ tables_ok roots m' a /\
  (forall v, page_of v = page_of virt -> translate p m' v = None) /\
  (forall r' v, r' ∈ roots -> page_of v <> page_of virt \/ r' <> root_phys p /\ user_half virt ->
     translate_in m' r' v = translate_in m r' v).
Proof.
  intros Hok Hr Hh. unfold translate.
  assert (translate_in m (root_phys p) virt = None -> forall v, page_of v = page_of virt -> translate_in m (root_phys p) v = None) as Hpage.
  { intros Hn v Hv. by apply (translate_page m _ v virt Hv). }
  destruct (not_huge_reach _ _ _ Hh) as [[T HT]|[Hn Hun]].
  - rewrite (unmap_4k_small p m virt T HT).
    pose proof (resolve_path roots m a _ virt 3 T Hok Hr ltac:(lia) HT) as Hres. change (3 - 3)%nat with 0%nat in Hres.
    destruct (is_present (entry m T (idx 0 virt))) eqn:Hp.
    + destruct (leaf_step roots m a (root_phys p) virt T 0 Hok Hr HT ltac:(lia)) as (Hok' & HT' & _ & Hel).
      split; [rewrite translate_resolve, Hres; cbn [resolve]; by rewrite Hp|]. split; [done|]. split.
      * intros v Hv. rewrite (translate_page _ _ v virt Hv).
        rewrite translate_resolve, (resolve_path roots _ a _ virt 3 T Hok' Hr ltac:(lia) HT'). cbn [Nat.sub resolve]. by rewrite entry_set_same.
      * intros r' v Hr' He. rewrite !translate_resolve, Hel; [done|done|]. destruct He as [He|He]; [left; by rewrite path_page|by right].
    + assert (translate_in m (root_phys p) virt = None) as Hn by (rewrite translate_resolve, Hres; cbn [resolve]; by rewrite Hp).
      rewrite Hn. split; [done|]. auto.
  - destruct p as [o r]. cbn [root_phys] in *. rewrite Hun. assert (translate_in m r virt = None) as Hn' by (by rewrite translate_resolve, Hn). rewrite Hn'. split; [done|]. auto.
Qed.

(** The page after the one remapped by the demonstration is mapped by a 4 KiB entry now, and can be unmapped. *)
Lemma unmap_4k_exact_witness :
  exists m a, map_4k_into demo_mem demo_vm_alloc demo_boot 0xFFFF800040005000 0x200000 0 = Done (true, (m, a)) /\
    let '(ok, m') := unmap_4k (mkMapper 0 demo_boot) m 0xFFFF800040006000 in
    ok = true /\ translate (mkMapper 0 demo_boot) m' 0xFFFF800040006008 = None.
Proof.
  destruct (map_4k_spec [demo_boot] demo_mem demo_vm_alloc demo_boot 0xFFFF800040005000 0x200000 0 demo_tables) as (ok & m & a & Hm & Hmap).
  - apply list_elem_of_here.
  - split; [split; [lia|reflexivity]|lia|reflexivity].
  - assert (match map_4k_into demo_mem demo_vm_alloc demo_boot 0xFFFF800040005000 0x200000 0 with
            | Done (b, (m, _)) => b && negb (huge_page m demo_boot 0xFFFF800040006000) &&
                                  bool_decide (translate (mkMapper 0 demo_boot) m 0xFFFF800040006000 = Some 0x40006000)
            | Panic => false end = true) as E by (vm_compute; reflexivity).
    rewrite Hm in E. apply andb_true_iff in E as [E Et%bool_decide_eq_true]. apply andb_true_iff in E as [-> Eh%negb_true_iff].
    exists m, a. split; [exact Hm|].
    pose proof (unmap_4k_exact [demo_boot] m a (mkMapper 0 demo_boot) 0xFFFF800040006000 (mp_tables _ _ _ _ _ _ _ _ _ _ Hmap)
      (list_elem_of_here _ _) Eh) as Hu.
    destruct (unmap_4k (mkMapper 0 demo_boot) m 0xFFFF800040006000) as [ok m']. destruct Hu as (Hok & _ & Hnone & _). split.
    + apply Hok. rewrite Et. discriminate.
    + apply Hnone. vm_compute. reflexivity.
Defined.

(** Under a huge page the walk of [unmap_4k] takes the page's own frame for a table: it reports success,
    zeroes a word of the data in it, and leaves the page mapped. *)
Example unmap_4k_huge :
  let m := write_word demo_mem (0x40000000 + 8 * 1) 0x77777067 in
  let m := write_word m (0x77777000 + 8 * 5) 0x2A2B in
  let '(ok, m') := unmap_4k (mkMapper 0 demo_boot) m 0xFFFF800040205000 in
  ok = true /\ read_word m' (0x77777000 + 8 * 5) = 0 /\
  translate (mkMapper 0 demo_boot) m' 0xFFFF800040205000 = Some 0x40205000.
Proof. vm_compute. repeat split. Qed.

(** ** Probing a range *)

Lemma access_page m r v V : page_of v = page_of V -> page_access_in m r v = page_access_in m r V.
Proof.
  intros Hv. rewrite !access_resolve. pose proof (page_idx v V Hv) as Hi. generalize r. 
  assert (forall n t, (n <= 3)%nat -> snd <$> resolve n m t v = snd <$> resolve n m t V) as H; [|intros t; apply H; lia].
  induction n as [|n IH]; intros t Hn; cbn [resolve]; rewrite (Hi _ Hn); destruct (is_present _), (leaf_at _ _); try done.
  cbn [negb]. specialize (IH (phys_addr (entry m t (idx (S n) V))) ltac:(lia)).
  destruct (resolve n m _ v) as [[? ?]|], (resolve n m _ V) as [[? ?]|]; cbn in *; congruence.
Qed.

Definition accessible (m : memory) (root : Z) (write : bool) (v : Z) : Prop :=
  exists w, page_access_in m root v = Some w /\ (write = true -> w = true).

Lemma access_loop_exact fuel m root page stop write :
  page mod 4096 = 0 -> 0 <= page -> stop + 4096 <= 2 ^ 64 -> (stop - page) / 4096 < Z.of_nat fuel ->
  access_loop fuel m root page stop write = true <-> (forall v, page <= v < stop -> accessible m root write v).
Proof.
  revert page. induction fuel as [|fuel IH]; intros page Hm Hp Hs Hf; cbn [access_loop]; destruct (Z.leb_spec stop page).
  - split; [intros _ v Hv; lia|done].
  - assert (0 <= (stop - page) / 4096) by (apply Z.div_pos; lia). lia.
  - split; [intros _ v Hv; lia|done].
  - assert (forall v, page <= v < page + 4096 -> page_access_in m root v = page_access_in m root page) as Hsame.
    { intros v Hv. apply access_page. unfold page_of. f_equal. pose proof (Z.div_mod page 4096 ltac:(lia)).
      symmetry. apply Z.div_unique with (r := v - page); lia. }
    unfold checked_add. destruct (Z.ltb_spec (page + 0x1000) (2 ^ 64)); [|lia].
    assert (access_loop fuel m root (page + 0x1000) stop write = true <-> (forall v, page + 0x1000 <= v < stop -> accessible m root write v)) as IH'.
    { apply IH; [|lia|lia|].
      - change 0x1000 with (1 * 4096). by rewrite Z_mod_plus_full.
      - replace (stop - (page + 0x1000)) with (stop - page + (-1) * 4096) by lia. rewrite Z.div_add by lia. lia. }
    destruct (page_access_in m root page) as [w|] eqn:Ea.
    + destruct (negb write || w) eqn:Ew.
      * rewrite IH'. split.
        -- intros Hall v Hv. destruct (Z.le_gt_cases (page + 0x1000) v); [apply Hall; lia|]. exists w. rewrite Hsame by lia. split; [done|].
           intros ->. by destruct w.
        -- intros Hall v Hv. apply Hall. lia.
      * split; [done|]. intros Hall. destruct (Hall page ltac:(lia)) as (w' & Hw' & Hww). rewrite Ea in Hw'. injection Hw' as <-.
        destruct write, w; try done. by specialize (Hww eq_refl).
    + split; [done|]. intros Hall. destruct (Hall page ltac:(lia)) as (w' & Hw' & _). congruence.
Qed.

(** Equivalence: the probe of a user range, one step for each page and never out of steps, holds
    exactly when every byte address of the range translates, and is writable if that was asked:
    a range that passes cannot fault the kernel's copy. *)
Theorem range_accessible_exact m root virt len write :
  0 <= virt -> 0 <= len -> virt + len + 4096 <= 2 ^ 64 ->
  range_accessible_in m root virt len write = true <-> (forall v, virt <= v < virt + len -> accessible m root write v).
Proof.
  intros Hv Hl Hmax. unfold range_accessible_in. destruct (Z.eqb_spec len 0) as [->|Hne]; [split; [intros _ v ?; lia|done]|].
  unfold checked_add. destruct (Z.ltb_spec (virt + len) (2 ^ 64)); [|lia].
  change 0xFFF with (2 ^ 12 - 1). rewrite land_not_mask by (unfold in_uint; lia). change (2 ^ 12) with 4096. cbn zeta.
  pose proof (Z.div_mod virt 4096 ltac:(lia)). pose proof (Z.mod_pos_bound virt 4096 ltac:(lia)). pose proof (Z.div_pos virt 4096 ltac:(lia) ltac:(lia)).
  rewrite access_loop_exact; [|apply Z.mod_mul; lia|lia|lia|].
  - split; [intros Hall v ?; apply Hall; lia|]. intros Hall v Hr. destruct (Z.le_gt_cases virt v); [apply Hall; lia|].
    destruct (Hall virt ltac:(lia)) as (w & Hw & Hww). exists w. split; [|done]. rewrite <- Hw. apply access_page. unfold page_of. f_equal.
    symmetry. apply Z.div_unique with (r := virt mod 4096 - (virt - v)); lia.
  - pose proof (Z.div_mod len 4096 ltac:(lia)). pose proof (Z.mod_pos_bound len 4096 ltac:(lia)). pose proof (Z.div_pos len 4096 ltac:(lia) ltac:(lia)).
    change 0x1000 with 4096. assert ((virt + len - virt / 4096 * 4096) / 4096 < len / 4096 + 2) by (apply Z.div_lt_upper_bound; lia). lia.
Qed.

Lemma range_accessible_exact_witness :
  range_accessible_in demo_mem demo_boot 0xFFFF800040000FFF 0x3001 true = true /\
  range_accessible_in demo_mem demo_boot 0xFFFF80007FFFF000 0x1001 false = false.
Proof.
  split.
  - apply (range_accessible_exact demo_mem demo_boot 0xFFFF800040000FFF 0x3001 true); [lia|lia|lia|]. intros v Hv.
    assert (forall a, a ∈ [0xFFFF800040000000; 0xFFFF800040001000; 0xFFFF800040002000; 0xFFFF800040003000] ->
      page_access_in demo_mem demo_boot a = Some true) as Hall.
    { intros a Ha. repeat (apply elem_of_cons in Ha as [->|Ha]; [vm_compute; reflexivity|]). by apply not_elem_of_nil in Ha. }
    exists true. split; [|done]. 
    assert (exists a, a ∈ [0xFFFF800040000000; 0xFFFF800040001000; 0xFFFF800040002000; 0xFFFF800040003000] /\ v / 4096 = a / 4096) as (a & Ha & E).
    { assert (v / 4096 * 4096 <= v < v / 4096 * 4096 + 4096) by (pose proof (Z.div_mod v 4096 ltac:(lia)); pose proof (Z.mod_pos_bound v 4096 ltac:(lia)); lia).
      assert (v / 4096 = 0xFFFF800040000 \/ v / 4096 = 0xFFFF800040001 \/ v / 4096 = 0xFFFF800040002 \/ v / 4096 = 0xFFFF800040003) as Hc by lia.
      destruct Hc as [E|[E|[E|E]]]; rewrite E; [exists 0xFFFF800040000000|exists 0xFFFF800040001000|exists 0xFFFF800040002000|exists 0xFFFF800040003000];
        (split; [set_solver|reflexivity]). }
    rewrite <- (Hall a Ha). apply access_page. unfold page_of. by rewrite E.
  - destruct (range_accessible_in demo_mem demo_boot 0xFFFF80007FFFF000 0x1001 false) eqn:E; [|reflexivity]. exfalso.
    destruct (proj1 (range_accessible_exact demo_mem demo_boot 0xFFFF80007FFFF000 0x1001 false ltac:(lia) ltac:(lia) ltac:(lia)) E 0xFFFF800080000000 ltac:(lia)) as (w & Hw & _).
    assert (page_access_in demo_mem demo_boot 0xFFFF800080000000 = None) as Hn by (vm_compute; reflexivity). congruence.
Defined.
