(* ===== verification/Elf.v ===== *)
(** * The ELF loader

    [src/crates/nexacore-kernel/src/bare_metal/elf_loader.rs]: the parser of
    ELF64 headers, the iterator over the loadable segments, the mapping of
    their pages into an address space with the copy of the file image, and the
    relocations of position-independent programs.  Pages are mapped by
    [Paging] into physical memory; a slice is its list of bytes.  The sums of
    offsets read from the file are [usize] sums, which panic on overflow. *)

From S2P Require Import Prelude Bitmap Memory Words Paging.

Definition ELF_MAGIC : bytes := [0x7f; 0x45; 0x4c; 0x46].
Definition ELFCLASS64 : Z := 2.
Definition ELFDATA2LSB : Z := 1.
Definition ET_EXEC : Z := 2.
Definition ET_DYN : Z := 3.
Definition EM_X86_64 : Z := 62.
Definition PT_LOAD : Z := 1.
Definition PF_X : Z := 1.
Definition PF_W : Z := 2.
Definition PF_R : Z := 4.
Definition USER_HALF_END : Z := 0x800000000000.

Inductive ElfError :=
| TooShort | BadMagic | NotElf64 | NotLittleEndian | UnsupportedMachine | UnsupportedType
| BadPhdrs | OutOfFrames | MappingFailed | SegmentOutOfBounds.
#[export] Instance ElfError_eq_dec : EqDecision ElfError.
Proof. solve_decision. Defined.

(** [data.get(off..off + n)?] as a little-endian integer. *)
Definition read_le (data : bytes) (off n : Z) : exec (option Z) :=
  _ ← add_uint 64 off n; Done (from_le <$> get_range data off n).
Definition r_u16 (data : bytes) (off : Z) : exec (option Z) := read_le data off 2.
Definition r_u32 (data : bytes) (off : Z) : exec (option Z) := read_le data off 4.
Definition r_u64 (data : bytes) (off : Z) : exec (option Z) := read_le data off 8.

(** [page_i * 4096 - page_intra] cannot overflow: the pages of a segment fit the user half. *)
Definition page_copy_plan (page_intra file_len page_i : Z) : Z * Z * Z :=
  if page_i =? 0 then
    let dst_off := page_intra in
    let avail_in_page := 4096 - dst_off in
    let copy_len := Z.min file_len avail_in_page in
    (dst_off, 0, copy_len)
  else
    let file_start := page_i * 4096 - page_intra in
    if file_len <=? file_start then (0, file_len, 0)
    else
      let copy_len := Z.min (file_len - file_start) 4096 in
      (0, file_start, copy_len).

Record LoadSegment := mkSegment { virt_addr : Z; file_data : bytes; mem_size : Z; flags : Z }.
Record Elf64 := mkElf { data_ : bytes; entry_ : Z; e_type : Z; phoff : Z; phentsize : Z; phnum : Z }.

(** [x.ok_or(e)?] and [let Some(x) = x else { return Err(e) }]. *)
Definition or_fail {A B} (x : exec (option A)) (e : ElfError) (k : A -> exec (result ElfError B)) : exec (result ElfError B) :=
  o ← x; match o with Some a => k a | None => Done (Err e) end.

Definition parse (data : bytes) : exec (result ElfError Elf64) :=
  if Z.of_nat (length data) <? 64 then Done (Err TooShort)
  else if negb (bool_decide (get_range data 0 4 = Some ELF_MAGIC)) then Done (Err BadMagic)
  else if negb (bool_decide (data !! 4%nat = Some ELFCLASS64)) then Done (Err NotElf64)
  else if negb (bool_decide (data !! 5%nat = Some ELFDATA2LSB)) then Done (Err NotLittleEndian)
  else
    or_fail (r_u16 data 16) TooShort (fun e_type =>
    if negb (e_type =? ET_EXEC) && negb (e_type =? ET_DYN) then Done (Err UnsupportedType)
    else
      or_fail (r_u16 data 18) TooShort (fun e_machine =>
      if negb (e_machine =? EM_X86_64) then Done (Err UnsupportedMachine)
      else
        or_fail (r_u64 data 24) TooShort (fun entry =>
        or_fail (r_u64 data 32) TooShort (fun phoff =>
        or_fail (r_u16 data 54) TooShort (fun phentsize =>
        or_fail (r_u16 data 56) TooShort (fun phnum =>
        if (phentsize <? 56) || (phoff =? 0) || (phnum =? 0) then Done (Err BadPhdrs)
        else
          size ← mul_uint 64 phnum phentsize;
          stop ← add_uint 64 phoff size;
          if Z.of_nat (length data) <? stop then Done (Err TooShort)
          else Done (Ok (mkElf data entry e_type phoff phentsize phnum)))))))).

Definition load_bias (e : Elf64) : Z := if e_type e =? ET_DYN then 0x400000 else 0.
Definition entry_point (e : Elf64) : exec Z := add_uint 64 (entry_ e) (load_bias e).

(** The body of the loop of [SegIter::next] for header [i]; [None] is [continue]. *)
Definition segment_at (e : Elf64) (i : Z) : exec (option (result ElfError LoadSegment)) :=
  row ← mul_uint 64 i (phentsize e);
  base ← add_uint 64 (phoff e) row;
  let data := data_ e in
  p_type ← r_u32 data base;
  match p_type with
  | None => Done (Some (Err BadPhdrs))
  | Some p_type =>
      if negb (p_type =? PT_LOAD) then Done None
      else
        r ← or_fail (r_u32 data (base + 4)) BadPhdrs (fun p_flags =>
            or_fail (r_u64 data (base + 8)) BadPhdrs (fun p_offset =>
            or_fail (r_u64 data (base + 16)) BadPhdrs (fun p_vaddr =>
            or_fail (r_u64 data (base + 32)) BadPhdrs (fun p_filesz =>
            or_fail (r_u64 data (base + 40)) BadPhdrs (fun p_memsz =>
            _ ← add_uint 64 p_offset p_filesz;
            match get_range data p_offset p_filesz with
            | None => Done (Err BadPhdrs)
            | Some file_data => Done (Ok (mkSegment p_vaddr file_data p_memsz p_flags))
            end)))));
        Done (Some r)
  end.

(** What the iterator yields from header [idx] on, with [n] headers left. *)
Fixpoint segments_from (e : Elf64) (idx : Z) (n : nat) : exec (list (result ElfError LoadSegment)) :=
  match n with
  | O => Done []
  | S n =>
      s ← segment_at e idx;
      rest ← segments_from e (idx + 1) n;
      Done (match s with None => rest | Some r => r :: rest end)
  end.
Definition load_segments (e : Elf64) : exec (list (result ElfError LoadSegment)) := segments_from e 0 (Z.to_nat (phnum e)).

Definition pte_flags (elf_flags : Z) : Z :=
  let f := Z.lor PTE_PRESENT PTE_USER in
  let f := if has elf_flags PF_W then Z.lor f PTE_WRITABLE else f in
  if negb (has elf_flags PF_X) then Z.lor f PTE_NO_EXEC else f.

(** [u64::try_from(usize)] always succeeds. *)
Definition validate_segment_span (virt_addr bias mem_size : Z) : result ElfError (option (Z * Z * Z)) :=
  match checked_add 64 virt_addr bias with
  | None => Err SegmentOutOfBounds
  | Some seg_start =>
      let page_base := Z.land seg_start (not_uint 64 0xFFF) in
      let page_intra := Z.land virt_addr 0xFFF in
      match checked_add 64 page_intra mem_size with
      | None => Err SegmentOutOfBounds
      | Some total_mem =>
          let num_pages := (total_mem + 4095) / 4096 in
          if num_pages =? 0 then Ok None
          else
            match checked_mul 64 num_pages 4096 with
            | None => Err SegmentOutOfBounds
            | Some span_bytes =>
                match checked_add 64 page_base span_bytes with
                | None => Err SegmentOutOfBounds
                | Some seg_end =>
                    if USER_HALF_END <? seg_end then Err SegmentOutOfBounds
                    else Ok (Some (page_base, page_intra, num_pages))
                end
            end
      end
  end.

(** The three writes that fill a page. *)
Definition fill_page (m : memory) (frame : Z) (image : bytes) (dst_off file_start copy_len : Z) : memory :=
  let m := if 0 <? dst_off then write_bytes m frame (replicate (Z.to_nat dst_off) 0) else m in
  let m := if 0 <? copy_len
           then write_bytes m (frame + dst_off) (take (Z.to_nat copy_len) (drop (Z.to_nat file_start) image)) else m in
  let written := dst_off + copy_len in
  if written <? 4096 then write_bytes m (frame + written) (replicate (Z.to_nat (4096 - written)) 0) else m.

(** [for page_i in 0..num_pages], [n] pages to go. *)
Fixpoint load_pages (m : memory) (a : BitmapFrameAllocator) (root phys_offset : Z) (seg : LoadSegment)
    (page_base page_intra page_i : Z) (n : nat) : exec (result ElfError unit * vm) :=
  match n with
  | O => Done (Ok tt, (m, a))
  | S n =>
      '(f, a) ← alloc_frame a;
      match f with
      | None => Done (Err OutOfFrames, (m, a))
      | Some frame =>
          '(ok, (m, a)) ← map_4k_into m a root (page_base + page_i * 4096) frame (pte_flags (flags seg));
          if negb ok then Done (Err MappingFailed, (m, a))
          else
            _ ← add_uint 64 frame phys_offset;
            let '(dst_off, file_start, copy_len) := page_copy_plan page_intra (Z.of_nat (length (file_data seg))) page_i in
            load_pages (fill_page m frame (file_data seg) dst_off file_start copy_len) a root phys_offset seg
              page_base page_intra (page_i + 1) n
      end
  end.

Definition load_segment (m : memory) (a : BitmapFrameAllocator) (root phys_offset bias : Z) (seg : LoadSegment) :
    exec (result ElfError unit * vm) :=
  match validate_segment_span (virt_addr seg) bias (mem_size seg) with
  | Err e => Done (Err e, (m, a))
  | Ok None => Done (Ok tt, (m, a))
  | Ok (Some (page_base, page_intra, num_pages)) =>
      load_pages m a root phys_offset seg page_base page_intra 0 (Z.to_nat num_pages)
  end.

(** [for seg_result in self.load_segments()], [n] headers to go. *)
Fixpoint load_all (e : Elf64) (m : memory) (a : BitmapFrameAllocator) (root phys_offset idx : Z) (n : nat) :
    exec (result ElfError unit * vm) :=
  match n with
  | O => Done (Ok tt, (m, a))
  | S n =>
      s ← segment_at e idx;
      match s with
      | None => load_all e m a root phys_offset (idx + 1) n
      | Some (Err err) => Done (Err err, (m, a))
      | Some (Ok seg) =>
          '(r, (m, a)) ← load_segment m a root phys_offset (load_bias e) seg;
          match r with
          | Err err => Done (Err err, (m, a))
          | Ok _ => load_all e m a root phys_offset (idx + 1) n
          end
      end
  end.

(** ** Relocations *)

Definition PT_DYNAMIC : Z := 2.
Definition DT_RELA : Z := 7.
Definition DT_RELASZ : Z := 8.
Definition R_X86_64_RELATIVE : Z := 8.

Definition unwrap_or_0 (x : exec (option Z)) : exec Z := o ← x; Done (default 0 o).

(** [for i in 0..phnum] up to the first [PT_DYNAMIC]: its offset and size in the file. *)
Fixpoint find_dynamic (e : Elf64) (i : Z) (n : nat) : exec (Z * Z) :=
  match n with
  | O => Done (0, 0)
  | S n =>
      row ← mul_uint 64 i (phentsize e);
      base ← add_uint 64 (phoff e) row;
      p_type ← r_u32 (data_ e) base;
      if bool_decide (p_type = Some PT_DYNAMIC) then
        o ← unwrap_or_0 (r_u64 (data_ e) (base + 8));
        s ← unwrap_or_0 (r_u64 (data_ e) (base + 32));
        Done (o, s)
      else find_dynamic e (i + 1) n
  end.

(** [while pos + 16 <= dyn_offset + dyn_size].  A tag beyond the file reads as 0 and ends the loop, so
    one unit of fuel for each entry of the file is enough; out of fuel is [Panic]. *)
Fixpoint find_rela (fuel : nat) (data : bytes) (pos dyn_offset dyn_size rela_off rela_sz : Z) : exec (Z * Z) :=
  p16 ← add_uint 64 pos 16;
  stop ← add_uint 64 dyn_offset dyn_size;
  if negb (p16 <=? stop) then Done (rela_off, rela_sz)
  else
    match fuel with
    | O => Panic
    | S fuel =>
        tag ← unwrap_or_0 (r_u64 data pos);
        val ← unwrap_or_0 (r_u64 data (pos + 8));
        if tag =? 0 then Done (rela_off, rela_sz)
        else
          find_rela fuel data p16 dyn_offset dyn_size
            (if tag =? DT_RELA then val else rela_off) (if tag =? DT_RELASZ then val else rela_sz)
    end.

(** One entry of the table. *)
Definition apply_reloc (e : Elf64) (m : memory) (root phys_offset bias ent_off : Z) : exec memory :=
  r_offset ← r_u64 (data_ e) ent_off;
  match r_offset with
  | None => Done m
  | Some r_offset =>
      o8 ← add_uint 64 ent_off 8;
      r_info ← r_u64 (data_ e) o8;
      match r_info with
      | None => Done m
      | Some r_info =>
          o16 ← add_uint 64 ent_off 16;
          r_addend ← r_u64 (data_ e) o16;
          match r_addend with
          | None => Done m
          | Some r_addend =>
              let r_type := Z.land r_info 0xFFFFFFFF in
              if negb (r_type =? R_X86_64_RELATIVE) then Done m
              else
                target_va ← add_uint 64 bias r_offset;
                value ← add_uint 64 bias r_addend;
                match translate_in m root target_va with
                | None => Done m
                | Some phys => _ ← add_uint 64 phys phys_offset; Done (write_bytes m phys (to_le 8 value))
                end
          end
      end
  end.
Fixpoint reloc_loop (e : Elf64) (m : memory) (root phys_offset bias rela_file_off i : Z) (n : nat) : exec memory :=
  match n with
  | O => Done m
  | S n =>
      off ← mul_uint 64 i 24;
      ent_off ← add_uint 64 rela_file_off off;
      m ← apply_reloc e m root phys_offset bias ent_off;
      reloc_loop e m root phys_offset bias rela_file_off (i + 1) n
  end.
Definition apply_relative_relocs (e : Elf64) (m : memory) (root phys_offset bias : Z) : exec memory :=
  '(dyn_offset, dyn_size) ← find_dynamic e 0 (Z.to_nat (phnum e));
  if (dyn_offset =? 0) || (dyn_size =? 0) then Done m
  else
    '(rela_off, rela_sz) ← find_rela (length (data_ e)) (data_ e) dyn_offset dyn_offset dyn_size 0 0;
    if (rela_off =? 0) || (rela_sz =? 0) then Done m
    else reloc_loop e m root phys_offset bias rela_off 0 (Z.to_nat (rela_sz / 24)).

Definition map_and_load_into (e : Elf64) (m : memory) (a : BitmapFrameAllocator) (root phys_offset : Z) :
    exec (result ElfError Z * vm) :=
  let bias := load_bias e in
  '(r, (m, a)) ← load_all e m a root phys_offset 0 (Z.to_nat (phnum e));
  match r with
  | Err err => Done (Err err, (m, a))
  | Ok _ =>
      m ← (if negb (bias =? 0) then apply_relative_relocs e m root phys_offset bias else Done m);
      entry ← add_uint 64 (entry_ e) bias;
      Done (Ok entry, (m, a))
  end.
Definition map_and_load (p : PageMapper) (e : Elf64) (m : memory) (a : BitmapFrameAllocator) (phys_offset : Z) :
    exec (result ElfError Z * vm) :=
  map_and_load_into e m a (root_phys p) phys_offset.

(** ** Filling a page *)

Lemma write_byte_words m a b : words m -> is_byte b -> words (write_byte m a b).
Proof.
  intros Hm Hb. apply words_write; [done|]. set (s := 2 ^ _). assert (0 < s) by (apply Z.pow_pos_nonneg; [lia|]; pose proof (Z.mod_pos_bound a 8 ltac:(lia)); lia).
  pose proof (Hm (a - a mod 8)) as Ho. set (old := read_word m _) in *. unfold is_byte in Hb.
  pose proof (Z.div_mod old s ltac:(lia)). pose proof (Z.mod_pos_bound old s ltac:(lia)). pose proof (Z.div_pos old s ltac:(lia) ltac:(lia)).
  pose proof (Z.div_mod (old / s) 256 ltac:(lia)). pose proof (Z.div_pos (old / s) 256 ltac:(lia) ltac:(lia)). nia.
Qed.
Lemma write_bytes_words m a bs : words m -> is_bytes bs -> words (write_bytes m a bs).
Proof. intros Hm Hb. revert m a Hm. induction Hb as [|b bs Hb _ IH]; intros m a Hm; [done|]. apply IH. by apply write_byte_words. Qed.

(** Writing inside a frame leaves the words of the other frames. *)
Lemma write_bytes_entry m f off bs t j :
  frame f -> frame t -> slot j -> t <> f -> 0 <= off -> off + Z.of_nat (length bs) <= 4096 ->
  entry (write_bytes m (f + off) bs) t j = entry m t j.
Proof.
  intros [Hf Hfm] [Ht Htm] Hj Hne Ho Hlen. apply write_bytes_word. intros i Hi. unfold slot in Hj.
  pose proof (Z.div_mod f 4096 ltac:(lia)). pose proof (Z.div_mod t 4096 ltac:(lia)).
  pose proof (Z.div_mod (f + off + i) 8 ltac:(lia)). pose proof (Z.mod_pos_bound (f + off + i) 8 ltac:(lia)). lia.
Qed.
(** The bytes of a frame are those of its words. *)
Lemma frame_byte m m' t k : frame t -> 0 <= k < 4096 -> (forall j, slot j -> entry m' t j = entry m t j) -> read_byte m' (t + k) = read_byte m (t + k).
Proof.
  intros [Ht Htm] Hk He. unfold read_byte. f_equal. f_equal.
  pose proof (Z.div_mod t 4096 ltac:(lia)). pose proof (Z.div_mod (t + k) 8 ltac:(lia)). pose proof (Z.mod_pos_bound (t + k) 8 ltac:(lia)).
  pose proof (Z.div_mod k 8 ltac:(lia)). pose proof (Z.mod_pos_bound k 8 ltac:(lia)).
  replace (t + k - (t + k) mod 8) with (t + 8 * (k / 8)) by lia. apply He. unfold slot. lia.
Qed.

Lemma zeros_bytes n : is_bytes (replicate n 0).
Proof. apply Forall_replicate. unfold is_byte. lia. Qed.

Section fill_page.
Context (m : memory) (f : Z) (image : bytes) (d s c : Z).
Context (Hf : frame f) (Himg : is_bytes image) (Hd : 0 <= d) (Hs : 0 <= s) (Hc : 0 <= c).
Context (Hdc : d + c <= 4096) (Hsc : s + c <= Z.of_nat (length image)).

Lemma slice_length : length (take (Z.to_nat c) (drop (Z.to_nat s) image)) = Z.to_nat c.
Proof. rewrite length_take, length_drop. lia. Qed.
Lemma slice_bytes : is_bytes (take (Z.to_nat c) (drop (Z.to_nat s) image)).
Proof. apply Forall_take, Forall_drop, Himg. Qed.

Lemma fill_page_words : words m -> words (fill_page m f image d s c).
Proof.
  intros Hm. unfold fill_page. cbn zeta.
  destruct (0 <? d), (0 <? c), (d + c <? 4096); repeat apply write_bytes_words; auto using zeros_bytes, slice_bytes.
Qed.
Lemma fill_page_entry t j : frame t -> slot j -> t <> f -> entry (fill_page m f image d s c) t j = entry m t j.
Proof.
  intros Ht Hj Hne. unfold fill_page. cbn zeta.
  assert (forall m, entry (if d + c <? 4096 then write_bytes m (f + (d + c)) (replicate (Z.to_nat (4096 - (d + c))) 0) else m) t j = entry m t j) as H3.
  { intros m0. destruct (Z.ltb_spec (d + c) 4096); [|done]. apply write_bytes_entry; try done; [lia|]. rewrite length_replicate. lia. }
  rewrite H3. clear H3. destruct (Z.ltb_spec 0 c).
  - rewrite write_bytes_entry; try done; [|rewrite slice_length; lia]. destruct (Z.ltb_spec 0 d); [|done].
    rewrite <- (Z.add_0_r f) at 1. apply write_bytes_entry; try done. rewrite length_replicate. lia.
  - destruct (Z.ltb_spec 0 d); [|done]. rewrite <- (Z.add_0_r f) at 1. apply write_bytes_entry; try done. rewrite length_replicate. lia.
Qed.
Lemma fill_page_byte j :
  0 <= j < 4096 ->
  read_byte (fill_page m f image d s c) (f + j) =
    if decide (d <= j < d + c) then default 0 (image !! Z.to_nat (s + (j - d))) else 0.
Proof.
  intros Hj. unfold fill_page. cbn zeta.
  assert (forall m, j < d + c -> read_byte (if d + c <? 4096 then write_bytes m (f + (d + c)) (replicate (Z.to_nat (4096 - (d + c))) 0) else m) (f + j) = read_byte m (f + j)) as Hlow.
  { intros m0 Hlt. destruct (Z.ltb_spec (d + c) 4096); [|done]. rewrite read_write_bytes by apply zeros_bytes. by rewrite decide_False by lia. }
  assert (forall n k, default 0 (replicate n 0 !! k) = 0) as Hrep by (intros n k; destruct (replicate n 0 !! k) eqn:E; [by apply lookup_replicate_1 in E as [-> _]|done]).
  destruct (Z.lt_ge_cases j (d + c)) as [Hlt|Hge].
  - rewrite Hlow by done. destruct (Z.lt_ge_cases j d) as [Hjd|Hjd].
    + rewrite (decide_False (P := d <= j < d + c)) by lia.
      assert (read_byte (if 0 <? d then write_bytes m f (replicate (Z.to_nat d) 0) else m) (f + j) = 0) as Hz.
      { destruct (Z.ltb_spec 0 d); [|lia]. rewrite read_write_bytes by apply zeros_bytes. rewrite length_replicate, decide_True by lia. apply Hrep. }
      destruct (Z.ltb_spec 0 c); [|done]. rewrite read_write_bytes by apply slice_bytes. by rewrite decide_False by lia.
    + rewrite (decide_True (P := d <= j < d + c)) by lia. destruct (Z.ltb_spec 0 c); [|lia].
      rewrite read_write_bytes by apply slice_bytes. rewrite slice_length, decide_True by lia.
      replace (Z.to_nat (f + j - (f + d))) with (Z.to_nat (j - d)) by lia. rewrite lookup_take_lt, lookup_drop by lia.
      replace (Z.to_nat s + Z.to_nat (j - d))%nat with (Z.to_nat (s + (j - d))) by lia. done.
  - rewrite (decide_False (P := d <= j < d + c)) by lia. destruct (Z.ltb_spec (d + c) 4096); [|lia].
    rewrite read_write_bytes by apply zeros_bytes. rewrite length_replicate, decide_True by lia. apply Hrep.
Qed.
End fill_page.

(** Byte [k] of a segment in memory: its file image, then zeros; zeros before it. *)
Definition seg_byte (image : bytes) (k : Z) : Z := if k <? 0 then 0 else default 0 (image !! Z.to_nat k).

Lemma plan_bounds intra len i :
  0 <= intra < 4096 -> 0 <= len -> 0 <= i ->
  let '(d, s, c) := page_copy_plan intra len i in 0 <= d /\ 0 <= s /\ 0 <= c /\ d + c <= 4096 /\ s + c <= len.
Proof.
  intros Hi Hl Hp. unfold page_copy_plan. destruct (Z.eqb_spec i 0) as [->|]; cbn zeta.
  - lia.
  - destruct (Z.leb_spec len (i * 4096 - intra)); lia.
Qed.
Lemma page_bytes m f image intra i j :
  frame f -> is_bytes image -> 0 <= intra < 4096 -> 0 <= i -> 0 <= j < 4096 ->
  let '(d, s, c) := page_copy_plan intra (Z.of_nat (length image)) i in
  read_byte (fill_page m f image d s c) (f + j) = seg_byte image (i * 4096 + j - intra).
Proof.
  intros Hf Himg Hin Hi Hj. pose proof (plan_bounds intra (Z.of_nat (length image)) i Hin ltac:(lia) Hi) as Hb.
  destruct (page_copy_plan intra (Z.of_nat (length image)) i) as [[d s] c] eqn:E. destruct Hb as (H1 & H2 & H3 & H4 & H5).
  rewrite fill_page_byte by done. unfold page_copy_plan in E. unfold seg_byte.
  assert (forall k, Z.of_nat (length image) <= k -> default 0 (image !! Z.to_nat k) = 0) as Hend.
  { intros k Hk. rewrite (proj2 (lookup_ge_None image (Z.to_nat k))) by lia. done. }
  destruct (Z.eqb_spec i 0) as [->|Hne].
  - injection E as <- <- <-. case_decide.
    + destruct (Z.ltb_spec (0 * 4096 + j - intra) 0); [lia|]. do 2 f_equal; lia.
    + destruct (Z.ltb_spec (0 * 4096 + j - intra) 0); [done|]. symmetry. apply Hend. lia.
  - destruct (Z.ltb_spec (i * 4096 + j - intra) 0); [lia|]. destruct (Z.leb_spec (Z.of_nat (length image)) (i * 4096 - intra)).
    + injection E as <- <- <-. rewrite decide_False by lia. symmetry. apply Hend. lia.
    + injection E as <- <- <-. case_decide; [do 2 f_equal; lia|]. symmetry. apply Hend. lia.
Qed.

(** ** Loading pages *)

Lemma small_page_same m r v V : page_of v = page_of V -> small_page m r v = small_page m r V.
Proof.
  intros Hv. pose proof (page_idx v V Hv) as Hi. apply path_page in Hv. unfold small_page.
  assert (path 3 v 3 = path 3 V 3) as -> by (cbn [path] in Hv |- *; by injection Hv as -> -> -> _).
  destruct (reach 3 m r (path 3 V 3)); [|done]. by rewrite (Hi 0%nat) by lia.
Qed.

(** A page of the space [root] holds [content], in a frame of its own. *)
Record holds_page (roots : list Z) (m : memory) (a : BitmapFrameAllocator) (root V f : Z) (w : bool) (content : Z -> Z) : Prop := mkHolds {
  hp_resolve : forall v, page_of v = page_of V -> resolve 3 m root v = Some (f + Z.land v 0xFFF, w);
  hp_small : small_page m root V = true;
  hp_data : data roots m a f;
  hp_bytes : forall k, 0 <= k < 4096 -> read_byte m (f + k) = content k;
}.

(** What loading does to the rest of the machine: other spaces and the kernel half translate as before,
    pages already there stay with their bytes, and no other frame in use is written. *)
Record loads (roots : list Z) (root : Z) (m : memory) (a : BitmapFrameAllocator) (m' : memory) (a' : BitmapFrameAllocator) : Prop := mkLoads {
  ld_tables : tables_ok roots m' a';
  ld_other : forall r v, r ∈ roots -> r <> root \/ ~ user_half v -> resolve 3 m' r v = resolve 3 m r v;
  ld_pages : forall V f w content, holds_page roots m a root V f w content -> holds_page roots m' a' root V f w content;
  ld_data : forall t, data roots m a t -> data roots m' a' t /\ forall j, slot j -> entry m' t j = entry m t j;
}.

Lemma loads_refl roots root m a : tables_ok roots m a -> loads roots root m a m a.
Proof. intros Hok. by split. Qed.
Lemma loads_trans roots root m1 a1 m2 a2 m3 a3 :
  loads roots root m1 a1 m2 a2 -> loads roots root m2 a2 m3 a3 -> loads roots root m1 a1 m3 a3.
Proof.
  intros [T1 O1 P1 D1] [T2 O2 P2 D2]. split; [done| |eauto|].
  - intros r v Hr Hv. by rewrite O2, O1.
  - intros t Ht. destruct (D1 t Ht) as [Ht2 E1]. destruct (D2 t Ht2) as [Ht3 E2]. split; [done|]. intros j Hj. by rewrite E2, E1.
Qed.

Section load.
Context (roots : list Z) (root : Z) (Hroot : root ∈ roots).

(** An allocation takes a frame that is then in use and no table. *)
Lemma loads_alloc m a f a1 :
  tables_ok roots m a -> is_free a f -> alloc_ok a1 -> (forall g, is_free a1 g <-> is_free a g /\ g <> f) ->
  loads roots root m a m a1 /\ data roots m a1 f /\ ~ data roots m a f.
Proof.
  intros Hok Hf Ha1 Hfree.
  assert (forall t, data roots m a t -> data roots m a1 t) as Hd.
  { intros t (Ht & Hnr & Hnf). split; [done|]. split; [done|]. intros [? _]%Hfree. done. }
  split; [|split].
  - split; [|done| |auto].
    + destruct Hok. split; try done. intros r p g Hr Hp [Hg _]%Hfree. eauto.
    + intros V g w content [H1 H2 H3 H4]. split; auto.
  - split; [eapply free_frame_frame; [apply Hok|done]|]. split; [intros r p Hr Hp; by apply (ok_fresh _ _ _ Hok)|]. by intros [_ ?]%Hfree.
  - by intros (_ & _ & ?).
Qed.

(** A mapping that is granted is of a page that was not there. *)
Lemma loads_map m a V phys flags ok m' a' :
  tables_ok roots m a -> user_half V -> leaf_ok phys flags ->
  map_4k_into m a root V phys flags = Done (ok, (m', a')) -> mapped roots root V phys flags m a ok m' a' ->
  loads roots root m a m' a'.
Proof.
  intros Hok HV Hl Hm [Htab _ [Hdata Hsmall] Hel _ _ Hfalse _]. split; [done| | |done].
  - intros r v Hr Hv. apply Hel; [done|]. destruct Hv as [Hv|Hv]; [by right|left]. intros E. apply Hv. unfold user_half in *.
    change (virt_index v Pml4) with (idx 3 v). change (virt_index V Pml4) with (idx 3 V) in HV. cbn [path] in E. by injection E as -> _ _ _.
  - intros W f w content [H1 H2 H3 H4]. destruct (Hdata f H3) as [H3' He]. split; [|by apply Hsmall|done|].
    + intros v Hv. rewrite <- (H1 v Hv). destruct ok; [|by apply Hfalse]. apply Hel; [done|]. left. rewrite path_page. intros E.
      destruct (map_4k_taken roots m a root V phys flags Hok Hroot) as [m1 Hm1]; [|rewrite Hm in Hm1; by injection Hm1].
      rewrite <- H2. apply small_page_same. congruence.
    + intros k Hk. rewrite <- (H4 k Hk). apply frame_byte; [apply H3|done|done].
Qed.

(** Filling a frame that is in use and no table. *)
Lemma loads_fill m a f m' :
  tables_ok roots m a -> data roots m a f -> words m' ->
  (forall t j, frame t -> slot j -> t <> f -> entry m' t j = entry m t j) ->
  tables_ok roots m' a /\ (forall r v, r ∈ roots -> resolve 3 m' r v = resolve 3 m r v) /\ data roots m' a f /\
  (forall t, t <> f -> data roots m a t -> data roots m' a t /\ forall j, slot j -> entry m' t j = entry m t j) /\
  (forall v, small_page m root v = true -> small_page m' root v = true) /\
  (forall V g w content, g <> f -> holds_page roots m a root V g w content -> holds_page roots m' a root V g w content).
Proof.
  intros Hok (Hf & Hnr & Hnf) Hw Hsame.
  assert (forall r v, r ∈ roots -> resolve 3 m' r v = resolve 3 m r v) as Hres by (intros; by eapply untouched_root_resolve).
  assert (forall v, small_page m root v = true -> small_page m' root v = true) as Hsm.
  { intros v. unfold small_page. rewrite (untouched_root_reach roots m m' a f Hok Hnr Hsame root _ Hroot (path_path_ok 3 v 3)).
    destruct (reach 3 m root (path 3 v 3)) as [t|] eqn:Ht; [|done]. rewrite Hsame; [done| |apply idx_slot|].
    - eapply reach_frame; [exact Hok|by eapply root_frame|exact Ht].
    - intros ->. by apply (Hnr root (path 3 v 3) Hroot (path_path_ok 3 v 3)). }
  assert (forall t, t <> f -> data roots m a t -> data roots m' a t /\ forall j, slot j -> entry m' t j = entry m t j) as Hd
    by (intros; by eapply untouched_data).
  split; [by eapply untouched_tables_ok|]. split; [done|]. split; [|split; [done|split; [done|]]].
  - split; [done|]. split; [|done]. intros r p Hr Hp. rewrite (untouched_root_reach roots m m' a f Hok Hnr Hsame r p Hr Hp). by apply Hnr.
  - intros V g w content Hne [H1 H2 H3 H4]. destruct (Hd g Hne H3) as [H3' He]. split; [|auto|done|].
    + intros v Hv. rewrite Hres by done. by apply H1.
    + intros k Hk. rewrite <- (H4 k Hk). apply frame_byte; [apply H3|done|done].
Qed.
End load.

Lemma pte_leaf_ok phys fl : frame phys -> leaf_ok phys (pte_flags fl).
Proof. intros Hp. unfold pte_flags. destruct (has fl PF_W), (has fl PF_X); split; done. Qed.
Lemma pte_writable fl : has (pte_flags fl) PTE_WRITABLE = has fl PF_W.
Proof. unfold pte_flags. destruct (has fl PF_W), (has fl PF_X); done. Qed.

Section load_segments.
Context (roots : list Z) (root phys_offset : Z) (Hroot : root ∈ roots) (Hpo2 : phys_offset + 2 ^ 52 <= 2 ^ 64).

Lemma load_pages_spec seg pb intra n m a i :
  tables_ok roots m a -> is_bytes (file_data seg) -> 0 <= intra < 4096 -> 0 <= i -> 0 <= pb ->
  pb + (i + Z.of_nat n) * 4096 <= 2 ^ 47 ->
  exists r m' a', load_pages m a root phys_offset seg pb intra i n = Done (r, (m', a')) /\ loads roots root m a m' a' /\
    (r = Ok tt -> forall j, i <= j < i + Z.of_nat n ->
       exists f, holds_page roots m' a' root (pb + j * 4096) f (has (flags seg) PF_W) (fun k => seg_byte (file_data seg) (j * 4096 + k - intra))).
Proof.
  intros Hok Himg Hin Hi Hpb Hmax. revert m a i Hok Hi Hmax. induction n as [|n IH]; intros m a i Hok Hi Hmax; cbn [load_pages].
  { exists (Ok tt), m, a. split; [done|]. split; [by apply loads_refl|]. intros _ j Hj. lia. }
  destruct (alloc_frame_fresh a ltac:(apply Hok)) as [[-> _]|(f & a1 & -> & Hf & Ha1 & Hfree)]; cbn [mbind exec_bind].
  { exists (Err OutOfFrames), m, a. split; [done|]. split; [by apply loads_refl|done]. }
  destruct (loads_alloc roots root m a f a1 Hok Hf Ha1 Hfree) as (L1 & Df1 & Dn). pose proof (ld_tables _ _ _ _ _ _ L1) as Hok1.
  assert (frame f) as Hff by apply Df1. set (V := pb + i * 4096).
  assert (user_half V) as HV by (apply user_virt; unfold V; lia).
  destruct (map_4k_spec roots m a1 root V f (pte_flags (flags seg)) Hok1 Hroot (pte_leaf_ok _ _ Hff)) as (ok & m2 & a2 & Hm & Hmap). rewrite Hm. cbn [mbind exec_bind].
  pose proof (loads_map roots root Hroot m a1 V f _ ok m2 a2 Hok1 HV (pte_leaf_ok _ _ Hff) Hm Hmap) as L2.
  pose proof (loads_trans _ _ _ _ _ _ _ _ L1 L2) as L12. destruct ok; cbn [negb].
  2:{ exists (Err MappingFailed), m2, a2. split; [done|]. split; [done|done]. }
  rewrite add_uint_Done by (destruct Hff; lia). cbn [mbind exec_bind].
  pose proof (plan_bounds intra (Z.of_nat (length (file_data seg))) i Hin ltac:(lia) Hi) as Hb.
  pose proof (fun j Hj => page_bytes m2 f (file_data seg) intra i j Hff Himg Hin Hi Hj) as Hbytes.
  destruct (page_copy_plan intra (Z.of_nat (length (file_data seg))) i) as [[d s] c]. destruct Hb as (B1 & B2 & B3 & B4 & B5).
  set (m3 := fill_page m2 f (file_data seg) d s c) in *.
  pose proof (ld_tables _ _ _ _ _ _ L2) as Hok2. destruct (ld_data _ _ _ _ _ _ L2 f Df1) as [Df2 _].
  destruct (loads_fill roots root Hroot m2 a2 f m3 Hok2 Df2) as (Hok3 & Hres3 & Df3 & Hd3 & Hsm3 & Hp3).
  { apply fill_page_words; try done. apply Hok2. }
  { intros t j Ht Hj Hne. by apply fill_page_entry. }
  assert (loads roots root m a m3 a2) as L3.
  { split; [done| | |].
    - intros r v Hr Hv. rewrite Hres3 by done. by apply (ld_other _ _ _ _ _ _ L12).
    - intros W g w content HW. apply Hp3; [|by apply (ld_pages _ _ _ _ _ _ L12)]. intros ->. by apply Dn, HW.
    - intros t Ht. assert (t <> f) by (by intros ->). destruct (ld_data _ _ _ _ _ _ L12 t Ht) as [Ht2 E2].
      destruct (Hd3 t ltac:(done) Ht2) as [Ht3 E3]. split; [done|]. intros j Hj. by rewrite E3, E2. }
  destruct (IH m3 a2 (i + 1) Hok3 ltac:(lia) ltac:(lia)) as (r & m' & a' & Hl & L4 & Hpages).
  exists r, m', a'. split; [done|]. split; [by eapply loads_trans|]. intros Hr j Hj.
  destruct (decide (j = i)) as [->|]; [|apply Hpages; [done|lia]]. exists f. apply (ld_pages _ _ _ _ _ _ L4). split; [| |done|].
  - intros v Hv. rewrite Hres3 by done. rewrite (mp_true _ _ _ _ _ _ _ _ _ _ Hmap eq_refl v Hv). by rewrite pte_writable.
  - apply Hsm3, (mp_small _ _ _ _ _ _ _ _ _ _ Hmap eq_refl).
  - intros k Hk. by apply Hbytes.
Qed.

Lemma validate_span va bias ms pb intra np :
  validate_segment_span va bias ms = Ok (Some (pb, intra, np)) -> 0 <= va -> 0 <= ms -> 0 <= bias -> bias mod 4096 = 0 ->
  pb = (va + bias) / 4096 * 4096 /\ intra = va mod 4096 /\ pb + intra = va + bias /\ 0 < np /\
  intra + ms <= np * 4096 /\ pb + np * 4096 <= 2 ^ 47.
Proof.
  intros Hv Hva Hms Hb Hbm. unfold validate_segment_span, checked_add, checked_mul in Hv.
  destruct (Z.ltb_spec (va + bias) (2 ^ 64)) as [H1|]; [|done].
  assert (Z.land (va + bias) (not_uint 64 0xFFF) = (va + bias) / 4096 * 4096) as Epb
    by (exact (land_not_mask 64 (va + bias) 12 ltac:(lia) ltac:(unfold in_uint; lia))).
  assert (Z.land va 0xFFF = va mod 4096) as Ein by (exact (Z.land_ones va 12 ltac:(lia))).
  cbn zeta in Hv. rewrite Epb, Ein in Hv.
  destruct (Z.ltb_spec (va mod 4096 + ms) (2 ^ 64)); [|done]. set (n := (va mod 4096 + ms + 4095) / 4096) in *.
  destruct (Z.eqb_spec n 0); [done|]. destruct (Z.ltb_spec (n * 4096) (2 ^ 64)); [|done].
  destruct (Z.ltb_spec ((va + bias) / 4096 * 4096 + n * 4096) (2 ^ 64)); [|done].
  destruct (Z.ltb_spec USER_HALF_END ((va + bias) / 4096 * 4096 + n * 4096)) as [|Hend]; [done|]. injection Hv as <- <- <-.
  unfold USER_HALF_END in Hend. pose proof (Z.mod_pos_bound va 4096 ltac:(lia)).
  pose proof (Z.div_mod (va mod 4096 + ms + 4095) 4096 ltac:(lia)) as Hdv. fold n in Hdv. pose proof (Z.mod_pos_bound (va mod 4096 + ms + 4095) 4096 ltac:(lia)).
  pose proof (Z.div_mod (va + bias) 4096 ltac:(lia)) as Hd. rewrite Z.add_mod, Hbm, Z.add_0_r, Z.mod_mod in Hd by lia.
  assert (0 <= n) by (apply Z.div_pos; lia). split; [done|]. split; [done|]. split; [lia|]. split; [lia|]. split; lia.
Qed.

(** The pages of a segment hold its image. *)
Definition seg_held (m : memory) (a : BitmapFrameAllocator) (bias : Z) (seg : LoadSegment) : Prop :=
  match validate_segment_span (virt_addr seg) bias (mem_size seg) with
  | Err _ => False
  | Ok None => True
  | Ok (Some (pb, intra, np)) =>
      forall j, 0 <= j < np ->
        exists f, holds_page roots m a root (pb + j * 4096) f (has (flags seg) PF_W) (fun k => seg_byte (file_data seg) (j * 4096 + k - intra))
  end.
Lemma seg_held_loads m a m' a' bias seg : loads roots root m a m' a' -> seg_held m a bias seg -> seg_held m' a' bias seg.
Proof.
  intros L. unfold seg_held. destruct (validate_segment_span _ _ _) as [[[[pb intra] np]|]|]; try done.
  intros H j Hj. destruct (H j Hj) as [f Hf]. exists f. by apply (ld_pages _ _ _ _ _ _ L).
Qed.

Record seg_ok (seg : LoadSegment) : Prop := mkSegOk {
  so_bytes : is_bytes (file_data seg); so_addr : 0 <= virt_addr seg; so_size : 0 <= mem_size seg }.

Lemma load_segment_spec m a bias seg :
  tables_ok roots m a -> seg_ok seg -> 0 <= bias -> bias mod 4096 = 0 ->
  exists r m' a', load_segment m a root phys_offset bias seg = Done (r, (m', a')) /\ loads roots root m a m' a' /\
    (r = Ok tt -> seg_held m' a' bias seg).
Proof.
  intros Hok [Hby Hva Hms] Hb Hbm. unfold load_segment, seg_held.
  destruct (validate_segment_span (virt_addr seg) bias (mem_size seg)) as [[[[pb intra] np]|]|err] eqn:E.
  - destruct (validate_span _ _ _ _ _ _ E Hva Hms Hb Hbm) as (Epb & Ein & _ & Hnp & _ & Hmax).
    destruct (load_pages_spec seg pb intra (Z.to_nat np) m a 0) as (r & m' & a' & Hl & L & Hp); try done; try lia.
    { rewrite Ein. apply Z.mod_pos_bound. lia. }
    { rewrite Epb. pose proof (Z.div_pos (virt_addr seg + bias) 4096 ltac:(lia) ltac:(lia)). lia. }
    exists r, m', a'. split; [done|]. split; [done|]. intros Hr j Hj. apply Hp; [done|lia].
  - exists (Ok tt), m, a. split; [done|]. split; [by apply loads_refl|done].
  - exists (Err err), m, a. split; [done|]. split; [by apply loads_refl|done].
Qed.

(** A byte of a segment, through the translation. *)
Lemma seg_held_byte m a bias seg k :
  seg_ok seg -> 0 <= bias -> bias mod 4096 = 0 -> seg_held m a bias seg -> 0 <= k < mem_size seg ->
  exists p, translate_in m root (virt_addr seg + bias + k) = Some p /\
    page_access_in m root (virt_addr seg + bias + k) = Some (has (flags seg) PF_W) /\ read_byte m p = seg_byte (file_data seg) k.
Proof.
  intros [Hby Hva Hms] Hb Hbm. unfold seg_held.
  destruct (validate_segment_span (virt_addr seg) bias (mem_size seg)) as [[[[pb intra] np]|]|err] eqn:E; [| |done].
  - destruct (validate_span _ _ _ _ _ _ E Hva Hms Hb Hbm) as (Epb & Ein & Hsum & Hnp & Hsz & Hmax). intros Hheld Hk.
    pose proof (Z.div_mod (intra + k) 4096 ltac:(lia)) as Hd. pose proof (Z.mod_pos_bound (intra + k) 4096 ltac:(lia)) as Ho.
    assert (0 <= intra) by (rewrite Ein; apply Z.mod_pos_bound; lia). set (j := (intra + k) / 4096) in *. set (o := (intra + k) mod 4096) in *.
    assert (0 <= j) by (apply Z.div_pos; lia). destruct (Hheld j ltac:(nia)) as [f [H1 _ _ H4]].
    set (v := virt_addr seg + bias + k). assert (v = pb + j * 4096 + o) as Ev by (unfold v; lia).
    assert (pb mod 4096 = 0) as Hpm by (rewrite Epb; apply Z.mod_mul; lia).
    assert (Z.land v 0xFFF = o) as Eo.
    { change 0xFFF with (Z.ones 12). rewrite Z.land_ones by lia. change (2 ^ 12) with 4096. rewrite Ev.
      replace (pb + j * 4096 + o) with (o + (pb / 4096 + j) * 4096) by (pose proof (Z.div_mod pb 4096 ltac:(lia)); lia).
      rewrite Z_mod_plus_full. by apply Z.mod_small. }
    exists (f + o). rewrite translate_resolve, access_resolve, (H1 v), Eo.
    + split; [done|]. split; [done|]. rewrite H4 by lia. f_equal. lia.
    + unfold page_of. f_equal. rewrite Ev. replace (pb + j * 4096 + o) with (o + (pb / 4096 + j) * 4096) by (pose proof (Z.div_mod pb 4096 ltac:(lia)); lia).
      rewrite Z.div_add, (Z.div_small o) by lia. replace (pb + j * 4096) with ((pb / 4096 + j) * 4096) by (pose proof (Z.div_mod pb 4096 ltac:(lia)); lia).
      by rewrite Z.div_mul by lia.
  - intros _ Hk. exfalso. revert E. unfold validate_segment_span, checked_add, checked_mul.
    destruct (_ <? _); [|done]. destruct (_ <? _); [|done]. 
    assert (0 <= Z.land (virt_addr seg) 0xFFF) by (apply Z.land_nonneg; lia).
    destruct (Z.eqb_spec ((Z.land (virt_addr seg) 0xFFF + mem_size seg + 4095) / 4096) 0) as [E0|].
    + intros _. apply Z.div_small_iff in E0; lia.
    + destruct (_ <? _); [|done]. destruct (_ <? _); [|done]. by destruct (_ <? _).
Qed.
End load_segments.

(** ** What the parser hands on *)

Lemma read_le_range data off n x : is_bytes data -> 0 <= off -> 0 <= n -> read_le data off n = Done (Some x) -> in_uint (n * 8) x.
Proof.
  intros Hd Ho Hn. unfold read_le. unfold add_uint. destruct (_ <? _); [|done]. cbn. intros [= H].
  destruct (get_range data off n) as [l|] eqn:E; [|done]. injection H as <-.
  assert (is_bytes l) as Hl.
  { unfold get_range in E. destruct (_ <=? _); [|done]. injection E as <-. apply Forall_take, Forall_drop, Hd. }
  pose proof (from_le_bound l Hl) as Hb. apply get_range_length in E; [|lia..]. by rewrite E in Hb.
Qed.

Lemma or_fail_Ok {A B} (x : exec (option A)) e (k : A -> exec (result ElfError B)) b :
  or_fail x e k = Done (Ok b) -> exists a, x = Done (Some a) /\ k a = Done (Ok b).
Proof. unfold or_fail. destruct x as [[a|]|]; cbn; try done. eauto. Qed.

Lemma parse_Ok data e :
  is_bytes data -> parse data = Done (Ok e) ->
  data_ e = data /\ 0 <= phoff e /\ 0 <= phentsize e /\ in_uint 64 (entry_ e) /\ (e_type e = ET_EXEC \/ e_type e = ET_DYN).
Proof.
  intros Hd. unfold parse. destruct (_ <? 64); [done|]. do 3 (destruct (negb _); [done|]).
  intros (ty & H1 & H)%or_fail_Ok. destruct (negb (ty =? ET_EXEC) && negb (ty =? ET_DYN)) eqn:Et; [done|].
  apply or_fail_Ok in H as (mach & _ & H). destruct (negb (mach =? EM_X86_64)); [done|].
  apply or_fail_Ok in H as (en & He & H). apply or_fail_Ok in H as (po & Hp & H). apply or_fail_Ok in H as (ps & Hs & H).
  apply or_fail_Ok in H as (pn & _ & H). destruct ((ps <? 56) || (po =? 0) || (pn =? 0)); [done|]. revert H. unfold mul_uint, add_uint.
  destruct (_ <? _); [|done]. cbn. destruct (_ <? _); [|done]. cbn. destruct (_ <? _); [done|]. intros [= <-]. cbn.
  apply read_le_range in He; [|done|lia|lia]. apply read_le_range in Hp; [|done|lia|lia]. apply read_le_range in Hs; [|done|lia|lia].
  unfold in_uint in *. split; [done|]. split; [lia|]. split; [lia|]. split; [lia|].
  apply andb_false_iff in Et as [Et|Et]; apply negb_false_iff, Z.eqb_eq in Et; auto.
Qed.

Lemma segment_at_ok e i seg :
  is_bytes (data_ e) -> 0 <= phoff e -> 0 <= phentsize e -> 0 <= i -> segment_at e i = Done (Some (Ok seg)) -> seg_ok seg.
Proof.
  intros Hd Hpo Hps Hi. unfold segment_at. destruct (mul_uint 64 i (phentsize e)) as [row|] eqn:Er; [|done]. cbn [mbind exec_bind].
  destruct (add_uint 64 (phoff e) row) as [base|] eqn:Eb; [|done]. cbn [mbind exec_bind].
  assert (0 <= base).
  { unfold mul_uint in Er. destruct (_ <? 2 ^ 64) in Er; [|done]. injection Er as <-.
    unfold add_uint in Eb. destruct (_ <? 2 ^ 64) in Eb; [|done]. injection Eb as <-. nia. }
  destruct (r_u32 (data_ e) base) as [[ty|]|]; cbn [mbind exec_bind]; try done. destruct (negb _); [done|].
  destruct (or_fail _ _ _) as [r|] eqn:E; [|done]. cbn. intros [= ->].
  apply or_fail_Ok in E as (fl & _ & E). apply or_fail_Ok in E as (ofs & _ & E). apply or_fail_Ok in E as (va & Hva & E).
  apply or_fail_Ok in E as (fs & _ & E). apply or_fail_Ok in E as (ms & Hms & E). revert E. unfold add_uint. destruct (_ <? _); [|done]. cbn.
  destruct (get_range (data_ e) ofs fs) as [l|] eqn:El; [|done]. intros [= <-].
  apply read_le_range in Hva; [|done|lia|lia]. apply read_le_range in Hms; [|done|lia|lia]. unfold in_uint in *.
  split; cbn; [|lia|lia]. unfold get_range in El. destruct (_ <=? _); [|done]. injection El as <-. apply Forall_take, Forall_drop, Hd.
Qed.

Lemma load_bias_ok e : 0 <= load_bias e /\ load_bias e mod 4096 = 0.
Proof. unfold load_bias. by destruct (_ =? _). Qed.

(** ** Loading a program *)

Section load_program.
Context (roots : list Z) (root phys_offset : Z) (Hroot : root ∈ roots) (Hpo2 : phys_offset + 2 ^ 52 <= 2 ^ 64).
Context (e : Elf64) (Hdata : is_bytes (data_ e)) (Hoff : 0 <= phoff e) (Hent : 0 <= phentsize e).

Lemma load_all_spec n m a idx segs :
  tables_ok roots m a -> 0 <= idx -> segments_from e idx n = Done segs ->
  exists r m' a', load_all e m a root phys_offset idx n = Done (r, (m', a')) /\ loads roots root m a m' a' /\
    (r = Ok tt -> Forall (fun s => exists seg, s = Ok seg /\ seg_ok seg /\ seg_held roots root m' a' (load_bias e) seg) segs).
Proof.
  revert m a idx segs. induction n as [|n IH]; intros m a idx segs Hok Hidx Hsegs; cbn [load_all segments_from] in *.
  { injection Hsegs as <-. exists (Ok tt), m, a. split; [done|]. split; [by apply loads_refl|constructor]. }
  destruct (segment_at e idx) as [s|] eqn:Es; [|done]. cbn [mbind exec_bind] in *.
  destruct (segments_from e (idx + 1) n) as [rest|] eqn:Er; [|done]. injection Hsegs as <-.
  destruct s as [[seg|err]|]; [| |by apply IH; [done|lia|]].
  - pose proof (segment_at_ok e idx seg Hdata Hoff Hent Hidx Es) as Hseg. destruct (load_bias_ok e) as [Hb Hbm].
    destruct (load_segment_spec roots root phys_offset Hroot Hpo2 m a (load_bias e) seg Hok Hseg Hb Hbm) as (r1 & m1 & a1 & -> & L1 & H1).
    cbn [mbind exec_bind]. destruct r1 as [[]|err].
    + destruct (IH m1 a1 (idx + 1) rest (ld_tables _ _ _ _ _ _ L1) ltac:(lia) Er) as (r & m' & a' & -> & L2 & H2).
      exists r, m', a'. split; [done|]. split; [by eapply loads_trans|]. intros Hr. constructor; [|by apply H2].
      exists seg. split; [done|]. split; [done|]. eapply seg_held_loads; [exact L2|by apply H1].
    + exists (Err err), m1, a1. split; [done|]. split; [done|done].
  - exists (Err err), m, a. split; [done|]. split; [by apply loads_refl|done].
Qed.
End load_program.

(** C10. Functional behaviour: loading a program with absolute addresses ([ET_EXEC]).  Whatever bytes the
    file has, if the offsets of its headers do not overflow, the loader returns; every other address
    space and the kernel half translate as before and the tables stay well formed, also when it
    fails half way; and when it succeeds, it returns the entry point of the header, and every byte of
    every loadable segment is mapped with the write permission of its segment and holds the byte of
    the file image or, past it, zero. *)
Theorem elf_load_exact roots m a root phys_offset file e segs :
  tables_ok roots m a -> root ∈ roots -> phys_offset + 2 ^ 52 <= 2 ^ 64 ->
  is_bytes file -> parse file = Done (Ok e) -> e_type e = ET_EXEC -> load_segments e = Done segs ->
  exists r m' a', map_and_load_into e m a root phys_offset = Done (r, (m', a')) /\ tables_ok roots m' a' /\
    (forall r' v, r' ∈ roots -> r' <> root \/ ~ user_half v -> translate_in m' r' v = translate_in m r' v) /\
    match r with
    | Err _ => True
    | Ok entry => entry = entry_ e /\ forall s, s ∈ segs -> exists seg, s = Ok seg /\
        forall k, 0 <= k < mem_size seg -> exists p, translate_in m' root (virt_addr seg + k) = Some p /\
          page_access_in m' root (virt_addr seg + k) = Some (has (flags seg) PF_W) /\ read_byte m' p = seg_byte (file_data seg) k
    end.
Proof.
  intros Hok Hroot Hpo2 Hf Hparse Hty Hsegs.
  destruct (parse_Ok file e Hf Hparse) as (Hd & Hoff & Hent & Hen & _). rewrite <- Hd in Hf.
  destruct (load_all_spec roots root phys_offset Hroot Hpo2 e Hf Hoff Hent (Z.to_nat (phnum e)) m a 0 segs Hok ltac:(lia) Hsegs)
    as (r & m' & a' & Hl & [Htab Hother _ _] & Hheld).
  assert (load_bias e = 0) as Hb by (unfold load_bias; by rewrite Hty).
  assert (forall r' v, r' ∈ roots -> r' <> root \/ ~ user_half v -> translate_in m' r' v = translate_in m r' v) as Htr.
  { intros r' v Hr' Hv. by rewrite !translate_resolve, Hother. }
  unfold map_and_load_into. rewrite Hl, Hb. cbn [mbind exec_bind]. destruct r as [[]|err].
  - cbn. rewrite add_uint_Done by (unfold in_uint in Hen; lia). cbn. exists (Ok (entry_ e + 0)), m', a'. split; [done|]. split; [done|]. split; [done|].
    split; [lia|]. intros s Hs. specialize (Hheld eq_refl). rewrite Forall_forall in Hheld. destruct (Hheld s Hs) as (seg & -> & Hseg & Hh).
    exists seg. split; [done|]. intros k Hk. rewrite Hb in Hh.
    pose proof (seg_held_byte roots root m' a' 0 seg k Hseg ltac:(lia) eq_refl Hh Hk) as Hbyte. by rewrite Z.add_0_r in Hbyte.
  - exists (Err err), m', a'. done.
Qed.

(** ** Files *)

Definition header (e_type phoff phnum : Z) : bytes :=
  ELF_MAGIC ++ [2; 1; 1; 0; 0; 0; 0; 0; 0; 0; 0; 0] ++ to_le 2 e_type ++ to_le 2 EM_X86_64 ++ to_le 4 1 ++ to_le 8 0x40000000 ++
  to_le 8 phoff ++ to_le 8 0 ++ to_le 4 0 ++ to_le 2 64 ++ to_le 2 56 ++ to_le 2 phnum ++ to_le 2 64 ++ to_le 2 0 ++ to_le 2 0.
Definition program_header (p_type p_flags p_offset p_vaddr p_filesz p_memsz : Z) : bytes :=
  to_le 4 p_type ++ to_le 4 p_flags ++ to_le 8 p_offset ++ to_le 8 p_vaddr ++ to_le 8 p_vaddr ++ to_le 8 p_filesz ++ to_le 8 p_memsz ++ to_le 8 4096.

(** The file of the loader's tests: one page at 0x4000_0000, its first 120 bytes the file itself. *)
Definition test_elf : bytes := header ET_EXEC 64 1 ++ program_header PT_LOAD 5 0 0x40000000 120 4096.

Lemma is_bytes_dec l : forallb (fun b => (0 <=? b) && (b <? 256)) l = true -> is_bytes l.
Proof.
  intros H. apply Forall_forall. intros b Hb%list_elem_of_In. rewrite forallb_forall in H. specialize (H b Hb).
  apply andb_true_iff in H as [H1%Z.leb_le H2%Z.ltb_lt]. unfold is_byte. lia.
Qed.

Lemma elf_load_exact_witness :
  exists e segs m' a' p0 p1, parse test_elf = Done (Ok e) /\ load_segments e = Done segs /\
    map_and_load_into e demo_mem demo_vm_alloc demo_boot 0 = Done (Ok 0x40000000, (m', a')) /\
    translate_in m' demo_boot 0x40000001 = Some p0 /\ read_byte m' p0 = 0x45 /\
    translate_in m' demo_boot 0x40000FFF = Some p1 /\ read_byte m' p1 = 0.
Proof.
  set (e := mkElf test_elf 0x40000000 ET_EXEC 64 56 1). set (seg := mkSegment 0x40000000 test_elf 4096 5).
  assert (parse test_elf = Done (Ok e)) as Hp by (vm_compute; reflexivity).
  assert (load_segments e = Done [Ok seg]) as Hs by (vm_compute; reflexivity).
  destruct (elf_load_exact [demo_boot] demo_mem demo_vm_alloc demo_boot 0 test_elf e [Ok seg] demo_tables
    (list_elem_of_here _ _) ltac:(lia) ltac:(apply is_bytes_dec; vm_compute; reflexivity) Hp eq_refl Hs) as (r & m' & a' & Hl & _ & _ & Hr).
  assert (match map_and_load_into e demo_mem demo_vm_alloc demo_boot 0 with Done (Ok _, _) => true | _ => false end = true) as Hok by (vm_compute; reflexivity).
  rewrite Hl in Hok. destruct r as [entry|]; [|discriminate Hok]. destruct Hr as [-> Hr].
  destruct (Hr (Ok seg) (list_elem_of_here _ _)) as (seg' & E & Hb). injection E as <-.
  destruct (Hb 1) as (p0 & H1 & _ & H2); [cbn; lia|]. destruct (Hb 0xFFF) as (p1 & H3 & _ & H4); [cbn; lia|].
  exists e, [Ok seg], m', a', p0, p1. split; [exact Hp|]. split; [exact Hs|]. split; [exact Hl|].
  split; [exact H1|]. split; [rewrite H2; vm_compute; reflexivity|]. split; [exact H3|]. rewrite H4. vm_compute. reflexivity.
Defined.

(** The size of the header table overflows [usize]: the parser panics instead of refusing the file. *)
Example parse_overflow : parse (header ET_EXEC (2 ^ 64 - 1) 1) = Panic.
Proof. vm_compute. reflexivity. Qed.

(** A segment that is both writable and executable is mapped so. *)
Example pte_flags_rwx : has (pte_flags (Z.lor PF_W PF_X)) PTE_WRITABLE = true /\ has (pte_flags (Z.lor PF_W PF_X)) PTE_NO_EXEC = false.
Proof. by vm_compute. Qed.

(** A program with no segment and one relocation whose target is an address of the kernel half. *)
Definition reloc_elf : bytes :=
  header ET_DYN 64 1 ++ program_header PT_DYNAMIC 6 120 0 48 48 ++
  to_le 8 DT_RELA ++ to_le 8 168 ++ to_le 8 DT_RELASZ ++ to_le 8 24 ++ to_le 8 0 ++ to_le 8 0 ++
  to_le 8 (0xFFFF800040000008 - 0x400000) ++ to_le 8 R_X86_64_RELATIVE ++ to_le 8 0x1234.

(** The targets of relocations are not confined to the user half: loading this file into an address
    space that shares the kernel half writes a word of the file's choice at a kernel address of the
    file's choice (0x40_1234 at physical 0x4000_0008, where the boot tables map
    0xFFFF_8000_4000_0008), and reports success. *)
Theorem reloc_writes_kernel :
  exists e m' a', parse reloc_elf = Done (Ok e) /\
    map_and_load_into e demo_mem demo_vm_alloc demo_boot 0 = Done (Ok 0x40400000, (m', a')) /\
    ~ user_half 0xFFFF800040000008 /\ translate_in demo_mem demo_boot 0xFFFF800040000008 = Some 0x40000008 /\
    read_word demo_mem 0x40000008 = 0 /\ read_word m' 0x40000008 = 0x401234.
Proof.
  assert (match parse reloc_elf with
          | Done (Ok e) => match map_and_load_into e demo_mem demo_vm_alloc demo_boot 0 with
                           | Done (Ok en, (m', _)) => (en, read_word m' 0x40000008) | _ => (0, 0) end
          | _ => (0, 0) end = (0x40400000, 0x401234)) as H by (vm_compute; reflexivity).
  destruct (parse reloc_elf) as [[e|]|]; try discriminate H.
  destruct (map_and_load_into e demo_mem demo_vm_alloc demo_boot 0) as [[[en|] [m' a']]|] eqn:E; try discriminate H.
  injection H as -> Hw. exists e, m', a'. split; [done|]. split; [exact E|]. split; [vm_compute; discriminate|].
  split; [vm_compute; reflexivity|]. split; [vm_compute; reflexivity|exact Hw].
Qed.

(** ** The scan of the dynamic section ends *)

Lemma r_u64_past data off : Z.of_nat (length data) < off + 8 -> off + 8 < 2 ^ 64 -> r_u64 data off = Done None.
Proof.
  intros Hp Hm. unfold r_u64, read_le. rewrite add_uint_Done by done. cbn. unfold get_range.
  destruct (Z.leb_spec (off + 8) (Z.of_nat (length data))); [lia|done].
Qed.

(** Termination: whatever the dynamic section holds, the scan stops at the end of the file at the latest:
    a unit of fuel for every byte of the file is more than it uses, and more fuel changes nothing. *)
Theorem find_rela_fuel data fuel fuel' pos dyn_offset dyn_size ro rs :
  0 <= pos -> (1 <= fuel <= fuel')%nat -> Z.of_nat (length data) <= pos + 16 * (Z.of_nat fuel - 1) ->
  find_rela fuel' data pos dyn_offset dyn_size ro rs = find_rela fuel data pos dyn_offset dyn_size ro rs.
Proof.
  revert fuel' pos ro rs. induction fuel as [|fuel IH]; intros fuel' pos ro rs Hp Hf Hl; [lia|]. destruct fuel' as [|fuel']; [lia|].
  cbn [find_rela]. destruct (add_uint 64 pos 16) as [p16|] eqn:E16; [|done]. cbn [mbind exec_bind].
  assert (p16 = pos + 16 /\ pos + 16 < 2 ^ 64) as [-> Hmax].
  { unfold add_uint in E16. destruct (Z.ltb_spec (pos + 16) (2 ^ 64)); [|done]. by injection E16 as <-. }
  destruct (add_uint 64 dyn_offset dyn_size) as [stop|]; [|done]. cbn [mbind exec_bind]. destruct (negb (pos + 16 <=? stop)); [done|].
  destruct (Z.lt_ge_cases (Z.of_nat (length data)) (pos + 8)) as [Hpast|Hin].
  - rewrite (r_u64_past data pos) by lia. cbn [unwrap_or_0 mbind exec_bind default option_bind].
    destruct (unwrap_or_0 (r_u64 data (pos + 8))); done.
  - destruct (unwrap_or_0 (r_u64 data pos)) as [tag|]; [|done]. cbn [mbind exec_bind].
    destruct (unwrap_or_0 (r_u64 data (pos + 8))) as [val|]; [|done]. cbn [mbind exec_bind]. destruct (tag =? 0); [done|]. apply IH; lia.
Qed.
Lemma find_rela_fuel_witness :
  find_rela 1000 reloc_elf 120 120 48 0 0 = find_rela (length reloc_elf) reloc_elf 120 120 48 0 0.
Proof. apply (find_rela_fuel reloc_elf (length reloc_elf) 1000 120 120 48 0 0); [lia|vm_compute; lia|vm_compute; discriminate]. Defined.
