(* ===== verification/UserMem.v ===== *)
(** * User memory

    [nexacore-kernel/src/bare_metal/uaccess.rs]: the copies between kernel buffers and user memory;
    the buffer validation of [usermode.rs]; and [user_stack.rs]: the user stacks of a process.  The
    processor's own loads and stores go through the page tables at CR3 as the architecture defines it
    ([mmu_walk]); an access that is not mapped, or a store to a read-only page, is a page fault, which halts the kernel. *)

From S2P Require Import Prelude Bitmap Memory Words Paging Elf.

(** ** The processor's accesses

    The address translation of the x86-64 manuals, written with arithmetic on the entries and apart
    from the kernel's walks: level 3 is the PML4; bit 0 of an entry is present, bit 1 writable, bit 2
    user, bit 7 a large page at the two middle levels; a permission is granted when every level grants
    it.  The results are the physical address and whether the page is writable and user. *)
Fixpoint mmu_walk (m : memory) (level : nat) (table v : Z) : option (Z * bool * bool) :=
  let bits := 12 + 9 * Z.of_nat level in
  let e := read_word m (table + 8 * (v / 2 ^ bits mod 512)) in
  let base k := e mod 2 ^ 52 / 2 ^ k * 2 ^ k in
  if Z.testbit e 0 then
    match level with
    | O => Some (base 12 + v mod 2 ^ 12, Z.testbit e 1, Z.testbit e 2)
    | S level' =>
        if Z.testbit e 7 && (Z.of_nat level <? 3) then Some (base bits + v mod 2 ^ bits, Z.testbit e 1, Z.testbit e 2)
        else '(p, w, u) ← mmu_walk m level' (base 12) v; Some (p, Z.testbit e 1 && w, Z.testbit e 2 && u)
    end
  else None.

(** Loads and stores of the kernel at CR3. *)
Fixpoint load_bytes (m : memory) (root v : Z) (n : nat) : exec bytes :=
  match n with
  | O => Done []
  | S n =>
      match mmu_walk m 3 root v with
      | None => Panic
      | Some (p, _, _) => bs ← load_bytes m root (v + 1) n; Done (read_byte m p :: bs)
      end
  end.
Fixpoint store_bytes (m : memory) (root v : Z) (bs : bytes) : exec memory :=
  match bs with
  | [] => Done m
  | b :: bs =>
      match mmu_walk m 3 root v with
      | Some (p, true, _) => store_bytes (write_byte m p b) root (v + 1) bs
      | _ => Panic
      end
  end.

(** ** [uaccess.rs] *)

Definition user_range_ok (ptr len : Z) : bool :=
  if len =? 0 then true
  else match checked_add 64 ptr len with
       | None => false
       | Some stop => stop <=? USER_HALF_END
       end.

(** [read_cr3() & !0xFFF]. *)
Definition cr3_root (cr3 : Z) : Z := Z.land cr3 (not_uint 64 0xFFF).

Definition user_range_accessible (m : memory) (phys_offset cr3 user_ptr len : Z) (write : bool) : bool :=
  if phys_offset =? 0 then false else range_accessible_in m (cr3_root cr3) user_ptr len write.

(** The result, and [dst] after the call. *)
Definition copy_from_user (m : memory) (phys_offset cr3 : Z) (dst : bytes) (user_ptr : Z) : exec (bool * bytes) :=
  let len := Z.of_nat (length dst) in
  if negb (user_range_ok user_ptr len) then Done (false, dst)
  else if len =? 0 then Done (true, dst)
  else if negb (user_range_accessible m phys_offset cr3 user_ptr len false) then Done (false, dst)
  else bs ← load_bytes m (cr3_root cr3) user_ptr (length dst); Done (true, bs).

Definition copy_to_user (m : memory) (phys_offset cr3 user_ptr : Z) (src : bytes) : exec (bool * memory) :=
  let len := Z.of_nat (length src) in
  if negb (user_range_ok user_ptr len) then Done (false, m)
  else if len =? 0 then Done (true, m)
  else if negb (user_range_accessible m phys_offset cr3 user_ptr len true) then Done (false, m)
  else m ← store_bytes m (cr3_root cr3) user_ptr src; Done (true, m).

Definition copy_from_user_vec (m : memory) (phys_offset cr3 user_ptr len max : Z) : exec (option bytes) :=
  if (len =? 0) || (max <? len) then Done None
  else
    r ← copy_from_user m phys_offset cr3 (replicate (Z.to_nat len) 0) user_ptr;
    let '(ok, buf) := r in
    Done (if (ok : bool) then Some buf else None).

Definition copy_user_str (m : memory) (phys_offset cr3 user_ptr len max : Z) : exec (option bytes) :=
  if user_ptr =? 0 then Done None
  else
    o ← copy_from_user_vec m phys_offset cr3 user_ptr len max;
    Done (match o with Some bs => if utf8_valid bs then Some bs else None | None => None end).

(** ** [usermode.rs] *)

Inductive ValidateError := OutOfRange | NotMapped.

(** The walk tests PRESENT and USER at each level, and nothing else. *)
Definition is_user_page (p : PageMapper) (m : memory) (virt : Z) : bool :=
  let entry4 := entry m (root_phys p) (Z.land (Z.shiftr virt 39) 0x1FF) in
  if negb (has entry4 PTE_PRESENT) || negb (has entry4 PTE_USER) then false
  else
    let entry3 := entry m (Z.land entry4 FRAME_MASK) (Z.land (Z.shiftr virt 30) 0x1FF) in
    if negb (has entry3 PTE_PRESENT) || negb (has entry3 PTE_USER) then false
    else
      let entry2 := entry m (Z.land entry3 FRAME_MASK) (Z.land (Z.shiftr virt 21) 0x1FF) in
      if negb (has entry2 PTE_PRESENT) || negb (has entry2 PTE_USER) then false
      else
        let entry1 := entry m (Z.land entry2 FRAME_MASK) (Z.land (Z.shiftr virt 12) 0x1FF) in
        has entry1 PTE_PRESENT && has entry1 PTE_USER.

(** One unit of fuel for each page. *)
Fixpoint validate_loop (fuel : nat) (p : PageMapper) (m : memory) (page last_page : Z) : result ValidateError () :=
  if last_page <? page then Ok tt
  else
    match fuel with
    | O => Ok tt
    | S fuel =>
        if negb (bool_decide (is_Some (translate p m page))) then Err NotMapped
        else if negb (is_user_page p m page) then Err NotMapped
        else match checked_add 64 page 0x1000 with
             | Some next => validate_loop fuel p m next last_page
             | None => Ok tt
             end
    end.
Definition validate_user_buffer (m : memory) (ptr len : Z) (p : PageMapper) : result ValidateError () :=
  match checked_add 64 ptr len with
  | None => Err OutOfRange
  | Some stop =>
      if USER_HALF_END <? stop then Err OutOfRange
      else if len =? 0 then Ok tt
      else
        let first_page := Z.land ptr (not_uint 64 0xFFF) in
        let last_page := Z.land (stop - 1) (not_uint 64 0xFFF) in
        validate_loop (Z.to_nat ((last_page - first_page) / 0x1000 + 1)) p m first_page last_page
  end.

(** ** [user_stack.rs] *)

Definition USER_STACK_VA_BASE : Z := 0x4000000000.
Definition USER_STACK_VA_END : Z := 0x4080000000.
Definition USER_STACK_SIZE : Z := 0x4000.
Definition USER_STACK_STRIDE : Z := 0x8000.

Definition slot_writable_base (n : Z) : option Z :=
  off ← checked_mul 64 n USER_STACK_STRIDE;
  slot_base ← checked_add 64 USER_STACK_VA_BASE off;
  writable_base ← checked_add 64 slot_base USER_STACK_SIZE;
  writable_top ← checked_add 64 writable_base USER_STACK_SIZE;
  if USER_STACK_VA_END <? writable_top then None else Some writable_base.

Definition stack_flags : Z := Z.lor (Z.lor (Z.lor PTE_PRESENT PTE_WRITABLE) PTE_USER) PTE_NO_EXEC.

(** [for page_i in 0..num_pages], [n] pages from [page_i]; false for an early [None]. *)
Fixpoint map_stack (m : memory) (a : BitmapFrameAllocator) (pml4_phys writable_base page_i : Z) (n : nat) : exec (bool * vm) :=
  match n with
  | O => Done (true, (m, a))
  | S n =>
      '(f, a) ← alloc_frame a;
      match f with
      | None => Done (false, (m, a))
      | Some frame =>
          '(ok, (m, a)) ← map_user_4k pml4_phys m a (writable_base + page_i * 4096) frame stack_flags;
          if negb (ok : bool) then Done (false, (m, a)) else map_stack m a pml4_phys writable_base (page_i + 1) n
      end
  end.
(** The result, [next_slot] after the call, and the memory and allocator. *)
Definition allocate_user_stack (next_slot : Z) (pml4_phys : Z) (m : memory) (a : BitmapFrameAllocator) : exec (option Z * Z * vm) :=
  match slot_writable_base next_slot with
  | None => Done (None, next_slot, (m, a))
  | Some writable_base =>
      '(ok, v) ← map_stack m a pml4_phys writable_base 0 (Z.to_nat (USER_STACK_SIZE / 4096));
      if negb ok then Done (None, next_slot, v)
      else match checked_add 64 next_slot 1 with
           | None => Done (None, next_slot, v)
           | Some next => Done (Some (writable_base + USER_STACK_SIZE), next, v)
           end
  end.

(** ** The kernel's walks agree with the processor *)

Lemma testbit_has e k : 0 <= k -> Z.testbit e k = has e (2 ^ k).
Proof. intros Hk. symmetry. by apply land_pow2. Qed.
Lemma mmu_entry m n t v : read_word m (t + 8 * (v / 2 ^ (12 + 9 * Z.of_nat n) mod 512)) = entry m t (idx n v).
Proof.
  unfold entry, idx, shift. change 0x1FF with (Z.ones 9). rewrite Z.land_ones, Z.shiftr_div_pow2 by lia. done.
Qed.
Lemma mmu_base e lo : 0 <= lo <= 52 -> e mod 2 ^ 52 / 2 ^ lo * 2 ^ lo = Z.land e (mask_from lo).
Proof. intros Hlo. by rewrite land_mask_from. Qed.
(** The walk at an entry that is not a leaf. *)
Lemma mmu_leaf n e : Z.testbit e 7 && (Z.of_nat (S n) <? 3) = leaf_at (S n) e.
Proof.
  rewrite testbit_has by done. destruct n as [|[|n]]; cbn [leaf_at]; try apply andb_true_r.
  rewrite (proj2 (Z.ltb_ge _ _)) by lia. by rewrite andb_false_r.
Qed.
Lemma mmu_resolve n m t v : (n <= 3)%nat -> fst <$> mmu_walk m n t v = resolve n m t v.
Proof.
  revert t. induction n as [|n IH]; intros t Hn; cbn [mmu_walk resolve]; rewrite mmu_entry, (testbit_has _ 0) by lia;
    change (has ?e (2 ^ 0)) with (is_present e); destruct (is_present _); cbn [negb]; try done.
  - cbn [leaf_at fmap option_fmap option_map fst]. rewrite mmu_base, (testbit_has _ 1) by lia. unfold leaf_addr. by rewrite Z.land_ones.
  - set (e := entry m t (idx (S n) v)). rewrite mmu_leaf. destruct (leaf_at (S n) e).
    + cbn [fmap option_fmap option_map fst]. rewrite mmu_base, (testbit_has _ 1) by lia. unfold leaf_addr. rewrite Z.land_ones by (unfold shift; lia). done.
    + rewrite <- IH by lia. rewrite mmu_base by lia. change (Z.land e (mask_from 12)) with (phys_addr e).
      destruct (mmu_walk m n (phys_addr e) v) as [[[p w] u]|]; [|done]. cbn [fmap option_fmap option_map mbind option_bind fst]. by rewrite (testbit_has _ 1).
Qed.
(** What [translate] and [page_access] compute is what the processor does with the address. *)
Lemma mmu_translate m root v : translate_in m root v = (fun r => r.1.1) <$> mmu_walk m 3 root v.
Proof. rewrite translate_resolve, <- mmu_resolve by lia. by destruct (mmu_walk m 3 root v) as [[[? ?] ?]|]. Qed.
Lemma mmu_access m root v : page_access_in m root v = (fun r => r.1.2) <$> mmu_walk m 3 root v.
Proof. rewrite access_resolve, <- mmu_resolve by lia. by destruct (mmu_walk m 3 root v) as [[[? ?] ?]|]. Qed.
Lemma mmu_of_resolve m root v p w : resolve 3 m root v = Some (p, w) -> exists u, mmu_walk m 3 root v = Some (p, w, u).
Proof. rewrite <- mmu_resolve by lia. destruct (mmu_walk m 3 root v) as [[[? ?] u]|]; [|done]. intros [= -> ->]. eauto. Qed.

(** ** Copies never fault *)

Definition mapped_in (m : memory) (root : Z) (write : bool) (v len : Z) : Prop := forall x, v <= x < v + len -> accessible m root write x.
(** The byte a load at [v] reads. *)
Definition user_byte (m : memory) (root v : Z) : Z :=
  match translate_in m root v with Some p => read_byte m p | None => 0 end.

Lemma accessible_resolve m root write v :
  accessible m root write v <-> exists p w, resolve 3 m root v = Some (p, w) /\ (write = true -> w = true).
Proof.
  unfold accessible. rewrite access_resolve. destruct (resolve 3 m root v) as [[p w]|]; cbn.
  - split; [intros (w' & [= <-] & ?); eauto|]. intros (p' & w' & [= <- <-] & ?). eauto.
  - split; [by intros (? & ? & _)|by intros (? & ? & ? & _)].
Qed.

Lemma load_bytes_spec m root v n :
  mapped_in m root false v (Z.of_nat n) -> load_bytes m root v n = Done (user_byte m root <$> seqZ v (Z.of_nat n)).
Proof.
  revert v. induction n as [|n IH]; intros v Hm; [done|]. cbn [load_bytes].
  destruct (proj1 (accessible_resolve m root false v)) as (p & w & Hr & _); [apply Hm; lia|].
  assert (translate_in m root v = Some p) as Ht by (by rewrite translate_resolve, Hr). destruct (mmu_of_resolve _ _ _ _ _ Hr) as [u Hu].
  rewrite Hu, IH by (intros x Hx; apply Hm; lia). cbn [mbind exec_bind]. rewrite (seqZ_cons v) by lia.
  replace (Z.pred (Z.of_nat (S n))) with (Z.of_nat n) by lia. cbn [fmap list_fmap]. unfold Z.succ. f_equal. f_equal. unfold user_byte. by rewrite Ht.
Qed.

Section stores.
Context (roots : list Z) (root : Z) (Hroot : root ∈ roots) (a : BitmapFrameAllocator).

Definition page_base (p : Z) : Z := p - p mod 4096.

(** What a run of stores to user pages leaves alone. *)
Record stored (m m' : memory) (touched : Z -> Prop) : Prop := mkStored {
  st_tables : tables_ok roots m' a;
  st_resolve : forall r v, r ∈ roots -> resolve 3 m' r v = resolve 3 m r v;
  st_data : forall t, data roots m a t -> data roots m' a t;
  st_bytes : forall q, ~ touched q -> read_byte m' q = read_byte m q;
}.

Lemma store_one m p b :
  tables_ok roots m a -> data roots m a (page_base p) -> is_byte b ->
  stored m (write_byte m p b) (eq p) /\ read_byte (write_byte m p b) p = b.
Proof.
  intros Hok Hd Hb. set (f := page_base p) in *. set (off := p mod 4096).
  assert (p = f + off) as Ep by (unfold f, page_base, off; lia).
  assert (0 <= off < 4096) as Hoff by (apply Z.mod_pos_bound; lia).
  destruct (loads_fill roots root Hroot m a f (write_byte m p b) Hok Hd) as (Hok' & Hres & Df & Hdt & _ & _).
  - apply write_byte_words; [apply Hok|done].
  - intros t j Ht Hj Hne. rewrite Ep. apply (write_bytes_entry m f off [b]); try done; [apply Hd|lia|simpl; lia].
  - split; [|by apply read_write_byte_same]. split; [done|done| |].
    + intros t Ht. destruct (decide (t = f)) as [->|]; [done|]. by apply Hdt.
    + intros q Hq. apply read_write_byte_other; [done|]. intros E. by apply Hq.
Qed.

Lemma store_bytes_spec bs m v :
  tables_ok roots m a -> is_bytes bs ->
  (forall x, v <= x < v + Z.of_nat (length bs) -> exists p, resolve 3 m root x = Some (p, true) /\ data roots m a (page_base p)) ->
  exists m', store_bytes m root v bs = Done m' /\
    stored m m' (fun q => exists x, v <= x < v + Z.of_nat (length bs) /\ translate_in m root x = Some q) /\
    ((forall x y p, v <= x < v + Z.of_nat (length bs) -> v <= y < v + Z.of_nat (length bs) ->
        translate_in m root x = Some p -> translate_in m root y = Some p -> x = y) ->
     user_byte m' root <$> seqZ v (Z.of_nat (length bs)) = bs).
Proof.
  intros Hok Hbs. revert m v Hok. induction Hbs as [|b bs Hb Hbs IH]; intros m v Hok Hm.
  { exists m. split; [done|]. split; [by split|done]. }
  cbn [length] in *. destruct (Hm v ltac:(lia)) as (p & Hp & Hd).
  destruct (store_one m p b Hok Hd Hb) as ([Hok1 Hres1 Hd1 Hby1] & Hself).
  assert (forall r x, r ∈ roots -> translate_in (write_byte m p b) r x = translate_in m r x) as Htr
    by (intros r x Hr; rewrite !translate_resolve; by rewrite Hres1).
  destruct (IH (write_byte m p b) (v + 1) Hok1) as (m' & Hst & [Hok' Hres' Hd' Hby'] & Hback).
  { intros x Hx. destruct (Hm x ltac:(lia)) as (p' & Hp' & Hd''). exists p'. rewrite Hres1 by done. auto. }
  assert (translate_in m root v = Some p) as Htv by (by rewrite translate_resolve, Hp).
  exists m'. split; [|split; [split|]].
  - cbn [store_bytes]. destruct (mmu_of_resolve _ _ _ _ _ Hp) as [u Hu]. rewrite Hu. exact Hst.
  - done.
  - intros r x Hr. by rewrite Hres', Hres1.
  - auto.
  - intros q Hq. rewrite Hby'; [apply Hby1|].
    + intros ->. apply Hq. exists v. split; [lia|done].
    + intros (x & Hx & Hxq). apply Hq. exists x. rewrite Htr in Hxq by done. split; [lia|done].
  - intros Hinj. rewrite (seqZ_cons v) by lia. replace (Z.pred (Z.of_nat (S (length bs)))) with (Z.of_nat (length bs)) by lia.
    cbn [fmap list_fmap]. f_equal.
    + unfold user_byte. rewrite translate_resolve, Hres', <- translate_resolve, Htr, Htv by done. rewrite Hby'; [done|].
      intros (x & Hx & Hxq). rewrite Htr in Hxq by done. assert (v = x) by (apply (Hinj v x p); lia || done). lia.
    + apply Hback. intros x y q Hx Hy. rewrite !Htr by done. apply Hinj; lia.
Qed.
End stores.

Lemma user_range_ok_iff ptr len : 0 <= ptr -> 0 < len -> user_range_ok ptr len = true <-> ptr + len <= USER_HALF_END.
Proof.
  intros Hp Hl. unfold user_range_ok, checked_add. destruct (Z.eqb_spec len 0); [lia|].
  unfold USER_HALF_END. destruct (Z.ltb_spec (ptr + len) (2 ^ 64)); [apply Z.leb_le|]. split; [done|lia].
Qed.
(** The guards of both copies on a range that is not empty. *)
Lemma copy_guard m phys_offset cr3 ptr len write :
  0 <= ptr -> 0 < len -> phys_offset <> 0 ->
  user_range_ok ptr len && user_range_accessible m phys_offset cr3 ptr len write = true <->
  ptr + len <= USER_HALF_END /\ mapped_in m (cr3_root cr3) write ptr len.
Proof.
  intros Hp Hl Hpo. rewrite andb_true_iff, user_range_ok_iff by done. unfold user_range_accessible.
  destruct (Z.eqb_spec phys_offset 0); [done|].
  split; intros [H1 H2]; (split; [done|]); unfold USER_HALF_END in H1.
  - exact (proj1 (range_accessible_exact m (cr3_root cr3) ptr len write ltac:(lia) ltac:(lia) ltac:(lia)) H2).
  - exact (proj2 (range_accessible_exact m (cr3_root cr3) ptr len write ltac:(lia) ltac:(lia) ltac:(lia)) H2).
Qed.

(** Safety: [copy_from_user] and the helpers over it never fault the kernel, whatever the pointer:
    the copy happens exactly when the range lies in the user half and every byte of it is mapped, and
    then delivers the bytes at those addresses; otherwise the buffer is left as it was. *)
Theorem copy_from_user_exact m phys_offset cr3 dst ptr :
  0 <= ptr -> phys_offset <> 0 ->
  let len := Z.of_nat (length dst) in
  exists ok : bool, copy_from_user m phys_offset cr3 dst ptr =
      Done (ok, if (ok : bool) then user_byte m (cr3_root cr3) <$> seqZ ptr len else dst) /\
    (ok = true <-> dst = [] \/ ptr + len <= USER_HALF_END /\ mapped_in m (cr3_root cr3) false ptr len).
Proof.
  intros Hp Hpo len. unfold copy_from_user. fold len. destruct (Z.eqb_spec len 0) as [E|Hne].
  { assert (dst = []) as -> by (destruct dst; [done|unfold len in E; simpl in E; lia]). exists true. split; [done|]. split; auto. }
  assert (0 < len) as Hl by (unfold len in *; lia). assert (dst <> []) as Hd by (intros ->; unfold len in Hne; simpl in Hne; lia).
  pose proof (copy_guard m phys_offset cr3 ptr len false Hp Hl Hpo) as Hg.
  destruct (user_range_ok ptr len); cbn [negb andb] in *.
  - destruct (user_range_accessible m phys_offset cr3 ptr len false); cbn [negb].
    + destruct (proj1 Hg eq_refl) as [Hend Hm]. rewrite load_bytes_spec by done. exists true. split; [done|]. split; [by right|done].
    + exists false. split; [done|]. split; [done|]. intros [?|H]; [done|]. by apply Hg.
  - exists false. split; [done|]. split; [done|]. intros [?|H]; [done|]. by apply Hg.
Qed.

(** C14. Functional: on well-formed page tables, where the range maps only frames that hold data (neither
    tables nor free frames), [copy_to_user] never faults the kernel and succeeds exactly when the range lies in the user
    half and every byte is mapped writable.  It then changes only the bytes of that range: no address
    space translates differently, no page table changes; and when no two addresses of the range share
    a byte, [copy_from_user] gives back what was written.  A refused copy writes nothing. *)
Theorem copy_to_user_exact roots m a phys_offset cr3 ptr src :
  tables_ok roots m a -> cr3_root cr3 ∈ roots -> phys_offset <> 0 -> 0 <= ptr -> is_bytes src ->
  let root := cr3_root cr3 in let len := Z.of_nat (length src) in
  (forall v p w, ptr <= v < ptr + len -> resolve 3 m root v = Some (p, w) -> data roots m a (page_base p)) ->
  exists (ok : bool) m', copy_to_user m phys_offset cr3 ptr src = Done (ok, m') /\
    (ok = true <-> src = [] \/ ptr + len <= USER_HALF_END /\ mapped_in m root true ptr len) /\
    (ok = false -> m' = m) /\
    stored roots a m m' (fun q => exists v, ptr <= v < ptr + len /\ translate_in m root v = Some q) /\
    (ok = true ->
     (forall x y p, ptr <= x < ptr + len -> ptr <= y < ptr + len -> translate_in m root x = Some p -> translate_in m root y = Some p -> x = y) ->
     forall dst, length dst = length src -> copy_from_user m' phys_offset cr3 dst ptr = Done (true, src)).
Proof.
  intros Hok Hroot Hpo Hp Hbs root len Hdata. unfold copy_to_user. fold len root.
  assert (stored roots a m m (fun q => exists v, ptr <= v < ptr + len /\ translate_in m root v = Some q)) as Hrefl by (by split).
  destruct (Z.eqb_spec len 0) as [E|Hne].
  { assert (src = []) as -> by (destruct src; [done|unfold len in E; simpl in E; lia]). exists true, m. split; [done|]. split; [split; auto|].
    split; [done|]. split; [done|]. intros _ _ dst Hd. by destruct dst. }
  assert (0 < len) as Hl by (unfold len in *; lia). assert (src <> []) as Hs by (intros ->; unfold len in Hne; simpl in Hne; lia).
  pose proof (copy_guard m phys_offset cr3 ptr len true Hp Hl Hpo) as Hg.
  destruct (user_range_ok ptr len) eqn:Hro; cbn [negb andb] in *.
  2:{ exists false, m. split; [done|]. split; [|done]. split; [done|]. intros [?|H]; [done|]. by apply Hg. }
  destruct (user_range_accessible m phys_offset cr3 ptr len true); cbn [negb].
  2:{ exists false, m. split; [done|]. split; [|done]. split; [done|]. intros [?|H]; [done|]. by apply Hg. }
  destruct (proj1 Hg eq_refl) as [Hend Hm].
  destruct (store_bytes_spec roots root Hroot a src m ptr Hok Hbs) as (m' & -> & Hst & Hback).
  { intros x Hx. destruct (proj1 (accessible_resolve m root true x) (Hm x Hx)) as (p & w & Hr & Hw). exists p.
    rewrite Hr, Hw by done. split; [done|]. by eapply Hdata. }
  cbn [mbind exec_bind]. exists true, m'. split; [done|]. split; [split; [by right|done]|]. split; [done|]. split; [done|].
  intros _ Hinj dst Hlen. unfold copy_from_user. rewrite Hlen. fold len root.
  pose proof (proj2 (copy_guard m' phys_offset cr3 ptr len false Hp Hl Hpo)) as Hg'. rewrite Hro in *. cbn [andb negb] in *.
  assert (mapped_in m' root false ptr len) as Hm'.
  { intros x Hx. apply accessible_resolve. destruct (proj1 (accessible_resolve m root true x) (Hm x Hx)) as (p & w & Hr & _).
    exists p, w. split; [|done]. by rewrite (st_resolve _ _ _ _ _ Hst). }
  rewrite Hg' by done. destruct (Z.eqb_spec len 0); [lia|]. cbn [negb]. rewrite load_bytes_spec by done. cbn. by rewrite Hback.
Qed.

(** ** User stacks *)

Lemma slot_base_iff n b :
  0 <= n -> slot_writable_base n = Some b <-> n < 65536 /\ b = USER_STACK_VA_BASE + n * USER_STACK_STRIDE + USER_STACK_SIZE.
Proof.
  intros Hn. unfold slot_writable_base, checked_mul, checked_add, USER_STACK_STRIDE, USER_STACK_VA_BASE, USER_STACK_VA_END, USER_STACK_SIZE.
  destruct (Z.ltb_spec (n * 0x8000) (2 ^ 64)); cbn [mbind option_bind]; [|split; [done|lia]].
  destruct (Z.ltb_spec (0x4000000000 + n * 0x8000) (2 ^ 64)); cbn [mbind option_bind]; [|split; [done|lia]].
  destruct (Z.ltb_spec (0x4000000000 + n * 0x8000 + 0x4000) (2 ^ 64)); cbn [mbind option_bind]; [|split; [done|lia]].
  destruct (Z.ltb_spec (0x4000000000 + n * 0x8000 + 0x4000 + 0x4000) (2 ^ 64)); cbn [mbind option_bind]; [|split; [done|lia]].
  destruct (Z.ltb_spec 0x4080000000 (0x4000000000 + n * 0x8000 + 0x4000 + 0x4000)); [split; [done|lia]|].
  split; [intros [= <-]; lia|]. intros [_ ->]. done.
Qed.

Lemma stack_leaf_ok phys : frame phys -> leaf_ok phys stack_flags.
Proof. intros Hp. split; [done|by vm_compute|by vm_compute]. Qed.

Section stacks.
Context (roots : list Z) (root : Z) (Hroot : root ∈ roots).

Lemma map_stack_spec n m a base i :
  tables_ok roots m a -> 0 <= base -> 0 <= i -> base mod 4096 = 0 -> base + (i + Z.of_nat n) * 4096 <= 2 ^ 47 ->
  exists (ok : bool) m' a', map_stack m a root base i n = Done (ok, (m', a')) /\ loads roots root m a m' a' /\
    (forall v, (forall j, i <= j < i + Z.of_nat n -> page_of v <> page_of (base + j * 4096)) -> resolve 3 m' root v = resolve 3 m root v) /\
    (ok = true -> forall j, i <= j < i + Z.of_nat n ->
       exists f content, is_free a f /\ holds_page roots m' a' root (base + j * 4096) f true content).
Proof.
  revert m a i. induction n as [|n IH]; intros m a i Hok Hb Hi Hbm Hmax; cbn [map_stack].
  { exists true, m, a. split; [done|]. split; [by apply loads_refl|]. split; [done|]. intros _ j Hj. lia. }
  destruct (alloc_frame_fresh a ltac:(apply Hok)) as [[-> _]|(f & a1 & -> & Hf & Ha1 & Hfree)]; cbn [mbind exec_bind].
  { exists false, m, a. split; [done|]. split; [by apply loads_refl|done]. }
  destruct (loads_alloc roots root m a f a1 Hok Hf Ha1 Hfree) as (L1 & Df1 & Dn). pose proof (ld_tables _ _ _ _ _ _ L1) as Hok1.
  set (V := base + i * 4096). assert (user_half V) as HV by (apply user_virt; unfold V; lia).
  unfold map_user_4k. destruct (map_4k_spec roots m a1 root V f stack_flags Hok1 Hroot (stack_leaf_ok _ ltac:(apply Df1))) as (ok & m2 & a2 & Hm & Hmap).
  rewrite Hm. cbn [mbind exec_bind].
  pose proof (loads_map roots root Hroot m a1 V f _ ok m2 a2 Hok1 HV (stack_leaf_ok _ ltac:(apply Df1)) Hm Hmap) as L2.
  pose proof (loads_trans _ _ _ _ _ _ _ _ L1 L2) as L12.
  assert (forall v, page_of v <> page_of V -> resolve 3 m2 root v = resolve 3 m root v) as Hel.
  { intros v Hv. apply (mp_elsewhere _ _ _ _ _ _ _ _ _ _ Hmap); [done|]. left. by rewrite path_page. }
  destruct ok; cbn [negb].
  2:{ exists false, m2, a2. split; [done|]. split; [done|]. split; [|done]. intros v Hv. apply Hel. apply Hv. lia. }
  destruct (IH m2 a2 (i + 1) (ld_tables _ _ _ _ _ _ L2) Hb ltac:(lia) Hbm ltac:(lia)) as (ok & m' & a' & Hs & L3 & Hout & Hpages).
  exists ok, m', a'. split; [done|]. split; [by eapply loads_trans|]. split.
  - intros v Hv. rewrite Hout, Hel; [done|apply Hv; lia|]. intros j Hj. apply Hv. lia.
  - intros Hk j Hj. destruct (decide (j = i)) as [->|].
    + exists f, (fun k => read_byte m2 (f + k)). split; [done|]. apply (ld_pages _ _ _ _ _ _ L3). split; [| |by apply (ld_data _ _ _ _ _ _ L2)|done].
      * intros v Hv. by rewrite (mp_true _ _ _ _ _ _ _ _ _ _ Hmap eq_refl v Hv).
      * apply (mp_small _ _ _ _ _ _ _ _ _ _ Hmap eq_refl).
    + destruct (Hpages Hk j ltac:(lia)) as (g & content & Hg & Hh). exists g, content. split; [|done].
      apply (mp_free _ _ _ _ _ _ _ _ _ _ Hmap), Hfree in Hg. apply Hg.
Qed.

(** Functional: allocating the next stack never panics.  When it succeeds, the four pages of the
    slot are mapped writable, each to a frame that was free, the top is returned and the counter
    advances; the guard below the slot, every other page of the process and every other address space
    translate as before.  When it fails the counter stays and nothing outside the slot changes. *)
Theorem allocate_user_stack_exact m a slot :
  tables_ok roots m a -> 0 <= slot ->
  exists r slot' m' a', allocate_user_stack slot root m a = Done (r, slot', (m', a')) /\ loads roots root m a m' a' /\
    (forall v, (forall j, 0 <= j < 4 -> page_of v <> page_of (USER_STACK_VA_BASE + slot * USER_STACK_STRIDE + USER_STACK_SIZE + j * 4096)) ->
       translate_in m' root v = translate_in m root v) /\
    match r with
    | Some top =>
        slot < 65536 /\ slot' = slot + 1 /\ top = USER_STACK_VA_BASE + slot' * USER_STACK_STRIDE /\
        forall v, top - USER_STACK_SIZE <= v < top ->
          exists f, is_free a f /\ data roots m' a' f /\ resolve 3 m' root v = Some (f + Z.land v 0xFFF, true)
    | None => slot' = slot
    end.
Proof.
  intros Hok Hs. unfold allocate_user_stack. destruct (slot_writable_base slot) as [base|] eqn:Eb.
  2:{ exists None, slot, m, a. split; [done|]. split; [by apply loads_refl|done]. }
  apply slot_base_iff in Eb as [Hlt ->]; [|done]. set (base := USER_STACK_VA_BASE + slot * USER_STACK_STRIDE + USER_STACK_SIZE).
  assert (base mod 4096 = 0) as Hbm.
  { unfold base, USER_STACK_VA_BASE, USER_STACK_STRIDE, USER_STACK_SIZE.
    replace (0x4000000000 + slot * 0x8000 + 0x4000) with ((0x4000004 + slot * 8) * 4096) by lia. by apply Z.mod_mul. }
  destruct (map_stack_spec (Z.to_nat (USER_STACK_SIZE / 4096)) m a base 0 Hok) as (ok & m' & a' & -> & L & Hout & Hpages);
    [unfold base, USER_STACK_VA_BASE, USER_STACK_STRIDE, USER_STACK_SIZE; lia|lia|done|
     change (Z.of_nat (Z.to_nat (USER_STACK_SIZE / 4096))) with 4; unfold base, USER_STACK_VA_BASE, USER_STACK_STRIDE, USER_STACK_SIZE; lia|].
  change (Z.of_nat (Z.to_nat (USER_STACK_SIZE / 4096))) with 4 in *. cbn [mbind exec_bind].
  assert (forall v, (forall j, 0 <= j < 4 -> page_of v <> page_of (base + j * 4096)) -> translate_in m' root v = translate_in m root v) as Hout'.
  { intros v Hv. rewrite !translate_resolve, Hout; [done|]. intros j Hj. apply Hv. lia. }
  destruct ok; cbn [negb]; [|by exists None, slot, m', a'].
  unfold checked_add. destruct (Z.ltb_spec (slot + 1) (2 ^ 64)); [|lia].
  exists (Some (base + USER_STACK_SIZE)), (slot + 1), m', a'. split; [done|]. split; [done|]. split; [done|].
  split; [done|]. split; [done|]. split; [unfold base, USER_STACK_STRIDE, USER_STACK_SIZE; lia|].
  intros v Hv. unfold USER_STACK_SIZE in Hv. set (j := (v - base) / 4096).
  assert (0 <= j < 4) as Hj by (split; [apply Z.div_pos; lia|apply Z.div_lt_upper_bound; lia]).
  destruct (Hpages eq_refl j ltac:(lia)) as (f & content & Hf & [H1 _ H3 _]). exists f. split; [done|]. split; [done|]. apply H1.
  unfold page_of. f_equal. pose proof (Z.div_mod base 4096 ltac:(lia)) as Hdb. rewrite Hbm in Hdb.
  pose proof (Z.div_mod (v - base) 4096 ltac:(lia)) as Hdv. fold j in Hdv. pose proof (Z.mod_pos_bound (v - base) 4096 ltac:(lia)).
  transitivity (base / 4096 + j); [symmetry; apply Z.div_unique with (r := (v - base) mod 4096); lia|].
  rewrite Z.div_add by lia. done.
Qed.
End stacks.

(** ** A process with one stack *)

Definition demo_stack : exec (option Z * Z * vm) := allocate_user_stack 0 demo_boot demo_mem demo_vm_alloc.
Lemma demo_stack_ok : match demo_stack with Done (Some top, 1, _) => top =? 0x4000008000 | _ => false end = true.
Proof. vm_compute. reflexivity. Qed.

Lemma allocate_user_stack_exact_witness :
  exists m' a' f, demo_stack = Done (Some 0x4000008000, 1, (m', a')) /\
    translate_in m' demo_boot 0x4000007FFF = Some (f + 0xFFF) /\ translate_in m' demo_boot 0x4000003FFF = None.
Proof.
  destruct (allocate_user_stack_exact [demo_boot] demo_boot (list_elem_of_here _ _) demo_mem demo_vm_alloc 0 demo_tables ltac:(lia))
    as (r & slot' & m' & a' & Hd & _ & Hout & Hr).
  pose proof demo_stack_ok as Hk. unfold demo_stack in *. rewrite Hd in Hk. destruct r as [top|]; [|done].
  destruct slot' as [|[]|]; try discriminate Hk. apply Z.eqb_eq in Hk. subst top. destruct Hr as (_ & _ & _ & Hr).
  destruct (Hr 0x4000007FFF) as (f & _ & _ & Hf); [unfold USER_STACK_SIZE; lia|].
  exists m', a', f. split; [exact Hd|]. rewrite translate_resolve, Hf. split; [reflexivity|].
  rewrite Hout; [vm_compute; reflexivity|]. intros j Hj. unfold page_of, USER_STACK_VA_BASE, USER_STACK_STRIDE, USER_STACK_SIZE.
  change (0x4000003FFF / 4096) with 0x4000003. replace (0x4000000000 + 0 * 0x8000 + 0x4000 + j * 4096) with ((0x4000004 + j) * 4096) by lia.
  rewrite Z.div_mul by lia. rewrite !Z.mod_small by lia. lia.
Defined.

(** The first page of the stack, as the copies see it. *)
Definition demo_user : vm := match demo_stack with Done (_, _, v) => v | Panic => (∅, demo_vm_alloc) end.
Lemma demo_user_page :
  tables_ok [demo_boot] demo_user.1 demo_user.2 /\
  exists f, data [demo_boot] demo_user.1 demo_user.2 f /\
    forall v, 0x4000004000 <= v < 0x4000005000 -> resolve 3 demo_user.1 demo_boot v = Some (f + Z.land v 0xFFF, true).
Proof.
  destruct (map_stack_spec [demo_boot] demo_boot (list_elem_of_here _ _) 4 demo_mem demo_vm_alloc 0x4000004000 0 demo_tables)
    as (ok & m' & a' & Hm & L & _ & Hpages); [lia|lia|reflexivity|lia|].
  assert (demo_stack = if negb ok then Done (None, 0, (m', a')) else Done (Some 0x4000008000, 1, (m', a'))) as E.
  { unfold demo_stack, allocate_user_stack. change (slot_writable_base 0) with (Some 0x4000004000).
    change (Z.to_nat (USER_STACK_SIZE / 4096)) with 4%nat. cbv beta iota. rewrite Hm. destruct ok; reflexivity. }
  pose proof demo_stack_ok as Hk. unfold demo_user. rewrite E in *. destruct ok; [|discriminate Hk]. cbn [negb fst snd].
  split; [apply L|]. destruct (Hpages eq_refl 0 ltac:(lia)) as (f & content & _ & [H1 _ H3 _]). exists f. split; [exact H3|].
  intros v Hv. apply H1. unfold page_of. f_equal. transitivity 0x4000004; [|reflexivity]. symmetry. apply Z.div_unique with (r := v - 0x4000004000); lia.
Qed.
#[local] Opaque demo_user.

Lemma copy_from_user_exact_witness :
  copy_from_user demo_user.1 1 demo_boot [7; 7] 0x4000004FFE =
    Done (true, [user_byte demo_user.1 demo_boot 0x4000004FFE; user_byte demo_user.1 demo_boot 0x4000004FFF]) /\
  copy_from_user demo_user.1 1 demo_boot [7] 0xFFFF800040000000 = Done (false, [7]).
Proof.
  destruct demo_user_page as [_ (f & _ & Hf)]. split.
  - destruct (copy_from_user_exact demo_user.1 1 demo_boot [7; 7] 0x4000004FFE ltac:(lia) ltac:(lia)) as (ok & Hc & Hok).
    rewrite (proj2 Hok) in Hc; [exact Hc|]. right. split; [vm_compute; discriminate|]. intros x Hx. apply accessible_resolve.
    eexists _, true. split; [apply Hf; simpl length in Hx; lia|reflexivity].
  - destruct (copy_from_user_exact demo_user.1 1 demo_boot [7] 0xFFFF800040000000 ltac:(lia) ltac:(lia)) as ([] & Hc & Hok); [|exact Hc].
    destruct (proj1 Hok eq_refl) as [H|[H _]]; [discriminate H|]. exfalso. apply H. reflexivity.
Defined.

Lemma copy_to_user_exact_witness :
  exists m', copy_to_user demo_user.1 1 demo_boot 0x4000004010 [104; 105] = Done (true, m') /\
    copy_from_user m' 1 demo_boot [0; 0] 0x4000004010 = Done (true, [104; 105]).
Proof.
  destruct demo_user_page as [Hok (f & Hd & Hf)].
  assert (forall v, 0x4000004010 <= v < 0x4000004012 -> Z.land v 0xFFF = v - 0x4000004000) as Hl.
  { intros v Hv. change 0xFFF with (Z.ones 12). rewrite Z.land_ones by lia. symmetry. apply Z.mod_unique with (q := 0x4000004); lia. }
  destruct (copy_to_user_exact [demo_boot] demo_user.1 demo_user.2 1 demo_boot 0x4000004010 [104; 105] Hok (list_elem_of_here _ _) ltac:(lia) ltac:(lia))
    as (ok & m' & Hc & Hk & _ & _ & Hback).
  - repeat constructor; lia.
  - intros v p w Hv Hr. simpl length in Hv. change (cr3_root demo_boot) with demo_boot in Hr. rewrite Hf in Hr by lia. injection Hr as <- <-. rewrite Hl by lia.
    assert (page_base (f + (v - 0x4000004000)) = f) as ->; [|exact Hd]. destruct Hd as [[Hf1 Hf2] _]. unfold page_base.
    rewrite Z.add_mod, Hf2 by lia. rewrite Z.add_0_l, Z.mod_mod, Z.mod_small by lia. lia.
  - assert (ok = true) as ->.
    { apply Hk. right. split; [vm_compute; discriminate|]. intros x Hx. apply accessible_resolve. eexists _, true. split; [apply Hf; simpl length in Hx; lia|reflexivity]. }
    exists m'. split; [exact Hc|]. apply (Hback eq_refl); [|reflexivity]. intros x y p Hx Hy. simpl length in Hx, Hy.
    change (cr3_root demo_boot) with demo_boot. rewrite !translate_resolve, !Hf by lia. cbn. rewrite !Hl by lia. intros [= <-] [= E]. lia.
Defined.

(** ** Validation of a buffer *)

(** The specification: user code may access [v]. *)
Definition user_mapped (m : memory) (root v : Z) : Prop := exists p w, mmu_walk m 3 root v = Some (p, w, true).
(** The address is under a large page. *)
Fixpoint large_page (m : memory) (level : nat) (table v : Z) : bool :=
  let e := read_word m (table + 8 * (v / 2 ^ (12 + 9 * Z.of_nat level) mod 512)) in
  match level with
  | O => false
  | S level' => Z.testbit e 0 && (Z.testbit e 7 && (Z.of_nat level <? 3) || large_page m level' (e mod 2 ^ 52 / 2 ^ 12 * 2 ^ 12) v)
  end.

(** [is_user_page] by recursion on the level. *)
Fixpoint user_walk (m : memory) (n : nat) (t v : Z) : bool :=
  let e := entry m t (idx n v) in
  is_present e && has e PTE_USER && match n with O => true | S n' => user_walk m n' (phys_addr e) v end.
Lemma is_user_page_walk p m v : is_user_page p m v = user_walk m 3 (root_phys p) v.
Proof.
  unfold is_user_page. cbn [user_walk].
  change (Z.land (Z.shiftr v 39) 0x1FF) with (idx 3 v). change (Z.land (Z.shiftr v 30) 0x1FF) with (idx 2 v).
  change (Z.land (Z.shiftr v 21) 0x1FF) with (idx 1 v). change (Z.land (Z.shiftr v 12) 0x1FF) with (idx 0 v).
  unfold is_present, phys_addr. repeat (destruct (has _ _); cbn [negb orb andb]; try done).
Qed.
Lemma user_walk_sound n m t v p w u : (n <= 3)%nat -> user_walk m n t v = true -> mmu_walk m n t v = Some (p, w, u) -> u = true.
Proof.
  revert t p w u. induction n as [|n IH]; intros t p w u Hn; cbn [user_walk mmu_walk]; rewrite mmu_entry, !testbit_has by lia;
    change (has ?e (2 ^ 0)) with (is_present e); change (2 ^ 2) with PTE_USER; intros [[Hp Hu]%andb_true_iff H]%andb_true_iff; rewrite Hp, Hu.
  - by intros [= _ _ <-].
  - destruct (_ && _); [by intros [= _ _ <-]|]. rewrite mmu_base by lia.
    destruct (mmu_walk m n _ v) as [[[p' w'] u']|] eqn:E; [|done]. cbn. intros [= _ _ <-]. eapply IH; [lia|exact H|exact E].
Qed.
Lemma user_walk_complete n m t v p w : (n <= 3)%nat -> mmu_walk m n t v = Some (p, w, true) -> large_page m n t v = false -> user_walk m n t v = true.
Proof.
  revert t p w. induction n as [|n IH]; intros t p w Hn; cbn [user_walk mmu_walk large_page]; rewrite mmu_entry, !testbit_has by lia;
    change (has ?e (2 ^ 0)) with (is_present e); change (2 ^ 2) with PTE_USER; (destruct (is_present _); [|done]).
  - by intros [= _ _ ->].
  - destruct (_ && _); [done|]. cbn [andb orb]. rewrite mmu_base by lia. change (Z.land ?e (mask_from 12)) with (phys_addr e).
    destruct (mmu_walk m n _ v) as [[[p' w'] u']|] eqn:E; [|done]. cbn [mbind option_bind].
    destruct (has _ PTE_USER), u'; try done. intros _ Hl. eapply IH; [lia|exact E|exact Hl].
Qed.

(** What the loop tests at an address. *)
Definition page_test (p : PageMapper) (m : memory) (v : Z) : Prop := is_Some (translate p m v) /\ is_user_page p m v = true.
Lemma page_test_sound p m v : page_test p m v -> user_mapped m (root_phys p) v.
Proof.
  intros [[q Ht] Hu]. unfold translate in Ht. rewrite mmu_translate in Ht. rewrite is_user_page_walk in Hu. unfold user_mapped.
  destruct (mmu_walk m 3 (root_phys p) v) as [[[q' w] u]|] eqn:E; [|done]. exists q', w.
  by rewrite (user_walk_sound 3 m _ v q' w u ltac:(lia) Hu E).
Qed.
Lemma page_test_complete p m v : ~ page_test p m v -> ~ user_mapped m (root_phys p) v \/ large_page m 3 (root_phys p) v = true.
Proof.
  intros Hn. destruct (large_page m 3 (root_phys p) v) eqn:Hl; [by right|]. left. intros (q & w & E). apply Hn. split.
  - unfold translate. rewrite mmu_translate, E. by eexists.
  - rewrite is_user_page_walk. eapply user_walk_complete; [lia|exact E|exact Hl].
Qed.
Lemma page_test_page p m v V : page_of v = page_of V -> page_test p m v <-> page_test p m V.
Proof.
  intros Hv. assert (is_user_page p m v = is_user_page p m V) as E.
  { rewrite !is_user_page_walk. cbn [user_walk]. pose proof (page_idx v V Hv) as Hi. by rewrite !Hi by lia. }
  unfold page_test. rewrite E. pose proof (access_page m (root_phys p) v V Hv) as Ha. rewrite !access_resolve in Ha.
  unfold translate. rewrite !translate_resolve, !fmap_is_Some, <- !(fmap_is_Some snd), Ha. done.
Qed.

Lemma validate_loop_exact fuel p m page last :
  page mod 4096 = 0 -> last mod 4096 = 0 -> 0 <= page -> last + 4096 < 2 ^ 64 -> (last - page) / 4096 < Z.of_nat fuel ->
  validate_loop fuel p m page last = Ok tt /\ (forall v, page <= v < last + 4096 -> page_test p m v) \/
  validate_loop fuel p m page last = Err NotMapped /\ (exists v, page <= v <= last /\ v mod 4096 = 0 /\ ~ page_test p m v).
Proof.
  revert page. induction fuel as [|fuel IH]; intros page Hm Hl Hp Hs Hf; cbn [validate_loop]; destruct (Z.ltb_spec last page).
  - left. split; [done|]. intros v Hv.
    pose proof (Z.div_mod page 4096 ltac:(lia)). pose proof (Z.div_mod last 4096 ltac:(lia)). lia.
  - assert (0 <= (last - page) / 4096) by (apply Z.div_pos; lia). lia.
  - left. split; [done|]. intros v Hv.
    pose proof (Z.div_mod page 4096 ltac:(lia)). pose proof (Z.div_mod last 4096 ltac:(lia)). lia.
  - case_bool_decide as Ht; cbn [negb]; [|right; split; [done|]; exists page; split; [lia|]; split; [done|]; by intros [? _]].
    destruct (is_user_page p m page) eqn:Hu; cbn [negb]; [|right; split; [done|]; exists page; split; [lia|]; split; [done|]; intros [_ ?]; congruence].
    unfold checked_add. destruct (Z.ltb_spec (page + 0x1000) (2 ^ 64)); [|lia].
    destruct (IH (page + 0x1000)) as [[-> Hall]|[-> (v & Hv & Hvm & Hn)]]; try done; try lia.
    + change 0x1000 with (1 * 4096). by rewrite Z_mod_plus_full.
    + replace (last - (page + 0x1000)) with (last - page + (-1) * 4096) by lia. rewrite Z.div_add by lia. lia.
    + left. split; [done|]. intros v Hv. destruct (Z.le_gt_cases (page + 0x1000) v); [apply Hall; lia|].
      apply (page_test_page p m v page); [|done]. unfold page_of. f_equal.
      pose proof (Z.div_mod page 4096 ltac:(lia)). symmetry. apply Z.div_unique with (r := v - page); lia.
    + right. split; [done|]. exists v. split; [lia|done].
Qed.

(** C34. Equivalence: validation of a user buffer, which looks at one address of each page with the kernel's
    own walks, against the address translation of the processor.  It accepts only ranges of the user
    half in which user code may access every single byte; a range that leaves the user half is told
    apart; and any other refusal has a byte of the range that user code may not access or that lies under a
    large page.  On ranges without large pages it is therefore exact.  Under a large page what it
    accepts is accessible too, but [huge_page_content_decides] shows that it may refuse. *)
Theorem validate_user_buffer_exact p m ptr len :
  in_uint 64 ptr -> in_uint 64 len ->
  validate_user_buffer m ptr len p = Ok tt /\ ptr + len <= USER_HALF_END /\ (forall v, ptr <= v < ptr + len -> user_mapped m (root_phys p) v) \/
  validate_user_buffer m ptr len p = Err OutOfRange /\ USER_HALF_END < ptr + len \/
  validate_user_buffer m ptr len p = Err NotMapped /\ ptr + len <= USER_HALF_END /\
    (exists v, ptr <= v < ptr + len /\ (~ user_mapped m (root_phys p) v \/ large_page m 3 (root_phys p) v = true)).
Proof.
  intros Hp Hl. unfold in_uint in *. unfold validate_user_buffer, checked_add. destruct (Z.ltb_spec (ptr + len) (2 ^ 64)) as [Hb|].
  2:{ right. left. unfold USER_HALF_END. split; [done|lia]. }
  destruct (Z.ltb_spec USER_HALF_END (ptr + len)); [right; left; split; [done|lia]|]. unfold USER_HALF_END in *.
  destruct (Z.eqb_spec len 0) as [->|Hne]; [left; split; [done|]; split; [lia|]; intros; lia|].
  change 0xFFF with (2 ^ 12 - 1). rewrite !land_not_mask by (unfold in_uint; lia). change (2 ^ 12) with 4096. cbn zeta.
  set (first := ptr / 4096 * 4096). set (last := (ptr + len - 1) / 4096 * 4096).
  pose proof (Z.div_mod ptr 4096 ltac:(lia)). pose proof (Z.mod_pos_bound ptr 4096 ltac:(lia)).
  pose proof (Z.div_mod (ptr + len - 1) 4096 ltac:(lia)). pose proof (Z.mod_pos_bound (ptr + len - 1) 4096 ltac:(lia)).
  pose proof (Z.div_pos ptr 4096 ltac:(lia) ltac:(lia)). pose proof (Z.div_le_mono ptr (ptr + len - 1) 4096 ltac:(lia) ltac:(lia)).
  change 0x1000 with 4096.
  destruct (validate_loop_exact (Z.to_nat ((last - first) / 4096 + 1)) p m first last) as [[-> Hall]|[-> (v & Hv & Hvm & Hn)]];
    [by apply Z.mod_mul|by apply Z.mod_mul|lia|lia| | |].
  - assert (0 <= (last - first) / 4096) by (apply Z.div_pos; lia). lia.
  - left. split; [done|]. split; [lia|]. intros v Hv. apply page_test_sound, Hall. lia.
  - right. right. split; [done|]. split; [lia|]. destruct (Z.le_gt_cases ptr v).
    + exists v. split; [lia|]. by apply page_test_complete.
    + exists ptr. split; [lia|]. apply page_test_complete. rewrite (page_test_page p m ptr v); [done|]. unfold page_of. f_equal.
      pose proof (Z.div_mod v 4096 ltac:(lia)). symmetry. apply Z.div_unique with (r := ptr - v); lia.
Qed.

Lemma validate_user_buffer_exact_witness :
  (forall v, 0x4000007000 <= v < 0x4000008000 -> user_mapped demo_user.1 demo_boot v) /\
  (exists v, 0x4000003FFF <= v < 0x4000004001 /\ (~ user_mapped demo_user.1 demo_boot v \/ large_page demo_user.1 3 demo_boot v = true)) /\
  USER_HALF_END < 0x7FFFFFFFFFF0 + 0x11.
Proof.
  assert (in_uint 64 0x4000007000 /\ in_uint 64 0x1000 /\ in_uint 64 0x4000003FFF /\ in_uint 64 2 /\ in_uint 64 0x7FFFFFFFFFF0 /\ in_uint 64 0x11)
    as (H1 & H2 & H3 & H4 & H5 & H6) by (unfold in_uint; lia).
  split; [|split].
  - destruct (validate_user_buffer_exact (mkMapper 1 demo_boot) demo_user.1 0x4000007000 0x1000 H1 H2) as [(_ & _ & H)|[(E & _)|(E & _)]];
      [exact H|vm_compute in E; discriminate E|vm_compute in E; discriminate E].
  - destruct (validate_user_buffer_exact (mkMapper 1 demo_boot) demo_user.1 0x4000003FFF 2 H3 H4) as [(E & _)|[(E & _)|(_ & _ & H)]];
      [vm_compute in E; discriminate E|vm_compute in E; discriminate E|exact H].
  - destruct (validate_user_buffer_exact (mkMapper 1 demo_boot) demo_user.1 0x7FFFFFFFFFF0 0x11 H5 H6) as [(E & _)|[(_ & H)|(E & _)]];
      [vm_compute in E; discriminate E|exact H|vm_compute in E; discriminate E].
Defined.

(** A 2 MiB page is not tested for, so the walk goes on into its data: the answer for an address under it
    depends on what the page contains. *)
Definition huge_user_mem (content : Z) : memory :=
  set_entry (set_entry (set_entry (set_entry ∅ 0x1000 0 (set_frame 0x2000 7)) 0x2000 0 (set_frame 0x3000 7))
    0x3000 2 (set_frame 0x600000 (Z.lor 7 PTE_HUGE))) 0x600000 5 content.
Example huge_page_content_decides :
  let mapper := mkMapper 1 0x1000 in
  translate mapper (huge_user_mem 5) 0x405000 = Some 0x605000 /\
  mmu_walk (huge_user_mem 5) 3 0x1000 0x405000 = Some (0x605000, true, true) /\
  mmu_walk (huge_user_mem 0) 3 0x1000 0x405000 = Some (0x605000, true, true) /\
  validate_user_buffer (huge_user_mem 5) 0x405000 1 mapper = Ok tt /\
  validate_user_buffer (huge_user_mem 0) 0x405000 1 mapper = Err NotMapped.
Proof. vm_compute. repeat split. Qed.

(** The frames of a stack are not cleared: the process reads what their last owner left. *)
Example stack_not_cleared :
  match allocate_user_stack 0 demo_boot (write_word demo_mem 0x102000 0x736563726574) demo_vm_alloc with
  | Done (Some top, _, (m', _)) => copy_from_user m' 1 demo_boot (replicate 6 0) (top - USER_STACK_SIZE) = Done (true, to_le 6 0x736563726574)
  | _ => False
  end.
Proof. vm_compute. reflexivity. Qed.

(** When the frames run out in the middle of a stack, its first pages stay mapped and the slot is
    tried again by the next call, which fails on them however many frames there are by then. *)
Definition scarce_alloc : BitmapFrameAllocator := mkAllocator [2 ^ 64 - 125] 0x100000 64 5.
Example failed_stack_poisons_slot :
  match allocate_user_stack 0 demo_boot demo_mem scarce_alloc with
  | Done (None, 0, (m', _)) =>
      translate_in m' demo_boot 0x4000004000 = Some 0x102000 /\
      match allocate_user_stack 0 demo_boot m' (mkAllocator [127] 0x100000 64 57) with
      | Done (r, slot, (_, a')) => r = None /\ slot = 0 /\ free_frames a' = 56
      | Panic => False
      end
  | _ => False
  end.
Proof. vm_compute. repeat split. Qed.
