(* ===== verification/StackArgs.v ===== *)
(** * The arguments of a new process

    [nexacore-kernel/src/user_stack_args.rs]: the block at the top of the user stack that hands
    [argc], [argv] and [envp] to the entry point, as the System V ABI lays it out.  A string is its
    UTF-8 bytes. *)

From S2P Require Import Prelude.

Record StackArgsLayout := mkLayoutArgs { data : bytes; rsp_offset : Z; argc : Z }.

(** [k=v\0] and [s\0]. *)
Definition envp_string (kv : bytes * bytes) : bytes := kv.1 ++ [61] ++ kv.2 ++ [0].
Definition argv_string (s : bytes) : bytes := s ++ [0].

(** The loops over strings: the offset of each, and the buffer with all of them appended. *)
Fixpoint push_strings (ss : list bytes) (strings_buf : bytes) : list Z * bytes :=
  match ss with
  | [] => ([], strings_buf)
  | s :: ss =>
      let '(offsets, buf) := push_strings ss (strings_buf ++ s) in (Z.of_nat (length strings_buf) :: offsets, buf)
  end.

(** [data[cursor..cursor + d.len()].copy_from_slice(d)]. *)
Definition copy_at (data : bytes) (cursor : Z) (d : bytes) : exec bytes :=
  stop ← add_uint 64 cursor (Z.of_nat (length d));
  if stop <=? Z.of_nat (length data) then Done (splice data (Z.to_nat cursor) d) else Panic.
(** The macro [write_u64!]: the buffer and the cursor after it. *)
Definition write_u64 (dc : bytes * Z) (val : Z) : exec (bytes * Z) :=
  let '(data, cursor) := dc in
  data ← copy_at data cursor (to_le 8 val);
  cursor ← add_uint 64 cursor 8;
  Done (data, cursor).
Fixpoint write_all (dc : bytes * Z) (vals : list Z) : exec (bytes * Z) :=
  match vals with
  | [] => Done dc
  | val :: vals => dc ← write_u64 dc val; write_all dc vals
  end.

(** [8 + (argv.len() + 1) * 8 + (envp.len() + 1) * 8]. *)
Definition ptr_table (n_argv n_envp : Z) : exec Z :=
  x ← add_uint 64 n_argv 1; x ← mul_uint 64 x 8;
  y ← add_uint 64 n_envp 1; y ← mul_uint 64 y 8;
  z ← add_uint 64 8 x; add_uint 64 z y.

Definition build_stack_args (stack_top : Z) (argv : list bytes) (envp : list (bytes * bytes)) : exec StackArgsLayout :=
  let '(envp_offsets, strings_buf) := push_strings (envp_string <$> envp) [] in
  let '(argv_offsets, strings_buf) := push_strings (argv_string <$> argv) strings_buf in
  let strings_len := Z.of_nat (length strings_buf) in
  ptr_table_bytes ← ptr_table (Z.of_nat (length argv)) (Z.of_nat (length envp));
  let str_pad_min := Z.land (wrapping_add 64 stack_top (- strings_len)) 7 in
  c ← add_uint 64 ptr_table_bytes str_pad_min;
  candidate_total ← add_uint 64 c strings_len;
  let rsp_va_candidate := wrapping_add 64 stack_top (- candidate_total) in
  let extra := if negb (Z.land rsp_va_candidate 15 =? 0) then 8 else 0 in
  str_pad ← add_uint 64 str_pad_min extra;
  t ← add_uint 64 ptr_table_bytes str_pad;
  total_size ← add_uint 64 t strings_len;
  let rsp_offset := total_size in
  let data := replicate (Z.to_nat total_size) 0 in
  dc ← write_u64 (data, 0) (Z.of_nat (length argv));
  let strings_va_base := wrapping_add 64 stack_top (- strings_len) in
  dc ← write_all dc ((fun off => wrapping_add 64 strings_va_base off) <$> argv_offsets);
  dc ← write_u64 dc 0;
  dc ← write_all dc ((fun off => wrapping_add 64 strings_va_base off) <$> envp_offsets);
  dc ← write_u64 dc 0;
  let '(data, cursor) := dc in
  cursor ← add_uint 64 cursor str_pad;
  data ← copy_at data cursor strings_buf;
  Done (mkLayoutArgs data rsp_offset (Z.of_nat (length argv))).

(** ** The view of the process

    What the entry point reads from the block placed at [base]: the word at RSP, two arrays of
    pointers up to their null, and the string at each pointer up to its NUL. *)

Fixpoint cstr (d : bytes) : option bytes :=
  match d with
  | [] => None
  | b :: d => if b =? 0 then Some [] else s ← cstr d; Some (b :: s)
  end.
Fixpoint read_ptrs (fuel : nat) (d : bytes) : option (list Z * bytes) :=
  match fuel with
  | O => None
  | S fuel =>
      w ← get_range d 0 8;
      if from_le w =? 0 then Some ([], drop 8 d)
      else '(ps, rest) ← read_ptrs fuel (drop 8 d); Some (from_le w :: ps, rest)
  end.
Definition process_view (d : bytes) (base : Z) : option (Z * list bytes * list bytes) :=
  n ← get_range d 0 8;
  '(args, rest) ← read_ptrs (length d) (drop 8 d);
  '(envs, _) ← read_ptrs (length d) rest;
  let string_at p := cstr (drop (Z.to_nat (p - base)) d) in
  args ← mapM string_at args;
  envs ← mapM string_at envs;
  Some (from_le n, args, envs).

(** ** The shape of the block *)

Definition words (vals : list Z) : bytes := concat (to_le 8 <$> vals).
Definition no_nul (s : bytes) : Prop := Forall (fun b => b <> 0) s.

Lemma length_to_le8 v : length (to_le 8 v) = 8%nat.
Proof. by rewrite length_to_le. Qed.
Lemma length_words vals : length (words vals) = (8 * length vals)%nat.
Proof. induction vals as [|v vals IH]; [done|]. unfold words in *. cbn [fmap list_fmap concat length]. rewrite length_app, length_to_le8, IH. lia. Qed.

Lemma push_strings_spec ss buf :
  exists offs, push_strings ss buf = (offs, buf ++ concat ss) /\
    Forall2 (fun off s => 0 <= off <= Z.of_nat (length (buf ++ concat ss)) /\ exists r, drop (Z.to_nat off) (buf ++ concat ss) = s ++ r) offs ss.
Proof.
  revert buf. induction ss as [|s ss IH]; intros buf; cbn [push_strings concat].
  { exists []. rewrite app_nil_r. split; [done|constructor]. }
  destruct (IH (buf ++ s)) as (offs & -> & H). exists (Z.of_nat (length buf) :: offs). rewrite <- app_assoc in *. split; [done|].
  constructor; [|done]. split; [rewrite !length_app; lia|]. exists (concat ss). by rewrite Nat2Z.id, drop_app_length.
Qed.

Lemma copy_at_spec pre n d post :
  length d = n -> Z.of_nat (length pre + n) < 2 ^ 64 ->
  copy_at (pre ++ replicate n 0 ++ post) (Z.of_nat (length pre)) d = Done (pre ++ d ++ post).
Proof.
  intros Hd Hmax. unfold copy_at. rewrite add_uint_Done by lia. cbn [mbind exec_bind].
  rewrite (proj2 (Z.leb_le _ _)) by (rewrite !length_app, length_replicate; lia). do 2 f_equal. unfold splice.
  rewrite Nat2Z.id, take_app_length, Hd, <- drop_drop, drop_app_length. do 2 f_equal.
  replace n with (length (replicate n 0)) at 1 by apply length_replicate. apply drop_app_length.
Qed.
Lemma write_u64_spec pre n v :
  Z.of_nat (length pre + 8 + n) < 2 ^ 64 ->
  write_u64 (pre ++ replicate (8 + n) 0, Z.of_nat (length pre)) v = Done ((pre ++ to_le 8 v) ++ replicate n 0, Z.of_nat (length (pre ++ to_le 8 v))).
Proof.
  intros Hmax. unfold write_u64. rewrite replicate_add, copy_at_spec by (rewrite ?length_to_le8; lia). cbn [mbind exec_bind].
  rewrite add_uint_Done by lia. cbn [mbind exec_bind]. rewrite <- app_assoc. do 2 f_equal. rewrite length_app, length_to_le8. lia.
Qed.
Lemma write_all_spec vals pre n :
  Z.of_nat (length pre + 8 * length vals + n) < 2 ^ 64 ->
  write_all (pre ++ replicate (8 * length vals + n) 0, Z.of_nat (length pre)) vals =
    Done ((pre ++ words vals) ++ replicate n 0, Z.of_nat (length (pre ++ words vals))).
Proof.
  revert pre. induction vals as [|v vals IH]; intros pre Hmax; cbn [write_all].
  { unfold words. cbn. by rewrite app_nil_r. }
  cbn [length] in *. replace (8 * S (length vals) + n)%nat with (8 + (8 * length vals + n))%nat by lia.
  rewrite write_u64_spec by lia. cbn [mbind exec_bind]. rewrite IH by (rewrite length_app, length_to_le8; lia).
  unfold words. cbn [fmap list_fmap concat]. by rewrite <- !app_assoc.
Qed.

Lemma cstr_spec s r : no_nul s -> cstr (s ++ [0] ++ r) = Some s.
Proof.
  induction 1 as [|b s Hb _ IH]; [done|]. cbn [app cstr]. destruct (Z.eqb_spec b 0); [done|]. cbn [app] in IH. by rewrite IH.
Qed.
Lemma get_word v r : in_uint 64 v -> get_range (to_le 8 v ++ r) 0 8 = Some (to_le 8 v).
Proof.
  intros Hv. unfold get_range. rewrite (proj2 (Z.leb_le _ _)) by (rewrite length_app, length_to_le8; lia).
  change (Z.to_nat 0) with 0%nat. rewrite drop_0. change (Z.to_nat 8) with 8%nat. by rewrite <- (length_to_le8 v), take_app_length.
Qed.
Lemma drop_word v r : drop 8 (to_le 8 v ++ r) = r.
Proof. by rewrite <- (length_to_le8 v), drop_app_length. Qed.
Lemma read_ptrs_spec fuel ps r :
  (length ps < fuel)%nat -> Forall (fun p => 0 < p < 2 ^ 64) ps -> read_ptrs fuel (words ps ++ to_le 8 0 ++ r) = Some (ps, r).
Proof.
  intros Hf Hps. revert fuel Hf. induction Hps as [|p ps Hp Hps IH]; intros fuel Hf; (destruct fuel as [|fuel]; [cbn [length] in Hf; lia|]); cbn [read_ptrs].
  - unfold words. cbn [fmap list_fmap concat app]. rewrite get_word by (unfold in_uint; lia). cbn [mbind option_bind]. by rewrite from_to_le, drop_word by (unfold in_uint; lia).
  - unfold words. cbn [fmap list_fmap concat]. rewrite <- app_assoc, get_word by (unfold in_uint; lia). cbn [mbind option_bind].
    rewrite from_to_le, drop_word by (unfold in_uint; lia). destruct (Z.eqb_spec p 0); [lia|]. cbn [length] in Hf. fold (words ps). by rewrite IH by lia.
Qed.

(** The strings of a block, and its size without padding. *)
Definition all_strings (argv : list bytes) (envp : list (bytes * bytes)) : bytes := concat (envp_string <$> envp) ++ concat (argv_string <$> argv).
Definition net_size (argv : list bytes) (envp : list (bytes * bytes)) : Z :=
  8 * (Z.of_nat (length argv) + Z.of_nat (length envp) + 3) + Z.of_nat (length (all_strings argv envp)).

(** A pointer and the string it points at, in the block that ends with the strings at [top]. *)
Definition points_at (top : Z) (strings : bytes) (p : Z) (s : bytes) : Prop :=
  top - Z.of_nat (length strings) <= p <= top /\
  exists r, drop (Z.to_nat (p - (top - Z.of_nat (length strings)))) strings = s ++ r.

Lemma pads top slen table :
  0 <= slen -> 0 <= table -> table mod 8 = 0 -> slen + table + 15 <= top < 2 ^ 64 ->
  let pad0 := Z.land (wrapping_add 64 top (- slen)) 7 in
  let extra := if negb (Z.land (wrapping_add 64 top (- (table + pad0 + slen))) 15 =? 0) then 8 else 0 in
  0 <= pad0 < 8 /\ 0 <= pad0 + extra <= 15 /\ (top - (table + (pad0 + extra) + slen)) mod 16 = 0.
Proof.
  intros Hs Ht Ht8 Hb. cbn zeta. unfold wrapping_add. rewrite (Z.mod_small (top + - slen)) by lia.
  change 7 with (Z.ones 3). rewrite Z.land_ones by lia. change (2 ^ 3) with 8. set (pad0 := (top + - slen) mod 8).
  assert (0 <= pad0 < 8) as Hp by (apply Z.mod_pos_bound; lia). split; [done|]. rewrite (Z.mod_small (top + - (table + pad0 + slen))) by lia.
  assert (forall x, Z.land x 15 = x mod 16) as -> by (intros x; exact (Z.land_ones x 4 ltac:(lia))).
  pose proof (Z.div_mod (top + - slen) 8 ltac:(lia)) as H1. fold pad0 in H1. pose proof (Z.div_mod table 8 ltac:(lia)) as H2.
  set (k := (top + - slen) / 8 - table / 8). assert (top + - (table + pad0 + slen) = 8 * k) as -> by lia.
  assert ((8 * k) mod 16 = 8 * (k mod 2)) as -> by (change 16 with (8 * 2); apply Z.mul_mod_distr_l; lia).
  pose proof (Z.mod_pos_bound k 2 ltac:(lia)). pose proof (Z.div_mod k 2 ltac:(lia)).
  destruct (Z.eqb_spec (8 * (k mod 2)) 0); cbn [negb].
  - split; [lia|]. replace (top - _) with ((k / 2) * 16) by lia. by apply Z.mod_mul.
  - split; [lia|]. replace (top - _) with ((k / 2) * 16) by lia. by apply Z.mod_mul.
Qed.

Lemma offsets_points top strings offs ss rest :
  Z.of_nat (length (strings ++ rest)) <= top < 2 ^ 64 ->
  Forall2 (fun off s => 0 <= off <= Z.of_nat (length strings) /\ exists r, drop (Z.to_nat off) strings = s ++ r) offs ss ->
  Forall2 (points_at top (strings ++ rest))
    ((fun off => wrapping_add 64 (wrapping_add 64 top (- Z.of_nat (length (strings ++ rest)))) off) <$> offs) ss.
Proof.
  intros Ht H. set (len := Z.of_nat (length (strings ++ rest))) in *. assert (Z.of_nat (length strings) <= len) by (unfold len; rewrite length_app; lia).
  induction H as [|off s offs ss [Ho [r Hr]] _ IH]; constructor; [|done].
  unfold wrapping_add. rewrite (Z.mod_small (top + - len)), Z.mod_small by lia. split; fold len; [lia|].
  exists (r ++ rest). replace (top + - len + off - (top - len)) with off by lia. rewrite drop_app_le by lia. by rewrite Hr, app_assoc.
Qed.

Lemma build_shape top argv envp :
  net_size argv envp + 15 <= top < 2 ^ 64 ->
  exists pad A E, let strings := all_strings argv envp in
    build_stack_args top argv envp =
      Done (mkLayoutArgs (words (Z.of_nat (length argv) :: A ++ 0 :: E ++ [0]) ++ replicate pad 0 ++ strings)
              (net_size argv envp + Z.of_nat pad) (Z.of_nat (length argv))) /\
    (pad <= 15)%nat /\ (top - (net_size argv envp + Z.of_nat pad)) mod 16 = 0 /\
    Forall2 (points_at top strings) A (argv_string <$> argv) /\ Forall2 (points_at top strings) E (envp_string <$> envp).
Proof.
  intros Hb. unfold build_stack_args.
  destruct (push_strings_spec (envp_string <$> envp) []) as (offE & -> & HE). rewrite app_nil_l in *.
  destruct (push_strings_spec (argv_string <$> argv) (concat (envp_string <$> envp))) as (offA & -> & HA). fold (all_strings argv envp) in *.
  set (strings := all_strings argv envp) in *. set (slen := Z.of_nat (length strings)). set (na := Z.of_nat (length argv)). set (ne := Z.of_nat (length envp)).
  assert (net_size argv envp = 8 * (na + ne + 3) + slen) as Hn by done. rewrite Hn in *.
  unfold ptr_table, mul_uint. rewrite add_uint_Done by lia. cbn [mbind exec_bind]. rewrite (proj2 (Z.ltb_lt _ _)) by lia. cbn [mbind exec_bind].
  rewrite add_uint_Done by lia. cbn [mbind exec_bind]. rewrite (proj2 (Z.ltb_lt _ _)) by lia. cbn [mbind exec_bind].
  rewrite !add_uint_Done by lia. cbn [mbind exec_bind]. rewrite add_uint_Done by lia. cbn [mbind exec_bind].
  set (table := 8 + (na + 1) * 8 + (ne + 1) * 8).
  destruct (pads top slen table) as (Hp0 & Hp & Hal); [lia|lia|unfold table; replace (8 + (na + 1) * 8 + (ne + 1) * 8) with ((na + ne + 3) * 8) by lia; by apply Z.mod_mul|lia|].
  set (pad0 := Z.land (wrapping_add 64 top (- slen)) 7) in *.
  rewrite add_uint_Done by lia. cbn [mbind exec_bind]. rewrite add_uint_Done by lia. cbn [mbind exec_bind].
  set (extra := if negb (Z.land (wrapping_add 64 top (- (table + pad0 + slen))) 15 =? 0) then 8 else 0) in *.
  rewrite add_uint_Done by lia. cbn [mbind exec_bind]. rewrite add_uint_Done by lia. cbn [mbind exec_bind]. rewrite add_uint_Done by lia. cbn [mbind exec_bind].
  set (pad := Z.to_nat (pad0 + extra)).
  set (A := (fun off => wrapping_add 64 (wrapping_add 64 top (- slen)) off) <$> offA).
  set (E := (fun off => wrapping_add 64 (wrapping_add 64 top (- slen)) off) <$> offE).
  assert (length A = length argv) as LA by (unfold A; rewrite length_fmap, (Forall2_length _ _ _ HA); by rewrite length_fmap).
  assert (length E = length envp) as LE by (unfold E; rewrite length_fmap, (Forall2_length _ _ _ HE); by rewrite length_fmap).
  exists pad, A, E. cbn zeta.
  replace (Z.to_nat (table + (pad0 + extra) + slen)) with (8 + (8 * length A + (8 + (8 * length E + (8 + (pad + length strings))))))%nat by (unfold table, pad, slen, na, ne; lia).
  change (replicate (8 + _) 0, 0) with ([] ++ replicate (8 + (8 * length A + (8 + (8 * length E + (8 + (pad + length strings)))))) 0, Z.of_nat (length (@nil Z))).
  assert (Z.of_nat (8 + (8 * length A + (8 + (8 * length E + (8 + (pad + length strings)))))) < 2 ^ 64) as Hmax by (unfold pad; lia).
  rewrite write_u64_spec by (cbn [length]; lia). cbn [mbind exec_bind app].
  rewrite write_all_spec by (rewrite length_to_le8; lia). cbn [mbind exec_bind].
  rewrite write_u64_spec by (rewrite length_app, length_to_le8, length_words; lia). cbn [mbind exec_bind].
  rewrite write_all_spec by (rewrite !length_app, !length_to_le8, length_words; lia). cbn [mbind exec_bind].
  rewrite write_u64_spec by (rewrite !length_app, !length_to_le8, !length_words; lia). cbn [mbind exec_bind].
  set (pre := (((to_le 8 na ++ words A) ++ to_le 8 0) ++ words E) ++ to_le 8 0).
  assert (words (na :: A ++ 0 :: E ++ [0]) = pre) as Hw.
  { unfold pre, words. cbn [fmap list_fmap concat]. rewrite !fmap_app. cbn [fmap list_fmap]. rewrite !fmap_app, !concat_app. cbn [fmap list_fmap concat].
    rewrite concat_app. cbn [concat]. by rewrite app_nil_r, <- !app_assoc. }
  assert (length pre = Z.to_nat table) as Lpre by (rewrite <- Hw, length_words; cbn [length]; rewrite !length_app; cbn [length]; rewrite length_app; cbn [length]; unfold table, na, ne; lia).
  rewrite add_uint_Done by (rewrite Lpre; lia). cbn [mbind exec_bind]. rewrite replicate_add, app_assoc.
  assert (Z.of_nat (length pre) + (pad0 + extra) = Z.of_nat (length (pre ++ replicate pad 0))) as -> by (rewrite length_app, length_replicate; unfold pad; lia).
  rewrite <- (app_nil_r (replicate (length strings) 0)), copy_at_spec by (done || rewrite length_app, length_replicate, Lpre; unfold pad; lia).
  cbn [mbind exec_bind]. rewrite app_nil_r, Hw, <- app_assoc. split; [|split; [unfold pad; lia|split; [|split]]].
  - do 2 f_equal. unfold table, pad. lia.
  - replace (8 * (na + ne + 3) + slen + Z.of_nat pad) with (table + (pad0 + extra) + slen) by (unfold table, pad; lia). done.
  - pose proof (offsets_points top strings offA (argv_string <$> argv) []) as H. rewrite app_nil_r in H. apply H; [lia|done].
  - unfold E, slen, strings, all_strings. apply offsets_points; [|done]. fold (all_strings argv envp) strings. lia.
Qed.

(** C33. Round trip: for arguments and environment strings without NUL characters whose block, with up to 15
    bytes of padding, fits below the top of the stack, the block is built without a panic, RSP is
    16-byte aligned and the block fills the stack from RSP to its top exactly; and a process that reads
    it the way the ABI says finds the number of arguments, the arguments and the [key=value] strings it
    was given.  NUL characters are not checked for: [nul_argument_cut]. *)
Theorem stack_args_roundtrip top argv envp :
  net_size argv envp + 15 <= top < 2 ^ 64 -> Forall no_nul argv -> Forall (fun kv => no_nul kv.1 /\ no_nul kv.2) envp ->
  exists l, build_stack_args top argv envp = Done l /\ argc l = Z.of_nat (length argv) /\
    Z.of_nat (length (data l)) = rsp_offset l /\ (top - rsp_offset l) mod 16 = 0 /\ rsp_offset l <= net_size argv envp + 15 /\
    process_view (data l) (top - rsp_offset l) =
      Some (Z.of_nat (length argv), argv, (fun kv => kv.1 ++ [61] ++ kv.2) <$> envp).
Proof.
  intros Hb Ha He. destruct (build_shape top argv envp Hb) as (pad & A & E & Hbuild & Hpad & Hal & HA & HE).
  set (strings := all_strings argv envp) in *. set (n := Z.of_nat (length argv)) in *. set (d := words _ ++ _) in Hbuild.
  assert (length A = length argv) as LA by (rewrite (Forall2_length _ _ _ HA); by rewrite length_fmap).
  assert (length E = length envp) as LE by (rewrite (Forall2_length _ _ _ HE); by rewrite length_fmap).
  assert (Z.of_nat (length d) = net_size argv envp + Z.of_nat pad) as Ld.
  { unfold d. rewrite !length_app, length_words, length_replicate. cbn [length]. rewrite !length_app. cbn [length]. rewrite length_app. cbn [length].
    unfold net_size. fold strings. lia. }
  eexists. split; [exact Hbuild|]. cbn [argc data rsp_offset]. split; [done|]. split; [done|]. split; [done|]. split; [lia|].
  set (base := top - (net_size argv envp + Z.of_nat pad)).
  assert (d = to_le 8 n ++ words A ++ to_le 8 0 ++ words E ++ to_le 8 0 ++ replicate pad 0 ++ strings) as Hd.
  { unfold d, words. cbn [fmap list_fmap concat]. rewrite !fmap_app. cbn [fmap list_fmap]. rewrite !fmap_app, !concat_app. cbn [fmap list_fmap concat].
    rewrite concat_app. cbn [concat]. by rewrite app_nil_r, <- !app_assoc. }
  assert (forall ps ss, Forall2 (points_at top strings) ps ss -> Forall (fun p => 0 < p < 2 ^ 64) ps) as Hpos.
  { intros ps ss H. eapply Forall2_Forall_l; [exact H|]. apply Forall_forall. intros s _ p [Hp _]. unfold net_size in Hb. fold strings in Hb. lia. }
  assert (forall ps ss, Forall2 (points_at top strings) ps ((fun s => s ++ [0]) <$> ss) -> Forall no_nul ss ->
    mapM (fun p => cstr (drop (Z.to_nat (p - base)) d)) ps = Some ss) as Hstr.
  { intros ps ss H Hn. apply mapM_Some. rewrite Forall2_fmap_r in H. revert Hn. induction H as [|p s ps ss [Hp [r Hr]] _ IH]; intros Hn; constructor.
    - apply Forall_cons in Hn as [Hs _].
      replace (Z.to_nat (p - base)) with (length (words (n :: A ++ 0%Z :: E ++ [0%Z]) ++ replicate pad 0%Z) + Z.to_nat (p - (top - Z.of_nat (length strings))))%nat.
      + unfold d. rewrite app_assoc, drop_app_add, Hr, <- app_assoc. by apply cstr_spec.
      + rewrite length_app, length_words, length_replicate. unfold base. cbn [length]. rewrite !length_app. cbn [length]. rewrite length_app. cbn [length].
        unfold net_size. fold strings. lia.
    - apply IH. by apply Forall_cons in Hn as [_ ?]. }
  unfold process_view. cbv zeta. set (string_at := fun p => cstr (drop (Z.to_nat (p - base)) d)). set (fuel := length d).
  fold string_at in Hstr. rewrite Hd. assert (in_uint 64 n) as Hn by (unfold in_uint, n; unfold net_size in Hb; lia).
  assert (length A < fuel /\ length E < fuel)%nat as [FA FE] by (unfold fuel; unfold net_size in Ld; lia).
  rewrite get_word by done. cbn [mbind option_bind]. rewrite drop_word, read_ptrs_spec; [|done|by eapply Hpos]. cbn [mbind option_bind].
  rewrite read_ptrs_spec; [|done|by eapply Hpos]. cbn [mbind option_bind].
  rewrite (Hstr A argv) by done. cbn [mbind option_bind]. rewrite (Hstr E ((fun kv => kv.1 ++ [61] ++ kv.2) <$> envp)).
  - cbn [mbind option_bind]. by rewrite from_to_le.
  - rewrite <- list_fmap_compose. erewrite list_fmap_ext; [exact HE|]. intros i kv _. unfold compose, envp_string. cbn. by rewrite <- !app_assoc.
  - apply Forall_fmap. eapply Forall_impl; [exact He|]. intros kv [H1 H2]. apply Forall_app. split; [done|]. apply Forall_app. split; [by constructor|done].
Qed.

Lemma stack_args_roundtrip_witness :
  exists l, build_stack_args 0x100000 [[115; 104]; [45; 99]] [([80], [47])] = Done l /\ (0x100000 - rsp_offset l) mod 16 = 0 /\
    process_view (data l) (0x100000 - rsp_offset l) = Some (2, [[115; 104]; [45; 99]], [[80; 61; 47]]).
Proof.
  destruct (stack_args_roundtrip 0x100000 [[115; 104]; [45; 99]] [([80], [47])]) as (l & Hb & _ & _ & Ha & _ & Hv).
  - vm_compute. split; [discriminate|reflexivity].
  - repeat constructor; discriminate.
  - repeat constructor; discriminate.
  - exists l. split; [exact Hb|]. split; [exact Ha|]. exact Hv.
Defined.

(** A Rust string may contain NUL characters, and nothing rejects them: of the argument ["a\0b"] the process
    reads ["a"]. *)
Example nul_argument_cut :
  match build_stack_args 0x100000 [[97; 0; 98]] [] with
  | Done l => process_view (data l) (0x100000 - rsp_offset l) = Some (1, [[97]], [])
  | Panic => False
  end.
Proof. vm_compute. reflexivity. Qed.
