(* ===== verification/Shootdown.v ===== *)
(** * TLB shootdown

    [nexacore-kernel/src/bare_metal/tlb_shootdown.rs]: the boot processor changes a kernel mapping,
    writes the range into a shared descriptor, interrupts every other processor and waits for their
    acknowledgements.  The processors run at the same time: each atomic access of the code is a step
    of its own, and a schedule is a list that says whose step is next.  Accesses are sequentially
    consistent here; the release store of the generation and the acquire load of the handler order
    the descriptor in the same way on the real machine.

    A TLB is modelled by the pages whose cached translation is out of date: [invlpg] and a CR3
    reload remove entries, and new ones come from the current tables. *)

From S2P Require Import Prelude.

Definition SHOOTDOWN_MAX_PAGES : Z := 64.
Definition SHOOTDOWN_FULL_FLUSH : Z := uint_max 64.
Definition ACK_POLL_ITERATIONS : Z := 200000000.

Record Shootdown := mkShootdown { va_start : Z; page_count : Z; generation : Z; ack : Z }.
Definition Shootdown_new : Shootdown := mkShootdown 0 0 0 0.

Record ShootdownReport := mkReport { targeted : Z; acked : Z; local_pages : Z; full_flush : bool }.
Definition complete (r : ShootdownReport) : bool := targeted r <=? acked r.

Definition pages_in_range (len : Z) : Z := Z.shiftr (wrapping_add 64 len 0x0FFF) 12.

(** The page of the [i]-th [invlpg] of a range. *)
Definition page_at (va i : Z) : Z := wrapping_add 64 va (wrapping_mul 64 i 0x1000) / 4096.
Definition invlpg_one (va i : Z) (stale : gset Z) : gset Z := stale ∖ {[ page_at va i ]}.
Definition flush_full_local (stale : gset Z) : gset Z := ∅.
Fixpoint invlpg_from (va i : Z) (n : nat) (stale : gset Z) : gset Z :=
  match n with
  | O => stale
  | S n => invlpg_from va (i + 1) n (invlpg_one va i stale)
  end.

Definition invalidate_local (va len : Z) (stale : gset Z) : Z * gset Z :=
  let pages := pages_in_range len in
  if SHOOTDOWN_MAX_PAGES <? pages then (SHOOTDOWN_FULL_FLUSH, flush_full_local stale)
  else (pages, invlpg_from va 0 (Z.to_nat pages) stale).

(** ** The processors *)

(** Where [flush_tlb_range] is; [t] is [targeted] and [p] is [local_pages]. *)
Inductive bsp_pc :=
| Entry (va len : Z)
| StoreVa (va t p : Z) | StoreCount (va t p : Z) | ResetAck (va t p : Z) | BumpGeneration (va t p : Z) | SendIpi (va t p : Z)
| Poll (va t p iter : Z)
| Returned (r : ShootdownReport).

(** Where [kernel_tlb_shootdown_handler] is. *)
Inductive ap_pc :=
| Running
| LoadGeneration | LoadCount | LoadVa (pc : Z)
| Invalidate (pc va i : Z)
| Eoi | Ack.

(** [pending] is the bit of the vector in the interrupt request register. *)
Record ap := mkAp { pc : ap_pc; pending : bool; stale : gset Z }.
(** [lapic] is whether the LAPIC is mapped, so that an IPI can be sent. *)
Record machine := mkMachine { lapic : bool; desc : Shootdown; bsp : bsp_pc; bsp_stale : gset Z; aps : list ap }.

Definition registered_ap_count (s : machine) : Z := Z.of_nat (length (aps s)).
Definition set_desc (s : machine) (d : Shootdown) (b : bsp_pc) : machine := mkMachine (lapic s) d b (bsp_stale s) (aps s).
Definition return_ (s : machine) (t acks p : Z) : machine :=
  set_desc s (desc s) (Returned (mkReport t acks p (p =? SHOOTDOWN_FULL_FLUSH))).

(** One step of [flush_tlb_range] and of [busy_wait_for_acks]. *)
Definition bsp_step (s : machine) : option machine :=
  let d := desc s in
  match bsp s with
  | Entry va len =>
      let '(p, stale) := invalidate_local va len (bsp_stale s) in
      let s := mkMachine (lapic s) d (bsp s) stale (aps s) in
      let t := registered_ap_count s in
      Some (if t =? 0 then return_ s 0 0 p else set_desc s d (StoreVa va t p))
  | StoreVa va t p => Some (set_desc s (mkShootdown va (page_count d) (generation d) (ack d)) (StoreCount va t p))
  | StoreCount va t p => Some (set_desc s (mkShootdown (va_start d) p (generation d) (ack d)) (ResetAck va t p))
  | ResetAck va t p => Some (set_desc s (mkShootdown (va_start d) (page_count d) (generation d) 0) (BumpGeneration va t p))
  | BumpGeneration va t p =>
      Some (set_desc s (mkShootdown (va_start d) (page_count d) (wrapping_add 64 (generation d) 1) (ack d)) (SendIpi va t p))
  | SendIpi va t p =>
      if lapic s then Some (mkMachine (lapic s) d (Poll va t p 0) (bsp_stale s) ((fun a => mkAp (pc a) true (stale a)) <$> aps s))
      else Some (return_ s t 0 p)
  | Poll va t p iter =>
      if iter <? ACK_POLL_ITERATIONS then
        if t <=? ack d then Some (return_ s t (ack d) p) else Some (set_desc s d (Poll va t p (wrapping_add 64 iter 1)))
      else Some (return_ s t (ack d) p)
  | Returned _ => None
  end.

(** One step of an application processor: taking the interrupt, or one of the handler. *)
Definition ap_step (d : Shootdown) (a : ap) : option (Shootdown * ap) :=
  match pc a with
  | Running => if pending a then Some (d, mkAp LoadGeneration false (stale a)) else None
  | LoadGeneration => Some (d, mkAp LoadCount (pending a) (stale a))
  | LoadCount => Some (d, mkAp (LoadVa (page_count d)) (pending a) (stale a))
  | LoadVa c => Some (d, mkAp (Invalidate c (va_start d) 0) (pending a) (stale a))
  | Invalidate c va i =>
      if (c =? SHOOTDOWN_FULL_FLUSH) || (SHOOTDOWN_MAX_PAGES <? c) then Some (d, mkAp Eoi (pending a) (flush_full_local (stale a)))
      else if i <? c then Some (d, mkAp (Invalidate c va (i + 1)) (pending a) (invlpg_one va i (stale a)))
      else Some (d, mkAp Eoi (pending a) (stale a))
  | Eoi => Some (d, mkAp Ack (pending a) (stale a))
  | Ack => Some (mkShootdown (va_start d) (page_count d) (generation d) (wrapping_add 64 (ack d) 1), mkAp Running (pending a) (stale a))
  end.

(** ** Schedules *)

Inductive turn := Bsp | Ap (i : nat).
Definition step (s : machine) (t : turn) : option machine :=
  match t with
  | Bsp => bsp_step s
  | Ap i =>
      a ← aps s !! i;
      '(d, a) ← ap_step (desc s) a;
      Some (mkMachine (lapic s) d (bsp s) (bsp_stale s) (<[i := a]> (aps s)))
  end.
Fixpoint run (s : machine) (ts : list turn) : option machine :=
  match ts with
  | [] => Some s
  | t :: ts => s ← step s t; run s ts
  end.
(** A call of [flush_tlb_range]. *)
Definition call (s : machine) (va len : Z) : machine := set_desc s (desc s) (Entry va len).

(** No interrupt is pending and no handler is running. *)
Definition quiet (s : machine) : Prop := Forall (fun a => pc a = Running /\ pending a = false) (aps s).

(** ** What a range covers *)

Definition covered (va p q : Z) : Prop := p = SHOOTDOWN_FULL_FLUSH \/ exists i, 0 <= i < p /\ q = page_at va i.
Definition clean (va p : Z) (st : gset Z) : Prop := forall q, covered va p q -> q ∉ st.

Lemma invlpg_from_spec n va i st q :
  q ∈ invlpg_from va i n st <-> q ∈ st /\ forall j, i <= j < i + Z.of_nat n -> q <> page_at va j.
Proof.
  revert i st. induction n as [|n IH]; intros i st; cbn [invlpg_from].
  - split; [intros H; split; [done|]; intros; lia|by intros [? _]].
  - rewrite IH. unfold invlpg_one. rewrite elem_of_difference, elem_of_singleton. split.
    + intros [[Hs Hn] H']. split; [done|]. intros j Hj. destruct (decide (j = i)) as [->|]; [done|]. apply H'. lia.
    + intros [Hs H']. split; [split; [done|apply H'; lia]|]. intros j Hj. apply H'. lia.
Qed.
Lemma pages_small len : 0 <= pages_in_range len < 2 ^ 52.
Proof.
  unfold pages_in_range, wrapping_add. rewrite Z.shiftr_div_pow2 by lia. set (n := _ mod 2 ^ 64).
  assert (0 <= n < 2 ^ 64) by (apply Z.mod_pos_bound; lia).
  split; [apply Z.div_pos; lia|apply Z.div_lt_upper_bound; lia].
Qed.
(** The request: up to 64 pages, or everything. *)
Definition request_ok (p : Z) : Prop := p = SHOOTDOWN_FULL_FLUSH \/ 0 <= p <= SHOOTDOWN_MAX_PAGES.
Lemma invalidate_local_spec va len st :
  request_ok (invalidate_local va len st).1 /\ clean va (invalidate_local va len st).1 (invalidate_local va len st).2.
Proof.
  unfold invalidate_local. pose proof (pages_small len). destruct (Z.ltb_spec SHOOTDOWN_MAX_PAGES (pages_in_range len)); cbn [fst snd].
  - split; [by left|]. intros q _. unfold flush_full_local. set_solver.
  - split; [right; lia|]. intros q [Hf|(i & Hi & ->)].
    + unfold SHOOTDOWN_FULL_FLUSH, uint_max, SHOOTDOWN_MAX_PAGES in *. lia.
    + rewrite invlpg_from_spec. intros [_ Hn]. apply (Hn i); [lia|done].
Qed.

(** ** The invariant of a shootdown *)

(** A processor that has handled the interrupt. *)
Definition is_done (a : ap) : bool := match pc a with Running => negb (pending a) | _ => false end.
Fixpoint done_count (l : list ap) : Z := match l with [] => 0 | a :: l => (if is_done a then 1 else 0) + done_count l end.

Lemma done_count_bound l : 0 <= done_count l <= Z.of_nat (length l).
Proof. induction l as [|a l IH]; cbn [done_count length]; [lia|]. destruct (is_done a); lia. Qed.
Lemma done_count_full l : Z.of_nat (length l) <= done_count l -> Forall (fun a => is_done a = true) l.
Proof.
  induction l as [|a l IH]; intros H; [constructor|]. cbn [done_count length] in H. pose proof (done_count_bound l).
  destruct (is_done a) eqn:E; [|lia]. constructor; [done|]. apply IH. lia.
Qed.
Lemma done_count_none l : Forall (fun a => pending a = true \/ pc a <> Running) l -> done_count l = 0.
Proof.
  induction 1 as [|a l Ha _ IH]; [done|]. cbn [done_count]. rewrite IH. unfold is_done. destruct (pc a); try done.
  destruct Ha as [->|]; done.
Qed.
Lemma done_count_insert l i a a' :
  l !! i = Some a -> done_count (<[i := a']> l) = done_count l - (if is_done a then 1 else 0) + (if is_done a' then 1 else 0).
Proof.
  revert i. induction l as [|b l IH]; intros [|i] H; cbn in H; [done|done| |].
  - injection H as ->. cbn [list_insert insert done_count]. lia.
  - change (<[S i := a']> (b :: l)) with (b :: <[i := a']> l). cbn [done_count]. rewrite (IH i H). lia.
Qed.

Section shootdown.
Context (va len : Z).

(** What a processor has done for the request [p] when its handler is at [pc]. *)
Definition ap_ok (p : Z) (a : ap) : Prop :=
  match pc a with
  | Running => pending a = false -> clean va p (stale a)
  | LoadGeneration | LoadCount => pending a = false
  | LoadVa c => pending a = false /\ c = p
  | Invalidate c v i => pending a = false /\ c = p /\ v = va /\ 0 <= i /\ forall j, 0 <= j < i -> page_at va j ∉ stale a
  | Eoi | Ack => pending a = false /\ clean va p (stale a)
  end.

Definition is_quiet (a : ap) : Prop := pc a = Running /\ pending a = false.
Definition started (s : machine) (v t p : Z) : Prop :=
  v = va /\ t = Z.of_nat (length (aps s)) /\ 0 < t /\ p = (invalidate_local va len ∅).1 /\ clean va p (bsp_stale s) /\ quiet s.
Definition inv (s : machine) : Prop :=
  match bsp s with
  | Entry v l => v = va /\ l = len /\ quiet s
  | StoreVa v t p => started s v t p
  | StoreCount v t p => started s v t p /\ va_start (desc s) = va
  | ResetAck v t p => started s v t p /\ va_start (desc s) = va /\ page_count (desc s) = p
  | BumpGeneration v t p | SendIpi v t p => started s v t p /\ va_start (desc s) = va /\ page_count (desc s) = p /\ ack (desc s) = 0
  | Poll v t p _ =>
      v = va /\ t = Z.of_nat (length (aps s)) /\ 0 < t /\ p = (invalidate_local va len ∅).1 /\ clean va p (bsp_stale s) /\
      va_start (desc s) = va /\ page_count (desc s) = p /\ ack (desc s) = done_count (aps s) /\ Forall (ap_ok p) (aps s)
  | Returned r =>
      targeted r = Z.of_nat (length (aps s)) /\ local_pages r = (invalidate_local va len ∅).1 /\ clean va (local_pages r) (bsp_stale s) /\
      (complete r = true -> Forall (fun a => is_quiet a /\ clean va (local_pages r) (stale a)) (aps s))
  end.

Lemma request_of st : (invalidate_local va len st).1 = (invalidate_local va len ∅).1.
Proof. unfold invalidate_local. by destruct (_ <? _). Qed.
Lemma request_fits : request_ok (invalidate_local va len ∅).1.
Proof. apply invalidate_local_spec. Qed.

Lemma done_quiet p a : ap_ok p a -> is_done a = true -> is_quiet a /\ clean va p (stale a).
Proof. unfold ap_ok, is_done, is_quiet. destruct (pc a); try done. intros H Hp%negb_true_iff. auto. Qed.

Lemma ap_step_ok p d a d' a' :
  request_ok p -> va_start d = va -> page_count d = p -> ap_ok p a -> ap_step d a = Some (d', a') ->
  ap_ok p a' /\ is_done a = false /\
  (d' = d /\ is_done a' = false \/
   d' = mkShootdown (va_start d) (page_count d) (generation d) (wrapping_add 64 (ack d) 1) /\ is_done a' = true).
Proof.
  intros Hreq Hv Hc. unfold ap_ok, ap_step, is_done. destruct (pc a) as [| | |c|c v i| |]; cbn [pc pending stale].
  - destruct (pending a) eqn:Ep; [|done]. intros _ [= <- <-]. cbn. auto.
  - intros Hp [= <- <-]. cbn. auto.
  - intros Hp [= <- <-]. cbn. auto.
  - intros [Hp ->] [= <- <-]. cbn. split; [|auto]. repeat split; [done|done|lia|]. intros j Hj. lia.
  - intros (Hp & -> & -> & Hi & Hj). destruct ((p =? SHOOTDOWN_FULL_FLUSH) || (SHOOTDOWN_MAX_PAGES <? p)) eqn:Ef.
    + intros [= <- <-]. cbn. split; [|auto]. split; [done|]. intros q _. unfold flush_full_local. set_solver.
    + apply orb_false_iff in Ef as [E1%Z.eqb_neq E2%Z.ltb_ge]. destruct Hreq as [|Hreq]; [done|]. destruct (Z.ltb_spec i p).
      * intros [= <- <-]. cbn. split; [|auto]. repeat split; [done|lia|]. intros j Hj'. unfold invlpg_one.
        destruct (decide (j = i)) as [->|]; [set_solver|]. specialize (Hj j ltac:(lia)). set_solver.
      * intros [= <- <-]. cbn. split; [|auto]. split; [done|]. intros q [?|(j & Hj' & ->)]; [done|]. apply Hj. lia.
  - intros [Hp Hcl] [= <- <-]. cbn. auto.
  - intros [Hp Hcl] [= <- <-]. cbn. rewrite Hp. split; [auto|]. split; [done|]. right. auto.
Qed.

Lemma inv_ap s i s' :
  Z.of_nat (length (aps s)) <= 31 -> inv s -> step s (Ap i) = Some s' -> inv s' /\ length (aps s') = length (aps s).
Proof.
  intros Hn Hinv. cbn [step]. destruct (aps s !! i) as [a|] eqn:Ha; [|done]. cbn [mbind option_bind].
  destruct (ap_step (desc s) a) as [[d' a']|] eqn:Hs; [|done]. cbn [mbind option_bind]. intros [= <-]. cbn [aps]. split; [|apply length_insert].
  assert (is_quiet a -> False) as Hq by (intros [H1 H2]; unfold ap_step in Hs; by rewrite H1, H2 in Hs).
  assert (quiet s -> False) as Hqs by (intros H; apply Hq; unfold quiet in H; rewrite Forall_lookup in H; by apply (H i)).
  unfold inv in *. cbn [bsp aps desc bsp_stale].
  destruct (bsp s) as [v l|v t p|v t p|v t p|v t p|v t p|v t p it|r]; try (exfalso; apply Hqs; apply Hinv).
  - destruct Hinv as (-> & -> & Ht & -> & Hcl & Hva & Hpc & Hack & Hall). rewrite length_insert.
    pose proof (proj1 (Forall_lookup _ _) Hall i a Ha) as Hok.
    destruct (ap_step_ok _ _ _ _ _ request_fits Hva Hpc Hok Hs) as (Hok' & Hnd & Hd).
    pose proof (done_count_insert (aps s) i a a' Ha) as Hdc. rewrite Hnd in Hdc. pose proof (done_count_bound (aps s)).
    destruct Hd as [[-> Hd']|[-> Hd']]; rewrite Hd' in Hdc; cbn [va_start page_count ack]; repeat split; try done; try (by apply Forall_insert); [lia|].
    unfold wrapping_add. rewrite Z.mod_small by lia. lia.
  - rewrite length_insert. destruct Hinv as (H1 & H2 & H3 & H4). repeat split; try done. intros Hc. specialize (H4 Hc).
    exfalso. apply Hq. by apply (proj1 (Forall_lookup _ _) H4 i a Ha).
Qed.

Lemma started_set s d b v t p : started s v t p -> started (set_desc s d b) v t p.
Proof. done. Qed.

Lemma inv_bsp s s' :
  Z.of_nat (length (aps s)) <= 31 -> inv s -> bsp_step s = Some s' -> inv s' /\ length (aps s') = length (aps s).
Proof.
  intros Hn Hinv. unfold bsp_step, inv in Hinv |- *.
  destruct (bsp s) as [v l|v t p|v t p|v t p|v t p|v t p|v t p it|r].
  - destruct Hinv as (-> & -> & Hq). pose proof (invalidate_local_spec va len (bsp_stale s)) as [_ Hcl]. pose proof (request_of (bsp_stale s)) as Hp.
    destruct (invalidate_local va len (bsp_stale s)) as [p st]. cbn [fst snd] in *. unfold registered_ap_count. cbn [aps].
    destruct (Z.eqb_spec (Z.of_nat (length (aps s))) 0) as [E|E]; intros [= <-]; cbn [return_ set_desc bsp aps bsp_stale desc]; (split; [|done]).
    + cbn [targeted local_pages]. repeat split; try done. intros _. destruct (aps s); [constructor|cbn [length] in E; lia].
    + repeat split; try done. lia.
  - assert (v = va) as -> by apply Hinv. intros [= <-]. split; [|done]. cbn. split; [by apply started_set|done].
  - intros [= <-]. split; [|done]. cbn. destruct Hinv as [? ?]. split; [by apply started_set|done].
  - intros [= <-]. split; [|done]. cbn. destruct Hinv as (? & ? & ?). split; [by apply started_set|done].
  - intros [= <-]. split; [|done]. cbn. destruct Hinv as (? & ? & ? & ?). split; [by apply started_set|done].
  - destruct Hinv as ((-> & -> & Ht & -> & Hcl & Hq) & Hva & Hpc & Hack). destruct (lapic s); intros [= <-]; cbn [return_ set_desc bsp aps bsp_stale desc].
    + rewrite length_fmap. split; [|done]. repeat split; try done.
      * rewrite Hack. symmetry. apply done_count_none. apply Forall_fmap, Forall_forall. intros a _. by left.
      * apply Forall_fmap. eapply Forall_impl; [exact Hq|]. intros a [H1 H2]. unfold compose, ap_ok. cbn [pc pending stale]. by rewrite H1.
    + split; [|done]. repeat split; try done. unfold complete. cbn [targeted acked]. intros H%Z.leb_le. lia.
  - destruct Hinv as (-> & -> & Ht & -> & Hcl & Hva & Hpc & Hack & Hall).
    assert (inv (return_ s (Z.of_nat (length (aps s))) (ack (desc s)) (invalidate_local va len ∅).1)) as Hret.
    { unfold inv. cbn [return_ set_desc bsp aps bsp_stale desc targeted local_pages]. repeat split; try done. unfold complete. cbn [targeted acked].
      intros H%Z.leb_le. rewrite Hack in H. apply done_count_full in H.
      rewrite Forall_forall in *. intros a Ha. apply done_quiet; auto. }
    destruct (it <? ACK_POLL_ITERATIONS), (Z.of_nat (length (aps s)) <=? ack (desc s)); intros [= <-]; (split; [|done]); try exact Hret.
    cbn. repeat split; done.
  - done.
Qed.

Lemma inv_run ts s s' :
  Z.of_nat (length (aps s)) <= 31 -> inv s -> run s ts = Some s' -> inv s' /\ length (aps s') = length (aps s).
Proof.
  revert s. induction ts as [|t ts IH]; intros s Hn Hi; cbn [run]; [by intros [= <-]|].
  destruct (step s t) as [s1|] eqn:E; [|done]. cbn [mbind option_bind]. intros Hr.
  assert (inv s1 /\ length (aps s1) = length (aps s)) as [Hi1 Hl1] by (destruct t; [by apply inv_bsp|by eapply inv_ap]).
  destruct (IH s1 ltac:(lia) Hi1 Hr) as [? ?]. split; [done|lia].
Qed.
End shootdown.

(** ** The documented range

    The documentation asks for the bytes from [va] up to [va + len], whatever the code makes of them: no
    translation that an access to one of them would use may be left. *)
Definition flushed (va len : Z) (st : gset Z) : Prop := forall v, va <= v < va + len -> v / 4096 ∉ st.

(** On a range that starts on a page boundary and does not wrap, the page count of the code covers every byte. *)
Lemma aligned_range_covered va len v st :
  va mod 4096 = 0 -> 0 <= va <= v -> v < va + len -> va + len <= 2 ^ 64 -> len <= 2 ^ 64 - 4096 ->
  covered va (invalidate_local va len st).1 (v / 4096).
Proof.
  intros Hm Hv Hl Hmax Hlen. unfold invalidate_local. destruct (_ <? _); [by left|]. right. cbn [fst]. unfold pages_in_range, wrapping_add.
  rewrite Z.shiftr_div_pow2, Z.mod_small by lia. change (2 ^ 12) with 4096. exists ((v - va) / 4096).
  pose proof (Z.div_mod va 4096 ltac:(lia)) as Hd. pose proof (Z.div_mod (v - va) 4096 ltac:(lia)). pose proof (Z.mod_pos_bound (v - va) 4096 ltac:(lia)).
  assert (0 <= (v - va) / 4096) by (apply Z.div_pos; lia). split.
  - split; [done|]. apply Z.lt_le_trans with ((v - va) / 4096 + 1); [lia|]. apply Z.div_le_lower_bound; lia.
  - unfold page_at, wrapping_add, wrapping_mul. change 0x1000 with 4096. rewrite (Z.mod_small ((v - va) / 4096 * 4096)), Z.mod_small by lia.
    rewrite Z.div_add by lia. symmetry. apply Z.div_unique with (r := (v - va) mod 4096); lia.
Qed.
Lemma clean_flushed va len st :
  va mod 4096 = 0 -> 0 <= va -> va + len <= 2 ^ 64 -> len <= 2 ^ 64 - 4096 -> clean va (invalidate_local va len ∅).1 st -> flushed va len st.
Proof. intros Hm Hv Hmax Hlen Hcl v [H1 H2]. apply Hcl, aligned_range_covered; auto. Qed.

(** C12. Safety: whatever the interleaving of the processors, a shootdown of the [len] bytes
    from [va] that starts with no other in flight and at most 31 other processors, on a range whose start
    is page aligned and that ends within the address space (the length at most 2^64 - 4096), leaves no stale translation of any of these bytes on the boot
    processor; when it reports completion it has left none on any processor, and no interrupt or
    handler behind.  It completes as soon as every processor has handled the interrupt: the
    acknowledgements it then counts are exactly theirs.  The alignment is needed:
    [unaligned_range_missed] is a completed shootdown that misses a page. *)
Theorem shootdown_complete s va len ts s' :
  quiet s -> Z.of_nat (length (aps s)) <= 31 ->
  va mod 4096 = 0 -> 0 <= va -> va + len <= 2 ^ 64 -> len <= 2 ^ 64 - 4096 ->
  run (call s va len) ts = Some s' ->
  match bsp s' with
  | Returned r =>
      targeted r = Z.of_nat (length (aps s)) /\ flushed va len (bsp_stale s') /\
      (complete r = true -> quiet s' /\ Forall (fun a => flushed va len (stale a)) (aps s'))
  | Poll _ _ _ _ => quiet s' -> exists s'' r, bsp_step s' = Some s'' /\ bsp s'' = Returned r /\ complete r = true
  | _ => True
  end.
Proof.
  intros Hq Hn Hm Hva Hmax Hlen Hr. destruct (inv_run va len ts (call s va len) s' Hn ltac:(done) Hr) as [Hi Hl]. cbn [call set_desc aps] in Hl.
  unfold inv in Hi. destruct (bsp s') as [| | | | | |v t p it|r] eqn:Eb; try done.
  - destruct Hi as (-> & -> & Ht & -> & _ & _ & _ & Hack & _). intros Hq'.
    assert (done_count (aps s') = Z.of_nat (length (aps s'))) as Hfull.
    { clear -Hq'. unfold quiet in Hq'. induction Hq' as [|a l [H1 H2] _ IH]; [done|]. cbn [done_count length]. unfold is_done at 1. rewrite H1, H2, IH. cbn [negb]. lia. }
    assert (complete (mkReport (Z.of_nat (length (aps s'))) (ack (desc s')) (invalidate_local va len ∅).1 ((invalidate_local va len ∅).1 =? SHOOTDOWN_FULL_FLUSH)) = true) as Hc
      by (unfold complete; cbn [targeted acked]; apply Z.leb_le; lia).
    unfold bsp_step. rewrite Eb. rewrite (proj2 (Z.leb_le _ _)) by lia. destruct (it <? ACK_POLL_ITERATIONS); eexists _, _; (split; [done|]); (split; [done|exact Hc]).
  - destruct Hi as (H1 & H2 & H3 & H4). rewrite H2 in *. split; [lia|]. split; [by apply clean_flushed|]. intros Hc. specialize (H4 Hc).
    split; (eapply Forall_impl; [exact H4|]); intros a [? ?]; [done|by apply clean_flushed].
Qed.

(** Two processors hold the page 0x400 of a mapping that changed; the first acknowledges while the second runs. *)
Definition stale_ap : ap := mkAp Running false {[0x400; 0x999]}.
Definition demo_machine : machine := mkMachine true Shootdown_new (Returned (mkReport 0 0 0 false)) {[0x400]} [stale_ap; stale_ap].
Definition demo_turns : list turn :=
  replicate 6 Bsp ++ [Ap 0; Ap 1; Ap 0; Ap 1; Bsp; Ap 0; Ap 0; Ap 0; Ap 0; Bsp; Ap 0; Ap 0; Ap 1; Ap 1; Bsp; Ap 1; Ap 1; Ap 1; Ap 1; Bsp].
Lemma shootdown_complete_witness :
  exists s' r, run (call demo_machine 0x400000 0x1000) demo_turns = Some s' /\ bsp s' = Returned r /\ complete r = true /\
    Forall (fun a => 0x400 ∉ stale a) (aps s').
Proof.
  destruct (run (call demo_machine 0x400000 0x1000) demo_turns) as [s'|] eqn:Hr; [|vm_compute in Hr; discriminate Hr].
  pose proof (shootdown_complete demo_machine 0x400000 0x1000 demo_turns s') as H.
  assert (bsp s' = Returned (mkReport 2 2 1 false)) as Hb by (vm_compute in Hr; injection Hr as <-; reflexivity).
  rewrite Hb in H. destruct H as (_ & _ & Hc).
  - constructor; [split; reflexivity|]. constructor; [split; reflexivity|constructor].
  - cbn. lia.
  - reflexivity.
  - lia.
  - lia.
  - lia.
  - exact Hr.
  - exists s', (mkReport 2 2 1 false). split; [reflexivity|]. split; [exact Hb|]. split; [reflexivity|].
    eapply Forall_impl; [exact (proj2 (Hc eq_refl))|]. intros a Ha. apply (Ha 0x400000). lia.
Defined.

(** ** Where it falls short *)

(** On a range that does not start on a page boundary the page count forgets the offset of the start: the second of the two pages that two bytes
    around a boundary touch stays in every TLB of a shootdown that completes. *)
Example unaligned_range_missed :
  match run (call (mkMachine true Shootdown_new (bsp demo_machine) {[0x401]} [mkAp Running false {[0x401]}]) 0x400FFF 2)
          (replicate 6 Bsp ++ replicate 8 (Ap 0) ++ [Bsp]) with
  | Some s' => match bsp s' with
               | Returned r => complete r = true /\ local_pages r = 1 /\ bsp_stale s' = {[0x401]} /\ stale <$> aps s' = [{[0x401]}]
               | _ => False
               end
  | None => False
  end.
Proof. vm_compute. repeat split. Qed.

(** A length near 2^64 wraps to no pages at all. *)
Example huge_range_missed : pages_in_range (2 ^ 64 - 1) = 0.
Proof. reflexivity. Qed.

(** After a shootdown that timed out, the late acknowledgement of the first request is counted for the
    second: it reports completion while the processor still holds the page.  [late] is the state in which
    the boot processor has given up and the handler is about to acknowledge. *)
Definition late : machine :=
  mkMachine true (mkShootdown 0x200000 1 1 0) (Returned (mkReport 1 0 1 false)) ∅ [mkAp Ack false {[0x400]}].
Example late_ack_counted :
  match run (call late 0x400000 0x1000) (replicate 6 Bsp ++ [Ap 0; Bsp]) with
  | Some s' => match bsp s' with
               | Returned r => complete r = true /\ stale <$> aps s' = [{[0x400]}]
               | _ => False
               end
  | None => False
  end.
Proof. vm_compute. repeat split. Qed.

(** The boot processor gives up when no acknowledgement comes. *)
Lemma poll_times_out s va t p it :
  bsp s = Poll va t p it -> ack (desc s) < t -> 0 <= it <= ACK_POLL_ITERATIONS ->
  exists n, run s (replicate n Bsp) = Some (return_ s t (ack (desc s)) p).
Proof.
  intros Hb Ha Hit. assert (exists k, ACK_POLL_ITERATIONS - it = Z.of_nat k) as [k Hk] by (exists (Z.to_nat (ACK_POLL_ITERATIONS - it)); lia).
  revert s it Hb Ha Hit Hk. induction k as [|k IH]; intros s it Hb Ha Hit Hk.
  - exists 1%nat. cbn [replicate run step]. unfold bsp_step. rewrite Hb, (proj2 (Z.ltb_ge _ _)) by lia. done.
  - destruct (IH (set_desc s (desc s) (Poll va t p (it + 1))) (it + 1)) as [n Hn]; [done|done|lia|lia|]. exists (S n). cbn [replicate run step].
    unfold bsp_step. rewrite Hb, (proj2 (Z.ltb_lt _ _)), (proj2 (Z.leb_gt _ _)) by lia. cbn [mbind option_bind].
    unfold wrapping_add. rewrite Z.mod_small by (unfold ACK_POLL_ITERATIONS in *; lia). exact Hn.
Qed.
Lemma run_app s ts1 ts2 s1 : run s ts1 = Some s1 -> run s (ts1 ++ ts2) = run s1 ts2.
Proof.
  revert s. induction ts1 as [|t ts1 IH]; intros s; cbn [run app]; [by intros [= ->]|].
  destruct (step s t) as [s2|]; [|done]. cbn [mbind option_bind]. apply IH.
Qed.
(** [late] is reached by a slow handler from a quiet machine. *)
Example late_reachable :
  exists ts, run (call (mkMachine true Shootdown_new (bsp demo_machine) ∅ [mkAp Running false {[0x400]}]) 0x200000 0x1000) ts = Some late.
Proof.
  set (s0 := call _ _ _).
  assert (run s0 (replicate 6 Bsp ++ replicate 7 (Ap 0)) = Some (mkMachine true (mkShootdown 0x200000 1 1 0) (Poll 0x200000 1 1 0) ∅ [mkAp Ack false {[0x400]}])) as H1
    by (vm_compute; reflexivity).
  destruct (poll_times_out (mkMachine true (mkShootdown 0x200000 1 1 0) (Poll 0x200000 1 1 0) ∅ [mkAp Ack false {[0x400]}]) 0x200000 1 1 0 eq_refl) as [n Hn];
    [cbn; lia|unfold ACK_POLL_ITERATIONS; lia|]. eexists. by rewrite (run_app _ _ (replicate n Bsp) _ H1), Hn.
Qed.
