(* ===== verification/Pipe.v ===== *)
(** * Kernel pipes ([crates/nexacore-kernel/src/pipe.rs])

    [PipeRing] is a bounded byte queue with two ends and two wait queues;
    [PipeRegistry] maps pipe ids to rings.  A method that takes [&mut self]
    returns the new ring next to its result. *)

From S2P Require Import Prelude.

Definition PIPE_CAPACITY : Z := 65536.

Inductive PipeError := BrokenPipe.

Record PipeRing := mkRing {
  buffer : bytes;
  capacity : Z;
  write_end_open : bool;
  read_end_open : bool;
  waiters_read : list Z;
  waiters_write : list Z
}.

#[export] Instance PipeError_eq_dec : EqDecision PipeError.
Proof. solve_decision. Defined.

(** [PipeRing::new]. *)
Definition ring_new : PipeRing := mkRing [] PIPE_CAPACITY true true [] [].

Definition set_buffer (r : PipeRing) (b : bytes) : PipeRing :=
  mkRing b (capacity r) (write_end_open r) (read_end_open r) (waiters_read r) (waiters_write r).

(** [PipeRing::write]. *)
Definition write (data : bytes) (r : PipeRing) : result PipeError Z * PipeRing :=
  if negb (read_end_open r) then (Err BrokenPipe, r)
  else if bool_decide (data = []) then (Ok 0, r)
  else
    let available := saturating_sub (capacity r) (Z.of_nat (length (buffer r))) in
    if available =? 0 then (Ok 0, r)
    else
      let to_write := Z.min (Z.of_nat (length data)) available in
      (Ok to_write, set_buffer r (buffer r ++ take (Z.to_nat to_write) data)).

(** [PipeRing::read]: the caller's buffer is returned with the bytes placed in it. *)
Definition read (buf : bytes) (r : PipeRing) : result PipeError Z * bytes * PipeRing :=
  if bool_decide (buf = []) || bool_decide (buffer r = []) then (Ok 0, buf, r)
  else
    let to_read := Nat.min (length buf) (length (buffer r)) in
    (Ok (Z.of_nat to_read), take to_read (buffer r) ++ drop to_read buf,
     set_buffer r (drop to_read (buffer r))).

Definition drain_read_waiters (r : PipeRing) : list Z * PipeRing :=
  (waiters_read r,
   mkRing (buffer r) (capacity r) (write_end_open r) (read_end_open r) [] (waiters_write r)).

Definition drain_write_waiters (r : PipeRing) : list Z * PipeRing :=
  (waiters_write r,
   mkRing (buffer r) (capacity r) (write_end_open r) (read_end_open r) (waiters_read r) []).

Definition close_write (r : PipeRing) : list Z * PipeRing :=
  drain_read_waiters
    (mkRing (buffer r) (capacity r) false (read_end_open r) (waiters_read r) (waiters_write r)).

Definition close_read (r : PipeRing) : list Z * PipeRing :=
  drain_write_waiters
    (mkRing (buffer r) (capacity r) (write_end_open r) false (waiters_read r) (waiters_write r)).

Definition park_reader (task : Z) (r : PipeRing) : PipeRing :=
  mkRing (buffer r) (capacity r) (write_end_open r) (read_end_open r)
    (waiters_read r ++ [task]) (waiters_write r).

Definition park_writer (task : Z) (r : PipeRing) : PipeRing :=
  mkRing (buffer r) (capacity r) (write_end_open r) (read_end_open r)
    (waiters_read r) (waiters_write r ++ [task]).

Definition is_empty (r : PipeRing) : bool := bool_decide (buffer r = []).
Definition is_full (r : PipeRing) : bool := capacity r <=? Z.of_nat (length (buffer r)).

(** ** The registry *)

Record PipeRegistry := mkRegistry {
  pipes : gmap Z PipeRing;
  next_id : Z
}.

(** [PipeRegistry::new], [create], [get] and [remove]. *)
Definition registry_new : PipeRegistry := mkRegistry ∅ 1.

Definition create (g : PipeRegistry) : Z * PipeRegistry :=
  (next_id g, mkRegistry (<[next_id g := ring_new]> (pipes g)) (wrapping_add 64 (next_id g) 1)).

Definition get (id : Z) (g : PipeRegistry) : option PipeRing := pipes g !! id.

Definition remove (id : Z) (g : PipeRegistry) : bool * PipeRegistry :=
  (bool_decide (is_Some (pipes g !! id)), mkRegistry (delete id (pipes g)) (next_id g)).

(** [get_mut]: the ring is borrowed and then holds what the caller left in it. *)
Definition put_ring (id : Z) (r : PipeRing) (g : PipeRegistry) : PipeRegistry :=
  mkRegistry (<[id := r]> (pipes g)) (next_id g).

(** ** Lemmas *)

(** Bytes a [write] accepts, and a [read] delivers. *)
Definition accepted (data : bytes) (r : PipeRing) : bytes :=
  match (write data r).1 with Ok n => take (Z.to_nat n) data | Err _ => [] end.

Definition delivered (buf : bytes) (r : PipeRing) : bytes :=
  match read buf r with
  | (Ok n, buf', _) => take (Z.to_nat n) buf'
  | (Err _, _, _) => []
  end.

Definition ring_wf (r : PipeRing) : Prop := Z.of_nat (length (buffer r)) <= capacity r.

Lemma write_buffer data r : buffer (write data r).2 = buffer r ++ accepted data r.
Proof.
  unfold accepted, write. cases; by rewrite ?take_0, ?app_nil_r.
Qed.

Lemma write_wf data r : ring_wf r -> ring_wf (write data r).2.
Proof.
  unfold ring_wf, write, saturating_sub. intros H. cases.
  zbool. rewrite length_app, length_take. lia.
Qed.

Lemma read_buffer buf r : delivered buf r ++ buffer (read buf r).2 = buffer r.
Proof.
  unfold delivered, read. case_code; simpl; [done|].
  rewrite Nat2Z.id, take_app_length' by (rewrite length_take; lia). apply take_drop.
Qed.

Lemma read_wf buf r : ring_wf r -> ring_wf (read buf r).2.
Proof.
  unfold ring_wf, read. intros H. case_code; simpl; [done|]. rewrite length_drop. lia.
Qed.

#[export] Hint Resolve write_wf read_wf : nexa.

(** ** The pipe as a byte stream *)

Inductive ring_op :=
| OpWrite (data : bytes)
| OpRead (buf : bytes)
| OpCloseWrite
| OpCloseRead
| OpParkReader (task : Z)
| OpParkWriter (task : Z)
| OpDrainRead
| OpDrainWrite.

Definition apply_op (o : ring_op) (r : PipeRing) : PipeRing :=
  match o with
  | OpWrite d => (write d r).2
  | OpRead b => (read b r).2
  | OpCloseWrite => (close_write r).2
  | OpCloseRead => (close_read r).2
  | OpParkReader t => park_reader t r
  | OpParkWriter t => park_writer t r
  | OpDrainRead => (drain_read_waiters r).2
  | OpDrainWrite => (drain_write_waiters r).2
  end.

(** All the bytes accepted, and delivered, by a sequence of operations. *)
Fixpoint input (os : list ring_op) (r : PipeRing) : bytes :=
  match os with
  | [] => []
  | o :: os =>
      match o with OpWrite d => accepted d r | _ => [] end ++ input os (apply_op o r)
  end.

Fixpoint output (os : list ring_op) (r : PipeRing) : bytes :=
  match os with
  | [] => []
  | o :: os =>
      match o with OpRead b => delivered b r | _ => [] end ++ output os (apply_op o r)
  end.

Definition run_ops (os : list ring_op) (r : PipeRing) : PipeRing := fold_left (fun r o => apply_op o r) os r.

Lemma stream os r : output os r ++ buffer (run_ops os r) = buffer r ++ input os r.
Proof.
  revert r. induction os as [|o os IH]; intros r; simpl; [by rewrite app_nil_r|].
  rewrite <-app_assoc. change (fold_left _ os ?x) with (run_ops os x). rewrite IH, app_assoc.
  destruct o; simpl; try done.
  - by rewrite write_buffer, app_assoc.
  - by rewrite read_buffer.
Qed.

Lemma run_ops_wf os r : ring_wf r -> ring_wf (run_ops os r).
Proof.
  revert r. induction os as [|o os IH]; intros r Hr; simpl; [done|]. apply IH.
  destruct o; simpl; auto with nexa.
Qed.

Lemma capacity_run os r : capacity (run_ops os r) = capacity r.
Proof.
  revert r. induction os as [|o os IH]; intros r; simpl; [done|]. rewrite IH.
  destruct o; simpl; try done; unfold write, read; cases.
Qed.

(** ** Properties *)

(** C35. A pipe is a first-in first-out byte stream with a bounded buffer:
    whatever sequence of writes, reads, closes, parks and drains is applied to
    a new pipe, the bytes delivered so far followed by the bytes still buffered
    are exactly the bytes accepted so far, in order, and at most 65536 bytes
    are buffered. *)
Theorem pipe_fifo_stream os :
  output os ring_new ++ buffer (run_ops os ring_new) = input os ring_new /\
  Z.of_nat (length (buffer (run_ops os ring_new))) <= PIPE_CAPACITY.
Proof.
  split; [apply stream|].
  pose proof (run_ops_wf os ring_new ltac:(vm_compute; discriminate)) as H.
  unfold ring_wf in H. by rewrite capacity_run in H.
Qed.

(** What one [write] and one [read] return: [write] fails with [BrokenPipe]
    exactly when the read end is closed, and otherwise accepts the longest
    prefix that fits ([0] when the pipe is full); [read] delivers the longest
    prefix of the buffered bytes that fits the caller's buffer and leaves the
    rest of that buffer as it was. *)
Theorem pipe_write_read_spec r data buf :
  ring_wf r ->
  (write data r).1 =
    (if read_end_open r
     then Ok (Z.min (Z.of_nat (length data)) (capacity r - Z.of_nat (length (buffer r))))
     else Err BrokenPipe) /\
  read buf r =
    (Ok (Z.of_nat (Nat.min (length buf) (length (buffer r)))),
     take (length buf) (buffer r) ++ drop (length (buffer r)) buf,
     set_buffer r (drop (length buf) (buffer r))).
Proof.
  unfold ring_wf. intros Hwf. split.
  - unfold write, saturating_sub. destruct (read_end_open r); simpl; [|done].
    case_bool_decide as Hd; simpl; [subst; simpl; f_equal; lia|].
    destruct (Z.eqb_spec (Z.max 0 (capacity r - Z.of_nat (length (buffer r)))) 0); simpl; f_equal; lia.
  - unfold read. case_bool_decide as Hb; simpl.
    { subst. simpl. rewrite ?drop_nil, ?take_0, ?drop_0. by destruct r. }
    case_bool_decide as Hr; simpl.
    { rewrite Hr. simpl. rewrite ?Nat.min_0_r, ?take_nil, ?drop_nil, ?drop_0.
      destruct r; simpl in *. by subst. }
    destruct (Nat.min_spec (length buf) (length (buffer r))) as [[Hlt ->]|[Hge ->]].
    + by rewrite drop_all, (drop_ge buf) by lia.
    + by rewrite drop_all, (take_ge (buffer r)), (drop_ge (buffer r)), (take_ge (buffer r)) by lia.
Qed.

Lemma pipe_write_read_spec_witness :
  (write [1; 2] ring_new).1 = Ok 2 /\ read [0; 0; 0] ring_new = (Ok 0, [0; 0; 0], ring_new).
Proof.
  exact (pipe_write_read_spec ring_new [1; 2] [0; 0; 0] ltac:(vm_compute; discriminate)).
Defined.
