(* ===== verification/Kernel.v ===== *)
(** * Kernel-wide types ([crates/nexacore-kernel/src/lib.rs], [syscall.rs])

    The error type of every kernel operation, and the register pair a system
    call returns with the errno codes it can carry. *)

From S2P Require Import Prelude.

Inductive KernelError :=
| NotYetImplemented
| CapabilityDenied
| ResourceExhausted
| InvalidArgument
| Internal.

#[export] Instance KernelError_eq_dec : EqDecision KernelError.
Proof. solve_decision. Defined.

Abbreviation KernelResult := (result KernelError).

(** [SyscallReturn]: [rdx] is the errno, [0] on success. *)
Record SyscallReturn := mkRet { rax : Z; rdx : Z }.

#[export] Instance SyscallReturn_eq_dec : EqDecision SyscallReturn.
Proof. solve_decision. Defined.

(** [SyscallReturn::ok] and [SyscallReturn::err]. *)
Definition sys_ok (v : Z) : SyscallReturn := mkRet v 0.
Definition sys_err (errno : Z) : SyscallReturn := mkRet 0 errno.

(** [syscall_errno]. *)
Module errno.
Definition ENOENT : Z := 2.
Definition ESRCH : Z := 3.
Definition EIO : Z := 5.
Definition EBADF : Z := 9.
Definition EACCES : Z := 13.
Definition EFAULT : Z := 14.
Definition EEXIST : Z := 17.
Definition EINVAL : Z := 22.
Definition ENOSPC : Z := 28.
Definition ESPIPE : Z := 29.
Definition EPIPE : Z := 32.
Definition ENOSYS : Z := 38.
Definition ENOTEMPTY : Z := 39.
End errno.
