(* ===== verification/Fd.v ===== *)
(** * File descriptors ([crates/nexacore-kernel/src/fd.rs])

    [FileDescriptorTable]: a map from descriptor numbers to descriptors and a
    cursor that only moves forward. *)

From S2P Require Import Prelude Kernel.

Record FdFlags := mkFdFlags { close_on_exec : bool; non_block : bool }.
Definition FdFlags_default : FdFlags := mkFdFlags false false.

(** [OpenFlags]: the open-file bit field. *)
Definition O_RDONLY : Z := 0.
Definition O_WRONLY : Z := 1.
Definition O_RDWR : Z := 2.
Definition O_CREAT : Z := 64.
Definition O_TRUNC : Z := 512.
Definition O_APPEND : Z := 1024.
Definition ACCESS_MASK : Z := 3.

Definition is_readable (flags : Z) : bool :=
  let mode := Z.land flags ACCESS_MASK in (mode =? O_RDONLY) || (mode =? O_RDWR).
Definition is_writable (flags : Z) : bool :=
  let mode := Z.land flags ACCESS_MASK in (mode =? O_WRONLY) || (mode =? O_RDWR).
Definition has_create (flags : Z) : bool := negb (Z.land flags O_CREAT =? 0).
Definition has_trunc (flags : Z) : bool := negb (Z.land flags O_TRUNC =? 0).
Definition has_append (flags : Z) : bool := negb (Z.land flags O_APPEND =? 0).

Inductive FdKind :=
| Console (readable writable : bool)
| Pipe (pipe_id : Z) (is_read_end : bool)
| FsFile (inode offset flags : Z)
| IpcChannel (id : Z).

Record FileDescriptor := mkFd { kind : FdKind; flags : FdFlags }.

Record FileDescriptorTable := mkTable {
  entries : gmap Z FileDescriptor;
  next_fd : Z
}.

(** [FileDescriptorTable::new] and [new_with_stdio]. *)
Definition fd_new : FileDescriptorTable := mkTable ∅ 0.

Definition new_with_stdio : FileDescriptorTable :=
  mkTable
    (<[2 := mkFd (Console false true) FdFlags_default]>
      (<[1 := mkFd (Console false true) FdFlags_default]>
        (<[0 := mkFd (Console true false) FdFlags_default]> ∅))) 3.

(** The loop of [open]: the first vacant number from [candidate] on, stopping
    at [u32::MAX].  One more iteration than there are entries always reaches a
    vacant number or the end. *)
Fixpoint open_scan (fuel : nat) (candidate : Z) (m : gmap Z FileDescriptor) : option Z :=
  match fuel with
  | O => None
  | S fuel =>
      match m !! candidate with
      | None => Some candidate
      | Some _ =>
          match checked_add 32 candidate 1 with
          | Some next => open_scan fuel next m
          | None => None
          end
      end
  end.

Definition open (d : FileDescriptor) (t : FileDescriptorTable) :
    KernelResult Z * FileDescriptorTable :=
  match open_scan (S (size (entries t))) (next_fd t) (entries t) with
  | Some fd => (Ok fd, mkTable (<[fd := d]> (entries t)) (saturating_add 32 fd 1))
  | None => (Err ResourceExhausted, t)
  end.

Definition close (fd : Z) (t : FileDescriptorTable) : KernelResult () * FileDescriptorTable :=
  match entries t !! fd with
  | Some _ => (Ok (), mkTable (delete fd (entries t)) (next_fd t))
  | None => (Err InvalidArgument, t)
  end.

Definition get (fd : Z) (t : FileDescriptorTable) : option FileDescriptor := entries t !! fd.

(** [get_mut] followed by a store through the reference. *)
Definition put_fd (fd : Z) (d : FileDescriptor) (t : FileDescriptorTable) : FileDescriptorTable :=
  mkTable (<[fd := d]> (entries t)) (next_fd t).

Definition dup (old_fd : Z) (t : FileDescriptorTable) : KernelResult Z * FileDescriptorTable :=
  match entries t !! old_fd with
  | None => (Err InvalidArgument, t)
  | Some d => open (mkFd (kind d) FdFlags_default) t
  end.

Definition dup2 (old_fd new_fd : Z) (t : FileDescriptorTable) :
    KernelResult Z * FileDescriptorTable :=
  if old_fd =? new_fd then
    match entries t !! old_fd with
    | Some _ => (Ok new_fd, t)
    | None => (Err InvalidArgument, t)
    end
  else
    match entries t !! old_fd with
    | None => (Err InvalidArgument, t)
    | Some d =>
        let removed := delete new_fd (entries t) in
        (Ok new_fd, mkTable (<[new_fd := mkFd (kind d) FdFlags_default]> removed) (next_fd t))
    end.

Definition clone_for_child (t : FileDescriptorTable) : FileDescriptorTable :=
  mkTable (filter (fun kv => close_on_exec (flags kv.2) = false) (entries t)) (next_fd t).

Definition iter (t : FileDescriptorTable) : list (Z * FileDescriptor) := btree_iter (entries t).

(** ** Invariant: numbers and cursor are 32-bit *)

Record fd_wf (t : FileDescriptorTable) : Prop := mkFdWf {
  fd_wf_keys : forall fd, is_Some (entries t !! fd) -> in_uint 32 fd;
  fd_wf_next : in_uint 32 (next_fd t)
}.

Lemma new_with_stdio_wf : fd_wf new_with_stdio.
Proof.
  split; [|done]. intros fd. unfold new_with_stdio. simpl.
  rewrite !lookup_insert, lookup_empty. unfold in_uint.
  repeat (case_decide; [lia|]). by intros [].
Qed.

(** The numbers from [c] on that are taken. *)
Definition above (c : Z) (m : gmap Z FileDescriptor) : gmap Z FileDescriptor :=
  filter (fun kv => c <= kv.1) m.

Lemma above_step c m d : m !! c = Some d -> size (above c m) = S (size (above (c + 1) m)).
Proof.
  intros Hc. assert (E : above c m = <[c := d]> (above (c + 1) m)).
  { apply map_eq. intros i. unfold above. rewrite lookup_insert, !map_lookup_filter.
    case_decide as Hi; [subst i; rewrite Hc; simpl; by rewrite option_guard_True by lia|].
    destruct (m !! i) as [e|]; simpl; [|done].
    case_guard; case_guard; try done; simpl in *; lia. }
  rewrite E. apply map_size_insert_None. unfold above. apply map_lookup_filter_None. right.
  intros x _. simpl. lia.
Qed.

Lemma open_scan_spec fuel c m :
  (size (above c m) < fuel)%nat -> 0 <= c < 2 ^ 32 ->
  match open_scan fuel c m with
  | Some fd => c <= fd < 2 ^ 32 /\ m !! fd = None /\ (forall k, c <= k < fd -> is_Some (m !! k))
  | None => forall k, c <= k < 2 ^ 32 -> is_Some (m !! k)
  end.
Proof.
  revert c. induction fuel as [|fuel IH]; intros c Hf Hc; simpl; [lia|].
  destruct (m !! c) as [d|] eqn:Hd; [|split_and!; [lia|lia|done|lia]].
  rewrite (above_step _ _ _ Hd) in Hf. unfold checked_add.
  destruct (Z.ltb_spec (c + 1) (2 ^ 32)) as [Hlt|Hge].
  - specialize (IH (c + 1) ltac:(lia) ltac:(lia)).
    destruct (open_scan fuel (c + 1) m) as [fd|].
    + destruct IH as (H1 & H2 & H3). split_and!; [lia|lia|done|].
      intros k Hk. destruct (decide (k = c)) as [->|]; [eauto|]. apply H3. lia.
    + intros k Hk. destruct (decide (k = c)) as [->|]; [eauto|]. apply IH. lia.
  - intros k Hk. assert (k = c) as -> by lia. eauto.
Qed.

Lemma above_size c m : (size (above c m) <= size m)%nat.
Proof. apply map_subseteq_size, map_filter_subseteq. Qed.

Lemma open_ok d t :
  fd_wf t ->
  match open d t with
  | (Ok fd, t') =>
      next_fd t <= fd < 2 ^ 32 /\ entries t !! fd = None /\
      (forall k, next_fd t <= k < fd -> is_Some (entries t !! k)) /\
      entries t' = <[fd := d]> (entries t) /\ next_fd t' = Z.min (2 ^ 32 - 1) (fd + 1)
  | (Err e, t') =>
      e = ResourceExhausted /\ t' = t /\ forall k, next_fd t <= k < 2 ^ 32 -> is_Some (entries t !! k)
  end.
Proof.
  intros [Hk Hn]. unfold open.
  pose proof (open_scan_spec (S (size (entries t))) (next_fd t) (entries t)
    ltac:(pose proof (above_size (next_fd t) (entries t)); lia) Hn) as H.
  destruct (open_scan _ _ _) as [fd|]; [|done].
  destruct H as (H1 & H2 & H3). split_and!; done || lia.
Qed.

Lemma open_wf d t : fd_wf t -> fd_wf (open d t).2.
Proof.
  intros Hwf. pose proof (open_ok d t Hwf) as H. destruct (open d t) as [[fd|e] t']; simpl.
  - destruct H as (H1 & _ & _ & H2 & H3). destruct Hwf as [Hk Hn]. unfold in_uint in *. split.
    + rewrite H2. intros k. rewrite lookup_insert. case_decide as E; [subst; unfold in_uint; lia|]. apply Hk.
    + unfold in_uint. lia.
  - by destruct H as (_ & -> & _).
Qed.

Lemma close_wf fd t : fd_wf t -> fd_wf (close fd t).2.
Proof.
  intros [Hk Hn]. unfold close. case_code; simpl; [|done]. split; [|done]. simpl.
  intros k. rewrite lookup_delete. case_decide; [by intros []|]. apply Hk.
Qed.

Lemma dup_wf fd t : fd_wf t -> fd_wf (dup fd t).2.
Proof. intros Hwf. unfold dup. case_code; [|done]. by apply open_wf. Qed.

Lemma put_fd_wf fd d t : fd_wf t -> is_Some (entries t !! fd) -> fd_wf (put_fd fd d t).
Proof.
  intros [Hk Hn] Hs. split; [|done]. simpl. intros k. rewrite lookup_insert.
  case_decide as E; [subst; eauto|]. apply Hk.
Qed.

Lemma dup2_wf old new t : fd_wf t -> in_uint 32 new -> fd_wf (dup2 old new t).2.
Proof.
  intros [Hk Hn] Hnew. unfold dup2. cases. split; [|done]. simpl.
  intros k. rewrite lookup_insert. case_decide as E; [by subst|].
  rewrite lookup_delete_ne by done. apply Hk.
Qed.

#[export] Hint Resolve open_wf close_wf dup_wf put_fd_wf dup2_wf new_with_stdio_wf : nexa.

(** ** Properties *)

(** [open] returns the least vacant descriptor number at or after the
    cursor, stores the descriptor there and nothing else, and moves the cursor
    just past it; it fails with [ResourceExhausted], changing nothing, exactly
    when every number from the cursor to [u32::MAX] is taken. *)
Theorem fd_open_least_vacant d t :
  fd_wf t ->
  match open d t with
  | (Ok fd, t') =>
      next_fd t <= fd < 2 ^ 32 /\ entries t !! fd = None /\
      (forall k, next_fd t <= k < fd -> is_Some (entries t !! k)) /\
      entries t' = <[fd := d]> (entries t) /\ next_fd t' = Z.min (2 ^ 32 - 1) (fd + 1)
  | (Err e, t') =>
      e = ResourceExhausted /\ t' = t /\ forall k, next_fd t <= k < 2 ^ 32 -> is_Some (entries t !! k)
  end.
Proof. exact (open_ok d t). Qed.

Lemma fd_open_least_vacant_witness :
  fd_wf new_with_stdio /\
  exists t', open (mkFd (IpcChannel 7) FdFlags_default) new_with_stdio = (Ok 3, t') /\
    entries t' = <[3 := mkFd (IpcChannel 7) FdFlags_default]> (entries new_with_stdio) /\ next_fd t' = 4.
Proof.
  split; [apply new_with_stdio_wf|].
  pose proof (fd_open_least_vacant (mkFd (IpcChannel 7) FdFlags_default) new_with_stdio
    new_with_stdio_wf) as H.
  assert (Ho : (open (mkFd (IpcChannel 7) FdFlags_default) new_with_stdio).1 = Ok 3) by (by vm_compute).
  destruct (open _ _) as [r t']. simpl in Ho. subst r. exists t'.
  destruct H as (_ & _ & _ & H1 & H2). split; [done|]. split; [exact H1|exact H2].
Defined.

(** Duplication: [dup] of an open descriptor yields a new number with the
    same kind and cleared flags and leaves the others; [dup2] makes [new_fd]
    such a copy whatever it held before, is a no-op on equal numbers, and both
    refuse a descriptor that is not open without changing the table. *)
Theorem fd_dup_spec t old new d :
  fd_wf t -> entries t !! old = Some d ->
  (forall fd t', dup old t = (Ok fd, t') ->
     fd <> old /\ entries t' !! fd = Some (mkFd (kind d) FdFlags_default) /\
     forall k, k <> fd -> entries t' !! k = entries t !! k) /\
  dup2 old old t = (Ok old, t) /\
  (old <> new ->
     exists t', dup2 old new t = (Ok new, t') /\
       entries t' !! new = Some (mkFd (kind d) FdFlags_default) /\
       forall k, k <> new -> entries t' !! k = entries t !! k) /\
  (forall bad, entries t !! bad = None ->
     dup bad t = (Err InvalidArgument, t) /\ dup2 bad new t = (Err InvalidArgument, t)).
Proof.
  intros Hwf Hd. split_and!.
  - intros fd t' H. unfold dup in H. rewrite Hd in H.
    pose proof (open_ok (mkFd (kind d) FdFlags_default) t Hwf) as Ho. rewrite H in Ho.
    destruct Ho as (_ & Hv & _ & -> & _). split; [congruence|].
    split; [apply lookup_insert_eq|]. intros k Hk. by rewrite lookup_insert_ne.
  - unfold dup2. by rewrite Z.eqb_refl, Hd.
  - intros Hne. unfold dup2. rewrite (proj2 (Z.eqb_neq _ _)), Hd by done.
    eexists. split; [done|]. simpl. split; [apply lookup_insert_eq|].
    intros k Hk. by rewrite lookup_insert_ne, lookup_delete_ne.
  - intros bad Hbad. unfold dup, dup2. rewrite Hbad. by case_code.
Qed.

Lemma fd_dup_spec_witness :
  exists t', dup2 1 2 new_with_stdio = (Ok 2, t') /\
    entries t' !! 2 = Some (mkFd (Console false true) FdFlags_default).
Proof.
  destruct (fd_dup_spec new_with_stdio 1 2 (mkFd (Console false true) FdFlags_default)
    new_with_stdio_wf eq_refl) as (_ & _ & H & _).
  destruct (H ltac:(lia)) as (t' & H1 & H2 & _). by exists t'.
Defined.
