(* ===== verification/Console.v ===== *)
(** * Console input buffer ([crates/nexacore-kernel/src/console_input.rs])

    A bounded byte queue that drops its oldest byte when full, read line by
    line. *)

From S2P Require Import Prelude.

Definition CONSOLE_INPUT_CAPACITY : Z := 4096.
Definition NEWLINE : Z := 10.

Record ConsoleInputBuffer := mkConsole { buffer : bytes; capacity : Z }.

Definition console_new : ConsoleInputBuffer := mkConsole [] CONSOLE_INPUT_CAPACITY.

Definition push_byte (byte : Z) (c : ConsoleInputBuffer) : ConsoleInputBuffer :=
  let b := if capacity c <=? Z.of_nat (length (buffer c)) then drop 1 (buffer c) else buffer c in
  mkConsole (b ++ [byte]) (capacity c).

(** [iter().position(|&b| b == '\n')]. *)
Fixpoint newline_position (l : bytes) : option nat :=
  match l with
  | [] => None
  | b :: l => if b =? NEWLINE then Some 0%nat else S <$> newline_position l
  end.

Definition read_bytes (max_len : Z) (line_buffered : bool) (c : ConsoleInputBuffer) :
    bytes * ConsoleInputBuffer :=
  if (max_len =? 0) || bool_decide (buffer c = []) then ([], c)
  else
    let available := Nat.min (length (buffer c)) (Z.to_nat max_len) in
    let to_drain :=
      if line_buffered then
        match newline_position (take available (buffer c)) with
        | Some pos => S pos
        | None => available
        end
      else available in
    (take to_drain (buffer c), mkConsole (drop to_drain (buffer c)) (capacity c)).

Definition has_line (c : ConsoleInputBuffer) : bool := bool_decide (NEWLINE ∈ buffer c).

(** ** Lemmas *)

Definition console_wf (c : ConsoleInputBuffer) : Prop :=
  0 < capacity c /\ Z.of_nat (length (buffer c)) <= capacity c.

Lemma newline_position_Some l p :
  newline_position l = Some p -> l !! p = Some NEWLINE /\ NEWLINE ∉ take p l.
Proof.
  revert p. induction l as [|b l IH]; intros p; simpl; [done|].
  destruct (Z.eqb_spec b NEWLINE) as [->|Hne].
  - intros [= <-]. split; [done|]. simpl. apply not_elem_of_nil.
  - rewrite fmap_Some. intros (q & Hq & ->). destruct (IH q Hq) as [H1 H2]. split; [done|].
    simpl. rewrite elem_of_cons. intros [?|?]; [congruence|done].
Qed.

Lemma newline_position_None l : newline_position l = None -> NEWLINE ∉ l.
Proof.
  induction l as [|b l IH]; simpl; [intros _; apply not_elem_of_nil|].
  destruct (Z.eqb_spec b NEWLINE) as [->|Hne]; [done|]. rewrite fmap_None.
  intros H. rewrite elem_of_cons. intros [?|?]; [congruence|]. by apply IH.
Qed.

Lemma push_byte_wf b c : console_wf c -> console_wf (push_byte b c).
Proof.
  unfold console_wf, push_byte. intros [H1 H2]. split; [done|]. simpl. rewrite length_app. simpl.
  destruct (Z.leb_spec (capacity c) (Z.of_nat (length (buffer c)))); rewrite ?length_drop; lia.
Qed.

Lemma read_bytes_wf n l c : console_wf c -> console_wf (read_bytes n l c).2.
Proof.
  unfold console_wf, read_bytes. intros [H1 H2]. case_code; [done|]. simpl.
  rewrite length_drop. lia.
Qed.

Lemma read_bytes_split n l c :
  (read_bytes n l c).1 ++ buffer (read_bytes n l c).2 = buffer c.
Proof. unfold read_bytes. case_code; simpl; [done|]. apply take_drop. Qed.

#[export] Hint Resolve push_byte_wf read_bytes_wf : nexa.

(** ** Property *)

(** A line-buffered console read returns a prefix of the buffered input,
    removes exactly that prefix, is never longer than asked, and stops at the
    first newline: no returned byte but the last is a newline, and a shorter
    result than the available bytes ends in one. *)
Theorem console_read_line c n :
  0 <= n ->
  let out := (read_bytes n true c).1 in
  out ++ buffer (read_bytes n true c).2 = buffer c /\
  (length out <= Z.to_nat n)%nat /\
  (NEWLINE ∉ removelast out) /\
  ((length out < Nat.min (length (buffer c)) (Z.to_nat n))%nat -> last out = Some NEWLINE).
Proof.
  intros Hn out. split; [apply read_bytes_split|]. subst out. unfold read_bytes.
  destruct (Z.eqb_spec n 0) as [->|Hn0]; simpl; [split_and!; [lia|apply not_elem_of_nil|lia]|].
  case_bool_decide as Hb; simpl.
  { rewrite Hb. simpl. split_and!; [lia|apply not_elem_of_nil|lia]. }
  set (av := Nat.min (length (buffer c)) (Z.to_nat n)).
  destruct (newline_position (take av (buffer c))) as [p|] eqn:Hp.
  - apply newline_position_Some in Hp as [H1 H2].
    pose proof (lookup_lt_Some _ _ _ H1) as Hlt. rewrite length_take in Hlt.
    rewrite lookup_take_lt in H1 by lia. rewrite take_take, Nat.min_l in H2 by lia.
    rewrite (take_S_r _ _ _ H1), removelast_last, last_snoc, length_app, length_take. simpl.
    split_and!; [lia|done|done].
  - apply newline_position_None in Hp. rewrite length_take. split_and!; [lia| |lia].
    intros H. apply Hp. revert H. generalize (take av (buffer c)). intros l.
    induction l as [|x [|y l] IH]; simpl; [done|intros []%not_elem_of_nil|].
    rewrite !elem_of_cons. intros [?|?]; [by left|right]. by apply elem_of_cons, IH.
Qed.

Lemma console_read_line_witness :
  (read_bytes 64 true (mkConsole [65; 10; 66] 4096)).1 = [65; 10] /\
  NEWLINE ∉ removelast [65; 10].
Proof.
  destruct (console_read_line (mkConsole [65; 10; 66] 4096) 64 ltac:(lia)) as (_ & _ & H & _).
  split; [reflexivity|exact H].
Defined.
