(* ===== verification/ProcessTable.v ===== *)
(** * Process table ([crates/nexacore-kernel/src/process_table.rs])

    Parent and child links of the live and zombie processes, with the
    register / exit / reap protocol.  A [BTreeMap<u64, ProcessEntry>] is a
    [gmap Z ProcessEntry]. *)

From S2P Require Import Prelude.

Record ProcessEntry := mkEntry {
  id : Z;
  parent : option Z;
  children : list Z;
  exit_code : option Z;
  cwd : bytes;
  name : bytes
}.

Record ProcessTable := mkProcs { entries : gmap Z ProcessEntry }.

Definition ROOT_PATH : bytes := [47].

Definition with_children (e : ProcessEntry) (cs : list Z) : ProcessEntry :=
  mkEntry (id e) (parent e) cs (exit_code e) (cwd e) (name e).

Definition procs_new : ProcessTable := mkProcs ∅.

Definition register (tid : Z) (par : option Z) (nm : bytes) (t : ProcessTable) : ProcessTable :=
  let m := <[tid := mkEntry tid par [] None ROOT_PATH nm]> (entries t) in
  mkProcs
    match par with
    | None => m
    | Some p =>
        match m !! p with
        | Some e => <[p := with_children e (children e ++ [tid])]> m
        | None => m
        end
    end.

Definition record_exit (tid code : Z) (t : ProcessTable) : option Z * ProcessTable :=
  match entries t !! tid with
  | None => (None, t)
  | Some e =>
      (parent e,
       mkProcs (<[tid := mkEntry (id e) (parent e) (children e) (Some code) (cwd e) (name e)]>
                  (entries t)))
  end.

(** [iter().find_map(|cid| entries.get(cid)?.exit_code.map(|code| (cid, code)))]. *)
Fixpoint find_exited (cs : list Z) (m : gmap Z ProcessEntry) : option (Z * Z) :=
  match cs with
  | [] => None
  | c :: cs =>
      match m !! c with
      | Some e =>
          match exit_code e with Some code => Some (c, code) | None => find_exited cs m end
      | None => find_exited cs m
      end
  end.

Definition reap_child (par : Z) (t : ProcessTable) : option (Z * Z) * ProcessTable :=
  match entries t !! par with
  | None => (None, t)
  | Some e =>
      let sorted_child_ids := merge_sort Z.le (children e) in
      match find_exited sorted_child_ids (entries t) with
      | None => (None, t)
      | Some (child, code) =>
          let m := delete child (entries t) in
          let m' :=
            match m !! par with
            | Some pe => <[par := with_children pe (filter (fun c => c <> child) (children pe))]> m
            | None => m
            end in
          (Some (child, code), mkProcs m')
      end
  end.

Definition get (tid : Z) (t : ProcessTable) : option ProcessEntry := entries t !! tid.

Definition get_cwd (tid : Z) (t : ProcessTable) : option bytes := cwd <$> entries t !! tid.

Definition set_cwd (tid : Z) (path : bytes) (t : ProcessTable) : bool * ProcessTable :=
  match entries t !! tid with
  | Some e =>
      (true, mkProcs (<[tid := mkEntry (id e) (parent e) (children e) (exit_code e) path (name e)]>
                        (entries t)))
  | None => (false, t)
  end.

Definition list_processes (t : ProcessTable) : list ProcessEntry := (btree_iter (entries t)).*2.

Definition remove (tid : Z) (t : ProcessTable) : bool * ProcessTable :=
  (bool_decide (is_Some (entries t !! tid)), mkProcs (delete tid (entries t))).

(** ** Invariant

    Entries are stored under their own id; a listed child that is in the table
    names its lister as parent; no child is listed twice; nobody is its own
    child. *)
Record procs_wf (t : ProcessTable) : Prop := mkProcsWf {
  pw_id : forall p e, entries t !! p = Some e -> id e = p;
  pw_child : forall p e c ce, entries t !! p = Some e -> c ∈ children e ->
    entries t !! c = Some ce -> parent ce = Some p;
  pw_nodup : forall p e, entries t !! p = Some e -> NoDup (children e);
  pw_irrefl : forall p e, entries t !! p = Some e -> p ∉ children e
}.

(** An id that is neither in the table nor in anybody's list of children. *)
Definition fresh (tid : Z) (t : ProcessTable) : Prop :=
  entries t !! tid = None /\ forall p e, entries t !! p = Some e -> tid ∉ children e.

(** ** Lemmas *)

Lemma find_exited_Some cs m c code :
  find_exited cs m = Some (c, code) ->
  exists cs1 cs2 e, cs = cs1 ++ c :: cs2 /\ m !! c = Some e /\ exit_code e = Some code /\
    find_exited cs1 m = None.
Proof.
  induction cs as [|x cs IH]; simpl; [done|].
  destruct (m !! x) as [e|] eqn:Hx; [destruct (exit_code e) as [k|] eqn:Hk|].
  - intros [= -> ->]. by exists [], cs, e.
  - intros H. destruct (IH H) as (cs1 & cs2 & e' & -> & ? & ? & ?).
    exists (x :: cs1), cs2, e'. simpl. by rewrite Hx, Hk.
  - intros H. destruct (IH H) as (cs1 & cs2 & e' & -> & ? & ? & ?).
    exists (x :: cs1), cs2, e'. simpl. by rewrite Hx.
Qed.

Lemma find_exited_None cs m :
  find_exited cs m = None <-> forall c e, c ∈ cs -> m !! c = Some e -> exit_code e = None.
Proof.
  induction cs as [|x cs IH]; simpl.
  - split; [|done]. by intros _ c e []%not_elem_of_nil.
  - destruct (m !! x) as [e|] eqn:Hx; [destruct (exit_code e) as [k|] eqn:Hk|].
    + split; [done|]. intros H. specialize (H x e ltac:(left) Hx). congruence.
    + rewrite IH. split.
      * intros H c e' [->|Hc]%elem_of_cons Hm; [congruence|eauto].
      * intros H c e' Hc Hm. eapply H; [by right|done].
    + rewrite IH. split.
      * intros H c e' [->|Hc]%elem_of_cons Hm; [congruence|eauto].
      * intros H c e' Hc Hm. eapply H; [by right|done].
Qed.

Lemma elem_of_sorted_children (cs : list Z) c : c ∈ merge_sort Z.le cs <-> c ∈ cs.
Proof. by rewrite merge_sort_Permutation. Qed.

(** The child found in the sorted list is the least exited one. *)
Lemma find_exited_least cs m c code :
  find_exited (merge_sort Z.le cs) m = Some (c, code) ->
  c ∈ cs /\ (exists e, m !! c = Some e /\ exit_code e = Some code) /\
  forall d e, d ∈ cs -> m !! d = Some e -> exit_code e <> None -> c <= d.
Proof.
  intros H. destruct (find_exited_Some _ _ _ _ H) as (cs1 & cs2 & e & Hs & Hm & Hc & Hn).
  split; [apply elem_of_sorted_children; rewrite Hs; apply elem_of_app; right; left|].
  split; [by exists e|]. intros d e' Hd He' Hx.
  apply elem_of_sorted_children in Hd. rewrite Hs in Hd.
  pose proof (StronglySorted_merge_sort Z.le cs) as Hsort. rewrite Hs in Hsort.
  apply elem_of_app in Hd as [Hd|[->|Hd]%elem_of_cons]; [|lia|].
  - exfalso. apply Hx. by apply (proj1 (find_exited_None cs1 m) Hn d e').
  - apply StronglySorted_app in Hsort as (_ & _ & Hsort).
    apply StronglySorted_inv in Hsort as [_ Hall]. by apply (proj1 (Forall_forall _ _) Hall).
Qed.

Lemma procs_new_wf : procs_wf procs_new.
Proof. split; intros *; simpl; by rewrite lookup_empty. Qed.

(** Replacing an entry by one with the same id, parent and children. *)
Lemma update_wf t p e e' :
  procs_wf t -> entries t !! p = Some e ->
  id e' = id e -> parent e' = parent e -> children e' = children e ->
  procs_wf (mkProcs (<[p := e']> (entries t))).
Proof.
  intros [H1 H2 H3 H4] He Hi Hp Hc.
  assert (L : forall q x, <[p := e']> (entries t) !! q = Some x ->
    exists y, entries t !! q = Some y /\ id x = id y /\ parent x = parent y /\ children x = children y).
  { intros q x. rewrite lookup_insert. case_decide as E; [|by exists x].
    intros [= <-]. subst q. by exists e. }
  split; simpl.
  - intros q x (y & Hy & -> & _)%L. eauto.
  - intros q x c ce (y & Hy & _ & _ & ->)%L Hcx (z & Hz & _ & -> & _)%L. eauto.
  - intros q x (y & Hy & _ & _ & ->)%L. eauto.
  - intros q x (y & Hy & _ & _ & ->)%L. eauto.
Qed.

(** Removing an entry, and keeping a part of a parent's list. *)
Lemma delete_wf t c : procs_wf t -> procs_wf (mkProcs (delete c (entries t))).
Proof.
  intros [H1 H2 H3 H4]. split; simpl; intros *; rewrite !lookup_delete_Some.
  - intros [_ ?]. eauto.
  - intros [_ ?] ? [_ ?]. eauto.
  - intros [_ ?]. eauto.
  - intros [_ ?]. eauto.
Qed.

Lemma shrink_wf t p e cs :
  procs_wf t -> entries t !! p = Some e -> cs `sublist_of` children e ->
  procs_wf (mkProcs (<[p := with_children e cs]> (entries t))).
Proof.
  intros [H1 H2 H3 H4] He Hcs.
  assert (L : forall q x, <[p := with_children e cs]> (entries t) !! q = Some x ->
    exists y, entries t !! q = Some y /\ id x = id y /\ parent x = parent y /\
      children x `sublist_of` children y).
  { intros q x. rewrite lookup_insert. case_decide as E; [|by exists x].
    intros [= <-]. subst q. by exists e. }
  split; simpl.
  - intros q x (y & Hy & -> & _)%L. eauto.
  - intros q x c ce (y & Hy & _ & _ & Hs)%L Hcx (z & Hz & _ & -> & _)%L.
    eapply H2; [done| |done]. by eapply elem_of_sublist.
  - intros q x (y & Hy & _ & _ & Hs)%L. eapply sublist_NoDup; [eauto|done].
  - intros q x (y & Hy & _ & _ & Hs)%L Hq. eapply H4; [done|]. by eapply elem_of_sublist.
Qed.

Lemma register_wf tid par nm t :
  procs_wf t -> fresh tid t -> par <> Some tid -> procs_wf (register tid par nm t).
Proof.
  intros Hwf [Hf1 Hf2] Hpar.
  set (m := <[tid := mkEntry tid par [] None ROOT_PATH nm]> (entries t)).
  assert (Hm : procs_wf (mkProcs m)).
  { destruct Hwf as [H1 H2 H3 H4]. subst m. split; simpl.
    - intros q x. rewrite lookup_insert. case_decide; [by intros [= <-]|eauto].
    - intros q x c ce. rewrite !lookup_insert. case_decide; [by intros [= <-] []%not_elem_of_nil|].
      intros Hx Hc. case_decide; [subst; by destruct (Hf2 _ _ Hx)|eauto].
    - intros q x. rewrite lookup_insert. case_decide; [intros [= <-]; constructor|eauto].
    - intros q x. rewrite lookup_insert. case_decide; [intros [= <-] []%not_elem_of_nil|eauto]. }
  unfold register. fold m. destruct par as [p|]; [|done].
  assert (Hpt : p <> tid) by congruence.
  destruct (m !! p) as [e|] eqn:He; [|done]. destruct Hm as [H1 H2 H3 H4].
  assert (Hin : tid ∉ children e).
  { subst m. rewrite lookup_insert_ne in He by done. eauto. }
  assert (Hc : forall q x, <[p := with_children e (children e ++ [tid])]> m !! q = Some x ->
    exists y, m !! q = Some y /\ id x = id y /\ parent x = parent y /\
      (q <> p /\ children x = children y \/ q = p /\ y = e /\ children x = children e ++ [tid])).
  { intros q x. rewrite lookup_insert. case_decide as E; [|intros; exists x; naive_solver].
    intros [= <-]. subst q. exists e. naive_solver. }
  split; simpl.
  - intros q x (y & Hy & -> & _)%Hc. eauto.
  - intros q x c ce (y & Hy & _ & _ & Hcs)%Hc Hcx (z & Hz & _ & -> & _)%Hc.
    destruct Hcs as [ [? Hcs]|(-> & -> & Hcs)]; rewrite Hcs in Hcx; [eauto|].
    apply elem_of_app in Hcx as [?| ->%list_elem_of_singleton]; [eauto|].
    subst m. rewrite lookup_insert_eq in Hz. by simplify_eq.
  - intros q x (y & Hy & _ & _ & [(_ & ->)|(-> & -> & ->)])%Hc; [eauto|].
    apply NoDup_app. split_and!; [eauto| |apply NoDup_singleton].
    intros c Hc1 ->%list_elem_of_singleton. done.
  - intros q x (y & Hy & _ & _ & [(_ & ->)|(-> & -> & ->)])%Hc; [eauto|].
    rewrite elem_of_app, list_elem_of_singleton. intros [?|?]; [by eapply H4|done].
Qed.

Lemma record_exit_wf tid code t : procs_wf t -> procs_wf (record_exit tid code t).2.
Proof.
  intros Hwf. unfold record_exit. destruct (entries t !! tid) as [e|] eqn:He; [|done].
  by eapply update_wf.
Qed.

Lemma set_cwd_wf tid path t : procs_wf t -> procs_wf (set_cwd tid path t).2.
Proof.
  intros Hwf. unfold set_cwd. destruct (entries t !! tid) as [e|] eqn:He; [|done].
  by eapply update_wf.
Qed.

Lemma reap_child_ok p e t :
  procs_wf t -> entries t !! p = Some e ->
  match reap_child p t with
  | (None, t') => t' = t /\
      forall c ce, c ∈ children e -> entries t !! c = Some ce -> exit_code ce = None
  | (Some (c, code), t') =>
      c ∈ children e /\ (exists ce, entries t !! c = Some ce /\ exit_code ce = Some code) /\
      (forall d de, d ∈ children e -> entries t !! d = Some de -> exit_code de <> None -> c <= d) /\
      entries t' = <[p := with_children e (filter (fun d => d <> c) (children e))]>
                     (delete c (entries t))
  end.
Proof.
  intros Hwf He. unfold reap_child. rewrite He.
  destruct (find_exited (merge_sort Z.le (children e)) (entries t)) as [[c code]|] eqn:Hx.
  - destruct (find_exited_least _ _ _ _ Hx) as (H1 & H2 & H3).
    assert (c <> p) by (intros ->; by destruct (pw_irrefl _ Hwf _ _ He)).
    rewrite lookup_delete_ne by done. rewrite He. done.
  - split; [done|]. intros c ce Hc Hm.
    apply (proj1 (find_exited_None _ _) Hx c ce); [by apply elem_of_sorted_children|done].
Qed.

Lemma reap_child_wf p t : procs_wf t -> procs_wf (reap_child p t).2.
Proof.
  intros Hwf. destruct (entries t !! p) as [e|] eqn:He; [|unfold reap_child; by rewrite He].
  pose proof (reap_child_ok p e t Hwf He) as H.
  destruct (reap_child p t) as [[[c code]|] t']; simpl; [|by destruct H as [-> _]].
  destruct H as (H1 & _ & _ & Ht'). destruct t' as [m']. simpl in Ht'. subst m'.
  change (delete c (entries t)) with (entries (mkProcs (delete c (entries t)))).
  apply shrink_wf; [by apply delete_wf| |apply sublist_filter].
  simpl. rewrite lookup_delete_ne; [done|]. intros ->. by destruct (pw_irrefl _ Hwf _ _ He).
Qed.

Lemma remove_wf tid t : procs_wf t -> procs_wf (remove tid t).2.
Proof. apply delete_wf. Qed.

#[export] Hint Resolve record_exit_wf set_cwd_wf reap_child_wf remove_wf : nexa.

(** ** Properties *)

(** [reap_child] returns the exited child of least id among the parent's
    listed children, with its exit code, removes that entry and that link and
    nothing else; it returns [None], changing nothing, exactly when no listed
    child has exited. *)
Theorem reap_child_spec p e t :
  procs_wf t -> entries t !! p = Some e ->
  match reap_child p t with
  | (None, t') => t' = t /\
      forall c ce, c ∈ children e -> entries t !! c = Some ce -> exit_code ce = None
  | (Some (c, code), t') =>
      c ∈ children e /\ (exists ce, entries t !! c = Some ce /\ exit_code ce = Some code) /\
      (forall d de, d ∈ children e -> entries t !! d = Some de -> exit_code de <> None -> c <= d) /\
      entries t' = <[p := with_children e (filter (fun d => d <> c) (children e))]>
                     (delete c (entries t))
  end.
Proof. exact (reap_child_ok p e t). Qed.

(** The operations a kernel run applies to the table; ids of new processes are fresh. *)
Inductive step : ProcessTable -> ProcessTable -> Prop :=
| step_register tid par nm t :
    fresh tid t -> par <> Some tid -> step t (register tid par nm t)
| step_exit tid code t : step t (record_exit tid code t).2
| step_reap p t : step t (reap_child p t).2
| step_set_cwd tid path t : step t (set_cwd tid path t).2
| step_remove tid t : step t (remove tid t).2.

(** Removing a child that was registered last gives back the table it was
    registered in. *)
Lemma forget_child (m : gmap Z ProcessEntry) p c e ce ce' :
  m !! p = Some e -> m !! c = None -> c ∉ children e -> p <> c ->
  <[p := with_children (with_children e (children e ++ [c]))
           (filter (fun d => d <> c) (children e ++ [c]))]>
    (delete c (<[c := ce]> (<[p := with_children e (children e ++ [c])]> (<[c := ce']> m)))) = m.
Proof.
  intros He Hc Hin Hpc.
  rewrite filter_app, filter_cons_False, filter_nil, app_nil_r by (by intros []).
  rewrite filter_keep_all by (by intros x Hx ->).
  apply map_eq. intros i.
  destruct (decide (i = p)) as [->|]; [rewrite lookup_insert_eq, He; by destruct e|].
  rewrite lookup_insert_ne by done.
  destruct (decide (i = c)) as [->|]; [by rewrite lookup_delete_eq|].
  by rewrite lookup_delete_ne, !lookup_insert_ne.
Qed.

(** Every table reached from the empty one keeps the parent/child links
    consistent, and a spawn / exit / wait cycle of a fresh child leaves no
    trace: after [register] under a live parent, [record_exit] reports that
    parent, and when no other child of it has exited the parent's next
    [reap_child] returns that child and its code and restores the table. *)
Theorem wait_protocol t c p e nm code :
  rtc step procs_new t -> fresh c t -> p <> c -> entries t !! p = Some e ->
  (forall d de, d ∈ children e -> entries t !! d = Some de -> exit_code de = None) ->
  procs_wf t /\
  let t1 := register c (Some p) nm t in
  (record_exit c code t1).1 = Some p /\
  reap_child p (record_exit c code t1).2 = (Some (c, code), t).
Proof.
  intros Hreach Hfr Hpc He Hrun.
  assert (Hwf : procs_wf t).
  { apply (reach_inv step procs_wf procs_new); [|exact procs_new_wf|done].
    intros s s' []; auto using register_wf with nexa. }
  split; [done|]. destruct Hfr as [Hc0 Hc1]. cbv zeta.
  assert (Ht1 : entries (register c (Some p) nm t) =
    <[p := with_children e (children e ++ [c])]>
      (<[c := mkEntry c (Some p) [] None ROOT_PATH nm]> (entries t))).
  { unfold register. simpl. by rewrite lookup_insert_ne, He by done. }
  unfold record_exit. rewrite Ht1, lookup_insert_ne, lookup_insert_eq by done. simpl.
  split; [done|].
  set (t2 := mkProcs _).
  assert (He2 : entries t2 !! p = Some (with_children e (children e ++ [c]))).
  { subst t2. simpl. by rewrite lookup_insert_ne, lookup_insert_eq. }
  assert (Hwf2 : procs_wf t2).
  { assert (H1 : procs_wf (register c (Some p) nm t)) by (apply register_wf; [done|done|congruence]).
    pose proof (record_exit_wf c code _ H1) as H2. unfold record_exit in H2.
    rewrite Ht1, lookup_insert_ne, lookup_insert_eq in H2 by done. done. }
  pose proof (reap_child_ok p _ t2 Hwf2 He2) as H. simpl in H.
  destruct (reap_child p t2) as [[[d k]|] [m']]; simpl in H.
  - destruct H as (Hd & (de & Hde & Hk) & _ & Hm').
    assert (d = c) as ->.
    { apply elem_of_app in Hd as [Hd|?%list_elem_of_singleton]; [|done]. exfalso.
      assert (d <> c) by (intros ->; by eapply Hc1).
      assert (d <> p) by (intros ->; by destruct (pw_irrefl _ Hwf _ _ He)).
      subst t2. simpl in Hde. rewrite !lookup_insert_ne in Hde by done.
      rewrite (Hrun d de Hd Hde) in Hk. done. }
    subst t2. simpl in Hde. rewrite lookup_insert_eq in Hde. simplify_eq. simpl in Hk. simplify_eq.
    f_equal. destruct t as [m]. simpl in *. f_equal.
    apply forget_child; [done|done|by eapply Hc1|done].
  - exfalso. destruct H as [_ H].
    assert (Hin : c ∈ children e ++ [c]) by (apply elem_of_app; right; left).
    pose proof (H c _ Hin (lookup_insert_eq _ _ _)). done.
Qed.

(** ** Witnesses: [init] (1) spawns a worker (2), which exits with code 42 *)

Definition init_table : ProcessTable := register 1 None [105] procs_new.

Lemma init_reached : rtc step procs_new init_table.
Proof.
  apply rtc_once, step_register; [|done]. split; [done|].
  intros p e. simpl. by rewrite lookup_empty.
Qed.

Lemma init_fresh : fresh 2 init_table.
Proof.
  split; [done|]. intros p e. unfold init_table, register. simpl.
  rewrite lookup_insert_Some, lookup_empty. intros [[_ <-]|[_ ?]]; [apply not_elem_of_nil|done].
Qed.

Lemma wait_protocol_witness :
  reap_child 1 (record_exit 2 42 (register 2 (Some 1) [119] init_table)).2 = (Some (2, 42), init_table).
Proof.
  destruct (wait_protocol init_table 2 1 (mkEntry 1 None [] None ROOT_PATH [105]) [119] 42
    init_reached init_fresh ltac:(lia) eq_refl ltac:(by intros d de []%not_elem_of_nil)) as [_ [_ H]].
  exact H.
Defined.

Lemma reap_child_spec_witness :
  procs_wf init_table /\ (reap_child 1 init_table).1 = None.
Proof.
  assert (Hwf : procs_wf init_table).
  { apply register_wf; [exact procs_new_wf| |done]. split; [done|]. intros p e. simpl. by rewrite lookup_empty. }
  split; [done|].
  pose proof (reap_child_spec 1 (mkEntry 1 None [] None ROOT_PATH [105]) init_table Hwf eq_refl) as H.
  destruct (reap_child 1 init_table) as [[[c code]|] t']; [|done].
  by destruct H as (H%not_elem_of_nil & _).
Defined.
