(* ===== verification/Vfs.v ===== *)
(** * In-memory file system ([crates/nexacore-kernel/src/vfs.rs])

    [InMemoryVfs]: a table of inodes, each with its parent and, for a
    directory, its children by name.  Strings are lists of UTF-8 bytes.  The
    operations that can panic (the [expect] on the last slash, and a
    [Vec::resize] past [isize::MAX]) return [exec]. *)

From S2P Require Import Prelude.

Definition SLASH : Z := 47.
Definition DOT : str := [46].
Definition DOTDOT : str := [46; 46].
Definition ROOT : str := [SLASH].
Definition ISIZE_MAX : Z := 2 ^ 63 - 1.

Inductive FileType := RegularFile | Directory.

#[export] Instance FileType_eq_dec : EqDecision FileType.
Proof. solve_decision. Defined.

Record FileStat := mkStat { st_inode : Z; st_size : Z; st_type : FileType }.
Record DirEntry := mkDirEntry { de_name : str; de_inode : Z; de_type : FileType }.

Inductive VfsError :=
| NotFound | AlreadyExists | NotADirectory | IsADirectory | NotEmpty | InvalidPath.

#[export] Instance VfsError_eq_dec : EqDecision VfsError.
Proof. solve_decision. Defined.

Record Inode := mkInode {
  i_id : Z;
  i_name : str;
  i_type : FileType;
  i_data : bytes;
  i_children : gmap str Z;
  i_parent : option Z
}.

Record InMemoryVfs := mkVfs { inodes : gmap Z Inode; next_inode : Z }.

Definition vfs_new : InMemoryVfs :=
  mkVfs {[ 1 := mkInode 1 ROOT Directory [] ∅ None ]} 2.

(** ** Paths *)

(** [s.split('/')] *)
Fixpoint split (s : str) : list str :=
  match s with
  | [] => [[]]
  | b :: s =>
      if b =? SLASH then [] :: split s
      else match split s with
           | w :: ws => (b :: w) :: ws
           | [] => [[b]]
           end
  end.

(** One round of the loop of [normalize_path] over the components. *)
Definition push_component (stack : list str) (c : str) : list str :=
  if bool_decide (c = []) || bool_decide (c = DOT) then stack
  else if bool_decide (c = DOTDOT) then take (length stack - 1) stack
  else stack ++ [c].

(** The final join of the stack. *)
Definition render (stack : list str) : str :=
  if bool_decide (stack = []) then ROOT else mjoin ((fun c => SLASH :: c) <$> stack).

Definition normalize_path (base path : str) : str :=
  let raw :=
    if bool_decide (head path = Some SLASH) then path
    else
      let s := if bool_decide (last base = Some SLASH) then base else base ++ [SLASH] in
      s ++ path in
  render (fold_left push_component (split raw) []).

(** The walk of [resolve_path] over the components. *)
Fixpoint walk (v : InMemoryVfs) (current_id : Z) (components : list str) : result VfsError Z :=
  match components with
  | [] => Ok current_id
  | c :: cs =>
      if bool_decide (c = []) then walk v current_id cs
      else
        inode ← ok_or (inodes v !! current_id) NotFound;
        if bool_decide (i_type inode = Directory) then
          child_id ← ok_or (i_children inode !! c) NotFound;
          walk v child_id cs
        else Err NotADirectory
  end.

Definition resolve_path (path : str) (v : InMemoryVfs) : result VfsError Z :=
  let normalized := normalize_path ROOT path in
  if bool_decide (normalized = ROOT) then Ok 1
  else walk v 1 (drop 1 (split normalized)).

(** [s.rfind('/')]. *)
Fixpoint rfind_slash (s : str) : option nat :=
  match s with
  | [] => None
  | b :: s =>
      match rfind_slash s with
      | Some i => Some (S i)
      | None => if b =? SLASH then Some 0%nat else None
      end
  end.

Definition resolve_parent (path : str) (v : InMemoryVfs) : exec (result VfsError (Z * str)) :=
  let normalized := normalize_path ROOT path in
  if bool_decide (normalized = ROOT) then Done (Err InvalidPath)
  else
    match rfind_slash normalized with
    | None => Panic
    | Some last_slash =>
        let child_name := drop (last_slash + 1) normalized in
        if bool_decide (child_name = []) then Done (Err InvalidPath)
        else
          let parent_path := if bool_decide (last_slash = 0%nat) then ROOT else take last_slash normalized in
          Done (parent_id ← resolve_path parent_path v;
                parent_inode ← ok_or (inodes v !! parent_id) NotFound;
                if bool_decide (i_type parent_inode = Directory) then Ok (parent_id, child_name)
                else Err NotADirectory)
    end.

(** ** Operations *)

Definition add_child (n : str) (c : Z) (d : Inode) : Inode :=
  mkInode (i_id d) (i_name d) (i_type d) (i_data d) (<[n := c]> (i_children d)) (i_parent d).
Definition remove_child (n : str) (d : Inode) : Inode :=
  mkInode (i_id d) (i_name d) (i_type d) (i_data d) (delete n (i_children d)) (i_parent d).
Definition set_data (b : bytes) (d : Inode) : Inode :=
  mkInode (i_id d) (i_name d) (i_type d) b (i_children d) (i_parent d).

Definition create_entry (path : str) (ft : FileType) (v : InMemoryVfs) :
    exec (result VfsError Z * InMemoryVfs) :=
  r ← resolve_parent path v;
  match r with
  | Err e => Done (Err e, v)
  | Ok (parent_id, child_name) =>
      match inodes v !! parent_id with
      | None => Done (Err NotFound, v)
      | Some parent =>
          if bool_decide (is_Some (i_children parent !! child_name)) then Done (Err AlreadyExists, v)
          else
            let new_id := next_inode v in
            let m := <[new_id := mkInode new_id child_name ft [] ∅ (Some parent_id)]> (inodes v) in
            let m' := alter (add_child child_name new_id) parent_id m in
            Done (Ok new_id, mkVfs m' (saturating_add 64 (next_inode v) 1))
      end
  end.

Definition create_file (path : str) (v : InMemoryVfs) := create_entry path RegularFile v.
Definition create_directory (path : str) (v : InMemoryVfs) := create_entry path Directory v.

Definition delete_path (path : str) (v : InMemoryVfs) : exec (result VfsError () * InMemoryVfs) :=
  let normalized := normalize_path ROOT path in
  if bool_decide (normalized = ROOT) then Done (Err InvalidPath, v)
  else
    match resolve_path normalized v with
    | Err e => Done (Err e, v)
    | Ok target_id =>
        match inodes v !! target_id with
        | None => Done (Err NotFound, v)
        | Some target =>
            if bool_decide (i_type target = Directory) && negb (bool_decide (i_children target = ∅))
            then Done (Err NotEmpty, v)
            else
              match i_parent target with
              | None => Done (Err InvalidPath, v)
              | Some parent_id =>
                  match rfind_slash normalized with
                  | None => Panic
                  | Some last_slash =>
                      let child_name := drop (last_slash + 1) normalized in
                      let m := alter (remove_child child_name) parent_id (inodes v) in
                      Done (Ok (), mkVfs (delete target_id m) (next_inode v))
                  end
              end
        end
    end.

Definition stat (path : str) (v : InMemoryVfs) : result VfsError FileStat :=
  id ← resolve_path path v;
  inode ← ok_or (inodes v !! id) NotFound;
  Ok (mkStat (i_id inode) (Z.of_nat (length (i_data inode))) (i_type inode)).

Fixpoint list_children (v : InMemoryVfs) (l : list (str * Z)) : result VfsError (list DirEntry) :=
  match l with
  | [] => Ok []
  | (n, c) :: l =>
      child ← ok_or (inodes v !! c) NotFound;
      rest ← list_children v l;
      Ok (mkDirEntry n c (i_type child) :: rest)
  end.

Definition list_directory (path : str) (v : InMemoryVfs) : result VfsError (list DirEntry) :=
  id ← resolve_path path v;
  inode ← ok_or (inodes v !! id) NotFound;
  if bool_decide (i_type inode = Directory) then
    list_children v (btree_str_iter (i_children inode))
  else Err NotADirectory.

Definition exists_path (path : str) (v : InMemoryVfs) : bool := is_ok (resolve_path path v).

Definition read_file (inode_id offset len : Z) (v : InMemoryVfs) : result VfsError bytes :=
  inode ← ok_or (inodes v !! inode_id) NotFound;
  if bool_decide (i_type inode = Directory) then Err IsADirectory
  else
    let data := i_data inode in
    let file_len := Z.of_nat (length data) in
    if (file_len <=? offset) || (len =? 0) then Ok []
    else
      let start := Z.to_nat offset in
      let end_ := Nat.min (Z.to_nat (saturating_add 64 offset len)) (length data) in
      Ok (take (end_ - start) (drop start data)).

(** [Vec::resize(end, 0)], which panics on a capacity past [isize::MAX]. *)
Definition resize (l : bytes) (end_ : Z) : exec bytes :=
  if ISIZE_MAX <? end_ then Panic
  else Done (take (Z.to_nat end_) l ++ replicate (Z.to_nat end_ - length l) 0).

Definition write_file (inode_id offset : Z) (data : bytes) (v : InMemoryVfs) :
    exec (result VfsError Z * InMemoryVfs) :=
  match inodes v !! inode_id with
  | None => Done (Err NotFound, v)
  | Some inode =>
      if bool_decide (i_type inode = Directory) then Done (Err IsADirectory, v)
      else if bool_decide (data = []) then Done (Ok 0, v)
      else
        let end_ := saturating_add 64 offset (Z.of_nat (length data)) in
        grown ← (if Z.of_nat (length (i_data inode)) <? end_ then resize (i_data inode) end_
                 else Done (i_data inode));
        (* [if let Some(dst) = inode.data.get_mut(start..end)] *)
        let out := if (offset <=? end_) && (end_ <=? Z.of_nat (length grown))
                   then splice grown (Z.to_nat offset) data else grown in
        Done (Ok (Z.of_nat (length data)), mkVfs (<[inode_id := set_data out inode]> (inodes v)) (next_inode v))
  end.

Definition file_size (inode_id : Z) (v : InMemoryVfs) : result VfsError Z :=
  inode ← ok_or (inodes v !! inode_id) NotFound;
  if bool_decide (i_type inode = Directory) then Err IsADirectory
  else Ok (Z.of_nat (length (i_data inode))).

(** ** Paths as component lists *)

(** What survives normalisation: a non-empty name without a slash that is
    neither [.] nor [..]. *)
Definition valid_component (c : str) : Prop :=
  c <> [] /\ c <> DOT /\ c <> DOTDOT /\ SLASH ∉ c.

(** The component list a path denotes from the root: the stack of
    [normalize_path] before it is rendered. *)
Definition components (path : str) : list str :=
  fold_left push_component
    (split (if bool_decide (head path = Some SLASH) then path else ROOT ++ path)) [].

Lemma split_no_slash s : Forall (fun c => SLASH ∉ c) (split s).
Proof.
  induction s as [|b s IH]; simpl; [by repeat constructor; apply not_elem_of_nil|].
  destruct (b =? SLASH) eqn:E; zbool.
  - constructor; [apply not_elem_of_nil|done].
  - destruct (split s) as [|w ws]; [repeat constructor; set_solver|].
    inversion IH as [|? ? Hw Hws]; subst. constructor; [|done].
    rewrite elem_of_cons. intros [?|?]; [congruence|by apply Hw].
Qed.

Lemma push_component_valid stack c :
  SLASH ∉ c -> Forall valid_component stack -> Forall valid_component (push_component stack c).
Proof.
  intros Hc Hs. unfold push_component.
  destruct (bool_decide (c = [])) eqn:E1, (bool_decide (c = DOT)) eqn:E2; simpl; try done.
  destruct (bool_decide (c = DOTDOT)) eqn:E3; [by apply Forall_take|].
  apply bool_decide_eq_false in E1, E2, E3.
  apply Forall_app. split; [done|]. by repeat constructor.
Qed.

Lemma fold_push_valid l stack :
  Forall (fun c => SLASH ∉ c) l -> Forall valid_component stack ->
  Forall valid_component (fold_left push_component l stack).
Proof.
  intros Hl. revert stack.
  induction Hl; intros stack Hs; simpl; [done|]. auto using push_component_valid.
Qed.

Lemma components_valid path : Forall valid_component (components path).
Proof. apply fold_push_valid; [apply split_no_slash|constructor]. Qed.

Lemma push_valid stack c : valid_component c -> push_component stack c = stack ++ [c].
Proof.
  intros (? & ? & ? & _). unfold push_component. by rewrite !bool_decide_eq_false_2 by done.
Qed.

Lemma fold_push_all l stack :
  Forall valid_component l -> fold_left push_component l stack = stack ++ l.
Proof.
  intros Hl. revert stack.
  induction Hl as [|c l Hc _ IH]; intros stack; simpl; [by rewrite app_nil_r|].
  rewrite push_valid, IH by done. by rewrite <- app_assoc.
Qed.

(** The slash-prefixed join of [render]. *)
Abbreviation joined l := (mjoin ((fun c => SLASH :: c) <$> l)).

Lemma split_app_slash c s : SLASH ∉ c -> split (c ++ SLASH :: s) = c :: split s.
Proof.
  induction c as [|b c IH]; intros Hc; [done|]. apply not_elem_of_cons in Hc as [Hb Hc].
  cbn [split app]. destruct (b =? SLASH) eqn:E; zbool; [congruence|]. by rewrite IH.
Qed.

Lemma split_atom c : SLASH ∉ c -> split c = [c].
Proof.
  induction c as [|b c IH]; intros Hc; [done|]. apply not_elem_of_cons in Hc as [Hb Hc].
  cbn [split]. destruct (b =? SLASH) eqn:E; zbool; [congruence|]. by rewrite IH.
Qed.

Lemma split_joined c l :
  SLASH ∉ c -> Forall valid_component l -> split (c ++ joined l) = c :: l.
Proof.
  intros Hc Hl. revert c Hc. induction Hl as [|d l Hd _ IH]; intros c Hc; simpl.
  - rewrite app_nil_r. by apply split_atom.
  - rewrite split_app_slash by done. rewrite IH; [done|apply Hd].
Qed.

Lemma split_render l :
  Forall valid_component l -> split (render l) = if bool_decide (l = []) then [[]; []] else [] :: l.
Proof.
  intros Hl. unfold render. destruct (bool_decide (l = [])) eqn:E; [done|].
  change (joined l) with ([] ++ joined l). apply split_joined; [set_solver|done].
Qed.

Lemma head_render l : head (render l) = Some SLASH.
Proof. unfold render. by destruct l. Qed.

Lemma components_render l : Forall valid_component l -> components (render l) = l.
Proof.
  intros Hl. unfold components. rewrite head_render, bool_decide_eq_true_2 by done.
  rewrite split_render by done. case_bool_decide as E; [by subst|].
  simpl. by rewrite fold_push_all.
Qed.

Lemma render_root l : Forall valid_component l -> render l = ROOT <-> l = [].
Proof.
  intros Hl. split; [|by intros ->]. intros E.
  by rewrite <- (components_render l Hl), E.
Qed.

Lemma normalize_root path : normalize_path ROOT path = render (components path).
Proof. done. Qed.

Lemma normalize_valid base path :
  exists l, Forall valid_component l /\ normalize_path base path = render l.
Proof.
  eexists. split; [|reflexivity]. apply fold_push_valid; [apply split_no_slash|constructor].
Qed.

Lemma normalize_render base l :
  Forall valid_component l -> normalize_path base (render l) = render l.
Proof.
  intros Hl. unfold normalize_path. rewrite head_render, bool_decide_eq_true_2 by done.
  f_equal. etrans; [|exact (components_render l Hl)].
  unfold components. by rewrite head_render, bool_decide_eq_true_2.
Qed.

Lemma rfind_app s t : SLASH ∉ t -> rfind_slash (s ++ SLASH :: t) = Some (length s).
Proof.
  intros Ht.
  assert (Hn : rfind_slash t = None).
  { induction t as [|b t IH]; [done|]. apply not_elem_of_cons in Ht as [Hb Ht].
    simpl. rewrite IH by done. destruct (b =? SLASH) eqn:E; zbool; [congruence|done]. }
  induction s as [|b s IH]; simpl; [by rewrite Hn|by rewrite IH].
Qed.

Lemma joined_snoc l c : joined (l ++ [c]) = joined l ++ SLASH :: c.
Proof. by rewrite fmap_app, join_app; simpl; rewrite app_nil_r. Qed.

Lemma render_snoc l c : render (l ++ [c]) = joined l ++ SLASH :: c.
Proof. unfold render. rewrite bool_decide_eq_false_2 by (by destruct l). apply joined_snoc. Qed.

(** ** The component-level reading of path resolution *)

(** One step of [walk] through a directory. *)
Definition child_of (v : InMemoryVfs) (id : Z) (c : str) : result VfsError Z :=
  inode ← ok_or (inodes v !! id) NotFound;
  if bool_decide (i_type inode = Directory) then ok_or (i_children inode !! c) NotFound
  else Err NotADirectory.

Lemma walk_app v id p q : walk v id (p ++ q) = (x ← walk v id p; walk v x q).
Proof.
  revert id. induction p as [|c p IH]; intros id; simpl; [done|].
  case_bool_decide; [apply IH|]. destruct (inodes v !! id) as [i|]; simpl; [|done].
  case_bool_decide; [|done]. destruct (i_children i !! c); simpl; [apply IH|done].
Qed.

Lemma walk_single v id c : valid_component c -> walk v id [c] = child_of v id c.
Proof.
  intros [Hc _]. simpl. rewrite bool_decide_eq_false_2 by done. unfold child_of.
  destruct (inodes v !! id) as [i|]; simpl; [|done].
  case_bool_decide; [|done]. by destruct (i_children i !! c).
Qed.

Lemma walk_snoc v id p c :
  valid_component c -> walk v id (p ++ [c]) = (x ← walk v id p; child_of v x c).
Proof.
  intros Hc. rewrite walk_app. destruct (walk v id p); simpl; [by apply walk_single|done].
Qed.

Lemma resolve_walk path v : resolve_path path v = walk v 1 (components path).
Proof.
  unfold resolve_path. rewrite normalize_root. pose proof (components_valid path) as Hv.
  case_bool_decide as E.
  - apply render_root in E; [|done]. by rewrite E.
  - assert (components path <> []) by (intros E'; apply E; by rewrite E').
    rewrite split_render by done. by rewrite bool_decide_eq_false_2.
Qed.

Lemma resolve_render l v : Forall valid_component l -> resolve_path (render l) v = walk v 1 l.
Proof. intros Hl. by rewrite resolve_walk, components_render. Qed.

(** [resolve_parent] never panics; it splits off the last component. *)
Lemma resolve_parent_root path v :
  components path = [] -> resolve_parent path v = Done (Err InvalidPath).
Proof. intros E. unfold resolve_parent. by rewrite normalize_root, E. Qed.

Lemma snoc_valid l c :
  Forall valid_component (l ++ [c]) -> Forall valid_component l /\ valid_component c.
Proof. rewrite Forall_app, Forall_singleton. done. Qed.

Lemma parent_path_render l :
  (if bool_decide (length (joined l) = 0%nat) then ROOT else take (length (joined l)) (joined l)) = render l.
Proof.
  unfold render. rewrite firstn_all. destruct l; [done|].
  by rewrite !bool_decide_eq_false_2 by done.
Qed.

Lemma resolve_parent_snoc path l c v :
  components path = l ++ [c] ->
  resolve_parent path v =
    Done (parent_id ← walk v 1 l;
          parent_inode ← ok_or (inodes v !! parent_id) NotFound;
          if bool_decide (i_type parent_inode = Directory) then Ok (parent_id, c)
          else Err NotADirectory).
Proof.
  intros E. pose proof (components_valid path) as Hv. rewrite E in Hv.
  destruct (snoc_valid _ _ Hv) as [Hl Hc]. unfold resolve_parent.
  rewrite normalize_root, E, render_snoc.
  rewrite bool_decide_eq_false_2; [|rewrite <- render_snoc, render_root by done; by destruct l].
  rewrite rfind_app by apply Hc.
  replace (drop (length (joined l) + 1) (joined l ++ SLASH :: c)) with c.
  2: { rewrite drop_app_ge by lia. by replace (length (joined l) + 1 - length (joined l))%nat with 1%nat by lia. }
  rewrite bool_decide_eq_false_2 by apply Hc.
  rewrite take_app_le, parent_path_render by lia. by rewrite resolve_render.
Qed.

(** ** The tree invariant *)

Record vfs_wf (v : InMemoryVfs) : Prop := {
  wf_root : exists i, inodes v !! 1 = Some i /\ i_type i = Directory /\ i_parent i = None;
  wf_id : forall id i, inodes v !! id = Some i -> i_id i = id /\ 1 <= id < next_inode v;
  wf_parent : forall id i, inodes v !! id = Some i -> id <> 1 ->
    exists pid p, i_parent i = Some pid /\ pid < id /\ inodes v !! pid = Some p /\
      i_type p = Directory /\ i_children p !! i_name i = Some id;
  wf_child : forall id d n c, inodes v !! id = Some d -> i_children d !! n = Some c ->
    valid_component n /\ i_type d = Directory /\
    exists ci, inodes v !! c = Some ci /\ i_parent ci = Some id /\ i_name ci = n;
  wf_next : next_inode v < 2 ^ 64
}.

Lemma child_of_Ok v id c x :
  child_of v id c = Ok x <->
  exists d, inodes v !! id = Some d /\ i_type d = Directory /\ i_children d !! c = Some x.
Proof.
  unfold child_of. split.
  - intros H. destruct (inodes v !! id) as [d|] eqn:E; simpl in *; [|done].
    case_bool_decide as Hd; [|done]. destruct (i_children d !! c) eqn:Ec; simpl in *; [|done].
    simplify_eq. eauto.
  - intros (d & -> & Hd & Hc). simpl. rewrite bool_decide_eq_true_2 by done. by rewrite Hc.
Qed.

Lemma walk_snoc_Ok v p c x :
  valid_component c -> walk v 1 (p ++ [c]) = Ok x <->
  exists y d, walk v 1 p = Ok y /\ inodes v !! y = Some d /\ i_type d = Directory /\
    i_children d !! c = Some x.
Proof.
  intros Hc. rewrite walk_snoc by done. split.
  - destruct (walk v 1 p) as [y|] eqn:E; [|done]. intros H. simpl in H.
    apply child_of_Ok in H as (d & ? & ? & ?). eauto 10.
  - intros (y & d & -> & ? & ? & ?). simpl. apply child_of_Ok. eauto.
Qed.

(** Resolution succeeds only on existing inodes. *)
Lemma walk_inode v p x :
  vfs_wf v -> Forall valid_component p -> walk v 1 p = Ok x -> is_Some (inodes v !! x).
Proof.
  intros Hwf. induction p as [|c p _] using rev_ind; intros Hp H.
  - simpl in H. simplify_eq. destruct (wf_root v Hwf) as (i & -> & _). done.
  - apply snoc_valid in Hp as [Hp Hc]. apply walk_snoc_Ok in H as (y & d & _ & Hy & _ & Hx); [|done].
    destruct (wf_child v Hwf _ _ _ _ Hy Hx) as (_ & _ & ci & -> & _). done.
Qed.

Lemma child_not_root v id d n :
  vfs_wf v -> inodes v !! id = Some d -> i_children d !! n = Some 1 -> False.
Proof.
  intros Hwf Hd Hn. destruct (wf_child v Hwf _ _ _ _ Hd Hn) as (_ & _ & ci & Hci & Hp & _).
  destruct (wf_root v Hwf) as (r & Hr & _ & Hr'). congruence.
Qed.

(** The directory structure is a tree: a canonical component list is
    determined by the inode it resolves to ... *)
Lemma walk_inj v p q x :
  vfs_wf v -> Forall valid_component p -> Forall valid_component q ->
  walk v 1 p = Ok x -> walk v 1 q = Ok x -> p = q.
Proof.
  intros Hwf. revert q x.
  induction p as [|c p IH] using rev_ind; intros q x Hp Hq HP HQ.
  - destruct q as [|d q _] using rev_ind; [done|]. apply snoc_valid in Hq as [? ?].
    simpl in HP. simplify_eq. apply walk_snoc_Ok in HQ as (y & i & _ & ? & _ & ?); [|done].
    by destruct (child_not_root v y i d).
  - apply snoc_valid in Hp as [Hp Hc]. apply walk_snoc_Ok in HP as (y & i & Hy & Hi & _ & Hx); [|done].
    destruct q as [|d q _] using rev_ind.
    + simpl in HQ. simplify_eq. by destruct (child_not_root v y i c).
    + apply snoc_valid in Hq as [Hq Hd]. apply walk_snoc_Ok in HQ as (z & j & Hz & Hj & _ & Hx'); [|done].
      destruct (wf_child v Hwf _ _ _ _ Hi Hx) as (_ & _ & ci & Hci & Hpar & Hn).
      destruct (wf_child v Hwf _ _ _ _ Hj Hx') as (_ & _ & cj & Hcj & Hpar' & Hn').
      simplify_eq. f_equal. eauto.
Qed.

(** ... and every inode is reached. *)
Lemma inode_path v id i :
  vfs_wf v -> inodes v !! id = Some i ->
  exists p, Forall valid_component p /\ walk v 1 p = Ok id.
Proof.
  intros Hwf. revert i. induction (Z.lt_wf 1 id) as [id _ IH]. intros i Hi.
  destruct (wf_id v Hwf id i Hi) as [_ Hr].
  destruct (decide (id = 1)) as [->|Hne]; [by exists []|].
  destruct (wf_parent v Hwf id i Hi Hne) as (pid & d & _ & Hlt & Hd & Hdir & Hc).
  destruct (wf_id v Hwf pid d Hd) as [_ Hpr].
  destruct (IH pid ltac:(lia) d Hd) as (p & Hp & Hw).
  destruct (wf_child v Hwf _ _ _ _ Hd Hc) as (Hv & _ & _).
  exists (p ++ [i_name i]). split.
  - by apply Forall_app_2; [|constructor].
  - apply walk_snoc_Ok; [done|]. eauto 10.
Qed.

(** ** The abstract file system: canonical paths to nodes *)

Definition fstree := list str -> option (FileType * bytes).

Definition view (v : InMemoryVfs) : fstree := fun p =>
  match walk v 1 p with
  | Ok id => match inodes v !! id with Some i => Some (i_type i, i_data i) | None => None end
  | Err _ => None
  end.

(** Why a path does not resolve: a proper prefix is a file, or something is missing. *)
Definition is_file (m : fstree) (p : list str) : bool :=
  match m p with Some (RegularFile, _) => true | _ => false end.
Definition path_error (m : fstree) (p : list str) : VfsError :=
  if existsb (fun k => is_file m (take k p)) (seq 0 (length p)) then NotADirectory else NotFound.

Definition spec_create (m : fstree) (p : list str) (ft : FileType) : result VfsError fstree :=
  if bool_decide (p = []) then Err InvalidPath
  else match m p with
       | Some _ => Err AlreadyExists
       | None =>
           match m (take (length p - 1) p) with
           | Some (Directory, _) => Ok (fun q => if bool_decide (q = p) then Some (ft, []) else m q)
           | _ => Err (path_error m p)
           end
       end.

Definition spec_stat (m : fstree) (p : list str) : result VfsError (FileType * Z) :=
  match m p with
  | Some (ft, d) => Ok (ft, Z.of_nat (length d))
  | None => Err (path_error m p)
  end.

Lemma view_Some v p id i :
  walk v 1 p = Ok id -> inodes v !! id = Some i -> view v p = Some (i_type i, i_data i).
Proof. unfold view. by intros -> ->. Qed.

Lemma view_walk v p n :
  view v p = Some n -> exists id i, walk v 1 p = Ok id /\ inodes v !! id = Some i /\ n = (i_type i, i_data i).
Proof.
  unfold view. destruct (walk v 1 p) as [id|]; [|done].
  destruct (inodes v !! id) eqn:?; [|done]. intros [= <-]. eauto.
Qed.

Lemma view_None v p :
  vfs_wf v -> Forall valid_component p -> view v p = None <-> exists e, walk v 1 p = Err e.
Proof.
  intros Hwf Hp. unfold view. destruct (walk v 1 p) as [id|e] eqn:E; [|split; eauto].
  destruct (walk_inode v p id Hwf Hp E) as [i ->]. split; [done|by intros [? ?]].
Qed.

Lemma view_parent v p c n :
  vfs_wf v -> Forall valid_component (p ++ [c]) -> view v (p ++ [c]) = Some n ->
  exists b, view v p = Some (Directory, b).
Proof.
  intros Hwf Hv Hn. apply snoc_valid in Hv as [Hp Hc].
  apply view_walk in Hn as (id & i & Hw & _). apply walk_snoc_Ok in Hw as (y & d & Hy & Hd & Hdir & _); [|done].
  exists (i_data d). rewrite <- Hdir. by eapply view_Some.
Qed.

Lemma path_error_snoc m p c :
  path_error m (p ++ [c]) =
    if is_file m p then NotADirectory else path_error m p.
Proof.
  unfold path_error. rewrite length_app. simpl. rewrite Nat.add_1_r, seq_S, existsb_app. simpl.
  rewrite take_app_le, firstn_all by lia.
  rewrite orb_false_r.
  replace (existsb (fun k => is_file m (take k (p ++ [c]))) (seq 0 (length p)))
    with (existsb (fun k => is_file m (take k p)) (seq 0 (length p))).
  2: { apply eq_true_iff_eq. rewrite !existsb_exists.
       split; intros (k & Hk & H); exists k; (split; [done|]); apply in_seq in Hk;
         [rewrite take_app_le by lia|rewrite take_app_le in H by lia]; done. }
  destruct (is_file m p), (existsb _ _); done.
Qed.

(** The error of a failed walk is the one the abstract tree prescribes. *)
Lemma walk_error v p e :
  vfs_wf v -> Forall valid_component p -> walk v 1 p = Err e -> e = path_error (view v) p.
Proof.
  intros Hwf. revert e. induction p as [|c p IH] using rev_ind; intros e Hv H; [done|].
  apply snoc_valid in Hv as [Hp Hc]. rewrite path_error_snoc, walk_snoc in * by done.
  destruct (walk v 1 p) as [y|e'] eqn:E; simpl in H.
  - destruct (walk_inode v p y Hwf Hp E) as [d Hd].
    unfold is_file. rewrite (view_Some v p y d E Hd). unfold child_of in H. rewrite Hd in H. simpl in H.
    case_bool_decide as Hdir.
    + rewrite Hdir. assert (e = NotFound) as -> by (destruct (i_children d !! c); simpl in H; congruence).
      unfold path_error. destruct (existsb _ _) eqn:Ex; [|done].
      apply existsb_exists in Ex as (k & Hk & Hf). exfalso. apply in_seq in Hk.
      rewrite <- (take_drop k p), walk_app in E. 
      destruct (walk v 1 (take k p)) as [z|] eqn:Ez; [|done]. simpl in E.
      destruct (walk_inode v _ z Hwf (Forall_take _ _ _ Hp) Ez) as [j Hj].
      unfold is_file in Hf. rewrite (view_Some v _ z j Ez Hj) in Hf.
      destruct (drop k p) as [|f q] eqn:Eq; [apply (f_equal length) in Eq; rewrite length_drop in Eq; simpl in Eq; lia|].
      assert (Hf' : valid_component f).
      { apply (Forall_drop _ k) in Hp. rewrite Eq in Hp. by inversion Hp. }
      change (f :: q) with ([f] ++ q) in E. rewrite walk_app, walk_single in E by done.
      unfold child_of in E. rewrite Hj in E. simpl in E. by destruct (i_type j).
    + destruct (i_type d); [congruence|done].
  - unfold is_file. assert (view v p = None) as -> by (apply view_None; eauto).
    simplify_eq. by apply IH.
Qed.

(** [stat] is determined by the abstract tree. *)
Lemma stat_refines path v :
  vfs_wf v ->
  (s ← stat path v; Ok (st_type s, st_size s)) = spec_stat (view v) (components path).
Proof.
  intros Hwf. unfold stat, spec_stat. rewrite resolve_walk. pose proof (components_valid path) as Hp.
  destruct (walk v 1 (components path)) as [id|e] eqn:E; simpl.
  - destruct (walk_inode _ _ _ Hwf Hp E) as [i Hi]. rewrite Hi. simpl.
    by rewrite (view_Some v _ id i E Hi).
  - assert (view v (components path) = None) as -> by (apply view_None; eauto).
    f_equal. by apply walk_error.
Qed.

(** Two file systems with the same tree answer every path the same way. *)
Lemma view_prefix v p q n :
  vfs_wf v -> Forall valid_component (p ++ q) -> view v (p ++ q) = Some n -> q <> [] ->
  exists b, view v p = Some (Directory, b).
Proof.
  intros Hwf. revert n. induction q as [|c q IH] using rev_ind; intros n Hv Hn Hq; [done|].
  rewrite app_assoc in Hn, Hv. destruct (view_parent v _ c n Hwf Hv Hn) as [b Hb].
  destruct (decide (q = [])) as [->|Hne].
  - rewrite app_nil_r in Hb. eauto.
  - apply snoc_valid in Hv as [Hv _]. eapply IH; eauto.
Qed.

(** ** Creation *)

Section Create.
Context (v : InMemoryVfs) (l : list str) (c : str) (ft : FileType) (pid : Z) (d : Inode).
Hypothesis Hwf : vfs_wf v.
Hypothesis Hroom : next_inode v < uint_max 64.
Hypothesis Hl : Forall valid_component l.
Hypothesis Hc : valid_component c.
Hypothesis Hpid : walk v 1 l = Ok pid.
Hypothesis Hd : inodes v !! pid = Some d.
Hypothesis Hdir : i_type d = Directory.
Hypothesis Hfree : i_children d !! c = None.

Let new := next_inode v.
Let node := mkInode new c ft [] ∅ (Some pid).
Let v' := mkVfs (alter (add_child c new) pid (<[new := node]> (inodes v))) (new + 1).

Lemma create_new_fresh : inodes v !! new = None.
Proof.
  destruct (inodes v !! new) as [i|] eqn:E; [|done].
  apply (wf_id v Hwf) in E as [_ ?]. unfold new in *. lia.
Qed.

Lemma create_pid_ne : pid <> new.
Proof. intros ->. by rewrite create_new_fresh in Hd. Qed.

Lemma create_lookup k :
  inodes v' !! k =
    if bool_decide (k = pid) then Some (add_child c new d)
    else if bool_decide (k = new) then Some node else inodes v !! k.
Proof.
  subst v'. cbn [inodes]. pose proof create_pid_ne as Hne. case_bool_decide as E; subst.
  - rewrite lookup_alter_eq, lookup_insert_ne by done. by rewrite Hd.
  - rewrite lookup_alter_ne by done. case_bool_decide; subst.
    + by rewrite lookup_insert_eq.
    + by rewrite lookup_insert_ne.
Qed.

Lemma create_walk q :
  Forall valid_component q ->
  match walk v 1 q with
  | Ok x => walk v' 1 q = Ok x
  | Err _ => if bool_decide (q = l ++ [c]) then walk v' 1 q = Ok new
             else exists e, walk v' 1 q = Err e
  end.
Proof.
  induction q as [|n q IH] using rev_ind; intros Hq; [done|].
  apply snoc_valid in Hq as [Hq Hn]. specialize (IH Hq). rewrite !walk_snoc by done.
  destruct (walk v 1 q) as [y|e] eqn:Ey; simpl.
  - rewrite IH. simpl. destruct (walk_inode v q y Hwf Hq Ey) as [i Hi].
    unfold child_of at 2 3 4. rewrite create_lookup.
    case_bool_decide as E1; [subst y|].
    + assert (q = l) as -> by eauto using walk_inj. simplify_eq.
      unfold child_of. rewrite Hd. simpl. rewrite bool_decide_eq_true_2 by done.
      destruct (decide (n = c)) as [->|Hne].
      * rewrite Hfree, lookup_insert_eq. simpl. by rewrite bool_decide_eq_true_2.
      * rewrite lookup_insert_ne by done. rewrite bool_decide_eq_false_2.
        -- destruct (i_children d !! n); simpl; eauto.
        -- intros [_ E]%app_inj_tail. done.
    + rewrite bool_decide_eq_false_2 by (intros ->; by rewrite create_new_fresh in Hi).
      unfold child_of. rewrite Hi. simpl.
      assert (q ++ [n] <> l ++ [c]) as Hne
        by (intros [-> ->]%app_inj_tail; congruence).
      case_bool_decide; [|by rewrite bool_decide_eq_false_2 by done; eauto].
      destruct (i_children i !! n); simpl; [done|].
      rewrite bool_decide_eq_false_2 by done. eauto.
  - rewrite bool_decide_eq_false_2.
    2: { intros [-> ->]%app_inj_tail. congruence. }
    case_bool_decide as E1; [|destruct IH as [e' ->]; simpl; eauto].
    rewrite IH. simpl. unfold child_of. rewrite create_lookup.
    rewrite bool_decide_eq_false_2 by (pose proof create_pid_ne; congruence).
    rewrite bool_decide_eq_true_2 by done. simpl. case_bool_decide; simpl; eauto.
Qed.

Lemma create_view q :
  Forall valid_component q ->
  view v' q = if bool_decide (q = l ++ [c]) then Some (ft, []) else view v q.
Proof.
  intros Hq. pose proof (create_walk q Hq) as H. unfold view at 1 2.
  destruct (walk v 1 q) as [x|e] eqn:E.
  - rewrite H, create_lookup. destruct (walk_inode v q x Hwf Hq E) as [i Hi].
    rewrite (bool_decide_eq_false_2 (q = l ++ [c])).
    2: { intros ->. apply walk_snoc_Ok in E as (? & ? & ? & ? & ? & ?); [congruence|done]. }
    case_bool_decide; subst; [by rewrite Hd|].
    rewrite bool_decide_eq_false_2; [by rewrite Hi|].
    intros ->. by rewrite create_new_fresh in Hi.
  - case_bool_decide; [|by destruct H as [? ->]].
    rewrite H, create_lookup.
    rewrite bool_decide_eq_false_2 by (pose proof create_pid_ne; congruence).
    by rewrite bool_decide_eq_true_2.
Qed.

Lemma create_target_wf : vfs_wf v'.
Proof.
  pose proof create_pid_ne as Hpn. pose proof create_new_fresh as Hnew.
  assert (Hk : forall k i, inodes v' !! k = Some i ->
    (k = new /\ i = node) \/
    (k <> new /\ exists j, inodes v !! k = Some j /\ i_id i = i_id j /\ i_type i = i_type j /\
      i_name i = i_name j /\ i_parent i = i_parent j)).
  { intros k i. rewrite create_lookup. case_bool_decide; [intros [= <-]; subst; right; split; [done|]; by exists d|].
    case_bool_decide; [intros [= <-]; auto|]. intros. right. eauto 10. }
  assert (Hf : forall k j, inodes v !! k = Some j -> exists i, inodes v' !! k = Some i /\
    i_type i = i_type j /\ i_name i = i_name j /\ i_parent i = i_parent j /\
    forall n x, i_children j !! n = Some x -> i_children i !! n = Some x).
  { intros k j Hj. rewrite create_lookup. case_bool_decide as E.
    - subst k. simplify_eq. eexists. split_and!; [done..|]. intros n x Hx. simpl.
      rewrite lookup_insert_ne; [done|congruence].
    - rewrite bool_decide_eq_false_2 by congruence. eauto 10. }
  constructor.
  - destruct (wf_root v Hwf) as (r & Hr & ? & ?). destruct (Hf 1 r Hr) as (i & ? & ? & ? & ? & _).
    exists i. split_and!; congruence.
  - intros k i Hi. destruct (wf_root v Hwf) as (r & Hr & _).
    pose proof (proj2 (wf_id v Hwf _ _ Hr)). simpl.
    destruct (Hk k i Hi) as [[-> ->]|(Hne & j & Hj & Hid & _)]; [simpl; unfold new in *; split; [done|lia]|].
    destruct (wf_id v Hwf k j Hj). unfold new in *. split; [congruence|lia].
  - intros k i Hi Hk1. destruct (Hk k i Hi) as [[-> ->]|(Hne & j & Hj & _ & _ & Hn & Hp)].
    + exists pid, (add_child c new d). simpl. rewrite create_lookup, bool_decide_eq_true_2 by done.
      pose proof (wf_id v Hwf _ _ Hd). rewrite lookup_insert_eq. unfold new in *. split_and!; try done; lia.
    + destruct (wf_parent v Hwf k j Hj Hk1) as (p' & e & ? & ? & He & ? & ?).
      destruct (Hf p' e He) as (e' & ? & ? & ? & ? & Hch). exists p', e'.
      split_and!; try congruence. rewrite Hn. by apply Hch.
  - intros k i n x Hi Hx. rewrite create_lookup in Hi.
    assert (Hold : forall e, inodes v !! k = Some e -> i_children e !! n = Some x ->
      valid_component n /\ i_type e = Directory /\
      exists ci, inodes v' !! x = Some ci /\ i_parent ci = Some k /\ i_name ci = n).
    { intros e He Hx'. destruct (wf_child v Hwf _ _ _ _ He Hx') as (? & ? & ci & Hci & ? & ?).
      destruct (Hf x ci Hci) as (ci' & ? & ? & ? & ? & _). split_and!; [done..|].
      exists ci'. split_and!; congruence. }
    revert Hi. case_bool_decide; [intros [= <-]; subst k; simpl in Hx |].
    + destruct (decide (n = c)) as [->|Hne]; [|rewrite lookup_insert_ne in Hx by done; by apply (Hold d)].
      rewrite lookup_insert_eq in Hx. assert (x = new) as -> by congruence. split_and!; [done..|]. exists node.
      rewrite create_lookup, bool_decide_eq_false_2, bool_decide_eq_true_2 by done. done.
    + case_bool_decide; [intros [= <-]; simpl in Hx; by rewrite lookup_empty in Hx|].
      intros Hi. by apply (Hold i).
  - simpl. unfold new in *. unfold uint_max in Hroom. lia.
Qed.
End Create.

Lemma take_snoc_parent (l : list str) c : take (length (l ++ [c]) - 1) (l ++ [c]) = l.
Proof. rewrite length_app. simpl. rewrite take_app_le by lia. by rewrite Nat.add_sub, firstn_all. Qed.

Lemma create_refines path ft v :
  vfs_wf v -> next_inode v < uint_max 64 ->
  match spec_create (view v) (components path) ft with
  | Err e => create_entry path ft v = Done (Err e, v)
  | Ok m => exists v', create_entry path ft v = Done (Ok (next_inode v), v') /\ vfs_wf v' /\
      forall q, Forall valid_component q -> view v' q = m q
  end.
Proof.
  intros Hwf Hroom. pose proof (components_valid path) as Hp. unfold create_entry, spec_create.
  destruct (components path) as [|c l _] eqn:E using rev_ind.
  { by rewrite resolve_parent_root. }
  rewrite bool_decide_eq_false_2 by (by destruct l). rewrite take_snoc_parent.
  rewrite (resolve_parent_snoc path l c v E). destruct (snoc_valid _ _ Hp) as [Hl Hc].
  destruct (walk v 1 l) as [pid|e] eqn:Ew; simpl.
  - destruct (walk_inode v l pid Hwf Hl Ew) as [d Hd]. rewrite Hd. simpl.
    rewrite (view_Some v l pid d Ew Hd). destruct (i_type d) eqn:Et; simpl.
    + assert (walk v 1 (l ++ [c]) = Err NotADirectory) as H.
      { rewrite walk_snoc, Ew by done. simpl. unfold child_of. rewrite Hd. simpl. by rewrite Et. }
      assert (view v (l ++ [c]) = None) as -> by (apply view_None; eauto).
      by rewrite <- (walk_error v (l ++ [c]) _ Hwf Hp H).
    + rewrite Hd. destruct (i_children d !! c) as [x|] eqn:Ex.
      * assert (walk v 1 (l ++ [c]) = Ok x) as Hx by (apply walk_snoc_Ok; eauto 10).
        destruct (walk_inode v _ x Hwf Hp Hx) as [i Hi].
        rewrite (view_Some v _ x i Hx Hi). done.
      * assert (view v (l ++ [c]) = None) as ->.
        { apply view_None; [done..|]. exists NotFound. rewrite walk_snoc, Ew by done. simpl.
          unfold child_of. rewrite Hd. simpl. by rewrite Et, bool_decide_eq_true_2, Ex. }
        rewrite bool_decide_eq_false_2 by (by intros [? ?]).
        unfold saturating_add, uint_max in *. rewrite Z.min_r by lia.
        eexists. split; [done|]. split; [by eapply create_target_wf|].
        intros q Hq. by eapply create_view.
  - assert (view v (l ++ [c]) = None) as ->.
    { apply view_None; [done..|]. rewrite walk_snoc, Ew by done. simpl. eauto. }
    assert (view v l = None) as Hvl by (apply view_None; eauto). rewrite Hvl.
    rewrite path_error_snoc. unfold is_file. rewrite Hvl. by rewrite <- (walk_error v l e Hwf Hl Ew).
Qed.

(** The path of a new node leads to the inode number that was returned. *)
Lemma create_fresh path ft v id v' :
  vfs_wf v -> next_inode v < uint_max 64 -> create_entry path ft v = Done (Ok id, v') ->
  walk v' 1 (components path) = Ok id /\ next_inode v' = next_inode v + 1 /\
  exists i, inodes v' !! id = Some i /\ i_type i = ft /\ i_data i = [].
Proof.
  intros Hwf Hroom. pose proof (components_valid path) as Hp. unfold create_entry.
  destruct (components path) as [|c l _] eqn:E using rev_ind.
  { by rewrite resolve_parent_root. }
  rewrite (resolve_parent_snoc path l c v E). destruct (snoc_valid _ _ Hp) as [Hl Hc].
  destruct (walk v 1 l) as [pid|e] eqn:Ew; simpl; [|done].
  destruct (walk_inode v l pid Hwf Hl Ew) as [d Hd]. rewrite Hd. simpl. case_bool_decide as Ht; simpl; [|done].
  rewrite Hd. case_bool_decide as Hx; [done|]. apply eq_None_not_Some in Hx.
  unfold saturating_add, uint_max in *. rewrite Z.min_r by lia. intros [= <- <-].
  pose proof (create_walk v l c ft pid d Hwf Hl Ew Hd Ht Hx (l ++ [c]) Hp) as Hw.
  rewrite walk_snoc, Ew in Hw by done. simpl in Hw. unfold child_of at 1 in Hw. rewrite Hd in Hw. simpl in Hw.
  rewrite bool_decide_eq_true_2, Hx in Hw by done. simpl in Hw. rewrite bool_decide_eq_true_2 in Hw by done.
  split; [exact Hw|]. split; [done|]. eexists. rewrite (create_lookup v l c ft pid d Hwf Ew Hd).
  rewrite bool_decide_eq_false_2 by (apply (wf_id v Hwf) in Hd as [_ ?]; lia). by rewrite bool_decide_eq_true_2.
Qed.

(** ** Deletion *)

Section Delete.
Context (v : InMemoryVfs) (l : list str) (c : str) (pid id : Z) (d t : Inode).
Hypothesis Hwf : vfs_wf v.
Hypothesis Hl : Forall valid_component l.
Hypothesis Hc : valid_component c.
Hypothesis Hpid : walk v 1 l = Ok pid.
Hypothesis Hd : inodes v !! pid = Some d.
Hypothesis Hdir : i_type d = Directory.
Hypothesis Hchild : i_children d !! c = Some id.
Hypothesis Ht : inodes v !! id = Some t.
Hypothesis Hempty : i_children t = ∅.

Let v' := mkVfs (delete id (alter (remove_child c) pid (inodes v))) (next_inode v).

Lemma delete_pid_ne : pid <> id.
Proof. intros ->. simplify_eq. by rewrite Hempty, lookup_empty in Hchild. Qed.

Lemma delete_lookup k :
  inodes v' !! k =
    if bool_decide (k = id) then None
    else if bool_decide (k = pid) then Some (remove_child c d) else inodes v !! k.
Proof.
  subst v'. cbn [inodes]. case_bool_decide as E; subst.
  - by rewrite lookup_delete_eq.
  - rewrite lookup_delete_ne by done. case_bool_decide; subst.
    + by rewrite lookup_alter_eq, Hd.
    + by rewrite lookup_alter_ne.
Qed.

Lemma delete_target q :
  Forall valid_component q -> walk v 1 q = Ok id -> q = l ++ [c].
Proof.
  intros Hq Hw. eapply walk_inj; [done..| |exact Hw|]; [by apply Forall_app_2; [|constructor]|].
  apply walk_snoc_Ok; eauto 10.
Qed.

Lemma delete_walk q :
  Forall valid_component q ->
  match walk v 1 q with
  | Ok x => if bool_decide (q = l ++ [c]) then walk v' 1 q = Err NotFound else walk v' 1 q = Ok x
  | Err _ => exists e, walk v' 1 q = Err e
  end.
Proof.
  induction q as [|n q IH] using rev_ind; intros Hq.
  { simpl. by rewrite bool_decide_eq_false_2 by (by destruct l). }
  apply snoc_valid in Hq as [Hq Hn]. specialize (IH Hq). rewrite !walk_snoc by done.
  destruct (walk v 1 q) as [y|e] eqn:Ey; [|destruct IH as [e' ->]; simpl; eauto].
  destruct (walk_inode v q y Hwf Hq Ey) as [i Hi]. simpl.
  case_bool_decide as E.
  - subst q. assert (y = id) as ->.
    { apply walk_snoc_Ok in Ey as (? & ? & ? & ? & ? & ?); [|done]. congruence. }
    rewrite IH. unfold child_of. rewrite Hi. simplify_eq. simpl. rewrite Hempty, lookup_empty.
    case_bool_decide; simpl; eauto.
  - assert (y <> id) as Hyid by (intros ->; by apply E, delete_target).
    rewrite IH. simpl. unfold child_of. rewrite delete_lookup, (bool_decide_eq_false_2 (y = id)) by done.
    rewrite Hi. destruct (decide (y = pid)) as [->|Ep];
      [rewrite (bool_decide_eq_true_2 (pid = pid)) by done|rewrite (bool_decide_eq_false_2 (y = pid)) by done]; simpl.
    + simplify_eq. assert (q = l) as -> by eauto using walk_inj.
      rewrite bool_decide_eq_true_2 by done.
      destruct (decide (n = c)) as [->|Hne].
      * by rewrite Hchild, lookup_delete_eq; simpl; rewrite bool_decide_eq_true_2.
      * rewrite lookup_delete_ne by done. rewrite bool_decide_eq_false_2 by (by intros [_ ?]%app_inj_tail).
        destruct (i_children d !! n); simpl; eauto.
    + rewrite (bool_decide_eq_false_2 (q ++ [n] = _)) by (intros [-> ->]%app_inj_tail; congruence).
      case_bool_decide; [destruct (i_children i !! n)|]; simpl; eauto.
Qed.

Lemma delete_view q :
  Forall valid_component q ->
  view v' q = if bool_decide (q = l ++ [c]) then None else view v q.
Proof.
  intros Hq. pose proof (delete_walk q Hq) as H. unfold view at 1 2.
  destruct (walk v 1 q) as [x|e] eqn:E.
  - case_bool_decide as Eq; rewrite H; [done|]. rewrite delete_lookup.
    rewrite bool_decide_eq_false_2 by (intros ->; by apply Eq, delete_target).
    case_bool_decide; subst; [by rewrite Hd|done].
  - destruct H as [? ->]. by case_bool_decide.
Qed.

Lemma delete_target_wf : vfs_wf v'.
Proof.
  pose proof delete_pid_ne as Hne.
  assert (Hk : forall k i, inodes v' !! k = Some i ->
    k <> id /\ exists j, inodes v !! k = Some j /\ i_id i = i_id j /\ i_type i = i_type j /\
      i_name i = i_name j /\ i_parent i = i_parent j /\
      (forall n, i_children i !! n = if bool_decide (k = pid /\ n = c) then None else i_children j !! n)).
  { intros k i. rewrite delete_lookup. case_bool_decide; [done|].
    case_bool_decide; [intros [= <-]; subst|intros Hi].
    - split; [done|]. exists d. split_and!; [done..|]. intros n. simpl.
      case_bool_decide as E; [destruct E as [_ ->]; by rewrite lookup_delete_eq|].
      rewrite lookup_delete_ne; [done|]. intros <-. by apply E.
    - split; [done|]. exists i. split_and!; [done..|]. intros n. by rewrite bool_decide_eq_false_2 by naive_solver. }
  assert (Hf : forall k j, inodes v !! k = Some j -> k <> id -> exists i, inodes v' !! k = Some i).
  { intros k j Hj Hkid. rewrite delete_lookup, bool_decide_eq_false_2 by done. case_bool_decide; eauto. }
  constructor.
  - destruct (wf_root v Hwf) as (r & Hr & ? & ?).
    assert (1 <> id) by (intros <-; by destruct (child_not_root v pid d c)).
    destruct (Hf 1 r Hr) as [i Hi]; [done|]. destruct (Hk 1 i Hi) as (_ & j & ? & ? & ? & ? & ? & _).
    exists i. split_and!; congruence.
  - intros k i Hi. destruct (Hk k i Hi) as (_ & j & Hj & Hid & _).
    destruct (wf_id v Hwf k j Hj). split; [congruence|done].
  - intros k i Hi Hk1. destruct (Hk k i Hi) as (Hkid & j & Hj & _ & _ & Hn & Hp & _).
    destruct (wf_parent v Hwf k j Hj Hk1) as (p & e & ? & ? & He & ? & Hpe).
    assert (p <> id) by (intros ->; simplify_eq; by rewrite Hempty, lookup_empty in Hpe).
    destruct (Hf p e He) as [e' He']; [done|]. destruct (Hk p e' He') as (_ & e2 & ? & _ & ? & _ & _ & Hch).
    exists p, e'. simplify_eq. split_and!; try congruence. rewrite Hch, bool_decide_eq_false_2; [congruence|].
    intros [-> E]. rewrite Hn in E. rewrite E in Hpe. congruence.
  - intros k i n x Hi Hx. destruct (Hk k i Hi) as (Hkid & j & Hj & _ & Hty & _ & _ & Hch).
    rewrite Hch in Hx. case_bool_decide as E; [done|].
    destruct (wf_child v Hwf _ _ _ _ Hj Hx) as (? & ? & ci & Hci & Hcp & Hcn).
    assert (x <> id).
    { intros ->. destruct (wf_child v Hwf _ _ _ _ Hd Hchild) as (_ & _ & ci' & ? & ? & ?).
      apply E. split; congruence. }
    destruct (Hf x ci Hci) as [ci' Hci']; [done|]. destruct (Hk x ci' Hci') as (_ & c2 & ? & _ & _ & ? & ? & _).
    split_and!; [done|congruence|]. exists ci'. split_and!; congruence.
  - apply (wf_next v Hwf).
Qed.
End Delete.

(** A directory of the abstract tree that still has an entry. *)
Definition has_entry (m : fstree) (p : list str) : Prop :=
  exists c, valid_component c /\ is_Some (m (p ++ [c])).

Lemma has_entry_children v p id i :
  vfs_wf v -> Forall valid_component p -> walk v 1 p = Ok id -> inodes v !! id = Some i ->
  has_entry (view v) p <-> i_children i <> ∅.
Proof.
  intros Hwf Hp Hw Hi. split.
  - intros (c & Hc & [n Hn]) E. apply view_walk in Hn as (x & j & Hx & _).
    apply walk_snoc_Ok in Hx as (y & e & ? & ? & _ & Hx); [|done].
    assert (e = i) as -> by congruence. by rewrite E, lookup_empty in Hx.
  - intros (c & x & Hx)%map_choose. destruct (wf_child v Hwf _ _ _ _ Hi Hx) as (Hc & Hty & ci & Hci & _).
    exists c. split; [done|]. assert (walk v 1 (p ++ [c]) = Ok x) as Hw' by (apply walk_snoc_Ok; eauto 10).
    rewrite (view_Some v _ x ci Hw' Hci). eauto.
Qed.

Lemma render_child_name l c :
  SLASH ∉ c -> rfind_slash (render (l ++ [c])) = Some (length (joined l)) /\
  drop (length (joined l) + 1) (render (l ++ [c])) = c.
Proof.
  intros Hc. rewrite render_snoc. split; [by apply rfind_app|].
  rewrite drop_app_ge by lia. by replace (length (joined l) + 1 - length (joined l))%nat with 1%nat by lia.
Qed.

Lemma delete_refines path v :
  vfs_wf v ->
  let p := components path in
  exists r v', delete_path path v = Done (r, v') /\ vfs_wf v' /\
    match r with
    | Ok _ => p <> [] /\ is_Some (view v p) /\ ~ has_entry (view v) p /\
        forall q, Forall valid_component q -> view v' q = if bool_decide (q = p) then None else view v q
    | Err e => v' = v /\
        ((p = [] /\ e = InvalidPath) \/
         (p <> [] /\ view v p = None /\ e = path_error (view v) p) \/
         (p <> [] /\ has_entry (view v) p /\ e = NotEmpty))
    end.
Proof.
  intros Hwf p. pose proof (components_valid path) as Hp. unfold delete_path.
  rewrite normalize_root. fold p in Hp |- *. destruct p as [|c l _] eqn:Ep using rev_ind.
  { exists (Err InvalidPath), v. rewrite bool_decide_eq_true_2 by done. split_and!; auto. }
  rewrite bool_decide_eq_false_2 by (rewrite render_root by done; by destruct l).
  assert (l ++ [c] <> []) as Hnil by (by destruct l). destruct (snoc_valid _ _ Hp) as [Hl Hc].
  rewrite resolve_render by done. destruct (walk v 1 (l ++ [c])) as [id|e] eqn:Ew.
  2: { exists (Err e), v. split_and!; [done..|]. right; left. split_and!; [done|apply view_None; eauto|].
       by apply walk_error. }
  destruct (walk_inode v _ id Hwf Hp Ew) as [t Ht]. rewrite Ht.
  destruct (proj1 (walk_snoc_Ok v l c id Hc) Ew) as (pid & d & Hpid & Hd & Hdir & Hch).
  destruct (wf_child v Hwf _ _ _ _ Hd Hch) as (_ & _ & ci & Hci & Hpar & _). simplify_eq.
  pose proof (has_entry_children v _ id t Hwf Hp Ew Ht) as Hhe.
  destruct (decide (i_children t = ∅)) as [Hem|Hem].
  - rewrite (bool_decide_eq_true_2 (i_children t = ∅)), andb_false_r by done. rewrite Hpar.
    destruct (render_child_name l c) as [-> ->]; [apply Hc|].
    do 2 eexists. split; [reflexivity|]. split; [by eapply delete_target_wf|].
    split_and!; [done|rewrite (view_Some v _ id t Ew Ht); eauto|by intros ?%Hhe|].
    intros q Hq. by eapply delete_view.
  - destruct (map_choose _ Hem) as (n & x & Hx).
    destruct (wf_child v Hwf _ _ _ _ Ht Hx) as (_ & Hty & _).
    rewrite (bool_decide_eq_true_2 (i_type t = Directory)), bool_decide_eq_false_2 by done. simpl.
    do 2 eexists. split; [reflexivity|]. split; [done|]. split; [done|]. right; right. by rewrite Hhe.
Qed.

(** ** File contents *)

(** The bytes after a write: the data at its offset, the old bytes elsewhere,
    zeros in the gap. *)
Definition written (old : bytes) (off : nat) (data : bytes) (k : nat) : option Z :=
  if bool_decide (off <= k < off + length data)%nat then data !! (k - off)%nat
  else if bool_decide (k < length old)%nat then old !! k
  else if bool_decide (k < off)%nat then Some 0 else None.

Lemma splice_written old off data :
  data <> [] ->
  let grown := old ++ replicate (off + length data - length old) 0 in
  forall k, splice grown off data !! k = written old off data k.
Proof.
  intros Hne grown k. unfold splice, written. assert (length data <> 0%nat) by (by destruct data).
  assert (Hg : (off + length data <= length grown)%nat) by (subst grown; len).
  assert (Ht : length (take off grown) = off) by len.
  case_bool_decide.
  - rewrite lookup_app_r by lia. rewrite Ht, lookup_app_l by lia. done.
  - destruct (decide (k < off)%nat) as [Hlt|Hge].
    + rewrite lookup_app_l by lia. rewrite lookup_take_lt by lia. subst grown.
      case_bool_decide; [by rewrite lookup_app_l by lia|].
      rewrite bool_decide_eq_true_2 by lia. rewrite lookup_app_r by lia.
      rewrite lookup_replicate_2; [done|lia].
    + rewrite lookup_app_r by lia. rewrite Ht, lookup_app_r by lia.
      rewrite lookup_drop. replace (off + length data + (k - off - length data))%nat with k by lia.
      subst grown. case_bool_decide; [by rewrite lookup_app_l by lia|].
      rewrite bool_decide_eq_false_2 by lia. apply lookup_ge_None_2. len.
Qed.

Lemma splice_grown old off data :
  let out := splice (old ++ replicate (off + length data - length old) 0) off data in
  take (length data) (drop off out) = data /\ length out = Nat.max (length old) (off + length data).
Proof.
  intros out. subst out. set (g := old ++ _).
  assert (length g = Nat.max (length old) (off + length data)) as Hg by (subst g; len).
  unfold splice. split; [|rewrite !length_app, length_take, length_drop; lia].
  rewrite drop_app_ge by (rewrite length_take; lia). rewrite length_take, Nat.min_l by lia.
  rewrite Nat.sub_diag, drop_0. by rewrite take_app_length.
Qed.

Definition same_tree (v v' : InMemoryVfs) : Prop :=
  next_inode v' = next_inode v /\ (forall id, is_Some (inodes v !! id) <-> is_Some (inodes v' !! id)) /\
  forall id i i', inodes v !! id = Some i -> inodes v' !! id = Some i' ->
    i_id i' = i_id i /\ i_name i' = i_name i /\ i_type i' = i_type i /\
    i_children i' = i_children i /\ i_parent i' = i_parent i.

Lemma same_tree_wf v v' : same_tree v v' -> vfs_wf v -> vfs_wf v'.
Proof.
  intros (Hn & Hs & H) Hwf.
  assert (Hb : forall k i', inodes v' !! k = Some i' -> exists i, inodes v !! k = Some i) by
    (intros k i' Hi; apply Hs; eauto).
  assert (Hf : forall k i, inodes v !! k = Some i -> exists i', inodes v' !! k = Some i') by
    (intros k i Hi; apply Hs; eauto).
  constructor.
  - destruct (wf_root v Hwf) as (r & Hr & ? & ?). destruct (Hf 1 r Hr) as [i Hi].
    destruct (H 1 r i Hr Hi) as (? & ? & ? & ? & ?). exists i. split_and!; congruence.
  - intros k i' Hi'. destruct (Hb k i' Hi') as [i Hi]. destruct (H k i i' Hi Hi') as (? & _).
    destruct (wf_id v Hwf k i Hi). rewrite Hn. split; [congruence|done].
  - intros k i' Hi' Hk. destruct (Hb k i' Hi') as [i Hi]. destruct (H k i i' Hi Hi') as (? & ? & ? & ? & ?).
    destruct (wf_parent v Hwf k i Hi Hk) as (p & d & ? & ? & Hd & ? & ?).
    destruct (Hf p d Hd) as [d' Hd']. destruct (H p d d' Hd Hd') as (? & ? & ? & ? & ?).
    exists p, d'. split_and!; congruence.
  - intros k i' n c Hi' Hc. destruct (Hb k i' Hi') as [i Hi]. destruct (H k i i' Hi Hi') as (? & ? & ? & Hch & ?).
    rewrite Hch in Hc. destruct (wf_child v Hwf k i n c Hi Hc) as (? & ? & ci & Hci & ? & ?).
    destruct (Hf c ci Hci) as [ci' Hci']. destruct (H c ci ci' Hci Hci') as (? & ? & ? & ? & ?).
    split_and!; [done|congruence|]. exists ci'. split_and!; congruence.
  - rewrite Hn. apply (wf_next v Hwf).
Qed.

Lemma same_tree_walk v v' id p : same_tree v v' -> walk v' id p = walk v id p.
Proof.
  intros (_ & Hs & H). revert id. induction p as [|c p IH]; intros id; simpl; [done|].
  case_bool_decide; [apply IH|]. specialize (Hs id). specialize (H id).
  destruct (inodes v !! id) as [i|] eqn:Ei, (inodes v' !! id) as [i'|] eqn:Ei'; simpl.
  - destruct (H i i' eq_refl eq_refl) as (_ & _ & -> & -> & _).
    case_bool_decide; [|done]. destruct (i_children i !! c); simpl; [apply IH|done].
  - by destruct (proj1 Hs ltac:(eauto)).
  - by destruct (proj2 Hs ltac:(eauto)).
  - done.
Qed.

Lemma set_data_same_tree v id i b :
  inodes v !! id = Some i -> same_tree v (mkVfs (<[id := set_data b i]> (inodes v)) (next_inode v)).
Proof.
  intros Hi. split_and!; [done|..].
  - intros k. simpl. destruct (decide (k = id)) as [->|]; [rewrite lookup_insert_eq, Hi; split; eauto|].
    by rewrite lookup_insert_ne by done.
  - intros k j j' Hj Hj'. simpl in Hj'. destruct (decide (k = id)) as [->|].
    + rewrite lookup_insert_eq in Hj'. by simplify_eq.
    + rewrite lookup_insert_ne in Hj' by done. by simplify_eq.
Qed.

Lemma write_file_ok id off data v i :
  inodes v !! id = Some i -> i_type i = RegularFile -> data <> [] ->
  0 <= off -> off + Z.of_nat (length data) <= ISIZE_MAX ->
  exists out, write_file id off data v =
      Done (Ok (Z.of_nat (length data)), mkVfs (<[id := set_data out i]> (inodes v)) (next_inode v)) /\
    out = splice (i_data i ++ replicate (Z.to_nat off + length data - length (i_data i)) 0) (Z.to_nat off) data.
Proof.
  intros Hi Hty Hne Hoff Hmax. unfold write_file. rewrite Hi, Hty. simpl.
  rewrite bool_decide_eq_false_2 by done. unfold saturating_add, uint_max, ISIZE_MAX in *.
  rewrite Z.min_r by lia. unfold resize. eexists. split; [|reflexivity].
  set (g := i_data i ++ replicate (Z.to_nat off + length data - length (i_data i)) 0).
  assert (Hg : (if Z.of_nat (length (i_data i)) <? off + Z.of_nat (length data)
                then if ISIZE_MAX <? off + Z.of_nat (length data) then Panic
                     else Done (take (Z.to_nat (off + Z.of_nat (length data))) (i_data i) ++
                                replicate (Z.to_nat (off + Z.of_nat (length data)) - length (i_data i)) 0)
                else Done (i_data i)) = Done g).
  { subst g. replace (Z.to_nat (off + Z.of_nat (length data))) with (Z.to_nat off + length data)%nat by lia.
    destruct (_ <? off + _) eqn:E; zbool.
    - unfold ISIZE_MAX. destruct (2 ^ 63 - 1 <? _) eqn:E2; zbool; [lia|]. by rewrite take_ge by lia.
    - replace (_ - _)%nat with 0%nat by lia. by rewrite app_nil_r. }
  rewrite Hg. simpl. assert (length g = Nat.max (length (i_data i)) (Z.to_nat off + length data)) by (subst g; len).
  rewrite (proj2 (Z.leb_le off _)), (proj2 (Z.leb_le _ (Z.of_nat (length g)))) by lia. done.
Qed.

Lemma write_file_wf id off data v r v' :
  vfs_wf v -> write_file id off data v = Done (r, v') -> vfs_wf v' /\ same_tree v v'.
Proof.
  intros Hwf. assert (same_tree v v) as Hrefl.
  { split_and!; [done..|]. intros. by simplify_eq. }
  unfold write_file. destruct (inodes v !! id) as [i|] eqn:Hi; [|by intros [= <- <-]].
  case_bool_decide; [by intros [= <- <-]|]. case_bool_decide; [by intros [= <- <-]|].
  destruct (if _ <? _ then _ else _); simpl; [|done]. intros [= <- <-].
  match goal with |- vfs_wf (mkVfs (<[id := set_data ?o i]> _) _) /\ _ =>
    assert (same_tree v (mkVfs (<[id := set_data o i]> (inodes v)) (next_inode v)))
      by (by apply set_data_same_tree) end.
  split; [by eapply same_tree_wf|done].
Qed.

Lemma read_file_ok id off n v i :
  inodes v !! id = Some i -> i_type i = RegularFile -> 0 <= off < 2 ^ 64 -> 0 <= n < 2 ^ 64 ->
  Z.of_nat (length (i_data i)) < 2 ^ 64 ->
  read_file id off n v = Ok (take (Z.to_nat n) (drop (Z.to_nat off) (i_data i))).
Proof.
  intros Hi Hty Hoff Hn Hlen. unfold read_file. rewrite Hi. simpl. rewrite Hty. simpl.
  destruct (_ <=? off) eqn:E1; zbool; simpl.
  { by rewrite drop_ge, take_nil by lia. }
  destruct (n =? 0) eqn:E2; zbool; [by subst n|].
  f_equal. unfold saturating_add, uint_max.
  destruct (decide (Z.to_nat off + Z.to_nat n <= length (i_data i))%nat).
  - f_equal. lia.
  - rewrite !take_ge; [done|rewrite length_drop; lia..].
Qed.

(** ** Directory listing *)


Lemma list_children_ok v l :
  (forall n c, (n, c) ∈ l -> is_Some (inodes v !! c)) ->
  exists es, list_children v l = Ok es /\
    (fun e => (de_name e, de_inode e)) <$> es = l /\
    forall e, e ∈ es -> exists i, inodes v !! de_inode e = Some i /\ i_type i = de_type e.
Proof.
  induction l as [|[n c] l IH]; intros Hl; simpl.
  { exists []. split_and!; [done..|]. by intros e ?%not_elem_of_nil. }
  destruct (Hl n c) as [i Hi]; [left|]. rewrite Hi. simpl.
  destruct IH as (es & -> & Hes & Hty); [intros m d Hm; apply (Hl m); by right|]. simpl.
  eexists. split; [reflexivity|]. split; [by rewrite fmap_cons, Hes|].
  intros e [->|He]%elem_of_cons; [simpl; eauto|by apply Hty].
Qed.

Lemma list_directory_ok path v b :
  vfs_wf v -> view v (components path) = Some (Directory, b) ->
  exists es, list_directory path v = Ok es /\
    StronglySorted (fun x y => str_leb x y = true) (de_name <$> es) /\ NoDup (de_name <$> es) /\
    forall n ft, (exists e, e ∈ es /\ de_name e = n /\ de_type e = ft) <->
      valid_component n /\ exists b, view v (components path ++ [n]) = Some (ft, b).
Proof.
  intros Hwf Hv. pose proof (components_valid path) as Hp. unfold list_directory. rewrite resolve_walk.
  apply view_walk in Hv as (id & i & Hw & Hi & [= Hty _]). rewrite Hw. simpl. rewrite Hi. simpl.
  rewrite <- Hty. simpl. unfold btree_str_iter. set (ch := merge_sort name_le (map_to_list (i_children i))).
  assert (Hch : forall n c, (n, c) ∈ ch <-> i_children i !! n = Some c)
    by (intros n c; unfold ch; rewrite merge_sort_Permutation; apply elem_of_map_to_list).
  destruct (list_children_ok v ch) as (es & -> & Hes & Htyp).
  { intros n c Hn%Hch. destruct (wf_child v Hwf _ _ _ _ Hi Hn) as (_ & _ & ci & -> & _). eauto. }
  assert (Hnames : de_name <$> es = ch.*1) by (rewrite <- Hes, <- list_fmap_compose; done).
  exists es. split; [done|]. rewrite Hnames. split_and!.
  - assert (StronglySorted name_le ch) as Hs by (apply StronglySorted_merge_sort; apply _).
    clear -Hs. induction Hs as [|x l _ IH Hx]; simpl; constructor; [done|].
    apply Forall_fmap. eapply Forall_impl; [exact Hx|]. done.
  - unfold ch. rewrite merge_sort_Permutation. apply NoDup_fst_map_to_list.
  - intros n ft. split.
    + intros (e & He & <- & <-). destruct (Htyp e He) as (ci & Hci & Hcty).
      assert (i_children i !! de_name e = Some (de_inode e)) as Hn.
      { apply Hch. rewrite <- Hes. apply list_elem_of_fmap. eauto. }
      destruct (wf_child v Hwf _ _ _ _ Hi Hn) as (Hval & _ & _). split; [done|].
      exists (i_data ci). rewrite <- Hcty. eapply view_Some; [|done].
      apply walk_snoc_Ok; eauto 10.
    + intros [Hval [b' Hb]]. apply view_walk in Hb as (x & ci & Hx & Hci & [= -> _]).
      apply walk_snoc_Ok in Hx as (y & e & ? & ? & _ & Hx); [|done].
      assert (e = i) as -> by congruence. apply Hch in Hx. rewrite <- Hes in Hx.
      apply list_elem_of_fmap in Hx as (e' & [= -> ->] & He').
      exists e'. destruct (Htyp e' He') as (ci' & ? & ?). split_and!; congruence.
Qed.

Lemma vfs_new_wf : vfs_wf vfs_new.
Proof.
  assert (H : forall k i, inodes vfs_new !! k = Some i -> k = 1 /\ i = mkInode 1 ROOT Directory [] ∅ None).
  { intros k i Hi. cbn [vfs_new inodes] in Hi. by apply lookup_singleton_Some in Hi as [<- <-]. }
  constructor.
  - eexists. split; [reflexivity|done].
  - intros k i [-> ->]%H. simpl. lia.
  - by intros k i [-> ->]%H.
  - intros k i n c [-> ->]%H Hc. simpl in Hc. by rewrite lookup_empty in Hc.
  - simpl. lia.
Qed.

Lemma create_entry_wf path ft v r v' :
  vfs_wf v -> next_inode v < uint_max 64 -> create_entry path ft v = Done (r, v') -> vfs_wf v'.
Proof.
  intros Hwf Hroom H. pose proof (create_refines path ft v Hwf Hroom) as Hr.
  destruct (spec_create _ _ _); [destruct Hr as (v2 & Hr & ? & _)|]; rewrite H in Hr; by simplify_eq.
Qed.

Lemma delete_path_wf path v r v' : vfs_wf v -> delete_path path v = Done (r, v') -> vfs_wf v'.
Proof.
  intros Hwf H. destruct (delete_refines path v Hwf) as (r2 & v2 & Hr & ? & _). rewrite H in Hr. by simplify_eq.
Qed.

Lemma create_entry_next path ft v r v' :
  create_entry path ft v = Done (r, v') -> next_inode v <= next_inode v' <= next_inode v + 1 \/ next_inode v >= uint_max 64.
Proof.
  unfold create_entry. destruct (resolve_parent path v) as [r0|]; simpl; [|done].
  destruct r0 as [[pid c]|]; [|intros [= _ <-]; left; lia].
  destruct (inodes v !! pid); [|intros [= _ <-]; left; lia].
  case_bool_decide; intros [= _ <-]; simpl; [left; lia|]. unfold saturating_add. lia.
Qed.

#[export] Hint Resolve vfs_new_wf create_entry_wf delete_path_wf components_valid : nexa.

(** ** Properties *)

(** A directory [/a] holding the file [/a/b], built by the operations themselves. *)
Definition demo_vfs : InMemoryVfs :=
  match create_directory [47; 97] vfs_new with
  | Done (_, v) => match create_file [47; 97; 47; 98] v with Done (_, v) => v | Panic => v end
  | Panic => vfs_new
  end.

Lemma demo_vfs_wf : vfs_wf demo_vfs.
Proof.
  unfold demo_vfs, create_directory, create_file.
  assert (Hn : next_inode vfs_new < uint_max 64) by (vm_compute; done).
  destruct (create_entry [47; 97] Directory vfs_new) as [[r v]|] eqn:E; [|apply vfs_new_wf].
  assert (vfs_wf v) by eauto using vfs_new_wf, create_entry_wf.
  assert (next_inode v < uint_max 64).
  { destruct (create_entry_next _ _ _ _ _ E); [change (next_inode vfs_new) with 2 in *; unfold uint_max; lia|lia]. }
  destruct (create_entry [47; 97; 47; 98] RegularFile v) as [[r' v']|] eqn:E'; [|done].
  eauto using create_entry_wf.
Qed.

(** [normalize_path] yields a canonical absolute path: a join of
    components without [.], [..], empty or slashed names, which splits back
    to the same components; normalising it again, from any base, changes
    nothing. *)
Theorem vfs_normalize_canonical (base base' path : str) :
  exists l, Forall valid_component l /\ normalize_path base path = render l /\
    components (normalize_path base path) = l /\
    normalize_path base' (normalize_path base path) = normalize_path base path.
Proof.
  destruct (normalize_valid base path) as (l & Hl & ->). exists l.
  split_and!; [done..|by apply components_render|by apply normalize_render].
Qed.

(** In a well-formed file system the inodes form a tree under the root:
    every inode is reached by exactly one canonical component path (no
    orphans, no cycles, no hard links), and it records its own number. *)
Theorem vfs_tree (v : InMemoryVfs) (id : Z) (i : Inode) :
  vfs_wf v -> inodes v !! id = Some i ->
  i_id i = id /\
  exists p, Forall valid_component p /\ resolve_path (render p) v = Ok id /\
    forall q, Forall valid_component q -> resolve_path (render q) v = Ok id -> q = p.
Proof.
  intros Hwf Hi. split; [by apply (wf_id v Hwf)|].
  destruct (inode_path v id i Hwf Hi) as (p & Hp & Hw). exists p.
  split_and!; [done|by rewrite resolve_render|]. intros q Hq. rewrite resolve_render by done.
  eauto using walk_inj.
Qed.

Lemma vfs_tree_witness :
  exists i, inodes demo_vfs !! 3 = Some i /\ i_id i = 3 /\
    exists p, Forall valid_component p /\ resolve_path (render p) demo_vfs = Ok 3 /\
      forall q, Forall valid_component q -> resolve_path (render q) demo_vfs = Ok 3 -> q = p.
Proof.
  eexists. split; [vm_compute; reflexivity|].
  apply (vfs_tree demo_vfs 3 _ demo_vfs_wf). vm_compute. reflexivity.
Defined.

(** C16.  [create_file] and [create_directory] refine the abstract tree, as long
    as inode numbers are left: they never panic; on every error the file system is unchanged and the error is
    the one the tree prescribes; on success exactly the one canonical path is
    added, as an empty node, under the next inode number, and the invariant
    is kept. *)
Theorem vfs_create_refines (path : str) (ft : FileType) (v : InMemoryVfs) :
  vfs_wf v -> next_inode v < uint_max 64 ->
  match spec_create (view v) (components path) ft with
  | Err e => create_entry path ft v = Done (Err e, v)
  | Ok m => exists v', create_entry path ft v = Done (Ok (next_inode v), v') /\ vfs_wf v' /\
      forall q, Forall valid_component q -> view v' q = m q
  end.
Proof. apply create_refines. Qed.

Lemma vfs_create_refines_witness :
  vfs_wf demo_vfs /\ next_inode demo_vfs < uint_max 64 /\
  (exists v', create_entry [97; 47; 46; 46; 47; 99] RegularFile demo_vfs = Done (Ok 4, v') /\
     view v' [[99]] = Some (RegularFile, [])) /\
  create_entry [97; 47; 98; 47; 99] RegularFile demo_vfs = Done (Err NotADirectory, demo_vfs).
Proof.
  assert (Hn : next_inode demo_vfs < uint_max 64) by (vm_compute; done).
  split_and!; [exact demo_vfs_wf|done|..].
  - pose proof (vfs_create_refines [97; 47; 46; 46; 47; 99] RegularFile demo_vfs demo_vfs_wf Hn) as H.
    destruct (spec_create (view demo_vfs) (components [97; 47; 46; 46; 47; 99]) RegularFile) as [m|e] eqn:E;
      [|exfalso; revert E; vm_compute; done].
    destruct H as (v' & Hc & _ & Hview). exists v'. split; [exact Hc|].
    rewrite Hview by (repeat constructor; vm_compute; try done; intros ?%list_elem_of_singleton; done).
    revert E. vm_compute. intros [= <-]. done.
  - pose proof (vfs_create_refines [97; 47; 98; 47; 99] RegularFile demo_vfs demo_vfs_wf Hn) as H.
    vm_compute in H. exact H.
Defined.

(** [delete_path] refines the abstract tree: it never panics and keeps
    the invariant; it removes exactly one canonical path, only when that
    exists, is not the root and has no entries; otherwise it reports
    [InvalidPath], the resolution error or [NotEmpty] and changes nothing. *)
Theorem vfs_delete_refines (path : str) (v : InMemoryVfs) :
  vfs_wf v ->
  let p := components path in
  exists r v', delete_path path v = Done (r, v') /\ vfs_wf v' /\
    match r with
    | Ok _ => p <> [] /\ is_Some (view v p) /\ ~ has_entry (view v) p /\
        forall q, Forall valid_component q -> view v' q = if bool_decide (q = p) then None else view v q
    | Err e => v' = v /\
        ((p = [] /\ e = InvalidPath) \/
         (p <> [] /\ view v p = None /\ e = path_error (view v) p) \/
         (p <> [] /\ has_entry (view v) p /\ e = NotEmpty))
    end.
Proof. apply delete_refines. Qed.

Lemma vfs_delete_refines_witness :
  vfs_wf demo_vfs /\
  (exists v', delete_path [47; 97; 47; 98] demo_vfs = Done (Ok (), v') /\ view v' [[97]; [98]] = None) /\
  delete_path [47; 97] demo_vfs = Done (Err NotEmpty, demo_vfs).
Proof.
  split_and!; [exact demo_vfs_wf|..].
  - destruct (vfs_delete_refines [47; 97; 47; 98] demo_vfs demo_vfs_wf) as (r & v' & Hd & _ & Hr).
    assert (r = Ok ()) as -> by (revert Hd; vm_compute; congruence).
    exists v'. split; [exact Hd|]. destruct Hr as (_ & _ & _ & Hr).
    rewrite Hr; [done|]. repeat constructor; vm_compute; try done; intros ?%list_elem_of_singleton; done.
  - reflexivity.
Defined.

(** Writing non-empty data to a regular file within the addressable size
    succeeds: the file then holds the data at the offset, its old bytes
    elsewhere and zeros in a gap past its old end; reading the same range
    returns the data; every other inode, and the resolution of every path,
    is unchanged. *)
Theorem vfs_write_read (v : InMemoryVfs) (id off : Z) (i : Inode) (data : bytes) :
  vfs_wf v -> inodes v !! id = Some i -> i_type i = RegularFile -> data <> [] ->
  0 <= off -> off + Z.of_nat (length data) <= ISIZE_MAX ->
  Z.of_nat (length (i_data i)) <= ISIZE_MAX ->
  exists v' out, write_file id off data v = Done (Ok (Z.of_nat (length data)), v') /\ vfs_wf v' /\
    inodes v' !! id = Some (set_data out i) /\
    (forall k, out !! k = written (i_data i) (Z.to_nat off) data k) /\
    read_file id off (Z.of_nat (length data)) v' = Ok data /\
    file_size id v' = Ok (Z.max (Z.of_nat (length (i_data i))) (off + Z.of_nat (length data))) /\
    (forall k, k <> id -> inodes v' !! k = inodes v !! k) /\
    (forall path, resolve_path path v' = resolve_path path v).
Proof.
  intros Hwf Hi Hty Hne Hoff Hmax Hlen.
  destruct (write_file_ok id off data v i Hi Hty Hne Hoff Hmax) as (out & Hw & Hout).
  destruct (write_file_wf _ _ _ _ _ _ Hwf Hw) as [Hwf' Hst].
  pose proof (splice_grown (i_data i) (Z.to_nat off) data) as [Hread Hol]. rewrite <- Hout in Hread, Hol.
  do 2 eexists. split; [exact Hw|]. unfold ISIZE_MAX in *. split_and!.
  - done.
  - apply lookup_insert_eq.
  - intros k. rewrite Hout. by apply splice_written.
  - erewrite read_file_ok; [|apply lookup_insert_eq|done|lia..|cbn [set_data i_data]; rewrite Hol; lia].
    cbn [set_data i_data]. rewrite Nat2Z.id, Hread. done.
  - unfold file_size. simpl. rewrite lookup_insert_eq. simpl. rewrite Hty. simpl. f_equal. lia.
  - intros k Hk. simpl. by rewrite lookup_insert_ne.
  - intros path. rewrite !resolve_walk. by apply same_tree_walk.
Qed.

Lemma vfs_write_read_witness :
  exists v' out, write_file 3 2 [7; 8] demo_vfs = Done (Ok 2, v') /\ read_file 3 2 2 v' = Ok [7; 8] /\
    inodes v' !! 3 = Some (mkInode 3 [98] RegularFile out ∅ (Some 2)) /\ out !! 0%nat = Some 0.
Proof.
  destruct (vfs_write_read demo_vfs 3 2 (mkInode 3 [98] RegularFile [] ∅ (Some 2)) [7; 8])
    as (v' & out & Hw & _ & Hi & Hk & Hr & _);
    [exact demo_vfs_wf|vm_compute; reflexivity|reflexivity|done|lia|vm_compute; done|vm_compute; done|].
  exists v', out. split_and!; [exact Hw|exact Hr|exact Hi|rewrite Hk; reflexivity].
Defined.

(** [list_directory] on a directory lists its entries exactly: in byte
    order of their names, each once, with the type the tree gives them, and
    no other name. *)
Theorem vfs_list_directory (path : str) (v : InMemoryVfs) (b : bytes) :
  vfs_wf v -> view v (components path) = Some (Directory, b) ->
  exists es, list_directory path v = Ok es /\
    StronglySorted (fun x y => str_leb x y = true) (de_name <$> es) /\ NoDup (de_name <$> es) /\
    forall n ft, (exists e, e ∈ es /\ de_name e = n /\ de_type e = ft) <->
      valid_component n /\ exists b, view v (components path ++ [n]) = Some (ft, b).
Proof. apply list_directory_ok. Qed.

Lemma vfs_list_directory_witness :
  view demo_vfs (components [97]) = Some (Directory, []) /\
  exists es, list_directory [97] demo_vfs = Ok es /\ NoDup (de_name <$> es).
Proof.
  split; [vm_compute; reflexivity|].
  destruct (vfs_list_directory [97] demo_vfs [] demo_vfs_wf) as (es & H & _ & Hn & _); [vm_compute; reflexivity|].
  exists es. split; [exact H|exact Hn].
Defined.
