(* ===== verification/Initramfs.v ===== *)
(** * The initial RAM filesystem

    [nexacore-kernel/src/initramfs.rs]: the flat archive of user programs, its parser and builder,
    and the loader that puts its files under [/bin] of [Vfs].  A name is its UTF-8 bytes.  The
    length of a slice is at most 2^63 - 1, so the positions of the parser do not overflow. *)

From S2P Require Import Prelude Kernel Vfs.

Record InitramfsEntry := mkEntry { name : str; data : bytes }.
Inductive InitramfsError := Truncated | InvalidName | VfsFailure.

(** One round of the loop: the entry at [pos], and the position after it. *)
Definition parse_entry (archive : bytes) (pos : Z) : result InitramfsError (InitramfsEntry * Z) :=
  w ← ok_or (get_range archive pos 2) Truncated;
  let name_len := from_le w in
  let pos := pos + 2 in
  raw ← ok_or (get_range archive pos name_len) Truncated;
  if negb (utf8_valid raw) then Err InvalidName
  else
    let pos := pos + name_len in
    w ← ok_or (get_range archive pos 4) Truncated;
    let elf_len := from_le w in
    let pos := pos + 4 in
    elf ← ok_or (get_range archive pos elf_len) Truncated;
    Ok (mkEntry raw elf, pos + elf_len).

(** Each round takes at least six bytes, so the length of the archive is enough fuel. *)
Fixpoint parse_loop (fuel : nat) (archive : bytes) (pos : Z) (entries : list InitramfsEntry) :
    result InitramfsError (list InitramfsEntry) :=
  if Z.of_nat (length archive) <=? pos then Ok entries
  else
    match fuel with
    | O => Err Truncated
    | S fuel =>
        '(e, pos) ← parse_entry archive pos;
        parse_loop fuel archive pos (entries ++ [e])
    end.
Definition parse_initramfs (archive : bytes) : result InitramfsError (list InitramfsEntry) :=
  parse_loop (length archive) archive 0 [].

(** [u16::try_from(len).expect(..)] and its 32-bit sister. *)
Definition expect_len (w : Z) (d : bytes) : exec Z :=
  if Z.of_nat (length d) <? 2 ^ w then Done (Z.of_nat (length d)) else Panic.
Fixpoint build_archive (entries : list InitramfsEntry) : exec bytes :=
  match entries with
  | [] => Done []
  | e :: entries =>
      name_len ← expect_len 16 (name e);
      data_len ← expect_len 32 (data e);
      rest ← build_archive entries;
      Done (to_le 2 name_len ++ name e ++ to_le 4 data_len ++ data e ++ rest)
  end.

Definition BIN : str := [98; 105; 110].
Definition BIN_PATH : str := SLASH :: BIN.
Definition bin_path (n : str) : str := BIN_PATH ++ SLASH :: n.

(** The loop of [load_into_vfs]: the count, and the file system after it. *)
Fixpoint load_entries (entries : list InitramfsEntry) (v : InMemoryVfs) (count : Z) : exec (result InitramfsError Z * InMemoryVfs) :=
  match entries with
  | [] => Done (Ok count, v)
  | e :: entries =>
      if exists_path (bin_path (name e)) v then load_entries entries v count
      else
        '(r, v) ← create_file (bin_path (name e)) v;
        match r with
        | Err _ => Done (Err VfsFailure, v)
        | Ok inode =>
            '(w, v) ← write_file inode 0 (data e) v;
            match w with
            | Err _ => Done (Err VfsFailure, v)
            | Ok _ => count ← add_uint 64 count 1; load_entries entries v count
            end
        end
  end.
Definition load_into_vfs (entries : list InitramfsEntry) (v : InMemoryVfs) : exec (result InitramfsError Z * InMemoryVfs) :=
  if negb (exists_path BIN_PATH v) then
    '(r, v) ← create_directory BIN_PATH v;
    match r with
    | Err _ => Done (Err VfsFailure, v)
    | Ok _ => load_entries entries v 0
    end
  else load_entries entries v 0.

(** ** The archive format *)

Lemma get_range_mid {A} (pre d post : list A) n :
  Z.of_nat (length d) = n -> get_range (pre ++ d ++ post) (Z.of_nat (length pre)) n = Some d.
Proof.
  intros <-. unfold get_range. rewrite (proj2 (Z.leb_le _ _)) by (rewrite !length_app; lia).
  by rewrite !Nat2Z.id, drop_app_length, take_app_length.
Qed.
Lemma get_range_split {A} (l d : list A) off n :
  0 <= off -> 0 <= n -> get_range l off n = Some d ->
  drop (Z.to_nat off) l = d ++ drop (Z.to_nat (off + n)) l /\ Z.of_nat (length d) = n /\ off + n <= Z.of_nat (length l).
Proof.
  intros Ho Hn. unfold get_range. destruct (Z.leb_spec (off + n) (Z.of_nat (length l))); [|done]. intros [= <-].
  split; [|rewrite length_take, length_drop; lia]. rewrite Z2Nat.inj_add, <- drop_drop by lia. by rewrite take_drop.
Qed.

Definition entry_ok (e : InitramfsEntry) : Prop :=
  utf8_valid (name e) = true /\ Z.of_nat (length (name e)) < 2 ^ 16 /\ Z.of_nat (length (data e)) < 2 ^ 32.
Definition encode (e : InitramfsEntry) : bytes :=
  to_le 2 (Z.of_nat (length (name e))) ++ name e ++ to_le 4 (Z.of_nat (length (data e))) ++ data e.

Lemma archive_length e : Z.of_nat (length (encode e)) = 6 + Z.of_nat (length (name e)) + Z.of_nat (length (data e)).
Proof. unfold encode. rewrite !length_app, !length_to_le by lia. lia. Qed.

Lemma parse_entry_encode pre e post :
  entry_ok e -> parse_entry (pre ++ encode e ++ post) (Z.of_nat (length pre)) = Ok (e, Z.of_nat (length (pre ++ encode e))).
Proof.
  intros (Hu & Hn & Hd). unfold parse_entry, encode. rewrite <- !app_assoc.
  rewrite get_range_mid by (rewrite length_to_le; lia). cbn [mbind result_bind ok_or].
  rewrite from_to_le by (unfold in_uint; lia).
  assert (Z.of_nat (length pre) + 2 = Z.of_nat (length (pre ++ to_le 2 (Z.of_nat (length (name e)))))) as -> by (rewrite length_app, length_to_le; lia).
  rewrite (app_assoc pre), get_range_mid by done. cbn [mbind result_bind ok_or]. rewrite Hu. cbn [negb].
  rewrite <- Nat2Z.inj_add, <- length_app, (app_assoc _ (name e)), get_range_mid by (rewrite length_to_le; lia).
  cbn [mbind result_bind ok_or]. rewrite from_to_le by (unfold in_uint; lia).
  set (p := (pre ++ to_le 2 (Z.of_nat (length (name e)))) ++ name e).
  assert (Z.of_nat (length p) + 4 = Z.of_nat (length (p ++ to_le 4 (Z.of_nat (length (data e)))))) as -> by (rewrite (length_app p), length_to_le; lia).
  rewrite (app_assoc p), get_range_mid by done. cbn [mbind result_bind ok_or]. do 2 f_equal; [by destruct e|].
  unfold p. rewrite !length_app. lia.
Qed.

Lemma parse_entry_inv archive pos e pos' :
  is_bytes archive -> 0 <= pos -> parse_entry archive pos = Ok (e, pos') ->
  entry_ok e /\ drop (Z.to_nat pos) archive = encode e ++ drop (Z.to_nat pos') archive /\ pos + 6 <= pos' <= Z.of_nat (length archive).
Proof.
  intros Hb Hp. unfold parse_entry. destruct (get_range archive pos 2) as [w1|] eqn:E1; [|done]. cbn [mbind result_bind ok_or].
  assert (forall off n d, 0 <= off -> get_range archive off n = Some d -> is_bytes d) as Hby.
  { intros off n d Ho. unfold get_range. destruct (_ <=? _); [|done]. intros [= <-]. apply Forall_take, Forall_drop, Hb. }
  pose proof (Hby _ _ _ Hp E1) as B1. apply get_range_split in E1 as (S1 & L1 & _); [|lia|lia].
  pose proof (from_le_bound w1 B1) as R1. rewrite L1 in R1. unfold in_uint in R1.
  destruct (get_range archive (pos + 2) (from_le w1)) as [nm|] eqn:E2; [|done]. cbn [mbind result_bind ok_or].
  apply get_range_split in E2 as (S2 & L2 & _); [|lia|lia]. destruct (utf8_valid nm) eqn:Hu; [|done]. cbn [negb].
  destruct (get_range archive (pos + 2 + from_le w1) 4) as [w2|] eqn:E3; [|done]. cbn [mbind result_bind ok_or].
  pose proof (Hby (pos + 2 + from_le w1) 4 w2 ltac:(lia) E3) as B3. apply get_range_split in E3 as (S3 & L3 & _); [|lia|lia].
  pose proof (from_le_bound w2 B3) as R3. rewrite L3 in R3. unfold in_uint in R3.
  destruct (get_range archive (pos + 2 + from_le w1 + 4) (from_le w2)) as [d|] eqn:E4; [|done]. cbn [mbind result_bind ok_or].
  apply get_range_split in E4 as (S4 & L4 & Hend); [|lia|lia]. intros [= <- <-].
  split; [|split; [|lia]]; [split; [done|]; cbn [name data]; change (2 * 8) with 16 in R1; change (4 * 8) with 32 in R3; lia|].
  unfold encode. cbn [name data]. rewrite L2, L4, S1, S2, S3, S4. pose proof (to_from_le w1 B1) as T1. pose proof (to_from_le w2 B3) as T2.
  rewrite L1 in T1. rewrite L3 in T2. by rewrite T1, T2, <- !app_assoc.
Qed.

Lemma build_encode es : Forall entry_ok es -> build_archive es = Done (concat (encode <$> es)).
Proof.
  induction 1 as [|e es (_ & Hn & Hd) _ IH]; [done|]. cbn [build_archive fmap list_fmap concat]. unfold expect_len.
  rewrite !(proj2 (Z.ltb_lt _ _)) by done. cbn [mbind exec_bind]. rewrite IH. cbn [mbind exec_bind]. unfold encode. by rewrite <- !app_assoc.
Qed.
Lemma build_encode_inv es a :
  build_archive es = Done a -> Forall (fun e => utf8_valid (name e) = true) es -> Forall entry_ok es.
Proof.
  revert a. induction es as [|e es IH]; intros a Hb Hu; [constructor|]. apply Forall_cons in Hu as [Hue Hu].
  cbn [build_archive] in Hb. unfold expect_len in Hb.
  destruct (Z.ltb_spec (Z.of_nat (length (name e))) (2 ^ 16)); [|done]. cbn [mbind exec_bind] in Hb.
  destruct (Z.ltb_spec (Z.of_nat (length (data e))) (2 ^ 32)); [|done]. cbn [mbind exec_bind] in Hb.
  destruct (build_archive es) as [r|]; [|done]. constructor; [done|by eapply IH].
Qed.

Lemma parse_loop_encode es : forall fuel pre acc,
  Forall entry_ok es -> (length es <= fuel)%nat ->
  parse_loop fuel (pre ++ concat (encode <$> es)) (Z.of_nat (length pre)) acc = Ok (acc ++ es).
Proof.
  induction es as [|e es IH]; intros fuel pre acc Hes Hf.
  - cbn [fmap list_fmap concat]. rewrite !app_nil_r. destruct fuel; cbn [parse_loop]; by rewrite Z.leb_refl.
  - apply Forall_cons in Hes as [He Hes]. destruct fuel as [|fuel]; [cbn [length] in Hf; lia|]. cbn [parse_loop fmap list_fmap concat].
    pose proof (archive_length e). destruct (Z.leb_spec (Z.of_nat (length (pre ++ encode e ++ concat (encode <$> es)))) (Z.of_nat (length pre))) as [Hl|_];
      [rewrite !length_app in Hl; lia|].
    rewrite parse_entry_encode by done. cbn [mbind result_bind]. rewrite (app_assoc pre). rewrite IH; [|done|cbn [length] in Hf; lia].
    by rewrite <- app_assoc.
Qed.
Lemma parse_loop_inv fuel archive pos acc es :
  is_bytes archive -> 0 <= pos <= Z.of_nat (length archive) -> parse_loop fuel archive pos acc = Ok es ->
  exists new, es = acc ++ new /\ Forall entry_ok new /\ drop (Z.to_nat pos) archive = concat (encode <$> new).
Proof.
  intros Hb. revert pos acc. induction fuel as [|fuel IH]; intros pos acc Hp; cbn [parse_loop];
    (destruct (Z.leb_spec (Z.of_nat (length archive)) pos);
     [intros [= <-]; exists []; rewrite app_nil_r, drop_ge by lia; by repeat constructor|]); [done|].
  destruct (parse_entry archive pos) as [[e pos']|] eqn:E; [|done]. cbn [mbind result_bind]. intros Hl.
  apply parse_entry_inv in E as (He & Hd & Hr); [|done|lia]. apply IH in Hl as (new & -> & Hn & Hd'); [|lia].
  exists (e :: new). split; [by rewrite <- app_assoc|]. split; [by constructor|]. cbn [fmap list_fmap concat]. by rewrite Hd, Hd'.
Qed.

(** Round trip: the parser accepts exactly the archives the builder makes, and gives back the entries they
    were made of: an archive that parses is the archive of its entries, whose names are valid UTF-8, and
    the archive of any such entries parses to them. *)
Theorem initramfs_exact archive es :
  is_bytes archive ->
  parse_initramfs archive = Ok es <-> build_archive es = Done archive /\ Forall (fun e => utf8_valid (name e) = true) es.
Proof.
  intros Hb. unfold parse_initramfs. split.
  - intros H. apply parse_loop_inv in H as (new & -> & Hn & Hd); [|done|lia]. cbn [app]. rewrite drop_0 in Hd. split.
    + rewrite build_encode by done. by rewrite <- Hd.
    + eapply Forall_impl; [exact Hn|]. by intros e (? & _).
  - intros [Hbuild Hu]. pose proof (build_encode_inv es archive Hbuild Hu) as Hok. rewrite build_encode in Hbuild by done. injection Hbuild as <-.
    apply (parse_loop_encode es _ [] []); [done|]. clear. induction es as [|e es IH]; [done|]. cbn [fmap list_fmap concat length].
    rewrite length_app. pose proof (archive_length e). lia.
Qed.
Lemma initramfs_exact_witness :
  exists a, build_archive [mkEntry [108; 115] [127; 69]; mkEntry [99] []] = Done a /\ is_bytes a /\
    parse_initramfs a = Ok [mkEntry [108; 115] [127; 69]; mkEntry [99] []] /\ parse_initramfs (take 11 a) <> Ok [mkEntry [108; 115] [127; 69]].
Proof.
  eexists. split; [vm_compute; reflexivity|].
  assert (is_bytes (take 11 [2; 0; 108; 115; 2; 0; 0; 0; 127; 69; 1; 0; 99; 0; 0; 0; 0]) /\ is_bytes [2; 0; 108; 115; 2; 0; 0; 0; 127; 69; 1; 0; 99; 0; 0; 0; 0]) as [H1 H2]
    by (split; repeat constructor; lia).
  split; [exact H2|]. split.
  - apply (initramfs_exact _ _ H2). split; [vm_compute; reflexivity|]. repeat constructor.
  - intros H. apply (initramfs_exact _ _ H1) in H as [H _]. vm_compute in H. discriminate H.
Defined.

(** ** Loading *)

Lemma BIN_valid : valid_component BIN.
Proof. repeat split; try discriminate. vm_compute. intros H. repeat (apply elem_of_cons in H as [H|H]; [discriminate H|]). by apply not_elem_of_nil in H. Qed.
Lemma bin_valid n : valid_component n -> Forall valid_component [BIN; n].
Proof. intros Hn. constructor; [apply BIN_valid|]. constructor; [done|constructor]. Qed.
Lemma bin_components n : valid_component n -> components (bin_path n) = [BIN; n].
Proof.
  intros Hn. rewrite <- (components_render [BIN; n]); [|by apply bin_valid].
  f_equal. unfold bin_path, render, BIN_PATH. rewrite bool_decide_eq_false_2 by done. cbn. by rewrite app_nil_r.
Qed.
Lemma exists_view path v : vfs_wf v -> exists_path path v = bool_decide (is_Some (view v (components path))).
Proof.
  intros Hwf. unfold exists_path. rewrite resolve_walk. pose proof (view_None v (components path) Hwf (components_valid path)) as H.
  unfold view in *. destruct (walk v 1 (components path)) as [id|e] eqn:Ew; cbn [is_ok].
  - destruct (walk_inode v _ id Hwf (components_valid path) Ew) as [i ->]. done.
  - rewrite bool_decide_eq_false_2; [done|]. by intros [? ?].
Qed.

(** Filling a file that is still empty. *)
Lemma fill_view v p id i d :
  vfs_wf v -> Forall valid_component p -> walk v 1 p = Ok id -> inodes v !! id = Some i -> i_type i = RegularFile -> i_data i = [] ->
  Z.of_nat (length d) <= ISIZE_MAX ->
  exists k v', write_file id 0 d v = Done (Ok k, v') /\ vfs_wf v' /\ next_inode v' = next_inode v /\
    forall q, Forall valid_component q -> view v' q = if bool_decide (q = p) then Some (RegularFile, d) else view v q.
Proof.
  intros Hwf Hp Hw Hi Ht Hd Hlen. destruct (decide (d = [])) as [->|Hne].
  { exists 0, v. unfold write_file. rewrite Hi, Ht. split; [done|]. split; [done|]. split; [done|]. intros q Hq. case_bool_decide; [|done]. subst q.
    rewrite (view_Some v p id i Hw Hi). by rewrite Ht, Hd. }
  destruct (write_file_ok id 0 d v i Hi Ht Hne ltac:(lia) ltac:(lia)) as (out & Hwr & Hout).
  assert (out = d) as ->.
  { rewrite Hout, Hd. unfold splice. cbn [app length Nat.sub Nat.add Z.to_nat]. rewrite take_0, drop_ge by (rewrite length_replicate; lia). cbn. by rewrite app_nil_r. }
  pose proof (set_data_same_tree v id i d Hi) as Hst. eexists _, _. split; [exact Hwr|]. split; [by eapply same_tree_wf|]. split; [done|].
  intros q Hq. unfold view. rewrite (same_tree_walk _ _ 1 q Hst). cbn [inodes]. destruct (walk v 1 q) as [x|e] eqn:Ex.
  - destruct (decide (x = id)) as [->|Hx].
    + assert (q = p) as -> by (by eapply walk_inj). rewrite bool_decide_eq_true_2, lookup_insert_eq by done. cbn. by rewrite Ht.
    + rewrite bool_decide_eq_false_2 by congruence. by rewrite lookup_insert_ne.
  - by rewrite bool_decide_eq_false_2 by congruence.
Qed.

Fixpoint first_entry (n : str) (es : list InitramfsEntry) : option bytes :=
  match es with
  | [] => None
  | e :: es => if bool_decide (name e = n) then Some (data e) else first_entry n es
  end.
(** The specification: [/bin] exists, the first entry of each name is a file in it, and what was there stays. *)
Definition bin_files (es : list InitramfsEntry) (p : list str) : option (FileType * bytes) :=
  match p with
  | [b] => if bool_decide (b = BIN) then Some (Directory, []) else None
  | [b; n] => if bool_decide (b = BIN) then (fun d => (RegularFile, d)) <$> first_entry n es else None
  | _ => None
  end.
Definition loaded (m : fstree) (es : list InitramfsEntry) : fstree := fun p => match m p with Some x => Some x | None => bin_files es p end.

Definition loadable (e : InitramfsEntry) : Prop := valid_component (name e) /\ Z.of_nat (length (data e)) <= ISIZE_MAX.

Lemma load_entries_spec es : forall v count b,
  vfs_wf v -> view v [BIN] = Some (Directory, b) -> Forall loadable es ->
  next_inode v + Z.of_nat (length es) < uint_max 64 -> 0 <= count -> count + Z.of_nat (length es) < 2 ^ 64 ->
  exists k v', load_entries es v count = Done (Ok (count + k), v') /\ vfs_wf v' /\ 0 <= k <= Z.of_nat (length es) /\
    (NoDup (name <$> es) -> Forall (fun e => view v [BIN; name e] = None) es -> k = Z.of_nat (length es)) /\
    forall p, Forall valid_component p -> view v' p = loaded (view v) es p.
Proof.
  assert (forall v b es p, view v [BIN] = Some (Directory, b) -> (forall n, p = [BIN; n] -> view v p = None -> first_entry n es = None) ->
    loaded (view v) es p = view v p) as Hkeep.
  { intros v b es0 p Hb Hnone. unfold loaded. destruct (view v p) eqn:E; [done|]. destruct p as [|x [|n [|? ?]]]; cbn [bin_files]; try done.
    - case_bool_decide; [|done]. subst x. congruence.
    - case_bool_decide; [|done]. subst x. by rewrite Hnone. }
  induction es as [|e es IH]; intros v count b Hwf Hb Hes Hroom Hc0 Hc; cbn [load_entries].
  { exists 0, v. rewrite Z.add_0_r. split; [done|]. split; [done|]. split; [cbn [length]; lia|]. split; [done|]. intros p _. symmetry. by eapply Hkeep. }
  apply Forall_cons in Hes as [[He Hlen] Hes]. cbn [length] in *. set (q := [BIN; name e]).
  assert (Forall valid_component q) as Hq by (by apply bin_valid).
  rewrite exists_view, bin_components by done. fold q. case_bool_decide as Hex.
  - destruct (IH v count b) as (k & v' & -> & Hwf' & Hk & Hall & Hv); try done; try lia. exists k, v'. split; [done|]. split; [done|]. split; [lia|]. split.
    { intros _ Hn. apply Forall_cons in Hn as [Hn _]. fold q in Hn. rewrite Hn in Hex. by destruct Hex. }
    intros p Hp. rewrite Hv by done. unfold loaded. destruct (view v p) eqn:Ep; [done|].
    destruct p as [|x [|n [|? ?]]]; cbn [bin_files first_entry]; try done. case_bool_decide as Ex; [|done]. subst x.
    rewrite bool_decide_eq_false_2; [done|]. intros <-. fold q in Ep. rewrite Ep in Hex. by destruct Hex.
  - apply eq_None_not_Some in Hex. pose proof (create_refines (bin_path (name e)) RegularFile v Hwf ltac:(lia)) as Hcr.
    rewrite bin_components in Hcr by done. fold q in Hcr. unfold spec_create in Hcr. rewrite bool_decide_eq_false_2, Hex in Hcr by done.
    cbn [length Nat.sub take q] in Hcr. rewrite Hb in Hcr. destruct Hcr as (v1 & Hcreate & Hwf1 & Hv1). unfold create_file. rewrite Hcreate. cbn [mbind exec_bind].
    destruct (create_fresh _ _ _ _ _ Hwf ltac:(lia) Hcreate) as (Hw1 & Hn1 & i & Hi & Hti & Hdi). rewrite bin_components in Hw1 by done. fold q in Hw1.
    destruct (fill_view v1 q _ i (data e) Hwf1 Hq Hw1 Hi Hti Hdi Hlen) as (w & v2 & -> & Hwf2 & Hn2 & Hv2). cbn [mbind exec_bind].
    rewrite add_uint_Done by lia. cbn [mbind exec_bind].
    assert (forall p, Forall valid_component p -> view v2 p = if bool_decide (p = q) then Some (RegularFile, data e) else view v p) as Hv12.
    { intros p Hp. rewrite Hv2, Hv1 by done. by case_bool_decide. }
    destruct (IH v2 (count + 1) b) as (k & v' & -> & Hwf' & Hk & Hall & Hv); try done; try lia.
    { rewrite Hv12 by (repeat constructor; apply BIN_valid). by rewrite bool_decide_eq_false_2. }
    exists (k + 1), v'. split; [do 3 f_equal; lia|]. split; [done|]. split; [lia|]. split.
    + intros Hnd Hn. cbn [fmap list_fmap] in Hnd. apply NoDup_cons in Hnd as [Hni Hnd]. apply Forall_cons in Hn as [_ Hn]. rewrite Hall; [lia|done|].
      apply Forall_forall. intros e' He'. rewrite Forall_forall in Hn, Hes. specialize (Hn e' He'). destruct (Hes e' He') as [Hve _].
      rewrite Hv12 by (by apply bin_valid). rewrite bool_decide_eq_false_2; [done|].
      intros [= E]. apply Hni. rewrite <- E. by apply list_elem_of_fmap_2.
    + intros p Hp. rewrite Hv by done. unfold loaded. rewrite Hv12 by done. case_bool_decide as Epq.
      * subst p. rewrite Hex. cbn [bin_files q first_entry]. by rewrite !bool_decide_eq_true_2.
      * destruct (view v p); [done|]. destruct p as [|x [|n [|? ?]]]; cbn [bin_files first_entry]; try done. case_bool_decide as Ex; [|done]. subst x.
        by rewrite (bool_decide_eq_false_2 (name e = n)) by (intros <-; done).
Qed.

(** C19. Refinement: loading an archive whose entry names are single valid path components and whose files are
    no longer than a vector can be, into a well-formed file system whose [/bin] is a directory or missing and with inode
    numbers left for the entries, succeeds and yields the tree of the specification: every path that
    existed keeps its node, [/bin] exists, the first entry of each new name is a file of [/bin] with its
    bytes, and nothing else appears.  Every entry is counted when all names are new.  The condition on the
    names is needed: the loader does not check it, and [entry_escapes_bin] puts a file outside [/bin]. *)
Theorem load_into_vfs_refines es v :
  vfs_wf v -> (view v [BIN] = None \/ exists b, view v [BIN] = Some (Directory, b)) -> Forall loadable es ->
  next_inode v + Z.of_nat (length es) + 1 < uint_max 64 ->
  exists k v', load_into_vfs es v = Done (Ok k, v') /\ vfs_wf v' /\ 0 <= k <= Z.of_nat (length es) /\
    (NoDup (name <$> es) -> Forall (fun e => view v [BIN; name e] = None) es -> k = Z.of_nat (length es)) /\
    forall p, Forall valid_component p -> view v' p = loaded (view v) es p.
Proof.
  intros Hwf Hbin Hes Hroom. assert (1 <= next_inode v) as Hn1.
  { destruct (wf_root v Hwf) as (i & Hi & _). apply (wf_id v Hwf) in Hi. lia. }
  assert (components BIN_PATH = [BIN]) as Hcb by reflexivity. unfold load_into_vfs. rewrite exists_view, Hcb by done.
  unfold uint_max in Hroom. destruct Hbin as [Hnone|[b Hdir]].
  - rewrite Hnone. cbn [negb]. rewrite bool_decide_eq_false_2 by (by intros [? ?]). cbn [negb].
    pose proof (create_refines BIN_PATH Directory v Hwf ltac:(unfold uint_max; lia)) as Hcr. rewrite Hcb in Hcr. unfold spec_create in Hcr.
    rewrite bool_decide_eq_false_2, Hnone in Hcr by done. cbn [length Nat.sub take] in Hcr. destruct (wf_root v Hwf) as (i & Hi & Hti & _).
    assert (view v [] = Some (Directory, i_data i)) as Hroot by (rewrite <- Hti; by apply (view_Some v [] 1)).
    rewrite Hroot in Hcr. destruct Hcr as (v1 & Hcreate & Hwf1 & Hv1). unfold create_directory. rewrite Hcreate. cbn [mbind exec_bind].
    destruct (create_fresh _ _ _ _ _ Hwf ltac:(unfold uint_max; lia) Hcreate) as (_ & Hn & _).
    assert (Forall valid_component [BIN]) as Hvb by (repeat constructor; apply BIN_valid).
    destruct (load_entries_spec es v1 0 [] Hwf1) as (k & v' & -> & Hwf' & Hk & Hall & Hv); try done; try (unfold uint_max; lia).
    { rewrite Hv1 by done. by rewrite bool_decide_eq_true_2. }
    exists k, v'. split; [done|]. split; [done|]. split; [done|]. split.
    + intros Hnd He. apply Hall; [done|]. apply Forall_forall. intros e Hin. rewrite Forall_forall in He, Hes. destruct (Hes e Hin) as [Hve _].
      rewrite Hv1 by (by apply bin_valid). rewrite bool_decide_eq_false_2 by done. by apply He.
    + intros p Hp. rewrite Hv by done. unfold loaded. rewrite Hv1 by done. case_bool_decide as Ep; [|done]. subst p. rewrite Hnone. done.
  - rewrite Hdir. cbn [negb]. destruct (load_entries_spec es v 0 b Hwf Hdir Hes) as (k & v' & -> & H); try (unfold uint_max; lia). exists k, v'. done.
Qed.
Lemma load_into_vfs_refines_witness :
  exists v', load_into_vfs [mkEntry [108; 115] [7; 8]; mkEntry [108; 115] [9]] vfs_new = Done (Ok 1, v') /\
    view v' [BIN; [108; 115]] = Some (RegularFile, [7; 8]).
Proof.
  destruct (load_into_vfs_refines [mkEntry [108; 115] [7; 8]; mkEntry [108; 115] [9]] vfs_new vfs_new_wf) as (k & v' & Hl & _ & _ & _ & Hv).
  - left. reflexivity.
  - assert (valid_component [108; 115]) as H.
    { repeat split; try discriminate. intros H. repeat (apply elem_of_cons in H as [H|H]; [discriminate H|]). by apply not_elem_of_nil in H. }
    apply Forall_cons. split; [split; [exact H|vm_compute; discriminate]|]. apply Forall_cons. split; [split; [exact H|vm_compute; discriminate]|]. apply Forall_nil. exact I.
  - vm_compute. reflexivity.
  - exists v'. split; [|rewrite Hv; [reflexivity|]].
    + rewrite Hl. do 3 f_equal. assert (exists w, load_into_vfs [mkEntry [108; 115] [7; 8]; mkEntry [108; 115] [9]] vfs_new = Done (Ok 1, w)) as [w Hw]
        by (eexists; vm_compute; reflexivity). rewrite Hl in Hw. by injection Hw.
    + apply bin_valid. repeat split; try discriminate. intros H. repeat (apply elem_of_cons in H as [H|H]; [discriminate H|]). by apply not_elem_of_nil in H.
Defined.

(** A name is a path, not a component: an entry can land outside [/bin]. *)
Example entry_escapes_bin :
  match load_into_vfs [mkEntry [46; 46; 47; 120] [1]] vfs_new with
  | Done (Ok 1, v) => exists_path [47; 120] v = true
  | _ => False
  end.
Proof. vm_compute. reflexivity. Qed.
