(* ===== verification/Syscalls.v ===== *)
(** * System-call handlers ([crates/nexacore-kernel/src/syscall_handlers.rs])

    [KernelState] owns the descriptor table, the pipe registry, the console
    buffer, the file system and the process table, and each handler is a
    method that composes their operations.  A handler that takes [&mut self]
    returns the new state; the handlers that reach a panic site of the file
    system return [exec]. *)

From S2P Require Import Prelude Kernel Fd Pipe Console ProcessTable Vfs.

Definition MAX_READ_LEN : Z := Z.shiftl 1 20.

Record KernelState := mkState {
  fd_table : FileDescriptorTable;
  pipe_registry : PipeRegistry;
  console_input : ConsoleInputBuffer;
  vfs : InMemoryVfs;
  process_table : ProcessTable;
  current_task : Z
}.

Definition with_fds (s : KernelState) (t : FileDescriptorTable) : KernelState :=
  mkState t (pipe_registry s) (console_input s) (vfs s) (process_table s) (current_task s).
Definition with_pipes (s : KernelState) (g : PipeRegistry) : KernelState :=
  mkState (fd_table s) g (console_input s) (vfs s) (process_table s) (current_task s).
Definition with_console (s : KernelState) (c : ConsoleInputBuffer) : KernelState :=
  mkState (fd_table s) (pipe_registry s) c (vfs s) (process_table s) (current_task s).
Definition with_vfs (s : KernelState) (v : InMemoryVfs) : KernelState :=
  mkState (fd_table s) (pipe_registry s) (console_input s) v (process_table s) (current_task s).
Definition with_procs (s : KernelState) (p : ProcessTable) : KernelState :=
  mkState (fd_table s) (pipe_registry s) (console_input s) (vfs s) p (current_task s).

Definition new_for_test : KernelState :=
  mkState new_with_stdio registry_new console_new vfs_new
    (register 1 None [116; 101; 115; 116] procs_new) 1.

(** [KernelState::resolve_path]: relative to the working directory of the
    current task. *)
Definition state_resolve_path (path : str) (s : KernelState) : str :=
  normalize_path (default ROOT (get_cwd (current_task s) (process_table s))) path.

(** ** Console and pipes *)

Definition handle_read_console (buf_capacity : Z) (s : KernelState) : SyscallReturn * KernelState :=
  let max := Z.min buf_capacity MAX_READ_LEN in
  let '(bs, c) := read_bytes max true (console_input s) in
  (sys_ok (Z.of_nat (length bs)), with_console s c).

Definition handle_pipe_create (s : KernelState) : SyscallReturn * KernelState :=
  let '(pipe_id, g) := Pipe.create (pipe_registry s) in
  match open (mkFd (Pipe pipe_id true) FdFlags_default) (fd_table s) with
  | (Err _, t) => (sys_err errno.ENOSPC, with_pipes (with_fds s t) (Pipe.remove pipe_id g).2)
  | (Ok rfd, t) =>
      match open (mkFd (Pipe pipe_id false) FdFlags_default) t with
      | (Err _, t') =>
          (sys_err errno.ENOSPC,
           with_pipes (with_fds s (close rfd t').2) (Pipe.remove pipe_id g).2)
      | (Ok wfd, t') => (mkRet rfd wfd, with_pipes (with_fds s t') g)
      end
  end.

(** ** Reading and writing descriptors *)

(** [if let Some(desc) = get_mut(fd) { if let FsFile { offset, .. } = &mut desc.kind { *offset = pos } }] *)
Definition set_offset (fd pos : Z) (t : FileDescriptorTable) : FileDescriptorTable :=
  match Fd.get fd t with
  | Some d =>
      match kind d with
      | FsFile inode _ fl => put_fd fd (mkFd (FsFile inode pos fl) (flags d)) t
      | _ => t
      end
  | None => t
  end.

Definition handle_fd_read (fd max_len : Z) (s : KernelState) : SyscallReturn * bytes * KernelState :=
  match Fd.get fd (fd_table s) with
  | None => (sys_err errno.EBADF, [], s)
  | Some desc =>
      let max := Z.min max_len MAX_READ_LEN in
      match kind desc with
      | Console readable _ =>
          if negb readable then (sys_err errno.EBADF, [], s)
          else
            let '(bs, c) := read_bytes max true (console_input s) in
            (sys_ok (Z.of_nat (length bs)), bs, with_console s c)
      | Pipe pipe_id is_read_end =>
          if negb is_read_end then (sys_err errno.EBADF, [], s)
          else
            match Pipe.get pipe_id (pipe_registry s) with
            | None => (sys_err errno.EBADF, [], s)
            | Some ring =>
                match Pipe.read (replicate (Z.to_nat max) 0) ring with
                | (Ok n, buf, ring') =>
                    (sys_ok n, take (Z.to_nat n) buf, with_pipes s (put_ring pipe_id ring' (pipe_registry s)))
                | (Err BrokenPipe, _, ring') =>
                    (sys_err errno.EPIPE, [], with_pipes s (put_ring pipe_id ring' (pipe_registry s)))
                end
            end
      | FsFile inode offset _ =>
          match read_file inode offset max (vfs s) with
          | Ok bs =>
              let n := Z.of_nat (length bs) in
              (sys_ok n, bs, with_fds s (set_offset fd (saturating_add 64 offset n) (fd_table s)))
          | Err NotFound => (sys_err errno.ENOENT, [], s)
          | Err _ => (sys_err errno.EIO, [], s)
          end
      | IpcChannel _ => (sys_err errno.ENOSYS, [], s)
      end
  end.

Definition handle_fd_write (fd : Z) (data : bytes) (s : KernelState) : exec (SyscallReturn * KernelState) :=
  match Fd.get fd (fd_table s) with
  | None => Done (sys_err errno.EBADF, s)
  | Some desc =>
      match kind desc with
      | Console _ writable =>
          if negb writable then Done (sys_err errno.EBADF, s)
          else Done (sys_ok (Z.of_nat (length data)), s)
      | Pipe pipe_id is_read_end =>
          if is_read_end then Done (sys_err errno.EBADF, s)
          else
            match Pipe.get pipe_id (pipe_registry s) with
            | None => Done (sys_err errno.EBADF, s)
            | Some ring =>
                match Pipe.write data ring with
                | (Ok n, ring') => Done (sys_ok n, with_pipes s (put_ring pipe_id ring' (pipe_registry s)))
                | (Err BrokenPipe, ring') =>
                    Done (sys_err errno.EPIPE, with_pipes s (put_ring pipe_id ring' (pipe_registry s)))
                end
            end
      | FsFile inode offset fl =>
          let write_offset :=
            if has_append fl then
              match file_size inode (vfs s) with Ok n => n | Err _ => offset end
            else offset in
          r ← write_file inode write_offset data (vfs s);
          match r with
          | (Ok n, v) =>
              Done (sys_ok n,
                with_fds (with_vfs s v) (set_offset fd (saturating_add 64 write_offset n) (fd_table s)))
          | (Err NotFound, v) => Done (sys_err errno.ENOENT, with_vfs s v)
          | (Err _, v) => Done (sys_err errno.EIO, with_vfs s v)
          end
      | IpcChannel _ => Done (sys_err errno.ENOSYS, s)
      end
  end.

(** ** Descriptor management *)

(** The pipe part of [handle_fd_close] and [handle_fd_dup2]: an end named by a
    descriptor is closed; the drained waiters are dropped. *)
Definition close_pipe_end (k : FdKind) (g : PipeRegistry) : PipeRegistry :=
  match k with
  | Pipe pipe_id is_read_end =>
      match Pipe.get pipe_id g with
      | Some ring =>
          put_ring pipe_id (if is_read_end then (close_read ring).2 else (close_write ring).2) g
      | None => g
      end
  | _ => g
  end.

Definition handle_fd_close (fd : Z) (s : KernelState) : SyscallReturn * KernelState :=
  match Fd.get fd (fd_table s) with
  | None => (sys_err errno.EBADF, s)
  | Some desc =>
      let s1 := with_pipes s (close_pipe_end (kind desc) (pipe_registry s)) in
      match close fd (fd_table s1) with
      | (Ok _, t) => (sys_ok 0, with_fds s1 t)
      | (Err _, t) => (sys_err errno.EBADF, with_fds s1 t)
      end
  end.

Definition handle_fd_dup (fd : Z) (s : KernelState) : SyscallReturn * KernelState :=
  match dup fd (fd_table s) with
  | (Ok new_fd, t) => (sys_ok new_fd, with_fds s t)
  | (Err _, t) => (sys_err errno.EBADF, with_fds s t)
  end.

Definition handle_fd_dup2 (old_fd new_fd : Z) (s : KernelState) : SyscallReturn * KernelState :=
  let s1 :=
    match Fd.get new_fd (fd_table s) with
    | Some existing => with_pipes s (close_pipe_end (kind existing) (pipe_registry s))
    | None => s
    end in
  match dup2 old_fd new_fd (fd_table s1) with
  | (Ok result_fd, t) => (sys_ok result_fd, with_fds s1 t)
  | (Err _, t) => (sys_err errno.EBADF, with_fds s1 t)
  end.

Definition I64_MAX : Z := 2 ^ 63 - 1.

(** [base.checked_add(offset).and_then(|v| u64::try_from(v).ok())] where
    [base] is [i64::try_from(_).unwrap_or(i64::MAX)]. *)
Definition seek_from (base offset : Z) : option Z :=
  let v := Z.min base I64_MAX + offset in
  if (v <? 0) || (I64_MAX <? v) then None else Some v.

Definition handle_fd_seek (fd offset whence : Z) (s : KernelState) : SyscallReturn * KernelState :=
  match Fd.get fd (fd_table s) with
  | None => (sys_err errno.EBADF, s)
  | Some desc =>
      match kind desc with
      | FsFile inode current_offset _ =>
          let new_offset : result Z (option Z) :=
            if whence =? 0 then Ok (if offset <? 0 then None else Some offset)
            else if whence =? 1 then Ok (seek_from current_offset offset)
            else if whence =? 2 then
              match file_size inode (vfs s) with
              | Ok size => Ok (seek_from size offset)
              | Err _ => Err errno.EIO
              end
            else Err errno.EINVAL in
          match new_offset with
          | Err e => (sys_err e, s)
          | Ok (Some pos) => (sys_ok pos, with_fds s (set_offset fd pos (fd_table s)))
          | Ok None => (sys_err errno.EINVAL, s)
          end
      | _ => (sys_err errno.ESPIPE, s)
      end
  end.

(** ** File-system calls *)

Definition open_fd_for_inode (inode open_flags : Z) (s : KernelState) : SyscallReturn * KernelState :=
  match open (mkFd (FsFile inode 0 open_flags) FdFlags_default) (fd_table s) with
  | (Ok fd, t) => (sys_ok fd, with_fds s t)
  | (Err _, t) => (sys_err errno.ENOSPC, with_fds s t)
  end.

Definition handle_fs_open (path : str) (open_flags : Z) (s : KernelState) : exec (SyscallReturn * KernelState) :=
  let abs := state_resolve_path path s in
  match stat abs (vfs s) with
  | Ok st =>
      if bool_decide (st_type st = Directory) && (is_writable open_flags || has_trunc open_flags)
      then Done (sys_err errno.EINVAL, s)
      else if has_trunc open_flags && is_writable open_flags then
        d ← delete_path abs (vfs s);
        c ← create_file abs d.2;
        match c with
        | (Ok new_inode, v) => Done (open_fd_for_inode new_inode open_flags (with_vfs s v))
        | (Err _, v) => Done (sys_err errno.EIO, with_vfs s v)
        end
      else Done (open_fd_for_inode (st_inode st) open_flags s)
  | Err NotFound =>
      if has_create open_flags then
        c ← create_file abs (vfs s);
        match c with
        | (Ok ino, v) => Done (open_fd_for_inode ino open_flags (with_vfs s v))
        | (Err AlreadyExists, v) =>
            match stat abs v with
            | Ok st => Done (open_fd_for_inode (st_inode st) open_flags (with_vfs s v))
            | Err _ => Done (sys_err errno.EIO, with_vfs s v)
            end
        | (Err (NotADirectory | InvalidPath), v) => Done (sys_err errno.EINVAL, with_vfs s v)
        | (Err _, v) => Done (sys_err errno.EIO, with_vfs s v)
        end
      else Done (sys_err errno.ENOENT, s)
  | Err NotADirectory => Done (sys_err errno.EINVAL, s)
  | Err _ => Done (sys_err errno.EIO, s)
  end.

Definition handle_fs_stat (path : str) (s : KernelState) : SyscallReturn * option (Z * Z * Z) :=
  match stat (state_resolve_path path s) (vfs s) with
  | Ok st =>
      let type_byte := match st_type st with RegularFile => 0 | Directory => 1 end in
      (sys_ok 0, Some (st_inode st, st_size st, type_byte))
  | Err NotFound => (sys_err errno.ENOENT, None)
  | Err _ => (sys_err errno.EIO, None)
  end.

Definition handle_fs_list_dir (path : str) (s : KernelState) : SyscallReturn * list str :=
  match list_directory (state_resolve_path path s) (vfs s) with
  | Ok es => (sys_ok (Z.of_nat (length es)), de_name <$> es)
  | Err NotFound => (sys_err errno.ENOENT, [])
  | Err NotADirectory => (sys_err errno.EINVAL, [])
  | Err _ => (sys_err errno.EIO, [])
  end.

(** The error codes of [handle_fs_create] and [handle_fs_mkdir]. *)
Definition create_errno (r : result VfsError Z) : SyscallReturn :=
  match r with
  | Ok _ => sys_ok 0
  | Err AlreadyExists => sys_err errno.EEXIST
  | Err NotFound => sys_err errno.ENOENT
  | Err (NotADirectory | InvalidPath) => sys_err errno.EINVAL
  | Err _ => sys_err errno.EIO
  end.

Definition handle_fs_create (path : str) (s : KernelState) : exec (SyscallReturn * KernelState) :=
  r ← create_file (state_resolve_path path s) (vfs s);
  Done (create_errno r.1, with_vfs s r.2).

Definition handle_fs_delete (path : str) (s : KernelState) : exec (SyscallReturn * KernelState) :=
  r ← delete_path (state_resolve_path path s) (vfs s);
  let ret :=
    match r.1 with
    | Ok _ => sys_ok 0
    | Err NotFound => sys_err errno.ENOENT
    | Err NotEmpty => sys_err errno.ENOTEMPTY
    | Err InvalidPath => sys_err errno.EINVAL
    | Err _ => sys_err errno.EIO
    end in
  Done (ret, with_vfs s r.2).

Definition handle_fs_mkdir (path : str) (s : KernelState) : exec (SyscallReturn * KernelState) :=
  r ← create_directory (state_resolve_path path s) (vfs s);
  Done (create_errno r.1, with_vfs s r.2).

(** ** Process calls *)

Definition handle_get_cwd (s : KernelState) : SyscallReturn * str :=
  let cwd := default ROOT (get_cwd (current_task s) (process_table s)) in
  (sys_ok (Z.of_nat (length cwd)), cwd).

Definition handle_set_cwd (path : str) (s : KernelState) : SyscallReturn * KernelState :=
  let abs := state_resolve_path path s in
  match stat abs (vfs s) with
  | Ok st =>
      if bool_decide (st_type st = Directory)
      then (sys_ok 0, with_procs s (set_cwd (current_task s) abs (process_table s)).2)
      else (sys_err errno.EINVAL, s)
  | Err NotFound => (sys_err errno.ENOENT, s)
  | Err _ => (sys_err errno.EIO, s)
  end.

(** [_child_pid] and [flags] are not used by the handler. *)
Definition handle_process_wait (child_pid wait_flags : Z) (s : KernelState) : SyscallReturn * KernelState :=
  match reap_child (current_task s) (process_table s) with
  | (Some (child_id, code), p) => (mkRet code child_id, with_procs s p)
  | (None, p) => (mkRet 0 0, with_procs s p)
  end.

Definition handle_process_list (s : KernelState) : SyscallReturn * list (Z * bytes * bool) :=
  let es := (fun e => (id e, name e, bool_decide (is_Some (exit_code e)))) <$>
              list_processes (process_table s) in
  (sys_ok (Z.of_nat (length es)), es).

Definition handle_process_kill (target_pid : Z) (s : KernelState) : SyscallReturn * KernelState :=
  match ProcessTable.get target_pid (process_table s) with
  | None => (sys_err errno.ESRCH, s)
  | Some _ => (sys_ok 0, with_procs s (record_exit target_pid 137 (process_table s)).2)
  end.

(** ** The system-call interface as a whole *)

Inductive request :=
| ReadConsole (cap : Z)
| PipeCreate
| FdRead (fd max_len : Z)
| FdWrite (fd : Z) (data : bytes)
| FdClose (fd : Z)
| FdDup (fd : Z)
| FdDup2 (old_fd new_fd : Z)
| FdSeek (fd offset whence : Z)
| FsOpen (path : str) (open_flags : Z)
| FsStat (path : str)
| FsListDir (path : str)
| FsCreate (path : str)
| FsDelete (path : str)
| FsMkdir (path : str)
| GetCwd
| SetCwd (path : str)
| ProcessWait (child_pid wait_flags : Z)
| ProcessList
| ProcessKill (pid : Z)
| ConsoleKey (byte : Z).

(** The registers and the state after a request; [ConsoleKey] is the keyboard
    driver's [push_byte]. *)
Definition serve (q : request) (s : KernelState) : exec (SyscallReturn * KernelState) :=
  match q with
  | ReadConsole cap => Done (handle_read_console cap s)
  | PipeCreate => Done (handle_pipe_create s)
  | FdRead fd n => Done ((handle_fd_read fd n s).1.1, (handle_fd_read fd n s).2)
  | FdWrite fd data => handle_fd_write fd data s
  | FdClose fd => Done (handle_fd_close fd s)
  | FdDup fd => Done (handle_fd_dup fd s)
  | FdDup2 o n => Done (handle_fd_dup2 o n s)
  | FdSeek fd o w => Done (handle_fd_seek fd o w s)
  | FsOpen p fl => handle_fs_open p fl s
  | FsStat p => Done ((handle_fs_stat p s).1, s)
  | FsListDir p => Done ((handle_fs_list_dir p s).1, s)
  | FsCreate p => handle_fs_create p s
  | FsDelete p => handle_fs_delete p s
  | FsMkdir p => handle_fs_mkdir p s
  | GetCwd => Done ((handle_get_cwd s).1, s)
  | SetCwd p => Done (handle_set_cwd p s)
  | ProcessWait c f => Done (handle_process_wait c f s)
  | ProcessList => Done ((handle_process_list s).1, s)
  | ProcessKill pid => Done (handle_process_kill pid s)
  | ConsoleKey b => Done (sys_ok 0, with_console s (push_byte b (console_input s)))
  end.

(** The registers are machine words: the argument ranges of a request. *)
Definition request_ok (q : request) : Prop :=
  match q with
  | FdDup2 _ n => in_uint 32 n
  | FdRead _ n => in_uint 64 n
  | FdSeek _ o _ => - 2 ^ 63 <= o < 2 ^ 63
  | _ => True
  end.

(** ** The kernel invariant

    Each component's own invariant, and what ties them together: a pipe
    descriptor names a registered pipe, a file cursor is a 64-bit offset, and
    every working directory is a canonical path. *)

Definition kind_ok (g : PipeRegistry) (k : FdKind) : Prop :=
  match k with
  | Pipe pid _ => is_Some (pipes g !! pid)
  | FsFile _ off _ => in_uint 64 off
  | _ => True
  end.

Definition fds_ok (g : PipeRegistry) (t : FileDescriptorTable) : Prop :=
  fd_wf t /\ forall fd d, Fd.entries t !! fd = Some d -> kind_ok g (kind d).

Definition pipes_ok (g : PipeRegistry) : Prop :=
  0 < next_id g < 2 ^ 64 /\
  forall id r, pipes g !! id = Some r ->
    0 < id < next_id g /\ ring_wf r /\ Pipe.capacity r = PIPE_CAPACITY.

Definition cwds_ok (t : ProcessTable) : Prop :=
  forall p e, ProcessTable.entries t !! p = Some e ->
    exists l, Forall valid_component l /\ cwd e = render l.

Record kernel_wf (s : KernelState) : Prop := {
  kw_fds : fds_ok (pipe_registry s) (fd_table s);
  kw_pipes : pipes_ok (pipe_registry s);
  kw_console : console_wf (console_input s);
  kw_vfs : vfs_wf (vfs s);
  kw_procs : procs_wf (process_table s);
  kw_cwds : cwds_ok (process_table s)
}.

(** Identifier counters that have not run out. *)
Definition room (s : KernelState) : Prop :=
  next_inode (vfs s) < uint_max 64 /\ next_id (pipe_registry s) < uint_max 64.

(** *** Descriptor tables *)

Lemma kind_ok_mono g g' k :
  (forall id, is_Some (pipes g !! id) -> is_Some (pipes g' !! id)) -> kind_ok g k -> kind_ok g' k.
Proof. intros Hm. destruct k; simpl; auto. Qed.

Lemma fds_ok_mono g g' t :
  (forall id, is_Some (pipes g !! id) -> is_Some (pipes g' !! id)) -> fds_ok g t -> fds_ok g' t.
Proof. intros Hm [Hwf Hk]. split; [done|]. eauto using kind_ok_mono. Qed.

Lemma open_fds_ok g d t : fds_ok g t -> kind_ok g (kind d) -> fds_ok g (open d t).2.
Proof.
  intros [Hwf Hk] Hd. split; [by apply open_wf|]. pose proof (open_ok d t Hwf) as Ho.
  destruct (open d t) as [[fd|e] t']; simpl; [|by destruct Ho as (_ & -> & _)].
  destruct Ho as (_ & _ & _ & -> & _). intros k x. rewrite lookup_insert.
  case_decide; [by intros [= <-]|apply Hk].
Qed.

Lemma close_fds_ok g fd t : fds_ok g t -> fds_ok g (close fd t).2.
Proof.
  intros [Hwf Hk]. split; [by apply close_wf|]. unfold close.
  destruct (Fd.entries t !! fd) eqn:?; [|done]. intros k x. cbn [snd Fd.entries]. rewrite lookup_delete.
  case_decide; [done|apply Hk].
Qed.

Lemma dup_fds_ok g fd t : fds_ok g t -> fds_ok g (dup fd t).2.
Proof.
  intros H. unfold dup. destruct (Fd.entries t !! fd) as [d|] eqn:E; [|done].
  apply open_fds_ok; [done|]. simpl. by eapply H.
Qed.

Lemma dup2_fds_ok g old new t : in_uint 32 new -> fds_ok g t -> fds_ok g (dup2 old new t).2.
Proof.
  intros Hn [Hwf Hk]. split; [by apply dup2_wf|]. unfold dup2.
  destruct (old =? new), (Fd.entries t !! old) as [d|] eqn:E; try done.
  intros k x. cbn [snd Fd.entries]. rewrite lookup_insert. case_decide; [intros [= <-]; exact (Hk old d E)|].
  rewrite lookup_delete. case_decide; [done|apply Hk].
Qed.

Lemma set_offset_fds_ok g fd pos t : in_uint 64 pos -> fds_ok g t -> fds_ok g (set_offset fd pos t).
Proof.
  intros Hp [Hwf Hk]. unfold set_offset, Fd.get. destruct (Fd.entries t !! fd) as [d|] eqn:E; [|done].
  destruct (kind d) eqn:Ek; try done. split; [apply put_fd_wf; eauto|].
  intros k x. cbn [put_fd Fd.entries]. rewrite lookup_insert. case_decide; [by intros [= <-]|apply Hk].
Qed.

(** *** The pipe registry *)

Lemma put_ring_ok g id r r' :
  pipes_ok g -> pipes g !! id = Some r -> ring_wf r' -> Pipe.capacity r' = PIPE_CAPACITY ->
  pipes_ok (put_ring id r' g) /\
  forall k, is_Some (pipes g !! k) -> is_Some (pipes (put_ring id r' g) !! k).
Proof.
  intros [Hn Hr] Hid Hwf Hcap. split.
  - split; [done|]. intros k x. cbn [put_ring pipes next_id]. rewrite lookup_insert.
    case_decide as E; [|apply Hr]. intros [= <-]. subst k. destruct (Hr id r Hid) as (? & _). done.
  - intros k. cbn [put_ring pipes]. rewrite lookup_insert. case_decide; eauto.
Qed.

Lemma write_capacity data r : Pipe.capacity (Pipe.write data r).2 = Pipe.capacity r.
Proof. unfold Pipe.write. cases. Qed.
Lemma read_capacity buf r : Pipe.capacity (Pipe.read buf r).2 = Pipe.capacity r.
Proof. unfold Pipe.read. cases. Qed.

Lemma close_pipe_end_ok k g :
  pipes_ok g ->
  pipes_ok (close_pipe_end k g) /\ next_id (close_pipe_end k g) = next_id g /\
  forall id, is_Some (pipes g !! id) -> is_Some (pipes (close_pipe_end k g) !! id).
Proof.
  intros Hg. unfold close_pipe_end. destruct k as [|pid b| |]; try done.
  unfold Pipe.get. destruct (pipes g !! pid) as [r|] eqn:E; [|done].
  destruct Hg as [Hn Hr]. destruct (Hr pid r E) as (? & ? & ?).
  destruct (put_ring_ok g pid r (if b then (close_read r).2 else (close_write r).2)) as [? ?];
    [done..|by destruct b|by destruct b|]. done.
Qed.

Lemma create_ok g :
  pipes_ok g -> next_id g < uint_max 64 ->
  pipes_ok (Pipe.create g).2 /\ next_id (Pipe.create g).2 = next_id g + 1 /\
  pipes g !! next_id g = None /\
  forall k, is_Some (pipes g !! k) -> is_Some (pipes (Pipe.create g).2 !! k).
Proof.
  intros [Hn Hr] Hroom. unfold uint_max in Hroom. unfold Pipe.create. cbn [snd fst next_id pipes].
  unfold wrapping_add. rewrite Z.mod_small by lia.
  assert (Hf : pipes g !! next_id g = None).
  { destruct (pipes g !! next_id g) eqn:E; [|done]. apply Hr in E. lia. }
  split_and!; [|done..|].
  - split; cbn [next_id pipes]; [lia|]. intros k x. rewrite lookup_insert. case_decide as E.
    + intros [= <-]. subst k. split_and!; [lia|lia|done|done].
    + intros Hx. destruct (Hr k x Hx) as (? & ? & ?). split_and!; [lia|lia|done|done].
  - intros k. rewrite lookup_insert. case_decide; eauto.
Qed.

Lemma remove_create g : pipes g !! next_id g = None -> pipes (Pipe.remove (next_id g) (Pipe.create g).2).2 = pipes g.
Proof. intros Hf. simpl. by rewrite delete_insert_eq, delete_id. Qed.

(** *** Working directories *)

Lemma cwds_update t p e c :
  cwds_ok t -> ProcessTable.entries t !! p = Some e ->
  (exists l, Forall valid_component l /\ c = render l) ->
  forall i pa ch ec nm, cwds_ok (mkProcs (<[p := mkEntry i pa ch ec c nm]> (ProcessTable.entries t))).
Proof.
  intros Ht He Hc i pa ch ec nm k x. cbn [ProcessTable.entries]. rewrite lookup_insert.
  case_decide; [by intros [= <-]|apply Ht].
Qed.

Lemma record_exit_cwds tid code t : cwds_ok t -> cwds_ok (record_exit tid code t).2.
Proof.
  intros Ht. unfold record_exit. destruct (ProcessTable.entries t !! tid) as [e|] eqn:E; [|done].
  eapply cwds_update; [done|done|]. by apply (Ht tid).
Qed.

Lemma set_cwd_cwds tid base path t :
  cwds_ok t -> cwds_ok (set_cwd tid (normalize_path base path) t).2.
Proof.
  intros Ht. unfold set_cwd. destruct (ProcessTable.entries t !! tid) as [e|] eqn:E; [|done].
  eapply cwds_update; [done|done|]. destruct (normalize_valid base path) as (l & ? & ->). eauto.
Qed.

Lemma reap_child_cwds p t : cwds_ok t -> cwds_ok (reap_child p t).2.
Proof.
  intros Ht. unfold reap_child. destruct (ProcessTable.entries t !! p) as [e|]; [|done].
  destruct (find_exited _ _) as [[c code]|]; [|done]. cbn [snd].
  assert (Hd : cwds_ok (mkProcs (delete c (ProcessTable.entries t)))).
  { intros k x. cbn [ProcessTable.entries]. rewrite lookup_delete. case_decide; [done|apply Ht]. }
  destruct (delete c (ProcessTable.entries t) !! p) as [pe|] eqn:E; [|done].
  unfold with_children.
  refine (cwds_update (mkProcs (delete c (ProcessTable.entries t))) p pe (cwd pe) Hd E _ _ _ _ _ _).
  exact (Hd p pe E).
Qed.

#[export] Hint Resolve open_fds_ok close_fds_ok dup_fds_ok dup2_fds_ok set_offset_fds_ok
  record_exit_cwds set_cwd_cwds reap_child_cwds read_bytes_wf push_byte_wf
  record_exit_wf set_cwd_wf reap_child_wf : nexa.

(** *** Every handler *)

(** What one handler call guarantees about the state it leaves. *)
Definition good_step (s s' : KernelState) : Prop :=
  kernel_wf s' /\ next_inode (vfs s') <= next_inode (vfs s) + 1 /\
  next_id (pipe_registry s') <= next_id (pipe_registry s) + 1.

Lemma good_refl s : kernel_wf s -> good_step s s.
Proof. intros H. split_and!; [done|lia..]. Qed.

Lemma good_fds s t :
  kernel_wf s -> fds_ok (pipe_registry s) t -> good_step s (with_fds s t).
Proof. intros [] Ht. split_and!; [by constructor|simpl; lia..]. Qed.

Lemma good_vfs s v :
  kernel_wf s -> vfs_wf v -> next_inode v <= next_inode (vfs s) + 1 -> good_step s (with_vfs s v).
Proof. intros [] Hv Hn. split_and!; [by constructor|simpl; lia..]. Qed.

Lemma good_vfs_fds s v t :
  kernel_wf s -> vfs_wf v -> next_inode v <= next_inode (vfs s) + 1 -> fds_ok (pipe_registry s) t ->
  good_step s (with_fds (with_vfs s v) t).
Proof. intros [] Hv Hn Ht. split_and!; [by constructor|simpl; lia..]. Qed.

Lemma good_procs s p :
  kernel_wf s -> procs_wf p -> cwds_ok p -> good_step s (with_procs s p).
Proof. intros [] ? ?. split_and!; [by constructor|simpl; lia..]. Qed.

Lemma good_console s c : kernel_wf s -> console_wf c -> good_step s (with_console s c).
Proof. intros [] ?. split_and!; [by constructor|simpl; lia..]. Qed.

Lemma good_pipes s g :
  kernel_wf s -> pipes_ok g -> next_id g <= next_id (pipe_registry s) + 1 ->
  (forall id, is_Some (pipes (pipe_registry s) !! id) -> is_Some (pipes g !! id)) ->
  good_step s (with_pipes s g).
Proof.
  intros [] Hg Hn Hm. split_and!; [|simpl; lia..]. constructor; try done. by eapply fds_ok_mono.
Qed.

Lemma good_pipes_fds s g t :
  kernel_wf s -> pipes_ok g -> next_id g <= next_id (pipe_registry s) + 1 -> fds_ok g t ->
  good_step s (with_pipes (with_fds s t) g).
Proof. intros [] Hg Hn Ht. split_and!; [by constructor|simpl; lia..]. Qed.

#[export] Hint Resolve good_refl : nexa.

Lemma in_uint_saturating w a b : 0 <= w -> 0 <= a -> 0 <= b -> in_uint w (saturating_add w a b).
Proof.
  intros Hw Ha Hb. unfold in_uint, saturating_add, uint_max.
  pose proof (Z.pow_pos_nonneg 2 w). lia.
Qed.

Lemma fs_offset s fd d ino off fl :
  kernel_wf s -> Fd.get fd (fd_table s) = Some d -> kind d = FsFile ino off fl -> in_uint 64 off.
Proof. intros Hs Hd Hk. destruct (kw_fds s Hs) as [_ H]. specialize (H fd d Hd). by rewrite Hk in H. Qed.

Lemma fs_ring s id r :
  kernel_wf s -> Pipe.get id (pipe_registry s) = Some r -> ring_wf r /\ Pipe.capacity r = PIPE_CAPACITY.
Proof. intros Hs Hr. destruct (kw_pipes s Hs) as [_ H]. by destruct (H id r Hr) as (_ & ? & ?). Qed.

Lemma good_put_ring s id r r' :
  kernel_wf s -> Pipe.get id (pipe_registry s) = Some r -> ring_wf r' -> Pipe.capacity r' = PIPE_CAPACITY ->
  good_step s (with_pipes s (put_ring id r' (pipe_registry s))).
Proof.
  intros Hs Hr Hwf Hc. destruct (put_ring_ok _ id r r' (kw_pipes s Hs) Hr Hwf Hc) as [? ?].
  apply good_pipes; [done|done|simpl; lia|done].
Qed.

Lemma read_console_good cap s : kernel_wf s -> good_step s (handle_read_console cap s).2.
Proof.
  intros Hs. unfold handle_read_console.
  destruct (read_bytes _ _ _) as [bs c] eqn:E. apply good_console; [done|].
  replace c with (read_bytes (Z.min cap MAX_READ_LEN) true (console_input s)).2 by (by rewrite E).
  apply read_bytes_wf. apply Hs.
Qed.

Lemma fd_read_good fd n s : kernel_wf s -> good_step s (handle_fd_read fd n s).2.
Proof.
  intros Hs. unfold handle_fd_read. destruct (Fd.get fd (fd_table s)) as [d|] eqn:Ed; [|by apply good_refl].
  destruct (kind d) as [rd wr|pid rend|ino off fl|ch] eqn:Ek.
  - destruct rd; [|by apply good_refl]. pose proof (read_console_good n s Hs) as H.
    unfold handle_read_console in H. by destruct (read_bytes _ _ _).
  - destruct rend; [|by apply good_refl]. destruct (Pipe.get pid _) as [r|] eqn:Er; [|by apply good_refl].
    destruct (fs_ring s pid r Hs Er) as [Hwf Hcap].
    pose proof (read_wf (replicate (Z.to_nat (Z.min n MAX_READ_LEN)) 0) r Hwf) as Hw.
    pose proof (read_capacity (replicate (Z.to_nat (Z.min n MAX_READ_LEN)) 0) r) as Hc.
    destruct (Pipe.read _ r) as [[[k|[]] buf] r'] eqn:E; simpl in *; apply (good_put_ring s pid r r');
      done || congruence.
  - destruct (read_file _ _ _ _) as [bs|[]]; try by apply good_refl.
    apply good_fds; [done|]. apply set_offset_fds_ok; [|apply Hs].
    pose proof (fs_offset s fd d ino off fl Hs Ed Ek) as Hoff. unfold in_uint in Hoff. apply in_uint_saturating; lia.
  - by apply good_refl.
Qed.

Lemma fd_write_good fd data s ret s' :
  kernel_wf s -> handle_fd_write fd data s = Done (ret, s') -> good_step s s'.
Proof.
  intros Hs. unfold handle_fd_write.
  destruct (Fd.get fd (fd_table s)) as [d|] eqn:Ed; [|intros [= _ <-]; by apply good_refl].
  destruct (kind d) as [rd wr|pid rend|ino off fl|ch] eqn:Ek.
  - destruct wr; intros [= _ <-]; by apply good_refl.
  - destruct rend; [intros [= _ <-]; by apply good_refl|].
    destruct (Pipe.get pid _) as [r|] eqn:Er; [|intros [= _ <-]; by apply good_refl].
    destruct (fs_ring s pid r Hs Er) as [Hwf Hcap].
    pose proof (write_wf data r Hwf) as Hw. pose proof (write_capacity data r) as Hc.
    destruct (Pipe.write data r) as [[k|[]] r'] eqn:E; simpl in *; intros [= _ <-];
      apply (good_put_ring s pid r r'); done || congruence.
  - set (wo := if has_append fl then _ else _).
    assert (Hwo : 0 <= wo).
    { pose proof (fs_offset s fd d ino off fl Hs Ed Ek) as Hoff. unfold in_uint in Hoff. subst wo.
      destruct (has_append fl); [|lia]. unfold file_size.
      destruct (inodes (vfs s) !! ino) as [i|]; simpl; [|lia]. case_bool_decide; lia. }
    destruct (write_file ino wo data (vfs s)) as [[r v]|] eqn:E; simpl; [|done].
    destruct (write_file_wf _ _ _ _ _ _ (kw_vfs s Hs) E) as [Hv (Hnx & _)].
    destruct r as [n|e].
    + intros [= _ <-]. apply good_vfs_fds; [done|done|lia|].
      apply set_offset_fds_ok; [|apply Hs]. apply in_uint_saturating; [lia|lia|].
      revert E. unfold write_file. destruct (inodes (vfs s) !! ino); [|done].
      case_bool_decide; [done|]. case_bool_decide; [intros [= <- _]; lia|].
      destruct (if _ <? _ then _ else _); simpl; [|done]. intros [= <- _]. lia.
    + destruct e; intros [= _ <-]; apply good_vfs; done || lia.
  - intros [= _ <-]. by apply good_refl.
Qed.

Lemma pipe_create_good s : kernel_wf s -> room s -> good_step s (handle_pipe_create s).2.
Proof.
  intros Hs [_ Hroom]. unfold handle_pipe_create.
  destruct (create_ok _ (kw_pipes s Hs) Hroom) as (Hg & Hn & Hfree & Hm).
  pose proof (remove_create (pipe_registry s) Hfree) as Hrem.
  set (g' := (Pipe.remove (next_id (pipe_registry s)) (Pipe.create (pipe_registry s)).2).2) in *.
  assert (Hg' : pipes_ok g').
  { destruct Hg as [? Hg]. destruct (kw_pipes s Hs) as [_ Hold]. split; [done|]. intros k r Hk.
    rewrite Hrem in Hk. destruct (Hold k r Hk) as (? & ? & ?). unfold g'. simpl.
    simpl in Hn. rewrite Hn. split_and!; done || lia. }
  assert (Hmono : fds_ok (Pipe.create (pipe_registry s)).2 (fd_table s))
    by (eapply fds_ok_mono; [exact Hm|apply Hs]).
  set (rd := mkFd (Pipe (next_id (pipe_registry s)) true) FdFlags_default).
  set (wd := mkFd (Pipe (next_id (pipe_registry s)) false) FdFlags_default).
  assert (Hkind : forall b, kind_ok (Pipe.create (pipe_registry s)).2 (Pipe (next_id (pipe_registry s)) b)).
  { intros b. simpl. rewrite lookup_insert_eq. eauto. }
  pose proof (open_ok rd (fd_table s) (proj1 (kw_fds s Hs))) as Ho.
  pose proof (open_fds_ok _ rd _ Hmono (Hkind true)) as Ht. simpl.
  fold rd wd. change (_, mkRegistry _ _).2 with (Pipe.create (pipe_registry s)).2.
  destruct (open rd (fd_table s)) as [[rfd|e] t]; cbn [snd] in Ht.
  - destruct Ho as (_ & Hvac & _ & Hent & _).
    pose proof (open_ok wd t (proj1 Ht)) as Ho2. pose proof (open_fds_ok _ wd _ Ht (Hkind false)) as Ht2.
    destruct (open wd t) as [[wfd|e] t']; cbn [snd] in Ht2.
    + apply good_pipes_fds; [done|exact Hg|simpl in Hn |- *; lia|exact Ht2].
    + destruct Ho2 as (_ & -> & _).
      apply (good_pipes_fds s g'); [done|exact Hg'|unfold g'; simpl in Hn |- *; lia|].
      split; [by apply close_wf; apply Ht|]. intros fd d.
      unfold close. rewrite Hent, lookup_insert_eq. cbn [snd Fd.entries].
      rewrite delete_insert_id by done. intros Hd.
      eapply kind_ok_mono; [|by eapply (proj2 (kw_fds s Hs))]. intros k. by rewrite Hrem.
  - destruct Ho as (_ & -> & _). apply (good_pipes_fds s g'); [done|exact Hg'|unfold g'; simpl in Hn |- *; lia|].
    eapply fds_ok_mono; [|apply Hs]. intros k. by rewrite Hrem.
Qed.

Lemma fd_close_good fd s : kernel_wf s -> good_step s (handle_fd_close fd s).2.
Proof.
  intros Hs. unfold handle_fd_close. destruct (Fd.get fd _) as [d|]; [|by apply good_refl].
  destruct (close_pipe_end_ok (kind d) _ (kw_pipes s Hs)) as (Hg & Hn & Hm).
  pose proof (close_fds_ok _ fd _ (fds_ok_mono _ _ _ Hm (kw_fds s Hs))) as Hc.
  cbn [with_pipes fd_table]. destruct (close fd (fd_table s)) as [[]];
    (apply (good_pipes_fds s (close_pipe_end (kind d) (pipe_registry s))); [done|done|lia|done]).
Qed.

Lemma fd_dup_good fd s : kernel_wf s -> good_step s (handle_fd_dup fd s).2.
Proof.
  intros Hs. unfold handle_fd_dup. pose proof (dup_fds_ok _ fd _ (kw_fds s Hs)) as H.
  destruct (dup fd _) as [[]]; by apply good_fds.
Qed.

Lemma fd_dup2_good old new s : in_uint 32 new -> kernel_wf s -> good_step s (handle_fd_dup2 old new s).2.
Proof.
  intros Hnew Hs. unfold handle_fd_dup2.
  set (g := match Fd.get new (fd_table s) with Some d => close_pipe_end (kind d) (pipe_registry s) | None => pipe_registry s end).
  assert (Hg : pipes_ok g /\ next_id g = next_id (pipe_registry s) /\
            forall id, is_Some (pipes (pipe_registry s) !! id) -> is_Some (pipes g !! id)).
  { subst g. destruct (Fd.get new _); [apply close_pipe_end_ok|split_and!; try done]; apply Hs. }
  destruct Hg as (Hg & Hn & Hm).
  replace (match Fd.get new (fd_table s) with Some _ => _ | None => s end) with (with_pipes s g)
    by (subst g; destruct (Fd.get new _); by destruct s).
  cbn [with_pipes fd_table].
  pose proof (dup2_fds_ok g old new _ Hnew (fds_ok_mono _ _ _ Hm (kw_fds s Hs))) as Hd.
  destruct (dup2 old new _) as [[]]; (apply (good_pipes_fds s g); [done|done|lia|done]).
Qed.

Lemma seek_from_range base offset pos : seek_from base offset = Some pos -> in_uint 64 pos.
Proof.
  unfold seek_from, I64_MAX, in_uint. cbv zeta. case_code; [done|]. intros [= <-]. zbool. lia.
Qed.

Lemma fd_seek_good fd off whence s :
  - 2 ^ 63 <= off < 2 ^ 63 -> kernel_wf s -> good_step s (handle_fd_seek fd off whence s).2.
Proof.
  intros Ho Hs. unfold handle_fd_seek. destruct (Fd.get fd _) as [d|] eqn:Ed; [|by apply good_refl].
  destruct (kind d) as [| |ino cur fl|] eqn:Ek; try by apply good_refl. cbv zeta.
  set (r := if whence =? 0 then _ else _).
  assert (Hr : forall pos, r = Ok (Some pos) -> in_uint 64 pos).
  { intros pos. subst r. destruct (whence =? 0).
    - destruct (off <? 0) eqn:E; [done|]. intros [= <-]. zbool. unfold in_uint. lia.
    - destruct (whence =? 1); [intros [= H]; by eapply seek_from_range|].
      destruct (whence =? 2); [|done]. destruct (file_size _ _); [|done].
      intros [= H]. by eapply seek_from_range. }
  destruct r as [[pos|]|e]; try by apply good_refl.
  apply good_fds; [done|]. apply set_offset_fds_ok; [by apply Hr|apply Hs].
Qed.

Lemma open_inode_good ino fl s v :
  kernel_wf s -> vfs_wf v -> next_inode v <= next_inode (vfs s) + 1 ->
  good_step s (open_fd_for_inode ino fl (with_vfs s v)).2.
Proof.
  intros Hs Hv Hn. unfold open_fd_for_inode. cbn [with_vfs fd_table].
  pose proof (open_fds_ok (pipe_registry s) (mkFd (FsFile ino 0 fl) FdFlags_default) (fd_table s) (kw_fds s Hs)) as Ho.
  destruct (open _ _) as [[]]; apply (good_vfs_fds s); try done; by apply Ho.
Qed.

Lemma create_next path ft s r v :
  kernel_wf s -> room s -> create_entry path ft (vfs s) = Done (r, v) ->
  vfs_wf v /\ next_inode v <= next_inode (vfs s) + 1.
Proof.
  intros Hs [Hroom _] E. split; [by eapply create_entry_wf; [apply Hs|..]|].
  destruct (create_entry_next _ _ _ _ _ E); lia.
Qed.

Lemma delete_path_next path v r v' : delete_path path v = Done (r, v') -> next_inode v' = next_inode v.
Proof.
  unfold delete_path. case_bool_decide; [by intros [= _ <-]|].
  destruct (resolve_path _ v) as [id|]; [|by intros [= _ <-]].
  destruct (inodes v !! id) as [t|]; [|by intros [= _ <-]].
  destruct (_ && _); [by intros [= _ <-]|]. destruct (i_parent t); [|by intros [= _ <-]].
  destruct (rfind_slash _); [by intros [= _ <-]|done].
Qed.

Lemma good_open_inode ino fl s : kernel_wf s -> good_step s (open_fd_for_inode ino fl s).2.
Proof.
  intros Hs. pose proof (open_inode_good ino fl s (vfs s) Hs (kw_vfs s Hs) ltac:(lia)) as H. by destruct s.
Qed.

Lemma fs_open_good path fl s ret s' :
  kernel_wf s -> room s -> handle_fs_open path fl s = Done (ret, s') -> good_step s s'.
Proof.
  intros Hs Hr. unfold handle_fs_open. set (abs := state_resolve_path path s). cbv zeta.
  destruct (stat abs (vfs s)) as [st|e].
  - destruct (_ && _); [intros [= _ <-]; by apply good_refl|].
    destruct (_ && _).
    + destruct (delete_path abs (vfs s)) as [[r1 v1]|] eqn:E1; simpl; [|done].
      pose proof (delete_path_wf _ _ _ _ (kw_vfs s Hs) E1) as Hv1. pose proof (delete_path_next _ _ _ _ E1) as Hn1.
      unfold create_file. destruct (create_entry abs RegularFile v1) as [[r2 v2]|] eqn:E2; simpl; [|done].
      destruct Hr as [Hr _].
      assert (Hv2 : vfs_wf v2) by (eapply create_entry_wf; [exact Hv1|lia|exact E2]).
      assert (Hn2 : next_inode v2 <= next_inode (vfs s) + 1)
        by (destruct (create_entry_next _ _ _ _ _ E2); lia).
      destruct r2; intros [= H]; [replace s' with (open_fd_for_inode a fl (with_vfs s v2)).2 by (by rewrite H)|subst s'].
      * by apply open_inode_good.
      * by apply good_vfs.
    + intros [= H]. replace s' with (open_fd_for_inode (st_inode st) fl s).2 by (by rewrite H).
      by apply good_open_inode.
  - destruct e; try (intros [= _ <-]; by apply good_refl).
    destruct (has_create fl); [|intros [= _ <-]; by apply good_refl].
    unfold create_file. destruct (create_entry abs RegularFile (vfs s)) as [[r2 v2]|] eqn:E2; simpl; [|done].
    destruct (create_next _ _ s _ _ Hs Hr E2) as [Hv2 Hn2].
    assert (Ho : forall ino, Done (open_fd_for_inode ino fl (with_vfs s v2)) = Done (ret, s') -> good_step s s').
    { intros ino [= H]. replace s' with (open_fd_for_inode ino fl (with_vfs s v2)).2 by (by rewrite H).
      by apply open_inode_good. }
    destruct r2 as [ino|[]]; try (intros [= _ <-]; by apply good_vfs); [apply Ho|].
    destruct (stat abs v2); [apply Ho|intros [= _ <-]; by apply good_vfs].
Qed.

Lemma fs_create_good path ft s r v :
  kernel_wf s -> room s -> create_entry path ft (vfs s) = Done (r, v) -> good_step s (with_vfs s v).
Proof. intros Hs Hr E. destruct (create_next _ _ s _ _ Hs Hr E). by apply good_vfs. Qed.

Lemma serve_good q s ret s' :
  kernel_wf s -> room s -> request_ok q -> serve q s = Done (ret, s') -> good_step s s'.
Proof.
  intros Hs Hr Hq.
  assert (Hd : forall p : SyscallReturn * KernelState, Done p = Done (ret, s') -> good_step s p.2 -> good_step s s')
    by (by intros p [= ->]).
  destruct q; simpl; try (intros [= _ <-]; by apply good_refl).
  - intros H. eapply Hd; [exact H|]. by apply read_console_good.
  - intros H. eapply Hd; [exact H|]. by apply pipe_create_good.
  - intros [= _ <-]. by apply fd_read_good.
  - by apply fd_write_good.
  - intros H. eapply Hd; [exact H|]. by apply fd_close_good.
  - intros H. eapply Hd; [exact H|]. by apply fd_dup_good.
  - intros H. eapply Hd; [exact H|]. by apply fd_dup2_good.
  - intros H. eapply Hd; [exact H|]. by apply fd_seek_good.
  - by apply fs_open_good.
  - unfold handle_fs_create, create_file. destruct (create_entry _ _ _) as [[r v]|] eqn:E; simpl; [|done].
    intros [= _ <-]. by eapply fs_create_good.
  - unfold handle_fs_delete. destruct (delete_path _ _) as [[r v]|] eqn:E; simpl; [|done].
    intros [= _ <-]. apply good_vfs; [done|by eapply delete_path_wf; [apply Hs|]|].
    rewrite (delete_path_next _ _ _ _ E). lia.
  - unfold handle_fs_mkdir, create_directory. destruct (create_entry _ _ _) as [[r v]|] eqn:E; simpl; [|done].
    intros [= _ <-]. by eapply fs_create_good.
  - unfold handle_set_cwd. destruct (stat _ _) as [st|[]]; try (intros [= _ <-]; by apply good_refl).
    case_bool_decide; intros [= _ <-]; [|by apply good_refl].
    apply good_procs; [done|apply set_cwd_wf, Hs|apply set_cwd_cwds, Hs].
  - unfold handle_process_wait.
    pose proof (reap_child_wf (current_task s) _ (kw_procs s Hs)).
    pose proof (reap_child_cwds (current_task s) _ (kw_cwds s Hs)).
    destruct (reap_child _ _) as [[[]|] p]; intros [= _ <-]; by apply good_procs.
  - unfold handle_process_kill. destruct (ProcessTable.get _ _); intros [= _ <-]; [|by apply good_refl].
    apply good_procs; [done|apply record_exit_wf, Hs|apply record_exit_cwds, Hs].
  - intros [= _ <-]. apply good_console; [done|]. apply push_byte_wf, Hs.
Qed.

(** ** Panics *)

Lemma resolve_parent_no_panic path v : resolve_parent path v <> Panic.
Proof.
  destruct (components path) as [|c l _] eqn:E using rev_ind.
  - by rewrite resolve_parent_root.
  - by rewrite (resolve_parent_snoc path l c v E).
Qed.

Lemma create_entry_no_panic path ft v : create_entry path ft v <> Panic.
Proof.
  unfold create_entry. pose proof (resolve_parent_no_panic path v).
  destruct (resolve_parent path v) as [[[pid c]|]|]; simpl; [|done|done].
  destruct (inodes v !! pid); [|done]. by case_bool_decide.
Qed.

Lemma delete_path_no_panic path v : delete_path path v <> Panic.
Proof.
  unfold delete_path. rewrite normalize_root. pose proof (components_valid path) as Hp.
  case_bool_decide as E; [done|]. destruct (resolve_path _ v) as [id|]; [|done].
  destruct (inodes v !! id) as [t|]; [|done]. destruct (_ && _); [done|]. destruct (i_parent t); [|done].
  destruct (components path) as [|c l _] using rev_ind; [by destruct E|].
  apply snoc_valid in Hp as [_ Hc]. destruct (render_child_name l c) as [-> _]; [apply Hc|done].
Qed.

Lemma write_file_panic ino off data v :
  write_file ino off data v = Panic <->
  exists i, inodes v !! ino = Some i /\ i_type i = RegularFile /\ data <> [] /\
    Z.of_nat (length (i_data i)) < saturating_add 64 off (Z.of_nat (length data)) /\
    ISIZE_MAX < saturating_add 64 off (Z.of_nat (length data)).
Proof.
  unfold write_file. destruct (inodes v !! ino) as [i|]; [|split; [done|by intros (? & ? & _)]].
  case_bool_decide as Hd; [split; [done|intros (? & [= <-] & ? & _); congruence]|].
  case_bool_decide as He; [split; [done|by intros (? & _ & _ & ? & _)]|]. cbv zeta.
  set (e := saturating_add _ _ _). unfold resize.
  destruct (_ <? e) eqn:E1; zbool; [|split; [done|intros (? & [= <-] & _ & _ & ? & _); lia]].
  destruct (ISIZE_MAX <? e) eqn:E2; zbool; simpl.
  - split; [|done]. intros _. exists i. split_and!; [done|by destruct (i_type i)|done..].
  - split; [done|]. intros (? & _ & _ & _ & _ & ?). lia.
Qed.

(** ** Sequences of requests *)

Fixpoint run (qs : list request) (s : KernelState) : exec KernelState :=
  match qs with
  | [] => Done s
  | q :: qs => r ← serve q s; run qs r.2
  end.

Lemma run_good qs s s' :
  Forall request_ok qs -> kernel_wf s ->
  next_inode (vfs s) + Z.of_nat (length qs) <= uint_max 64 ->
  next_id (pipe_registry s) + Z.of_nat (length qs) <= uint_max 64 ->
  run qs s = Done s' -> kernel_wf s'.
Proof.
  intros Hq. revert s. induction Hq as [|q qs Hq _ IH]; intros s Hs H1 H2; simpl.
  { by intros [= <-]. }
  simpl in H1, H2. destruct (serve q s) as [[ret s1]|] eqn:E; simpl; [|done].
  destruct (serve_good q s ret s1 Hs) as (Hs1 & Hi & Hp); [split; lia|done|done|].
  apply IH; [done|lia|lia].
Qed.

Lemma new_for_test_wf : kernel_wf new_for_test.
Proof.
  constructor.
  - split; [apply new_with_stdio_wf|]. intros fd d. cbn [new_for_test fd_table new_with_stdio Fd.entries].
    rewrite !lookup_insert, lookup_empty. by repeat (case_decide; [by intros [= <-]|]).
  - split; [vm_compute; done|]. intros k r. cbn [new_for_test pipe_registry registry_new pipes].
    by rewrite lookup_empty.
  - split; vm_compute; done.
  - apply vfs_new_wf.
  - apply register_wf; [apply procs_new_wf| |done]. split; [done|]. intros p e. cbn [procs_new ProcessTable.entries].
    by rewrite lookup_empty.
  - intros p e. cbn [new_for_test process_table register procs_new ProcessTable.entries].
    rewrite lookup_insert, lookup_empty. case_decide; [intros [= <-]|done]. exists []. by split; [constructor|].
Qed.

(** ** Per-call lemmas used by the properties *)

Lemma set_offset_lookup fd pos t d ino off fl :
  Fd.get fd t = Some d -> kind d = FsFile ino off fl ->
  Fd.get fd (set_offset fd pos t) = Some (mkFd (FsFile ino pos fl) (flags d)).
Proof.
  intros Hd Hk. unfold set_offset. rewrite Hd, Hk. unfold Fd.get. cbn [put_fd Fd.entries]. apply lookup_insert_eq.
Qed.

Lemma open_at_cursor d t :
  fd_wf t -> Fd.entries t !! next_fd t = None ->
  exists t', open d t = (Ok (next_fd t), t') /\ Fd.entries t' = <[next_fd t := d]> (Fd.entries t) /\
    next_fd t' = Z.min (2 ^ 32 - 1) (next_fd t + 1).
Proof.
  intros Hwf Hv. pose proof (open_ok d t Hwf) as H. destruct (open d t) as [[fd|e] t'].
  - destruct H as (H1 & _ & H2 & H3 & H4). assert (fd = next_fd t) as ->; [|eauto].
    destruct (decide (fd = next_fd t)) as [|Hne]; [done|].
    destruct (H2 (next_fd t) ltac:(lia)) as [? ?]. congruence.
  - destruct H as (_ & _ & H). destruct (H (next_fd t)) as [? ?]; [|congruence].
    destruct Hwf as [_ Hn]. unfold in_uint in Hn. lia.
Qed.

Lemma pipe_create_ok s :
  kernel_wf s -> room s ->
  let r := next_fd (fd_table s) in
  r + 1 < 2 ^ 32 -> Fd.entries (fd_table s) !! r = None -> Fd.entries (fd_table s) !! (r + 1) = None ->
  exists s1 pid, handle_pipe_create s = (mkRet r (r + 1), s1) /\
    Fd.get r (fd_table s1) = Some (mkFd (Pipe pid true) FdFlags_default) /\
    Fd.get (r + 1) (fd_table s1) = Some (mkFd (Pipe pid false) FdFlags_default) /\
    Pipe.get pid (pipe_registry s1) = Some ring_new.
Proof.
  intros Hs [_ Hroom] r Hr Hv1 Hv2. set (pid := next_id (pipe_registry s)).
  destruct (open_at_cursor (mkFd (Pipe pid true) FdFlags_default) (fd_table s) (proj1 (kw_fds s Hs)) Hv1)
    as (t1 & Ho1 & He1 & Hn1). fold r in Ho1, He1, Hn1. rewrite Z.min_r in Hn1 by lia.
  assert (Hwf1 : fd_wf t1).
  { pose proof (open_wf (mkFd (Pipe pid true) FdFlags_default) _ (proj1 (kw_fds s Hs))) as H. by rewrite Ho1 in H. }
  destruct (open_at_cursor (mkFd (Pipe pid false) FdFlags_default) t1 Hwf1) as (t2 & Ho2 & He2 & _).
  { rewrite Hn1, He1, lookup_insert_ne by lia. done. }
  rewrite Hn1 in Ho2, He2.
  eexists _, pid. split; [unfold handle_pipe_create, Pipe.create; fold pid; rewrite Ho1, Ho2; reflexivity|].
  cbn [with_pipes with_fds fd_table pipe_registry]. unfold Fd.get. split_and!.
  - rewrite He2, lookup_insert_ne, He1, lookup_insert_eq by lia. done.
  - by rewrite He2, lookup_insert_eq.
  - apply lookup_insert_eq.
Qed.

Lemma fd_write_pipe fd d pid r data s :
  Fd.get fd (fd_table s) = Some d -> kind d = Pipe pid false ->
  Pipe.get pid (pipe_registry s) = Some r ->
  handle_fd_write fd data s =
    Done (match (Pipe.write data r).1 with Ok n => sys_ok n | Err _ => sys_err errno.EPIPE end,
          with_pipes s (put_ring pid (Pipe.write data r).2 (pipe_registry s))).
Proof.
  intros Hd Hk Hr. unfold handle_fd_write. rewrite Hd, Hk, Hr.
  by destruct (Pipe.write data r) as [[n|[]] r'].
Qed.

Lemma fd_write_file fd d ino off fl data s i :
  Fd.get fd (fd_table s) = Some d -> kind d = FsFile ino off fl ->
  inodes (vfs s) !! ino = Some i -> i_type i = RegularFile -> data <> [] ->
  let wo := if has_append fl then Z.of_nat (length (i_data i)) else off in
  0 <= wo -> wo + Z.of_nat (length data) <= ISIZE_MAX ->
  exists out,
    handle_fd_write fd data s =
      Done (sys_ok (Z.of_nat (length data)),
        with_fds (with_vfs s (mkVfs (<[ino := set_data out i]> (inodes (vfs s))) (next_inode (vfs s))))
          (set_offset fd (wo + Z.of_nat (length data)) (fd_table s))) /\
    out = splice (i_data i ++ replicate (Z.to_nat wo + length data - length (i_data i)) 0) (Z.to_nat wo) data.
Proof.
  intros Hd Hk Hi Hty Hne wo Hwo Hmax. unfold handle_fd_write. rewrite Hd, Hk.
  replace (if has_append fl then _ else off) with wo.
  2: { subst wo. destruct (has_append fl); [|done]. unfold file_size. rewrite Hi. simpl. by rewrite Hty. }
  destruct (write_file_ok ino wo data (vfs s) i Hi Hty Hne Hwo Hmax) as (out & -> & Hout).
  exists out. split; [|done]. simpl. unfold saturating_add, uint_max, ISIZE_MAX in *.
  by rewrite Z.min_r by lia.
Qed.

Lemma stat_absent path v l c pid d :
  vfs_wf v -> components path = l ++ [c] -> walk v 1 l = Ok pid -> inodes v !! pid = Some d ->
  i_type d = Directory -> i_children d !! c = None -> stat path v = Err NotFound.
Proof.
  intros Hwf Hp Hw Hd Hty Hc. unfold stat. rewrite resolve_walk, Hp.
  pose proof (components_valid path) as Hv. rewrite Hp in Hv. apply snoc_valid in Hv as [_ Hvc].
  rewrite walk_snoc, Hw by done. simpl. unfold child_of. rewrite Hd. simpl.
  by rewrite Hty, bool_decide_eq_true_2, Hc.
Qed.

(** ** Properties *)

(** C1.  The kernel invariant: whatever sequence of fewer than [2^63]
    system calls (with word-sized arguments) and key strokes the kernel
    serves without a panic from the state of [new_for_test] (an empty file
    system and one process; [kernel_panic_iff] says which call can panic),
    the descriptor table, the pipes, the
    console buffer, the file tree and the process table stay well formed,
    every pipe descriptor names a live pipe, every file cursor is a 64-bit
    offset and every working directory is canonical. *)
Theorem kernel_invariant (qs : list request) (s : KernelState) :
  Forall request_ok qs -> Z.of_nat (length qs) < 2 ^ 63 ->
  run qs new_for_test = Done s -> kernel_wf s.
Proof.
  intros Hq Hlen. apply run_good; [done|apply new_for_test_wf|..];
    cbn [new_for_test vfs vfs_new next_inode pipe_registry registry_new next_id]; unfold uint_max; lia.
Qed.

Lemma kernel_invariant_witness :
  exists s, run [PipeCreate; FdWrite 4 [1; 2]; FdDup2 3 0; FsMkdir [97]; SetCwd [97]] new_for_test = Done s /\
    kernel_wf s.
Proof.
  destruct (run [PipeCreate; FdWrite 4 [1; 2]; FdDup2 3 0; FsMkdir [97]; SetCwd [97]] new_for_test)
    as [s|] eqn:E; [|vm_compute in E; discriminate].
  exists s. split; [reflexivity|].
  refine (kernel_invariant [PipeCreate; FdWrite 4 [1; 2]; FdDup2 3 0; FsMkdir [97]; SetCwd [97]] s _ _ E).
  - repeat constructor. vm_compute. done.
  - simpl. lia.
Defined.

(** C37.  Only one system call can panic: a write of a non-empty buffer through
    a descriptor of an existing regular file whose cursor (the file's end in
    append mode) plus the length passes [isize::MAX]; and it does panic then.
    In particular path resolution, creation and deletion never panic. *)
Theorem kernel_panic_iff (q : request) (s : KernelState) :
  serve q s = Panic <->
  exists fd data d ino off fl i,
    q = FdWrite fd data /\ Fd.get fd (fd_table s) = Some d /\ kind d = FsFile ino off fl /\
    inodes (vfs s) !! ino = Some i /\ i_type i = RegularFile /\ data <> [] /\
    let start := if has_append fl then Z.of_nat (length (i_data i)) else off in
    let end_ := saturating_add 64 start (Z.of_nat (length data)) in
    Z.of_nat (length (i_data i)) < end_ /\ ISIZE_MAX < end_.
Proof.
  split.
  - destruct q; simpl; try done.
    + unfold handle_fd_write. destruct (Fd.get fd _) as [d|] eqn:Hd; [|done].
      destruct (kind d) as [? []|? []|ino off fl|] eqn:Hk; try done.
      { destruct (Pipe.get _ _); [|done]. by destruct (Pipe.write _ _) as [[|[]]]. }
      destruct (write_file ino _ data (vfs s)) as [[[|[]] ?]|] eqn:E; try done. intros _.
      apply write_file_panic in E as (i & Hi & Hty & Hne & H1 & H2).
      unfold file_size in H1, H2. rewrite Hi in H1, H2. simpl in H1, H2. rewrite Hty in H1, H2.
      by exists fd, data, d, ino, off, fl, i.
    + unfold handle_fs_open. destruct (stat _ _) as [st|[]]; try done.
      * destruct (_ && _); [done|]. destruct (_ && _); [|done].
        pose proof (delete_path_no_panic (state_resolve_path path s) (vfs s)).
        destruct (delete_path _ _) as [[r1 v1]|]; simpl; [|done]. unfold create_file.
        pose proof (create_entry_no_panic (state_resolve_path path s) RegularFile v1).
        by destruct (create_entry _ _ _) as [[[]]|].
      * destruct (has_create _); [|done]. unfold create_file.
        pose proof (create_entry_no_panic (state_resolve_path path s) RegularFile (vfs s)).
        destruct (create_entry _ _ _) as [[[?|[]] v]|]; simpl; try done. by destruct (stat _ _).
    + unfold handle_fs_create, create_file.
      pose proof (create_entry_no_panic (state_resolve_path path s) RegularFile (vfs s)).
      by destruct (create_entry _ _ _).
    + unfold handle_fs_delete. pose proof (delete_path_no_panic (state_resolve_path path s) (vfs s)).
      by destruct (delete_path _ _).
    + unfold handle_fs_mkdir, create_directory.
      pose proof (create_entry_no_panic (state_resolve_path path s) Directory (vfs s)).
      by destruct (create_entry _ _ _).
  - intros (fd & data & d & ino & off & fl & i & -> & Hd & Hk & Hi & Hty & Hne & H1 & H2). simpl.
    unfold handle_fd_write. rewrite Hd, Hk. unfold file_size. rewrite Hi. simpl. rewrite Hty. simpl.
    match goal with |- (?w ≫= _) = _ => assert (w = Panic) as ->; [|done] end.
    apply write_file_panic. eauto 10.
Qed.

(** A pipe through its descriptors: when the next two descriptor numbers
    are vacant, [handle_pipe_create] returns them; what is then written to the
    write end (up to the pipe's capacity) is what the read end delivers; each
    end refuses the other direction with [EBADF]; and once the read end is
    closed, writing fails with [EPIPE]. *)
Theorem pipe_syscall_roundtrip (s : KernelState) (data : bytes) (n : Z) :
  kernel_wf s -> room s ->
  let r := next_fd (fd_table s) in
  r + 1 < 2 ^ 32 -> Fd.entries (fd_table s) !! r = None -> Fd.entries (fd_table s) !! (r + 1) = None ->
  0 < Z.of_nat (length data) <= PIPE_CAPACITY -> Z.of_nat (length data) <= n <= MAX_READ_LEN ->
  exists s1 s2 s3 s4,
    handle_pipe_create s = (mkRet r (r + 1), s1) /\
    handle_fd_write (r + 1) data s1 = Done (sys_ok (Z.of_nat (length data)), s2) /\
    handle_fd_read r n s2 = (sys_ok (Z.of_nat (length data)), data, s3) /\
    handle_fd_write r data s1 = Done (sys_err errno.EBADF, s1) /\
    handle_fd_read (r + 1) n s1 = (sys_err errno.EBADF, [], s1) /\
    handle_fd_close r s1 = (sys_ok 0, s4) /\
    exists s5, handle_fd_write (r + 1) data s4 = Done (sys_err errno.EPIPE, s5).
Proof.
  intros Hs Hroom r Hr Hv1 Hv2 Hlen Hn.
  destruct (pipe_create_ok s Hs Hroom Hr Hv1 Hv2) as (s1 & pid & Hc & Hrd & Hwd & Hring). fold r in Hc, Hrd, Hwd.
  assert (Hne : data <> []) by (intros ->; simpl in Hlen; lia).
  assert (Hw : Pipe.write data ring_new = (Ok (Z.of_nat (length data)), set_buffer ring_new data)).
  { unfold Pipe.write. cbn [ring_new read_end_open negb Pipe.capacity Pipe.buffer length].
    rewrite bool_decide_eq_false_2 by done. unfold saturating_sub, PIPE_CAPACITY in *. simpl.
    rewrite Z.min_l by lia. by rewrite Nat2Z.id, firstn_all. }
  exists s1. eexists. eexists. eexists. split; [exact Hc|].
  rewrite (fd_write_pipe (r + 1) _ pid ring_new data s1 Hwd eq_refl Hring), Hw. cbn [fst snd].
  split; [reflexivity|]. split_and!.
  - unfold handle_fd_read. cbn [with_pipes fd_table pipe_registry]. rewrite Hrd.
    unfold Pipe.get, put_ring. cbn [kind negb pipes]. rewrite lookup_insert_eq.
    unfold Pipe.read. rewrite Z.min_l by lia. cbn [set_buffer Pipe.buffer].
    rewrite (bool_decide_eq_false_2 (data = [])) by done.
    rewrite bool_decide_eq_false_2 by (intros E; apply (f_equal length) in E; rewrite length_replicate in E; simpl in E; lia).
    cbn [orb]. rewrite length_replicate, Nat.min_r by lia.
    rewrite Nat2Z.id, firstn_all, take_app_length. reflexivity.
  - unfold handle_fd_write. by rewrite Hrd.
  - unfold handle_fd_read. by rewrite Hwd.
  - unfold handle_fd_close. rewrite Hrd. cbn [kind]. unfold close_pipe_end. rewrite Hring.
    cbn [with_pipes fd_table]. unfold close. unfold Fd.get in Hrd. rewrite Hrd.
    reflexivity.
  - eexists. rewrite (fd_write_pipe (r + 1) (mkFd (Pipe pid false) FdFlags_default) pid (close_read ring_new).2);
      [reflexivity| | |].
    + cbn [with_fds fd_table]. unfold Fd.get. cbn [Fd.entries]. rewrite lookup_delete_ne by lia. exact Hwd.
    + reflexivity.
    + cbn [with_fds with_pipes pipe_registry]. unfold Pipe.get, put_ring. cbn [pipes]. apply lookup_insert_eq.
Qed.

Lemma pipe_syscall_roundtrip_witness :
  exists s1 s2 s3, handle_pipe_create new_for_test = (mkRet 3 4, s1) /\
    handle_fd_write 4 [104; 105] s1 = Done (sys_ok 2, s2) /\
    handle_fd_read 3 64 s2 = (sys_ok 2, [104; 105], s3).
Proof.
  destruct (pipe_syscall_roundtrip new_for_test [104; 105] 64)
    as (s1 & s2 & s3 & s4 & H1 & H2 & H3 & _);
    [exact new_for_test_wf|split; vm_compute; reflexivity|vm_compute; reflexivity|reflexivity|reflexivity
    |vm_compute; done|vm_compute; done|].
  exists s1, s2, s3. split_and!; [exact H1|exact H2|exact H3].
Defined.

Lemma open_create_ok s path fl l c b :
  kernel_wf s -> room s ->
  components (state_resolve_path path s) = l ++ [c] ->
  view (vfs s) l = Some (Directory, b) -> view (vfs s) (l ++ [c]) = None ->
  has_create fl = true -> Fd.entries (fd_table s) !! next_fd (fd_table s) = None ->
  let fd := next_fd (fd_table s) in
  let ino := next_inode (vfs s) in
  exists v1 t i, handle_fs_open path fl s = Done (sys_ok fd, with_fds (with_vfs s v1) t) /\
    inodes v1 !! ino = Some i /\ i_id i = ino /\ i_type i = RegularFile /\ i_data i = [] /\
    walk v1 1 (l ++ [c]) = Ok ino /\
    Fd.get fd t = Some (mkFd (FsFile ino 0 fl) FdFlags_default).
Proof.
  intros Hs [Hroom _] Hp Hdir Habs Hcr Hv fd ino. set (abs := state_resolve_path path s) in *.
  destruct (view_walk _ _ _ Hdir) as (pid & d & Hw & Hd & [= Hty _]).
  pose proof (components_valid abs) as Hval. rewrite Hp in Hval. destruct (snoc_valid _ _ Hval) as [Hl Hc].
  apply view_None in Habs as [e He]; [|apply Hs|done].
  assert (Hfree : i_children d !! c = None).
  { destruct (i_children d !! c) as [x|] eqn:Ex; [|done].
    assert (walk (vfs s) 1 (l ++ [c]) = Ok x) as Hx by (apply walk_snoc_Ok; eauto 10). congruence. }
  pose proof (create_walk (vfs s) l c RegularFile pid d (kw_vfs s Hs) Hl Hw Hd (eq_sym Hty) Hfree (l ++ [c]) Hval) as Hcw.
  rewrite He, bool_decide_eq_true_2 in Hcw by done.
  pose proof (create_lookup (vfs s) l c RegularFile pid d (kw_vfs s Hs) Hw Hd ino) as Hlk.
  rewrite bool_decide_eq_false_2, bool_decide_eq_true_2 in Hlk
    by (done || (intros E; apply (create_pid_ne (vfs s) l c RegularFile pid d (kw_vfs s Hs) Hw Hd); symmetry; exact E)).
  destruct (open_at_cursor (mkFd (FsFile ino 0 fl) FdFlags_default) (fd_table s) (proj1 (kw_fds s Hs)) Hv)
    as (t & Ho & Hent & _).
  do 3 eexists. split; [|split; [exact Hlk|split_and!; [done..|exact Hcw|]]].
  - unfold handle_fs_open. fold abs. rewrite (stat_absent abs (vfs s) l c pid d (kw_vfs s Hs) Hp Hw Hd) by done.
    rewrite Hcr. unfold create_file, create_entry. rewrite (resolve_parent_snoc abs l c _ Hp), Hw. simpl. rewrite Hd. simpl.
    rewrite <- Hty. simpl. rewrite Hd, Hfree. rewrite bool_decide_eq_false_2 by (by intros [? ?]).
    unfold saturating_add, uint_max in *. rewrite Z.min_r by lia. simpl.
    unfold open_fd_for_inode. cbn [with_vfs fd_table]. unfold ino in Ho. by rewrite Ho.
  - unfold Fd.get. rewrite Hent. apply lookup_insert_eq.
Qed.

(** A file through its descriptor: opening an absent path of an existing
    directory with [O_CREAT] (and no [O_APPEND]) creates it; what is then
    written, after a seek back to the start, is what a read returns, and
    [stat] reports its size as a regular file. *)
Theorem file_syscall_roundtrip (s : KernelState) (path : str) (fl : Z) (l : list str) (c : str)
    (b data : bytes) (n : Z) :
  kernel_wf s -> room s ->
  components (state_resolve_path path s) = l ++ [c] ->
  view (vfs s) l = Some (Directory, b) -> view (vfs s) (l ++ [c]) = None ->
  has_create fl = true -> has_append fl = false ->
  Fd.entries (fd_table s) !! next_fd (fd_table s) = None ->
  0 < Z.of_nat (length data) -> Z.of_nat (length data) <= n <= MAX_READ_LEN ->
  let fd := next_fd (fd_table s) in
  let len := Z.of_nat (length data) in
  exists s1 s2 s3 s4,
    handle_fs_open path fl s = Done (sys_ok fd, s1) /\
    handle_fd_write fd data s1 = Done (sys_ok len, s2) /\
    handle_fd_seek fd 0 0 s2 = (sys_ok 0, s3) /\
    handle_fd_read fd n s3 = (sys_ok len, data, s4) /\
    handle_fs_stat path s2 = (sys_ok 0, Some (next_inode (vfs s), len, 0)).
Proof.
  intros Hs Hroom Hp Hdir Habs Hcr Hap Hv Hlen Hn fd len.
  destruct (open_create_ok s path fl l c b Hs Hroom Hp Hdir Habs Hcr Hv)
    as (v1 & t & i & Hopen & Hi & Hid & Hty & Hdata & Hwalk & Hfd).
  fold fd in Hopen, Hfd. set (ino := next_inode (vfs s)) in *.
  assert (Hne : data <> []) by (intros ->; simpl in Hlen; lia).
  unfold MAX_READ_LEN in Hn. rewrite Z.shiftl_1_l in Hn.
  destruct (fd_write_file fd _ ino 0 fl data (with_fds (with_vfs s v1) t) i Hfd eq_refl Hi Hty Hne) as (out & Hwr & Hout);
    [rewrite Hap; lia|rewrite Hap; unfold ISIZE_MAX; lia|].
  rewrite Hap in Hwr, Hout. rewrite Hdata in Hout. simpl in Hout. rewrite Nat.sub_0_r in Hout.
  unfold splice in Hout. rewrite take_0, drop_ge, app_nil_r in Hout by (rewrite length_replicate; lia). simpl in Hout.
  subst out. do 4 eexists. split; [exact Hopen|]. split; [exact Hwr|].
  unfold handle_fd_seek. cbn [with_fds with_vfs fd_table vfs]. rewrite (set_offset_lookup fd _ t _ ino 0 fl Hfd eq_refl).
  cbn [kind]. split; [reflexivity|].
  unfold handle_fd_read. cbn [with_fds with_vfs fd_table vfs].
  erewrite set_offset_lookup; [|apply (set_offset_lookup fd _ t _ ino 0 fl Hfd eq_refl)|reflexivity].
  cbn [kind]. unfold MAX_READ_LEN. rewrite Z.shiftl_1_l, Z.min_l by lia. split.
  - erewrite read_file_ok; [|apply lookup_insert_eq|done|lia..|simpl; lia]. cbn [set_data i_data].
    rewrite drop_0, take_ge by lia. reflexivity.
  - unfold handle_fs_stat, state_resolve_path. cbn [with_fds with_vfs process_table current_task vfs].
    fold (state_resolve_path path s). unfold stat. rewrite resolve_walk, Hp.
    rewrite (same_tree_walk v1), Hwalk by (by apply set_data_same_tree).
    simpl. rewrite lookup_insert_eq. simpl. rewrite Hid, Hty. reflexivity.
Qed.

Lemma file_syscall_roundtrip_witness :
  exists s1 s2 s3 s4, handle_fs_open [102] 66 new_for_test = Done (sys_ok 3, s1) /\
    handle_fd_write 3 [104; 105] s1 = Done (sys_ok 2, s2) /\ handle_fd_seek 3 0 0 s2 = (sys_ok 0, s3) /\
    handle_fd_read 3 64 s3 = (sys_ok 2, [104; 105], s4) /\
    handle_fs_stat [102] s2 = (sys_ok 0, Some (2, 2, 0)).
Proof.
  refine (file_syscall_roundtrip new_for_test [102] 66 [] [102] [] [104; 105] 64
    new_for_test_wf _ _ _ _ _ _ _ _ _); try reflexivity.
  - split; vm_compute; reflexivity.
  - vm_compute. done.
Defined.

(** Append mode: a write through a descriptor opened with [O_APPEND] puts
    the data at the end of the file whatever the cursor, moves the cursor to
    the new end, and leaves every other file and descriptor alone. *)
Theorem append_write (s : KernelState) (fd : Z) (d : FileDescriptor) (ino off fl : Z) (i : Inode) (data : bytes) :
  kernel_wf s -> Fd.get fd (fd_table s) = Some d -> kind d = FsFile ino off fl -> has_append fl = true ->
  inodes (vfs s) !! ino = Some i -> i_type i = RegularFile -> data <> [] ->
  Z.of_nat (length (i_data i)) + Z.of_nat (length data) <= ISIZE_MAX ->
  exists s', handle_fd_write fd data s = Done (sys_ok (Z.of_nat (length data)), s') /\
    inodes (vfs s') !! ino = Some (set_data (i_data i ++ data) i) /\
    Fd.get fd (fd_table s') =
      Some (mkFd (FsFile ino (Z.of_nat (length (i_data i)) + Z.of_nat (length data)) fl) (flags d)) /\
    (forall k, k <> ino -> inodes (vfs s') !! k = inodes (vfs s) !! k) /\
    (forall k, k <> fd -> Fd.get k (fd_table s') = Fd.get k (fd_table s)).
Proof.
  intros Hs Hd Hk Hap Hi Hty Hne Hmax.
  destruct (fd_write_file fd d ino off fl data s i Hd Hk Hi Hty Hne) as (out & Hw & Hout);
    [rewrite Hap; lia|rewrite Hap; lia|].
  rewrite Hap in Hw, Hout. rewrite Nat2Z.id in Hout. unfold splice in Hout.
  rewrite take_app_length, drop_ge, app_nil_r in Hout by (rewrite length_app, length_replicate; lia). subst out.
  eexists. split; [exact Hw|]. cbn [with_fds with_vfs fd_table vfs inodes]. split_and!.
  - apply lookup_insert_eq.
  - by apply (set_offset_lookup fd _ _ d ino off fl).
  - intros k Hk'. by rewrite lookup_insert_ne.
  - intros k Hk'. unfold set_offset. rewrite Hd, Hk. unfold Fd.get. cbn [put_fd Fd.entries]. by rewrite lookup_insert_ne.
Qed.

(** The state after opening [/f] in append mode, and writing two bytes to it. *)
Definition demo_append : KernelState :=
  match handle_fs_open [102] 1089 new_for_test with
  | Done (_, s) => match handle_fd_write 3 [1; 2] s with Done (_, s') => s' | Panic => s end
  | Panic => new_for_test
  end.

Lemma demo_append_wf : kernel_wf demo_append.
Proof.
  unfold demo_append. destruct (handle_fs_open [102] 1089 new_for_test) as [[r s]|] eqn:E; [|apply new_for_test_wf].
  assert (kernel_wf s).
  { destruct (fs_open_good _ _ _ _ _ new_for_test_wf ltac:(split; vm_compute; reflexivity) E) as [H _]. done. }
  destruct (handle_fd_write 3 [1; 2] s) as [[r' s']|] eqn:E'; [|done].
  by destruct (fd_write_good _ _ _ _ _ H E') as [? _].
Qed.

Lemma append_write_witness :
  exists s', handle_fd_write 3 [3] (handle_fd_seek 3 0 0 demo_append).2 = Done (sys_ok 1, s') /\
    inodes (vfs s') !! 2 = Some (mkInode 2 [102] RegularFile [1; 2; 3] ∅ (Some 1)).
Proof.
  destruct (append_write (handle_fd_seek 3 0 0 demo_append).2 3 (mkFd (FsFile 2 0 1089) FdFlags_default) 2 0 1089
    (mkInode 2 [102] RegularFile [1; 2] ∅ (Some 1)) [3]) as (s' & H1 & H2 & _);
    [|reflexivity|reflexivity|reflexivity|reflexivity|reflexivity|done|vm_compute; done|].
  - apply (fd_seek_good 3 0 0 demo_append); [lia|exact demo_append_wf].
  - exists s'. split; [exact H1|exact H2].
Defined.

(** [kill] then [wait]: killing a child of the current task, none of whose
    children has exited yet, makes the next [wait] return status 137 and that
    child, which is then gone from the table and from its parent's list; a
    further [wait] returns [(0, 0)]; killing an unknown task fails with
    [ESRCH] and changes nothing. *)
Theorem kill_wait (s : KernelState) (c : Z) (e ce : ProcessEntry) :
  kernel_wf s ->
  ProcessTable.entries (process_table s) !! current_task s = Some e ->
  c ∈ children e -> ProcessTable.entries (process_table s) !! c = Some ce ->
  (forall k ke, k ∈ children e -> ProcessTable.entries (process_table s) !! k = Some ke -> exit_code ke = None) ->
  exists s1 s2, handle_process_kill c s = (sys_ok 0, s1) /\
    handle_process_wait 0 0 s1 = (mkRet 137 c, s2) /\
    ProcessTable.get c (process_table s2) = None /\
    handle_process_wait 0 0 s2 = (mkRet 0 0, s2) /\
    handle_process_kill c s2 = (sys_err errno.ESRCH, s2).
Proof.
  intros Hs He Hc Hce Hno. set (p := current_task s) in *.
  assert (Hcp : c <> p) by (intros ->; by destruct (pw_irrefl _ (kw_procs s Hs) _ _ He)).
  set (t1 := (record_exit c 137 (process_table s)).2).
  assert (Hwf1 : procs_wf t1) by (apply record_exit_wf, Hs).
  assert (Hm1 : ProcessTable.entries t1 = <[c := mkEntry (id ce) (parent ce) (children ce) (Some 137) (cwd ce) (name ce)]>
                  (ProcessTable.entries (process_table s))) by (unfold t1, record_exit; by rewrite Hce).
  assert (He1 : ProcessTable.entries t1 !! p = Some e) by (by rewrite Hm1, lookup_insert_ne).
  pose proof (reap_child_ok p e t1 Hwf1 He1) as Hr. pose proof (reap_child_wf p t1 Hwf1) as Hwf2.
  assert (Hother : forall k ke, k ∈ children e -> k <> c -> ProcessTable.entries t1 !! k = Some ke -> exit_code ke = None).
  { intros k ke Hk Hkc. rewrite Hm1, lookup_insert_ne by done. by apply Hno. }
  destruct (reap_child p t1) as [[[c' code]|] t2] eqn:E.
  2: { destruct Hr as [_ Hr]. specialize (Hr c). rewrite Hm1, lookup_insert_eq in Hr. by specialize (Hr _ Hc eq_refl). }
  destruct Hr as (Hc' & (ce' & Hce' & Hcode) & _ & Hm2).
  assert (c' = c) as -> by (destruct (decide (c' = c)) as [|Hne]; [done|]; specialize (Hother c' ce' Hc' Hne Hce'); congruence).
  rewrite Hm1, lookup_insert_eq in Hce'. simplify_eq. simpl in Hcode. simplify_eq.
  assert (Hgone : ProcessTable.entries t2 !! c = None) by (by rewrite Hm2, lookup_insert_ne, lookup_delete_eq).
  exists (with_procs s t1), (with_procs s t2). split_and!.
  - unfold handle_process_kill, ProcessTable.get. by rewrite Hce.
  - unfold handle_process_wait. cbn [with_procs current_task process_table]. fold p. by rewrite E.
  - done.
  - unfold handle_process_wait. cbn [with_procs current_task process_table]. fold p.
    assert (He2 : ProcessTable.entries t2 !! p = Some (with_children e (filter (fun d => d <> c) (children e))))
      by (by rewrite Hm2, lookup_insert_eq).
    pose proof (reap_child_ok p _ t2 Hwf2 He2) as Hr2. destruct (reap_child p t2) as [[[k code]|] t3].
    + destruct Hr2 as (Hk & (ke & Hke & Hcode2) & _). cbn [with_children children] in Hk.
      apply list_elem_of_filter in Hk as [Hkc Hk].
      assert (k <> p) by (intros ->; by destruct (pw_irrefl _ (kw_procs s Hs) _ _ He)).
      rewrite Hm2, lookup_insert_ne, lookup_delete_ne in Hke by done.
      specialize (Hother k ke Hk Hkc Hke). congruence.
    + destruct Hr2 as [-> _]. done.
  - unfold handle_process_kill, ProcessTable.get. cbn [with_procs process_table]. by rewrite Hgone.
Qed.

(** A kernel whose current task 1 has the child 2. *)
Definition demo_child : KernelState :=
  with_procs new_for_test (register 2 (Some 1) [99] (process_table new_for_test)).

Lemma demo_child_wf : kernel_wf demo_child.
Proof.
  pose proof new_for_test_wf as []. constructor; try done.
  - apply register_wf; [done| |done]. split; [done|]. intros p e.
    cbn [new_for_test process_table register procs_new ProcessTable.entries].
    rewrite lookup_insert, lookup_empty. case_decide; [|done]. intros [= <-]. apply not_elem_of_nil.
  - intros p e. cbn [demo_child with_procs process_table].
    replace (register 2 (Some 1) [99] (process_table new_for_test)) with
      (mkProcs (<[1 := mkEntry 1 None [2] None ROOT_PATH [116; 101; 115; 116]]>
        (<[2 := mkEntry 2 (Some 1) [] None ROOT_PATH [99]]> (ProcessTable.entries (process_table new_for_test)))))
      by reflexivity.
    cbn [new_for_test process_table register procs_new ProcessTable.entries].
    rewrite !lookup_insert, lookup_empty.
    repeat (case_decide; [intros [= <-]; exists []; by split; [constructor|]|]). done.
Qed.

Lemma kill_wait_witness :
  exists s1 s2, handle_process_kill 2 demo_child = (sys_ok 0, s1) /\
    handle_process_wait 0 0 s1 = (mkRet 137 2, s2).
Proof.
  destruct (kill_wait demo_child 2 (mkEntry 1 None [2] None ROOT_PATH [116; 101; 115; 116])
    (mkEntry 2 (Some 1) [] None ROOT_PATH [99]) demo_child_wf) as (s1 & s2 & H1 & H2 & _);
    [reflexivity|left|reflexivity| |].
  - intros k ke ->%list_elem_of_singleton. vm_compute. by intros [= <-].
  - exists s1, s2. split; [exact H1|exact H2].
Defined.

(** Closing one of several descriptors of a pipe's read end closes the
    pipe for all of them: the other descriptor stays open, but every later
    write to the pipe fails with [EPIPE]. *)
Theorem close_duplicate_breaks_pipe (s : KernelState) (fd1 fd2 wfd pid : Z) (fl1 fl2 wfl : FdFlags) (data : bytes) :
  kernel_wf s -> fd1 <> fd2 -> wfd <> fd2 ->
  Fd.get fd1 (fd_table s) = Some (mkFd (Pipe pid true) fl1) ->
  Fd.get fd2 (fd_table s) = Some (mkFd (Pipe pid true) fl2) ->
  Fd.get wfd (fd_table s) = Some (mkFd (Pipe pid false) wfl) ->
  exists s1, handle_fd_close fd2 s = (sys_ok 0, s1) /\
    Fd.get fd1 (fd_table s1) = Some (mkFd (Pipe pid true) fl1) /\
    exists s2, handle_fd_write wfd data s1 = Done (sys_err errno.EPIPE, s2).
Proof.
  intros Hs Hne Hwne H1 H2 Hw.
  destruct (proj2 (kw_fds s Hs) fd1 _ H1) as [r Hr]. change (Pipe.get pid (pipe_registry s) = Some r) in Hr.
  eexists. split.
  - unfold handle_fd_close. rewrite H2. cbn [kind]. unfold close_pipe_end. rewrite Hr.
    cbn [with_pipes fd_table]. unfold close. unfold Fd.get in H2. rewrite H2. reflexivity.
  - unfold Fd.get in *. cbn [with_fds fd_table Fd.entries]. split; [by rewrite lookup_delete_ne|].
    eexists. rewrite (fd_write_pipe wfd (mkFd (Pipe pid false) wfl) pid (close_read r).2); [reflexivity| | |].
    + cbn [with_fds fd_table]. unfold Fd.get. cbn [Fd.entries]. by rewrite lookup_delete_ne.
    + reflexivity.
    + cbn [with_fds with_pipes pipe_registry]. unfold Pipe.get, put_ring. cbn [pipes]. apply lookup_insert_eq.
Qed.

Lemma close_duplicate_breaks_pipe_witness :
  exists s s1 s2, run [PipeCreate; FdDup 3] new_for_test = Done s /\
    handle_fd_close 5 s = (sys_ok 0, s1) /\ handle_fd_write 4 [1] s1 = Done (sys_err errno.EPIPE, s2).
Proof.
  destruct (run [PipeCreate; FdDup 3] new_for_test) as [s|] eqn:E; [|vm_compute in E; discriminate].
  destruct (close_duplicate_breaks_pipe s 3 5 4 1 FdFlags_default FdFlags_default FdFlags_default [1])
    as (s1 & H1 & _ & s2 & H2); [|lia|lia| | | |].
  - eapply run_good; [| | | |exact E]; [by repeat constructor|exact new_for_test_wf|vm_compute; done|vm_compute; done].
  - vm_compute in E. injection E as <-. reflexivity.
  - vm_compute in E. injection E as <-. reflexivity.
  - vm_compute in E. injection E as <-. reflexivity.
  - exists s, s1, s2. split_and!; [reflexivity|exact H1|exact H2].
Defined.
