(* ===== verification/Scope.v ===== *)
(** * Capability scopes and their attenuation
    ([crates/nexacore-capability/src/scope.rs], [attenuation.rs], [ttl.rs])

    A [Scope] is what a capability token authorises: an action on a set of
    resources within a time window, under caveats.  [is_subset_of] decides
    whether one scope authorises no more than another; attenuation may only
    move down that order.  Strings are lists of UTF-8 bytes; identifiers are
    byte arrays. *)

From S2P Require Import Prelude.

Abbreviation str := (list Z).

Inductive Action :=
| Read | Write | Append | Execute | Delete | Connect | Listen | ModelInfer | ModelLoad
| AgentSpawn | AgentSend | IpcSend | IpcRecv | MmioMap | DmaMap | IrqAttach
| PciConfigRead | PciConfigWrite | DriverLoad | DriverUnload | TeeProbe | DisplayMap.

#[export] Instance Action_eq_dec : EqDecision Action.
Proof. solve_decision. Defined.

Inductive Resource :=
| Any
| Filesystem (p : str)
| Network (e : str)
| Model (id : bytes)
| Agent (id : bytes)
| Node (id : bytes)
| IpcChannel (id : Z)
| PciDevice (segment bus device function : Z)
| MmioRegion (phys_base len : Z)
| DmaWindow (iova_base len : Z)
| IrqLine (n : Z)
| Framebuffer (phys_base len : Z).

#[export] Instance Resource_eq_dec : EqDecision Resource.
Proof. solve_decision. Defined.

(** ** String patterns *)

(** [s.starts_with(pre)] and [s.rsplit_once(c)]. *)
Definition starts_with (s pre : str) : bool := bool_decide (pre `prefix_of` s).

Fixpoint rsplit_once (c : Z) (s : str) : option (str * str) :=
  match s with
  | [] => None
  | b :: s =>
      match rsplit_once c s with
      | Some (l, r) => Some (b :: l, r)
      | None => if b =? c then Some ([], s) else None
      end
  end.

Definition WILD : str := [47; 42; 42].
Definition STAR : str := [42].
Definition ZERO_PORT : str := [48].
Definition COLON : Z := 58.

Definition path_is_subset (a b : str) : bool :=
  match strip_suffix WILD b with
  | Some b_prefix =>
      match strip_suffix WILD a with
      | Some a_prefix => bool_decide (a_prefix = b_prefix) || starts_with a_prefix (b_prefix ++ [47])
      | None => bool_decide (a = b_prefix) || starts_with a (b_prefix ++ [47])
      end
  | None => bool_decide (a = b)
  end.

Definition endpoint_is_subset (a b : str) : bool :=
  match rsplit_once COLON a with
  | None => false
  | Some (a_host, a_port) =>
      match rsplit_once COLON b with
      | None => false
      | Some (b_host, b_port) =>
          let host_ok := bool_decide (b_host = STAR) || bool_decide (a_host = b_host) in
          let port_ok := bool_decide (b_port = ZERO_PORT) || bool_decide (a_port = b_port) in
          host_ok && port_ok
      end
  end.

(** The sums are taken in 128 bits, so they do not wrap. *)
Definition range_is_subset (child_base child_len parent_base parent_len : Z) : bool :=
  let child_end := child_base + child_len in
  let parent_end := parent_base + parent_len in
  (parent_base <=? child_base) && (child_end <=? parent_end).

(** [Resource::is_subset_of]. *)
Definition resource_is_subset_of (self other : Resource) : bool :=
  match self, other with
  | _, Any => true
  | Filesystem a, Filesystem b => path_is_subset a b
  | Network a, Network b => endpoint_is_subset a b
  | Model a, Model b => bool_decide (a = b)
  | Agent a, Agent b => bool_decide (a = b)
  | Node a, Node b => bool_decide (a = b)
  | IpcChannel a, IpcChannel b => a =? b
  | PciDevice _ _ _ _, PciDevice _ _ _ _ => bool_decide (self = other)
  | MmioRegion a_base a_len, MmioRegion b_base b_len
  | DmaWindow a_base a_len, DmaWindow b_base b_len
  | Framebuffer a_base a_len, Framebuffer b_base b_len => range_is_subset a_base a_len b_base b_len
  | IrqLine a, IrqLine b => a =? b
  | _, _ => false
  end.

(** ** Time windows *)

Record TimeWindow := mkWindow { not_before : Z; not_after : Z }.

#[export] Instance TimeWindow_eq_dec : EqDecision TimeWindow.
Proof. solve_decision. Defined.

Definition window_new (nb na : Z) : option TimeWindow :=
  if nb <=? na then Some (mkWindow nb na) else None.
Definition window_contains (w : TimeWindow) (now : Z) : bool :=
  (not_before w <=? now) && (now <? not_after w).
Definition window_is_subset_of (self other : TimeWindow) : bool :=
  (not_before other <=? not_before self) && (not_after self <=? not_after other).
(** A subtraction that underflows on an inverted window. *)
Definition duration_secs (w : TimeWindow) : exec Z := sub_uint (not_after w) (not_before w).

(** ** Caveats and scopes *)

Inductive Caveat :=
| ExpiresAt (t : Z)
| NotBefore (t : Z)
| BoundToNode (n : bytes)
| BoundToSession (s : bytes)
| Custom (tag : str) (payload : bytes).

#[export] Instance Caveat_eq_dec : EqDecision Caveat.
Proof. solve_decision. Defined.

Record Scope := mkScope {
  action : Action;
  resource : Resource;
  window : TimeWindow;
  caveats : list Caveat
}.

#[export] Instance Scope_eq_dec : EqDecision Scope.
Proof. solve_decision. Defined.

(** [Scope::is_subset_of]. *)
Definition scope_is_subset_of (self other : Scope) : bool :=
  if negb (bool_decide (action self = action other)) then false
  else if negb (resource_is_subset_of (resource self) (resource other)) then false
  else if negb (window_is_subset_of (window self) (window other)) then false
  else forallb (fun c => bool_decide (c ∈ caveats self)) (caveats other).

(** ** Attenuation

    The errors of the capability crate, without their diagnostic slugs. *)

Inductive CapabilityErrorKind :=
| Expired | NotYetValid | InvalidSignature | ScopeViolation | AttenuationViolation
| AttestationMismatch | Revoked | MalformedToken.

#[export] Instance CapabilityErrorKind_eq_dec : EqDecision CapabilityErrorKind.
Proof. solve_decision. Defined.

Abbreviation CapResult := (result CapabilityErrorKind).

Definition apply_caveat (scope : Scope) (caveat : Caveat) : CapResult Scope :=
  let w := window scope in
  let w' :=
    match caveat with
    | ExpiresAt t => if t <? not_after w then mkWindow (not_before w) t else w
    | NotBefore t => if not_before w <? t then mkWindow t (not_after w) else w
    | _ => w
    end in
  if not_after w' <? not_before w' then Err AttenuationViolation
  else
    let cs := if bool_decide (caveat ∈ caveats scope) then caveats scope else caveats scope ++ [caveat] in
    let child := mkScope (action scope) (resource scope) w' cs in
    if negb (scope_is_subset_of child scope) then Err AttenuationViolation
    else Ok child.

Fixpoint apply_caveats (scope : Scope) (cs : list Caveat) : CapResult Scope :=
  match cs with
  | [] => Ok scope
  | c :: cs => current ← apply_caveat scope c; apply_caveats current cs
  end.

Definition restrict_resource (scope : Scope) (new_resource : Resource) : CapResult Scope :=
  if negb (resource_is_subset_of new_resource (resource scope)) then Err AttenuationViolation
  else Ok (mkScope (action scope) new_resource (window scope) (caveats scope)).

(** ** Validity windows ([ttl.rs]) *)

Record ValidityWindow := mkValidity { issued_at : Z; ttl_secs : Z }.

Definition vw_not_after (v : ValidityWindow) : option Z := checked_add 64 (issued_at v) (ttl_secs v).

Definition is_valid_at (v : ValidityWindow) (now : Z) : bool :=
  match vw_not_after v with
  | Some na => (issued_at v <=? now) && (now <? na)
  | None => false
  end.

Definition check_at (v : ValidityWindow) (now : Z) : CapResult () :=
  match vw_not_after v with
  | None => Err MalformedToken
  | Some na =>
      if now <? issued_at v then Err NotYetValid
      else if na <=? now then Err Expired
      else Ok ()
  end.

(** [Clock::now_unix_secs] may fail; [check] denies then. *)
Definition check (v : ValidityWindow) (clock : option Z) : CapResult () :=
  now ← ok_or clock Expired;
  check_at v now.

Definition to_time_window (v : ValidityWindow) : option TimeWindow :=
  na ← vw_not_after v;
  window_new (issued_at v) na.

(** ** What a resource and a scope mean

    A concrete access, and whether a resource pattern admits it. *)

Inductive access :=
| AccPath (p : str)
| AccEndpoint (host port : str)
| AccModel (id : bytes)
| AccAgent (id : bytes)
| AccNode (id : bytes)
| AccChannel (id : Z)
| AccPci (segment bus device function : Z)
| AccMmio (addr : Z)
| AccDma (addr : Z)
| AccIrq (n : Z)
| AccFramebuffer (addr : Z).

(** A [/**] pattern matches its prefix and everything below it; any other
    pattern matches itself. *)
Definition path_matches (pat p : str) : Prop :=
  match strip_suffix WILD pat with
  | Some pre => p = pre \/ pre ++ [47] `prefix_of` p
  | None => p = pat
  end.

Definition endpoint_matches (pat host port : str) : Prop :=
  match rsplit_once COLON pat with
  | Some (h, p) => (h = STAR \/ host = h) /\ (p = ZERO_PORT \/ port = p)
  | None => False
  end.

Definition admits (r : Resource) (a : access) : Prop :=
  match r, a with
  | Any, _ => True
  | Filesystem pat, AccPath p => path_matches pat p
  | Network pat, AccEndpoint h p => endpoint_matches pat h p
  | Model i, AccModel j | Agent i, AccAgent j | Node i, AccNode j => i = j
  | IpcChannel i, AccChannel j | IrqLine i, AccIrq j => i = j
  | PciDevice s b d f, AccPci s' b' d' f' => (s, b, d, f) = (s', b', d', f')
  | MmioRegion b l, AccMmio x | DmaWindow b l, AccDma x | Framebuffer b l, AccFramebuffer x => b <= x < b + l
  | _, _ => False
  end.

(** A use of a capability is authorised when the action matches, the resource
    admits the access, the window contains the time and [ctx] satisfies every
    caveat. *)
Definition authorises (ctx : Caveat -> Prop) (s : Scope) (act : Action) (a : access) (now : Z) : Prop :=
  action s = act /\ admits (resource s) a /\ window_contains (window s) now = true /\ Forall ctx (caveats s).

(** ** Lemmas *)

Lemma prefix_slash_trans (a b p : str) : b ++ [47] `prefix_of` a -> a ++ [47] `prefix_of` p -> b ++ [47] `prefix_of` p.
Proof. intros H1 H2. etrans; [exact H1|]. etrans; [|exact H2]. by apply prefix_app_r. Qed.

(** [path_is_subset] is exactly inclusion of the matched paths. *)
Lemma path_subset_iff a b :
  path_is_subset a b = true <-> forall p, path_matches a p -> path_matches b p.
Proof.
  unfold path_is_subset, path_matches, starts_with.
  destruct (strip_suffix WILD b) as [bp|] eqn:Eb.
  - destruct (strip_suffix WILD a) as [ap|]; rewrite orb_true_iff, !bool_decide_eq_true.
    + split; [|intros H; apply H; by left].
      intros [->|H] p; [done|]. intros [->|Hp]; [by right|]. right. by eapply prefix_slash_trans.
    + split; [|intros H; by apply H]. by intros H p ->.
  - rewrite bool_decide_eq_true. destruct (strip_suffix WILD a) as [ap|] eqn:Ea.
    + split; [congruence|]. intros H. pose proof (H ap (or_introl eq_refl)) as H1.
      pose proof (H (ap ++ [47]) (or_intror (reflexivity _))) as H2. subst b.
      apply (f_equal length) in H2. rewrite length_app in H2. simpl in H2. lia.
    + split; [by intros -> p ->|]. intros H. by apply H.
Qed.

Lemma path_subset_trans a b c :
  path_is_subset a b = true -> path_is_subset b c = true -> path_is_subset a c = true.
Proof. rewrite !path_subset_iff. auto. Qed.

Lemma endpoint_subset_iff a b :
  endpoint_is_subset a b = true <->
  exists ah ap bh bp, rsplit_once COLON a = Some (ah, ap) /\ rsplit_once COLON b = Some (bh, bp) /\
    (bh = STAR \/ ah = bh) /\ (bp = ZERO_PORT \/ ap = bp).
Proof.
  unfold endpoint_is_subset.
  destruct (rsplit_once COLON a) as [[ah ap]|]; [|split; [done|by intros (? & ? & ? & ? & ? & _)]].
  destruct (rsplit_once COLON b) as [[bh bp]|]; [|split; [done|by intros (? & ? & ? & ? & _ & ? & _)]].
  rewrite andb_true_iff, !orb_true_iff, !bool_decide_eq_true. naive_solver.
Qed.

Lemma endpoint_subset_trans a b c :
  endpoint_is_subset a b = true -> endpoint_is_subset b c = true -> endpoint_is_subset a c = true.
Proof.
  rewrite !endpoint_subset_iff. intros (ah & ap & bh & bp & Ha & Hb & H1 & H2) (bh' & bp' & ch & cp & Hb' & Hc & H3 & H4).
  exists ah, ap, ch, cp. naive_solver.
Qed.

Lemma endpoint_subset_sound a b h p :
  endpoint_is_subset a b = true -> endpoint_matches a h p -> endpoint_matches b h p.
Proof.
  rewrite endpoint_subset_iff. unfold endpoint_matches.
  intros (ah & ap & bh & bp & -> & -> & H1 & H2). naive_solver.
Qed.

Lemma range_subset_iff cb cl pb pl :
  range_is_subset cb cl pb pl = true <-> pb <= cb /\ cb + cl <= pb + pl.
Proof. unfold range_is_subset. cbv zeta. rewrite andb_true_iff. lia. Qed.

Lemma resource_subset_sound r r' a :
  resource_is_subset_of r r' = true -> admits r a -> admits r' a.
Proof.
  destruct r, r'; simpl; try done; try (by destruct a);
    rewrite ?bool_decide_eq_true, ?Z.eqb_eq, ?range_subset_iff; intros H; destruct a; simpl; try done;
    try congruence; try lia.
  - by apply path_subset_iff.
  - by apply endpoint_subset_sound.
Qed.

Lemma resource_subset_trans r1 r2 r3 :
  resource_is_subset_of r1 r2 = true -> resource_is_subset_of r2 r3 = true ->
  resource_is_subset_of r1 r3 = true.
Proof.
  destruct r1, r2; simpl; try done; destruct r3; simpl; try done;
    rewrite ?bool_decide_eq_true, ?Z.eqb_eq, ?range_subset_iff; try congruence; try lia.
  - apply path_subset_trans.
  - apply endpoint_subset_trans.
Qed.

(** Every resource is a subset of itself, but an endpoint without a port. *)
Definition resource_wf (r : Resource) : Prop :=
  match r with Network e => is_Some (rsplit_once COLON e) | _ => True end.

Lemma resource_subset_refl r : resource_is_subset_of r r = true <-> resource_wf r.
Proof.
  destruct r; simpl; try (split; [done|]; intros _); rewrite ?bool_decide_eq_true, ?Z.eqb_eq, ?range_subset_iff; try done; try lia.
  - by apply path_subset_iff.
  - rewrite endpoint_subset_iff. split; [intros (? & ? & ? & ? & -> & _); eauto|].
    intros [[h p] E]. exists h, p, h, p. auto.
Qed.

Lemma window_subset_iff w w' :
  window_is_subset_of w w' = true <-> not_before w' <= not_before w /\ not_after w <= not_after w'.
Proof. unfold window_is_subset_of. rewrite andb_true_iff. lia. Qed.

Lemma scope_subset_iff s s' :
  scope_is_subset_of s s' = true <->
  action s = action s' /\ resource_is_subset_of (resource s) (resource s') = true /\
  (not_before (window s') <= not_before (window s) /\ not_after (window s) <= not_after (window s')) /\
  (forall c, c ∈ caveats s' -> c ∈ caveats s).
Proof.
  unfold scope_is_subset_of. rewrite <- window_subset_iff.
  destruct (bool_decide (action s = action s')) eqn:Ea; simpl;
    [apply bool_decide_eq_true in Ea|apply bool_decide_eq_false in Ea; by split; [|intros (? & _)]].
  destruct (resource_is_subset_of _ _); simpl; [|by split; [|intros (_ & ? & _)]].
  destruct (window_is_subset_of _ _); simpl; [|by split; [|intros (_ & _ & ? & _)]].
  rewrite forallb_forall. setoid_rewrite bool_decide_eq_true. setoid_rewrite <- list_elem_of_In.
  split; [by intros H|by intros (_ & _ & _ & H)].
Qed.

Lemma scope_subset_transitive s1 s2 s3 :
  scope_is_subset_of s1 s2 = true -> scope_is_subset_of s2 s3 = true -> scope_is_subset_of s1 s3 = true.
Proof.
  rewrite !scope_subset_iff. intros (? & ? & ? & ?) (? & ? & ? & ?).
  split_and!; try lia; [congruence|by eapply resource_subset_trans|auto].
Qed.

Lemma scope_subset_refl s : resource_wf (resource s) -> scope_is_subset_of s s = true.
Proof. intros Hr. apply scope_subset_iff. split_and!; try done; try lia. by apply resource_subset_refl. Qed.

(** The bounds of the window, and the caveats, after a list of caveats. *)
Definition latest_start (nb : Z) (cs : list Caveat) : Z :=
  fold_left (fun b c => match c with NotBefore t => Z.max b t | _ => b end) cs nb.
Definition earliest_end (na : Z) (cs : list Caveat) : Z :=
  fold_left (fun e c => match c with ExpiresAt t => Z.min e t | _ => e end) cs na.
Definition recorded (old cs : list Caveat) : list Caveat :=
  fold_left (fun l c => if bool_decide (c ∈ l) then l else l ++ [c]) cs old.

Lemma latest_start_ge nb cs : nb <= latest_start nb cs.
Proof.
  revert nb. induction cs as [|c cs IH]; intros nb; simpl; [lia|].
  destruct c; try apply IH. etrans; [|apply IH]. lia.
Qed.
Lemma earliest_end_le na cs : earliest_end na cs <= na.
Proof.
  revert na. induction cs as [|c cs IH]; intros na; simpl; [lia|].
  destruct c; try apply IH. etrans; [apply IH|]. lia.
Qed.

(** One caveat narrows the window to the intersection, or fails when that is
    inverted; on a resource that is a subset of itself the final check of
    [apply_caveat] never fires. *)
Lemma apply_caveat_ok s c :
  resource_wf (resource s) ->
  let w := mkWindow (latest_start (not_before (window s)) [c]) (earliest_end (not_after (window s)) [c]) in
  apply_caveat s c =
    if not_after w <? not_before w then Err AttenuationViolation
    else Ok (mkScope (action s) (resource s) w (recorded (caveats s) [c])).
Proof.
  intros Hr w. unfold apply_caveat.
  set (w' := match c with ExpiresAt _ => _ | _ => _ end).
  assert (w' = w) as ->.
  { subst w w'. destruct (window s) as [nb na]. destruct c; simpl; try done; case_code; zbool; f_equal; lia. }
  destruct (not_after w <? not_before w) eqn:E; [done|]. cbv zeta.
  change (if bool_decide (c ∈ caveats s) then _ else _) with (recorded (caveats s) [c]).
  match goal with |- context [scope_is_subset_of ?x s] => assert (scope_is_subset_of x s = true) as ->; [|done] end.
  apply scope_subset_iff. simpl. split_and!; [done|by apply resource_subset_refl|..].
  - destruct c; simpl; lia.
  - destruct c; simpl; lia.
  - intros d Hd. case_bool_decide; set_solver.
Qed.

Lemma apply_caveats_ok s cs :
  resource_wf (resource s) -> not_before (window s) <= not_after (window s) ->
  let w := mkWindow (latest_start (not_before (window s)) cs) (earliest_end (not_after (window s)) cs) in
  apply_caveats s cs =
    if not_after w <? not_before w then Err AttenuationViolation
    else Ok (mkScope (action s) (resource s) w (recorded (caveats s) cs)).
Proof.
  revert s. induction cs as [|c cs IH]; intros s Hr Hw; cbn [apply_caveats].
  { simpl. destruct (_ <? _) eqn:E; zbool; [lia|]. destruct s as [? ? [] ?]. done. }
  rewrite apply_caveat_ok by done. cbv zeta.
  set (b := latest_start (not_before (window s)) [c]). set (e := earliest_end (not_after (window s)) [c]).
  change (latest_start (not_before (window s)) (c :: cs)) with (latest_start b cs).
  change (earliest_end (not_after (window s)) (c :: cs)) with (earliest_end e cs).
  cbn [not_after not_before]. destruct (e <? b) eqn:E1; simpl; zbool.
  - pose proof (latest_start_ge b cs). pose proof (earliest_end_le e cs).
    by rewrite (proj2 (Z.ltb_lt _ _)) by lia.
  - by rewrite IH by (simpl; done || lia).
Qed.

(** ** Properties *)

(** Order is authority: when one scope is a subset of another, every use
    the first authorises (its action, an access its resource pattern admits,
    a time in its window, under its caveats) the second authorises too. *)
Theorem scope_subset_sound (ctx : Caveat -> Prop) (child parent : Scope) (act : Action) (a : access) (now : Z) :
  scope_is_subset_of child parent = true ->
  authorises ctx child act a now -> authorises ctx parent act a now.
Proof.
  rewrite scope_subset_iff. intros (Ha & Hr & Hw & Hc) (H1 & H2 & H3 & H4). split_and!.
  - congruence.
  - by eapply resource_subset_sound.
  - unfold window_contains in *. apply andb_true_iff in H3. apply andb_true_iff. lia.
  - apply Forall_forall. intros c Hc'. rewrite Forall_forall in H4. auto.
Qed.

Lemma scope_subset_sound_witness :
  authorises (fun _ => True)
    (mkScope Read (Filesystem [47; 97; 47; 42; 42]) (mkWindow 0 100) []) Read (AccPath [47; 97; 47; 98]) 5.
Proof.
  apply (scope_subset_sound (fun _ => True)
    (mkScope Read (Filesystem [47; 97; 47; 98]) (mkWindow 1 9) [ExpiresAt 9])); [vm_compute; reflexivity|].
  split_and!; [reflexivity|vm_compute; reflexivity|reflexivity|by repeat constructor].
Defined.

(** The scope order is a preorder: transitive, and reflexive exactly on
    the scopes whose resource is not a network endpoint without a colon. *)
Theorem scope_preorder (s1 s2 s3 : Scope) :
  (scope_is_subset_of s1 s1 = true <-> resource_wf (resource s1)) /\
  (scope_is_subset_of s1 s2 = true -> scope_is_subset_of s2 s3 = true -> scope_is_subset_of s1 s3 = true).
Proof.
  split; [|apply scope_subset_transitive]. split; [|apply scope_subset_refl].
  rewrite scope_subset_iff, <- resource_subset_refl. by intros (_ & ? & _).
Qed.

(** Path patterns: the decision [path_is_subset] makes is exactly the
    inclusion of the sets of paths the two patterns match. *)
Theorem path_subset_exact (a b : str) :
  resource_is_subset_of (Filesystem a) (Filesystem b) = true <->
  (forall p, admits (Filesystem a) (AccPath p) -> admits (Filesystem b) (AccPath p)).
Proof. exact (path_subset_iff a b). Qed.

(** Attenuation by a list of caveats: the action and the resource are
    kept, the window becomes the intersection of the old one with all the
    bounds, the new caveats are recorded after the old ones without
    duplicates; the result is a subset of the original; and it fails exactly
    when that intersection is inverted. *)
Theorem attenuation_exact (s : Scope) (cs : list Caveat) :
  resource_wf (resource s) -> not_before (window s) <= not_after (window s) ->
  let w := mkWindow (latest_start (not_before (window s)) cs) (earliest_end (not_after (window s)) cs) in
  let child := mkScope (action s) (resource s) w (recorded (caveats s) cs) in
  apply_caveats s cs = (if not_after w <? not_before w then Err AttenuationViolation else Ok child) /\
  scope_is_subset_of child s = true.
Proof.
  intros Hr Hw w child. split; [by apply apply_caveats_ok|].
  apply scope_subset_iff. split_and!; [done|by apply resource_subset_refl|..].
  - apply latest_start_ge.
  - apply earliest_end_le.
  - intros c Hc. subst child. cbn [caveats]. unfold recorded. clear w. revert Hc. generalize (caveats s).
    induction cs as [|d cs IH]; intros l Hl; simpl; [done|]. apply IH. case_bool_decide; set_solver.
Qed.

Lemma attenuation_exact_witness :
  apply_caveats (mkScope Write (IpcChannel 4) (mkWindow 10 90) []) [ExpiresAt 50; NotBefore 20; ExpiresAt 70] =
    Ok (mkScope Write (IpcChannel 4) (mkWindow 20 50) [ExpiresAt 50; NotBefore 20; ExpiresAt 70]).
Proof.
  exact (proj1 (attenuation_exact (mkScope Write (IpcChannel 4) (mkWindow 10 90) [])
    [ExpiresAt 50; NotBefore 20; ExpiresAt 70] I ltac:(simpl; lia))).
Defined.
