(* ===== verification/Revocation.v ===== *)
(** * Revocation list ([crates/nexacore-capability/src/revocation.rs])

    A Bloom filter in front of the authoritative set of revoked token ids.
    The hash is [domain_separated_hash] of [crates/nexacore-crypto/src/hash.rs],
    a tagged BLAKE3; BLAKE3 itself is a third-party function and a parameter
    of the whole file. *)

From S2P Require Import Prelude Bitmap.

Abbreviation CapabilityId := bytes.

(** The bytes of a string literal. *)
Definition ascii_bytes (s : string) : bytes :=
  (fun c => Z.of_N (Ascii.N_of_ascii c)) <$> String.list_ascii_of_string s.

Record MicroBloom := mkBloom { bloom_bits : bytes; num_bits : Z; num_hashes : Z }.

Record RevocationList := mkRevList { bloom : MicroBloom; full : gset CapabilityId }.

Section Hash.
Context (blake3 : bytes -> bytes).

Definition domain_separated_hash (domain : string) (data : bytes) : bytes :=
  blake3 (ascii_bytes "OMNI-DOMAIN-v1" ++ [0] ++ ascii_bytes domain ++ [0] ++ data).

(** [x.next_multiple_of(8)], which panics on overflow. *)
Definition next_multiple_of_8 (x : Z) : exec Z :=
  let r := x mod 8 in if r =? 0 then Done x else add_uint 64 x (8 - r).

(** [MicroBloom::new]. *)
Definition bloom_new (expected : Z) : exec MicroBloom :=
  let n := Z.max expected 8 in
  n10 ← mul_uint 64 n 10;
  num_bits ← next_multiple_of_8 n10;
  let num_bytes := num_bits / 8 in
  Done (mkBloom (replicate (Z.to_nat num_bytes) 0) num_bits 7).

Definition base_hashes (item : bytes) : Z * Z :=
  let h0 := domain_separated_hash "nexacore-capability::bloom::h0" item in
  let h1 := domain_separated_hash "nexacore-capability::bloom::h1" item in
  (from_le (take 8 h0), from_le (take 8 h1)).

(** The first [num_hashes] slots of the array [indices] returns. *)
Definition indices (b : MicroBloom) (item : bytes) : list Z :=
  let '(h0, h1) := base_hashes item in
  let m := num_bits b in
  (fun i => wrapping_add 64 h0 (wrapping_mul 64 i h1) mod m) <$> seqZ 0 (num_hashes b).

(** The loop of [insert]. *)
Fixpoint set_bits (idxs : list Z) (bs : bytes) : exec bytes :=
  match idxs with
  | [] => Done bs
  | idx :: idxs =>
      let byte := idx / 8 in
      let bit := idx mod 8 in
      x ← index bs byte;
      bs' ← index_set bs byte (bit_set x bit);
      set_bits idxs bs'
  end.

Definition bloom_insert (item : bytes) (b : MicroBloom) : exec MicroBloom :=
  bs ← set_bits (indices b item) (bloom_bits b);
  Done (mkBloom bs (num_bits b) (num_hashes b)).

(** The loop of [might_contain]. *)
Fixpoint all_set (idxs : list Z) (bs : bytes) : exec bool :=
  match idxs with
  | [] => Done true
  | idx :: idxs =>
      let byte := idx / 8 in
      let bit := idx mod 8 in
      x ← index bs byte;
      if negb (bit_test x bit) then Done false else all_set idxs bs
  end.

Definition might_contain (item : bytes) (b : MicroBloom) : exec bool :=
  all_set (indices b item) (bloom_bits b).

Definition with_expected_capacity (expected : Z) : exec RevocationList :=
  b ← bloom_new expected;
  Done (mkRevList b ∅).

(** [RevocationList::new]. *)
Definition revlist_new : exec RevocationList := with_expected_capacity 1024.

Definition revoke (id : CapabilityId) (r : RevocationList) : exec RevocationList :=
  b ← bloom_insert id (bloom r);
  Done (mkRevList b ({[ id ]} ∪ full r)).

(** [RevocationList::contains], [len] and [is_empty]. *)
Definition revoked (id : CapabilityId) (r : RevocationList) : exec bool :=
  c ← might_contain id (bloom r);
  if negb c then Done false else Done (bool_decide (id ∈ full r)).

Definition revlist_len (r : RevocationList) : Z := Z.of_nat (size (full r)).
Definition revlist_is_empty (r : RevocationList) : bool := bool_decide (full r = ∅).

(** ** Invariant *)

Definition bloom_wf (b : MicroBloom) : Prop :=
  0 < num_bits b /\ num_bits b = 8 * Z.of_nat (length (bloom_bits b)).

(** Every bit of every revoked id is set. *)
Definition revlist_wf (r : RevocationList) : Prop :=
  bloom_wf (bloom r) /\
  forall id idx, id ∈ full r -> idx ∈ indices (bloom r) id ->
    bits 8 (bloom_bits (bloom r)) !! Z.to_nat idx = Some true.

Lemma indices_range b item idx : bloom_wf b -> idx ∈ indices b item -> 0 <= idx < num_bits b.
Proof.
  intros [Hp _]. unfold indices. destruct (base_hashes item) as [h0 h1].
  intros (i & -> & _)%list_elem_of_fmap. by apply Z.mod_pos_bound.
Qed.

(** One step of [insert] sets exactly one bit. *)
Lemma set_bit_ok idx bs :
  0 <= idx < 8 * Z.of_nat (length bs) ->
  exists x bs', index bs (idx / 8) = Done x /\ index_set bs (idx / 8) (bit_set x (idx mod 8)) = Done bs' /\
    length bs' = length bs /\ bits 8 bs' = <[Z.to_nat idx := true]> (bits 8 bs).
Proof.
  intros Hi. destruct (bits_index 8 ltac:(lia) idx (length bs) ltac:(lia)) as (Hb & Hm & He).
  destruct (lookup_lt_is_Some_2 bs _ Hb) as [x Hx].
  exists x, (<[Z.to_nat (idx / 8) := bit_set x (idx mod 8)]> bs).
  split; [by apply index_Done|]. split; [by apply index_set_Done|]. split; [by rewrite length_insert|].
  rewrite <- He. apply (bits_insert 8 ltac:(lia) bs _ x); [done| |done].
  by apply word_bits_set.
Qed.

Lemma set_bits_ok idxs bs :
  Forall (fun idx => 0 <= idx < 8 * Z.of_nat (length bs)) idxs ->
  exists bs', set_bits idxs bs = Done bs' /\ length bs' = length bs /\
    (forall k, bits 8 bs !! k = Some true -> bits 8 bs' !! k = Some true) /\
    (forall idx, idx ∈ idxs -> bits 8 bs' !! Z.to_nat idx = Some true).
Proof.
  revert bs. induction idxs as [|idx idxs IH]; intros bs Hall; cbn [set_bits].
  { exists bs. split_and!; [done..|]. by intros idx ?%not_elem_of_nil. }
  inversion Hall as [|? ? Hi Hall']; subst.
  destruct (set_bit_ok idx bs Hi) as (x & bs1 & -> & Hs & Hlen & Hbits). cbn [mbind exec_bind]. rewrite Hs.
  destruct (IH bs1) as (bs' & Hbs & Hlen' & Hmono & Hset); [by rewrite Hlen|].
  assert (Hkeep : forall k, bits 8 bs !! k = Some true -> bits 8 bs1 !! k = Some true).
  { intros k Hk. rewrite Hbits, list_lookup_insert. by case_decide. }
  exists bs'. split_and!; [done|congruence|auto|].
  intros j [->|Hj]%elem_of_cons; [|auto]. apply Hmono. rewrite Hbits.
  apply list_lookup_insert_eq. rewrite length_bits by lia. lia.
Qed.

Lemma all_set_ok idxs bs :
  Forall (fun idx => 0 <= idx < 8 * Z.of_nat (length bs)) idxs ->
  exists b, all_set idxs bs = Done b /\
    (b = true <-> forall idx, idx ∈ idxs -> bits 8 bs !! Z.to_nat idx = Some true).
Proof.
  induction idxs as [|idx idxs IH]; intros Hall; cbn [all_set].
  { exists true. split; [done|]. split; [|done]. by intros _ idx ?%not_elem_of_nil. }
  inversion Hall as [|? ? Hi Hall']; subst.
  destruct (bits_index 8 ltac:(lia) idx (length bs) ltac:(lia)) as (Hb & Hm & He).
  destruct (lookup_lt_is_Some_2 bs _ Hb) as [x Hx]. rewrite (index_Done _ _ _ Hx). cbn [mbind exec_bind].
  pose proof (bits_lookup 8 ltac:(lia) bs _ x (idx mod 8) Hx Hm) as Hbit. rewrite He in Hbit.
  rewrite bit_test_testbit by lia. destruct (Z.testbit x (idx mod 8)) eqn:Et; cbn [negb].
  - destruct (IH Hall') as (b & -> & Hb'). exists b. split; [done|]. rewrite Hb'. split.
    + intros H j [->|Hj]%elem_of_cons; auto.
    + intros H j Hj. apply H. by right.
  - exists false. split; [done|]. split; [done|]. intros H.
    specialize (H idx ltac:(left)). congruence.
Qed.

Lemma indices_all b item :
  bloom_wf b -> Forall (fun idx => 0 <= idx < 8 * Z.of_nat (length (bloom_bits b))) (indices b item).
Proof.
  intros Hb. apply Forall_forall. intros idx Hidx. pose proof (indices_range b item idx Hb Hidx).
  destruct Hb as [_ Hb]. lia.
Qed.

Lemma revoke_ok id r :
  revlist_wf r -> exists r', revoke id r = Done r' /\ revlist_wf r' /\ full r' = {[ id ]} ∪ full r.
Proof.
  intros [Hb Hset]. unfold revoke, bloom_insert.
  destruct (set_bits_ok _ _ (indices_all (bloom r) id Hb)) as (bs & -> & Hlen & Hmono & Hnew).
  eexists. split; [reflexivity|]. split; [|done]. cbn [bloom full].
  split; [split; [apply Hb|]; cbn [bloom num_bits bloom_bits]; rewrite Hlen; apply Hb|].
  intros i idx Hi Hidx. change (idx ∈ indices (bloom r) i) in Hidx. cbn [bloom bloom_bits].
  apply elem_of_union in Hi as [->%elem_of_singleton|Hi]; [by apply Hnew|]. by eapply Hmono, Hset.
Qed.

Lemma revoked_ok id r : revlist_wf r -> revoked id r = Done (bool_decide (id ∈ full r)).
Proof.
  intros [Hb Hset]. unfold revoked, might_contain.
  destruct (all_set_ok _ _ (indices_all (bloom r) id Hb)) as (b & -> & Hiff). cbn [mbind exec_bind].
  destruct b; [done|]. cbn [negb]. f_equal. symmetry. apply bool_decide_eq_false_2. intros Hin.
  destruct Hiff as [_ Hiff]. discriminate Hiff. intros idx Hidx. by eapply Hset.
Qed.

Lemma with_expected_capacity_ok n :
  0 <= n < 2 ^ 60 ->
  exists r, with_expected_capacity n = Done r /\ revlist_wf r /\ full r = ∅.
Proof.
  intros Hn. unfold with_expected_capacity, bloom_new. rewrite mul_uint_Done by lia. cbn [mbind exec_bind].
  assert (exists m, next_multiple_of_8 (Z.max n 8 * 10) = Done m /\ 0 < m /\ m = 8 * (m / 8)) as (m & -> & Hm & Hd).
  { unfold next_multiple_of_8. cbv zeta. set (x := Z.max n 8 * 10).
    assert (80 <= x < 2 ^ 60 * 11) by lia. destruct (Z.eqb_spec (x mod 8) 0) as [E|E].
    - exists x. split; [done|]. split; [lia|]. pose proof (Z.div_mod x 8). lia.
    - pose proof (Z.mod_pos_bound x 8). exists (x + (8 - x mod 8)). split; [apply add_uint_Done; lia|].
      split; [lia|]. pose proof (Z.div_mod x 8).
      replace (x + (8 - x mod 8)) with ((x / 8 + 1) * 8) by lia. rewrite Z.div_mul by lia. lia. }
  cbn [mbind exec_bind]. eexists. split; [reflexivity|]. split; [|done].
  split; [split; cbn [bloom num_bits bloom_bits]; [done|rewrite length_replicate; lia]|].
  intros id idx Hid. cbn [full] in Hid. by apply not_elem_of_empty in Hid.
Qed.

(** A list built by [with_expected_capacity] and a sequence of [revoke]s. *)
Fixpoint revoke_all (ids : list CapabilityId) (r : RevocationList) : exec RevocationList :=
  match ids with [] => Done r | id :: ids => r' ← revoke id r; revoke_all ids r' end.

Lemma revoke_all_ok ids r :
  revlist_wf r -> exists r', revoke_all ids r = Done r' /\ revlist_wf r' /\ full r' = list_to_set ids ∪ full r.
Proof.
  revert r. induction ids as [|id ids IH]; intros r Hr; cbn [revoke_all].
  { exists r. split_and!; [done..|]. set_solver. }
  destruct (revoke_ok id r Hr) as (r1 & -> & Hr1 & Hf1). cbn [mbind exec_bind].
  destruct (IH r1 Hr1) as (r' & -> & Hr' & Hf'). exists r'. split_and!; [done..|]. set_solver.
Qed.
End Hash.

(** ** Properties *)

(** C29.  The revocation list is exact for every hash function: a list of any
    initial capacity below [2^60], after any sequence of revocations (none of
    which panics), answers [true] for exactly the ids revoked: the Bloom
    filter in front of the set has no false negatives. *)
Theorem revocation_exact (blake3 : bytes -> bytes) (capacity : Z) (ids : list CapabilityId) (id : CapabilityId) :
  0 <= capacity < 2 ^ 60 ->
  exists r0 r, with_expected_capacity capacity = Done r0 /\ revoke_all blake3 ids r0 = Done r /\
    revoked blake3 id r = Done (bool_decide (id ∈ ids)) /\
    (revlist_is_empty r = true <-> ids = []).
Proof.
  intros Hc. destruct (with_expected_capacity_ok blake3 capacity Hc) as (r0 & H0 & Hwf0 & Hf0).
  destruct (revoke_all_ok blake3 ids r0 Hwf0) as (r & H & Hwf & Hf). exists r0, r. split_and!; [done..| |].
  - rewrite revoked_ok by done. f_equal. apply bool_decide_ext. rewrite Hf, Hf0. set_solver.
  - unfold revlist_is_empty. rewrite bool_decide_eq_true, Hf, Hf0. destruct ids; set_solver.
Qed.

Lemma revocation_exact_witness :
  exists r0 r, with_expected_capacity 4 = Done r0 /\ revoke_all (fun b => b) [[1; 2]; [3]] r0 = Done r /\
    revoked (fun b => b) [3] r = Done true.
Proof.
  destruct (revocation_exact (fun b => b) 4 [[1; 2]; [3]] [3]) as (r0 & r & H0 & H & Hr & _); [lia|].
  exists r0, r. split_and!; [exact H0|exact H|exact Hr].
Defined.
