(* ===== verification/Token.v ===== *)
(** * Capability tokens
    ([crates/nexacore-capability/src/token.rs], [attenuation.rs], [crl.rs],
    [enforcement.rs], [clock.rs], [tee.rs])

    Signed tokens, their verification, their attenuation into chains, the
    signed revocation list and the enforcement check.  Ed25519 and the wire
    encoder are third-party code: the class [Ed25519] is what the crate uses
    of a signature scheme, and the encoders and decoders are parameters.
    Random identifiers are arguments. *)

From S2P Require Import Prelude Scope Revocation.

Abbreviation NodeId := bytes.

(** The signature scheme, and the one law the code relies on: a signature made
    with a key verifies under its verifying key. *)
Class Ed25519 := {
  NexaCoreSigningKey : Type;
  NexaCoreVerifyingKey : Type;
  NexaCoreSignature : Type;
  verifying_key : NexaCoreSigningKey -> NexaCoreVerifyingKey;
  sign : NexaCoreSigningKey -> bytes -> NexaCoreSignature;
  verify : NexaCoreVerifyingKey -> bytes -> NexaCoreSignature -> bool
}.

Class Ed25519Correct (C : Ed25519) : Prop :=
  verify_sign : forall k m, verify (verifying_key k) m (sign k m) = true.

Record TokenPayload {C : Ed25519} := mkPayload {
  id : CapabilityId;
  subject : NodeId;
  issuer : NexaCoreVerifyingKey;
  parent : option CapabilityId;
  scope : Scope
}.

Record CapabilityToken {C : Ed25519} := mkToken {
  payload : TokenPayload;
  signature : NexaCoreSignature
}.

Definition CRL_FORMAT_VERSION : Z := 1.

Record CrlBody {C : Ed25519} := mkCrlBody {
  version : Z;
  crl_issuer : NexaCoreVerifyingKey;
  crl_issued_at : Z;
  next_update : Z;
  revoked_ids : list CapabilityId
}.

Record SignedCrl {C : Ed25519} := mkCrl { body : CrlBody; crl_signature : NexaCoreSignature }.

Arguments mkPayload {C}.
Arguments mkToken {C}.
Arguments mkCrlBody {C}.
Arguments mkCrl {C}.

(** [wire::encode_canonical] on the two signed records. *)
Class Wire (C : Ed25519) := {
  encode_payload : TokenPayload -> option bytes;
  encode_crl : CrlBody -> option bytes
}.

Section Tokens.
Context {C : Ed25519} {W : Wire C}.

(** ** Tokens *)

(** [TokenPayload::canonical_bytes]. *)
Definition canonical_bytes (p : TokenPayload) : CapResult bytes := ok_or (encode_payload p) MalformedToken.

Definition sign_payload (issuer_key : NexaCoreSigningKey) (p : TokenPayload) : CapResult CapabilityToken :=
  bs ← canonical_bytes p;
  Ok (mkToken p (sign issuer_key bs)).

Definition mint (issuer_key : NexaCoreSigningKey) (new_id : CapabilityId) (subj : NodeId) (s : Scope)
    (par : option CapabilityId) : CapResult CapabilityToken :=
  let p := mkPayload new_id subj (verifying_key issuer_key) par s in
  bs ← canonical_bytes p;
  Ok (mkToken p (sign issuer_key bs)).

Definition verify_signature (t : CapabilityToken) : CapResult () :=
  bs ← canonical_bytes (payload t);
  if verify (issuer (payload t)) bs (signature t) then Ok () else Err InvalidSignature.

(** [attestation] is the answer of [AttestationSource::current_node_id]. *)
Definition verify_full (blake3 : bytes -> bytes) (now : Z) (attestation : option NodeId) (revocation : RevocationList)
    (t : CapabilityToken) : exec (CapResult ()) :=
  match verify_signature t with
  | Err e => Done (Err e)
  | Ok _ =>
      is_revoked ← revoked blake3 (id (payload t)) revocation;
      if (is_revoked : bool) then Done (Err Revoked)
      else if now <? not_before (window (scope (payload t))) then Done (Err NotYetValid)
      else if not_after (window (scope (payload t))) <=? now then Done (Err Expired)
      else
        match attestation with
        | None => Done (Err AttestationMismatch)
        | Some local_node =>
            if negb (bool_decide (local_node = subject (payload t))) then Done (Err AttestationMismatch)
            else Done (Ok ())
        end
  end.

(** ** Delegation *)

Definition attenuate (par : CapabilityToken) (issuer_key : NexaCoreSigningKey) (new_id : CapabilityId)
    (cs : list Caveat) : CapResult CapabilityToken :=
  new_scope ← apply_caveats (scope (payload par)) cs;
  if negb (scope_is_subset_of new_scope (scope (payload par))) then Err AttenuationViolation
  else
    sign_payload issuer_key
      (mkPayload new_id (subject (payload par)) (verifying_key issuer_key)
         (Some (id (payload par))) new_scope).

Definition verify_chain_link (par child : CapabilityToken) : CapResult () :=
  if negb (bool_decide (parent (payload child) = Some (id (payload par)))) then Err AttenuationViolation
  else if negb (scope_is_subset_of (scope (payload child)) (scope (payload par)))
  then Err AttenuationViolation
  else Ok ().

(** ** Signed revocation lists *)

Definition crl_canonical_bytes (b : CrlBody) : CapResult bytes := ok_or (encode_crl b) MalformedToken.

(** [CrlBody::is_revoked] and [SignedCrl::is_revoked]. *)
Definition is_revoked (cid : CapabilityId) (b : CrlBody) : bool :=
  existsb (fun r => bool_decide (r = cid)) (revoked_ids b).
Definition crl_is_revoked (cid : CapabilityId) (crl : SignedCrl) : bool := is_revoked cid (body crl).

Definition crl_sign (issuer_key : NexaCoreSigningKey) (issued next : Z) (ids : list CapabilityId) :
    CapResult SignedCrl :=
  let b := mkCrlBody CRL_FORMAT_VERSION (verifying_key issuer_key) issued next ids in
  bs ← crl_canonical_bytes b;
  Ok (mkCrl b (sign issuer_key bs)).

Definition crl_verify (crl : SignedCrl) : CapResult () :=
  if negb (version (body crl) =? CRL_FORMAT_VERSION) then Err MalformedToken
  else
    bs ← crl_canonical_bytes (body crl);
    if verify (crl_issuer (body crl)) bs (crl_signature crl) then Ok () else Err InvalidSignature.

(** ** Enforcement

    [clock] is the answer of [Clock::now_unix_secs].  The subtraction of
    [duration_secs] panics on an inverted window. *)
Definition check_capability (cap : CapabilityToken) (crl : SignedCrl) (clock : option Z) : exec (CapResult ()) :=
  match verify_signature cap with
  | Err e => Done (Err e)
  | Ok _ =>
      match clock with
      | None => Done (Err Expired)
      | Some now_secs =>
          let w := window (scope (payload cap)) in
          d ← duration_secs w;
          match check_at (mkValidity (not_before w) d) now_secs with
          | Err e => Done (Err e)
          | Ok _ =>
              match crl_verify crl with
              | Err e => Done (Err e)
              | Ok _ =>
                  if next_update (body crl) <=? now_secs then Done (Err Expired)
                  else if crl_is_revoked (id (payload cap)) crl then Done (Err Revoked)
                  else Done (Ok ())
              end
          end
      end
  end.

(** ** Lemmas *)

Lemma sign_payload_verifies `{!Ed25519Correct C} k p t :
  sign_payload k p = Ok t -> issuer p = verifying_key k ->
  payload t = p /\ verify_signature t = Ok ().
Proof.
  unfold sign_payload. destruct (canonical_bytes p) as [bs|] eqn:E; simpl; [|done].
  intros [= <-] Hi. split; [done|]. unfold verify_signature. simpl. rewrite E. simpl.
  by rewrite Hi, verify_sign.
Qed.

Lemma verify_full_iff blake3 now attestation revs t :
  revlist_wf blake3 revs ->
  verify_full blake3 now attestation revs t = Done (Ok ()) <->
    verify_signature t = Ok () /\ (id (payload t) ∉ full revs) /\
    not_before (window (scope (payload t))) <= now < not_after (window (scope (payload t))) /\
    attestation = Some (subject (payload t)).
Proof.
  intros Hr. unfold verify_full.
  destruct (verify_signature t) as [[]|e]; [|by split; [|intros (? & _)]].
  rewrite revoked_ok by done. cbn [mbind exec_bind].
  case_bool_decide as Hin; [split; [done|]; by intros (_ & ? & _)|].
  destruct (now <? _) eqn:E1; zbool; [split; [done|]; intros (_ & _ & ? & _); lia|].
  destruct (_ <=? now) eqn:E2; zbool; [split; [done|]; intros (_ & _ & ? & _); lia|].
  destruct attestation as [n|]; [|split; [done|]; by intros (_ & _ & _ & ?)].
  case_bool_decide as Hs; simpl; [by subst|]. split; [done|]. intros (_ & _ & _ & [= ?]). congruence.
Qed.

Lemma verify_chain_link_iff par child :
  verify_chain_link par child = Ok () <->
  parent (payload child) = Some (id (payload par)) /\
  scope_is_subset_of (scope (payload child)) (scope (payload par)) = true.
Proof.
  unfold verify_chain_link. case_bool_decide; simpl; [|by split; [|intros (? & _)]].
  destruct (scope_is_subset_of _ _); simpl; by split; [|intros (_ & ?)].
Qed.

Lemma check_at_window nb na now :
  0 <= nb <= na -> na < 2 ^ 64 ->
  check_at (mkValidity nb (na - nb)) now =
    if now <? nb then Err NotYetValid else if na <=? now then Err Expired else Ok ().
Proof.
  intros Hn Hna. unfold check_at, vw_not_after, checked_add. simpl.
  replace (nb + (na - nb)) with na by lia. by rewrite (proj2 (Z.ltb_lt na (2 ^ 64))) by lia.
Qed.

Lemma is_revoked_iff cid b : is_revoked cid b = true <-> cid ∈ revoked_ids b.
Proof.
  unfold is_revoked. rewrite existsb_exists. setoid_rewrite bool_decide_eq_true.
  setoid_rewrite <- list_elem_of_In. naive_solver.
Qed.

(** A list of tokens in which each is a verified link to the one before. *)
Fixpoint chain_ok (t : CapabilityToken) (ts : list CapabilityToken) : Prop :=
  match ts with
  | [] => True
  | u :: ts => verify_chain_link t u = Ok () /\ chain_ok u ts
  end.

Lemma chain_subset t ts u :
  chain_ok t ts -> u ∈ ts -> scope_is_subset_of (scope (payload u)) (scope (payload t)) = true.
Proof.
  revert t. induction ts as [|v ts IH]; intros t; simpl; [by intros _ ?%not_elem_of_nil|].
  intros [Hl Hc] Hu. apply verify_chain_link_iff in Hl as [_ Hs].
  apply elem_of_cons in Hu as [->|Hu]; [done|]. eauto using scope_subset_transitive.
Qed.
End Tokens.

(** ** A concrete instance: signatures are the pair of key and message *)

#[local] Instance demo_ed25519 : Ed25519 := {|
  NexaCoreSigningKey := Z; NexaCoreVerifyingKey := Z; NexaCoreSignature := Z * bytes;
  verifying_key := fun k => k;
  sign := fun k m => (k, m);
  verify := fun v m s => bool_decide (s = (v, m))
|}.

#[local] Instance demo_ed25519_correct : Ed25519Correct demo_ed25519.
Proof. intros k m. by apply bool_decide_eq_true_2. Qed.

#[local] Instance demo_wire : Wire demo_ed25519 := {|
  encode_payload := fun p => Some (id p ++ subject p);
  encode_crl := fun b => Some [version b; crl_issued_at b; next_update b]
|}.

Definition demo_scope : Scope := mkScope IpcSend (IpcChannel 1) (mkWindow 10 90) [].
Definition demo_token : CapabilityToken :=
  mkToken (mkPayload [7] [1] 42 None demo_scope) (42, [7; 1]).
Definition demo_crl : SignedCrl := mkCrl (mkCrlBody 1 42 0 100 [[8]]) (42, [1; 0; 100]).

(** ** Properties *)

(** Full verification accepts a token exactly when its signature
    verifies under its issuer, its id is not revoked, the time is in its
    half-open window and the attested node is its subject; a revoked token
    with a good signature is reported as revoked whatever the time; and it
    never panics. *)
Theorem verify_full_exact {C : Ed25519} {W : Wire C} (blake3 : bytes -> bytes) (now : Z)
    (attestation : option NodeId) (revs : RevocationList) (t : CapabilityToken) :
  revlist_wf blake3 revs ->
  (verify_full blake3 now attestation revs t = Done (Ok ()) <->
     verify_signature t = Ok () /\ (id (payload t) ∉ full revs) /\
     not_before (window (scope (payload t))) <= now < not_after (window (scope (payload t))) /\
     attestation = Some (subject (payload t))) /\
  (verify_signature t = Ok () -> id (payload t) ∈ full revs ->
     verify_full blake3 now attestation revs t = Done (Err Revoked)) /\
  verify_full blake3 now attestation revs t <> Panic.
Proof.
  intros Hr. split; [by apply verify_full_iff|]. unfold verify_full.
  destruct (verify_signature t) as [[]|e]; [|by split]. rewrite revoked_ok by done. cbn [mbind exec_bind].
  split; [by intros _ ?; rewrite bool_decide_eq_true_2|]. by repeat case_code.
Qed.

Lemma verify_full_exact_witness :
  exists r, with_expected_capacity 8 = Done r /\
    verify_full (fun b => b) 50 (Some [1]) r demo_token = Done (Ok ()).
Proof.
  destruct (with_expected_capacity 8) as [r|] eqn:E; [|vm_compute in E; discriminate].
  exists r. split; [reflexivity|].
  destruct (with_expected_capacity_ok (fun b => b) 8) as (r' & E' & Hwf & Hf); [lia|].
  assert (r' = r) as -> by congruence.
  apply (verify_full_exact (fun b => b) 50 (Some [1]) r demo_token Hwf).
  split_and!; [reflexivity|rewrite Hf; apply not_elem_of_empty|simpl; lia|simpl; lia|reflexivity].
Defined.

(** Minting a restricted token: what [attenuate] returns verifies under
    the delegating key, is a verified link to its parent, keeps the subject,
    and its scope is a subset of the parent's. *)
Theorem attenuate_verifies {C : Ed25519} {W : Wire C} (par child : CapabilityToken) (k : NexaCoreSigningKey)
    (new_id : CapabilityId) (cs : list Caveat) :
  Ed25519Correct C -> attenuate par k new_id cs = Ok child ->
  verify_signature child = Ok () /\ verify_chain_link par child = Ok () /\
  subject (payload child) = subject (payload par) /\ id (payload child) = new_id /\
  apply_caveats (scope (payload par)) cs = Ok (scope (payload child)).
Proof.
  intros HC. unfold attenuate. destruct (apply_caveats _ cs) as [s|] eqn:Es; simpl; [|done].
  destruct (scope_is_subset_of s _) eqn:Esub; simpl; [|done]. intros Hs.
  destruct (sign_payload_verifies k _ child Hs eq_refl) as [Hp Hv]. split; [done|].
  rewrite verify_chain_link_iff, !Hp. cbn [id subject parent scope]. done.
Qed.

Lemma attenuate_verifies_witness :
  exists child, attenuate demo_token 42 [9] [ExpiresAt 40] = Ok child /\
    verify_chain_link demo_token child = Ok ().
Proof.
  destruct (attenuate demo_token 42 [9] [ExpiresAt 40]) as [child|] eqn:E; [|vm_compute in E; discriminate].
  exists child. split; [reflexivity|].
  exact (proj1 (proj2 (attenuate_verifies demo_token child 42 [9] [ExpiresAt 40] demo_ed25519_correct E))).
Defined.

(** C17.  Delegation chains never widen: in a chain whose links all verify, no
    token authorises a use that the first does not. *)
Theorem chain_authority {C : Ed25519} (root t : CapabilityToken) (ts : list CapabilityToken)
    (ctx : Caveat -> Prop) (act : Action) (a : access) (now : Z) :
  chain_ok root ts -> t ∈ ts ->
  authorises ctx (scope (payload t)) act a now -> authorises ctx (scope (payload root)) act a now.
Proof.
  intros Hc Ht. pose proof (chain_subset root ts t Hc Ht) as Hs.
  apply scope_subset_iff in Hs as (Ha & Hr & Hw & Hcs). intros (H1 & H2 & H3 & H4). split_and!.
  - congruence.
  - by eapply resource_subset_sound.
  - unfold window_contains in *. apply andb_true_iff in H3. apply andb_true_iff. lia.
  - apply Forall_forall. intros c Hc'. rewrite Forall_forall in H4. auto.
Qed.

Lemma chain_authority_witness :
  exists child, attenuate demo_token 42 [9] [ExpiresAt 40] = Ok child /\
    authorises (fun _ => True) (scope (payload demo_token)) IpcSend (AccChannel 1) 20.
Proof.
  destruct (attenuate demo_token 42 [9] [ExpiresAt 40]) as [child|] eqn:E; [|vm_compute in E; discriminate].
  exists child. split; [reflexivity|].
  assert (Ec : child = mkToken (mkPayload [9] [1] 42 (Some [7])
    (mkScope IpcSend (IpcChannel 1) (mkWindow 10 40) [ExpiresAt 40])) (42, [9; 1]))
    by (vm_compute in E; injection E as <-; reflexivity).
  apply (chain_authority demo_token child [child]); [|left|].
  - split; [|done]. rewrite Ec. vm_compute. reflexivity.
  - rewrite Ec. split_and!; [reflexivity|reflexivity|reflexivity|by repeat constructor].
Defined.

(** C23.  Enforcement: with a window that is not inverted, [check_capability]
    accepts exactly when the token's signature verifies, the clock can be
    read, the time is in the window, the revocation list verifies and is
    fresh, and the id is not on it.  It panics exactly when a correctly
    signed token with an inverted window is checked with a readable clock. *)
Theorem check_capability_exact {C : Ed25519} {W : Wire C} (cap : CapabilityToken) (crl : SignedCrl) (clock : option Z) :
  let w := window (scope (payload cap)) in
  0 <= not_before w < 2 ^ 64 -> 0 <= not_after w < 2 ^ 64 ->
  (check_capability cap crl clock = Done (Ok ()) <->
     verify_signature cap = Ok () /\ crl_verify crl = Ok () /\
     exists now, clock = Some now /\ not_before w <= now < not_after w /\
       now < next_update (body crl) /\ (id (payload cap) ∉ revoked_ids (body crl))) /\
  (check_capability cap crl clock = Panic <->
     verify_signature cap = Ok () /\ clock <> None /\ not_after w < not_before w).
Proof.
  intros w Hnb Hna. unfold check_capability, duration_secs, sub_uint. fold w.
  destruct (verify_signature cap) as [[]|]; [|by split; split; [|intros (? & _)| |intros (? & _)]].
  destruct clock as [now|]; [|by split; split; [|intros (_ & _ & ? & ? & _)| |intros (_ & ? & _)]].
  destruct (not_before w <=? not_after w) eqn:Ew; zbool; simpl.
  2: { split; split; try done. intros (_ & _ & n & [= <-] & ? & _). lia. }
  split; [|split; [|intros (_ & _ & ?); lia]; rewrite check_at_window by lia; by repeat case_code].
  rewrite check_at_window by lia. destruct (now <? _) eqn:E1; zbool.
  { split; [done|]. intros (_ & _ & n & [= <-] & ? & _). lia. }
  destruct (_ <=? now) eqn:E2; zbool.
  { split; [done|]. intros (_ & _ & n & [= <-] & ? & _). lia. }
  destruct (crl_verify crl) as [[]|]; [|by split; [|intros (_ & ? & _)]].
  destruct (next_update _ <=? now) eqn:E3; zbool.
  { split; [done|]. intros (_ & _ & n & [= <-] & _ & ? & _). lia. }
  unfold crl_is_revoked. pose proof (is_revoked_iff (id (payload cap)) (body crl)) as Hi.
  destruct (is_revoked _ _); split; try done.
  - intros (_ & _ & n & _ & _ & _ & Hn). by destruct Hn; apply Hi.
  - intros _. split_and!; [done..|]. exists now. split_and!; try done. by intros ?%Hi.
Qed.

Lemma check_capability_exact_witness :
  check_capability demo_token demo_crl (Some 50) = Done (Ok ()) /\
  check_capability (mkToken (mkPayload [7] [1] 42 None (mkScope IpcSend Any (mkWindow 9 3) [])) (42, [7; 1]))
    demo_crl (Some 50) = Panic.
Proof.
  split.
  - apply (check_capability_exact demo_token demo_crl (Some 50)); [simpl; lia|simpl; lia|].
    split_and!; [reflexivity|reflexivity|]. exists 50. split_and!; [reflexivity|simpl; lia|simpl; lia|simpl; lia|].
    simpl. intros ?%list_elem_of_singleton. congruence.
  - apply check_capability_exact; [simpl; lia|simpl; lia|]. split_and!; [reflexivity|done|simpl; lia].
Defined.
