(* ===== verification/Ipc.v ===== *)
(** * Inter-process channels
    ([crates/nexacore-kernel/src/ipc.rs], [capabilities.rs])

    [KernelIpcRegistry]: bounded message queues with access control decided at
    creation.  The capability check is the interface [KernelCapabilityCheck];
    [Ed25519CapabilityProvider] implements it and authenticates the signed
    tokens a channel may be created with. *)

From S2P Require Import Prelude Kernel Scope Revocation Token.

(** ** Kernel-side capabilities *)

Abbreviation KernelPrincipal := bytes.
(** [KernelPrincipal::ZERO]. *)
Definition ZERO : KernelPrincipal := replicate 32 0.

Inductive KernelAction := KIpcSend | KIpcRecv.
Inductive KernelResource := KIpcChannel (id : Z).

#[export] Instance KernelAction_eq_dec : EqDecision KernelAction.
Proof. solve_decision. Defined.
#[export] Instance KernelResource_eq_dec : EqDecision KernelResource.
Proof. solve_decision. Defined.

Record KernelCapabilityToken := mkKToken {
  kt_subject : KernelPrincipal;
  kt_action : KernelAction;
  kt_resource : KernelResource
}.

Inductive CapabilityVerdict := Authorised | Denied.

#[export] Instance CapabilityVerdict_eq_dec : EqDecision CapabilityVerdict.
Proof. solve_decision. Defined.

(** The trait a channel's creator is checked against. *)
Class KernelCapabilityCheck (P : Type) :=
  kverify : P -> KernelCapabilityToken -> KernelAction -> KernelResource -> CapabilityVerdict.

Record Ed25519CapabilityProvider := mkProvider { node_id_bytes : bytes }.

#[export] Instance Ed25519Provider_check : KernelCapabilityCheck Ed25519CapabilityProvider :=
  fun _ token act res =>
    if bool_decide (kt_action token = act) && bool_decide (kt_resource token = res)
    then Authorised else Denied.

(** The kernel's attestation source is the provider's own node id, and its
    revocation list is empty. *)
Definition verify_signed_token {C : Ed25519} {W : Wire C} (blake3 : bytes -> bytes)
    (self : Ed25519CapabilityProvider) (token : CapabilityToken) (now : Z) : exec CapabilityVerdict :=
  revocation ← revlist_new;
  r ← verify_full blake3 now (Some (node_id_bytes self)) revocation token;
  Done (match r with Ok _ => Authorised | Err _ => Denied end).

(** [decode] is [wire::decode_canonical]. *)
Definition decode_and_authenticate_token {C : Ed25519} {W : Wire C} (blake3 : bytes -> bytes)
    (decode : bytes -> option CapabilityToken) (bs : bytes) (expected_action : KernelAction)
    (provider : Ed25519CapabilityProvider) (now : Z) : exec (KernelResult KernelPrincipal) :=
  match decode bs with
  | None => Done (Err InvalidArgument)
  | Some token =>
      v ← verify_signed_token blake3 provider token now;
      if negb (bool_decide (v = Authorised)) then Done (Err CapabilityDenied)
      else
        let expected_user_action := match expected_action with KIpcSend => IpcSend | KIpcRecv => IpcRecv end in
        if negb (bool_decide (action (scope (payload token)) = expected_user_action)) then Done (Err CapabilityDenied)
        else
          match resource (scope (payload token)) with
          | IpcChannel _ => Done (Ok (subject (payload token)))
          | _ => Done (Err CapabilityDenied)
          end
  end.

(** ** Channels *)

Inductive MessageKind := MRequest | MReply | MNotification | MCapabilityHandoff | MSharedMemoryGrant.
Inductive BackpressurePolicy := Block | Drop | EvictOldest.

#[export] Instance MessageKind_eq_dec : EqDecision MessageKind.
Proof. solve_decision. Defined.
#[export] Instance BackpressurePolicy_eq_dec : EqDecision BackpressurePolicy.
Proof. solve_decision. Defined.

Record ChannelPolicy := mkPolicy { queue_depth : Z; backpressure : BackpressurePolicy; tee_bound : bool }.

Record MessageEnvelope := mkEnvelope { sender : Z; channel : Z; mkind : MessageKind; mpayload : bytes }.

Inductive WakeAction := WakeNone | Wake (t : Z) | WakeBlock (t : Z).

Record Channel := mkChannel {
  ch_id : Z;
  policy : ChannelPolicy;
  owner : Z;
  send_subject : option KernelPrincipal;
  recv_subject : option KernelPrincipal;
  queue : list MessageEnvelope;
  waiters_send : list Z;
  waiters_recv : list Z
}.

(** [Channel::new]. *)
Definition channel_new (id : Z) (p : ChannelPolicy) (own : Z) (ss rs : option KernelPrincipal) : Channel :=
  mkChannel id p own ss rs [] [] [].

Definition set_queues (c : Channel) (q : list MessageEnvelope) (ws wr : list Z) : Channel :=
  mkChannel (ch_id c) (policy c) (owner c) (send_subject c) (recv_subject c) q ws wr.

Definition MAX_CHANNELS_PER_OWNER : Z := 256.
Definition MAX_CHANNELS_TOTAL : Z := 4096.

Record KernelIpcRegistry := mkIpc { channels : gmap Z Channel; next_id : Z }.

Definition ipc_new : KernelIpcRegistry := mkIpc ∅ 1.

Definition channel_count (r : KernelIpcRegistry) : Z := Z.of_nat (size (channels r)).

(** [channels.values().filter(|c| c.owner == owner).count()] *)
Definition owned_count (own : Z) (r : KernelIpcRegistry) : Z :=
  Z.of_nat (size (filter (fun kc => owner kc.2 = own) (channels r))).

Definition enforce_channel_quota (own : Z) (r : KernelIpcRegistry) : KernelResult () :=
  if MAX_CHANNELS_TOTAL <=? channel_count r then Err ResourceExhausted
  else if MAX_CHANNELS_PER_OWNER <=? owned_count own r then Err ResourceExhausted
  else Ok ().

(** The tail of both creation functions: the channel is inserted before the
    identifier counter is advanced. *)
Definition insert_channel (own : Z) (p : ChannelPolicy) (ss rs : option KernelPrincipal) (r : KernelIpcRegistry) :
    KernelResult Z * KernelIpcRegistry :=
  let id := next_id r in
  let cs := <[id := channel_new id p own ss rs]> (channels r) in
  match checked_add 64 id 1 with
  | Some n => (Ok id, mkIpc cs n)
  | None => (Err ResourceExhausted, mkIpc cs id)
  end.

(** The subject a presented token is bound to. *)
Definition check_token {P} `{KernelCapabilityCheck P} (verifier : P) (tok : option KernelCapabilityToken)
    (act : KernelAction) (res : KernelResource) : KernelResult (option KernelPrincipal) :=
  match tok with
  | None => Ok None
  | Some t =>
      if negb (bool_decide (kverify verifier t act res = Authorised)) then Err CapabilityDenied
      else Ok (Some (kt_subject t))
  end.

Definition create_channel {P} `{KernelCapabilityCheck P} (own : Z) (p : ChannelPolicy)
    (send_token recv_token : option KernelCapabilityToken) (verifier : P) (r : KernelIpcRegistry) :
    KernelResult Z * KernelIpcRegistry :=
  if queue_depth p =? 0 then (Err InvalidArgument, r)
  else
    match enforce_channel_quota own r with
    | Err e => (Err e, r)
    | Ok _ =>
        let res := KIpcChannel (next_id r) in
        match check_token verifier send_token KIpcSend res with
        | Err e => (Err e, r)
        | Ok ss =>
            match check_token verifier recv_token KIpcRecv res with
            | Err e => (Err e, r)
            | Ok rs => insert_channel own p ss rs r
            end
        end
    end.

Definition authenticate_opt {C : Ed25519} {W : Wire C} (blake3 : bytes -> bytes)
    (decode : bytes -> option CapabilityToken) (bs : option bytes) (act : KernelAction)
    (provider : Ed25519CapabilityProvider) (now : Z) : exec (KernelResult (option KernelPrincipal)) :=
  match bs with
  | None => Done (Ok None)
  | Some b =>
      s ← decode_and_authenticate_token blake3 decode b act provider now;
      Done (match s with Ok p => Ok (Some p) | Err e => Err e end)
  end.

Definition create_channel_signed {C : Ed25519} {W : Wire C} (blake3 : bytes -> bytes)
    (decode : bytes -> option CapabilityToken) (own : Z) (p : ChannelPolicy)
    (send_token_bytes recv_token_bytes : option bytes) (provider : Ed25519CapabilityProvider) (now : Z)
    (r : KernelIpcRegistry) : exec (KernelResult Z * KernelIpcRegistry) :=
  match send_token_bytes, recv_token_bytes with
  | None, None => Done (create_channel own p None None provider r)
  | _, _ =>
      if queue_depth p =? 0 then Done (Err InvalidArgument, r)
      else
        match enforce_channel_quota own r with
        | Err e => Done (Err e, r)
        | Ok _ =>
            ss ← authenticate_opt blake3 decode send_token_bytes KIpcSend provider now;
            match ss with
            | Err e => Done (Err e, r)
            | Ok ss =>
                rs ← authenticate_opt blake3 decode recv_token_bytes KIpcRecv provider now;
                match rs with
                | Err e => Done (Err e, r)
                | Ok rs => Done (insert_channel own p ss rs r)
                end
            end
        end
  end.

Definition destroy_channel (ch requester : Z) (r : KernelIpcRegistry) : KernelResult () * KernelIpcRegistry :=
  match channels r !! ch with
  | None => (Err InvalidArgument, r)
  | Some entry =>
      if negb (owner entry =? requester) then (Err CapabilityDenied, r)
      else (Ok (), mkIpc (delete ch (channels r)) (next_id r))
  end.

(** Whether a principal may use an end restricted to [allowed]. *)
Definition permitted (allowed : option KernelPrincipal) (requester : KernelPrincipal) : bool :=
  match allowed with Some a => bool_decide (a = requester) | None => true end.

Definition put_channel (ch : Z) (c : Channel) (r : KernelIpcRegistry) : KernelIpcRegistry :=
  mkIpc (<[ch := c]> (channels r)) (next_id r).

(** The first waiter, and the rest. *)
Definition pop_waiter (ws : list Z) : WakeAction * list Z :=
  match ws with [] => (WakeNone, []) | t :: ws => (Wake t, ws) end.

(** [if !waiters.contains(&t) { waiters.push_back(t) }] *)
Definition add_waiter (t : Z) (ws : list Z) : list Z := if bool_decide (t ∈ ws) then ws else ws ++ [t].

Definition send (envelope : MessageEnvelope) (sender_task : Z) (requester : KernelPrincipal)
    (r : KernelIpcRegistry) : KernelResult WakeAction * KernelIpcRegistry :=
  match channels r !! channel envelope with
  | None => (Err InvalidArgument, r)
  | Some c =>
      if negb (permitted (send_subject c) requester) then (Err CapabilityDenied, r)
      else
        let env := mkEnvelope sender_task (ch_id c) (mkind envelope) (mpayload envelope) in
        let enqueue q :=
          let '(w, wr) := pop_waiter (waiters_recv c) in
          (Ok w, put_channel (channel envelope) (set_queues c (q ++ [env]) (waiters_send c) wr) r) in
        if queue_depth (policy c) <=? Z.of_nat (length (queue c)) then
          match backpressure (policy c) with
          | Drop => (Err ResourceExhausted, r)
          | EvictOldest => enqueue (drop 1 (queue c))
          | Block =>
              (Ok (WakeBlock sender_task),
               put_channel (channel envelope)
                 (set_queues c (queue c) (add_waiter sender_task (waiters_send c)) (waiters_recv c)) r)
          end
        else enqueue (queue c)
  end.

Definition receive (ch requester_task : Z) (requester : KernelPrincipal) (blocking : bool)
    (r : KernelIpcRegistry) :
    KernelResult (option MessageEnvelope * WakeAction) * KernelIpcRegistry :=
  match channels r !! ch with
  | None => (Err InvalidArgument, r)
  | Some c =>
      if negb (permitted (recv_subject c) requester) then (Err CapabilityDenied, r)
      else
        match queue c with
        | env :: q =>
            let '(w, ws) := pop_waiter (waiters_send c) in
            (Ok (Some env, w), put_channel ch (set_queues c q ws (waiters_recv c)) r)
        | [] =>
            if blocking then
              (Ok (None, WakeBlock requester_task),
               put_channel ch (set_queues c (queue c) (waiters_send c) (add_waiter requester_task (waiters_recv c))) r)
            else (Ok (None, WakeNone), r)
        end
  end.

(** [KernelIpcRegistry::queue_depth]. *)
Definition channel_depth (ch : Z) (r : KernelIpcRegistry) : KernelResult Z :=
  ok_or ((fun c => Z.of_nat (length (queue c))) <$> channels r !! ch) InvalidArgument.

(** ** Invariant *)

Record channel_wf (id : Z) (c : Channel) : Prop := {
  cw_id : ch_id c = id;
  cw_depth : 0 < queue_depth (policy c);
  cw_queue : Z.of_nat (length (queue c)) <= queue_depth (policy c);
  cw_env : Forall (fun e => channel e = id) (queue c);
  cw_ws : NoDup (waiters_send c);
  cw_wr : NoDup (waiters_recv c)
}.

Record ipc_wf (r : KernelIpcRegistry) : Prop := {
  iw_channel : forall id c, channels r !! id = Some c -> 0 < id <= next_id r /\ channel_wf id c;
  iw_fresh : next_id r < uint_max 64 -> channels r !! next_id r = None;
  iw_total : channel_count r <= MAX_CHANNELS_TOTAL;
  iw_owned : forall o, owned_count o r <= MAX_CHANNELS_PER_OWNER;
  iw_next : 0 < next_id r < 2 ^ 64
}.

Inductive ipc_step : KernelIpcRegistry -> KernelIpcRegistry -> Prop :=
| step_create P (H : KernelCapabilityCheck P) o p st rt (v : P) r :
    0 <= queue_depth p -> ipc_step r (create_channel o p st rt v r).2
| step_signed C (W : Wire C) blake3 decode o p sb rb pr now r res r' :
    0 <= queue_depth p ->
    create_channel_signed blake3 decode o p sb rb pr now r = Done (res, r') -> ipc_step r r'
| step_destroy ch t r : ipc_step r (destroy_channel ch t r).2
| step_send e t q r : ipc_step r (send e t q r).2
| step_receive ch t q b r : ipc_step r (receive ch t q b r).2.

Lemma pop_waiter_nodup ws : NoDup ws -> NoDup (pop_waiter ws).2.
Proof. intros H. destruct ws; [done|]. by apply NoDup_cons in H as [_ ?]. Qed.

Lemma add_waiter_nodup t ws : NoDup ws -> NoDup (add_waiter t ws).
Proof.
  intros H. unfold add_waiter. case_bool_decide as E; [done|].
  apply NoDup_app. split_and!; [done| |apply NoDup_singleton]. intros x Hx ->%list_elem_of_singleton. done.
Qed.

Lemma owned_put ch c c' r o :
  channels r !! ch = Some c -> owner c' = owner c -> owned_count o (put_channel ch c' r) = owned_count o r.
Proof.
  intros Hc Ho. unfold owned_count, put_channel. cbn [channels]. f_equal.
  destruct (decide (owner c = o)) as [E|E].
  - rewrite map_filter_insert_True by (simpl; congruence).
    rewrite map_size_insert_Some; [done|]. exists c. apply map_lookup_filter_Some. by simpl.
  - rewrite map_filter_insert_False by (simpl; congruence).
    f_equal. apply map_eq. intros k. rewrite !map_lookup_filter.
    destruct (decide (k = ch)) as [->|]; [|by rewrite lookup_delete_ne].
    rewrite lookup_delete_eq, Hc. simpl. by rewrite option_guard_False.
Qed.

Lemma put_channel_wf ch c c' r :
  ipc_wf r -> channels r !! ch = Some c -> owner c' = owner c -> channel_wf ch c' -> ipc_wf (put_channel ch c' r).
Proof.
  intros Hr Hc Ho Hwf. destruct (iw_channel r Hr ch c Hc) as [Hid _]. constructor.
  - intros k x. cbn [put_channel channels next_id]. rewrite lookup_insert. case_decide as E; [|apply Hr].
    intros [= <-]. by subst k.
  - intros Hn. cbn [put_channel channels next_id] in *. rewrite lookup_insert_ne; [by apply Hr|].
    intros ->. pose proof (iw_fresh r Hr Hn). congruence.
  - unfold channel_count. cbn [put_channel channels]. rewrite map_size_insert_Some by eauto. apply Hr.
  - intros o. rewrite (owned_put ch c c' r o Hc Ho). apply Hr.
  - apply Hr.
Qed.

Lemma owned_insert_le id c r n o :
  owned_count o (mkIpc (<[id := c]> (channels r)) n) <=
    owned_count o r + (if bool_decide (owner c = o) then 1 else 0).
Proof.
  unfold owned_count. cbn [channels]. case_bool_decide as E.
  - rewrite map_filter_insert_True by done. rewrite map_size_insert. destruct (_ !! id); unfold Datatypes.id; lia.
  - rewrite map_filter_insert_False, Z.add_0_r by done.
    apply inj_le, map_subseteq_size, map_filter_subseteq_mono, delete_subseteq.
Qed.

Lemma quota_ok o r :
  enforce_channel_quota o r = Ok () ->
  channel_count r < MAX_CHANNELS_TOTAL /\ owned_count o r < MAX_CHANNELS_PER_OWNER.
Proof. unfold enforce_channel_quota. repeat case_code; try done. zbool. lia. Qed.

Lemma insert_channel_wf o p ss rs r :
  ipc_wf r -> enforce_channel_quota o r = Ok () -> 0 < queue_depth p ->
  ipc_wf (insert_channel o p ss rs r).2.
Proof.
  intros Hr Hq Hd. apply quota_ok in Hq as [Ht Ho]. pose proof (iw_next r Hr) as Hn.
  unfold insert_channel. set (c := channel_new _ _ _ _ _).
  assert (Hc : channel_wf (next_id r) c) by (constructor; simpl; try done; try lia; constructor).
  assert (H : forall n, next_id r <= n < 2 ^ 64 -> (n < uint_max 64 -> next_id r < n) ->
    ipc_wf (mkIpc (<[next_id r := c]> (channels r)) n)).
  { intros n Hn' Hfresh. constructor; cbn [channels next_id].
    - intros k x. rewrite lookup_insert. case_decide as E; [intros [= <-]; subst k; split; [lia|done]|].
      intros Hx. destruct (iw_channel r Hr k x Hx) as [? ?]. split; [lia|done].
    - intros Hlt. specialize (Hfresh Hlt). rewrite lookup_insert_ne by lia.
      destruct (channels r !! n) as [x|] eqn:E; [|done]. destruct (iw_channel r Hr _ x E). lia.
    - unfold channel_count in *. cbn [channels]. rewrite map_size_insert. destruct (_ !! _); unfold Datatypes.id; lia.
    - intros o'. etrans; [apply owned_insert_le|]. cbn [channel_new owner c]. pose proof (iw_owned r Hr o').
      case_bool_decide; [subst; lia|lia].
    - lia. }
  unfold checked_add. destruct (_ <? _) eqn:E; zbool; cbn [snd]; apply H; unfold uint_max; lia.
Qed.

Lemma destroy_wf ch t r : ipc_wf r -> ipc_wf (destroy_channel ch t r).2.
Proof.
  intros Hr. unfold destroy_channel. destruct (channels r !! ch) as [c|] eqn:E; [|done].
  destruct (negb _); [done|]. constructor; cbn [snd channels next_id].
  - intros k x. rewrite lookup_delete. case_decide; [done|apply Hr].
  - intros Hn. rewrite lookup_delete. case_decide; [done|]. by apply Hr.
  - unfold channel_count. cbn [channels]. rewrite map_size_delete_Some by eauto. pose proof (iw_total r Hr).
    unfold channel_count in *. lia.
  - intros o. etrans; [|apply (iw_owned r Hr o)]. unfold owned_count. cbn [channels].
    apply inj_le, map_subseteq_size, map_filter_subseteq_mono, delete_subseteq.
  - apply Hr.
Qed.

(** What [send] does to the queue of its channel. *)
Definition send_queue (c : Channel) (env : MessageEnvelope) : option (list MessageEnvelope) :=
  if queue_depth (policy c) <=? Z.of_nat (length (queue c)) then
    match backpressure (policy c) with EvictOldest => Some (drop 1 (queue c) ++ [env]) | _ => None end
  else Some (queue c ++ [env]).

Lemma enqueue_wf id c env q :
  channel_wf id c -> send_queue c env = Some q -> channel env = id ->
  channel_wf id (set_queues c q (waiters_send c) (pop_waiter (waiters_recv c)).2).
Proof.
  intros [] Hq He. unfold send_queue in Hq. constructor; simpl; try done.
  - destruct (_ <=? _) eqn:E; zbool.
    + destruct (backpressure (policy c)); simplify_eq. rewrite length_app, length_drop. simpl. lia.
    + simplify_eq. rewrite length_app. simpl. lia.
  - destruct (_ <=? _); [destruct (backpressure (policy c))|]; simplify_eq; apply Forall_app_2; auto using Forall_drop.
  - by apply pop_waiter_nodup.
Qed.

Lemma send_wf e t q r : ipc_wf r -> ipc_wf (send e t q r).2.
Proof.
  intros Hr. unfold send. destruct (channels r !! channel e) as [c|] eqn:Hc; [|done].
  destruct (negb _); [done|]. destruct (iw_channel r Hr _ c Hc) as [_ Hcw]. cbv zeta.
  pose proof (enqueue_wf (channel e) c (mkEnvelope t (ch_id c) (mkind e) (mpayload e))) as Henq.
  unfold send_queue in Henq. destruct (_ <=? _); [destruct (backpressure (policy c))|].
  - apply (put_channel_wf _ c); [done|done|done|]. destruct Hcw. constructor; try done. by apply add_waiter_nodup.
  - done.
  - destruct (pop_waiter _) as [w wr]. apply (put_channel_wf _ c); [done|done|done|]. apply Henq; [done|done|apply Hcw].
  - destruct (pop_waiter _) as [w wr]. apply (put_channel_wf _ c); [done|done|done|]. apply Henq; [done|done|apply Hcw].
Qed.

Lemma receive_wf ch t q b r : ipc_wf r -> ipc_wf (receive ch t q b r).2.
Proof.
  intros Hr. unfold receive. destruct (channels r !! ch) as [c|] eqn:Hc; [|done].
  destruct (negb _); [done|]. destruct (iw_channel r Hr _ c Hc) as [_ []].
  destruct (queue c) as [|env qs] eqn:Eq.
  - destruct b; [|done]. apply (put_channel_wf _ c); [done|done|done|]. constructor; simpl; try done; try lia.
    by apply add_waiter_nodup.
  - pose proof (pop_waiter_nodup _ cw_ws0) as Hp. destruct (pop_waiter _) as [w ws].
    apply (put_channel_wf _ c); [done|done|done|]. constructor; simpl in *; try done; try lia.
    by inversion cw_env0.
Qed.

Lemma channel_create_wf {P} `{KernelCapabilityCheck P} o p st rt (v : P) r :
  0 <= queue_depth p -> ipc_wf r -> ipc_wf (create_channel o p st rt v r).2.
Proof.
  intros Hd Hr. unfold create_channel. destruct (queue_depth p =? 0) eqn:E; [done|]. zbool.
  destruct (enforce_channel_quota o r) as [[]|] eqn:Eq; [|done].
  destruct (check_token _ st _ _); [|done]. destruct (check_token _ rt _ _); [|done].
  apply insert_channel_wf; [done|done|lia].
Qed.

Lemma create_signed_wf {C} {W : Wire C} blake3 decode o p sb rb pr now r res r' :
  0 <= queue_depth p -> ipc_wf r ->
  create_channel_signed blake3 decode o p sb rb pr now r = Done (res, r') -> ipc_wf r'.
Proof.
  intros Hd Hr. unfold create_channel_signed.
  assert (Hb : forall x : exec (KernelResult Z * KernelIpcRegistry),
    x = (if queue_depth p =? 0 then Done (Err InvalidArgument, r)
      else match enforce_channel_quota o r with
        | Err e => Done (Err e, r)
        | Ok _ =>
            ss ← authenticate_opt blake3 decode sb KIpcSend pr now;
            match ss with
            | Err e => Done (Err e, r)
            | Ok ss =>
                rs ← authenticate_opt blake3 decode rb KIpcRecv pr now;
                match rs with Err e => Done (Err e, r) | Ok rs => Done (insert_channel o p ss rs r) end
            end
        end) -> x = Done (res, r') -> ipc_wf r').
  { intros x ->. destruct (queue_depth p =? 0) eqn:E; [by intros [= _ <-]|]. zbool.
    destruct (enforce_channel_quota o r) as [[]|] eqn:Eq; [|by intros [= _ <-]].
    destruct (authenticate_opt _ _ sb _ _ _) as [[ss|]|]; simpl; [|by intros [= _ <-]|done].
    destruct (authenticate_opt _ _ rb _ _ _) as [[rs|]|]; simpl; [|by intros [= _ <-]|done].
    intros [= Hi]. replace r' with (insert_channel o p ss rs r).2 by (by rewrite Hi).
    apply insert_channel_wf; [done|done|lia]. }
  destruct sb; [by apply Hb|]. destruct rb; [by apply Hb|].
  intros [= Hi]. replace r' with (create_channel o p None None pr r).2 by (by rewrite Hi). by apply channel_create_wf.
Qed.

Lemma ipc_step_wf r r' : ipc_step r r' -> ipc_wf r -> ipc_wf r'.
Proof.
  intros [] Hr; [by apply channel_create_wf|by eapply create_signed_wf|by apply destroy_wf|by apply send_wf|by apply receive_wf].
Qed.

Lemma ipc_new_wf : ipc_wf ipc_new.
Proof.
  constructor; cbn [ipc_new channels next_id].
  - intros id c. by rewrite lookup_empty.
  - done.
  - vm_compute. done.
  - intros o. unfold owned_count. cbn [ipc_new channels]. rewrite map_filter_empty, map_size_empty. vm_compute. done.
  - lia.
Qed.

(** ** Message streams *)

Inductive ipc_op :=
| OpSend (e : MessageEnvelope) (t : Z) (q : KernelPrincipal)
| OpReceive (ch t : Z) (q : KernelPrincipal) (blocking : bool).

Definition apply_ipc (o : ipc_op) (r : KernelIpcRegistry) : KernelIpcRegistry :=
  match o with
  | OpSend e t q => (send e t q r).2
  | OpReceive ch t q b => (receive ch t q b r).2
  end.

(** The message channel [ch] takes in, with the sender the kernel stamps on
    it, and the message it gives out. *)
Definition taken (ch : Z) (o : ipc_op) (r : KernelIpcRegistry) : list MessageEnvelope :=
  match o with
  | OpSend e t q =>
      if bool_decide (channel e = ch) then
        match (send e t q r).1 with
        | Ok (WakeBlock _) | Err _ => []
        | Ok _ => [mkEnvelope t ch (mkind e) (mpayload e)]
        end
      else []
  | OpReceive _ _ _ _ => []
  end.

Definition given (ch : Z) (o : ipc_op) (r : KernelIpcRegistry) : list MessageEnvelope :=
  match o with
  | OpSend _ _ _ => []
  | OpReceive c t q b =>
      if bool_decide (c = ch) then
        match (receive c t q b r).1 with Ok (Some e, _) => [e] | _ => [] end
      else []
  end.

Fixpoint history (f : Z -> ipc_op -> KernelIpcRegistry -> list MessageEnvelope) (ch : Z) (os : list ipc_op)
    (r : KernelIpcRegistry) : list MessageEnvelope :=
  match os with
  | [] => []
  | o :: os => f ch o r ++ history f ch os (apply_ipc o r)
  end.

Definition run_ipc (os : list ipc_op) (r : KernelIpcRegistry) : KernelIpcRegistry :=
  fold_left (fun r o => apply_ipc o r) os r.

Lemma pop_waiter_not_block ws t : (pop_waiter ws).1 <> WakeBlock t.
Proof. by destruct ws. Qed.

(** One operation: the queue grows at its end by what is taken in and loses at
    its head what is given out. *)
Lemma apply_ipc_queue o r ch c :
  ipc_wf r -> channels r !! ch = Some c -> backpressure (policy c) <> EvictOldest ->
  exists c', channels (apply_ipc o r) !! ch = Some c' /\ policy c' = policy c /\
    queue c ++ taken ch o r = given ch o r ++ queue c'.
Proof.
  intros Hr Hc Hp. destruct (iw_channel r Hr ch c Hc) as [_ Hcw].
  destruct o as [e t q|k t q b]; cbn [apply_ipc taken given].
  - unfold send. case_bool_decide as Ech.
    2: { destruct (channels r !! channel e) as [d|] eqn:Ed; [|exists c; by rewrite app_nil_r].
         exists c. rewrite app_nil_r. destruct (negb _); [done|]. cbv zeta.
         destruct (pop_waiter _). destruct (_ <=? _); [destruct (backpressure (policy d))|]; try done;
           cbn [snd put_channel channels]; by rewrite lookup_insert_ne. }
    rewrite Ech, Hc. destruct (negb _); [exists c; by rewrite app_nil_r|]. cbv zeta. rewrite (cw_id ch c Hcw).
    destruct (_ <=? _); [destruct (backpressure (policy c)) eqn:Eb|].
    + cbn [fst snd put_channel channels]. rewrite lookup_insert_eq, app_nil_r. eexists. by split.
    + exists c. by rewrite app_nil_r.
    + done.
    + pose proof (pop_waiter_not_block (waiters_recv c)) as Hw. destruct (pop_waiter _) as [w wr].
      cbn [fst snd put_channel channels] in *. rewrite lookup_insert_eq. eexists. split; [done|]. split; [done|].
      cbn [set_queues queue]. destruct w; try done. by destruct (Hw t0).
  - setoid_rewrite app_nil_r. unfold receive. case_bool_decide as Ech.
    2: { exists c. destruct (channels r !! k) as [d|]; [|done]. destruct (negb _); [done|].
         destruct (queue d); [destruct b; [|done]|destruct (pop_waiter _)];
           cbn [snd put_channel channels]; by rewrite lookup_insert_ne. }
    subst k. rewrite Hc. destruct (negb _); [by exists c|]. destruct (queue c) as [|env qs] eqn:Eq.
    + destruct b; cbn [fst snd put_channel channels]; [rewrite lookup_insert_eq|exists c; by rewrite Eq].
      eexists. split; [done|]. split; [done|]. cbn [set_queues queue]. done.
    + destruct (pop_waiter _) as [w ws]. cbn [fst snd put_channel channels]. rewrite lookup_insert_eq.
      eexists. split; [done|]. by split.
Qed.

Lemma ipc_stream os r ch c :
  ipc_wf r -> channels r !! ch = Some c -> backpressure (policy c) <> EvictOldest ->
  exists c', channels (run_ipc os r) !! ch = Some c' /\
    queue c ++ history taken ch os r = history given ch os r ++ queue c'.
Proof.
  revert r c. induction os as [|o os IH]; intros r c Hr Hc Hp; cbn [history run_ipc fold_left].
  { exists c. by rewrite app_nil_r. }
  destruct (apply_ipc_queue o r ch c Hr Hc Hp) as (c1 & Hc1 & Hp1 & Hq).
  assert (Hr1 : ipc_wf (apply_ipc o r)) by (destruct o; [by apply send_wf|by apply receive_wf]).
  destruct (IH (apply_ipc o r) c1 Hr1 Hc1) as (c' & Hc' & Hq'); [congruence|].
  exists c'. split; [done|]. rewrite app_assoc, Hq, <- !app_assoc. f_equal. done.
Qed.

(** ** Properties *)

(** The channel registry stays within its quotas: in every state reached
    by creating (with or without signed tokens), destroying, sending and
    receiving, there are at most 4096 channels and 256 per owner, every queue
    is within its depth, holds only messages addressed to its own channel,
    and no task waits twice on an end. *)
Theorem ipc_invariant (r : KernelIpcRegistry) : rtc ipc_step ipc_new r -> ipc_wf r.
Proof. apply reach_inv; [exact ipc_step_wf|exact ipc_new_wf]. Qed.

Definition demo_policy : ChannelPolicy := mkPolicy 2 Block false.
Definition demo_ipc : KernelIpcRegistry := (create_channel 7 demo_policy None None (mkProvider []) ipc_new).2.

Lemma demo_ipc_reached : rtc ipc_step ipc_new demo_ipc.
Proof. apply rtc_once. apply step_create. simpl. lia. Qed.

Lemma ipc_invariant_witness : rtc ipc_step ipc_new demo_ipc /\ ipc_wf demo_ipc.
Proof. split; [exact demo_ipc_reached|]. apply (ipc_invariant demo_ipc). exact demo_ipc_reached. Defined.

(** A channel that does not evict delivers what it accepts, in order and
    without loss or duplication: over any sequence of sends and receives by
    anybody, the messages queued at first and then accepted are those given
    out followed by those still queued, and each carries the sender the
    kernel stamped on it, whatever its envelope claimed. *)
Theorem ipc_fifo (os : list ipc_op) (r : KernelIpcRegistry) (ch : Z) (c : Channel) :
  ipc_wf r -> channels r !! ch = Some c -> backpressure (policy c) <> EvictOldest ->
  exists c', channels (run_ipc os r) !! ch = Some c' /\
    queue c ++ history taken ch os r = history given ch os r ++ queue c'.
Proof. apply ipc_stream. Qed.

Lemma ipc_fifo_witness :
  let e := mkEnvelope 99 1 MRequest [5] in
  let os := [OpSend e 3 []; OpSend e 4 []; OpSend e 5 []; OpReceive 1 6 [] true] in
  history taken 1 os demo_ipc = [mkEnvelope 3 1 MRequest [5]; mkEnvelope 4 1 MRequest [5]] /\
  exists c', channels (run_ipc os demo_ipc) !! 1 = Some c' /\
    [] ++ history taken 1 os demo_ipc = history given 1 os demo_ipc ++ queue c'.
Proof.
  intros e os. split; [vm_compute; reflexivity|].
  refine (ipc_fifo os demo_ipc 1 (channel_new 1 demo_policy 7 None None) _ _ _).
  - apply (reach_inv ipc_step ipc_wf ipc_new); [exact ipc_step_wf|exact ipc_new_wf|exact demo_ipc_reached].
  - reflexivity.
  - done.
Defined.

(** ** Access control over time *)

(** Channel [id], while it exists, is sent to by [s] and owned by [own], and its identifier is used up. *)
Definition guarded (id own : Z) (s : KernelPrincipal) (r : KernelIpcRegistry) : Prop :=
  id < next_id r /\ forall c, channels r !! id = Some c -> send_subject c = Some s /\ owner c = own.

Lemma guarded_insert id own s o p ss rs r : guarded id own s r -> guarded id own s (insert_channel o p ss rs r).2.
Proof.
  intros [Hlt Hc]. unfold insert_channel, checked_add. destruct (_ <? _); cbn [snd]; (split; [cbn [next_id]; lia|]);
    intros c; cbn [channels]; rewrite lookup_insert_ne by lia; apply Hc.
Qed.
Lemma guarded_put id own s ch c c' r :
  guarded id own s r -> channels r !! ch = Some c -> send_subject c' = send_subject c -> owner c' = owner c ->
  guarded id own s (put_channel ch c' r).
Proof.
  intros [Hlt Hg] Hc Es Eo. split; [done|]. intros d. cbn [put_channel channels]. rewrite lookup_insert. case_decide as E; [|apply Hg].
  subst ch. intros [= <-]. rewrite Es, Eo. by apply Hg.
Qed.
Lemma guarded_create {P} `{KernelCapabilityCheck P} id own s o p st rt (v : P) r :
  guarded id own s r -> guarded id own s (create_channel o p st rt v r).2.
Proof.
  intros Hg. unfold create_channel. destruct (_ =? _); [done|]. destruct (enforce_channel_quota o r); [|done].
  destruct (check_token _ st _ _); [|done]. destruct (check_token _ rt _ _); [|done]. by apply guarded_insert.
Qed.
Lemma guarded_signed {C} {W : Wire C} id own s blake3 decode o p sb rb pr now r res r' :
  create_channel_signed blake3 decode o p sb rb pr now r = Done (res, r') -> guarded id own s r -> guarded id own s r'.
Proof.
  intros He Hg. unfold create_channel_signed in He.
  destruct sb, rb; try (injection He as He; replace r' with (create_channel o p None None pr r).2 by (by rewrite He); by apply guarded_create);
    (destruct (_ =? _); [by injection He as _ <-|]); (destruct (enforce_channel_quota o r); [|by injection He as _ <-]);
    (destruct (authenticate_opt _ _ _ KIpcSend _ _) as [[ss|]|]; cbn [mbind exec_bind] in He; [|by injection He as _ <-|done]);
    (destruct (authenticate_opt _ _ _ KIpcRecv _ _) as [[rs|]|]; cbn [mbind exec_bind] in He; [|by injection He as _ <-|done]);
    injection He as He; replace r' with (insert_channel o p ss rs r).2 by (by rewrite He); by apply guarded_insert.
Qed.
(** Every operation of the registry, by anybody, keeps it. *)
Lemma guarded_step id own s r r' : ipc_step r r' -> guarded id own s r -> guarded id own s r'.
Proof.
  intros Hs Hg. destruct Hs as [P H o p st rt v r|C W blake3 decode o p sb rb pr now r res r' _ He|ch t r|e t q r|ch t q b r].
  - by apply guarded_create.
  - by eapply guarded_signed.
  - unfold destroy_channel. destruct (channels r !! ch); [|done]. destruct (negb _); [done|]. destruct Hg as [Hlt Hg]. split; [done|].
    intros d. cbn [snd channels]. rewrite lookup_delete_Some. intros [_ Hd]. by apply Hg.
  - unfold send. destruct (channels r !! channel e) as [c|] eqn:Hc; [|done]. destruct (negb _); [done|]. cbv zeta.
    destruct (pop_waiter _). destruct (_ <=? _); [destruct (backpressure (policy c))|]; try done; by eapply guarded_put.
  - unfold receive. destruct (channels r !! ch) as [c|] eqn:Hc; [|done]. destruct (negb _); [done|].
    destruct (queue c); [destruct b; [|done]|destruct (pop_waiter _)]; by eapply guarded_put.
Qed.
(** The error of an operation that is not allowed on channel [id]. *)
Definition refusal (id : Z) (r : KernelIpcRegistry) : KernelError :=
  if bool_decide (channels r !! id = None) then InvalidArgument else CapabilityDenied.
Lemma guarded_refuses id own s r :
  guarded id own s r ->
  (forall e t q, channel e = id -> q <> s -> send e t q r = (Err (refusal id r), r)) /\
  (forall t, t <> own -> destroy_channel id t r = (Err (refusal id r), r)).
Proof.
  intros [_ Hg]. unfold refusal, send, destroy_channel. split.
  - intros e t q -> Hq. destruct (channels r !! id) as [c|] eqn:Hc; [|by rewrite bool_decide_eq_true_2].
    destruct (Hg c eq_refl) as [-> _]. cbn [permitted]. by rewrite !bool_decide_eq_false_2 by congruence.
  - intros t Ht. destruct (channels r !! id) as [c|] eqn:Hc; [|by rewrite bool_decide_eq_true_2].
    destruct (Hg c eq_refl) as [_ ->]. by rewrite (proj2 (Z.eqb_neq _ _)), bool_decide_eq_false_2 by congruence.
Qed.

(** C27.  Signed channels: a channel created with a send token exists only if
    the token decodes, its signature verifies, the time is in its window, it
    is bound to this node and it grants sending on a channel.  From then on,
    after any sequence of creations, destructions, sends and receives by
    anybody, a send by any other principal than the token's subject, and a
    destruction by anybody but the owner, is refused and changes nothing: with
    [CapabilityDenied] while the channel exists, and as an unknown channel once
    its owner has destroyed it, since its identifier is not given out again. *)
Theorem ipc_signed_channel {C : Ed25519} {W : Wire C} (blake3 : bytes -> bytes)
    (decode : bytes -> option CapabilityToken) (own : Z) (p : ChannelPolicy) (sb : bytes) (rb : option bytes)
    (pr : Ed25519CapabilityProvider) (now id : Z) (r r' : KernelIpcRegistry) :
  create_channel_signed blake3 decode own p (Some sb) rb pr now r = Done (Ok id, r') ->
  channels r' !! id <> None /\
  exists token, decode sb = Some token /\ verify_signature token = Ok () /\
    window_contains (window (scope (payload token))) now = true /\
    subject (payload token) = node_id_bytes pr /\ action (scope (payload token)) = IpcSend /\
    (exists k, resource (scope (payload token)) = IpcChannel k) /\
    forall r'', rtc ipc_step r' r'' ->
      (forall e t q, channel e = id -> q <> subject (payload token) -> send e t q r'' = (Err (refusal id r''), r'')) /\
      (forall t, t <> own -> destroy_channel id t r'' = (Err (refusal id r''), r'')).
Proof.
  unfold create_channel_signed. destruct (queue_depth p =? 0); [done|].
  destruct (enforce_channel_quota own r); [|done]. unfold authenticate_opt at 2.
  destruct (decode_and_authenticate_token blake3 decode sb KIpcSend pr now) as [[ss|]|] eqn:Ed; cbn [mbind exec_bind]; try done.
  destruct (authenticate_opt blake3 decode rb KIpcRecv pr now) as [[rs|]|]; cbn [mbind exec_bind]; try done. intros [= Hi].
  unfold insert_channel in Hi. destruct (checked_add _ _ _) as [n|] eqn:Hn; [|by simplify_eq]. simplify_eq.
  unfold decode_and_authenticate_token in Ed. destruct (decode sb) as [token|]; [|done].
  unfold verify_signed_token, revlist_new in Ed.
  destruct (with_expected_capacity_ok blake3 1024) as (revs & Hrev & Hwf & Hfull); [lia|]. rewrite Hrev in Ed. simpl in Ed.
  destruct (verify_full blake3 now (Some (node_id_bytes pr)) revs token) as [[[]|e]|] eqn:Ev; simpl in Ed; try done.
  case_bool_decide as Ha; simpl in Ed; [|done].
  destruct (resource (scope (payload token))) eqn:Er; try done. simplify_eq.
  cbn [channels]. rewrite lookup_insert_eq. split; [done|].
  exists token. apply verify_full_iff in Ev as (Hsig & _ & Hnow & [= Hs]); [|done]. split_and!; try done.
  - unfold window_contains. apply andb_true_iff. lia.
  - eauto.
  - intros r'' Hr. apply guarded_refuses. revert Hr. apply reach_inv; [intros ? ?; apply guarded_step|].
    unfold checked_add in Hn. destruct (_ <? _); [|done]. injection Hn as <-.
    split; [cbn [next_id]; lia|]. intros c. cbn [channels]. rewrite lookup_insert_eq. by intros [= <-].
Qed.

#[local] Existing Instance demo_ed25519.
#[local] Existing Instance demo_wire.

Lemma ipc_signed_channel_witness :
  exists r' r'', create_channel_signed (fun b => b) (fun _ => Some demo_token) 7 demo_policy (Some [1; 2]) None
      (mkProvider [1]) 50 ipc_new = Done (Ok 1, r') /\
    send (mkEnvelope 0 1 MRequest []) 3 [1] r' = (Ok WakeNone, r'') /\
    send (mkEnvelope 0 1 MRequest []) 3 [2] r'' = (Err CapabilityDenied, r'').
Proof.
  destruct (create_channel_signed (fun b => b) (fun _ => Some demo_token) 7 demo_policy (Some [1; 2]) None
    (mkProvider [1]) 50 ipc_new) as [[res r']|] eqn:E; [|vm_compute in E; discriminate].
  assert (res = Ok 1) as -> by (vm_compute in E; congruence).
  exists r', (send (mkEnvelope 0 1 MRequest []) 3 [1] r').2. split; [reflexivity|].
  destruct (ipc_signed_channel (fun b => b) (fun _ => Some demo_token) 7 demo_policy [1; 2] None
    (mkProvider [1]) 50 1 ipc_new r' E) as (_ & token & [= <-] & _ & _ & _ & _ & _ & H).
  destruct (H (send (mkEnvelope 0 1 MRequest []) 3 [1] r').2) as [Hs _].
  { apply rtc_once. apply step_send. }
  assert (refusal 1 (send (mkEnvelope 0 1 MRequest []) 3 [1] r').2 = CapabilityDenied) as Er by (vm_compute in E; injection E as <-; vm_compute; reflexivity).
  split; [vm_compute in E; injection E as <-; vm_compute; reflexivity|]. rewrite <- Er at 1. apply Hs; [reflexivity|]. vm_compute. congruence.
Defined.
