(* ===== verification/Irq.v ===== *)
(** * Interrupt routing

    [nexacore-kernel/src/irq_table.rs]: the table that binds a device vector to an IPC channel, and
    [irq_notify], which the interrupt handler calls to queue a message on the channel of [Ipc]. *)

From S2P Require Import Prelude Kernel Scope Revocation Token Ipc.

Definition MAX_IRQ_VECTORS : nat := 256.
Definition IRQ_VECTOR_DEVICE_BASE : Z := 32.

Inductive IrqBindError := AlreadyBound | InvalidVector | NotBound | NotOwner | TableFull.
Record IrqBinding := mkBinding { irq_vector : Z; channel_id : Z; owner_task_id : Z; masked : bool }.
Abbreviation IrqTable := (list (option IrqBinding)).
Definition IrqTable_new : IrqTable := replicate MAX_IRQ_VECTORS None.

Definition validate_vector (vector : Z) : result IrqBindError nat :=
  if vector <? IRQ_VECTOR_DEVICE_BASE then Err InvalidVector else Ok (Z.to_nat vector).

(** A vector is a [u8], so the index is in the table. *)
Definition binding_at (t : IrqTable) (idx : nat) : option IrqBinding := default None (t !! idx).

Definition bind (t : IrqTable) (vector channel owner : Z) : result IrqBindError () * IrqTable :=
  match validate_vector vector with
  | Err e => (Err e, t)
  | Ok idx =>
      match binding_at t idx with
      | Some _ => (Err AlreadyBound, t)
      | None => (Ok (), <[idx := Some (mkBinding vector channel owner false)]> t)
      end
  end.
Definition unbind (t : IrqTable) (vector owner : Z) : result IrqBindError () * IrqTable :=
  match validate_vector vector with
  | Err e => (Err e, t)
  | Ok idx =>
      match binding_at t idx with
      | None => (Err NotBound, t)
      | Some b => if negb (owner_task_id b =? owner) then (Err NotOwner, t) else (Ok (), <[idx := None]> t)
      end
  end.
Definition lookup (t : IrqTable) (vector : Z) : option IrqBinding :=
  match validate_vector vector with Ok idx => binding_at t idx | Err _ => None end.
Definition set_masked (m : bool) (t : IrqTable) (vector : Z) : IrqTable :=
  match validate_vector vector with
  | Ok idx =>
      match binding_at t idx with
      | Some b => <[idx := Some (mkBinding (irq_vector b) (channel_id b) (owner_task_id b) m)]> t
      | None => t
      end
  | Err _ => t
  end.
Definition mask : IrqTable -> Z -> IrqTable := set_masked true.
Definition unmask : IrqTable -> Z -> IrqTable := set_masked false.


Definition notification (vector channel : Z) : MessageEnvelope := mkEnvelope 0 channel MNotification (to_le 8 vector).
(** The result of [send], the task to wake included, is dropped. *)
Definition irq_notify (t : IrqTable) (vector : Z) (r : KernelIpcRegistry) : KernelIpcRegistry :=
  match lookup t vector with
  | None => r
  | Some b => if masked b then r else (send (notification vector (channel_id b)) 0 ZERO r).2
  end.

(** ** Ownership *)

Inductive irq_op := OBind (vector channel owner : Z) | OUnbind (vector owner : Z) | OMask (vector : Z) | OUnmask (vector : Z).
Definition apply_irq (t : IrqTable) (o : irq_op) : IrqTable :=
  match o with
  | OBind v c w => (bind t v c w).2
  | OUnbind v w => (unbind t v w).2
  | OMask v => mask t v
  | OUnmask v => unmask t v
  end.
Definition run_irq (t : IrqTable) (os : list irq_op) : IrqTable := fold_left apply_irq os t.
Definition vector_of (o : irq_op) : Z := match o with OBind v _ _ | OUnbind v _ | OMask v | OUnmask v => v end.
(** Vectors are bytes. *)
Definition op_ok (o : irq_op) : Prop := 0 <= vector_of o < 256.

Definition table_ok (t : IrqTable) : Prop :=
  length t = MAX_IRQ_VECTORS /\ forall idx b, binding_at t idx = Some b -> irq_vector b = Z.of_nat idx /\ IRQ_VECTOR_DEVICE_BASE <= Z.of_nat idx.

Lemma binding_insert t idx idx' x :
  (idx < length t)%nat -> binding_at (<[idx := x]> t) idx' = if decide (idx' = idx) then x else binding_at t idx'.
Proof.
  intros Hl. unfold binding_at. destruct (decide (idx' = idx)) as [->|]; [by rewrite list_lookup_insert_eq|by rewrite list_lookup_insert_ne].
Qed.
Lemma insert_ok t idx x :
  table_ok t -> (idx < MAX_IRQ_VECTORS)%nat -> (forall b, x = Some b -> irq_vector b = Z.of_nat idx /\ IRQ_VECTOR_DEVICE_BASE <= Z.of_nat idx) -> table_ok (<[idx := x]> t).
Proof.
  intros [Hl Ht] Hi Hx. split; [by rewrite length_insert|]. intros idx' b. rewrite binding_insert by lia. destruct (decide (idx' = idx)) as [->|]; auto.
Qed.
(** One operation, seen from vector [v]: only its owner makes a binding go away. *)
Lemma apply_irq_spec t o v :
  table_ok t -> op_ok o -> 0 <= v < 256 ->
  table_ok (apply_irq t o) /\
  forall b, lookup t v = Some b -> o <> OUnbind v (owner_task_id b) ->
    exists m, lookup (apply_irq t o) v = Some (mkBinding (irq_vector b) (channel_id b) (owner_task_id b) m).
Proof.
  intros Ht Ho Hv. unfold op_ok in Ho. assert (forall b, lookup t v = Some b -> exists m, lookup t v = Some (mkBinding (irq_vector b) (channel_id b) (owner_task_id b) m)) as Hsame
    by (intros b Hb; exists (masked b); by destruct b). pose proof (proj1 Ht) as Hl. unfold MAX_IRQ_VECTORS in Hl.
  assert (forall idx x, (idx < 256)%nat -> idx <> Z.to_nat v -> lookup (<[idx := x]> t) v = lookup t v) as Hother.
  { intros idx x Hi Hne. unfold lookup, validate_vector. destruct (v <? IRQ_VECTOR_DEVICE_BASE); [done|]. rewrite binding_insert by lia. by rewrite decide_False by congruence. }
  assert (forall w, 0 <= w < 256 -> (Z.to_nat w < MAX_IRQ_VECTORS)%nat) as Hrange by (unfold MAX_IRQ_VECTORS; lia).
  destruct o as [w c ow|w ow|w|w]; cbn [apply_irq vector_of] in *; unfold bind, unbind, mask, unmask, set_masked, validate_vector;
    destruct (Z.ltb_spec w IRQ_VECTOR_DEVICE_BASE) as [|Hw]; cbn [snd]; try (split; [done|by intros b Hb _; apply Hsame]);
    destruct (binding_at t (Z.to_nat w)) as [b0|] eqn:Eb; cbn [snd]; try (split; [done|by intros b Hb _; apply Hsame]).
  - split; [apply insert_ok; [done|auto|]; intros b [= <-]; cbn; unfold IRQ_VECTOR_DEVICE_BASE in *; lia|]. intros b Hb _.
    rewrite Hother; [by apply Hsame|lia|]. intros E. unfold lookup, validate_vector in Hb. destruct (v <? IRQ_VECTOR_DEVICE_BASE); [done|]. congruence.
  - destruct (Z.eqb_spec (owner_task_id b0) ow) as [<-|Hne]; cbn [negb snd]; [|split; [done|by intros b Hb _; apply Hsame]].
    split; [apply insert_ok; auto; done|]. intros b Hb Hop. rewrite Hother; [by apply Hsame|lia|]. intros E. apply Hop.
    assert (w = v) as -> by lia. unfold lookup, validate_vector in Hb. destruct (v <? IRQ_VECTOR_DEVICE_BASE); [done|]. congruence.
  - split; [apply insert_ok; [done|auto|]; intros b [= <-]; exact (proj2 Ht _ b0 Eb)|]. intros b Hb _. destruct (decide (w = v)) as [->|].
    + unfold lookup, validate_vector in *. destruct (v <? IRQ_VECTOR_DEVICE_BASE); [done|]. rewrite binding_insert, decide_True by (done || lia).
      rewrite Eb in Hb. injection Hb as <-. eauto.
    + rewrite Hother by lia. by apply Hsame.
  - split; [apply insert_ok; [done|auto|]; intros b [= <-]; exact (proj2 Ht _ b0 Eb)|]. intros b Hb _. destruct (decide (w = v)) as [->|].
    + unfold lookup, validate_vector in *. destruct (v <? IRQ_VECTOR_DEVICE_BASE); [done|]. rewrite binding_insert, decide_True by (done || lia).
      rewrite Eb in Hb. injection Hb as <-. eauto.
    + rewrite Hother by lia. by apply Hsame.
Qed.
Lemma table_ok_new : table_ok IrqTable_new.
Proof.
  split; [apply length_replicate|]. intros idx b. unfold binding_at, IrqTable_new. destruct (replicate MAX_IRQ_VECTORS None !! idx) as [x|] eqn:E; [|done].
  apply lookup_replicate in E as [-> _]. done.
Qed.
Lemma run_irq_spec os t v :
  table_ok t -> Forall op_ok os -> 0 <= v < 256 ->
  table_ok (run_irq t os) /\
  forall b, lookup t v = Some b -> OUnbind v (owner_task_id b) ∉ os ->
    exists m, lookup (run_irq t os) v = Some (mkBinding (irq_vector b) (channel_id b) (owner_task_id b) m).
Proof.
  intros Ht Hos Hv. revert t Ht. induction Hos as [|o os Ho _ IH]; intros t Ht; cbn [run_irq fold_left].
  { split; [done|]. intros b Hb _. exists (masked b). by destruct b. }
  destruct (apply_irq_spec t o v Ht Ho Hv) as [Ht1 H1]. destruct (IH (apply_irq t o) Ht1) as [Ht2 H2]. split; [done|].
  intros b Hb Hn. apply not_elem_of_cons in Hn as [Hn1 Hn2]. destruct (H1 b Hb ltac:(congruence)) as [m Hm].
  destruct (H2 _ Hm Hn2) as [m' Hm']. by exists m'.
Qed.

(** Safety: in every table the operations produce, exceptions are never routed and each vector has at most
    the binding made for it; and a binding keeps its channel and its owner, whatever the other tasks do,
    until its owner removes it. *)
Theorem irq_ownership os os' v b :
  Forall op_ok os -> Forall op_ok os' -> 0 <= v < 256 ->
  let t := run_irq IrqTable_new os in
  lookup t v = Some b -> OUnbind v (owner_task_id b) ∉ os' ->
  irq_vector b = v /\ 32 <= v /\
  exists m, lookup (run_irq t os') v = Some (mkBinding v (channel_id b) (owner_task_id b) m).
Proof.
  intros Hos Hos' Hv t Hb Hn. destruct (run_irq_spec os IrqTable_new v table_ok_new Hos Hv) as [Ht _]. fold t in Ht.
  assert (irq_vector b = v /\ 32 <= v) as [E H32].
  { unfold lookup, validate_vector in Hb. destruct (Z.ltb_spec v IRQ_VECTOR_DEVICE_BASE) as [|Hge]; [done|]. destruct (proj2 Ht _ _ Hb) as [H1 _].
    unfold IRQ_VECTOR_DEVICE_BASE in Hge. lia. }
  split; [done|]. split; [done|]. destruct (run_irq_spec os' t v Ht Hos' Hv) as [_ H]. destruct (H b Hb Hn) as [m Hm]. exists m. by rewrite <- E at 2.
Qed.
Lemma irq_ownership_witness :
  exists m, lookup (run_irq (run_irq IrqTable_new [OBind 64 5 1]) [OUnbind 64 2; OBind 64 9 2; OMask 64]) 64 = Some (mkBinding 64 5 1 m).
Proof.
  destruct (irq_ownership [OBind 64 5 1] [OUnbind 64 2; OBind 64 9 2; OMask 64] 64 (mkBinding 64 5 1 false)) as (_ & _ & H).
  - repeat constructor; cbn; lia.
  - repeat constructor; cbn; lia.
  - lia.
  - vm_compute. reflexivity.
  - intros H. repeat (apply elem_of_cons in H as [H|H]; [discriminate H|]). by apply not_elem_of_nil in H.
  - exact H.
Defined.

(** ** Delivery *)

(** Functional: an interrupt changes nothing when its vector is not bound, is masked, or its channel is gone,
    full under the Drop policy, or bound to a sender; otherwise the notification is queued, and a driver
    that had emptied its channel receives exactly it: the kernel's message with the vector as payload. *)
Theorem irq_delivery t v r :
  ipc_wf r -> 0 <= v < 256 ->
  match lookup t v with
  | Some b =>
      match channels r !! channel_id b with
      | Some c =>
          if masked b || negb (permitted (send_subject c) ZERO) then irq_notify t v r = r
          else
            (Z.of_nat (length (queue c)) < queue_depth (policy c) ->
             exists c', channels (irq_notify t v r) !! channel_id b = Some c' /\ queue c' = queue c ++ [notification v (channel_id b)]) /\
            (queue_depth (policy c) <= Z.of_nat (length (queue c)) -> backpressure (policy c) = Drop -> irq_notify t v r = r) /\
            (queue c = [] -> forall task who blocking, permitted (recv_subject c) who = true ->
             exists env w r', receive (channel_id b) task who blocking (irq_notify t v r) = (Ok (Some env, w), r') /\
               mkind env = MNotification /\ sender env = 0 /\ from_le (mpayload env) = v)
      | None => irq_notify t v r = r
      end
  | None => irq_notify t v r = r
  end.
Proof.
  intros Hwf Hv. unfold irq_notify. destruct (lookup t v) as [b|]; [|done]. unfold send. cbn [notification channel mkind mpayload].
  destruct (channels r !! channel_id b) as [c|] eqn:Hc; [|by destruct (masked b)]. destruct (masked b); cbn [orb]; [done|].
  destruct (permitted (send_subject c) ZERO) eqn:Ep; cbn [negb snd]; [|done]. destruct (iw_channel r Hwf _ c Hc) as [_ Hcw].
  rewrite (cw_id _ _ Hcw). fold (notification v (channel_id b)). destruct (pop_waiter (waiters_recv c)) as [w wr] eqn:Ew. split; [|split].
  - intros Hroom. rewrite (proj2 (Z.leb_gt _ _)) by lia. cbn [snd]. eexists. unfold put_channel. cbn [channels]. rewrite lookup_insert_eq. split; [done|].
    by cbn [set_queues queue].
  - intros Hfull Hd. rewrite (proj2 (Z.leb_le _ _)), Hd by lia. done.
  - intros Hq task who blocking Hp. rewrite Hq. pose proof (cw_depth _ _ Hcw). rewrite (proj2 (Z.leb_gt _ _)) by (cbn [length]; lia). cbn [snd].
    unfold receive, put_channel. cbn [channels]. rewrite lookup_insert_eq. cbn [set_queues recv_subject queue app]. rewrite Hp. cbn [negb].
    destruct (pop_waiter (waiters_send (set_queues c [notification v (channel_id b)] (waiters_send c) wr))) as [w' ws'].
    eexists _, _, _. split; [reflexivity|]. cbn [notification mkind sender mpayload]. split; [done|]. split; [done|].
    apply from_to_le; [lia|]. unfold in_uint. lia.
Qed.
Definition demo_ipc : KernelIpcRegistry :=
  mkIpc {[5 := channel_new 5 (mkPolicy 4 Block false) 1 None None]} 6.
Lemma demo_ipc_wf : ipc_wf demo_ipc.
Proof.
  split; cbn [demo_ipc channels next_id].
  - intros id c [<- <-]%lookup_singleton_Some. split; [lia|]. split; cbn; try done; try lia; constructor.
  - intros _. by rewrite lookup_singleton_ne.
  - vm_compute. discriminate.
  - intros o. unfold owned_count. cbn [channels]. etransitivity; [apply inj_le, map_size_filter|vm_compute; discriminate].
  - lia.
Qed.
Lemma irq_delivery_witness :
  exists env w r', receive 5 1 ZERO true (irq_notify (run_irq IrqTable_new [OBind 64 5 1]) 64 demo_ipc) = (Ok (Some env, w), r') /\
    from_le (mpayload env) = 64.
Proof.
  pose proof (irq_delivery (run_irq IrqTable_new [OBind 64 5 1]) 64 demo_ipc demo_ipc_wf ltac:(lia)) as H.
  assert (lookup (run_irq IrqTable_new [OBind 64 5 1]) 64 = Some (mkBinding 64 5 1 false)) as E by (vm_compute; reflexivity). rewrite E in H.
  cbn [channel_id masked] in H. change (channels demo_ipc !! 5) with (Some (channel_new 5 (mkPolicy 4 Block false) 1 None None)) in H.
  cbn in H. destruct H as (_ & _ & H). destruct (H eq_refl 1 ZERO true eq_refl) as (env & w & r' & H1 & _ & _ & H2). exists env, w, r'. by split.
Defined.

(** A driver that blocks in [receive] and is then interrupted has a message queued and is no longer among the
    waiters of its channel, but nothing wakes it: neither this interrupt nor the ones that follow. *)
Example irq_wakeup_lost :
  let t := run_irq IrqTable_new [OBind 64 5 1] in
  match receive 5 1 ZERO true demo_ipc with
  | (Ok (None, WakeBlock 1), r1) =>
      let r2 := irq_notify t 64 (irq_notify t 64 r1) in
      (waiters_recv <$> channels r1 !! 5) = Some [1] /\ (waiters_recv <$> channels r2 !! 5) = Some [] /\
      ((fun c => length (queue c)) <$> channels r2 !! 5) = Some 2%nat
  | _ => False
  end.
Proof. vm_compute. repeat split. Qed.
