(* ===== verification/Scheduling.v ===== *)
(** * Scheduler and thermal policy
    ([crates/nexacore-kernel/src/scheduling.rs], [thermal.rs])

    [RoundRobinScheduler] in its host build (without the [bare-metal] feature,
    whose context switch is assembly): six run queues, a strict bypass for
    real-time tasks and an eight-slot fairness rotation chosen by the thermal
    level. *)

From S2P Require Import Prelude Kernel.

Inductive PriorityClass := System | RealTime | Interactive | AiInference | Background | Idle.
Inductive TaskState := Runnable | Running | BlockedOnIpc | BlockedOnSyscall | Sleeping | Terminated.
Inductive ThermalLevel := Normal | Warm | Hot | Critical.

#[export] Instance PriorityClass_eq_dec : EqDecision PriorityClass.
Proof. solve_decision. Defined.
#[export] Instance TaskState_eq_dec : EqDecision TaskState.
Proof. solve_decision. Defined.

(** [priority as usize]. *)
Definition class_index (c : PriorityClass) : nat :=
  match c with
  | System => 0 | RealTime => 1 | Interactive => 2 | AiInference => 3 | Background => 4 | Idle => 5
  end.

(** ** Thermal policy *)

Definition WARM_MC : Z := 70000.
Definition HOT_MC : Z := 85000.
Definition CRITICAL_MC : Z := 95000.
Definition INTERACTIVE_FLOOR : nat := 2.

Definition thermal_level (mc : Z) : ThermalLevel :=
  if CRITICAL_MC <=? mc then Critical
  else if HOT_MC <=? mc then Hot
  else if WARM_MC <=? mc then Warm
  else Normal.

Definition FAIRNESS_CYCLE : list (option PriorityClass) :=
  [None; None; Some Interactive; None; Some AiInference; Some Interactive; None; Some Background].
Definition FAIRNESS_LEN : Z := 8.

Definition fairness_cycle_for (level : ThermalLevel) : list (option PriorityClass) :=
  match level with
  | Normal => FAIRNESS_CYCLE
  | Warm =>
      [None; None; Some Interactive; None; Some AiInference; Some Interactive; None; Some AiInference]
  | Hot | Critical =>
      [None; Some AiInference; Some Interactive; None; Some AiInference; Some Interactive; None; Some AiInference]
  end.

Definition slot_count (cycle : list (option PriorityClass)) (class : PriorityClass) : nat :=
  length (filter (fun s => s = Some class) cycle).

Definition should_favour_ai (level : ThermalLevel) (dominant_load : PriorityClass) : bool :=
  match level with Normal => false | _ => bool_decide (dominant_load = AiInference) end.

(** ** Scheduler state *)

Record TaskControlBlock := mkTcb {
  t_id : Z;
  t_state : TaskState;
  t_priority : PriorityClass;
  t_rsp : Z;
  kernel_stack_phys : Z;
  kernel_stack_va : Z
}.

Definition KERNEL_STACK_VA_BASE : Z := 0xFFFFC00000000000.
Definition KERNEL_STACK_VA_END : Z := 0xFFFFC80000000000.
Definition KERNEL_STACK_SIZE : Z := 0x4000.
Definition KERNEL_STACK_STRIDE : Z := 0x8000.

Record RoundRobinScheduler := mkSched {
  tasks : list TaskControlBlock;
  run_queues : list (list Z);
  current : option Z;
  next_task_id : Z;
  next_kernel_stack_slot : Z;
  pick_counter : Z;
  thermal : ThermalLevel;
  cpu_load_class : PriorityClass
}.

Definition sched_new : RoundRobinScheduler :=
  mkSched [] [[]; []; []; []; []; []] None 1 0 0 Normal Interactive.

Definition with_tasks (s : RoundRobinScheduler) (ts : list TaskControlBlock) : RoundRobinScheduler :=
  mkSched ts (run_queues s) (current s) (next_task_id s) (next_kernel_stack_slot s) (pick_counter s) (thermal s) (cpu_load_class s).
Definition with_queues (s : RoundRobinScheduler) (qs : list (list Z)) : RoundRobinScheduler :=
  mkSched (tasks s) qs (current s) (next_task_id s) (next_kernel_stack_slot s) (pick_counter s) (thermal s) (cpu_load_class s).
Definition with_current (s : RoundRobinScheduler) (c : option Z) : RoundRobinScheduler :=
  mkSched (tasks s) (run_queues s) c (next_task_id s) (next_kernel_stack_slot s) (pick_counter s) (thermal s) (cpu_load_class s).
Definition with_next_id (s : RoundRobinScheduler) (n : Z) : RoundRobinScheduler :=
  mkSched (tasks s) (run_queues s) (current s) n (next_kernel_stack_slot s) (pick_counter s) (thermal s) (cpu_load_class s).
Definition with_counter (s : RoundRobinScheduler) (n : Z) : RoundRobinScheduler :=
  mkSched (tasks s) (run_queues s) (current s) (next_task_id s) (next_kernel_stack_slot s) n (thermal s) (cpu_load_class s).
Definition with_slot (s : RoundRobinScheduler) (n : Z) : RoundRobinScheduler :=
  mkSched (tasks s) (run_queues s) (current s) (next_task_id s) n (pick_counter s) (thermal s) (cpu_load_class s).

Definition set_cpu_temperature (mc : Z) (s : RoundRobinScheduler) : RoundRobinScheduler :=
  mkSched (tasks s) (run_queues s) (current s) (next_task_id s) (next_kernel_stack_slot s) (pick_counter s)
    (thermal_level mc) (cpu_load_class s).
Definition set_cpu_load_class (c : PriorityClass) (s : RoundRobinScheduler) : RoundRobinScheduler :=
  mkSched (tasks s) (run_queues s) (current s) (next_task_id s) (next_kernel_stack_slot s) (pick_counter s)
    (thermal s) c.

(** The queue of a class; [run_queues] has six entries, so it exists. *)
Definition queue_of (c : PriorityClass) (s : RoundRobinScheduler) : list Z :=
  default [] (run_queues s !! class_index c).
(** [self.run_queues[priority as usize].push(id)] *)
Definition push (c : PriorityClass) (id : Z) (s : RoundRobinScheduler) : RoundRobinScheduler :=
  with_queues s (alter (fun q => q ++ [id]) (class_index c) (run_queues s)).
(** Replaces the queue of a class. *)
Definition set_queue (c : PriorityClass) (q : list Z) (s : RoundRobinScheduler) : RoundRobinScheduler :=
  with_queues s (<[class_index c := q]> (run_queues s)).

Definition allocate_task_id (s : RoundRobinScheduler) : exec (Z * RoundRobinScheduler) :=
  n ← add_uint 64 (next_task_id s) 1;
  Done (next_task_id s, with_next_id s n).

Definition register_process (tcb : TaskControlBlock) (priority : PriorityClass) (s : RoundRobinScheduler) :
    RoundRobinScheduler :=
  push priority (t_id tcb) (with_tasks s (tasks s ++ [tcb])).

Fixpoint find_task (id : Z) (ts : list TaskControlBlock) : option TaskControlBlock :=
  match ts with
  | [] => None
  | t :: ts => if t_id t =? id then Some t else find_task id ts
  end.

(** [tasks.iter().position(|t| t.id.0 == id)] *)
Fixpoint position (id : Z) (ts : list TaskControlBlock) : option nat :=
  match ts with
  | [] => None
  | t :: ts => if t_id t =? id then Some 0%nat else S <$> position id ts
  end.

(** The bare-metal build also asks the process control block of a task that has no entry in [tasks]; every task
    that is spawned has one. *)
Definition resolve_priority (id : Z) (s : RoundRobinScheduler) : PriorityClass :=
  match find_task id (tasks s) with Some t => t_priority t | None => Interactive end.

Definition allocate_stack_slot (s : RoundRobinScheduler) : option Z * RoundRobinScheduler :=
  let r :=
    off ← checked_mul 64 (next_kernel_stack_slot s) KERNEL_STACK_STRIDE;
    slot_base ← checked_add 64 KERNEL_STACK_VA_BASE off;
    stack_top ← checked_add 64 slot_base KERNEL_STACK_STRIDE;
    if KERNEL_STACK_VA_END <? stack_top then None
    else
      n ← checked_add 64 (next_kernel_stack_slot s) 1;
      Some (slot_base + KERNEL_STACK_SIZE, n) in
  match r with
  | Some (base, n) => (Some base, with_slot s n)
  | None => (None, s)
  end.

Definition spawn_bootstrap_task (priority : PriorityClass) (s : RoundRobinScheduler) :
    exec (KernelResult Z * RoundRobinScheduler) :=
  let id := next_task_id s in
  n ← add_uint 64 id 1;
  let s1 := with_next_id s n in
  let s2 := with_tasks s1 (tasks s1 ++ [mkTcb id Running priority 0 0 0]) in
  Done (Ok id, with_current s2 (Some id)).

(** The host branch of [enqueue_for_cpu]. *)
Definition enqueue_for_cpu (cpu_id task : Z) (priority : PriorityClass) (s : RoundRobinScheduler) :
    bool * RoundRobinScheduler :=
  (true, push priority task s).

(** ** The [Scheduler] trait *)

Definition set_task (i : nat) (t : TaskControlBlock) (s : RoundRobinScheduler) : RoundRobinScheduler :=
  with_tasks s (<[i := t]> (tasks s)).
Definition with_state (t : TaskControlBlock) (st : TaskState) : TaskControlBlock :=
  mkTcb (t_id t) st (t_priority t) (t_rsp t) (kernel_stack_phys t) (kernel_stack_va t).

Definition enqueue (task : Z) (priority : PriorityClass) (s : RoundRobinScheduler) :
    KernelResult () * RoundRobinScheduler :=
  match position task (tasks s) with
  | None => (Err InvalidArgument, s)
  | Some i =>
      match tasks s !! i with
      | Some t =>
          let t' := mkTcb (t_id t) Runnable priority (t_rsp t) (kernel_stack_phys t) (kernel_stack_va t) in
          (Ok (), push priority task (set_task i t' s))
      | None => (Err InvalidArgument, s)
      end
  end.

Definition dequeue (task : Z) (s : RoundRobinScheduler) : KernelResult () * RoundRobinScheduler :=
  let s1 := with_queues s ((fun q => filter (fun id => id <> task) q) <$> run_queues s) in
  let s2 :=
    match position task (tasks s1) with
    | Some i => with_tasks s1 (alter (fun t => with_state t Terminated) i (tasks s1))
    | None => s1
    end in
  (Ok (), if bool_decide (current s2 = Some task) then with_current s2 None else s2).

(** The strict-order scan: the first non-empty queue from the front. *)
Fixpoint pop_first (qs : list (list Z)) : option (Z * list (list Z)) :=
  match qs with
  | [] => None
  | [] :: qs => '(t, qs') ← pop_first qs; Some (t, [] :: qs')
  | (t :: q) :: qs => Some (t, q :: qs)
  end.

Definition pick_next (s : RoundRobinScheduler) : option Z * RoundRobinScheduler :=
  match queue_of RealTime s with
  | t :: q => (Some t, set_queue RealTime q s)
  | [] =>
      let slot := Z.to_nat (pick_counter s mod FAIRNESS_LEN) in
      let s1 := with_counter s (wrapping_add 64 (pick_counter s) 1) in
      let strict :=
        match pop_first (run_queues s1) with
        | Some (t, qs) => (Some t, with_queues s1 qs)
        | None => (None, s1)
        end in
      match fairness_cycle_for (thermal s1) !! slot with
      | Some (Some preferred) =>
          match queue_of preferred s1 with
          | t :: q => (Some t, set_queue preferred q s1)
          | [] => strict
          end
      | _ => strict
      end
  end.

(** The host branch of [pick_next_for_cpu]. *)
Definition pick_next_for_cpu (cpu_id : Z) (s : RoundRobinScheduler) : option Z * RoundRobinScheduler := pick_next s.

Definition yield_current (cur : Z) (new_state : TaskState) (s : RoundRobinScheduler) :
    KernelResult () * RoundRobinScheduler :=
  match position cur (tasks s) with
  | None => (Err InvalidArgument, s)
  | Some cur_idx =>
      let prio := match tasks s !! cur_idx with Some t => t_priority t | None => Interactive end in
      let s1 := with_tasks s (alter (fun t => with_state t new_state) cur_idx (tasks s)) in
      let s2 := if bool_decide (new_state = Runnable) then push prio cur s1 else s1 in
      match pick_next s2 with
      | (None, s3) => (Ok (), s3)
      | (Some next, s3) =>
          if next =? cur then
            (Ok (), with_current (with_tasks s3 (alter (fun t => with_state t Running) cur_idx (tasks s3))) (Some next))
          else
            match position next (tasks s3) with
            | None => (Err Internal, s3)
            | Some next_idx =>
                (Ok (), with_current (with_tasks s3 (alter (fun t => with_state t Running) next_idx (tasks s3))) (Some next))
            end
      end
  end.

Definition preempt (cur : Z) (s : RoundRobinScheduler) : KernelResult () * RoundRobinScheduler :=
  yield_current cur Runnable s.

(** ** Lemmas on queues *)

Definition sched_wf (s : RoundRobinScheduler) : Prop :=
  length (run_queues s) = 6%nat /\ 0 <= pick_counter s < 2 ^ 64.

Lemma class_index_lt c : (class_index c < 6)%nat.
Proof. destruct c; simpl; lia. Qed.

Lemma class_index_inj c d : class_index c = class_index d -> c = d.
Proof. by destruct c, d. Qed.

Lemma push_queue c id s d :
  sched_wf s -> queue_of d (push c id s) = if bool_decide (c = d) then queue_of d s ++ [id] else queue_of d s.
Proof.
  intros [Hl _]. unfold queue_of, push. cbn [with_queues run_queues]. case_bool_decide as E.
  - subst d. rewrite list_lookup_alter_eq.
    by destruct (lookup_lt_is_Some_2 (run_queues s) (class_index c)) as [q ->]; [pose proof (class_index_lt c); lia|].
  - rewrite list_lookup_alter_ne; [done|]. intros H%class_index_inj. done.
Qed.

Lemma set_queue_queue c q s d :
  sched_wf s -> queue_of d (set_queue c q s) = if bool_decide (c = d) then q else queue_of d s.
Proof.
  intros [Hl _]. unfold queue_of, set_queue. cbn [with_queues run_queues]. case_bool_decide as E.
  - subst d. rewrite list_lookup_insert_eq by (pose proof (class_index_lt c); lia). done.
  - rewrite list_lookup_insert_ne; [done|]. intros H%class_index_inj. done.
Qed.

Lemma push_wf c id s : sched_wf s -> sched_wf (push c id s).
Proof. intros [? ?]. split; [|done]. cbn [push with_queues run_queues]. by rewrite length_alter. Qed.

Lemma set_queue_wf c q s : sched_wf s -> sched_wf (set_queue c q s).
Proof. intros [? ?]. split; [|done]. cbn [set_queue with_queues run_queues]. by rewrite length_insert. Qed.

(** The scan takes the head of exactly one queue, all earlier ones being empty. *)
Lemma pop_first_Some qs t qs' :
  pop_first qs = Some (t, qs') ->
  exists i q, qs !! i = Some (t :: q) /\ qs' = <[i := q]> qs /\ forall j, (j < i)%nat -> qs !! j = Some [].
Proof.
  revert qs'. induction qs as [|[|x q] qs IH]; intros qs'; simpl; [done| |].
  - destruct (pop_first qs) as [[t' r]|] eqn:E; simpl; [|done]. intros [= -> <-].
    destruct (IH r eq_refl) as (i & q & Hi & -> & Hj). exists (S i), q. split_and!; [done..|].
    intros [|j] Hlt; [done|]. apply Hj. lia.
  - intros [= -> <-]. exists 0%nat, q. split_and!; [done..|]. lia.
Qed.

Lemma pop_first_None qs : pop_first qs = None -> forall i q, qs !! i = Some q -> q = [].
Proof.
  induction qs as [|[|x q] qs IH]; simpl; [by intros _ [|i] q| |done].
  destruct (pop_first qs) as [[t' r]|] eqn:E; simpl; [done|]. intros _ [|i] q; simpl; [congruence|by apply IH].
Qed.

Lemma class_of_index i : (i < 6)%nat -> exists c, class_index c = i.
Proof.
  intros Hi. destruct i as [|[|[|[|[|[|i]]]]]]; [by exists System|by exists RealTime|by exists Interactive|
    by exists AiInference|by exists Background|by exists Idle|lia].
Qed.

Lemma queue_lookup c s : sched_wf s -> run_queues s !! class_index c = Some (queue_of c s).
Proof.
  intros [Hl _]. unfold queue_of.
  by destruct (lookup_lt_is_Some_2 (run_queues s) (class_index c)) as [q ->]; [pose proof (class_index_lt c); lia|].
Qed.

(** ** One pick *)

(** [s'] is [s] with the head [t] of the queue of class [c] taken. *)
Definition takes (c : PriorityClass) (t : Z) (s s' : RoundRobinScheduler) : Prop :=
  exists q, queue_of c s = t :: q /\ (forall d, queue_of d s' = if bool_decide (c = d) then q else queue_of d s).

(** The class a slot serves first: the one it names, or [System]. *)
Definition first_served (s : RoundRobinScheduler) : PriorityClass :=
  match fairness_cycle_for (thermal s) !! Z.to_nat (pick_counter s mod FAIRNESS_LEN) with
  | Some (Some c) => c
  | _ => System
  end.

Lemma with_counter_queue n s d : queue_of d (with_counter s n) = queue_of d s.
Proof. done. Qed.

Lemma with_counter_wf n s : sched_wf s -> 0 <= n < 2 ^ 64 -> sched_wf (with_counter s n).
Proof. by intros [? _]. Qed.

Lemma counter_range n : 0 <= wrapping_add 64 n 1 < 2 ^ 64.
Proof. unfold wrapping_add. apply Z.mod_pos_bound. lia. Qed.

Lemma strict_takes s :
  sched_wf s ->
  match pop_first (run_queues s) with
  | Some (t, qs) =>
      exists c, takes c t s (with_queues s qs) /\ sched_wf (with_queues s qs) /\
        forall d, (class_index d < class_index c)%nat -> queue_of d s = []
  | None => forall d, queue_of d s = []
  end.
Proof.
  intros Hs. destruct (pop_first (run_queues s)) as [[t qs]|] eqn:E.
  - apply pop_first_Some in E as (i & q & Hi & -> & Hj).
    destruct (class_of_index i) as [c <-]; [destruct Hs as [Hl _]; apply lookup_lt_Some in Hi; lia|].
    exists c. split; [|split].
    + exists q. rewrite queue_lookup in Hi by done. split; [congruence|].
      intros d. exact (set_queue_queue c q s d Hs).
    + exact (set_queue_wf c q s Hs).
    + intros d Hd. specialize (Hj _ Hd). rewrite queue_lookup in Hj by done. congruence.
  - intros d. eapply pop_first_None; [exact E|]. by apply queue_lookup.
Qed.

(** Everything [pick_next] does. *)
Lemma pick_next_ok s :
  sched_wf s ->
  sched_wf (pick_next s).2 /\ thermal (pick_next s).2 = thermal s /\ tasks (pick_next s).2 = tasks s /\
  match (pick_next s).1 with
  | None => forall d, queue_of d s = []
  | Some t =>
      exists c, takes c t s (pick_next s).2 /\
        if bool_decide (queue_of RealTime s = []) then
          pick_counter (pick_next s).2 = wrapping_add 64 (pick_counter s) 1 /\
          (queue_of (first_served s) s <> [] -> c = first_served s) /\
          (queue_of (first_served s) s = [] ->
             forall d, (class_index d < class_index c)%nat -> queue_of d s = [])
        else c = RealTime /\ pick_counter (pick_next s).2 = pick_counter s
  end.
Proof.
  intros Hs. unfold pick_next. destruct (queue_of RealTime s) as [|t q] eqn:Ert.
  2: { split_and!; [by apply set_queue_wf|done|done|]. exists RealTime. split; [|done].
       exists q. split; [done|]. intros d. by apply set_queue_queue. }
  set (s1 := with_counter s (wrapping_add 64 (pick_counter s) 1)).
  assert (Hs1 : sched_wf s1) by (apply with_counter_wf; [done|apply counter_range]).
  pose proof (strict_takes s1 Hs1) as Hst. unfold first_served.
  change (run_queues s1) with (run_queues s) in *. change (thermal s1) with (thermal s).
  assert (Hstrict : forall (P : PriorityClass -> Prop) r, r = match pop_first (run_queues s) with
      | Some (t, qs) => (Some t, with_queues s1 qs) | None => (None, s1) end ->
    (forall c, queue_of c s <> [] -> (forall d, (class_index d < class_index c)%nat -> queue_of d s = []) -> P c) ->
    sched_wf r.2 /\ thermal r.2 = thermal s /\ tasks r.2 = tasks s /\
    match r.1 with
    | None => forall d, queue_of d s = []
    | Some t => exists c, takes c t s r.2 /\ pick_counter r.2 = wrapping_add 64 (pick_counter s) 1 /\ P c
    end).
  { intros P r -> HP. destruct (pop_first (run_queues s)) as [[t qs]|]; cbn [fst snd].
    - destruct Hst as (c & Ht & Hw & Hd). split_and!; [done..|]. exists c. split_and!; [done..|].
      apply HP; [|done]. destruct Ht as (q & Hq & _). change (queue_of c s1) with (queue_of c s) in Hq. by rewrite Hq.
    - split_and!; [done..|exact Hst]. }
  rewrite bool_decide_eq_true_2 by done. cbv zeta.
  destruct (fairness_cycle_for (thermal s) !! _) as [[pref|]|].
  - change (queue_of pref s1) with (queue_of pref s). destruct (queue_of pref s) as [|t q] eqn:Ep.
    + destruct (Hstrict (fun c => (queue_of pref s <> [] -> c = pref) /\
        (queue_of pref s = [] -> forall d, (class_index d < class_index c)%nat -> queue_of d s = [])) _ eq_refl)
        as (? & ? & ? & H); [intros c _ Hc; split; [by rewrite Ep|done]|]. split_and!; [done..|].
      destruct (_.1); [|done]. rewrite Ep in H. exact H.
    + split_and!; [by apply set_queue_wf|done|done|]. exists pref. split; [|by split_and!].
      exists q. split; [done|]. intros d. exact (set_queue_queue pref q s1 d Hs1).
  - destruct (Hstrict (fun c => (queue_of System s <> [] -> c = System) /\
      (queue_of System s = [] -> forall d, (class_index d < class_index c)%nat -> queue_of d s = [])) _ eq_refl)
      as (? & ? & ? & H); [|split_and!; [done..|]; by destruct (_.1)].
    intros c _ Hc. split; [|done]. intros Hne. destruct c; try done; by destruct Hne; apply (Hc System); simpl; lia.
  - destruct (Hstrict (fun c => (queue_of System s <> [] -> c = System) /\
      (queue_of System s = [] -> forall d, (class_index d < class_index c)%nat -> queue_of d s = [])) _ eq_refl)
      as (? & ? & ? & H); [|split_and!; [done..|]; by destruct (_.1)].
    intros c _ Hc. split; [|done]. intros Hne. destruct c; try done; by destruct Hne; apply (Hc System); simpl; lia.
Qed.

(** ** Sequences of picks and arrivals *)

Inductive sched_event :=
| EvPick
| EvEnqueue (task : Z) (priority : PriorityClass)
| EvRegister (tcb : TaskControlBlock) (priority : PriorityClass).

Definition ev_step (e : sched_event) (s : RoundRobinScheduler) : RoundRobinScheduler :=
  match e with
  | EvPick => (pick_next s).2
  | EvEnqueue t p => (enqueue t p s).2
  | EvRegister t p => register_process t p s
  end.
Definition ev_picked (e : sched_event) (s : RoundRobinScheduler) : list Z :=
  match e with EvPick => match (pick_next s).1 with Some t => [t] | None => [] end | _ => [] end.

Fixpoint after (es : list sched_event) (s : RoundRobinScheduler) : RoundRobinScheduler :=
  match es with [] => s | e :: es => after es (ev_step e s) end.
Fixpoint picked (es : list sched_event) (s : RoundRobinScheduler) : list Z :=
  match es with [] => [] | e :: es => ev_picked e s ++ picked es (ev_step e s) end.
Fixpoint npicks (es : list sched_event) : Z :=
  match es with [] => 0 | EvPick :: es => 1 + npicks es | _ :: es => npicks es end.

(** No real-time task becomes runnable. *)
Definition quiet (e : sched_event) : Prop :=
  match e with EvPick => True | EvEnqueue _ p | EvRegister _ p => p <> RealTime end.

Definition slot_class (level : ThermalLevel) (n : Z) : PriorityClass :=
  match fairness_cycle_for level !! Z.to_nat (n mod FAIRNESS_LEN) with Some (Some c) => c | _ => System end.

Lemma npicks_nonneg es : 0 <= npicks es.
Proof. induction es as [|[] es IH]; simpl; lia. Qed.

Lemma npicks_app es1 es2 : npicks (es1 ++ es2) = npicks es1 + npicks es2.
Proof. induction es1 as [|[] es1 IH]; simpl; lia. Qed.

Lemma picked_app es1 es2 s : picked (es1 ++ es2) s = picked es1 s ++ picked es2 (after es1 s).
Proof. revert s. induction es1 as [|e es1 IH]; intros s; simpl; [done|]. by rewrite IH, app_assoc. Qed.

(** An arrival appends to queues and changes neither the counter nor the level. *)
Lemma arrival_ok e s c :
  sched_wf s -> quiet e -> e <> EvPick ->
  sched_wf (ev_step e s) /\ thermal (ev_step e s) = thermal s /\ pick_counter (ev_step e s) = pick_counter s /\
  queue_of RealTime (ev_step e s) = queue_of RealTime s /\
  exists extra, queue_of c (ev_step e s) = queue_of c s ++ extra.
Proof.
  intros Hs Hq He.
  assert (Hpush : forall ts p id, p <> RealTime ->
    sched_wf (push p id (with_tasks s ts)) /\ queue_of RealTime (push p id (with_tasks s ts)) = queue_of RealTime s /\
    exists extra, queue_of c (push p id (with_tasks s ts)) = queue_of c s ++ extra).
  { intros ts p id Hp. split_and!.
    - by apply (push_wf p id (with_tasks s ts)).
    - rewrite (push_queue p id (with_tasks s ts)) by done. by rewrite bool_decide_eq_false_2.
    - rewrite (push_queue p id (with_tasks s ts)) by done.
      case_bool_decide; [by eexists|exists []; by rewrite app_nil_r]. }
  destruct e as [|t p|t p]; [done| |]; cbn [ev_step quiet] in *.
  - unfold enqueue. destruct (position t (tasks s)) as [i|].
    2: { split_and!; [done..|]. exists []. by rewrite app_nil_r. }
    destruct (tasks s !! i) as [tcb|].
    2: { split_and!; [done..|]. exists []. by rewrite app_nil_r. }
    cbn [snd]. unfold set_task. set (ts := <[i := _]> _). destruct (Hpush ts p t Hq) as (? & ? & ?). by split_and!.
  - unfold register_process. destruct (Hpush (tasks s ++ [t]) p (t_id t) Hq) as (? & ? & ?). by split_and!.
Qed.

Lemma slot_class_wrap level n o : slot_class level (wrapping_add 64 n 1 + o) = slot_class level (n + (1 + o)).
Proof.
  unfold slot_class, FAIRNESS_LEN, wrapping_add.
  pose proof (Z.div_mod (n + 1) (2 ^ 64) ltac:(lia)).
  replace ((n + 1) mod 2 ^ 64 + o) with (n + (1 + o) + - (2 ^ 61) * ((n + 1) / 2 ^ 64) * 8) by lia.
  by rewrite Z_mod_plus_full.
Qed.

(** From any point of the rotation, some slot within eight serves the class first. *)
Definition guaranteed (level : ThermalLevel) (c : PriorityClass) : Prop :=
  match c with
  | System | Interactive | AiInference => True
  | Background => level = Normal
  | RealTime | Idle => False
  end.

Lemma slot_within level c n :
  guaranteed level c -> exists o, 0 <= o < 8 /\ slot_class level (n + o) = c.
Proof.
  intros Hg.
  assert (Hk : exists k, 0 <= k < 8 /\ slot_class level k = c).
  { destruct c, level; try done; first [by exists 0|by exists 2|by exists 4|by exists 7]. }
  destruct Hk as (k & Hk & Hc). exists ((k - n) mod 8). split; [by apply Z.mod_pos_bound|].
  rewrite <- Hc. unfold slot_class, FAIRNESS_LEN. rewrite Zplus_mod_idemp_r.
  by replace (n + (k - n)) with k by lia.
Qed.

(** Within the picks up to the next slot that serves [c] first, the head of its
    queue is picked. *)
Lemma head_served c es s o h q :
  sched_wf s -> queue_of RealTime s = [] -> Forall quiet es -> c <> RealTime ->
  queue_of c s = h :: q -> 0 <= o -> slot_class (thermal s) (pick_counter s + o) = c -> o + 1 <= npicks es ->
  exists es1 es2 extra, es = es1 ++ es2 /\ npicks es1 <= o + 1 /\ h ∈ picked es1 s /\
    sched_wf (after es1 s) /\ queue_of RealTime (after es1 s) = [] /\ thermal (after es1 s) = thermal s /\
    queue_of c (after es1 s) = q ++ extra.
Proof.
  intros Hs Hrt Hq Hc. revert s o q Hs Hrt.
  induction Hq as [|e es He _ IH]; intros s o q Hs Hrt Hh Ho Hslot Hn; [simpl in Hn; lia|].
  assert (e = EvPick \/ e <> EvPick) as [->|Hne] by (destruct e; [by left|by right|by right]).
  - cbn [npicks] in Hn. pose proof (pick_next_ok s Hs) as (Hw & Hth & _ & Hp).
    destruct (pick_next s) as [[t|] s'] eqn:Epick; cbn [fst snd] in *; [|by rewrite Hp in Hh].
    rewrite bool_decide_eq_true_2 in Hp by done. destruct Hp as (c0 & (q0 & Hq0 & Htk) & Hcnt & Hfirst & _).
    destruct (decide (c0 = c)) as [->|Hc0].
    + exists [EvPick], es, []. rewrite Hh in Hq0. simplify_eq. cbn [npicks picked after ev_picked ev_step].
      rewrite Epick. cbn [fst snd]. split_and!; try done; [lia|by left| |].
      * rewrite Htk, bool_decide_eq_false_2 by done. done.
      * rewrite Htk, bool_decide_eq_true_2, app_nil_r by done. done.
    + assert (Hpos : o <> 0).
      { intros ->. rewrite Z.add_0_r in Hslot. change (first_served s = c) in Hslot.
        rewrite Hslot in Hfirst. destruct Hc0. apply Hfirst. by rewrite Hh. }
      destruct (IH s' (o - 1) q) as (es1 & es2 & extra & -> & Hn1 & Hin & Hw1 & Hr1 & Ht1 & Hq1).
      * done.
      * rewrite Htk. case_bool_decide; [|done]. subst c0. congruence.
      * rewrite Htk, bool_decide_eq_false_2 by done. done.
      * lia.
      * rewrite Hth, Hcnt, slot_class_wrap. rewrite <- Hslot. f_equal. lia.
      * lia.
      * exists (EvPick :: es1), es2, extra. cbn [npicks picked after ev_picked ev_step app]. rewrite Epick. cbn [fst snd].
        split_and!; try done; [lia|by right|congruence].
  - pose proof (arrival_ok e s c Hs He Hne) as (Hw & Hth & Hcnt & Hr & (ex & Hex)).
    assert (Hnp : npicks (e :: es) = npicks es) by (by destruct e). rewrite Hnp in Hn.
    destruct (IH (ev_step e s) o (q ++ ex)) as (es1 & es2 & extra & -> & Hn1 & Hin & Hw1 & Hr1 & Ht1 & Hq1);
      [done|congruence|by rewrite Hex, Hh|done|by rewrite Hth, Hcnt|done|].
    exists (e :: es1), es2, (ex ++ extra). cbn [picked after app]. split_and!; try done.
    + by destruct e.
    + apply elem_of_app. by right.
    + congruence.
    + by rewrite Hq1, app_assoc.
Qed.

Lemma task_served c es s pre t post :
  sched_wf s -> queue_of RealTime s = [] -> Forall quiet es -> guaranteed (thermal s) c ->
  queue_of c s = pre ++ t :: post -> 8 * (Z.of_nat (length pre) + 1) <= npicks es -> t ∈ picked es s.
Proof.
  intros Hs Hrt Hq Hg. assert (Hc : c <> RealTime) by (by intros ->).
  revert es s post Hs Hrt Hq Hg. induction pre as [|h pre IH]; intros es s post Hs Hrt Hq Hg Hh Hn.
  - destruct (slot_within (thermal s) c (pick_counter s) Hg) as (o & Ho & Hslot).
    destruct (head_served c es s o t post Hs Hrt Hq Hc Hh ltac:(lia) Hslot ltac:(simpl in Hn; lia))
      as (es1 & es2 & extra & -> & _ & Hin & _). rewrite picked_app. apply elem_of_app. by left.
  - destruct (slot_within (thermal s) c (pick_counter s) Hg) as (o & Ho & Hslot).
    destruct (head_served c es s o h (pre ++ t :: post) Hs Hrt Hq Hc Hh ltac:(lia) Hslot ltac:(simpl in Hn; lia))
      as (es1 & es2 & extra & -> & Hn1 & _ & Hw1 & Hr1 & Ht1 & Hq1).
    rewrite picked_app. apply elem_of_app. right. rewrite npicks_app in Hn. cbn [length] in Hn.
    apply Forall_app in Hq as [_ Hq2].
    apply (IH es2 _ (post ++ extra) Hw1 Hr1 Hq2); [by rewrite Ht1|by rewrite Hq1, <- app_assoc|lia].
Qed.

(** ** Properties *)

(** C28.  No starvation: while no real-time task is runnable and the thermal
    level stays what it is, a task of class [System], [Interactive] or
    [AiInference] (or [Background], at the [Normal] level) with [k] tasks
    before it in its queue is picked within [8 * (k + 1)] picks, whatever
    tasks of whatever class become runnable meanwhile. *)
Theorem sched_no_starvation (c : PriorityClass) (es : list sched_event) (s : RoundRobinScheduler)
    (pre : list Z) (t : Z) (post : list Z) :
  sched_wf s -> queue_of RealTime s = [] -> Forall quiet es -> guaranteed (thermal s) c ->
  queue_of c s = pre ++ t :: post -> 8 * (Z.of_nat (length pre) + 1) <= npicks es -> t ∈ picked es s.
Proof. apply task_served. Qed.

(** A scheduler with the system task 1 and the background task 2 runnable. *)
Definition demo_sched (mc : Z) : RoundRobinScheduler :=
  set_cpu_temperature mc
    (register_process (mkTcb 2 Runnable Background 0 0 0) Background
      (register_process (mkTcb 1 Runnable System 0 0 0) System sched_new)).

(** [n] rounds of a pick after which task 1 is runnable again. *)
Fixpoint rounds (n : nat) : list sched_event :=
  match n with O => [] | S n => EvPick :: EvEnqueue 1 System :: rounds n end.

Lemma sched_no_starvation_witness :
  2 ∈ picked (rounds 8) (demo_sched 40000).
Proof.
  apply (sched_no_starvation Background (rounds 8) (demo_sched 40000) [] 2 []).
  - split; vm_compute; done.
  - reflexivity.
  - repeat constructor; done.
  - reflexivity.
  - reflexivity.
  - vm_compute. done.
Defined.

(** Above the [Normal] level a runnable system task keeps background tasks out. *)
Lemma warm_pick_not_background s :
  sched_wf s -> thermal s <> Normal -> queue_of System s <> [] -> queue_of RealTime s = [] ->
  queue_of Background (pick_next s).2 = queue_of Background s /\ queue_of RealTime (pick_next s).2 = [] /\
  sched_wf (pick_next s).2 /\ thermal (pick_next s).2 = thermal s /\ tasks (pick_next s).2 = tasks s.
Proof.
  intros Hs Hth Hsys Hrt. pose proof (pick_next_ok s Hs) as (Hw & Ht & Hts & Hp).
  destruct (pick_next s) as [[t|] s']; cbn [fst snd] in *; [|by rewrite Hp in Hsys].
  rewrite bool_decide_eq_true_2 in Hp by done. destruct Hp as (c & (q & Hq & Htk) & _ & Hf & Hn).
  assert (Hc : c <> Background).
  { intros ->. destruct (decide (queue_of (first_served s) s = [])) as [E|E].
    - by destruct Hsys; apply (Hn E System); simpl; lia.
    - specialize (Hf E). unfold first_served, FAIRNESS_LEN in Hf. revert Hf.
      pose proof (Z.mod_pos_bound (pick_counter s) 8 ltac:(lia)) as Hr.
      destruct (Z.to_nat (pick_counter s mod 8)) as [|[|[|[|[|[|[|[|]]]]]]]]; by destruct (thermal s). }
  split_and!; try done; rewrite Htk; case_bool_decide; congruence.
Qed.

(** The guarantee does not extend to background tasks on a warm
    processor: at any level above [Normal], however many rounds of a pick
    followed by the system task 1 becoming runnable again go by, the
    background queue is exactly what it was. *)
Theorem background_starves_when_warm (n : nat) (s : RoundRobinScheduler) :
  sched_wf s -> thermal s <> Normal -> queue_of System s <> [] -> queue_of RealTime s = [] ->
  is_Some (position 1 (tasks s)) ->
  queue_of Background (after (rounds n) s) = queue_of Background s /\ npicks (rounds n) = Z.of_nat n.
Proof.
  intros Hs Hth Hsys Hrt Hpos. split; [|induction n as [|n IHn]; simpl; lia].
  revert s Hs Hth Hsys Hrt Hpos. induction n as [|n IH]; intros s Hs Hth Hsys Hrt [i Hi]; [done|].
  cbn [rounds after ev_step]. destruct (warm_pick_not_background s Hs Hth Hsys Hrt) as (Hb & Hr & Hw & Ht & Hts).
  set (s1 := (pick_next s).2) in *. unfold enqueue. rewrite Hts, Hi.
  assert (Hi' : is_Some (tasks s !! i)).
  { clear -Hi. revert i Hi. induction (tasks s) as [|x l IHl]; intros i; simpl; [done|].
    destruct (t_id x =? 1); [intros [= <-]; simpl; eauto|]. intros (j & Hj & ->)%fmap_Some. simpl. by apply IHl. }
  destruct Hi' as [x Hx]. rewrite Hx. cbn [snd]. set (s2 := set_task i _ s1).
  assert (Hw2 : sched_wf s2) by done.
  rewrite IH; [| | | | |].
  - rewrite push_queue by done. rewrite bool_decide_eq_false_2 by done. exact Hb.
  - by apply push_wf.
  - cbn. congruence.
  - rewrite push_queue by done. rewrite bool_decide_eq_true_2 by done. by destruct (queue_of System s2).
  - rewrite push_queue by done. rewrite bool_decide_eq_false_2 by done. exact Hr.
  - cbn [push with_queues tasks s2 set_task with_tasks]. rewrite Hts. clear -Hi Hx. revert i Hi Hx.
    induction (tasks s) as [|y l IHl]; intros i; simpl; [done|].
    destruct (t_id y =? 1) eqn:E; [intros [= <-]; simpl; intros [= ->]; simpl; rewrite E; eauto|].
    intros (j & Hj & ->)%fmap_Some Hx. simpl in *. rewrite E. destruct (IHl j Hj Hx) as [k ->]. simpl. eauto.
Qed.

Lemma background_starves_when_warm_witness :
  queue_of Background (after (rounds 100) (demo_sched 72000)) = [2].
Proof.
  refine (proj1 (background_starves_when_warm 100 (demo_sched 72000) _ _ _ _ _)).
  - split; vm_compute; done.
  - done.
  - done.
  - done.
  - vm_compute. eauto.
Defined.
