(* ===== verification/RunQueue.v ===== *)
(** * Per-processor run queues

    [nexacore-kernel/src/bare_metal/per_cpu_run_queue.rs]: one queue of tasks per processor, each
    behind a spin lock, with work stealing.  Processors run at the same time.  A step of a processor
    is one access to shared memory: the compare-and-swap of the lock, the load of its flag while it
    spins, the read of the queue, the write of the queue, the release.  Reading and writing are
    separate steps, so that an update could be lost if the lock did not exclude other processors. *)

From S2P Require Import Prelude Kernel Scheduling.

Definition NUM_PRIORITY_CLASSES : nat := 6.
Definition NUM_CPU_SLOTS : Z := 32.

(** ** One queue *)

Abbreviation PerCpuRunQueue := (list (list Z)).
Definition PerCpuRunQueue_new : PerCpuRunQueue := replicate NUM_PRIORITY_CLASSES [].

Definition push_back (qs : PerCpuRunQueue) (task : Z) (priority : PriorityClass) : PerCpuRunQueue :=
  alter (fun q => q ++ [task]) (class_index priority) qs.
Fixpoint pop_front (qs : PerCpuRunQueue) : option Z * PerCpuRunQueue :=
  match qs with
  | [] => (None, [])
  | (t :: q) :: qs => (Some t, q :: qs)
  | [] :: qs => let '(r, qs) := pop_front qs in (r, [] :: qs)
  end.
(** The scan goes from the last class to the first. *)
Fixpoint steal_back (qs : PerCpuRunQueue) : option Z * PerCpuRunQueue :=
  match qs with
  | [] => (None, [])
  | q :: qs =>
      match steal_back qs with
      | (Some t, qs) => (Some t, q :: qs)
      | (None, _) => match last q with
                     | Some t => (Some t, take (length q - 1) q :: qs)
                     | None => (None, q :: qs)
                     end
      end
  end.
Definition total_len (qs : PerCpuRunQueue) : Z := foldr (fun q n => Z.of_nat (length q) + n) 0 qs.

(** ** The calls and the steps inside them *)

Inductive call :=
| enqueue_on_cpu (cpu_id task : Z) (priority : PriorityClass)
| pop_for_cpu (cpu_id : Z)
| steal_from (victim : Z)
| pop_for_cpu_with_stealing (cpu_id : Z).

(** What a processor does under the lock, and what it goes on with: [scan] is whether it looks at
    other processors when it finds nothing. *)
Inductive section :=
| Enqueue (task : Z) (priority : PriorityClass)
| PopLocal (cpu_id : Z) (scan : bool)
| StealVictim (cpu_id victim : Z) (scan : bool).
Inductive thread :=
| Out
| Cas (c : section) (slot : nat)
| Spin (c : section) (slot : nat)
| Read (c : section) (slot : nat)
| Write (c : section) (slot : nat) (r : option Z) (qs : PerCpuRunQueue)
| Release (c : section) (slot : nat) (r : option Z).

Record CpuSlot := mkSlot { flag : bool; queue : PerCpuRunQueue }.
(** [given] and [taken]: the tasks of accepted enqueue calls, and the tasks the others returned. *)
Record system := mkSystem { slots : list CpuSlot; threads : list thread; given : list Z; taken : list Z }.

Definition slot_of (cpu_id : Z) : option nat := if cpu_id <? NUM_CPU_SLOTS then Some (Z.to_nat cpu_id) else None.
Definition body (c : section) (qs : PerCpuRunQueue) : option Z * PerCpuRunQueue :=
  match c with
  | Enqueue task priority => (None, push_back qs task priority)
  | PopLocal _ _ => pop_front qs
  | StealVictim _ _ _ => steal_back qs
  end.

(** The next round of [for victim in 0..NUM_CPU_SLOTS], from [victim]. *)
Definition scan_from (cpu_id victim : Z) : thread :=
  let victim := if victim =? cpu_id then victim + 1 else victim in
  if victim <? NUM_CPU_SLOTS then Cas (StealVictim cpu_id victim true) (Z.to_nat victim) else Out.

(** The first step of a call: the thread, and the task it was given. *)
Definition enter (k : call) : thread * list Z :=
  match k with
  | enqueue_on_cpu cpu_id task priority =>
      match slot_of cpu_id with Some i => (Cas (Enqueue task priority) i, [task]) | None => (Out, []) end
  | pop_for_cpu cpu_id => (match slot_of cpu_id with Some i => Cas (PopLocal cpu_id false) i | None => Out end, [])
  | steal_from victim => (match slot_of victim with Some i => Cas (StealVictim victim victim false) i | None => Out end, [])
  | pop_for_cpu_with_stealing cpu_id =>
      (match slot_of cpu_id with Some i => Cas (PopLocal cpu_id true) i | None => scan_from cpu_id 0 end, [])
  end.
(** After the release: the thread, and the task the call returns. *)
Definition leave (c : section) (r : option Z) : thread * list Z :=
  match c, r with
  | Enqueue _ _, _ => (Out, [])
  | _, Some t => (Out, [t])
  | PopLocal cpu_id scan, None => (if scan then scan_from cpu_id 0 else Out, [])
  | StealVictim cpu_id victim scan, None => (if scan then scan_from cpu_id (victim + 1) else Out, [])
  end.

Definition set_slot (s : system) (i : nat) (x : CpuSlot) (k : nat) (t : thread) : system :=
  mkSystem (<[i := x]> (slots s)) (<[k := t]> (threads s)) (given s) (taken s).
Definition set_thread (s : system) (k : nat) (t : thread) : system := mkSystem (slots s) (<[k := t]> (threads s)) (given s) (taken s).

(** A step of processor [k]. *)
Definition advance (s : system) (k : nat) : option system :=
  t ← threads s !! k;
  match t with
  | Out => None
  | Cas c i =>
      x ← slots s !! i;
      Some (if flag x then set_thread s k (Spin c i) else set_slot s i (mkSlot true (queue x)) k (Read c i))
  | Spin c i =>
      x ← slots s !! i;
      Some (set_thread s k (if flag x then Spin c i else Cas c i))
  | Read c i =>
      x ← slots s !! i;
      let '(r, qs) := body c (queue x) in
      Some (set_thread s k (Write c i r qs))
  | Write c i r qs =>
      x ← slots s !! i;
      Some (set_slot s i (mkSlot (flag x) qs) k (Release c i r))
  | Release c i r =>
      x ← slots s !! i;
      let '(t, out) := leave c r in
      let s := set_slot s i (mkSlot false (queue x)) k t in
      Some (mkSystem (slots s) (threads s) (given s) (taken s ++ out))
  end.
(** A turn: processor [k] makes a call, or goes on. *)
Inductive turn := Start (k : nat) (c : call) | Go (k : nat).
Definition step (s : system) (t : turn) : option system :=
  match t with
  | Start k c =>
      match threads s !! k with
      | Some Out => let '(t, new) := enter c in Some (mkSystem (slots s) (<[k := t]> (threads s)) (given s ++ new) (taken s))
      | _ => None
      end
  | Go k => advance s k
  end.
Fixpoint run (s : system) (ts : list turn) : option system :=
  match ts with
  | [] => Some s
  | t :: ts => s ← step s t; run s ts
  end.
Definition RUN_QUEUES : list CpuSlot := replicate (Z.to_nat NUM_CPU_SLOTS) (mkSlot false PerCpuRunQueue_new).
Definition system_new (cpus : nat) : system := mkSystem RUN_QUEUES (replicate cpus Out) [] [].

(** ** No task is lost or duplicated *)

Definition occ (x : Z) (l : list Z) : Z := Z.of_nat (count_occ Z.eq_dec l x).
Fixpoint sumz {A} (f : A -> Z) (l : list A) : Z := match l with [] => 0 | a :: l => f a + sumz f l end.

Lemma occ_app x l k : occ x (l ++ k) = occ x l + occ x k.
Proof. unfold occ. rewrite count_occ_app. lia. Qed.
Lemma occ_concat x (qs : PerCpuRunQueue) : occ x (concat qs) = sumz (occ x) qs.
Proof. induction qs as [|q qs IH]; [done|]. cbn [concat sumz]. by rewrite occ_app, IH. Qed.
Lemma sumz_insert {A} (f : A -> Z) l i a b : l !! i = Some a -> sumz f (<[i := b]> l) = sumz f l - f a + f b.
Proof.
  revert i. induction l as [|c l IH]; intros [|i] H; cbn in H; [done|done| |].
  - injection H as ->. change (<[0%nat := b]> (a :: l)) with (b :: l). cbn [sumz]. lia.
  - change (<[S i := b]> (c :: l)) with (c :: <[i := b]> l). cbn [sumz]. rewrite (IH i H). lia.
Qed.
Lemma sumz_replicate {A} (f : A -> Z) n a : f a = 0 -> sumz f (replicate n a) = 0.
Proof. intros H. induction n as [|n IH]; [done|]. cbn [replicate sumz]. lia. Qed.

Lemma push_back_occ x qs t p : length qs = NUM_PRIORITY_CLASSES -> occ x (concat (push_back qs t p)) = occ x (concat qs) + occ x [t].
Proof.
  intros Hl. unfold push_back. destruct (lookup_lt_is_Some_2 qs (class_index p)) as [q Hq]; [rewrite Hl; destruct p; cbn; unfold NUM_PRIORITY_CLASSES; lia|].
  rewrite !occ_concat. assert (alter (fun q => q ++ [t]) (class_index p) qs = <[class_index p := q ++ [t]]> qs) as ->.
  { apply list_eq. intros i. destruct (decide (i = class_index p)) as [->|Hne].
    - rewrite list_lookup_alter_eq, Hq, list_lookup_insert_eq by (by eapply lookup_lt_Some). done.
    - by rewrite list_lookup_alter_ne, list_lookup_insert_ne. }
  rewrite (sumz_insert _ _ _ q) by done. rewrite occ_app. lia.
Qed.
Definition opt_list {A} (o : option A) : list A := match o with Some a => [a] | None => [] end.
Lemma pop_front_occ x qs : occ x (concat qs) = occ x (opt_list (pop_front qs).1) + occ x (concat (pop_front qs).2).
Proof.
  induction qs as [|q qs IH]; [done|]. destruct q as [|t q]; cbn [pop_front].
  - destruct (pop_front qs) as [r qs']. cbn [fst snd concat app] in *. done.
  - cbn [fst snd concat opt_list]. rewrite <- occ_app. done.
Qed.
Lemma last_snoc_split (q : list Z) t : last q = Some t -> q = take (length q - 1) q ++ [t].
Proof.
  intros H. destruct q as [|y q _] using rev_ind; [done|]. rewrite last_snoc in H. injection H as ->.
  rewrite length_app. cbn [length]. rewrite take_app_le by lia. replace (length q + 1 - 1)%nat with (length q) by lia. by rewrite take_ge.
Qed.
Lemma steal_back_occ x qs : occ x (concat qs) = occ x (opt_list (steal_back qs).1) + occ x (concat (steal_back qs).2).
Proof.
  induction qs as [|q qs IH]; [done|]. cbn [steal_back]. destruct (steal_back qs) as [[t|] qs'] eqn:E; cbn [fst snd concat opt_list] in *.
  - rewrite !occ_app, IH. lia.
  - destruct (last q) as [t|] eqn:El; cbn [fst snd concat opt_list]; [|reflexivity].
    rewrite (last_snoc_split q t El) at 1. rewrite !occ_app. lia.
Qed.
Lemma body_length c qs : length (body c qs).2 = length qs.
Proof.
  destruct c; cbn [body snd].
  - unfold push_back. apply length_alter.
  - induction qs as [|[|t q] qs IH]; cbn [pop_front]; [done| |done]. destruct (pop_front qs). cbn [snd length] in *. lia.
  - induction qs as [|q qs IH]; cbn [steal_back]; [done|]. destruct (steal_back qs) as [[t|] qs']; cbn [snd length] in *; [lia|].
    destruct (last q); done.
Qed.

(** The task a section brings in, and the one it takes out. *)
Definition brings (c : section) : list Z := match c with Enqueue t _ => [t] | _ => [] end.
Definition takes (c : section) (r : option Z) : list Z := match c with Enqueue _ _ => [] | _ => opt_list r end.
Definition in_flight (t : thread) : list Z :=
  match t with
  | Out => []
  | Cas c _ | Spin c _ | Read c _ | Write c _ _ _ => brings c
  | Release c _ r => takes c r
  end.
Lemma body_occ x c qs :
  length qs = NUM_PRIORITY_CLASSES -> occ x (concat qs) + occ x (brings c) = occ x (takes c (body c qs).1) + occ x (concat (body c qs).2).
Proof.
  intros Hl. destruct c; cbn [body brings takes fst snd].
  - rewrite push_back_occ by done. change (occ x []) with 0. lia.
  - rewrite (pop_front_occ x qs). change (occ x []) with 0. lia.
  - rewrite (steal_back_occ x qs). change (occ x []) with 0. lia.
Qed.

(** ** The invariant *)

Definition holds (t : thread) : option nat :=
  match t with Read _ i | Write _ i _ _ | Release _ i _ => Some i | _ => None end.
Definition at_slot (t : thread) : option nat :=
  match t with Out => None | Cas _ i | Spin _ i | Read _ i | Write _ i _ _ | Release _ i _ => Some i end.

Record inv (s : system) : Prop := mkInv {
  inv_slots : length (slots s) = Z.to_nat NUM_CPU_SLOTS;
  inv_classes : forall i x, slots s !! i = Some x -> length (queue x) = NUM_PRIORITY_CLASSES;
  inv_at : forall k t i, threads s !! k = Some t -> at_slot t = Some i -> (i < Z.to_nat NUM_CPU_SLOTS)%nat;
  inv_locked : forall k t i x, threads s !! k = Some t -> holds t = Some i -> slots s !! i = Some x -> flag x = true;
  inv_unique : forall k k' t t' i, threads s !! k = Some t -> threads s !! k' = Some t' -> holds t = Some i -> holds t' = Some i -> k = k';
  inv_write : forall k c i r qs x, threads s !! k = Some (Write c i r qs) -> slots s !! i = Some x -> body c (queue x) = (r, qs);
  inv_count : forall x, occ x (given s) = occ x (taken s) + sumz (fun t => occ x (in_flight t)) (threads s) + sumz (fun q => occ x (concat (queue q))) (slots s);
}.

(** A change of one thread that takes no lock. *)
Lemma inv_thread s k t t' g :
  inv s -> threads s !! k = Some t -> (forall i, at_slot t' = Some i -> (i < Z.to_nat NUM_CPU_SLOTS)%nat) ->
  (forall i, holds t' = Some i -> holds t = Some i) -> (forall c i r qs, t' = Write c i r qs -> forall x, slots s !! i = Some x -> body c (queue x) = (r, qs)) ->
  (forall x, occ x (in_flight t') = occ x (in_flight t) + occ x g) ->
  inv (mkSystem (slots s) (<[k := t']> (threads s)) (given s ++ g) (taken s)).
Proof.
  intros Hinv Hk Hat Hh Hw Hf. pose proof (lookup_lt_Some _ _ _ Hk) as Hlt. destruct Hinv as [I1 I2 I3 I4 I5 I6 I7].
  assert (forall j u, <[k := t']> (threads s) !! j = Some u -> j = k /\ u = t' \/ j <> k /\ threads s !! j = Some u) as Hl.
  { intros j u Hj. destruct (decide (j = k)) as [->|]; [rewrite list_lookup_insert_eq in Hj by done; left; by injection Hj|].
    rewrite list_lookup_insert_ne in Hj by done. auto. }
  split; cbn [slots threads given taken]; try done.
  - intros j u i [[-> ->]|[_ Hj]]%Hl; eauto.
  - intros j u i x [[-> ->]|[_ Hj]]%Hl Hu; eauto.
  - intros j j' u u' i [[-> ->]|[Hn Hj]]%Hl [[-> ->]|[Hn' Hj']]%Hl Hu Hu'; [done| | |by eapply I5].
    + symmetry. apply Hh in Hu. by eapply (I5 j' k).
    + apply Hh in Hu'. by eapply (I5 j k).
  - intros j c i r qs x [[-> E]|[_ Hj]]%Hl Hx; [by eapply Hw|by eapply I6].
  - intros x. rewrite occ_app, (sumz_insert _ _ _ t) by done. rewrite I7, Hf. lia.
Qed.

(** A change of a slot by the only thread that holds it, or that takes its free lock. *)
Lemma inv_slot s k t t' i x x' out :
  inv s -> threads s !! k = Some t -> slots s !! i = Some x -> (forall j, at_slot t' = Some j -> (j < Z.to_nat NUM_CPU_SLOTS)%nat) ->
  (holds t = Some i \/ flag x = false) -> (holds t' = None \/ holds t' = Some i /\ flag x' = true) ->
  (forall c j r qs, t' <> Write c j r qs) -> length (queue x') = NUM_PRIORITY_CLASSES ->
  (forall y, occ y (in_flight t') + occ y out + occ y (concat (queue x')) = occ y (in_flight t) + occ y (concat (queue x))) ->
  inv (mkSystem (<[i := x']> (slots s)) (<[k := t']> (threads s)) (given s) (taken s ++ out)).
Proof.
  intros Hinv Hk Hx Hat Hown Hh Hnw Hq Hf. pose proof (lookup_lt_Some _ _ _ Hk) as Hlt. pose proof (lookup_lt_Some _ _ _ Hx) as Hlx.
  destruct Hinv as [I1 I2 I3 I4 I5 I6 I7].
  assert (forall j u, <[k := t']> (threads s) !! j = Some u -> j = k /\ u = t' \/ j <> k /\ threads s !! j = Some u) as Hl.
  { intros j u Hj. destruct (decide (j = k)) as [->|]; [rewrite list_lookup_insert_eq in Hj by done; left; by injection Hj|].
    rewrite list_lookup_insert_ne in Hj by done. auto. }
  assert (forall j u, j <> k -> threads s !! j = Some u -> holds u <> Some i) as Hother.
  { intros j u Hne Hj Hu. destruct Hown as [Hown|Hfree]; [apply Hne; by eapply (I5 j k u t i)|]. by rewrite (I4 j u i x Hj Hu Hx) in Hfree. }
  assert (forall j y, <[i := x']> (slots s) !! j = Some y -> j = i /\ y = x' \/ j <> i /\ slots s !! j = Some y) as Hs.
  { intros j y Hj. destruct (decide (j = i)) as [->|]; [rewrite list_lookup_insert_eq in Hj by done; left; by injection Hj|].
    rewrite list_lookup_insert_ne in Hj by done. auto. }
  split; cbn [slots threads given taken].
  - by rewrite length_insert.
  - intros j y [[-> ->]|[_ Hj]]%Hs; [done|by eapply I2].
  - intros j u i' [[-> ->]|[_ Hj]]%Hl; eauto.
  - intros j u i' y [[-> ->]|[Hn Hj]]%Hl Hu [[-> ->]|[Hne Hy]]%Hs.
    + destruct Hh as [Hh|[_ Hh]]; [congruence|done].
    + destruct Hh as [Hh|[Hh _]]; congruence.
    + by destruct (Hother j u Hn Hj).
    + by eapply I4.
  - intros j j' u u' i' [[-> ->]|[Hn Hj]]%Hl [[-> ->]|[Hn' Hj']]%Hl Hu Hu'; [done| | |by eapply I5].
    + destruct Hh as [Hh|[Hh _]]; [congruence|]. assert (i' = i) as -> by congruence. by destruct (Hother j' u' Hn' Hj').
    + destruct Hh as [Hh|[Hh _]]; [congruence|]. assert (i' = i) as -> by congruence. by destruct (Hother j u Hn Hj).
  - intros j c i' r qs y [[-> E]|[Hn Hj]]%Hl [[-> ->]|[Hne Hy]]%Hs; [by destruct (Hnw c i r qs)|by destruct (Hnw c i' r qs)| |by eapply I6].
    destruct (Hother j (Write c i r qs) Hn Hj). done.
  - intros y. rewrite occ_app, (sumz_insert _ _ _ t), (sumz_insert _ _ _ x) by done. rewrite I7. specialize (Hf y). lia.
Qed.

Lemma scan_from_facts cpu v i : at_slot (scan_from cpu v) = Some i -> (i < Z.to_nat NUM_CPU_SLOTS)%nat.
Proof. unfold scan_from, NUM_CPU_SLOTS. destruct (Z.ltb_spec (if v =? cpu then v + 1 else v) 32); cbn; [intros [= <-]; lia|done]. Qed.
Lemma scan_from_idle cpu v : holds (scan_from cpu v) = None /\ in_flight (scan_from cpu v) = [] /\ forall c j r qs, scan_from cpu v <> Write c j r qs.
Proof. unfold scan_from. by destruct (_ <? _). Qed.
Lemma slot_of_facts cpu i : slot_of cpu = Some i -> (i < Z.to_nat NUM_CPU_SLOTS)%nat.
Proof. unfold slot_of, NUM_CPU_SLOTS. destruct (Z.ltb_spec cpu 32); [intros [= <-]; lia|done]. Qed.

Lemma enter_facts c :
  holds (enter c).1 = None /\ in_flight (enter c).1 = (enter c).2 /\ (forall k j r qs, (enter c).1 <> Write k j r qs) /\
  forall i, at_slot (enter c).1 = Some i -> (i < Z.to_nat NUM_CPU_SLOTS)%nat.
Proof.
  pose proof (fun cpu v i => scan_from_facts cpu v i) as Hs. destruct c as [cpu t p|cpu|v|cpu]; cbn [enter]; try destruct (slot_of _) as [j|] eqn:E; cbn [fst snd holds in_flight brings at_slot].
  all: try (repeat split; try done; intros i [= <-]; by eapply slot_of_facts).
  destruct (scan_from_idle cpu 0) as (H1 & H2 & H3). split; [done|]. split; [done|]. split; [done|]. intros i. apply Hs.
Qed.
Lemma leave_facts c r :
  holds (leave c r).1 = None /\ in_flight (leave c r).1 = [] /\ (leave c r).2 = takes c r /\
  (forall k j q qs, (leave c r).1 <> Write k j q qs) /\ forall i, at_slot (leave c r).1 = Some i -> (i < Z.to_nat NUM_CPU_SLOTS)%nat.
Proof.
  destruct c as [t p|cpu sc|cpu v sc], r as [y|]; cbn [leave fst snd takes opt_list]; try (repeat split; done).
  - destruct sc; [|repeat split; done]. destruct (scan_from_idle cpu 0) as (H1 & H2 & H3). repeat split; try done. intros i. apply scan_from_facts.
  - destruct sc; [|repeat split; done]. destruct (scan_from_idle cpu (v + 1)) as (H1 & H2 & H3). repeat split; try done. intros i. apply scan_from_facts.
Qed.

Lemma inv_step s t s' : inv s -> step s t = Some s' -> inv s'.
Proof.
  intros Hinv. destruct t as [k c|k]; cbn [step].
  - destruct (threads s !! k) as [[]|] eqn:Hk; try done. destruct (enter_facts c) as (H1 & H2 & H3 & H4).
    destruct (enter c) as [t new]. cbn [fst snd] in *. intros [= <-]. apply (inv_thread s k Out); try done; [congruence| |].
    + intros c' i r qs E. by destruct (H3 c' i r qs).
    + intros x. rewrite H2. done.
  - unfold advance. destruct (threads s !! k) as [t|] eqn:Hk; [|done]. cbn [mbind option_bind].
    assert (forall t', (forall i, at_slot t' = Some i -> (i < Z.to_nat NUM_CPU_SLOTS)%nat) -> (forall i, holds t' = Some i -> holds t = Some i) ->
      (forall c i r qs, t' = Write c i r qs -> forall x, slots s !! i = Some x -> body c (queue x) = (r, qs)) ->
      in_flight t' = in_flight t -> inv (set_thread s k t')) as Hthread.
    { intros t' A1 A2 A3 A4. unfold set_thread. rewrite <- (app_nil_r (given s)). apply (inv_thread s k t); try done.
      intros x. rewrite A4. change (occ x []) with 0. lia. }
    pose proof (fun i => inv_at s Hinv k t i Hk) as Hat.
    assert (forall x t' i y, slots s !! i = Some x -> (forall j, at_slot t' = Some j -> (j < Z.to_nat NUM_CPU_SLOTS)%nat) ->
      (holds t = Some i \/ flag x = false) -> (holds t' = None \/ holds t' = Some i /\ flag y = true) ->
      (forall c j r qs, t' <> Write c j r qs) -> length (queue y) = NUM_PRIORITY_CLASSES ->
      (forall z, occ z (in_flight t') + occ z (concat (queue y)) = occ z (in_flight t) + occ z (concat (queue x))) -> inv (set_slot s i y k t')) as Hslot.
    { intros x t' i y A0 A1 A2 A3 A4 A5 A6. unfold set_slot. rewrite <- (app_nil_r (taken s)). eapply (inv_slot s k t t' i x); try done.
      intros z. change (occ z []) with 0. specialize (A6 z). lia. }
    destruct t as [|c i|c i|c i|c i r qs|c i r]; [done| | | | |].
    + destruct (slots s !! i) as [x|] eqn:Hx; [|done]. cbn [mbind option_bind]. destruct (flag x) eqn:Ef; intros [= <-].
      * by apply Hthread.
      * apply (Hslot x); try done; [by right|by right|]. by apply (inv_classes s Hinv i x).
    + destruct (slots s !! i) as [x|] eqn:Hx; [|done]. cbn [mbind option_bind]. intros [= <-]. by destruct (flag x); apply Hthread.
    + destruct (slots s !! i) as [x|] eqn:Hx; [|done]. cbn [mbind option_bind]. destruct (body c (queue x)) as [r qs] eqn:Eb. intros [= <-].
      apply Hthread; try done. intros c' i' r' qs' [= <- <- <- <-] y Hy. congruence.
    + destruct (slots s !! i) as [x|] eqn:Hx; [|done]. cbn [mbind option_bind]. intros [= <-].
      pose proof (inv_write s Hinv k c i r qs x Hk Hx) as Hb. pose proof (inv_classes s Hinv i x Hx) as Hl.
      apply (Hslot x); try done; [by left|right; split; [done|]; by apply (inv_locked s Hinv k (Write c i r qs) i x)| |].
      * cbn [queue]. pose proof (body_length c (queue x)) as H. rewrite Hb in H. cbn [snd] in H. lia.
      * intros z. cbn [in_flight queue]. pose proof (body_occ z c (queue x) Hl) as H. rewrite Hb in H. cbn [fst snd] in H. lia.
    + destruct (slots s !! i) as [x|] eqn:Hx; [|done]. cbn [mbind option_bind]. destruct (leave_facts c r) as (H1 & H2 & H3 & H4 & H5).
      destruct (leave c r) as [t' out]. cbn [fst snd] in *. intros [= <-]. cbn [set_slot slots threads given taken].
      eapply (inv_slot s k (Release c i r) t' i x); try done; [by left|by left|by apply (inv_classes s Hinv i x)|].
      intros y. rewrite H2, H3. cbn [in_flight queue]. change (occ y []) with 0. lia.
Qed.
Lemma locks_run ts s s' : inv s -> run s ts = Some s' -> inv s'.
Proof.
  revert s. induction ts as [|t ts IH]; intros s Hi; cbn [run]; [by intros [= <-]|].
  destruct (step s t) as [s1|] eqn:E; [|done]. cbn [mbind option_bind]. intros Hr. by eapply IH; [eapply inv_step|].
Qed.
Lemma inv_new n : inv (system_new n).
Proof.
  split; cbn [system_new slots threads given taken].
  - apply length_replicate.
  - by intros i x [-> _]%lookup_replicate.
  - by intros k t i [-> _]%lookup_replicate.
  - by intros k t i x [-> _]%lookup_replicate.
  - by intros k k' t t' i [-> _]%lookup_replicate.
  - by intros k c i r qs x [? _]%lookup_replicate.
  - intros x. rewrite !sumz_replicate by done. done.
Qed.

Definition idle (s : system) : Prop := Forall (fun t => t = Out) (threads s).
Definition queued (s : system) : list Z := concat ((fun x => concat (queue x)) <$> slots s).
Lemma occ_queued x s : occ x (queued s) = sumz (fun q => occ x (concat (queue q))) (slots s).
Proof. unfold queued. induction (slots s) as [|q l IH]; [done|]. cbn [fmap list_fmap concat sumz]. by rewrite occ_app, IH. Qed.

(** C13. Safety: whatever the interleaving of enqueues, pops and steals on any number of processors, two
    processors are never inside the lock of the same queue, and no task is lost or handed out twice:
    when no call is in progress the tasks accepted are exactly the tasks returned and the tasks queued,
    and at any time no more tasks have been returned than were accepted. *)
Theorem run_queues_conserve n ts s :
  run (system_new n) ts = Some s ->
  (forall k k' t t' i, threads s !! k = Some t -> threads s !! k' = Some t' -> holds t = Some i -> holds t' = Some i -> k = k') /\
  (forall x, occ x (taken s) <= occ x (given s)) /\
  (idle s -> given s ≡ₚ taken s ++ queued s).
Proof.
  intros Hr. pose proof (locks_run ts _ s (inv_new n) Hr) as Hinv. split; [apply (inv_unique s Hinv)|].
  assert (forall (A : Type) (f : A -> Z) l, (forall a, 0 <= f a) -> 0 <= sumz f l) as Hpos by (intros A f l Hf; induction l as [|a l IH]; cbn [sumz]; [lia|specialize (Hf a); lia]).
  assert (forall x l, 0 <= occ x l) as Hocc by (intros; unfold occ; lia). split.
  - intros x. rewrite (inv_count s Hinv x). pose proof (Hpos _ (fun t => occ x (in_flight t)) (threads s) ltac:(intros; apply Hocc)).
    pose proof (Hpos _ (fun q => occ x (concat (queue q))) (slots s) ltac:(intros; apply Hocc)). lia.
  - intros Hidle. apply (Permutation_count_occ Z.eq_dec). intros x. apply Nat2Z.inj. fold (occ x (given s)) (occ x (taken s ++ queued s)).
    rewrite occ_app, occ_queued, (inv_count s Hinv x). assert (sumz (fun t => occ x (in_flight t)) (threads s) = 0) as ->; [|lia].
    unfold idle in Hidle. induction Hidle as [|t l -> _ IH]; [done|]. cbn [sumz]. rewrite IH. done.
Qed.

(** Processor 0 enqueues two tasks on its queue while processor 1, which found its own empty, steals one:
    it spins on the lock and comes in after the second enqueue. *)
Definition demo_turns : list turn :=
  [Start 0 (enqueue_on_cpu 0 7 Interactive)] ++ replicate 4 (Go 0) ++
  [Start 1 (pop_for_cpu_with_stealing 1); Go 1; Go 1; Go 1; Go 1] ++
  [Start 0 (enqueue_on_cpu 0 8 Background); Go 0; Go 1; Go 0; Go 1; Go 0; Go 1; Go 0; Go 1; Go 1; Go 1; Go 1; Go 1].
Lemma run_queues_conserve_witness :
  exists s, run (system_new 2) demo_turns = Some s /\ taken s = [8] /\ given s ≡ₚ taken s ++ queued s.
Proof.
  destruct (run (system_new 2) demo_turns) as [s|] eqn:Hr; [|vm_compute in Hr; discriminate Hr].
  exists s. split; [reflexivity|]. split; [vm_compute in Hr; injection Hr as <-; reflexivity|].
  apply (run_queues_conserve 2 demo_turns s Hr). vm_compute in Hr. injection Hr as <-. repeat constructor.
Defined.

(** The scan can return nothing while a task is queued: one enqueued on a processor it has passed. *)
Example scan_misses_task :
  match run (system_new 2) (Start 1 (pop_for_cpu_with_stealing 1) :: replicate 8 (Go 1) ++
          Start 0 (enqueue_on_cpu 0 42 Interactive) :: replicate 4 (Go 0) ++ replicate 120 (Go 1)) with
  | Some s => threads s = [Out; Out] /\ taken s = [] /\ queued s = [42]
  | None => False
  end.
Proof. vm_compute. repeat split. Qed.
