(* ===== verification/IpcCalls.v ===== *)
(** * System calls on channels

    The [ipc_handlers] of [nexacore-kernel/src/bare_metal/syscall_entry.rs]: the channel registry
    of [Ipc], the scheduler and the user memory of the calling task, composed as in the kernel.  A
    call that cannot complete leaves its task waiting in the registry and hands the processor over;
    it starts its loop again when the scheduler runs the task next.  Calls run with interrupts
    masked on one processor, so a step is an iteration of a loop, from one switch to the next. *)

From S2P Require Import Prelude Kernel Scope Revocation Token Ipc Scheduling Bitmap Memory Words Paging Elf UserMem.

(** ** The kernel as the handlers see it *)

(** What a switch and a check read of a process control block. *)
Record Process := mkProcess { principal : KernelPrincipal; pml4_phys : Z }.

(** The loop a task is in, with its local variables: what is on its kernel stack. *)
Inductive pending :=
| InSend (who : KernelPrincipal) (ch : Z) (kind : MessageKind) (msg : bytes)
| InReceive (who : KernelPrincipal) (ch dst_ptr dst_cap : Z) (blocking : bool).

Record kernel := mkKernel {
  sched : RoundRobinScheduler;
  ipc : KernelIpcRegistry;
  mem : memory;
  cr3 : Z;
  processes : gmap Z Process;
  loops : gmap Z pending
}.

Definition set_sched (k : kernel) (s : RoundRobinScheduler) : kernel := mkKernel s (ipc k) (mem k) (cr3 k) (processes k) (loops k).
Definition set_ipc (k : kernel) (r : KernelIpcRegistry) : kernel := mkKernel (sched k) r (mem k) (cr3 k) (processes k) (loops k).
Definition set_mem (k : kernel) (m : memory) : kernel := mkKernel (sched k) (ipc k) m (cr3 k) (processes k) (loops k).
Definition set_loops (k : kernel) (l : gmap Z pending) : kernel := mkKernel (sched k) (ipc k) (mem k) (cr3 k) (processes k) l.

Definition SYSCALL_ERROR : Z := uint_max 64.
Definition MAX_PAYLOAD : Z := 4096.
Definition MAX_TOKEN_BYTES : Z := 1024.

Definition parse_backpressure (v : Z) : option BackpressurePolicy :=
  match v with 0 => Some Block | 1 => Some Drop | 2 => Some EvictOldest | _ => None end.
Definition parse_kind (v : Z) : option MessageKind :=
  match v with
  | 1 => Some MRequest
  | 2 => Some MReply
  | 3 => Some MNotification
  | 4 => Some MCapabilityHandoff
  | 5 => Some MSharedMemoryGrant
  | _ => None
  end.

Definition current_principal_and_task (k : kernel) : Z * KernelPrincipal :=
  let id := default 0 (current (sched k)) in
  (id, match processes k !! id with Some p => principal p | None => ZERO end).

(** [yield_current] and the CR3 reload of the switch: only a task with a process has one.  The switch itself is
    skipped when the stack pointer of the next task is null, which by construction holds only of the boot task
    until it is first switched from; stack pointers are not modelled. *)
Definition yield (cur : Z) (st : TaskState) (k : kernel) : kernel :=
  let s := (yield_current cur st (sched k)).2 in
  let cr3' :=
    match current s with
    | Some next => if next =? cur then cr3 k else match processes k !! next with Some p => pml4_phys p | None => cr3 k end
    | None => cr3 k
    end in
  mkKernel s (ipc k) (mem k) cr3' (processes k) (loops k).

Definition park_until_woken (task : Z) (k : kernel) : kernel := yield task BlockedOnIpc k.
Definition unpark (task : Z) (k : kernel) : kernel :=
  set_sched k (enqueue task (resolve_priority task (sched k)) (sched k)).2.

(** The return of a call to its task. *)
Definition finish (cur rax : Z) (k : kernel) : option Z * kernel := (Some rax, set_loops k (delete cur (loops k))).

(** One round of the loop of [ipc_send]; no result when the task parks. *)
Definition send_round (cur : Z) (who : KernelPrincipal) (ch : Z) (kind : MessageKind) (msg : bytes) (k : kernel) : option Z * kernel :=
  match send (mkEnvelope cur ch kind msg) cur who (ipc k) with
  | (Ok WakeNone, r) => finish cur 0 (set_ipc k r)
  | (Ok (Wake t), r) => finish cur 0 (unpark t (set_ipc k r))
  | (Ok (WakeBlock _), r) => (None, park_until_woken cur (set_ipc k r))
  | (Err _, r) => finish cur SYSCALL_ERROR (set_ipc k r)
  end.

Section handlers.
Context {C : Ed25519} {W : Wire C} (blake3 : bytes -> bytes) (decode : bytes -> option CapabilityToken) (phys_offset : Z).

(** The arm of a receive that got a message: wake the sender, copy what fits. *)
Definition deliver (env : MessageEnvelope) (wake : WakeAction) (dst_ptr dst_cap : Z) (k : kernel) : exec (Z * kernel) :=
  let k := match wake with Wake t => unpark t k | _ => k end in
  let to_copy := Z.min (Z.of_nat (length (mpayload env))) dst_cap in
  if 0 <? to_copy then
    '(ok, m) ← copy_to_user (mem k) phys_offset (cr3 k) dst_ptr (take (Z.to_nat to_copy) (mpayload env));
    Done (if (ok : bool) then to_copy else SYSCALL_ERROR, set_mem k m)
  else Done (to_copy, k).

(** One round of the loop of [ipc_receive]. *)
Definition receive_round (cur : Z) (who : KernelPrincipal) (ch dst_ptr dst_cap : Z) (blocking : bool) (k : kernel) : exec (option Z * kernel) :=
  match receive ch cur who blocking (ipc k) with
  | (Ok (Some env, w), r) => '(n, k) ← deliver env w dst_ptr dst_cap (set_ipc k r); Done (finish cur n k)
  | (Ok (None, WakeBlock _), r) => Done (None, park_until_woken cur (set_ipc k r))
  | (Ok (None, _), r) => Done (finish cur 0 (set_ipc k r))
  | (Err _, r) => Done (finish cur SYSCALL_ERROR (set_ipc k r))
  end.

Definition round (cur : Z) (x : pending) (k : kernel) : exec (option Z * kernel) :=
  match x with
  | InSend who ch kind msg => Done (send_round cur who ch kind msg k)
  | InReceive who ch p n b => receive_round cur who ch p n b k
  end.

(** The task enters its loop. *)
Definition enter (cur : Z) (x : pending) (k : kernel) : exec (option Z * kernel) :=
  round cur x (set_loops k (<[cur := x]> (loops k))).

Definition copy_user_token (ptr len : Z) (k : kernel) : exec (result () (option bytes)) :=
  if (ptr =? 0) && (len =? 0) then Done (Ok None)
  else if (ptr =? 0) || (len =? 0) || (MAX_TOKEN_BYTES <? len) then Done (Err ())
  else
    '(ok, buf) ← copy_from_user (mem k) phys_offset (cr3 k) (replicate (Z.to_nat len) 0) ptr;
    Done (if negb ok then Err () else Ok (Some buf)).

Definition channel_rax (res : KernelResult Z * KernelIpcRegistry) (k : kernel) : option Z * kernel :=
  (Some (match res.1 with Ok ch => ch | Err _ => SYSCALL_ERROR end), set_ipc k res.2).

(** [now] is the reading of the clock. *)
Definition ipc_create_channel (a0 a1 a2 a3 a4 a5 now : Z) (k : kernel) : exec (option Z * kernel) :=
  match parse_backpressure a1 with
  | None => Done (Some SYSCALL_ERROR, k)
  | Some bp =>
      let pol := mkPolicy a0 bp (negb (a2 =? 0)) in
      let send_len := Z.land a5 0xFFFFFFFF in
      let recv_len := Z.land (Z.shiftr a5 32) 0xFFFFFFFF in
      let cur := (current_principal_and_task k).1 in
      let provider := mkProvider (replicate 32 0) in
      if (a3 =? 0) && (a4 =? 0) then Done (channel_rax (create_channel cur pol None None provider (ipc k)) k)
      else
        send_slice ← copy_user_token a3 send_len k;
        match send_slice with
        | Err _ => Done (Some SYSCALL_ERROR, k)
        | Ok send_slice =>
            recv_slice ← copy_user_token a4 recv_len k;
            match recv_slice with
            | Err _ => Done (Some SYSCALL_ERROR, k)
            | Ok recv_slice =>
                res ← create_channel_signed blake3 decode cur pol send_slice recv_slice provider now (ipc k);
                Done (channel_rax res k)
            end
        end
  end.

Definition ipc_destroy_channel (a0 : Z) (k : kernel) : exec (option Z * kernel) :=
  let cur := (current_principal_and_task k).1 in
  let '(res, r) := destroy_channel a0 cur (ipc k) in
  Done (Some (match res with Ok _ => 0 | Err _ => SYSCALL_ERROR end), set_ipc k r).

Definition ipc_send (a0 a1 a2 a3 : Z) (k : kernel) : exec (option Z * kernel) :=
  match parse_kind a1 with
  | None => Done (Some SYSCALL_ERROR, k)
  | Some kind =>
      msg ← (if a3 =? 0 then Done (Some []) else copy_from_user_vec (mem k) phys_offset (cr3 k) a2 a3 MAX_PAYLOAD);
      match msg with
      | None => Done (Some SYSCALL_ERROR, k)
      | Some msg =>
          let '(cur, who) := current_principal_and_task k in
          enter cur (InSend who a0 kind msg) k
      end
  end.

Definition ipc_receive (a0 a1 a2 a3 : Z) (k : kernel) : exec (option Z * kernel) :=
  if negb (user_range_ok a1 a2) then Done (Some SYSCALL_ERROR, k)
  else
    let '(cur, who) := current_principal_and_task k in
    enter cur (InReceive who a0 a1 a2 (negb (a3 =? 0))) k.

Definition ipc_try_receive (a0 a1 a2 : Z) (k : kernel) : exec (option Z * kernel) :=
  if negb (user_range_ok a1 a2) then Done (Some SYSCALL_ERROR, k)
  else
    let '(cur, who) := current_principal_and_task k in
    match receive a0 cur who false (ipc k) with
    | (Ok (Some env, w), r) => '(n, k) ← deliver env w a1 a2 (set_ipc k r); Done (Some n, k)
    | (_, r) => Done (Some SYSCALL_ERROR, set_ipc k r)
    end.

Definition task_yield (k : kernel) : option Z * kernel :=
  match current (sched k) with
  | Some cur => (Some 0, yield cur Runnable k)
  | None => (Some 0, k)
  end.

(** ** Runs *)

Inductive syscall :=
| IpcCreateChannel (a0 a1 a2 a3 a4 a5 now : Z)
| IpcDestroyChannel (a0 : Z)
| IpcSend (a0 a1 a2 a3 : Z)
| IpcReceive (a0 a1 a2 a3 : Z)
| IpcTryReceive (a0 a1 a2 : Z)
| TaskYield.

Definition dispatch (c : syscall) (k : kernel) : exec (option Z * kernel) :=
  match c with
  | IpcCreateChannel a0 a1 a2 a3 a4 a5 now => ipc_create_channel a0 a1 a2 a3 a4 a5 now k
  | IpcDestroyChannel a0 => ipc_destroy_channel a0 k
  | IpcSend a0 a1 a2 a3 => ipc_send a0 a1 a2 a3 k
  | IpcReceive a0 a1 a2 a3 => ipc_receive a0 a1 a2 a3 k
  | IpcTryReceive a0 a1 a2 => ipc_try_receive a0 a1 a2 k
  | TaskYield => Done (task_yield k)
  end.

(** The running task makes a call, or goes on with the loop it is in; anything else leaves the kernel alone. *)
Inductive event := Call (c : syscall) | Resume.

Definition step (e : event) (k : kernel) : exec (option Z * kernel) :=
  match current (sched k) with
  | None => Done (None, k)
  | Some cur =>
      match e, loops k !! cur with
      | Call c, None => dispatch c k
      | Resume, Some x => round cur x k
      | _, _ => Done (None, k)
      end
  end.
Fixpoint run (es : list event) (k : kernel) : exec kernel :=
  match es with
  | [] => Done k
  | e :: es => '(_, k) ← step e k; run es k
  end.
End handlers.

(** ** The scheduler as a set of runnable tasks *)

Definition runq (s : RoundRobinScheduler) : list Z := concat (run_queues s).
Definition task_ids (s : RoundRobinScheduler) : list Z := t_id <$> tasks s.

Lemma position_elem id ts : id ∈ t_id <$> ts -> exists i, position id ts = Some i /\ (i < length ts)%nat.
Proof.
  induction ts as [|t ts IH]; [by intros ?%elem_of_nil|]. intros H. cbn [position]. destruct (Z.eqb_spec (t_id t) id).
  - exists 0%nat. split; [done|]. simpl. lia.
  - cbn in H. apply elem_of_cons in H as [->|H]; [done|]. destruct (IH H) as (i & -> & Hi). exists (S i). split; [done|]. simpl. lia.
Qed.

Lemma ids_alter f (i : nat) (ts : list TaskControlBlock) : (forall t, t_id (f t) = t_id t) -> t_id <$> alter f i ts = t_id <$> ts.
Proof. intros Hf. revert i. induction ts as [|t ts IH]; intros [|i]; cbn; [done..|by rewrite Hf|]. f_equal. apply IH. Qed.

Lemma concat_alter_push (qs : list (list Z)) i x : (i < length qs)%nat -> concat (alter (fun q => q ++ [x]) i qs) ≡ₚ x :: concat qs.
Proof.
  revert i. induction qs as [|q qs IH]; intros [|i] Hi; simpl in *; [lia..| |].
  - rewrite <- app_assoc. simpl. by rewrite Permutation_middle.
  - change (q ++ concat (alter (fun q => q ++ [x]) i qs) ≡ₚ x :: q ++ concat qs). rewrite IH by lia. by rewrite Permutation_middle.
Qed.

Lemma concat_insert_tail (qs : list (list Z)) i x q : qs !! i = Some (x :: q) -> concat qs ≡ₚ x :: concat (<[i := q]> qs).
Proof.
  revert i. induction qs as [|p qs IH]; intros [|i] Hi; simpl in *; try done.
  - injection Hi as ->. done.
  - change (p ++ concat qs ≡ₚ x :: p ++ concat (<[i := q]> qs)). rewrite (IH i Hi). by rewrite Permutation_middle.
Qed.

Lemma pick_next_runq s :
  sched_wf s -> sched_wf (pick_next s).2 /\ tasks (pick_next s).2 = tasks s /\ current (pick_next s).2 = current s /\
  match (pick_next s).1 with
  | None => runq s = [] /\ runq (pick_next s).2 = []
  | Some t => runq s ≡ₚ t :: runq (pick_next s).2
  end.
Proof.
  intros Hs. destruct (pick_next_ok s Hs) as (Hw & _ & Ht & _). split; [done|]. split; [done|]. clear Hw Ht.
  unfold pick_next. pose proof (queue_lookup RealTime s Hs) as Hrt. destruct (queue_of RealTime s) as [|t q].
  2:{ split; [done|]. by apply concat_insert_tail. }
  set (s1 := with_counter s (wrapping_add 64 (pick_counter s) 1)).
  assert (forall r, r = match pop_first (run_queues s1) with Some (t, qs) => (Some t, with_queues s1 qs) | None => (None, s1) end ->
    current r.2 = current s /\ match r.1 with None => runq s = [] /\ runq r.2 = [] | Some t => runq s ≡ₚ t :: runq r.2 end) as Hstrict.
  { intros r ->. change (run_queues s1) with (run_queues s). destruct (pop_first (run_queues s)) as [[t qs]|] eqn:E; (split; [done|]).
    - apply pop_first_Some in E as (i & q & Hi & -> & _). by apply concat_insert_tail.
    - assert (runq s = []) as H; [|done]. unfold runq. pose proof (pop_first_None _ E) as Hn. clear -Hn.
      induction (run_queues s) as [|q qs IH]; [done|]. cbn. rewrite (Hn 0%nat q eq_refl). apply IH. intros i. apply (Hn (S i)). }
  cbv zeta. destruct (fairness_cycle_for (thermal s1) !! _) as [[pref|]|]; [|by apply Hstrict..].
  destruct (queue_of pref s1) as [|t q] eqn:Ep; [by apply Hstrict|]. split; [done|].
  change (queue_of pref s = t :: q) in Ep. apply concat_insert_tail. rewrite <- Ep. exact (queue_lookup pref s Hs).
Qed.

Lemma enqueue_runq t p s :
  sched_wf s -> t ∈ task_ids s ->
  let s' := (enqueue t p s).2 in
  sched_wf s' /\ task_ids s' = task_ids s /\ current s' = current s /\ runq s' ≡ₚ t :: runq s.
Proof.
  intros Hs Ht. unfold enqueue. destruct (position_elem t (tasks s) Ht) as (i & -> & Hi).
  destruct (lookup_lt_is_Some_2 _ _ Hi) as [tcb Hl]. rewrite Hl. cbn [snd]. split; [by apply push_wf|].
  split; [|split; [done|]].
  - unfold task_ids. cbn. rewrite list_fmap_insert. apply list_insert_id. by rewrite list_lookup_fmap, Hl.
  - apply concat_alter_push. cbn. pose proof (class_index_lt p). destruct Hs as [-> _]. done.
Qed.

(** A yield runs the next task, if there is one; a task that stays runnable is queued first. *)
Lemma yield_runq cur st s :
  sched_wf s -> cur ∈ task_ids s -> Forall (.∈ task_ids s) (runq s) -> current s = Some cur ->
  let s' := (yield_current cur st s).2 in
  let q := if bool_decide (st = Runnable) then cur :: runq s else runq s in
  sched_wf s' /\ task_ids s' = task_ids s /\
  (q = [] /\ runq s' = [] /\ current s' = Some cur \/ exists next, q ≡ₚ next :: runq s' /\ current s' = Some next).
Proof.
  intros Hs Hc Hq Hcur. unfold yield_current. destruct (position_elem cur (tasks s) Hc) as (i & -> & Hi).
  set (prio := match tasks s !! i with Some t => t_priority t | None => Interactive end).
  set (s1 := with_tasks s (alter (fun t => with_state t st) i (tasks s))).
  assert (sched_wf s1) as Hs1 by done. assert (task_ids s1 = task_ids s) as Hids by (apply ids_alter; done).
  set (s2 := if bool_decide (st = Runnable) then push prio cur s1 else s1).
  assert (sched_wf s2) as Hs2 by (unfold s2; case_bool_decide; [by apply push_wf|done]).
  assert (tasks s2 = tasks s1) as Ht2 by (unfold s2; by case_bool_decide).
  assert (current s2 = Some cur) as Hc2 by (unfold s2; by case_bool_decide).
  set (q := if bool_decide (st = Runnable) then cur :: runq s else runq s).
  assert (runq s2 ≡ₚ q) as Hr2.
  { unfold s2, q. case_bool_decide; [|done]. apply concat_alter_push. cbn. pose proof (class_index_lt prio). destruct Hs as [-> _]. done. }
  assert (forall x, x ∈ q -> x ∈ task_ids s) as Hqids.
  { unfold q. rewrite Forall_forall in Hq. case_bool_decide; [|done]. intros x [->|Hx]%elem_of_cons; auto. }
  destruct (pick_next_runq s2 Hs2) as (Hs3 & Ht3 & Hc3 & Hp). destruct (pick_next s2) as [[next|] s3]; cbn [fst snd] in *.
  - assert (next ∈ task_ids s) as Hn by (apply Hqids; rewrite <- Hr2, Hp; left).
    assert (task_ids s3 = task_ids s) as Hids3 by (unfold task_ids in *; by rewrite Ht3, Ht2).
    destruct (Z.eqb_spec next cur) as [->|Hne]; cbn [snd].
    + split; [done|]. split; [unfold task_ids in *; cbn; rewrite ids_alter by done; done|]. right. exists cur. by rewrite <- Hr2.
    + destruct (position_elem next (tasks s3)) as (j & -> & _); [by rewrite <- Hids3 in Hn|]. cbn [snd]. split; [done|].
      split; [unfold task_ids in *; cbn; rewrite ids_alter by done; done|]. right. exists next. by rewrite <- Hr2.
  - destruct Hp as [E1 E2]. split; [done|]. split; [unfold task_ids in *; by rewrite Ht3, Ht2|]. left. rewrite E1 in Hr2.
    apply Permutation_nil_l in Hr2. rewrite Hc3. done.
Qed.

(** ** Waiting and retrying *)

Definition chan_of (x : pending) : Z := match x with InSend _ ch _ _ => ch | InReceive _ ch _ _ _ => ch end.
Definition waiting (c : Channel) (t : Z) : Prop := t ∈ waiters_recv c \/ t ∈ waiters_send c.

(** Whether a task's loop receives from, or sends to, a channel it may use. *)
Definition receives (c : Channel) (ch : Z) (x : option pending) : bool :=
  match x with Some (InReceive who ch' _ _ _) => (ch' =? ch) && permitted (recv_subject c) who | _ => false end.
Definition sends (c : Channel) (ch : Z) (x : option pending) : bool :=
  match x with Some (InSend who ch' _ _) => (ch' =? ch) && permitted (send_subject c) who | _ => false end.

Definition may_block (x : option pending) : bool := match x with Some (InReceive _ _ _ _ b) => b | _ => false end.

(** The tasks that can run: the current one and the queued ones. *)
Definition act (cur : Z) (s : RoundRobinScheduler) : gset Z := list_to_set (cur :: runq s).

(** The runnable tasks about to try again. *)
Definition retrying_recv (A : gset Z) (l : gmap Z pending) (ch : Z) (c : Channel) : gset Z :=
  filter (fun t => receives c ch (l !! t) = true /\ t ∉ waiters_recv c) A.
Definition retrying_send (A : gset Z) (l : gmap Z pending) (ch : Z) (c : Channel) : gset Z :=
  filter (fun t => sends c ch (l !! t) = true /\ t ∉ waiters_send c) A.

Definition backlog (c : Channel) : Z := Z.of_nat (length (queue c)).

(** While somebody waits to receive there are as many tasks about to receive as messages, and while
    somebody waits to send there are as many tasks about to send as free places. *)
Record chan_ok (A : gset Z) (l : gmap Z pending) (ch : Z) (c : Channel) : Prop := {
  co_recv : forall t, t ∈ waiters_recv c -> receives c ch (l !! t) = true;
  co_send : forall t, t ∈ waiters_send c -> sends c ch (l !! t) = true;
  co_full : waiters_recv c <> [] -> backlog c <= Z.of_nat (size (retrying_recv A l ch c));
  co_room : waiters_send c <> [] -> queue_depth (policy c) - backlog c <= Z.of_nat (size (retrying_send A l ch c));
  co_bytes : Forall (fun e => is_bytes (mpayload e)) (queue c);
  co_blocking : forall t, t ∈ waiters_recv c -> may_block (l !! t) = true;
  co_policy : waiters_send c <> [] -> backpressure (policy c) = Block
}.

Lemma receives_chan c ch x : receives c ch (Some x) = true -> chan_of x = ch.
Proof. destruct x; cbn; [done|]. destruct (Z.eqb_spec ch0 ch); done. Qed.
Lemma sends_chan c ch x : sends c ch (Some x) = true -> chan_of x = ch.
Proof. destruct x; cbn; [|done]. destruct (Z.eqb_spec ch0 ch); done. Qed.
Lemma sends_receives c ch x : sends c ch x = true -> receives c ch x = true -> False.
Proof. by destruct x as [[]|]. Qed.

Lemma chan_waiting A l ch c t : chan_ok A l ch c -> waiting c t -> exists x, l !! t = Some x /\ chan_of x = ch.
Proof.
  intros H [Ht|Ht]; [apply (co_recv _ _ _ _ H) in Ht|apply (co_send _ _ _ _ H) in Ht]; destruct (l !! t) as [x|]; try done; exists x;
    eauto using receives_chan, sends_chan.
Qed.

(** A change of the tasks leaves a channel alone when everybody it counts still counts. *)
Lemma chan_mono A A' l l' ch c :
  chan_ok A l ch c ->
  (forall t, waiting c t -> l' !! t = l !! t) ->
  (forall t x, t ∈ A -> l !! t = Some x -> chan_of x = ch -> t ∈ A' /\ l' !! t = l !! t) ->
  chan_ok A' l' ch c.
Proof.
  intros [H1 H2 H3 H4 H5 H6 H7] Hw Hk. split; [| | | |done| |done].
  - intros t Ht. rewrite Hw by (by left). auto.
  - intros t Ht. rewrite Hw by (by right). auto.
  - intros Hne. etrans; [by apply H3|]. apply inj_le, subseteq_size. intros t. unfold retrying_recv. rewrite !elem_of_filter.
    intros [[Hr Hn] HA]. destruct (l !! t) as [x|] eqn:E; [|done]. destruct (Hk t x HA E (receives_chan _ _ _ Hr)) as [? ->]. by rewrite E.
  - intros Hne. etrans; [by apply H4|]. apply inj_le, subseteq_size. intros t. unfold retrying_send. rewrite !elem_of_filter.
    intros [[Hr Hn] HA]. destruct (l !! t) as [x|] eqn:E; [|done]. destruct (Hk t x HA E (sends_chan _ _ _ Hr)) as [? ->]. by rewrite E.
  - intros t Ht. rewrite Hw by (by left). auto.
Qed.

Lemma size_minus (X Y : gset Z) x : X ∖ {[x]} ⊆ Y -> Z.of_nat (size X) - 1 <= Z.of_nat (size Y).
Proof.
  intros H. assert (size X <= size ({[x]} ∪ Y))%nat as Hle.
  { apply subseteq_size. intros y Hy. apply elem_of_union. destruct (decide (y = x)) as [->|]; [left; set_solver|right; set_solver]. }
  rewrite size_union_alt, size_singleton in Hle. pose proof (subseteq_size (Y ∖ {[x]}) Y ltac:(set_solver)). lia.
Qed.
Lemma size_plus (X Y : gset Z) x : x ∉ X -> {[x]} ∪ X ⊆ Y -> Z.of_nat (size X) + 1 <= Z.of_nat (size Y).
Proof.
  intros Hx H. apply subseteq_size in H. rewrite size_union, size_singleton in H by set_solver. lia.
Qed.

(** A message is taken: one receiver fewer is owed one, and the woken sender is owed the free place. *)
Lemma take_ok A A' l l' ch c env q w ws cur :
  chan_ok A l ch c -> queue c = env :: q -> pop_waiter (waiters_send c) = (w, ws) -> NoDup (waiters_send c) ->
  A ⊆ A' -> (forall t, w = Wake t -> t ∈ A') ->
  (forall t, t <> cur -> l' !! t = l !! t) -> (l' !! cur = l !! cur \/ sends c ch (l !! cur) = false) -> ~ waiting c cur ->
  chan_ok A' l' ch (set_queues c q ws (waiters_recv c)).
Proof.
  intros [H1 H2 H3 H4 H5 H6 H7] Hq Hp Hnd HA Hw Hl Hcur Hnw. unfold waiting in Hnw.
  assert (forall t, t ∈ ws -> t ∈ waiters_send c) as Hsub
    by (destruct (waiters_send c); injection Hp as <- <-; [done|by right]).
  rewrite Hq in H5. apply Forall_cons in H5 as [_ H5].
  split; cbn [set_queues waiters_recv waiters_send queue policy]; [| | | |done| |].
  - intros t Ht. rewrite Hl; [by apply H1|]. intros ->. tauto.
  - intros t Ht. rewrite Hl; [by apply H2, Hsub|]. intros ->. auto.
  - intros Hne. specialize (H3 Hne). unfold backlog in *. rewrite Hq in H3. cbn [set_queues queue length] in *.
    enough (Z.of_nat (size (retrying_recv A l ch c)) - 1 <= Z.of_nat (size (retrying_recv A' l' ch (set_queues c q ws (waiters_recv c))))) by lia.
    apply (size_minus _ _ cur). intros t. rewrite elem_of_difference, elem_of_singleton. unfold retrying_recv. rewrite !elem_of_filter.
    intros [[[Hr Hn] Ht] Hc]. rewrite Hl by done. split; [done|by apply HA].
  - intros Hne. destruct (waiters_send c) as [|t ws0] eqn:Ews; injection Hp as <- <-; [done|].
    specialize (H4 ltac:(done)). unfold backlog in *. rewrite Hq in H4. cbn [set_queues queue length] in *.
    enough (Z.of_nat (size (retrying_send A l ch c)) + 1 <= Z.of_nat (size (retrying_send A' l' ch (set_queues c q ws0 (waiters_recv c))))) by lia.
    apply NoDup_cons in Hnd as [Hnt _]. assert (t <> cur) as Htc by (intros ->; apply Hnw; right; left).
    apply (size_plus _ _ t).
    + unfold retrying_send. rewrite elem_of_filter, Ews. intros [[_ []] _]. left.
    + intros x. rewrite elem_of_union, elem_of_singleton. unfold retrying_send. rewrite !elem_of_filter, Ews.
      cbn [set_queues waiters_send]. intros [->|[[Hs Hn] Hx]].
      * split; [|by apply Hw]. split; [|done]. rewrite Hl by done. apply H2. left.
      * split; [|by apply HA]. split; [|by apply not_elem_of_cons in Hn as [_ ?]].
        destruct (decide (x = cur)) as [->|]; [|by rewrite Hl]. destruct Hcur as [->|Hf]; [done|congruence].
  - intros t Ht. rewrite Hl; [by apply H6|]. intros ->. tauto.
  - intros Hne. apply H7. intros E. rewrite E in Hp. by injection Hp as <- <-.
Qed.

(** A message is put: one sender fewer is owed a place, and the woken receiver is owed the message. *)
Lemma put_ok A A' l l' ch c env q w wr cur :
  chan_ok A l ch c -> send_queue c env = Some q -> pop_waiter (waiters_recv c) = (w, wr) -> NoDup (waiters_recv c) ->
  0 < queue_depth (policy c) -> backlog c <= queue_depth (policy c) -> is_bytes (mpayload env) ->
  A ⊆ A' -> (forall t, w = Wake t -> t ∈ A') ->
  (forall t, t <> cur -> l' !! t = l !! t) -> (l' !! cur = l !! cur \/ receives c ch (l !! cur) = false) -> ~ waiting c cur ->
  chan_ok A' l' ch (set_queues c q (waiters_send c) wr).
Proof.
  intros [H1 H2 H3 H4 H5 H6 H7] Hq Hp Hnd Hd Hb Hbytes HA Hw Hl Hcur Hnw. unfold waiting in Hnw.
  assert (forall t, t ∈ wr -> t ∈ waiters_recv c) as Hsub
    by (destruct (waiters_recv c); injection Hp as <- <-; [done|by right]).
  assert (Forall (fun e => is_bytes (mpayload e)) q /\ Z.of_nat (length q) <= backlog c + 1 /\
    (Z.of_nat (length q) = backlog c + 1 \/ Z.of_nat (length q) = queue_depth (policy c))) as (Hqb & Hlen & Hroom).
  { unfold send_queue, backlog in *. destruct (Z.leb_spec (queue_depth (policy c)) (Z.of_nat (length (queue c)))).
    - destruct (backpressure (policy c)); try done. injection Hq as <-. rewrite length_app, length_drop. cbn [length].
      split; [apply Forall_app; split; [by apply Forall_drop|by constructor]|]. lia.
    - injection Hq as <-. rewrite length_app. cbn [length]. split; [apply Forall_app; split; [done|by constructor]|]. lia. }
  split; cbn [set_queues waiters_recv waiters_send queue policy]; [| | | |done| |].
  - intros t Ht. rewrite Hl; [by apply H1, Hsub|]. intros ->. auto.
  - intros t Ht. rewrite Hl; [by apply H2|]. intros ->. tauto.
  - intros Hne. destruct (waiters_recv c) as [|t wr0] eqn:Ewr; injection Hp as <- <-; [done|].
    specialize (H3 ltac:(done)). unfold backlog in *. cbn [set_queues queue] in *.
    enough (Z.of_nat (size (retrying_recv A l ch c)) + 1 <= Z.of_nat (size (retrying_recv A' l' ch (set_queues c q (waiters_send c) wr0)))) by lia.
    apply NoDup_cons in Hnd as [Hnt _]. assert (t <> cur) as Htc by (intros ->; apply Hnw; left; left).
    apply (size_plus _ _ t).
    + unfold retrying_recv. rewrite elem_of_filter, Ewr. intros [[_ []] _]. left.
    + intros x. rewrite elem_of_union, elem_of_singleton. unfold retrying_recv. rewrite !elem_of_filter, Ewr.
      cbn [set_queues waiters_recv]. intros [->|[[Hs Hn] Hx]].
      * split; [|by apply Hw]. split; [|done]. rewrite Hl by done. apply H1. left.
      * split; [|by apply HA]. split; [|by apply not_elem_of_cons in Hn as [_ ?]].
        destruct (decide (x = cur)) as [->|]; [|by rewrite Hl]. destruct Hcur as [->|Hf]; [done|congruence].
  - intros Hne. specialize (H4 Hne). unfold backlog in *. cbn [set_queues queue] in *.
    enough (Z.of_nat (size (retrying_send A l ch c)) - 1 <= Z.of_nat (size (retrying_send A' l' ch (set_queues c q (waiters_send c) wr)))) by lia.
    apply (size_minus _ _ cur). intros t. rewrite elem_of_difference, elem_of_singleton. unfold retrying_send. rewrite !elem_of_filter.
    intros [[[Hr Hn] Ht] Hc]. rewrite Hl by done. split; [done|by apply HA].
  - intros t Ht. rewrite Hl; [by apply H6, Hsub|]. intros ->. auto.
  - done.
Qed.

(** A task that waits is no longer counted, and what it waits for is not there. *)
Lemma park_recv_ok A A' l ch c cur :
  chan_ok A l ch c -> receives c ch (l !! cur) = true -> may_block (l !! cur) = true -> queue c = [] ->
  (forall t, t ∈ A -> t <> cur -> t ∈ A') ->
  chan_ok A' l ch (set_queues c (queue c) (waiters_send c) (add_waiter cur (waiters_recv c))).
Proof.
  intros [H1 H2 H3 H4 H5 H6 H7] Hr Hb Hq HA.
  assert (forall t, t ∈ add_waiter cur (waiters_recv c) -> t = cur \/ t ∈ waiters_recv c) as Hadd.
  { intros t. unfold add_waiter. case_bool_decide; [by right|]. rewrite elem_of_app, list_elem_of_singleton. tauto. }
  split; cbn [set_queues waiters_recv waiters_send queue policy]; [|done| | |done| |done].
  - intros t [->|Ht]%Hadd; [done|by apply H1].
  - intros _. unfold backlog. cbn [set_queues queue]. rewrite Hq. simpl. lia.
  - intros Hne. etrans; [by apply H4|]. apply inj_le, subseteq_size. intros t. unfold retrying_send. rewrite !elem_of_filter.
    cbn [set_queues waiters_send]. intros [[Hs Hn] Ht]. split; [done|]. apply HA; [done|]. intros ->. by eapply sends_receives.
  - intros t [->|Ht]%Hadd; [done|by apply H6].
Qed.

Lemma park_send_ok A A' l ch c cur :
  chan_ok A l ch c -> sends c ch (l !! cur) = true -> backpressure (policy c) = Block -> queue_depth (policy c) <= backlog c ->
  (forall t, t ∈ A -> t <> cur -> t ∈ A') ->
  chan_ok A' l ch (set_queues c (queue c) (add_waiter cur (waiters_send c)) (waiters_recv c)).
Proof.
  intros [H1 H2 H3 H4 H5 H6 H7] Hs Hb Hfull HA.
  assert (forall t, t ∈ add_waiter cur (waiters_send c) -> t = cur \/ t ∈ waiters_send c) as Hadd.
  { intros t. unfold add_waiter. case_bool_decide; [by right|]. rewrite elem_of_app, list_elem_of_singleton. tauto. }
  split; cbn [set_queues waiters_recv waiters_send queue policy]; [done| | | |done|done|done].
  - intros t [->|Ht]%Hadd; [done|by apply H2].
  - intros Hne. etrans; [by apply H3|]. apply inj_le, subseteq_size. intros t. unfold retrying_recv. rewrite !elem_of_filter.
    cbn [set_queues waiters_recv]. intros [[Hr Hn] Ht]. split; [done|]. apply HA; [done|]. intros ->. by eapply sends_receives.
  - intros _. unfold backlog in *. cbn [set_queues queue]. lia.
Qed.

(** ** The invariant *)

Section invariant.
Context (roots : list Z) (fa : BitmapFrameAllocator).

(** The tables are sound and user addresses lead to pages that hold no table. *)
Definition memory_ok (m : memory) : Prop :=
  tables_ok roots m fa /\
  forall r v p w, r ∈ roots -> 0 <= v < USER_HALF_END -> resolve 3 m r v = Some (p, w) -> data roots m fa (page_base p).

Record inv (cur : Z) (k : kernel) : Prop := {
  iv_wf : sched_wf (sched k);
  iv_cur : current (sched k) = Some cur;
  iv_ids : Forall (.∈ task_ids (sched k)) (cur :: runq (sched k));
  iv_nodup : NoDup (cur :: runq (sched k));
  iv_ipc : ipc_wf (ipc k);
  iv_chan : forall ch c, channels (ipc k) !! ch = Some c -> chan_ok (act cur (sched k)) (loops k) ch c;
  iv_wait : forall ch c t, channels (ipc k) !! ch = Some c -> waiting c t -> (t ∉ runq (sched k)) /\ (t = cur -> runq (sched k) = []);
  iv_loop : forall t x, loops k !! t = Some x ->
    t ∈ task_ids (sched k) /\ (match x with InSend _ _ _ msg => is_bytes msg | InReceive _ _ p _ _ => 0 <= p end) /\
    (t ∈ act cur (sched k) \/ (exists c, channels (ipc k) !! chan_of x = Some c /\ waiting c t) \/
     (next_id (ipc k) < uint_max 64 -> channels (ipc k) !! chan_of x = None /\ chan_of x < next_id (ipc k)));
  iv_mem : memory_ok (mem k);
  iv_cr3 : cr3_root (cr3 k) ∈ roots;
  iv_procs : forall t p, processes k !! t = Some p -> cr3_root (pml4_phys p) ∈ roots
}.

Lemma elem_of_act cur s t : t ∈ act cur s <-> t = cur \/ t ∈ runq s.
Proof. unfold act. rewrite elem_of_list_to_set, elem_of_cons. done. Qed.

(** A task in no loop waits nowhere. *)
Lemma idle_not_waiting cur k ch c : inv cur k -> loops k !! cur = None -> channels (ipc k) !! ch = Some c -> ~ waiting c cur.
Proof. intros H Hl Hc Hw. destruct (chan_waiting _ _ _ _ _ (iv_chan _ _ H _ _ Hc) Hw) as (x & Hx & _). congruence. Qed.

(** A task that runs with a message to receive, or a place to send to, waits nowhere. *)
Lemma ready_not_waiting cur k ch c x :
  inv cur k -> channels (ipc k) !! ch = Some c -> loops k !! cur = Some x -> chan_of x = ch ->
  (receives c ch (Some x) = true /\ queue c <> [] \/ sends c ch (Some x) = true /\ backlog c < queue_depth (policy c)) ->
  forall ch' c', channels (ipc k) !! ch' = Some c' -> ~ waiting c' cur.
Proof.
  intros H Hc Hx Hch Hready ch' c' Hc' Hw. destruct (chan_waiting _ _ _ _ _ (iv_chan _ _ H _ _ Hc') Hw) as (y & Hy & Hych).
  assert (y = x) as -> by congruence. assert (ch' = ch) as -> by congruence. assert (c' = c) as -> by congruence.
  destruct (iv_wait _ _ H _ _ _ Hc Hw) as [_ Hq]. specialize (Hq eq_refl). pose proof (iv_chan _ _ H _ _ Hc) as Hok.
  unfold act in Hok. rewrite Hq in Hok. destruct Hready as [[Hr Hne]|[Hs Hroom]].
  - destruct Hw as [Hw|Hw]; [|apply (co_send _ _ _ _ Hok) in Hw; rewrite Hx in Hw; by eapply sends_receives].
    assert (waiters_recv c <> []) as Hn by (intros E; rewrite E in Hw; by apply elem_of_nil in Hw).
    pose proof (co_full _ _ _ _ Hok Hn) as Hle. replace (retrying_recv _ _ _ _) with (∅ : gset Z) in Hle.
    + rewrite size_empty in Hle. unfold backlog in Hle. destruct (queue c); [done|simpl in Hle; lia].
    + apply leibniz_equiv. intros t. unfold retrying_recv. rewrite elem_of_filter. set_solver.
  - destruct Hw as [Hw|Hw]; [apply (co_recv _ _ _ _ Hok) in Hw; rewrite Hx in Hw; by eapply sends_receives|].
    assert (waiters_send c <> []) as Hn by (intros E; rewrite E in Hw; by apply elem_of_nil in Hw).
    pose proof (co_room _ _ _ _ Hok Hn) as Hle. replace (retrying_send _ _ _ _) with (∅ : gset Z) in Hle.
    + rewrite size_empty in Hle. lia.
    + apply leibniz_equiv. intros t. unfold retrying_send. rewrite elem_of_filter. set_solver.
Qed.

(** What the end of a call does: the channel changes, a waiter [w] becomes runnable, the caller may leave its loop. *)
Lemma inv_complete cur k ch c c' (w : option Z) l' s' :
  inv cur k -> channels (ipc k) !! ch = Some c ->
  (forall ch' c', channels (ipc k) !! ch' = Some c' -> ~ waiting c' cur) ->
  ipc_wf (put_channel ch c' (ipc k)) ->
  (forall t, waiting c t <-> waiting c' t \/ w = Some t) -> (forall t, w = Some t -> ~ waiting c' t) ->
  s' = match w with Some t => (enqueue t (resolve_priority t (sched k)) (sched k)).2 | None => sched k end ->
  (l' = loops k \/ l' = delete cur (loops k) /\ forall x, loops k !! cur = Some x -> chan_of x = ch) ->
  chan_ok (act cur s') l' ch c' ->
  inv cur (mkKernel s' (put_channel ch c' (ipc k)) (mem k) (cr3 k) (processes k) l').
Proof.
  intros H Hc Hnw Hwf Hww Hwn Hs Hl Hok. pose proof (iv_ids _ _ H) as Hids. rewrite Forall_cons in Hids. destruct Hids as [Hcid Hids].
  assert (forall t, w = Some t -> t ∈ task_ids (sched k) /\ (t ∉ runq (sched k)) /\ t <> cur) as Hwt.
  { intros t Ht. assert (waiting c t) as Hwc by (apply Hww; by right).
    destruct (chan_waiting _ _ _ _ _ (iv_chan _ _ H _ _ Hc) Hwc) as (x & Hx & _).
    split; [by apply (iv_loop _ _ H t x)|]. split; [by apply (iv_wait _ _ H ch c)|]. intros ->. by eapply Hnw. }
  assert (sched_wf s' /\ task_ids s' = task_ids (sched k) /\ current s' = Some cur /\
    runq s' ≡ₚ option_list w ++ runq (sched k)) as (Hs1 & Hs2 & Hs3 & Hs4).
  { pose proof (iv_cur _ _ H) as Hcu. destruct w as [t|]; [|subst s'; split; [apply H|done]].
    destruct (enqueue_runq t (resolve_priority t (sched k)) (sched k) (iv_wf _ _ H)) as (? & ? & Hcs & Hq); [by apply Hwt|].
    subst s'. rewrite Hcs. done. }
  assert (forall t, t ∈ act cur s' <-> t ∈ act cur (sched k) \/ w = Some t) as Hact.
  { intros t. rewrite !elem_of_act, Hs4. destruct w as [t'|]; cbn; [rewrite elem_of_cons|]; naive_solver. }
  assert (forall ch' c0 t, ch' <> ch -> channels (ipc k) !! ch' = Some c0 -> waiting c0 t -> w <> Some t) as Hother.
  { intros ch' c0 t Hne Hc0 Ht Hwt'. destruct (chan_waiting _ _ _ _ _ (iv_chan _ _ H _ _ Hc0) Ht) as (x & Hx & Hxc).
    destruct (chan_waiting _ _ _ _ t (iv_chan _ _ H _ _ Hc)) as (x' & Hx' & Hxc'); [apply Hww; by right|]. congruence. }
  split; cbn [sched ipc mem Scheduling.current loops cr3 processes]; try done; try apply H.
  - rewrite Hs2. apply Forall_cons. split; [done|]. rewrite Hs4. apply Forall_app. split; [|done]. destruct w as [t|]; [|constructor].
    constructor; [|constructor]. by apply Hwt.
  - rewrite Hs4. pose proof (iv_nodup _ _ H) as Hnd. destruct w as [t|]; [|done]. cbn. apply NoDup_cons in Hnd as [? ?].
    destruct (Hwt t eq_refl) as (? & ? & ?). apply NoDup_cons. split; [rewrite elem_of_cons; naive_solver|]. by apply NoDup_cons.
  - intros ch' c0. cbn [put_channel channels]. rewrite lookup_insert. case_decide as E; [intros [= <-]; subst ch'; done|]. intros Hc0.
    apply (chan_mono (act cur (sched k)) _ (loops k)); [by apply H| |].
    + intros t Ht. destruct Hl as [->|[-> Hx]]; [done|]. apply lookup_delete_ne. intros ->. by eapply Hnw.
    + intros t x HA Hx Hxc. rewrite Hact. split; [by left|]. destruct Hl as [->|[-> Hcx]]; [done|].
      apply lookup_delete_ne. intros ->. apply E. rewrite <- Hxc. symmetry. by apply Hcx.
  - intros ch' c0 t. cbn [put_channel channels]. rewrite lookup_insert.
    assert (t ∈ runq s' <-> w = Some t \/ t ∈ runq (sched k)) as ->
      by (rewrite Hs4; destruct w as [t'|]; cbn; [rewrite elem_of_cons|]; naive_solver).
    case_decide as E; [intros [= <-] Ht; subst ch'|intros Hc0 Ht].
    + destruct (iv_wait _ _ H ch c t Hc) as [Hn Hcu]; [apply Hww; by left|]. split; [intros [Hw|]; [by eapply Hwn|done]|].
      intros ->. exfalso. apply (Hnw ch c Hc), Hww. by left.
    + destruct (iv_wait _ _ H ch' c0 t Hc0 Ht) as [Hn Hcu]. split; [intros [Hw|]; [by eapply Hother|done]|].
      intros ->. exfalso. by apply (Hnw ch' c0 Hc0).
  - intros t x Hx. assert (loops k !! t = Some x) as Hx0 by (destruct Hl as [->|[-> _]]; [done|by apply lookup_delete_Some in Hx as [_ ?]]).
    destruct (iv_loop _ _ H t x Hx0) as (Hi & Hb & Hcase). rewrite Hs2. split; [done|]. split; [done|]. rewrite Hact.
    cbn [put_channel channels next_id]. destruct Hcase as [?|[(c0 & Hc0 & Ht)|Hg]]; [by left; left| |].
    + rewrite lookup_insert. case_decide as E; [|right; left; by exists c0].
      subst ch. assert (c0 = c) as -> by congruence. apply Hww in Ht as [Ht|Ht]; [right; left; by exists c'|by left; right].
    + right; right. intros Hlt. destruct (Hg Hlt) as [Hg1 Hg2]. rewrite lookup_insert_ne by congruence. done.
Qed.

(** A task enters a loop. *)
Lemma inv_enter cur k x :
  inv cur k -> loops k !! cur = None -> match x with InSend _ _ _ msg => is_bytes msg | InReceive _ _ p _ _ => 0 <= p end ->
  inv cur (set_loops k (<[cur := x]> (loops k))).
Proof.
  intros H Hl Hx. split; cbn [set_loops sched ipc mem loops cr3 processes]; try apply H.
  - intros ch c Hc. apply (chan_mono (act cur (sched k)) _ (loops k)); [by apply H| |].
    + intros t Ht. apply lookup_insert_ne. intros <-. by eapply idle_not_waiting.
    + intros t y HA Hy _. split; [done|]. apply lookup_insert_ne. congruence.
  - intros t y. rewrite lookup_insert. case_decide as E; [|apply H]. intros [= <-]. subst t.
    pose proof (iv_ids _ _ H) as Hi. apply Forall_cons in Hi as [Hi _]. split; [done|]. split; [done|]. left. apply elem_of_act. by left.
Qed.

(** A task leaves a loop without effect: it was not counted on, or there was nothing for it. *)
Lemma inv_leave cur k x :
  inv cur k -> loops k !! cur = Some x -> (forall ch c, channels (ipc k) !! ch = Some c -> ~ waiting c cur) ->
  (forall c, channels (ipc k) !! chan_of x = Some c ->
     (receives c (chan_of x) (Some x) = true -> queue c = []) /\
     (sends c (chan_of x) (Some x) = true -> queue_depth (policy c) <= backlog c)) ->
  inv cur (set_loops k (delete cur (loops k))).
Proof.
  intros H Hx Hnw Hnone. split; cbn [set_loops sched ipc mem loops cr3 processes]; try apply H.
  - intros ch c Hc. destruct (iv_chan _ _ H ch c Hc) as [H1 H2 H3 H4 H5 H6 H7].
    assert (forall t, waiting c t -> delete cur (loops k) !! t = loops k !! t) as Hw
      by (intros t Ht; apply lookup_delete_ne; intros <-; by eapply Hnw).
    split; [| | | |done| |done].
    + intros t Ht. rewrite Hw by (by left). auto.
    + intros t Ht. rewrite Hw by (by right). auto.
    + intros Hne. specialize (H3 Hne). destruct (decide (receives c ch (Some x) = true)) as [Hr|Hr].
      * pose proof (receives_chan _ _ _ Hr) as <-. unfold backlog. rewrite (proj1 (Hnone c Hc) Hr). simpl. lia.
      * etrans; [done|]. apply inj_le, subseteq_size. intros t. unfold retrying_recv. rewrite !elem_of_filter. intros [[Hrt Hn] Ht].
        rewrite lookup_delete_ne; [done|]. intros <-. congruence.
    + intros Hne. specialize (H4 Hne). destruct (decide (sends c ch (Some x) = true)) as [Hr|Hr].
      * pose proof (sends_chan _ _ _ Hr) as <-. pose proof (proj2 (Hnone c Hc) Hr). lia.
      * etrans; [done|]. apply inj_le, subseteq_size. intros t. unfold retrying_send. rewrite !elem_of_filter. intros [[Hrt Hn] Ht].
        rewrite lookup_delete_ne; [done|]. intros <-. congruence.
    + intros t Ht. rewrite Hw by (by left). auto.
  - intros t y [_ Hy]%lookup_delete_Some. by apply H.
Qed.

Lemma inv_mem cur k m : inv cur k -> memory_ok m -> inv cur (set_mem k m).
Proof. intros H Hm. split; try apply H. done. Qed.

(** A switch: the tasks that can run afterwards are those of before, less a task that blocks. *)
Lemma inv_switch cur st k r :
  inv cur k -> (st = Runnable \/ st = BlockedOnIpc) -> ipc_wf r ->
  let s' := (yield_current cur st (sched k)).2 in
  exists next, current s' = Some next /\
    (forall t, t ∈ act next s' -> t ∈ act cur (sched k)) /\
    (forall t, t ∈ act cur (sched k) -> t <> cur \/ st = Runnable -> t ∈ act next s') /\
    ((forall ch c, channels r !! ch = Some c -> chan_ok (act next s') (loops k) ch c) ->
     (forall ch c t, channels r !! ch = Some c -> waiting c t -> (t ∉ runq (sched k)) /\ (t = cur -> st = BlockedOnIpc)) ->
     (forall t x, loops k !! t = Some x ->
        t ∈ act next s' \/ (exists c, channels r !! chan_of x = Some c /\ waiting c t) \/
        (next_id r < uint_max 64 -> channels r !! chan_of x = None /\ chan_of x < next_id r)) ->
     inv next (yield cur st (set_ipc k r))).
Proof.
  intros H Hst Hr s'. pose proof (iv_ids _ _ H) as Hids. apply Forall_cons in Hids as [Hcid Hids]. pose proof (iv_nodup _ _ H) as Hnd.
  destruct (yield_runq cur st (sched k) (iv_wf _ _ H) Hcid Hids (iv_cur _ _ H)) as (Hwf & Hti & Hcase). fold s' in Hwf, Hti, Hcase.
  assert (exists next, current s' = Some next /\ (next = cur -> st = BlockedOnIpc -> runq s' = []) /\
    (forall t, t ∈ next :: runq s' <-> (t = next \/ t ∈ runq (sched k) \/ t = cur /\ st = Runnable)) /\
    (next = cur \/ next ∈ runq (sched k)) /\ NoDup (next :: runq s')) as (next & Hcur & Hspin & Hel & Hn & Hnd').
  { apply NoDup_cons in Hnd as [Hnc Hnd]. destruct Hcase as [(Hq & Hq' & Hc)|(next & Hq & Hc)].
    - exists cur. case_bool_decide as E; [done|]. split; [done|]. split; [done|]. rewrite Hq', Hq.
      split; [intros t; rewrite list_elem_of_singleton, elem_of_nil; naive_solver|]. split; [by left|]. apply NoDup_singleton.
    - exists next. split; [done|]. case_bool_decide as E.
      + split; [by intros _ ->|]. split; [intros t; rewrite <- Hq, elem_of_cons; split|].
        * tauto.
        * intros [->|[?|[-> _]]]; [|by right|by left]. apply elem_of_cons. rewrite Hq. left.
        * split; [|rewrite <- Hq; by apply NoDup_cons]. apply elem_of_cons. rewrite Hq. left.
      + assert (next ∈ runq (sched k)) as Hn by (rewrite Hq; left). split; [intros ->; done|].
        split; [intros t; rewrite <- Hq; naive_solver|]. split; [by right|by rewrite <- Hq]. }
  exists next. split; [done|].
  assert (forall t, t ∈ act next s' -> t ∈ act cur (sched k)) as Hsub.
  { intros t. unfold act at 1. rewrite elem_of_list_to_set, Hel, elem_of_act. destruct Hn as [->|]; naive_solver. }
  split; [done|]. split.
  { intros t Ht Hor. unfold act. rewrite elem_of_list_to_set, Hel. apply elem_of_act in Ht. naive_solver. }
  intros Hchan Hwait Hloop. split; cbn [yield set_ipc sched ipc mem loops cr3 processes]; fold s'; try done; try apply H.
  - rewrite Hti. apply Forall_forall. intros t. rewrite Hel. rewrite Forall_forall in Hids. destruct Hn as [->|]; naive_solver.
  - intros ch c t Hc Ht. destruct (Hwait ch c t Hc Ht) as [Hnq Hb].
    assert (t ∈ next :: runq s' -> t = next /\ t = cur /\ st = BlockedOnIpc) as Hno.
    { rewrite Hel. intros [->|[?|[-> Hs]]]; [|done|naive_solver]. destruct Hn as [->|]; [|done]. auto. }
    split; [intros Hin|].
    + destruct (Hno ltac:(by right)) as (-> & E & Hs). rewrite Hspin in Hin by auto. by apply elem_of_nil in Hin.
    + intros ->. destruct (Hno ltac:(by left)) as (_ & E & Hs). by apply Hspin.
  - intros t x Hx. rewrite Hti. destruct (iv_loop _ _ H t x Hx) as (? & ? & _). auto.
  - rewrite Hcur. destruct (next =? cur); [apply H|]. destruct (processes k !! next) as [p|] eqn:E; [by eapply (iv_procs _ _ H)|apply H].
Qed.

Lemma inv_yield cur k : inv cur k -> loops k !! cur = None -> exists next, inv next (yield cur Runnable k).
Proof.
  intros H Hl. destruct (inv_switch cur Runnable k (ipc k) H ltac:(by left) (iv_ipc _ _ H)) as (next & _ & Hsub & Hsup & Hinv).
  exists next. replace (yield cur Runnable k) with (yield cur Runnable (set_ipc k (ipc k))) by (by destruct k). apply Hinv.
  - intros ch c Hc. apply (chan_mono (act cur (sched k)) _ (loops k)); [by apply H|done|]. intros t x HA _ _. split; [|done]. apply Hsup; [done|by right].
  - intros ch c t Hc Ht. destruct (iv_wait _ _ H ch c t Hc Ht). split; [done|]. intros ->. by destruct (idle_not_waiting _ _ _ _ H Hl Hc).
  - intros t x Hx. destruct (iv_loop _ _ H t x Hx) as (_ & _ & [?|?]); [|by right]. left. apply Hsup; [done|by right].
Qed.

(** The caller waits on the channel of its loop and the processor is handed over. *)
Lemma inv_park cur k ch c c' x :
  inv cur k -> loops k !! cur = Some x -> chan_of x = ch -> channels (ipc k) !! ch = Some c ->
  ipc_wf (put_channel ch c' (ipc k)) -> (forall t, waiting c' t <-> waiting c t \/ t = cur) ->
  (forall A', (forall t, t ∈ act cur (sched k) -> t <> cur -> t ∈ A') -> chan_ok A' (loops k) ch c') ->
  exists next, inv next (park_until_woken cur (set_ipc k (put_channel ch c' (ipc k)))).
Proof.
  intros H Hx Hch Hc Hwf Hww Hok.
  destruct (inv_switch cur BlockedOnIpc k _ H ltac:(by right) Hwf) as (next & _ & Hsub & Hsup & Hinv).
  exists next. apply Hinv; cbn [put_channel channels next_id].
  - intros ch' c0. rewrite lookup_insert. case_decide as E; [intros [= <-]; subst ch'; apply Hok; intros; apply Hsup; auto|]. intros Hc0.
    apply (chan_mono (act cur (sched k)) _ (loops k)); [by apply H|done|]. intros t y HA Hy Hyc. split; [|done].
    apply Hsup; [done|]. left. intros ->. congruence.
  - intros ch' c0 t. rewrite lookup_insert. pose proof (iv_nodup _ _ H) as Hnd. apply NoDup_cons in Hnd as [Hnc _].
    case_decide as E; [intros [= <-] Ht; subst ch'|intros Hc0 Ht].
    + split; [|done]. apply Hww in Ht as [Ht| ->]; [by apply (iv_wait _ _ H ch c)|done].
    + split; [by apply (iv_wait _ _ H ch' c0)|done].
  - intros t y Hy. destruct (decide (t = cur)) as [->|Hne].
    + assert (y = x) as -> by congruence. right; left. exists c'. rewrite Hch, lookup_insert_eq. split; [done|]. apply Hww. by right.
    + destruct (iv_loop _ _ H t y Hy) as (_ & _ & [?|[(c0 & Hc0 & Ht)|Hg]]); [left; apply Hsup; auto| |].
      * right; left. rewrite lookup_insert. case_decide as E; [|by exists c0]. exists c'. split; [done|]. apply Hww. left. congruence.
      * right; right. intros Hlt. destruct (Hg Hlt). by rewrite lookup_insert_ne by congruence.
Qed.

(** Creation and destruction of channels. *)
Lemma inv_registry cur k r :
  inv cur k -> ipc_wf r -> next_id (ipc k) <= next_id r ->
  (forall ch c, channels r !! ch = Some c -> channels (ipc k) !! ch = Some c \/
     waiters_recv c = [] /\ waiters_send c = [] /\ queue c = [] /\ next_id (ipc k) <= ch) ->
  (next_id r < uint_max 64 -> forall ch c, channels (ipc k) !! ch = Some c -> channels r !! ch = Some c \/ channels r !! ch = None) ->
  inv cur (set_ipc k r).
Proof.
  intros H Hr Hle Hnew Hold. split; cbn [set_ipc sched ipc mem loops cr3 processes]; try done; try apply H.
  - intros ch c Hc. destruct (Hnew ch c Hc) as [?|(E1 & E2 & E3 & _)]; [by apply H|].
    split; rewrite ?E1, ?E2, ?E3; try done; intros t Ht; by apply elem_of_nil in Ht.
  - intros ch c t Hc Ht. destruct (Hnew ch c Hc) as [?|(E1 & E2 & _)]; [by apply (iv_wait _ _ H ch c)|].
    unfold waiting in Ht. rewrite E1, E2 in Ht. destruct Ht as [Ht|Ht]; by apply elem_of_nil in Ht.
  - intros t x Hx. destruct (iv_loop _ _ H t x Hx) as (? & ? & Hcase). split; [done|]. split; [done|].
    destruct Hcase as [?|[(c & Hc & Ht)|Hg]]; [by left| |].
    + destruct (decide (next_id r < uint_max 64)) as [Hlt|]; [|by right; right].
      destruct (Hold Hlt _ _ Hc) as [Hc'|Hc']; [right; left; by exists c|]. right; right. intros _. split; [done|].
      destruct (iw_channel _ (iv_ipc _ _ H) _ _ Hc) as [Hid _]. destruct (decide (chan_of x = next_id (ipc k))) as [E|]; [|lia].
      assert (next_id (ipc k) < uint_max 64) as Hf%(iw_fresh _ (iv_ipc _ _ H)) by lia. congruence.
    + right; right. intros Hlt. destruct (Hg ltac:(lia)) as [Hg1 Hg2]. split; [|lia].
      destruct (channels r !! chan_of x) as [c|] eqn:E; [|done]. destruct (Hnew _ _ E) as [?|(_ & _ & _ & ?)]; [congruence|lia].
Qed.

Lemma inv_insert cur k o p ss rs :
  inv cur k -> ipc_wf (insert_channel o p ss rs (ipc k)).2 -> inv cur (set_ipc k (insert_channel o p ss rs (ipc k)).2).
Proof.
  intros H. set (r := ipc k). pose proof (iw_next _ (iv_ipc _ _ H)) as Hn. fold r in Hn. unfold insert_channel, checked_add.
  destruct (Z.ltb_spec (next_id r + 1) (2 ^ 64)); cbn [snd]; intros Hwf; apply inv_registry; cbn [channels next_id]; try done; try lia.
  - fold r. lia.
  - intros ch c. rewrite lookup_insert. case_decide as E; [|by left]. intros [= <-]. right. subst ch. split_and!; try done; fold r; lia.
  - unfold uint_max. intros Hlt ch c Hc. fold r in Hc. left. rewrite lookup_insert_ne; [done|]. intros <-.
    pose proof (iw_fresh _ (iv_ipc _ _ H)) as Hf. fold r in Hf. rewrite Hf in Hc; [done|unfold uint_max; lia].
  - intros ch c. rewrite lookup_insert. case_decide as E; [|by left]. intros [= <-]. right. subst ch. split_and!; try done; fold r; lia.
  - unfold uint_max. intros. lia.
Qed.

(** ** Every round keeps the invariant *)

Context (phys_offset : Z) (Hpo : phys_offset <> 0).

Lemma copy_out m c3 ptr src :
  memory_ok m -> cr3_root c3 ∈ roots -> 0 <= ptr -> is_bytes src ->
  exists ok m', copy_to_user m phys_offset c3 ptr src = Done (ok, m') /\ memory_ok m'.
Proof.
  intros [Htab Hdata] Hroot Hp Hb. unfold copy_to_user. set (len := Z.of_nat (length src)).
  destruct (user_range_ok ptr len) eqn:Hro; cbn [negb]; [|by exists false, m].
  destruct (Z.eqb_spec len 0); [by exists true, m|]. assert (0 < len) as Hl by (unfold len in *; lia).
  destruct (user_range_accessible m phys_offset c3 ptr len true) eqn:Hra; cbn [negb]; [|by exists false, m].
  destruct (proj1 (copy_guard m phys_offset c3 ptr len true Hp Hl Hpo)) as [Hend Hm]; [by rewrite Hro, Hra|].
  destruct (store_bytes_spec roots (cr3_root c3) Hroot fa src m ptr Htab Hb) as (m' & -> & [S1 S2 S3 _] & _).
  { intros x Hx. destruct (proj1 (accessible_resolve m (cr3_root c3) true x) (Hm x Hx)) as (p & w & Hr & Hw). exists p.
    rewrite Hr, Hw by done. split; [done|]. apply (Hdata (cr3_root c3) x p w); [done|fold len in Hx; lia|done]. }
  exists true, m'. split; [done|]. split; [done|]. intros r v p w Hr Hv. rewrite S2 by done. intros Hres. apply S3. by eapply Hdata.
Qed.

(** The arm of a delivery, apart from the bytes it stores. *)
Lemma deliver_ok env w dst_ptr dst_cap k :
  memory_ok (mem k) -> cr3_root (cr3 k) ∈ roots -> 0 <= dst_ptr -> is_bytes (mpayload env) ->
  exists n m', deliver phys_offset env w dst_ptr dst_cap k = Done (n, set_mem (match w with Wake t => unpark t k | _ => k end) m') /\ memory_ok m'.
Proof.
  intros Hm Hr Hp Hb. unfold deliver. set (k1 := match w with Wake t => unpark t k | _ => k end).
  assert (mem k1 = mem k /\ cr3 k1 = cr3 k) as [E1 E2] by (unfold k1; by destruct w).
  case_match.
  - destruct (copy_out (mem k1) (cr3 k1) dst_ptr (take (Z.to_nat (Z.min (Z.of_nat (length (mpayload env))) dst_cap)) (mpayload env))) as (ok & m' & -> & Hm');
      [by rewrite E1|by rewrite E2|done|by apply Forall_take|]. cbn [mbind exec_bind]. by eexists _, m'.
  - eexists _, (mem k1). split; [by destruct k1|by rewrite E1].
Qed.

Definition woken (w : WakeAction) : option Z := match w with Wake t => Some t | _ => None end.

Lemma pop_waiting l w ws : pop_waiter l = (w, ws) -> NoDup l ->
  (forall t, t ∈ l <-> t ∈ ws \/ woken w = Some t) /\ (forall t, woken w = Some t -> t ∉ ws) /\ (forall t, w <> WakeBlock t).
Proof.
  intros Hp Hnd. destruct l as [|t0 ws0]; injection Hp as <- <-; cbn; [set_solver|].
  apply NoDup_cons in Hnd as [? _]. split; [intros t; rewrite elem_of_cons; naive_solver|]. naive_solver.
Qed.

Definition wake_sched (w : WakeAction) (s : RoundRobinScheduler) : RoundRobinScheduler :=
  match woken w with Some t => (enqueue t (resolve_priority t s) s).2 | None => s end.

Lemma wake_act cur k ch c w t :
  inv cur k -> channels (ipc k) !! ch = Some c -> (forall t', woken w = Some t' -> waiting c t') ->
  t ∈ act cur (wake_sched w (sched k)) <-> t ∈ act cur (sched k) \/ woken w = Some t.
Proof.
  intros H Hc Hww. rewrite !elem_of_act. unfold wake_sched. destruct w as [|t'|]; cbn; [naive_solver| |naive_solver].
  destruct (chan_waiting _ _ _ _ _ (iv_chan _ _ H ch c Hc) (Hww t' eq_refl)) as (x & Hx & _).
  destruct (enqueue_runq t' (resolve_priority t' (sched k)) (sched k) (iv_wf _ _ H)) as (_ & _ & _ & Hrq); [by apply (iv_loop _ _ H t' x)|].
  rewrite Hrq, elem_of_cons. naive_solver.
Qed.

Lemma waiters_disjoint cur k ch c t : inv cur k -> channels (ipc k) !! ch = Some c -> t ∈ waiters_send c -> t ∈ waiters_recv c -> False.
Proof.
  intros H Hc Hs Hr. pose proof (iv_chan _ _ H ch c Hc) as Hok.
  eapply sends_receives; [by apply (co_send _ _ _ _ Hok)|by apply (co_recv _ _ _ _ Hok)].
Qed.

(** A message taken by the running task, from inside a loop or not. *)
Lemma inv_take cur k ch c env q w ws l' :
  inv cur k -> channels (ipc k) !! ch = Some c -> queue c = env :: q -> pop_waiter (waiters_send c) = (w, ws) ->
  (forall ch' c', channels (ipc k) !! ch' = Some c' -> ~ waiting c' cur) ->
  ipc_wf (put_channel ch (set_queues c q ws (waiters_recv c)) (ipc k)) ->
  (l' = loops k \/ l' = delete cur (loops k) /\ exists x, loops k !! cur = Some x /\ receives c ch (Some x) = true) ->
  let k1 := set_ipc k (put_channel ch (set_queues c q ws (waiters_recv c)) (ipc k)) in
  inv cur (set_loops (match w with Wake t => unpark t k1 | _ => k1 end) l').
Proof.
  intros H Hc Hq Hp Hnw Hwf Hl k1. destruct (iw_channel _ (iv_ipc _ _ H) ch c Hc) as [_ Hcw].
  destruct (pop_waiting _ w ws Hp (cw_ws _ _ Hcw)) as (Hel & Hnel & Hnb).
  replace (set_loops _ l') with (mkKernel (wake_sched w (sched k)) (put_channel ch (set_queues c q ws (waiters_recv c)) (ipc k))
    (mem k) (cr3 k) (processes k) l') by (by destruct w).
  apply (inv_complete cur k ch c _ (woken w)); try done.
  - intros t. unfold waiting. cbn [set_queues waiters_recv waiters_send]. rewrite Hel. tauto.
  - intros t Ht. unfold waiting. cbn [set_queues waiters_recv waiters_send]. intros [Hr|Hs]; [|by eapply Hnel].
    eapply (waiters_disjoint cur k ch c t H Hc); [|exact Hr]. apply Hel. by right.
  - destruct Hl as [?|[? (x & Hx & Hr)]]; [by left|]. right. split; [done|]. intros y Hy. assert (y = x) as -> by congruence. by eapply receives_chan.
  - assert (forall t, t ∈ act cur (wake_sched w (sched k)) <-> t ∈ act cur (sched k) \/ woken w = Some t) as Hact.
    { intros t. apply (wake_act cur k ch c); [done|done|]. intros t' Ht'. right. apply Hel. by right. }
    apply (take_ok (act cur (sched k)) _ (loops k) l' ch c env q w ws cur); try done; [by apply H|apply Hcw| | | | |by apply Hnw with ch].
    + intros t Ht. apply Hact. by left.
    + intros t ->. apply Hact. by right.
    + intros t Hne. destruct Hl as [->|[-> _]]; [done|by apply lookup_delete_ne].
    + destruct Hl as [->|[-> (x & Hx & Hr)]]; [by left|]. right. rewrite Hx. destruct (sends c ch (Some x)) eqn:E; [|done]. by destruct (sends_receives c ch (Some x)).
Qed.

(** A message put by the running task, from inside its loop. *)
Lemma inv_put cur k ch c env q w wr x :
  inv cur k -> channels (ipc k) !! ch = Some c -> send_queue c env = Some q -> pop_waiter (waiters_recv c) = (w, wr) ->
  is_bytes (mpayload env) -> loops k !! cur = Some x -> sends c ch (Some x) = true ->
  (forall ch' c', channels (ipc k) !! ch' = Some c' -> ~ waiting c' cur) ->
  ipc_wf (put_channel ch (set_queues c q (waiters_send c) wr) (ipc k)) ->
  let k1 := set_ipc k (put_channel ch (set_queues c q (waiters_send c) wr) (ipc k)) in
  inv cur (set_loops (match w with Wake t => unpark t k1 | _ => k1 end) (delete cur (loops k))).
Proof.
  intros H Hc Hq Hp Hbytes Hx Hs Hnw Hwf k1. destruct (iw_channel _ (iv_ipc _ _ H) ch c Hc) as [_ Hcw].
  destruct (pop_waiting _ w wr Hp (cw_wr _ _ Hcw)) as (Hel & Hnel & Hnb).
  replace (set_loops _ _) with (mkKernel (wake_sched w (sched k)) (put_channel ch (set_queues c q (waiters_send c) wr) (ipc k))
    (mem k) (cr3 k) (processes k) (delete cur (loops k))) by (by destruct w).
  apply (inv_complete cur k ch c _ (woken w)); try done.
  - intros t. unfold waiting. cbn [set_queues waiters_recv waiters_send]. rewrite Hel. tauto.
  - intros t Ht. unfold waiting. cbn [set_queues waiters_recv waiters_send]. intros [Hr|Hsn]; [by eapply Hnel|].
    eapply (waiters_disjoint cur k ch c t H Hc); [exact Hsn|]. apply Hel. by right.
  - right. split; [done|]. intros y Hy. assert (y = x) as -> by congruence. by eapply sends_chan.
  - assert (forall t, t ∈ act cur (wake_sched w (sched k)) <-> t ∈ act cur (sched k) \/ woken w = Some t) as Hact.
    { intros t. apply (wake_act cur k ch c); [done|done|]. intros t' Ht'. left. apply Hel. by right. }
    apply (put_ok (act cur (sched k)) _ (loops k) _ ch c env q w wr cur); try done; [by apply H|apply Hcw|apply Hcw|apply Hcw| | | | |by apply Hnw with ch].
    + intros t Ht. apply Hact. by left.
    + intros t ->. apply Hact. by right.
    + intros t Hne. by apply lookup_delete_ne.
    + right. rewrite Hx. destruct (receives c ch (Some x)) eqn:E; [|done]. by destruct (sends_receives c ch (Some x)).
Qed.

(** What lets a task leave its loop with an error: nobody else relied on its turn. *)
Lemma inv_fail cur k x :
  inv cur k -> loops k !! cur = Some x ->
  (forall c, channels (ipc k) !! chan_of x = Some c ->
     (receives c (chan_of x) (Some x) = true -> queue c = [] /\ may_block (Some x) = false) /\
     (sends c (chan_of x) (Some x) = true -> queue_depth (policy c) <= backlog c /\ backpressure (policy c) <> Block)) ->
  inv cur (set_loops k (delete cur (loops k))).
Proof.
  intros H Hx Hno. apply (inv_leave cur k x H Hx); [|intros c Hc; destruct (Hno c Hc); naive_solver].
  intros ch c Hc Hw. pose proof (iv_chan _ _ H ch c Hc) as Hok. destruct (chan_waiting _ _ _ _ _ Hok Hw) as (y & Hy & <-).
  assert (y = x) as -> by congruence. destruct (Hno c Hc) as [Hr Hs]. destruct Hw as [Hw|Hw].
  - pose proof (co_recv _ _ _ _ Hok _ Hw) as E. pose proof (co_blocking _ _ _ _ Hok _ Hw) as Eb. rewrite Hx in E, Eb. destruct (Hr E). congruence.
  - pose proof (co_send _ _ _ _ Hok _ Hw) as E. rewrite Hx in E. destruct (Hs E) as [_ Hp]. apply Hp, (co_policy _ _ _ _ Hok).
    intros En. rewrite En in Hw. by apply elem_of_nil in Hw.
Qed.

Lemma send_round_inv cur k who ch kind msg :
  inv cur k -> loops k !! cur = Some (InSend who ch kind msg) -> exists next, inv next (send_round cur who ch kind msg k).2.
Proof.
  intros H Hx. pose proof (send_wf (mkEnvelope cur ch kind msg) cur who (ipc k) (iv_ipc _ _ H)) as Hwf.
  assert (forall r, inv cur (set_loops (set_ipc k (ipc k)) (delete cur (loops k))) -> inv cur (finish cur r (set_ipc k (ipc k))).2) as Hfin by done.
  assert (set_ipc k (ipc k) = k) as Eid by (by destruct k). destruct (iv_loop _ _ H _ _ Hx) as (_ & Hb & _).
  unfold send_round, send in *. cbn [channel] in *. destruct (channels (ipc k) !! ch) as [c|] eqn:Hc.
  2:{ exists cur. apply Hfin. rewrite Eid. apply (inv_fail cur k _ H Hx). cbn. congruence. }
  destruct (permitted (send_subject c) who) eqn:Hperm; cbn [negb] in *.
  2:{ exists cur. apply Hfin. rewrite Eid. apply (inv_fail cur k _ H Hx). cbn. intros c' Hc'. assert (c' = c) as -> by congruence.
      rewrite Hperm, andb_false_r. done. }
  assert (sends c ch (Some (InSend who ch kind msg)) = true) as Hs by (cbn; by rewrite Z.eqb_refl, Hperm).
  set (env := mkEnvelope cur (ch_id c) kind msg) in *.
  assert (forall q w wr, send_queue c env = Some q -> pop_waiter (waiters_recv c) = (w, wr) ->
    ipc_wf (put_channel ch (set_queues c q (waiters_send c) wr) (ipc k)) ->
    let k1 := set_ipc k (put_channel ch (set_queues c q (waiters_send c) wr) (ipc k)) in
    inv cur (set_loops (match w with Wake t => unpark t k1 | _ => k1 end) (delete cur (loops k)))) as Hput.
  { intros q w wr Hq Hp Hw. apply (inv_put cur k ch c env q w wr _ H Hc Hq Hp Hb Hx Hs); [|done].
    unfold send_queue in Hq. destruct (Z.leb_spec (queue_depth (policy c)) (Z.of_nat (length (queue c)))) as [Hfull|Hroom].
    - intros ch' c' Hc' Hwt. destruct (chan_waiting _ _ _ _ _ (iv_chan _ _ H ch' c' Hc') Hwt) as (y & Hy & Hych). rewrite Hx in Hy. injection Hy as <-.
      cbn in Hych. subst ch'. assert (c' = c) as -> by congruence. pose proof (iv_chan _ _ H ch c Hc) as Hok. destruct Hwt as [Hwt|Hwt].
      + apply (co_recv _ _ _ _ Hok) in Hwt. rewrite Hx in Hwt. done.
      + assert (waiters_send c <> []) as Hne by (intros En; rewrite En in Hwt; by apply elem_of_nil in Hwt).
        rewrite (co_policy _ _ _ _ Hok Hne) in Hq. done.
    - apply (ready_not_waiting cur k ch c _ H Hc Hx eq_refl). right. split; [done|]. unfold backlog. lia. }
  unfold send_queue in Hput. destruct (Z.leb_spec (queue_depth (policy c)) (Z.of_nat (length (queue c)))) as [Hfull|Hroom].
  - destruct (backpressure (policy c)) eqn:Hbp.
    + apply (inv_park cur k ch c _ _ H Hx eq_refl Hc Hwf).
      * intros t. unfold waiting, add_waiter. cbn [set_queues waiters_recv waiters_send]. case_bool_decide as Ein.
        -- split; [tauto|]. intros [?| ->]; [done|by right].
        -- rewrite elem_of_app, list_elem_of_singleton. tauto.
      * intros A' HA. apply (park_send_ok (act cur (sched k))); try done; [by apply H|by rewrite Hx].
    + exists cur. apply Hfin. rewrite Eid. apply (inv_fail cur k _ H Hx). cbn. intros c' Hc'. assert (c' = c) as -> by congruence.
      split; [done|]. intros _. split; [done|]. by rewrite Hbp.
    + destruct (pop_waiter (waiters_recv c)) as [w wr] eqn:Ep. specialize (Hput _ w wr eq_refl eq_refl Hwf). exists cur.
      destruct w as [|t|t]; [done|done|]. destruct (pop_waiter_not_block (waiters_recv c) t). by rewrite Ep.
  - destruct (pop_waiter (waiters_recv c)) as [w wr] eqn:Ep. specialize (Hput _ w wr eq_refl eq_refl Hwf). exists cur.
    destruct w as [|t|t]; [done|done|]. destruct (pop_waiter_not_block (waiters_recv c) t). by rewrite Ep.
Qed.

(** A message is there for the running task, in its loop or at a call that does not wait. *)
Lemma receive_some cur k ch c who b env q l' dst_ptr dst_cap :
  inv cur k -> channels (ipc k) !! ch = Some c -> permitted (recv_subject c) who = true -> queue c = env :: q -> 0 <= dst_ptr ->
  (forall ch' c', channels (ipc k) !! ch' = Some c' -> ~ waiting c' cur) ->
  (l' = loops k \/ l' = delete cur (loops k) /\ exists x, loops k !! cur = Some x /\ receives c ch (Some x) = true) ->
  exists w r n k1, receive ch cur who b (ipc k) = (Ok (Some env, w), r) /\
    deliver phys_offset env w dst_ptr dst_cap (set_ipc k r) = Done (n, k1) /\ loops k1 = loops k /\ inv cur (set_loops k1 l').
Proof.
  intros H Hc Hperm Hq Hp Hnw Hl. pose proof (receive_wf ch cur who b (ipc k) (iv_ipc _ _ H)) as Hwf.
  unfold receive in *. rewrite Hc, Hperm, Hq in *. cbn [negb] in *. destruct (pop_waiter (waiters_send c)) as [w ws] eqn:Ep. cbn [snd] in Hwf.
  pose proof (iv_chan _ _ H ch c Hc) as Hok. pose proof (co_bytes _ _ _ _ Hok) as Hb. rewrite Hq in Hb. apply Forall_cons in Hb as [Hb _].
  set (r := put_channel ch (set_queues c q ws (waiters_recv c)) (ipc k)) in *.
  destruct (deliver_ok env w dst_ptr dst_cap (set_ipc k r) (iv_mem _ _ H) (iv_cr3 _ _ H) Hp Hb) as (n & m' & Hd & Hm').
  exists w, r, n. eexists. split; [done|]. split; [exact Hd|]. split; [by destruct w|].
  apply (inv_mem cur (set_loops (match w with Wake t => unpark t (set_ipc k r) | _ => set_ipc k r end) l') m'); [|done].
  by apply (inv_take cur k ch c env q w ws l').
Qed.

Lemma receive_round_inv cur k who ch dst_ptr dst_cap b :
  inv cur k -> loops k !! cur = Some (InReceive who ch dst_ptr dst_cap b) ->
  exists o next k', receive_round phys_offset cur who ch dst_ptr dst_cap b k = Done (o, k') /\ inv next k'.
Proof.
  intros H Hx. destruct (iv_loop _ _ H _ _ Hx) as (_ & Hp & _). unfold receive_round.
  assert (set_ipc k (ipc k) = k) as Eid by (by destruct k).
  destruct (channels (ipc k) !! ch) as [c|] eqn:Hc.
  2:{ unfold receive. rewrite Hc, Eid. exists (Some SYSCALL_ERROR), cur. eexists. split; [done|].
      apply (inv_fail cur k _ H Hx). cbn. congruence. }
  destruct (permitted (recv_subject c) who) eqn:Hperm.
  2:{ unfold receive. rewrite Hc, Hperm. cbn [negb]. rewrite Eid. exists (Some SYSCALL_ERROR), cur. eexists. split; [done|].
      apply (inv_fail cur k _ H Hx). cbn. intros c' Hc'. assert (c' = c) as -> by congruence. rewrite Hperm, andb_false_r. done. }
  assert (receives c ch (Some (InReceive who ch dst_ptr dst_cap b)) = true) as Hr by (cbn; by rewrite Z.eqb_refl, Hperm).
  destruct (queue c) as [|env q] eqn:Hq.
  - pose proof (receive_wf ch cur who b (ipc k) (iv_ipc _ _ H)) as Hwf. unfold receive in *. rewrite Hc, Hperm, Hq in *. cbn [negb snd] in *.
    destruct b; cbn [snd] in *.
    + rewrite <- Hq in *. destruct (inv_park cur k ch c _ _ H Hx eq_refl Hc Hwf) as (next & Hn); [| |by exists None, next; eexists].
      * intros t. unfold waiting, add_waiter. cbn [set_queues waiters_recv waiters_send]. case_bool_decide as Ein.
        -- split; [tauto|]. intros [?| ->]; [done|by left].
        -- rewrite elem_of_app, list_elem_of_singleton. tauto.
      * intros A' HA. apply (park_recv_ok (act cur (sched k))); [by apply H|by rewrite Hx|by rewrite Hx|done|done].
    + rewrite Eid. exists (Some 0), cur. eexists. split; [done|]. apply (inv_fail cur k _ H Hx). cbn. intros c' Hc'.
      assert (c' = c) as -> by congruence. done.
  - destruct (receive_some cur k ch c who b env q (delete cur (loops k)) dst_ptr dst_cap H Hc Hperm Hq Hp) as (w & r & n & k1 & -> & Hd & Hlo & Hinv).
    + apply (ready_not_waiting cur k ch c _ H Hc Hx eq_refl). left. by rewrite Hq.
    + right. split; [done|]. by eexists.
    + rewrite Hd. cbn [mbind exec_bind]. exists (Some n), cur. eexists. split; [done|]. unfold finish. by rewrite Hlo.
Qed.

Context {C : Ed25519} {W : Wire C} (blake3 : bytes -> bytes) (decode : bytes -> option CapabilityToken).

Lemma copy_in m c3 n ptr : 0 <= ptr ->
  exists (ok : bool) bs, copy_from_user m phys_offset c3 (replicate n 0) ptr = Done (ok, bs) /\ is_bytes bs.
Proof.
  intros Hp. destruct (copy_from_user_exact m phys_offset c3 (replicate n 0) ptr Hp Hpo) as (ok & -> & _). exists ok. eexists. split; [done|].
  destruct ok; [|apply Forall_replicate; unfold is_byte; lia]. apply Forall_fmap, Forall_true. intros v. unfold is_byte, user_byte. cbn.
  destruct (translate_in _ _ _); [|lia]. unfold read_byte. apply Z.mod_pos_bound. lia.
Qed.

Lemma copy_user_token_total ptr len k : 0 <= ptr -> exists r, copy_user_token phys_offset ptr len k = Done r.
Proof.
  intros Hp. unfold copy_user_token. case_match; [eauto|]. case_match; [eauto|].
  destruct (copy_in (mem k) (cr3 k) (Z.to_nat len) ptr Hp) as (ok & bs & -> & _). cbn [mbind exec_bind]. eauto.
Qed.

Lemma authenticate_total bs a pr now : exists r, authenticate_opt blake3 decode bs a pr now = Done r.
Proof.
  unfold authenticate_opt, decode_and_authenticate_token. destruct bs as [bs|]; [|eauto]. destruct (decode bs) as [tok|]; cbn [mbind exec_bind]; [|eauto].
  unfold verify_signed_token. destruct (with_expected_capacity_ok blake3 1024) as (rl & Hrl & Hwf & _); [lia|]. unfold revlist_new. rewrite Hrl.
  cbn [mbind exec_bind]. destruct (verify_full_exact blake3 now (Some (node_id_bytes pr)) rl tok Hwf) as (_ & _ & Hnp).
  destruct (verify_full _ _ _ _ _) as [v|]; [|done]. cbn [mbind exec_bind]. repeat case_match; cbn [mbind exec_bind]; eauto.
Qed.

Lemma create_total own p sb rb pr now cur k :
  0 <= queue_depth p -> inv cur k ->
  exists res, create_channel_signed blake3 decode own p sb rb pr now (ipc k) = Done res /\ inv cur (set_ipc k res.2).
Proof.
  intros Hd H. pose proof (create_signed_wf blake3 decode own p sb rb pr now (ipc k)) as Hwf.
  assert (set_ipc k (ipc k) = k) as Eid by (by destruct k).
  assert (forall ss rs, enforce_channel_quota own (ipc k) = Ok () -> 0 < queue_depth p -> inv cur (set_ipc k (insert_channel own p ss rs (ipc k)).2)) as Hins
    by (intros; apply inv_insert; [done|]; apply insert_channel_wf; [apply H|done..]).
  unfold create_channel_signed, create_channel. cbn [check_token].
  destruct (authenticate_total sb KIpcSend pr now) as [ra ->], (authenticate_total rb KIpcRecv pr now) as [rr ->]. cbn [mbind exec_bind].
  destruct (Z.eqb_spec (queue_depth p) 0); [destruct sb, rb; eexists; (split; [done|]); cbn [snd]; by rewrite Eid|].
  destruct (enforce_channel_quota own (ipc k)) as [[]|]; [|destruct sb, rb; eexists; (split; [done|]); cbn [snd]; by rewrite Eid].
  destruct sb, rb; try (eexists; split; [done|]; apply Hins; [done|lia]);
    (destruct ra as [ra|]; [destruct rr as [rr|]|]; eexists; (split; [done|]); cbn [snd]; [apply Hins; [done|lia]|by rewrite Eid..]).
Qed.

Definition event_ok (e : event) : Prop :=
  match e with
  | Call (IpcCreateChannel a0 a1 a2 a3 a4 a5 now) => 0 <= a0 /\ 0 <= a3 /\ 0 <= a4
  | Call (IpcSend _ _ p _) => 0 <= p
  | Call (IpcReceive _ p _ _) => 0 <= p
  | Call (IpcTryReceive _ p _) => 0 <= p
  | _ => True
  end.

Lemma current_task cur k : inv cur k -> exists who, current_principal_and_task k = (cur, who).
Proof. intros H. unfold current_principal_and_task. rewrite (iv_cur _ _ H). eauto. Qed.

Lemma destroy_inv cur k ch t : inv cur k -> inv cur (set_ipc k (destroy_channel ch t (ipc k)).2).
Proof.
  intros H. pose proof (destroy_wf ch t (ipc k) (iv_ipc _ _ H)) as Hwf. assert (set_ipc k (ipc k) = k) as Eid by (by destruct k).
  unfold destroy_channel in *. destruct (channels (ipc k) !! ch) as [c|]; [|cbn [snd]; by rewrite Eid].
  destruct (negb _); cbn [snd] in *; [by rewrite Eid|]. apply inv_registry; cbn [channels next_id]; try done.
  - intros ch' c' [_ ?]%lookup_delete_Some. by left.
  - intros _ ch' c' Hc'. rewrite lookup_delete. case_decide; auto.
Qed.

Lemma round_inv cur k x : inv cur k -> loops k !! cur = Some x -> exists o next k', round phys_offset cur x k = Done (o, k') /\ inv next k'.
Proof.
  intros H Hx. destruct x; cbn [round]; [|by apply receive_round_inv].
  destruct (send_round_inv cur k who ch kind msg H Hx) as (next & Hn). destruct (send_round _ _ _ _ _ _) as [o k']. eauto.
Qed.

Lemma enter_inv cur k x :
  inv cur k -> loops k !! cur = None -> match x with InSend _ _ _ msg => is_bytes msg | InReceive _ _ p _ _ => 0 <= p end ->
  exists o next k', enter phys_offset cur x k = Done (o, k') /\ inv next k'.
Proof. intros H Hl Hx. apply round_inv; [by apply inv_enter|]. apply lookup_insert_eq. Qed.

(** No call panics, and every step keeps the invariant. *)
Lemma step_inv cur k e :
  inv cur k -> event_ok e -> exists o next k', step blake3 decode phys_offset e k = Done (o, k') /\ inv next k'.
Proof.
  intros H He. unfold step. rewrite (iv_cur _ _ H). destruct (current_task cur k H) as [who Hcu].
  assert (set_ipc k (ipc k) = k) as Eid by (by destruct k).
  destruct e as [c|], (loops k !! cur) as [x|] eqn:Hl; [by exists None, cur, k| |by apply round_inv|by exists None, cur, k].
  destruct c; cbn [dispatch event_ok] in *.
  - unfold ipc_create_channel. destruct (parse_backpressure a1); [|by eexists _, cur, k]. rewrite Hcu. cbn [fst].
    destruct He as (? & ? & ?). set (p := mkPolicy a0 _ _). generalize (mkProvider (replicate 32 0)). intros pr. case_match.
    + destruct (create_total cur p None None pr now cur k) as (res & Hres & Hi); [done|done|].
      injection Hres as ->. eexists _, cur, _. split; [done|]. exact Hi.
    + destruct (copy_user_token_total a3 (Z.land a5 4294967295) k) as [[ss|] ->]; [done| |by eexists _, cur, k]. cbn [mbind exec_bind].
      destruct (copy_user_token_total a4 (Z.land (Z.shiftr a5 32) 4294967295) k) as [[rs|] ->]; [done| |by eexists _, cur, k]. cbn [mbind exec_bind].
      destruct (create_total cur p ss rs pr now cur k) as (res & -> & Hi); [done|done|].
      eexists _, cur, _. split; [done|]. exact Hi.
  - unfold ipc_destroy_channel. rewrite Hcu. cbn [fst]. pose proof (destroy_inv cur k a0 cur H) as Hi.
    destruct (destroy_channel a0 cur (ipc k)) as [res r]. by eexists _, cur, _.
  - unfold ipc_send. destruct (parse_kind a1) as [kind|]; [|by eexists _, cur, k].
    destruct (Z.eqb_spec a3 0); cbn [mbind exec_bind].
    { rewrite Hcu. apply enter_inv; [done|done|]. constructor. }
    unfold copy_from_user_vec. destruct (_ || _); cbn [mbind exec_bind]; [by eexists _, cur, k|].
    destruct (copy_in (mem k) (cr3 k) (Z.to_nat a3) a2 He) as (ok & bs & -> & Hb). cbn [mbind exec_bind].
    destruct ok; [|by eexists _, cur, k]. rewrite Hcu. by apply enter_inv.
  - unfold ipc_receive. destruct (negb _); [by eexists _, cur, k|]. rewrite Hcu. by apply enter_inv.
  - unfold ipc_try_receive. destruct (negb _); [by eexists _, cur, k|]. rewrite Hcu.
    destruct (channels (ipc k) !! a0) as [c|] eqn:Hc; [|unfold receive; rewrite Hc, Eid; by eexists _, cur, k].
    destruct (permitted (recv_subject c) who) eqn:Hperm; [|unfold receive; rewrite Hc, Hperm; cbn [negb]; rewrite Eid; by eexists _, cur, k].
    destruct (queue c) as [|env q] eqn:Hq; [unfold receive; rewrite Hc, Hperm, Hq; cbn [negb]; rewrite Eid; by eexists _, cur, k|].
    destruct (receive_some cur k a0 c who false env q (loops k) a1 a2 H Hc Hperm Hq He) as (w & r & n & k1 & -> & Hd & Hlo & Hinv);
      [by intros ch' c' Hc'; apply (idle_not_waiting cur k ch' c' H Hl)|by left|].
    rewrite Hd. cbn [mbind exec_bind]. exists (Some n), cur, k1. split; [done|]. rewrite <- Hlo in Hinv. by destruct k1.
  - unfold task_yield. rewrite (iv_cur _ _ H). destruct (inv_yield cur k H Hl) as (next & Hn). by eexists _, next, _.
Qed.

Lemma run_inv es cur k :
  inv cur k -> Forall event_ok es -> exists next k', run blake3 decode phys_offset es k = Done k' /\ inv next k'.
Proof.
  intros H Hes. revert cur k H. induction Hes as [|e es He Hes IH]; intros cur k H; [by exists cur, k|].
  cbn [run]. destruct (step_inv cur k e H He) as (o & next & k1 & -> & H1). cbn [mbind exec_bind]. by eapply IH.
Qed.
End invariant.

(** ** No wake-up is lost *)

Definition runnable (k : kernel) (t : Z) : Prop := current (sched k) = Some t \/ t ∈ runq (sched k).

(** A kernel at boot: tasks [cur] running and the others queued, no channel and no call in progress. *)
Record booted (roots : list Z) (fa : BitmapFrameAllocator) (cur : Z) (k : kernel) : Prop := {
  bt_sched : sched_wf (sched k);
  bt_current : current (sched k) = Some cur;
  bt_tasks : Forall (.∈ task_ids (sched k)) (cur :: runq (sched k));
  bt_once : NoDup (cur :: runq (sched k));
  bt_ipc : ipc k = ipc_new;
  bt_loops : loops k = ∅;
  bt_mem : memory_ok roots fa (mem k);
  bt_cr3 : cr3_root (cr3 k) ∈ roots;
  bt_procs : forall t p, processes k !! t = Some p -> cr3_root (pml4_phys p) ∈ roots
}.

Lemma booted_inv roots fa cur k : booted roots fa cur k -> inv roots fa cur k.
Proof.
  intros [H1 H2 H3 H4 H5 H6 H7 H8 H9]. split; try done; rewrite ?H5, ?H6; done || apply ipc_new_wf.
Qed.

Lemma retrying_runnable roots fa cur k (f : Channel -> Z -> option pending -> bool) (ws : list Z) ch c :
  inv roots fa cur k ->
  exists ts, NoDup ts /\ Forall (fun t => runnable k t /\ f c ch (loops k !! t) = true) ts /\
    length ts = size (filter (fun t => f c ch (loops k !! t) = true /\ t ∉ ws) (act cur (sched k))).
Proof.
  intros H. set (X := filter _ _). exists (elements X). split; [apply NoDup_elements|]. split; [|done].
  apply Forall_forall. intros t Ht. apply elem_of_elements in Ht. unfold X in Ht. apply elem_of_filter in Ht as [[? _] Ht].
  split; [|done]. apply elem_of_act in Ht as [->|]; [left; apply H|by right].
Qed.

(** C4. Safety: from a booted system, whatever calls the tasks make on channels, and in whatever order they
    run, no call panics and no wake-up is lost.  While a task waits to receive from a channel, at
    least as many runnable tasks are about to receive from it as it holds messages; while a task waits
    to send, at least as many are about to send as there are free places.  As long
    as channel identifiers are left, a task inside a call is runnable, or listed as a waiter of its
    channel, or its channel has been destroyed. *)
Theorem no_lost_wakeup {C : Ed25519} {W : Wire C} blake3 decode roots fa phys_offset cur k es :
  phys_offset <> 0 -> booted roots fa cur k -> Forall event_ok es ->
  exists k', run blake3 decode phys_offset es k = Done k' /\
    (forall ch c, channels (ipc k') !! ch = Some c ->
      (waiters_recv c <> [] -> exists ts, NoDup ts /\ Forall (fun t => runnable k' t /\ receives c ch (loops k' !! t) = true) ts /\
         backlog c <= Z.of_nat (length ts)) /\
      (waiters_send c <> [] -> exists ts, NoDup ts /\ Forall (fun t => runnable k' t /\ sends c ch (loops k' !! t) = true) ts /\
         queue_depth (policy c) - backlog c <= Z.of_nat (length ts))) /\
    (next_id (ipc k') < uint_max 64 -> forall t x, loops k' !! t = Some x ->
      runnable k' t \/ (exists c, channels (ipc k') !! chan_of x = Some c /\ waiting c t) \/ channels (ipc k') !! chan_of x = None).
Proof.
  intros Hpo Hb Hes. destruct (run_inv roots fa phys_offset Hpo blake3 decode es cur k (booted_inv _ _ _ _ Hb) Hes) as (next & k' & Hrun & H).
  exists k'. split; [done|]. split.
  - intros ch c Hc. pose proof (iv_chan _ _ _ _ H ch c Hc) as Hok. split; intros Hne.
    + destruct (retrying_runnable roots fa next k' receives (waiters_recv c) ch c H) as (ts & Hnd & Hf & Hlen). exists ts.
      split; [done|]. split; [done|]. rewrite Hlen. by apply (co_full _ _ _ _ Hok).
    + destruct (retrying_runnable roots fa next k' sends (waiters_send c) ch c H) as (ts & Hnd & Hf & Hlen). exists ts.
      split; [done|]. split; [done|]. rewrite Hlen. by apply (co_room _ _ _ _ Hok).
  - intros Hlt t x Hx. destruct (iv_loop _ _ _ _ H t x Hx) as (_ & _ & [Ha|[Hw|Hg]]).
    + left. apply elem_of_act in Ha as [->|]; [left; apply H|by right].
    + right. by left.
    + right. right. by apply Hg.
Qed.

(** ** A message crosses address spaces *)

Definition principal_of (k : kernel) (t : Z) : KernelPrincipal := match processes k !! t with Some p => principal p | None => ZERO end.

Lemma current_pair k cur : current (sched k) = Some cur -> current_principal_and_task k = (cur, principal_of k cur).
Proof. intros H. unfold current_principal_and_task. by rewrite H. Qed.

(** A send that finds an empty queue: the bytes of the caller are queued. *)
Lemma send_exact {C : Ed25519} {W : Wire C} blake3 decode roots fa phys_offset cur k ch c kd kind p n :
  phys_offset <> 0 -> inv roots fa cur k -> loops k !! cur = None -> parse_kind kd = Some kind ->
  channels (ipc k) !! ch = Some c -> queue c = [] -> permitted (send_subject c) (principal_of k cur) = true ->
  0 <= p -> 0 < n <= MAX_PAYLOAD -> p + n <= USER_HALF_END -> mapped_in (mem k) (cr3_root (cr3 k)) false p n ->
  exists k1 c1 env, step blake3 decode phys_offset (Call (IpcSend ch kd p n)) k = Done (Some 0, k1) /\
    mem k1 = mem k /\ cr3 k1 = cr3 k /\ processes k1 = processes k /\ loops k1 !! cur = None /\ current (sched k1) = Some cur /\
    channels (ipc k1) !! ch = Some c1 /\ queue c1 = [env] /\ recv_subject c1 = recv_subject c /\
    mpayload env = user_byte (mem k) (cr3_root (cr3 k)) <$> seqZ p n.
Proof.
  intros Hpo H Hl Hk Hc Hq Hperm Hp Hn Hend Hm. unfold step. rewrite (iv_cur _ _ _ _ H), Hl. cbn [dispatch]. unfold ipc_send. rewrite Hk.
  destruct (Z.eqb_spec n 0); [lia|]. unfold copy_from_user_vec. destruct (Z.eqb_spec n 0); [lia|]. destruct (Z.ltb_spec MAX_PAYLOAD n); [lia|].
  cbn [orb]. destruct (copy_from_user_exact (mem k) phys_offset (cr3 k) (replicate (Z.to_nat n) 0) p Hp Hpo) as (ok & -> & Hok).
  rewrite length_replicate, Z2Nat.id in Hok by lia. rewrite (proj2 Hok) by (by right). cbn [mbind exec_bind].
  rewrite length_replicate, Z2Nat.id by lia. set (bs := _ <$> _). rewrite (current_pair k cur) by apply H.
  unfold enter, round. set (k0 := set_loops k _). unfold send_round, send. change (ipc k0) with (ipc k). cbn [channel]. rewrite Hc, Hperm, Hq. cbn [negb length].
  destruct (iw_channel _ (iv_ipc _ _ _ _ H) ch c Hc) as [_ Hcw]. pose proof (cw_depth _ _ Hcw).
  destruct (Z.leb_spec (queue_depth (policy c)) (Z.of_nat 0)); [simpl in *; lia|].
  pose proof (iv_chan _ _ _ _ H ch c Hc) as Hco.
  destruct (waiters_recv c) as [|t wr] eqn:Ew; cbn [pop_waiter app].
  - eexists _, _, _. split; [done|]. cbn. rewrite lookup_delete_eq, lookup_insert_eq. rewrite (iv_cur _ _ _ _ H). done.
  - destruct (chan_waiting _ _ _ _ t Hco) as (x & Hx & _); [left; rewrite Ew; left|]. destruct (iv_loop _ _ _ _ H t x Hx) as (Hid & _).
    destruct (enqueue_runq t (resolve_priority t (sched k)) (sched k) (iv_wf _ _ _ _ H) Hid) as (_ & _ & Hcur & _).
    eexists _, _, _. split; [done|]. cbn. rewrite lookup_delete_eq, lookup_insert_eq, Hcur, (iv_cur _ _ _ _ H). done.
Qed.

(** A receive that finds a message: what fits of it is what the caller then reads. *)
Lemma receive_exact {C : Ed25519} {W : Wire C} blake3 decode roots fa phys_offset cur k ch c env rest q cap b :
  phys_offset <> 0 -> memory_ok roots fa (mem k) -> cr3_root (cr3 k) ∈ roots -> current (sched k) = Some cur -> loops k !! cur = None ->
  channels (ipc k) !! ch = Some c -> queue c = env :: rest -> permitted (recv_subject c) (principal_of k cur) = true ->
  is_bytes (mpayload env) -> 0 <= q -> 0 < cap -> q + cap <= USER_HALF_END ->
  let len := Z.min (Z.of_nat (length (mpayload env))) cap in
  mapped_in (mem k) (cr3_root (cr3 k)) true q len ->
  (forall x y p, q <= x < q + len -> q <= y < q + len ->
     translate_in (mem k) (cr3_root (cr3 k)) x = Some p -> translate_in (mem k) (cr3_root (cr3 k)) y = Some p -> x = y) ->
  exists k3 c3, step blake3 decode phys_offset (Call (IpcReceive ch q cap b)) k = Done (Some len, k3) /\
    channels (ipc k3) !! ch = Some c3 /\ queue c3 = rest /\
    user_byte (mem k3) (cr3_root (cr3 k)) <$> seqZ q len = take (Z.to_nat len) (mpayload env).
Proof.
  intros Hpo [Htab Hdata] Hroot Hcu Hl Hc Hq Hperm Hb Hq0 Hcap Hend len Hm Hinj. unfold step. rewrite Hcu, Hl. cbn [dispatch]. unfold ipc_receive.
  rewrite (proj2 (user_range_ok_iff q cap Hq0 Hcap) Hend). cbn [negb]. rewrite (current_pair k cur) by done.
  unfold enter, round. set (k0 := set_loops k _). unfold receive_round, receive. change (ipc k0) with (ipc k).
  rewrite Hc, Hperm, Hq. cbn [negb]. destruct (pop_waiter (waiters_send c)) as [w ws]. set (r := put_channel _ _ _). unfold deliver. fold len.
  set (k1 := match w with Wake t => unpark t (set_ipc k0 r) | _ => set_ipc k0 r end).
  assert (mem k1 = mem k /\ cr3 k1 = cr3 k /\ ipc k1 = r) as (E1 & E2 & E3) by (unfold k1; by destruct w). rewrite E1, E2.
  assert (channels r !! ch = Some (set_queues c rest ws (waiters_recv c))) as Hch by (apply lookup_insert_eq).
  destruct (Z.ltb_spec 0 len) as [Hpos|Hz].
  2:{ cbn [mbind exec_bind]. eexists _, _. split; [done|]. cbn [finish set_loops ipc mem]. rewrite E3, E1. split; [done|]. split; [done|].
      rewrite (Z2Nat.nonpos len), take_0 by lia. unfold seqZ. rewrite Z2Nat.nonpos by lia. done. }
  set (src := take (Z.to_nat len) (mpayload env)).
  assert (Z.of_nat (length src) = len) as Hsl by (unfold src; rewrite length_take; lia).
  unfold copy_to_user. rewrite Hsl. assert (q + len <= USER_HALF_END) as Hle by lia.
  destruct (andb_prop _ _ (proj2 (copy_guard (mem k) phys_offset (cr3 k) q len true Hq0 Hpos Hpo) (conj Hle Hm))) as [-> ->]. cbn [negb].
  destruct (Z.eqb_spec len 0); [lia|].
  destruct (store_bytes_spec roots (cr3_root (cr3 k)) Hroot fa src (mem k) q Htab) as (m' & -> & _ & Hback).
  - by apply Forall_take.
  - rewrite Hsl. intros x Hx. destruct (proj1 (accessible_resolve (mem k) (cr3_root (cr3 k)) true x) (Hm x Hx)) as (p & w' & Hr & Hw). exists p.
    rewrite Hr, Hw by done. split; [done|]. apply (Hdata (cr3_root (cr3 k)) x p w'); [done|lia|done].
  - cbn [mbind exec_bind]. eexists _, _. split; [done|]. cbn [finish set_loops set_mem ipc mem]. rewrite E3. split; [done|]. split; [done|].
    rewrite Hsl in Hback. by apply Hback.
Qed.

(** C5. Functional: a message carries the bytes of the sender's memory into the receiver's.  From any state
    the system reaches, when a task sends [n] bytes, at most the largest payload, from a mapped buffer to
    an empty channel it may use and a process that may receive runs next, with a writable buffer of which no
    two addresses share a byte, its receive returns the number of bytes that fit its buffer, and reading
    its buffer through its own page tables gives the bytes the sender had, through the sender's, at
    the time of the call; the channel is empty again. *)
Theorem ipc_transfer {C : Ed25519} {W : Wire C} blake3 decode roots fa phys_offset init k0 es k k2 a b pb ch c kd kind p n q cap blocking :
  phys_offset <> 0 -> booted roots fa init k0 -> Forall event_ok es -> run blake3 decode phys_offset es k0 = Done k ->
  current (sched k) = Some a -> loops k !! a = None -> parse_kind kd = Some kind ->
  channels (ipc k) !! ch = Some c -> queue c = [] -> permitted (send_subject c) (principal_of k a) = true ->
  0 <= p -> 0 < n <= MAX_PAYLOAD -> p + n <= USER_HALF_END -> mapped_in (mem k) (cr3_root (cr3 k)) false p n ->
  run blake3 decode phys_offset [Call (IpcSend ch kd p n); Call TaskYield] k = Done k2 ->
  current (sched k2) = Some b -> b <> a -> loops k2 !! b = None -> processes k !! b = Some pb -> permitted (recv_subject c) (principal pb) = true ->
  0 <= q -> 0 < cap -> q + cap <= USER_HALF_END ->
  let len := Z.min n cap in let root := cr3_root (pml4_phys pb) in
  mapped_in (mem k) root true q len ->
  (forall x y f, q <= x < q + len -> q <= y < q + len -> translate_in (mem k) root x = Some f -> translate_in (mem k) root y = Some f -> x = y) ->
  exists k3 c3, step blake3 decode phys_offset (Call (IpcReceive ch q cap blocking)) k2 = Done (Some len, k3) /\
    channels (ipc k3) !! ch = Some c3 /\ queue c3 = [] /\
    user_byte (mem k3) root <$> seqZ q len = user_byte (mem k) (cr3_root (cr3 k)) <$> seqZ p len.
Proof.
  intros Hpo Hb Hes Hrun Ha Hla Hk Hc Hq Hps Hp Hn Hend Hm Hrun2 Hcb Hne Hlb Hpb Hpr Hq0 Hcap Hqend len root Hmq Hinj.
  destruct (run_inv roots fa phys_offset Hpo blake3 decode es init k0 (booted_inv _ _ _ _ Hb) Hes) as (a' & k' & Hr' & H).
  assert (k' = k) as -> by congruence. assert (a' = a) as -> by (pose proof (iv_cur _ _ _ _ H); congruence).
  destruct (send_exact blake3 decode roots fa phys_offset a k ch c kd kind p n) as (k1 & c1 & env & Hs & Em & E3 & Ep & Hl1 & Hc1 & Hch1 & Hq1 & Hrs & Hpay);
    try done. cbn [run] in Hrun2. rewrite Hs in Hrun2. cbn [mbind exec_bind] in Hrun2.
  unfold step in Hrun2. rewrite Hc1, Hl1 in Hrun2. cbn [dispatch] in Hrun2. unfold task_yield in Hrun2. rewrite Hc1 in Hrun2. cbn [mbind exec_bind] in Hrun2.
  injection Hrun2 as Ek2. assert (mem k2 = mem k /\ ipc k2 = ipc k1 /\ processes k2 = processes k /\ cr3 k2 = pml4_phys pb) as (Fm & Fi & Fp & Fc).
  { rewrite <- Ek2 in Hcb |- *. cbn in Hcb |- *. rewrite Hcb. destruct (Z.eqb_spec b a); [done|]. rewrite Ep, Hpb. done. }
  assert (length (mpayload env) = Z.to_nat n) as Hlen by (rewrite Hpay, length_fmap; apply length_seqZ).
  destruct (receive_exact blake3 decode roots fa phys_offset b k2 ch c1 env [] q cap blocking) as (k3 & c3 & Hst & Hch3 & Hq3 & Hby); try done.
  - rewrite Fm. apply H.
  - rewrite Fc. by apply (iv_procs _ _ _ _ H b).
  - by rewrite Fi.
  - unfold principal_of. by rewrite Fp, Hpb, Hrs.
  - rewrite Hpay. apply Forall_fmap, Forall_true. intros v. unfold is_byte, user_byte. cbn. destruct (translate_in _ _ _); [|lia].
    unfold read_byte. apply Z.mod_pos_bound. lia.
  - rewrite Fm, Fc, Hlen, Z2Nat.id by lia. exact Hmq.
  - rewrite Fm, Fc, Hlen, Z2Nat.id by lia. exact Hinj.
  - rewrite Hlen, Z2Nat.id in * by lia. fold len in Hst, Hby. exists k3, c3. split; [done|]. split; [done|]. split; [done|].
    rewrite Fc in Hby. fold root in Hby. rewrite Hby, Hpay, <- fmap_take. f_equal. unfold seqZ. rewrite <- fmap_take, take_seq. do 2 f_equal. unfold len. lia.
Qed.

(** Three tasks over the page tables of one process; two of them wait, the third sends. *)
Definition demo_tcb (id : Z) : TaskControlBlock := mkTcb id Runnable Interactive 0 0 0.
Definition demo_kernel : kernel :=
  mkKernel (with_current (with_queues (with_tasks sched_new [demo_tcb 1; demo_tcb 2; demo_tcb 3]) [[]; []; [2; 3]; []; []; []]) (Some 1))
    ipc_new demo_mem demo_boot ∅ ∅.

Lemma demo_user_half v : 0 <= v < USER_HALF_END -> resolve 3 demo_mem demo_boot v = None.
Proof.
  intros Hv. cbn [resolve]. pose proof (user_virt v ltac:(unfold USER_HALF_END in Hv; lia)) as Hu. unfold user_half, KERNEL_PML4_START in Hu.
  change (virt_index v Pml4) with (idx 3 v) in Hu. pose proof (idx_slot 3 v) as Hs. unfold slot in Hs.
  assert (entry demo_mem demo_boot (idx 3 v) = 0) as ->; [|done].
  unfold entry, demo_mem, set_entry, read_word, write_word, demo_boot, demo_pdpt. rewrite !lookup_insert_ne by lia. done.
Qed.

Lemma demo_mem_ok : memory_ok [demo_boot] demo_vm_alloc demo_mem.
Proof. split; [exact demo_tables|]. intros r v p w ->%list_elem_of_singleton Hv. by rewrite demo_user_half. Qed.

Lemma demo_booted : booted [demo_boot] demo_vm_alloc 1 demo_kernel.
Proof.
  split; try done; [by apply (bool_decide_unpack _)|by apply (bool_decide_unpack _)|exact demo_mem_ok|apply list_elem_of_here].
Qed.

#[local] Existing Instance demo_ed25519.
#[local] Existing Instance demo_wire.
Definition demo_run (es : list event) : exec kernel := run (fun b => b) (fun _ => None) 1 es demo_kernel.

Definition demo_calls : list event :=
  [Call (IpcCreateChannel 2 0 0 0 0 0 0); Call (IpcReceive 1 0 0 1); Call (IpcReceive 1 0 0 1); Call (IpcSend 1 3 0 0)].
Lemma demo_calls_state :
  match demo_run demo_calls with
  | Done k => match channels (ipc k) !! 1 with Some c => (waiters_recv c, length (queue c)) | None => ([], 0%nat) end
  | Panic => ([], 0%nat)
  end = ([2], 1%nat).
Proof. vm_compute. reflexivity. Qed.

Lemma no_lost_wakeup_witness :
  exists k c t, demo_run demo_calls = Done k /\ channels (ipc k) !! 1 = Some c /\ waiters_recv c = [2] /\ length (queue c) = 1%nat /\
    runnable k t /\ receives c 1 (loops k !! t) = true.
Proof.
  destruct (no_lost_wakeup (fun b => b) (fun _ => None) [demo_boot] demo_vm_alloc 1 1 demo_kernel demo_calls ltac:(lia) demo_booted) as (k & Hrun & Hch & _).
  - repeat constructor; cbn; lia.
  - pose proof demo_calls_state as E. unfold demo_run in *. rewrite Hrun in E. destruct (channels (ipc k) !! 1) as [c|] eqn:Hc; [|discriminate E].
    injection E as E1 E2. destruct (proj1 (Hch 1 c Hc)) as (ts & _ & Hts & Hlen); [rewrite E1; discriminate|].
    unfold backlog in Hlen. rewrite E2 in Hlen. destruct ts as [|t ts]; [cbn in Hlen; lia|]. apply Forall_cons in Hts as [[H1 H2] _].
    exists k, c, t. split; [exact Hrun|]. split; [exact Hc|]. split; [exact E1|]. split; [exact E2|]. split; [exact H1|exact H2].
Defined.

(** Destroying a channel wakes none of its waiters: task 2 waits for channel 1, task 1 destroys it,
    and task 2 is in its call for good, neither runnable nor listed anywhere. *)
Example destroy_strands_waiter :
  match demo_run [Call (IpcCreateChannel 2 0 0 0 0 0 0); Call TaskYield; Call (IpcReceive 1 0 0 1); Call TaskYield; Call (IpcDestroyChannel 1)] with
  | Done k => (bool_decide (is_Some (loops k !! 2)), current (sched k), runq (sched k), size (channels (ipc k)))
  | Panic => (false, None, [], 0%nat)
  end = (true, Some 1, [3], 0%nat).
Proof. vm_compute. reflexivity. Qed.

(** Two processes whose address space has the stack of [UserMem]; one sends the other two bytes. *)
Lemma demo_user_ok : memory_ok [demo_boot] demo_user.2 demo_user.1.
Proof.
  destruct (map_stack_spec [demo_boot] demo_boot (list_elem_of_here _ _) 4 demo_mem demo_vm_alloc 0x4000004000 0 demo_tables)
    as (ok & m' & a' & Hm & L & Hout & Hpages); [lia|lia|reflexivity|lia|].
  assert (demo_stack = if negb ok then Done (None, 0, (m', a')) else Done (Some 0x4000008000, 1, (m', a'))) as E.
  { unfold demo_stack, allocate_user_stack. change (slot_writable_base 0) with (Some 0x4000004000).
    change (Z.to_nat (USER_STACK_SIZE / 4096)) with 4%nat. cbv beta iota. rewrite Hm. destruct ok; reflexivity. }
  pose proof demo_stack_ok as Hk. unfold demo_user. rewrite E in *. destruct ok; [|discriminate Hk]. cbn [negb fst snd].
  split; [apply L|]. intros r v p w ->%list_elem_of_singleton Hv Hr.
  assert (forall j, 0 <= j < 4 -> page_of v = page_of (0x4000004000 + j * 4096) -> data [demo_boot] m' a' (page_base p)) as Hin.
  { intros j Hj Hpg. destruct (Hpages eq_refl j ltac:(lia)) as (f & content & _ & [H1 _ H3 _]). rewrite (H1 v Hpg) in Hr. injection Hr as <- _.
    assert (page_base (f + Z.land v 0xFFF) = f) as ->; [|exact H3]. destruct H3 as [[_ Hf] _]. unfold page_base. change 0xFFF with (Z.ones 12).
    rewrite Z.land_ones by lia. change (2 ^ 12) with 4096. rewrite Z.add_mod, Hf, Z.add_0_l, !Z.mod_mod by lia. lia. }
  destruct (decide (page_of v = page_of (0x4000004000 + 0 * 4096))); [apply (Hin 0); [lia|assumption]|].
  destruct (decide (page_of v = page_of (0x4000004000 + 1 * 4096))); [apply (Hin 1); [lia|assumption]|].
  destruct (decide (page_of v = page_of (0x4000004000 + 2 * 4096))); [apply (Hin 2); [lia|assumption]|].
  destruct (decide (page_of v = page_of (0x4000004000 + 3 * 4096))); [apply (Hin 3); [lia|assumption]|].
  rewrite Hout, demo_user_half in Hr; [discriminate Hr|exact Hv|]. intros j Hj.
  assert (j = 0 \/ j = 1 \/ j = 2 \/ j = 3) as [->|[->|[->| ->]]] by lia; assumption.
Qed.

Definition pair_kernel (m : memory) : kernel :=
  mkKernel (with_current (with_queues (with_tasks sched_new [demo_tcb 1; demo_tcb 2]) [[]; []; [2]; []; []; []]) (Some 1))
    ipc_new m demo_boot {[1 := mkProcess [1] demo_boot; 2 := mkProcess [2] demo_boot]} ∅.
Lemma pair_booted fa m : memory_ok [demo_boot] fa m -> booted [demo_boot] fa 1 (pair_kernel m).
Proof.
  intros Hm. split; try done; [by apply (bool_decide_unpack _)|by apply (bool_decide_unpack _)|apply list_elem_of_here|].
  intros t p. cbn. rewrite lookup_insert_Some, lookup_singleton_Some. intros [[_ <-]|[_ [_ <-]]]; apply list_elem_of_here.
Qed.

Definition pair_policy : ChannelPolicy := mkPolicy 2 Block false.
Definition pair_open (m : memory) : kernel :=
  set_ipc (pair_kernel m) (mkIpc {[1 := channel_new 1 pair_policy 1 None None]} 2).
Definition pair_sent (m : memory) (bs : bytes) : kernel :=
  yield 1 Runnable (set_ipc (pair_kernel m)
    (mkIpc {[1 := set_queues (channel_new 1 pair_policy 1 None None) [mkEnvelope 1 1 MNotification bs] [] []]} 2)).

Lemma pair_run m bs :
  copy_from_user_vec m 1 demo_boot 0x4000004000 2 MAX_PAYLOAD = Done (Some bs) ->
  run (fun b => b) (fun _ => None) 1 [Call (IpcCreateChannel 2 0 0 0 0 0 0)] (pair_kernel m) = Done (pair_open m) /\
  run (fun b => b) (fun _ => None) 1 [Call (IpcSend 1 3 0x4000004000 2); Call TaskYield] (pair_open m) = Done (pair_sent m bs).
Proof.
  intros Hc. split; [vm_compute; reflexivity|].
  assert (step (fun b => b) (fun _ => None) 1 (Call (IpcSend 1 3 0x4000004000 2)) (pair_open m) = enter 1 1 (InSend [1] 1 MNotification bs) (pair_open m)) as E.
  { unfold step. change (current (sched (pair_open m))) with (Some 1). change (loops (pair_open m) !! 1) with (None : option pending).
    cbn [dispatch]. unfold ipc_send. change (parse_kind 3) with (Some MNotification). change (2 =? 0) with false. cbv iota.
    change (mem (pair_open m)) with m. change (cr3 (pair_open m)) with demo_boot. rewrite Hc. reflexivity. }
  cbn [run]. rewrite E. vm_compute. reflexivity.
Qed.

Lemma ipc_transfer_witness :
  exists bs k3, copy_from_user_vec demo_user.1 1 demo_boot 0x4000004000 2 MAX_PAYLOAD = Done (Some bs) /\
    step (fun b => b) (fun _ => None) 1 (Call (IpcReceive 1 0x4000004010 8 1)) (pair_sent demo_user.1 bs) = Done (Some 2, k3) /\
    user_byte (mem k3) demo_boot <$> seqZ 0x4000004010 2 = user_byte demo_user.1 demo_boot <$> seqZ 0x4000004000 2.
Proof.
  pose proof demo_user_ok as Hok. destruct demo_user_page as [_ (f & _ & Hf)]. revert Hok Hf. generalize demo_user.1 demo_user.2. intros m fa Hok Hf.
  assert (forall w v n, 0x4000004000 <= v -> v + n <= 0x4000005000 -> mapped_in m demo_boot w v n) as Hmap.
  { intros w v n Hv Hn x Hx. apply accessible_resolve. eexists _, true. split; [apply Hf; lia|done]. }
  destruct (copy_from_user_exact m 1 demo_boot [0; 0] 0x4000004000 ltac:(lia) ltac:(lia)) as (ok & Hcp & Hiff).
  rewrite (proj2 Hiff) in Hcp by (right; split; [vm_compute; discriminate|]; apply Hmap; cbn; lia).
  set (bs := user_byte m demo_boot <$> seqZ 0x4000004000 2).
  assert (copy_from_user_vec m 1 demo_boot 0x4000004000 2 MAX_PAYLOAD = Done (Some bs)) as Hv.
  { unfold copy_from_user_vec. change ((2 =? 0) || (MAX_PAYLOAD <? 2)) with false. cbv iota. change (replicate (Z.to_nat 2) 0) with [0; 0]. rewrite Hcp. reflexivity. }
  destruct (pair_run m bs Hv) as [Hr1 Hr2]. exists bs.
  destruct (ipc_transfer (fun b => b) (fun _ => None) [demo_boot] fa 1 1 (pair_kernel m) [Call (IpcCreateChannel 2 0 0 0 0 0 0)] (pair_open m) (pair_sent m bs)
    1 2 (mkProcess [2] demo_boot) 1 (channel_new 1 pair_policy 1 None None) 3 MNotification 0x4000004000 2 0x4000004010 8 1) as (k3 & c3 & Hst & _ & _ & Hby).
  - lia.
  - exact (pair_booted fa m Hok).
  - apply Forall_singleton. cbn. lia.
  - exact Hr1.
  - reflexivity.
  - reflexivity.
  - reflexivity.
  - reflexivity.
  - reflexivity.
  - reflexivity.
  - lia.
  - unfold MAX_PAYLOAD. lia.
  - unfold USER_HALF_END. lia.
  - apply Hmap; lia.
  - exact Hr2.
  - reflexivity.
  - lia.
  - reflexivity.
  - reflexivity.
  - reflexivity.
  - lia.
  - lia.
  - unfold USER_HALF_END. lia.
  - apply Hmap; lia.
  - intros x y g Hx Hy. change (cr3_root (pml4_phys (mkProcess [2] demo_boot))) with demo_boot. rewrite !translate_resolve, !Hf by lia. cbn [fmap option_fmap option_map fst].
    change 0xFFF with (Z.ones 12). rewrite !Z.land_ones by lia. intros [= <-] [= E]. change (2 ^ 12) with 4096 in E.
    rewrite (Z.mod_eq x), (Z.mod_eq y) in E by lia.
    assert (x / 4096 = 0x4000004) as Ex by (symmetry; apply Z.div_unique with (r := x - 0x4000004000); lia).
    assert (y / 4096 = 0x4000004) as Ey by (symmetry; apply Z.div_unique with (r := y - 0x4000004000); lia). rewrite Ex, Ey in E. lia.
  - exists k3. split; [exact Hv|]. split; [exact Hst|exact Hby].
Defined.
