(* ===== verification/InodeTree.v ===== *)
(** * The copy-on-write inode tree of the v3 filesystem

    [nexacore-fs/src/v3/inode_tree.rs]: a persistent AVL tree from inode
    numbers to the block that holds the inode.  [Option<Rc<Node>>] is [Tree],
    with [Leaf] for [None]; nodes are never mutated in place, so an [Rc] is
    the value it points to.  Node heights ([i32] in the code) are kept as
    [Z]: [tree_height_bound] keeps them below 128 for every tree that fits
    an address space, so [1 + max] never overflows.  The length counter is a
    [usize] with checked arithmetic. *)

From S2P Require Import Prelude.

Inductive Tree : Type :=
| Leaf
| Node (key val ht : Z) (left right : Tree).

Definition height (t : Tree) : Z := match t with Leaf => 0 | Node _ _ h _ _ => h end.

Definition node (key val : Z) (left right : Tree) : Tree :=
  Node key val (1 + Z.max (height left) (height right)) left right.

(** The rotations take the pivot's fields. *)
Definition rotate_right (key val : Z) (pkey pval : Z) (pleft pright : Tree) (right : Tree) : Tree :=
  let new_right := node key val pright right in
  node pkey pval pleft new_right.

Definition rotate_left (key val : Z) (left : Tree) (pkey pval : Z) (pleft pright : Tree) : Tree :=
  let new_left := node key val left pleft in
  node pkey pval new_left pright.

Definition rebalance (key val : Z) (left right : Tree) : Tree :=
  let bf := height left - height right in
  if 1 <? bf then
    match left with
    | Node lk lv _ ll lr =>
        if height lr <=? height ll then rotate_right key val lk lv ll lr right
        else
          match lr with
          | Node lrk lrv _ lrl lrr =>
              match rotate_left lk lv ll lrk lrv lrl lrr with
              | Node nk nv _ nl nr => rotate_right key val nk nv nl nr right
              | Leaf => node key val left right
              end
          | Leaf => node key val left right
          end
    | Leaf => node key val left right
    end
  else if bf <? -1 then
    match right with
    | Node rk rv _ rl rr =>
        if height rl <=? height rr then rotate_left key val left rk rv rl rr
        else
          match rl with
          | Node rlk rlv _ rll rlr =>
              match rotate_right rk rv rlk rlv rll rlr rr with
              | Node nk nv _ nl nr => rotate_left key val left nk nv nl nr
              | Leaf => node key val left right
              end
          | Leaf => node key val left right
          end
    | Leaf => node key val left right
    end
  else node key val left right.

Fixpoint insert (t : Tree) (key val : Z) : Tree * bool :=
  match t with
  | Leaf => (node key val Leaf Leaf, true)
  | Node k v _ l r =>
      match Z.compare key k with
      | Lt => let '(new_left, added) := insert l key val in (rebalance k v new_left r, added)
      | Gt => let '(new_right, added) := insert r key val in (rebalance k v l new_right, added)
      | Eq => (node k val l r, false)
      end
  end.

(** The leftmost entry of the node [(k, v)] with left child [l]. *)
Fixpoint min_entry (k v : Z) (l : Tree) : Z * Z :=
  match l with Leaf => (k, v) | Node k' v' _ l' _ => min_entry k' v' l' end.

Fixpoint remove (t : Tree) (key : Z) : Tree * bool :=
  match t with
  | Leaf => (Leaf, false)
  | Node k v _ l r =>
      match Z.compare key k with
      | Lt => let '(new_left, removed) := remove l key in (rebalance k v new_left r, removed)
      | Gt => let '(new_right, removed) := remove r key in (rebalance k v l new_right, removed)
      | Eq =>
          match l, r with
          | Leaf, Leaf => (Leaf, true)
          | Node _ _ _ _ _, Leaf => (l, true)
          | Leaf, Node _ _ _ _ _ => (r, true)
          | Node _ _ _ _ _, Node rk rv _ rl _ =>
              let '(sk, sv) := min_entry rk rv rl in
              let '(new_right, _) := remove r sk in
              (rebalance sk sv l new_right, true)
          end
      end
  end.

Fixpoint collect (t : Tree) : list (Z * Z) :=
  match t with Leaf => [] | Node k v _ l r => collect l ++ (k, v) :: collect r end.

Record InodeTree := mkTree { root : Tree; len : Z }.

Definition tree_new : InodeTree := mkTree Leaf 0.

Definition tree_is_empty (t : InodeTree) : bool := len t =? 0.

(** [u32::try_from(height).unwrap_or(0)]. *)
Definition tree_height (t : InodeTree) : Z :=
  let h := height (root t) in if (0 <=? h) && (h <? 2 ^ 32) then h else 0.

(** The descent of [get]. *)
Fixpoint search (t : Tree) (inode : Z) : option Z :=
  match t with
  | Leaf => None
  | Node k v _ l r =>
      match Z.compare inode k with Lt => search l inode | Gt => search r inode | Eq => Some v end
  end.

Definition get (t : InodeTree) (inode : Z) : option Z := search (root t) inode.

Definition contains (t : InodeTree) (inode : Z) : bool :=
  match get t inode with Some _ => true | None => false end.

Definition with_inserted (t : InodeTree) (inode block : Z) : exec InodeTree :=
  let '(root', added) := insert (root t) inode block in
  n ← (if (added : bool) then add_uint 64 (len t) 1 else Done (len t));
  Done (mkTree root' n).

Definition with_removed (t : InodeTree) (inode : Z) : exec InodeTree :=
  let '(root', removed) := remove (root t) inode in
  n ← (if (removed : bool) then sub_uint (len t) 1 else Done (len t));
  Done (mkTree root' n).

Definition entries (t : InodeTree) : list (Z * Z) := collect (root t).

(** ** Balance *)

(** Every stored height is right and siblings differ by at most one. *)
Fixpoint avl (t : Tree) : Prop :=
  match t with
  | Leaf => True
  | Node _ _ h l r =>
      avl l /\ avl r /\ h = 1 + Z.max (height l) (height r) /\ -1 <= height l - height r <= 1
  end.

Lemma avl_height_pos t : avl t -> 0 <= height t.
Proof. induction t; simpl; [lia|]. intros (H1 & H2 & -> & _). specialize (IHt1 H1). lia. Qed.

Lemma height_0 t : avl t -> height t <= 0 -> t = Leaf.
Proof.
  destruct t as [|k v h l r]; [done|]. simpl. intros (H1 & H2 & -> & _).
  pose proof (avl_height_pos l H1). lia.
Qed.

Lemma rebalance_avl k v l r :
  avl l -> avl r -> -2 <= height l - height r <= 2 ->
  avl (rebalance k v l r) /\
  Z.max (height l) (height r) <= height (rebalance k v l r) <= 1 + Z.max (height l) (height r) /\
  (-1 <= height l - height r <= 1 -> height (rebalance k v l r) = 1 + Z.max (height l) (height r)).
Proof.
  intros Hl Hr Hb. unfold rebalance. pose proof (avl_height_pos l Hl). pose proof (avl_height_pos r Hr).
  destruct (1 <? _) eqn:E1; zbool.
  - destruct l as [|lk lv lh ll lr]; simpl in *; [lia|]. destruct Hl as (Hll & Hlr & -> & Hlb).
    pose proof (avl_height_pos _ Hll). pose proof (avl_height_pos _ Hlr).
    destruct (_ <=? _) eqn:E2; zbool; [simpl; split_and!; auto; lia|].
    destruct lr as [|a b c lrl lrr]; simpl in *; [lia|]. destruct Hlr as (Ha & Hc & -> & Hd).
    pose proof (avl_height_pos _ Ha). pose proof (avl_height_pos _ Hc).
    split_and!; auto; lia.
  - destruct (_ <? -1) eqn:E2; zbool; [|simpl; split_and!; auto; lia].
    destruct r as [|rk rv rh rl rr]; simpl in *; [lia|]. destruct Hr as (Hrl & Hrr & -> & Hrb).
    pose proof (avl_height_pos _ Hrl). pose proof (avl_height_pos _ Hrr).
    destruct (_ <=? _) eqn:E3; zbool; [simpl; split_and!; auto; lia|].
    destruct rl as [|a b c rll rlr]; simpl in *; [lia|]. destruct Hrl as (Ha & Hc & -> & Hd).
    pose proof (avl_height_pos _ Ha). pose proof (avl_height_pos _ Hc).
    split_and!; auto; lia.
Qed.

Lemma insert_avl t k v :
  avl t -> avl (insert t k v).1 /\ height t <= height (insert t k v).1 <= 1 + height t.
Proof.
  induction t as [|k0 v0 h l IHl r IHr]; simpl; [intros; split_and!; done|].
  intros (Hl & Hr & -> & Hb). pose proof (avl_height_pos l Hl). pose proof (avl_height_pos r Hr).
  destruct (Z.compare k k0); simpl; [split_and!; auto; lia| |].
  - destruct (IHl Hl) as [A1 A2]. destruct (insert l k v) as [l' b]. simpl in *.
    destruct (rebalance_avl k0 v0 l' r A1 Hr ltac:(lia)) as (A3 & A4 & A5). split; [done|]. lia.
  - destruct (IHr Hr) as [A1 A2]. destruct (insert r k v) as [r' b]. simpl in *.
    destruct (rebalance_avl k0 v0 l r' Hl A1 ltac:(lia)) as (A3 & A4 & A5). split; [done|]. lia.
Qed.

Lemma remove_avl t k :
  avl t -> avl (remove t k).1 /\ height t - 1 <= height (remove t k).1 <= height t.
Proof.
  revert k. induction t as [|k0 v0 h l IHl r IHr]; intros k; cbn [remove]; [intros; simpl; split_and!; done || lia|].
  intros (Hl & Hr & -> & Hb). pose proof (avl_height_pos l Hl). pose proof (avl_height_pos r Hr).
  assert (Hright : forall x, avl (remove r x).1 -> height r - 1 <= height (remove r x).1 <= height r ->
    forall a b, avl (rebalance a b l (remove r x).1) /\
      Z.max (height l) (height r) <= height (rebalance a b l (remove r x).1) <= 1 + Z.max (height l) (height r)).
  { intros x A1 A2 a b. destruct (rebalance_avl a b l _ Hl A1 ltac:(lia)) as (A3 & A4 & A5). split; [done|]. lia. }
  destruct (Z.compare k k0); cbn [height].
  - destruct l as [|lk lv lh ll lr] eqn:El, r as [|rk rv rh rl rr] eqn:Er; try (simpl in *; split_and!; tauto || lia).
    rewrite <- El, <- Er in *. destruct (min_entry rk rv rl) as [sk sv].
    destruct (IHr sk Hr) as [A1 A2]. specialize (Hright sk A1 A2 sk sv).
    destruct (remove r sk) as [r' b]. cbn [fst] in *. split; [apply Hright|]. lia.
  - destruct (IHl k Hl) as [A1 A2]. destruct (remove l k) as [l' b]. simpl in *.
    destruct (rebalance_avl k0 v0 l' r A1 Hr ltac:(lia)) as (A3 & A4 & A5). split; [done|]. lia.
  - destruct (IHr k Hr) as [A1 A2]. specialize (Hright k A1 A2 k0 v0).
    destruct (remove r k) as [r' b]. cbn [fst] in *. split; [apply Hright|]. lia.
Qed.

(** ** Contents *)

Lemma rebalance_collect k v l r : collect (rebalance k v l r) = collect l ++ (k, v) :: collect r.
Proof.
  unfold rebalance. destruct (1 <? _).
  - destruct l as [|lk lv lh ll lr]; [done|]. simpl. destruct (_ <=? _); [simpl; by rewrite <- app_assoc|].
    destruct lr; [done|]. simpl. rewrite <- ?app_assoc; simpl; by rewrite <- ?app_assoc.
  - destruct (_ <? -1); [|done]. destruct r as [|rk rv rh rl rr]; [done|]. simpl.
    destruct (_ <=? _); [simpl; by rewrite <- app_assoc|].
    destruct rl; [done|]. simpl. rewrite <- ?app_assoc; simpl; by rewrite <- ?app_assoc.
Qed.

(** The keys in order, as a search tree has them. *)
Definition key_lt (x y : Z * Z) : Prop := x.1 < y.1.
Definition ordered (l : list (Z * Z)) : Prop := StronglySorted key_lt l.

Lemma ordered_app l x r :
  ordered (l ++ x :: r) <->
  ordered l /\ ordered r /\ (forall y, y ∈ l -> y.1 < x.1) /\ (forall y, y ∈ r -> x.1 < y.1).
Proof.
  unfold ordered. induction l as [|y l IH]; simpl.
  - split.
    + intros [H1 H2]%StronglySorted_inv. rewrite Forall_forall in H2.
      split_and!; [constructor|done| |done]. intros y Hy. by apply not_elem_of_nil in Hy.
    + intros (_ & H & _ & H2). constructor; [done|]. by apply Forall_forall.
  - split.
    + intros [H1 H2]%StronglySorted_inv. apply IH in H1 as (A1 & A2 & A3 & A4).
      apply Forall_app in H2 as [B1 B2]. apply Forall_cons in B2 as [B2 _].
      split_and!; [by constructor|done| |done]. intros z [->|Hz]%elem_of_cons; [done|by apply A3].
    + intros (A1 & A2 & A3 & A4). apply StronglySorted_inv in A1 as [A1 B1].
      assert (Hyx : y.1 < x.1) by (apply A3; left).
      constructor; [apply IH; split_and!; auto; intros z Hz; apply A3; by right|].
      apply Forall_app. split; [done|]. constructor; [done|]. apply Forall_forall.
      intros z Hz. specialize (A4 z Hz). unfold key_lt. lia.
Qed.

(** Reference operations on ordered association lists. *)
Definition list_insert (k v : Z) (l : list (Z * Z)) : list (Z * Z) :=
  filter (fun x => x.1 < k) l ++ (k, v) :: filter (fun x => k < x.1) l.
Definition list_remove (k : Z) (l : list (Z * Z)) : list (Z * Z) := filter (fun x => x.1 <> k) l.

Lemma search_elem t k v :
  ordered (collect t) -> search t k = Some v <-> (k, v) ∈ collect t.
Proof.
  induction t as [|k0 v0 h l IHl r IHr]; simpl; intros Ho.
  - split; [done|]. intros H. by apply not_elem_of_nil in H.
  - apply ordered_app in Ho as (Hl & Hr & Hlt & Hgt). rewrite elem_of_app, elem_of_cons.
    assert (Nl : forall w, k0 <= k -> (k, w) ∉ collect l) by (intros w ? Hin%Hlt; simpl in *; lia).
    assert (Nr : forall w, k <= k0 -> (k, w) ∉ collect r) by (intros w ? Hin%Hgt; simpl in *; lia).
    destruct (Z.compare_spec k k0) as [->|Hk|Hk].
    + split; [intros [= ->]; auto|]. intros [H|[[= ->]|H]]; [|done|].
      * by destruct (Nl v ltac:(lia)).
      * by destruct (Nr v ltac:(lia)).
    + rewrite (IHl Hl). split; [auto|]. intros [H|[[= ]|H]]; [done|lia|]. by destruct (Nr v ltac:(lia)).
    + rewrite (IHr Hr). split; [auto|]. intros [H|[[= ]|H]]; [|lia|done]. by destruct (Nl v ltac:(lia)).
Qed.

Lemma search_None t k : ordered (collect t) -> search t k = None <-> k ∉ (collect t).*1.
Proof.
  intros Ho. rewrite list_elem_of_fmap. split.
  - intros Hn ([k' v] & -> & Hin). apply (search_elem _ _ _ Ho) in Hin. simpl in *. congruence.
  - intros Hn. destruct (search t k) as [v|] eqn:E; [|done]. apply (search_elem _ _ _ Ho) in E.
    destruct Hn. by exists (k, v).
Qed.

Lemma list_insert_app k v l k0 v0 r :
  ordered (l ++ (k0, v0) :: r) ->
  list_insert k v (l ++ (k0, v0) :: r) =
  match Z.compare k k0 with
  | Lt => list_insert k v l ++ (k0, v0) :: r
  | Eq => l ++ (k, v) :: r
  | Gt => l ++ (k0, v0) :: list_insert k v r
  end.
Proof.
  intros (_ & _ & Hl & Hr)%ordered_app. simpl in Hl, Hr. unfold list_insert. rewrite !filter_app.
  destruct (Z.compare_spec k k0) as [->|Hk|Hk].
  - rewrite !filter_cons_False by (simpl; lia). rewrite (filter_keep_all (fun x => x.1 < k0) l), (filter_keep_all (fun x => k0 < x.1) r) by auto.
    rewrite (filter_none _ l), (filter_none _ r);
      [by rewrite app_nil_r|intros x ?%Hr; lia|intros x ?%Hl; lia].
  - rewrite filter_cons_False, filter_cons_True by (simpl; lia).
    rewrite (filter_none (fun x => x.1 < k) r), (filter_keep_all _ r);
      [by rewrite app_nil_r, <- app_assoc|intros x ?%Hr; lia..].
  - rewrite filter_cons_True, filter_cons_False by (simpl; lia).
    rewrite (filter_none (fun x => k < x.1) l), (filter_keep_all _ l);
      [by rewrite <- app_assoc|intros x ?%Hl; lia..].
Qed.

Lemma list_remove_app k l k0 v0 r :
  ordered (l ++ (k0, v0) :: r) ->
  list_remove k (l ++ (k0, v0) :: r) =
  match Z.compare k k0 with
  | Lt => list_remove k l ++ (k0, v0) :: r
  | Eq => l ++ r
  | Gt => l ++ (k0, v0) :: list_remove k r
  end.
Proof.
  intros (_ & _ & Hl & Hr)%ordered_app. simpl in Hl, Hr. unfold list_remove. rewrite filter_app.
  destruct (Z.compare_spec k k0) as [->|Hk|Hk].
  - rewrite filter_cons_False by (simpl; lia).
    rewrite (filter_keep_all _ l), (filter_keep_all _ r); [done|intros x ?%Hr; lia|intros x ?%Hl; lia].
  - rewrite filter_cons_True by (simpl; lia). rewrite (filter_keep_all _ r); [done|intros x ?%Hr; lia].
  - rewrite filter_cons_True by (simpl; lia). rewrite (filter_keep_all _ l); [done|intros x ?%Hl; lia].
Qed.

Lemma insert_collect t k v :
  ordered (collect t) ->
  collect (insert t k v).1 = list_insert k v (collect t) /\
  (insert t k v).2 = match search t k with Some _ => false | None => true end.
Proof.
  induction t as [|k0 v0 h l IHl r IHr]; simpl; intros Ho; [done|].
  rewrite list_insert_app by done. apply ordered_app in Ho as (Hl & Hr & _).
  destruct (Z.compare_spec k k0) as [->|_|_]; [done|..].
  - destruct (IHl Hl) as [H1 H2], (insert l k v). simpl in *. by rewrite rebalance_collect, H1.
  - destruct (IHr Hr) as [H1 H2], (insert r k v). simpl in *. by rewrite rebalance_collect, H1.
Qed.

Lemma min_entry_collect k v l r :
  exists rest, collect l ++ (k, v) :: r = min_entry k v l :: rest.
Proof.
  revert k v r. induction l as [|k0 v0 h l IHl r0 _]; intros k v r; simpl; [by eexists|].
  rewrite <- app_assoc. simpl. apply IHl.
Qed.

Lemma list_remove_head x l : ordered (x :: l) -> list_remove x.1 (x :: l) = l.
Proof.
  intros Ho. destruct x as [k v]. change (list_remove k ([] ++ (k, v) :: l) = l).
  rewrite list_remove_app by done. by rewrite Z.compare_refl.
Qed.

Lemma remove_collect t k :
  ordered (collect t) ->
  collect (remove t k).1 = list_remove k (collect t) /\
  (remove t k).2 = match search t k with Some _ => true | None => false end.
Proof.
  revert k. induction t as [|k0 v0 h l IHl r IHr]; intros k; cbn [remove collect search]; intros Ho; [done|].
  rewrite list_remove_app by done. apply ordered_app in Ho as (Hl & Hr & _).
  destruct (Z.compare k k0).
  - destruct l as [|lk lv lh ll lr] eqn:El, r as [|rk rv rh rl rr] eqn:Er; try (simpl; by rewrite ?app_nil_r).
    rewrite <- El, <- Er in *. destruct (min_entry_collect rk rv rl (collect rr)) as [rest Hm].
    assert (Hc : collect r = min_entry rk rv rl :: rest) by (rewrite Er; exact Hm).
    destruct (min_entry rk rv rl) as [sk sv]. destruct (IHr sk Hr) as [H1 _].
    rewrite Hc in H1, Hr. pose proof (list_remove_head (sk, sv) rest Hr) as H2. simpl in H2. rewrite H2 in H1.
    destruct (remove r sk) as [r' b]. cbn [fst snd] in *. by rewrite rebalance_collect, H1, Hc.
  - destruct (IHl k Hl) as [H1 H2], (remove l k). simpl in *. by rewrite rebalance_collect, H1.
  - destruct (IHr k Hr) as [H1 H2], (remove r k). simpl in *. by rewrite rebalance_collect, H1.
Qed.

(** ** The tree as a finite map *)

Lemma ordered_filter (P : Z * Z -> Prop) `{!forall x, Decision (P x)} l : ordered l -> ordered (filter P l).
Proof.
  unfold ordered. induction 1 as [|x l _ IH Hx]; [constructor|].
  destruct (decide (P x)); [rewrite filter_cons_True by done|by rewrite filter_cons_False].
  constructor; [done|]. rewrite Forall_forall in *. intros y [_ Hy]%list_elem_of_filter. auto.
Qed.

Lemma list_insert_ordered k v l : ordered l -> ordered (list_insert k v l).
Proof.
  intros Ho. unfold list_insert. apply ordered_app.
  split_and!; [by apply ordered_filter..| |]; intros y [Hy _]%list_elem_of_filter; done.
Qed.

Lemma ordered_keys l : ordered l -> NoDup l.*1.
Proof.
  induction 1 as [|x l _ IH Hx]; simpl; [constructor|]. constructor; [|done].
  rewrite list_elem_of_fmap. intros (y & Hxy & Hy). rewrite Forall_forall in Hx. specialize (Hx y Hy).
  unfold key_lt in Hx. lia.
Qed.

Definition to_map (l : list (Z * Z)) : gmap Z Z := list_to_map l.

Lemma to_map_elem l k v : ordered l -> to_map l !! k = Some v <-> (k, v) ∈ l.
Proof. intros Ho. symmetry. apply elem_of_list_to_map. by apply ordered_keys. Qed.

Lemma to_map_insert k v l : ordered l -> to_map (list_insert k v l) = <[k := v]> (to_map l).
Proof.
  intros Ho. apply map_eq. intros i. apply option_eq. intros w.
  rewrite to_map_elem by (by apply list_insert_ordered). unfold list_insert.
  rewrite elem_of_app, elem_of_cons, !list_elem_of_filter. simpl.
  destruct (decide (i = k)) as [->|].
  - rewrite lookup_insert_eq. split; [|intros [= ->]; auto]. intros [[? _]|[[= ->]|[? _]]]; [lia|done|lia].
  - rewrite lookup_insert_ne, to_map_elem by done. split; [intros [[_ ?]|[[= ? ?]|[_ ?]]]; done|].
    intros ?. destruct (decide (i < k)); [auto|]. right. right. split; [lia|done].
Qed.

Lemma to_map_remove k l : ordered l -> to_map (list_remove k l) = delete k (to_map l).
Proof.
  intros Ho. apply map_eq. intros i. apply option_eq. intros w.
  rewrite to_map_elem by (by apply ordered_filter). unfold list_remove.
  rewrite list_elem_of_filter, lookup_delete_Some, to_map_elem by done. simpl. split; intros [? ?]; auto.
Qed.

Lemma search_to_map t k : ordered (collect t) -> search t k = to_map (collect t) !! k.
Proof. intros Ho. apply option_eq. intros v. by rewrite search_elem, to_map_elem. Qed.

Record tree_wf (t : InodeTree) : Prop := {
  tw_avl : avl (root t);
  tw_ordered : ordered (collect (root t));
  tw_len : len t = Z.of_nat (size (to_map (collect (root t))))
}.

Lemma with_inserted_ok t i b :
  tree_wf t -> len t + 1 < 2 ^ 64 ->
  exists t', with_inserted t i b = Done t' /\ tree_wf t' /\
    to_map (entries t') = <[i := b]> (to_map (entries t)).
Proof.
  intros [Ha Ho Hn] Hlen. unfold with_inserted, entries.
  destruct (insert_avl (root t) i b Ha) as [Ha' _]. destruct (insert_collect (root t) i b Ho) as [Hc Hb].
  pose proof (list_insert_ordered i b _ Ho) as Ho'. pose proof (to_map_insert i b _ Ho) as Hm.
  rewrite (search_to_map _ _ Ho) in Hb. destruct (insert (root t) i b) as [r a]. simpl in *. rewrite <- Hc in *.
  destruct (to_map (collect (root t)) !! i) as [x|] eqn:E; subst a; simpl.
  - eexists. split; [reflexivity|]. split; [|done]. split; [done..|]. simpl.
    rewrite Hm, map_size_insert_Some by eauto. done.
  - rewrite add_uint_Done by lia. simpl. eexists. split; [reflexivity|]. split; [|done]. split; [done..|]. simpl.
    rewrite Hm, map_size_insert_None by done. lia.
Qed.

Lemma with_removed_ok t i :
  tree_wf t ->
  exists t', with_removed t i = Done t' /\ tree_wf t' /\
    to_map (entries t') = delete i (to_map (entries t)).
Proof.
  intros [Ha Ho Hn]. unfold with_removed, entries.
  destruct (remove_avl (root t) i Ha) as [Ha' _]. destruct (remove_collect (root t) i Ho) as [Hc Hb].
  pose proof (ordered_filter (fun x => x.1 <> i) _ Ho) as Ho'. pose proof (to_map_remove i _ Ho) as Hm.
  rewrite (search_to_map _ _ Ho) in Hb. unfold list_remove in *.
  destruct (remove (root t) i) as [r a]. simpl in *. rewrite <- Hc in *.
  destruct (to_map (collect (root t)) !! i) as [x|] eqn:E; subst a; simpl.
  - pose proof (map_size_delete_Some i (to_map (collect (root t))) ltac:(eauto)) as Hs.
    assert (0 < size (to_map (collect (root t))))%nat.
    { apply Nat.neq_0_lt_0. intros H0%map_size_empty_iff. by rewrite H0, lookup_empty in E. }
    rewrite sub_uint_Done by lia. simpl. eexists. split; [reflexivity|]. split; [|done]. split; [done..|]. simpl.
    rewrite Hm. lia.
  - eexists. split; [reflexivity|]. split; [|done]. split; [done..|]. simpl.
    rewrite Hm. by rewrite delete_id.
Qed.

Lemma avl_size t : avl t -> 2 ^ height t <= (Z.of_nat (length (collect t)) + 1) ^ 2.
Proof.
  induction t as [|k v h l IHl r IHr]; simpl; [lia|]. intros (Hl & Hr & -> & Hb).
  specialize (IHl Hl). specialize (IHr Hr). pose proof (avl_height_pos l Hl). pose proof (avl_height_pos r Hr).
  rewrite length_app. simpl.
  set (a := Z.of_nat (length (collect l)) + 1) in *. set (b := Z.of_nat (length (collect r)) + 1) in *.
  replace (Z.of_nat _ + 1) with (a + b) by (subst a b; lia).
  assert (0 < a /\ 0 < b) by (subst a b; lia).
  assert (Hp : forall x y, 0 <= x -> y <= x + 2 -> 2 ^ y <= 4 * 2 ^ x).
  { intros x y Hx Hy. replace (4 * 2 ^ x) with (2 ^ (x + 2)) by (rewrite Z.pow_add_r by lia; lia).
    apply Z.pow_le_mono_r; lia. }
  pose proof (Hp (height l) (1 + Z.max (height l) (height r)) ltac:(lia) ltac:(lia)).
  pose proof (Hp (height r) (1 + Z.max (height l) (height r)) ltac:(lia) ltac:(lia)).
  rewrite !Z.pow_2_r in *. destruct (Z.le_ge_cases a b); nia.
Qed.

Lemma length_to_map l : ordered l -> size (to_map l) = length l.
Proof.
  intros Ho. unfold to_map. rewrite <- length_map_to_list.
  by rewrite map_to_list_to_map by (by apply ordered_keys).
Qed.

(** A tree with fewer than [2 ^ 64] entries has height below 128. *)
Lemma tree_height_bound t : tree_wf t -> len t < 2 ^ 64 -> 0 <= height (root t) <= 128.
Proof.
  intros [Ha Ho Hn] Hlen. split; [by apply avl_height_pos|].
  pose proof (avl_size _ Ha) as H. rewrite length_to_map in Hn by done.
  apply (Z.pow_le_mono_r_iff 2); [lia..|]. etrans; [exact H|]. rewrite <- Hn.
  change (2 ^ 128) with ((2 ^ 64) ^ 2). apply Z.pow_le_mono_l. lia.
Qed.

(** ** Refinement *)

Inductive tree_op : Type := OpInsert (inode block : Z) | OpRemove (inode : Z).

Definition apply_op (t : InodeTree) (o : tree_op) : exec InodeTree :=
  match o with OpInsert i b => with_inserted t i b | OpRemove i => with_removed t i end.

Fixpoint run_ops (ops : list tree_op) (t : InodeTree) : exec InodeTree :=
  match ops with [] => Done t | o :: ops => t' ← apply_op t o; run_ops ops t' end.

Definition spec_op (m : gmap Z Z) (o : tree_op) : gmap Z Z :=
  match o with OpInsert i b => <[i := b]> m | OpRemove i => delete i m end.

Lemma run_ops_ok ops t :
  tree_wf t -> len t + Z.of_nat (length ops) < 2 ^ 64 ->
  exists t', run_ops ops t = Done t' /\ tree_wf t' /\ len t' < 2 ^ 64 /\
    to_map (entries t') = foldl spec_op (to_map (entries t)) ops.
Proof.
  revert t. induction ops as [|o ops IH]; intros t Hwf Hlen; simpl in *.
  - exists t. split_and!; [done..|lia|done].
  - assert (exists t', apply_op t o = Done t' /\ tree_wf t' /\ len t' <= len t + 1 /\
      to_map (entries t') = spec_op (to_map (entries t)) o) as (t1 & -> & Hwf1 & Hl1 & Hm).
    { destruct o as [i b|i]; simpl.
      - destruct (with_inserted_ok t i b Hwf ltac:(lia)) as (t' & -> & Hwf' & Hm). exists t'.
        split_and!; [done..| |done]. rewrite (tw_len _ Hwf), (tw_len _ Hwf').
        unfold entries in Hm. rewrite Hm, map_size_insert. destruct (_ !! i); unfold id; lia.
      - destruct (with_removed_ok t i Hwf) as (t' & -> & Hwf' & Hm). exists t'.
        split_and!; [done..| |done]. rewrite (tw_len _ Hwf), (tw_len _ Hwf').
        unfold entries in Hm. rewrite Hm, map_size_delete. destruct (_ !! i); unfold id; lia. }
    simpl. destruct (IH t1 Hwf1 ltac:(lia)) as (t' & H1 & H2 & H3 & H4). exists t'.
    by rewrite H4, Hm.
Qed.

(** C26. The inode tree is a correct ordered map: any sequence of insertions
    and removals on the empty tree runs without panicking and leaves a tree
    whose lookups, length, membership and ascending entries are exactly those
    of the finite map the same operations build; and the tree stays balanced,
    its height [h] with [n] entries satisfying [2^h <= (n + 1)^2]. *)
Theorem inode_tree_refines (ops : list tree_op) :
  Z.of_nat (length ops) < 2 ^ 64 ->
  let m := foldl spec_op ∅ ops in
  exists t, run_ops ops tree_new = Done t /\
    (forall i, get t i = m !! i) /\ (forall i, contains t i = bool_decide (is_Some (m !! i))) /\
    len t = Z.of_nat (size m) /\ tree_is_empty t = bool_decide (m = ∅) /\
    StronglySorted Z.lt (entries t).*1 /\ (forall i b, (i, b) ∈ entries t <-> m !! i = Some b) /\
    2 ^ tree_height t <= (Z.of_nat (size m) + 1) ^ 2.
Proof.
  intros Hn m. assert (Hnew : tree_wf tree_new) by (split; [done|constructor|done]).
  destruct (run_ops_ok ops tree_new Hnew ltac:(simpl; lia)) as (t & Hrun & Hwf & Hlen & Hm).
  pose proof (tree_height_bound t Hwf Hlen) as Hh. destruct Hwf as [Ha Ho Hl].
  change (to_map (entries tree_new)) with (∅ : gmap Z Z) in Hm. fold m in Hm. unfold entries in *. rewrite Hm in Hl.
  assert (Hget : forall i, get t i = m !! i) by (intros i; unfold get; by rewrite search_to_map, Hm).
  exists t. split_and!; [done|done| |done| | | |].
  - intros i. unfold contains. rewrite Hget. by destruct (m !! i).
  - unfold tree_is_empty. rewrite Hl. case_bool_decide as E; [subst; by rewrite E|].
    apply Z.eqb_neq. intros H0. apply E. apply map_size_empty_iff. lia.
  - clear -Ho. induction Ho as [|x l _ IH Hx]; simpl; constructor; [done|].
    apply Forall_fmap. eapply Forall_impl; [exact Hx|]. done.
  - intros i b. by rewrite <- to_map_elem, Hm.
  - unfold tree_height. rewrite (proj2 (Z.leb_le _ _)), (proj2 (Z.ltb_lt _ _)) by lia. simpl.
    rewrite <- Hm, length_to_map by done. by apply avl_size.
Qed.

Lemma inode_tree_refines_witness :
  exists t, run_ops [OpInsert 3 30; OpInsert 1 10; OpInsert 2 20; OpRemove 3; OpInsert 2 21] tree_new = Done t /\
    get t 2 = Some 21 /\ get t 3 = None /\ len t = 2 /\ entries t = [(1, 10); (2, 21)].
Proof.
  destruct (inode_tree_refines [OpInsert 3 30; OpInsert 1 10; OpInsert 2 20; OpRemove 3; OpInsert 2 21])
    as (t & Hr & Hg & _ & Hl & _); [simpl; lia|].
  exists t. split; [exact Hr|]. split; [exact (Hg 2)|]. split; [exact (Hg 3)|]. split; [exact Hl|].
  vm_compute in Hr. by injection Hr as <-.
Defined.
