(* ===== verification/Superblock.v ===== *)
(** * Block devices and the dual superblock of the v3 filesystem

    [nexacore-fs/src/v3/{mod,blockdev,superblock}.rs].  A block device is an
    interface (the class [BlockDevice]); what its documentation promises of
    a device without I/O faults is the class [ReliableDevice], which
    [MemBlockDevice] implements.  [commit] and [mount] are proved against the
    interface.  BLAKE3's keyed hash is the parameter [keyed_hash]; only its
    output length is used. *)

From S2P Require Import Prelude.

Definition BLOCK_SIZE : Z := 4096.
Abbreviation Block := bytes.
Definition zero_block : Block := replicate (Z.to_nat BLOCK_SIZE) 0.

Inductive V3Error : Type :=
| BlockOutOfRange | Io | Corrupt | NoValidSuperblock | InvalidName | Overflow | Crypto.
#[export] Instance V3Error_eq_dec : EqDecision V3Error.
Proof. solve_decision. Defined.
Abbreviation V3Result := (result V3Error).

(** ** The device interface

    [read_block] fills its output argument only when it succeeds: the model
    returns the block. *)

Class BlockDevice (D : Type) := {
  block_count : D -> Z;
  read_block : Z -> D -> V3Result Block;
  write_block : Z -> Block -> D -> V3Result () * D;
  flush : D -> V3Result () * D;
  commit_root : Z -> D -> V3Result () * D;
  committed_generation : D -> Z
}.

(** A device in a good state [dev_ok] serves every block below its count:
    the trait's documented behaviour in the absence of I/O errors. *)
Class ReliableDevice (D : Type) `{BlockDevice D} := {
  dev_ok : D -> Prop;
  read_ok : forall d i, dev_ok d -> 0 <= i < block_count d ->
    exists b, read_block i d = Ok b /\ length b = Z.to_nat BLOCK_SIZE;
  read_out : forall d i, dev_ok d -> block_count d <= i -> read_block i d = Err BlockOutOfRange;
  write_ok : forall d i b, dev_ok d -> 0 <= i < block_count d -> length b = Z.to_nat BLOCK_SIZE ->
    exists d', write_block i b d = (Ok (), d') /\ dev_ok d' /\ block_count d' = block_count d /\
      committed_generation d' = committed_generation d /\
      read_block i d' = Ok b /\ (forall j, j <> i -> 0 <= j -> read_block j d' = read_block j d);
  flush_ok : forall d, dev_ok d ->
    exists d', flush d = (Ok (), d') /\ dev_ok d' /\ block_count d' = block_count d /\
      committed_generation d' = committed_generation d /\
      (forall j, 0 <= j -> read_block j d' = read_block j d);
  commit_root_ok : forall d g, dev_ok d ->
    exists d', commit_root g d = (Ok (), d') /\ dev_ok d' /\ block_count d' = block_count d /\
      committed_generation d' = g /\
      (forall j, 0 <= j -> read_block j d' = read_block j d)
}.

(** ** The in-memory device *)

Record MemBlockDevice := mkMem {
  blocks : bytes;
  count : Z;
  mem_committed : Z;
  flushes : Z
}.

(** [vec![0u8; len]] panics past [isize::MAX]. *)
Definition mem_new (block_count : Z) : exec MemBlockDevice :=
  let len := Z.min (uint_max 64) (block_count * BLOCK_SIZE) in
  if 2 ^ 63 - 1 <? len then Panic
  else Done (mkMem (replicate (Z.to_nat len) 0) block_count 0 0).

Definition span (index : Z) (d : MemBlockDevice) : option Z :=
  if count d <=? index then None
  else
    start ← checked_mul 64 index BLOCK_SIZE;
    end_ ← checked_add 64 start BLOCK_SIZE;
    if end_ <=? Z.of_nat (length (blocks d)) then Some start else None.

Definition mem_read_block (index : Z) (d : MemBlockDevice) : V3Result Block :=
  match span index d with
  | None => Err BlockOutOfRange
  | Some start => ok_or (get_range (blocks d) start BLOCK_SIZE) Io
  end.

Definition mem_write_block (index : Z) (data : Block) (d : MemBlockDevice) : V3Result () * MemBlockDevice :=
  match span index d with
  | None => (Err BlockOutOfRange, d)
  | Some start =>
      match get_range (blocks d) start BLOCK_SIZE with
      | None => (Err Io, d)
      | Some _ => (Ok (), mkMem (put_range (blocks d) start data) (count d) (mem_committed d) (flushes d))
      end
  end.

Definition mem_flush (d : MemBlockDevice) : V3Result () * MemBlockDevice :=
  (Ok (), mkMem (blocks d) (count d) (mem_committed d) (saturating_add 64 (flushes d) 1)).

Definition mem_commit_root (generation : Z) (d : MemBlockDevice) : V3Result () * MemBlockDevice :=
  (Ok (), mkMem (blocks d) (count d) generation (flushes d)).

#[export] Instance MemBlockDevice_device : BlockDevice MemBlockDevice := {
  block_count := count;
  read_block := mem_read_block;
  write_block := mem_write_block;
  flush := mem_flush;
  commit_root := mem_commit_root;
  committed_generation := mem_committed
}.

(** The buffer has exactly the blocks the device counts. *)
Definition mem_ok (d : MemBlockDevice) : Prop :=
  0 <= count d /\ Z.of_nat (length (blocks d)) = count d * BLOCK_SIZE /\ count d * BLOCK_SIZE < 2 ^ 64.

Lemma mem_span d i : mem_ok d -> 0 <= i < count d -> span i d = Some (i * BLOCK_SIZE).
Proof.
  intros (H0 & Hl & Hm) Hi. unfold span, checked_mul, checked_add, BLOCK_SIZE in *.
  destruct (_ <=? i) eqn:E; zbool; [lia|].
  destruct (i * 4096 <? 2 ^ 64) eqn:E1; zbool; [|lia]. simpl.
  destruct (i * 4096 + 4096 <? 2 ^ 64) eqn:E2; zbool; [|lia]. simpl.
  destruct (_ <=? _) eqn:E3; zbool; [done|lia].
Qed.

Lemma mem_span_Some d i s : mem_ok d -> 0 <= i -> span i d = Some s -> i < count d /\ s = i * BLOCK_SIZE.
Proof.
  intros Hok Hi Hs. assert (i < count d).
  { unfold span in Hs. destruct (_ <=? i) eqn:E; zbool; [done|lia]. }
  rewrite mem_span in Hs by (done || lia). by simplify_eq.
Qed.

(** Exposes the operations of the in-memory device. *)
Ltac dev_simpl :=
  cbn [block_count read_block write_block flush commit_root committed_generation MemBlockDevice_device] in *.

#[export] Program Instance MemBlockDevice_reliable : ReliableDevice MemBlockDevice := {
  dev_ok := mem_ok
}.
Next Obligation.
  intros d i Hok Hi. dev_simpl. unfold mem_read_block. rewrite mem_span by done.
  destruct Hok as (H0 & Hl & Hm). unfold BLOCK_SIZE in *.
  destruct (get_range_Some (blocks d) (i * 4096) 4096 ltac:(nia)) as [b Hb].
  exists b. rewrite Hb. split; [done|]. apply get_range_length in Hb; lia.
Qed.
Next Obligation.
  intros d i Hok Hi. dev_simpl. unfold mem_read_block, span. by uint_ok.
Qed.
Next Obligation.
  intros d i b Hok Hi Hb. dev_simpl. unfold mem_write_block. rewrite mem_span by done.
  pose proof Hok as (H0 & Hl & Hm). unfold BLOCK_SIZE in *.
  destruct (get_range_Some (blocks d) (i * 4096) 4096 ltac:(nia)) as [b0 ->].
  set (d' := mkMem _ _ _ _). assert (Hok' : mem_ok d').
  { subst d'. split; [done|]. simpl. rewrite length_put_range by lia. done. }
  exists d'. split; [done|]. split; [exact Hok'|]. split; [done|]. split; [done|]. split.
  - unfold mem_read_block. rewrite mem_span by done. subst d'. cbn [blocks count].
    rewrite get_put_same; [done|unfold BLOCK_SIZE; lia|unfold BLOCK_SIZE; lia|unfold BLOCK_SIZE; nia].
  - intros j Hj Hj0. unfold mem_read_block.
    destruct (decide (j < count d)) as [Hlt|Hge].
    + rewrite !mem_span by (done || (subst d'; cbn [count]; lia)). subst d'. cbn [blocks count]. unfold BLOCK_SIZE.
      by rewrite get_put_other by (lia || nia).
    + assert (Hnone : forall x, mem_ok x -> count x = count d -> span j x = None).
      { intros x Hx Hc. destruct (span j x) eqn:E; [|done]. apply mem_span_Some in E; [lia|done|lia]. }
      by rewrite !Hnone.
Qed.
Next Obligation. intros d Hok. dev_simpl. eexists. split; [done|]. done. Qed.
Next Obligation. intros d g Hok. dev_simpl. eexists. split; [done|]. done. Qed.

(** ** The superblock record and its encoding *)

(** ["NCFSV3\0\0"]. *)
Definition MAGIC : bytes := [78; 67; 70; 83; 86; 51; 0; 0].
Definition VERSION : Z := 3.
Definition MAC_LEN : Z := 16.
Definition MAC_OFFSET : Z := BLOCK_SIZE - MAC_LEN.
Definition SLOT_A : Z := 0.
Definition SLOT_B : Z := 1.

Record SuperblockV3 := mkSb {
  generation : Z;
  total_blocks : Z;
  root_dir_inode : Z;
  merkle_root : bytes;
  key_epoch : Z;
  free_blocks : Z;
  inode_count : Z;
  alloc_map_block : Z;
  snapshot_table_block : Z
}.

Definition put_u32 (b : Block) (off v : Z) : Block := put_range b off (to_le 4 v).
Definition put_u64 (b : Block) (off v : Z) : Block := put_range b off (to_le 8 v).
Definition get_u32 (b : Block) (off : Z) : option Z := from_le <$> get_range b off 4.
Definition get_u64 (b : Block) (off : Z) : option Z := from_le <$> get_range b off 8.

Definition slot_for_generation (generation : Z) : Z := Z.land generation 1.

Section Superblock.
Context (keyed_hash : bytes -> bytes -> bytes).

Definition self_mac (b : Block) (key : bytes) : bytes :=
  take (Z.to_nat MAC_LEN) (keyed_hash key (default [] (get_range b 0 MAC_OFFSET))).

(** [SuperblockV3::encode]: the fields, then the self-MAC over them. *)
Definition encode_fields (sb : SuperblockV3) : Block :=
  let b := put_range zero_block 0 MAGIC in
  let b := put_u32 b 8 VERSION in
  let b := put_u32 b 12 BLOCK_SIZE in
  let b := put_u64 b 16 (generation sb) in
  let b := put_u64 b 24 (total_blocks sb) in
  let b := put_u64 b 32 (root_dir_inode sb) in
  let b := put_range b 40 (merkle_root sb) in
  let b := put_u64 b 72 (key_epoch sb) in
  let b := put_u64 b 80 (free_blocks sb) in
  let b := put_u64 b 88 (inode_count sb) in
  let b := put_u64 b 96 (alloc_map_block sb) in
  put_u64 b 104 (snapshot_table_block sb).

Definition encode (sb : SuperblockV3) (key : bytes) : Block :=
  let b := encode_fields sb in
  put_range b MAC_OFFSET (self_mac b key).

Definition decode (block : Block) (key : bytes) : V3Result SuperblockV3 :=
  if negb (bool_decide (get_range block 0 8 = Some MAGIC)) then Err Corrupt
  else if negb (bool_decide (get_u32 block 8 = Some VERSION)) then Err Corrupt
  else
    stored_mac ← ok_or (get_range block MAC_OFFSET MAC_LEN) Corrupt;
    if negb (bool_decide (stored_mac = self_mac block key)) then Err Corrupt
    else
      root ← ok_or (get_range block 40 32) Corrupt;
      generation ← ok_or (get_u64 block 16) Corrupt;
      total_blocks ← ok_or (get_u64 block 24) Corrupt;
      root_dir_inode ← ok_or (get_u64 block 32) Corrupt;
      key_epoch ← ok_or (get_u64 block 72) Corrupt;
      free_blocks ← ok_or (get_u64 block 80) Corrupt;
      inode_count ← ok_or (get_u64 block 88) Corrupt;
      alloc_map_block ← ok_or (get_u64 block 96) Corrupt;
      snapshot_table_block ← ok_or (get_u64 block 104) Corrupt;
      Ok (mkSb generation total_blocks root_dir_inode root key_epoch free_blocks inode_count
            alloc_map_block snapshot_table_block).

(** ** Commit and mount *)

Definition commit {D} `{BlockDevice D} (dev : D) (sb : SuperblockV3) (key : bytes) : V3Result () * D :=
  let slot := slot_for_generation (generation sb) in
  let block := encode sb key in
  match write_block slot block dev with
  | (Err e, dev) => (Err e, dev)
  | (Ok _, dev) =>
      match flush dev with
      | (Err e, dev) => (Err e, dev)
      | (Ok _, dev) => commit_root (generation sb) dev
      end
  end.

(** The loop over the slots, with the best candidate so far. *)
Fixpoint mount_slots {D} `{BlockDevice D} (dev : D) (key : bytes) (slots : list Z)
    (best : option SuperblockV3) : V3Result (option SuperblockV3) :=
  match slots with
  | [] => Ok best
  | slot :: rest =>
      block ← read_block slot dev;
      let best :=
        match decode block key with
        | Ok sb =>
            match best with
            | None => Some sb
            | Some b => if generation b <? generation sb then Some sb else best
            end
        | Err _ => best
        end in
      mount_slots dev key rest best
  end.

Definition mount {D} `{BlockDevice D} (dev : D) (key : bytes) : V3Result SuperblockV3 :=
  best ← mount_slots dev key [SLOT_A; SLOT_B] None;
  ok_or best NoValidSuperblock.

(** ** Round trip *)

(** The fields at their machine widths. *)
Record sb_ok (sb : SuperblockV3) : Prop := {
  so_generation : in_uint 64 (generation sb);
  so_total : in_uint 64 (total_blocks sb);
  so_root : in_uint 64 (root_dir_inode sb);
  so_merkle : length (merkle_root sb) = Z.to_nat 32;
  so_epoch : in_uint 64 (key_epoch sb);
  so_free : in_uint 64 (free_blocks sb);
  so_inodes : in_uint 64 (inode_count sb);
  so_alloc : in_uint 64 (alloc_map_block sb);
  so_snap : in_uint 64 (snapshot_table_block sb)
}.

Hypothesis keyed_hash_length : forall key m, length (keyed_hash key m) = 32%nat.

Lemma length_zero_block : Z.of_nat (length zero_block) = 4096.
Proof. unfold zero_block, BLOCK_SIZE. rewrite length_replicate. lia. Qed.

Lemma length_self_mac b key : Z.of_nat (length (self_mac b key)) = 16.
Proof. unfold self_mac, MAC_LEN. rewrite length_take, keyed_hash_length. lia. Qed.

Lemma length_encode_fields sb : Z.of_nat (length (encode_fields sb)) = 4096.
Proof.
  unfold encode_fields, put_u32, put_u64. cbv zeta. autorewrite with rlen. apply length_zero_block.
Qed.

(** Reading the fields back out of the encoded block. *)
Lemma encode_fields_get sb :
  sb_ok sb ->
  let b := encode_fields sb in
  get_range b 0 8 = Some MAGIC /\ get_range b 8 4 = Some (to_le 4 VERSION) /\
  get_range b 16 8 = Some (to_le 8 (generation sb)) /\ get_range b 24 8 = Some (to_le 8 (total_blocks sb)) /\
  get_range b 32 8 = Some (to_le 8 (root_dir_inode sb)) /\ get_range b 40 32 = Some (merkle_root sb) /\
  get_range b 72 8 = Some (to_le 8 (key_epoch sb)) /\ get_range b 80 8 = Some (to_le 8 (free_blocks sb)) /\
  get_range b 88 8 = Some (to_le 8 (inode_count sb)) /\ get_range b 96 8 = Some (to_le 8 (alloc_map_block sb)) /\
  get_range b 104 8 = Some (to_le 8 (snapshot_table_block sb)).
Proof.
  intros Hok b. pose proof (so_merkle _ Hok) as Hm. subst b. unfold encode_fields, put_u32, put_u64, zero_block, BLOCK_SIZE, MAGIC.
  cbv zeta. repeat match goal with |- _ /\ _ => split end; by ranges.
Qed.

Lemma decode_encode sb key : sb_ok sb -> decode (encode sb key) key = Ok sb.
Proof.
  intros Hok. pose proof (encode_fields_get sb Hok) as Hg. cbv zeta in Hg.
  pose proof (length_encode_fields sb) as Hlen. unfold encode. set (b := encode_fields sb) in *.
  assert (Hsame : forall off n, 0 <= off -> 0 <= n -> off + n <= MAC_OFFSET ->
    get_range (put_range b MAC_OFFSET (self_mac b key)) off n = get_range b off n).
  { intros off n H1 H2 H3. unfold MAC_OFFSET, MAC_LEN, BLOCK_SIZE in *. apply get_put_other; lia. }
  assert (Hmac : self_mac (put_range b MAC_OFFSET (self_mac b key)) key = self_mac b key).
  { unfold self_mac at 1. by rewrite Hsame by (unfold MAC_OFFSET, MAC_LEN, BLOCK_SIZE; lia). }
  destruct Hg as (G1 & G2 & G3 & G4 & G5 & G6 & G7 & G8 & G9 & G10 & G11).
  unfold decode, get_u32, get_u64. rewrite Hmac.
  rewrite !Hsame by (unfold MAC_OFFSET, MAC_LEN, BLOCK_SIZE; lia).
  rewrite get_put_same by (rewrite ?length_self_mac, ?Hlen; unfold MAC_OFFSET, MAC_LEN, BLOCK_SIZE; lia).
  rewrite G1, G2, G3, G4, G5, G6, G7, G8, G9, G10, G11.
  destruct Hok as []. cbn [fmap option_fmap option_map ok_or mbind result_bind].
  rewrite !bool_decide_eq_true_2 by done. cbn [negb].
  rewrite !(from_to_le 8) by done. by destruct sb.
Qed.

(** ** Atomic commit *)

Context {D : Type} `{ReliableDevice D}.

(** What [mount] computes from the contents of the two slots. *)
Definition select (a b : V3Result SuperblockV3) : V3Result SuperblockV3 :=
  match a, b with
  | Ok x, Ok y => Ok (if generation x <? generation y then y else x)
  | Ok x, Err _ => Ok x
  | Err _, Ok y => Ok y
  | Err _, Err _ => Err NoValidSuperblock
  end.

Lemma mount_select dev key ba bb :
  read_block SLOT_A dev = Ok ba -> read_block SLOT_B dev = Ok bb ->
  mount dev key = select (decode ba key) (decode bb key).
Proof.
  intros Ha Hb. unfold mount. cbn [mount_slots mbind result_bind]. rewrite Ha. cbn [mbind result_bind].
  rewrite Hb. cbn [mbind result_bind].
  destruct (decode ba key) as [x|], (decode bb key) as [y|]; try done. simpl. by destruct (_ <? _).
Qed.

Lemma slot_parity g : 0 <= g -> slot_for_generation g = g mod 2.
Proof. intros. unfold slot_for_generation. change 1 with (Z.ones 1). rewrite Z.land_ones by lia. done. Qed.

Definition older (a : V3Result SuperblockV3) (g : Z) : Prop :=
  match a with Ok x => generation x < g | Err _ => True end.

(** [sb] is the live superblock of [dev]: its slot authenticates to it and
    the other slot holds nothing newer. *)
Definition volume_at (dev : D) (key : bytes) (sb : SuperblockV3) : Prop :=
  dev_ok dev /\ 2 <= block_count dev /\ 0 <= generation sb /\
  exists cur other,
    read_block (slot_for_generation (generation sb)) dev = Ok cur /\ decode cur key = Ok sb /\
    read_block (1 - slot_for_generation (generation sb)) dev = Ok other /\
    older (decode other key) (generation sb).

(** The slot of a generation decides between two blocks. *)
Lemma mount_slot dev key g cur other sb :
  0 <= g -> read_block (slot_for_generation g) dev = Ok cur -> decode cur key = Ok sb ->
  read_block (1 - slot_for_generation g) dev = Ok other -> older (decode other key) (generation sb) ->
  mount dev key = Ok sb.
Proof.
  intros Hg Hcur Hd Hother Hold.
  assert (Hs : slot_for_generation g = 0 \/ slot_for_generation g = 1)
    by (rewrite slot_parity by done; pose proof (Z.mod_pos_bound g 2); lia).
  destruct Hs as [E|E]; rewrite E in *.
  - rewrite (mount_select dev key cur other) by done. rewrite Hd. destruct (decode other key); simpl in *; [|done].
    destruct (_ <? _) eqn:E2; zbool; [lia|done].
  - rewrite (mount_select dev key other cur) by done. rewrite Hd. destruct (decode other key); simpl in *; [|done].
    destruct (_ <? _) eqn:E2; zbool; [done|lia].
Qed.

Lemma volume_mount dev key sb : volume_at dev key sb -> mount dev key = Ok sb.
Proof. intros (_ & _ & Hg & cur & other & H1 & H2 & H3 & H4). by eapply mount_slot. Qed.

Lemma slot_succ g : 0 <= g -> slot_for_generation (g + 1) = 1 - slot_for_generation g.
Proof.
  intros Hg. rewrite !slot_parity by lia. pose proof (Z.mod_pos_bound g 2).
  pose proof (Z.div_mod g 2). pose proof (Z.mod_pos_bound (g + 1) 2). pose proof (Z.div_mod (g + 1) 2). lia.
Qed.

Lemma slot_range g : 0 <= g -> 0 <= slot_for_generation g < 2.
Proof. intros Hg. rewrite slot_parity by lia. apply Z.mod_pos_bound. lia. Qed.

Lemma encode_length sb key : length (encode sb key) = Z.to_nat BLOCK_SIZE.
Proof.
  unfold encode. rewrite length_put_range by (unfold MAC_OFFSET, MAC_LEN, BLOCK_SIZE; lia).
  pose proof (length_encode_fields sb). unfold BLOCK_SIZE. lia.
Qed.

(** What a commit does to a device, whatever it held. *)
Lemma commit_device dev sb key :
  dev_ok dev -> 2 <= block_count dev -> 0 <= generation sb ->
  exists dev', commit dev sb key = (Ok (), dev') /\ dev_ok dev' /\ block_count dev' = block_count dev /\
    committed_generation dev' = generation sb /\
    read_block (slot_for_generation (generation sb)) dev' = Ok (encode sb key) /\
    (forall j, j <> slot_for_generation (generation sb) -> 0 <= j -> read_block j dev' = read_block j dev).
Proof.
  intros Hok Hc Hg. pose proof (slot_range _ Hg) as Hs. unfold commit.
  set (slot := slot_for_generation (generation sb)) in *.
  destruct (write_ok dev slot (encode sb key) Hok ltac:(lia) (encode_length sb key))
    as (d1 & -> & Hok1 & Hc1 & _ & Hr1 & Ho1).
  destruct (flush_ok d1 Hok1) as (d2 & -> & Hok2 & Hc2 & _ & Hr2).
  destruct (commit_root_ok d2 (generation sb) Hok2) as (d3 & -> & Hok3 & Hc3 & Hg3 & Hr3).
  exists d3. split_and!; [done|done|lia|done| |].
  - by rewrite Hr3, Hr2 by lia.
  - intros j Hj Hj0. rewrite Hr3, Hr2 by lia. by apply Ho1.
Qed.

Lemma commit_volume dev key sb sb' :
  volume_at dev key sb -> sb_ok sb' -> generation sb' = generation sb + 1 ->
  exists dev', commit dev sb' key = (Ok (), dev') /\ volume_at dev' key sb' /\
    committed_generation dev' = generation sb' /\
    (forall j, 2 <= j -> read_block j dev' = read_block j dev).
Proof.
  intros (Hok & Hc & Hg & cur & other & H1 & H2 & H3 & H4) Hsb Hgen.
  destruct (commit_device dev sb' key Hok Hc ltac:(lia)) as (dev' & -> & Hok' & Hc' & Hg' & Hr & Hother).
  pose proof (slot_range _ Hg). pose proof (slot_succ _ Hg) as Hsl.
  exists dev'. split; [done|]. rewrite Hgen, Hsl in *. split; [|split; [done|]].
  - split; [done|]. split; [lia|]. split; [lia|]. exists (encode sb' key), cur. rewrite Hgen, Hsl.
    split; [done|]. split; [by apply decode_encode|].
    replace (1 - (1 - slot_for_generation (generation sb))) with (slot_for_generation (generation sb)) by lia.
    rewrite Hother by lia. split; [done|]. rewrite H2. simpl. lia.
  - intros j Hj. apply Hother; lia.
Qed.

(** A device that a crash left with [torn] in the slot being written. *)
Definition crashed_at (dev dev' : D) (slot : Z) (torn : Block) : Prop :=
  read_block slot dev' = Ok torn /\ forall j, j <> slot -> 0 <= j -> read_block j dev' = read_block j dev.

Lemma crash_mount dev dev' key sb sb' torn :
  volume_at dev key sb -> sb_ok sb' -> generation sb' = generation sb + 1 ->
  crashed_at dev dev' (slot_for_generation (generation sb')) torn ->
  (torn = encode sb' key -> mount dev' key = Ok sb') /\
  (older (decode torn key) (generation sb) \/
   read_block (slot_for_generation (generation sb')) dev = Ok torn -> mount dev' key = Ok sb).
Proof.
  intros (Hok & Hc & Hg & cur & other & H1 & H2 & H3 & H4) Hsb Hgen [Ht Hrest].
  pose proof (slot_range _ Hg). pose proof (slot_succ _ Hg) as Hsl. rewrite Hgen, Hsl in *.
  rewrite <- Hrest in H1 by lia. split.
  - intros ->. apply (mount_slot dev' key (generation sb') (encode sb' key) cur).
    + lia.
    + by rewrite Hgen, Hsl.
    + by apply decode_encode.
    + rewrite Hgen, Hsl.
      by replace (1 - (1 - slot_for_generation (generation sb))) with (slot_for_generation (generation sb)) by lia.
    + rewrite H2. simpl. lia.
  - intros Hor. apply (mount_slot dev' key (generation sb) cur torn); try done.
    destruct Hor as [?|Hold]; [done|]. rewrite H3 in Hold. by injection Hold as <-.
Qed.

End Superblock.

(** ** Claims *)

(** The superblock encoding is exact and authenticated: a superblock
    whose fields fit their widths decodes to itself under the key it was
    sealed with, and a block is accepted only if it carries the magic, the
    version and the self-MAC of its own first [MAC_OFFSET] bytes under that
    key. *)
Theorem superblock_codec (keyed_hash : bytes -> bytes -> bytes) (sb : SuperblockV3) (key : bytes) :
  (forall k m, length (keyed_hash k m) = 32%nat) -> sb_ok sb ->
  length (encode keyed_hash sb key) = Z.to_nat BLOCK_SIZE /\
  decode keyed_hash (encode keyed_hash sb key) key = Ok sb /\
  forall block sb', decode keyed_hash block key = Ok sb' ->
    get_range block 0 8 = Some MAGIC /\ get_u32 block 8 = Some VERSION /\
    get_range block MAC_OFFSET MAC_LEN = Some (self_mac keyed_hash block key) /\
    get_u64 block 16 = Some (generation sb').
Proof.
  intros Hh Hok. split; [by apply encode_length|]. split; [by apply decode_encode|].
  intros block sb' Hd. unfold decode in Hd.
  case_bool_decide as H1; [|done]. case_bool_decide as H2; [|done]. simpl in Hd.
  destruct (get_range block MAC_OFFSET MAC_LEN) as [m|]; [|done]. simpl in Hd.
  case_bool_decide as H3; [|done]. simpl in Hd. subst m.
  destruct (get_range block 40 32); [|done]. simpl in Hd. destruct (get_u64 block 16); [|done]. simpl in Hd.
  repeat (match type of Hd with context [ok_or ?o _] => destruct o; [|done]; simpl in Hd end).
  injection Hd as <-. by split_and!.
Qed.

(** C21. Committing a superblock is atomic. On a volume whose live superblock
    is [sb], a commit of the next generation succeeds, makes it the mounted
    one and leaves every block past the slots alone. If a crash leaves the
    target slot with other contents, mounting still succeeds: with the new
    superblock when the slot was fully written, and with [sb] when it holds
    its old block or one that does not authenticate or is of an older
    generation. *)
Theorem commit_crash_atomic (keyed_hash : bytes -> bytes -> bytes) {D} `{ReliableDevice D}
    (dev : D) (key : bytes) (sb sb' : SuperblockV3) :
  (forall k m, length (keyed_hash k m) = 32%nat) ->
  volume_at keyed_hash dev key sb -> sb_ok sb' -> generation sb' = generation sb + 1 ->
  let slot := slot_for_generation (generation sb') in
  mount keyed_hash dev key = Ok sb /\
  (exists dev', commit keyed_hash dev sb' key = (Ok (), dev') /\ mount keyed_hash dev' key = Ok sb' /\
     volume_at keyed_hash dev' key sb' /\ committed_generation dev' = generation sb' /\
     forall j, 2 <= j -> read_block j dev' = read_block j dev) /\
  forall dev' torn, crashed_at dev dev' slot torn ->
    (torn = encode keyed_hash sb' key -> mount keyed_hash dev' key = Ok sb') /\
    (older (decode keyed_hash torn key) (generation sb) \/ read_block slot dev = Ok torn ->
     mount keyed_hash dev' key = Ok sb).
Proof.
  intros Hh Hv Hok Hgen slot. split; [by apply (volume_mount keyed_hash)|]. split.
  - destruct (commit_volume keyed_hash Hh dev key sb sb' Hv Hok Hgen) as (dev' & H1 & H2 & H3 & H4).
    exists dev'. split; [done|]. split; [by apply (volume_mount keyed_hash)|]. done.
  - intros dev' torn Hc. by apply (crash_mount keyed_hash Hh dev dev' key sb sb' torn).
Qed.

(** A keyed checksum and a two-block volume at generation 1. *)
Definition checksum (key m : bytes) : bytes := replicate 32 ((foldl Z.add 0 key + foldl Z.add 0 m) mod 256).
Definition demo_sb (g : Z) : SuperblockV3 := mkSb g 2 1 (replicate 32 7) 0 0 1 2 0.
Definition demo_dev : MemBlockDevice := mkMem (zero_block ++ encode checksum (demo_sb 1) [9]) 2 1 0.

Lemma demo_sb_ok g : 0 <= g < 2 ^ 64 -> sb_ok (demo_sb g).
Proof. intros Hg. by split. Qed.

Lemma superblock_codec_witness :
  decode checksum (encode checksum (demo_sb 5) [1; 2]) [1; 2] = Ok (demo_sb 5) /\
  decode checksum (encode checksum (demo_sb 5) [1; 2]) [1; 3] = Err Corrupt.
Proof.
  split; [|by vm_compute].
  destruct (superblock_codec checksum (demo_sb 5) [1; 2]) as (_ & H & _); [done|by apply demo_sb_ok|exact H].
Defined.

Lemma demo_volume : volume_at checksum demo_dev [9] (demo_sb 1).
Proof.
  split; [by vm_compute|]. split; [done|]. split; [done|].
  exists (encode checksum (demo_sb 1) [9]), zero_block. split; [by vm_compute|]. split; [by vm_compute|].
  split; [by vm_compute|]. by vm_compute.
Qed.

Lemma commit_crash_atomic_witness :
  exists dev', commit checksum demo_dev (demo_sb 2) [9] = (Ok (), dev') /\
    mount checksum dev' [9] = Ok (demo_sb 2) /\ mount checksum demo_dev [9] = Ok (demo_sb 1).
Proof.
  destruct (commit_crash_atomic checksum demo_dev [9] (demo_sb 1) (demo_sb 2))
    as (H1 & (dev' & H2 & H3 & _) & _); [done|exact demo_volume|by apply demo_sb_ok|done|].
  exists dev'. split; [exact H2|]. split; [exact H3|exact H1].
Defined.
