(* ===== verification/BlockCache.v ===== *)
(** * The write-back block cache and freed-block retention of the v3 filesystem

    [nexacore-fs/src/v3/cache.rs] over any [BlockDevice].  The [BTreeMap] of
    entries is a [gmap] iterated in key order, the dirty [BTreeSet] a [gset].
    The eviction loop removes one entry per round, so the number of resident
    entries is enough fuel for it ([evict_size]). *)

From S2P Require Import Prelude Superblock.

Record CacheEntry := mkEntry { data : Block; dirty : bool; last_used : Z }.

Section Cache.
Context {D : Type} `{BlockDevice D}.

Record BlockCache := mkCache {
  dev : D;
  entries : gmap Z CacheEntry;
  dirty_set : gset Z;
  capacity : Z;
  clock : Z
}.

Definition cache_new (d : D) (cap : Z) : BlockCache := mkCache d ∅ ∅ (Z.max cap 1) 0.

Definition is_cached (index : Z) (c : BlockCache) : bool := bool_decide (is_Some (entries c !! index)).
Definition is_dirty (index : Z) (c : BlockCache) : bool := bool_decide (index ∈ dirty_set c).

(** [self.dirty.iter().copied().collect()]: ascending. *)
Definition dirty_blocks (c : BlockCache) : list Z := merge_sort Z.le (elements (dirty_set c)).

Definition tick (c : BlockCache) : Z * BlockCache :=
  let now := saturating_add 64 (clock c) 1 in
  (now, mkCache (dev c) (entries c) (dirty_set c) (capacity c) now).

Definition with_entries (c : BlockCache) (m : gmap Z CacheEntry) : BlockCache :=
  mkCache (dev c) m (dirty_set c) (capacity c) (clock c).
Definition with_dirty (c : BlockCache) (s : gset Z) : BlockCache :=
  mkCache (dev c) (entries c) s (capacity c) (clock c).
Definition with_dev (c : BlockCache) (d : D) : BlockCache :=
  mkCache d (entries c) (dirty_set c) (capacity c) (clock c).

(** [iter().min_by_key(last_used)], which keeps the first of equal minima. *)
Fixpoint min_by_last_used (l : list (Z * CacheEntry)) (best : option (Z * CacheEntry)) :
    option (Z * CacheEntry) :=
  match l with
  | [] => best
  | x :: l =>
      min_by_last_used l
        (match best with
         | None => Some x
         | Some b => if last_used x.2 <? last_used b.2 then Some x else best
         end)
  end.

Definition victim (protect : Z) (c : BlockCache) : option Z :=
  fst <$> min_by_last_used (filter (fun x => x.1 <> protect) (btree_iter (entries c))) None.

(** The body of the eviction loop for a chosen victim. *)
Definition evict_one (v : Z) (c : BlockCache) : V3Result () * BlockCache :=
  match entries c !! v with
  | None => (Ok (), c)
  | Some entry =>
      let c := with_entries c (delete v (entries c)) in
      if dirty entry then
        match write_block v (data entry) (dev c) with
        | (Err e, d) => (Err e, with_dev c d)
        | (Ok _, d) => (Ok (), with_dirty (with_dev c d) (dirty_set c ∖ {[v]}))
        end
      else (Ok (), c)
  end.

Fixpoint evict_loop (fuel : nat) (protect : Z) (c : BlockCache) : V3Result () * BlockCache :=
  match fuel with
  | O => (Ok (), c)
  | S fuel =>
      if capacity c <? Z.of_nat (size (entries c)) then
        match victim protect c with
        | None => (Ok (), c)
        | Some v =>
            match evict_one v c with
            | (Err e, c) => (Err e, c)
            | (Ok _, c) => evict_loop fuel protect c
            end
        end
      else (Ok (), c)
  end.

Definition evict_to_capacity (protect : Z) (c : BlockCache) : V3Result () * BlockCache :=
  evict_loop (size (entries c)) protect c.

Definition read (index : Z) (c : BlockCache) : V3Result Block * BlockCache :=
  let '(now, c) := tick c in
  match entries c !! index with
  | Some entry =>
      (Ok (data entry), with_entries c (<[index := mkEntry (data entry) (dirty entry) now]> (entries c)))
  | None =>
      match read_block index (dev c) with
      | Err e => (Err e, c)
      | Ok b =>
          match evict_to_capacity index (with_entries c (<[index := mkEntry b false now]> (entries c))) with
          | (Err e, c) => (Err e, c)
          | (Ok _, c) => (Ok b, c)
          end
      end
  end.

Definition write (index : Z) (b : Block) (c : BlockCache) : V3Result () * BlockCache :=
  if block_count (dev c) <=? index then (Err BlockOutOfRange, c)
  else
    let '(now, c) := tick c in
    let c := with_entries c (<[index := mkEntry b true now]> (entries c)) in
    evict_to_capacity index (with_dirty c ({[index]} ∪ dirty_set c)).

Fixpoint writeback_loop (pending : list Z) (written : Z) (c : BlockCache) : V3Result Z * BlockCache :=
  match pending with
  | [] => (Ok written, c)
  | index :: rest =>
      let forget c := with_dirty c (dirty_set c ∖ {[index]}) in
      match entries c !! index with
      | Some entry =>
          if dirty entry then
            match write_block index (data entry) (dev c) with
            | (Err e, d) => (Err e, with_dev c d)
            | (Ok _, d) =>
                let c := with_entries (with_dev c d)
                           (<[index := mkEntry (data entry) false (last_used entry)]> (entries c)) in
                writeback_loop rest (saturating_add 64 written 1) (forget c)
            end
          else writeback_loop rest written (forget c)
      | None => writeback_loop rest written (forget c)
      end
  end.

Definition writeback (c : BlockCache) : V3Result Z * BlockCache := writeback_loop (dirty_blocks c) 0 c.

Definition sync (c : BlockCache) : V3Result Z * BlockCache :=
  match writeback c with
  | (Err e, c) => (Err e, c)
  | (Ok written, c) =>
      match flush (dev c) with
      | (Err e, d) => (Err e, with_dev c d)
      | (Ok _, d) => (Ok written, with_dev c d)
      end
  end.

Definition commit_superblock (keyed_hash : bytes -> bytes -> bytes) (sb : SuperblockV3) (key : bytes)
    (c : BlockCache) : V3Result () * BlockCache :=
  match writeback c with
  | (Err e, c) => (Err e, c)
  | (Ok _, c) =>
      match flush (dev c) with
      | (Err e, d) => (Err e, with_dev c d)
      | (Ok _, d) => let '(r, d) := commit keyed_hash d sb key in (r, with_dev c d)
      end
  end.

End Cache.
Arguments BlockCache D : clear implicits.

(** ** Freed-block retention *)

Record RetentionTracker := mkTracker { freed : gmap Z Z; retention : Z }.

Definition tracker_new (window : Z) : RetentionTracker := mkTracker ∅ (Z.max window 1).

Definition free_at (block generation : Z) (t : RetentionTracker) : RetentionTracker :=
  mkTracker (<[block := generation]> (freed t)) (retention t).

Definition is_reusable (block committed : Z) (t : RetentionTracker) : bool :=
  match freed t !! block with Some f => f <? committed | None => false end.

Definition reusable (committed : Z) (t : RetentionTracker) : list Z :=
  (filter (fun x => x.2 < committed) (btree_iter (freed t))).*1.

Definition is_trimmable (block committed : Z) (t : RetentionTracker) : bool :=
  match freed t !! block with Some f => saturating_add 64 f (retention t) <=? committed | None => false end.

Definition trimmable (committed : Z) (t : RetentionTracker) : list Z :=
  (filter (fun x => saturating_add 64 x.2 (retention t) <= committed) (btree_iter (freed t))).*1.

Definition release (block : Z) (t : RetentionTracker) : bool * RetentionTracker :=
  (bool_decide (is_Some (freed t !! block)), mkTracker (delete block (freed t)) (retention t)).

(** ** The cache is transparent *)

Section Transparent.
Context {D : Type} `{ReliableDevice D}.
Implicit Types c : BlockCache D.

(** The block a client sees at [i]. *)
Definition content c (i : Z) : V3Result Block :=
  match entries c !! i with Some e => Ok (data e) | None => read_block i (dev c) end.

(** Resident blocks are in range, a clean one is what the device holds, and
    the dirty queue lists exactly the dirty ones. *)
Record cache_pre c : Prop := {
  cp_dev : dev_ok (dev c);
  cp_cap : 1 <= capacity c;
  cp_entry : forall i e, entries c !! i = Some e ->
    0 <= i < block_count (dev c) /\ length (data e) = Z.to_nat BLOCK_SIZE /\
    (dirty e = false -> read_block i (dev c) = Ok (data e));
  cp_dirty : forall i, i ∈ dirty_set c <-> exists e, entries c !! i = Some e /\ dirty e = true
}.

Definition cache_wf c : Prop := cache_pre c /\ Z.of_nat (size (entries c)) <= capacity c.

(** Two caches that show a client the same device. *)
Definition same_view c c' : Prop :=
  capacity c' = capacity c /\ block_count (dev c') = block_count (dev c) /\
  forall i, 0 <= i -> content c' i = content c i.

Lemma same_view_refl c : same_view c c.
Proof. done. Qed.

Lemma same_view_trans c1 c2 c3 : same_view c1 c2 -> same_view c2 c3 -> same_view c1 c3.
Proof.
  intros (A1 & A2 & A3) (B1 & B2 & B3). split; [congruence|]. split; [congruence|].
  intros i Hi. by rewrite B3, A3.
Qed.

Lemma min_by_last_used_spec l best :
  match min_by_last_used l best with
  | Some x => x ∈ l \/ best = Some x
  | None => l = [] /\ best = None
  end.
Proof.
  revert best. induction l as [|x l IH]; intros best; simpl; [by destruct best; auto|].
  match goal with |- context [min_by_last_used l ?b] => specialize (IH b) end.
  destruct (min_by_last_used l _) as [y|].
  - destruct IH as [Hy|Hy]; [left; by right|]. destruct best as [b|]; [|injection Hy as <-; left; left].
    destruct (_ <? _); injection Hy as <-; [left; left|by right].
  - destruct IH as [_ Hy]. destruct best as [b|]; [destruct (_ <? _)|]; done.
Qed.

Lemma victim_Some p c v : victim p c = Some v -> v <> p /\ exists e, entries c !! v = Some e.
Proof.
  unfold victim. intros (x & Hx & ->)%fmap_Some.
  pose proof (min_by_last_used_spec (filter (fun x => x.1 <> p) (btree_iter (entries c))) None) as Hs.
  rewrite Hx in Hs. destruct Hs as [[Hne Hin]%list_elem_of_filter|]; [|done].
  destruct x as [k e]. apply elem_of_btree_iter in Hin. eauto.
Qed.

Lemma victim_None p c : victim p c = None -> (size (entries c) <= 1)%nat.
Proof.
  unfold victim. intros Hx%fmap_None.
  pose proof (min_by_last_used_spec (filter (fun x => x.1 <> p) (btree_iter (entries c))) None) as Hs.
  rewrite Hx in Hs. destruct Hs as [Hn _].
  assert (Hall : forall k e, entries c !! k = Some e -> k = p).
  { intros k e Hk. apply elem_of_btree_iter in Hk. destruct (decide (k = p)); [done|]. exfalso.
    apply (not_elem_of_nil (k, e)). rewrite <- Hn. by apply list_elem_of_filter. }
  destruct (entries c !! p) as [e|] eqn:Hp.
  - replace (entries c) with ({[p := e]} : gmap Z CacheEntry); [by rewrite map_size_singleton|].
    apply map_eq. intros i. destruct (decide (i = p)) as [->|]; [by rewrite lookup_singleton_eq|].
    rewrite lookup_singleton_ne by done. destruct (entries c !! i) eqn:E; [|done]. by apply Hall in E.
  - replace (entries c) with (∅ : gmap Z CacheEntry); [rewrite map_size_empty; lia|].
    apply map_eq. intros i. rewrite lookup_empty. destruct (entries c !! i) as [e|] eqn:E; [|done].
    pose proof (Hall _ _ E). congruence.
Qed.

(** Writing a resident block to the device changes nothing a client sees. *)
Lemma flush_entry c i e :
  cache_pre c -> entries c !! i = Some e ->
  exists d, write_block i (data e) (dev c) = (Ok (), d) /\ dev_ok d /\ block_count d = block_count (dev c) /\
    read_block i d = Ok (data e) /\ forall j, j <> i -> 0 <= j -> read_block j d = read_block j (dev c).
Proof.
  intros Hpre Hi. destruct (cp_entry _ Hpre i e Hi) as (Hr & Hl & _).
  destruct (write_ok (dev c) i (data e) (cp_dev _ Hpre) Hr Hl) as (d & H1 & H2 & H3 & _ & H4 & H5). eauto 10.
Qed.

Lemma evict_one_ok c v e :
  cache_pre c -> entries c !! v = Some e ->
  exists c', evict_one v c = (Ok (), c') /\ cache_pre c' /\ entries c' = delete v (entries c) /\ same_view c c'.
Proof.
  intros Hpre Hv. destruct (cp_entry _ Hpre v e Hv) as (Hr & Hl & Hclean). unfold evict_one. rewrite Hv. simpl.
  destruct (dirty e) eqn:Hd.
  - destruct (flush_entry c v e Hpre Hv) as (d & -> & Hok & Hc & Hrv & Hro). eexists. split; [reflexivity|].
    split; [split; simpl|split; [done|]].
    + done.
    + apply (cp_cap _ Hpre).
    + intros i x [Hne Hi]%lookup_delete_Some. destruct (cp_entry _ Hpre i x Hi) as (A1 & A2 & A3).
      rewrite Hc. split; [done|]. split; [done|]. intros. rewrite Hro by (done || lia). auto.
    + intros i. rewrite elem_of_difference, elem_of_singleton, (cp_dirty _ Hpre).
      split; [intros [(x & ? & ?) ?]|intros (x & [? ?]%lookup_delete_Some & ?)];
        [exists x; by rewrite lookup_delete_ne by done|eauto].
    + split; [done|]. split; [done|]. intros i Hi. unfold content. simpl.
      destruct (decide (i = v)) as [->|]; [by rewrite lookup_delete_eq, Hv|].
      rewrite lookup_delete_ne by done. destruct (entries c !! i); [done|]. by apply Hro.
  - eexists. split; [reflexivity|]. split; [split; simpl|split; [done|]].
    + apply (cp_dev _ Hpre).
    + apply (cp_cap _ Hpre).
    + intros i x [_ Hi]%lookup_delete_Some. by apply (cp_entry _ Hpre).
    + intros i. rewrite (cp_dirty _ Hpre). split; intros (x & Hx & ?).
      * exists x. rewrite lookup_delete_ne; [done|]. intros ->. congruence.
      * apply lookup_delete_Some in Hx as [_ ?]. eauto.
    + split; [done|]. split; [done|]. intros i Hi. unfold content. simpl.
      destruct (decide (i = v)) as [->|]; [rewrite lookup_delete_eq, Hv; by apply Hclean|].
      by rewrite lookup_delete_ne by done.
Qed.

Lemma evict_ok fuel p c :
  cache_pre c -> (size (entries c) <= fuel)%nat ->
  exists c', evict_loop fuel p c = (Ok (), c') /\ cache_wf c' /\ same_view c c' /\
    (forall e, entries c !! p = Some e -> entries c' !! p = Some e).
Proof.
  revert c. induction fuel as [|fuel IH]; intros c Hpre Hf; simpl.
  - exists c. pose proof (cp_cap _ Hpre). split_and!; [done|split; [done|lia]|apply same_view_refl|done].
  - destruct (_ <? _) eqn:E; zbool; [|exists c; split_and!; [done|split; [done|lia]|apply same_view_refl|done]].
    destruct (victim p c) as [v|] eqn:Hv.
    + destruct (victim_Some _ _ _ Hv) as [Hvp [e He]].
      destruct (evict_one_ok c v e Hpre He) as (c1 & -> & Hpre1 & He1 & Hv1).
      destruct (IH c1 Hpre1) as (c2 & Hc2 & Hwf2 & Hv2 & Hp2).
      { rewrite He1. pose proof (map_size_delete_Some v (entries c) ltac:(eauto)). lia. }
      exists c2. split_and!; [done|done|by eapply same_view_trans|].
      intros x Hx. apply Hp2. by rewrite He1, lookup_delete_ne.
    + apply victim_None in Hv. pose proof (cp_cap _ Hpre). lia.
Qed.

(** Only the recency stamps of a cache changed. *)
Lemma stamp_pre c now i e x :
  cache_pre c -> entries c !! i = Some e -> data x = data e -> dirty x = dirty e ->
  let c' := mkCache (dev c) (<[i := x]> (entries c)) (dirty_set c) (capacity c) now in
  cache_pre c' /\ same_view c c' /\ size (entries c') = size (entries c).
Proof.
  intros Hpre Hi Hd Hb c'. subst c'. split; [split; simpl|split].
  - apply (cp_dev _ Hpre).
  - apply (cp_cap _ Hpre).
  - intros j y. destruct (decide (j = i)) as [->|].
    + rewrite lookup_insert_eq. intros [= <-]. rewrite Hd, Hb. by apply (cp_entry _ Hpre).
    + rewrite lookup_insert_ne by done. apply (cp_entry _ Hpre).
  - intros j. rewrite (cp_dirty _ Hpre). destruct (decide (j = i)) as [->|].
    + rewrite lookup_insert_eq, Hi. split; intros (y & [= <-] & ?); eexists; (split; [done|congruence]).
    + by rewrite lookup_insert_ne by done.
  - split; [done|]. split; [done|]. intros j Hj. unfold content. simpl.
    destruct (decide (j = i)) as [->|]; [by rewrite lookup_insert_eq, Hi, Hd|by rewrite lookup_insert_ne].
  - simpl. by rewrite map_size_insert_Some by eauto.
Qed.

Lemma read_spec c i :
  cache_wf c -> 0 <= i ->
  exists c', read i c = (content c i, c') /\ cache_wf c' /\ same_view c c' /\
    (i < block_count (dev c) -> is_cached i c' = true).
Proof.
  intros [Hpre Hsz] Hi. unfold read, content. simpl. set (now := saturating_add _ _ _).
  destruct (entries c !! i) as [e|] eqn:He.
  - destruct (stamp_pre c now i e (mkEntry (data e) (dirty e) now) Hpre He eq_refl eq_refl) as (H1 & H2 & H3).
    eexists. split; [reflexivity|]. split; [split; [exact H1|]|].
    + simpl in *. rewrite H3. lia.
    + split; [exact H2|]. intros _. apply bool_decide_eq_true. simpl. rewrite lookup_insert_eq. eauto.
  - destruct (decide (i < block_count (dev c))) as [Hlt|Hge].
    + destruct (read_ok (dev c) i (cp_dev _ Hpre) ltac:(lia)) as (b & Hb & Hl). rewrite Hb.
      set (c1 := with_entries _ _). assert (Hpre1 : cache_pre c1).
      { subst c1. split; simpl; [apply (cp_dev _ Hpre)|apply (cp_cap _ Hpre)| |].
        - intros j y. destruct (decide (j = i)) as [->|].
          + rewrite lookup_insert_eq. intros [= <-]. simpl. done.
          + rewrite lookup_insert_ne by done. apply (cp_entry _ Hpre).
        - intros j. rewrite (cp_dirty _ Hpre). destruct (decide (j = i)) as [->|].
          + rewrite lookup_insert_eq, He. split; [by intros (? & ? & _)|by intros (? & [= <-] & ?)].
          + by rewrite lookup_insert_ne. }
      assert (Hv1 : same_view c c1).
      { split; [done|]. split; [done|]. intros j Hj. unfold content, c1. simpl.
        destruct (decide (j = i)) as [->|]; [by rewrite lookup_insert_eq, He|by rewrite lookup_insert_ne]. }
      destruct (evict_ok (size (entries c1)) i c1 Hpre1 ltac:(lia)) as (c2 & Hc2 & Hwf2 & Hv2 & Hp2).
      unfold evict_to_capacity. rewrite Hc2. exists c2. split_and!; [done|done|by eapply same_view_trans|].
      intros _. apply bool_decide_eq_true. erewrite Hp2; [eauto|]. subst c1. simpl. apply lookup_insert_eq.
    + rewrite read_out by (apply (cp_dev _ Hpre) || lia). eexists. split; [reflexivity|].
      split; [split; [split; simpl; apply Hpre|done]|]. split; [done|lia].
Qed.

Lemma write_spec c i b :
  cache_wf c -> 0 <= i < block_count (dev c) -> length b = Z.to_nat BLOCK_SIZE ->
  exists c', write i b c = (Ok (), c') /\ cache_wf c' /\ capacity c' = capacity c /\
    block_count (dev c') = block_count (dev c) /\ content c' i = Ok b /\
    (forall j, 0 <= j -> j <> i -> content c' j = content c j).
Proof.
  intros [Hpre Hsz] Hi Hb. unfold write. destruct (_ <=? _) eqn:E; zbool; [lia|]. simpl.
  set (c1 := with_dirty _ _). assert (Hpre1 : cache_pre c1).
  { subst c1. split; simpl; [apply (cp_dev _ Hpre)|apply (cp_cap _ Hpre)| |].
    - intros j y. destruct (decide (j = i)) as [->|].
      + rewrite lookup_insert_eq. by intros [= <-].
      + rewrite lookup_insert_ne by done. apply (cp_entry _ Hpre).
    - intros j. rewrite elem_of_union, elem_of_singleton, (cp_dirty _ Hpre). destruct (decide (j = i)) as [->|].
      + rewrite lookup_insert_eq. split; [|auto]. intros _. by eexists.
      + rewrite lookup_insert_ne by done. split; [intros [?|?]; done|auto]. }
  destruct (evict_ok (size (entries c1)) i c1 Hpre1 ltac:(lia)) as (c2 & Hc2 & Hwf2 & (Hcap & Hcnt & Hv2) & _).
  unfold evict_to_capacity. rewrite Hc2. exists c2. split_and!; [done|done|done|done| |].
  - rewrite Hv2 by lia. unfold content, c1. simpl. by rewrite lookup_insert_eq.
  - intros j Hj Hne. rewrite Hv2 by lia. unfold content, c1. simpl. by rewrite lookup_insert_ne.
Qed.

(** One round of the write-back loop cleans its block and changes no view. *)
Lemma writeback_one c i :
  cache_pre c ->
  exists c', (forall rest w, exists w', writeback_loop (i :: rest) w c = writeback_loop rest w' c') /\
    cache_pre c' /\ same_view c c' /\ size (entries c') = size (entries c) /\
    dirty_set c' = dirty_set c ∖ {[i]} /\
    (forall j, 0 <= j -> i <> j -> read_block j (dev c') = read_block j (dev c)).
Proof.
  intros Hpre. cbn [writeback_loop].
  assert (Hkeep : (forall e, entries c !! i = Some e -> dirty e = false) ->
    let c' := with_dirty c (dirty_set c ∖ {[i]}) in
    cache_pre c' /\ same_view c c' /\ size (entries c') = size (entries c) /\
    dirty_set c' = dirty_set c ∖ {[i]} /\ (forall j, 0 <= j -> i <> j -> read_block j (dev c') = read_block j (dev c))).
  { intros Hcl c'. split; [split; simpl; try apply Hpre|done].
    intros j. rewrite elem_of_difference, elem_of_singleton, (cp_dirty _ Hpre).
    split; [by intros [? _]|]. intros (e & He & Hd). split; [eauto|]. intros ->. rewrite (Hcl e He) in Hd. done. }
  destruct (entries c !! i) as [e|] eqn:He.
  - destruct (dirty e) eqn:Hd; [|eexists; split; [by eexists|]; apply Hkeep; congruence]. clear Hkeep.
    destruct (flush_entry c i e Hpre He) as (d & -> & Hok & Hcnt & Hri & Hro).
    eexists. split; [by eexists|]. split; [split; simpl|].
    + done.
    + apply (cp_cap _ Hpre).
    + rewrite Hcnt. intros j y. destruct (decide (j = i)) as [->|].
      * rewrite lookup_insert_eq. intros [= <-]. simpl. destruct (cp_entry _ Hpre i e He) as (? & ? & _). done.
      * rewrite lookup_insert_ne by done. intros Hj. destruct (cp_entry _ Hpre j y Hj) as (? & ? & ?).
        rewrite Hro by (done || lia). done.
    + intros j. rewrite elem_of_difference, elem_of_singleton, (cp_dirty _ Hpre). destruct (decide (j = i)) as [->|].
      * rewrite lookup_insert_eq. split; [by intros [_ []]|]. by intros (? & [= <-] & ?).
      * rewrite lookup_insert_ne by done. split; [by intros [? _]|auto].
    + split_and!; simpl; [|by rewrite map_size_insert_Some by eauto|done|intros j ? ?; by apply Hro].
      split; [done|]. split; [done|]. intros j Hj. unfold content. simpl.
      destruct (decide (j = i)) as [->|]; [by rewrite lookup_insert_eq, He|].
      rewrite lookup_insert_ne by done. destruct (entries c !! j); [done|]. by apply Hro.
  - eexists. split; [by eexists|]. apply Hkeep. congruence.
Qed.

Lemma writeback_loop_ok pending w c :
  cache_pre c ->
  exists n c', writeback_loop pending w c = (Ok n, c') /\ cache_pre c' /\ same_view c c' /\
    size (entries c') = size (entries c) /\ dirty_set c' = dirty_set c ∖ list_to_set pending /\
    (forall j, 0 <= j -> j ∉ pending -> read_block j (dev c') = read_block j (dev c)).
Proof.
  revert w c. induction pending as [|i rest IH]; intros w c Hpre.
  - exists w, c. split_and!; [done|done|done|done|set_solver|done].
  - destruct (writeback_one c i Hpre) as (c1 & Hstep & Hpre1 & Hv1 & Hs1 & Hd1 & Hr1).
    destruct (Hstep rest w) as [w' ->]. destruct (IH w' c1 Hpre1) as (n & c2 & -> & Hpre2 & Hv2 & Hs2 & Hd2 & Hr2).
    exists n, c2. split_and!; [done|done|by eapply same_view_trans|congruence| |].
    + rewrite Hd2, Hd1. set_solver.
    + intros j Hj Hn. rewrite not_elem_of_cons in Hn. rewrite Hr2 by tauto. apply Hr1; naive_solver.
Qed.

(** After a write-back the queue is empty and the device holds every block a
    client sees; blocks that were not dirty are not touched. *)
Lemma writeback_ok c :
  cache_wf c ->
  exists n c', writeback c = (Ok n, c') /\ cache_wf c' /\ same_view c c' /\ dirty_set c' = ∅ /\
    (forall i, 0 <= i -> read_block i (dev c') = content c i) /\
    (forall i, 0 <= i -> i ∉ dirty_set c -> read_block i (dev c') = read_block i (dev c)).
Proof.
  intros [Hpre Hsz]. unfold writeback.
  destruct (writeback_loop_ok (dirty_blocks c) 0 c Hpre) as (n & c' & -> & Hpre' & Hv & Hs & Hd & Hr).
  assert (Hin : forall i, i ∈ dirty_blocks c <-> i ∈ dirty_set c).
  { intros i. unfold dirty_blocks. by rewrite merge_sort_Permutation, elem_of_elements. }
  assert (Hempty : dirty_set c' = ∅).
  { rewrite Hd. apply set_eq. intros i. rewrite elem_of_difference, elem_of_list_to_set, Hin. set_solver. }
  exists n, c'. split_and!; [done|split; [done|]|done|done| |].
  - destruct Hv as (-> & _). lia.
  - intros i Hi. destruct Hv as (_ & _ & Hv). rewrite <- Hv by done. unfold content.
    destruct (entries c' !! i) as [e|] eqn:He; [|done]. apply (cp_entry _ Hpre' i e He).
    destruct (dirty e) eqn:Hde; [|done]. exfalso. assert (i ∈ dirty_set c') by (apply (cp_dirty _ Hpre'); eauto).
    rewrite Hempty in *. set_solver.
  - intros i Hi Hn. apply Hr; [done|]. by rewrite Hin.
Qed.

Lemma with_dev_view c d :
  cache_wf c -> dev_ok d -> block_count d = block_count (dev c) ->
  (forall j, 0 <= j -> read_block j d = read_block j (dev c)) ->
  cache_wf (with_dev c d) /\ same_view c (with_dev c d).
Proof.
  intros [Hpre Hsz] Hok Hc Hr. split; [split; [split; simpl|done]|].
  - done.
  - apply (cp_cap _ Hpre).
  - rewrite Hc. intros i e He. destruct (cp_entry _ Hpre i e He) as (? & ? & ?). rewrite Hr by lia. done.
  - apply (cp_dirty _ Hpre).
  - split; [done|]. split; [done|]. intros i Hi. unfold content. simpl. destruct (_ !! i); [done|]. by apply Hr.
Qed.

Lemma sync_ok c :
  cache_wf c ->
  exists n c', sync c = (Ok n, c') /\ cache_wf c' /\ same_view c c' /\ dirty_set c' = ∅ /\
    (forall i, 0 <= i -> read_block i (dev c') = content c i) /\
    (forall i, 0 <= i -> i ∉ dirty_set c -> read_block i (dev c') = read_block i (dev c)).
Proof.
  intros Hwf. destruct (writeback_ok c Hwf) as (n & c1 & Hw & Hwf1 & Hv1 & Hd1 & Hr1 & Hu1).
  unfold sync. rewrite Hw. destruct (flush_ok (dev c1) (cp_dev _ (proj1 Hwf1))) as (d & -> & Hok & Hc & _ & Hr).
  destruct (with_dev_view c1 d Hwf1 Hok Hc Hr) as [Hwf2 Hv2].
  exists n, (with_dev c1 d). split_and!; [done|done|by eapply same_view_trans|done| |];
    intros i Hi; [|intros Hn]; simpl; rewrite Hr by done; auto.
Qed.

(** ** Sequences of operations *)

Inductive cache_op : Type :=
| CRead (index : Z) | CWrite (index : Z) (b : Block) | CWriteback | CSync.

Inductive cache_out : Type := OBlock (r : V3Result Block) | OUnit (r : V3Result ()).

Definition unit_result {A} (r : V3Result A) : V3Result () :=
  match r with Ok _ => Ok () | Err e => Err e end.

Definition cache_step (o : cache_op) c : cache_out * BlockCache D :=
  match o with
  | CRead i => let '(r, c) := read i c in (OBlock r, c)
  | CWrite i b => let '(r, c) := write i b c in (OUnit r, c)
  | CWriteback => let '(r, c) := writeback c in (OUnit (unit_result r), c)
  | CSync => let '(r, c) := sync c in (OUnit (unit_result r), c)
  end.

Fixpoint run_cache (ops : list cache_op) c : list cache_out * BlockCache D :=
  match ops with
  | [] => ([], c)
  | o :: ops => let '(r, c) := cache_step o c in let '(rs, c) := run_cache ops c in (r :: rs, c)
  end.

(** The reference: a disk of [n] blocks written through at once. *)
Definition disk_step (n : Z) (o : cache_op) (disk : Z -> V3Result Block) : cache_out * (Z -> V3Result Block) :=
  match o with
  | CRead i => (OBlock (disk i), disk)
  | CWrite i b =>
      if i <? n then (OUnit (Ok ()), fun j => if j =? i then Ok b else disk j)
      else (OUnit (Err BlockOutOfRange), disk)
  | CWriteback | CSync => (OUnit (Ok ()), disk)
  end.

Fixpoint run_disk (n : Z) (ops : list cache_op) (disk : Z -> V3Result Block) :
    list cache_out * (Z -> V3Result Block) :=
  match ops with
  | [] => ([], disk)
  | o :: ops => let '(r, disk) := disk_step n o disk in let '(rs, disk) := run_disk n ops disk in (r :: rs, disk)
  end.

Definition valid_op (o : cache_op) : Prop :=
  match o with
  | CRead i => 0 <= i
  | CWrite i b => 0 <= i /\ length b = Z.to_nat BLOCK_SIZE
  | _ => True
  end.

Lemma cache_step_ok o c n disk :
  cache_wf c -> block_count (dev c) = n -> (forall i, 0 <= i -> content c i = disk i) -> valid_op o ->
  exists c', cache_step o c = ((disk_step n o disk).1, c') /\ cache_wf c' /\ block_count (dev c') = n /\
    (forall i, 0 <= i -> content c' i = (disk_step n o disk).2 i).
Proof.
  intros Hwf Hn Hdisk Ho. destruct o as [i|i b| |]; simpl in *.
  - destruct (read_spec c i Hwf Ho) as (c' & -> & Hwf' & (_ & Hc & Hv) & _). rewrite Hdisk by done.
    exists c'. split_and!; [done|done|congruence|]. intros j Hj. by rewrite Hv, Hdisk.
  - destruct Ho as [Hi Hb]. destruct (i <? n) eqn:E; zbool.
    + destruct (write_spec c i b Hwf ltac:(lia) Hb) as (c' & -> & Hwf' & _ & Hc & Hsame & Hother).
      exists c'. split_and!; [done|done|congruence|]. intros j Hj. simpl.
      destruct (j =? i) eqn:E2; zbool; [by subst|]. by rewrite Hother, Hdisk.
    + exists c. unfold write. by rewrite Hn, (proj2 (Z.leb_le n i)) by lia.
  - destruct (writeback_ok c Hwf) as (k & c' & -> & Hwf' & (_ & Hc & Hv) & _). exists c'.
    split_and!; [done|done|congruence|]. intros j Hj. by rewrite Hv, Hdisk.
  - destruct (sync_ok c Hwf) as (k & c' & -> & Hwf' & (_ & Hc & Hv) & _). exists c'.
    split_and!; [done|done|congruence|]. intros j Hj. by rewrite Hv, Hdisk.
Qed.

Lemma run_cache_ok ops c n disk :
  cache_wf c -> block_count (dev c) = n -> (forall i, 0 <= i -> content c i = disk i) -> Forall valid_op ops ->
  exists c', run_cache ops c = ((run_disk n ops disk).1, c') /\ cache_wf c' /\
    (forall i, 0 <= i -> content c' i = (run_disk n ops disk).2 i).
Proof.
  revert c disk. induction ops as [|o ops IH]; intros c disk Hwf Hn Hd Hall; simpl; [by exists c|].
  apply Forall_cons in Hall as [Ho Hall].
  destruct (cache_step_ok o c n disk Hwf Hn Hd Ho) as (c1 & -> & Hwf1 & Hn1 & Hd1).
  destruct (disk_step n o disk) as [r disk1]. simpl in Hd1. destruct (IH c1 disk1 Hwf1 Hn1 Hd1 Hall) as (c2 & -> & Hwf2 & Hd2).
  destruct (run_disk n ops disk1) as [rs disk2]. simpl in *. by exists c2.
Qed.

Lemma cache_new_wf d cap : dev_ok d -> cache_wf (cache_new d cap) /\ forall i, content (cache_new d cap) i = read_block i d.
Proof.
  intros Hok. split; [|done]. split; [split; simpl|simpl; rewrite map_size_empty; lia].
  - done.
  - lia.
  - intros i e. by rewrite lookup_empty.
  - intros i. split; [set_solver|]. intros (e & He & _). by rewrite lookup_empty in He.
Qed.

End Transparent.

(** ** Claims *)

(** C24. The cache is invisible: over a device without faults, at any
    capacity, every sequence of reads, writes, write-backs and syncs gives
    the results a disk that applies each write at once gives (out-of-range
    accesses included), and a final sync leaves exactly that disk's blocks on
    the device with nothing dirty: no buffered write is lost to eviction. *)
Theorem cache_transparent {D} `{ReliableDevice D} (d : D) (cap : Z) (ops : list cache_op) :
  dev_ok d -> Forall valid_op ops ->
  let '(outs, disk) := run_disk (block_count d) ops (fun i => read_block i d) in
  exists c, run_cache ops (cache_new d cap) = (outs, c) /\
    Z.of_nat (size (entries c)) <= capacity c /\
    exists n c', sync c = (Ok n, c') /\ dirty_set c' = ∅ /\
      forall i, 0 <= i -> read_block i (dev c') = disk i.
Proof.
  intros Hok Hops. destruct (cache_new_wf d cap Hok) as [Hwf Hnew].
  destruct (run_cache_ok ops (cache_new d cap) (block_count d) (fun i => read_block i d) Hwf eq_refl
    (fun i _ => Hnew i) Hops) as (c & Hrun & Hwfc & Hc).
  destruct (run_disk _ ops _) as [outs disk]. simpl in *. exists c. split; [done|]. split; [apply Hwfc|].
  destruct (sync_ok c Hwfc) as (n & c' & Hs & _ & _ & Hd & Hr & _). exists n, c'. split_and!; [done|done|].
  intros i Hi. by rewrite Hr, Hc.
Qed.

(** C25. The commit barrier: committing through the cache first makes every
    buffered block durable, while the old superblock is still the mounted
    one, and only then publishes the new generation; afterwards the device
    mounts at the new superblock and holds every block the client saw.
    Superblock slots must not be dirty in the cache. *)
Theorem commit_barrier (keyed_hash : bytes -> bytes -> bytes) {D} `{ReliableDevice D}
    (c : BlockCache D) (key : bytes) (sb sb' : SuperblockV3) :
  (forall k m, length (keyed_hash k m) = 32%nat) ->
  cache_wf c -> SLOT_A ∉ dirty_set c -> SLOT_B ∉ dirty_set c ->
  volume_at keyed_hash (dev c) key sb -> sb_ok sb' -> generation sb' = generation sb + 1 ->
  exists n c1 c', sync c = (Ok n, c1) /\ mount keyed_hash (dev c1) key = Ok sb /\
    (forall i, 0 <= i -> read_block i (dev c1) = content c i) /\
    commit_superblock keyed_hash sb' key c = (Ok (), c') /\
    commit keyed_hash (dev c1) sb' key = (Ok (), dev c') /\
    mount keyed_hash (dev c') key = Ok sb' /\
    (forall i, 2 <= i -> read_block i (dev c') = content c i).
Proof.
  intros Hh Hwf Ha Hb Hvol Hsb Hgen.
  destruct (sync_ok c Hwf) as (n & c1 & Hs & Hwf1 & (_ & Hc1 & _) & _ & Hr1 & Hu1).
  assert (Hvol1 : volume_at keyed_hash (dev c1) key sb).
  { destruct Hvol as (_ & Hc & Hg & cur & other & H1 & H2 & H3 & H4). pose proof (slot_range _ Hg) as Hsl.
    assert (Hsame : forall s, 0 <= s < 2 -> read_block s (dev c1) = read_block s (dev c)).
    { intros s Hs2. apply Hu1; [lia|]. unfold SLOT_A, SLOT_B in *.
      assert (s = 0 \/ s = 1) as [-> | ->] by lia; done. }
    split; [apply (cp_dev _ (proj1 Hwf1))|]. split; [lia|]. split; [done|]. exists cur, other.
    rewrite !Hsame by lia. done. }
  destruct (commit_volume keyed_hash Hh (dev c1) key sb sb' Hvol1 Hsb Hgen) as (d' & Hcm & Hvol' & _ & Hr').
  exists n, c1, (with_dev c1 d'). split; [done|]. split; [by apply (volume_mount keyed_hash)|]. split; [done|].
  split; [|split; [done|split; [by apply (volume_mount keyed_hash)|]]].
  - unfold commit_superblock. unfold sync in Hs. destruct (writeback c) as [[w|] cw]; [|done].
    destruct (flush (dev cw)) as [[] dw]; [|done]. injection Hs as <- <-. simpl in Hcm. by rewrite Hcm.
  - intros i Hi. simpl. by rewrite Hr', Hr1 by lia.
Qed.

(** A write-back that fails during eviction loses the buffered block: the
    entry has already left the cache when the device reports the error, so
    the block reads as whatever the device holds, and the next write-back
    drops it from the queue without writing it. *)
Theorem evict_error_loses_write {D} `{BlockDevice D} (c : BlockCache D) (i j : Z) (e : CacheEntry) (b : Block)
    (err : V3Error) (d : D) :
  i <> j -> entries c = {[i := e]} -> dirty e = true -> dirty_set c = {[i]} -> capacity c = 1 ->
  j < block_count (dev c) -> write_block i (data e) (dev c) = (Err err, d) ->
  exists c', write j b c = (Err err, c') /\ dev c' = d /\ entries c' !! i = None /\ i ∈ dirty_set c' /\
    forall rest w, writeback_loop (i :: rest) w c' =
      writeback_loop rest w (with_dirty c' (dirty_set c' ∖ {[i]})).
Proof.
  intros Hij He Hd Hds Hcap Hj Hw. destruct c as [dv es ds cap ck]. simpl in He, Hds, Hcap, Hj, Hw. subst.
  unfold write. cbn [dev]. destruct (_ <=? _) eqn:E; zbool; [lia|]. simpl.
  assert (Hsz : size (<[j := mkEntry b true (saturating_add 64 ck 1)]> {[i := e]} : gmap Z CacheEntry) = 2%nat)
    by (by rewrite map_size_insert_None, map_size_singleton by (by rewrite lookup_singleton_ne)).
  unfold evict_to_capacity. simpl. rewrite Hsz. simpl. rewrite Hsz. simpl.
  match goal with |- context [victim j ?x] => set (c1 := x) end.
  assert (Hv : victim j c1 = Some i).
  { destruct (victim j c1) as [v|] eqn:Hv.
    - apply victim_Some in Hv as [Hvj [x Hx]]. unfold c1 in Hx. simpl in Hx.
      apply lookup_insert_Some in Hx as [[? _]|[_ [-> _]%lookup_singleton_Some]]; congruence.
    - apply victim_None in Hv. unfold c1 in Hv. simpl in Hv. lia. }
  rewrite Hv. unfold evict_one. unfold c1 at 1. simpl.
  rewrite lookup_insert_ne, lookup_singleton_eq, Hd, Hw by done. eexists. split; [reflexivity|]. simpl.
  split; [done|]. rewrite lookup_delete_eq. split; [done|]. split; [set_solver|done].
Qed.

(** Freed-block retention follows the commit generation: the listed
    reusable (trimmable) blocks are exactly, and without repetition, the
    tracked ones for which the query says so; a block freed at generation [g]
    is reusable only once a later generation has committed; and below the
    saturation bound a trimmable block is also reusable. *)
Theorem retention_sound (t : RetentionTracker) (committed : Z) :
  1 <= retention t ->
  (forall b, b ∈ reusable committed t <-> is_reusable b committed t = true) /\
  (forall b, b ∈ trimmable committed t <-> is_trimmable b committed t = true) /\
  NoDup (reusable committed t) /\ NoDup (trimmable committed t) /\
  (forall b g, g < committed <-> is_reusable b committed (free_at b g t) = true) /\
  (forall b g, freed t !! b = Some g -> g < uint_max 64 ->
     is_trimmable b committed t = true -> is_reusable b committed t = true).
Proof.
  intros Hw.
  assert (Hsub : forall (P : Z * Z -> Prop) `{!forall x, Decision (P x)},
    NoDup (filter P (btree_iter (freed t))).*1 /\
    forall b, b ∈ (filter P (btree_iter (freed t))).*1 <-> exists f, freed t !! b = Some f /\ P (b, f)).
  { intros P HP. split.
    - eapply sublist_NoDup; [apply (NoDup_btree_iter (freed t))|]. apply fmap_sublist. apply sublist_filter.
    - intros b. rewrite list_elem_of_fmap. split.
      + intros ([k f] & -> & [Hp Hin]%list_elem_of_filter). apply elem_of_btree_iter in Hin. eauto.
      + intros (f & Hf & Hp). exists (b, f). split; [done|]. apply list_elem_of_filter.
        by rewrite elem_of_btree_iter. }
  split_and!.
  - intros b. unfold reusable, is_reusable. rewrite (proj2 (Hsub _ _) b). simpl. split.
    + intros (f & -> & Hf). by apply Z.ltb_lt.
    + destruct (freed t !! b) as [f|]; [|done]. intros ?%Z.ltb_lt. eauto.
  - intros b. unfold trimmable, is_trimmable. rewrite (proj2 (Hsub _ _) b). simpl. split.
    + intros (f & -> & Hf). by apply Z.leb_le.
    + destruct (freed t !! b) as [f|]; [|done]. intros ?%Z.leb_le. eauto.
  - apply Hsub.
  - apply Hsub.
  - intros b g. unfold is_reusable, free_at. simpl. rewrite lookup_insert_eq. by rewrite Z.ltb_lt.
  - intros b g Hb Hg. unfold is_trimmable, is_reusable. rewrite Hb. intros H%Z.leb_le. apply Z.ltb_lt.
    unfold saturating_add, uint_max in *. lia.
Qed.

(** ** Witnesses *)

Definition demo_disk : MemBlockDevice := mkMem (replicate (Z.to_nat (3 * BLOCK_SIZE)) 0) 3 0 0.
Definition demo_block (v : Z) : Block := replicate (Z.to_nat BLOCK_SIZE) v.

Lemma demo_disk_ok : mem_ok demo_disk.
Proof. by vm_compute. Qed.

Lemma cache_transparent_witness :
  let ops := [CWrite 2 (demo_block 7); CWrite 0 (demo_block 8); CRead 2; CRead 5] in
  (run_cache ops (cache_new demo_disk 1)).1 =
    [OUnit (Ok ()); OUnit (Ok ()); OBlock (Ok (demo_block 7)); OBlock (Err BlockOutOfRange)].
Proof.
  intros ops. pose proof (cache_transparent demo_disk 1 ops demo_disk_ok) as H.
  assert (Hv : Forall valid_op ops) by (repeat constructor; vm_compute; done). specialize (H Hv).
  destruct (run_disk _ ops _) as [outs disk] eqn:E. destruct H as (c & -> & _).
  change outs with (outs, disk).1. rewrite <- E. reflexivity.
Defined.

(** The volume of [demo_dev] with room for data, and one buffered block. *)
Definition demo_volume_dev : MemBlockDevice :=
  mkMem (zero_block ++ encode checksum (demo_sb 1) [9] ++ zero_block) 3 1 0.
Lemma demo_volume_ok : dev_ok demo_volume_dev.
Proof. by vm_compute. Qed.
Definition demo_cache : BlockCache MemBlockDevice := (write 2 (demo_block 7) (cache_new demo_volume_dev 4)).2.

Lemma commit_barrier_witness :
  exists c', commit_superblock checksum (demo_sb 2) [9] demo_cache = (Ok (), c') /\
    mount checksum (dev c') [9] = Ok (demo_sb 2) /\ read_block 2 (dev c') = Ok (demo_block 7).
Proof.
  assert (Hwf : cache_wf demo_cache).
  { destruct (cache_new_wf demo_volume_dev 4 demo_volume_ok) as [Hwf _].
    destruct (write_spec (cache_new demo_volume_dev 4) 2 (demo_block 7) Hwf ltac:(done) ltac:(by vm_compute))
      as (c' & Hw & Hwf' & _).
    unfold demo_cache. rewrite Hw. exact Hwf'. }
  assert (Hds : dirty_set demo_cache = {[2]}) by (by vm_compute).
  destruct (commit_barrier checksum demo_cache [9] (demo_sb 1) (demo_sb 2))
    as (n & c1 & c' & _ & _ & _ & H1 & _ & H2 & H3); 
    [done|exact Hwf|rewrite Hds; unfold SLOT_A, SLOT_B; set_solver|rewrite Hds; unfold SLOT_A, SLOT_B; set_solver|
    |by apply demo_sb_ok|done|].
  - split; [by vm_compute|]. split; [done|]. split; [done|].
    exists (encode checksum (demo_sb 1) [9]), zero_block.
    split; [by vm_compute|]. split; [by vm_compute|]. split; by vm_compute.
  - exists c'. split; [exact H1|]. split; [exact H2|]. rewrite (H3 2) by lia. by vm_compute.
Defined.

(** A device whose writes fail. *)
#[local] Instance broken_device : BlockDevice MemBlockDevice := {
  block_count := count;
  read_block := mem_read_block;
  write_block := fun _ _ d => (Err Io, d);
  flush := mem_flush;
  commit_root := mem_commit_root;
  committed_generation := mem_committed
}.

Lemma evict_error_loses_write_witness :
  let c := mkCache demo_disk {[2 := mkEntry (demo_block 7) true 1]} {[2]} 1 1 in
  exists c', write 0 (demo_block 8) c = (Err Io, c') /\ entries c' !! 2 = None /\
    mem_read_block 2 (dev c') = Ok zero_block.
Proof.
  intros c. destruct (evict_error_loses_write c 2 0 (mkEntry (demo_block 7) true 1) (demo_block 8) Io demo_disk)
    as (c' & H1 & H2 & H3 & _); [done..|].
  exists c'. split; [exact H1|]. split; [exact H3|]. rewrite H2. by vm_compute.
Defined.

Lemma retention_sound_witness :
  let t := free_at 7 3 (free_at 9 1 (tracker_new 2)) in
  reusable 3 t = [9] /\ is_trimmable 9 3 t = true /\ is_reusable 9 3 t = true.
Proof.
  intros t. split; [by vm_compute|]. split; [by vm_compute|].
  destruct (retention_sound t 3) as (H & _); [by vm_compute|]. apply H. vm_compute. by left.
Defined.
