(* ===== verification/Merkle.v ===== *)
(** * The keyed Merkle integrity tree of the v3 filesystem

    [nexacore-fs/src/v3/merkle.rs].  BLAKE3's keyed hash is the parameter
    [keyed_hash]; feeding a hasher two parts is hashing their concatenation.
    The loops over levels halve the level each round, so its length is
    enough fuel ([root_loop_fuel]).  Security statements are reductions: a
    forged proof exhibits two inputs with the same hash. *)

From S2P Require Import Prelude.

Definition HASH_LEN : Z := 32.

(** [Hash::default()]. *)
Definition zero_hash : bytes := replicate 32 0.

(** [b"NCFS-v3-empty-merkle"]. *)
Definition EMPTY_TAG : bytes :=
  [78; 67; 70; 83; 45; 118; 51; 45; 101; 109; 112; 116; 121; 45; 109; 101; 114; 107; 108; 101].

Section Merkle.
Context (keyed_hash : bytes -> bytes -> bytes) (key : bytes).

Definition leaf_hash (block : bytes) : bytes := keyed_hash key block.
Definition node_hash (left right : bytes) : bytes := keyed_hash key (left ++ right).
Definition empty_root : bytes := keyed_hash key EMPTY_TAG.

(** [level.chunks(2)]: an odd last node is paired with itself. *)
Fixpoint fold_level (level : list bytes) : list bytes :=
  match level with
  | [] => []
  | [l] => [node_hash l l]
  | l :: r :: rest => node_hash l r :: fold_level rest
  end.

Fixpoint root_loop (fuel : nat) (level : list bytes) : list bytes :=
  match fuel with
  | O => level
  | S fuel => if bool_decide (1 < length level)%nat then root_loop fuel (fold_level level) else level
  end.

Definition merkle_root (leaves : list bytes) : bytes :=
  match leaves with
  | [] => empty_root
  | _ => default empty_root (head (root_loop (length leaves) leaves))
  end.

Definition root_over_blocks (blocks : list bytes) : bytes := merkle_root (leaf_hash <$> blocks).

Definition sibling (idx : nat) : nat := if Nat.even idx then S idx else pred idx.

Fixpoint proof_loop (fuel : nat) (idx : nat) (level : list bytes) : list bytes :=
  match fuel with
  | O => []
  | S fuel =>
      if bool_decide (1 < length level)%nat then
        let self_hash := default zero_hash (level !! idx) in
        let sib := default self_hash (level !! sibling idx) in
        sib :: proof_loop fuel (Nat.div2 idx) (fold_level level)
      else []
  end.

Definition merkle_proof (leaves : list bytes) (index : nat) : option (list bytes) :=
  if bool_decide (length leaves <= index)%nat then None
  else Some (proof_loop (length leaves) index leaves).

(** The fold of [verify_proof] over the siblings. *)
Fixpoint climb (proof : list bytes) (idx : nat) (h : bytes) : bytes :=
  match proof with
  | [] => h
  | sib :: proof =>
      climb proof (Nat.div2 idx) (if Nat.even idx then node_hash h sib else node_hash sib h)
  end.

Definition verify_proof (root leaf : bytes) (index : nat) (proof : list bytes) : bool :=
  bool_decide (climb proof index leaf = root).

(** ** One level *)

Lemma length_fold_level l : length (fold_level l) = Nat.div2 (S (length l)).
Proof. induction l as [| |y z l IH] using pair_ind; [done|done|]. cbn [fold_level length]. by rewrite IH. Qed.

Lemma fold_level_shorter l : (1 < length l)%nat -> (1 <= length (fold_level l) < length l)%nat.
Proof.
  rewrite length_fold_level, Nat.div2_div. intros Hl.
  pose proof (Nat.div_mod_eq (S (length l)) 2). pose proof (Nat.mod_upper_bound (S (length l)) 2). lia.
Qed.

(** The length is enough fuel to reach a single node, and more changes nothing. *)
Lemma root_loop_fuel n m l :
  (1 <= length l <= n)%nat -> (n <= m)%nat -> exists r, root_loop n l = [r] /\ root_loop m l = [r].
Proof.
  revert m l. induction n as [|n IH]; intros m l Hl Hm; [lia|]. destruct m as [|m]; [lia|]. simpl.
  case_bool_decide as Hn.
  - apply IH; [|lia]. pose proof (fold_level_shorter l Hn). lia.
  - destruct l as [|x [|y l]]; simpl in *; [lia|eauto|lia].
Qed.

(** The parent of a node is the hash of it and its sibling. *)
Lemma fold_level_lookup l i x :
  l !! i = Some x ->
  fold_level l !! Nat.div2 i =
    Some (if Nat.even i then node_hash x (default x (l !! sibling i))
          else node_hash (default x (l !! sibling i)) x).
Proof.
  revert i. induction l as [|y|y z l IH] using pair_ind; intros i Hi; [done| |].
  - destruct i as [|i]; [|done]. by injection Hi as ->.
  - destruct i as [|[|i]]; [by injection Hi as ->|by injection Hi as ->|].
    assert (Hs : (y :: z :: l) !! sibling (S (S i)) = l !! sibling i).
    { unfold sibling. cbn [Nat.even]. destruct (Nat.even i) eqn:E; [done|]. by destruct i. }
    rewrite Hs. cbn [fold_level Nat.div2 Nat.even]. by apply IH.
Qed.

Lemma climb_root fuel l i x :
  (length l <= fuel)%nat -> l !! i = Some x ->
  root_loop fuel l = [climb (proof_loop fuel i l) i x].
Proof.
  revert l i x. induction fuel as [|fuel IH]; intros l i x Hl Hi.
  - apply lookup_lt_Some in Hi. lia.
  - simpl. case_bool_decide as Hn.
    + simpl. rewrite Hi. simpl. apply IH; [pose proof (fold_level_shorter l Hn); lia|].
      by apply fold_level_lookup.
    + destruct l as [|y [|z l]]; simpl in *; [done| |lia]. destruct i; [|done]. by injection Hi as ->.
Qed.

Lemma merkle_root_climb leaves i x :
  leaves !! i = Some x -> merkle_root leaves = climb (proof_loop (length leaves) i leaves) i x.
Proof.
  intros Hi. destruct leaves as [|y l]; [done|]. unfold merkle_root.
  by rewrite (climb_root _ _ i x) by (done || lia).
Qed.

(** ** Reductions *)

(** The inputs the verification of a proof hashes. *)
Fixpoint hashed (proof : list bytes) (idx : nat) (h : bytes) : list bytes :=
  match proof with
  | [] => []
  | sib :: proof =>
      let input := if Nat.even idx then h ++ sib else sib ++ h in
      input :: hashed proof (Nat.div2 idx) (keyed_hash key input)
  end.
(** An input of each list, different, with the same hash. *)
Definition collision (X Y : list bytes) : Prop := exists x y, x ∈ X /\ y ∈ Y /\ x <> y /\ keyed_hash key x = keyed_hash key y.

Lemma climb_cons a p i x : climb (a :: p) i x = climb p (Nat.div2 i) (keyed_hash key (if Nat.even i then x ++ a else a ++ x)).
Proof. cbn [climb]. by destruct (Nat.even i). Qed.

Lemma climb_inj p q i x y :
  Forall (fun h => length h = 32%nat) p -> Forall (fun h => length h = 32%nat) q ->
  length x = 32%nat -> length y = 32%nat -> (forall m, length (keyed_hash key m) = 32%nat) ->
  length p = length q -> climb p i x = climb q i y -> (x = y /\ p = q) \/ collision (hashed p i x) (hashed q i y).
Proof.
  intros Hp. revert q i x y. induction Hp as [|a p Ha Hp IH]; intros [|b q] i x y Hq Hx Hy Hh Hl He; try done; [by left|].
  rewrite !climb_cons in He. apply Forall_cons in Hq as [Hb Hq]. injection Hl as Hl. cbn [hashed].
  set (u := if Nat.even i then x ++ a else a ++ x) in *. set (w := if Nat.even i then y ++ b else b ++ y) in *.
  apply IH in He as [[Hn ->]|(c & d & Hc & Hd & Hcd)]; try done; [|right; exists c, d; by split; [right|split; [right|]]].
  destruct (decide (u = w)) as [E|E]; [|right; exists u, w; by split; [left|split; [left|]]].
  left. unfold u, w in E. destruct (Nat.even i); apply app_inj_1 in E as [-> ->]; done || congruence.
Qed.

Lemma fold_level_sizes l :
  (forall m, length (keyed_hash key m) = 32%nat) -> Forall (fun h => length h = 32%nat) (fold_level l).
Proof. intros Hh. induction l as [| |] using pair_ind; simpl; repeat constructor; auto; apply Hh. Qed.

Lemma proof_loop_sizes fuel i l :
  (forall m, length (keyed_hash key m) = 32%nat) -> Forall (fun h => length h = 32%nat) l ->
  Forall (fun h => length h = 32%nat) (proof_loop fuel i l).
Proof.
  intros Hh. revert i l. induction fuel as [|fuel IH]; intros i l Hl; simpl; [constructor|].
  case_bool_decide; [|constructor]. constructor; [|apply IH; by apply fold_level_sizes].
  rewrite Forall_lookup in Hl. destruct (l !! sibling i) as [h|] eqn:E; simpl; [by eapply Hl|].
  destruct (l !! i) as [h|] eqn:E2; simpl; [by eapply Hl|done].
Qed.

(** Doubling the odd last node does not change the next level. *)
Lemma fold_level_double l x :
  Nat.even (length l) = true -> fold_level (l ++ [x]) = fold_level (l ++ [x; x]).
Proof. induction l as [| |y z l IH] using pair_ind; intros He; [done|done|]. simpl in *. by rewrite IH. Qed.

Lemma proof_loop_length fuel i j l l' :
  length l = length l' -> length (proof_loop fuel i l) = length (proof_loop fuel j l').
Proof.
  revert i j l l'. induction fuel as [|fuel IH]; intros i j l l' Hl; simpl; [done|]. rewrite Hl.
  case_bool_decide; [|done]. simpl. f_equal. apply IH. by rewrite !length_fold_level, Hl.
Qed.

(** Two leaf lists of the same length differ at an index, or are equal. *)
Lemma leaves_differ (l l' : list bytes) :
  length l = length l' -> l = l' \/ exists i x y, l !! i = Some x /\ l' !! i = Some y /\ x <> y.
Proof.
  revert l'. induction l as [|x l IH]; intros [|y l'] Hl; try done; [by left|].
  destruct (decide (x = y)) as [->|]; [|right; by exists 0%nat, x, y].
  destruct (IH l' ltac:(by injection Hl)) as [->|(i & a & b & ?)]; [by left|right; by exists (S i), a, b].
Qed.

End Merkle.

(** ** Claims *)

(** C36. Merkle proofs authenticate blocks. Every leaf of a volume has a proof
    that verifies against the root; when any other 32-byte leaf verifies at
    the same index with a proof of that length, an input hashed by the
    verification of the forged proof and a different one hashed by that of the
    genuine proof have the same keyed hash; and two leaf lists of the same
    length with the same root are equal or yield such a collision between the
    proofs of a leaf in which they differ. *)
Theorem merkle_authenticates (keyed_hash : bytes -> bytes -> bytes) (key : bytes) (leaves : list bytes)
    (i : nat) (leaf : bytes) :
  (forall m, length (keyed_hash key m) = 32%nat) ->
  Forall (fun h => length h = 32%nat) leaves -> leaves !! i = Some leaf ->
  (exists p, merkle_proof keyed_hash key leaves i = Some p /\
    verify_proof keyed_hash key (merkle_root keyed_hash key leaves) leaf i p = true /\
    forall leaf' p', length leaf' = 32%nat -> Forall (fun h => length h = 32%nat) p' -> length p' = length p ->
      verify_proof keyed_hash key (merkle_root keyed_hash key leaves) leaf' i p' = true ->
      leaf' = leaf \/ collision keyed_hash key (hashed keyed_hash key p' i leaf') (hashed keyed_hash key p i leaf)) /\
  (forall leaves', Forall (fun h => length h = 32%nat) leaves' -> length leaves' = length leaves ->
     merkle_root keyed_hash key leaves' = merkle_root keyed_hash key leaves ->
     leaves' = leaves \/
     exists k x y p q, leaves' !! k = Some x /\ leaves !! k = Some y /\ x <> y /\
       merkle_proof keyed_hash key leaves' k = Some p /\ merkle_proof keyed_hash key leaves k = Some q /\
       collision keyed_hash key (hashed keyed_hash key p k x) (hashed keyed_hash key q k y)).
Proof.
  intros Hh Hall Hi. pose proof (proof_loop_sizes keyed_hash key (length leaves) i leaves Hh Hall) as Hp.
  assert (Hlen : forall (l : list bytes) k z, Forall (fun h => length h = 32%nat) l -> l !! k = Some z -> length z = 32%nat)
    by (intros l k z Hl; by rewrite Forall_lookup in Hl; apply Hl).
  split.
  - exists (proof_loop keyed_hash key (length leaves) i leaves). unfold merkle_proof, verify_proof.
    pose proof (lookup_lt_Some _ _ _ Hi). rewrite bool_decide_eq_false_2 by lia. split; [done|].
    rewrite (merkle_root_climb keyed_hash key leaves i leaf Hi). split; [by apply bool_decide_eq_true|].
    intros leaf' p' Hl' Hp' Hlp Hv%bool_decide_eq_true.
    destruct (climb_inj keyed_hash key _ _ i leaf' leaf Hp' Hp Hl' (Hlen _ _ _ Hall Hi) Hh Hlp Hv) as [[-> _]|]; auto.
  - intros l' Hall' Hll Hroot. destruct (leaves_differ l' leaves Hll) as [->|(k & x & y & Hx & Hy & Hne)]; [by left|].
    right. exists k, x, y. unfold merkle_proof. rewrite !bool_decide_eq_false_2 by (eapply Nat.nle_gt, lookup_lt_Some; done).
    eexists _, _. split_and!; [done..|]. rewrite (merkle_root_climb keyed_hash key l' k x Hx), (merkle_root_climb keyed_hash key leaves k y Hy) in Hroot.
    destruct (climb_inj keyed_hash key _ _ k x y (proof_loop_sizes keyed_hash key (length l') k l' Hh Hall')
      (proof_loop_sizes keyed_hash key (length leaves) k leaves Hh Hall) (Hlen _ _ _ Hall' Hx) (Hlen _ _ _ Hall Hy)
      Hh ltac:(rewrite Hll; by apply proof_loop_length) Hroot) as [[? _]|]; [done|done].
Qed.

(** The root does not bind the number of blocks: because an odd last node
    is paired with itself, appending a copy of the last of an odd number of
    blocks (three or more) leaves the root unchanged. *)
Theorem merkle_root_duplicate_tail (keyed_hash : bytes -> bytes -> bytes) (key : bytes) (blocks : list bytes)
    (b : bytes) :
  Nat.even (length blocks) = true -> blocks <> [] ->
  root_over_blocks keyed_hash key (blocks ++ [b; b]) = root_over_blocks keyed_hash key (blocks ++ [b]).
Proof.
  intros He Hne. unfold root_over_blocks. rewrite !fmap_app. simpl.
  set (l := leaf_hash keyed_hash key <$> blocks). set (x := leaf_hash keyed_hash key b).
  assert (Hl : length l = length blocks) by (by unfold l; rewrite length_fmap).
  assert (Hroot : forall l', (1 < length l')%nat ->
    merkle_root keyed_hash key l' = default (empty_root keyed_hash key)
      (head (root_loop keyed_hash key (pred (length l')) (fold_level keyed_hash key l')))).
  { intros [|y [|z l']] Hl'; simpl in Hl'; [lia..|]. reflexivity. }
  assert (1 < length l)%nat.
  { destruct blocks as [|y [|z bs]]; [done|done|]. rewrite Hl. simpl. lia. }
  rewrite !Hroot by (rewrite length_app; simpl; lia).
  rewrite <- fold_level_double by (by rewrite Hl). rewrite !length_app. simpl.
  set (f := fold_level keyed_hash key (l ++ [x])).
  assert (Hf : (1 <= length f <= pred (length l + 1))%nat).
  { unfold f. pose proof (fold_level_shorter keyed_hash key (l ++ [x])) as Hs. rewrite length_app in Hs. simpl in Hs. lia. }
  destruct (root_loop_fuel keyed_hash key (pred (length l + 1)) (pred (length l + 2)) f) as [r [-> ->]]; [lia..|done].
Qed.

(** A 32-byte toy digest. *)
Definition toy_hash (key m : bytes) : bytes :=
  replicate 32 ((foldl (fun a b => 31 * a + b) 7 (key ++ m)) mod 251).

Lemma merkle_authenticates_witness :
  let leaves := leaf_hash toy_hash [1] <$> [[1]; [2]; [3]] in
  exists p, merkle_proof toy_hash [1] leaves 2 = Some p /\ length p = 2%nat /\
    verify_proof toy_hash [1] (merkle_root toy_hash [1] leaves) (leaf_hash toy_hash [1] [3]) 2 p = true.
Proof.
  intros leaves. destruct (merkle_authenticates toy_hash [1] leaves 2 (leaf_hash toy_hash [1] [3]))
    as [(p & H1 & H2 & _) _]; [done|by repeat constructor|done|].
  exists p. split; [exact H1|]. split; [|exact H2]. vm_compute in H1. by injection H1 as <-.
Defined.

Lemma merkle_root_duplicate_tail_witness :
  root_over_blocks toy_hash [1] [[1]; [2]; [3]; [3]] = root_over_blocks toy_hash [1] [[1]; [2]; [3]].
Proof. apply (merkle_root_duplicate_tail toy_hash [1] [[1]; [2]] [3]); done. Defined.
