(* ===== verification/Extent.v ===== *)
(** * Extents and the allocation map of the v3 filesystem

    [nexacore-fs/src/v3/extent.rs].  [AllocMap] keeps a reference count per
    physical block.  The first-fit search of [alloc_run] moves its start
    forward each round, so the number of blocks plus one is enough fuel. *)

From S2P Require Import Prelude Superblock.

Definition EXTENT_LEN : Z := 24.
Definition INLINE_EXTENTS : Z := 4.

Record Extent := mkExtent { logical_block : Z; physical_block : Z; len_blocks : Z }.

Definition extent_is_empty (e : Extent) : bool := len_blocks e =? 0.

(** [&&] short-circuits, so the end of an empty run is not computed. *)
Definition extent_contains (e : Extent) (logical : Z) : exec bool :=
  if extent_is_empty e || (logical <? logical_block e) then Done false
  else
    end_ ← add_uint 64 (logical_block e) (len_blocks e);
    Done (logical <? end_).

Definition extent_map (e : Extent) (logical : Z) : exec (option Z) :=
  inside ← extent_contains e logical;
  if (inside : bool) then
    off ← sub_uint logical (logical_block e);
    p ← add_uint 64 (physical_block e) off;
    Done (Some p)
  else Done None.

Definition extent_encode (e : Extent) : bytes :=
  let b := replicate (Z.to_nat EXTENT_LEN) 0 in
  let b := put_range b 0 (to_le 8 (logical_block e)) in
  let b := put_range b 8 (to_le 8 (physical_block e)) in
  put_range b 16 (to_le 4 (len_blocks e)).

Definition extent_decode (buf : bytes) : option Extent :=
  logical ← get_range buf 0 8;
  physical ← get_range buf 8 8;
  len ← get_range buf 16 4;
  Some (mkExtent (from_le logical) (from_le physical) (from_le len)).

(** [extents.iter().find_map(|e| e.map(logical))]. *)
Fixpoint map_logical (extents : list Extent) (logical : Z) : exec (option Z) :=
  match extents with
  | [] => Done None
  | e :: rest =>
      r ← extent_map e logical;
      match r with Some p => Done (Some p) | None => map_logical rest logical end
  end.

(** ** The allocation map *)

Record AllocMap := mkAlloc { refcounts : list Z; reserved : Z }.

(** [vec![0u32; total_blocks]] panics past [isize::MAX] bytes. *)
Definition alloc_new (total_blocks reserved : Z) : exec AllocMap :=
  if 2 ^ 63 - 1 <? 4 * total_blocks then Panic
  else
    Done (mkAlloc (replicate (Nat.min (Z.to_nat reserved) (Z.to_nat total_blocks)) 1 ++
                   replicate (Z.to_nat total_blocks - Z.to_nat reserved) 0) reserved).

Definition refcount (idx : Z) (m : AllocMap) : Z := default 0 (refcounts m !! Z.to_nat idx).

Definition is_shared (idx : Z) (m : AllocMap) : bool := 1 <? refcount idx m.

(** The first index at or after [skip] whose count satisfies [f], as
    [iter().enumerate().skip(..).find_map(..)] finds it; [i] is the index of
    the head of [l]. *)
Fixpoint find_from (f : Z -> bool) (skip i : nat) (l : list Z) : option nat :=
  match l with
  | [] => None
  | rc :: l =>
      match skip with
      | S skip => find_from f skip (S i) l
      | O => if f rc then Some i else find_from f O (S i) l
      end
  end.

Definition alloc (m : AllocMap) : option Z * AllocMap :=
  match find_from (fun rc => rc =? 0) (Z.to_nat (reserved m)) 0 (refcounts m) with
  | None => (None, m)
  | Some idx => (Some (Z.of_nat idx), mkAlloc (<[idx := 1]> (refcounts m)) (reserved m))
  end.

(** [iter_mut().skip(start).take(need)] set to one. *)
Definition mark_run (start need : nat) (l : list Z) : list Z :=
  take start l ++ replicate (length (take need (drop start l))) 1 ++ drop (start + need) l.

Fixpoint alloc_run_loop (fuel : nat) (start need : Z) (m : AllocMap) : option Z * AllocMap :=
  match fuel with
  | O => (None, m)
  | S fuel =>
      match checked_add 64 start need with
      | None => (None, m)
      | Some end_ =>
          if end_ <=? Z.of_nat (length (refcounts m)) then
            let window := get_range (refcounts m) start need in
            let free_run := match window with Some w => forallb (fun rc => rc =? 0) w | None => false end in
            if free_run then
              (Some start, mkAlloc (mark_run (Z.to_nat start) (Z.to_nat need) (refcounts m)) (reserved m))
            else
              let occupied_at :=
                find_from (fun rc => negb (rc =? 0)) (Z.to_nat start) 0
                  (take (Z.to_nat start + Z.to_nat need) (refcounts m)) in
              let start' := match occupied_at with Some i => Z.of_nat i + 1 | None => start + 1 end in
              alloc_run_loop fuel start' need m
          else (None, m)
      end
  end.

Definition alloc_run (count : Z) (m : AllocMap) : option Z * AllocMap :=
  if count =? 0 then (None, m)
  else alloc_run_loop (S (length (refcounts m))) (reserved m) count m.

Definition incref (idx : Z) (m : AllocMap) : V3Result () * AllocMap :=
  match refcounts m !! Z.to_nat idx with
  | None => (Err BlockOutOfRange, m)
  | Some rc => (Ok (), mkAlloc (<[Z.to_nat idx := saturating_add 32 rc 1]> (refcounts m)) (reserved m))
  end.

Definition decref (idx : Z) (m : AllocMap) : V3Result Z * AllocMap :=
  match refcounts m !! Z.to_nat idx with
  | None => (Err BlockOutOfRange, m)
  | Some rc =>
      let rc' := saturating_sub rc 1 in
      (Ok rc', mkAlloc (<[Z.to_nat idx := rc']> (refcounts m)) (reserved m))
  end.

(** [for offset in 0..count]; [offset] counts up while [n] rounds remain. *)
Fixpoint free_run_loop (n : nat) (start offset : Z) (m : AllocMap) : V3Result () * AllocMap :=
  match n with
  | O => (Ok (), m)
  | S n =>
      match checked_add 64 start offset with
      | None => (Err BlockOutOfRange, m)
      | Some idx =>
          match decref idx m with
          | (Err e, m) => (Err e, m)
          | (Ok _, m) => free_run_loop n start (offset + 1) m
          end
      end
  end.

Definition free_run (start count : Z) (m : AllocMap) : V3Result () * AllocMap :=
  free_run_loop (Z.to_nat count) start 0 m.

Definition free_count (m : AllocMap) : Z := Z.of_nat (length (filter (fun rc => rc = 0) (refcounts m))).

(** ** First fit *)

Lemma find_from_Some f skip i l j :
  find_from f skip i l = Some j ->
  exists k rc, j = (i + k)%nat /\ (skip <= k)%nat /\ l !! k = Some rc /\ f rc = true /\
    forall k' rc', (skip <= k' < k)%nat -> l !! k' = Some rc' -> f rc' = false.
Proof.
  revert skip i. induction l as [|x l IH]; intros skip i; simpl; [done|]. destruct skip as [|skip].
  - destruct (f x) eqn:E.
    + intros [= <-]. exists 0%nat, x. split_and!; [lia|lia|done|done|]. intros; lia.
    + intros (k & rc & -> & _ & Hk & Hf & Hmin)%IH. exists (S k), rc. split_and!; [lia|lia|done|done|].
      intros [|k'] rc' Hk' Hl; [by injection Hl as <-|]. apply (Hmin k'); [lia|done].
  - intros (k & rc & -> & Hs & Hk & Hf & Hmin)%IH. exists (S k), rc. split_and!; [lia|lia|done|done|].
    intros [|k'] rc' Hk' Hl; [lia|]. apply (Hmin k'); [lia|done].
Qed.

Lemma find_from_None f skip i l k rc :
  find_from f skip i l = None -> (skip <= k)%nat -> l !! k = Some rc -> f rc = false.
Proof.
  revert skip i k. induction l as [|x l IH]; intros skip i k; simpl; [done|]. destruct skip as [|skip].
  - destruct (f x) eqn:E; [done|]. intros Hn _. destruct k as [|k]; simpl; [by intros [= <-]|].
    intros Hk. eapply IH; [done| |done]. lia.
  - intros Hn Hs. destruct k as [|k]; [lia|]. simpl. intros Hk. eapply IH; [done| |done]. lia.
Qed.

(** The [n] blocks from [s] are tracked and free. *)
Definition run_free (l : list Z) (s n : Z) : Prop :=
  0 <= s /\ s + n <= Z.of_nat (length l) /\ forall k, s <= k < s + n -> l !! Z.to_nat k = Some 0.

Lemma mark_run_lookup s n l k :
  (s + n <= length l)%nat ->
  mark_run s n l !! k = if bool_decide (s <= k < s + n)%nat then Some 1 else l !! k.
Proof.
  intros Hl. unfold mark_run. rewrite length_take, length_drop.
  replace (n `min` (length l - s))%nat with n by lia.
  case_bool_decide.
  - rewrite lookup_app_r by (rewrite length_take; lia). rewrite length_take, Nat.min_l by lia.
    rewrite lookup_app_l by (rewrite length_replicate; lia). by rewrite lookup_replicate_2 by lia.
  - destruct (decide (k < s)%nat).
    + rewrite lookup_app_l by (rewrite length_take; lia). by rewrite lookup_take_lt by lia.
    + rewrite lookup_app_r by (rewrite length_take; lia). rewrite length_take, Nat.min_l by lia.
      rewrite lookup_app_r by (rewrite length_replicate; lia). rewrite length_replicate, lookup_drop.
      f_equal. lia.
Qed.

Lemma window_free l s n :
  0 <= s -> 0 <= n -> s + n <= Z.of_nat (length l) ->
  (match get_range l s n with Some w => forallb (fun rc => rc =? 0) w | None => false end) = true <-> run_free l s n.
Proof.
  intros Hs Hn Hl. unfold get_range. rewrite (proj2 (Z.leb_le _ _)) by lia. rewrite forallb_forall.
  split.
  - intros H. split; [done|]. split; [done|]. intros k Hk.
    destruct (lookup_lt_is_Some_2 l (Z.to_nat k) ltac:(lia)) as [x Hx]. rewrite Hx. f_equal.
    apply Z.eqb_eq, H. apply list_elem_of_In, (list_elem_of_lookup_2 _ (Z.to_nat k - Z.to_nat s)).
    rewrite lookup_take_lt, lookup_drop by lia. rewrite <- Hx. f_equal. lia.
  - intros (_ & _ & H) x Hx%list_elem_of_In. apply list_elem_of_lookup_1 in Hx as [i Hi].
    apply lookup_take_Some in Hi as [Hi Hlt]. rewrite lookup_drop in Hi. apply Z.eqb_eq.
    specialize (H (s + Z.of_nat i) ltac:(lia)). replace (Z.to_nat (s + Z.of_nat i)) with (Z.to_nat s + i)%nat in H by lia.
    congruence.
Qed.

Lemma alloc_run_loop_ok fuel start need m :
  0 <= start -> 0 < need -> Z.of_nat (length (refcounts m)) < 2 ^ 64 ->
  (Z.of_nat (length (refcounts m)) < start + Z.of_nat fuel) ->
  match alloc_run_loop fuel start need m with
  | (Some s, m') => start <= s /\ run_free (refcounts m) s need /\
      (forall s', start <= s' < s -> ~ run_free (refcounts m) s' need) /\
      m' = mkAlloc (mark_run (Z.to_nat s) (Z.to_nat need) (refcounts m)) (reserved m)
  | (None, m') => m' = m /\ forall s', start <= s' -> ~ run_free (refcounts m) s' need
  end.
Proof.
  revert start. induction fuel as [|fuel IH]; intros start Hs Hn Hlen Hf; cbn [alloc_run_loop].
  - split; [done|]. intros s' Hs' (_ & H & _). lia.
  - unfold checked_add. destruct (_ <? _) eqn:E1; zbool; [|split; [done|]; intros s' Hs' (_ & H & _); lia].
    destruct (_ <=? _) eqn:E2; zbool; [|split; [done|]; intros s' Hs' (_ & H & _); lia].
    pose proof (window_free (refcounts m) start need Hs ltac:(lia) E2) as Hw.
    destruct (match get_range _ _ _ with Some _ => _ | None => _ end) eqn:E3.
    + split; [lia|]. split; [by apply Hw|]. split; [intros; lia|done].
    + assert (Hnot : ~ run_free (refcounts m) start need) by (rewrite <- Hw; done).
      destruct (find_from _ _ _ _) as [j|] eqn:Hj.
      * apply find_from_Some in Hj as (k & rc & -> & Hk & Hrc & Hnz & _). simpl.
        apply lookup_take_Some in Hrc as [Hrc Hlt]. zbool.
        assert (Hskip : forall s', start <= s' <= Z.of_nat k -> ~ run_free (refcounts m) s' need).
        { intros s' Hs' (_ & _ & H). specialize (H (Z.of_nat k) ltac:(lia)). rewrite Nat2Z.id in H. congruence. }
        specialize (IH (Z.of_nat k + 1) ltac:(lia) Hn Hlen ltac:(lia)).
        destruct (alloc_run_loop _ _ _ _) as [[s|] m'].
        -- destruct IH as (H1 & H2 & H3 & H4). split_and!; [lia|done| |done].
           intros s' Hs'. destruct (decide (s' <= Z.of_nat k)); [apply Hskip; lia|apply H3; lia].
        -- destruct IH as [-> H]. split; [done|]. intros s' Hs'.
           destruct (decide (s' <= Z.of_nat k)); [apply Hskip; lia|apply H; lia].
      * exfalso. apply Hnot. split; [done|]. split; [done|]. intros k Hk.
        destruct (lookup_lt_is_Some_2 (refcounts m) (Z.to_nat k) ltac:(lia)) as [x Hx]. rewrite Hx. f_equal.
        apply (find_from_None _ _ _ _ (Z.to_nat k) x) in Hj; [cbv beta in Hj; by zbool|lia|].
        by rewrite lookup_take_lt by lia.
Qed.

(** ** Release and the single-block case *)

Lemma free_run_loop_ok n start off m :
  0 <= start -> 0 <= off -> start + off + Z.of_nat n <= Z.of_nat (length (refcounts m)) ->
  Z.of_nat (length (refcounts m)) < 2 ^ 64 ->
  exists l, free_run_loop n start off m = (Ok (), mkAlloc l (reserved m)) /\ length l = length (refcounts m) /\
    forall k, l !! k = if bool_decide (start + off <= Z.of_nat k < start + off + Z.of_nat n)
                       then (fun rc => saturating_sub rc 1) <$> (refcounts m !! k) else refcounts m !! k.
Proof.
  revert off m. induction n as [|n IH]; intros off m Hs Ho Hl Hlen; cbn [free_run_loop].
  - exists (refcounts m). destruct m as [l r]. split; [done|]. split; [done|]. intros k.
    by rewrite bool_decide_eq_false_2 by lia.
  - unfold checked_add. rewrite (proj2 (Z.ltb_lt _ _)) by lia. unfold decref.
    destruct (lookup_lt_is_Some_2 (refcounts m) (Z.to_nat (start + off)) ltac:(lia)) as [rc Hrc]. rewrite Hrc.
    set (m1 := mkAlloc _ _).
    assert (Hl1 : length (refcounts m1) = length (refcounts m)) by (unfold m1; simpl; by rewrite length_insert).
    destruct (IH (off + 1) m1 Hs ltac:(lia) ltac:(lia) ltac:(lia)) as (l & -> & Hlen' & Hk). exists l.
    split; [done|]. split; [lia|]. intros k. rewrite Hk. unfold m1. cbn [refcounts].
    destruct (decide (k = Z.to_nat (start + off))) as [->|Hne].
    + rewrite bool_decide_eq_false_2, bool_decide_eq_true_2, list_lookup_insert_eq, Hrc by lia. done.
    + rewrite list_lookup_insert_ne by done. do 2 case_bool_decide; done || lia.
Qed.

Lemma free_marked l s n r :
  run_free l s n -> 0 <= n -> Z.of_nat (length l) < 2 ^ 64 ->
  free_run s n (mkAlloc (mark_run (Z.to_nat s) (Z.to_nat n) l) r) = (Ok (), mkAlloc l r).
Proof.
  intros (Hs & Hl & Hz) Hn Hlen. unfold free_run.
  assert (Hml : length (mark_run (Z.to_nat s) (Z.to_nat n) l) = length l).
  { unfold mark_run. rewrite !length_app, length_replicate, !length_take, !length_drop. lia. }
  destruct (free_run_loop_ok (Z.to_nat n) s 0 (mkAlloc (mark_run (Z.to_nat s) (Z.to_nat n) l) r))
    as (l' & -> & _ & Hk); [lia|lia|cbn [refcounts]; lia|cbn [refcounts]; lia|]. cbn [refcounts reserved] in *. do 2 f_equal.
  apply list_eq. intros k. rewrite Hk, mark_run_lookup by lia. case_bool_decide as E.
  - rewrite bool_decide_eq_true_2 by lia. rewrite <- (Nat2Z.id k), Hz by lia. done.
  - by rewrite bool_decide_eq_false_2 by lia.
Qed.

(** What the first-fit search of [find_from] says of free blocks. *)
Lemma alloc_spec m :
  0 <= reserved m ->
  match alloc m with
  | (Some s, m') => reserved m <= s /\ run_free (refcounts m) s 1 /\
      (forall s', reserved m <= s' < s -> ~ run_free (refcounts m) s' 1) /\
      m' = mkAlloc (<[Z.to_nat s := 1]> (refcounts m)) (reserved m)
  | (None, m') => m' = m /\ forall s', reserved m <= s' -> ~ run_free (refcounts m) s' 1
  end.
Proof.
  intros Hr. unfold alloc. destruct (find_from _ _ _ _) as [j|] eqn:Hj.
  - apply find_from_Some in Hj as (k & rc & -> & Hk & Hrc & Hz & Hmin). simpl in *. zbool. subst rc.
    pose proof (lookup_lt_Some _ _ _ Hrc). split; [lia|]. split; [|split; [|by rewrite Nat2Z.id]].
    + split; [lia|]. split; [lia|]. intros x Hx. by replace (Z.to_nat x) with k by lia.
    + intros s' Hs' (_ & _ & H0). specialize (H0 s' ltac:(lia)). by apply Hmin in H0; [|lia].
  - split; [done|]. intros s' Hs' (_ & _ & H0). specialize (H0 s' ltac:(lia)).
    by apply (find_from_None _ _ _ _ _ _ Hj) in H0; [|lia].
Qed.

(** The block allocator is first-fit and never hands out a live block: a
    run it returns lies past the reserved blocks, all its blocks had
    reference count zero, no such run starts earlier, exactly its blocks get
    count one, and releasing it restores the map; it fails only when no run
    of that length is free. Single-block allocation is the case of one. *)
Theorem alloc_run_first_fit (m : AllocMap) (count : Z) :
  0 <= reserved m -> Z.of_nat (length (refcounts m)) < 2 ^ 64 -> 0 < count ->
  match alloc_run count m with
  | (Some s, m') => reserved m <= s /\ run_free (refcounts m) s count /\
      (forall s', reserved m <= s' < s -> ~ run_free (refcounts m) s' count) /\
      (forall k, 0 <= k -> refcount k m' = if bool_decide (s <= k < s + count) then 1 else refcount k m) /\
      free_run s count m' = (Ok (), m)
  | (None, m') => m' = m /\ forall s, reserved m <= s -> ~ run_free (refcounts m) s count
  end /\
  (alloc m).1 = (alloc_run 1 m).1.
Proof.
  intros Hr Hlen Hc.
  assert (Hrun : forall n, 0 < n -> alloc_run n m = alloc_run_loop (S (length (refcounts m))) (reserved m) n m).
  { intros n Hn. unfold alloc_run. by destruct (n =? 0) eqn:E; zbool; [lia|]. }
  pose proof (fun n Hn => alloc_run_loop_ok (S (length (refcounts m))) (reserved m) n m Hr Hn Hlen ltac:(lia)) as Hok.
  split.
  - specialize (Hok count Hc). rewrite Hrun by done. destruct (alloc_run_loop _ _ _ _) as [[s|] m']; [|done].
    destruct Hok as (H1 & H2 & H3 & ->). split_and!; [done|done|done| |].
    + intros k Hk. unfold refcount. cbn [refcounts]. destruct H2 as (_ & Hl & _).
      rewrite mark_run_lookup by lia. do 2 case_bool_decide; done || lia.
    + destruct m as [l r]. apply free_marked; [done|lia|done].
  - specialize (Hok 1 ltac:(lia)). rewrite Hrun by lia. pose proof (alloc_spec m Hr) as Ha.
    destruct (alloc m) as [[a|] ma], (alloc_run_loop _ _ _ _) as [[s|] m']; simpl; try done.
    + destruct Ha as (A1 & A2 & A3 & _), Hok as (B1 & B2 & B3 & _). f_equal.
      destruct (Z.lt_trichotomy a s) as [?|[?|?]]; [|done|]; exfalso; [by apply (B3 a)|by apply (A3 s)].
    + destruct Ha as (A1 & A2 & _), Hok as [_ B]. by destruct (B a).
    + destruct Ha as [_ A], Hok as (B1 & B2 & _). by destruct (A s).
Qed.

Lemma alloc_run_first_fit_witness :
  let m := mkAlloc [1; 1; 0; 1; 0; 0; 0] 2 in
  alloc_run 2 m = (Some 4, mkAlloc [1; 1; 0; 1; 1; 1; 0] 2) /\
  free_run 4 2 (mkAlloc [1; 1; 0; 1; 1; 1; 0] 2) = (Ok (), m).
Proof.
  intros m. destruct (alloc_run_first_fit m 2) as [H _]; [done..|].
  assert (E : alloc_run 2 m = (Some 4, mkAlloc [1; 1; 0; 1; 1; 1; 0] 2)) by reflexivity.
  split; [exact E|]. rewrite E in H. exact (proj2 (proj2 (proj2 (proj2 H)))).
Defined.

(** ** Mapping logical blocks *)

(** Both ends of the run are addressable. *)
Definition extent_ok (e : Extent) : Prop :=
  0 <= logical_block e /\ 0 <= physical_block e /\ 0 <= len_blocks e < 2 ^ 32 /\
  logical_block e + len_blocks e < 2 ^ 64 /\ physical_block e + len_blocks e < 2 ^ 64.

Definition covers (e : Extent) (logical : Z) : Prop :=
  logical_block e <= logical < logical_block e + len_blocks e.

Lemma extent_map_ok e l :
  extent_ok e ->
  extent_map e l = Done (if bool_decide (covers e l) then Some (physical_block e + (l - logical_block e)) else None).
Proof.
  intros (H1 & H2 & H3 & H4 & H5). unfold extent_map, extent_contains, extent_is_empty, covers.
  destruct (len_blocks e =? 0) eqn:E1; zbool; simpl; [by rewrite bool_decide_eq_false_2 by lia|].
  destruct (l <? _) eqn:E2; zbool; simpl; [by rewrite bool_decide_eq_false_2 by lia|].
  rewrite add_uint_Done by lia. simpl. destruct (l <? _) eqn:E3; zbool.
  - rewrite bool_decide_eq_true_2 by lia. rewrite sub_uint_Done by lia. simpl. by rewrite add_uint_Done by lia.
  - by rewrite bool_decide_eq_false_2 by lia.
Qed.

(** Extent lookup: over runs whose ends are addressable the lookup never
    panics, finds the block of a run covering the logical block when there
    is one, and the only one when runs do not overlap; a non-empty run whose
    logical end is past [u64::MAX], which decoding accepts, panics on every
    block at or after its start. *)
Theorem extent_map_exact (es : list Extent) (l : Z) :
  Forall extent_ok es ->
  (exists r, map_logical es l = Done r /\
    match r with
    | Some p => exists e, e ∈ es /\ covers e l /\ p = physical_block e + (l - logical_block e)
    | None => forall e, e ∈ es -> ~ covers e l
    end) /\
  (forall e, e ∈ es -> covers e l -> (forall e', e' ∈ es -> covers e' l -> e' = e) ->
     map_logical es l = Done (Some (physical_block e + (l - logical_block e)))) /\
  (forall e rest, 0 < len_blocks e -> logical_block e <= l -> 2 ^ 64 <= logical_block e + len_blocks e ->
     map_logical (e :: rest) l = Panic).
Proof.
  intros Hall.
  assert (Hr : exists r, map_logical es l = Done r /\
    match r with
    | Some p => exists e, e ∈ es /\ covers e l /\ p = physical_block e + (l - logical_block e)
    | None => forall e, e ∈ es -> ~ covers e l
    end).
  { induction Hall as [|e es He Hall (r & IH & Hr)]; simpl.
    - eexists. split; [done|]. intros e He. by apply not_elem_of_nil in He.
    - rewrite extent_map_ok by done. case_bool_decide as Hc; simpl.
      + eexists. split; [done|]. exists e. split; [left|done].
      + exists r. split; [done|]. destruct r as [p|].
        * destruct Hr as (e' & ? & ?). exists e'. split; [by right|done].
        * intros e' [->|?]%elem_of_cons; auto. }
  split; [done|]. split.
  - intros e He Hc Huniq. destruct Hr as ([p|] & -> & Hp); [|by destruct (Hp e)].
    destruct Hp as (e' & He' & Hc' & ->). by rewrite (Huniq e').
  - intros e rest Hlen Hle Hov. simpl. unfold extent_map, extent_contains, extent_is_empty.
    destruct (_ =? 0) eqn:E1; zbool; [lia|]. simpl. destruct (_ <? _) eqn:E2; zbool; [lia|].
    unfold add_uint. destruct (_ <? 2 ^ 64) eqn:E3; zbool; [lia|done].
Qed.

Lemma extent_map_exact_witness :
  map_logical [mkExtent 0 100 4; mkExtent 4 50 2] 5 = Done (Some 51).
Proof.
  destruct (extent_map_exact [mkExtent 0 100 4; mkExtent 4 50 2] 5) as (_ & H & _).
  - repeat constructor; simpl; lia.
  - apply (H (mkExtent 4 50 2)); [right; left|split; simpl; lia|].
    intros e' [->|[->|?%not_elem_of_nil]%elem_of_cons]%elem_of_cons [? ?]; simpl in *; [lia|done|done].
Defined.
