(* ===== verification/Objects.v ===== *)
(** * Metadata objects of the v3 filesystem

    [nexacore-fs/src/v3/{inode,dirent,snapshot}.rs]: the 256-byte inode
    record, directories and their byte format, the snapshot table and
    writable clones.  Names are the bytes of Rust strings, which are always
    valid UTF-8; [from_utf8] is the standard's validity check, written out.
    The NFC check is the trait [NfcCheck], a parameter of [insert]. *)

From S2P Require Import Prelude Superblock Extent.

(** ** Inodes *)

Definition INODE_SIZE : Z := 256.
Definition FINGERPRINT_OFFSET : Z := 40.
Definition FINGERPRINT_LEN : Z := 32.
Definition FLAG_DIR : Z := 1.
Definition FLAG_COMPRESSED : Z := 2.

Record InodeV3 := mkInode {
  mode : Z; nlink : Z; uid : Z; gid : Z; isize : Z; mtime : Z; ikey_epoch : Z;
  fingerprint : bytes; flags : Z; extent_count : Z; extents : list Extent; extent_tree_root : Z
}.

Definition inode_default : InodeV3 :=
  mkInode 0 1 0 0 0 0 0 (replicate 32 0) 0 0 (replicate 4 (mkExtent 0 0 0)) 0.

Definition is_dir (i : InodeV3) : bool := negb (Z.land (flags i) FLAG_DIR =? 0).

Definition validate (i : InodeV3) : V3Result () :=
  if INLINE_EXTENTS <? extent_count i then Err Corrupt else Ok ().

(** The loop over the inline extents, from slot [i]. *)
Fixpoint put_extents (b : bytes) (i : Z) (es : list Extent) : bytes :=
  match es with
  | [] => b
  | e :: es => put_extents (put_range b (80 + i * EXTENT_LEN) (extent_encode e)) (i + 1) es
  end.

Definition inode_encode (i : InodeV3) : bytes :=
  let b := replicate (Z.to_nat INODE_SIZE) 0 in
  let b := put_range b 0 (to_le 4 (mode i)) in
  let b := put_range b 4 (to_le 4 (nlink i)) in
  let b := put_range b 8 (to_le 4 (uid i)) in
  let b := put_range b 12 (to_le 4 (gid i)) in
  let b := put_range b 16 (to_le 8 (isize i)) in
  let b := put_range b 24 (to_le 8 (mtime i)) in
  let b := put_range b 32 (to_le 8 (ikey_epoch i)) in
  let b := put_range b FINGERPRINT_OFFSET (fingerprint i) in
  let b := put_range b 72 (to_le 4 (flags i)) in
  let b := put_range b 76 (to_le 4 (extent_count i)) in
  let b := put_extents b 0 (extents i) in
  put_range b 176 (to_le 8 (extent_tree_root i)).

Definition u32_at (r : bytes) (o : Z) : V3Result Z := ok_or (from_le <$> get_range r o 4) Corrupt.
Definition u64_at (r : bytes) (o : Z) : V3Result Z := ok_or (from_le <$> get_range r o 8) Corrupt.

(** The [n] inline extents from slot [i]. *)
Fixpoint get_extents (r : bytes) (i : Z) (n : nat) : V3Result (list Extent) :=
  match n with
  | O => Ok []
  | S n =>
      buf ← ok_or (get_range r (80 + i * EXTENT_LEN) EXTENT_LEN) Corrupt;
      e ← ok_or (extent_decode buf) Corrupt;
      es ← get_extents r (i + 1) n;
      Ok (e :: es)
  end.

Definition inode_decode (buf : bytes) : V3Result InodeV3 :=
  r ← ok_or (get_range buf 0 INODE_SIZE) Corrupt;
  fp ← ok_or (get_range r FINGERPRINT_OFFSET FINGERPRINT_LEN) Corrupt;
  es ← get_extents r 0 (Z.to_nat INLINE_EXTENTS);
  m ← u32_at r 0; nl ← u32_at r 4; u ← u32_at r 8; g ← u32_at r 12;
  sz ← u64_at r 16; mt ← u64_at r 24; ke ← u64_at r 32;
  fl ← u32_at r 72; ec ← u32_at r 76; tr ← u64_at r 176;
  let inode := mkInode m nl u g sz mt ke fp fl ec es tr in
  _ ← validate inode;
  Ok inode.

(** ** Directories *)

Definition NAME_MAX : Z := 255.
Definition ENTRY_FIXED : Z := 9.

Class NfcCheck := { is_nfc : bytes -> bool }.

(** The conservative policy: ASCII only. *)
Definition AsciiNfc : NfcCheck := {| is_nfc := forallb (fun b => b <? 128) |}.

Definition validate_name (name : bytes) : V3Result () :=
  if bool_decide (name = []) || (NAME_MAX <? Z.of_nat (length name)) || bool_decide (name = [46])
     || bool_decide (name = [46; 46])
  then Err InvalidName
  else if bool_decide (47 ∈ name) || bool_decide (0 ∈ name) then Err InvalidName
  else Ok ().

Record DirEntry := mkDirEntry { inode : Z; ename : bytes }.

(** [Directory] is its vector of entries. *)
Abbreviation Directory := (list DirEntry).
Definition dir_new : Directory := [].

Fixpoint lookup (name : bytes) (d : Directory) : option Z :=
  match d with
  | [] => None
  | e :: d => if bool_decide (ename e = name) then Some (inode e) else lookup name d
  end.

Definition insert `{NfcCheck} (name : bytes) (ino : Z) (d : Directory) : V3Result () * Directory :=
  match validate_name name with
  | Err e => (Err e, d)
  | Ok _ =>
      if negb (is_nfc name) then (Err InvalidName, d)
      else
        match lookup name d with
        | Some _ => (Err InvalidName, d)
        | None => (Ok (), d ++ [mkDirEntry ino name])
        end
  end.

(** [position] and [Vec::remove] of the first entry with the name. *)
Fixpoint remove (name : bytes) (d : Directory) : option Z * Directory :=
  match d with
  | [] => (None, [])
  | e :: d =>
      if bool_decide (ename e = name) then (Some (inode e), d)
      else let '(r, d') := remove name d in (r, e :: d')
  end.

Definition entry_encode (e : DirEntry) : bytes :=
  let len := Z.min (Z.of_nat (length (ename e))) NAME_MAX in
  to_le 8 (inode e) ++ [len mod 256] ++ take (Z.to_nat len) (ename e).

Definition dir_encode (d : Directory) : bytes := mjoin (entry_encode <$> d).

(** Each round consumes at least [ENTRY_FIXED] bytes. *)
Fixpoint decode_loop (fuel : nat) (rest : bytes) (acc : Directory) : V3Result Directory :=
  match fuel with
  | O => Ok acc
  | S fuel =>
      if Z.of_nat (length rest) <? ENTRY_FIXED then Ok acc
      else
        ib ← ok_or (get_range rest 0 8) Corrupt;
        let ino := from_le ib in
        if ino =? 0 then Ok acc
        else
          len ← ok_or (rest !! 8%nat) Corrupt;
          name ← ok_or (get_range rest ENTRY_FIXED len) Corrupt;
          if negb (utf8_valid name) then Err Corrupt
          else decode_loop fuel (drop (Z.to_nat (ENTRY_FIXED + len)) rest) (acc ++ [mkDirEntry ino name])
  end.

Definition dir_decode (buf : bytes) : V3Result Directory := decode_loop (S (length buf)) buf [].

Fixpoint dir_resolve_path (load : Z -> option Directory) (current : Z) (components : list bytes) : option Z :=
  match components with
  | [] => Some current
  | comp :: rest =>
      if bool_decide (comp = []) || bool_decide (comp = [46]) then dir_resolve_path load current rest
      else
        match load current with
        | None => None
        | Some d => match lookup comp d with None => None | Some i => dir_resolve_path load i rest end
        end
  end.

(** ** Snapshots *)

Definition ENTRY_LEN : Z := 64.

Record SnapshotEntry := mkSnap {
  snap_id : Z; snap_generation : Z; snap_root : Z; snap_merkle : bytes; snap_epoch : Z
}.

Definition snap_encode (e : SnapshotEntry) : bytes :=
  let b := replicate (Z.to_nat ENTRY_LEN) 0 in
  let b := put_range b 0 (to_le 8 (snap_id e)) in
  let b := put_range b 8 (to_le 8 (snap_generation e)) in
  let b := put_range b 16 (to_le 8 (snap_root e)) in
  let b := put_range b 24 (snap_merkle e) in
  put_range b 56 (to_le 8 (snap_epoch e)).

Definition snap_decode (buf : bytes) : option SnapshotEntry :=
  i ← get_range buf 0 8;
  g ← get_range buf 8 8;
  r ← get_range buf 16 8;
  m ← get_range buf 24 32;
  k ← get_range buf 56 8;
  Some (mkSnap (from_le i) (from_le g) (from_le r) m (from_le k)).

(** [SnapshotTable] is its vector of entries. *)
Abbreviation SnapshotTable := (list SnapshotEntry).

Fixpoint snap_get (id : Z) (t : SnapshotTable) : option SnapshotEntry :=
  match t with
  | [] => None
  | e :: t => if snap_id e =? id then Some e else snap_get id t
  end.

Definition snap_take (id : Z) (sb : SuperblockV3) (t : SnapshotTable) : V3Result SnapshotEntry * SnapshotTable :=
  match snap_get id t with
  | Some _ => (Err InvalidName, t)
  | None =>
      let entry := mkSnap id (generation sb) (root_dir_inode sb) (merkle_root sb) (key_epoch sb) in
      (Ok entry, t ++ [entry])
  end.

Fixpoint snap_delete (id : Z) (t : SnapshotTable) : option SnapshotEntry * SnapshotTable :=
  match t with
  | [] => (None, [])
  | e :: t =>
      if snap_id e =? id then (Some e, t)
      else let '(r, t') := snap_delete id t in (r, e :: t')
  end.

Definition table_encode (t : SnapshotTable) : bytes := mjoin (snap_encode <$> t).

(** The loop over [buf.chunks(ENTRY_LEN)]. *)
Fixpoint decode_chunks (fuel : nat) (buf : bytes) : V3Result SnapshotTable :=
  match fuel with
  | O => Ok []
  | S fuel =>
      if bool_decide (buf = []) then Ok []
      else
        e ← ok_or (snap_decode (take (Z.to_nat ENTRY_LEN) buf)) Corrupt;
        es ← decode_chunks fuel (drop (Z.to_nat ENTRY_LEN) buf);
        Ok (e :: es)
  end.

Definition table_decode (buf : bytes) : V3Result SnapshotTable :=
  if negb (Z.of_nat (length buf) mod ENTRY_LEN =? 0) then Err Corrupt
  else decode_chunks (length buf) buf.

Definition clone_from (snapshot : SnapshotEntry) (current : SuperblockV3) : exec SuperblockV3 :=
  g ← add_uint 64 (generation current) 1;
  Done (mkSb g (total_blocks current) (snap_root snapshot) (snap_merkle snapshot) (snap_epoch snapshot)
          (free_blocks current) (inode_count current) (alloc_map_block current) (snapshot_table_block current)).

Fixpoint retain (blocks : list Z) (m : AllocMap) : V3Result () * AllocMap :=
  match blocks with
  | [] => (Ok (), m)
  | b :: rest =>
      match incref b m with
      | (Err e, m) => (Err e, m)
      | (Ok _, m) => retain rest m
      end
  end.

(** ** Inode round trip *)

Record extent_fits (e : Extent) : Prop := {
  ef_logical : in_uint 64 (logical_block e);
  ef_physical : in_uint 64 (physical_block e);
  ef_len : in_uint 32 (len_blocks e)
}.

Lemma length_extent_encode e : length (extent_encode e) = Z.to_nat EXTENT_LEN.
Proof. unfold extent_encode, EXTENT_LEN. by autorewrite with rlen. Qed.
#[local] Hint Rewrite length_extent_encode : rlen.

Lemma extent_decode_encode e : extent_fits e -> extent_decode (extent_encode e) = Some e.
Proof.
  intros [H1 H2 H3]. unfold extent_decode, extent_encode, EXTENT_LEN. ranges. simpl.
  rewrite !(from_to_le 8), (from_to_le 4) by done. by destruct e.
Qed.

Lemma put_extents_length b i es : 0 <= i -> length (put_extents b i es) = length b.
Proof.
  revert b i. induction es as [|e es IH]; intros b i Hi; simpl; [done|].
  rewrite IH by lia. apply length_put_range. unfold EXTENT_LEN. lia.
Qed.

(** Ranges outside the extent area are not touched by it. *)
Lemma put_extents_other b i es off n :
  0 <= i -> 0 <= off -> 0 <= n ->
  off + n <= 80 + i * 24 \/ 80 + (i + Z.of_nat (length es)) * 24 <= off ->
  get_range (put_extents b i es) off n = get_range b off n.
Proof.
  revert b i. induction es as [|e es IH]; intros b i Hi Ho Hn Hd; simpl in *; [done|].
  rewrite IH by lia. apply get_put_other; try lia; unfold EXTENT_LEN in *; try lia.
  rewrite length_extent_encode. unfold EXTENT_LEN. lia.
Qed.

Lemma get_put_extents b i es :
  0 <= i -> 80 + (i + Z.of_nat (length es)) * 24 <= Z.of_nat (length b) -> Forall extent_fits es ->
  get_extents (put_extents b i es) i (length es) = Ok es.
Proof.
  intros Hi Hl Hes. revert b i Hi Hl. induction Hes as [|e es He Hes IH]; intros b i Hi Hl; [done|].
  cbn [length] in Hl. cbn [put_extents get_extents length].
  rewrite put_extents_other by (unfold EXTENT_LEN; lia).
  rewrite get_put_same by (rewrite ?length_extent_encode; unfold EXTENT_LEN; lia).
  cbn [ok_or mbind result_bind]. rewrite extent_decode_encode by done. cbn [ok_or mbind result_bind].
  rewrite IH; [done|lia|]. rewrite length_put_range by (unfold EXTENT_LEN; lia). lia.
Qed.

Record inode_fits (i : InodeV3) : Prop := {
  if_mode : in_uint 32 (mode i); if_nlink : in_uint 32 (nlink i); if_uid : in_uint 32 (uid i);
  if_gid : in_uint 32 (gid i); if_size : in_uint 64 (isize i); if_mtime : in_uint 64 (mtime i);
  if_epoch : in_uint 64 (ikey_epoch i); if_fp : length (fingerprint i) = Z.to_nat 32;
  if_flags : in_uint 32 (flags i); if_count : in_uint 32 (extent_count i);
  if_extents : Forall extent_fits (extents i) /\ length (extents i) = 4%nat;
  if_tree : in_uint 64 (extent_tree_root i)
}.

Lemma get_range_prefix {A} (l r : list A) n : Z.of_nat (length l) = n -> get_range (l ++ r) 0 n = Some l.
Proof.
  intros <-. unfold get_range. rewrite length_app, (proj2 (Z.leb_le _ _)) by lia. f_equal.
  rewrite Nat2Z.id, drop_0. apply take_app_length.
Qed.

Lemma length_inode_encode i : Z.of_nat (length (inode_encode i)) = INODE_SIZE.
Proof.
  unfold inode_encode, FINGERPRINT_OFFSET, INODE_SIZE. cbv zeta. rewrite length_put_range by lia.
  rewrite put_extents_length by lia. autorewrite with rlen. lia.
Qed.

(** Every field of the record is read back from where it is written. *)
Lemma inode_encode_get i :
  inode_fits i ->
  let b := inode_encode i in
  get_range b 0 4 = Some (to_le 4 (mode i)) /\ get_range b 4 4 = Some (to_le 4 (nlink i)) /\
  get_range b 8 4 = Some (to_le 4 (uid i)) /\ get_range b 12 4 = Some (to_le 4 (gid i)) /\
  get_range b 16 8 = Some (to_le 8 (isize i)) /\ get_range b 24 8 = Some (to_le 8 (mtime i)) /\
  get_range b 32 8 = Some (to_le 8 (ikey_epoch i)) /\ get_range b 40 32 = Some (fingerprint i) /\
  get_range b 72 4 = Some (to_le 4 (flags i)) /\ get_range b 76 4 = Some (to_le 4 (extent_count i)) /\
  get_range b 176 8 = Some (to_le 8 (extent_tree_root i)) /\ get_extents b 0 4 = Ok (extents i).
Proof.
  intros [? ? ? ? ? ? ? Hfp ? ? [Hes Hn] ?] b. subst b. unfold inode_encode, FINGERPRINT_OFFSET, INODE_SIZE. cbv zeta.
  set (b0 := put_range _ 76 _).
  assert (Hb0 : Z.of_nat (length b0) = 256) by (subst b0; autorewrite with rlen; lia).
  set (b1 := put_extents b0 0 (extents i)).
  assert (Hb1 : Z.of_nat (length b1) = 256) by (subst b1; rewrite put_extents_length; lia).
  assert (Hlow : forall off n, 0 <= off -> 0 <= n -> off + n <= 80 ->
    get_range (put_range b1 176 (to_le 8 (extent_tree_root i))) off n = get_range b0 off n).
  { intros off n H1 H2 H3. rewrite get_put_other by (rewrite ?length_to_le; lia). subst b1.
    apply put_extents_other; lia. }
  rewrite !Hlow by lia. split_and!; try (subst b0; by ranges).
  transitivity (get_extents b1 0 4).
  - cbn [get_extents]. unfold EXTENT_LEN. by rewrite !get_put_other by (rewrite ?length_to_le; lia).
  - subst b1. rewrite <- Hn. apply get_put_extents; [lia|rewrite Hn; lia|done].
Qed.

Lemma inode_decode_encode i rest :
  inode_fits i -> inode_decode (inode_encode i ++ rest) = if extent_count i <=? 4 then Ok i else Err Corrupt.
Proof.
  intros Hf. pose proof (inode_encode_get i Hf) as G. cbv zeta in G.
  destruct G as (G1 & G2 & G3 & G4 & G5 & G6 & G7 & G8 & G9 & G10 & G11 & G12).
  unfold inode_decode. rewrite get_range_prefix by apply length_inode_encode. cbn [ok_or mbind result_bind].
  unfold u32_at, u64_at, FINGERPRINT_OFFSET, FINGERPRINT_LEN. change (Z.to_nat INLINE_EXTENTS) with 4%nat.
  rewrite G1, G2, G3, G4, G5, G6, G7, G8, G9, G10, G11, G12. cbn [ok_or mbind result_bind fmap option_fmap option_map].
  destruct Hf. rewrite !(from_to_le 4), !(from_to_le 8) by done. unfold validate, INLINE_EXTENTS. cbn [extent_count].
  destruct (4 <? extent_count i) eqn:E; zbool.
  - by rewrite (proj2 (Z.leb_gt _ _)) by lia.
  - rewrite (proj2 (Z.leb_le _ _)) by lia. cbn. by destruct i.
Qed.

(** ** Directory round trip *)

Record entry_ok (e : DirEntry) : Prop := {
  eo_inode : in_uint 64 (inode e);
  eo_nonzero : inode e <> 0;
  eo_len : Z.of_nat (length (ename e)) <= NAME_MAX;
  eo_utf8 : utf8_valid (ename e) = true
}.

(** What one round of the decoder sees at the head of an encoded entry. *)
Lemma decode_header fuel ino len tl acc :
  in_uint 64 ino -> ino <> 0 ->
  decode_loop (S fuel) (to_le 8 ino ++ len :: tl) acc =
    (name ← ok_or (get_range (to_le 8 ino ++ len :: tl) ENTRY_FIXED len) Corrupt;
     if negb (utf8_valid name) then Err Corrupt
     else decode_loop fuel (drop (Z.to_nat (ENTRY_FIXED + len)) (to_le 8 ino ++ len :: tl)) (acc ++ [mkDirEntry ino name])).
Proof.
  intros Hi Hz. pose proof (length_to_le 8 ino ltac:(lia)) as Hl. cbn [decode_loop].
  destruct (_ <? ENTRY_FIXED) eqn:E; zbool.
  { rewrite length_app, Hl in E. unfold ENTRY_FIXED in E. simpl in E. lia. }
  rewrite get_range_prefix by lia. cbn [ok_or mbind result_bind]. rewrite (from_to_le 8) by done.
  destruct (ino =? 0) eqn:E2; zbool; [done|].
  assert (Hlen : (to_le 8 ino ++ len :: tl) !! 8%nat = Some len).
  { rewrite lookup_app_r by lia. by replace (8 - length (to_le 8 ino))%nat with 0%nat by lia. }
  rewrite Hlen. done.
Qed.

Lemma decode_entry fuel e rest acc :
  entry_ok e -> decode_loop (S fuel) (entry_encode e ++ rest) acc = decode_loop fuel rest (acc ++ [e]).
Proof.
  intros [Hi Hz Hl Hu]. unfold entry_encode, NAME_MAX in *. rewrite Z.min_l by lia.
  rewrite Z.mod_small by lia. rewrite Nat2Z.id, take_ge by lia.
  replace ((to_le 8 (inode e) ++ [Z.of_nat (length (ename e))] ++ ename e) ++ rest)
    with (to_le 8 (inode e) ++ Z.of_nat (length (ename e)) :: (ename e ++ rest)) by (by rewrite <- !app_assoc).
  rewrite decode_header by done. unfold ENTRY_FIXED. pose proof (length_to_le 8 (inode e) ltac:(lia)) as H8.
  set (pre := to_le 8 (inode e) ++ [Z.of_nat (length (ename e))]).
  assert (Hpre : Z.of_nat (length pre) = 9) by (subst pre; rewrite length_app, H8; simpl; lia).
  replace (to_le 8 (inode e) ++ Z.of_nat (length (ename e)) :: ename e ++ rest) with (pre ++ ename e ++ rest)
    by (subst pre; by rewrite <- app_assoc).
  rewrite get_range_after by done. cbn [ok_or mbind result_bind]. rewrite Hu. cbn [negb].
  rewrite (app_assoc pre), drop_app_ge by (rewrite length_app; lia).
  replace (_ - _)%nat with 0%nat by (rewrite length_app; lia). rewrite drop_0. by destruct e.
Qed.

Lemma decode_entries d fuel tl acc :
  Forall entry_ok d -> (length d <= fuel)%nat ->
  decode_loop fuel (dir_encode d ++ tl) acc = decode_loop (fuel - length d) tl (acc ++ d).
Proof.
  intros Hd. revert fuel acc. induction Hd as [|e d He Hd IH]; intros fuel acc Hf.
  - unfold dir_encode. simpl. by rewrite Nat.sub_0_r, app_nil_r.
  - destruct fuel as [|fuel]; simpl in Hf; [lia|]. unfold dir_encode. cbn [fmap list_fmap mjoin list_join].
    rewrite <- app_assoc, decode_entry by done. fold (dir_encode d). rewrite IH by lia.
    cbn [length]. by rewrite <- app_assoc.
Qed.

Lemma length_entry_encode e : (9 <= length (entry_encode e))%nat.
Proof. unfold entry_encode. rewrite !length_app, length_to_le by lia. simpl. lia. Qed.

Lemma length_dir_encode d : (9 * length d <= length (dir_encode d))%nat.
Proof.
  induction d as [|e d IH]; [done|]. change (dir_encode (e :: d)) with (entry_encode e ++ dir_encode d).
  rewrite length_app. pose proof (length_entry_encode e). simpl length. lia.
Qed.

Lemma decode_tail d tl :
  Forall entry_ok d -> exists fuel, dir_decode (dir_encode d ++ tl) = decode_loop (S fuel) tl d.
Proof.
  intros Hd. unfold dir_decode. pose proof (length_dir_encode d).
  assert (Hf : (length d <= length (dir_encode d ++ tl))%nat) by (rewrite length_app; lia).
  rewrite decode_entries by (done || lia). exists (length (dir_encode d ++ tl) - length d)%nat.
  by rewrite Nat.sub_succ_l by done.
Qed.

(** A directory whose entries are valid decodes to itself from its encoded
    bytes followed by any zero padding; fewer than nine stray bytes after the
    last entry are ignored, whatever they are; and a final entry whose name
    is cut short makes the object corrupt. *)
Theorem directory_codec (d : Directory) :
  Forall entry_ok d ->
  (forall n, dir_decode (dir_encode d ++ replicate n 0) = Ok d) /\
  (forall tl, Z.of_nat (length tl) < ENTRY_FIXED -> dir_decode (dir_encode d ++ tl) = Ok d) /\
  (forall ino len name, in_uint 64 ino -> ino <> 0 -> Z.of_nat (length name) < len ->
     dir_decode (dir_encode d ++ to_le 8 ino ++ len :: name) = Err Corrupt).
Proof.
  intros Hd.
  assert (Hshort : forall tl, Z.of_nat (length tl) < ENTRY_FIXED -> dir_decode (dir_encode d ++ tl) = Ok d).
  { intros tl Ht. destruct (decode_tail d tl Hd) as [fuel ->]. cbn [decode_loop].
    by rewrite (proj2 (Z.ltb_lt _ _)) by done. }
  split; [|split; [done|]].
  - intros n. destruct (decide (n < 9)%nat) as [Hn|Hn].
    { apply Hshort. rewrite length_replicate. unfold ENTRY_FIXED. lia. }
    destruct (decode_tail d (replicate n 0) Hd) as [fuel ->]. cbn [decode_loop].
    rewrite length_replicate, (proj2 (Z.ltb_ge _ _)) by (unfold ENTRY_FIXED; lia).
    replace n with (8 + (n - 8))%nat by lia. rewrite replicate_add, get_range_prefix by done.
    cbn [ok_or mbind result_bind]. by replace (from_le (replicate 8 0)) with 0 by (by vm_compute).
  - intros ino len name Hi Hz Hlen. destruct (decode_tail d (to_le 8 ino ++ len :: name) Hd) as [fuel ->].
    rewrite decode_header by done. unfold get_range. rewrite length_app, length_to_le by lia. unfold ENTRY_FIXED.
    rewrite (proj2 (Z.leb_gt _ _)) by (simpl length; lia). done.
Qed.

(** ** Directories as maps *)

Definition names (d : Directory) : list bytes := ename <$> d.

Lemma lookup_None name d : lookup name d = None <-> name ∉ names d.
Proof.
  induction d as [|e d IH]; simpl; [split; [intros _; apply not_elem_of_nil|done]|].
  rewrite not_elem_of_cons. case_bool_decide; [naive_solver|]. rewrite IH. naive_solver.
Qed.

Lemma lookup_app name d d' :
  lookup name (d ++ d') = match lookup name d with Some i => Some i | None => lookup name d' end.
Proof. induction d as [|e d IH]; simpl; [done|]. by case_bool_decide. Qed.

Lemma remove_ok name d :
  NoDup (names d) ->
  (remove name d).1 = lookup name d /\
  (forall n, lookup n (remove name d).2 = if bool_decide (n = name) then None else lookup n d) /\
  names (remove name d).2 = filter (fun n => n <> name) (names d).
Proof.
  induction d as [|e d IH]; simpl; intros Hnd.
  - split; [done|]. split; [|done]. intros n. by case_bool_decide.
  - apply NoDup_cons in Hnd as [Hnot Hnd]. fold (names d) in Hnot, Hnd. destruct (IH Hnd) as (IH1 & IH2 & IH3).
    case_bool_decide as Hn; simpl.
    + subst name. split; [done|]. split.
      * intros n. case_bool_decide as E; [subst; by apply lookup_None|]. by rewrite bool_decide_eq_false_2 by done.
      * rewrite filter_cons_False by (by intros []). symmetry. apply filter_keep_all. by intros x Hx ->.
    + destruct (remove name d) as [r d'] eqn:E. simpl in *. split; [done|]. split.
      * intros n. rewrite IH2. do 2 case_bool_decide; congruence || done.
      * by rewrite filter_cons_True, IH3.
Qed.

(** A directory is a map from names to inodes: with distinct names, an
    insertion succeeds exactly when the name is valid, normalised and absent,
    and then binds that name only; a refused insertion changes nothing;
    removal returns the bound inode and unbinds that name only; both keep the
    names distinct. *)
Theorem directory_map `{NfcCheck} (d : Directory) (name : bytes) (ino : Z) :
  NoDup (names d) ->
  (let '(r, d') := insert name ino d in
   (r = Ok () <-> validate_name name = Ok () /\ is_nfc name = true /\ lookup name d = None) /\
   (r = Ok () -> NoDup (names d') /\
      forall n, lookup n d' = if bool_decide (n = name) then Some ino else lookup n d) /\
   (r <> Ok () -> r = Err InvalidName /\ d' = d)) /\
  (let '(r, d') := remove name d in
   r = lookup name d /\ NoDup (names d') /\
   forall n, lookup n d' = if bool_decide (n = name) then None else lookup n d).
Proof.
  intros Hnd. split.
  - unfold insert. destruct (validate_name name) as [[]|err] eqn:Ev.
    2:{ assert (err = InvalidName) as -> by (unfold validate_name in Ev; repeat case_match; congruence).
        split; [split; [done|by intros (? & _)]|]. split; done. }
    destruct (is_nfc name) eqn:En; simpl; [|split; [split; [done|by intros (_ & ? & _)]|]; split; done].
    destruct (lookup name d) as [j|] eqn:El; simpl; [split; [split; [done|by intros (_ & _ & ?)]|]; split; done|].
    split; [done|]. split; [|done]. intros _. split.
    + unfold names. rewrite fmap_app. apply NoDup_app. split; [done|]. split; [|apply NoDup_singleton].
      simpl. intros x Hx ->%list_elem_of_singleton. apply lookup_None in El. by destruct El.
    + intros n. rewrite lookup_app. simpl. case_bool_decide as E.
      * subst n. by rewrite El, bool_decide_eq_true_2.
      * rewrite bool_decide_eq_false_2 by done. by destruct (lookup n d).
  - pose proof (remove_ok name d Hnd) as (H1 & H2 & H3). destruct (remove name d) as [r d']. simpl in *.
    split; [done|]. split; [rewrite H3; by apply NoDup_filter|done].
Qed.

(** ** Snapshots *)

Record snap_fits (e : SnapshotEntry) : Prop := {
  sf_id : in_uint 64 (snap_id e); sf_gen : in_uint 64 (snap_generation e); sf_root : in_uint 64 (snap_root e);
  sf_merkle : length (snap_merkle e) = Z.to_nat 32; sf_epoch : in_uint 64 (snap_epoch e)
}.

Lemma length_snap_encode e : length (snap_encode e) = Z.to_nat ENTRY_LEN.
Proof. unfold snap_encode, ENTRY_LEN. by autorewrite with rlen. Qed.

Lemma snap_decode_encode e : snap_fits e -> snap_decode (snap_encode e) = Some e.
Proof.
  intros [H1 H2 H3 H4 H5]. unfold snap_decode, snap_encode, ENTRY_LEN. ranges. cbn [mbind option_bind].
  rewrite !(from_to_le 8) by done. by destruct e.
Qed.

Lemma decode_chunks_encode t fuel :
  Forall snap_fits t -> (length t <= fuel)%nat -> decode_chunks fuel (table_encode t) = Ok t.
Proof.
  intros Ht. revert fuel. induction Ht as [|e t He Ht IH]; intros fuel Hf; simpl in Hf; [by destruct fuel|].
  destruct fuel as [|fuel]; [lia|]. change (table_encode (e :: t)) with (snap_encode e ++ table_encode t).
  pose proof (length_snap_encode e) as Hl. cbn [decode_chunks].
  rewrite bool_decide_eq_false_2 by (intros H0; apply (f_equal length) in H0; rewrite length_app, Hl in H0; unfold ENTRY_LEN in H0; simpl in H0; lia).
  rewrite <- Hl, take_app_length, drop_app_length, snap_decode_encode by done. cbn [ok_or mbind result_bind].
  by rewrite IH by lia.
Qed.

Lemma length_table_encode t : Z.of_nat (length (table_encode t)) = Z.of_nat (length t) * ENTRY_LEN.
Proof.
  induction t as [|e t IH]; [done|]. change (table_encode (e :: t)) with (snap_encode e ++ table_encode t).
  rewrite length_app, length_snap_encode. unfold ENTRY_LEN in *. simpl length. lia.
Qed.

Lemma snap_get_app id t t' :
  snap_get id (t ++ t') = match snap_get id t with Some e => Some e | None => snap_get id t' end.
Proof. induction t as [|e t IH]; simpl; [done|]. by destruct (_ =? id). Qed.

Lemma retain_ok blocks m :
  Forall (fun b => 0 <= b < Z.of_nat (length (refcounts m))) blocks ->
  Forall (fun rc => 0 <= rc < 2 ^ 32) (refcounts m) ->
  exists m', retain blocks m = (Ok (), m') /\ length (refcounts m') = length (refcounts m) /\ reserved m' = reserved m /\
    Forall (fun rc => 0 <= rc < 2 ^ 32) (refcounts m') /\
    (forall b, 0 <= b -> refcount b m <= refcount b m') /\ (forall b, b ∈ blocks -> 0 < refcount b m').
Proof.
  revert m. induction blocks as [|b blocks IH]; intros m Hb Hrc; simpl.
  - exists m. split_and!; [done|done|done|done|done|]. intros b Hin. by apply not_elem_of_nil in Hin.
  - apply Forall_cons in Hb as [Hb1 Hb]. unfold incref.
    destruct (lookup_lt_is_Some_2 (refcounts m) (Z.to_nat b) ltac:(lia)) as [rc Hr]. rewrite Hr.
    pose proof (proj1 (Forall_lookup _ _) Hrc _ _ Hr) as Hrb. simpl in Hrb.
    set (m1 := mkAlloc _ _). assert (Hl : length (refcounts m1) = length (refcounts m)) by (by unfold m1; simpl; rewrite length_insert).
    assert (Hrc1 : Forall (fun rc => 0 <= rc < 2 ^ 32) (refcounts m1)).
    { apply Forall_insert; [done|]. unfold saturating_add, uint_max. lia. }
    assert (Hget : forall x, 0 <= x -> refcount x m1 = if bool_decide (x = b) then saturating_add 32 rc 1 else refcount x m).
    { intros x Hx. unfold refcount, m1. cbn [refcounts]. case_bool_decide as E.
      - subst. by rewrite list_lookup_insert_eq by (by apply lookup_lt_Some in Hr).
      - by rewrite list_lookup_insert_ne by lia. }
    destruct (IH m1 ltac:(by rewrite Hl) Hrc1) as (m' & -> & Hl' & Hres & Hrc' & Hmono & Hpos).
    assert (Hstep : forall x, 0 <= x -> refcount x m <= refcount x m1).
    { intros x Hx. rewrite Hget by done. case_bool_decide as E; [|lia]. subst. unfold refcount. rewrite Hr. simpl.
      unfold saturating_add, uint_max. lia. }
    exists m'. split_and!; [done|lia|done|done| |].
    + intros x Hx. specialize (Hstep x Hx). specialize (Hmono x Hx). lia.
    + intros x [->|Hx]%elem_of_cons; [|by apply Hpos]. specialize (Hmono b ltac:(lia)).
      rewrite Hget, bool_decide_eq_true_2 in Hmono by lia. unfold saturating_add, uint_max in Hmono. lia.
Qed.

(** ** Claims *)

(** The 256-byte inode record round-trips: an inode whose fields fit their
    widths decodes to itself, whatever follows it in the buffer, exactly when
    it claims at most four inline extents, and is refused as corrupt
    otherwise; so is every buffer shorter than the record. *)
Theorem inode_codec (i : InodeV3) (rest : bytes) :
  inode_fits i ->
  Z.of_nat (length (inode_encode i)) = INODE_SIZE /\
  inode_decode (inode_encode i ++ rest) = (if extent_count i <=? INLINE_EXTENTS then Ok i else Err Corrupt) /\
  (forall buf, Z.of_nat (length buf) < INODE_SIZE -> inode_decode buf = Err Corrupt).
Proof.
  intros Hf. split; [apply length_inode_encode|]. split; [by apply inode_decode_encode|].
  intros buf Hb. unfold inode_decode, get_range. by rewrite (proj2 (Z.leb_gt _ _)) by lia.
Qed.

(** Snapshots and clones: a snapshot taken under a new id is found again,
    its table round-trips through its bytes, and a clone started from it
    commits as the next generation and mounts with exactly the roots the
    snapshot recorded. *)
Theorem snapshot_clone (keyed_hash : bytes -> bytes -> bytes) {D} `{ReliableDevice D} (dev : D) (key : bytes)
    (t t' : SnapshotTable) (id : Z) (old cur : SuperblockV3) (e : SnapshotEntry) :
  (forall k m, length (keyed_hash k m) = 32%nat) ->
  Forall snap_fits t -> in_uint 64 id -> sb_ok old -> sb_ok cur -> generation cur + 1 < 2 ^ 64 ->
  volume_at keyed_hash dev key cur -> snap_take id old t = (Ok e, t') ->
  snap_get id t' = Some e /\ table_decode (table_encode t') = Ok t' /\
  exists clone dev', clone_from e cur = Done clone /\ commit keyed_hash dev clone key = (Ok (), dev') /\
    mount keyed_hash dev' key = Ok clone /\ generation clone = generation cur + 1 /\
    root_dir_inode clone = root_dir_inode old /\ merkle_root clone = merkle_root old /\
    key_epoch clone = key_epoch old.
Proof.
  intros Hh Ht Hid Hold Hcur Hg Hvol Htake. unfold snap_take in Htake.
  destruct (snap_get id t) eqn:Hget; [done|]. injection Htake as <- <-. split; [|split].
  - rewrite snap_get_app, Hget. simpl. by rewrite Z.eqb_refl.
  - assert (Ht' : Forall snap_fits (t ++ [mkSnap id (generation old) (root_dir_inode old) (merkle_root old) (key_epoch old)])).
    { apply Forall_app. split; [done|]. constructor; [|constructor]. by destruct Hold. }
    unfold table_decode. rewrite length_table_encode, Z_mod_mult. simpl negb.
    apply decode_chunks_encode; [done|]. pose proof (length_table_encode (t ++ [mkSnap id (generation old) (root_dir_inode old) (merkle_root old) (key_epoch old)])).
    unfold ENTRY_LEN in *. lia.
  - unfold clone_from. rewrite add_uint_Done by done. cbn [mbind exec_bind snap_root snap_merkle snap_epoch].
    set (clone := mkSb _ _ _ _ _ _ _ _ _).
    assert (Hok : sb_ok clone) by (destruct Hold, Hcur; unfold clone; split; simpl; try done; unfold in_uint in *; lia).
    destruct (commit_volume keyed_hash Hh dev key cur clone Hvol Hok eq_refl) as (dev' & Hc & Hv & _).
    exists clone, dev'. split; [done|]. split; [done|]. split; [by apply (volume_mount keyed_hash)|done].
Qed.

(** Retained blocks are never reused: after a snapshot's blocks are
    retained, every block keeps at least its count, and no run the allocator
    returns contains a retained block. *)
Theorem retain_protects (blocks : list Z) (m : AllocMap) (count : Z) :
  Forall (fun b => 0 <= b < Z.of_nat (length (refcounts m))) blocks ->
  Forall (fun rc => 0 <= rc < 2 ^ 32) (refcounts m) ->
  0 <= reserved m -> Z.of_nat (length (refcounts m)) < 2 ^ 64 -> 0 < count ->
  exists m', retain blocks m = (Ok (), m') /\ (forall b, 0 <= b -> refcount b m <= refcount b m') /\
    forall s m'', alloc_run count m' = (Some s, m'') ->
      forall b, b ∈ blocks -> ~ (s <= b < s + count).
Proof.
  intros Hb Hrc Hr Hlen Hc. destruct (retain_ok blocks m Hb Hrc) as (m' & Hret & Hl & Hres & _ & Hmono & Hpos).
  exists m'. split; [done|]. split; [done|]. intros s m'' Hrun b Hin Hrange.
  assert (Hrun' : alloc_run_loop (S (length (refcounts m'))) (reserved m') count m' = (Some s, m'')).
  { unfold alloc_run in Hrun. by destruct (count =? 0) eqn:E; zbool; [lia|]. }
  pose proof (alloc_run_loop_ok (S (length (refcounts m'))) (reserved m') count m' ltac:(lia) Hc ltac:(lia) ltac:(lia)) as Hok.
  rewrite Hrun' in Hok. destruct Hok as (_ & (_ & _ & Hz) & _). specialize (Hz b Hrange). specialize (Hpos b Hin).
  unfold refcount in Hpos. rewrite Hz in Hpos. simpl in Hpos. lia.
Qed.

Definition demo_inode : InodeV3 :=
  mkInode 420 1 1000 1000 8192 77 2 (replicate 32 5) 0 2
    [mkExtent 0 100 1; mkExtent 1 50 1; mkExtent 0 0 0; mkExtent 0 0 0] 0.

Lemma inode_codec_witness : inode_decode (inode_encode demo_inode ++ [1; 2; 3]) = Ok demo_inode.
Proof.
  destruct (inode_codec demo_inode [1; 2; 3]) as (_ & H & _); [|exact H].
  split; try done. split; [|done]. by repeat constructor.
Defined.

Definition demo_dir : Directory := [mkDirEntry 7 [97; 98]; mkDirEntry 9 [195; 169]].

Lemma directory_codec_witness :
  dir_decode (dir_encode demo_dir ++ replicate 40 0) = Ok demo_dir /\
  dir_decode (dir_encode demo_dir ++ [1; 2; 3]) = Ok demo_dir.
Proof.
  destruct (directory_codec demo_dir) as (H1 & H2 & _); [by repeat constructor|].
  split; [apply H1|by apply H2].
Defined.

Lemma directory_map_witness :
  (insert (H := AsciiNfc) [99] 3 demo_dir).1 = Ok () /\ (remove [97; 98] demo_dir).1 = Some 7.
Proof.
  destruct (directory_map (H := AsciiNfc) demo_dir [99] 3) as [H1 _].
  { apply (bool_decide_unpack _). by vm_compute. }
  destruct (directory_map (H := AsciiNfc) demo_dir [97; 98] 3) as [_ H2].
  { apply (bool_decide_unpack _). by vm_compute. }
  destruct (insert (H := AsciiNfc) [99] 3 demo_dir) as [r d'], (remove [97; 98] demo_dir) as [r2 d2] eqn:E2.
  split; [by apply H1|]. destruct H2 as (-> & _). reflexivity.
Defined.

Lemma snapshot_clone_witness :
  exists clone dev', clone_from (mkSnap 4 0 1 (replicate 32 7) 0) (demo_sb 1) = Done clone /\
    commit checksum demo_dev clone [9] = (Ok (), dev') /\ mount checksum dev' [9] = Ok clone.
Proof.
  destruct (snapshot_clone checksum demo_dev [9] [] [mkSnap 4 0 1 (replicate 32 7) 0] 4 (demo_sb 0) (demo_sb 1)
    (mkSnap 4 0 1 (replicate 32 7) 0)) as (_ & _ & clone & dev' & H1 & H2 & H3 & _);
    [done|constructor|done|by apply demo_sb_ok|by apply demo_sb_ok|done|exact demo_volume|done|].
  exists clone, dev'. split; [exact H1|]. split; [exact H2|exact H3].
Defined.

Lemma retain_protects_witness :
  exists m', retain [2] (mkAlloc [1; 1; 0; 0; 0] 2) = (Ok (), m') /\ alloc_run 2 m' = (Some 3, mkAlloc [1; 1; 1; 1; 1] 2) /\
    ~ (3 <= 2 < 3 + 2).
Proof.
  destruct (retain_protects [2] (mkAlloc [1; 1; 0; 0; 0] 2) 2) as (m' & H1 & _ & H2);
    [by repeat constructor|by repeat constructor|done|done|done|].
  exists m'. split; [exact H1|]. vm_compute in H1. injection H1 as <-. split; [reflexivity|].
  apply (H2 3 (mkAlloc [1; 1; 1; 1; 1] 2)); [reflexivity|left].
Defined.
