(* ===== verification/Mkfs.v ===== *)
(** * Formatting a v3 volume

    [nexacore-fs/src/v3/mkfs.rs]: [format] composes the directory, allocation
    map, Merkle and superblock components on any [BlockDevice]. *)

From S2P Require Import Prelude Superblock Merkle Extent Objects.

Definition ALLOC_MAP_BLOCK : Z := 2.
Definition ROOT_DIR_BLOCK : Z := 3.
Definition ROOT_INODE : Z := 1.
Definition RESERVED_BLOCKS : Z := 4.
Definition MIN_BLOCKS : Z := RESERVED_BLOCKS.

Record VolumeKeys := mkKeys { mac_key : bytes; merkle_key : bytes }.

(** [block.chunks_mut(4).take(BLOCK_SIZE / 4)]: the whole block is rewritten. *)
Definition write_alloc_map (m : AllocMap) : Block :=
  mjoin ((fun i => to_le 4 (refcount i m)) <$> seqZ 0 (BLOCK_SIZE / 4)).

Definition format (keyed_hash : bytes -> bytes -> bytes) {D} `{BlockDevice D} (dev : D) (keys : VolumeKeys) :
    exec (V3Result SuperblockV3 * D) :=
  let total := block_count dev in
  if total <? MIN_BLOCKS then Done (Err BlockOutOfRange, dev)
  else
    let encoded := dir_encode dir_new in
    if BLOCK_SIZE <? Z.of_nat (length encoded) then Done (Err Overflow, dev)
    else
      let root_block := put_range zero_block 0 encoded in
      match write_block ROOT_DIR_BLOCK root_block dev with
      | (Err e, dev) => Done (Err e, dev)
      | (Ok _, dev) =>
          m ← alloc_new total RESERVED_BLOCKS;
          match write_block ALLOC_MAP_BLOCK (write_alloc_map m) dev with
          | (Err e, dev) => Done (Err e, dev)
          | (Ok _, dev) =>
              let root := root_over_blocks keyed_hash (merkle_key keys) [root_block] in
              free ← sub_uint total RESERVED_BLOCKS;
              let sb := mkSb 1 total ROOT_INODE root 0 free 1 ALLOC_MAP_BLOCK 0 in
              match commit keyed_hash dev sb (mac_key keys) with
              | (Err e, dev) => Done (Err e, dev)
              | (Ok _, dev) => Done (Ok sb, dev)
              end
          end
      end.

(** ** The allocation map block *)

Lemma length_join_fmap (f : Z -> bytes) k l :
  (forall j, length (f j) = Z.to_nat k) -> length (mjoin (f <$> l)) = (length l * Z.to_nat k)%nat.
Proof.
  intros Hf. induction l as [|x l IH]; [done|]. change (mjoin (f <$> x :: l)) with (f x ++ mjoin (f <$> l)).
  rewrite length_app, Hf, IH. simpl length. lia.
Qed.

Lemma get_range_join (f : Z -> bytes) n i k :
  (forall j, length (f j) = Z.to_nat k) -> 0 < k -> 0 <= i < n ->
  get_range (mjoin (f <$> seqZ 0 n)) (i * k) k = Some (f i).
Proof.
  intros Hf Hk Hi. pose proof (fun l => length_join_fmap f k l Hf) as Hlen.
  replace n with (i + (1 + (n - i - 1))) by lia. rewrite !seqZ_app by lia. rewrite !fmap_app, !join_app.
  rewrite (seqZ_cons _ 1) by lia. rewrite (seqZ_nil _ (Z.pred 1)) by lia. rewrite Z.add_0_l. change (mjoin (f <$> [i])) with (f i ++ []).
  rewrite app_nil_r. unfold get_range. rewrite !length_app, !Hlen, Hf, !length_seqZ, (proj2 (Z.leb_le _ _)) by nia. f_equal.
  replace (Z.to_nat (i * k)) with (length (mjoin (f <$> seqZ 0 i))) by (rewrite Hlen, length_seqZ; nia).
  rewrite drop_app_length, <- (Hf i). apply take_app_length.
Qed.

Lemma alloc_new_refcount total r i m :
  alloc_new total r = Done m -> 0 <= r <= total -> 0 <= i < total -> refcount i m = if i <? r then 1 else 0.
Proof.
  unfold alloc_new. destruct (_ <? _); [done|]. intros [= <-] Hr Hi. unfold refcount. cbn [refcounts].
  replace (Nat.min (Z.to_nat r) (Z.to_nat total)) with (Z.to_nat r) by lia.
  destruct (i <? r) eqn:E; zbool.
  - rewrite lookup_app_l by (rewrite length_replicate; lia). by rewrite lookup_replicate_2 by lia.
  - rewrite lookup_app_r by (rewrite length_replicate; lia). rewrite length_replicate.
    by rewrite lookup_replicate_2 by lia.
Qed.

Lemma length_alloc_map m : length (write_alloc_map m) = Z.to_nat BLOCK_SIZE.
Proof.
  unfold write_alloc_map. rewrite (length_join_fmap _ 4) by (intros; by rewrite length_to_le).
  rewrite length_seqZ. by vm_compute.
Qed.

(** Formatting a device of at least four blocks succeeds: the committed
    superblock is generation 1 with all but the reserved blocks free, the
    root directory block decodes to an empty directory, and the allocation
    map block records exactly the reserved blocks. Mounting gives that
    superblock when slot A does not authenticate; but slot A is not cleared,
    so an older volume under the same key whose slot A holds a generation
    past zero is what mounts. Smaller devices are refused untouched. *)
Theorem mkfs_mount (keyed_hash : bytes -> bytes -> bytes) {D} `{ReliableDevice D} (dev : D) (keys : VolumeKeys)
    (slot_a : Block) :
  (forall k m, length (keyed_hash k m) = 32%nat) ->
  dev_ok dev -> MIN_BLOCKS <= block_count dev -> 4 * block_count dev < 2 ^ 63 ->
  read_block SLOT_A dev = Ok slot_a ->
  exists sb dev' root_block map_block,
    format keyed_hash dev keys = Done (Ok sb, dev') /\
    generation sb = 1 /\ total_blocks sb = block_count dev /\ free_blocks sb = block_count dev - RESERVED_BLOCKS /\
    read_block ROOT_DIR_BLOCK dev' = Ok root_block /\ dir_decode root_block = Ok [] /\
    Superblock.merkle_root sb = leaf_hash keyed_hash (merkle_key keys) root_block /\
    read_block (alloc_map_block sb) dev' = Ok map_block /\
    (forall i, 0 <= i < Z.min 1024 (block_count dev) ->
       get_u32 map_block (i * 4) = Some (if i <? RESERVED_BLOCKS then 1 else 0)) /\
    mount keyed_hash dev' (mac_key keys) =
      match decode keyed_hash slot_a (mac_key keys) with
      | Ok old => Ok (if generation old <? 1 then sb else old)
      | Err _ => Ok sb
      end.
Proof.
  intros Hh Hok Hmin Hbig Ha. unfold MIN_BLOCKS, RESERVED_BLOCKS in *. unfold format.
  rewrite (proj2 (Z.ltb_ge _ _)) by (unfold MIN_BLOCKS, RESERVED_BLOCKS; lia).
  change (dir_encode dir_new) with ([] : bytes). rewrite (proj2 (Z.ltb_ge _ _)) by (simpl length; unfold BLOCK_SIZE; lia).
  assert (Hroot : put_range zero_block 0 [] = zero_block).
  { unfold put_range, splice. by rewrite (proj2 (Z.leb_le _ _)) by (simpl length; lia). }
  rewrite Hroot.
  destruct (write_ok dev ROOT_DIR_BLOCK zero_block Hok) as (d1 & -> & Hok1 & Hc1 & _ & Hr1 & Ho1);
    [unfold ROOT_DIR_BLOCK; lia|unfold zero_block; by rewrite length_replicate|].
  destruct (alloc_new (block_count dev) RESERVED_BLOCKS) as [m|] eqn:Em.
  2:{ unfold alloc_new in Em. destruct (_ <? _) eqn:E; zbool; [lia|done]. }
  cbn [mbind exec_bind].
  destruct (write_ok d1 ALLOC_MAP_BLOCK (write_alloc_map m) Hok1) as (d2 & -> & Hok2 & Hc2 & _ & Hr2 & Ho2);
    [unfold ALLOC_MAP_BLOCK; lia|apply length_alloc_map|].
  unfold RESERVED_BLOCKS. rewrite sub_uint_Done by lia. cbn [mbind exec_bind]. set (sb := mkSb _ _ _ _ _ _ _ _ _).
  assert (Hsb : sb_ok sb).
  { split; simpl; try (unfold in_uint, ROOT_INODE, ALLOC_MAP_BLOCK; lia). apply Hh. }
  destruct (commit_device keyed_hash d2 sb (mac_key keys) Hok2 ltac:(lia) ltac:(done))
    as (d3 & -> & _ & _ & _ & Hr3 & Ho3).
  change (slot_for_generation (generation sb)) with 1 in *.
  exists sb, d3, zero_block, (write_alloc_map m).
  assert (Hrd : read_block ROOT_DIR_BLOCK d3 = Ok zero_block) by (by rewrite Ho3, Ho2).
  assert (Hmap : read_block ALLOC_MAP_BLOCK d3 = Ok (write_alloc_map m)) by (by rewrite Ho3).
  do 4 (split; [done|]). split; [done|]. split; [by vm_compute|]. split; [done|]. split; [done|]. split.
  - intros i Hi. unfold get_u32, write_alloc_map. rewrite (get_range_join _ _ _ 4).
    + simpl. rewrite (alloc_new_refcount _ _ _ _ Em) by (unfold RESERVED_BLOCKS; lia). unfold RESERVED_BLOCKS.
      rewrite (from_to_le 4) by (destruct (i <? 4); unfold in_uint; lia). done.
    + intros j. by rewrite length_to_le.
    + lia.
    + change (BLOCK_SIZE / 4) with 1024. lia.
  - assert (Ha3 : read_block SLOT_A d3 = Ok slot_a) by (by rewrite Ho3, Ho2, Ho1).
    rewrite (mount_select keyed_hash d3 (mac_key keys) slot_a (encode keyed_hash sb (mac_key keys)) Ha3 Hr3).
    rewrite decode_encode by done. by destruct (decode keyed_hash slot_a (mac_key keys)).
Qed.

Definition blank : MemBlockDevice := mkMem (replicate (Z.to_nat (5 * BLOCK_SIZE)) 0) 5 0 0.

Lemma mkfs_mount_witness :
  exists sb dev', format checksum blank (mkKeys [9] [3]) = Done (Ok sb, dev') /\ free_blocks sb = 1 /\
    mount checksum dev' [9] = Ok sb.
Proof.
  destruct (mkfs_mount checksum blank (mkKeys [9] [3]) zero_block)
    as (sb & dev' & rb & mb & H1 & _ & _ & H2 & _ & _ & _ & _ & _ & H3); [done|by vm_compute|done|done|by vm_compute|].
  exists sb, dev'. split; [exact H1|]. split; [exact H2|]. etransitivity; [exact H3|]. by vm_compute.
Defined.
