(* ===== verification/Swap.v ===== *)
(** * Swap: device format, slot map, zram store and victim selection

    [nexacore-kernel/src/swap.rs].  The swap device and the page compressor
    are the traits [SwapDevice] and [PageCompressor] (classes); the in-memory
    device and the identity compressor are their instances in the code.  A
    call that fills an output page returns it. *)

From S2P Require Import Prelude.

Definition PAGE_SIZE : Z := 4096.

Inductive SwapError : Type := Full | SlotOutOfRange | SlotNotAllocated | Corrupt | Io | Decompress.
#[export] Instance SwapError_eq_dec : EqDecision SwapError.
Proof. solve_decision. Defined.
Abbreviation SwapResult := (result SwapError).

(** ** The header *)

(** ["NCSWAP01"]. *)
Definition SWAP_MAGIC : bytes := [78; 67; 83; 87; 65; 80; 48; 49].

Record SwapHeader := mkHeader { hdr_slots : Z; hdr_page_size : Z }.

Definition header_encode (h : SwapHeader) : bytes :=
  let out := replicate 20 0 in
  let out := put_range out 0 SWAP_MAGIC in
  let out := put_range out 8 (to_le 8 (hdr_slots h)) in
  put_range out 16 (to_le 4 (hdr_page_size h)).

Definition header_decode (b : bytes) : SwapResult SwapHeader :=
  magic ← ok_or (get_range b 0 8) Corrupt;
  if negb (bool_decide (magic = SWAP_MAGIC)) then Err Corrupt
  else
    slots ← ok_or (get_range b 8 8) Corrupt;
    page ← ok_or (get_range b 16 4) Corrupt;
    if negb (from_le page =? PAGE_SIZE) then Err Corrupt
    else Ok (mkHeader (from_le slots) (from_le page)).

(** ** The slot map *)

Record SwapSlotMap := mkSlots { used : list bool }.

(** [vec![false; slot_count]] panics past [isize::MAX]. *)
Definition slots_new (slot_count : Z) : exec SwapSlotMap :=
  if 2 ^ 63 - 1 <? slot_count then Panic else Done (mkSlots (replicate (Z.to_nat slot_count) false)).

Definition slots_free_count (m : SwapSlotMap) : Z := Z.of_nat (length (filter (fun u => u = false) (used m))).

Definition is_used (slot : Z) (m : SwapSlotMap) : bool := default false (used m !! Z.to_nat slot).

(** [iter().position(|&u| !u)]. *)
Fixpoint first_free (l : list bool) : option nat :=
  match l with
  | [] => None
  | false :: _ => Some O
  | true :: l => S <$> first_free l
  end.

Definition slots_alloc (m : SwapSlotMap) : option Z * SwapSlotMap :=
  match first_free (used m) with
  | None => (None, m)
  | Some slot => (Some (Z.of_nat slot), mkSlots (<[slot := true]> (used m)))
  end.

Definition slots_free (slot : Z) (m : SwapSlotMap) : SwapResult () * SwapSlotMap :=
  match used m !! Z.to_nat slot with
  | None => (Err SlotOutOfRange, m)
  | Some false => (Err SlotNotAllocated, m)
  | Some true => (Ok (), mkSlots (<[Z.to_nat slot := false]> (used m)))
  end.

(** ** Devices and swapping *)

Class SwapDevice (D : Type) := {
  dev_slots : D -> Z;
  write_page : Z -> bytes -> D -> SwapResult () * D;
  read_page : Z -> D -> SwapResult bytes
}.

Definition mem_write_page (slot : Z) (page : bytes) (d : list bytes) : SwapResult () * list bytes :=
  match d !! Z.to_nat slot with
  | None => (Err SlotOutOfRange, d)
  | Some _ => (Ok (), <[Z.to_nat slot := page]> d)
  end.

Definition mem_read_page (slot : Z) (d : list bytes) : SwapResult bytes := ok_or (d !! Z.to_nat slot) SlotOutOfRange.

(** [MemSwapDevice] is its vector of pages. *)
#[export] Instance MemSwapDevice : SwapDevice (list bytes) := {
  dev_slots := fun d => Z.of_nat (length d);
  write_page := mem_write_page;
  read_page := mem_read_page
}.

Definition swap_out {D} `{SwapDevice D} (dev : D) (m : SwapSlotMap) (page : bytes) : SwapResult Z * D * SwapSlotMap :=
  match slots_alloc m with
  | (None, m) => (Err Full, dev, m)
  | (Some slot, m) =>
      match write_page slot page dev with
      | (Ok _, dev) => (Ok slot, dev, m)
      | (Err e, dev) => (Err e, dev, (slots_free slot m).2)
      end
  end.

Definition swap_in {D} `{SwapDevice D} (dev : D) (m : SwapSlotMap) (slot : Z) : SwapResult bytes * SwapSlotMap :=
  if negb (is_used slot m) then (Err SlotNotAllocated, m)
  else
    match read_page slot dev with
    | Err e => (Err e, m)
    | Ok page =>
        match slots_free slot m with
        | (Err e, m) => (Err e, m)
        | (Ok _, m) => (Ok page, m)
        end
    end.

(** ** Zram *)

Class PageCompressor := { compress : bytes -> bytes; decompress : bytes -> SwapResult bytes }.

Definition IdentityCompressor : PageCompressor := {|
  compress := fun page => page;
  decompress := fun data => if negb (Z.of_nat (length data) =? PAGE_SIZE) then Err Decompress else Ok data
|}.

Record ZramEntry := mkZram { zcompressed : bool; zdata : bytes }.
Record ZramStore := mkStore { frames : gmap Z ZramEntry; stored_bytes : Z }.

Definition zram_new : ZramStore := mkStore ∅ 0.

Definition store `{PageCompressor} (frame_id : Z) (page : bytes) (z : ZramStore) : ZramStore :=
  let c := compress page in
  let entry := if Z.of_nat (length c) <? PAGE_SIZE then mkZram true c else mkZram false page in
  let n := match frames z !! frame_id with
           | Some prev => saturating_sub (stored_bytes z) (Z.of_nat (length (zdata prev)))
           | None => stored_bytes z
           end in
  mkStore (<[frame_id := entry]> (frames z)) (saturating_add 64 n (Z.of_nat (length (zdata entry)))).

Definition load `{PageCompressor} (frame_id : Z) (z : ZramStore) : SwapResult bytes :=
  match frames z !! frame_id with
  | None => Err SlotNotAllocated
  | Some entry =>
      if zcompressed entry then decompress (zdata entry)
      else if Z.of_nat (length (zdata entry)) =? PAGE_SIZE then Ok (zdata entry)
      else Err Decompress
  end.

Definition evict (frame_id : Z) (z : ZramStore) : bool * ZramStore :=
  match frames z !! frame_id with
  | Some entry =>
      (true, mkStore (delete frame_id (frames z))
               (saturating_sub (stored_bytes z) (Z.of_nat (length (zdata entry)))))
  | None => (false, z)
  end.

(** ** The clock *)

Record ClockSelector := mkClock { centries : list (Z * bool); hand : nat }.

Definition clock_new : ClockSelector := mkClock [] 0.

(** [note_access]: the first entry of the frame gets its bit. *)
Fixpoint mark_access (frame : Z) (l : list (Z * bool)) : bool * list (Z * bool) :=
  match l with
  | [] => (false, [])
  | (f, r) :: l =>
      if f =? frame then (true, (f, true) :: l)
      else let '(b, l') := mark_access frame l in (b, (f, r) :: l')
  end.

Definition note_access (frame : Z) (c : ClockSelector) : bool * ClockSelector :=
  let '(b, l) := mark_access frame (centries c) in (b, mkClock l (hand c)).

Definition add (frame : Z) (c : ClockSelector) : ClockSelector :=
  let '(b, c) := note_access frame c in
  if (b : bool) then c else mkClock (centries c ++ [(frame, true)]) (hand c).

Fixpoint clock_position (frame : Z) (l : list (Z * bool)) : option nat :=
  match l with
  | [] => None
  | (f, _) :: l => if f =? frame then Some O else S <$> clock_position frame l
  end.

Definition clock_remove (frame : Z) (c : ClockSelector) : bool * ClockSelector :=
  match clock_position frame (centries c) with
  | None => (false, c)
  | Some idx =>
      let l := delete idx (centries c) in
      let h := if bool_decide (idx < hand c)%nat then pred (hand c) else hand c in
      (true, mkClock l (if bool_decide (l = []) then O else (h mod length l)%nat))
  end.

Fixpoint select_loop (bound : nat) (c : ClockSelector) : option Z * ClockSelector :=
  match bound with
  | O => (None, c)
  | S bound =>
      let h := if bool_decide (length (centries c) <= hand c)%nat then O else hand c in
      match centries c !! h with
      | None => (None, mkClock (centries c) h)
      | Some (frame, referenced) =>
          if (referenced : bool) then select_loop bound (mkClock (<[h := (frame, false)]> (centries c)) (S h))
          else
            let l := delete h (centries c) in
            (Some frame, mkClock l (if bool_decide (l = []) then O else (h mod length l)%nat))
      end
  end.

Definition select_victim (c : ClockSelector) : option Z * ClockSelector :=
  if bool_decide (centries c = []) then (None, c)
  else select_loop (length (centries c) * 2 + 1) c.

(** ** The clock is a second-chance queue *)

(** The frames from the hand on, in sweep order. *)
Definition sweep (c : ClockSelector) : list (Z * bool) :=
  let h := if bool_decide (length (centries c) <= hand c)%nat then O else hand c in
  drop h (centries c) ++ take h (centries c).

Definition clear (x : Z * bool) : Z * bool := (x.1, false).

Lemma length_sweep c : length (sweep c) = length (centries c).
Proof. unfold sweep. rewrite length_app, length_drop, length_take. case_bool_decide; lia. Qed.

Lemma head_sweep c f b r h :
  h = (if bool_decide (length (centries c) <= hand c)%nat then O else hand c) ->
  sweep c = (f, b) :: r ->
  centries c !! h = Some (f, b) /\ (h < length (centries c))%nat /\
  r = drop (S h) (centries c) ++ take h (centries c).
Proof.
  intros -> Hs. set (h := if bool_decide _ then _ else _) in *.
  assert (Hlen : length (sweep c) = S (length r)) by (by rewrite Hs). rewrite length_sweep in Hlen.
  assert (Hh : (h < length (centries c))%nat) by (subst h; case_bool_decide; lia).
  destruct (lookup_lt_is_Some_2 (centries c) h Hh) as [x Hx].
  unfold sweep in Hs. fold h in Hs. rewrite (drop_S _ _ _ Hx) in Hs. by simplify_eq/=.
Qed.

Lemma sweep_referenced l h f :
  l !! h = Some (f, true) ->
  sweep (mkClock (<[h := (f, false)]> l) (S h)) = drop (S h) l ++ take h l ++ [(f, false)].
Proof.
  intros Hl. pose proof (lookup_lt_Some _ _ _ Hl). unfold sweep. cbn [centries hand]. rewrite length_insert.
  case_bool_decide.
  - rewrite drop_0, take_0, app_nil_r, (drop_ge l) by lia. simpl. rewrite insert_take_drop by done.
    by rewrite drop_ge by lia.
  - rewrite drop_insert_lt by lia. f_equal. rewrite insert_take_drop by done.
    rewrite take_app_ge by (rewrite length_take; lia). f_equal. rewrite length_take, Nat.min_l by lia.
    by replace (S h - h)%nat with 1%nat by lia.
Qed.

Lemma sweep_removed l h f :
  l !! h = Some (f, false) ->
  let l' := delete h l in
  sweep (mkClock l' (if bool_decide (l' = []) then O else (h mod length l')%nat)) = drop (S h) l ++ take h l.
Proof.
  intros Hl l'. pose proof (lookup_lt_Some _ _ _ Hl) as Hlt.
  assert (Hl' : l' = take h l ++ drop (S h) l) by (unfold l'; by rewrite delete_take_drop).
  assert (Hlen : length l' = pred (length l)) by (rewrite Hl', length_app, length_take, length_drop; lia).
  case_bool_decide as E.
  - rewrite E. unfold sweep. simpl. rewrite E in Hl'. symmetry in Hl'. apply app_nil in Hl' as [-> ->]. done.
  - assert (length l' <> 0%nat) by (by destruct l'). unfold sweep. cbn [centries hand].
    pose proof (Nat.mod_upper_bound h (length l') ltac:(lia)). rewrite bool_decide_eq_false_2 by lia.
    destruct (decide (h = length l')) as [E2|].
    + assert (Hm : (h mod length l' = 0)%nat) by (rewrite E2 at 1; apply Nat.Div0.mod_same).
      rewrite Hm, drop_0, take_0, app_nil_r, Hl', (drop_ge l) by lia. by rewrite app_nil_r.
    + rewrite Nat.mod_small, Hl' by lia. f_equal.
      * rewrite drop_app_ge by (rewrite length_take; lia). rewrite length_take, Nat.min_l, Nat.sub_diag by lia. done.
      * rewrite take_app_le by (rewrite length_take; lia). by rewrite take_take, Nat.min_id.
Qed.

(** One round: a referenced frame goes to the back with its bit cleared, the
    first unreferenced one is taken. *)
Lemma select_step bound c f b r :
  sweep c = (f, b) :: r ->
  exists c', sweep c' = (if b then r ++ [(f, false)] else r) /\
    select_loop (S bound) c = if b then select_loop bound c' else (Some f, c').
Proof.
  intros Hs. destruct (head_sweep c f b r _ eq_refl Hs) as (Hl & _ & ->). cbn [select_loop]. rewrite Hl.
  destruct b.
  - eexists. split; [|reflexivity]. rewrite sweep_referenced by done. by rewrite <- app_assoc.
  - eexists. split; [|reflexivity]. by apply (sweep_removed _ _ f).
Qed.

Lemma select_unreferenced bound c pre f post :
  sweep c = pre ++ (f, false) :: post -> Forall (fun x => x.2 = true) pre -> (length pre < bound)%nat ->
  exists c', select_loop bound c = (Some f, c') /\ sweep c' = post ++ (clear <$> pre).
Proof.
  revert bound c post. induction pre as [|[g b] pre IH]; intros bound c post Hs Hp Hb; simpl in Hb;
    (destruct bound as [|bound]; [lia|]).
  - destruct (select_step bound c f false post Hs) as (c' & Hc & ->). exists c'. by rewrite app_nil_r.
  - apply Forall_cons in Hp as [Hg Hp]. simpl in Hg. subst b.
    destruct (select_step bound c g true _ Hs) as (c1 & Hc & ->). rewrite <- app_assoc in Hc.
    destruct (IH bound c1 (post ++ [(g, false)]) Hc Hp ltac:(lia)) as (c' & -> & Hc'). exists c'. split; [done|].
    rewrite Hc', <- app_assoc. done.
Qed.

(** With every bit set, one sweep clears them all. *)
Lemma select_all_referenced bound c :
  Forall (fun x => x.2 = true) (sweep c) -> (length (sweep c) <= bound)%nat ->
  exists c', select_loop bound c = select_loop (bound - length (sweep c)) c' /\ sweep c' = clear <$> sweep c.
Proof.
  enough (Hgen : forall pre done_ bound c, sweep c = pre ++ (clear <$> done_) ->
    Forall (fun x => x.2 = true) pre -> (length pre <= bound)%nat ->
    exists c', select_loop bound c = select_loop (bound - length pre) c' /\ sweep c' = clear <$> (done_ ++ pre)).
  { intros Hall Hb. destruct (Hgen (sweep c) [] bound c) as (c' & H1 & H2); [by rewrite app_nil_r|done|done|eauto]. }
  clear. intros pre. induction pre as [|[g b] pre IH]; intros dn bound c Hs Hp Hb; simpl in *.
  - exists c. by rewrite Nat.sub_0_r, app_nil_r.
  - destruct bound as [|bound]; [lia|]. apply Forall_cons in Hp as [Hg Hp]. simpl in Hg. subst b.
    destruct (select_step bound c g true _ Hs) as (c1 & Hc & ->).
    destruct (IH (dn ++ [(g, true)]) bound c1) as (c' & -> & Hc'); [|done|lia|].
    + rewrite Hc, <- app_assoc, fmap_app. done.
    + exists c'. split; [done|]. by rewrite Hc', <- app_assoc.
Qed.

(** C38. Victim selection always succeeds on a non-empty clock, within its two
    sweeps: it takes the first unreferenced frame from the hand on, the
    frames passed over losing their bit and moving behind the others in
    order; when every frame is referenced it takes the one at the hand and
    clears all the others. *)
Theorem clock_second_chance (c : ClockSelector) :
  centries c <> [] ->
  exists f c', select_victim c = (Some f, c') /\ length (centries c') = pred (length (centries c)) /\
    ((exists pre post, sweep c = pre ++ (f, false) :: post /\ Forall (fun x => x.2 = true) pre /\
        sweep c' = post ++ (clear <$> pre)) \/
     (exists post, sweep c = (f, true) :: post /\ Forall (fun x => x.2 = true) post /\
        sweep c' = clear <$> post)).
Proof.
  intros Hne. unfold select_victim. rewrite bool_decide_eq_false_2 by done. pose proof (length_sweep c) as Hl.
  destruct (decide (Forall (fun x => x.2 = true) (sweep c))) as [Hall|Hex].
  - destruct (select_all_referenced (length (centries c) * 2 + 1) c Hall ltac:(lia)) as (c1 & -> & Hc1).
    destruct (sweep c) as [|[f b] post] eqn:Es; [by destruct (centries c)|].
    apply Forall_cons in Hall as [Hb Hall]. simpl in Hb. subst b.
    destruct (select_unreferenced (length (centries c) * 2 + 1 - length ((f, true) :: post)) c1 [] f (fmap (M := list) clear post) Hc1)
      as (c' & -> & Hc'); [constructor|simpl in *; lia|]. rewrite app_nil_r in Hc'.
    exists f, c'. split; [done|]. split; [|right; eauto].
    rewrite <- (length_sweep c'), Hc', length_fmap, <- Hl. done.
  - apply not_Forall_Exists, Exists_exists in Hex as ([f b] & Hin & Hb); [|apply _].
    assert (exists pre f post, sweep c = pre ++ (f, false) :: post /\ Forall (fun x => x.2 = true) pre)
      as (pre & g & post & Hs & Hp).
    { clear -Hin Hb. induction (sweep c) as [|[g b'] l IH]; [by apply not_elem_of_nil in Hin|].
      destruct b'; [|exists [], g, l; split; [done|constructor]].
      apply elem_of_cons in Hin as [[= -> ->]|Hin]; [by destruct Hb|].
      destruct (IH Hin) as (pre & g' & post & -> & Hp). exists ((g, true) :: pre), g', post. split; [done|by constructor]. }
    destruct (select_unreferenced (length (centries c) * 2 + 1) c pre g post Hs Hp) as (c' & -> & Hc').
    { rewrite <- Hl, Hs, length_app. simpl. lia. }
    exists g, c'. split; [done|]. split; [|left; eauto].
    rewrite <- (length_sweep c'), Hc', <- Hl, Hs, !length_app, length_fmap. simpl. lia.
Qed.

Lemma clock_second_chance_witness :
  exists c', select_victim (mkClock [(1, true); (2, false); (3, true)] 2) = (Some 2, c') /\
    sweep c' = [(3, false); (1, false)].
Proof.
  destruct (clock_second_chance (mkClock [(1, true); (2, false); (3, true)] 2)) as (f & c' & H & _); [done|].
  vm_compute in H. injection H as <- <-. eexists. split; reflexivity.
Defined.

(** ** Swapping *)

Lemma first_free_Some l i :
  first_free l = Some i -> l !! i = Some false /\ forall j, (j < i)%nat -> l !! j = Some true.
Proof.
  revert i. induction l as [|[] l IH]; intros i; simpl; [done| |].
  - intros (k & [H1 H2]%IH & ->)%fmap_Some. split; [done|]. intros [|j] Hj; [done|]. apply H2. lia.
  - intros [= <-]. split; [done|]. lia.
Qed.

Lemma first_free_None l : first_free l = None -> forall j u, l !! j = Some u -> u = true.
Proof.
  induction l as [|[] l IH]; simpl; [done| |done]. intros H%fmap_None [|j] u; simpl; [by intros [= <-]|by apply IH].
Qed.

(** Swapping out and in is lossless: a page swapped out takes the lowest
    free slot, leaves the other slots' pages alone, and is returned by
    swapping that slot in, which frees exactly it again; a full map refuses,
    a failed device write leaves no slot allocated, and swapping in a free
    slot is refused without touching the map. *)
Theorem swap_roundtrip (dev : list bytes) (m : SwapSlotMap) (page : bytes) :
  length dev = length (used m) ->
  (match swap_out dev m page with
   | (Ok slot, dev', m') =>
       is_used slot m = false /\ (forall s, 0 <= s < slot -> is_used s m = true) /\
       (forall s, 0 <= s -> s <> slot -> read_page s dev' = read_page s dev) /\
       swap_in dev' m' slot = (Ok page, m)
   | (Err e, dev', m') => e = Full /\ dev' = dev /\ m' = m /\
       forall s, 0 <= s < Z.of_nat (length (used m)) -> is_used s m = true
   end) /\
  (forall (D : Type) (H : SwapDevice D) (d d' : D) e,
     (forall s, write_page s page d = (Err e, d')) ->
     exists e', (swap_out d m page).1.1 = Err e' /\ (swap_out d m page).2 = m) /\
  (forall slot, is_used slot m = false -> swap_in dev m slot = (Err SlotNotAllocated, m)).
Proof.
  intros Hlen.
  assert (Hundo : forall i, used m !! i = Some false -> slots_free (Z.of_nat i) (mkSlots (<[i := true]> (used m))) = (Ok (), m)).
  { intros i Hi. pose proof (lookup_lt_Some _ _ _ Hi). unfold slots_free. cbn [used].
    rewrite Nat2Z.id, list_lookup_insert_eq by done. rewrite list_insert_insert_eq.
    rewrite (list_insert_id _ _ _ Hi). by destruct m. }
  split_and!.
  - unfold swap_out, slots_alloc. destruct (first_free (used m)) as [i|] eqn:E.
    + apply first_free_Some in E as [Hi Hmin]. pose proof (lookup_lt_Some _ _ _ Hi).
      destruct (lookup_lt_is_Some_2 dev i ltac:(lia)) as [old Hold].
      cbn [write_page MemSwapDevice]. unfold mem_write_page. rewrite Nat2Z.id, Hold.
      split_and!.
      * unfold is_used. by rewrite Nat2Z.id, Hi.
      * intros s Hs. unfold is_used. by rewrite Hmin by lia.
      * intros s Hs Hne. simpl. unfold mem_read_page. by rewrite list_lookup_insert_ne by lia.
      * unfold swap_in, is_used. cbn [used read_page MemSwapDevice]. rewrite Nat2Z.id, list_lookup_insert_eq by done.
        simpl. unfold mem_read_page. rewrite Nat2Z.id, list_lookup_insert_eq by lia. simpl. by rewrite Hundo.
    + split_and!; [done..|]. intros s Hs. unfold is_used.
      destruct (lookup_lt_is_Some_2 (used m) (Z.to_nat s) ltac:(lia)) as [u Hu]. rewrite Hu. simpl.
      by eapply first_free_None.
  - intros D H d d' e Hfail. unfold swap_out, slots_alloc. destruct (first_free (used m)) as [i|] eqn:E.
    + apply first_free_Some in E as [Hi _]. rewrite Hfail, Hundo by done. by exists e.
    + by exists Full.
  - intros slot Hs. unfold swap_in. by rewrite Hs.
Qed.

Lemma swap_roundtrip_witness :
  let dev := [[0]; [0]; [0]] in let m := mkSlots [true; false; false] in
  exists dev' m', swap_out dev m [7] = (Ok 1, dev', m') /\ swap_in dev' m' 1 = (Ok [7], m).
Proof.
  intros dev m. destruct (swap_roundtrip dev m [7] eq_refl) as [H _].
  exists [[0]; [7]; [0]], (mkSlots [true; true; false]). split; [reflexivity|].
  exact (proj2 (proj2 (proj2 H))).
Defined.
