(* ===== verification/Hibernate.v ===== *)
(** * Hibernation images

    [nexacore-kernel/src/hibernate.rs]: the image of physical memory written before power-off, and
    its decoder.  The traits [FrameSource] and [FrameSink], behind which the kernel puts its
    memory, are classes. *)

From S2P Require Import Prelude.

Definition PAGE_SIZE : Z := 4096.
Definition HIBERNATE_MAGIC : bytes := [78; 67; 72; 73; 66; 48; 48; 49].
Definition FORMAT_VERSION : Z := 1.
Definition HEADER_LEN : Z := 32.
Definition TAG_ZERO : Z := 0.
Definition TAG_RAW : Z := 1.
Definition TAG_RLE : Z := 2.
Definition FNV_OFFSET : Z := 0xcbf29ce484222325.
Definition FNV_PRIME : Z := 0x100000001b3.

Inductive HibernateError :=
| BadMagic | VersionMismatch | UnsupportedPageSize | Truncated | ChecksumMismatch | Corrupt | Io.
Record HibernateHeader := mkHeader { version : Z; page_size : Z; page_count : Z; checksum : Z }.

Definition read_array4 (buf : bytes) (offset : Z) : result HibernateError bytes := ok_or (get_range buf offset 4) Truncated.
Definition read_array8 (buf : bytes) (offset : Z) : result HibernateError bytes := ok_or (get_range buf offset 8) Truncated.

Definition parse (image : bytes) : result HibernateError HibernateHeader :=
  magic ← ok_or (get_range image 0 8) Truncated;
  if negb (bool_decide (magic = HIBERNATE_MAGIC)) then Err BadMagic
  else
    v ← read_array4 image 8;
    if negb (from_le v =? FORMAT_VERSION) then Err VersionMismatch
    else
      p ← read_array4 image 12;
      if negb (from_le p =? PAGE_SIZE) then Err UnsupportedPageSize
      else
        n ← read_array8 image 16;
        c ← read_array8 image 24;
        Ok (mkHeader (from_le v) (from_le p) (from_le n) (from_le c)).

(** ** The seams *)

Class FrameSource (S : Type) := read_frame : S -> Z -> result HibernateError bytes.
Class FrameSink (S : Type) := write_frame : S -> Z -> bytes -> result HibernateError () * S.

Record MemFrameStore := mkStore { frames : gmap Z bytes }.
Definition MemFrameStore_new : MemFrameStore := mkStore ∅.
Definition set (s : MemFrameStore) (pfn : Z) (page : bytes) : MemFrameStore := mkStore (<[pfn := page]> (frames s)).
Definition get (s : MemFrameStore) (pfn : Z) : option bytes := frames s !! pfn.
Definition len (s : MemFrameStore) : Z := Z.of_nat (size (frames s)).
Definition is_empty (s : MemFrameStore) : bool := len s =? 0.
#[export] Instance MemSource : FrameSource MemFrameStore := fun s pfn => ok_or (frames s !! pfn) Io.
#[export] Instance MemSink : FrameSink MemFrameStore := fun s pfn page => (Ok (), mkStore (<[pfn := page]> (frames s))).

(** ** Encoding *)

Inductive PageKind := Zero | Uniform (fill : Z) | Raw.
Definition classify (page : bytes) : PageKind :=
  match page with
  | [] => Zero
  | first :: _ =>
      if forallb (fun b => b =? first) page then if first =? 0 then Zero else Uniform first else Raw
  end.

(** [hash ^= b; hash = hash.wrapping_mul(FNV_PRIME)]. *)
Definition fnv_step (hash b : Z) : Z := wrapping_mul 64 (Z.lxor hash b) FNV_PRIME.
Definition fnv1a64 (bs : bytes) : Z := fold_left fnv_step bs FNV_OFFSET.

(** One record. *)
Definition record_of (pfn : Z) (page : bytes) : bytes :=
  to_le 8 pfn ++ match classify page with Zero => [TAG_ZERO] | Uniform fill => [TAG_RLE; fill] | Raw => TAG_RAW :: page end.
Fixpoint encode_payload {S} `{FrameSource S} (fs : list Z) (src : S) : result HibernateError bytes :=
  match fs with
  | [] => Ok []
  | pfn :: fs =>
      page ← read_frame src pfn;
      rest ← encode_payload fs src;
      Ok (record_of pfn page ++ rest)
  end.
Definition encode {S} `{FrameSource S} (fs : list Z) (src : S) : result HibernateError bytes :=
  payload ← encode_payload fs src;
  Ok (HIBERNATE_MAGIC ++ to_le 4 FORMAT_VERSION ++ to_le 4 PAGE_SIZE ++ to_le 8 (Z.of_nat (length fs)) ++ to_le 8 (fnv1a64 payload) ++ payload).

(** ** Decoding *)

(** The slice, and the position after it. *)
Definition take_ (buf : bytes) (pos n : Z) : result HibernateError (bytes * Z) :=
  match checked_add 64 pos n with
  | None => Err Truncated
  | Some stop => slice ← ok_or (get_range buf pos n) Truncated; Ok (slice, stop)
  end.
(** One record: its frame number and page, and the position after it. *)
Definition decode_record (payload : bytes) (pos : Z) : result HibernateError (Z * bytes * Z) :=
  '(p, pos) ← take_ payload pos 8;
  '(t, pos) ← take_ payload pos 1;
  tag ← ok_or (head t) Truncated;
  if tag =? TAG_ZERO then Ok (from_le p, replicate (Z.to_nat PAGE_SIZE) 0, pos)
  else if tag =? TAG_RLE then
    '(f, pos) ← take_ payload pos 1;
    fill ← ok_or (head f) Truncated;
    Ok (from_le p, replicate (Z.to_nat PAGE_SIZE) fill, pos)
  else if tag =? TAG_RAW then
    '(page, pos) ← take_ payload pos PAGE_SIZE;
    Ok (from_le p, page, pos)
  else Err Corrupt.
(** [for _ in 0..header.page_count]: a record has nine bytes or more, so the length of the payload is enough fuel. *)
Fixpoint decode_loop {S} `{FrameSink S} (fuel : nat) (payload : bytes) (pos count : Z) (sink : S) : result HibernateError Z * S :=
  if count =? 0 then (Ok pos, sink)
  else
    match fuel with
    | O => (Err Truncated, sink)
    | Datatypes.S fuel =>
        match decode_record payload pos with
        | Err e => (Err e, sink)
        | Ok (pfn, page, pos) =>
            match write_frame sink pfn page with
            | (Err e, sink) => (Err e, sink)
            | (Ok _, sink) => decode_loop fuel payload pos (count - 1) sink
            end
        end
    end.
Definition decode {S} `{FrameSink S} (image : bytes) (sink : S) : result HibernateError HibernateHeader * S :=
  match parse image with
  | Err e => (Err e, sink)
  | Ok header =>
      let payload := drop (Z.to_nat HEADER_LEN) image in
      if negb (fnv1a64 payload =? checksum header) then (Err ChecksumMismatch, sink)
      else
        match decode_loop (Datatypes.S (length payload)) payload 0 (page_count header) sink with
        | (Err e, sink) => (Err e, sink)
        | (Ok pos, sink) => (if pos =? Z.of_nat (length payload) then Ok header else Err Corrupt, sink)
        end
  end.

(** ** The checksum *)

Lemma lxor_cancel h a b : Z.lxor h a = Z.lxor h b -> a = b.
Proof. intros H. rewrite <- (Z.lxor_0_l a), <- (Z.lxor_0_l b), <- (Z.lxor_nilpotent h), !Z.lxor_assoc. by rewrite H. Qed.

(** The prime is odd, so multiplying by it loses nothing modulo 2^64. *)
Definition FNV_INVERSE : Z := 0xce965057aff6957b.
Lemma prime_cancel a b : in_uint 64 a -> in_uint 64 b -> wrapping_mul 64 a FNV_PRIME = wrapping_mul 64 b FNV_PRIME -> a = b.
Proof.
  intros Ha Hb H. unfold wrapping_mul, in_uint in *.
  assert (forall x, in_uint 64 x -> (x * FNV_PRIME mod 2 ^ 64 * FNV_INVERSE) mod 2 ^ 64 = x) as Hinv.
  { intros x Hx. rewrite Z.mul_mod_idemp_l, <- Z.mul_assoc by lia. rewrite <- Z.mul_mod_idemp_r by lia.
    replace ((FNV_PRIME * FNV_INVERSE) mod 2 ^ 64) with 1 by reflexivity. rewrite Z.mul_1_r. by apply Z.mod_small. }
  rewrite <- (Hinv a), <- (Hinv b) by done. by rewrite H.
Qed.

Lemma byte_uint b : is_byte b -> in_uint 64 b.
Proof. unfold is_byte, in_uint. lia. Qed.
Lemma fnv_step_uint h b : in_uint 64 (fnv_step h b).
Proof. unfold fnv_step, wrapping_mul, in_uint. apply Z.mod_pos_bound. lia. Qed.
Lemma fnv_step_inj h h' b b' :
  in_uint 64 h -> in_uint 64 h' -> is_byte b -> is_byte b' -> fnv_step h b = fnv_step h' b' -> Z.lxor h b = Z.lxor h' b'.
Proof. intros Hh Hh' Hb Hb' H. apply prime_cancel; [apply lxor_uint..|exact H]; auto using byte_uint; lia. Qed.
Lemma fnv_fold_inj l h h' :
  is_bytes l -> in_uint 64 h -> in_uint 64 h' -> fold_left fnv_step l h = fold_left fnv_step l h' -> h = h'.
Proof.
  intros Hl. revert h h'. induction Hl as [|b l Hb _ IH]; intros h h' Hh Hh'; cbn [fold_left]; [done|].
  intros H%IH; [|apply fnv_step_uint..]. apply fnv_step_inj in H; [|done..]. rewrite !(Z.lxor_comm _ b) in H. by apply lxor_cancel in H.
Qed.
Lemma fnv_fold_uint l h : in_uint 64 h -> in_uint 64 (fold_left fnv_step l h).
Proof. revert h. induction l as [|b l IH]; intros h Hh; [done|]. apply IH, fnv_step_uint. Qed.
Lemma fnv_offset_uint : in_uint 64 FNV_OFFSET.
Proof. unfold in_uint, FNV_OFFSET. lia. Qed.

Lemma fnv_detects pre b b' post :
  is_byte b -> is_byte b' -> is_bytes post -> b <> b' -> fnv1a64 (pre ++ b :: post) <> fnv1a64 (pre ++ b' :: post).
Proof.
  intros Hb Hb' Hp Hne H. unfold fnv1a64 in H. rewrite !fold_left_app in H. cbn [fold_left] in H.
  apply fnv_fold_inj in H; [|done|apply fnv_step_uint..]. apply fnv_step_inj in H; [|apply fnv_fold_uint, fnv_offset_uint..|done|done].
  by apply lxor_cancel in H.
Qed.

(** ** Records *)

Lemma take_mid pre d post n :
  Z.of_nat (length d) = n -> Z.of_nat (length pre + length d) < 2 ^ 64 ->
  take_ (pre ++ d ++ post) (Z.of_nat (length pre)) n = Ok (d, Z.of_nat (length (pre ++ d))).
Proof.
  intros Hn Hmax. unfold take_, checked_add, get_range. rewrite (proj2 (Z.ltb_lt _ _)) by lia.
  rewrite (proj2 (Z.leb_le _ _)) by (rewrite !length_app; lia). cbn [mbind result_bind ok_or].
  rewrite Nat2Z.id, drop_app_length, <- Hn, Nat2Z.id, take_app_length. do 2 f_equal. rewrite length_app. lia.
Qed.

Lemma classify_spec page :
  match classify page with
  | Zero => page = replicate (length page) 0
  | Uniform f => page = replicate (length page) f /\ (is_bytes page -> is_byte f)
  | Raw => True
  end.
Proof.
  unfold classify. destruct page as [|b page]; [done|]. destruct (forallb (fun x => x =? b) (b :: page)) eqn:E; [|done].
  assert (b :: page = replicate (length (b :: page)) b) as Hr.
  { symmetry. apply replicate_as_Forall. split; [done|]. rewrite forallb_forall in E. apply Forall_forall. intros x Hx. symmetry. apply Z.eqb_eq, E. by apply list_elem_of_In. }
  destruct (Z.eqb_spec b 0) as [->|]; [done|]. split; [done|]. intros H. by apply Forall_cons in H as [? _].
Qed.

Lemma decode_record_of pre pfn page post :
  in_uint 64 pfn -> Z.of_nat (length page) = PAGE_SIZE -> Z.of_nat (length pre) + 9 + PAGE_SIZE < 2 ^ 64 ->
  decode_record (pre ++ record_of pfn page ++ post) (Z.of_nat (length pre)) = Ok (pfn, page, Z.of_nat (length (pre ++ record_of pfn page))).
Proof.
  intros Hp Hl Hmax. unfold decode_record, record_of. pose proof (classify_spec page) as Hc. unfold PAGE_SIZE in *.
  assert (length (to_le 8 pfn) = 8%nat) as L8 by (by rewrite length_to_le).
  assert (forall tag, Z.of_nat (length ((pre ++ to_le 8 pfn) ++ [tag])) = Z.of_nat (length pre) + 9) as L9 by (intros; rewrite !length_app; cbn [length]; lia).
  rewrite <- app_assoc, take_mid by lia. cbn [mbind result_bind]. rewrite from_to_le by (lia || done).
  assert (forall tag rest, take_ (pre ++ to_le 8 pfn ++ (tag :: rest) ++ post) (Z.of_nat (length (pre ++ to_le 8 pfn))) 1 = Ok ([tag], Z.of_nat (length ((pre ++ to_le 8 pfn) ++ [tag])))) as Htag.
  { intros tag rest. rewrite (app_assoc pre). change ((tag :: rest) ++ post) with ([tag] ++ (rest ++ post)). apply take_mid; [done|]. rewrite length_app. cbn [length]. lia. }
  destruct (classify page) as [|f|].
  - rewrite Htag. cbn [mbind result_bind head ok_or]. cbn [Z.eqb TAG_ZERO]. rewrite Hc at 1. replace (length page) with (Z.to_nat 4096) by lia. by rewrite (app_assoc pre).
  - destruct Hc as [Hc _]. rewrite Htag. cbn [mbind result_bind head ok_or]. cbn [Z.eqb TAG_ZERO TAG_RLE Pos.eqb].
    assert (take_ (pre ++ to_le 8 pfn ++ [TAG_RLE; f] ++ post) (Z.of_nat (length ((pre ++ to_le 8 pfn) ++ [TAG_RLE]))) 1
      = Ok ([f], Z.of_nat (length (((pre ++ to_le 8 pfn) ++ [TAG_RLE]) ++ [f])))) as ->.
    { change ([TAG_RLE; f] ++ post) with ([TAG_RLE] ++ [f] ++ post). rewrite (app_assoc pre), (app_assoc _ [TAG_RLE]). apply take_mid; [done|]. cbn [length] in *. specialize (L9 TAG_RLE). lia. }
    cbn [mbind result_bind head ok_or]. rewrite Hc at 1. replace (length page) with (Z.to_nat 4096) by lia. do 2 f_equal. rewrite <- !app_assoc. done.
  - rewrite Htag. cbn [mbind result_bind head ok_or]. cbn [Z.eqb TAG_ZERO TAG_RLE TAG_RAW Pos.eqb].
    assert (take_ (pre ++ to_le 8 pfn ++ (TAG_RAW :: page) ++ post) (Z.of_nat (length ((pre ++ to_le 8 pfn) ++ [TAG_RAW]))) 4096
      = Ok (page, Z.of_nat (length (((pre ++ to_le 8 pfn) ++ [TAG_RAW]) ++ page)))) as ->.
    { change ((TAG_RAW :: page) ++ post) with ([TAG_RAW] ++ page ++ post). rewrite (app_assoc pre), (app_assoc _ [TAG_RAW]). apply take_mid; [done|]. specialize (L9 TAG_RAW). lia. }
    cbn [mbind result_bind]. do 2 f_equal. rewrite <- !app_assoc. done.
Qed.

(** ** Suspending and resuming *)

(** The writes a resume makes, in order, up to the first that fails. *)
Fixpoint replay {S} `{FrameSink S} (ws : list (Z * bytes)) (sink : S) : result HibernateError () * S :=
  match ws with
  | [] => (Ok (), sink)
  | (pfn, page) :: ws =>
      match write_frame sink pfn page with
      | (Err e, sink) => (Err e, sink)
      | (Ok _, sink) => replay ws sink
      end
  end.
Definition readable {S} `{FrameSource S} (src : S) (pfn : Z) (page : bytes) : Prop :=
  read_frame src pfn = Ok page /\ Z.of_nat (length page) = PAGE_SIZE /\ in_uint 64 pfn.
Definition records (ws : list (Z * bytes)) : bytes := concat ((fun w => record_of w.1 w.2) <$> ws).

Lemma encode_payload_spec {S} `{FrameSource S} fs pages (src : S) :
  Forall2 (readable src) fs pages -> encode_payload fs src = Ok (records (zip fs pages)).
Proof.
  induction 1 as [|pfn page fs pages (Hr & _) _ IH]; [done|]. cbn [encode_payload]. rewrite Hr. cbn [mbind result_bind]. by rewrite IH.
Qed.
Lemma record_length pfn page : Z.of_nat (length page) = PAGE_SIZE -> 9 <= Z.of_nat (length (record_of pfn page)) <= 9 + PAGE_SIZE.
Proof.
  intros Hl. unfold record_of. rewrite length_app, length_to_le by lia. unfold PAGE_SIZE in *. destruct (classify page); cbn [length]; lia.
Qed.
Lemma records_length ws :
  Forall (fun w => Z.of_nat (length w.2) = PAGE_SIZE) ws ->
  9 * Z.of_nat (length ws) <= Z.of_nat (length (records ws)) <= (9 + PAGE_SIZE) * Z.of_nat (length ws).
Proof.
  induction 1 as [|w ws Hw _ IH]; [cbn; lia|]. unfold records in *. cbn [fmap list_fmap concat length]. rewrite length_app.
  pose proof (record_length w.1 w.2 Hw). unfold PAGE_SIZE in *. lia.
Qed.

Lemma decode_loop_replay {S} `{FrameSink S} ws : forall fuel pre (sink : S),
  Forall (fun w => in_uint 64 w.1 /\ Z.of_nat (length w.2) = PAGE_SIZE) ws -> (length ws < fuel)%nat ->
  Z.of_nat (length (pre ++ records ws)) + 9 + PAGE_SIZE < 2 ^ 64 ->
  decode_loop fuel (pre ++ records ws) (Z.of_nat (length pre)) (Z.of_nat (length ws)) sink =
    match replay ws sink with (Ok _, s) => (Ok (Z.of_nat (length (pre ++ records ws))), s) | (Err e, s) => (Err e, s) end.
Proof.
  induction ws as [|[pfn page] ws IH]; intros fuel pre sink Hws Hf Hmax.
  - destruct fuel; cbn [decode_loop length replay]; unfold records; cbn; by rewrite app_nil_r.
  - destruct fuel as [|fuel]; [lia|]. apply Forall_cons in Hws as [[Hp Hl] Hws]. cbn [decode_loop length replay fst snd] in *.
    destruct (Z.eqb_spec (Z.of_nat (Datatypes.S (length ws))) 0); [lia|].
    assert (records ((pfn, page) :: ws) = record_of pfn page ++ records ws) as Er by done. rewrite Er in *.
    rewrite decode_record_of by (done || rewrite length_app in Hmax; lia). destruct (write_frame sink pfn page) as [[u|e] sink']; [|done].
    replace (Z.of_nat (Datatypes.S (length ws)) - 1) with (Z.of_nat (length ws)) by lia. rewrite (app_assoc pre) in *. apply IH; [done|lia|done].
Qed.

Lemma parse_image v n c rest :
  in_uint 32 v -> in_uint 64 n -> in_uint 64 c ->
  parse (HIBERNATE_MAGIC ++ to_le 4 v ++ to_le 4 PAGE_SIZE ++ to_le 8 n ++ to_le 8 c ++ rest) =
    if v =? FORMAT_VERSION then Ok (mkHeader v PAGE_SIZE n c) else Err VersionMismatch.
Proof.
  intros Hv Hn Hc. unfold parse, read_array4, read_array8.
  assert (forall r, get_range (HIBERNATE_MAGIC ++ r) 0 8 = Some HIBERNATE_MAGIC) as -> by (intros r; exact (get_range_after [] HIBERNATE_MAGIC r 0 8 eq_refl eq_refl)). cbn [mbind result_bind ok_or]. rewrite bool_decide_eq_true_2 by done. cbn [negb].
  rewrite (get_range_after HIBERNATE_MAGIC (to_le 4 v) _ 8 4) by (rewrite ?length_to_le by lia; done). cbn [mbind result_bind ok_or].
  rewrite from_to_le by (lia || done). destruct (v =? FORMAT_VERSION); cbn [negb]; [|done].
  rewrite (app_assoc HIBERNATE_MAGIC). rewrite (get_range_after (HIBERNATE_MAGIC ++ to_le 4 v) (to_le 4 PAGE_SIZE) _ 12 4) by (rewrite ?length_app, ?length_to_le by lia; done).
  cbn [mbind result_bind ok_or]. rewrite from_to_le by (unfold in_uint, PAGE_SIZE; lia). rewrite Z.eqb_refl. cbn [negb].
  rewrite (app_assoc (HIBERNATE_MAGIC ++ _)). rewrite (get_range_after ((HIBERNATE_MAGIC ++ to_le 4 v) ++ to_le 4 PAGE_SIZE) (to_le 8 n) _ 16 8) by (rewrite ?length_app, ?length_to_le by lia; done).
  cbn [mbind result_bind ok_or]. rewrite (app_assoc ((HIBERNATE_MAGIC ++ _) ++ _)).
  rewrite (get_range_after (((HIBERNATE_MAGIC ++ to_le 4 v) ++ to_le 4 PAGE_SIZE) ++ to_le 8 n) (to_le 8 c) _ 24 8) by (rewrite ?length_app, ?length_to_le by lia; done).
  cbn [mbind result_bind ok_or]. by rewrite !from_to_le by (lia || done).
Qed.

Lemma decode_image {S} `{FrameSink S} n c payload (sink : S) :
  in_uint 64 n -> in_uint 64 c ->
  decode (HIBERNATE_MAGIC ++ to_le 4 FORMAT_VERSION ++ to_le 4 PAGE_SIZE ++ to_le 8 n ++ to_le 8 c ++ payload) sink =
    if negb (fnv1a64 payload =? c) then (Err ChecksumMismatch, sink)
    else match decode_loop (Datatypes.S (length payload)) payload 0 n sink with
         | (Err e, sink) => (Err e, sink)
         | (Ok pos, sink) => (if pos =? Z.of_nat (length payload) then Ok (mkHeader FORMAT_VERSION PAGE_SIZE n c) else Err Corrupt, sink)
         end.
Proof.
  intros Hn Hc. unfold decode. rewrite parse_image by (done || unfold in_uint, FORMAT_VERSION; lia). cbn [checksum page_count]. rewrite Z.eqb_refl. cbn zeta.
  assert (drop (Z.to_nat HEADER_LEN) (HIBERNATE_MAGIC ++ to_le 4 FORMAT_VERSION ++ to_le 4 PAGE_SIZE ++ to_le 8 n ++ to_le 8 c ++ payload) = payload) as ->; [|done].
  rewrite !app_assoc. replace (Z.to_nat HEADER_LEN) with (length ((((HIBERNATE_MAGIC ++ to_le 4 FORMAT_VERSION) ++ to_le 4 PAGE_SIZE) ++ to_le 8 n) ++ to_le 8 c)); [apply drop_app_length|].
  rewrite !length_app, !length_to_le by lia. done.
Qed.

(** C32. Round trip: resuming from the image of any frames makes exactly the writes of those frames with their
    contents, in order, over any memory: zero and uniform pages come back in full, and when a write
    fails the resume stops there with its error. *)
Theorem hibernate_roundtrip {S T} `{FrameSource S, FrameSink T} fs pages (src : S) (sink : T) :
  Forall2 (readable src) fs pages -> Z.of_nat (length fs) < 2 ^ 48 ->
  exists image, encode fs src = Ok image /\
    decode image sink =
      match replay (zip fs pages) sink with
      | (Ok _, s) => (Ok (mkHeader 1 4096 (Z.of_nat (length fs)) (fnv1a64 (records (zip fs pages)))), s)
      | (Err e, s) => (Err e, s)
      end.
Proof.
  intros Hr Hn. unfold encode. rewrite (encode_payload_spec fs pages src Hr). cbn [mbind result_bind]. eexists. split; [done|].
  assert (in_uint 64 (fnv1a64 (records (zip fs pages)))) as Hc by apply fnv_fold_uint, fnv_offset_uint.
  assert (length (zip fs pages) = length fs) as Hz by (rewrite length_zip; rewrite (Forall2_length _ _ _ Hr); lia).
  assert (Forall (fun w => in_uint 64 w.1 /\ Z.of_nat (length w.2) = PAGE_SIZE) (zip fs pages)) as Hok.
  { clear -Hr. induction Hr as [|pfn page fs pages (_ & Hl & Hp) _ IH]; constructor; done. }
  rewrite decode_image by (done || unfold in_uint; lia). rewrite Z.eqb_refl. cbn [negb].
  pose proof (records_length (zip fs pages)) as Hlen. unfold PAGE_SIZE in Hlen.
  assert (9 * Z.of_nat (length (zip fs pages)) <= Z.of_nat (length (records (zip fs pages))) <= (9 + 4096) * Z.of_nat (length (zip fs pages))) as [Hl1 Hl2]
    by (apply Hlen; eapply Forall_impl; [exact Hok|]; by intros w [_ ?]).
  pose proof (decode_loop_replay (zip fs pages) (Datatypes.S (length (records (zip fs pages)))) [] sink Hok) as Hd. cbn [app length] in Hd.
  rewrite Hz in *. change (Z.of_nat 0) with 0 in Hd. rewrite Hd by (unfold PAGE_SIZE; lia). destruct (replay (zip fs pages) sink) as [[u|e] s]; [|done]. by rewrite Z.eqb_refl.
Qed.
(** A page of zeros, a uniform page and a mixed one. *)
Definition demo_pages : list bytes := [replicate 4096 0; replicate 4096 7; 1 :: replicate 4095 2].
Definition demo_store : MemFrameStore := set (set (set MemFrameStore_new 5 (replicate 4096 0)) 6 (replicate 4096 7)) 9 (1 :: replicate 4095 2).
Lemma hibernate_roundtrip_witness :
  exists image h, encode [5; 6; 9] demo_store = Ok image /\ decode image MemFrameStore_new = (Ok h, demo_store).
Proof.
  destruct (hibernate_roundtrip [5; 6; 9] demo_pages demo_store MemFrameStore_new) as (image & He & Hd).
  - constructor; [|constructor; [|constructor; [|constructor]]]; (split; [vm_compute; reflexivity|]); (split; [vm_compute; reflexivity|]); unfold in_uint; lia.
  - cbn. lia.
  - eexists image, _. split; [exact He|]. rewrite Hd. unfold demo_pages, demo_store, set, MemFrameStore_new. cbn [zip replay]. reflexivity.
Defined.

(** Error: every change of a single byte of the payload of an image is detected by the checksum, before
    any frame is written. *)
Theorem hibernate_detects {S T} `{FrameSource S, FrameSink T} fs pages (src : S) (sink : T) pre b b' post :
  Forall2 (readable src) fs pages -> Z.of_nat (length fs) < 2 ^ 48 ->
  records (zip fs pages) = pre ++ b :: post -> is_bytes (b :: post) -> is_byte b' -> b' <> b ->
  exists head_, encode fs src = Ok (head_ ++ pre ++ b :: post) /\
    decode (head_ ++ pre ++ b' :: post) sink = (Err ChecksumMismatch, sink).
Proof.
  intros Hr Hn Hp Hbs Hb' Hne. apply Forall_cons in Hbs as [Hb Hpost]. unfold encode. rewrite (encode_payload_spec fs pages src Hr). cbn [mbind result_bind]. rewrite Hp.
  exists (HIBERNATE_MAGIC ++ to_le 4 FORMAT_VERSION ++ to_le 4 PAGE_SIZE ++ to_le 8 (Z.of_nat (length fs)) ++ to_le 8 (fnv1a64 (pre ++ b :: post))).
  rewrite <- !app_assoc. split; [done|]. rewrite decode_image; [|unfold in_uint; lia|apply fnv_fold_uint, fnv_offset_uint].
  destruct (Z.eqb_spec (fnv1a64 (pre ++ b' :: post)) (fnv1a64 (pre ++ b :: post))) as [E|]; [|done].
  by destruct (fnv_detects pre b' b post Hb' Hb Hpost Hne).
Qed.
Lemma hibernate_detects_witness :
  exists head_, encode [6] demo_store = Ok (head_ ++ [6; 0; 0; 0; 0; 0; 0; 0; 2] ++ [7]) /\
    decode (head_ ++ [6; 0; 0; 0; 0; 0; 0; 0; 2] ++ [8]) MemFrameStore_new = (Err ChecksumMismatch, MemFrameStore_new).
Proof.
  destruct (hibernate_detects [6] [replicate 4096 7] demo_store MemFrameStore_new [6; 0; 0; 0; 0; 0; 0; 0; 2] 7 8 []) as (head_ & He & Hd).
  - constructor; [|constructor]. split; [vm_compute; reflexivity|]. split; [vm_compute; reflexivity|]. unfold in_uint. lia.
  - cbn. lia.
  - vm_compute. reflexivity.
  - constructor; [unfold is_byte; lia|constructor].
  - unfold is_byte. lia.
  - lia.
  - exists head_. split; [exact He|exact Hd].
Defined.
