(* ===== verification/InitGraph.v ===== *)
(** * Service manifests and the dependency graph

    The declarative half of [src/crates/nexacore-init]: validated service
    names ([lib.rs]), the unit manifest with its restart policy and its
    exponential backoff ([manifest.rs]), and the dependency graph with its
    start order, Kahn's algorithm over ordered maps ([graph.rs]).  A string
    is its list of characters. *)

From S2P Require Import Prelude.

(** ** Service names *)

Inductive NameError := NameEmpty | NameTooLong | InvalidChar (ch : Z).

Definition MAX_LEN : Z := 64.

(** [char::len_utf8], hence [String::len]. *)
Definition len_utf8 (c : Z) : Z :=
  if c <? 128 then 1 else if c <? 2048 then 2 else if c <? 65536 then 3 else 4.
Definition str_len (s : str) : Z := foldr (fun c n => len_utf8 c + n) 0 s.

Definition is_ascii_lowercase (c : Z) : bool := (97 <=? c) && (c <=? 122).
Definition is_ascii_digit (c : Z) : bool := (48 <=? c) && (c <=? 57).
Definition name_char (c : Z) : bool :=
  is_ascii_lowercase c || is_ascii_digit c || ((c =? 45) || (c =? 95) || (c =? 46)).

Fixpoint check_chars (s : str) : result NameError () :=
  match s with
  | [] => Ok ()
  | c :: s => if negb (name_char c) then Err (InvalidChar c) else check_chars s
  end.

Definition ServiceName_new (raw : str) : result NameError str :=
  if bool_decide (raw = []) then Err NameEmpty
  else if MAX_LEN <? str_len raw then Err NameTooLong
  else _ ← check_chars raw; Ok raw.

Fixpoint names_from (items : list str) : result NameError (list str) :=
  match items with
  | [] => Ok []
  | i :: items => n ← ServiceName_new i; ns ← names_from items; Ok (n :: ns)
  end.

(** ** Manifests *)

Inductive RestartPolicy := Never | OnFailure | Always.
#[export] Instance RestartPolicy_eq_dec : EqDecision RestartPolicy.
Proof. solve_decision. Defined.

Definition should_restart (p : RestartPolicy) (exited_successfully : bool) : bool :=
  match p with
  | Never => false
  | Always => true
  | OnFailure => negb exited_successfully
  end.

Record Backoff := mkBackoff { base_ms : Z; max_ms : Z; factor : Z }.

Definition Backoff_default : Backoff := mkBackoff 100 30000 2.

(** The loop of [delay_ms] with [n] iterations left. *)
Fixpoint delay_loop (b : Backoff) (n : nat) (delay : Z) : Z :=
  match n with
  | O => Z.min delay (max_ms b)
  | S n =>
      let delay := saturating_mul 64 delay (factor b) in
      if max_ms b <=? delay then max_ms b else delay_loop b n delay
  end.

Definition delay_ms (b : Backoff) (restart_count : Z) : Z :=
  if restart_count =? 0 then 0 else delay_loop b (Z.to_nat (restart_count - 1)) (base_ms b).

Record HealthCheck := mkHealthCheck { interval_ms : Z }.
Record Capability := mkCapability { cap_name : str }.
Record SocketSpec := mkSocketSpec { listen : str }.

Record ServiceManifest := mkManifest {
  name : str;
  exec_path : str;
  args : list str;
  requires : list str;
  restart : RestartPolicy;
  backoff : Backoff;
  health : option HealthCheck;
  socket : option SocketSpec;
  capabilities : list Capability;
}.

Definition ServiceManifest_new (nm exec : str) : result NameError ServiceManifest :=
  n ← ServiceName_new nm;
  Ok (mkManifest n exec [] [] OnFailure Backoff_default None None []).

Definition with_args (a : list str) (m : ServiceManifest) : ServiceManifest :=
  mkManifest (name m) (exec_path m) a (requires m) (restart m) (backoff m) (health m) (socket m)
    (capabilities m).
Definition with_requires (deps : list str) (m : ServiceManifest) : result NameError ServiceManifest :=
  ds ← names_from deps;
  Ok (mkManifest (name m) (exec_path m) (args m) ds (restart m) (backoff m) (health m) (socket m)
        (capabilities m)).
Definition with_restart (p : RestartPolicy) (m : ServiceManifest) : ServiceManifest :=
  mkManifest (name m) (exec_path m) (args m) (requires m) p (backoff m) (health m) (socket m)
    (capabilities m).
Definition with_backoff (b : Backoff) (m : ServiceManifest) : ServiceManifest :=
  mkManifest (name m) (exec_path m) (args m) (requires m) (restart m) b (health m) (socket m)
    (capabilities m).
Definition with_health (h : HealthCheck) (m : ServiceManifest) : ServiceManifest :=
  mkManifest (name m) (exec_path m) (args m) (requires m) (restart m) (backoff m) (Some h) (socket m)
    (capabilities m).
Definition with_socket (sp : SocketSpec) (m : ServiceManifest) : ServiceManifest :=
  mkManifest (name m) (exec_path m) (args m) (requires m) (restart m) (backoff m) (health m)
    (Some sp) (capabilities m).
Definition with_capabilities (caps : list str) (m : ServiceManifest) : ServiceManifest :=
  mkManifest (name m) (exec_path m) (args m) (requires m) (restart m) (backoff m) (health m)
    (socket m) (mkCapability <$> caps).

Inductive ManifestError :=
| EmptyExec | SelfDependency | DuplicateDependency | InvalidBackoff | InvalidHealthInterval.

(** [for (i, dep) in self.requires.iter().enumerate()]: [rest] is [skip(i + 1)]. *)
Fixpoint check_requires (self : str) (deps : list str) : result ManifestError () :=
  match deps with
  | [] => Ok ()
  | dep :: rest =>
      if bool_decide (dep = self) then Err SelfDependency
      else if existsb (fun d => bool_decide (d = dep)) rest then Err DuplicateDependency
      else check_requires self rest
  end.

Definition validate (m : ServiceManifest) : result ManifestError () :=
  if bool_decide (exec_path m = []) then Err EmptyExec
  else
    _ ← check_requires (name m) (requires m);
    if (factor (backoff m) =? 0) || (max_ms (backoff m) <? base_ms (backoff m)) then Err InvalidBackoff
    else
      match health m with
      | Some h => if interval_ms h =? 0 then Err InvalidHealthInterval else Ok ()
      | None => Ok ()
      end.

(** ** The dependency graph *)

Inductive GraphError :=
| DuplicateService (s : str)
| UnknownDependency (service dependency : str)
| Cycle (stuck : list str).

Record DependencyGraph := mkGraph { g_requires : gmap str (gset str) }.

Fixpoint collect_requires (ms : list ServiceManifest) (acc : gmap str (gset str)) :
  result GraphError (gmap str (gset str)) :=
  match ms with
  | [] => Ok acc
  | m :: ms =>
      match acc !! name m with
      | Some _ => Err (DuplicateService (name m))
      | None => collect_requires ms (<[name m := list_to_set (requires m)]> acc)
      end
  end.

Fixpoint check_known (r : gmap str (gset str)) (svc : str) (deps : list str) : result GraphError () :=
  match deps with
  | [] => Ok ()
  | dep :: deps =>
      match r !! dep with
      | None => Err (UnknownDependency svc dep)
      | Some _ => check_known r svc deps
      end
  end.

Fixpoint check_all_known (r : gmap str (gset str)) (l : list (str * gset str)) : result GraphError () :=
  match l with
  | [] => Ok ()
  | (svc, deps) :: l => _ ← check_known r svc (btree_set_iter deps); check_all_known r l
  end.

Definition from_manifests (ms : list ServiceManifest) : result GraphError DependencyGraph :=
  r ← collect_requires ms ∅;
  _ ← check_all_known r (btree_str_iter r);
  Ok (mkGraph r).

Definition graph_len (g : DependencyGraph) : nat := size (g_requires g).
Definition graph_is_empty (g : DependencyGraph) : bool := bool_decide (g_requires g = ∅).
Definition prerequisites (g : DependencyGraph) (service : str) : option (gset str) :=
  g_requires g !! service.

(** The mutable locals of [topological_order]. *)
Record Kahn := mkKahn { in_degree : gmap str Z; ready : gset str; order : list str }.

Definition kahn_init (g : DependencyGraph) : Kahn :=
  let ind := (fun deps : gset str => Z.of_nat (size deps)) <$> g_requires g in
  mkKahn ind (dom (filter (fun x : str * Z => x.2 = 0) ind)) [].

(** The body of [for (svc, deps) in &self.requires]. *)
Definition relax_one (next : str) (x : gmap str Z * gset str) (sd : str * gset str) :
  gmap str Z * gset str :=
  let '(ind, rdy) := x in
  let '(svc, deps) := sd in
  if bool_decide (next ∈ deps) then
    match ind !! svc with
    | Some slot =>
        let slot := saturating_sub slot 1 in
        (<[svc := slot]> ind, if slot =? 0 then {[svc]} ∪ rdy else rdy)
    | None => (ind, rdy)
    end
  else (ind, rdy).

Definition relax (g : DependencyGraph) (next : str) (ind : gmap str Z) (rdy : gset str) :=
  fold_left (relax_one next) (btree_str_iter (g_requires g)) (ind, rdy).

(** One iteration of [while let Some(next) = ready.iter().next()]. *)
Definition kahn_step (g : DependencyGraph) (k : Kahn) : option Kahn :=
  match btree_set_iter (ready k) with
  | [] => None
  | next :: _ =>
      let '(ind, rdy) := relax g next (in_degree k) (ready k ∖ {[next]}) in
      Some (mkKahn ind rdy (order k ++ [next]))
  end.

Fixpoint kahn_loop (g : DependencyGraph) (fuel : nat) (k : Kahn) : Kahn :=
  match fuel with
  | O => k
  | S fuel => match kahn_step g k with None => k | Some k => kahn_loop g fuel k end
  end.

Definition topological_order (g : DependencyGraph) : result GraphError (list str) :=
  let k := kahn_loop g (S (graph_len g)) (kahn_init g) in
  if Nat.eqb (length (order k)) (graph_len g) then Ok (order k)
  else Err (Cycle (fst <$> filter (fun x : str * Z => 0 < x.2) (btree_str_iter (in_degree k)))).

(** ** Names and backoff delays *)

Lemma check_chars_ok s : check_chars s = Ok () <-> Forall (fun c => name_char c = true) s.
Proof.
  induction s as [|c s IH]; simpl; [split; auto|]. rewrite Forall_cons.
  destruct (name_char c); simpl; [by rewrite IH; intuition|]. split; [done|by intros [? _]].
Qed.

Lemma delay_loop_min b n delay :
  0 <= delay -> 0 <= factor b -> 0 <= max_ms b <= uint_max 64 ->
  delay_loop b n delay = Z.min (max_ms b) (delay * factor b ^ Z.of_nat n).
Proof.
  revert delay. induction n as [|n IH]; intros delay Hd Hf Hm; simpl.
  - rewrite Z.mul_1_r. lia.
  - unfold saturating_mul. replace (Z.of_nat (S n)) with (Z.succ (Z.of_nat n)) by lia. rewrite Z.pow_succ_r by lia.
    destruct (max_ms b <=? _) eqn:E; zbool.
    + assert (0 <= factor b ^ Z.of_nat n) by (apply Z.pow_nonneg; lia).
      destruct (decide (factor b = 0)) as [Hz|]; [rewrite Hz, Z.mul_0_r in E; rewrite Hz, Z.mul_0_l, Z.mul_0_r; lia|].
      assert (1 <= factor b ^ Z.of_nat n) by (apply Z.lt_pred_le, Z.pow_pos_nonneg; lia). nia.
    + rewrite (Z.min_r (uint_max 64)) by lia. rewrite IH by nia. f_equal. lia.
Qed.

(** ** Kahn's algorithm

    [placed k] is the set of services already in the order. *)

Definition placed (l : list str) : gset str := list_to_set l.

(** What one pass of [relax] does to a counter and to the ready set. *)
Lemma relax_fold next l ind rdy :
  NoDup l.*1 ->
  let r := fold_left (relax_one next) l (ind, rdy) in
  (forall s deps, (s, deps) ∈ l -> next ∈ deps -> r.1 !! s = (fun d => saturating_sub d 1) <$> ind !! s) /\
  (forall s, (forall deps, (s, deps) ∈ l -> next ∉ deps) -> r.1 !! s = ind !! s) /\
  (forall s, s ∈ r.2 <-> s ∈ rdy \/
     exists d deps, ind !! s = Some d /\ (s, deps) ∈ l /\ next ∈ deps /\ saturating_sub d 1 = 0).
Proof.
  revert ind rdy. induction l as [|[svc deps] l IH]; intros ind rdy Hnd; cbn [fold_left].
  { split_and!; [set_solver|done|set_solver]. }
  inversion Hnd as [|? ? Hni Hnd']; subst. simpl in Hni, Hnd'.
  assert (forall deps', (svc, deps') ∉ l) as Hsvc.
  { intros deps' Hin. apply Hni. apply list_elem_of_fmap. by exists (svc, deps'). }
  unfold relax_one at 2 4 6. case_bool_decide as Hnx.
  2: { destruct (IH ind rdy Hnd') as (H1 & H2 & H3). cbn zeta in *. split_and!.
    - intros s deps' [[= -> ->]|Hin]%elem_of_cons ?; [done|eauto].
    - intros s Hs. apply H2. intros d Hd. apply Hs. by right.
    - intros s. rewrite H3. split; (intros [?|(d & deps' & ? & Hin & ? & ?)]; [by left|right]).
      + exists d, deps'. split_and!; auto. by right.
      + apply elem_of_cons in Hin as [[= -> ->]|Hin]; [done|]. eauto 10. }
  destruct (ind !! svc) as [slot|] eqn:Hslot.
  2: { destruct (IH ind rdy Hnd') as (H1 & H2 & H3). cbn zeta in *. split_and!.
    - intros s deps' [[= -> ->]|Hin]%elem_of_cons ?; [|eauto].
      rewrite H2 by (intros d Hd; by destruct (Hsvc d)). by rewrite Hslot.
    - intros s Hs. apply H2. intros d Hd. apply Hs. by right.
    - intros s. rewrite H3. split; (intros [?|(d & deps' & ? & Hin & ? & ?)]; [by left|right]).
      + exists d, deps'. split_and!; auto. by right.
      + apply elem_of_cons in Hin as [[= -> ->]|Hin]; [congruence|]. eauto 10. }
  set (slot' := saturating_sub slot 1).
  destruct (IH (<[svc:=slot']> ind) (if slot' =? 0 then {[svc]} ∪ rdy else rdy) Hnd') as (H1 & H2 & H3).
  cbn zeta in *. split_and!.
  - intros s deps' [[= -> ->]|Hin]%elem_of_cons ?.
    + rewrite H2 by (intros d Hd; by destruct (Hsvc d)). by rewrite lookup_insert_eq, Hslot.
    + erewrite H1 by eauto. rewrite lookup_insert_ne; [done|]. intros ->. by destruct (Hsvc deps').
  - intros s Hs. destruct (decide (s = svc)) as [->|].
    + destruct (Hs deps); [left|done].
    + rewrite H2 by (intros d Hd; apply Hs; by right). by rewrite lookup_insert_ne.
  - intros s. rewrite H3. split.
    + intros [Hr|(d & deps' & Hl & Hin & ? & ?)].
      * destruct (Z.eqb_spec slot' 0); [|by left]. apply elem_of_union in Hr as [->%elem_of_singleton|]; [|by left].
        right. exists slot, deps. split_and!; auto. left.
      * rewrite lookup_insert_ne in Hl by (intros ->; by destruct (Hsvc deps')).
        right. exists d, deps'. split_and!; auto. by right.
    + intros [Hr|(d & deps' & Hl & Hin & ? & ?)].
      * left. destruct (slot' =? 0); set_solver.
      * apply elem_of_cons in Hin as [[= -> ->]|Hin].
        -- left. assert (d = slot) as -> by congruence. fold slot' in H0. rewrite H0. simpl. set_solver.
        -- right. exists d, deps'. rewrite lookup_insert_ne; [done|]. intros ->. by destruct (Hsvc deps').
Qed.

(** The state of the loop in terms of the services already placed: the
    counter of a service is the number of its prerequisites still to be
    placed, the ready set is the services that miss none, and every placed
    service was the least one that was ready at its turn. *)
Record kahn_inv (g : DependencyGraph) (k : Kahn) : Prop := {
  ki_nodup : NoDup (order k);
  ki_turn : forall i s, order k !! i = Some s ->
    (exists deps, g_requires g !! s = Some deps /\ deps ⊆ placed (take i (order k))) /\
    forall s' deps', g_requires g !! s' = Some deps' -> deps' ⊆ placed (take i (order k)) ->
      s' ∉ take i (order k) -> str_le s s';
  ki_degree : forall s, in_degree k !! s =
    ((fun deps => Z.of_nat (size (deps ∖ placed (order k)))) <$> (g_requires g !! s));
  ki_ready : forall s, s ∈ ready k <->
    (s ∉ order k) /\ exists deps, g_requires g !! s = Some deps /\ deps ⊆ placed (order k);
}.

Lemma placed_app l x : placed (l ++ [x]) = placed l ∪ {[x]}.
Proof. unfold placed. rewrite list_to_set_app_L. set_solver. Qed.

Lemma elem_of_placed l x : x ∈ placed l <-> x ∈ l.
Proof. apply elem_of_list_to_set. Qed.

(** A placed service has all its prerequisites placed. *)
Lemma ki_closed g k s :
  kahn_inv g k -> s ∈ order k -> exists deps, g_requires g !! s = Some deps /\ deps ⊆ placed (order k).
Proof.
  intros Hi [i Hs]%list_elem_of_lookup. destruct (ki_turn g k Hi i s Hs) as [(deps & Hd & Hsub) _].
  exists deps. split; [done|]. intros x Hx. apply elem_of_placed.
  apply Hsub, elem_of_placed in Hx. by eapply elem_of_take in Hx as (j & ? & _); eapply list_elem_of_lookup_2.
Qed.

Lemma size_diff_add (deps : gset str) l x :
  x ∈ deps -> x ∉ l -> size (deps ∖ placed l) = S (size (deps ∖ placed (l ++ [x]))).
Proof.
  intros Hx Hl. rewrite <- (elem_of_placed l) in Hl. rewrite placed_app.
  assert (deps ∖ placed l = {[x]} ∪ deps ∖ (placed l ∪ {[x]})) as ->.
  { apply set_eq. intros y. destruct (decide (y = x)) as [->|]; set_solver. }
  rewrite size_union, size_singleton; [done|]. set_solver.
Qed.

Lemma size_diff_zero (deps : gset str) l : size (deps ∖ placed l) = 0%nat <-> deps ⊆ placed l.
Proof.
  split.
  - intros H%size_empty_inv x Hx. destruct (decide (x ∈ placed l)); set_solver.
  - intros H. replace (deps ∖ placed l) with (∅ : gset str) by set_solver. apply size_empty.
Qed.

Lemma kahn_init_inv g : kahn_inv g (kahn_init g).
Proof.
  split; simpl.
  - constructor.
  - by intros i s ?.
  - intros s. rewrite lookup_fmap. unfold placed. simpl.
    destruct (g_requires g !! s); simpl; [|done]. by rewrite difference_empty_L.
  - intros s. rewrite elem_of_dom. split.
    + intros [d Hd]. apply map_lookup_filter_Some in Hd as [Hd Hz]. simpl in Hz. subst d.
      rewrite lookup_fmap_Some in Hd. destruct Hd as (deps & Hz & Hs). split; [apply not_elem_of_nil|].
      exists deps. split; [done|]. assert (deps ≡ ∅) by (apply size_empty_inv; lia). set_solver.
    + intros (_ & deps & Hs & Hsub). exists 0. apply map_lookup_filter_Some. split; [|done].
      rewrite lookup_fmap, Hs. simpl. assert (deps = ∅) as -> by (unfold placed in *; set_solver).
      by rewrite size_empty.
Qed.

(** The counters and the ready set after placing [next]. *)
Section Step.
Context (g : DependencyGraph) (k : Kahn) (next : str).
Hypothesis (Hi : kahn_inv g k) (Hnext : next ∈ ready k).

Lemma next_fresh : next ∉ order k.
Proof using Hi Hnext. by apply (ki_ready g k Hi) in Hnext as [? _]. Qed.

Lemma relax_degree s :
  (relax g next (in_degree k) (ready k ∖ {[next]})).1 !! s =
    ((fun deps => Z.of_nat (size (deps ∖ placed (order k ++ [next])))) <$> (g_requires g !! s)).
Proof using Hi Hnext.
  pose proof next_fresh as Hni.
  destruct (relax_fold next _ (in_degree k) (ready k ∖ {[next]}) (NoDup_btree_str_iter (g_requires g)))
    as (H1 & H2 & _). setoid_rewrite elem_of_btree_str_iter in H1. setoid_rewrite elem_of_btree_str_iter in H2.
  unfold relax. destruct (g_requires g !! s) as [deps|] eqn:Hs.
  - destruct (decide (next ∈ deps)) as [Hd|Hd].
    + rewrite (H1 s deps Hs Hd), (ki_degree g k Hi s), Hs. simpl.
      rewrite (size_diff_add deps (order k) next Hd Hni). unfold saturating_sub. f_equal. lia.
    + rewrite H2 by congruence. rewrite (ki_degree g k Hi s), Hs, placed_app. simpl. do 3 f_equal. set_solver.
  - rewrite H2 by congruence. by rewrite (ki_degree g k Hi s), Hs.
Qed.

Lemma relax_ready s :
  s ∈ (relax g next (in_degree k) (ready k ∖ {[next]})).2 <->
    (s ∉ order k ++ [next]) /\ exists deps, g_requires g !! s = Some deps /\ deps ⊆ placed (order k ++ [next]).
Proof using Hi Hnext.
  pose proof next_fresh as Hni.
  destruct (relax_fold next _ (in_degree k) (ready k ∖ {[next]}) (NoDup_btree_str_iter (g_requires g)))
    as (_ & _ & H3). unfold relax. rewrite H3. setoid_rewrite elem_of_btree_str_iter.
  rewrite elem_of_difference, not_elem_of_app, not_elem_of_singleton, list_elem_of_singleton, (ki_ready g k Hi s).
  split.
  - intros [[[? (deps & ? & ?)] ?]|(d & deps & Hd & Hs & Hnx & Hz)].
    { split; [done|]. exists deps. rewrite placed_app. set_solver. }
    rewrite (ki_degree g k Hi s), Hs in Hd. simpl in Hd. injection Hd as <-.
    rewrite (size_diff_add deps (order k) next Hnx Hni) in Hz. unfold saturating_sub in Hz.
    split; [|exists deps; split; [done|]; apply size_diff_zero; lia].
    cut (~ deps ⊆ placed (order k)).
    { intros Hc. split; [intros Ho; apply (ki_closed g k s Hi) in Ho as (d & ? & ?)|
        intros ->; apply (ki_ready g k Hi) in Hnext as (_ & d & ? & ?)]; by simplify_eq. }
    intros Hc. apply Hc in Hnx. by apply elem_of_placed in Hnx.
  - intros [[Hno Hne] (deps & Hs & Hd)]. destruct (decide (next ∈ deps)).
    + right. exists 1, deps. split_and!; try done. rewrite (ki_degree g k Hi s), Hs. simpl.
      rewrite (size_diff_add deps (order k) next) by done. by rewrite (proj2 (size_diff_zero _ _) Hd).
    + left. split; [|done]. split; [done|]. exists deps. split; [done|]. rewrite placed_app in Hd. set_solver.
Qed.

End Step.

Lemma kahn_step_inv g k k' :
  kahn_inv g k -> kahn_step g k = Some k' ->
  kahn_inv g k' /\ length (order k') = S (length (order k)).
Proof.
  intros Hi. unfold kahn_step. pose proof (btree_set_first (ready k)) as Hf.
  destruct (btree_set_iter (ready k)) as [|next rest]; [done|]. destruct Hf as [Hin Hle].
  pose proof (relax_degree g k next Hi Hin) as Hdeg. pose proof (relax_ready g k next Hi Hin) as Hrdy.
  destruct (relax _ _ _ _) as [ind rdy]. intros [= <-]. simpl in *. split; [|len].
  assert (next ∉ order k) as Hni by (by apply next_fresh with g).
  split; simpl; [| |done|done].
  - apply NoDup_app. split_and!; [apply (ki_nodup g k Hi)| |apply NoDup_singleton].
    by intros x Hx ->%list_elem_of_singleton.
  - intros i s [[Hlt Hs]|[Hl <-]]%lookup_snoc_Some.
    + rewrite take_app_le by lia. by apply (ki_turn g k Hi).
    + rewrite take_app_le, take_ge by lia. split.
      * by apply (ki_ready g k Hi) in Hin as [_ ?].
      * intros s' deps' ? ? ?. apply Hle. apply (ki_ready g k Hi). eauto.
Qed.

(** *** The final state *)

(** [requires_edge g s d]: service [s] requires service [d]. *)
Definition requires_edge (g : DependencyGraph) (s d : str) : Prop :=
  exists deps, g_requires g !! s = Some deps /\ d ∈ deps.

(** Every prerequisite is a service of the graph. *)
Definition graph_closed (g : DependencyGraph) : Prop :=
  forall s d, requires_edge g s d -> is_Some (g_requires g !! d).

(** A start order for services related by [edge]: every service once, each
    one the least by name among the services whose prerequisites have all
    been started before it. *)
Record start_order (service : str -> Prop) (edge : str -> str -> Prop) (l : list str) : Prop := {
  so_nodup : NoDup l;
  so_all : forall s, s ∈ l <-> service s;
  so_after : forall i s d, l !! i = Some s -> edge s d -> d ∈ take i l;
  so_least : forall i s s', l !! i = Some s -> service s' -> s' ∉ take i l ->
    (forall d, edge s' d -> d ∈ take i l) -> str_le s s';
}.

Definition on_cycle (edge : str -> str -> Prop) (s : str) : Prop := tc edge s s.
Definition reaches_cycle (edge : str -> str -> Prop) (s : str) : Prop := exists c, rtc edge s c /\ on_cycle edge c.

(** These notions only depend on the relation. *)
Lemma on_cycle_iff (e1 e2 : str -> str -> Prop) s :
  (forall x y, e1 x y <-> e2 x y) -> on_cycle e1 s <-> on_cycle e2 s.
Proof. intros He. split; intros Hc; (eapply (tc_congruence id); [|exact Hc]); intros x y; apply He. Qed.

Lemma reaches_cycle_iff (e1 e2 : str -> str -> Prop) s :
  (forall x y, e1 x y <-> e2 x y) -> reaches_cycle e1 s <-> reaches_cycle e2 s.
Proof.
  intros He. unfold reaches_cycle. setoid_rewrite (on_cycle_iff e1 e2); [|done].
  split; intros (c & Hc & ?); exists c; (split; [|done]); (eapply rtc_subrel; [|exact Hc]); intros x y; apply He.
Qed.

Lemma start_order_iff (s1 s2 : str -> Prop) (e1 e2 : str -> str -> Prop) l :
  (forall x, s1 x <-> s2 x) -> (forall x y, e1 x y <-> e2 x y) -> start_order s1 e1 l -> start_order s2 e2 l.
Proof.
  intros Hs He [H1 H2 H3 H4]. split; [done| | |].
  - intros s. by rewrite H2, Hs.
  - intros i s d Hi Hd. apply (H3 i s d Hi). by apply He.
  - intros i s s' Hi Hs' Hn Hd. apply (H4 i s s' Hi); [by apply Hs|done|]. intros d Hd'%He. by apply Hd.
Qed.

Lemma placed_size g k : kahn_inv g k -> (length (order k) <= graph_len g)%nat.
Proof.
  intros Hi. unfold graph_len. rewrite <- size_dom.
  rewrite <- (size_list_to_set (C := gset str) (order k)) by apply (ki_nodup g k Hi). apply subseteq_size.
  intros s Hs. apply elem_of_list_to_set in Hs. apply elem_of_dom. destruct (ki_closed g k s Hi Hs) as (? & -> & _). eauto.
Qed.

(** The loop stops by itself: the fuel is one more than the number of services. *)
Lemma kahn_loop_done g fuel k :
  kahn_inv g k -> (graph_len g < fuel + length (order k))%nat ->
  let k' := kahn_loop g fuel k in kahn_inv g k' /\ kahn_step g k' = None.
Proof.
  revert k. induction fuel as [|fuel IH]; intros k Hi Hf; simpl.
  - pose proof (placed_size g k Hi). lia.
  - destruct (kahn_step g k) as [k'|] eqn:Hk; [|done].
    destruct (kahn_step_inv g k k' Hi Hk) as [Hi' Hl]. apply IH; [done|lia].
Qed.

Lemma kahn_stopped g k : kahn_step g k = None -> ready k = ∅.
Proof.
  unfold kahn_step. pose proof (btree_set_first (ready k)) as Hf.
  destruct (btree_set_iter (ready k)); [done|]. by destruct (relax _ _ _ _).
Qed.

(** A service is left over exactly when it is not placed, and then one of its prerequisites is left over too. *)
Lemma stuck_edge g k s :
  kahn_inv g k -> ready k = ∅ -> graph_closed g -> is_Some (g_requires g !! s) -> s ∉ order k ->
  exists d, requires_edge g s d /\ d ∉ order k.
Proof.
  intros Hi Hr Hc [deps Hs] Hno.
  destruct (set_choose_or_empty (deps ∖ placed (order k))) as [(d & Hd)|He].
  - apply elem_of_difference in Hd as [Hd Hn]. rewrite elem_of_placed in Hn. exists d. split; [|done]. by exists deps.
  - exfalso. assert (s ∈ ready k) as Hin; [|rewrite Hr in Hin; by apply elem_of_empty in Hin].
    apply (ki_ready g k Hi). split; [done|]. exists deps. split; [done|].
    intros d Hd. destruct (decide (d ∈ placed (order k))); set_solver.
Qed.

Lemma placed_acyclic g k i s d :
  kahn_inv g k -> order k !! i = Some s -> tc (requires_edge g) s d ->
  exists j, (j < i)%nat /\ order k !! j = Some d.
Proof.
  intros Hi Hs Ht. revert i Hs. induction Ht as [s d (deps & Hd & Hin)|s e d (deps & Hd & Hin) _ IH]; intros i Hs;
    destruct (ki_turn g k Hi i s Hs) as [(deps' & Hd' & Hsub) _]; simplify_eq;
    apply Hsub in Hin; rewrite elem_of_placed, elem_of_take in Hin; destruct Hin as (j & Hj & Hlt); [by exists j|].
  destruct (IH j Hj) as (j' & ? & ?). exists j'. split; [lia|done].
Qed.

(** *** Cycles in a finite graph *)

Fixpoint chain (g : DependencyGraph) (s : str) (l : list str) : Prop :=
  match l with [] => True | d :: l => requires_edge g s d /\ chain g d l end.

Lemma chain_reach g s l d : chain g s l -> d ∈ l -> tc (requires_edge g) s d.
Proof.
  revert s. induction l as [|e l IH]; intros s; simpl; [by intros _ ?%not_elem_of_nil|].
  intros [He Hc] [->|Hin]%elem_of_cons; [by apply tc_once|]. eapply tc_l; eauto.
Qed.

Lemma chain_cycle g s l :
  chain g s l -> ~ NoDup (s :: l) -> exists c, rtc (requires_edge g) s c /\ tc (requires_edge g) c c.
Proof.
  revert s. induction l as [|d l IH]; intros s Hc Hn; [destruct Hn; apply NoDup_singleton|].
  destruct (decide (s ∈ d :: l)) as [Hin|Hin]; [exists s; split; [done|by eapply chain_reach]|].
  destruct Hc as [Hd Hc]. destruct (IH d Hc) as (c & ? & ?).
  { intros Hnd. apply Hn. by constructor. }
  exists c. split; [by eapply rtc_l|done].
Qed.

Lemma finite_cycle g (S : str -> Prop) s :
  (forall s, S s -> exists d, requires_edge g s d /\ S d) -> (forall s, S s -> is_Some (g_requires g !! s)) ->
  S s -> exists c, rtc (requires_edge g) s c /\ tc (requires_edge g) c c.
Proof.
  intros Hstep Hdom Hs.
  assert (forall n s, S s -> exists l, length l = n /\ chain g s l /\ Forall S (s :: l)) as Hlong.
  { intros n. induction n as [|n IH]; intros s' Hs'; [exists []; split_and!; [done|done|by apply Forall_singleton]|].
    destruct (Hstep s' Hs') as (d & Hd & HSd). destruct (IH d HSd) as (l & Hl & Hc & Hf).
    exists (d :: l). simpl. auto. }
  destruct (Hlong (graph_len g) s Hs) as (l & Hl & Hc & Hf). apply (chain_cycle g s l Hc). intros Hnd.
  assert (size (list_to_set (s :: l) : gset str) <= size (dom (g_requires g)))%nat as Hsz.
  { apply subseteq_size. intros x Hx. apply elem_of_list_to_set in Hx. apply elem_of_dom, Hdom.
    by eapply Forall_forall in Hf. }
  rewrite size_list_to_set in Hsz by done. rewrite size_dom in Hsz. unfold graph_len in Hl. simpl in Hsz. lia.
Qed.

(** *** Reading the final state *)

Section Final.
Context (g : DependencyGraph) (k : Kahn).
Hypothesis (Hi : kahn_inv g k) (Hr : ready k = ∅) (Hc : graph_closed g).

Lemma placed_no_cycle s : s ∈ order k -> ~ reaches_cycle (requires_edge g) s.
Proof using Hi.
  assert (forall i c, order k !! i = Some c -> ~ on_cycle (requires_edge g) c) as Hself.
  { intros i c Hs Hcc. destruct (placed_acyclic g k i c c Hi Hs Hcc) as (j & ? & Hj).
    pose proof (NoDup_lookup _ _ _ _ (ki_nodup g k Hi) Hs Hj). lia. }
  intros [i Hs]%list_elem_of_lookup (c & Hsc & Hcc). apply rtc_tc in Hsc as [->|Hsc]; [by eapply Hself|].
  destruct (placed_acyclic g k i s c Hi Hs Hsc) as (j & ? & Hj). by eapply Hself.
Qed.

Lemma unplaced_cycle s : is_Some (g_requires g !! s) -> s ∉ order k -> reaches_cycle (requires_edge g) s.
Proof using Hi Hr Hc.
  intros Hs Hno. apply (finite_cycle g (fun s => is_Some (g_requires g !! s) /\ s ∉ order k)); try tauto.
  intros s' [Hs' Hno']. destruct (stuck_edge g k s' Hi Hr Hc Hs' Hno') as (d & Hd & ?). exists d. eauto.
Qed.

(** The services with a non-zero counter are those that were not placed. *)
Lemma stuck_unplaced s :
  s ∈ (fst <$> filter (fun x : str * Z => 0 < x.2) (btree_str_iter (in_degree k))) <->
  is_Some (g_requires g !! s) /\ s ∉ order k.
Proof using Hi Hr.
  rewrite list_elem_of_fmap. split.
  - intros ([s' d] & -> & [Hd Hin]%list_elem_of_filter). simpl in *.
    rewrite elem_of_btree_str_iter, (ki_degree g k Hi) in Hin.
    destruct (g_requires g !! s') as [deps|] eqn:Hs; [|done]. injection Hin as <-. split; [eauto|].
    intros Ho. apply (ki_closed g k s' Hi) in Ho as (deps' & ? & Hsub%size_diff_zero). simplify_eq. lia.
  - intros [[deps Hs] Hno]. exists (s, Z.of_nat (size (deps ∖ placed (order k)))). split; [done|].
    apply list_elem_of_filter. rewrite elem_of_btree_str_iter, (ki_degree g k Hi), Hs. split; [|done]. simpl.
    destruct (size (deps ∖ placed (order k))) eqn:Hz; [|lia]. apply size_diff_zero in Hz.
    assert (s ∈ ready k) as Hin by (apply (ki_ready g k Hi); eauto). rewrite Hr in Hin. by apply elem_of_empty in Hin.
Qed.

(** Either everything was placed, or something was left over. *)
Lemma all_placed : length (order k) = graph_len g <-> forall s, is_Some (g_requires g !! s) -> s ∈ order k.
Proof using Hi.
  clear Hr Hc. unfold graph_len. rewrite <- size_dom, <- (size_list_to_set (C := gset str) (order k)) by apply (ki_nodup g k Hi).
  split.
  - intros Hl s Hs. apply elem_of_dom in Hs. rewrite <- (elem_of_list_to_set (C := gset str)).
    destruct (decide (s ∈ (list_to_set (order k) : gset str))) as [|Hn]; [done|]. exfalso.
    assert ((list_to_set (order k) : gset str) ⊂ dom (g_requires g)) as Hlt%subset_size; [|lia].
    split; [|set_solver]. intros x Hx%elem_of_list_to_set. apply elem_of_dom.
    destruct (ki_closed g k x Hi Hx) as (? & -> & _). eauto.
  - intros Hall. apply Nat.le_antisymm; apply subseteq_size; intros x Hx.
    + apply elem_of_list_to_set in Hx. apply elem_of_dom. destruct (ki_closed g k x Hi Hx) as (? & -> & _). eauto.
    + apply elem_of_list_to_set, Hall. by apply elem_of_dom.
Qed.

Lemma order_start_order :
  (forall s, is_Some (g_requires g !! s) -> s ∈ order k) ->
  start_order (fun s => is_Some (g_requires g !! s)) (requires_edge g) (order k).
Proof using Hi.
  clear Hr Hc. intros Hall. split.
  - apply (ki_nodup g k Hi).
  - intros s. split; [|auto]. intros Ho. destruct (ki_closed g k s Hi Ho) as (? & -> & _). eauto.
  - intros i s d Hs (deps & Hd & Hin). destruct (ki_turn g k Hi i s Hs) as [(deps' & ? & Hsub) _]. simplify_eq.
    by apply elem_of_placed, Hsub.
  - intros i s s' Hs [deps Hs'] Hn Hd. destruct (ki_turn g k Hi i s Hs) as [_ Hle]. eapply Hle; eauto.
    intros d Hin. apply elem_of_placed, Hd. by exists deps.
Qed.

End Final.

Lemma topological_order_exact g :
  graph_closed g ->
  match topological_order g with
  | Ok l => start_order (fun s => is_Some (g_requires g !! s)) (requires_edge g) l /\
      forall s, ~ on_cycle (requires_edge g) s
  | Err (Cycle stuck) =>
      stuck <> [] /\ forall s, s ∈ stuck <-> is_Some (g_requires g !! s) /\ reaches_cycle (requires_edge g) s
  | Err _ => False
  end.
Proof.
  intros Hc. unfold topological_order.
  destruct (kahn_loop_done g (S (graph_len g)) (kahn_init g) (kahn_init_inv g)) as [Hi Hstop]; [lia|].
  set (k := kahn_loop _ _ _) in *. apply kahn_stopped in Hstop as Hr.
  destruct (Nat.eqb_spec (length (order k)) (graph_len g)) as [Hl|Hl].
  - pose proof (proj1 (all_placed g k Hi) Hl) as Hall. split; [by apply order_start_order|].
    intros s Hs. assert (is_Some (g_requires g !! s)) as Hd.
    { unfold on_cycle in Hs. inversion Hs as [? ? (deps & ? & _)|? ? ? (deps & ? & _)]; subst; eauto. }
    apply (placed_no_cycle g k Hi s); [by apply Hall|]. by exists s.
  - pose proof (stuck_unplaced g k Hi Hr) as Hst. set (stuck := fst <$> _) in *. split.
    + intros He. apply Hl. apply (all_placed g k Hi). intros s Hs.
      destruct (decide (s ∈ order k)) as [|Hn]; [done|]. exfalso.
      assert (s ∈ stuck) as Hin by (by apply Hst). rewrite He in Hin. by apply not_elem_of_nil in Hin.
    + intros s. rewrite Hst. split; intros [Hs H]; (split; [done|]).
      * by eapply unplaced_cycle.
      * intros Ho. by eapply placed_no_cycle.
Qed.

(** *** Building the graph *)

(** The names already taken, and those of the manifests in front. *)
Lemma collect_requires_spec ms acc :
  match collect_requires ms acc with
  | Ok r => NoDup (name <$> ms) /\ (forall m, m ∈ ms -> acc !! name m = None) /\
      (forall m, m ∈ ms -> r !! name m = Some (list_to_set (requires m))) /\
      (forall s, s ∉ (name <$> ms) -> r !! s = acc !! s)
  | Err e => exists pre m post, ms = pre ++ m :: post /\ e = DuplicateService (name m) /\
      NoDup (name <$> pre) /\ (forall x, x ∈ pre -> acc !! name x = None) /\ (is_Some (acc !! name m) \/ name m ∈ (name <$> pre))
  end.
Proof.
  revert acc. induction ms as [|m ms IH]; intros acc; cbn [collect_requires].
  { split_and!; [constructor|by intros ? ?%not_elem_of_nil..|done]. }
  destruct (acc !! name m) eqn:Ha.
  { exists [], m, ms. split_and!; [done|done|constructor|by intros ? ?%not_elem_of_nil|left; by eauto]. }
  specialize (IH (<[name m := list_to_set (requires m)]> acc)).
  destruct (collect_requires ms _) as [r|e].
  - destruct IH as (Hnd & Hfresh & Hin & Hout).
    assert (name m ∉ (name <$> ms)) as Hm.
    { intros (m' & Heq & Hm')%list_elem_of_fmap. specialize (Hfresh m' Hm'). rewrite <- Heq in Hfresh.
      by rewrite lookup_insert_eq in Hfresh. }
    split_and!.
    + by constructor.
    + intros m' [->|Hm']%elem_of_cons; [done|]. specialize (Hfresh m' Hm').
      by apply lookup_insert_None in Hfresh as [? _].
    + intros m' [->|Hm']%elem_of_cons; [by rewrite Hout, lookup_insert_eq|by apply Hin].
    + intros s Hs. rewrite fmap_cons, not_elem_of_cons in Hs. destruct Hs as [Hne Hs].
      by rewrite Hout, lookup_insert_ne by done.
  - destruct IH as (pre & m' & post & -> & -> & Hnd & Hfresh & Hor). exists (m :: pre), m', post. simpl.
    setoid_rewrite lookup_insert_None in Hfresh. split_and!; [done|done| | |].
    + apply NoDup_cons. split; [|done]. intros (x & Heq & Hx)%list_elem_of_fmap. by destruct (Hfresh x Hx) as [_ []].
    + intros x [->|Hx]%elem_of_cons; [done|]. by destruct (Hfresh x Hx).
    + destruct Hor as [[y Hy]|Hor]; [|right; by right].
      destruct (decide (name m = name m')) as [->|Hne]; [right; left|].
      rewrite lookup_insert_ne in Hy by done. left. eauto.
Qed.

Lemma check_known_spec r svc deps :
  match check_known r svc deps with
  | Ok _ => forall d, d ∈ deps -> is_Some (r !! d)
  | Err e => exists d, e = UnknownDependency svc d /\ d ∈ deps /\ r !! d = None
  end.
Proof.
  induction deps as [|d deps IH]; simpl; [by intros ? ?%not_elem_of_nil|].
  destruct (r !! d) as [y|] eqn:Hd; [|exists d; split_and!; [done|left|done]].
  destruct (check_known r svc deps).
  - intros x [->|Hx]%elem_of_cons; [by rewrite Hd|auto].
  - destruct IH as (x & ? & ? & ?). exists x. split_and!; [done|by right|done].
Qed.

Lemma check_all_known_spec r l :
  match check_all_known r l with
  | Ok _ => forall s deps d, (s, deps) ∈ l -> d ∈ deps -> is_Some (r !! d)
  | Err e => exists s deps d, e = UnknownDependency s d /\ (s, deps) ∈ l /\ d ∈ deps /\ r !! d = None
  end.
Proof.
  induction l as [|[s deps] l IH]; simpl; [by intros ? ? ? ?%not_elem_of_nil|].
  pose proof (check_known_spec r s (btree_set_iter deps)) as Hk.
  destruct (check_known _ _ _) as [[]|e]; setoid_rewrite elem_of_btree_set_iter in Hk; simpl.
  - destruct (check_all_known r l).
    + intros s' deps' d [[= -> ->]|Hin]%elem_of_cons Hd; eauto.
    + destruct IH as (s' & deps' & d & ? & ? & ? & ?). exists s', deps', d. split_and!; try done. by right.
  - destruct Hk as (d & ? & ? & ?). exists s, deps, d. split_and!; try done. left.
Qed.

(** The graph of a list of manifests, or what is wrong with the list. *)
Lemma from_manifests_exact ms :
  match from_manifests ms with
  | Ok g => NoDup (name <$> ms) /\ graph_closed g /\
      (forall s, is_Some (g_requires g !! s) <-> s ∈ (name <$> ms)) /\
      forall m, m ∈ ms -> g_requires g !! name m = Some (list_to_set (requires m))
  | Err (DuplicateService s) => exists pre m post, ms = pre ++ m :: post /\ s = name m /\
      NoDup (name <$> pre) /\ s ∈ (name <$> pre)
  | Err (UnknownDependency s d) => NoDup (name <$> ms) /\
      exists m, m ∈ ms /\ name m = s /\ d ∈ requires m /\ d ∉ (name <$> ms)
  | Err (Cycle _) => False
  end.
Proof.
  unfold from_manifests. pose proof (collect_requires_spec ms ∅) as Hc.
  destruct (collect_requires ms ∅) as [r|e]; simpl.
  2: { destruct Hc as (pre & m & post & -> & -> & Hnd & _ & [[? ?%lookup_empty_Some]|Hin]); [done|].
       by exists pre, m, post. }
  destruct Hc as (Hnd & _ & Hin & Hout).
  assert (forall s, is_Some (r !! s) <-> s ∈ (name <$> ms)) as Hdom.
  { intros s. destruct (decide (s ∈ (name <$> ms))) as [Hs|Hs].
    - split; [done|]. intros _. apply list_elem_of_fmap in Hs as (m & -> & Hm). rewrite (Hin m Hm). eauto.
    - rewrite Hout, lookup_empty by done. by split; [intros []%is_Some_None|]. }
  assert (forall s deps, r !! s = Some deps -> exists m, m ∈ ms /\ name m = s /\ deps = list_to_set (requires m)) as Hinv.
  { intros s deps Hs. assert (s ∈ (name <$> ms)) as (m & -> & Hm)%list_elem_of_fmap by (apply Hdom; eauto).
    exists m. rewrite (Hin m Hm) in Hs. by injection Hs as <-. }
  pose proof (check_all_known_spec r (btree_str_iter r)) as Hk.
  destruct (check_all_known r _) as [[]|e]; setoid_rewrite elem_of_btree_str_iter in Hk; simpl.
  - split_and!; [done| |done|done]. intros s d (deps & Hs & Hd). by eapply Hk.
  - destruct Hk as (s & deps & d & -> & Hs & Hd & Hnone). split; [done|].
    destruct (Hinv s deps Hs) as (m & Hm & Hn & ->). exists m. split_and!; try done.
    + by apply elem_of_list_to_set in Hd.
    + rewrite <- Hdom, Hnone. by apply is_Some_None.
Qed.

(** The backoff delay is [min(max_ms, base_ms * factor^(n-1))] for the
    [n]-th restart, exactly, although it is computed with saturating 64-bit
    products and an early exit; it never exceeds [max_ms] and, for a manifest
    that validates, never decreases from one restart to the next. *)
Theorem backoff_delay (b : Backoff) (n : Z) :
  in_uint 64 (base_ms b) -> in_uint 64 (max_ms b) -> in_uint 64 (factor b) -> in_uint 32 n -> 1 <= n ->
  delay_ms b n = Z.min (max_ms b) (base_ms b * factor b ^ (n - 1)) /\
  0 <= delay_ms b n <= max_ms b /\ delay_ms b 0 = 0 /\
  (1 <= factor b -> delay_ms b n <= delay_ms b (n + 1)).
Proof.
  unfold in_uint. intros Hb Hm Hf Hn H1.
  assert (forall k, 1 <= k -> delay_ms b k = Z.min (max_ms b) (base_ms b * factor b ^ (k - 1))) as Hd.
  { intros k Hk. unfold delay_ms. destruct (Z.eqb_spec k 0); [lia|].
    rewrite delay_loop_min by (unfold uint_max; lia). by rewrite Z2Nat.id by lia. }
  assert (0 <= factor b ^ (n - 1)) by (apply Z.pow_nonneg; lia).
  rewrite (Hd n), (Hd (n + 1)) by lia. split_and!; [done|nia|lia|done|]. intros Hf1.
  replace (n + 1 - 1) with (Z.succ (n - 1)) by lia. rewrite Z.pow_succ_r by lia. nia.
Qed.

Lemma backoff_delay_witness :
  delay_ms Backoff_default 3 = 400 /\ delay_ms Backoff_default 12 = 30000 /\
  0 <= delay_ms Backoff_default 12 <= 30000.
Proof.
  split; [vm_compute; reflexivity|]. split; [vm_compute; reflexivity|].
  apply (backoff_delay Backoff_default 12); unfold in_uint; simpl; lia.
Defined.
