(* ===== verification/Supervisor.v ===== *)
(** * The PID 1 supervisor

    [src/crates/nexacore-init/src/supervisor.rs]: ordered start, socket
    activation, health checks, restart with backoff and ordered shutdown.
    Every effect goes through the [ServiceHost] interface, here a type class
    over the host's own state; the theorems hold for every host.  [Logged]
    wraps a host so that what the supervisor asked of it can be stated, and
    [MockHost] is the host of the crate's tests. *)

From stdpp Require Import gmultiset.
From S2P Require Import Prelude InitGraph.

Inductive Liveness := Alive | LivenessExited (success : bool).
Inductive Health := Healthy | Unhealthy.
Inductive Signal := Terminate | Interrupt | ChildExited.

#[export] Instance Health_eq_dec : EqDecision Health.
Proof. solve_decision. Defined.

Record SpawnRequest := mkRequest {
  req_name : str;
  req_exec : str;
  req_args : list str;
  req_capabilities : list Capability;
  req_socket : option SocketSpec;
}.

Record SpawnError := mkSpawnError { spawn_message : str }.

(** The seam through which the supervisor performs all process and clock effects. *)
Class ServiceHost (H : Type) := {
  now_ms : H -> Z;
  host_spawn : SpawnRequest -> H -> result SpawnError Z * H;
  host_kill : Z -> H -> H;
  host_liveness : Z -> H -> Liveness * H;
  host_health : Z -> H -> Health * H;
  host_create_socket : str -> SocketSpec -> H -> result SpawnError () * H;
}.

Inductive RunStatus := Pending | SocketArmed | Running | InBackoff | Stopped | Failed.
#[export] Instance RunStatus_eq_dec : EqDecision RunStatus.
Proof. solve_decision. Defined.

Record ServiceRuntime := mkRuntime {
  status : RunStatus;
  pid : option Z;
  restart_count : Z;
  restart_at_ms : Z;
  last_health_ms : Z;
}.

Definition ServiceRuntime_default : ServiceRuntime := mkRuntime Pending None 0 0 0.

Inductive TickEvent :=
| EvStarted (s : str)
| EvSocketArmed (s : str)
| EvExited (service : str) (success : bool)
| EvUnhealthy (s : str)
| EvRestartScheduled (service : str) (at_ms : Z)
| EvRestarted (s : str)
| EvGaveUp (s : str)
| EvStopped (s : str)
| EvSpawnFailed (service : str) (error : str).

Inductive SupervisorError :=
| ErrManifest (s : str) (e : ManifestError)
| ErrGraph (e : GraphError)
| ErrSpawn (s : str) (e : SpawnError).

Record Supervisor (H : Type) := mkSup {
  manifests : gmap str ServiceManifest;
  sup_order : list str;
  runtimes : gmap str ServiceRuntime;
  host : H;
}.
Arguments mkSup {H}. Arguments manifests {H}. Arguments sup_order {H}.
Arguments runtimes {H}. Arguments host {H}.

Section Operations.
Context {H : Type} `{!ServiceHost H}.

Definition set_host (h : H) (s : Supervisor H) : Supervisor H :=
  mkSup (manifests s) (sup_order s) (runtimes s) h.

(** [if let Some(rt) = self.runtimes.get_mut(name) { .. }] *)
Definition update (n : str) (f : ServiceRuntime -> ServiceRuntime) (s : Supervisor H) : Supervisor H :=
  mkSup (manifests s) (sup_order s) (alter f n (runtimes s)) (host s).

Fixpoint validate_all (ms : list ServiceManifest) : result SupervisorError () :=
  match ms with
  | [] => Ok ()
  | m :: ms =>
      match validate m with
      | Err e => Err (ErrManifest (name m) e)
      | Ok _ => validate_all ms
      end
  end.

Definition map_graph_err {A} (r : result GraphError A) : result SupervisorError A :=
  match r with Ok a => Ok a | Err e => Err (ErrGraph e) end.

Definition Supervisor_new (ms : list ServiceManifest) (h : H) : result SupervisorError (Supervisor H) :=
  _ ← validate_all ms;
  graph ← map_graph_err (from_manifests ms);
  order ← map_graph_err (topological_order graph);
  let '(map, rts) := fold_left
    (fun x m => (<[name m := m]> x.1, <[name m := ServiceRuntime_default]> x.2)) ms (∅, ∅) in
  Ok (mkSup map order rts h).

Definition sup_status (s : Supervisor H) (n : str) : option RunStatus := status <$> (runtimes s !! n).
Definition sup_restart_count (s : Supervisor H) (n : str) : Z :=
  match runtimes s !! n with Some r => restart_count r | None => 0 end.
Definition sup_pid (s : Supervisor H) (n : str) : option Z := runtimes s !! n ≫= pid.

Definition spawn_service (n : str) (s : Supervisor H) : result SpawnError () * Supervisor H :=
  match manifests s !! n with
  | None => (Ok (), s)
  | Some m =>
      let request := mkRequest n (exec_path m) (args m) (capabilities m) (socket m) in
      match host_spawn request (host s) with
      | (Err e, h) => (Err e, set_host h s)
      | (Ok p, h) =>
          let now := now_ms h in
          (Ok (), update n (fun rt => mkRuntime Running (Some p) (restart_count rt) (restart_at_ms rt) now)
                    (set_host h s))
      end
  end.

Definition set_status (st : RunStatus) (rt : ServiceRuntime) : ServiceRuntime :=
  mkRuntime st (pid rt) (restart_count rt) (restart_at_ms rt) (last_health_ms rt).

(** One iteration of the loop of [start_all]. *)
Definition start_one (n : str) (s : Supervisor H) : result SupervisorError TickEvent * Supervisor H :=
  match manifests s !! n ≫= socket with
  | Some spec =>
      match host_create_socket n spec (host s) with
      | (Err e, h) => (Err (ErrSpawn n e), set_host h s)
      | (Ok _, h) => (Ok (EvSocketArmed n), update n (set_status SocketArmed) (set_host h s))
      end
  | None =>
      match spawn_service n s with
      | (Err e, s) => (Err (ErrSpawn n e), s)
      | (Ok _, s) => (Ok (EvStarted n), s)
      end
  end.

Fixpoint start_loop (l : list str) (s : Supervisor H) (events : list TickEvent) :
  result SupervisorError (list TickEvent) * Supervisor H :=
  match l with
  | [] => (Ok events, s)
  | n :: l =>
      match start_one n s with
      | (Err e, s) => (Err e, s)
      | (Ok ev, s) => start_loop l s (events ++ [ev])
      end
  end.

Definition start_all (s : Supervisor H) : result SupervisorError (list TickEvent) * Supervisor H :=
  start_loop (sup_order s) s [].

Definition notify_socket_connection (n : str) (s : Supervisor H) :
  result SpawnError (option TickEvent) * Supervisor H :=
  if bool_decide (sup_status s n <> Some SocketArmed) then (Ok None, s)
  else
    match spawn_service n s with
    | (Err e, s) => (Err e, s)
    | (Ok _, s) => (Ok (Some (EvStarted n)), s)
    end.

Definition handle_termination (n : str) (success : bool) (now : Z) (s : Supervisor H)
  (events : list TickEvent) : Supervisor H * list TickEvent :=
  let events := events ++ [EvExited n success] in
  let policy := restart <$> manifests s !! n in
  let boff := backoff <$> manifests s !! n in
  let do_restart := match policy with Some p => should_restart p success | None => false end in
  match runtimes s !! n with
  | None => (s, events)
  | Some rt =>
      if do_restart then
        let rc := saturating_add 32 (restart_count rt) 1 in
        let delay := match boff with Some b => delay_ms b rc | None => 0 end in
        let at_ms := saturating_add 64 now delay in
        (update n (fun rt => mkRuntime InBackoff None rc at_ms (last_health_ms rt)) s,
         events ++ [EvRestartScheduled n at_ms])
      else
        (update n (fun rt => mkRuntime Failed None (restart_count rt) (restart_at_ms rt) (last_health_ms rt)) s,
         events ++ [EvGaveUp n])
  end.

Definition poll_one (n : str) (now : Z) (s : Supervisor H) (events : list TickEvent) :
  Supervisor H * list TickEvent :=
  match runtimes s !! n with
  | None => (s, events)
  | Some rt =>
      if bool_decide (status rt <> Running) then (s, events)
      else
        match pid rt with
        | None => (s, events)
        | Some p =>
            let last_health := last_health_ms rt in
            let health_interval := interval_ms <$> (manifests s !! n ≫= health) in
            match host_liveness p (host s) with
            | (LivenessExited success, h) => handle_termination n success now (set_host h s) events
            | (Alive, h) =>
                let s := set_host h s in
                match health_interval with
                | Some interval =>
                    if interval <=? saturating_sub now last_health then
                      let s := update n (fun rt => mkRuntime (status rt) (pid rt) (restart_count rt)
                                                     (restart_at_ms rt) now) s in
                      let '(hp, h) := host_health p (host s) in
                      if bool_decide (hp = Unhealthy) then
                        handle_termination n false now (set_host (host_kill p h) s) (events ++ [EvUnhealthy n])
                      else (set_host h s, events)
                    else (s, events)
                | None => (s, events)
                end
            end
        end
  end.

Definition maybe_restart (n : str) (now : Z) (s : Supervisor H) (events : list TickEvent) :
  Supervisor H * list TickEvent :=
  let due := match runtimes s !! n with
             | Some r => bool_decide (status r = InBackoff) && (restart_at_ms r <=? now)
             | None => false
             end in
  if negb due then (s, events)
  else
    match spawn_service n s with
    | (Ok _, s) => (s, events ++ [EvRestarted n])
    | (Err e, s) =>
        let s := match manifests s !! n with
                 | Some m =>
                     update n (fun rt =>
                       let rc := saturating_add 32 (restart_count rt) 1 in
                       mkRuntime InBackoff (pid rt) rc (saturating_add 64 now (delay_ms (backoff m) rc))
                         (last_health_ms rt)) s
                 | None => s
                 end in
        (s, events ++ [EvSpawnFailed n (spawn_message e)])
    end.

Fixpoint poll_all (l : list str) (now : Z) (s : Supervisor H) (events : list TickEvent) :=
  match l with
  | [] => (s, events)
  | n :: l => let '(s, events) := poll_one n now s events in poll_all l now s events
  end.

Fixpoint restart_all (l : list str) (now : Z) (s : Supervisor H) (events : list TickEvent) :=
  match l with
  | [] => (s, events)
  | n :: l => let '(s, events) := maybe_restart n now s events in restart_all l now s events
  end.

Definition tick (s : Supervisor H) : Supervisor H * list TickEvent :=
  let now := now_ms (host s) in
  let order := sup_order s in
  let '(s, events) := poll_all order now s [] in
  restart_all order now s events.

(** One iteration of the loop of [shutdown]. *)
Definition stop_one (n : str) (s : Supervisor H) : Supervisor H * list TickEvent :=
  match runtimes s !! n with
  | None => (s, [])
  | Some rt =>
      match status rt with
      | Running =>
          let s := match pid rt with Some p => set_host (host_kill p (host s)) s | None => s end in
          (update n (fun rt => mkRuntime Stopped None (restart_count rt) (restart_at_ms rt) (last_health_ms rt)) s,
           [EvStopped n])
      | SocketArmed | InBackoff | Pending => (update n (set_status Stopped) s, [EvStopped n])
      | Stopped | Failed => (s, [])
      end
  end.

Fixpoint stop_loop (l : list str) (s : Supervisor H) : Supervisor H * list TickEvent :=
  match l with
  | [] => (s, [])
  | n :: l =>
      let '(s, e1) := stop_one n s in
      let '(s, e2) := stop_loop l s in
      (s, e1 ++ e2)
  end.

Definition shutdown (s : Supervisor H) : Supervisor H * list TickEvent := stop_loop (reverse (sup_order s)) s.

Definition handle_signal (sg : Signal) (s : Supervisor H) : Supervisor H * list TickEvent :=
  match sg with
  | Terminate | Interrupt => shutdown s
  | ChildExited => tick s
  end.

End Operations.

(** ** The host of the tests *)

Record MockHost := mkMock {
  mk_now : Z;
  next_pid : Z;
  spawns : list (str * list str * bool);
  kills : list Z;
  sockets : list str;
  live_of : gmap Z Liveness;
  health_of : gmap Z Health;
  last_pid : gmap str Z;
}.

Definition MockHost_default : MockHost := mkMock 0 0 [] [] [] ∅ ∅ ∅.

#[export] Instance mock_host : ServiceHost MockHost := {
  now_ms h := mk_now h;
  host_spawn r h :=
    let p := next_pid h + 1 in
    (Ok p, mkMock (mk_now h) p
             (spawns h ++ [(req_name r, cap_name <$> req_capabilities r, bool_decide (is_Some (req_socket r)))])
             (kills h) (sockets h) (<[p := Alive]> (live_of h)) (<[p := Healthy]> (health_of h))
             (<[req_name r := p]> (last_pid h)));
  host_kill p h := mkMock (mk_now h) (next_pid h) (spawns h) (kills h ++ [p]) (sockets h) (live_of h)
                     (health_of h) (last_pid h);
  host_liveness p h := (default Alive (live_of h !! p), h);
  host_health p h := (default Healthy (health_of h !! p), h);
  host_create_socket n _ h :=
    (Ok (), mkMock (mk_now h) (next_pid h) (spawns h) (kills h) (sockets h ++ [n]) (live_of h)
              (health_of h) (last_pid h));
}.

(** ** What the host was asked to do *)

Inductive Effect :=
| Spawned (n : str) (p : Z)
| SpawnRefused (n : str)
| Killed (p : Z)
| SeenExited (p : Z)
| SocketCreated (n : str)
| SocketRefused (n : str).

Record Logged (H : Type) := mkLogged { inner : H; log : list Effect }.
Arguments mkLogged {H}. Arguments inner {H}. Arguments log {H}.

(** Any host, with every spawn, kill, observed exit and socket recorded. *)
#[export] Instance logged_host {H} `{!ServiceHost H} : ServiceHost (Logged H) := {
  now_ms h := now_ms (inner h);
  host_spawn r h :=
    let '(res, i) := host_spawn r (inner h) in
    (res, mkLogged i (log h ++ [match res with Ok p => Spawned (req_name r) p | Err _ => SpawnRefused (req_name r) end]));
  host_kill p h := mkLogged (host_kill p (inner h)) (log h ++ [Killed p]);
  host_liveness p h :=
    let '(l, i) := host_liveness p (inner h) in
    (l, mkLogged i (log h ++ match l with Alive => [] | LivenessExited _ => [SeenExited p] end));
  host_health p h := let '(r, i) := host_health p (inner h) in (r, mkLogged i (log h));
  host_create_socket n sp h :=
    let '(res, i) := host_create_socket n sp (inner h) in
    (res, mkLogged i (log h ++ [if is_ok res then SocketCreated n else SocketRefused n]));
}.

(** The processes the host started and has not been told to kill nor
    reported as exited. *)
Definition live_step (m : gmultiset Z) (e : Effect) : gmultiset Z :=
  match e with
  | Spawned _ p => m ⊎ {[+ p +]}
  | Killed p | SeenExited p => m ∖ {[+ p +]}
  | _ => m
  end.
Definition live (l : list Effect) : gmultiset Z := fold_left live_step l ∅.

(** The processes recorded in the runtimes. *)
Definition rt_pids (rt : ServiceRuntime) : gmultiset Z := match pid rt with Some p => {[+ p +]} | None => ∅ end.
Definition tracked (m : gmap str ServiceRuntime) : gmultiset Z :=
  list_to_set_disj (omap (fun x => pid x.2) (map_to_list m)).

Lemma tracked_insert_fresh m n rt : m !! n = None -> tracked (<[n := rt]> m) = rt_pids rt ⊎ tracked m.
Proof.
  intros Hn. unfold tracked, rt_pids.
  rewrite (list_to_set_disj_perm
    (omap (fun x => pid x.2) (map_to_list (<[n:=rt]> m))) (omap (fun x => pid x.2) ((n, rt) :: map_to_list m)))
    by (by rewrite map_to_list_insert).
  simpl. destruct (pid rt); simpl; multiset_solver.
Qed.

Lemma tracked_alter m n f rt :
  m !! n = Some rt -> tracked (alter f n m) = tracked m ∖ rt_pids rt ⊎ rt_pids (f rt).
Proof.
  intros Hn. replace (alter f n m) with (<[n := f rt]> (delete n m)).
  2: { apply map_eq. intros i. destruct (decide (i = n)) as [->|].
       - by rewrite lookup_insert_eq, lookup_alter_eq, Hn.
       - by rewrite lookup_insert_ne, lookup_alter_ne, lookup_delete_ne by done. }
  rewrite tracked_insert_fresh by apply lookup_delete_eq.
  assert (tracked m = rt_pids rt ⊎ tracked (delete n m)) as ->; [|multiset_solver].
  rewrite <- (tracked_insert_fresh (delete n m) n rt) by apply lookup_delete_eq. by rewrite insert_delete_id.
Qed.

Lemma tracked_elem m n rt p : m !! n = Some rt -> pid rt = Some p -> p ∈ tracked m.
Proof.
  intros Hn Hp. unfold tracked. apply elem_of_list_to_set_disj. apply list_elem_of_omap.
  exists (n, rt). split; [by apply elem_of_map_to_list|done].
Qed.

Lemma tracked_none m : (forall n rt, m !! n = Some rt -> pid rt = None) -> tracked m = ∅.
Proof.
  intros Hall. destruct (gmultiset_choose_or_empty (tracked m)) as [[p Hp]|]; [|done]. exfalso.
  unfold tracked in Hp. apply elem_of_list_to_set_disj, list_elem_of_omap in Hp as ([n rt] & Hin & Hp).
  apply elem_of_map_to_list in Hin. simpl in Hp. rewrite (Hall n rt Hin) in Hp. done.
Qed.

Section Invariant.
Context {H : Type} `{!ServiceHost H}.
Implicit Types (s : Supervisor (Logged H)).

(** Every started process is recorded in exactly one runtime, and a service
    has a process exactly while it is [Running]. *)
Record sup_ok s : Prop := {
  sk_live : live (log (host s)) = tracked (runtimes s);
  sk_running : forall n rt, runtimes s !! n = Some rt -> (status rt = Running <-> is_Some (pid rt));
  sk_manifest : forall n, is_Some (manifests s !! n) -> is_Some (runtimes s !! n);
  sk_order : forall n, is_Some (runtimes s !! n) -> n ∈ sup_order s;
  sk_nodup : NoDup (sup_order s);
}.

(** A change of the host that involves no process. *)
Lemma sup_ok_host s h : sup_ok s -> live (log h) = live (log (host s)) -> sup_ok (set_host h s).
Proof. intros [] Hl. split; simpl; auto. by rewrite Hl. Qed.

(** A change of the host and of one runtime that agree on the processes. *)
Lemma sup_ok_update s h n f rt :
  sup_ok s -> runtimes s !! n = Some rt ->
  live (log h) = live (log (host s)) ∖ rt_pids rt ⊎ rt_pids (f rt) ->
  (status (f rt) = Running <-> is_Some (pid (f rt))) ->
  sup_ok (update n f (set_host h s)).
Proof.
  intros [Hl Hr Hm Ho Hnd] Hn Hlive Hf. split; simpl.
  - by rewrite Hlive, Hl, (tracked_alter _ _ _ rt).
  - intros n' rt'. destruct (decide (n' = n)) as [->|].
    + rewrite lookup_alter_eq, Hn. by intros [= <-].
    + rewrite lookup_alter_ne by done. apply Hr.
  - intros n' Hn'%Hm. destruct (decide (n' = n)) as [->|].
    + rewrite lookup_alter_eq, Hn. simpl. by eauto.
    + by rewrite lookup_alter_ne.
  - intros n' Hn'. apply Ho. destruct (decide (n' = n)) as [->|]; [by rewrite Hn|].
    by rewrite lookup_alter_ne in Hn'.
  - done.
Qed.

Lemma live_app l e : live (l ++ [e]) = live_step (live l) e.
Proof. unfold live. by rewrite fold_left_app. Qed.

Lemma rt_pids_idle s n rt :
  sup_ok s -> runtimes s !! n = Some rt -> status rt <> Running -> pid rt = None.
Proof.
  intros Hs Hn Hst. destruct (pid rt) eqn:Hp; [|done]. destruct Hst. apply (sk_running s Hs n rt Hn). by rewrite Hp.
Qed.

Lemma spawn_service_ok s n :
  sup_ok s -> (forall rt, runtimes s !! n = Some rt -> status rt <> Running) ->
  sup_ok (spawn_service n s).2.
Proof.
  intros Hs Hidle. unfold spawn_service. destruct (manifests s !! n) as [m|] eqn:Hm; [|done].
  simpl. destruct (host_spawn _ _) as [[p|e] i]; simpl.
  - destruct (sk_manifest s Hs n) as [rt Hn]; [by rewrite Hm|].
    apply (sup_ok_update s _ n _ rt); [done|done| |simpl; by eauto].
    simpl. rewrite live_app. unfold rt_pids. rewrite (rt_pids_idle s n rt Hs Hn) by auto. simpl. multiset_solver.
  - apply sup_ok_host; [done|]. simpl. by rewrite live_app.
Qed.

(** The process of service [n] is gone from the host: its runtime forgets it. *)
Lemma handle_termination_ok s h n rt p success now ev :
  sup_ok s -> runtimes s !! n = Some rt -> pid rt = Some p ->
  live (log h) = live (log (host s)) ∖ {[+ p +]} ->
  sup_ok (handle_termination n success now (set_host h s) ev).1.
Proof.
  intros Hs Hn Hp Hl. unfold handle_termination. simpl. rewrite Hn.
  destruct (match restart <$> (manifests s !! n) with Some _ => _ | None => _ end); simpl;
    (apply (sup_ok_update s h n _ rt); [done|done| |by simpl; split; [|intros []%is_Some_None]]);
    unfold rt_pids; rewrite Hp, Hl; simpl; multiset_solver.
Qed.

(** A change of a runtime that keeps its status and its process. *)
Lemma sup_ok_refresh s h n f rt :
  sup_ok s -> runtimes s !! n = Some rt -> live (log h) = live (log (host s)) ->
  status (f rt) = status rt -> pid (f rt) = pid rt -> sup_ok (update n f (set_host h s)).
Proof.
  intros Hs Hn Hl Hst Hp. apply (sup_ok_update s h n f rt); [done|done| |].
  - rewrite Hl. unfold rt_pids. rewrite Hp, (sk_live s Hs). destruct (pid rt) as [p|] eqn:Hp'; [|multiset_solver].
    pose proof (tracked_elem _ n rt p Hn Hp'). multiset_solver.
  - rewrite Hst, Hp. by apply (sk_running s Hs n).
Qed.

Lemma poll_one_ok s n now ev : sup_ok s -> sup_ok (poll_one n now s ev).1.
Proof.
  intros Hs. unfold poll_one. destruct (runtimes s !! n) as [rt|] eqn:Hn; [|done].
  case_bool_decide; [done|]. destruct (pid rt) as [p|] eqn:Hp; [|done].
  simpl. destruct (host_liveness p (inner (host s))) as [[|success] i].
  2: { apply (handle_termination_ok s _ n rt p); try done. simpl. by rewrite live_app. }
  assert (live (log (host s) ++ []) = live (log (host s))) as Hsame by (by rewrite app_nil_r).
  destruct (interval_ms <$> (manifests s !! n ≫= health)) as [iv|]; [|by apply sup_ok_host].
  destruct (iv <=? _); [|by apply sup_ok_host].
  set (f := fun rt => mkRuntime _ _ _ _ now). set (s1 := update n f _).
  assert (sup_ok s1) as Hs1 by (by apply (sup_ok_refresh s _ n f rt)).
  simpl. destruct (host_health p i) as [hp i']. case_bool_decide.
  - apply (handle_termination_ok s1 _ n (f rt) p); try done.
    + simpl. by rewrite lookup_alter_eq, Hn.
    + simpl. by rewrite live_app.
  - by apply sup_ok_host.
Qed.

Lemma maybe_restart_ok s n now ev : sup_ok s -> sup_ok (maybe_restart n now s ev).1.
Proof.
  intros Hs. unfold maybe_restart. destruct (runtimes s !! n) as [rt|] eqn:Hn; [|done].
  case_bool_decide as Hst; [|done]. destruct (restart_at_ms rt <=? now); [|done]. simpl.
  assert (forall rt, runtimes s !! n = Some rt -> status rt <> Running) as Hidle by (intros ? [= <-]%(eq_trans (eq_sym Hn)); congruence).
  pose proof (spawn_service_ok s n Hs Hidle) as Hsp. revert Hsp. unfold spawn_service.
  destruct (manifests s !! n) as [m|] eqn:Hm; [|done]. simpl. destruct (host_spawn _ _) as [[p|e] i]; [done|].
  cbn -[update set_host]. intros Hsp. change (manifests (set_host _ s)) with (manifests s). rewrite Hm.
  apply (sup_ok_update s _ n _ rt); [done|done| |].
  - simpl. rewrite live_app. unfold rt_pids. simpl. rewrite (rt_pids_idle s n rt Hs Hn) by congruence. simpl. multiset_solver.
  - simpl. rewrite (rt_pids_idle s n rt Hs Hn) by congruence. by split; [|intros []%is_Some_None].
Qed.

Lemma tick_ok s : sup_ok s -> sup_ok (tick s).1.
Proof.
  intros Hs. unfold tick. generalize (now_ms (host s)) (sup_order s) (@nil TickEvent). intros now l ev.
  assert (forall l s ev, sup_ok s -> sup_ok (poll_all l now s ev).1) as Hp.
  { clear. intros l. induction l as [|n l IH]; intros s ev Hs; simpl; [done|].
    pose proof (poll_one_ok s n now ev Hs). destruct (poll_one n now s ev). by apply IH. }
  assert (forall l s ev, sup_ok s -> sup_ok (restart_all l now s ev).1) as Hr.
  { clear. intros l. induction l as [|n l IH]; intros s ev Hs; simpl; [done|].
    pose proof (maybe_restart_ok s n now ev Hs). destruct (maybe_restart n now s ev). by apply IH. }
  pose proof (Hp l s ev Hs). destruct (poll_all l now s ev). by apply Hr.
Qed.

(** Neither a spawn nor a socket changes what is known of other services. *)
Lemma start_one_other s n n' :
  n' <> n -> runtimes (start_one n s).2 !! n' = runtimes s !! n'.
Proof.
  intros Hne. unfold start_one, spawn_service.
  destruct (manifests s !! n) as [m|]; simpl; [|done].
  destruct (socket m); simpl.
  - destruct (host_create_socket _ _ _) as [[]]; simpl; [by rewrite lookup_alter_ne|done].
  - destruct (host_spawn _ _) as [[]]; simpl; [by rewrite lookup_alter_ne|done].
Qed.

Lemma start_one_ok s n :
  sup_ok s -> (forall rt, runtimes s !! n = Some rt -> status rt <> Running) -> sup_ok (start_one n s).2.
Proof.
  intros Hs Hidle. unfold start_one. destruct (manifests s !! n ≫= socket) as [spec|] eqn:Hsock.
  - simpl. destruct (host_create_socket _ _ _) as [[[]|e] i]; simpl; [|by apply sup_ok_host; simpl; rewrite ?live_app].
    destruct (sk_manifest s Hs n) as [rt Hn]; [by destruct (manifests s !! n)|].
    apply (sup_ok_update s _ n _ rt); [done|done| |].
    + simpl. rewrite live_app. unfold rt_pids. simpl. rewrite (rt_pids_idle s n rt Hs Hn) by auto. simpl. multiset_solver.
    + simpl. rewrite (rt_pids_idle s n rt Hs Hn) by auto. by split; [|intros []%is_Some_None].
  - pose proof (spawn_service_ok s n Hs Hidle). by destruct (spawn_service n s) as [[] ?].
Qed.

Lemma start_loop_ok l s ev :
  sup_ok s -> NoDup l -> (forall n rt, n ∈ l -> runtimes s !! n = Some rt -> status rt <> Running) ->
  sup_ok (start_loop l s ev).2.
Proof.
  revert s ev. induction l as [|n l IH]; intros s ev Hs Hnd Hidle; simpl; [done|].
  inversion Hnd as [|? ? Hni Hnd']; subst.
  assert (sup_ok (start_one n s).2) as Hs1 by (apply start_one_ok; [done|intros rt; apply Hidle; left]).
  pose proof (start_one_other s n) as Hoth.
  destruct (start_one n s) as [[e|e] s1]; simpl in *; [|done].
  apply IH; [done|done|]. intros n' rt Hn'. rewrite Hoth by (intros ->; done). apply Hidle. by right.
Qed.

Lemma stop_one_ok s n : sup_ok s -> sup_ok (stop_one n s).1.
Proof.
  intros Hs. unfold stop_one. destruct (runtimes s !! n) as [rt|] eqn:Hn; [|done].
  destruct (status rt) eqn:Hst; try done; simpl.
  1,2,4: apply (sup_ok_update s (host s) n _ rt); [done|done| |];
    simpl; unfold rt_pids; simpl; rewrite (rt_pids_idle s n rt Hs Hn) by congruence;
    [multiset_solver|by split; [|intros []%is_Some_None]].
  destruct (pid rt) as [p|] eqn:Hp.
  - apply (sup_ok_update s _ n _ rt); [done|done| |by simpl; split; [|intros []%is_Some_None]].
    simpl. rewrite live_app. unfold rt_pids. rewrite Hp. simpl. multiset_solver.
  - exfalso. apply (sk_running s Hs n rt Hn) in Hst as [? ?]. congruence.
Qed.

(** ** Shutdown, exactly *)

Definition stopped (rt : ServiceRuntime) : ServiceRuntime :=
  match status rt with
  | Stopped | Failed => rt
  | Running => mkRuntime Stopped None (restart_count rt) (restart_at_ms rt) (last_health_ms rt)
  | _ => set_status Stopped rt
  end.
Definition stop_kill (m : gmap str ServiceRuntime) (n : str) : option Effect :=
  match m !! n with
  | Some rt => if bool_decide (status rt = Running) then Killed <$> pid rt else None
  | None => None
  end.
Definition stop_event (m : gmap str ServiceRuntime) (n : str) : option TickEvent :=
  match m !! n with
  | Some rt => if bool_decide (status rt = Stopped \/ status rt = Failed) then None else Some (EvStopped n)
  | None => None
  end.

Lemma stop_one_exact n s :
  let r := stop_one n s in
  runtimes r.1 = alter stopped n (runtimes s) /\
  log (host r.1) = log (host s) ++ option_list (stop_kill (runtimes s) n) /\
  r.2 = option_list (stop_event (runtimes s) n) /\
  manifests r.1 = manifests s /\ sup_order r.1 = sup_order s.
Proof.
  unfold stop_one, stop_kill, stop_event. destruct (runtimes s !! n) as [rt|] eqn:Hn.
  2: { simpl. rewrite app_nil_r. split_and!; try done. rewrite alter_id; [done|]. congruence. }
  assert (forall f, f rt = stopped rt -> alter f n (runtimes s) = alter stopped n (runtimes s)) as Halt.
  { intros f Hf. apply alter_ext. intros rt' Hrt'. by simplify_eq. }
  destruct (status rt) eqn:Hst; simpl; rewrite ?app_nil_r;
    repeat case_bool_decide; try done; try tauto; simpl.
  1-2,4: split_and!; try done; apply Halt; unfold stopped; by rewrite Hst.
  - destruct (pid rt); simpl; rewrite ?app_nil_r; split_and!; try done; apply Halt; unfold stopped; by rewrite Hst.
  - split_and!; try done. symmetry. apply alter_id. intros rt' ?. simplify_eq. unfold stopped. by rewrite Hst.
  - split_and!; try done. symmetry. apply alter_id. intros rt' ?. simplify_eq. unfold stopped. by rewrite Hst.
Qed.

Lemma stop_loop_exact l s :
  NoDup l ->
  let r := stop_loop l s in
  (forall n, runtimes r.1 !! n = (if bool_decide (n ∈ l) then stopped <$> runtimes s !! n else runtimes s !! n)) /\
  log (host r.1) = log (host s) ++ omap (stop_kill (runtimes s)) l /\
  r.2 = omap (stop_event (runtimes s)) l.
Proof.
  revert s. induction l as [|n l IH]; intros s Hnd; cbn [stop_loop].
  { simpl. by rewrite app_nil_r. }
  inversion Hnd as [|? ? Hni Hnd']; subst. pose proof (stop_one_exact n s) as (H1 & H2 & H3 & _).
  destruct (stop_one n s) as [s1 e1]. simpl in *. destruct (IH s1 Hnd') as (I1 & I2 & I3).
  destruct (stop_loop l s1) as [s2 e2]. simpl in *.
  assert (forall n', n' ∈ l -> runtimes s1 !! n' = runtimes s !! n') as Hsame.
  { intros n' Hn'. rewrite H1, lookup_alter_ne; [done|]. by intros ->. }
  assert (forall {A} (f : gmap str ServiceRuntime -> str -> option A),
    (forall n', n' ∈ l -> f (runtimes s1) n' = f (runtimes s) n') ->
    omap (f (runtimes s1)) l = omap (f (runtimes s)) l) as Homap.
  { clear. intros A f. induction l as [|n' l IH]; intros Hf; [done|]. cbn. rewrite (Hf n') by left.
    rewrite IH; [done|]. intros ? ?. apply Hf. by right. }
  split_and!.
  - intros n'. rewrite I1, H1. destruct (decide (n' = n)) as [->|Hne].
    + rewrite bool_decide_false by done. rewrite bool_decide_true by left. by rewrite lookup_alter_eq.
    + rewrite lookup_alter_ne by done. rewrite (bool_decide_ext (n' ∈ n :: l) (n' ∈ l)); [done|].
      rewrite elem_of_cons. tauto.
  - rewrite I2, H2, Homap, <- app_assoc; [by destruct (stop_kill (runtimes s) n)|].
    intros n' Hn'. unfold stop_kill. by rewrite Hsame.
  - rewrite I3, H3, Homap; [by destruct (stop_event (runtimes s) n)|].
    intros n' Hn'. unfold stop_event. by rewrite Hsame.
Qed.

Lemma shutdown_ok s : sup_ok s -> sup_ok (shutdown s).1.
Proof.
  unfold shutdown. generalize (reverse (sup_order s)). intros l. revert s. induction l as [|n l IH]; intros s Hs; simpl; [done|].
  pose proof (stop_one_ok s n Hs) as H1. destruct (stop_one n s) as [s1 e1]. simpl in *.
  pose proof (IH s1 H1). by destruct (stop_loop l s1).
Qed.

(** After a shutdown no process is left. *)
Lemma shutdown_all s :
  sup_ok s ->
  live (log (host (shutdown s).1)) = ∅ /\
  forall n rt, runtimes (shutdown s).1 !! n = Some rt -> (status rt = Stopped \/ status rt = Failed) /\ pid rt = None.
Proof.
  intros Hs. pose proof (shutdown_ok s Hs) as Hs'. unfold shutdown in *.
  destruct (stop_loop_exact (reverse (sup_order s)) s) as (Hrt & _ & _).
  { rewrite reverse_Permutation. apply (sk_nodup s Hs). }
  destruct (stop_loop _ s) as [s' ev]. simpl in *.
  assert (forall n rt, runtimes s' !! n = Some rt -> status rt = Stopped \/ status rt = Failed) as Hst.
  { intros n rt. rewrite Hrt. case_bool_decide as Hin.
    - destruct (runtimes s !! n) as [rt0|]; [|done]. intros [= <-]. unfold stopped. destruct (status rt0) eqn:E; simpl; auto.
    - intros Hn. exfalso. apply Hin. rewrite reverse_Permutation. apply (sk_order s Hs). by rewrite Hn. }
  assert (forall n rt, runtimes s' !! n = Some rt -> pid rt = None) as Hp.
  { intros n rt Hn. eapply rt_pids_idle; eauto. destruct (Hst n rt Hn); congruence. }
  split; [|eauto]. rewrite (sk_live s' Hs'). by apply tracked_none.
Qed.

(** ** The initial state *)

Lemma validate_all_spec ms :
  match validate_all ms with
  | Ok _ => Forall (fun m => validate m = Ok ()) ms
  | Err e => exists pre m post e', ms = pre ++ m :: post /\ Forall (fun m => validate m = Ok ()) pre /\
      validate m = Err e' /\ e = ErrManifest (name m) e'
  end.
Proof.
  induction ms as [|m ms IH]; simpl; [constructor|]. destruct (validate m) as [[]|e] eqn:Hv.
  - destruct (validate_all ms); [by constructor|]. destruct IH as (pre & m' & post & e' & -> & ? & ? & ?).
    exists (m :: pre), m', post, e'. split_and!; try done. by constructor.
  - by exists [], m, ms, e.
Qed.

(** The two maps built from the manifests. *)
Lemma new_maps (ms : list ServiceManifest) (x : gmap str ServiceManifest * gmap str ServiceRuntime) :
  NoDup (name <$> ms) ->
  let r := fold_left (fun x m => (<[name m := m]> x.1, <[name m := ServiceRuntime_default]> x.2)) ms x in
  (forall m, m ∈ ms -> r.1 !! name m = Some m) /\
  (forall n, n ∈ (name <$> ms) -> r.2 !! n = Some ServiceRuntime_default) /\
  (forall n, n ∉ (name <$> ms) -> r.1 !! n = x.1 !! n /\ r.2 !! n = x.2 !! n).
Proof.
  revert x. induction ms as [|m ms IH]; intros x Hnd; cbn [fold_left].
  { split_and!; [by intros ? ?%not_elem_of_nil..|done]. }
  rewrite fmap_cons in Hnd. inversion Hnd as [|? ? Hni Hnd']; subst.
  destruct (IH (<[name m:=m]> x.1, <[name m:=ServiceRuntime_default]> x.2) Hnd') as (H1 & H2 & H3).
  split_and!.
  - intros m' [->|Hm']%elem_of_cons; [|by apply H1]. destruct (H3 (name m) Hni) as [-> _]. simpl. by rewrite lookup_insert_eq.
  - intros n. rewrite fmap_cons. intros [->|Hn]%elem_of_cons; [|by apply H2].
    destruct (H3 (name m) Hni) as [_ ->]. simpl. by rewrite lookup_insert_eq.
  - intros n. rewrite fmap_cons. intros [Hne Hn]%not_elem_of_cons. destruct (H3 n Hn) as [-> ->]. simpl.
    by rewrite !lookup_insert_ne by done.
Qed.

(** [needs ms s d]: the manifest of [s] requires [d]. *)
Definition needs (ms : list ServiceManifest) (s d : str) : Prop :=
  exists m, m ∈ ms /\ name m = s /\ d ∈ requires m.

End Invariant.

(** What [Supervisor::new] accepts, and what it reports otherwise. *)
Definition new_spec {H} (ms : list ServiceManifest) (h : H) (r : result SupervisorError (Supervisor H)) : Prop :=
  match r with
  | Ok s =>
      Forall (fun m => validate m = Ok ()) ms /\ NoDup (name <$> ms) /\
      (forall n d, needs ms n d -> d ∈ (name <$> ms)) /\ (forall n, ~ on_cycle (needs ms) n) /\
      start_order (fun n => n ∈ (name <$> ms)) (needs ms) (sup_order s) /\
      (forall m, m ∈ ms -> manifests s !! name m = Some m) /\
      (forall n, n ∈ (name <$> ms) -> runtimes s !! n = Some ServiceRuntime_default) /\
      (forall n, n ∉ (name <$> ms) -> manifests s !! n = None /\ runtimes s !! n = None) /\
      host s = h
  | Err (ErrManifest n e) => exists pre m post, ms = pre ++ m :: post /\ name m = n /\
      Forall (fun m => validate m = Ok ()) pre /\ validate m = Err e
  | Err (ErrGraph e) => Forall (fun m => validate m = Ok ()) ms /\
      match e with
      | DuplicateService n => exists pre m post, ms = pre ++ m :: post /\ n = name m /\
          NoDup (name <$> pre) /\ n ∈ (name <$> pre)
      | UnknownDependency n d => NoDup (name <$> ms) /\ needs ms n d /\ d ∉ (name <$> ms)
      | Cycle stuck => NoDup (name <$> ms) /\ stuck <> [] /\
          forall n, n ∈ stuck <-> n ∈ (name <$> ms) /\ reaches_cycle (needs ms) n
      end
  | Err (ErrSpawn _ _) => False
  end.

Lemma needs_edge ms g :
  NoDup (name <$> ms) -> (forall s, is_Some (g_requires g !! s) <-> s ∈ (name <$> ms)) ->
  (forall m, m ∈ ms -> g_requires g !! name m = Some (list_to_set (requires m))) ->
  forall n d, requires_edge g n d <-> needs ms n d.
Proof.
  intros Hnd Hdom Hreq n d. split.
  - intros (deps & Hn & Hd). assert (n ∈ (name <$> ms)) as (m & -> & Hm)%list_elem_of_fmap by (apply Hdom; eauto).
    exists m. split_and!; try done. rewrite (Hreq m Hm) in Hn. injection Hn as <-. by apply elem_of_list_to_set in Hd.
  - intros (m & Hm & <- & Hd). exists (list_to_set (requires m)). split; [by apply Hreq|]. by apply elem_of_list_to_set.
Qed.

Lemma new_correct {H} (ms : list ServiceManifest) (h : H) : new_spec ms h (Supervisor_new ms h).
Proof.
  unfold Supervisor_new. pose proof (validate_all_spec ms) as Hv. destruct (validate_all ms) as [[]|e]; simpl.
  2: { destruct Hv as (pre & m & post & e' & -> & ? & ? & ->). by exists pre, m, post. }
  pose proof (from_manifests_exact ms) as Hg. destruct (from_manifests ms) as [g|[n|n d|]]; simpl; [|by eauto| |done].
  2: { split; [done|]. destruct Hg as (? & m & ? & ? & ? & ?). split_and!; [done|by exists m|done]. }
  destruct Hg as (Hnd & Hclosed & Hdom & Hreq). pose proof (needs_edge ms g Hnd Hdom Hreq) as Hedge.
  pose proof (topological_order_exact g Hclosed) as Ht. destruct (topological_order g) as [l|[| |stuck]]; simpl; try done.
  - destruct Ht as [Ho Hacyc]. destruct (new_maps ms (∅, ∅) Hnd) as (Hm & Hr & Hout).
    destruct (fold_left _ ms (∅, ∅)) as [mp rts]. simpl in *. split_and!; try done.
    + intros n d Hnd'%Hedge. apply Hdom. by eapply Hclosed.
    + intros n Hn. apply (Hacyc n). by apply (on_cycle_iff _ _ n Hedge).
    + eapply start_order_iff; [..|exact Ho]; [intros n; apply Hdom|apply Hedge].
  - destruct Ht as [Hne Hst]. split; [done|]. split_and!; [done|done|]. intros n.
    by rewrite Hst, Hdom, (reaches_cycle_iff _ _ n Hedge).
Qed.

(** ** Reachable states *)

Section Reachable.
Context {H : Type} `{!ServiceHost H}.
Implicit Types (s : Supervisor (Logged H)).

(** A call of the supervisor's interface, or a change of the host on its
    own: time passes, processes exit.  [start_all] is the bring-up: here it is
    called while no service runs, which the code does not check
    ([second_start_orphans]). *)
Inductive sup_step s : Supervisor (Logged H) -> Prop :=
| step_start :
    (forall n rt, runtimes s !! n = Some rt -> status rt <> Running) -> sup_step s (start_all s).2
| step_notify n : sup_step s (notify_socket_connection n s).2
| step_tick : sup_step s (tick s).1
| step_signal sg : sup_step s (handle_signal sg s).1
| step_shutdown : sup_step s (shutdown s).1
| step_host i : sup_step s (set_host (mkLogged i (log (host s))) s).

Lemma sup_step_ok s s' : sup_step s s' -> sup_ok s -> sup_ok s'.
Proof.
  intros Hst Hs. destruct Hst as [Hidle|n| |sg| |i].
  - apply start_loop_ok; [done|apply (sk_nodup s Hs)|eauto].
  - unfold notify_socket_connection. case_bool_decide as Hn; [done|]. unfold sup_status in Hn.
    assert (sup_ok (spawn_service n s).2) as Hsp.
    { apply spawn_service_ok; [done|]. intros rt Hrt. rewrite Hrt in Hn. simpl in Hn. congruence. }
    by destruct (spawn_service n s) as [[] ?].
  - by apply tick_ok.
  - destruct sg; simpl; [by apply shutdown_ok..|by apply tick_ok].
  - by apply shutdown_ok.
  - by apply sup_ok_host.
Qed.

Lemma new_sup_ok ms i s : Supervisor_new ms (mkLogged i []) = Ok s -> sup_ok s.
Proof.
  intros Hn. pose proof (new_correct ms (mkLogged i [] : Logged H)) as Hsp. rewrite Hn in Hsp. simpl in Hsp.
  destruct Hsp as (_ & Hnd & _ & _ & Ho & Hm & Hr & Hout & Hh).
  assert (forall n rt, runtimes s !! n = Some rt -> n ∈ (name <$> ms) /\ rt = ServiceRuntime_default) as Hdef.
  { intros n rt Hrt. destruct (decide (n ∈ (name <$> ms))) as [Hin|Hin]; [by rewrite Hr in Hrt by done; simplify_eq|].
    destruct (Hout n Hin) as [_ ?]. congruence. }
  split.
  - rewrite Hh. unfold live. simpl. symmetry. apply tracked_none. by intros n rt [_ ->]%Hdef.
  - intros n rt [_ ->]%Hdef. simpl. by split; [|intros []%is_Some_None].
  - intros n [m Hn']. destruct (decide (n ∈ (name <$> ms))) as [Hin|Hin]; [by rewrite Hr by done|].
    destruct (Hout n Hin) as [? _]. congruence.
  - intros n [rt [Hin _]%Hdef]. by apply (so_all _ _ _ Ho).
  - apply (so_nodup _ _ _ Ho).
Qed.

Lemma reachable_ok ms i s s' :
  Supervisor_new ms (mkLogged i []) = Ok s -> rtc sup_step s s' -> sup_ok s'.
Proof. intros Hn Hr. eapply reach_inv; [apply sup_step_ok|by eapply new_sup_ok|done]. Qed.

End Reachable.

(** ** The lifecycle of one service under [tick] *)

(** The deadline and the counter after the [restart_count]-th failure at [now]. *)
Definition backed_off (m : ServiceManifest) (now : Z) (p : option Z) (lh : Z) (rt : ServiceRuntime) : ServiceRuntime :=
  let rc := saturating_add 32 (restart_count rt) 1 in
  mkRuntime InBackoff p rc (saturating_add 64 now (delay_ms (backoff m) rc)) lh.

Definition terminated (m : ServiceManifest) (now : Z) (success : bool) (lh : Z) (rt : ServiceRuntime) : ServiceRuntime :=
  if should_restart (restart m) success then backed_off m now None lh rt
  else mkRuntime Failed None (restart_count rt) (restart_at_ms rt) lh.

(** Polling a service: only a [Running] one changes, by what the host answers
    about its process.  A process that exited, or that a due health check
    finds unhealthy, is gone, and the restart policy decides. *)
Inductive poll_rel (H : Type) `{!ServiceHost H} (m : ServiceManifest) (now : Z) (rt : ServiceRuntime) :
  ServiceRuntime -> Prop :=
| poll_idle : status rt <> Running \/ pid rt = None -> poll_rel H m now rt rt
| poll_exited p h h' success :
    status rt = Running -> pid rt = Some p -> host_liveness p h = (LivenessExited success, h') ->
    poll_rel H m now rt (terminated m now success (last_health_ms rt) rt)
| poll_alive p h h' :
    status rt = Running -> pid rt = Some p -> host_liveness p h = (Alive, h') ->
    (forall iv, health m = Some (mkHealthCheck iv) -> saturating_sub now (last_health_ms rt) < iv) ->
    poll_rel H m now rt rt
| poll_healthy p h h1 h2 iv :
    status rt = Running -> pid rt = Some p -> host_liveness p h = (Alive, h1) ->
    health m = Some (mkHealthCheck iv) -> iv <= saturating_sub now (last_health_ms rt) ->
    host_health p h1 = (Healthy, h2) ->
    poll_rel H m now rt (mkRuntime Running (pid rt) (restart_count rt) (restart_at_ms rt) now)
| poll_unhealthy p h h1 h2 iv :
    status rt = Running -> pid rt = Some p -> host_liveness p h = (Alive, h1) ->
    health m = Some (mkHealthCheck iv) -> iv <= saturating_sub now (last_health_ms rt) ->
    host_health p h1 = (Unhealthy, h2) ->
    poll_rel H m now rt (terminated m now false now rt).

(** The request that starts the service of a manifest: its command line, its
    capabilities and its socket. *)
Definition request_of (m : ServiceManifest) (n : str) : SpawnRequest :=
  mkRequest n (exec_path m) (args m) (capabilities m) (socket m).

(** Restarting: only a service whose deadline has passed is touched; it comes
    up, or the failed spawn counts as another crash. *)
Inductive restart_rel (H : Type) `{!ServiceHost H} (m : ServiceManifest) (n : str) (now : Z) (rt : ServiceRuntime) :
  ServiceRuntime -> Prop :=
| restart_wait : status rt <> InBackoff \/ now < restart_at_ms rt -> restart_rel H m n now rt rt
| restart_up p h h' :
    status rt = InBackoff -> restart_at_ms rt <= now -> host_spawn (request_of m n) h = (Ok p, h') ->
    restart_rel H m n now rt (mkRuntime Running (Some p) (restart_count rt) (restart_at_ms rt) (now_ms h'))
| restart_failed e h h' :
    status rt = InBackoff -> restart_at_ms rt <= now -> host_spawn (request_of m n) h = (Err e, h') ->
    restart_rel H m n now rt (backed_off m now (pid rt) (last_health_ms rt) rt).

Section Lifecycle.
Context {H : Type} `{!ServiceHost H}.
Implicit Types (s : Supervisor H).

Lemma poll_one_frame n now s ev :
  let s' := (poll_one n now s ev).1 in
  manifests s' = manifests s /\ sup_order s' = sup_order s /\
  forall n', n' <> n -> runtimes s' !! n' = runtimes s !! n'.
Proof.
  unfold poll_one, handle_termination. repeat (case_match; simpl; try done); simpl;
    split_and!; try done; intros n' Hne; by rewrite ?lookup_alter_ne by done.
Qed.

Lemma maybe_restart_frame n now s ev :
  let s' := (maybe_restart n now s ev).1 in
  manifests s' = manifests s /\ sup_order s' = sup_order s /\
  forall n', n' <> n -> runtimes s' !! n' = runtimes s !! n'.
Proof.
  unfold maybe_restart, spawn_service. repeat (case_match; simpl; try done); simplify_eq; simpl;
    split_and!; try done; intros n' Hne; by rewrite ?lookup_alter_ne by done.
Qed.

Lemma handle_termination_rel n success now s ev m rt :
  manifests s !! n = Some m -> runtimes s !! n = Some rt ->
  runtimes (handle_termination n success now s ev).1 !! n = Some (terminated m now success (last_health_ms rt) rt).
Proof.
  intros Hm Hrt. unfold handle_termination, terminated. rewrite Hm, Hrt. simpl.
  destruct (should_restart _ _); simpl; by rewrite lookup_alter_eq, Hrt.
Qed.

Lemma poll_one_rel n now s ev m rt :
  manifests s !! n = Some m -> runtimes s !! n = Some rt ->
  exists rt', runtimes (poll_one n now s ev).1 !! n = Some rt' /\ poll_rel H m now rt rt'.
Proof.
  intros Hm Hrt. unfold poll_one. rewrite Hrt. case_bool_decide as Hst; [by eauto using poll_rel|].
  destruct (pid rt) as [p|] eqn:Hp; [|by eauto using poll_rel].
  destruct (host_liveness p (host s)) as [[|success] h] eqn:Hlv.
  2: { eexists. split; [by apply handle_termination_rel|]. by eapply poll_exited. }
  rewrite Hm. simpl. destruct (health m) as [[iv]|] eqn:Hh; simpl.
  2: { exists rt. split; [done|]. eapply poll_alive; eauto. congruence. }
  destruct (iv <=? _) eqn:Hiv; zbool.
  2: { exists rt. split; [done|]. eapply poll_alive; eauto. by intros iv' [= <-]%(eq_trans (eq_sym Hh)). }
  destruct (host_health p h) as [hp h'] eqn:Hhl. case_bool_decide as Hu.
  - subst hp. eexists. split.
    + apply handle_termination_rel; [done|]. simpl. by rewrite lookup_alter_eq, Hrt.
    + by eapply (poll_unhealthy H m now rt).
  - destruct hp; [|done]. eexists. simpl. rewrite lookup_alter_eq, Hrt. split; [done|].
    rewrite Hst. by eapply poll_healthy.
Qed.

Lemma maybe_restart_rel n now s ev m rt :
  manifests s !! n = Some m -> runtimes s !! n = Some rt ->
  exists rt', runtimes (maybe_restart n now s ev).1 !! n = Some rt' /\ restart_rel H m n now rt rt'.
Proof.
  intros Hm Hrt. unfold maybe_restart, spawn_service. rewrite Hrt, Hm.
  case_bool_decide as Hst; simpl; [|by eauto using restart_rel].
  destruct (restart_at_ms rt <=? now) eqn:Hd; zbool; simpl; [|by eauto using restart_rel].
  destruct (host_spawn _ _) as [[p|e] h] eqn:Hsp; simpl.
  - eexists. rewrite lookup_alter_eq, Hrt. split; [done|]. by eapply restart_up.
  - rewrite Hm. eexists. simpl. rewrite lookup_alter_eq, Hrt. split; [done|]. by eapply restart_failed.
Qed.

(** A pass over the services applies its step once to each of them. *)
Section Pass.
Context (f : str -> Supervisor H -> list TickEvent -> Supervisor H * list TickEvent)
        (pass : list str -> Supervisor H -> list TickEvent -> Supervisor H * list TickEvent)
        (R : str -> ServiceManifest -> ServiceRuntime -> ServiceRuntime -> Prop).
Hypothesis (pass_nil : forall s ev, pass [] s ev = (s, ev))
  (pass_cons : forall n l s ev, pass (n :: l) s ev = pass l (f n s ev).1 (f n s ev).2)
  (f_frame : forall n s ev, let s' := (f n s ev).1 in
    manifests s' = manifests s /\ sup_order s' = sup_order s /\
    forall n', n' <> n -> runtimes s' !! n' = runtimes s !! n')
  (f_rel : forall n s ev m rt, manifests s !! n = Some m -> runtimes s !! n = Some rt ->
    exists rt', runtimes (f n s ev).1 !! n = Some rt' /\ R n m rt rt').

Lemma pass_frame l s ev :
  manifests (pass l s ev).1 = manifests s /\
  forall n, n ∉ l -> runtimes (pass l s ev).1 !! n = runtimes s !! n.
Proof using pass_nil pass_cons f_frame.
  revert s ev. induction l as [|n l IH]; intros s ev; [by rewrite pass_nil|].
  rewrite pass_cons. destruct (f_frame n s ev) as (Hm & _ & Hoth). destruct (IH (f n s ev).1 (f n s ev).2) as [Hm' Hr].
  split; [by rewrite Hm'|]. intros n' [Hne Hn]%not_elem_of_cons. by rewrite Hr, Hoth.
Qed.

Lemma pass_rel l s ev n m rt :
  NoDup l -> n ∈ l -> manifests s !! n = Some m -> runtimes s !! n = Some rt ->
  exists rt', runtimes (pass l s ev).1 !! n = Some rt' /\ R n m rt rt'.
Proof using pass_nil pass_cons f_frame f_rel.
  revert s ev. induction l as [|x l IH]; intros s ev Hnd Hin Hm Hrt; [by apply not_elem_of_nil in Hin|].
  rewrite pass_cons. inversion Hnd as [|? ? Hx Hnd']; subst.
  destruct (f_frame x s ev) as (Hmf & _ & Hoth). apply elem_of_cons in Hin as [<-|Hin].
  - destruct (f_rel n s ev m rt Hm Hrt) as (rt' & Hrt' & HR). exists rt'. split; [|done].
    destruct (pass_frame l (f n s ev).1 (f n s ev).2) as [_ ->]; done.
  - apply IH; [done|done|by rewrite Hmf|]. rewrite Hoth; [done|]. by intros ->.
Qed.

End Pass.

Lemma tick_rel s n m rt :
  NoDup (sup_order s) -> n ∈ sup_order s -> manifests s !! n = Some m -> runtimes s !! n = Some rt ->
  exists rt1 rt2, poll_rel H m (now_ms (host s)) rt rt1 /\ restart_rel H m n (now_ms (host s)) rt1 rt2 /\
    runtimes (tick s).1 !! n = Some rt2.
Proof.
  intros Hnd Hin Hm Hrt. unfold tick. set (now := now_ms (host s)).
  assert (forall n l s ev, poll_all (n :: l) now s ev = poll_all l now (poll_one n now s ev).1 (poll_one n now s ev).2) as Hpc.
  { intros. simpl. by destruct (poll_one _ _ _ _). }
  assert (forall n l s ev, restart_all (n :: l) now s ev = restart_all l now (maybe_restart n now s ev).1 (maybe_restart n now s ev).2) as Hrc.
  { intros. simpl. by destruct (maybe_restart _ _ _ _). }
  destruct (pass_rel (fun n => poll_one n now) (fun l => poll_all l now) (fun _ m => poll_rel H m now)
    ltac:(done) Hpc ltac:(intros; apply poll_one_frame) ltac:(intros; by apply poll_one_rel)
    (sup_order s) s [] n m rt Hnd Hin Hm Hrt) as (rt1 & Hrt1 & HR1).
  destruct (pass_frame (fun n => poll_one n now) (fun l => poll_all l now) ltac:(done) Hpc
    ltac:(intros; apply poll_one_frame) (sup_order s) s []) as [Hm1 _].
  destruct (poll_all _ now s []) as [s1 ev1]. simpl in *. rewrite <- Hm1 in Hm.
  destruct (pass_rel (fun n => maybe_restart n now) (fun l => restart_all l now) (fun n m => restart_rel H m n now)
    ltac:(done) Hrc ltac:(intros; apply maybe_restart_frame) ltac:(intros; by apply maybe_restart_rel)
    (sup_order s) s1 ev1 n m rt1 Hnd Hin Hm Hrt1) as (rt2 & Hrt2 & HR2).
  by exists rt1, rt2.
Qed.

End Lifecycle.

(** ** Bring-up, exactly *)

(** What the host saw for a service that was started. *)
Definition started (mf : gmap str ServiceManifest) (n : str) (e : Effect) : Prop :=
  match mf !! n ≫= socket with
  | Some _ => e = SocketCreated n
  | None => exists p, e = Spawned n p
  end.
Definition start_event (mf : gmap str ServiceManifest) (n : str) : TickEvent :=
  match mf !! n ≫= socket with Some _ => EvSocketArmed n | None => EvStarted n end.

Section Start.
Context {H : Type} `{!ServiceHost H}.
Implicit Types (s : Supervisor (Logged H)).

Lemma start_one_exact n s :
  is_Some (manifests s !! n) ->
  let r := start_one n s in
  manifests r.2 = manifests s /\
  match r.1 with
  | Ok ev => ev = start_event (manifests s) n /\
      exists e, log (host r.2) = log (host s) ++ [e] /\ started (manifests s) n e
  | Err e => (exists e', e = ErrSpawn n e') /\
      exists e, log (host r.2) = log (host s) ++ [e] /\ (e = SpawnRefused n \/ e = SocketRefused n)
  end.
Proof.
  intros [m Hm]. unfold start_one, start_event, started, spawn_service. rewrite Hm. simpl.
  destruct (socket m); simpl.
  - destruct (host_create_socket _ _ _) as [[[]|e] i]; simpl; eauto 10.
  - destruct (host_spawn _ _) as [[p|e] i]; simpl; eauto 10.
Qed.

Lemma start_loop_exact l s ev :
  (forall n, n ∈ l -> is_Some (manifests s !! n)) ->
  let r := start_loop l s ev in
  match r.1 with
  | Ok evs => evs = ev ++ (start_event (manifests s) <$> l) /\
      exists es, log (host r.2) = log (host s) ++ es /\ Forall2 (started (manifests s)) l es
  | Err e => exists pre n post es e', l = pre ++ n :: post /\ e = ErrSpawn n e' /\
      Forall2 (started (manifests s)) pre es /\
      exists x, log (host r.2) = log (host s) ++ es ++ [x] /\ (x = SpawnRefused n \/ x = SocketRefused n)
  end.
Proof.
  revert s ev. induction l as [|n l IH]; intros s ev Hmf; cbn [start_loop].
  { simpl. split; [by rewrite app_nil_r|]. exists []. by rewrite app_nil_r. }
  destruct (start_one_exact n s (Hmf n ltac:(left))) as [Hm Hone].
  destruct (start_one n s) as [[e|e] s1]; simpl in *.
  - destruct Hone as [-> (x & Hx & Hst)].
    specialize (IH s1 (ev ++ [start_event (manifests s) n]) ltac:(intros n' Hn'; rewrite Hm; apply Hmf; by right)).
    rewrite Hm in IH. destruct (start_loop l s1 _) as [[evs|e] s2]; simpl in *.
    + destruct IH as [-> (es & He & Hf)]. split; [by rewrite <- app_assoc|].
      exists (x :: es). split; [by rewrite He, Hx, <- app_assoc|by constructor].
    + destruct IH as (pre & n' & post & es & e' & -> & -> & Hf & y & Hy & Hor).
      exists (n :: pre), n', post, (x :: es), e'. split_and!; try done; [by constructor|].
      exists y. split; [by rewrite Hy, Hx, <- app_assoc|done].
  - destruct Hone as [[e' ->] (x & Hx & Hor)]. exists [], n, l, [], e'. split_and!; try done. exists x. by split.
Qed.

End Start.

(** ** The manifests and the order never change *)

Section Static.
Context {H : Type} `{!ServiceHost H}.

Definition same_plan (s s' : Supervisor H) : Prop := manifests s' = manifests s /\ sup_order s' = sup_order s.

#[local] Instance same_plan_preorder : PreOrder same_plan.
Proof. split; [done|]. intros s1 s2 s3 [? ?] [? ?]. split; congruence. Qed.

Lemma start_loop_plan l s ev : same_plan s (start_loop l s ev).2.
Proof.
  revert s ev. induction l as [|n l IH]; intros s ev; [done|]. cbn [start_loop].
  assert (same_plan s (start_one n s).2) as H1.
  { unfold start_one, spawn_service, same_plan. repeat (case_match; simpl; try done); by simplify_eq. }
  destruct (start_one n s) as [[e|e] s1]; simpl in *; [|done]. etransitivity; [exact H1|apply IH].
Qed.

Lemma poll_all_plan l now s ev : same_plan s (poll_all l now s ev).1.
Proof.
  revert s ev. induction l as [|n l IH]; intros s ev; [done|]. cbn [poll_all].
  destruct (poll_one_frame n now s ev) as (? & ? & _). destruct (poll_one n now s ev) as [s1 e1]. simpl in *.
  etransitivity; [by split|apply IH].
Qed.

Lemma restart_all_plan l now s ev : same_plan s (restart_all l now s ev).1.
Proof.
  revert s ev. induction l as [|n l IH]; intros s ev; [done|]. cbn [restart_all].
  destruct (maybe_restart_frame n now s ev) as (? & ? & _). destruct (maybe_restart n now s ev) as [s1 e1]. simpl in *.
  etransitivity; [by split|apply IH].
Qed.

Lemma tick_plan s : same_plan s (tick s).1.
Proof.
  unfold tick. pose proof (poll_all_plan (sup_order s) (now_ms (host s)) s []).
  destruct (poll_all _ _ _ _) as [s1 e1]. etransitivity; [done|apply restart_all_plan].
Qed.

Lemma stop_loop_plan l s : same_plan s (stop_loop l s).1.
Proof.
  revert s. induction l as [|n l IH]; intros s; [done|]. cbn [stop_loop].
  assert (same_plan s (stop_one n s).1) as H1.
  { unfold stop_one, same_plan. repeat (case_match; simpl; try done). }
  destruct (stop_one n s) as [s1 e1]. specialize (IH s1). destruct (stop_loop l s1). simpl in *.
  by etransitivity.
Qed.

End Static.

Lemma sup_step_plan {H} `{!ServiceHost H} (s s' : Supervisor (Logged H)) : sup_step s s' -> same_plan s s'.
Proof.
  intros [Hidle|n| |sg| |i]; [apply start_loop_plan| |apply tick_plan| |apply stop_loop_plan|done].
  - unfold notify_socket_connection, spawn_service, same_plan. repeat (case_match; simpl; try done); by simplify_eq.
  - destruct sg; [apply stop_loop_plan..|apply tick_plan].
Qed.

Lemma reachable_plan {H} `{!ServiceHost H} (s s' : Supervisor (Logged H)) : rtc sup_step s s' -> same_plan s s'.
Proof.
  induction 1 as [|x y z Hxy _ IH]; [done|]. apply sup_step_plan in Hxy. destruct Hxy, IH. split; congruence.
Qed.

(** ** Theorems *)

(** [Supervisor::new] accepts a set of manifests exactly when every
    manifest validates, the names are distinct, every prerequisite is one of
    them and the prerequisites have no cycle.  It then holds every manifest
    with a fresh runtime, and its start order lists each service once, after
    all its prerequisites, with ties broken by name at every position.
    Otherwise it reports the first invalid manifest, the first duplicated
    name, an unknown prerequisite, or, for a cycle, exactly the services from
    which a cycle can be reached. *)
Theorem supervisor_new_exact {H} (ms : list ServiceManifest) (h : H) :
  new_spec ms h (Supervisor_new ms h).
Proof. apply new_correct. Qed.

(** C22. No process is lost: in every state reached from [new] by any sequence
    of connections, ticks, signals, shutdowns and bring-ups, each bring-up
    called while no service is [Running], over any host and whatever the
    host does in between, the processes that were started
    and neither killed nor seen to exit are exactly the ones recorded for
    the services, and a service has one exactly while it is [Running].  After
    a shutdown none is left and every service is [Stopped] or [Failed].  The
    condition on bring-ups is needed: [second_start_orphans]. *)
Theorem supervisor_no_orphans {H} `{!ServiceHost H} ms (i : H) s0 s :
  Supervisor_new ms (mkLogged i []) = Ok s0 -> rtc sup_step s0 s ->
  live (log (host s)) = tracked (runtimes s) /\
  (forall n rt, runtimes s !! n = Some rt -> (status rt = Running <-> is_Some (pid rt))) /\
  live (log (host (shutdown s).1)) = ∅ /\
  (forall n rt, runtimes (shutdown s).1 !! n = Some rt ->
     (status rt = Stopped \/ status rt = Failed) /\ pid rt = None).
Proof.
  intros Hn Hr. pose proof (reachable_ok ms i s0 s Hn Hr) as Hs.
  split_and!; [apply (sk_live s Hs)|apply (sk_running s Hs)|by apply shutdown_all..].
Qed.

(** Order of start and stop: bring-up spawns or arms the services one by
    one in the start order, which puts prerequisites first, and stops at the
    first one the host refuses; a shutdown kills the running ones in exactly
    the reverse of that order. *)
Theorem start_stop_order {H} `{!ServiceHost H} ms (i : H) s0 s :
  Supervisor_new ms (mkLogged i []) = Ok s0 -> rtc sup_step s0 s ->
  start_order (fun n => n ∈ (name <$> ms)) (needs ms) (sup_order s) /\
  match start_all s with
  | (Ok evs, s') => evs = start_event (manifests s) <$> sup_order s /\
      exists es, log (host s') = log (host s) ++ es /\ Forall2 (started (manifests s)) (sup_order s) es
  | (Err e, s') => exists pre n post es e', sup_order s = pre ++ n :: post /\ e = ErrSpawn n e' /\
      Forall2 (started (manifests s)) pre es /\
      exists x, log (host s') = log (host s) ++ es ++ [x] /\ (x = SpawnRefused n \/ x = SocketRefused n)
  end /\
  log (host (shutdown s).1) = log (host s) ++ omap (stop_kill (runtimes s)) (reverse (sup_order s)) /\
  (shutdown s).2 = omap (stop_event (runtimes s)) (reverse (sup_order s)).
Proof.
  intros Hn Hr. pose proof (reachable_ok ms i s0 s Hn Hr) as Hs. destruct (reachable_plan s0 s Hr) as [Hm Ho].
  pose proof (new_correct ms (mkLogged i [] : Logged H)) as Hsp. rewrite Hn in Hsp.
  destruct Hsp as (_ & _ & _ & _ & Hso & Hmf & _).
  split; [by rewrite Ho|]. split.
  - pose proof (start_loop_exact (sup_order s) s []) as Hst. unfold start_all. simpl in Hst.
    destruct (start_loop _ s []) as [[evs|e] s']; simpl in Hst; apply Hst; intros n; rewrite Ho, Hm;
      intros (m & -> & Hin)%(so_all _ _ _ Hso)%list_elem_of_fmap; rewrite Hmf by done; eauto.
  - destruct (stop_loop_exact (reverse (sup_order s)) s) as (_ & ? & ?); [|done].
    rewrite reverse_Permutation. apply (sk_nodup s Hs).
Qed.

(** A tick moves every service along its lifecycle and nothing else: a
    [Running] one by what the host says of its process and by a health check
    that is due, a service in backoff only once its deadline has passed, with
    the spawn request of its manifest; a crash or a failed restart schedules
    the next attempt [delay_ms] later, and a service that is pending, armed,
    stopped or failed is left alone. *)
Theorem tick_refines {H} `{!ServiceHost H} ms (i : H) s0 s m :
  Supervisor_new ms (mkLogged i []) = Ok s0 -> rtc sup_step s0 s -> m ∈ ms ->
  exists rt rt1 rt2, runtimes s !! name m = Some rt /\
    poll_rel (Logged H) m (now_ms (host s)) rt rt1 /\ restart_rel (Logged H) m (name m) (now_ms (host s)) rt1 rt2 /\
    runtimes (tick s).1 !! name m = Some rt2.
Proof.
  intros Hn Hr Hin. pose proof (reachable_ok ms i s0 s Hn Hr) as Hs. destruct (reachable_plan s0 s Hr) as [Hm Ho].
  pose proof (new_correct ms (mkLogged i [] : Logged H)) as Hsp. rewrite Hn in Hsp.
  destruct Hsp as (_ & _ & _ & _ & Hso & Hmf & _).
  assert (manifests s !! name m = Some m) as Hlk by (rewrite Hm; by apply Hmf).
  destruct (sk_manifest s Hs (name m)) as [rt Hrt]; [by rewrite Hlk|].
  destruct (tick_rel s (name m) m rt) as (rt1 & rt2 & ? & ? & ?); try done.
  - apply (sk_nodup s Hs).
  - apply (sk_order s Hs). by rewrite Hrt.
  - by exists rt, rt1, rt2.
Qed.

(** *** Instances: the services of the crate's tests, [ui] requires [net] requires [log] *)

Definition nm_log : str := [108; 111; 103].
Definition nm_net : str := [110; 101; 116].
Definition nm_ui : str := [117; 105].
Definition demo_manifest (n : str) (deps : list str) : ServiceManifest :=
  mkManifest n [47; 120] [] deps OnFailure Backoff_default None None [].
Definition demo_manifests : list ServiceManifest :=
  [demo_manifest nm_ui [nm_net]; demo_manifest nm_net [nm_log]; demo_manifest nm_log []].
Definition demo_new : Supervisor (Logged MockHost) :=
  match Supervisor_new demo_manifests (mkLogged MockHost_default []) with
  | Ok s => s
  | Err _ => mkSup ∅ [] ∅ (mkLogged MockHost_default [])
  end.
Definition demo_up : Supervisor (Logged MockHost) := (start_all demo_new).2.

Example demo_order : sup_order demo_new = [nm_log; nm_net; nm_ui].
Proof. vm_compute. reflexivity. Qed.

Example demo_cycle :
  topological_order (mkGraph {[ [1] := {[ [2] ]}; [2] := {[ [1] ]}; [3] := {[ [1] ]}; [4] := ∅ ]}) =
  Err (Cycle [[1]; [2]; [3]]).
Proof. vm_compute. reflexivity. Qed.

Lemma demo_new_ok : Supervisor_new demo_manifests (mkLogged MockHost_default []) = Ok demo_new.
Proof. vm_compute. reflexivity. Qed.

Lemma demo_reach : rtc sup_step demo_new demo_up.
Proof.
  apply rtc_once. apply step_start. intros n rt. revert n rt.
  apply (bool_decide_eq_true_1 (map_Forall (fun _ rt => status rt <> Running) (runtimes demo_new))).
  vm_compute. reflexivity.
Qed.

Lemma supervisor_no_orphans_witness :
  live (log (host demo_up)) = tracked (runtimes demo_up) /\
  live (log (host demo_up)) = {[+ 1; 2; 3 +]} /\
  live (log (host (shutdown demo_up).1)) = ∅.
Proof.
  destruct (supervisor_no_orphans demo_manifests MockHost_default demo_new demo_up demo_new_ok demo_reach)
    as (Hl & _ & Hs & _).
  split; [exact Hl|]. split; [vm_compute; reflexivity|exact Hs].
Defined.

(** [start_all] does not look at the services' states: a second call while they
    run starts every service again and overwrites the recorded processes, and
    the first ones outlive the shutdown. *)
Example second_start_orphans :
  match start_all demo_up with
  | (Ok _, s) => live (log (host s)) = {[+ 1; 2; 3; 4; 5; 6 +]} /\ tracked (runtimes s) = {[+ 4; 5; 6 +]} /\
      live (log (host (shutdown s).1)) = {[+ 1; 2; 3 +]}
  | _ => False
  end.
Proof. vm_compute. repeat split. Qed.

Lemma start_stop_order_witness :
  sup_order demo_up = [nm_log; nm_net; nm_ui] /\
  log (host (shutdown demo_up).1) = log (host demo_up) ++ [Killed 3; Killed 2; Killed 1].
Proof.
  destruct (start_stop_order demo_manifests MockHost_default demo_new demo_up demo_new_ok demo_reach)
    as (_ & _ & Hk & _).
  split; [vm_compute; reflexivity|]. rewrite Hk. by f_equal.
Defined.

Lemma tick_refines_witness :
  exists rt rt1 rt2, runtimes demo_up !! nm_ui = Some rt /\
    poll_rel (Logged MockHost) (demo_manifest nm_ui [nm_net]) 0 rt rt1 /\
    restart_rel (Logged MockHost) (demo_manifest nm_ui [nm_net]) nm_ui 0 rt1 rt2 /\
    runtimes (tick demo_up).1 !! nm_ui = Some rt2.
Proof.
  apply (tick_refines demo_manifests MockHost_default demo_new demo_up (demo_manifest nm_ui [nm_net])
           demo_new_ok demo_reach). left.
Defined.
