(* ===== verification/Nvme.v ===== *)
(** * NVMe queues

    [src/crates/nexacore-driver-nvme]: the register layout and doorbell
    offsets ([controller_regs.rs]), the 64-byte submission and 16-byte
    completion entries ([admin.rs], [io.rs]), the ring bookkeeping with its
    phase tag ([ring.rs]), the queue pair and the controller start-up
    ([queue.rs]), the depth limits ([queue_config.rs]).  The controller is
    hardware: it appears only as the other side of a step relation that
    states what the NVMe base specification says it does. *)

From S2P Require Import Prelude.

(** ** Registers *)

Definition CC_OFFSET : Z := 0x14.
Definition CSTS_OFFSET : Z := 0x1C.
Definition AQA_OFFSET : Z := 0x24.
Definition ASQ_OFFSET : Z := 0x28.
Definition ACQ_OFFSET : Z := 0x30.
Definition DOORBELL_ARRAY_OFFSET : Z := 0x1000.
Definition CC_EN_BIT : Z := 1.
Definition CC_CSS_SHIFT : Z := 4.
Definition CC_MPS_SHIFT : Z := 7.
Definition CC_AMS_SHIFT : Z := 11.
Definition CC_IOSQES_SHIFT : Z := 16.
Definition CC_IOCQES_SHIFT : Z := 20.
Definition CSTS_RDY_BIT : Z := 1.
Definition CSTS_CFS_BIT : Z := 2.

Definition cc_enable_value : Z :=
  Z.lor (Z.lor CC_EN_BIT (Z.shiftl 6 CC_IOSQES_SHIFT)) (Z.shiftl 4 CC_IOCQES_SHIFT).

(** [4usize.checked_shl(dstrd)]: only the shift amount is checked. *)
Definition doorbell_stride (dstrd : Z) : option Z :=
  if dstrd <? 64 then Some (Z.shiftl 4 dstrd mod 2 ^ 64) else None.

Definition sq_tail_doorbell_offset (qid dstrd : Z) : option Z :=
  stride ← doorbell_stride dstrd;
  index ← checked_mul 64 qid 2;
  off ← checked_mul 64 index stride;
  checked_add 64 off DOORBELL_ARRAY_OFFSET.

Definition cq_head_doorbell_offset (qid dstrd : Z) : option Z :=
  stride ← doorbell_stride dstrd;
  pair_index ← checked_mul 64 qid 2;
  cq_index ← checked_add 64 pair_index 1;
  off ← checked_mul 64 cq_index stride;
  checked_add 64 off DOORBELL_ARRAY_OFFSET.

Definition cap_mqes (cap : Z) : Z := Z.land cap 0xFFFF.
Definition cap_cqr (cap : Z) : bool := negb (Z.land (Z.shiftr cap 16) 1 =? 0).
Definition cap_dstrd (cap : Z) : Z := Z.land (Z.shiftr cap 32) 0x0F.
Definition cap_mpsmin (cap : Z) : Z := Z.land (Z.shiftr cap 48) 0x0F.
Definition cap_mpsmax (cap : Z) : Z := Z.land (Z.shiftr cap 52) 0x0F.
Definition vs_major (vs : Z) : Z := Z.land (Z.shiftr vs 16) 0xFFFF.
Definition vs_minor (vs : Z) : Z := Z.land (Z.shiftr vs 8) 0xFF.

(** ** Depth limits *)

Definition MIN_QUEUE_DEPTH : Z := 1.
Definition MAX_ADMIN_QUEUE_DEPTH : Z := 4096.
Definition MAX_IO_QUEUE_DEPTH : Z := 65536.
Definition MAX_IO_QUEUE_COUNT : Z := 4.
Definition SQ_ENTRY_BYTES : Z := 64.
Definition CQ_ENTRY_BYTES : Z := 16.

Definition is_valid_admin_depth (depth : Z) : bool := (MIN_QUEUE_DEPTH <=? depth) && (depth <=? MAX_ADMIN_QUEUE_DEPTH).
Definition is_valid_io_depth (depth : Z) : bool := (MIN_QUEUE_DEPTH <=? depth) && (depth <=? MAX_IO_QUEUE_DEPTH).
Definition is_valid_io_queue_count (count : Z) : bool := (MIN_QUEUE_DEPTH <=? count) && (count <=? MAX_IO_QUEUE_COUNT).
Definition sq_allocation_bytes (depth : Z) : option Z := checked_mul 64 depth SQ_ENTRY_BYTES.
Definition cq_allocation_bytes (depth : Z) : option Z := checked_mul 64 depth CQ_ENTRY_BYTES.
Definition encode_aqa (sq_depth cq_depth : Z) : option Z :=
  if negb (is_valid_admin_depth sq_depth) || negb (is_valid_admin_depth cq_depth) then None
  else Some (Z.lor (sq_depth - 1) (Z.shiftl (cq_depth - 1) 16)).

(** ** Queue entries *)

Definition ADMIN_SQE_BYTES : Z := 64.
Definition ADMIN_CQE_BYTES : Z := 16.

(** [for (i, byte) in bytes.iter().enumerate() { if let Some(slot) = buf.get_mut(off + i) { *slot = *byte; } }] *)
Fixpoint write_at (buf : bytes) (off : nat) (d : bytes) : bytes :=
  match d with
  | [] => buf
  | b :: d => write_at (<[off := b]> buf) (S off) d
  end.
Definition write_dw_at (buf : bytes) (off : nat) (v : Z) : bytes := write_at buf off (to_le 4 v).
Definition write_qw_at (buf : bytes) (off : nat) (v : Z) : bytes := write_at buf off (to_le 8 v).
Definition read_dw_at (buf : bytes) (off : nat) : Z :=
  from_le [nth off buf 0; nth (off + 1) buf 0; nth (off + 2) buf 0; nth (off + 3) buf 0].

Definition zeroed : bytes := replicate 64 0.

Inductive IdentifyTarget := Controller | Namespace (nsid : Z) | ActiveNsList.

Definition OPC_IDENTIFY : Z := 0x06.
Definition OPC_CREATE_IO_CQ : Z := 0x05.
Definition OPC_CREATE_IO_SQ : Z := 0x01.
Definition OPC_NVM_FLUSH : Z := 0x00.
Definition OPC_NVM_WRITE : Z := 0x01.
Definition OPC_NVM_READ : Z := 0x02.
Definition OPC_NVM_DATASET_MGMT : Z := 0x09.
Definition DSM_AD_BIT : Z := 4.

(** Opcode and command identifier, as every encoder writes them in the first word. *)
Definition header_dw (opc cid : Z) : Z := Z.lor opc (Z.shiftl cid 16).

Definition encode_identify (target : IdentifyTarget) (prp1 prp2 cid : Z) : bytes :=
  let sqe := write_dw_at zeroed 0 (header_dw OPC_IDENTIFY cid) in
  let nsid := match target with Namespace nsid => nsid | _ => 0 end in
  let sqe := write_dw_at sqe 4 nsid in
  let sqe := write_qw_at sqe 24 prp1 in
  let sqe := write_qw_at sqe 32 prp2 in
  let cns := match target with Namespace _ => 0x00 | ActiveNsList => 0x02 | Controller => 0x01 end in
  write_dw_at sqe 40 cns.

Definition encode_create_io_cq (qid qsize prp1 irq_vector : Z) (irq_enabled physically_contig : bool) (cid : Z) : bytes :=
  let buf := write_dw_at zeroed 0 (header_dw OPC_CREATE_IO_CQ cid) in
  let buf := write_qw_at buf 24 prp1 in
  let buf := write_dw_at buf 40 (Z.lor qid (Z.shiftl (saturating_sub qsize 1) 16)) in
  let flags := if physically_contig then 1 else 0 in
  let flags := if irq_enabled then Z.lor flags 2 else flags in
  write_dw_at buf 44 (Z.lor flags (Z.shiftl irq_vector 16)).

Definition encode_create_io_sq (qid qsize prp1 cq_id queue_priority : Z) (physically_contig : bool) (cid : Z) : bytes :=
  let buf := write_dw_at zeroed 0 (header_dw OPC_CREATE_IO_SQ cid) in
  let buf := write_qw_at buf 24 prp1 in
  let buf := write_dw_at buf 40 (Z.lor qid (Z.shiftl (saturating_sub qsize 1) 16)) in
  let flags := if physically_contig then 1 else 0 in
  let flags := Z.lor flags (Z.shiftl (Z.land queue_priority 3) 1) in
  write_dw_at buf 44 (Z.lor flags (Z.shiftl cq_id 16)).

Definition encode_nvm_data_transfer (opc nsid lba block_count prp1 prp2 cid : Z) : bytes :=
  let buf := write_dw_at zeroed 0 (header_dw opc cid) in
  let buf := write_dw_at buf 4 nsid in
  let buf := write_qw_at buf 24 prp1 in
  let buf := write_qw_at buf 32 prp2 in
  let buf := write_dw_at buf 40 (Z.land lba 0xFFFFFFFF) in
  let buf := write_dw_at buf 44 (Z.land (Z.shiftr lba 32) 0xFFFFFFFF) in
  write_dw_at buf 48 (saturating_sub block_count 1).
Definition encode_read (nsid lba block_count prp1 prp2 cid : Z) : bytes :=
  encode_nvm_data_transfer OPC_NVM_READ nsid lba block_count prp1 prp2 cid.
Definition encode_write (nsid lba block_count prp1 prp2 cid : Z) : bytes :=
  encode_nvm_data_transfer OPC_NVM_WRITE nsid lba block_count prp1 prp2 cid.

Definition encode_flush (nsid cid : Z) : bytes :=
  write_dw_at (write_dw_at zeroed 0 (header_dw OPC_NVM_FLUSH cid)) 4 nsid.

Definition encode_discard (nsid lba block_count prp1 cid : Z) : bytes :=
  let buf := write_dw_at zeroed 0 (header_dw OPC_NVM_DATASET_MGMT cid) in
  let buf := write_dw_at buf 4 nsid in
  let buf := write_qw_at buf 24 prp1 in
  let buf := write_dw_at buf 40 0 in
  let buf := write_dw_at buf 44 DSM_AD_BIT in
  let buf := write_dw_at buf 48 (Z.land lba 0xFFFFFFFF) in
  let buf := write_dw_at buf 52 (Z.land (Z.shiftr lba 32) 0xFFFFFFFF) in
  write_dw_at buf 56 block_count.

Record AdminCqeFields := mkCqe {
  cdw0 : Z; sq_head : Z; sq_id : Z; cid : Z; phase : bool;
  sc : Z; sct : Z; more : bool; do_not_retry : bool;
}.

Definition is_success (f : AdminCqeFields) : bool := (sct f =? 0) && (sc f =? 0).

Definition packed_status (f : AdminCqeFields) : Z :=
  let s := if phase f then 1 else 0 in
  let s := Z.lor s (Z.shiftl (sc f) 1) in
  let s := Z.lor s (Z.shiftl (Z.land (sct f) 7) 9) in
  let s := if more f then Z.lor s (Z.shiftl 1 14) else s in
  if do_not_retry f then Z.lor s (Z.shiftl 1 15) else s.

Definition parse_admin_cqe (cqe : bytes) : AdminCqeFields :=
  let w0 := read_dw_at cqe 0 in
  let cdw2 := read_dw_at cqe 8 in
  let cdw3 := read_dw_at cqe 12 in
  let status_word := Z.land (Z.shiftr cdw3 16) 0xFFFF in
  mkCqe w0 (Z.land cdw2 0xFFFF) (Z.land (Z.shiftr cdw2 16) 0xFFFF) (Z.land cdw3 0xFFFF)
    (negb (Z.land status_word 1 =? 0)) (Z.land (Z.shiftr status_word 1) 0xFF)
    (Z.land (Z.shiftr status_word 9) 7) (negb (Z.land status_word (Z.shiftl 1 14) =? 0))
    (negb (Z.land status_word (Z.shiftl 1 15) =? 0)).

(** ** Rings *)

Inductive RingError := CapacityZero | CapacityTooLarge.

Record SqRing := mkSq { sq_capacity : Z; tail : Z; head_observed : Z }.

Definition SqRing_new (capacity : Z) : result RingError SqRing :=
  if capacity =? 0 then Err CapacityZero
  else if 65535 <? capacity then Err CapacityTooLarge
  else Ok (mkSq capacity 0 0).

Definition usable_capacity (r : SqRing) : exec Z := sub_uint (sq_capacity r) 1.

(** [if i + 1 == capacity { 0 } else { i + 1 }], with the 16-bit addition. *)
Definition next_slot (capacity i : Z) : exec Z :=
  j ← add_uint 16 i 1;
  Done (if j =? capacity then 0 else j).

Definition sq_is_full (r : SqRing) : exec bool :=
  next_tail ← next_slot (sq_capacity r) (tail r);
  Done (next_tail =? head_observed r).
Definition sq_is_empty (r : SqRing) : bool := tail r =? head_observed r.

Definition sq_submit (r : SqRing) : exec (option Z * SqRing) :=
  full ← sq_is_full r;
  if full : bool then Done (None, r)
  else
    next_tail ← next_slot (sq_capacity r) (tail r);
    Done (Some (tail r), mkSq (sq_capacity r) next_tail (head_observed r)).

Definition update_head (head : Z) (r : SqRing) : SqRing :=
  mkSq (sq_capacity r) (tail r) (head mod sq_capacity r).

Record CqRing := mkCq { cq_capacity : Z; head : Z; expected_phase : bool }.

Definition CqRing_new (capacity : Z) : result RingError CqRing :=
  if capacity =? 0 then Err CapacityZero
  else if 65535 <? capacity then Err CapacityTooLarge
  else Ok (mkCq capacity 0 true).

Definition try_take (slot : bytes) (r : CqRing) : exec (option AdminCqeFields * CqRing) :=
  let fields := parse_admin_cqe slot in
  if negb (Bool.eqb (phase fields) (expected_phase r)) then Done (None, r)
  else
    j ← add_uint 16 (head r) 1;
    Done (Some fields,
          if j =? cq_capacity r then mkCq (cq_capacity r) 0 (negb (expected_phase r))
          else mkCq (cq_capacity r) j (expected_phase r)).

(** ** The queue pair *)

Inductive QueueError :=
| RingErr (e : RingError) | SqPageTooSmall | CqPageTooSmall | Full | DoorbellOffsetOverflow
| ControllerNotReady | AdminDepthOutOfRange | QueueBaseMisaligned | IdentifyCompletionTimeout
| ControllerFatal.

(** The register window, written with [write_doorbell] and [write_register]
    and read with [read_register]. *)
Class MmioBackend (M : Type) := { write_doorbell : Z -> Z -> M -> M }.
Class MmioReadBackend (R : Type) := { read_register : Z -> R -> Z * R }.
Definition write_register {M} `{!MmioBackend M} (offset value : Z) (m : M) : M := write_doorbell offset value m.

Record AdminQueuePair := mkPair { sq : SqRing; cq : CqRing; dstrd : Z; qid : Z }.

Definition ring_result {A} (r : result RingError A) : result QueueError A :=
  match r with Ok a => Ok a | Err e => Err (RingErr e) end.

Definition new_for_qid (q sq_depth cq_depth ds : Z) : result QueueError AdminQueuePair :=
  s ← ring_result (SqRing_new sq_depth);
  c ← ring_result (CqRing_new cq_depth);
  Ok (mkPair s c ds q).
Definition AdminQueuePair_new (sq_depth cq_depth ds : Z) := new_for_qid 0 sq_depth cq_depth ds.

Section Mmio.
Context {M : Type} `{!MmioBackend M}.

Definition submit (sqe : bytes) (q : AdminQueuePair) (mmio : M) (sq_page : bytes) :
  exec (result QueueError Z * (AdminQueuePair * M * bytes)) :=
  let fail e := Done (Err e, (q, mmio, sq_page)) in
  match checked_mul 64 (sq_capacity (sq q)) ADMIN_SQE_BYTES with
  | None => fail SqPageTooSmall
  | Some needed =>
      if Z.of_nat (length sq_page) <? needed then fail SqPageTooSmall
      else
        match sq_tail_doorbell_offset (qid q) (dstrd q) with
        | None => fail DoorbellOffsetOverflow
        | Some doorbell =>
            r ← sq_submit (sq q);
            match r with
            | (None, _) => fail Full
            | (Some slot, ring) =>
                let q := mkPair ring (cq q) (dstrd q) (qid q) in
                let start := slot * ADMIN_SQE_BYTES in
                match get_range sq_page start ADMIN_SQE_BYTES with
                | None => Done (Err SqPageTooSmall, (q, mmio, sq_page))
                | Some _ =>
                    let sq_page := put_range sq_page start sqe in
                    Done (Ok slot, (q, write_doorbell doorbell (tail ring) mmio, sq_page))
                end
            end
        end
  end.

Definition record_head_observed (h : Z) (q : AdminQueuePair) : AdminQueuePair :=
  mkPair (update_head h (sq q)) (cq q) (dstrd q) (qid q).

Definition drain_completion (q : AdminQueuePair) (mmio : M) (cq_page : bytes) :
  exec (result QueueError (option AdminCqeFields) * (AdminQueuePair * M)) :=
  let fail e := Done (Err e, (q, mmio)) in
  match checked_mul 64 (cq_capacity (cq q)) ADMIN_CQE_BYTES with
  | None => fail CqPageTooSmall
  | Some needed =>
      if Z.of_nat (length cq_page) <? needed then fail CqPageTooSmall
      else
        match cq_head_doorbell_offset (qid q) (dstrd q) with
        | None => fail DoorbellOffsetOverflow
        | Some doorbell =>
            match get_range cq_page (head (cq q) * ADMIN_CQE_BYTES) ADMIN_CQE_BYTES with
            | None => fail CqPageTooSmall
            | Some raw =>
                r ← try_take raw (cq q);
                match r with
                | (None, ring) => Done (Ok None, (mkPair (sq q) ring (dstrd q) (qid q), mmio))
                | (Some fields, ring) =>
                    let mmio := write_doorbell doorbell (head ring) mmio in
                    Done (Ok (Some fields),
                          (mkPair (update_head (sq_head fields) (sq q)) ring (dstrd q) (qid q), mmio))
                end
            end
        end
  end.

End Mmio.

(** ** Controller start-up *)

Section Startup.
Context {M R : Type} `{!MmioBackend M} `{!MmioReadBackend R}.

(** [for _ in 0..poll_limit]: [want] is the value of the ready bit waited for. *)
Fixpoint wait_for_csts (want : bool) (polls : nat) (r : R) : result QueueError () * R :=
  match polls with
  | O => (Err ControllerNotReady, r)
  | S polls =>
      let '(csts, r) := read_register CSTS_OFFSET r in
      if negb (Z.land csts CSTS_CFS_BIT =? 0) then (Err ControllerFatal, r)
      else if Bool.eqb (negb (Z.land csts CSTS_RDY_BIT =? 0)) want then (Ok (), r)
      else wait_for_csts want polls r
  end.
Definition wait_for_csts_rdy (poll_limit : Z) (r : R) := wait_for_csts true (Z.to_nat poll_limit) r.
Definition wait_for_csts_not_rdy (poll_limit : Z) (r : R) := wait_for_csts false (Z.to_nat poll_limit) r.

Definition check_controller_fatal (r : R) : bool * R :=
  let '(csts, r) := read_register CSTS_OFFSET r in (negb (Z.land csts CSTS_CFS_BIT =? 0), r).

Definition disable_controller (w : M) (r : R) (poll_limit : Z) : result QueueError Z * (M * R) :=
  let '(cc_current, r) := read_register CC_OFFSET r in
  let w := write_register CC_OFFSET (Z.land cc_current (not_uint 32 CC_EN_BIT)) w in
  match wait_for_csts_not_rdy poll_limit r with
  | (Err e, r) => (Err e, (w, r))
  | (Ok _, r) => (Ok cc_current, (w, r))
  end.

Definition enable_controller (w : M) (r : R) (poll_limit : Z) : result QueueError Z * (M * R) :=
  let '(cc_current, r) := read_register CC_OFFSET r in
  let cc_enabled := Z.lor cc_current CC_EN_BIT in
  let w := write_register CC_OFFSET cc_enabled w in
  match wait_for_csts_rdy poll_limit r with
  | (Err e, r) => (Err e, (w, r))
  | (Ok _, r) => (Ok cc_enabled, (w, r))
  end.

Definition program_admin_queue_bases (w : M) (asq_phys acq_phys sq_depth cq_depth : Z) : result QueueError () * M :=
  if negb (is_valid_admin_depth sq_depth) || negb (is_valid_admin_depth cq_depth) then (Err AdminDepthOutOfRange, w)
  else if negb (Z.land asq_phys 4095 =? 0) || negb (Z.land acq_phys 4095 =? 0) then (Err QueueBaseMisaligned, w)
  else
    let asqs := Z.land (sq_depth - 1) 0xFFF in
    let acqs := Z.land (cq_depth - 1) 0xFFF in
    let w := write_register AQA_OFFSET (Z.lor asqs (Z.shiftl acqs 16)) w in
    let w := write_register ASQ_OFFSET (asq_phys mod 2 ^ 32) w in
    let w := write_register (ASQ_OFFSET + 4) (Z.shiftr asq_phys 32 mod 2 ^ 32) w in
    let w := write_register ACQ_OFFSET (acq_phys mod 2 ^ 32) w in
    let w := write_register (ACQ_OFFSET + 4) (Z.shiftr acq_phys 32 mod 2 ^ 32) w in
    (Ok (), w).

Definition program_cc_fields (w : M) (mps_log2 iosqes_log2 iocqes_log2 : Z) : result QueueError () * M :=
  if (0xF <? mps_log2) || (0xF <? iosqes_log2) || (0xF <? iocqes_log2) then (Err AdminDepthOutOfRange, w)
  else
    let cc := Z.lor (Z.lor (Z.lor (Z.lor (Z.shiftl mps_log2 CC_MPS_SHIFT) (Z.shiftl iosqes_log2 CC_IOSQES_SHIFT))
                (Z.shiftl iocqes_log2 CC_IOCQES_SHIFT)) (Z.shiftl 0 CC_CSS_SHIFT)) (Z.shiftl 0 CC_AMS_SHIFT) in
    (Ok (), write_register CC_OFFSET cc w).

End Startup.

(** ** Lemmas on slots and laps *)

(** The index and the lap of the [k]-th entry of a ring of [c] slots. *)
Lemma next_slot_mod c k :
  0 < c <= 65535 -> 0 <= k -> next_slot c (k mod c) = Done ((k + 1) mod c).
Proof.
  intros Hc Hk. unfold next_slot. pose proof (Z.mod_pos_bound k c).
  rewrite add_uint_Done by lia. simpl. f_equal.
  destruct (Z.eqb_spec (k mod c + 1) c) as [He|He].
  - rewrite <- Z.add_mod_idemp_l, He, Z.mod_same by lia. done.
  - rewrite <- Z.add_mod_idemp_l by lia. rewrite (Z.mod_small (k mod c + 1)) by lia. done.
Qed.

Lemma lap_next c k :
  0 < c -> 0 <= k -> (k + 1) / c = if k mod c + 1 =? c then k / c + 1 else k / c.
Proof.
  intros Hc Hk. pose proof (Z.mod_pos_bound k c). pose proof (Z.div_mod k c).
  destruct (Z.eqb_spec (k mod c + 1) c) as [He|He]; symmetry.
  - apply (Z.div_unique _ _ _ 0); [lia|]. nia.
  - apply (Z.div_unique _ _ _ (k mod c + 1)); nia.
Qed.

(** Two entries less than a lap apart have the same slot only if they are the same. *)
Lemma slot_inj c a b : 0 < c -> a <= b < a + c -> a mod c = b mod c -> a = b.
Proof.
  intros Hc Hab He. pose proof (Z.div_mod a c ltac:(lia)). pose proof (Z.div_mod b c ltac:(lia)).
  assert (c * (b / c - a / c) = b - a) as Hx by lia. set (x := b / c - a / c) in *.
  assert (x < 1) by nia. assert (-1 < x) by nia. assert (x = 0) by lia. nia.
Qed.

(** The same slot one lap later. *)
Lemma slot_lap c k : 0 < c -> (k + c) mod c = k mod c /\ (k + c) / c = k / c + 1.
Proof.
  intros Hc. replace (k + c) with (k + 1 * c) by lia. by rewrite Z.mod_add, Z.div_add by lia.
Qed.

Definition lap_phase (c k : Z) : bool := Z.even (k / c).

Lemma lap_phase_next c k :
  0 < c -> 0 <= k -> lap_phase c (k + 1) = if k mod c + 1 =? c then negb (lap_phase c k) else lap_phase c k.
Proof.
  intros Hc Hk. unfold lap_phase. rewrite lap_next by done. case_match; [|done].
  rewrite Z.add_1_r, Z.even_succ. by rewrite <- Z.negb_even.
Qed.

Lemma lap_phase_wrap c k : 0 < c -> lap_phase c (k + c) = negb (lap_phase c k).
Proof.
  intros Hc. unfold lap_phase. destruct (slot_lap c k Hc) as [_ ->].
  rewrite Z.add_1_r, Z.even_succ. by rewrite <- Z.negb_even.
Qed.
