(* ===== verification/NvmeQueue.v ===== *)
(** * The NVMe queue protocol

    The queue pair of [src/crates/nexacore-driver-nvme/src/queue.rs] running
    against a controller.  The controller's two moves are those of the NVMe
    base specification (sections 4.1 and 4.6): fetch the next submission
    entry up to the tail doorbell, and post a completion with its current
    submission head and the phase tag of its lap, as long as the completion
    queue is not full.  Ghost lists record what was submitted, fetched,
    posted and taken. *)

From S2P Require Import Prelude Nvme.

(** A plain register file. *)
#[export] Instance register_file : MmioBackend (gmap Z Z) := { write_doorbell off v m := <[off := v]> m }.

Record System := mkSys {
  drv : AdminQueuePair;
  sq_mem : bytes;
  cq_mem : bytes;
  regs : gmap Z Z;
  c_sq_head : Z;
  c_cq_tail : Z;
  c_phase : bool;
  submitted : list bytes;
  fetched : list bytes;
  posted : list AdminCqeFields;
  taken : list AdminCqeFields;
}.

(** A completion entry as the specification lays it out in four dwords, with the bits the driver ignores: the
    second dword [rsv] and the command retry delay [crd]. *)
Definition completion_entry (f : AdminCqeFields) (rsv crd : Z) : bytes :=
  to_le 4 (cdw0 f) ++ to_le 4 rsv ++ to_le 4 (sq_head f + 2 ^ 16 * sq_id f) ++
  to_le 4 (cid f + 2 ^ 16 * (Z.b2z (phase f) + 2 * sc f + 2 ^ 9 * sct f + 2 ^ 12 * crd + 2 ^ 14 * Z.b2z (more f) + 2 ^ 15 * Z.b2z (do_not_retry f))).
Definition completion_ok (f : AdminCqeFields) (rsv crd : Z) : Prop :=
  in_uint 32 (cdw0 f) /\ in_uint 32 rsv /\ in_uint 16 (sq_head f) /\ in_uint 16 (sq_id f) /\ in_uint 16 (cid f) /\
  in_uint 8 (sc f) /\ in_uint 3 (sct f) /\ in_uint 2 crd.

Lemma read_dw_app pre z post : in_uint 32 z -> read_dw_at (pre ++ to_le 4 z ++ post) (length pre) = z.
Proof.
  intros Hz. pose proof (from_to_le 4 z ltac:(lia) Hz) as E. pose proof (length_to_le 4 z ltac:(lia)) as Hl. change (Z.to_nat 4) with 4%nat in Hl.
  destruct (to_le 4 z) as [|b0 [|b1 [|b2 [|b3 [|]]]]]; try discriminate Hl. rewrite <- E. unfold read_dw_at.
  rewrite !(app_nth2 pre) by lia. rewrite Nat.sub_diag. replace (length pre + 1 - length pre)%nat with 1%nat by lia.
  replace (length pre + 2 - length pre)%nat with 2%nat by lia. by replace (length pre + 3 - length pre)%nat with 3%nat by lia.
Qed.
Lemma land_bit x k : 0 <= k -> negb (Z.land x (2 ^ k) =? 0) = Z.odd (x / 2 ^ k).
Proof. intros Hk. by rewrite land_pow2, Z.testbit_odd, Z.shiftr_div_pow2. Qed.
Lemma odd_b2z b n : Z.odd (Z.b2z b + 2 * n) = b.
Proof. rewrite Z.odd_add_mul_2. by destruct b. Qed.
(** The driver's parser reads exactly these fields. *)
Lemma parse_completion f rsv crd : completion_ok f rsv crd -> parse_admin_cqe (completion_entry f rsv crd) = f.
Proof.
  destruct f as [w0 sh si ci ph scode stype mo dnr]. unfold completion_ok, completion_entry, in_uint. cbn [cdw0 sq_head sq_id cid phase sc sct more do_not_retry].
  intros (H0 & Hr & Hh & Hi & Hc & Hs & Ht & Hcrd). set (st := Z.b2z ph + 2 * scode + 2 ^ 9 * stype + 2 ^ 12 * crd + 2 ^ 14 * Z.b2z mo + 2 ^ 15 * Z.b2z dnr).
  assert (0 <= Z.b2z ph <= 1 /\ 0 <= Z.b2z mo <= 1 /\ 0 <= Z.b2z dnr <= 1) as (Bp & Bm & Bd) by (destruct ph, mo, dnr; cbn; lia).
  assert (0 <= st < 2 ^ 16) as Hst by (unfold st; lia). unfold parse_admin_cqe.
  pose proof (read_dw_app [] w0 (to_le 4 rsv ++ to_le 4 (sh + 2 ^ 16 * si) ++ to_le 4 (ci + 2 ^ 16 * st)) ltac:(unfold in_uint; lia)) as E0.
  pose proof (read_dw_app (to_le 4 w0 ++ to_le 4 rsv) (sh + 2 ^ 16 * si) (to_le 4 (ci + 2 ^ 16 * st)) ltac:(unfold in_uint; lia)) as E2.
  pose proof (read_dw_app (to_le 4 w0 ++ to_le 4 rsv ++ to_le 4 (sh + 2 ^ 16 * si)) (ci + 2 ^ 16 * st) [] ltac:(unfold in_uint; lia)) as E3.
  assert (forall z, length (to_le 4 z) = 4%nat) as L4 by (intros z; by rewrite length_to_le). rewrite !length_app, !L4 in E2. rewrite !length_app, !L4, app_nil_r in E3. rewrite <- !app_assoc in E2. rewrite <- !app_assoc in E3. cbn [app length] in E0.
  cbn [Nat.add] in E2, E3.
  rewrite E0, E2, E3. change 0xFFFF with (Z.ones 16). change 0xFF with (Z.ones 8). change 7 with (Z.ones 3).
  rewrite !Z.shiftr_div_pow2, !Z.shiftl_1_l, !(Z.land_ones _ 16), !(Z.land_ones _ 8), !(Z.land_ones _ 3) by lia.
  assert ((ci + 2 ^ 16 * st) / 2 ^ 16 mod 2 ^ 16 = st) as -> by (rewrite Z.mul_comm, Z.div_add, Z.div_small, Z.mod_small by lia; done).
  change (Z.land st 1) with (Z.land st (2 ^ 0)). rewrite !land_bit by lia. f_equal.
  - rewrite Z.mul_comm, Z_mod_plus_full. apply Z.mod_small. lia.
  - rewrite Z.mul_comm, Z.div_add, Z.div_small by lia. apply Z.mod_small. lia.
  - rewrite Z.mul_comm, Z_mod_plus_full. apply Z.mod_small. lia.
  - replace (st / 2 ^ 0) with (Z.b2z ph + 2 * (scode + 2 ^ 8 * stype + 2 ^ 11 * crd + 2 ^ 13 * Z.b2z mo + 2 ^ 14 * Z.b2z dnr)); [apply odd_b2z|].
    rewrite Z.div_1_r. unfold st. lia.
  - replace (st / 2 ^ 1) with (scode + (stype + 2 ^ 3 * crd + 2 ^ 5 * Z.b2z mo + 2 ^ 6 * Z.b2z dnr) * 2 ^ 8); [rewrite Z_mod_plus_full; apply Z.mod_small; lia|].
    apply Z.div_unique with (r := Z.b2z ph); unfold st; lia.
  - replace (st / 2 ^ 9) with (stype + (crd + 2 ^ 2 * Z.b2z mo + 2 ^ 3 * Z.b2z dnr) * 2 ^ 3); [rewrite Z_mod_plus_full; apply Z.mod_small; lia|].
    apply Z.div_unique with (r := Z.b2z ph + 2 * scode); unfold st; lia.
  - replace (st / 2 ^ 14) with (Z.b2z mo + 2 * Z.b2z dnr); [apply odd_b2z|].
    apply Z.div_unique with (r := Z.b2z ph + 2 * scode + 2 ^ 9 * stype + 2 ^ 12 * crd); unfold st; lia.
  - replace (st / 2 ^ 15) with (Z.b2z dnr); [by destruct dnr|].
    apply Z.div_unique with (r := Z.b2z ph + 2 * scode + 2 ^ 9 * stype + 2 ^ 12 * crd + 2 ^ 14 * Z.b2z mo); unfold st; lia.
Qed.

Section Protocol.
Context (c d q ds : Z).

(** The doorbells' offsets, as the specification gives them. *)
Definition sq_db : Z := DOORBELL_ARRAY_OFFSET + (2 * q) * (4 * 2 ^ ds).
Definition cq_db : Z := DOORBELL_ARRAY_OFFSET + (2 * q + 1) * (4 * 2 ^ ds).

Definition doorbell (y : System) (off : Z) : Z := default 0 (regs y !! off).

Definition sys_init : System :=
  mkSys (mkPair (mkSq c 0 0) (mkCq d 0 true) ds q) (replicate (Z.to_nat (c * 64)) 0)
    (replicate (Z.to_nat (d * 16)) 0) ∅ 0 0 true [] [] [] [].

Inductive sys_step (y : System) : System -> Prop :=
| drv_submit sqe r dr m pg :
    length sqe = 64%nat -> submit sqe (drv y) (regs y) (sq_mem y) = Done (r, (dr, m, pg)) ->
    sys_step y (mkSys dr pg (cq_mem y) m (c_sq_head y) (c_cq_tail y) (c_phase y)
      (match r with Ok _ => submitted y ++ [sqe] | Err _ => submitted y end)
      (fetched y) (posted y) (taken y))
| drv_drain r dr m :
    drain_completion (drv y) (regs y) (cq_mem y) = Done (r, (dr, m)) ->
    sys_step y (mkSys dr (sq_mem y) (cq_mem y) m (c_sq_head y) (c_cq_tail y) (c_phase y)
      (submitted y) (fetched y) (posted y)
      (match r with Ok (Some f) => taken y ++ [f] | _ => taken y end))
| ctl_fetch sqe :
    c_sq_head y <> doorbell y sq_db -> get_range (sq_mem y) (c_sq_head y * 64) 64 = Some sqe ->
    sys_step y (mkSys (drv y) (sq_mem y) (cq_mem y) (regs y) ((c_sq_head y + 1) mod c) (c_cq_tail y) (c_phase y)
      (submitted y) (fetched y ++ [sqe]) (posted y) (taken y))
| ctl_post f rsv crd :
    completion_ok f rsv crd -> (c_cq_tail y + 1) mod d <> doorbell y cq_db -> sq_head f = c_sq_head y -> phase f = c_phase y ->
    sys_step y (mkSys (drv y) (sq_mem y) (put_range (cq_mem y) (c_cq_tail y * 16) (completion_entry f rsv crd)) (regs y) (c_sq_head y)
      ((c_cq_tail y + 1) mod d) (if c_cq_tail y + 1 =? d then negb (c_phase y) else c_phase y)
      (submitted y) (fetched y) (posted y ++ [f]) (taken y)).

Hypothesis (Hc : 0 < c <= 65535) (Hd : 0 < d <= 65535) (Hq : 0 <= q <= 65535) (Hds : 0 <= ds <= 15).

Lemma stride_pos : 4 <= 4 * 2 ^ ds <= 2 ^ 17.
Proof using Hds.
  assert (2 ^ 0 <= 2 ^ ds <= 2 ^ 15) as [? ?] by (split; apply Z.pow_le_mono_r; lia). lia.
Qed.

Lemma doorbell_stride_ok : doorbell_stride ds = Some (4 * 2 ^ ds).
Proof using Hds.
  pose proof stride_pos. unfold doorbell_stride. uint_ok. f_equal.
  rewrite Z.shiftl_mul_pow2 by lia. apply Z.mod_small. lia.
Qed.

Lemma doorbells_distinct : sq_db <> cq_db.
Proof using Hds. pose proof stride_pos. unfold sq_db, cq_db. lia. Qed.

Lemma sq_doorbell_ok : sq_tail_doorbell_offset q ds = Some sq_db.
Proof using Hq Hds.
  pose proof stride_pos. unfold sq_tail_doorbell_offset. rewrite doorbell_stride_ok. simpl.
  unfold checked_mul, checked_add, DOORBELL_ARRAY_OFFSET, sq_db. set (w := 4 * 2 ^ ds) in *.
  rewrite (proj2 (Z.ltb_lt (q * 2) _)) by lia. simpl.
  rewrite (proj2 (Z.ltb_lt (q * 2 * w) _)) by nia. simpl.
  rewrite (proj2 (Z.ltb_lt _ _)) by nia. f_equal. unfold DOORBELL_ARRAY_OFFSET. lia.
Qed.

Lemma cq_doorbell_ok : cq_head_doorbell_offset q ds = Some cq_db.
Proof using Hq Hds.
  pose proof stride_pos. unfold cq_head_doorbell_offset. rewrite doorbell_stride_ok. simpl.
  unfold checked_mul, checked_add, DOORBELL_ARRAY_OFFSET, cq_db. set (w := 4 * 2 ^ ds) in *.
  rewrite (proj2 (Z.ltb_lt (q * 2) _)) by lia. simpl. rewrite (proj2 (Z.ltb_lt (q * 2 + 1) _)) by lia. simpl.
  rewrite (proj2 (Z.ltb_lt ((q * 2 + 1) * w) _)) by nia. simpl.
  rewrite (proj2 (Z.ltb_lt _ _)) by nia. f_equal. unfold DOORBELL_ARRAY_OFFSET. lia.
Qed.

(** ** The invariant

    [nS], [nF], [nP] and [nT] count the entries submitted, fetched, posted
    and taken; [nR] is the number of fetched entries the driver knows of, and
    [heads] the controller's head when it posted each completion. *)

Abbreviation nS y := (Z.of_nat (length (submitted y))).
Abbreviation nF y := (Z.of_nat (length (fetched y))).
Abbreviation nP y := (Z.of_nat (length (posted y))).
Abbreviation nT y := (Z.of_nat (length (taken y))).

Record sys_inv (y : System) (nR : Z) (heads : list Z) : Prop := {
  i_drv : drv y = mkPair (mkSq c (nS y mod c) (nR mod c)) (mkCq d (nT y mod d) (lap_phase d (nT y))) ds q;
  i_window : 0 <= nR <= nF y /\ nF y <= nS y <= nR + (c - 1);
  i_sq_db : doorbell y sq_db = nS y mod c;
  i_cq_db : doorbell y cq_db = nT y mod d;
  i_head : c_sq_head y = nF y mod c;
  i_fetched : fetched y `prefix_of` submitted y;
  i_sq_len : Z.of_nat (length (sq_mem y)) = c * 64;
  i_sq_mem : forall (k : nat) sqe, nF y <= Z.of_nat k -> submitted y !! k = Some sqe ->
    get_range (sq_mem y) ((Z.of_nat k mod c) * 64) 64 = Some sqe;
  i_tail : c_cq_tail y = nP y mod d;
  i_phase : c_phase y = lap_phase d (nP y);
  i_cq_window : nT y <= nP y <= nT y + (d - 1);
  i_taken : taken y `prefix_of` posted y;
  i_cq_len : Z.of_nat (length (cq_mem y)) = d * 16;
  i_cq_mem : forall (k : nat) f, nT y <= Z.of_nat k -> posted y !! k = Some f ->
    phase f = lap_phase d (Z.of_nat k) /\
    exists raw, get_range (cq_mem y) ((Z.of_nat k mod d) * 16) 16 = Some raw /\ parse_admin_cqe raw = f;
  i_cq_old : forall k, nP y <= k < nT y + d ->
    exists raw, get_range (cq_mem y) ((k mod d) * 16) 16 = Some raw /\
      phase (parse_admin_cqe raw) = negb (lap_phase d k);
  i_heads : Forall2 (fun f g => sq_head f = g mod c) (posted y) heads;
  i_heads_le : forall (k : nat) g, heads !! k = Some g -> g <= nF y;
  i_heads_ge : forall (k : nat) g, nT y <= Z.of_nat k -> heads !! k = Some g -> nR <= g;
  i_heads_mono : forall (k k' : nat) g g', (k <= k')%nat -> heads !! k = Some g -> heads !! k' = Some g' -> g <= g';
}.

Lemma sys_init_inv : sys_inv sys_init 0 [].
Proof using Hc Hd.
  assert (forall k, 0 <= k < d -> get_range (replicate (Z.to_nat (d * 16)) 0) ((k mod d) * 16) 16 = Some (replicate 16 0)) as Hz.
  { intros k Hk. rewrite Z.mod_small by lia. unfold get_range. rewrite length_replicate. uint_ok. f_equal.
    rewrite drop_replicate, take_replicate. f_equal. lia. }
  split; cbn [sys_init drv sq_mem cq_mem regs c_sq_head c_cq_tail c_phase submitted fetched posted taken length Z.of_nat].
  - by rewrite !Z.mod_0_l by lia.
  - lia.
  - by rewrite Z.mod_0_l by lia.
  - by rewrite Z.mod_0_l by lia.
  - by rewrite Z.mod_0_l by lia.
  - done.
  - rewrite length_replicate. lia.
  - intros k sqe _. by rewrite lookup_nil.
  - by rewrite Z.mod_0_l by lia.
  - done.
  - lia.
  - done.
  - rewrite length_replicate. lia.
  - intros k f _. by rewrite lookup_nil.
  - intros k Hk. exists (replicate 16 0). split; [apply Hz; lia|].
    unfold lap_phase. rewrite Z.div_small by lia. vm_compute. done.
  - constructor.
  - intros k g. by rewrite lookup_nil.
  - intros k g _. by rewrite lookup_nil.
  - intros k k' g g' _. by rewrite lookup_nil.
Qed.

(** ** The driver's moves *)

Section Moves.
Context (y : System) (nR : Z) (heads : list Z).
Hypothesis (Hi : sys_inv y nR heads).

Lemma sq_ring_submit :
  sq_submit (mkSq c (nS y mod c) (nR mod c)) =
  Done (if nS y =? nR + (c - 1) then (None, mkSq c (nS y mod c) (nR mod c))
        else (Some (nS y mod c), mkSq c ((nS y + 1) mod c) (nR mod c))).
Proof using Hi Hc.
  destruct (i_window _ _ _ Hi) as [HR HF]. unfold sq_submit, sq_is_full. cbn [sq_capacity tail head_observed].
  rewrite next_slot_mod by lia. simpl. destruct (Z.eqb_spec (nS y) (nR + (c - 1))) as [He|He].
  - rewrite He. replace (nR + (c - 1) + 1) with (nR + c) by lia.
    destruct (slot_lap c nR) as [-> _]; [lia|]. by rewrite Z.eqb_refl.
  - destruct (Z.eqb_spec ((nS y + 1) mod c) (nR mod c)) as [Hm|Hm]; [|done].
    symmetry in Hm. apply slot_inj in Hm; lia.
Qed.

(** The submission the driver makes, in full. *)
Lemma submit_exact sqe :
  length sqe = 64%nat ->
  submit sqe (drv y) (regs y) (sq_mem y) =
  Done (if nS y =? nR + (c - 1) then (Err Full, (drv y, regs y, sq_mem y))
        else (Ok (nS y mod c),
              (mkPair (mkSq c ((nS y + 1) mod c) (nR mod c)) (cq (drv y)) ds q,
               <[sq_db := (nS y + 1) mod c]> (regs y),
               put_range (sq_mem y) ((nS y mod c) * 64) sqe))).
Proof using Hi Hc Hq Hds.
  intros Hl. pose proof (i_sq_len _ _ _ Hi) as Hlen. unfold submit. rewrite (i_drv _ _ _ Hi).
  cbn [sq cq dstrd qid sq_capacity]. unfold checked_mul, ADMIN_SQE_BYTES.
  rewrite (proj2 (Z.ltb_lt (c * 64) _)) by lia. rewrite (proj2 (Z.ltb_ge _ (c * 64))) by lia.
  rewrite sq_doorbell_ok, sq_ring_submit. simpl. destruct (nS y =? nR + (c - 1)); [done|].
  pose proof (Z.mod_pos_bound (nS y) c).
  destruct (get_range_Some (sq_mem y) (nS y mod c * 64) 64) as [x ->]; [lia|]. done.
Qed.

Lemma cq_slot_present : exists raw, get_range (cq_mem y) ((nT y mod d) * 16) 16 = Some raw.
Proof using Hi Hd.
  apply get_range_Some. rewrite (i_cq_len _ _ _ Hi). pose proof (Z.mod_pos_bound (nT y) d). lia.
Qed.

(** What the driver finds at its head: the next completion, or a slot of the previous lap. *)
Lemma try_take_exact raw :
  get_range (cq_mem y) ((nT y mod d) * 16) 16 = Some raw ->
  try_take raw (mkCq d (nT y mod d) (lap_phase d (nT y))) =
  Done (match posted y !! length (taken y) with
        | Some f => (Some f, mkCq d ((nT y + 1) mod d) (lap_phase d (nT y + 1)))
        | None => (None, mkCq d (nT y mod d) (lap_phase d (nT y)))
        end).
Proof using Hi Hd.
  intros Hraw. unfold try_take. cbn [expected_phase head cq_capacity].
  destruct (posted y !! length (taken y)) as [f|] eqn:Hp.
  - destruct (i_cq_mem _ _ _ Hi (length (taken y)) f ltac:(lia) Hp) as [Hph (raw' & Hraw' & <-)].
    rewrite Hraw in Hraw'. injection Hraw' as <-. rewrite Hph, Bool.eqb_reflx. simpl.
    pose proof (Z.mod_pos_bound (nT y) d). rewrite add_uint_Done by lia. simpl. do 2 f_equal.
    pose proof (next_slot_mod d (nT y) Hd ltac:(lia)) as Hn. unfold next_slot in Hn.
    rewrite add_uint_Done in Hn by lia. simpl in Hn. injection Hn as Hn. rewrite lap_phase_next, <- Hn by lia.
    by case_match.
  - apply lookup_ge_None in Hp. pose proof (i_cq_window _ _ _ Hi).
    destruct (i_cq_old _ _ _ Hi (nT y)) as (raw' & Hraw' & Hph); [lia|].
    rewrite Hraw in Hraw'. injection Hraw' as <-. rewrite Hph. by destruct (lap_phase d (nT y)).
Qed.

Lemma drain_exact :
  drain_completion (drv y) (regs y) (cq_mem y) =
  Done (match posted y !! length (taken y) with
        | Some f =>
            (Ok (Some f),
             (mkPair (update_head (sq_head f) (sq (drv y))) (mkCq d ((nT y + 1) mod d) (lap_phase d (nT y + 1))) ds q,
              <[cq_db := (nT y + 1) mod d]> (regs y)))
        | None => (Ok None, (drv y, regs y))
        end).
Proof using Hi Hd Hq Hds.
  destruct cq_slot_present as [raw Hraw]. pose proof (i_cq_len _ _ _ Hi) as Hlen.
  unfold drain_completion. rewrite (i_drv _ _ _ Hi). cbn [sq cq dstrd qid cq_capacity head].
  unfold checked_mul, ADMIN_CQE_BYTES. rewrite (proj2 (Z.ltb_lt (d * 16) _)) by lia.
  rewrite (proj2 (Z.ltb_ge _ (d * 16))) by lia. rewrite cq_doorbell_ok, Hraw, (try_take_exact raw Hraw).
  simpl. by destruct (posted y !! length (taken y)).
Qed.

End Moves.
(** ** Preservation *)

Lemma doorbell_insert dr pg cqm m off v hd tl ph su fe po ta off' :
  doorbell (mkSys dr pg cqm (<[off := v]> m) hd tl ph su fe po ta) off' =
  if decide (off' = off) then v else default 0 (m !! off').
Proof using.
  unfold doorbell. cbn [regs]. destruct (decide (off' = off)) as [->|]; [by rewrite lookup_insert_eq|].
  by rewrite lookup_insert_ne.
Qed.

Lemma submit_inv y nR heads sqe :
  sys_inv y nR heads -> length sqe = 64%nat -> nS y <> nR + (c - 1) ->
  sys_inv (mkSys (mkPair (mkSq c ((nS y + 1) mod c) (nR mod c)) (cq (drv y)) ds q)
             (put_range (sq_mem y) ((nS y mod c) * 64) sqe) (cq_mem y) (<[sq_db := (nS y + 1) mod c]> (regs y))
             (c_sq_head y) (c_cq_tail y) (c_phase y) (submitted y ++ [sqe]) (fetched y) (posted y) (taken y)) nR heads.
Proof using Hc Hds.
  intros Hi Hl Hnf. destruct (i_window _ _ _ Hi) as [HR HF]. pose proof (Z.mod_pos_bound (nS y) c) as Hb.
  assert (Z.of_nat (length (submitted y ++ [sqe])) = nS y + 1) as HS by len.
  split; cbn [drv sq_mem cq_mem c_sq_head c_cq_tail c_phase submitted fetched posted taken];
    rewrite ?HS; try apply Hi.
  - by rewrite (i_drv _ _ _ Hi).
  - lia.
  - rewrite doorbell_insert, decide_True by done. done.
  - rewrite doorbell_insert, decide_False by (symmetry; apply doorbells_distinct). apply (i_cq_db _ _ _ Hi).
  - apply prefix_app_r, (i_fetched _ _ _ Hi).
  - rewrite length_put_range by lia. apply (i_sq_len _ _ _ Hi).
  - intros k e Hk He. pose proof (Z.mod_pos_bound (Z.of_nat k) c).
    apply lookup_snoc_Some in He as [[Hlt He]|[Hkl <-]].
    + rewrite get_put_other; try lia; [by apply (i_sq_mem _ _ _ Hi)|].
      assert (Z.of_nat k mod c <> nS y mod c); [|lia].
      intros He'. apply slot_inj in He'; lia.
    + subst k. apply get_put_same; [lia|lia|]. rewrite (i_sq_len _ _ _ Hi). lia.
Qed.

Lemma fetch_inv y nR heads sqe :
  sys_inv y nR heads -> c_sq_head y <> doorbell y sq_db -> get_range (sq_mem y) (c_sq_head y * 64) 64 = Some sqe ->
  sys_inv (mkSys (drv y) (sq_mem y) (cq_mem y) (regs y) ((c_sq_head y + 1) mod c) (c_cq_tail y) (c_phase y)
             (submitted y) (fetched y ++ [sqe]) (posted y) (taken y)) nR heads.
Proof using Hc.
  intros Hi Hne Hget. destruct (i_window _ _ _ Hi) as [HR HF].
  rewrite (i_head _ _ _ Hi), (i_sq_db _ _ _ Hi) in Hne.
  assert (nF y < nS y) as Hlt by (destruct (decide (nF y = nS y)); [congruence|lia]).
  assert (Z.of_nat (length (fetched y ++ [sqe])) = nF y + 1) as HF1 by len.
  destruct (lookup_lt_is_Some_2 (submitted y) (length (fetched y))) as [e He]; [lia|].
  pose proof (i_sq_mem _ _ _ Hi (length (fetched y)) e ltac:(lia) He) as He'.
  rewrite (i_head _ _ _ Hi), He' in Hget. injection Hget as ->.
  split; cbn [drv sq_mem cq_mem c_sq_head c_cq_tail c_phase submitted fetched posted taken];
    rewrite ?HF1; try apply Hi.
  - lia.
  - rewrite (i_head _ _ _ Hi). by rewrite Z.add_mod_idemp_l by lia.
  - destruct (i_fetched _ _ _ Hi) as [rest Hrest]. rewrite Hrest in He |- *.
    rewrite lookup_app_r, Nat.sub_diag in He by lia. destruct rest as [|x rest]; [done|]. injection He as ->.
    exists rest. by rewrite <- app_assoc.
  - intros k e Hk. apply (i_sq_mem _ _ _ Hi). lia.
  - intros k g Hg. pose proof (i_heads_le _ _ _ Hi k g Hg). lia.
Qed.

Lemma post_inv y nR heads raw :
  sys_inv y nR heads -> length raw = 16%nat -> (c_cq_tail y + 1) mod d <> doorbell y cq_db ->
  sq_head (parse_admin_cqe raw) = c_sq_head y -> phase (parse_admin_cqe raw) = c_phase y ->
  sys_inv (mkSys (drv y) (sq_mem y) (put_range (cq_mem y) (c_cq_tail y * 16) raw) (regs y) (c_sq_head y)
             ((c_cq_tail y + 1) mod d) (if c_cq_tail y + 1 =? d then negb (c_phase y) else c_phase y)
             (submitted y) (fetched y) (posted y ++ [parse_admin_cqe raw]) (taken y)) nR (heads ++ [nF y]).
Proof using Hd.
  intros Hi Hl Hne Hhead Hph. pose proof (i_cq_window _ _ _ Hi) as Hw. pose proof (Z.mod_pos_bound (nP y) d) as Hb.
  pose proof (i_cq_len _ _ _ Hi) as Hlen. destruct (i_window _ _ _ Hi) as [HR HF].
  rewrite (i_tail _ _ _ Hi), (i_cq_db _ _ _ Hi), Z.add_mod_idemp_l in Hne by lia.
  assert (nP y + 1 <= nT y + (d - 1)) as Hroom.
  { destruct (decide (nP y = nT y + (d - 1))) as [He|]; [|lia]. destruct Hne. rewrite He.
    replace (nT y + (d - 1) + 1) with (nT y + d) by lia. by destruct (slot_lap d (nT y)) as [-> _]; [lia|]. }
  pose proof (Forall2_length _ _ _ (i_heads _ _ _ Hi)) as Hgl.
  assert (Z.of_nat (length (posted y ++ [parse_admin_cqe raw])) = nP y + 1) as HP by (rewrite length_app; cbn [length]; lia).
  split; cbn [drv sq_mem cq_mem c_sq_head c_cq_tail c_phase submitted fetched posted taken];
    rewrite ?HP, ?(i_tail _ _ _ Hi); try apply Hi.
  - by rewrite Z.add_mod_idemp_l by lia.
  - rewrite lap_phase_next, (i_phase _ _ _ Hi) by lia. done.
  - lia.
  - apply prefix_app_r, (i_taken _ _ _ Hi).
  - by rewrite length_put_range by lia.
  - intros k f Hk Hf. pose proof (Z.mod_pos_bound (Z.of_nat k) d).
    apply lookup_snoc_Some in Hf as [[Hlt Hf]|[-> <-]].
    + destruct (i_cq_mem _ _ _ Hi k f Hk Hf) as [Hpf (raw' & Hraw & Hp)]. split; [done|]. exists raw'. split; [|done].
      rewrite get_put_other; [done|lia..|]. assert (Z.of_nat k mod d <> nP y mod d); [|lia].
      intros He. apply slot_inj in He; lia.
    + split; [by rewrite Hph, (i_phase _ _ _ Hi)|]. exists raw. split; [|done]. apply get_put_same; lia.
  - intros k Hk. destruct (i_cq_old _ _ _ Hi k) as (raw' & Hraw & Hp); [lia|]. exists raw'. split; [|done].
    pose proof (Z.mod_pos_bound k d). rewrite get_put_other; [done|lia..|].
    assert (nP y mod d <> k mod d); [|lia]. intros He. apply slot_inj in He; lia.
  - apply Forall2_app; [apply Hi|]. constructor; [|constructor]. by rewrite Hhead, (i_head _ _ _ Hi).
  - intros k g Hg. apply lookup_snoc_Some in Hg as [[_ Hg]|[_ <-]]; [by apply (i_heads_le _ _ _ Hi k)|lia].
  - intros k g Hk Hg. apply lookup_snoc_Some in Hg as [[_ Hg]|[_ <-]]; [by apply (i_heads_ge _ _ _ Hi k)|lia].
  - intros k k' g g' Hkk Hg Hg'. apply lookup_snoc_Some in Hg as [[Hk Hg]|[Hk <-]], Hg' as [[Hk' Hg']|[Hk' <-]];
      [by eapply (i_heads_mono _ _ _ Hi k k')|by apply (i_heads_le _ _ _ Hi k)|lia|lia].
Qed.

Lemma drain_inv y nR heads f :
  sys_inv y nR heads -> posted y !! length (taken y) = Some f ->
  exists nR', sys_inv (mkSys
     (mkPair (update_head (sq_head f) (sq (drv y))) (mkCq d ((nT y + 1) mod d) (lap_phase d (nT y + 1))) ds q)
     (sq_mem y) (cq_mem y) (<[cq_db := (nT y + 1) mod d]> (regs y)) (c_sq_head y) (c_cq_tail y) (c_phase y)
     (submitted y) (fetched y) (posted y) (taken y ++ [f])) nR' heads.
Proof using Hc Hd Hds.
  intros Hi Hf. destruct (i_window _ _ _ Hi) as [HR HF]. pose proof (i_cq_window _ _ _ Hi) as Hw.
  destruct (Forall2_lookup_l _ _ _ _ _ (i_heads _ _ _ Hi) Hf) as (g & Hg & Hsh).
  pose proof (i_heads_ge _ _ _ Hi _ g ltac:(reflexivity) Hg) as Hge. pose proof (i_heads_le _ _ _ Hi _ g Hg) as Hle.
  assert (Z.of_nat (length (taken y ++ [f])) = nT y + 1) as HT by len.
  apply lookup_lt_Some in Hf as Hlt. exists g.
  split; cbn [drv sq_mem cq_mem c_sq_head c_cq_tail c_phase submitted fetched posted taken];
    rewrite ?HT; try apply Hi.
  - rewrite (i_drv _ _ _ Hi). unfold update_head. simpl. rewrite Hsh. by rewrite Z.mod_mod by lia.
  - lia.
  - rewrite doorbell_insert, decide_False by apply doorbells_distinct. apply (i_sq_db _ _ _ Hi).
  - rewrite doorbell_insert, decide_True by done. done.
  - lia.
  - destruct (i_taken _ _ _ Hi) as [rest Hrest]. rewrite Hrest in Hf |- *.
    rewrite lookup_app_r, Nat.sub_diag in Hf by lia. destruct rest as [|x rest]; [done|]. injection Hf as ->.
    exists rest. by rewrite <- app_assoc.
  - intros k f' Hk. apply (i_cq_mem _ _ _ Hi). lia.
  - intros k Hk. destruct (decide (k = nT y + d)) as [->|]; [|apply (i_cq_old _ _ _ Hi); lia].
    destruct (slot_lap d (nT y)) as [-> _]; [lia|].
    destruct (i_cq_mem _ _ _ Hi (length (taken y)) f ltac:(lia) Hf) as [Hp (raw & Hraw & <-)].
    exists raw. split; [done|]. by rewrite lap_phase_wrap, Hp, negb_involutive by lia.
  - intros k g' Hk Hg'. eapply (i_heads_mono _ _ _ Hi (length (taken y)) k); [lia|done|done].
Qed.

Lemma sys_step_inv y y' : sys_step y y' -> (exists nR heads, sys_inv y nR heads) -> exists nR heads, sys_inv y' nR heads.
Proof using Hc Hd Hq Hds.
  intros Hst (nR & heads & Hi). destruct Hst as [sqe r dr m pg Hl Hs|r dr m Hdr|sqe Hne Hget|f rsv crd Hok Hne Hh Hp].
  - rewrite (submit_exact y nR heads Hi sqe Hl) in Hs. destruct (Z.eqb_spec (nS y) (nR + (c - 1))) as [He|He];
      injection Hs as <- <- <- <-.
    + exists nR, heads. by destruct y.
    + exists nR, heads. by apply submit_inv.
  - rewrite (drain_exact y nR heads Hi) in Hdr. destruct (posted y !! length (taken y)) as [f|] eqn:Hf;
      injection Hdr as <- <- <-.
    + destruct (drain_inv y nR heads f Hi Hf) as [nR' Hi']. by exists nR', heads.
    + exists nR, heads. by destruct y.
  - exists nR, heads. by apply fetch_inv.
  - exists nR, (heads ++ [nF y]). pose proof (parse_completion f rsv crd Hok) as Ef.
    assert (length (completion_entry f rsv crd) = 16%nat) as Hl by (unfold completion_entry; by rewrite !length_app, !length_to_le).
    rewrite <- Ef in Hh, Hp. pose proof (post_inv y nR heads (completion_entry f rsv crd) Hi Hl Hne Hh Hp) as H. by rewrite Ef in H.
Qed.

Lemma sys_reach_inv y : rtc sys_step sys_init y -> exists nR heads, sys_inv y nR heads.
Proof using Hc Hd Hq Hds.
  intros Hr. eapply (reach_inv sys_step (fun y => exists nR heads, sys_inv y nR heads)); [apply sys_step_inv| |exact Hr].
  exists 0, []. apply sys_init_inv.
Qed.

End Protocol.

(** ** Theorems *)

Lemma new_for_qid_ok q c d ds p :
  0 <= c -> 0 <= d -> new_for_qid q c d ds = Ok p ->
  0 < c <= 65535 /\ 0 < d <= 65535 /\ p = drv (sys_init c d q ds).
Proof.
  intros Hc Hd. unfold new_for_qid, SqRing_new, CqRing_new.
  destruct (Z.eqb_spec c 0), (Z.ltb_spec 65535 c), (Z.eqb_spec d 0), (Z.ltb_spec 65535 d); simpl; try done.
  intros [= <-]. split_and!; [lia..|done].
Qed.

(** C20. The queue pair against a controller that follows the specification,
    in every interleaving of submissions, drains, fetches and completions:
    the controller fetches exactly the submitted entries in order, so no
    entry is overwritten before it is fetched, and at most [capacity - 1] are
    outstanding; a drain never fails nor panics, and returns the next posted
    completion, with the fields the controller put into its entry, if there is
    one and nothing otherwise, so every completion is
    taken exactly once and in order across the laps of the ring; a submission
    never panics, is refused only with [Full], exactly when the entries the
    driver does not know to be fetched fill the ring, and otherwise goes to a
    slot no outstanding entry occupies. *)
Theorem nvme_queue_protocol q c d ds p y :
  in_uint 32 c -> in_uint 32 d -> in_uint 16 q -> 0 <= ds <= 15 ->
  new_for_qid q c d ds = Ok p -> rtc (sys_step c d q ds) (sys_init c d q ds) y ->
  let nS := Z.of_nat (length (submitted y)) in
  let nF := Z.of_nat (length (fetched y)) in
  fetched y `prefix_of` submitted y /\ taken y `prefix_of` posted y /\
  0 <= nS - nF <= c - 1 /\
  (exists s, drain_completion (drv y) (regs y) (cq_mem y) = Done (Ok (posted y !! length (taken y)), s)) /\
  exists nR, 0 <= nR <= nF /\ head_observed (sq (drv y)) = nR mod c /\
    forall sqe, length sqe = 64%nat ->
      if nS =? nR + (c - 1) then submit sqe (drv y) (regs y) (sq_mem y) = Done (Err Full, (drv y, regs y, sq_mem y))
      else (exists s, submit sqe (drv y) (regs y) (sq_mem y) = Done (Ok (nS mod c), s)) /\
           forall k, nF <= k < nS -> k mod c <> nS mod c.
Proof.
  intros Hc Hd Hq Hds Hnew Hr. cbn zeta. unfold in_uint in *.
  destruct (new_for_qid_ok q c d ds p ltac:(lia) ltac:(lia) Hnew) as (Hc' & Hd' & _).
  destruct (sys_reach_inv c d q ds Hc' Hd' ltac:(lia) Hds y Hr) as (nR & heads & Hi).
  destruct (i_window _ _ _ _ _ _ _ Hi) as [HR HF]. split_and!; [apply Hi|apply Hi|lia|lia| |].
  - rewrite (drain_exact c d q ds Hd' ltac:(lia) Hds y nR heads Hi). destruct (posted y !! _); eauto.
  - exists nR. split_and!; [lia|lia|by rewrite (i_drv _ _ _ _ _ _ _ Hi)|]. intros sqe Hl.
    rewrite (submit_exact c d q ds Hc' ltac:(lia) Hds y nR heads Hi sqe Hl). case_match eqn:He; [done|]. zbool.
    split; [by eauto|]. intros k Hk Hm. apply slot_inj in Hm; lia.
Qed.

Definition demo_sqe : bytes := encode_flush 1 7.
Definition demo_sys : System :=
  match submit demo_sqe (drv (sys_init 2 2 0 0)) ∅ (sq_mem (sys_init 2 2 0 0)) with
  | Done (_, (dr, m, pg)) => mkSys dr pg (replicate 32 0) m 0 0 true [demo_sqe] [] [] []
  | Panic => sys_init 2 2 0 0
  end.

Lemma nvme_queue_protocol_witness :
  submitted demo_sys = [demo_sqe] /\ fetched demo_sys `prefix_of` submitted demo_sys /\
  0 <= Z.of_nat (length (submitted demo_sys)) - Z.of_nat (length (fetched demo_sys)) <= 1 /\
  (exists s, drain_completion (drv demo_sys) (regs demo_sys) (cq_mem demo_sys) = Done (Ok None, s)).
Proof.
  assert (rtc (sys_step 2 2 0 0) (sys_init 2 2 0 0) demo_sys) as Hr.
  { apply rtc_once. refine (drv_submit 2 2 0 0 (sys_init 2 2 0 0) demo_sqe (Ok 0) (drv demo_sys) (regs demo_sys)
      (sq_mem demo_sys) _ _); vm_compute; reflexivity. }
  destruct (nvme_queue_protocol 0 2 2 0 (drv (sys_init 2 2 0 0)) demo_sys) as (H1 & _ & H3 & H4 & _);
    [unfold in_uint; lia..|vm_compute; reflexivity|exact Hr|].
  split; [vm_compute; reflexivity|]. split; [exact H1|]. split; [exact H3|exact H4].
Defined.

(** Any sequence of operations on a submission ring. *)
Inductive sq_step (r : SqRing) : SqRing -> Prop :=
| sq_do_submit o r' : sq_submit r = Done (o, r') -> sq_step r r'
| sq_do_update h : 0 <= h < 2 ^ 16 -> sq_step r (update_head h r).

(** C39. Whatever 16-bit heads a controller reports, a submission ring built by
    the constructor stays well formed: the indices are below the capacity, no
    operation panics, and a submission that is accepted returns the old tail
    and leaves at most [capacity - 1] slots in use.  The constructor accepts a
    capacity exactly when it is from 1 to 65535. *)
Theorem sq_ring_well_formed capacity :
  in_uint 32 capacity ->
  ((exists r0, SqRing_new capacity = Ok r0) <-> 1 <= capacity <= 65535) /\
  forall r0 r, SqRing_new capacity = Ok r0 -> rtc sq_step r0 r ->
  sq_capacity r = capacity /\ 0 <= tail r < capacity /\ 0 <= head_observed r < capacity /\
  usable_capacity r = Done (capacity - 1) /\
  exists o r', sq_submit r = Done (o, r') /\
    match o with
    | Some slot => slot = tail r /\ tail r' = (tail r + 1) mod capacity /\ sq_is_empty r' = false /\
        1 <= (tail r' - head_observed r') mod capacity <= capacity - 1
    | None => r' = r /\ (tail r - head_observed r) mod capacity = capacity - 1
    end.
Proof.
  unfold in_uint. intros Hcap. split.
  { unfold SqRing_new. destruct (Z.eqb_spec capacity 0), (Z.ltb_spec 65535 capacity); (split; [intros [r0 Hnew]; first [done|lia]|intros; first [lia|eauto]]). }
  intros r0 r Hnew Hr.
  assert (1 <= capacity <= 65535 /\ r0 = mkSq capacity 0 0) as [Hb ->].
  { revert Hnew. unfold SqRing_new. destruct (Z.eqb_spec capacity 0), (Z.ltb_spec 65535 capacity); try done.
    intros [= <-]. split; [lia|done]. }
  pose (P := fun r => sq_capacity r = capacity /\ 0 <= tail r < capacity /\ 0 <= head_observed r < capacity).
  assert (forall r, P r -> sq_submit r = Done (if (tail r + 1) mod capacity =? head_observed r then (None, r)
      else (Some (tail r), mkSq capacity ((tail r + 1) mod capacity) (head_observed r)))) as Hsub.
  { intros [cp t h] (H1 & H2 & H3). simpl in *. subst cp. unfold sq_submit, sq_is_full. simpl.
    replace (next_slot capacity t) with (Done ((t + 1) mod capacity)).
    { simpl. by destruct (_ =? _). }
    rewrite <- (next_slot_mod capacity t) by lia. by rewrite Z.mod_small by lia. }
  assert (P r) as HP.
  { apply (reach_inv sq_step P (mkSq capacity 0 0) r); [|unfold P; simpl; lia|exact Hr]. intros s s' Hs HPs. pose proof HPs as (H1 & H2 & H3).
    pose proof (Z.mod_pos_bound (tail s + 1) capacity). destruct Hs as [o r' Hs|h Hh].
    - rewrite (Hsub s HPs) in Hs. destruct (_ =? _); injection Hs as <- <-; [done|unfold P; simpl; lia].
    - unfold P, update_head. simpl. rewrite H1. pose proof (Z.mod_pos_bound h capacity). lia. }
  pose proof HP as (H1 & H2 & H3). split_and!; try lia.
  { unfold usable_capacity. rewrite H1. apply sub_uint_Done. lia. }
  pose proof (Z.mod_pos_bound (tail r + 1) capacity ltac:(lia)) as Hm.
  rewrite (Hsub r HP). destruct (Z.eqb_spec ((tail r + 1) mod capacity) (head_observed r)) as [He|He].
  - do 2 eexists. split; [reflexivity|]. split; [done|]. rewrite <- He.
    rewrite Zminus_mod_idemp_r. replace (tail r - (tail r + 1)) with (-1) by lia.
    symmetry. apply Z.mod_unique with (-1); lia.
  - do 2 eexists. split; [reflexivity|]. unfold sq_is_empty. cbn [tail head_observed].
    split_and!; [done|done|by apply Z.eqb_neq| |].
    + set (x := (tail r + 1) mod capacity) in *. pose proof (Z.mod_pos_bound (x - head_observed r) capacity).
      assert ((x - head_observed r) mod capacity <> 0); [|lia]. intros Hz.
      apply Z.mod_divide in Hz as [k Hk]; [|lia]. assert (k = 0) by nia. lia.
    + pose proof (Z.mod_pos_bound ((tail r + 1) mod capacity - head_observed r) capacity). lia.
Qed.

Lemma sq_ring_well_formed_witness :
  exists o r', sq_submit (mkSq 4 0 0) = Done (o, r') /\ 0 <= tail (mkSq 4 0 0) < 4 /\ o = Some 0.
Proof.
  destruct (sq_ring_well_formed 4) as [_ H]; [unfold in_uint; lia|].
  destruct (H (mkSq 4 0 0) (mkSq 4 0 0)) as (_ & Ht & _ & _ & o & r' & Hs & Ho); [vm_compute; reflexivity|apply rtc_refl|].
  exists o, r'. split; [exact Hs|]. split; [exact Ht|]. vm_compute in Hs. injection Hs as <- _. reflexivity.
Defined.
