(* ===== verification/NvmeIo.v ===== *)
(** * NVMe commands, transfers and bring-up

    The upper half of [src/crates/nexacore-driver-nvme]: physical region
    pages of a transfer ([transfer_model.rs]), block requests and responses
    ([blk_gateway.rs]), the admin and I/O sessions over a queue pair
    ([admin_session.rs], [io_session.rs]), identify pages and the namespace
    map ([identify.rs], [namespace_map.rs]), the retry policy ([io_error.rs])
    and the bring-up automaton ([bringup.rs], [bringup_live.rs]). *)

From S2P Require Import Prelude Nvme.

(** ** Transfers *)

Definition PRP_PAGE_SIZE : Z := 4096.
Definition MAX_BLOCK_COUNT_PER_COMMAND : Z := 2048.
Definition PRP_ENTRY_BYTES : Z := 8.
Definition PRP_ENTRIES_PER_LIST_PAGE : Z := PRP_PAGE_SIZE / PRP_ENTRY_BYTES.

Definition is_prp_aligned (iova : Z) : bool := Z.land iova (PRP_PAGE_SIZE - 1) =? 0.
Definition block_payload_bytes (block_count : Z) : option Z := checked_mul 64 block_count PRP_PAGE_SIZE.

Inductive PrpLayout := SinglePage | TwoPages | PrpList (n_entries : Z).

Definition div_ceil (a b : Z) : Z := if a mod b =? 0 then a / b else a / b + 1.

Definition prp_layout (len : Z) : PrpLayout :=
  if len <=? PRP_PAGE_SIZE then SinglePage
  else if len <=? 2 * PRP_PAGE_SIZE then TwoPages
  else PrpList (div_ceil (len - PRP_PAGE_SIZE) PRP_PAGE_SIZE).

Definition prp1_for (buffer_iova : Z) : Z := buffer_iova.
Definition prp2_for (buffer_iova : Z) (layout : PrpLayout) (list_page_iova : Z) : Z :=
  match layout with
  | SinglePage => 0
  | TwoPages => wrapping_add 64 buffer_iova PRP_PAGE_SIZE
  | PrpList _ => list_page_iova
  end.

Inductive PrpError := ListBufferTooSmall | TooManyEntries.

(** [for (i, chunk) in entries_slice.chunks_exact_mut(8).enumerate()], from entry [i]. *)
Fixpoint write_entries (buffer_iova : Z) (n i : nat) (dest : bytes) : bytes :=
  match n with
  | O => dest
  | S n =>
      let page_index := wrapping_add 64 (Z.of_nat i) 1 in
      let entry := wrapping_add 64 buffer_iova (wrapping_mul 64 page_index PRP_PAGE_SIZE) in
      write_entries buffer_iova n (S i) (put_range dest (Z.of_nat i * PRP_ENTRY_BYTES) (to_le 8 entry))
  end.

Definition write_prp_list_entries (buffer_iova n_entries : Z) (dest : bytes) : result PrpError bytes :=
  if PRP_ENTRIES_PER_LIST_PAGE <? n_entries then Err TooManyEntries
  else
    let needed := saturating_mul 64 n_entries PRP_ENTRY_BYTES in
    if Z.of_nat (length dest) <? needed then Err ListBufferTooSmall
    else Ok (write_entries buffer_iova (Z.to_nat n_entries) 0 dest).

Inductive PrpDeriveError :=
| BufferMisaligned | ZeroBlockCount | TooManyBlocks | PrpListPageMissing | PrpListPageMisaligned.

Definition derive_prp_pair_for_blocks (buf_iova block_count list_page_iova : Z) :
  result PrpDeriveError (PrpLayout * Z * Z) :=
  if negb (is_prp_aligned buf_iova) then Err BufferMisaligned
  else if block_count =? 0 then Err ZeroBlockCount
  else if MAX_BLOCK_COUNT_PER_COMMAND <? block_count then Err TooManyBlocks
  else
    match block_payload_bytes block_count with
    | None => Err TooManyBlocks
    | Some len =>
        let layout := prp_layout len in
        let ok := Ok (layout, prp1_for buf_iova, prp2_for buf_iova layout list_page_iova) in
        match layout with
        | PrpList _ =>
            if list_page_iova =? 0 then Err PrpListPageMissing
            else if negb (is_prp_aligned list_page_iova) then Err PrpListPageMisaligned
            else ok
        | _ => ok
        end
    end.

(** ** Block requests *)

Inductive BlkRequest :=
| BlkRead (lba count buf_iova : Z)
| BlkWrite (lba count buf_iova : Z)
| BlkFlush
| BlkDiscard (lba count : Z).

Inductive BlkResponse := BlkOk | BlkNotSupported | BlkDeviceError (status : Z) | BlkOutOfRange | BlkInvalidArgument.

Definition NON_NVME_DEVICE_ERROR : Z := 0xFFFF.

Definition encode_blk_request (req : BlkRequest) (cid nsid prp1 prp2 : Z) : option bytes :=
  match req with
  | BlkRead lba count _ => Some (encode_read nsid lba count prp1 prp2 cid)
  | BlkWrite lba count _ => Some (encode_write nsid lba count prp1 prp2 cid)
  | BlkFlush => Some (encode_flush nsid cid)
  | BlkDiscard lba count => Some (encode_discard nsid lba count prp1 cid)
  end.

Definition cqe_to_blk_response (f : AdminCqeFields) : BlkResponse :=
  if is_success f then BlkOk
  else
    let other :=
      let status := Z.lor (Z.shiftl (sct f) 8) (sc f) in
      if status =? 0 then BlkDeviceError NON_NVME_DEVICE_ERROR else BlkDeviceError status in
    if sct f =? 0 then
      if (sc f =? 0x02) || (sc f =? 0x0B) then BlkInvalidArgument
      else if sc f =? 0x80 then BlkOutOfRange
      else other
    else other.

(** ** Sessions *)

Record Session := mkSession {
  queue_pair : AdminQueuePair;
  s_sq_page : bytes;
  s_cq_page : bytes;
  next_cid : Z;
}.

Definition Session_new (r : result QueueError AdminQueuePair) (sq_depth cq_depth : Z) : result QueueError Session :=
  p ← r;
  Ok (mkSession p (replicate (Z.to_nat (sq_depth * ADMIN_SQE_BYTES)) 0)
        (replicate (Z.to_nat (cq_depth * ADMIN_CQE_BYTES)) 0) 1).
Definition AdminSession_new (sq_depth cq_depth ds : Z) : result QueueError Session :=
  Session_new (AdminQueuePair_new sq_depth cq_depth ds) sq_depth cq_depth.
Definition IoSession_new (q sq_depth cq_depth ds : Z) : result QueueError Session :=
  Session_new (new_for_qid q sq_depth cq_depth ds) sq_depth cq_depth.

(** [self.next_cid.checked_add(1).unwrap_or(1)] *)
Definition allocate_cid (s : Session) : Z * Session :=
  let cid := next_cid s in
  (cid, mkSession (queue_pair s) (s_sq_page s) (s_cq_page s) (default 1 (checked_add 16 cid 1))).

Section Sessions.
Context {M : Type} `{!MmioBackend M}.

(** Allocate a command identifier, encode, submit.  The namespace an I/O
    session is bound to is an argument of its operations. *)
Definition submit_command (encode : Z -> bytes) (s : Session) (m : M) : exec (result QueueError Z * (Session * M)) :=
  let '(cid, s) := allocate_cid s in
  r ← submit (encode cid) (queue_pair s) m (s_sq_page s);
  let '(r, (p, m, pg)) := r in
  let s := mkSession p pg (s_cq_page s) (next_cid s) in
  Done (match r with Ok _ => Ok cid | Err e => Err e end, (s, m)).

Definition submit_identify (target : IdentifyTarget) (buf_iova : Z) :=
  submit_command (fun cid => encode_identify target buf_iova 0 cid).
Definition submit_identify_controller (buf_iova : Z) := submit_identify Controller buf_iova.
Definition submit_identify_namespace (nsid buf_iova : Z) := submit_identify (Namespace nsid) buf_iova.
Definition submit_identify_active_ns_list (buf_iova : Z) := submit_identify ActiveNsList buf_iova.
Definition submit_create_io_cq (q qsize prp1 irq_vector : Z) :=
  submit_command (fun cid => encode_create_io_cq q qsize prp1 irq_vector true true cid).
Definition submit_create_io_sq (q qsize prp1 cq_id queue_priority : Z) :=
  submit_command (fun cid => encode_create_io_sq q qsize prp1 cq_id queue_priority true cid).

(** [for _ in 0..poll_limit]: completions for other commands are dropped. *)
Fixpoint poll_for_cid (c : Z) (polls : nat) (s : Session) (m : M) :
  exec (result QueueError (option AdminCqeFields) * (Session * M)) :=
  match polls with
  | O => Done (Ok None, (s, m))
  | S polls =>
      r ← drain_completion (queue_pair s) m (s_cq_page s);
      let '(r, (p, m)) := r in
      let s := mkSession p (s_sq_page s) (s_cq_page s) (next_cid s) in
      match r with
      | Err e => Done (Err e, (s, m))
      | Ok (Some f) => if cid f =? c then Done (Ok (Some f), (s, m)) else poll_for_cid c polls s m
      | Ok None => poll_for_cid c polls s m
      end
  end.
Definition poll_completion_for_cid (c poll_limit : Z) (s : Session) (m : M) := poll_for_cid c (Z.to_nat poll_limit) s m.

(** Submit, then poll for the command's own completion. *)
Definition run_command (sub : Session -> M -> exec (result QueueError Z * (Session * M))) (poll_limit : Z)
  (s : Session) (m : M) : exec (result QueueError AdminCqeFields * (Session * M)) :=
  r ← sub s m;
  match r with
  | (Err e, sm) => Done (Err e, sm)
  | (Ok c, (s, m)) =>
      r ← poll_completion_for_cid c poll_limit s m;
      match r with
      | (Err e, sm) => Done (Err e, sm)
      | (Ok None, sm) => Done (Err IdentifyCompletionTimeout, sm)
      | (Ok (Some f), sm) => Done (Ok f, sm)
      end
  end.
Definition run_identify_controller (buf_iova : Z) := run_command (submit_identify_controller buf_iova).
Definition run_identify_namespace (nsid buf_iova : Z) := run_command (submit_identify_namespace nsid buf_iova).
Definition run_identify_active_ns_list (buf_iova : Z) := run_command (submit_identify_active_ns_list buf_iova).
Definition run_create_io_cq (q qsize prp1 irq_vector : Z) := run_command (submit_create_io_cq q qsize prp1 irq_vector).
Definition run_create_io_sq (q qsize prp1 cq_id queue_priority : Z) :=
  run_command (submit_create_io_sq q qsize prp1 cq_id queue_priority).

Definition submit_blk_request (req : BlkRequest) (nsid prp1 prp2 : Z) (s : Session) (m : M) :
  exec (result QueueError (option Z) * (Session * M)) :=
  let '(c, s1) := allocate_cid s in
  match encode_blk_request req c nsid prp1 prp2 with
  | None => Done (Ok None, (s1, m))
  | Some sqe =>
      r ← submit sqe (queue_pair s1) m (s_sq_page s1);
      let '(r, (p, m, pg)) := r in
      Done (match r with Ok _ => Ok (Some c) | Err e => Err e end, (mkSession p pg (s_cq_page s1) (next_cid s1), m))
  end.

Inductive IoSubmitError :=
| PrpDerive (e : PrpDeriveError) | QueueErr (e : QueueError) | DiscardRequiresExplicitPrp | UnsupportedRequest.

Definition submit_blk_request_auto (req : BlkRequest) (nsid list_page_iova : Z) (s : Session) (m : M) :
  exec (result IoSubmitError Z * (Session * M)) :=
  let go prp1 prp2 :=
    r ← submit_blk_request req nsid prp1 prp2 s m;
    let '(r, sm) := r in
    Done (match r with
          | Err e => Err (QueueErr e)
          | Ok None => Err UnsupportedRequest
          | Ok (Some c) => Ok c
          end, sm) in
  match req with
  | BlkRead _ count buf_iova | BlkWrite _ count buf_iova =>
      match derive_prp_pair_for_blocks buf_iova count list_page_iova with
      | Err e => Done (Err (PrpDerive e), (s, m))
      | Ok (_, prp1, prp2) => go prp1 prp2
      end
  | BlkFlush => go 0 0
  | BlkDiscard _ _ => Done (Err DiscardRequiresExplicitPrp, (s, m))
  end.

Definition poll_blk_response_for_cid (c poll_limit : Z) (s : Session) (m : M) :
  exec (result QueueError (option BlkResponse) * (Session * M)) :=
  r ← poll_for_cid c (Z.to_nat poll_limit) s m;
  match r with
  | (Ok (Some f), sm) => Done (Ok (Some (cqe_to_blk_response f)), sm)
  | (Ok None, sm) => Done (Ok None, sm)
  | (Err e, sm) => Done (Err e, sm)
  end.

End Sessions.

(** ** Identify pages and namespaces *)

Definition IDENTIFY_RESPONSE_BYTES : Z := 4096.
Definition PHASE_1_REQUIRED_LBADS : Z := 12.
Definition MAX_ACTIVE_NSIDS : nat := 1024.
Definition MAX_NAMESPACE_SLOTS : nat := 16.

Inductive IdentifyError := PageTooSmall | UnsupportedLbads (observed : Z).

Definition check_page (page : bytes) : result IdentifyError bytes :=
  if Z.of_nat (length page) <? IDENTIFY_RESPONSE_BYTES then Err PageTooSmall else Ok page.

Definition read_le (n : Z) (page : bytes) (off : Z) : Z := from_le (default (replicate (Z.to_nat n) 0) (get_range page off n)).
Definition nn (page : bytes) : Z := read_le 4 page 516.
Definition nsze (page : bytes) : Z := read_le 8 page 0.
Definition ncap (page : bytes) : Z := read_le 8 page 8.
Definition flbas (page : bytes) : Z := nth 26 page 0.
Definition active_format_index (page : bytes) : Z := Z.land (flbas page) 0x0F.
Definition lbads (page : bytes) : Z :=
  let lbaf_offset := 128 + active_format_index page * 4 in
  match page !! Z.to_nat (lbaf_offset + 2) with Some b => Z.land b 0x1F | None => 0 end.
Definition validated_byte_size (page : bytes) : result IdentifyError Z :=
  if negb (lbads page =? PHASE_1_REQUIRED_LBADS) then Err (UnsupportedLbads (lbads page))
  else Ok (Z.shiftl (nsze page) (lbads page) mod 2 ^ 64).

(** The iterator over the active namespace list, from entry [i]. *)
Fixpoint iter_nsids (page : bytes) (n i : nat) : list Z :=
  match n with
  | O => []
  | S n =>
      let nsid := read_le 4 page (Z.of_nat i * 4) in
      if nsid =? 0 then [] else nsid :: iter_nsids page n (S i)
  end.
Definition first_active_nsid (page : bytes) : option Z := hd_error (iter_nsids page MAX_ACTIVE_NSIDS 0).

Record NamespaceDescriptor := mkNs { d_nsid : Z; d_nsze : Z; d_ncap : Z; d_lbads : Z; d_byte_size : Z }.
Inductive RejectReason := RejPageTooSmall | RejUnsupportedLbads (observed : Z) | RejZeroSize.
Inductive NamespaceEntry := Valid (desc : NamespaceDescriptor) | Rejected (nsid : Z) (reason : RejectReason).
Inductive NamespaceMapError := NsListPageTooSmall | NoActiveNamespaces.

Definition entry_nsid (e : NamespaceEntry) : Z := match e with Valid de => d_nsid de | Rejected n _ => n end.
Definition entry_valid (e : NamespaceEntry) : bool := match e with Valid _ => true | Rejected _ _ => false end.

Definition validate_namespace (nsid : Z) (page : bytes) : NamespaceEntry :=
  match check_page page with
  | Err PageTooSmall => Rejected nsid RejPageTooSmall
  | Err (UnsupportedLbads o) => Rejected nsid (RejUnsupportedLbads o)
  | Ok v =>
      if nsze v =? 0 then Rejected nsid RejZeroSize
      else
        match validated_byte_size v with
        | Ok size => Valid (mkNs nsid (nsze v) (ncap v) (lbads v) size)
        | Err (UnsupportedLbads o) => Rejected nsid (RejUnsupportedLbads o)
        | Err PageTooSmall => Rejected nsid RejPageTooSmall
        end
  end.

(** The map: the first [len] slots are filled. *)
Record NamespaceMap := mkMap { ns_entries : list NamespaceEntry; total_active : Z; valid_count : Z }.

Section Build.
Context {R : Type} (resolve : Z -> R -> option bytes * R).

Fixpoint build_loop (nsids : list Z) (m : NamespaceMap) (r : R) : NamespaceMap * R :=
  match nsids with
  | [] => (m, r)
  | nsid :: nsids =>
      let m := mkMap (ns_entries m) (total_active m + 1) (valid_count m) in
      if (MAX_NAMESPACE_SLOTS <=? length (ns_entries m))%nat then build_loop nsids m r
      else
        match resolve nsid r with
        | (None, r) => build_loop nsids m r
        | (Some page, r) =>
            let e := validate_namespace nsid page in
            build_loop nsids (mkMap (ns_entries m ++ [e]) (total_active m)
              (if entry_valid e then valid_count m + 1 else valid_count m)) r
        end
  end.

Definition NamespaceMap_build (ns_list_page : bytes) (r : R) : result NamespaceMapError NamespaceMap * R :=
  match check_page ns_list_page with
  | Err _ => (Err NsListPageTooSmall, r)
  | Ok page =>
      let '(m, r) := build_loop (iter_nsids page MAX_ACTIVE_NSIDS 0) (mkMap [] 0 0) r in
      if total_active m =? 0 then (Err NoActiveNamespaces, r) else (Ok m, r)
  end.
End Build.

Definition ns_get (m : NamespaceMap) (nsid : Z) : option NamespaceEntry :=
  snd <$> list_find (fun e => entry_nsid e = nsid) (ns_entries m).
Definition first_valid (m : NamespaceMap) : option NamespaceDescriptor :=
  hd_error (omap (fun e => match e with Valid de => Some de | Rejected _ _ => None end) (ns_entries m)).
Definition is_admitted (m : NamespaceMap) (nsid : Z) : bool :=
  match ns_get m nsid with Some e => entry_valid e | None => false end.

(** ** Bring-up *)

Inductive Phase :=
| PciEnumeration | MmioMap | ReadCap | DisableController | SetupAdminQueues | EnableController
| AttachInterrupts | IdentifyController | IdentifyActiveNsList | IdentifyNamespace | CreateIoQueues
| RegisterBlkChannel | Ready | PhaseFailed.
#[export] Instance Phase_eq_dec : EqDecision Phase.
Proof. solve_decision. Defined.

Definition phase_next (p : Phase) : option Phase :=
  match p with
  | PciEnumeration => Some MmioMap
  | MmioMap => Some ReadCap
  | ReadCap => Some DisableController
  | DisableController => Some SetupAdminQueues
  | SetupAdminQueues => Some EnableController
  | EnableController => Some AttachInterrupts
  | AttachInterrupts => Some IdentifyController
  | IdentifyController => Some IdentifyActiveNsList
  | IdentifyActiveNsList => Some IdentifyNamespace
  | IdentifyNamespace => Some CreateIoQueues
  | CreateIoQueues => Some RegisterBlkChannel
  | RegisterBlkChannel => Some Ready
  | Ready | PhaseFailed => None
  end.
Definition is_terminal (p : Phase) : bool := match p with Ready | PhaseFailed => true | _ => false end.
Definition is_live (p : Phase) : bool := match p with Ready => true | _ => false end.

Inductive BringUpError :=
| NoMatchingDevice | MmioMapFailed | UnsupportedNvmeVersion | UnsupportedPageSize | ControllerReadyTimeout
| BringUpControllerFatal | DmaMapFailed | IrqAttachFailed | AdminCommandFailed | UnsupportedSectorSize
| BlkChannelRegistrationFailed | InvalidManifestQueueDepth | RetryBudgetExhausted | TerminalAdvanceAttempted.

Inductive Event := Advance | Retry | AbortWith (e : BringUpError).

Definition MAX_RETRIES : Z := 3.

Record BringUp := mkBringUp { bu_phase : Phase; retries : Z }.
Definition BringUp_new : BringUp := mkBringUp PciEnumeration 0.

Definition on_event (ev : Event) (b : BringUp) : result BringUpError BringUp * BringUp :=
  match ev with
  | Advance =>
      if is_terminal (bu_phase b) then (Err TerminalAdvanceAttempted, mkBringUp PhaseFailed 0)
      else
        let b := match phase_next (bu_phase b) with Some n => mkBringUp n 0 | None => b end in
        (Ok b, b)
  | Retry =>
      if is_terminal (bu_phase b) then (Err TerminalAdvanceAttempted, mkBringUp PhaseFailed (retries b))
      else
        let r := saturating_add 8 (retries b) 1 in
        if MAX_RETRIES <=? r then (Err RetryBudgetExhausted, mkBringUp PhaseFailed 0)
        else (Ok (mkBringUp (bu_phase b) r), mkBringUp (bu_phase b) r)
  | AbortWith e => (Err e, mkBringUp PhaseFailed 0)
  end.

Inductive StepKind :=
| EnumeratePci | MapControllerRegisters | ReadCapabilities | WriteControllerConfig (v : Z) | AllocateAdminQueues
| AttachMsiXVectors | SubmitIdentifyController | SubmitIdentifyActiveNsList | SubmitIdentifyNamespace
| CreateIoQueuePair | StepRegisterBlkChannel | EnterBlkLoop | ParkExit.

Definition pending_step (b : BringUp) : StepKind :=
  match bu_phase b with
  | PciEnumeration => EnumeratePci
  | MmioMap => MapControllerRegisters
  | ReadCap => ReadCapabilities
  | DisableController => WriteControllerConfig 0
  | SetupAdminQueues => AllocateAdminQueues
  | EnableController => WriteControllerConfig 1
  | AttachInterrupts => AttachMsiXVectors
  | IdentifyController => SubmitIdentifyController
  | IdentifyActiveNsList => SubmitIdentifyActiveNsList
  | IdentifyNamespace => SubmitIdentifyNamespace
  | CreateIoQueues => CreateIoQueuePair
  | RegisterBlkChannel => StepRegisterBlkChannel
  | Ready => EnterBlkLoop
  | PhaseFailed => ParkExit
  end.

Definition bringup_error_for (e : QueueError) : BringUpError :=
  match e with ControllerNotReady => ControllerReadyTimeout | _ => AdminCommandFailed end.

Record CreateIoQueuesConfig := mkIoConfig {
  cq_qid : Z; cq_qsize : Z; cq_prp1 : Z; cq_irq_vector : Z;
  sq_qid : Z; sq_qsize : Z; sq_prp1 : Z; sq_queue_priority : Z;
}.
Definition phase_1_default (cprp1 sprp1 irq : Z) : CreateIoQueuesConfig := mkIoConfig 1 1024 cprp1 irq 1 1024 sprp1 2.

Section Live.
Context {M : Type} `{!MmioBackend M}.

(** The verdict on one admin command: go on, or the event to post. *)
Definition command_event (r : result QueueError AdminCqeFields) : Event :=
  match r with
  | Ok f => if is_success f then Advance else AbortWith AdminCommandFailed
  | Err e => AbortWith (bringup_error_for e)
  end.

Definition advance_create_io_queues (fsm : BringUp) (s : Session) (cfg : CreateIoQueuesConfig) (poll_limit : Z) (m : M) :
  exec (result BringUpError BringUp * (Session * M)) :=
  if bool_decide (bu_phase fsm <> CreateIoQueues) then Done ((on_event Advance fsm).1, (s, m))
  else
    r ← run_create_io_cq (cq_qid cfg) (cq_qsize cfg) (cq_prp1 cfg) (cq_irq_vector cfg) poll_limit s m;
    let '(r, (s, m)) := r in
    match command_event r with
    | Advance =>
        r ← run_create_io_sq (sq_qid cfg) (sq_qsize cfg) (sq_prp1 cfg) (cq_qid cfg) (sq_queue_priority cfg) poll_limit s m;
        let '(r, sm) := r in
        Done ((on_event (command_event r) fsm).1, sm)
    | ev => Done ((on_event ev fsm).1, (s, m))
    end.

Definition advance_with_admin_session (fsm : BringUp) (s : Session) (buf_iova poll_limit : Z) (m : M) :
  exec (result BringUpError BringUp * (Session * M)) :=
  let go run :=
    r ← run poll_limit s m;
    let '(r, sm) := r in
    Done ((on_event (command_event r) fsm).1, sm) in
  match bu_phase fsm with
  | IdentifyController => go (run_identify_controller buf_iova)
  | IdentifyActiveNsList => go (run_identify_active_ns_list buf_iova)
  | IdentifyNamespace => go (run_identify_namespace 1 buf_iova)
  | _ => Done ((on_event Advance fsm).1, (s, m))
  end.

End Live.

(** ** Errors and retries *)

Inductive StatusCodeType := Generic | CommandSpecific | MediaError | PathRelated | VendorSpecific | UnknownSct (raw : Z).
Definition sct_from_raw (s : Z) : StatusCodeType :=
  if s =? 0 then Generic else if s =? 1 then CommandSpecific else if s =? 2 then MediaError
  else if s =? 3 then PathRelated else if s =? 7 then VendorSpecific else UnknownSct s.

Inductive IoError :=
| Timeout (polls_consumed : Z) | ControllerStatus (t : StatusCodeType) (code raw_status : Z)
| Transport (e : QueueError) | NamespaceNotAdmitted (nsid : Z) | IoControllerFatal.
Inductive RetryVerdict := RetryNow | ResetAndRetry | Permanent.

Definition from_status (sct_raw code : Z) : IoError :=
  ControllerStatus (sct_from_raw sct_raw) code (Z.lor (Z.shiftl sct_raw 8) code).

Definition classify_generic_sc (code : Z) : RetryVerdict :=
  if existsb (Z.eqb code) [0x00; 0x01; 0x02; 0x04; 0x05; 0x0B; 0x80; 0x81] then Permanent else RetryNow.
Definition classify_by_sct (t : StatusCodeType) (code : Z) : RetryVerdict :=
  match t with
  | Generic => classify_generic_sc code
  | MediaError | PathRelated => RetryNow
  | CommandSpecific | VendorSpecific | UnknownSct _ => Permanent
  end.
Definition verdict (e : IoError) : RetryVerdict :=
  match e with
  | Timeout _ | IoControllerFatal => ResetAndRetry
  | ControllerStatus t code _ => classify_by_sct t code
  | Transport _ | NamespaceNotAdmitted _ => Permanent
  end.

Definition MAX_IO_RETRIES : Z := 3.
Definition MAX_RESET_ATTEMPTS : Z := 2.
Record RetryTracker := mkRetry { attempts : Z; max_retries : Z }.
Definition RetryTracker_new : RetryTracker := mkRetry 0 MAX_IO_RETRIES.
Definition retry_exhausted (t : RetryTracker) : bool := max_retries t <=? attempts t.
Definition retry_record (t : RetryTracker) : bool * RetryTracker :=
  let a := saturating_add 32 (attempts t) 1 in (a <=? max_retries t, mkRetry a (max_retries t)).

Inductive IoOutcome := IoSuccess | IoFailed (last_error : IoError) (n : Z) | ResetRequired (cause : IoError).
Definition evaluate (t : RetryTracker) (e : IoError) : IoOutcome :=
  match verdict e with
  | ResetAndRetry => ResetRequired e
  | RetryNow | Permanent => IoFailed e (attempts t)
  end.

Record ResetProtocol := mkReset { reset_attempts : Z; max_attempts : Z }.
Definition ResetProtocol_new : ResetProtocol := mkReset 0 MAX_RESET_ATTEMPTS.
Definition reset_exhausted (r : ResetProtocol) : bool := max_attempts r <=? reset_attempts r.
Definition reset_record (r : ResetProtocol) : bool * ResetProtocol :=
  let r := mkReset (saturating_add 32 (reset_attempts r) 1) (max_attempts r) in (negb (reset_exhausted r), r).

(** ** Lemmas *)

Lemma write_at_put buf off d :
  (off + length d <= length buf)%nat -> write_at buf off d = put_range buf (Z.of_nat off) d.
Proof.
  revert buf off. induction d as [|b d IH]; intros buf off Hl; simpl in *.
  - unfold put_range, splice. simpl. rewrite Nat2Z.id, Nat.add_0_r. rewrite take_drop. by destruct (_ <=? _).
  - rewrite IH by (rewrite length_insert; lia). unfold put_range. rewrite length_insert. simpl length.
    uint_ok. rewrite !Nat2Z.id. unfold splice. simpl length.
    rewrite drop_insert_lt by lia. replace (S off + length d)%nat with (off + S (length d))%nat by lia.
    rewrite (take_S_r _ off b) by (by rewrite list_lookup_insert_eq by lia).
    rewrite take_insert_ge by lia. by rewrite <- app_assoc.
Qed.

Lemma length_write_at buf off d : length (write_at buf off d) = length buf.
Proof. revert buf off. induction d as [|b d IH]; intros buf off; [done|]. simpl. by rewrite IH, length_insert. Qed.

(** The page a transfer's [i]-th block goes to. *)
Definition prp_page (buf_iova i : Z) : Z := (buf_iova + i * PRP_PAGE_SIZE) mod 2 ^ 64.

Lemma entry_value buf i : 0 <= i < 2 ^ 32 ->
  wrapping_add 64 buf (wrapping_mul 64 (wrapping_add 64 i 1) PRP_PAGE_SIZE) = prp_page buf (i + 1).
Proof.
  intros Hi. unfold wrapping_add, wrapping_mul, prp_page, PRP_PAGE_SIZE.
  rewrite (Z.mod_small (i + 1)) by lia. rewrite (Z.mod_small ((i + 1) * 4096)) by lia. done.
Qed.

Lemma write_entries_spec buf n i dest :
  Z.of_nat (i + n) * 8 <= Z.of_nat (length dest) -> Z.of_nat (i + n) < 2 ^ 32 ->
  let dest' := write_entries buf n i dest in
  length dest' = length dest /\
  (forall j : nat, (i <= j < i + n)%nat ->
     get_range dest' (Z.of_nat j * 8) 8 = Some (to_le 8 (prp_page buf (Z.of_nat j + 1)))) /\
  (forall j : nat, (j < i)%nat -> get_range dest' (Z.of_nat j * 8) 8 = get_range dest (Z.of_nat j * 8) 8).
Proof.
  revert i dest. induction n as [|n IH]; intros i dest Hl Hb; cbn [write_entries].
  { split_and!; [done|lia|done]. }
  rewrite entry_value by lia. set (e := to_le 8 _). set (d1 := put_range _ _ e). unfold PRP_ENTRY_BYTES in *.
  assert (length e = 8%nat) as He by (by unfold e; rewrite length_to_le).
  assert (length d1 = length dest) as Hd1 by (unfold d1, PRP_ENTRY_BYTES; by rewrite length_put_range by lia).
  destruct (IH (S i) d1) as (I1 & I2 & I3); [rewrite Hd1; lia|lia|]. split_and!.
  - by rewrite I1.
  - intros j Hj. destruct (decide (j = i)) as [->|]; [|apply I2; lia].
    rewrite I3 by lia. unfold d1, PRP_ENTRY_BYTES. apply get_put_same; [lia|by rewrite length_to_le|lia].
  - intros j Hj. rewrite I3 by lia. unfold d1, PRP_ENTRY_BYTES. apply get_put_other; lia.
Qed.

Lemma prp_layout_blocks count :
  1 <= count ->
  prp_layout (count * PRP_PAGE_SIZE) =
    if count =? 1 then SinglePage else if count =? 2 then TwoPages else PrpList (count - 1).
Proof.
  intros Hc. unfold prp_layout, PRP_PAGE_SIZE.
  destruct (Z.eqb_spec count 1) as [->|]; [done|]. rewrite (proj2 (Z.leb_gt (count * 4096) 4096)) by lia.
  destruct (Z.eqb_spec count 2) as [->|]; [done|]. rewrite (proj2 (Z.leb_gt (count * 4096) (2 * 4096))) by lia.
  f_equal. unfold div_ceil. replace (count * 4096 - 4096) with ((count - 1) * 4096) by lia.
  rewrite Z.mod_mul, Z.div_mul by lia. done.
Qed.

(** ** Theorems *)

(** The pages of a transfer.  Deriving the two PRP fields of a command
    succeeds exactly for an aligned buffer of 1 to 2048 blocks, with an
    aligned list page when there are more than two.  The pages then
    addressed are the consecutive pages of the buffer: the first by PRP1, the
    second of two by PRP2, and from three blocks on all but the first by the
    entries of the list, which is written in full for up to 513 blocks.  For
    514 to 2048 blocks the derivation still succeeds, but the list of
    [count - 1] entries does not fit in the page PRP2 points to and
    [write_prp_list_entries] refuses it. *)
Theorem prp_transfer_exact buf count list_page dest :
  in_uint 64 buf -> in_uint 32 count -> in_uint 64 list_page -> length dest = 4096%nat ->
  match derive_prp_pair_for_blocks buf count list_page with
  | Ok (layout, prp1, prp2) =>
      is_prp_aligned buf = true /\ 1 <= count <= 2048 /\ prp1 = prp_page buf 0 /\
      match layout with
      | SinglePage => count = 1 /\ prp2 = 0
      | TwoPages => count = 2 /\ prp2 = prp_page buf 1
      | PrpList n =>
          n = count - 1 /\ 3 <= count /\ prp2 = list_page /\ is_prp_aligned list_page = true /\ list_page <> 0 /\
          if count <=? 513 then
            exists dest', write_prp_list_entries buf n dest = Ok dest' /\
              forall i, 0 <= i < n -> get_range dest' (i * 8) 8 = Some (to_le 8 (prp_page buf (i + 1)))
          else write_prp_list_entries buf n dest = Err TooManyEntries
      end
  | Err BufferMisaligned => is_prp_aligned buf = false
  | Err ZeroBlockCount => count = 0
  | Err TooManyBlocks => 2048 < count
  | Err PrpListPageMissing => 3 <= count /\ list_page = 0
  | Err PrpListPageMisaligned => 3 <= count /\ is_prp_aligned list_page = false
  end.
Proof.
  unfold in_uint. intros Hb Hc Hlp Hd. unfold derive_prp_pair_for_blocks.
  destruct (is_prp_aligned buf); [|done]. simpl. destruct (Z.eqb_spec count 0); [done|].
  unfold MAX_BLOCK_COUNT_PER_COMMAND. destruct (Z.ltb_spec 2048 count); [done|].
  unfold block_payload_bytes, checked_mul. rewrite (proj2 (Z.ltb_lt _ _)) by (unfold PRP_PAGE_SIZE; lia).
  rewrite prp_layout_blocks by lia.
  assert (prp1_for buf = prp_page buf 0) as H0.
  { unfold prp1_for, prp_page. by rewrite Z.add_0_r, Z.mod_small. }
  destruct (Z.eqb_spec count 1); [by split_and!; try lia|].
  destruct (Z.eqb_spec count 2); [by split_and!; try lia|]. cbn [prp2_for].
  destruct (Z.eqb_spec list_page 0); [split; [lia|done]|].
  destruct (is_prp_aligned list_page) eqn:Hal; simpl; [|split; [lia|done]].
  split_and!; try done; try lia. unfold write_prp_list_entries.
  replace PRP_ENTRIES_PER_LIST_PAGE with 512 by (vm_compute; reflexivity).
  destruct (Z.leb_spec count 513).
  - rewrite (proj2 (Z.ltb_ge 512 _)) by lia. unfold saturating_mul, PRP_ENTRY_BYTES, uint_max.
    rewrite (proj2 (Z.ltb_ge _ _)) by lia. eexists. split; [reflexivity|]. intros i Hi.
    destruct (write_entries_spec buf (Z.to_nat (count - 1)) 0 dest) as (_ & Hin & _); [lia|lia|].
    specialize (Hin (Z.to_nat i) ltac:(lia)). by rewrite Z2Nat.id in Hin by lia.
  - by rewrite (proj2 (Z.ltb_lt 512 _)) by lia.
Qed.

Lemma prp_transfer_exact_witness :
  derive_prp_pair_for_blocks 8192 2048 4096 = Ok (PrpList 2047, 8192, 4096) /\
  write_prp_list_entries 8192 2047 (replicate 4096 0) = Err TooManyEntries.
Proof.
  pose proof (prp_transfer_exact 8192 2048 4096 (replicate 4096 0)) as Ht.
  split; [vm_compute; reflexivity|].
  replace (derive_prp_pair_for_blocks 8192 2048 4096) with (Ok (E := PrpDeriveError) (PrpList 2047, 8192, 4096))
    in Ht by (vm_compute; reflexivity).
  destruct Ht as (_ & _ & _ & _ & _ & _ & _ & _ & Hw); [unfold in_uint; lia..|apply length_replicate|exact Hw].
Defined.

(** *** Bring-up *)

(** The phases in the order of the bring-up sequence. *)
Definition phases : list Phase :=
  [PciEnumeration; MmioMap; ReadCap; DisableController; SetupAdminQueues; EnableController; AttachInterrupts;
   IdentifyController; IdentifyActiveNsList; IdentifyNamespace; CreateIoQueues; RegisterBlkChannel; Ready].

(** Post a sequence of events; the automaton keeps going after an error. *)
Fixpoint post_all (evs : list Event) (b : BringUp) : list (result BringUpError BringUp) * BringUp :=
  match evs with
  | [] => ([], b)
  | e :: evs =>
      let '(r, b) := on_event e b in
      let '(rs, b) := post_all evs b in
      (r :: rs, b)
  end.

(** A sequence the automaton accepts from position [i] with [r] retries used:
    it ends in the position and with the retries given. *)
Inductive accepts : nat -> Z -> list Event -> nat -> Z -> Prop :=
| acc_nil i r : accepts i r [] i r
| acc_advance i r evs j r' : (i < 12)%nat -> accepts (S i) 0 evs j r' -> accepts i r (Advance :: evs) j r'
| acc_retry i r evs j r' :
    (i < 12)%nat -> r + 1 < MAX_RETRIES -> accepts i (r + 1) evs j r' -> accepts i r (Retry :: evs) j r'.

Definition at_phase (i : nat) (r : Z) (b : BringUp) : Prop := phases !! i = Some (bu_phase b) /\ retries b = r.

Lemma on_event_failed e r : exists err, (on_event e (mkBringUp PhaseFailed r)).1 = Err err /\
  bu_phase (on_event e (mkBringUp PhaseFailed r)).2 = PhaseFailed.
Proof. destruct e; simpl; eauto. Qed.

Lemma post_all_failed evs r :
  Forall (fun x => is_ok x = false) (post_all evs (mkBringUp PhaseFailed r)).1 /\
  bu_phase (post_all evs (mkBringUp PhaseFailed r)).2 = PhaseFailed.
Proof.
  revert r. induction evs as [|e evs IH]; intros r; cbn [post_all]; [by split|].
  destruct (on_event_failed e r) as (err & H1 & H2). destruct (on_event e _) as [x [p r']]. simpl in *. subst x p.
  specialize (IH r'). destruct (post_all evs _) as [rs b]. simpl in *. destruct IH. split; [by constructor|done].
Qed.

(** One event: accepted, with the move it makes, or refused into [PhaseFailed]. *)
Lemma on_event_spec e i r b :
  at_phase i r b -> 0 <= r ->
  match on_event e b with
  | (Ok b1, b2) => b1 = b2 /\ (i < 12)%nat /\
      (e = Advance /\ at_phase (S i) 0 b2 \/ e = Retry /\ r + 1 < MAX_RETRIES /\ at_phase i (r + 1) b2)
  | (Err _, b2) => bu_phase b2 = PhaseFailed /\
      ~ (e = Advance /\ (i < 12)%nat \/ e = Retry /\ (i < 12)%nat /\ r + 1 < MAX_RETRIES)
  end.
Proof.
  intros [Hp <-] Hr. destruct b as [p rt]. simpl in *.
  assert (is_terminal p = false <-> (i < 12)%nat) as Hterm.
  { do 13 (destruct i as [|i]; [injection Hp as <-; simpl; split; intros; first [done|lia]|]). done. }
  destruct e; simpl.
  - destruct (is_terminal p) eqn:Ht; [split; [done|]; intros [[_ ?%Hterm]|[? _]]; done|].
    pose proof (proj1 Hterm eq_refl) as Hi. split; [done|]. split; [done|]. left. split; [done|].
    do 12 (destruct i as [|i]; [injection Hp as <-; by split|]). lia.
  - destruct (is_terminal p) eqn:Ht; [split; [done|]; intros [[? _]|(_ & ?%Hterm & _)]; done|].
    pose proof (proj1 Hterm eq_refl) as Hi. unfold MAX_RETRIES, saturating_add, uint_max.
    destruct (Z.leb_spec 3 (Z.min (2 ^ 8 - 1) (rt + 1))).
    + split; [done|]. intros [[? _]|(_ & _ & ?)]; [done|lia].
    + split; [done|]. split; [done|]. right. split; [done|]. split; [lia|]. split; [done|simpl; lia].
  - split; [done|]. by intros [[? _]|[? _]].
Qed.

(** The automaton answers without error exactly on an accepted sequence, and fails for good otherwise. *)
Lemma post_all_spec evs i r b :
  at_phase i r b -> 0 <= r < MAX_RETRIES ->
  let '(rs, b') := post_all evs b in
  (Forall (fun r => is_ok r = true) rs /\
     exists j r', accepts i r evs j r' /\ at_phase j r' b' /\ 0 <= r' < MAX_RETRIES) \/
  (~ Forall (fun r => is_ok r = true) rs /\ (forall j r', ~ accepts i r evs j r') /\ bu_phase b' = PhaseFailed).
Proof.
  revert i r b. induction evs as [|e evs IH]; intros i r b Hb Hr; cbn [post_all].
  { left. split; [constructor|]. exists i, r. split; [constructor|done]. }
  pose proof (on_event_spec e i r b Hb ltac:(lia)) as Hs. destruct (on_event e b) as [[b1|err] b2].
  - assert (exists i' r', at_phase i' r' b2 /\ 0 <= r' < MAX_RETRIES /\
      forall j r'', accepts i r (e :: evs) j r'' <-> accepts i' r' evs j r'') as (i' & r' & Hb2 & Hr' & Hiff).
    { destruct Hs as (_ & Hi & [[-> Hb2]|(-> & Hm & Hb2)]).
      - exists (S i), 0. split_and!; [done|lia|done|]. intros j r''. split; [by inversion 1|by constructor].
      - exists i, (r + 1). split_and!; [done|lia|done|]. intros j r''. split; [by inversion 1|by constructor]. }
    specialize (IH i' r' b2 Hb2 Hr'). destruct (post_all evs b2) as [rs b'].
    destruct IH as [(Hf & j & r'' & Ha & Hat)|(Hf & Ha & Hp)]; [left|right].
    + split; [by constructor|]. exists j, r''. by rewrite Hiff.
    + split_and!; [by intros [_ ?]%Forall_cons|intros j r''; by rewrite Hiff|done].
  - destruct Hs as [Hp Hn]. destruct b2 as [p rt]. simpl in Hp. subst p.
    pose proof (post_all_failed evs rt) as [_ Hpf]. destruct (post_all evs _) as [rs b']. right.
    split_and!; [|intros j r' H|done].
    + by intros [? _]%Forall_cons.
    + apply Hn. inversion H; subst; [by left|by right].
Qed.

Lemma accepts_det i r evs j r' j2 r2 : accepts i r evs j r' -> accepts i r evs j2 r2 -> j = j2 /\ r' = r2.
Proof. intros H. revert j2 r2. induction H; intros j2 r2 H2; inversion H2; subst; eauto. Qed.

(** The bring-up automaton: it walks the thirteen phases of the bring-up
    sequence in order, one per [Advance], with fewer than three retries in
    each; it is live exactly after twelve advances.  A sequence of events is
    answered without error exactly when it is such a walk; any other event
    (an abort, the third retry, anything after [Ready]) leaves it in
    [PhaseFailed], where every later event is an error. *)
Theorem bringup_exact evs :
  let '(rs, b) := post_all evs BringUp_new in
  (Forall (fun r => is_ok r = true) rs <-> exists j r, accepts 0 0 evs j r) /\
  (forall j r, accepts 0 0 evs j r -> at_phase j r b /\ 0 <= r < MAX_RETRIES /\ (is_live (bu_phase b) = true <-> j = 12%nat)) /\
  (~ Forall (fun r => is_ok r = true) rs -> bu_phase b = PhaseFailed /\
     forall e, is_ok (on_event e b).1 = false /\ bu_phase (on_event e b).2 = PhaseFailed).
Proof.
  pose proof (post_all_spec evs 0 0 BringUp_new) as Hs.
  destruct (post_all evs BringUp_new) as [rs b]. specialize (Hs ltac:(by split) ltac:(by vm_compute)).
  destruct Hs as [(Hf & j & r & Ha & Hat & Hr)|(Hf & Ha & Hp)].
  - split_and!; [by split; eauto| |done]. intros j' r' Ha'.
    destruct (accepts_det _ _ _ _ _ _ _ Ha Ha') as [<- <-]. split; [done|]. split; [done|].
    destruct Hat as [Hp _]. do 13 (destruct j as [|j]; [injection Hp as <-; by split|]). done.
  - split_and!; [by split; [|intros (? & ? & ?%Ha)]|by intros ? ? ?%Ha|]. intros _. split; [done|].
    intros e. destruct b as [p rt]. simpl in Hp. subst p. destruct (on_event_failed e rt) as (err & -> & ->). done.
Qed.

(** *** Commands *)

(** The fields of a data-transfer command, read back from its 64 bytes. *)
Definition sqe_field (n off : Z) (sqe : bytes) : option Z :=
  match get_range sqe off n with Some d => Some (from_le d) | None => None end.

Lemma write_le_put (n : Z) buf (off : nat) v :
  0 <= n -> (Z.of_nat off + n <= Z.of_nat (length buf)) ->
  write_at buf off (to_le n v) = put_range buf (Z.of_nat off) (to_le n v).
Proof. intros Hn Hl. apply write_at_put. rewrite length_to_le by done. lia. Qed.

Lemma header_dw_sum opc c : in_uint 8 opc -> in_uint 16 c -> header_dw opc c = opc + c * 2 ^ 16.
Proof.
  unfold in_uint, header_dw. intros Ho Hc. apply lor_shiftl; lia.
Qed.

(** The 64 bytes of a read or write command say what was asked: opcode
    and command identifier in the first word, the namespace, both PRP
    fields, the 64-bit first block split over two words, and the block
    count less one; a count of zero is sent as one block. *)
Theorem nvm_command_codec opc nsid lba count prp1 prp2 c :
  in_uint 8 opc -> in_uint 16 c -> in_uint 32 nsid -> in_uint 64 lba -> in_uint 32 count ->
  in_uint 64 prp1 -> in_uint 64 prp2 ->
  let sqe := encode_nvm_data_transfer opc nsid lba count prp1 prp2 c in
  length sqe = 64%nat /\ sqe_field 4 0 sqe = Some (opc + c * 2 ^ 16) /\ sqe_field 4 4 sqe = Some nsid /\
  sqe_field 8 24 sqe = Some prp1 /\ sqe_field 8 32 sqe = Some prp2 /\ sqe_field 4 40 sqe = Some (lba mod 2 ^ 32) /\
  sqe_field 4 44 sqe = Some (lba / 2 ^ 32) /\
  sqe_field 4 48 sqe = Some (Z.max 0 (count - 1)).
Proof.
  intros Ho Hcid Hn Hlba Hcnt H1 H2. cbn zeta. unfold encode_nvm_data_transfer, write_dw_at, write_qw_at.
  assert (length zeroed = 64%nat) as Hz by apply length_replicate.
  assert (header_dw opc c = opc + c * 2 ^ 16) as Hh by (by apply header_dw_sum).
  assert (Z.land lba 4294967295 = lba mod 2 ^ 32) as Hlo by (apply (Z.land_ones lba 32); lia).
  assert (Z.land (Z.shiftr lba 32) 4294967295 = lba / 2 ^ 32) as Hhi.
  { rewrite (Z.land_ones _ 32), Z.shiftr_div_pow2 by lia. apply Z.mod_small. unfold in_uint in *.
    split; [apply Z.div_pos; lia|apply Z.div_lt_upper_bound; lia]. }
  rewrite Hh, Hlo, Hhi. unfold saturating_sub.
  assert (in_uint 32 (opc + c * 2 ^ 16)) as B0 by (unfold in_uint in *; lia).
  assert (in_uint 32 (lba mod 2 ^ 32)) as B1 by (apply Z.mod_pos_bound; lia).
  assert (in_uint 32 (lba / 2 ^ 32)) as B2.
  { unfold in_uint in *. split; [apply Z.div_pos; lia|apply Z.div_lt_upper_bound; lia]. }
  assert (in_uint 32 (Z.max 0 (count - 1))) as B3 by (unfold in_uint in *; lia).
  repeat rewrite write_le_put by (repeat first [rewrite length_write_at|rewrite length_put_range by lia]; rewrite ?Hz; lia).
  cbn [Z.of_nat Pos.of_succ_nat Pos.succ].
  split; [repeat rewrite length_put_range by lia; exact Hz|]. unfold sqe_field.
  split_and!; (repeat first [rewrite get_put_same by (repeat first [rewrite length_put_range by lia|rewrite length_to_le by lia]; rewrite ?Hz; lia)
                            |rewrite get_put_other by (rewrite ?length_to_le by lia; lia)]);
    cbv iota beta; rewrite from_to_le by (done || lia); done.
Qed.

Lemma nvm_command_codec_witness :
  sqe_field 4 48 (encode_read 1 5 8 4096 0 9) = Some 7 /\ sqe_field 4 40 (encode_read 1 5 8 4096 0 9) = Some 5.
Proof.
  destruct (nvm_command_codec OPC_NVM_READ 1 5 8 4096 0 9) as (_ & _ & _ & _ & _ & Hl & _ & Hc);
    [unfold in_uint, OPC_NVM_READ; lia..|]. split; [exact Hc|exact Hl].
Defined.

(** *** Command identifiers and retries *)

Fixpoint allocate_cids (n : nat) (s : Session) : list Z :=
  match n with
  | O => []
  | S n => let '(c, s) := allocate_cid s in c :: allocate_cids n s
  end.

(** Identifiers run from 1 to 65535 and start over: never 0, and the same one only 65535 commands later. *)
Lemma cid_sequence n s k c :
  next_cid s = 1 -> allocate_cids n s !! k = Some c -> c = Z.of_nat k mod 65535 + 1.
Proof.
  cut (forall n s k c o, 0 <= o -> next_cid s = o mod 65535 + 1 -> allocate_cids n s !! k = Some c ->
         c = (o + Z.of_nat k) mod 65535 + 1).
  { intros Hcut H1 Hk. specialize (Hcut n s k c 0 ltac:(lia)). rewrite Hcut; [done|by rewrite H1|done]. }
  clear. induction n as [|n IH]; intros s k c o Ho Hs; [done|]. simpl. destruct k as [|k].
  - intros [= <-]. by rewrite Hs, Z.add_0_r.
  - simpl. intros Hk. eapply (IH _ _ _ (o + 1)) in Hk; [|lia|].
    + rewrite Hk. by replace (o + 1 + Z.of_nat k) with (o + Z.of_nat (S k)) by lia.
    + simpl. rewrite Hs. unfold checked_add. pose proof (Z.mod_pos_bound o 65535 ltac:(lia)).
      pose proof (next_slot_mod 65535 o ltac:(lia) Ho) as Hn. unfold next_slot in Hn.
      rewrite add_uint_Done in Hn by lia. simpl in Hn. injection Hn as Hn. rewrite <- Hn.
      destruct (Z.eqb_spec (o mod 65535 + 1) 65535) as [He|He]; destruct (Z.ltb_spec (o mod 65535 + 1 + 1) (2 ^ 16)); simpl; lia.
Qed.

(** The call that uses up the budget still answers that there is room. *)
Example retry_record_at_limit :
  let '(ok, t) := retry_record (retry_record (retry_record RetryTracker_new).2).2 in
  ok = true /\ retry_exhausted t = true.
Proof. vm_compute. done. Qed.

(** *** Namespaces *)

Definition entry_sound (nsids : list Z) (e : NamespaceEntry) : Prop :=
  entry_nsid e ∈ nsids /\
  match e with
  | Valid de => d_lbads de = 12 /\ d_nsze de <> 0 /\ d_byte_size de = (d_nsze de * 4096) mod 2 ^ 64
  | Rejected _ _ => True
  end.

Lemma validate_namespace_sound nsid page nsids : nsid ∈ nsids -> entry_sound nsids (validate_namespace nsid page).
Proof.
  intros Hin. unfold validate_namespace, check_page, entry_sound. destruct (_ <? _); [by split|].
  destruct (Z.eqb_spec (nsze page) 0); [by split|]. unfold validated_byte_size, PHASE_1_REQUIRED_LBADS.
  destruct (Z.eqb_spec (lbads page) 12) as [He|]; simpl; [|by split].
  split_and!; try done. by rewrite He, Z.shiftl_mul_pow2 by lia.
Qed.

Lemma build_loop_sound {R} (resolve : Z -> R -> option bytes * R) all nsids m r :
  (forall n, n ∈ nsids -> n ∈ all) ->
  Forall (entry_sound all) (ns_entries m) -> (length (ns_entries m) <= 16)%nat ->
  valid_count m = Z.of_nat (length (filter (fun e => entry_valid e = true) (ns_entries m))) ->
  let m' := (build_loop resolve nsids m r).1 in
  Forall (entry_sound all) (ns_entries m') /\ (length (ns_entries m') <= 16)%nat /\
  valid_count m' = Z.of_nat (length (filter (fun e => entry_valid e = true) (ns_entries m'))) /\
  total_active m' = total_active m + Z.of_nat (length nsids).
Proof.
  revert m r. induction nsids as [|n nsids IH]; intros m r Hall Hf Hl Hv; cbn [build_loop].
  { split_and!; try done. simpl. lia. }
  assert (forall n', n' ∈ nsids -> n' ∈ all) as Hall' by (intros n' ?; apply Hall; by right).
  assert (forall x, x + 1 + Z.of_nat (length nsids) = x + Z.of_nat (length (n :: nsids))) as Hn by (intros; simpl; lia).
  rewrite <- Hn. cbn [ns_entries total_active valid_count].
  destruct (Nat.leb_spec MAX_NAMESPACE_SLOTS (length (ns_entries m))) as [Hge|Hlt]; [by apply IH|].
  destruct (resolve n r) as [[page|] r']; [|by apply IH].
  pose proof (validate_namespace_sound n page all ltac:(apply Hall; left)) as Hs.
  apply IH; [done|by apply Forall_app; split; [|constructor]| |].
  - cbn [ns_entries]. rewrite length_app. unfold MAX_NAMESPACE_SLOTS in Hlt. simpl. lia.
  - cbn [ns_entries valid_count]. rewrite filter_app, length_app, Hv.
    destruct (entry_valid (validate_namespace n page)) eqn:He.
    + rewrite filter_cons_True by done. simpl. lia.
    + rewrite filter_cons_False by congruence. simpl. lia.
Qed.

(** A namespace map admits only active namespaces with 4 KiB blocks and a
    non-zero size, keeps at most sixteen, and counts them right. *)
Theorem namespace_map_sound {R} (resolve : Z -> R -> option bytes * R) page r m r' :
  NamespaceMap_build resolve page r = (Ok m, r') ->
  let active := iter_nsids page MAX_ACTIVE_NSIDS 0 in
  Forall (entry_sound active) (ns_entries m) /\ (length (ns_entries m) <= 16)%nat /\
  valid_count m = Z.of_nat (length (filter (fun e => entry_valid e = true) (ns_entries m))) /\
  total_active m = Z.of_nat (length active) /\
  forall n, is_admitted m n = true -> n ∈ active.
Proof.
  unfold NamespaceMap_build, check_page. destruct (_ <? _); [done|].
  pose proof (build_loop_sound resolve (iter_nsids page MAX_ACTIVE_NSIDS 0) (iter_nsids page MAX_ACTIVE_NSIDS 0)
    (mkMap [] 0 0) r) as Hb. destruct (build_loop _ _ _ _) as [m1 r1]. destruct (_ =? 0); [done|]. intros [= <- <-].
  destruct Hb as (H1 & H2 & H3 & H4); [auto|constructor|simpl; lia|done|]. split_and!; try done.
  intros n. unfold is_admitted, ns_get. destruct (list_find _ _) as [[i e]|] eqn:Hf; [|done]. intros _.
  apply list_find_Some in Hf as (He & Hn & _). apply list_elem_of_lookup_2 in He.
  rewrite Forall_forall in H1. destruct (H1 e He) as [Hin _]. simpl in Hn. by rewrite <- Hn.
Qed.
