(* ===== verification/NetFilter.v ===== *)
(** * The egress filter of the network stack

    [src/crates/nexacore-net/src]: connection tracking ([conntrack.rs]), the
    per-app allow lists with their text format ([allowlist.rs]) and their
    rendering ([allowlist_view.rs]), the default-deny policy
    ([egress_policy.rs]) and the enforcer that composes them
    ([enforcer.rs]).  Addresses are [u32] and ports [u16] values in [Z];
    strings are lists of characters, with the functions of [str] the parser
    uses written out. *)

From S2P Require Import Prelude.

(** ** Connection tracking *)

Inductive Protocol := Tcp | Udp.
#[export] Instance Protocol_eq_dec : EqDecision Protocol.
Proof. solve_decision. Defined.

Record Endpoint := mkEndpoint { ep_ip : Z; ep_port : Z }.
#[export] Instance Endpoint_eq_dec : EqDecision Endpoint.
Proof. solve_decision. Defined.

Record TcpFlags := mkTcpFlags { fl_syn : bool; fl_ack : bool; fl_fin : bool; fl_rst : bool }.

Definition flags_syn : TcpFlags := mkTcpFlags true false false false.
Definition flags_syn_ack : TcpFlags := mkTcpFlags true true false false.
Definition flags_ack : TcpFlags := mkTcpFlags false true false false.

Inductive Direction := Outbound | Inbound.
#[export] Instance Direction_eq_dec : EqDecision Direction.
Proof. solve_decision. Defined.

Record Packet := mkPacket {
  protocol : Protocol;
  src : Endpoint;
  dst : Endpoint;
  direction : Direction;
  flags : TcpFlags;
}.

Inductive ConnState := New | Established | Closing | Closed.
#[export] Instance ConnState_eq_dec : EqDecision ConnState.
Proof. solve_decision. Defined.

Inductive Verdict := Accept | Drop.
#[export] Instance Verdict_eq_dec : EqDecision Verdict.
Proof. solve_decision. Defined.

Record FlowKey := mkFlowKey { fk_proto : Z; fk_lo : Endpoint; fk_hi : Endpoint }.
#[export] Instance FlowKey_eq_dec : EqDecision FlowKey.
Proof. solve_decision. Defined.
#[export] Instance FlowKey_countable : Countable FlowKey.
Proof.
  apply (inj_countable'
    (fun k => (fk_proto k, (ep_ip (fk_lo k), ep_port (fk_lo k)), (ep_ip (fk_hi k), ep_port (fk_hi k))))
    (fun t => mkFlowKey t.1.1 (mkEndpoint t.1.2.1 t.1.2.2) (mkEndpoint t.2.1 t.2.2))).
  by intros [? [] []].
Defined.

(** The derived [Ord]: address first, then port. *)
Definition endpoint_leb (a b : Endpoint) : bool :=
  (ep_ip a <? ep_ip b) || ((ep_ip a =? ep_ip b) && (ep_port a <=? ep_port b)).

Definition proto_number (p : Protocol) : Z := match p with Tcp => 6 | Udp => 17 end.

Definition canonical (pkt : Packet) : FlowKey :=
  let '(lo, hi) := if endpoint_leb (src pkt) (dst pkt) then (src pkt, dst pkt) else (dst pkt, src pkt) in
  mkFlowKey (proto_number (protocol pkt)) lo hi.

Record ConnTrack := mkConnTrack { flows : gmap FlowKey ConnState }.

Definition ConnTrack_new : ConnTrack := mkConnTrack ∅.
Definition ct_len (ct : ConnTrack) : Z := Z.of_nat (size (flows ct)).
Definition ct_is_empty (ct : ConnTrack) : bool := ct_len ct =? 0.
Definition state_of (ct : ConnTrack) (pkt : Packet) : option ConnState := flows ct !! canonical pkt.

Definition is_inbound (pkt : Packet) : bool :=
  match direction pkt with Inbound => true | Outbound => false end.

Definition advance (p : Protocol) (state : ConnState) (pkt : Packet) : ConnState :=
  match p with
  | Udp =>
      match state with
      | New => if is_inbound pkt then Established else New
      | other => other
      end
  | Tcp =>
      if fl_rst (flags pkt) then Closed
      else if fl_fin (flags pkt) then
        match state with Closing => Closed | _ => Closing end
      else
        match state with
        | New => if is_inbound pkt && fl_syn (flags pkt) && fl_ack (flags pkt) then Established else New
        | other => other
        end
  end.

(** A new TCP flow must open with a pure SYN. *)
Definition stray_open (pkt : Packet) : bool :=
  match protocol pkt with
  | Tcp => negb (fl_syn (flags pkt)) || fl_ack (flags pkt)
  | Udp => false
  end.

Definition ct_filter (ct : ConnTrack) (pkt : Packet) : Verdict * ConnTrack :=
  let key := canonical pkt in
  match flows ct !! key with
  | Some state =>
      let next := advance (protocol pkt) state pkt in
      (Accept, mkConnTrack (match next with
                            | Closed => delete key (flows ct)
                            | _ => <[key := next]> (flows ct)
                            end))
  | None =>
      match direction pkt with
      | Outbound =>
          if stray_open pkt then (Drop, ct)
          else (Accept, mkConnTrack (<[key := New]> (flows ct)))
      | Inbound => (Drop, ct)
      end
  end.

(** ** Allow lists *)

Inductive HostMatch :=
| HostAny
| Cidr (base prefix : Z)
| DomainSuffix (suffix : str).
#[export] Instance HostMatch_eq_dec : EqDecision HostMatch.
Proof. solve_decision. Defined.

Inductive PortMatch := PortAny | Exact (p : Z) | Range (lo hi : Z).
#[export] Instance PortMatch_eq_dec : EqDecision PortMatch.
Proof. solve_decision. Defined.

Record EgressRule := mkRule {
  r_protocol : option Protocol;
  r_host : HostMatch;
  r_port : PortMatch;
}.

Record EgressTarget := mkTarget {
  t_protocol : Protocol;
  t_ip : Z;
  t_domain : option str;
  t_port : Z;
}.

(** [rest.is_empty() || rest.ends_with('.')]. *)
Definition label_boundary (rest : str) : bool :=
  match last rest with None => true | Some c => c =? 46 end.

Definition host_matches (h : HostMatch) (ip : Z) (domain : option str) : bool :=
  match h with
  | HostAny => true
  | Cidr base prefix => Z.land ip (prefix_mask prefix) =? Z.land base (prefix_mask prefix)
  | DomainSuffix suffix =>
      match domain with
      | Some d => match strip_suffix suffix d with Some rest => label_boundary rest | None => false end
      | None => false
      end
  end.

Definition port_matches (m : PortMatch) (port : Z) : bool :=
  match m with
  | PortAny => true
  | Exact p => port =? p
  | Range lo hi => (lo <=? port) && (port <=? hi)
  end.

Definition rule_matches (r : EgressRule) (t : EgressTarget) : bool :=
  match r_protocol r with
  | Some p =>
      if bool_decide (p = t_protocol t)
      then host_matches (r_host r) (t_ip t) (t_domain t) && port_matches (r_port r) (t_port t)
      else false
  | None => host_matches (r_host r) (t_ip t) (t_domain t) && port_matches (r_port r) (t_port t)
  end.

Record AppAllowList := mkAllowList { app_id : str; rules : list EgressRule }.

Definition AppAllowList_new (id : str) : AppAllowList := mkAllowList id [].
Definition push_rule (l : AppAllowList) (r : EgressRule) : AppAllowList :=
  mkAllowList (app_id l) (rules l ++ [r]).
Definition permits (l : AppAllowList) (t : EgressTarget) : bool :=
  existsb (fun r => rule_matches r t) (rules l).

(** ** The text format

    The functions of [str] the parser calls. *)

(** [char::is_whitespace]: the characters with the property White_Space. *)
Definition is_whitespace (c : Z) : bool :=
  ((9 <=? c) && (c <=? 13)) || (c =? 32) || (c =? 133) || (c =? 160) || (c =? 5760)
  || ((8192 <=? c) && (c <=? 8202)) || (c =? 8232) || (c =? 8233) || (c =? 8239) || (c =? 8287)
  || (c =? 12288).

Definition non_empty (s : str) : bool := match s with [] => false | _ => true end.

(** [s.split_whitespace()]. *)
Definition split_whitespace (s : str) : list str :=
  List.filter non_empty (split_on is_whitespace s).

(** [s.split_once(c)]. *)
Fixpoint split_once (sep : Z) (s : str) : option (str * str) :=
  match s with
  | [] => None
  | c :: s =>
      if c =? sep then Some ([], s)
      else match split_once sep s with Some (a, b) => Some (c :: a, b) | None => None end
  end.

(** [s.lines()]: pieces ended by a newline, an optional carriage return before it removed; the
    last piece is kept only when it is not empty. *)
Definition strip_cr (s : str) : str :=
  match last s with Some c => if c =? 13 then take (length s - 1) s else s | None => s end.

Fixpoint lines_of (pieces : list str) : list str :=
  match pieces with
  | [] => []
  | [final] => if non_empty final then [final] else []
  | piece :: rest => strip_cr piece :: lines_of rest
  end.
Definition lines (s : str) : list str := lines_of (split_on (Z.eqb 10) s).

(** [s.trim()]. *)
Fixpoint trim_start (s : str) : str :=
  match s with c :: s' => if is_whitespace c then trim_start s' else s | [] => [] end.
Definition trim (s : str) : str := reverse (trim_start (reverse (trim_start s))).

(** [s.parse::<uN>()]: an optional plus sign, then at least one decimal digit, in range. *)
Definition is_digit (c : Z) : bool := (48 <=? c) && (c <=? 57).

Fixpoint parse_digits (w acc : Z) (s : str) : option Z :=
  match s with
  | [] => Some acc
  | c :: s =>
      if is_digit c then
        m ← checked_mul w acc 10; a ← checked_add w m (c - 48); parse_digits w a s
      else None
  end.

Definition parse_uint (w : Z) (s : str) : option Z :=
  match s with
  | [] => None
  | c :: rest =>
      if c =? 43 then (if non_empty rest then parse_digits w 0 rest else None)
      else parse_digits w 0 s
  end.

(** The loop of [parse_ipv4]: [count += 1] on a [u8] panics after 255 octets. *)
Fixpoint ipv4_loop (parts : list str) (acc count : Z) : exec (option (Z * Z)) :=
  match parts with
  | [] => Done (Some (acc, count))
  | part :: parts =>
      match parse_uint 8 part with
      | None => Done None
      | Some octet =>
          c ← add_uint 8 count 1;
          ipv4_loop parts (Z.lor (Z.shiftl acc 8 mod 2 ^ 32) octet) c
      end
  end.

Definition parse_ipv4 (s : str) : exec (option Z) :=
  r ← ipv4_loop (split_on (Z.eqb 46) s) 0 0;
  match r with
  | Some (acc, count) => Done (if count =? 4 then Some acc else None)
  | None => Done None
  end.

(** The string literals of the code. *)
Definition lit (s : string) : str := (fun a => Z.of_N (Ascii.N_of_ascii a)) <$> String.list_ascii_of_string s.

Definition parse_protocol (s : str) : option (option Protocol) :=
  if bool_decide (s = lit "tcp") then Some (Some Tcp)
  else if bool_decide (s = lit "udp") then Some (Some Udp)
  else if bool_decide (s = lit "*") then Some None
  else None.

Definition parse_host (s : str) : exec (option HostMatch) :=
  if bool_decide (s = lit "*") then Done (Some HostAny)
  else match split_once 47 s with
       | Some (ip_s, prefix_s) =>
           r ← parse_ipv4 ip_s;
           Done (base ← r; prefix ← parse_uint 8 prefix_s;
                 if 32 <? prefix then None else Some (Cidr base prefix))
       | None =>
           r ← parse_ipv4 s;
           Done (match r with Some base => Some (Cidr base 32) | None => Some (DomainSuffix s) end)
       end.

Definition parse_port (s : str) : option PortMatch :=
  if bool_decide (s = lit "*") then Some PortAny
  else match split_once 45 s with
       | Some (lo_s, hi_s) => lo ← parse_uint 16 lo_s; hi ← parse_uint 16 hi_s; Some (Range lo hi)
       | None => p ← parse_uint 16 s; Some (Exact p)
       end.

Definition rule_parse (line : str) : exec (option EgressRule) :=
  match split_whitespace line with
  | [proto_s; host_s; port_s] =>
      match parse_protocol proto_s with
      | None => Done None
      | Some p =>
          h ← parse_host host_s;
          Done (host ← h; port ← parse_port port_s; Some (mkRule p host port))
      end
  | _ => Done None
  end.

Fixpoint parse_lines (ls : list str) (acc : AppAllowList) : exec AppAllowList :=
  match ls with
  | [] => Done acc
  | line :: ls =>
      let line := trim line in
      if bool_decide (line = []) || bool_decide (head line = Some 35) then parse_lines ls acc
      else
        r ← rule_parse line;
        parse_lines ls (match r with Some rule => push_rule acc rule | None => acc end)
  end.

Definition allowlist_parse (id text : str) : exec AppAllowList :=
  parse_lines (lines text) (AppAllowList_new id).

(** ** Policy and enforcer *)

Inductive NetCapability := CapNone | Granted.
#[export] Instance NetCapability_eq_dec : EqDecision NetCapability.
Proof. solve_decision. Defined.

Inductive DenyReason := NoCapability | NotAllowed.
Inductive EgressDecision := Allow | Deny (r : DenyReason).

Definition is_allowed (d : EgressDecision) : bool :=
  match d with Allow => true | Deny _ => false end.

Definition may_open_socket (cap : NetCapability) : bool :=
  match cap with Granted => true | CapNone => false end.

Definition evaluate (cap : NetCapability) (allow : AppAllowList) (t : EgressTarget) : EgressDecision :=
  match cap with
  | CapNone => Deny NoCapability
  | Granted => if permits allow t then Allow else Deny NotAllowed
  end.

Record NetEnforcer := mkEnforcer { conntrack : ConnTrack }.
Definition NetEnforcer_new : NetEnforcer := mkEnforcer ConnTrack_new.

Definition open_socket (cap : NetCapability) (allow : AppAllowList) (t : EgressTarget) :
    result DenyReason () :=
  match evaluate cap allow t with
  | Allow => Ok ()
  | Deny reason => Err reason
  end.

(** The target the packet path checks: no domain is known there. *)
Definition packet_target (pkt : Packet) : EgressTarget :=
  mkTarget (protocol pkt) (ep_ip (dst pkt)) None (ep_port (dst pkt)).

Definition enforcer_filter (e : NetEnforcer) (cap : NetCapability) (allow : AppAllowList)
    (pkt : Packet) : Verdict * NetEnforcer :=
  if negb (may_open_socket cap) then (Drop, e)
  else if negb (is_inbound pkt) && negb (permits allow (packet_target pkt)) then (Drop, e)
  else let '(v, ct) := ct_filter (conntrack e) pkt in (v, mkEnforcer ct).

(** ** Rendering *)

(** The digits [push_u16] leaves in its buffer; five iterations cover a [u16]. *)
Fixpoint digits_loop (fuel : nat) (v : Z) (buf : str) : str :=
  match fuel with
  | O => buf
  | S fuel => if 0 <? v then digits_loop fuel (v / 10) (48 + v mod 10 :: buf) else buf
  end.

Definition push_u16 (v : Z) : str := if v =? 0 then lit "0" else digits_loop 5 v [].
Definition push_u8 (v : Z) : str := push_u16 v.

Definition octet (base : Z) (i : Z) : Z := Z.shiftr base (8 * (3 - i)) mod 256.

#[global] Arguments push_u16 v : simpl never.
#[global] Arguments octet base i : simpl never.

Definition describe_host (h : HostMatch) : str :=
  match h with
  | HostAny => lit "any"
  | Cidr base prefix =>
      push_u8 (octet base 0) ++ lit "." ++ push_u8 (octet base 1) ++ lit "." ++
      push_u8 (octet base 2) ++ lit "." ++ push_u8 (octet base 3) ++
      (if prefix =? 32 then [] else lit "/" ++ push_u8 prefix)
  | DomainSuffix d => lit "*." ++ d
  end.

Definition describe_port (p : PortMatch) : str :=
  match p with
  | PortAny => lit "any"
  | Exact p => push_u16 p
  | Range lo hi => push_u16 lo ++ lit "-" ++ push_u16 hi
  end.

Definition describe_rule (r : EgressRule) : str :=
  (match r_protocol r with Some Tcp => lit "tcp" | Some Udp => lit "udp" | None => lit "any" end)
  ++ lit " " ++ describe_host (r_host r) ++ lit " " ++ describe_port (r_port r).

Definition is_unrestricted_rule (r : EgressRule) : bool :=
  bool_decide (r_protocol r = None) && bool_decide (r_host r = HostAny)
  && bool_decide (r_port r = PortAny).

Record AppNetworkView := mkView {
  v_app_id : str;
  has_capability : bool;
  can_egress : bool;
  unrestricted : bool;
  rule_count : Z;
  v_rules : list str;
  domains : list str;
}.

(** [if !v.iter().any(|e| e == d) { v.push(d) }]. *)
Definition push_distinct (acc : list str) (d : str) : list str :=
  if existsb (fun e => bool_decide (e = d)) acc then acc else acc ++ [d].

Definition rule_domain (r : EgressRule) : option str :=
  match r_host r with DomainSuffix d => Some d | _ => None end.

Definition view_build (cap : NetCapability) (l : AppAllowList) : AppNetworkView :=
  let hc := bool_decide (cap = Granted) in
  mkView (app_id l) hc
    (hc && negb (bool_decide (rules l = [])))
    (existsb is_unrestricted_rule (rules l))
    (Z.of_nat (length (rules l)))
    (describe_rule <$> rules l)
    (foldl push_distinct [] (omap rule_domain (rules l))).

Definition overview_build (apps : list (NetCapability * AppAllowList)) : list AppNetworkView :=
  (fun '(cap, l) => view_build cap l) <$> apps.

Definition app_count (apps : list AppNetworkView) : Z := Z.of_nat (length apps).
Definition apps_with_network (apps : list AppNetworkView) : Z :=
  Z.of_nat (length (List.filter can_egress apps)).
Definition apps_unrestricted (apps : list AppNetworkView) : Z :=
  Z.of_nat (length (List.filter unrestricted apps)).
Definition distinct_domains (apps : list AppNetworkView) : list str :=
  merge_sort str_le (foldl push_distinct [] (concat (domains <$> apps))).

Definition egress_impact_score (apps : list AppNetworkView) : Z :=
  if (app_count apps =? 0) || (apps_with_network apps =? 0) then 0
  else if 0 <? apps_unrestricted apps then 100
  else
    let share := apps_with_network apps * 90 / app_count apps in
    if share <? 2 ^ 8 then share else 90.

(** ** Flow keys *)

(** Two packets between the same endpoints, in either direction. *)
Definition same_endpoints (p q : Packet) : Prop :=
  protocol p = protocol q /\
  ((src p = src q /\ dst p = dst q) \/ (src p = dst q /\ dst p = src q)).

Lemma endpoint_leb_total a b : endpoint_leb a b = false -> endpoint_leb b a = true.
Proof. unfold endpoint_leb. destruct a as [i p], b as [j q]; simpl. lia. Qed.

Lemma endpoint_leb_antisym a b : endpoint_leb a b = true -> endpoint_leb b a = true -> a = b.
Proof.
  unfold endpoint_leb. destruct a as [i p], b as [j q]; simpl. intros.
  assert (i = j /\ p = q) as [-> ->] by lia. done.
Qed.

(** The key identifies a flow whatever the direction of the packet, and nothing else. *)
Lemma canonical_eq p q : canonical p = canonical q <-> same_endpoints p q.
Proof.
  unfold canonical, same_endpoints. destruct p as [pp s d ? ?], q as [pq s' d' ? ?]; simpl.
  assert (Hp : proto_number pp = proto_number pq <-> pp = pq) by (destruct pp, pq; done).
  destruct (endpoint_leb s d) eqn:H1, (endpoint_leb s' d') eqn:H2; split;
    try (intros [= ?%Hp ? ?]; tauto);
    intros [-> [[-> ->]|[-> ->]]]; try congruence; f_equal; try done.
  all: try (by apply endpoint_leb_antisym); try (by symmetry; apply endpoint_leb_antisym).
  all: apply endpoint_leb_total in H1, H2; by rewrite ?(endpoint_leb_antisym _ _ H1 H2).
Qed.

(** ** Histories of the enforcer *)

(** A packet of an application with its capability and allow list. *)
Record Event := mkEvent { e_cap : NetCapability; e_allow : AppAllowList; e_pkt : Packet }.

(** The enforcer after a sequence of packets, with the log of its verdicts. *)
Definition net_step (s : NetEnforcer * list (Event * Verdict)) (ev : Event) :
    NetEnforcer * list (Event * Verdict) :=
  let '(v, e) := enforcer_filter s.1 (e_cap ev) (e_allow ev) (e_pkt ev) in (e, s.2 ++ [(ev, v)]).
Definition net_run (s : NetEnforcer * list (Event * Verdict)) (evs : list Event) :
    NetEnforcer * list (Event * Verdict) := foldl net_step s evs.

(** The entry is an admitted packet of the flow [k]. *)
Definition on_flow (k : FlowKey) (x : Event * Verdict) : bool :=
  bool_decide (x.2 = Accept) && bool_decide (canonical (e_pkt x.1) = k).
Definition resets (k : FlowKey) (x : Event * Verdict) : bool :=
  on_flow k x && fl_rst (flags (e_pkt x.1)).
Definition finishes (k : FlowKey) (x : Event * Verdict) : bool :=
  on_flow k x && fl_fin (flags (e_pkt x.1)).
Definition fin_count (k : FlowKey) (log : list (Event * Verdict)) : nat :=
  length (List.filter (finishes k) log).

(** The packet opens a flow with key [k] within the policy of its application. *)
Definition opens_flow (k : FlowKey) (x : Event * Verdict) : Prop :=
  x.2 = Accept /\ canonical (e_pkt x.1) = k /\ e_cap x.1 = Granted /\
  direction (e_pkt x.1) = Outbound /\ permits (e_allow x.1) (packet_target (e_pkt x.1)) = true /\
  (protocol (e_pkt x.1) = Tcp ->
   fl_syn (flags (e_pkt x.1)) = true /\ fl_ack (flags (e_pkt x.1)) = false).

(** An inbound packet that answers the opening. *)
Definition answers (k : FlowKey) (x : Event * Verdict) : bool :=
  on_flow k x && is_inbound (e_pkt x.1).

(** What the log says of a tracked flow: who opened it, and how far it has been torn down since. *)
Definition flow_history (log : list (Event * Verdict)) (k : FlowKey) (st : ConnState) : Prop :=
  exists pre o post,
    log = pre ++ o :: post /\ opens_flow k o /\
    (st = Established -> existsb (answers k) post = true) /\
    (fk_proto k = 6 ->
     existsb (resets k) post = false /\ fin_count k post = (if decide (st = Closing) then 1 else 0)%nat).

Definition history_inv (s : NetEnforcer * list (Event * Verdict)) : Prop :=
  forall k st, flows (conntrack s.1) !! k = Some st -> st <> Closed /\ flow_history s.2 k st.

Lemma fin_count_snoc k log x :
  fin_count k (log ++ [x]) = (fin_count k log + (if finishes k x then 1 else 0))%nat.
Proof. unfold fin_count. rewrite List.filter_app, length_app. simpl. by destruct (finishes k x). Qed.

(** A log entry that is not an admitted packet of the flow leaves its history unchanged. *)
Lemma flow_history_skip log k st x :
  on_flow k x = false -> flow_history log k st -> flow_history (log ++ [x]) k st.
Proof.
  intros Hx (pre & o & post & -> & Ho & He & Ht). exists pre, o, (post ++ [x]).
  rewrite <- app_assoc. split; [done|]. split; [done|]. split.
  - intros H. by rewrite existsb_app, (He H).
  - intros H. destruct (Ht H) as [Hr Hf]. rewrite existsb_app, Hr, fin_count_snoc, Hf.
    unfold resets, finishes. simpl. rewrite Hx. split; [done|]. simpl. lia.
Qed.

Lemma fk_proto_canonical p : fk_proto (canonical p) = 6 <-> protocol p = Tcp.
Proof. unfold canonical. destruct (endpoint_leb _ _), (protocol p); simpl; split; done. Qed.

(** An admitted packet of a tracked flow extends the history to the next state. *)
Lemma flow_history_advance log ev st next :
  st <> Closed -> flow_history log (canonical (e_pkt ev)) st ->
  advance (protocol (e_pkt ev)) st (e_pkt ev) = next -> next <> Closed ->
  flow_history (log ++ [(ev, Accept)]) (canonical (e_pkt ev)) next.
Proof.
  intros Hst (pre & o & post & -> & Ho & He & Ht) Hadv Hn.
  exists pre, o, (post ++ [(ev, Accept)]). rewrite <- app_assoc. split; [done|]. split; [done|].
  set (k := canonical (e_pkt ev)) in *.
  assert (Hon : on_flow k (ev, Accept) = true) by (unfold on_flow; simpl; by rewrite !bool_decide_true).
  rewrite !existsb_app. simpl. rewrite !orb_false_r. rewrite fin_count_snoc.
  unfold answers at 2, resets at 2, finishes. rewrite Hon. simpl.
  unfold advance in Hadv. split.
  - intros ->. destruct (is_inbound (e_pkt ev)) eqn:Hin; [apply orb_true_r|]. rewrite orb_false_r.
    apply He. destruct (protocol (e_pkt ev)); [|destruct st; congruence].
    destruct (fl_rst _); [congruence|]. destruct (fl_fin _); [destruct st; congruence|].
    simpl in Hadv. destruct st; congruence.
  - intros Hk. destruct (Ht Hk) as [Hr Hf]. rewrite Hr, Hf. apply fk_proto_canonical in Hk.
    rewrite Hk in Hadv.
    destruct (fl_rst _); [congruence|]. split; [done|].
    destruct (fl_fin _); [destruct st; subst; simpl in *; by try congruence|].
    destruct st; subst; simpl in *; repeat case_match; simpl in *; try congruence; try lia.
Qed.

Lemma history_skip_all e log x :
  (forall k, is_Some (flows (conntrack e) !! k) -> on_flow k x = false) ->
  history_inv (e, log) -> history_inv (e, log ++ [x]).
Proof. intros Hx H k st Hk. destruct (H k st Hk). split; [done|]. apply flow_history_skip; eauto. Qed.

Lemma on_flow_drop k ev : on_flow k (ev, Drop) = false.
Proof. done. Qed.

Lemma on_flow_other k ev v : k <> canonical (e_pkt ev) -> on_flow k (ev, v) = false.
Proof.
  intros H. unfold on_flow; simpl. rewrite (bool_decide_false (canonical _ = _)) by congruence.
  apply andb_false_r.
Qed.

(** The connection filter keeps the history, for a packet its caller has cleared. *)
Lemma history_inv_ct e log ev v ct :
  e_cap ev = Granted ->
  (direction (e_pkt ev) = Outbound -> permits (e_allow ev) (packet_target (e_pkt ev)) = true) ->
  ct_filter (conntrack e) (e_pkt ev) = (v, ct) ->
  history_inv (e, log) -> history_inv (mkEnforcer ct, log ++ [(ev, v)]).
Proof.
  intros Hc Hp Hf Hinv. unfold ct_filter in Hf.
  set (key := canonical (e_pkt ev)) in *.
  destruct (flows (conntrack e) !! key) as [st|] eqn:Hkey.
  - injection Hf as <- <-. destruct (Hinv _ _ Hkey) as [Hst Hh].
    set (next := advance (protocol (e_pkt ev)) st (e_pkt ev)) in *.
    intros k st' Hk. simpl in *. destruct (decide (k = key)) as [->|Hne].
    + destruct next eqn:Hnext; rewrite ?lookup_insert_eq, ?lookup_delete_eq in Hk;
        simplify_eq; (split; [done|]); by apply (flow_history_advance log ev st).
    + destruct (Hinv k st') as [? ?].
      { destruct next; by rewrite ?lookup_insert_ne, ?lookup_delete_ne in Hk by done. }
      split; [done|]. apply flow_history_skip; [by apply on_flow_other|done].
  - destruct (direction (e_pkt ev)) eqn:Hd.
    2:{ injection Hf as <- <-. apply history_skip_all; [done|]. by destruct e as [[?]]. }
    destruct (stray_open (e_pkt ev)) eqn:Hs; injection Hf as <- <-.
    { apply history_skip_all; [done|]. by destruct e as [[?]]. }
    intros k st' Hk. simpl in *. destruct (decide (k = key)) as [->|Hne].
    + rewrite lookup_insert_eq in Hk. injection Hk as <-. split; [done|].
      exists log, (ev, Accept), []. split; [done|]. split; [|by simpl].
      repeat (split; [by auto|]). intros Ht. unfold stray_open in Hs. simpl in Ht |- *. rewrite Ht in Hs.
      by destruct (fl_syn _), (fl_ack _).
    + rewrite lookup_insert_ne in Hk by done. destruct (Hinv k st' Hk). split; [done|].
      apply flow_history_skip; [by apply on_flow_other|done].
Qed.

Lemma history_inv_step s ev : history_inv s -> history_inv (net_step s ev).
Proof.
  destruct s as [e log]. intros Hinv. unfold net_step, enforcer_filter. simpl.
  destruct (e_cap ev) eqn:Hc; simpl; [by apply history_skip_all|].
  destruct (is_inbound (e_pkt ev)) eqn:Hin, (permits (e_allow ev) (packet_target (e_pkt ev))) eqn:Hp;
    simpl; try by apply history_skip_all.
  all: destruct (ct_filter (conntrack e) (e_pkt ev)) as [v ct] eqn:Hf; simpl;
    apply (history_inv_ct e log ev v ct); try done.
  unfold is_inbound in Hin. by destruct (direction _).
Qed.

Lemma history_inv_run evs : history_inv (net_run (NetEnforcer_new, []) evs).
Proof.
  unfold net_run. apply foldl_invariant; [intros; by apply history_inv_step|].
  intros k st Hk. simpl in Hk. by rewrite lookup_empty in Hk.
Qed.

(** ** Safety of the packet path *)

(** C18. Whatever packets the applications of the host send and receive, an inbound packet is
    admitted only to an application that holds a network capability, and only on a flow that an
    application with a capability opened from inside: the log contains an admitted outbound packet
    between the same endpoints (in the reply direction, or with source and destination as in the
    opening, because the flow key forgets the direction) to a destination on the allow list of its
    application, for TCP a pure SYN; and since then no RST of the flow and at most one FIN passed,
    for TCP. *)
Theorem no_unsolicited_inbound (evs : list Event) (ev : Event) :
  let '(e, log) := net_run (NetEnforcer_new, []) evs in
  let pkt := e_pkt ev in
  direction pkt = Inbound ->
  (enforcer_filter e (e_cap ev) (e_allow ev) pkt).1 = Accept ->
  e_cap ev = Granted /\
  exists pre o post,
    log = pre ++ (o, Accept) :: post /\
    e_cap o = Granted /\ direction (e_pkt o) = Outbound /\
    permits (e_allow o) (packet_target (e_pkt o)) = true /\
    same_endpoints (e_pkt o) pkt /\
    (protocol pkt = Tcp ->
     fl_syn (flags (e_pkt o)) = true /\ fl_ack (flags (e_pkt o)) = false /\
     existsb (resets (canonical pkt)) post = false /\ (fin_count (canonical pkt) post <= 1)%nat).
Proof.
  pose proof (history_inv_run evs) as Hinv. destruct (net_run _ evs) as [e log]. simpl.
  unfold enforcer_filter. intros Hd Hacc. destruct (e_cap ev) eqn:Hc; [done|]. split; [done|].
  simpl in Hacc. unfold is_inbound in Hacc. rewrite Hd in Hacc. simpl in Hacc.
  unfold ct_filter in Hacc. rewrite Hd in Hacc.
  destruct (flows (conntrack e) !! canonical (e_pkt ev)) as [st|] eqn:Hk; [|done].
  destruct (Hinv _ _ Hk) as [_ (pre & [o v] & post & Hlog & Ho & _ & Ht)]. simpl in Hlog. subst log.
  destruct Ho as (Hv & Hcan & Hcap & Hdir & Hper & Hopen). simpl in *. subst v.
  exists pre, o, post. repeat (split; [done|]). split; [by apply canonical_eq|].
  intros Htcp. destruct Ht as [Hr Hf]; [by apply fk_proto_canonical|].
  apply canonical_eq in Hcan as [Hproto _]. destruct Hopen; [by rewrite Hproto|].
  repeat (split; [done|]). rewrite Hf. destruct (decide _); lia.
Qed.

(** ** Liveness of the packet path *)

(** The packet does not tear down a TCP flow. *)
Definition harmless (k : FlowKey) (ev : Event) : bool :=
  negb (bool_decide (canonical (e_pkt ev) = k))
  || match protocol (e_pkt ev) with
     | Tcp => negb (fl_rst (flags (e_pkt ev))) && negb (fl_fin (flags (e_pkt ev)))
     | Udp => true
     end.

Lemma advance_not_closed p st pkt :
  st <> Closed -> (p = Tcp -> fl_rst (flags pkt) = false /\ fl_fin (flags pkt) = false) ->
  advance p st pkt <> Closed.
Proof.
  intros Hst Hp. unfold advance. destruct p; [|by destruct st, (is_inbound pkt)].
  destruct Hp as [-> ->]; [done|]. destruct st; try done. by case_match.
Qed.

(** A flow stays tracked across packets that do not tear it down. *)
Lemma tracked_step k s ev :
  harmless k ev = true ->
  (exists st, flows (conntrack s.1) !! k = Some st /\ st <> Closed) ->
  exists st, flows (conntrack (net_step s ev).1) !! k = Some st /\ st <> Closed.
Proof.
  intros Hh (st & Hk & Hst). unfold net_step, enforcer_filter.
  destruct (negb (may_open_socket _)); [by exists st|].
  destruct (negb _ && _); [by exists st|]. unfold ct_filter.
  destruct (decide (canonical (e_pkt ev) = k)) as [Heq|Hne].
  - rewrite Heq, Hk. simpl. set (next := advance _ _ _).
    assert (Hn : next <> Closed).
    { apply advance_not_closed; [done|]. intros Ht. unfold harmless in Hh.
      rewrite bool_decide_true, Ht in Hh by done. by destruct (fl_rst _), (fl_fin _). }
    exists next. split; [|done]. destruct next; simpl; by rewrite ?lookup_insert_eq.
  - destruct (flows _ !! canonical (e_pkt ev)); simpl.
    + exists st. by case_match; simpl; rewrite ?lookup_insert_ne, ?lookup_delete_ne.
    + destruct (direction (e_pkt ev)); [destruct (stray_open _)|]; simpl; exists st;
        by rewrite ?lookup_insert_ne.
Qed.

Lemma tracked_run k evs s :
  forallb (harmless k) evs = true ->
  (exists st, flows (conntrack s.1) !! k = Some st /\ st <> Closed) ->
  exists st, flows (conntrack (net_run s evs).1) !! k = Some st /\ st <> Closed.
Proof.
  revert s. induction evs as [|ev evs IH]; intros s Hh Hk; [done|].
  simpl in Hh. apply andb_true_iff in Hh as [Hev Hh]. simpl. apply IH; [done|].
  by apply tracked_step.
Qed.

(** An admitted outbound packet opens the way for its replies: after any further packets of
    any applications, none of which resets or finishes that flow (TCP), an inbound packet between
    the same endpoints is admitted to every application with a capability. *)
Theorem reply_admitted (s : NetEnforcer * list (Event * Verdict)) (o : Event) (evs : list Event)
    (ev : Event) :
  history_inv s ->
  (enforcer_filter s.1 (e_cap o) (e_allow o) (e_pkt o)).1 = Accept ->
  harmless (canonical (e_pkt o)) o = true ->
  forallb (harmless (canonical (e_pkt o))) evs = true ->
  same_endpoints (e_pkt o) (e_pkt ev) -> direction (e_pkt ev) = Inbound -> e_cap ev = Granted ->
  (enforcer_filter (net_run (net_step s o) evs).1 (e_cap ev) (e_allow ev) (e_pkt ev)).1 = Accept.
Proof.
  intros Hinv Hacc Ho Hevs Hend Hd Hc.
  destruct (tracked_run (canonical (e_pkt o)) evs (net_step s o)) as (st & Hk & _); [done| |].
  - destruct (flows (conntrack s.1) !! canonical (e_pkt o)) as [st|] eqn:Hk.
    { apply tracked_step; [done|]. exists st. split; [done|]. by apply (Hinv _ _ Hk). }
    unfold net_step, enforcer_filter, ct_filter in *. rewrite Hk in *.
    destruct (negb (may_open_socket _)); [done|]. destruct (negb _ && _); [done|].
    destruct (direction (e_pkt o)); [|done]. destruct (stray_open _); [done|]. simpl.
    exists New. by rewrite lookup_insert_eq.
  - apply canonical_eq in Hend. unfold enforcer_filter. rewrite Hc. unfold is_inbound. rewrite Hd.
    simpl. unfold ct_filter. rewrite <- Hend, Hk. done.
Qed.

(** ** What the rules mean *)

Definition host_denotes (h : HostMatch) (ip : Z) (domain : option str) : Prop :=
  match h with
  | HostAny => True
  | Cidr base prefix => ip / 2 ^ (32 - prefix) = base / 2 ^ (32 - prefix)
  | DomainSuffix s => exists d, domain = Some d /\ (d = s \/ exists rest, d = rest ++ 46 :: s)
  end.

Definition port_denotes (m : PortMatch) (port : Z) : Prop :=
  match m with PortAny => True | Exact p => port = p | Range lo hi => lo <= port <= hi end.

Definition rule_denotes (r : EgressRule) (t : EgressTarget) : Prop :=
  (r_protocol r = None \/ r_protocol r = Some (t_protocol t)) /\
  host_denotes (r_host r) (t_ip t) (t_domain t) /\ port_denotes (r_port r) (t_port t).

(** The ranges of the fields, which the parser guarantees. *)
Definition host_ok (h : HostMatch) : Prop :=
  match h with Cidr base prefix => in_uint 32 base /\ 0 <= prefix <= 32 | _ => True end.
Definition port_ok (m : PortMatch) : Prop :=
  match m with
  | PortAny => True
  | Exact p => in_uint 16 p
  | Range lo hi => in_uint 16 lo /\ in_uint 16 hi
  end.
Definition rule_ok (r : EgressRule) : Prop := host_ok (r_host r) /\ port_ok (r_port r).

Lemma host_matches_spec h ip domain :
  host_ok h -> in_uint 32 ip -> host_matches h ip domain = true <-> host_denotes h ip domain.
Proof.
  intros Hh Hip. destruct h as [|base prefix|s]; simpl in *; [done| |].
  - destruct Hh as [Hb Hp]. rewrite !land_prefix_mask, Z.eqb_eq by done.
    assert (0 < 2 ^ (32 - prefix)) by (apply Z.pow_pos_nonneg; lia). nia.
  - destruct domain as [d|]; [|by split; [|intros (? & ? & ?)]].
    assert (Hs : forall rest, d = rest ++ s -> strip_suffix s d = Some rest)
      by (intros rest; apply strip_suffix_Some).
    split.
    + destruct (strip_suffix s d) as [rest|] eqn:Hr; [|done].
      apply strip_suffix_Some in Hr as ->. unfold label_boundary. intros Hl. exists (rest ++ s).
      split; [done|]. destruct (last rest) as [c|] eqn:Hlast.
      * right. apply Z.eqb_eq in Hl as ->. apply last_Some in Hlast as [rest' ->].
        exists rest'. by rewrite <- app_assoc.
      * left. apply last_None in Hlast as ->. done.
    + intros (d' & [= <-] & [-> |[rest ->]]).
      * by rewrite (Hs []).
      * rewrite (Hs (rest ++ [46])) by (by rewrite <- app_assoc). unfold label_boundary.
        by rewrite last_snoc.
Qed.

Lemma port_matches_spec m port : port_matches m port = true <-> port_denotes m port.
Proof. destruct m; simpl; [done|lia|lia]. Qed.

Lemma rule_matches_spec r t :
  rule_ok r -> in_uint 32 (t_ip t) -> rule_matches r t = true <-> rule_denotes r t.
Proof.
  intros [Hh Hp] Hip. unfold rule_matches, rule_denotes.
  rewrite <- (host_matches_spec _ _ (t_domain t) Hh Hip), <- port_matches_spec.
  rewrite <- andb_true_iff. destruct (r_protocol r) as [p|]; [|naive_solver].
  case_bool_decide; naive_solver.
Qed.

Lemma permits_spec l t :
  Forall rule_ok (rules l) -> in_uint 32 (t_ip t) ->
  permits l t = true <-> exists r, r ∈ rules l /\ rule_denotes r t.
Proof.
  intros Hl Hip. unfold permits. rewrite existsb_exists. setoid_rewrite <- list_elem_of_In.
  rewrite Forall_forall in Hl.
  split; intros (r & Hr & Hm); exists r; (split; [done|]); by apply rule_matches_spec; auto.
Qed.

(** *** The parser's output is in range *)

Lemma parse_digits_bound w acc s v : 0 <= acc < 2 ^ w -> parse_digits w acc s = Some v -> in_uint w v.
Proof.
  revert acc. induction s as [|c s IH]; intros acc Ha; simpl; [by intros [= <-]|].
  unfold is_digit. destruct ((48 <=? c) && _) eqn:Hc; [|done]. zbool. unfold checked_mul, checked_add. simpl.
  destruct (acc * 10 <? 2 ^ w) eqn:H1; simpl; [|done].
  destruct (_ + _ <? 2 ^ w) eqn:H2; simpl; [|done]. zbool. apply IH. lia.
Qed.

Lemma parse_uint_bound w s v : 0 <= w -> parse_uint w s = Some v -> in_uint w v.
Proof.
  intros Hw. assert (0 < 2 ^ w) by (by apply Z.pow_pos_nonneg).
  destruct s as [|c s]; [done|]. simpl. destruct (c =? 43); [destruct (non_empty s); [|done]|];
    [|change (parse_digits w 0 (c :: s) = Some v -> in_uint w v)]; apply parse_digits_bound; lia.
Qed.

Lemma join_octet acc o :
  in_uint 32 acc -> in_uint 8 o ->
  Z.lor (Z.shiftl acc 8 mod 2 ^ 32) o = (acc * 256 + o) mod 2 ^ 32.
Proof.
  unfold in_uint. intros Ha Ho. rewrite Z.lor_comm.
  assert (Hm : Z.shiftl acc 8 mod 2 ^ 32 = Z.shiftl (acc mod 2 ^ 24) 8).
  { rewrite !Z.shiftl_mul_pow2 by lia. replace (2 ^ 32) with (2 ^ 24 * 2 ^ 8) by done.
    by rewrite Z.mul_mod_distr_r. }
  rewrite Hm, lor_shiftl by lia.
  pose proof (Z.div_mod acc (2 ^ 24) ltac:(lia)). pose proof (Z.mod_pos_bound acc (2 ^ 24) ltac:(lia)).
  apply Z.mod_unique with (acc / 2 ^ 24); lia.
Qed.

Lemma ipv4_loop_bound parts acc count a c :
  in_uint 32 acc -> ipv4_loop parts acc count = Done (Some (a, c)) -> in_uint 32 a.
Proof.
  revert acc count. induction parts as [|p parts IH]; intros acc count Ha; simpl; [by intros [= <- _]|].
  destruct (parse_uint 8 p) as [o|] eqn:Ho; [|done]. apply parse_uint_bound in Ho; [|lia].
  unfold add_uint. destruct (_ <? _); simpl; [|done]. apply IH. rewrite join_octet by done.
  unfold in_uint. apply Z.mod_pos_bound. lia.
Qed.

Lemma parse_ipv4_bound s base : parse_ipv4 s = Done (Some base) -> in_uint 32 base.
Proof.
  unfold parse_ipv4. destruct (ipv4_loop _ 0 0) as [[[a c]|]|] eqn:Hl; try done. simpl.
  destruct (c =? 4); [|done]. intros [= <-]. eapply ipv4_loop_bound, Hl. unfold in_uint. lia.
Qed.

Lemma parse_host_ok s h : parse_host s = Done (Some h) -> host_ok h.
Proof.
  unfold parse_host. case_bool_decide; [by intros [= <-]|].
  destruct (split_once 47 s) as [[ip_s prefix_s]|].
  - destruct (parse_ipv4 ip_s) as [[base|]|] eqn:Hb; try done. simpl.
    destruct (parse_uint 8 prefix_s) as [prefix|] eqn:Hp; [|done]. simpl.
    destruct (32 <? prefix) eqn:H32; [done|]. intros [= <-]. zbool.
    apply parse_uint_bound in Hp; [|lia]. apply parse_ipv4_bound in Hb.
    split; [done|]. unfold in_uint in Hp. lia.
  - destruct (parse_ipv4 s) as [[base|]|] eqn:Hb; try done; simpl; intros [= <-]; [|done].
    split; [by eapply parse_ipv4_bound|lia].
Qed.

Lemma parse_port_ok s m : parse_port s = Some m -> port_ok m.
Proof.
  unfold parse_port. case_bool_decide; [by intros [= <-]|].
  destruct (split_once 45 s) as [[lo_s hi_s]|].
  - destruct (parse_uint 16 lo_s) eqn:H1; [|done]. simpl. destruct (parse_uint 16 hi_s) eqn:H2; [|done].
    intros [= <-]. simpl. split; by eapply parse_uint_bound.
  - destruct (parse_uint 16 s) eqn:H1; [|done]. intros [= <-]. by eapply parse_uint_bound.
Qed.

Lemma rule_parse_ok line r : rule_parse line = Done (Some r) -> rule_ok r.
Proof.
  unfold rule_parse. destruct (split_whitespace line) as [|p [|h [|m [|]]]]; try done.
  destruct (parse_protocol p); [|done].
  destruct (parse_host h) as [[host|]|] eqn:Hh; try done. simpl.
  destruct (parse_port m) as [port|] eqn:Hm; [|done]. simpl. intros [= <-].
  split; [by eapply parse_host_ok|by eapply parse_port_ok].
Qed.

Lemma parse_lines_ok ls acc l :
  Forall rule_ok (rules acc) -> parse_lines ls acc = Done l -> Forall rule_ok (rules l).
Proof.
  revert acc. induction ls as [|line ls IH]; intros acc Ha; simpl; [by intros [= <-]|].
  destruct (_ || _); [by apply IH|].
  destruct (rule_parse (trim line)) as [[r|]|] eqn:Hr; simpl; try done; apply IH; [|done].
  simpl. apply Forall_app. split; [done|]. repeat constructor; by apply rule_parse_ok in Hr as [? ?].
Qed.

(** An allow list read from its text permits exactly what its rules say: a target is
    permitted if and only if some rule has its protocol (or any), its port, and its host, where a
    CIDR rule holds the addresses that share its leading [prefix] bits, and a domain rule the
    domain itself and the names that end with a dot and the domain. *)
Theorem permits_exact (id text : str) (l : AppAllowList) (t : EgressTarget) :
  allowlist_parse id text = Done l -> in_uint 32 (t_ip t) ->
  permits l t = true <-> exists r, r ∈ rules l /\ rule_denotes r t.
Proof.
  intros Hl. apply permits_spec. eapply parse_lines_ok, Hl. constructor.
Qed.

(** An application whose allow list names only domains opens its sockets and then cannot send:
    the packet path knows no domain, so it drops every outbound packet whatever the state of the
    connection table, also to a destination [open_socket] has just accepted. *)
Theorem domain_rules_block_packets (e : NetEnforcer) (l : AppAllowList) (pkt : Packet) (d : str) :
  Forall (fun r => exists s, r_host r = DomainSuffix s) (rules l) ->
  direction pkt = Outbound ->
  open_socket Granted l (mkTarget (protocol pkt) (ep_ip (dst pkt)) (Some d) (ep_port (dst pkt))) = Ok () ->
  enforcer_filter e Granted l pkt = (Drop, e).
Proof.
  intros Hl Hd _. unfold enforcer_filter. simpl. unfold is_inbound. rewrite Hd. simpl.
  replace (permits l (packet_target pkt)) with false; [done|]. symmetry. unfold permits.
  induction Hl as [|r rs [s Hs] _ IH]; [done|]. simpl. rewrite IH, orb_false_r.
  unfold rule_matches. rewrite Hs. simpl. destruct (r_protocol r); [by case_bool_decide|done].
Qed.

(** *** Rendering and parsing numbers *)

Definition digits (s : str) : Prop := Forall (fun c => is_digit c = true) s.

(** The value of a digit string read after the digits of [acc]. *)
Definition dec_value (acc : Z) (s : str) : Z := foldl (fun a c => a * 10 + (c - 48)) acc s.

Lemma dec_value_le acc s : 0 <= acc -> digits s -> acc <= dec_value acc s.
Proof.
  intros Ha Hs. revert acc Ha. induction Hs as [|c s Hc _ IH]; intros acc Ha; simpl; [lia|].
  unfold is_digit in Hc. etrans; [|apply IH]; lia.
Qed.

Lemma parse_digits_value w acc s :
  0 <= acc -> digits s -> dec_value acc s < 2 ^ w -> parse_digits w acc s = Some (dec_value acc s).
Proof.
  intros Ha Hs. revert acc Ha. induction Hs as [|c s Hc Hs IH]; intros acc Ha Hv; [done|].
  simpl in *. rewrite Hc. unfold is_digit in Hc.
  pose proof (dec_value_le (acc * 10 + (c - 48)) s ltac:(lia) Hs).
  unfold checked_mul, checked_add. rewrite (proj2 (Z.ltb_lt (acc * 10) (2 ^ w))) by lia. simpl.
  rewrite (proj2 (Z.ltb_lt (acc * 10 + (c - 48)) (2 ^ w))) by lia. simpl. apply IH; lia.
Qed.

Lemma digits_loop_spec fuel v buf :
  0 <= v < 10 ^ Z.of_nat fuel -> digits buf ->
  digits (digits_loop fuel v buf) /\ dec_value 0 (digits_loop fuel v buf) = dec_value v buf /\
  (v <> 0 \/ buf <> [] -> digits_loop fuel v buf <> []).
Proof.
  revert v buf. induction fuel as [|fuel IH]; intros v buf Hv Hb.
  { simpl in *. replace v with 0 by lia. naive_solver. }
  rewrite Nat2Z.inj_succ, Z.pow_succ_r in Hv by lia. simpl.
  destruct (Z.ltb_spec 0 v); [|replace v with 0 by lia; naive_solver].
  pose proof (Z.mod_pos_bound v 10 ltac:(lia)).
  destruct (IH (v / 10) (48 + v mod 10 :: buf)) as (H1 & H2 & H3).
  - split; [apply Z.div_pos; lia|apply Z.div_lt_upper_bound; lia].
  - constructor; [|done]. unfold is_digit. lia.
  - split; [done|]. split; [|intros _; apply H3; by right]. rewrite H2. simpl. f_equal.
    rewrite (Z.div_mod v 10) at 3 by lia. lia.
Qed.

Lemma push_u16_spec v :
  in_uint 16 v -> digits (push_u16 v) /\ dec_value 0 (push_u16 v) = v /\ push_u16 v <> [].
Proof.
  unfold in_uint. intros Hv. unfold push_u16. destruct (Z.eqb_spec v 0) as [->|].
  { split; [by repeat constructor|done]. }
  destruct (digits_loop_spec 5 v []) as (H1 & H2 & H3); [|constructor|].
  - change (10 ^ Z.of_nat 5) with 100000. change (2 ^ 16) with 65536 in Hv. lia.
  - auto.
Qed.

Lemma parse_push w v : in_uint 16 v -> v < 2 ^ w -> parse_uint w (push_u16 v) = Some v.
Proof.
  intros Hv Hw. destruct (push_u16_spec v Hv) as (Hd & He & Hn).
  destruct (push_u16 v) as [|c s] eqn:Hs; [done|]. simpl.
  assert (Hc : is_digit c = true) by (by inversion Hd). unfold is_digit in Hc.
  replace (c =? 43) with false by lia.
  change (parse_digits w 0 (c :: s) = Some v). by rewrite parse_digits_value, He by (done || lia).
Qed.

(** *** Splitting *)

Lemma digits_free (sep : Z -> bool) s :
  (forall c, is_digit c = true -> sep c = false) -> digits s -> free_of sep s.
Proof. intros H Hs. by eapply Forall_impl. Qed.

Lemma split_once_sep sep a s :
  free_of (Z.eqb sep) a -> split_once sep (a ++ sep :: s) = Some (a, s).
Proof.
  induction 1 as [|x a Hx _ IH]; simpl; [by rewrite Z.eqb_refl|].
  rewrite Z.eqb_sym in Hx. by rewrite Hx, IH.
Qed.

Lemma split_once_free sep a : free_of (Z.eqb sep) a -> split_once sep a = None.
Proof. induction 1 as [|x a Hx _ IH]; simpl; [done|]. rewrite Z.eqb_sym in Hx. by rewrite Hx, IH. Qed.

Lemma split_whitespace_3 a b c :
  free_of is_whitespace a -> free_of is_whitespace b -> free_of is_whitespace c ->
  a <> [] -> b <> [] -> c <> [] ->
  split_whitespace (a ++ 32 :: b ++ 32 :: c) = [a; b; c].
Proof.
  intros Ha Hb Hc ???. unfold split_whitespace.
  rewrite split_on_sep, split_on_sep, split_on_free by done.
  by destruct a, b, c.
Qed.

(** *** Rendered rules parse back *)

Lemma octet_bound base i : in_uint 8 (octet base i).
Proof. apply Z.mod_pos_bound. lia. Qed.

Lemma octet_u16 base i : in_uint 16 (octet base i).
Proof. pose proof (octet_bound base i) as H. unfold in_uint in *. lia. Qed.

Lemma join_octets base :
  in_uint 32 base ->
  ((octet base 0 * 256 + octet base 1) * 256 + octet base 2) * 256 + octet base 3 = base.
Proof.
  unfold in_uint, octet. intros Hb. rewrite !Z.shiftr_div_pow2 by lia.
  change (2 ^ (8 * (3 - 0))) with (256 * 256 * 256). change (2 ^ (8 * (3 - 1))) with (256 * 256).
  change (2 ^ (8 * (3 - 2))) with 256. change (2 ^ (8 * (3 - 3))) with 1.
  rewrite Z.div_1_r, <- !Z.div_div by lia.
  assert (base / 256 / 256 / 256 < 256) by (repeat (apply Z.div_lt_upper_bound; [lia|]); lia).
  assert (0 <= base / 256 / 256 / 256) by (repeat (apply Z.div_pos; [|lia]); lia).
  rewrite (Z.mod_small (base / 256 / 256 / 256)) by lia.
  pose proof (Z.div_mod base 256 ltac:(lia)). pose proof (Z.div_mod (base / 256) 256 ltac:(lia)).
  pose proof (Z.div_mod (base / 256 / 256) 256 ltac:(lia)). lia.
Qed.

(** The dotted quad of an address. *)
Definition quad (base : Z) : str :=
  push_u8 (octet base 0) ++ 46 :: push_u8 (octet base 1) ++ 46 :: push_u8 (octet base 2) ++
  46 :: push_u8 (octet base 3).

Lemma push_free sep v :
  (forall c, is_digit c = true -> sep c = false) -> in_uint 16 v -> free_of sep (push_u16 v).
Proof. intros Hs Hv. eapply digits_free; [done|]. by apply push_u16_spec. Qed.

Lemma digit_range c : is_digit c = true -> 48 <= c <= 57.
Proof. unfold is_digit. lia. Qed.

Lemma quad_free sep base :
  (forall c, is_digit c = true -> sep c = false) -> sep 46 = false -> free_of sep (quad base).
Proof.
  intros Hs Hd. pose proof (octet_u16 base) as Ho.
  assert (Hp : forall i, free_of sep (push_u8 (octet base i))) by (intros i; by apply push_free).
  unfold quad, free_of. repeat (apply Forall_app; split; [apply Hp|]; constructor; [done|]). apply Hp.
Qed.

Lemma parse_quad base : in_uint 32 base -> parse_ipv4 (quad base) = Done (Some base).
Proof.
  intros Hb. unfold parse_ipv4, quad.
  assert (Hp : forall i, free_of (Z.eqb 46) (push_u8 (octet base i))).
  { intros i. apply push_free; [|apply octet_u16]. intros c ?%digit_range. lia. }
  rewrite !split_on_sep, split_on_free by (done || apply Hp). cbn [ipv4_loop].
  assert (Hu : forall i, parse_uint 8 (push_u8 (octet base i)) = Some (octet base i)).
  { intros i. pose proof (octet_bound base i) as H. apply parse_push; [apply octet_u16|apply H]. }
  rewrite !Hu. rewrite !add_uint_Done by lia. cbn [mbind exec_bind].
  pose proof (octet_bound base 0) as H0. pose proof (octet_bound base 1) as H1.
  pose proof (octet_bound base 2) as H2. pose proof (octet_bound base 3) as H3.
  pose proof (join_octets base Hb) as Hj. unfold in_uint in *.
  rewrite (Z.mod_small 0) by lia. change (Z.lor 0 (octet base 0)) with (octet base 0).
  rewrite (join_octet (octet base 0)), (Z.mod_small (_ * 256 + octet base 1)) by (unfold in_uint; lia).
  rewrite (join_octet (_ * 256 + octet base 1)), (Z.mod_small (_ * 256 + octet base 2)) by (unfold in_uint; lia).
  rewrite (join_octet (_ * 256 + octet base 2)), Hj, Z.mod_small by (unfold in_uint; lia). done.
Qed.

Lemma describe_cidr base prefix :
  describe_host (Cidr base prefix) = quad base ++ (if prefix =? 32 then [] else 47 :: push_u8 prefix).
Proof.
  unfold describe_host, quad. change (lit ".") with [46]. change (lit "/") with [47].
  repeat (rewrite <- app_assoc; cbn [app]). done.
Qed.

Lemma push_head v s : in_uint 16 v -> exists c r, push_u16 v ++ s = c :: r /\ is_digit c = true.
Proof.
  intros Hv. destruct (push_u16_spec v Hv) as (Hd & _ & Hn).
  destruct (push_u16 v) as [|c r]; [done|]. exists c, (r ++ s). split; [done|]. by inversion Hd.
Qed.

Lemma parse_describe_host base prefix :
  host_ok (Cidr base prefix) ->
  parse_host (describe_host (Cidr base prefix)) = Done (Some (Cidr base prefix)).
Proof.
  intros [Hb Hp]. rewrite describe_cidr. unfold parse_host.
  assert (Hf : free_of (Z.eqb 47) (quad base)) by (apply quad_free; [intros c ?%digit_range; lia|done]).
  rewrite bool_decide_false.
  2:{ unfold quad. rewrite <- app_assoc.
      destruct (push_head (octet base 0) ((46 :: push_u8 (octet base 1) ++ 46 :: push_u8 (octet base 2) ++
        46 :: push_u8 (octet base 3)) ++ (if prefix =? 32 then [] else 47 :: push_u8 prefix)))
        as (c & r & Hc & Hdig); [apply octet_u16|].
      unfold push_u8 at 1. rewrite Hc. intros [= -> _]. done. }
  destruct (Z.eqb_spec prefix 32) as [->|Hne].
  - rewrite app_nil_r, split_once_free, parse_quad by done. done.
  - rewrite split_once_sep, parse_quad by done. simpl.
    unfold push_u8. rewrite parse_push by (unfold in_uint; lia). simpl.
    by rewrite (proj2 (Z.ltb_ge 32 prefix)) by lia.
Qed.

Lemma parse_describe_port m :
  port_ok m -> m <> PortAny -> parse_port (describe_port m) = Some m.
Proof.
  assert (Hfree : forall v, in_uint 16 v -> free_of (Z.eqb 45) (push_u16 v)).
  { intros v Hv. apply push_free; [|done]. intros c ?%digit_range. lia. }
  assert (Hstar : forall v s, in_uint 16 v -> bool_decide (push_u16 v ++ s = lit "*") = false).
  { intros v s Hv. apply bool_decide_false. destruct (push_head v s Hv) as (c & r & -> & Hc).
    intros [= -> _]. done. }
  assert (Hparse : forall v, in_uint 16 v -> parse_uint 16 (push_u16 v) = Some v).
  { intros v Hv. apply parse_push; [done|apply Hv]. }
  intros Hm Hne. destruct m as [|p|lo hi]; [done| |].
  - simpl in Hm. unfold parse_port, describe_port. rewrite <- (app_nil_r (push_u16 p)), Hstar by done.
    by rewrite app_nil_r, split_once_free, Hparse by auto.
  - destruct Hm as [Hlo Hhi]. unfold parse_port, describe_port. change (lit "-") with [45]. cbn [app].
    by rewrite Hstar, split_once_sep, !Hparse by auto.
Qed.

Lemma describe_free m h :
  rule_ok (mkRule None h m) -> (exists base prefix, h = Cidr base prefix) -> m <> PortAny ->
  free_of is_whitespace (describe_host h) /\ describe_host h <> [] /\
  free_of is_whitespace (describe_port m) /\ describe_port m <> [].
Proof.
  assert (Hw : forall c, is_digit c = true -> is_whitespace c = false).
  { intros c ?%digit_range. unfold is_whitespace. lia. }
  assert (Hne : forall v s, in_uint 16 v -> push_u16 v ++ s <> []).
  { intros v s Hv. by destruct (push_head v s Hv) as (c & r & -> & _). }
  intros [Hh Hm] (base & prefix & ->) Hp. simpl in Hh. rewrite describe_cidr. split; [|split; [|split]].
  - apply Forall_app. split; [by apply quad_free|]. destruct (prefix =? 32); constructor; [done|].
    apply push_free; [done|]. unfold in_uint. lia.
  - unfold quad. rewrite <- app_assoc. apply Hne, octet_u16.
  - destruct m as [|p|lo hi]; [done|by apply push_free|]. destruct Hm as [Hlo Hhi].
    apply Forall_app. split; [by apply push_free|]. constructor; [done|]. by apply push_free.
  - destruct m as [|p|lo hi]; [done| |apply Hne, Hm].
    cbn [describe_port]. rewrite <- (app_nil_r (push_u16 p)). by apply Hne.
Qed.

(** The rendering of a rule for the settings panel is a line of the text format where the two
    notations agree: for a rule with a protocol, an address or CIDR host and a port or range,
    parsing the rendered line gives the rule back, whatever its values. *)
Theorem describe_parse_roundtrip (p : Protocol) (base prefix : Z) (m : PortMatch) :
  in_uint 32 base -> 0 <= prefix <= 32 -> port_ok m -> m <> PortAny ->
  rule_parse (describe_rule (mkRule (Some p) (Cidr base prefix) m))
  = Done (Some (mkRule (Some p) (Cidr base prefix) m)).
Proof.
  intros Hb Hp Hm Hne. unfold rule_parse.
  destruct (describe_free m (Cidr base prefix)) as (H1 & H2 & H3 & H4); [by split|by eauto|done|].
  set (proto := match p with Tcp => lit "tcp" | Udp => lit "udp" end).
  assert (Hd : describe_rule (mkRule (Some p) (Cidr base prefix) m)
    = proto ++ 32 :: describe_host (Cidr base prefix) ++ 32 :: describe_port m) by (by destruct p).
  rewrite Hd, split_whitespace_3; [|destruct p; by repeat constructor|done|done|by destruct p|done|done].
  replace (parse_protocol proto) with (Some (Some p)) by (by destruct p).
  by rewrite parse_describe_host, parse_describe_port.
Qed.

(** *** Panics of the parser *)

Lemma ipv4_loop_panic parts acc count :
  0 <= count < 256 ->
  ipv4_loop parts acc count = Panic <->
  (Z.to_nat (256 - count) <= length parts)%nat /\
  Forall (fun p => is_Some (parse_uint 8 p)) (take (Z.to_nat (256 - count)) parts).
Proof.
  revert acc count. induction parts as [|p parts IH]; intros acc count Hc; simpl.
  { split; [done|]. intros [? _]. lia. }
  replace (Z.to_nat (256 - count)) with (S (Z.to_nat (256 - (count + 1)))) by lia. simpl.
  rewrite Forall_cons. destruct (parse_uint 8 p) as [o|].
  2:{ split; [done|]. by intros (_ & [? ?] & _). }
  unfold add_uint. destruct (Z.ltb_spec (count + 1) (2 ^ 8)); simpl.
  - rewrite IH by lia. split; [intros [? ?]|intros (? & _ & ?)]; repeat split; eauto; lia.
  - split; [|done]. intros _. replace (Z.to_nat (256 - (count + 1))) with 0%nat by lia.
    rewrite take_0. split; [lia|]. split; [eauto|constructor].
Qed.

(** The address parser panics on exactly the strings that begin with 256 dotted octets, where
    its [u8] counter overflows; such a host field makes the whole allow list fail to load, although
    a malformed line is documented to be skipped. *)
Theorem parse_ipv4_panics_iff (s : str) :
  parse_ipv4 s = Panic <->
  (256 <= length (split_on (Z.eqb 46) s))%nat /\
  Forall (fun p => is_Some (parse_uint 8 p)) (take 256 (split_on (Z.eqb 46) s)).
Proof.
  change 256%nat with (Z.to_nat (256 - 0)). rewrite <- (ipv4_loop_panic _ 0) by lia.
  unfold parse_ipv4. destruct (ipv4_loop _ 0 0) as [[[a c]|]|]; simpl; split; done.
Qed.

(** A line of the text file with such a host. *)
Definition long_host_line : str :=
  lit "tcp 0" ++ mjoin (replicate 255 (lit ".0")) ++ lit " 80".
Example long_host_aborts :
  allowlist_parse (lit "app") (long_host_line ++ 10 :: lit "tcp 10.0.0.0/8 443") = Panic.
Proof. vm_compute. reflexivity. Qed.

(** ** Concrete instances *)

Definition demo_text : str := lit "# demo" ++ 10 :: lit "tcp 10.0.0.0/8 443" ++ 10 :: lit "* example.com 1000-2000".
Definition demo_list : AppAllowList :=
  mkAllowList (lit "app")
    [mkRule (Some Tcp) (Cidr 167772160 8) (Exact 443);
     mkRule None (DomainSuffix (lit "example.com")) (Range 1000 2000)].
Definition demo_host : Endpoint := mkEndpoint 3232235778 12345.
Definition demo_peer : Endpoint := mkEndpoint 167772161 443.
Definition demo_out (f : TcpFlags) : Event :=
  mkEvent Granted demo_list (mkPacket Tcp demo_host demo_peer Outbound f).
Definition demo_in (f : TcpFlags) : Event :=
  mkEvent Granted demo_list (mkPacket Tcp demo_peer demo_host Inbound f).

Example demo_parse : allowlist_parse (lit "app") demo_text = Done demo_list.
Proof. vm_compute. reflexivity. Qed.

Lemma no_unsolicited_inbound_witness :
  exists pre o post,
    (net_run (NetEnforcer_new, []) [demo_out flags_syn; demo_in flags_syn_ack]).2
      = pre ++ (o, Accept) :: post /\ direction (e_pkt o) = Outbound.
Proof.
  pose proof (no_unsolicited_inbound [demo_out flags_syn; demo_in flags_syn_ack] (demo_in flags_ack)) as H.
  destruct (net_run _ _) as [e log] eqn:He in H. vm_compute in He. injection He as <- <-.
  destruct H as (_ & pre & o & post & Hlog & _ & Ho & _); [reflexivity|vm_compute; reflexivity|].
  exists pre, o, post. split; [exact Hlog|exact Ho].
Defined.

Lemma reply_admitted_witness :
  (enforcer_filter (net_run (net_step (NetEnforcer_new, []) (demo_out flags_syn)) [demo_in flags_syn_ack]).1
     Granted demo_list (e_pkt (demo_in flags_ack))).1 = Accept.
Proof.
  apply (reply_admitted (NetEnforcer_new, []) (demo_out flags_syn) [demo_in flags_syn_ack] (demo_in flags_ack)).
  - apply (history_inv_run []).
  - vm_compute. reflexivity.
  - reflexivity.
  - reflexivity.
  - split; [reflexivity|]. right. split; reflexivity.
  - reflexivity.
  - reflexivity.
Defined.

Lemma permits_exact_witness :
  permits demo_list (mkTarget Udp 1 (Some (lit "www.example.com")) 1500) = true.
Proof.
  apply (permits_exact (lit "app") demo_text demo_list); [exact demo_parse|unfold in_uint; simpl; lia|].
  eexists. split; [right; left|]. split; [left; reflexivity|]. split; [|simpl; lia].
  eexists. split; [reflexivity|]. right. exists (lit "www"). reflexivity.
Defined.

Lemma domain_rules_block_packets_witness :
  let l := mkAllowList (lit "app") [mkRule None (DomainSuffix (lit "example.com")) PortAny] in
  enforcer_filter NetEnforcer_new Granted l (e_pkt (demo_out flags_syn)) = (Drop, NetEnforcer_new).
Proof.
  apply (domain_rules_block_packets _ _ _ (lit "example.com")).
  - constructor; [|constructor]. eexists. reflexivity.
  - reflexivity.
  - reflexivity.
Defined.

Lemma describe_parse_roundtrip_witness :
  rule_parse (describe_rule (mkRule (Some Udp) (Cidr 3232235520 16) (Range 53 65535)))
  = Done (Some (mkRule (Some Udp) (Cidr 3232235520 16) (Range 53 65535))).
Proof.
  apply describe_parse_roundtrip; [unfold in_uint; lia|lia|split; unfold in_uint; lia|discriminate].
Defined.
