(* ===== verification/NetHeaders.v ===== *)
(** * Packet headers, checksums and routing

    The wire formats of [src/crates/nexacore-types/src/net.rs] (the internet
    checksum, Ethernet, IPv4, IPv6, ICMP, UDP, TCP and ARP headers, CIDR
    blocks), the routing table and packet construction of
    [src/crates/nexacore-net/src/ip.rs], and the UDP sockets of
    [src/crates/nexacore-net/src/udp.rs].  An address is its list of bytes. *)

From S2P Require Import Prelude.

(** ** Integers in network byte order *)

(** [u16::from_be_bytes([hi, lo])] and [to_be_bytes]. *)
Definition be16 (x : Z) : bytes := [x / 256; x mod 256].
Definition from_be16 (hi lo : Z) : Z := hi * 256 + lo.
Definition be32 (x : Z) : bytes := [x / 2 ^ 24; x / 2 ^ 16 mod 256; x / 2 ^ 8 mod 256; x mod 256].
Definition from_be32 (a b c d : Z) : Z := ((a * 256 + b) * 256 + c) * 256 + d.
#[global] Arguments be16 x : simpl never.
#[global] Arguments be32 x : simpl never.
#[global] Arguments from_be16 hi lo : simpl never.
#[global] Arguments from_be32 a b c d : simpl never.

(** [u16::from_be_bytes([*bytes.get(i)?, *bytes.get(i + 1)?])] and the like. *)
Definition u16_at (b : bytes) (i : nat) : option Z :=
  hi ← b !! i; lo ← b !! S i; Some (from_be16 hi lo).
Definition u32_at (b : bytes) (i : nat) : option Z :=
  x ← b !! i; y ← b !! S i; z ← b !! S (S i); w ← b !! S (S (S i)); Some (from_be32 x y z w).
Definition arr_at (b : bytes) (i n : nat) : option bytes :=
  if (i + n <=? length b)%nat then Some (take n (drop i b)) else None.

(** [bytes.get(i..)]. *)
Definition rest_at (b : bytes) (i : nat) : option bytes :=
  if (i <=? length b)%nat then Some (drop i b) else None.

(** The body of every [serialize]: the header overwrites the first [n] bytes of the buffer. *)
Definition write_header (n : nat) (hdr buf : bytes) : option bytes :=
  if (length buf <? n)%nat then None else Some (splice buf 0 hdr).

(** ** The internet checksum *)

(** The word loop: two bytes at a time, with the odd byte that is left over. *)
Fixpoint sum_words (data : bytes) (sum : Z) : exec (Z * option Z) :=
  match data with
  | hi :: lo :: rest => s ← add_uint 32 sum (from_be16 hi lo); sum_words rest s
  | [b] => Done (sum, Some b)
  | [] => Done (sum, None)
  end.

(** The odd byte is the high half of a last word. *)
Definition add_odd (sum : Z) (odd : option Z) : exec Z :=
  match odd with Some b => add_uint 32 sum (Z.shiftl b 8) | None => Done sum end.

(** [while sum >> 16 != 0]: on a [u32] the loop runs at most twice. *)
Fixpoint fold_carries (fuel : nat) (sum : Z) : Z :=
  match fuel with
  | O => sum
  | S fuel =>
      if Z.shiftr sum 16 =? 0 then sum
      else fold_carries fuel (Z.land sum 65535 + Z.shiftr sum 16)
  end.

(** [!(sum as u16)] after the folding loop. *)
Definition fold_invert (sum : Z) : Z := not_uint 16 (fold_carries 3 sum mod 2 ^ 16).

Definition internet_checksum (data : bytes) : exec Z :=
  '(sum, odd) ← sum_words data 0;
  sum ← add_odd sum odd;
  Done (fold_invert sum).

(** One slice, after [carry_byte.take()]. *)
Definition combine_slice (sum : Z) (carry : option Z) (slice : bytes) : exec (Z * option Z) :=
  match carry with
  | Some prev =>
      match slice with
      | first :: rest => s ← add_uint 32 sum (from_be16 prev first); sum_words rest s
      | [] => Done (sum, Some prev)
      end
  | None => sum_words slice sum
  end.

Fixpoint combine_loop (slices : list bytes) (sum : Z) (carry : option Z) : exec (Z * option Z) :=
  match slices with
  | [] => Done (sum, carry)
  | slice :: slices => '(sum, carry) ← combine_slice sum carry slice; combine_loop slices sum carry
  end.

Definition checksum_combine (slices : list bytes) : exec Z :=
  '(sum, carry) ← combine_loop slices 0 None;
  sum ← add_odd sum carry;
  Done (fold_invert sum).

(** ** Ethernet *)

Record EthernetHeader := mkEthernet { eth_dst : bytes; eth_src : bytes; ether_type : Z }.

Definition ETHERTYPE_IPV4 : Z := 2048.
Definition ETHERTYPE_ARP : Z := 2054.

Definition ethernet_bytes (h : EthernetHeader) : bytes := eth_dst h ++ eth_src h ++ be16 (ether_type h).
Definition ethernet_serialize (h : EthernetHeader) (buf : bytes) : option bytes :=
  write_header 14 (ethernet_bytes h) buf.
Definition ethernet_parse (b : bytes) : option (EthernetHeader * bytes) :=
  if (length b <? 14)%nat then None
  else d ← arr_at b 0 6; s ← arr_at b 6 6; t ← u16_at b 12;
       rest ← rest_at b 14; Some (mkEthernet d s t, rest).

(** ** IPv4 *)

Definition PROTO_ICMP : Z := 1.
Definition PROTO_TCP : Z := 6.
Definition PROTO_UDP : Z := 17.

Record Ipv4Header := mkIpv4 {
  version_ihl : Z;
  dscp_ecn : Z;
  total_length : Z;
  identification : Z;
  flags_fragment : Z;
  ttl : Z;
  ip_protocol : Z;
  header_checksum : Z;
  ip_src : bytes;
  ip_dst : bytes;
}.

Definition ipv4_bytes (h : Ipv4Header) : bytes :=
  [version_ihl h; dscp_ecn h] ++ be16 (total_length h) ++ be16 (identification h)
  ++ be16 (flags_fragment h) ++ [ttl h; ip_protocol h] ++ be16 (header_checksum h)
  ++ ip_src h ++ ip_dst h.
Definition ipv4_serialize (h : Ipv4Header) (buf : bytes) : option bytes :=
  write_header 20 (ipv4_bytes h) buf.

Definition ipv4_parse (b : bytes) : option (Ipv4Header * bytes) :=
  if (length b <? 20)%nat then None
  else
    vi ← b !! 0%nat;
    let ihl := (Z.to_nat (Z.land vi 15) * 4)%nat in
    if (ihl <? 20)%nat || (length b <? ihl)%nat then None
    else
      de ← b !! 1%nat; tl ← u16_at b 2; id ← u16_at b 4; ff ← u16_at b 6;
      tt ← b !! 8%nat; pr ← b !! 9%nat; ck ← u16_at b 10;
      s ← arr_at b 12 4; d ← arr_at b 16 4;
      rest ← rest_at b ihl;
      Some (mkIpv4 vi de tl id ff tt pr ck s d, rest).

Definition with_checksum (h : Ipv4Header) (c : Z) : Ipv4Header :=
  mkIpv4 (version_ihl h) (dscp_ecn h) (total_length h) (identification h) (flags_fragment h)
    (ttl h) (ip_protocol h) c (ip_src h) (ip_dst h).

(** The buffer keeps its zeroes when [serialize] fails. *)
Definition serialized (n : nat) (ser : bytes -> option bytes) : bytes :=
  default (replicate n 0) (ser (replicate n 0)).

Definition ipv4_compute_checksum (h : Ipv4Header) : exec Z :=
  internet_checksum (serialized 20 (ipv4_serialize (with_checksum h 0))).
Definition ipv4_verify_checksum (h : Ipv4Header) : exec bool :=
  c ← ipv4_compute_checksum h; Done (c =? header_checksum h).

(** ** IPv6 *)

Record Ipv6Header := mkIpv6 {
  version_tc_flow : Z;
  payload_length : Z;
  next_header : Z;
  hop_limit : Z;
  v6_src : bytes;
  v6_dst : bytes;
}.

Definition Ipv6Header_new (traffic_class flow_label plen next hop : Z) (s d : bytes) : Ipv6Header :=
  mkIpv6 (Z.lor (Z.lor (Z.shiftl 6 28) (Z.shiftl traffic_class 20)) (Z.land flow_label 1048575))
    plen next hop s d.
Definition v6_version (h : Ipv6Header) : Z :=
  let v := Z.shiftr (version_tc_flow h) 28 in if v <? 256 then v else 0.
Definition v6_traffic_class (h : Ipv6Header) : Z := Z.land (Z.shiftr (version_tc_flow h) 20) 255.
Definition v6_flow_label (h : Ipv6Header) : Z := Z.land (version_tc_flow h) 1048575.

Definition ipv6_bytes (h : Ipv6Header) : bytes :=
  be32 (version_tc_flow h) ++ be16 (payload_length h) ++ [next_header h; hop_limit h]
  ++ v6_src h ++ v6_dst h.
Definition ipv6_serialize (h : Ipv6Header) (buf : bytes) : option bytes :=
  write_header 40 (ipv6_bytes h) buf.
Definition ipv6_parse (b : bytes) : option (Ipv6Header * bytes) :=
  if (length b <? 40)%nat then None
  else
    v ← u32_at b 0; pl ← u16_at b 4; nh ← b !! 6%nat; hl ← b !! 7%nat;
    s ← arr_at b 8 16; d ← arr_at b 24 16;
    rest ← rest_at b 40; Some (mkIpv6 v pl nh hl s d, rest).

(** ** ICMP *)

Record IcmpHeader := mkIcmp { icmp_type : Z; icmp_code : Z; icmp_checksum : Z; icmp_rest : bytes }.

Definition icmp_bytes (h : IcmpHeader) : bytes :=
  [icmp_type h; icmp_code h] ++ be16 (icmp_checksum h) ++ icmp_rest h.
Definition icmp_serialize (h : IcmpHeader) (buf : bytes) : option bytes :=
  write_header 8 (icmp_bytes h) buf.
Definition icmp_parse (b : bytes) : option (IcmpHeader * bytes) :=
  if (length b <? 8)%nat then None
  else
    t ← b !! 0%nat; c ← b !! 1%nat; ck ← u16_at b 2; r ← arr_at b 4 4;
    rest ← rest_at b 8; Some (mkIcmp t c ck r, rest).
Definition icmp_compute_checksum (h : IcmpHeader) (payload : bytes) : exec Z :=
  checksum_combine
    [serialized 8 (icmp_serialize (mkIcmp (icmp_type h) (icmp_code h) 0 (icmp_rest h))); payload].
Definition icmp_verify_checksum (h : IcmpHeader) (payload : bytes) : exec bool :=
  c ← icmp_compute_checksum h payload; Done (c =? icmp_checksum h).

Record IcmpEchoHeader := mkEcho { echo_id : Z; echo_sequence : Z }.
Definition to_rest (e : IcmpEchoHeader) : bytes := be16 (echo_id e) ++ be16 (echo_sequence e).
Definition from_rest (r : bytes) : option IcmpEchoHeader :=
  id ← u16_at r 0; sq ← u16_at r 2; Some (mkEcho id sq).

(** ** UDP and TCP *)

(** [UdpPseudoHeader] and [TcpPseudoHeader] have the same fields and layout. *)
Record PseudoHeader := mkPseudo {
  ps_src : bytes; ps_dst : bytes; ps_zero : Z; ps_protocol : Z; ps_length : Z
}.
Definition pseudo_bytes (p : PseudoHeader) : bytes :=
  ps_src p ++ ps_dst p ++ [ps_zero p; ps_protocol p] ++ be16 (ps_length p).

Record UdpHeader := mkUdp { udp_src_port : Z; udp_dst_port : Z; udp_length : Z; udp_checksum : Z }.

Definition udp_bytes (h : UdpHeader) : bytes :=
  be16 (udp_src_port h) ++ be16 (udp_dst_port h) ++ be16 (udp_length h) ++ be16 (udp_checksum h).
Definition udp_serialize (h : UdpHeader) (buf : bytes) : option bytes :=
  write_header 8 (udp_bytes h) buf.
Definition udp_parse (b : bytes) : option (UdpHeader * bytes) :=
  if (length b <? 8)%nat then None
  else
    sp ← u16_at b 0; dp ← u16_at b 2; ln ← u16_at b 4; ck ← u16_at b 6;
    rest ← rest_at b 8; Some (mkUdp sp dp ln ck, rest).
Definition udp_compute_checksum (h : UdpHeader) (pseudo : PseudoHeader) (payload : bytes) : exec Z :=
  checksum_combine
    [pseudo_bytes pseudo;
     serialized 8 (udp_serialize (mkUdp (udp_src_port h) (udp_dst_port h) (udp_length h) 0));
     payload].
Definition udp_verify_checksum (h : UdpHeader) (pseudo : PseudoHeader) (payload : bytes) : exec bool :=
  c ← udp_compute_checksum h pseudo payload; Done (c =? udp_checksum h).

Record TcpHeader := mkTcp {
  tcp_src_port : Z;
  tcp_dst_port : Z;
  seq_num : Z;
  ack_num : Z;
  data_offset_flags : Z;
  window : Z;
  tcp_checksum : Z;
  urgent_ptr : Z;
}.

Definition FIN : Z := 1.
Definition SYN : Z := 2.
Definition RST : Z := 4.
Definition PSH : Z := 8.
Definition ACK : Z := 16.
Definition URG : Z := 32.

Definition tcp_bytes (h : TcpHeader) : bytes :=
  be16 (tcp_src_port h) ++ be16 (tcp_dst_port h) ++ be32 (seq_num h) ++ be32 (ack_num h)
  ++ be16 (data_offset_flags h) ++ be16 (window h) ++ be16 (tcp_checksum h) ++ be16 (urgent_ptr h).
Definition tcp_serialize (h : TcpHeader) (buf : bytes) : option bytes :=
  write_header 20 (tcp_bytes h) buf.
Definition tcp_parse (b : bytes) : option (TcpHeader * bytes) :=
  if (length b <? 20)%nat then None
  else
    dof ← u16_at b 12;
    let data_offset := (Z.to_nat (Z.shiftr dof 12) * 4)%nat in
    if (data_offset <? 20)%nat || (length b <? data_offset)%nat then None
    else
      sp ← u16_at b 0; dp ← u16_at b 2; sn ← u32_at b 4; an ← u32_at b 8;
      wn ← u16_at b 14; ck ← u16_at b 16; up ← u16_at b 18;
      rest ← rest_at b data_offset;
      Some (mkTcp sp dp sn an dof wn ck up, rest).
Definition tcp_flags (h : TcpHeader) : Z := Z.land (data_offset_flags h) 255.
Definition tcp_data_offset (h : TcpHeader) : Z := Z.shiftr (data_offset_flags h) 12 * 4.
Definition tcp_compute_checksum (h : TcpHeader) (pseudo : PseudoHeader) (payload : bytes) : exec Z :=
  checksum_combine
    [pseudo_bytes pseudo;
     serialized 20 (tcp_serialize (mkTcp (tcp_src_port h) (tcp_dst_port h) (seq_num h) (ack_num h)
       (data_offset_flags h) (window h) 0 (urgent_ptr h)));
     payload].
Definition tcp_verify_checksum (h : TcpHeader) (pseudo : PseudoHeader) (payload : bytes) : exec bool :=
  c ← tcp_compute_checksum h pseudo payload; Done (c =? tcp_checksum h).

(** ** ARP *)

Record ArpPacket := mkArp {
  htype : Z; ptype : Z; hlen : Z; plen : Z; operation : Z;
  sender_mac : bytes; sender_ip : bytes; target_mac : bytes; target_ip : bytes;
}.

Definition ARP_REQUEST : Z := 1.
Definition ARP_REPLY : Z := 2.

Definition arp_bytes (p : ArpPacket) : bytes :=
  be16 (htype p) ++ be16 (ptype p) ++ [hlen p; plen p] ++ be16 (operation p)
  ++ sender_mac p ++ sender_ip p ++ target_mac p ++ target_ip p.
Definition arp_serialize (p : ArpPacket) (buf : bytes) : option bytes :=
  write_header 28 (arp_bytes p) buf.
Definition arp_parse (b : bytes) : option ArpPacket :=
  if (length b <? 28)%nat then None
  else
    ht ← u16_at b 0; pt ← u16_at b 2; hl ← b !! 4%nat; pl ← b !! 5%nat; op ← u16_at b 6;
    sm ← arr_at b 8 6; si ← arr_at b 14 4; tm ← arr_at b 18 6; ti ← arr_at b 24 4;
    Some (mkArp ht pt hl pl op sm si tm ti).

(** ** CIDR blocks and routing *)

Record Cidr := mkCidr { addr : bytes; prefix_len : Z }.
#[export] Instance Cidr_eq_dec : EqDecision Cidr.
Proof. solve_decision. Defined.

Definition Cidr_new (a : bytes) (p : Z) : option Cidr := if 32 <? p then None else Some (mkCidr a p).

(** [u32::from_be_bytes] of an address, an array of four bytes. *)
Definition addr_u32 (a : bytes) : Z :=
  match a with [x; y; z; w] => from_be32 x y z w | _ => 0 end.

(** [32 - self.prefix_len] panics for a block built with a longer prefix. *)
Definition netmask (c : Cidr) : exec bytes :=
  if prefix_len c =? 0 then Done (be32 0)
  else _ ← sub_uint 32 (prefix_len c); Done (be32 (prefix_mask (prefix_len c))).

Definition network_addr (c : Cidr) : exec bytes :=
  m ← netmask c; Done (be32 (Z.land (addr_u32 (addr c)) (addr_u32 m))).
Definition broadcast_addr (c : Cidr) : exec bytes :=
  m ← netmask c; Done (be32 (Z.lor (addr_u32 (addr c)) (not_uint 32 (addr_u32 m)))).
Definition contains (c : Cidr) (a : bytes) : exec bool :=
  m ← netmask c; net ← network_addr c;
  Done (Z.land (addr_u32 a) (addr_u32 m) =? addr_u32 net).

Record Route := mkRoute {
  destination : Cidr; gateway : option bytes; interface : str; metric : Z
}.

Record RoutingTable := mkRoutingTable { routes : list Route }.

Definition RoutingTable_new : RoutingTable := mkRoutingTable [].
Definition add_route (rt : RoutingTable) (r : Route) : RoutingTable := mkRoutingTable (routes rt ++ [r]).
Definition remove_route (rt : RoutingTable) (d : Cidr) : bool * RoutingTable :=
  let kept := List.filter (fun r => negb (bool_decide (destination r = d))) (routes rt) in
  ((length kept <? length (routes rt))%nat, mkRoutingTable kept).

(** The filter of [lookup]. *)
Fixpoint candidates (rs : list Route) (dst : bytes) : exec (list Route) :=
  match rs with
  | [] => Done []
  | r :: rs =>
      c ← contains (destination r) dst;
      cs ← candidates rs dst;
      Done (if (c : bool) then r :: cs else cs)
  end.

(** The comparison: longer prefixes first, then smaller metrics. *)
Definition route_le (a b : Route) : Prop :=
  prefix_len (destination b) < prefix_len (destination a) \/
  (prefix_len (destination a) = prefix_len (destination b) /\ metric a <= metric b).
#[export] Instance route_le_dec : RelDecision route_le.
Proof. intros a b. unfold route_le. apply _. Defined.

(** [sort_unstable_by]: some sorted permutation, the order of equal elements being unspecified. *)
Class UnstableSort := {
  sort_unstable : list Route -> list Route;
  sort_unstable_perm : forall l, sort_unstable l ≡ₚ l;
  sort_unstable_sorted : forall l, StronglySorted route_le (sort_unstable l);
}.

Definition route_lookup `{UnstableSort} (rt : RoutingTable) (dst : bytes) : exec (option Route) :=
  cs ← candidates (routes rt) dst; Done (head (sort_unstable cs)).

(** ** Packets *)

(** [u16::try_from(n).unwrap_or(u16::MAX)]. *)
Definition clamp16 (n : Z) : Z := if n <? 2 ^ 16 then n else uint_max 16.

Definition build_ipv4_packet (src dst : bytes) (proto ttl id : Z) (payload : bytes) : exec bytes :=
  let h := mkIpv4 69 0 (clamp16 (20 + Z.of_nat (length payload))) id 16384 ttl proto 0 src dst in
  c ← ipv4_compute_checksum h;
  Done (serialized 20 (ipv4_serialize (with_checksum h c)) ++ payload).

Definition parse_ipv4_packet (data : bytes) : exec (option (Ipv4Header * bytes)) :=
  match ipv4_parse data with
  | None => Done None
  | Some (h, payload) =>
      ok ← ipv4_verify_checksum h;
      Done (if (ok : bool) then Some (h, payload) else None)
  end.

Definition build_ipv6_packet (src dst : bytes) (next hop : Z) (payload : bytes) : bytes :=
  let h := Ipv6Header_new 0 0 (clamp16 (Z.of_nat (length payload))) next hop src dst in
  serialized 40 (ipv6_serialize h) ++ payload.
Definition parse_ipv6_packet (data : bytes) : option (Ipv6Header * bytes) := ipv6_parse data.

Definition build_udp_packet (src_ip dst_ip : bytes) (src_port dst_port : Z) (payload : bytes) : exec bytes :=
  let len := clamp16 (8 + Z.of_nat (length payload)) in
  let h := mkUdp src_port dst_port len 0 in
  c ← udp_compute_checksum h (mkPseudo src_ip dst_ip 0 PROTO_UDP len) payload;
  let out := replicate (8 + length payload) 0 in
  let out := default out (udp_serialize (mkUdp src_port dst_port len c) out) in
  Done (put_range out 8 payload).

(** ** UDP sockets *)

Inductive NetError :=
| ConnectionRefused | ConnectionReset | ConnectionAborted | NetworkUnreachable | HostUnreachable
| TimedOut | AddrInUse | AddrNotAvailable | WouldBlock | InvalidArgument | NotConnected
| AlreadyConnected | BrokenPipe | PermissionDenied | BufferTooSmall | BadFileDescriptor.
#[export] Instance NetError_eq_dec : EqDecision NetError.
Proof. solve_decision. Defined.

Record SocketApiAddr := mkAddr { sa_ip : bytes; sa_port : Z }.
#[export] Instance SocketApiAddr_eq_dec : EqDecision SocketApiAddr.
Proof. solve_decision. Defined.

Definition EPHEMERAL_PORT_MIN : Z := 49152.
Definition EPHEMERAL_PORT_MAX : Z := 65535.

Record UdpSocket := mkUdpSocket {
  local_port : Z; remote : option SocketApiAddr; recv_queue : list (SocketApiAddr * bytes)
}.

Record UdpSocketTable := mkUdpTable { sockets : gmap Z UdpSocket; next_ephemeral : Z }.

Definition UdpSocketTable_new : UdpSocketTable := mkUdpTable ∅ EPHEMERAL_PORT_MIN.

(** The derived [Default], whose next port is not in the ephemeral range. *)
Definition UdpSocketTable_default : UdpSocketTable := mkUdpTable ∅ 0.

Definition udp_bind (t : UdpSocketTable) (port : Z) : result NetError Z * UdpSocketTable :=
  match sockets t !! port with
  | Some _ => (Err AddrInUse, t)
  | None => (Ok port, mkUdpTable (<[port := mkUdpSocket port None []]> (sockets t)) (next_ephemeral t))
  end.

(** The scan of [allocate_ephemeral] from iteration [i] with [n] left. *)
Fixpoint ephemeral_scan (t : UdpSocketTable) (n : nat) (i : Z) :
    exec (result NetError Z * UdpSocketTable) :=
  match n with
  | O => Done (Err AddrInUse, t)
  | S n =>
      let range_len := EPHEMERAL_PORT_MAX - EPHEMERAL_PORT_MIN + 1 in
      off ← sub_uint (next_ephemeral t) EPHEMERAL_PORT_MIN;
      x ← add_uint 16 off i;
      candidate ← add_uint 16 EPHEMERAL_PORT_MIN (x mod range_len);
      match sockets t !! candidate with
      | Some _ => ephemeral_scan t n (i + 1)
      | None =>
          y ← add_uint 16 (candidate - EPHEMERAL_PORT_MIN) 1;
          next ← add_uint 16 EPHEMERAL_PORT_MIN (y mod range_len);
          Done (udp_bind (mkUdpTable (sockets t) next) candidate)
      end
  end.

Definition allocate_ephemeral (t : UdpSocketTable) : exec (result NetError Z * UdpSocketTable) :=
  ephemeral_scan t (Z.to_nat (EPHEMERAL_PORT_MAX - EPHEMERAL_PORT_MIN + 1)) 0.

Definition sendto (t : UdpSocketTable) (port : Z) (dst : SocketApiAddr) (src_ip dst_ip data : bytes) :
    exec (result NetError bytes) :=
  match sockets t !! port with
  | None => Done (Err InvalidArgument)
  | Some _ =>
      u ← build_udp_packet src_ip dst_ip port (sa_port dst) data;
      p ← build_ipv4_packet src_ip dst_ip PROTO_UDP 64 0 u;
      Done (Ok p)
  end.

Definition udp_handle_packet (t : UdpSocketTable) (h : UdpHeader) (payload src_ip : bytes) : UdpSocketTable :=
  match sockets t !! udp_dst_port h with
  | None => t
  | Some s =>
      mkUdpTable
        (<[udp_dst_port h := mkUdpSocket (local_port s) (remote s)
             (recv_queue s ++ [(mkAddr src_ip (udp_src_port h), payload)])]> (sockets t))
        (next_ephemeral t)
  end.

Definition recvfrom (t : UdpSocketTable) (port : Z) : option (SocketApiAddr * bytes) * UdpSocketTable :=
  match sockets t !! port with
  | None => (None, t)
  | Some s =>
      match recv_queue s with
      | [] => (None, t)
      | d :: q => (Some d, mkUdpTable (<[port := mkUdpSocket (local_port s) (remote s) q]> (sockets t))
                             (next_ephemeral t))
      end
  end.

Definition udp_close (t : UdpSocketTable) (port : Z) : UdpSocketTable :=
  mkUdpTable (delete port (sockets t)) (next_ephemeral t).

(** ** The checksum is the ones' complement sum *)

(** The sum of the 16-bit big-endian words of a buffer, the last one padded with a zero byte. *)
Fixpoint word_sum (data : bytes) : Z :=
  match data with
  | hi :: lo :: rest => from_be16 hi lo + word_sum rest
  | [b] => b * 256
  | [] => 0
  end.

(** The reference checksum of RFC 1071: the complement of the sum modulo 2^16 - 1, where a
    non-zero sum never folds to zero. *)
Definition ones_complement (sum : Z) : Z :=
  65535 - (if sum =? 0 then 0 else (sum - 1) mod 65535 + 1).

Lemma word_sum_bound data :
  is_bytes data -> 0 <= word_sum data <= 65535 * ((Z.of_nat (length data) + 1) / 2).
Proof.
  induction data as [|b|hi lo data IH] using pair_ind; intros Hb; [done| |].
  - inversion Hb as [|? ? Hx _]; subst. unfold is_byte in Hx.
    change ((Z.of_nat (length [b]) + 1) / 2) with 1. cbn [word_sum]. lia.
  - inversion Hb as [|? ? Hx Hb']; subst. inversion Hb' as [|? ? Hy Hr]; subst.
    specialize (IH Hr). unfold is_byte in *. cbn [word_sum length]. unfold from_be16.
    rewrite !Nat2Z.inj_succ.
    replace (Z.succ (Z.succ (Z.of_nat (length data))) + 1) with (Z.of_nat (length data) + 1 + 1 * 2) by lia.
    rewrite Z.div_add by lia. lia.
Qed.

Lemma sum_words_exact data sum :
  is_bytes data -> 0 <= sum -> sum + word_sum data < 2 ^ 32 ->
  ('(s, odd) ← sum_words data sum; add_odd s odd) = Done (sum + word_sum data).
Proof.
  revert sum. induction data as [|b|hi lo data IH] using pair_ind; intros sum Hb Hs Hw.
  - simpl. f_equal. lia.
  - simpl in *. rewrite Z.shiftl_mul_pow2 by lia. change (2 ^ 8) with 256. by apply add_uint_Done.
  - inversion Hb as [|? ? Hx Hb']; subst. inversion Hb' as [|? ? Hy Hr]; subst.
    pose proof (word_sum_bound data Hr) as Hd. unfold is_byte in *. cbn [word_sum sum_words] in *.
    assert (0 <= from_be16 hi lo) by (unfold from_be16; lia).
    rewrite add_uint_Done by lia. cbn [mbind exec_bind].
    rewrite IH by (done || lia). f_equal. lia.
Qed.

Lemma fold_step sum :
  0 <= sum -> Z.land sum 65535 + Z.shiftr sum 16 = sum mod 65536 + sum / 65536.
Proof.
  intros Hs. change 65535 with (Z.ones 16). rewrite Z.land_ones, Z.shiftr_div_pow2 by lia. done.
Qed.

(** The folding loop reaches a 16-bit value within its fuel. *)
Lemma fold_carries_spec sum :
  0 <= sum < 2 ^ 32 ->
  fold_carries 3 sum = (if sum =? 0 then 0 else (sum - 1) mod 65535 + 1).
Proof.
  intros Hs.
  assert (Hbase : forall f s, 0 <= s < 65536 -> fold_carries f s = if s =? 0 then 0 else (s - 1) mod 65535 + 1).
  { intros f s H. assert (Hr : fold_carries f s = s).
    { destruct f; [done|]. simpl. rewrite Z.shiftr_div_pow2, Z.div_small by lia. done. }
    rewrite Hr. destruct (Z.eqb_spec s 0); [done|]. rewrite Z.mod_small; lia. }
  assert (Hstep : forall f s k, 65536 <= s < k * 65536 -> 
    fold_carries (S f) s = fold_carries f (s - s / 65536 * 65535) /\
    0 < s - s / 65536 * 65535 <= 65534 + k /\
    (s - s / 65536 * 65535 - 1) mod 65535 = (s - 1) mod 65535).
  { intros f s k H. cbn [fold_carries].
    pose proof (Z.div_mod s 65536 ltac:(lia)) as Hd. pose proof (Z.mod_pos_bound s 65536 ltac:(lia)).
    assert (1 <= s / 65536 < k) by (split; [apply Z.div_le_lower_bound|apply Z.div_lt_upper_bound]; lia).
    rewrite fold_step, Z.shiftr_div_pow2 by lia. change (2 ^ 16) with 65536.
    rewrite (proj2 (Z.eqb_neq (s / 65536) 0)) by lia. split; [f_equal; lia|]. split; [lia|].
    replace (s - s / 65536 * 65535 - 1) with (s - 1 + (- (s / 65536)) * 65535) by lia.
    by rewrite Z.mod_add. }
  destruct (Z.ltb_spec sum 65536); [apply Hbase; lia|].
  rewrite (proj2 (Z.eqb_neq sum 0)) by lia.
  destruct (Hstep 2%nat sum 65536) as (-> & H1 & <-); [lia|]. set (s1 := sum - _) in *.
  destruct (Z.ltb_spec s1 65536).
  { rewrite Hbase by lia. by rewrite (proj2 (Z.eqb_neq s1 0)) by lia. }
  destruct (Hstep 1%nat s1 2) as (-> & H2 & <-); [lia|]. set (s2 := s1 - _) in *.
  assert (s1 / 65536 = 1) as Hq by (symmetry; apply Z.div_unique with (s1 - 65536); lia).
  assert (s2 = s1 - 65535) by (unfold s2; rewrite Hq; lia).
  rewrite Hbase by lia. by rewrite (proj2 (Z.eqb_neq s2 0)) by lia.
Qed.

Lemma not_uint_sub w r : 0 < w -> 0 <= r < 2 ^ w -> not_uint w r = uint_max w - r.
Proof.
  intros Hw Hr. unfold not_uint, uint_max.
  assert (Hl : Z.log2 r < w).
  { destruct (decide (r = 0)) as [->|]; [simpl; lia|]. apply Z.log2_lt_pow2; lia. }
  assert (Z.ldiff r (Z.ones w) = 0) by (apply Z.ldiff_ones_r_low; lia).
  rewrite Z.lxor_comm, <- Z.ldiff_ones_l_low, <- Z.sub_nocarry_ldiff by (done || lia).
  rewrite Z.ones_equiv. lia.
Qed.

Lemma fold_invert_spec sum : 0 <= sum < 2 ^ 32 -> fold_invert sum = ones_complement sum.
Proof.
  intros Hs. unfold fold_invert, ones_complement. rewrite fold_carries_spec by done.
  set (r := if sum =? 0 then 0 else (sum - 1) mod 65535 + 1).
  assert (0 <= r < 2 ^ 16).
  { unfold r. destruct (sum =? 0); [lia|]. pose proof (Z.mod_pos_bound (sum - 1) 65535 ltac:(lia)). lia. }
  rewrite Z.mod_small by done. rewrite not_uint_sub by lia. done.
Qed.

Lemma internet_checksum_exact data :
  is_bytes data -> (Z.of_nat (length data) <= 131074) ->
  internet_checksum data = Done (ones_complement (word_sum data)).
Proof.
  intros Hb Hl. pose proof (word_sum_bound data Hb) as Hw.
  assert ((Z.of_nat (length data) + 1) / 2 < 65538) by (apply Z.div_lt_upper_bound; lia).
  assert (word_sum data < 2 ^ 32) by lia.
  pose proof (sum_words_exact data 0 Hb ltac:(lia) ltac:(lia)) as Hs. unfold internet_checksum.
  destruct (sum_words data 0) as [[s odd]|]; [|done]. cbn [mbind exec_bind] in Hs |- *. rewrite Hs.
  cbn [mbind exec_bind]. by rewrite Z.add_0_l, fold_invert_spec by lia.
Qed.

(** ** Summing slices is summing their concatenation *)

Lemma sum_words_app a b sum :
  sum_words (a ++ b) sum
  = ('(s, odd) ← sum_words a sum; sum_words (option_list odd ++ b) s).
Proof.
  revert sum. induction a as [|x|x y a IH] using pair_ind; intros sum; [done|done|].
  simpl. unfold add_uint. destruct (_ <? _); [|done]. simpl. apply IH.
Qed.

Lemma combine_slice_words sum carry slice rest :
  ('(s, c) ← combine_slice sum carry slice; sum_words (option_list c ++ rest) s)
  = sum_words (option_list carry ++ slice ++ rest) sum.
Proof.
  destruct carry as [prev|]; [|symmetry; simpl; apply sum_words_app].
  destruct slice as [|first slice]; [done|]. simpl.
  unfold add_uint. destruct (_ <? _); [|done]. simpl. symmetry. apply sum_words_app.
Qed.

Lemma combine_loop_words slices sum carry :
  combine_loop slices sum carry = sum_words (option_list carry ++ concat slices) sum.
Proof.
  revert sum carry. induction slices as [|slice slices IH]; intros sum carry.
  - simpl. rewrite app_nil_r. by destruct carry.
  - simpl. rewrite <- combine_slice_words. destruct (combine_slice sum carry slice) as [[s c]|]; [|done].
    simpl. apply IH.
Qed.

Lemma checksum_combine_concat slices : checksum_combine slices = internet_checksum (concat slices).
Proof. unfold checksum_combine, internet_checksum. by rewrite combine_loop_words. Qed.

(** The two checksum routines agree and compute the RFC 1071 checksum: summing discontiguous
    slices, with the odd byte of one carried into the next, is summing their concatenation, also
    where the [u32] accumulator would overflow; and up to 131074 bytes (more than an IP packet) the
    accumulator does not overflow and the folded result is the ones' complement of the sum of the
    big-endian words. *)
Theorem checksum_equivalence (slices : list bytes) :
  is_bytes (concat slices) ->
  checksum_combine slices = internet_checksum (concat slices) /\
  (Z.of_nat (length (concat slices)) <= 131074 ->
   internet_checksum (concat slices) = Done (ones_complement (word_sum (concat slices)))).
Proof.
  intros Hb. split; [apply checksum_combine_concat|]. by apply internet_checksum_exact.
Qed.

Lemma checksum_equivalence_witness :
  checksum_combine [[69; 0; 1]; [2; 255]; []; [7]] = Done (ones_complement (word_sum [69; 0; 1; 2; 255; 7])).
Proof.
  destruct (checksum_equivalence [[69; 0; 1]; [2; 255]; []; [7]]) as [-> H].
  - repeat (constructor; [unfold is_byte; lia|]). constructor.
  - apply H. simpl. lia.
Defined.

Lemma word_sum_app a b : Nat.Even (length a) -> word_sum (a ++ b) = word_sum a + word_sum b.
Proof.
  induction a as [|x|x y a IH] using pair_ind; intros He; [done|by destruct He as [k ?]; simpl in *; lia|].
  cbn [word_sum app]. rewrite IH; [lia|]. destruct He as [k Hk]. exists (k - 1)%nat. simpl in Hk. lia.
Qed.

Lemma ones_complement_eq s t :
  0 <= s -> 0 <= t -> ones_complement s = ones_complement t -> (s - t) mod 65535 = 0.
Proof.
  unfold ones_complement. intros Hs Ht.
  pose proof (Z.mod_pos_bound (s - 1) 65535 ltac:(lia)). pose proof (Z.mod_pos_bound (t - 1) 65535 ltac:(lia)).
  destruct (Z.eqb_spec s 0) as [->|], (Z.eqb_spec t 0) as [->|]; intros He; [done|lia|lia|].
  replace (s - t) with ((s - 1) - (t - 1)) by lia. rewrite Zminus_mod.
  replace ((s - 1) mod 65535) with ((t - 1) mod 65535) by lia. by rewrite Z.sub_diag.
Qed.

(** The checksum detects every change of one aligned 16-bit word except between the two
    representations of zero, 0x0000 and 0xFFFF. *)
Theorem checksum_detects (pre post : bytes) (a b c d : Z) :
  Nat.Even (length pre) -> is_bytes (pre ++ a :: b :: post) -> is_byte c -> is_byte d ->
  Z.of_nat (length (pre ++ a :: b :: post)) <= 131074 ->
  internet_checksum (pre ++ a :: b :: post) = internet_checksum (pre ++ c :: d :: post) ->
  (a, b) = (c, d) \/ ((a, b) = (0, 0) /\ (c, d) = (255, 255)) \/ ((a, b) = (255, 255) /\ (c, d) = (0, 0)).
Proof.
  intros He Hb Hc Hd Hl Heq.
  assert (Hb' : is_bytes (pre ++ c :: d :: post)).
  { apply Forall_app in Hb as [Hp Hr]. inversion Hr as [|? ? _ Hr']; subst. inversion Hr'; subst.
    apply Forall_app. split; [done|]. constructor; [done|]. by constructor. }
  rewrite !internet_checksum_exact in Heq by (done || (rewrite length_app in *; simpl in *; lia)).
  injection Heq as Heq.
  apply ones_complement_eq in Heq; [|by apply (word_sum_bound _ Hb)|by apply (word_sum_bound _ Hb')].
  rewrite !word_sum_app in Heq by done. cbn [word_sum] in Heq. unfold from_be16 in Heq.
  apply Forall_app in Hb as [_ Hr]. inversion Hr as [|? ? Ha Hr']; subst. inversion Hr' as [|? ? Hb0 _]; subst.
  unfold is_byte in *. apply Z.mod_divide in Heq as [k Hk]; [|lia].
  assert (k = -1 \/ k = 0 \/ k = 1) as [-> | [-> | ->]] by lia.
  - right. left. assert (a = 0 /\ b = 0 /\ c = 255 /\ d = 255) as (-> & -> & -> & ->) by lia. done.
  - left. assert (a = c /\ b = d) as (-> & ->) by lia. done.
  - right. right. assert (a = 255 /\ b = 255 /\ c = 0 /\ d = 0) as (-> & -> & -> & ->) by lia. done.
Qed.

Lemma checksum_detects_witness :
  internet_checksum ([69; 0] ++ [1; 2] ++ [3]) <> internet_checksum ([69; 0] ++ [1; 3] ++ [3]).
Proof.
  intros H. destruct (checksum_detects [69; 0] [3] 1 2 1 3) as [[=]|[[[=] _]|[[=] _]]].
  - exists 1%nat. reflexivity.
  - repeat (constructor; [unfold is_byte; lia|]). constructor.
  - unfold is_byte. lia.
  - unfold is_byte. lia.
  - simpl. lia.
  - exact H.
Defined.

(** ** Round trips of the headers *)

Lemma from_be16_be16 x : from_be16 (x / 256) (x mod 256) = x.
Proof. unfold from_be16. pose proof (Z.div_mod x 256 ltac:(lia)). lia. Qed.

Lemma from_be32_be32 x :
  from_be32 (x / 2 ^ 24) (x / 2 ^ 16 mod 256) (x / 2 ^ 8 mod 256) (x mod 256) = x.
Proof.
  unfold from_be32. change (2 ^ 24) with (256 * 256 * 256). change (2 ^ 16) with (256 * 256).
  change (2 ^ 8) with 256. rewrite <- !Z.div_div by lia.
  pose proof (Z.div_mod x 256 ltac:(lia)). pose proof (Z.div_mod (x / 256) 256 ltac:(lia)).
  pose proof (Z.div_mod (x / 256 / 256) 256 ltac:(lia)). lia.
Qed.

Lemma be16_bytes x : in_uint 16 x -> is_bytes (be16 x).
Proof.
  unfold in_uint. intros Hx. pose proof (Z.mod_pos_bound x 256 ltac:(lia)).
  repeat constructor; try lia; [apply Z.div_pos|apply Z.div_lt_upper_bound]; lia.
Qed.

Lemma write_header_zero n hdr :
  length hdr = n -> serialized n (write_header n hdr) = hdr.
Proof.
  intros Hl. unfold serialized, write_header. rewrite length_replicate.
  rewrite (proj2 (Nat.ltb_ge n n)) by lia. unfold splice. simpl.
  by rewrite Hl, drop_ge, app_nil_r by (rewrite length_replicate; lia).
Qed.

(** An array of [n] bytes. *)
Definition is_array (n : nat) (a : bytes) : Prop := length a = n /\ is_bytes a.

(** Evaluates a parser on the bytes of a header followed by a payload. *)
Ltac parse_back :=
  unfold u16_at, u32_at, arr_at, rest_at, be16, be32;
  cbn -[from_be16 from_be32 Z.div Z.modulo Z.land Z.shiftr Z.pow Z.to_nat Nat.mul];
  rewrite ?from_be16_be16, ?from_be32_be32.

Ltac split_array a Hl :=
  repeat (destruct a as [|? a]; [discriminate Hl|]); destruct a; [clear Hl|discriminate Hl].

Lemma ethernet_roundtrip h payload :
  length (eth_dst h) = 6%nat -> length (eth_src h) = 6%nat ->
  ethernet_parse (ethernet_bytes h ++ payload) = Some (h, payload).
Proof.
  destruct h as [d s t]; simpl. intros Hd Hs. split_array d Hd. split_array s Hs.
  unfold ethernet_parse, ethernet_bytes. by parse_back.
Qed.

Lemma ipv4_roundtrip h payload :
  version_ihl h = 69 -> length (ip_src h) = 4%nat -> length (ip_dst h) = 4%nat ->
  ipv4_parse (ipv4_bytes h ++ payload) = Some (h, payload).
Proof.
  destruct h as [vi de tl id ff tt pr ck s d]; simpl. intros -> Hs Hd. split_array s Hs. split_array d Hd.
  unfold ipv4_parse, ipv4_bytes. parse_back.
  change (Z.to_nat (Z.land 69 15) * 4)%nat with 20%nat. by parse_back.
Qed.

Lemma ipv6_roundtrip h payload :
  length (v6_src h) = 16%nat -> length (v6_dst h) = 16%nat ->
  ipv6_parse (ipv6_bytes h ++ payload) = Some (h, payload).
Proof.
  destruct h as [v pl nh hl s d]; simpl. intros Hs Hd. split_array s Hs. split_array d Hd.
  unfold ipv6_parse, ipv6_bytes. by parse_back.
Qed.

Lemma icmp_roundtrip h payload :
  length (icmp_rest h) = 4%nat -> icmp_parse (icmp_bytes h ++ payload) = Some (h, payload).
Proof.
  destruct h as [t c ck r]; simpl. intros Hr. split_array r Hr.
  unfold icmp_parse, icmp_bytes. by parse_back.
Qed.

Lemma udp_roundtrip h payload : udp_parse (udp_bytes h ++ payload) = Some (h, payload).
Proof. destruct h as [sp dp ln ck]. unfold udp_parse, udp_bytes. by parse_back. Qed.

Lemma tcp_roundtrip h payload :
  Z.shiftr (data_offset_flags h) 12 = 5 -> tcp_parse (tcp_bytes h ++ payload) = Some (h, payload).
Proof.
  destruct h as [sp dp sn an dof wn ck up]; simpl. intros Hd. unfold tcp_parse, tcp_bytes. parse_back.
  rewrite Hd. change (Z.to_nat 5 * 4)%nat with 20%nat. by parse_back.
Qed.

Lemma arp_roundtrip p :
  length (sender_mac p) = 6%nat -> length (sender_ip p) = 4%nat ->
  length (target_mac p) = 6%nat -> length (target_ip p) = 4%nat ->
  arp_parse (arp_bytes p) = Some p.
Proof.
  destruct p as [ht pt hl pl op sm si tm ti]; simpl. intros H1 H2 H3 H4.
  split_array sm H1. split_array si H2. split_array tm H3. split_array ti H4.
  unfold arp_parse, arp_bytes. by parse_back.
Qed.

(** Every header survives the wire: parsing what [serialize] writes, followed by any payload,
    returns the header and that payload, for Ethernet, IPv4 and TCP without options, IPv6, ICMP,
    UDP and ARP. *)
Theorem headers_roundtrip (payload : bytes) :
  (forall h, length (eth_dst h) = 6%nat -> length (eth_src h) = 6%nat ->
     ethernet_parse (serialized 14 (ethernet_serialize h) ++ payload) = Some (h, payload)) /\
  (forall h, version_ihl h = 69 -> length (ip_src h) = 4%nat -> length (ip_dst h) = 4%nat ->
     ipv4_parse (serialized 20 (ipv4_serialize h) ++ payload) = Some (h, payload)) /\
  (forall h, length (v6_src h) = 16%nat -> length (v6_dst h) = 16%nat ->
     ipv6_parse (serialized 40 (ipv6_serialize h) ++ payload) = Some (h, payload)) /\
  (forall h, length (icmp_rest h) = 4%nat ->
     icmp_parse (serialized 8 (icmp_serialize h) ++ payload) = Some (h, payload)) /\
  (forall h, udp_parse (serialized 8 (udp_serialize h) ++ payload) = Some (h, payload)) /\
  (forall h, Z.shiftr (data_offset_flags h) 12 = 5 ->
     tcp_parse (serialized 20 (tcp_serialize h) ++ payload) = Some (h, payload)) /\
  (forall p, length (sender_mac p) = 6%nat -> length (sender_ip p) = 4%nat ->
     length (target_mac p) = 6%nat -> length (target_ip p) = 4%nat ->
     arp_parse (serialized 28 (arp_serialize p)) = Some p).
Proof.
  repeat split; intros;
    unfold ethernet_serialize, ipv4_serialize, ipv6_serialize, icmp_serialize, udp_serialize,
      tcp_serialize, arp_serialize.
  - rewrite write_header_zero by (unfold ethernet_bytes; rewrite !length_app; simpl; lia).
    by apply ethernet_roundtrip.
  - rewrite write_header_zero by (unfold ipv4_bytes; rewrite !length_app; simpl; lia).
    by apply ipv4_roundtrip.
  - rewrite write_header_zero by (unfold ipv6_bytes; rewrite !length_app; simpl; lia).
    by apply ipv6_roundtrip.
  - rewrite write_header_zero by (unfold icmp_bytes; rewrite !length_app; simpl; lia).
    by apply icmp_roundtrip.
  - rewrite write_header_zero by done. by apply udp_roundtrip.
  - rewrite write_header_zero by done. by apply tcp_roundtrip.
  - rewrite write_header_zero by (unfold arp_bytes; rewrite !length_app; simpl; lia).
    by apply arp_roundtrip.
Qed.

(** ** Packets across the network *)

Definition ipv4_ok (h : Ipv4Header) : Prop :=
  is_byte (version_ihl h) /\ is_byte (dscp_ecn h) /\ in_uint 16 (total_length h) /\
  in_uint 16 (identification h) /\ in_uint 16 (flags_fragment h) /\ is_byte (ttl h) /\
  is_byte (ip_protocol h) /\ in_uint 16 (header_checksum h) /\ is_array 4 (ip_src h) /\
  is_array 4 (ip_dst h).

Lemma ipv4_bytes_ok h : ipv4_ok h -> is_array 20 (ipv4_bytes h).
Proof.
  intros (H1 & H2 & H3 & H4 & H5 & H6 & H7 & H8 & [Hs Hs'] & [Hd Hd']). unfold ipv4_bytes. split.
  - rewrite !length_app. simpl. lia.
  - repeat (apply Forall_app; split); try by apply be16_bytes.
    all: repeat (constructor; [done|]); try done; constructor.
Qed.

Lemma ones_complement_bound s : in_uint 16 (ones_complement s).
Proof.
  unfold in_uint, ones_complement. destruct (s =? 0); [lia|].
  pose proof (Z.mod_pos_bound (s - 1) 65535 ltac:(lia)). lia.
Qed.

Lemma ipv4_checksum_Done h :
  ipv4_ok h -> exists c, ipv4_compute_checksum h = Done c /\ in_uint 16 c.
Proof.
  intros Hh. assert (H0 : ipv4_ok (with_checksum h 0)).
  { unfold ipv4_ok in *. destruct h; simpl in *. repeat (split; [tauto|]).
    split; [unfold in_uint; lia|]. tauto. }
  destruct (ipv4_bytes_ok _ H0) as [Hl Hb]. unfold ipv4_compute_checksum, ipv4_serialize.
  rewrite write_header_zero, internet_checksum_exact by (done || (rewrite Hl; lia)).
  eexists. split; [done|]. apply ones_complement_bound.
Qed.

Lemma clamp16_bound n : 0 <= n -> in_uint 16 (clamp16 n).
Proof. unfold clamp16, in_uint, uint_max. intros Hn. destruct (Z.ltb_spec n (2 ^ 16)); lia. Qed.

Lemma build_ipv4_exact s d proto tl id payload :
  is_array 4 s -> is_array 4 d -> is_byte proto -> is_byte tl -> in_uint 16 id ->
  exists h,
    build_ipv4_packet s d proto tl id payload = Done (ipv4_bytes h ++ payload) /\
    ip_src h = s /\ ip_dst h = d /\ ip_protocol h = proto /\ ttl h = tl /\
    total_length h = clamp16 (20 + Z.of_nat (length payload)) /\
    is_array 20 (ipv4_bytes h) /\
    forall pad, parse_ipv4_packet ((ipv4_bytes h ++ payload) ++ pad) = Done (Some (h, payload ++ pad)).
Proof.
  intros Hs Hd Hp Ht Hi. unfold build_ipv4_packet.
  set (h0 := mkIpv4 69 0 _ id 16384 tl proto 0 s d).
  assert (H0 : ipv4_ok h0).
  { repeat (split; [done || (unfold is_byte, in_uint; simpl; lia) || (apply clamp16_bound; lia)|]).
    done. }
  destruct (ipv4_checksum_Done h0 H0) as (c & Hc & Hcb). rewrite Hc. cbn [mbind exec_bind].
  set (h := with_checksum h0 c).
  assert (Hh : ipv4_ok h).
  { unfold ipv4_ok in *. simpl in *. repeat (split; [tauto|]). done. }
  exists h. unfold ipv4_serialize. rewrite write_header_zero by apply (ipv4_bytes_ok _ Hh).
  repeat (split; [done|]). split; [by apply ipv4_bytes_ok|]. intros pad. unfold parse_ipv4_packet.
  destruct Hs as [Hs _], Hd as [Hd _]. rewrite <- app_assoc, ipv4_roundtrip by done.
  unfold ipv4_verify_checksum.
  replace (ipv4_compute_checksum h) with (ipv4_compute_checksum h0) by done.
  rewrite Hc. cbn [mbind exec_bind]. unfold h. simpl. by rewrite Z.eqb_refl.
Qed.

Lemma pseudo_bytes_ok s d proto len :
  is_array 4 s -> is_array 4 d -> is_byte proto -> in_uint 16 len ->
  is_array 12 (pseudo_bytes (mkPseudo s d 0 proto len)).
Proof.
  intros [Hs Hs'] [Hd Hd'] Hp Hl. unfold pseudo_bytes. simpl. split.
  - rewrite !length_app. simpl. lia.
  - repeat (apply Forall_app; split); try done.
    constructor; [unfold is_byte; lia|]. constructor; [done|]. by apply be16_bytes.
Qed.

Lemma udp_bytes_ok h :
  in_uint 16 (udp_src_port h) -> in_uint 16 (udp_dst_port h) -> in_uint 16 (udp_length h) ->
  in_uint 16 (udp_checksum h) -> is_array 8 (udp_bytes h).
Proof.
  intros H1 H2 H3 H4. split; [done|]. unfold udp_bytes.
  repeat (apply Forall_app; split); by apply be16_bytes.
Qed.

Lemma udp_checksum_Done h s d len payload :
  in_uint 16 (udp_src_port h) -> in_uint 16 (udp_dst_port h) -> in_uint 16 (udp_length h) ->
  is_array 4 s -> is_array 4 d -> in_uint 16 len -> is_bytes payload ->
  Z.of_nat (length payload) <= 131054 ->
  exists c, udp_compute_checksum h (mkPseudo s d 0 PROTO_UDP len) payload = Done c /\ in_uint 16 c.
Proof.
  intros H1 H2 H3 Hs Hd Hl Hb Hlen. unfold udp_compute_checksum, udp_serialize.
  destruct (pseudo_bytes_ok s d PROTO_UDP len) as [Hpl Hpb]; [done|done|unfold is_byte, PROTO_UDP; lia|done|].
  destruct (udp_bytes_ok (mkUdp (udp_src_port h) (udp_dst_port h) (udp_length h) 0)) as [Hul Hub];
    [done|done|done|unfold in_uint; simpl; lia|].
  rewrite write_header_zero by done. revert Hul Hub. generalize (udp_bytes (mkUdp (udp_src_port h) (udp_dst_port h) (udp_length h) 0)).
  intros hb Hul Hub. rewrite checksum_combine_concat, internet_checksum_exact; cbn [concat].
  - eexists. split; [done|]. apply ones_complement_bound.
  - rewrite app_nil_r. apply Forall_app. split; [done|]. by apply Forall_app.
  - rewrite app_nil_r, !length_app, Hpl, Hul. lia.
Qed.

(** A header written at the front of a zeroed buffer and a payload copied behind it. *)
Lemma header_then_payload n hb payload :
  length hb = n ->
  let out := replicate (n + length payload) 0 in
  put_range (default out (write_header n hb out)) (Z.of_nat n) payload = hb ++ payload.
Proof.
  intros Hn out. subst out. unfold write_header. rewrite length_replicate.
  rewrite (proj2 (Nat.ltb_ge _ n)) by lia. cbn [default from_option]. unfold splice at 1, id.
  rewrite take_0, Hn. cbn [app].
  unfold put_range. rewrite length_app, Hn, length_drop, length_replicate.
  rewrite (proj2 (Z.leb_le _ _)) by lia. unfold splice. rewrite Nat2Z.id, <- Hn, take_app_length.
  f_equal. rewrite drop_ge by (rewrite length_app, length_drop, length_replicate; lia).
  apply app_nil_r.
Qed.

Lemma build_udp_exact s d sp dp payload :
  is_array 4 s -> is_array 4 d -> in_uint 16 sp -> in_uint 16 dp -> is_bytes payload ->
  Z.of_nat (length payload) <= 65527 ->
  exists h,
    build_udp_packet s d sp dp payload = Done (udp_bytes h ++ payload) /\
    udp_src_port h = sp /\ udp_dst_port h = dp /\ udp_length h = 8 + Z.of_nat (length payload) /\
    udp_verify_checksum h (mkPseudo s d 0 PROTO_UDP (udp_length h)) payload = Done true.
Proof.
  intros Hs Hd Hsp Hdp Hb Hl. unfold build_udp_packet.
  assert (Hc : clamp16 (8 + Z.of_nat (length payload)) = 8 + Z.of_nat (length payload)).
  { unfold clamp16. by rewrite (proj2 (Z.ltb_lt _ _)) by lia. }
  rewrite Hc. set (len := 8 + Z.of_nat (length payload)).
  assert (Hlen : in_uint 16 len) by (unfold in_uint, len; lia).
  destruct (udp_checksum_Done (mkUdp sp dp len 0) s d len payload) as (c & Hcc & Hcb);
    [done|done|done|done|done|done|done|lia|].
  rewrite Hcc. cbn [mbind exec_bind]. exists (mkUdp sp dp len c).
  split; [|repeat (split; [done|])].
  - unfold udp_serialize. f_equal. by apply (header_then_payload 8).
  - unfold udp_verify_checksum.
    replace (udp_compute_checksum (mkUdp sp dp len c)) with (udp_compute_checksum (mkUdp sp dp len 0)) by done.
    simpl udp_length. rewrite Hcc. cbn [mbind exec_bind]. simpl. by rewrite Z.eqb_refl.
Qed.

(** A datagram sent through a bound socket arrives: the IPv4 packet that [sendto] builds parses
    back with its addresses and protocol and a correct header checksum, its UDP payload parses back
    with the ports and a correct UDP checksum, and delivering it appends the sender's address and
    the data to the queue of the socket bound to the destination port.  The receiver reads the
    payload up to the end of the frame and not up to the lengths in the headers, so the padding of
    a short Ethernet frame is delivered as data. *)
Theorem udp_delivery (ts tr : UdpSocketTable) (port : Z) (dst : SocketApiAddr)
    (src_ip dst_ip data pad : bytes) (s0 s : UdpSocket) :
  is_array 4 src_ip -> is_array 4 dst_ip -> in_uint 16 port -> in_uint 16 (sa_port dst) ->
  is_bytes data -> Z.of_nat (length data) <= 65507 ->
  sockets ts !! port = Some s0 -> sockets tr !! sa_port dst = Some s ->
  exists pkt ih u uh,
    sendto ts port dst src_ip dst_ip data = Done (Ok pkt) /\
    parse_ipv4_packet (pkt ++ pad) = Done (Some (ih, u ++ pad)) /\
    ip_src ih = src_ip /\ ip_dst ih = dst_ip /\ ip_protocol ih = PROTO_UDP /\
    total_length ih = Z.of_nat (length pkt) /\
    udp_parse (u ++ pad) = Some (uh, data ++ pad) /\
    udp_length uh = 8 + Z.of_nat (length data) /\
    udp_verify_checksum uh (mkPseudo src_ip dst_ip 0 PROTO_UDP (udp_length uh)) data = Done true /\
    recv_queue <$> (sockets (udp_handle_packet tr uh (data ++ pad) (ip_src ih)) !! sa_port dst)
      = Some (recv_queue s ++ [(mkAddr src_ip port, data ++ pad)]).
Proof.
  intros Hsrc Hdst Hp Hdp Hb Hl Hs0 Hs.
  destruct (build_udp_exact src_ip dst_ip port (sa_port dst) data) as (uh & Hu & Husp & Hudp & Hul & Huv);
    [done|done|done|done|done|lia|].
  destruct (build_ipv4_exact src_ip dst_ip PROTO_UDP 64 0 (udp_bytes uh ++ data))
    as (ih & Hi & His & Hid & Hip & _ & Htl & Hparse);
    [done|done|unfold is_byte, PROTO_UDP; lia|unfold is_byte; lia|unfold in_uint; lia|].
  exists (ipv4_bytes ih ++ udp_bytes uh ++ data), ih, (udp_bytes uh ++ data), uh.
  unfold sendto. rewrite Hs0, Hu. cbn [mbind exec_bind]. rewrite Hi. cbn [mbind exec_bind].
  split; [done|]. split; [apply Hparse|]. split; [done|]. split; [done|]. split; [done|]. split.
  { rewrite Htl, !length_app. change (length (udp_bytes uh)) with 8%nat.
    assert (length (ipv4_bytes ih) = 20%nat) as ->.
    { unfold ipv4_bytes. rewrite !length_app, His, Hid. destruct Hsrc as [-> _], Hdst as [-> _]. done. }
    unfold clamp16. rewrite (proj2 (Z.ltb_lt _ _)); lia. }
  split; [rewrite <- app_assoc; apply udp_roundtrip|]. split; [done|]. split; [done|].
  unfold udp_handle_packet. rewrite Hudp, Hs. simpl. rewrite lookup_insert_eq. simpl.
  by rewrite Husp, His.
Qed.

(** ** Longest-prefix routing *)

Lemma from_be32_mask p : 0 <= p <= 32 -> addr_u32 (be32 (prefix_mask p)) = prefix_mask p.
Proof. intros _. apply from_be32_be32. Qed.

Definition cidr_ok (c : Cidr) : Prop := is_array 4 (addr c) /\ 0 <= prefix_len c <= 32.

Lemma addr_u32_bound a : is_array 4 a -> in_uint 32 (addr_u32 a).
Proof.
  intros [Hl Hb]. do 4 (destruct a as [|? a]; [discriminate|]). destruct a; [|discriminate].
  repeat (apply Forall_cons in Hb as [? Hb]). unfold is_byte, in_uint in *. simpl. unfold from_be32. lia.
Qed.

(** A block contains the addresses that share its leading bits. *)
Lemma contains_spec c a :
  cidr_ok c -> is_array 4 a ->
  contains c a = Done (addr_u32 a / 2 ^ (32 - prefix_len c) =? addr_u32 (addr c) / 2 ^ (32 - prefix_len c)).
Proof.
  intros [Hc Hp] Ha. apply addr_u32_bound in Hc, Ha.
  assert (Hm : netmask c = Done (be32 (prefix_mask (prefix_len c)))).
  { unfold netmask. destruct (Z.eqb_spec (prefix_len c) 0) as [->|]; [done|].
    by rewrite sub_uint_Done by lia. }
  unfold contains, network_addr. rewrite !Hm. cbn [mbind exec_bind].
  rewrite !from_be32_mask by done.
  replace (addr_u32 (be32 (Z.land (addr_u32 (addr c)) (prefix_mask (prefix_len c)))))
    with (Z.land (addr_u32 (addr c)) (prefix_mask (prefix_len c))) by (symmetry; apply from_be32_be32).
  rewrite !land_prefix_mask by done. f_equal.
  assert (0 < 2 ^ (32 - prefix_len c)) by (apply Z.pow_pos_nonneg; lia).
  apply eq_true_iff_eq. rewrite !Z.eqb_eq. nia.
Qed.

(** The route covers the destination. *)
Definition covers (dst : bytes) (r : Route) : Prop :=
  addr_u32 dst / 2 ^ (32 - prefix_len (destination r))
  = addr_u32 (addr (destination r)) / 2 ^ (32 - prefix_len (destination r)).

Lemma candidates_spec rs dst :
  Forall (fun r => cidr_ok (destination r)) rs -> is_array 4 dst ->
  exists cs, candidates rs dst = Done cs /\ forall r, r ∈ cs <-> r ∈ rs /\ covers dst r.
Proof.
  intros Hrs Hd. induction Hrs as [|r rs Hr _ (cs & Hcs & Hin)].
  - exists []. split; [done|]. intros r. rewrite elem_of_nil. tauto.
  - cbn [candidates]. rewrite contains_spec by done. cbn [mbind exec_bind]. rewrite Hcs.
    cbn [mbind exec_bind]. eexists. split; [done|]. intros r'. unfold covers in *.
    specialize (Hin r'). destruct (_ =? _) eqn:He; zbool; rewrite !elem_of_cons; naive_solver.
Qed.

(** Longest-prefix match: for a table of well-formed routes [lookup] does not panic; it returns
    a route that covers the destination, such that no covering route has a longer prefix, or the
    same prefix length and a smaller metric; and it returns nothing exactly when no route covers
    the destination. *)
Theorem lookup_longest_prefix `{UnstableSort} (rt : RoutingTable) (dst : bytes) :
  Forall (fun r => cidr_ok (destination r)) (routes rt) -> is_array 4 dst ->
  match route_lookup rt dst with
  | Done (Some r) =>
      r ∈ routes rt /\ covers dst r /\
      forall r', r' ∈ routes rt -> covers dst r' ->
        prefix_len (destination r') < prefix_len (destination r) \/
        (prefix_len (destination r') = prefix_len (destination r) /\ metric r <= metric r')
  | Done None => forall r, r ∈ routes rt -> ~ covers dst r
  | Panic => False
  end.
Proof.
  intros Hrs Hd. destruct (candidates_spec _ dst Hrs Hd) as (cs & Hcs & Hin).
  unfold route_lookup. rewrite Hcs. cbn [mbind exec_bind].
  pose proof (sort_unstable_perm cs) as Hp. pose proof (sort_unstable_sorted cs) as Hs.
  destruct (sort_unstable cs) as [|r l]; simpl.
  - intros r Hr Hc. assert (r ∈ cs) as Hcs' by (by apply Hin). rewrite <- Hp in Hcs'.
    by apply elem_of_nil in Hcs'.
  - assert (r ∈ cs) as Hr by (rewrite <- Hp; left). apply Hin in Hr as [Hr Hc].
    split; [done|]. split; [done|]. intros r' Hr' Hc'.
    assert (r' ∈ cs) as Hcs' by (by apply Hin). rewrite <- Hp in Hcs'.
    apply elem_of_cons in Hcs' as [-> |Hl]; [by right|].
    apply StronglySorted_inv in Hs as [_ Hall]. rewrite Forall_forall in Hall.
    destruct (Hall r' Hl) as [?|[? ?]]; [by left|right; lia].
Qed.

(** A stable merge sort is one such sort. *)
#[export] Instance route_le_total : Total route_le.
Proof. intros a b. unfold route_le. lia. Qed.
#[export] Instance route_le_trans : Transitive route_le.
Proof. intros a b c. unfold route_le. lia. Qed.
Definition merge_sorted : UnstableSort.
Proof.
  refine {| sort_unstable := merge_sort route_le |}.
  - intros l. apply merge_sort_Permutation.
  - intros l. apply (StronglySorted_merge_sort route_le); apply _.
Defined.

(** ** Ephemeral ports *)

Definition udp_table_ok (t : UdpSocketTable) : Prop :=
  EPHEMERAL_PORT_MIN <= next_ephemeral t <= EPHEMERAL_PORT_MAX.

Definition ephemeral (p : Z) : Prop := EPHEMERAL_PORT_MIN <= p <= EPHEMERAL_PORT_MAX.

(** The port tried in iteration [i]. *)
Definition candidate_port (t : UdpSocketTable) (i : Z) : Z :=
  EPHEMERAL_PORT_MIN + (next_ephemeral t - EPHEMERAL_PORT_MIN + i) mod 16384.

Lemma candidate_ephemeral t i : ephemeral (candidate_port t i).
Proof.
  unfold ephemeral, candidate_port, EPHEMERAL_PORT_MIN, EPHEMERAL_PORT_MAX.
  pose proof (Z.mod_pos_bound (next_ephemeral t - 49152 + i) 16384 ltac:(lia)). lia.
Qed.

Lemma ephemeral_scan_spec t n i :
  udp_table_ok t -> 0 <= i -> i + Z.of_nat n <= 16384 ->
  match ephemeral_scan t n i with
  | Done (Ok p, t') =>
      ephemeral p /\ sockets t !! p = None /\
      sockets t' = <[p := mkUdpSocket p None []]> (sockets t) /\ udp_table_ok t'
  | Done (Err e, t') =>
      e = AddrInUse /\ t' = t /\
      forall j, i <= j < i + Z.of_nat n -> is_Some (sockets t !! candidate_port t j)
  | Panic => False
  end.
Proof.
  intros Ht. revert i. induction n as [|n IH]; intros i Hi Hn.
  { simpl. repeat (split; [done|]). lia. }
  unfold udp_table_ok in Ht. cbn [ephemeral_scan].
  change (EPHEMERAL_PORT_MAX - EPHEMERAL_PORT_MIN + 1) with 16384.
  pose proof (Z.mod_pos_bound (next_ephemeral t - EPHEMERAL_PORT_MIN + i) 16384 ltac:(lia)).
  unfold EPHEMERAL_PORT_MIN, EPHEMERAL_PORT_MAX in *.
  rewrite sub_uint_Done by lia. cbn [mbind exec_bind].
  rewrite add_uint_Done by lia. cbn [mbind exec_bind].
  rewrite add_uint_Done by lia. cbn [mbind exec_bind].
  fold (candidate_port t i). pose proof (candidate_ephemeral t i) as Hc.
  change (49152 + _ mod 16384) with (candidate_port t i).
  destruct (sockets t !! candidate_port t i) as [s|] eqn:Hs.
  - specialize (IH (i + 1) ltac:(lia) ltac:(lia)).
    destruct (ephemeral_scan t n (i + 1)) as [[[p|e] t']|]; [done| |done].
    destruct IH as (-> & -> & Hall). repeat (split; [done|]). intros j Hj.
    destruct (decide (j = i)) as [->|]; [by eexists|]. apply Hall. lia.
  - unfold ephemeral, EPHEMERAL_PORT_MIN, EPHEMERAL_PORT_MAX in Hc.
    pose proof (Z.mod_pos_bound (candidate_port t i - 49152 + 1) 16384 ltac:(lia)).
    rewrite add_uint_Done by lia. cbn [mbind exec_bind].
    rewrite add_uint_Done by lia. cbn [mbind exec_bind]. unfold udp_bind. simpl. rewrite Hs.
    split; [done|]. split; [done|]. split; [done|].
    unfold udp_table_ok, EPHEMERAL_PORT_MIN, EPHEMERAL_PORT_MAX. simpl. lia.
Qed.

(** Within one cycle every ephemeral port is tried. *)
Lemma candidate_covers t p : udp_table_ok t -> ephemeral p -> exists j, 0 <= j < 16384 /\ candidate_port t j = p.
Proof.
  unfold udp_table_ok, ephemeral, candidate_port, EPHEMERAL_PORT_MIN, EPHEMERAL_PORT_MAX. intros Ht Hp.
  exists ((p - next_ephemeral t) mod 16384). split; [apply Z.mod_pos_bound; lia|].
  rewrite Zplus_mod_idemp_r. replace (next_ephemeral t - 49152 + (p - next_ephemeral t)) with (p - 49152) by lia.
  rewrite Z.mod_small; lia.
Qed.

(** Ephemeral allocation on a table made by [new] never panics: it binds a port of the range
    49152-65535 that was free, changing no other socket and keeping its cursor in the range, and it
    fails exactly when all 16384 ports of the range are bound, leaving the table as it was. *)
Theorem allocate_ephemeral_exact (t : UdpSocketTable) :
  udp_table_ok t ->
  match allocate_ephemeral t with
  | Done (Ok p, t') =>
      EPHEMERAL_PORT_MIN <= p <= EPHEMERAL_PORT_MAX /\ sockets t !! p = None /\
      sockets t' = <[p := mkUdpSocket p None []]> (sockets t) /\ udp_table_ok t'
  | Done (Err e, t') =>
      e = AddrInUse /\ t' = t /\
      forall p, EPHEMERAL_PORT_MIN <= p <= EPHEMERAL_PORT_MAX -> is_Some (sockets t !! p)
  | Panic => False
  end.
Proof.
  intros Ht. pose proof (ephemeral_scan_spec t (Z.to_nat 16384) 0 Ht ltac:(lia) ltac:(lia)) as Hs.
  unfold allocate_ephemeral. change (EPHEMERAL_PORT_MAX - EPHEMERAL_PORT_MIN + 1) with 16384.
  destruct (ephemeral_scan t (Z.to_nat 16384) 0) as [[[p|e] t']|]; [done| |done].
  destruct Hs as (-> & -> & Hall). repeat (split; [done|]). intros p Hp.
  destruct (candidate_covers t p Ht Hp) as (j & Hj & <-). apply Hall. lia.
Qed.

Lemma udp_table_ok_new : udp_table_ok UdpSocketTable_new.
Proof. unfold udp_table_ok. simpl. unfold EPHEMERAL_PORT_MIN, EPHEMERAL_PORT_MAX. lia. Qed.

(** The derived [Default] leaves the cursor at 0, below the range: the first allocation panics. *)
Lemma default_table_panics : allocate_ephemeral UdpSocketTable_default = Panic.
Proof.
  unfold allocate_ephemeral. change (EPHEMERAL_PORT_MAX - EPHEMERAL_PORT_MIN + 1) with 16384.
  change (Z.to_nat 16384) with (S (Z.to_nat 16383)). reflexivity.
Qed.

(** A header with options, whose checksum is correct over its 24 bytes, is refused: the code sums
    the first 20 bytes only. *)
Definition options_packet : bytes :=
  [70; 0; 0; 24; 0; 0; 64; 0; 64; 17; 163; 199; 10; 0; 0; 1; 10; 0; 0; 2; 130; 11; 0; 0].
Example options_refused :
  internet_checksum options_packet = Done 0 /\ parse_ipv4_packet options_packet = Done None.
Proof. split; vm_compute; reflexivity. Qed.

(** ** Concrete instances *)

Lemma headers_roundtrip_witness :
  tcp_parse (serialized 20 (tcp_serialize (mkTcp 80 443 7 9 20498 512 0 0)) ++ [1; 2; 3])
  = Some (mkTcp 80 443 7 9 20498 512 0 0, [1; 2; 3]).
Proof. apply (headers_roundtrip [1; 2; 3]). reflexivity. Defined.

Definition ip_a : bytes := [10; 0; 0; 1].
Definition ip_b : bytes := [10; 0; 0; 2].
Lemma ip_a_array : is_array 4 ip_a.
Proof. split; [done|]. repeat (constructor; [unfold is_byte; lia|]). constructor. Qed.
Lemma ip_b_array : is_array 4 ip_b.
Proof. split; [done|]. repeat (constructor; [unfold is_byte; lia|]). constructor. Qed.

Lemma udp_delivery_witness :
  exists pkt, sendto (udp_bind UdpSocketTable_new 5000).2 5000 (mkAddr ip_b 53) ip_a ip_b [104; 105] = Done (Ok pkt)
  /\ exists ih u, parse_ipv4_packet (pkt ++ [0; 0]) = Done (Some (ih, u ++ [0; 0])).
Proof.
  destruct (udp_delivery (udp_bind UdpSocketTable_new 5000).2 (udp_bind UdpSocketTable_new 53).2 5000
    (mkAddr ip_b 53) ip_a ip_b [104; 105] [0; 0] (mkUdpSocket 5000 None []) (mkUdpSocket 53 None []))
    as (pkt & ih & u & uh & Hs & Hp & _).
  - exact ip_a_array.
  - exact ip_b_array.
  - unfold in_uint. lia.
  - unfold in_uint. simpl. lia.
  - repeat (constructor; [unfold is_byte; lia|]). constructor.
  - simpl. lia.
  - vm_compute. reflexivity.
  - vm_compute. reflexivity.
  - exists pkt. split; [exact Hs|]. exists ih, u. exact Hp.
Defined.

Definition demo_routes : RoutingTable :=
  mkRoutingTable [mkRoute (mkCidr [0; 0; 0; 0] 0) (Some ip_a) [101] 100;
                  mkRoute (mkCidr [10; 0; 0; 0] 8) None [101] 0].

Lemma lookup_longest_prefix_witness :
  match @route_lookup merge_sorted demo_routes ip_b with
  | Done (Some r) => covers ip_b r /\ prefix_len (destination r) = 8
  | _ => False
  end.
Proof.
  assert (Hok : Forall (fun r => cidr_ok (destination r)) (routes demo_routes)).
  { repeat (constructor; [split; [split; [reflexivity|repeat (constructor; [unfold is_byte; lia|]); constructor]|simpl; lia]|]).
    constructor. }
  pose proof (@lookup_longest_prefix merge_sorted demo_routes ip_b Hok ip_b_array) as H.
  assert (Hr : @route_lookup merge_sorted demo_routes ip_b = Done (Some (mkRoute (mkCidr [10; 0; 0; 0] 8) None [101] 0)))
    by (vm_compute; reflexivity).
  rewrite Hr in H |- *. split; [exact (proj1 (proj2 H))|reflexivity].
Defined.

Lemma allocate_ephemeral_exact_witness :
  match allocate_ephemeral UdpSocketTable_new with Done (Ok p, _) => 49152 <= p <= 65535 | _ => False end.
Proof.
  pose proof (allocate_ephemeral_exact UdpSocketTable_new udp_table_ok_new) as H.
  destruct (allocate_ephemeral UdpSocketTable_new) as [[[p|e] t']|].
  - exact (proj1 H).
  - destruct H as (_ & _ & H). destruct (H 49152) as [x Hx].
    + unfold EPHEMERAL_PORT_MIN, EPHEMERAL_PORT_MAX. lia.
    + simpl in Hx. rewrite lookup_empty in Hx. discriminate Hx.
  - exact H.
Defined.
