(* ===== verification/Arp.v ===== *)
(** * Address resolution

    [src/crates/nexacore-net/src/arp.rs]: the ARP table, its queues of
    packets that wait for a resolution, the handling of requests and replies,
    ageing, retransmission and eviction.  Times are seconds. *)

From S2P Require Import Prelude NetHeaders.

Definition ARP_TIMEOUT_SECS : Z := 300.
Definition ARP_MAX_ENTRIES : Z := 256.
Definition ARP_MAX_PENDING : Z := 8.
Definition ARP_PENDING_TIMEOUT_SECS : Z := 3.
Definition ARP_RETRANSMIT_INTERVAL_SECS : Z := 1.

Definition ip_key (ip : bytes) : Z := addr_u32 ip.

Record PendingPacket := mkPending { pp_data : bytes; next_hop_ip : bytes }.

Inductive ArpState :=
| Incomplete (pending_packets : list PendingPacket)
| Reachable
| Stale.

Record ArpEntry := mkEntry {
  entry_ip : bytes; entry_mac : bytes; entry_state : ArpState; timestamp : Z; last_request : Z
}.

Inductive ArpResolveResult := Resolved (mac : bytes) | Pending.
Inductive ArpHandleResult := SendReply (p : ArpPacket) | UpdatedTable | Ignored.

Record ArpTable := mkArpTable { entries : gmap Z ArpEntry; max_entries : Z; last_now : Z }.

Definition ArpTable_new (max : Z) : ArpTable := mkArpTable ∅ max 0.
Definition set_entries (t : ArpTable) (m : gmap Z ArpEntry) : ArpTable :=
  mkArpTable m (max_entries t) (last_now t).

Definition arp_lookup (t : ArpTable) (ip : bytes) : option ArpEntry := entries t !! ip_key ip.

Definition zero_mac : bytes := [0; 0; 0; 0; 0; 0].

Definition with_state (e : ArpEntry) (s : ArpState) : ArpEntry :=
  mkEntry (entry_ip e) (entry_mac e) s (timestamp e) (last_request e).

(** The queue drops its oldest packet when it is full. *)
Definition push_pending (q : list PendingPacket) (p : option PendingPacket) : list PendingPacket :=
  match p with
  | None => q
  | Some p => (if ARP_MAX_PENDING <=? Z.of_nat (length q) then tail q else q) ++ [p]
  end.

#[global] Arguments push_pending q p : simpl never.

Definition resolve (t : ArpTable) (ip : bytes) (packet : option PendingPacket) :
    ArpResolveResult * ArpTable :=
  let key := ip_key ip in
  match entries t !! key with
  | Some (mkEntry _ mac (Reachable | Stale) _ _) => (Resolved mac, t)
  | _ =>
      let entry := default (mkEntry ip zero_mac (Incomplete []) (last_now t) (last_now t)) (entries t !! key) in
      let entry :=
        match entry_state entry with
        | Incomplete q => with_state entry (Incomplete (push_pending q packet))
        | _ => entry
        end in
      (Pending, set_entries t (<[key := entry]> (entries t)))
  end.

(** [iter().min_by_key(timestamp)]: the first smallest in key order. *)
Definition min_entry (best : option (Z * ArpEntry)) (x : Z * ArpEntry) : option (Z * ArpEntry) :=
  match best with
  | None => Some x
  | Some b => if timestamp x.2 <? timestamp b.2 then Some x else Some b
  end.
Definition oldest (m : gmap Z ArpEntry) : option (Z * ArpEntry) := foldl min_entry None (btree_iter m).
Definition evict_oldest (t : ArpTable) : ArpTable :=
  match oldest (entries t) with
  | Some (k, _) => set_entries t (delete k (entries t))
  | None => t
  end.

Definition arp_insert (t : ArpTable) (ip mac : bytes) (ts : Z) : ArpTable :=
  let key := ip_key ip in
  let t :=
    match entries t !! key with
    | None => if max_entries t <=? Z.of_nat (size (entries t)) then evict_oldest t else t
    | Some _ => t
    end in
  let entry := default (mkEntry ip mac Reachable ts ts) (entries t !! key) in
  let pending := match entry_state entry with Incomplete q => q | _ => [] end in
  let state := match pending with [] => Reachable | _ => Incomplete pending end in
  set_entries t (<[key := mkEntry ip mac state ts (last_request entry)]> (entries t)).

Definition handle_arp_packet (t : ArpTable) (p : ArpPacket) (our_mac our_ip : bytes) :
    ArpHandleResult * ArpTable :=
  if negb (htype p =? 1) || negb (ptype p =? 2048) then (Ignored, t)
  else if operation p =? ARP_REQUEST then
    let t' := arp_insert t (sender_ip p) (sender_mac p) 0 in
    if negb (bool_decide (target_ip p = our_ip)) then (Ignored, t')
    else (SendReply (mkArp 1 2048 6 4 ARP_REPLY our_mac our_ip (sender_mac p) (sender_ip p)), t')
  else if operation p =? ARP_REPLY then
    (UpdatedTable, arp_insert t (sender_ip p) (sender_mac p) 0)
  else (Ignored, t).

Definition drain_pending (t : ArpTable) (ip : bytes) : list PendingPacket * ArpTable :=
  match entries t !! ip_key ip with
  | None => ([], t)
  | Some e =>
      (match entry_state e with Incomplete q => q | _ => [] end,
       set_entries t (<[ip_key ip := with_state e Reachable]> (entries t)))
  end.

(** The closure of [retain]: [None] removes the entry. *)
Definition expire_entry (now timeout : Z) (e : ArpEntry) : option ArpEntry :=
  let age := saturating_sub now (timestamp e) in
  let twice_timeout := saturating_mul 64 timeout 2 in
  match entry_state e with
  | Reachable =>
      if twice_timeout <? age then None
      else if timeout <? age then Some (with_state e Stale) else Some e
  | Stale => if age <=? twice_timeout then Some e else None
  | Incomplete _ => if age <=? ARP_PENDING_TIMEOUT_SECS then Some e else None
  end.
Definition expire_stale (t : ArpTable) (now timeout : Z) : ArpTable :=
  mkArpTable (omap (expire_entry now timeout) (entries t)) (max_entries t) now.

Definition is_incomplete (e : ArpEntry) : bool :=
  match entry_state e with Incomplete _ => true | _ => false end.
Definition request_due (now : Z) (e : ArpEntry) : bool :=
  is_incomplete e && (ARP_RETRANSMIT_INTERVAL_SECS <=? saturating_sub now (last_request e)).
Definition stamp_request (now : Z) (e : ArpEntry) : ArpEntry :=
  if request_due now e
  then mkEntry (entry_ip e) (entry_mac e) (entry_state e) (timestamp e) now else e.
Definition due_retransmits (t : ArpTable) (now : Z) : list bytes * ArpTable :=
  ((fun x => entry_ip x.2) <$> List.filter (fun x => request_due now x.2) (btree_iter (entries t)),
   set_entries t (stamp_request now <$> entries t)).

Definition build_request (our_mac our_ip target : bytes) : ArpPacket :=
  mkArp 1 2048 6 4 ARP_REQUEST our_mac our_ip zero_mac target.

(** ** Well-formedness *)

Definition entry_ok (k : Z) (e : ArpEntry) : Prop :=
  k = ip_key (entry_ip e) /\
  match entry_state e with Incomplete q => Z.of_nat (length q) <= ARP_MAX_PENDING | _ => True end.
Definition arp_ok (t : ArpTable) : Prop := map_Forall entry_ok (entries t).

Inductive ArpOp :=
| OpResolve (ip : bytes) (p : option PendingPacket)
| OpHandle (p : ArpPacket) (our_mac our_ip : bytes)
| OpInsert (ip mac : bytes) (ts : Z)
| OpDrain (ip : bytes)
| OpExpire (now timeout : Z)
| OpDue (now : Z).

Definition arp_run (t : ArpTable) (op : ArpOp) : ArpTable :=
  match op with
  | OpResolve ip p => (resolve t ip p).2
  | OpHandle p m i => (handle_arp_packet t p m i).2
  | OpInsert ip mac ts => arp_insert t ip mac ts
  | OpDrain ip => (drain_pending t ip).2
  | OpExpire now timeout => expire_stale t now timeout
  | OpDue now => (due_retransmits t now).2
  end.

Lemma push_pending_length q p :
  Z.of_nat (length q) <= ARP_MAX_PENDING -> Z.of_nat (length (push_pending q p)) <= ARP_MAX_PENDING.
Proof.
  unfold push_pending, ARP_MAX_PENDING. intros Hq. destruct p as [p|]; [|done].
  rewrite length_app. simpl. destruct (Z.leb_spec 8 (Z.of_nat (length q))); [|lia].
  destruct q; simpl in *; lia.
Qed.

Lemma resolve_ok t ip p : arp_ok t -> arp_ok (resolve t ip p).2.
Proof.
  intros Ht. unfold resolve. destruct (entries t !! ip_key ip) as [e|] eqn:He.
  - pose proof (Ht _ _ He) as [Hk Hq]. destruct e as [i m [q| |] ts lr]; try done.
    apply map_Forall_insert_2; [|done]. split; [done|]. by apply push_pending_length.
  - apply map_Forall_insert_2; [|done]. split; [done|]. by apply push_pending_length.
Qed.

Lemma evict_oldest_ok t : arp_ok t -> arp_ok (evict_oldest t).
Proof. intros Ht. unfold evict_oldest. destruct (oldest _) as [[k e]|]; [|done]. by apply map_Forall_delete. Qed.

(** The table [insert] works on, after the eviction. *)
Definition make_room (t : ArpTable) (ip : bytes) : ArpTable :=
  match entries t !! ip_key ip with
  | None => if max_entries t <=? Z.of_nat (size (entries t)) then evict_oldest t else t
  | Some _ => t
  end.

Lemma make_room_ok t ip : arp_ok t -> arp_ok (make_room t ip).
Proof. intros Ht. unfold make_room. repeat case_match; try done. by apply evict_oldest_ok. Qed.

(** The packets that wait at an address. *)
Definition queue_of (t : ArpTable) (ip : bytes) : list PendingPacket :=
  match entries t !! ip_key ip with
  | Some e => match entry_state e with Incomplete q => q | _ => [] end
  | None => []
  end.

Lemma arp_insert_eq t ip mac ts :
  exists lr,
    entries (arp_insert t ip mac ts)
    = <[ip_key ip := mkEntry ip mac (match queue_of (make_room t ip) ip with [] => Reachable | q => Incomplete q end)
                       ts lr]> (entries (make_room t ip)).
Proof.
  unfold arp_insert, queue_of. fold (make_room t ip).
  destruct (entries (make_room t ip) !! ip_key ip) as [e|]; simpl; eexists; [|reflexivity].
  destruct (entry_state e) as [[|x q]| |]; reflexivity.
Qed.

Lemma arp_insert_ok t ip mac ts : arp_ok t -> arp_ok (arp_insert t ip mac ts).
Proof.
  intros Ht. apply make_room_ok with (ip := ip) in Ht. destruct (arp_insert_eq t ip mac ts) as [lr Heq].
  unfold arp_ok. rewrite Heq. apply map_Forall_insert_2; [|done]. split; [done|]. simpl.
  unfold queue_of. destruct (entries (make_room t ip) !! ip_key ip) as [e|] eqn:He; [|done].
  pose proof (Ht _ _ He) as [_ Hq]. by destruct (entry_state e) as [[|x q]| |].
Qed.

Lemma expire_entry_ok now timeout k e e' :
  entry_ok k e -> expire_entry now timeout e = Some e' -> entry_ok k e'.
Proof.
  intros He. unfold expire_entry. destruct (entry_state e) eqn:Hs; repeat case_match; intros [= <-]; try done.
  by destruct He as [? _].
Qed.

(** In every state of the table, whatever sequence of resolutions, packets, insertions, drains
    and timer ticks led to it, at most eight packets wait at any address and every entry is filed
    under the key of its own address. *)
Theorem arp_invariant (max : Z) (ops : list ArpOp) (k : Z) (e : ArpEntry) :
  entries (foldl arp_run (ArpTable_new max) ops) !! k = Some e ->
  k = ip_key (entry_ip e) /\
  match entry_state e with Incomplete q => (length q <= 8)%nat | _ => True end.
Proof.
  assert (Hok : arp_ok (foldl arp_run (ArpTable_new max) ops)).
  { apply foldl_invariant; [|done]. intros t op Ht. destruct op; simpl.
    - by apply resolve_ok.
    - unfold handle_arp_packet. repeat case_match; try done; by apply arp_insert_ok.
    - by apply arp_insert_ok.
    - unfold drain_pending. destruct (entries t !! ip_key ip) as [e'|] eqn:He; [|done].
      apply map_Forall_insert_2; [|done]. by destruct (Ht _ _ He).
    - intros k' e' He. simpl in He. rewrite lookup_omap in He.
      destruct (entries t !! k') as [e0|] eqn:He0; [|done]. simpl in He.
      eapply expire_entry_ok; [by apply (Ht _ _ He0)|done].
    - intros k' e' He. simpl in He. rewrite lookup_fmap in He.
      destruct (entries t !! k') as [e0|] eqn:He0; [|done]. injection He as <-.
      unfold stamp_request. case_match; by destruct (Ht _ _ He0). }
  intros He. destruct (Hok _ _ He) as [Hk Hq]. split; [done|].
  unfold ARP_MAX_PENDING in Hq. destruct (entry_state e); [lia|done|done].
Qed.

(** ** Delivery of waiting packets *)

Definition resolve_all (t : ArpTable) (ip : bytes) (pkts : list PendingPacket) : ArpTable :=
  foldl (fun t p => (resolve t ip (Some p)).2) t pkts.

(** The newest eight of a list. *)
Definition newest (pkts : list PendingPacket) : list PendingPacket := drop (length pkts - 8) pkts.

Lemma push_pending_newest pkts p : push_pending (newest pkts) (Some p) = newest (pkts ++ [p]).
Proof.
  unfold push_pending, newest, ARP_MAX_PENDING. rewrite length_drop, length_app. simpl.
  destruct (Z.leb_spec 8 (Z.of_nat (length pkts - (length pkts - 8)))).
  - assert (Htl : forall l : list PendingPacket, tail l = drop 1 l) by (by intros [|? ?]).
    rewrite drop_app_le by lia. f_equal. rewrite Htl, drop_drop. f_equal. lia.
  - rewrite drop_app_le by lia. f_equal. f_equal. lia.
Qed.

Lemma resolve_all_spec t ip pkts :
  entries t !! ip_key ip = None -> pkts <> [] ->
  exists ts lr,
    entries (resolve_all t ip pkts)
    = <[ip_key ip := mkEntry ip zero_mac (Incomplete (newest pkts)) ts lr]> (entries t) /\
    max_entries (resolve_all t ip pkts) = max_entries t.
Proof.
  intros Hn. induction pkts as [|p pkts IH] using rev_ind; intros Hne; [done|].
  unfold resolve_all. rewrite foldl_snoc. fold (resolve_all t ip pkts).
  destruct (decide (pkts = [])) as [->|Hp].
  - simpl. unfold resolve. rewrite Hn. simpl. exists (last_now t), (last_now t). done.
  - destruct (IH Hp) as (ts & lr & Heq & Hm). unfold resolve. rewrite Heq, lookup_insert_eq. simpl.
    exists ts, lr. rewrite insert_insert_eq, push_pending_newest. done.
Qed.

(** Packets sent to an unresolved address are not lost while the resolution is under way: when
    the reply for that address arrives, draining returns the newest eight of them, in the order
    they were sent; the address then resolves to the hardware address of the reply, and no other
    entry has changed. *)
Theorem arp_delivers_pending (t : ArpTable) (ip : bytes) (pkts : list PendingPacket) (reply : ArpPacket)
    (our_mac our_ip : bytes) (p : option PendingPacket) :
  entries t !! ip_key ip = None -> pkts <> [] ->
  htype reply = 1 -> ptype reply = 2048 -> operation reply = ARP_REPLY -> sender_ip reply = ip ->
  let '(r, t1) := handle_arp_packet (resolve_all t ip pkts) reply our_mac our_ip in
  let '(drained, t2) := drain_pending t1 ip in
  r = UpdatedTable /\
  drained = drop (length pkts - 8) pkts /\
  (resolve t2 ip p).1 = Resolved (sender_mac reply) /\
  delete (ip_key ip) (entries t2) = entries t.
Proof.
  intros Hn Hne Hh Hp Ho Hs. destruct (resolve_all_spec t ip pkts Hn Hne) as (ts & lr & Heq & Hm).
  unfold handle_arp_packet. rewrite Hh, Hp, Ho, Hs. simpl.
  set (t0 := resolve_all t ip pkts) in *.
  destruct (arp_insert_eq t0 ip (sender_mac reply) 0) as [lr' Hins].
  assert (Hroom : make_room t0 ip = t0) by (unfold make_room; by rewrite Heq, lookup_insert_eq).
  assert (Hq : queue_of t0 ip = newest pkts) by (unfold queue_of; by rewrite Heq, lookup_insert_eq).
  rewrite Hroom, Hq, Heq, insert_insert_eq in Hins.
  unfold drain_pending. rewrite Hins, lookup_insert_eq. simpl. split; [done|].
  assert (Hnew : newest pkts <> []).
  { unfold newest. intros He. apply (f_equal length) in He. rewrite length_drop in He. simpl in He.
    destruct pkts; simpl in *; [done|lia]. }
  split; [by destruct (newest pkts) eqn:E|]. split.
  - unfold resolve. simpl. by rewrite lookup_insert_eq.
  - rewrite insert_insert_eq. by rewrite delete_insert_id.
Qed.

(** ** Mappings learned from the network expire at once *)

(** A mapping learned from an ARP packet is stamped with time 0: once the uptime exceeds twice
    the timeout (ten minutes), the first timer tick after any reply or request removes the entry
    of its sender again, whether or not the waiting packets have been drained. *)
Theorem arp_learned_mapping_lost (t : ArpTable) (p : ArpPacket) (our_mac our_ip : bytes) (now : Z)
    (drain : bool) :
  htype p = 1 -> ptype p = 2048 -> (operation p = ARP_REQUEST \/ operation p = ARP_REPLY) ->
  2 * ARP_TIMEOUT_SECS < now ->
  let t1 := (handle_arp_packet t p our_mac our_ip).2 in
  let t2 := if drain then (drain_pending t1 (sender_ip p)).2 else t1 in
  is_Some (arp_lookup t2 (sender_ip p)) /\
  arp_lookup (expire_stale t2 now ARP_TIMEOUT_SECS) (sender_ip p) = None.
Proof.
  intros Hh Hp Ho Hn t1. unfold ARP_TIMEOUT_SECS in Hn.
  assert (Ht1 : t1 = arp_insert t (sender_ip p) (sender_mac p) 0).
  { unfold t1, handle_arp_packet. rewrite Hh, Hp. simpl.
    destruct Ho as [-> | ->]; simpl; [by case_bool_decide|done]. }
  destruct (arp_insert_eq t (sender_ip p) (sender_mac p) 0) as [lr Hins]. rewrite <- Ht1 in Hins.
  assert (Hkey : exists st lr', entries (if drain then (drain_pending t1 (sender_ip p)).2 else t1) !! ip_key (sender_ip p)
    = Some (mkEntry (sender_ip p) (sender_mac p) st 0 lr')).
  { destruct drain; [|rewrite Hins, lookup_insert_eq; eauto].
    unfold drain_pending. rewrite Hins, lookup_insert_eq. simpl. rewrite lookup_insert_eq. eauto. }
  destruct Hkey as (st & lr' & Hkey). set (t2 := if drain then _ else _) in *. simpl.
  unfold arp_lookup. split; [by eexists|]. simpl. rewrite lookup_omap, Hkey. simpl.
  unfold expire_entry, saturating_sub, saturating_mul, ARP_PENDING_TIMEOUT_SECS, ARP_TIMEOUT_SECS. simpl.
  rewrite Z.sub_0_r, Z.max_r by lia. change (Z.min (uint_max 64) (300 * 2)) with 600. destruct st.
  - by rewrite (proj2 (Z.leb_gt now 3)) by lia.
  - by rewrite (proj2 (Z.ltb_lt 600 now)) by lia.
  - by rewrite (proj2 (Z.leb_gt now 600)) by lia.
Qed.

(** ** The capacity *)

Lemma min_entry_in l b x :
  foldl min_entry b l = Some x -> b = Some x \/ x ∈ l.
Proof.
  revert b. induction l as [|y l IH]; intros b; simpl; [by left|].
  intros H. destruct (IH _ H) as [Hb|Hl]; [|right; by right].
  unfold min_entry in Hb. destruct b as [b|]; [|injection Hb as ->; right; left].
  destruct (_ <? _); injection Hb as ->; [right; left|by left].
Qed.

Lemma min_entry_some l b : is_Some b -> is_Some (foldl min_entry b l).
Proof.
  revert b. induction l as [|y l IH]; intros b [x ->]; simpl; [by eexists|].
  apply IH. unfold min_entry. destruct (_ <? _); by eexists.
Qed.

Lemma oldest_spec m : m <> ∅ -> exists k e, oldest m = Some (k, e) /\ m !! k = Some e.
Proof.
  intros Hm. unfold oldest. destruct (btree_iter m) as [|x l] eqn:Hl.
  - exfalso. apply Hm. apply map_to_list_empty_iff, Permutation_nil_r. rewrite <- Hl.
    symmetry. apply btree_iter_perm.
  - destruct (min_entry_some l (Some x)) as [[k e] He]; [by eexists|]. exists k, e. split; [done|].
    apply elem_of_btree_iter. rewrite Hl.
    destruct (min_entry_in _ _ _ He) as [[= ->]|?]; [left|by right].
Qed.

(** [insert] keeps a table within a positive capacity. *)
Lemma insert_capacity t ip mac ts :
  0 < max_entries t -> Z.of_nat (size (entries t)) <= max_entries t ->
  Z.of_nat (size (entries (arp_insert t ip mac ts))) <= max_entries t.
Proof.
  intros Hm Hs. destruct (arp_insert_eq t ip mac ts) as [lr ->]. rewrite map_size_insert.
  unfold make_room. destruct (entries t !! ip_key ip) as [e|] eqn:He; [by rewrite He|].
  destruct (Z.leb_spec (max_entries t) (Z.of_nat (size (entries t)))); [|rewrite He; lia].
  unfold evict_oldest. destruct (oldest_spec (entries t)) as (k & e & -> & Hk).
  { intros H0. rewrite H0, map_size_empty in *. lia. }
  simpl. rewrite map_size_delete, Hk. rewrite lookup_delete_ne by (intros ->; congruence). rewrite He. lia.
Qed.

(** [resolve] does not check the capacity: the table grows by one entry for every new address. *)
Lemma resolve_unbounded t ip p :
  entries t !! ip_key ip = None -> size (entries (resolve t ip p).2) = S (size (entries t)).
Proof. intros Hn. unfold resolve. rewrite Hn. simpl. by rewrite map_size_insert, Hn. Qed.

(** A request overheard for someone else teaches the table the address of its sender but does not
    release the packets that wait for it: the address still resolves as pending. *)
Lemma overheard_request_strands t p our_mac our_ip :
  htype p = 1 -> ptype p = 2048 -> operation p = ARP_REQUEST -> target_ip p <> our_ip ->
  queue_of t (sender_ip p) <> [] ->
  let '(r, t1) := handle_arp_packet t p our_mac our_ip in
  r = Ignored /\ (resolve t1 (sender_ip p) None).1 = Pending /\
  entry_mac <$> arp_lookup t1 (sender_ip p) = Some (sender_mac p).
Proof.
  intros Hh Hp Ho Ht Hq. unfold handle_arp_packet. rewrite Hh, Hp, Ho. simpl.
  rewrite bool_decide_false by done. simpl. split; [done|].
  destruct (arp_insert_eq t (sender_ip p) (sender_mac p) 0) as [lr Hins].
  assert (Hroom : make_room t (sender_ip p) = t).
  { unfold make_room. unfold queue_of in Hq. by destruct (entries t !! ip_key (sender_ip p)). }
  rewrite Hroom in Hins. unfold resolve, arp_lookup. rewrite Hins, lookup_insert_eq. simpl.
  by destruct (queue_of t (sender_ip p)).
Qed.

(** ** Concrete instances *)

Definition demo_packet (n : Z) : PendingPacket := mkPending [n] ip_a.
Definition demo_reply : ArpPacket := mkArp 1 2048 6 4 ARP_REPLY [2; 0; 0; 0; 0; 1] ip_a zero_mac ip_b.

Lemma arp_invariant_witness :
  exists e, entries (foldl arp_run (ArpTable_new 256) [OpResolve ip_a (Some (demo_packet 1))]) !! ip_key ip_a = Some e
  /\ ip_key ip_a = ip_key (entry_ip e).
Proof.
  eexists. split; [vm_compute; reflexivity|].
  eapply (arp_invariant 256 [OpResolve ip_a (Some (demo_packet 1))]). vm_compute. reflexivity.
Defined.

Lemma arp_delivers_pending_witness :
  let '(_, t1) := handle_arp_packet (resolve_all (ArpTable_new 256) ip_a (demo_packet <$> seqZ 0 10)) demo_reply zero_mac ip_b in
  (drain_pending t1 ip_a).1 = demo_packet <$> seqZ 2 8.
Proof.
  pose proof (arp_delivers_pending (ArpTable_new 256) ip_a (demo_packet <$> seqZ 0 10) demo_reply zero_mac ip_b None) as H.
  destruct (handle_arp_packet _ _ _ _) as [r t1]. destruct (drain_pending t1 ip_a) as [d t2].
  destruct H as (_ & -> & _); try reflexivity. discriminate.
Defined.

Lemma arp_learned_mapping_lost_witness :
  arp_lookup (expire_stale (drain_pending (handle_arp_packet (ArpTable_new 256) demo_reply zero_mac ip_b).2 ip_a).2 601 300) ip_a = None.
Proof.
  apply (arp_learned_mapping_lost (ArpTable_new 256) demo_reply zero_mac ip_b 601 true);
    [reflexivity|reflexivity|right; reflexivity|reflexivity].
Defined.
