(* ===== verification/Tcp.v ===== *)
(** * The TCP state machine

    [src/crates/nexacore-net/src/tcp.rs]: control blocks, the table of
    connections and listeners, active and passive open, transmission,
    reception, close, the handling of segments in every state, the
    retransmission timer and the segment builder.  An emitted segment is the
    list of arguments of the segment builder ([Segment]); [wire] is the bytes
    the builder makes of it. *)

From S2P Require Import Prelude NetHeaders.

Definition DEFAULT_MSS : Z := 1460.
Definition RTO_INITIAL_MS : Z := 1000.
Definition MAX_RETRANSMIT : Z := 5.
Definition TIME_WAIT_MS : Z := 120000.
Definition INITIAL_SSTHRESH : Z := 65535.
Definition INITIAL_CWND : Z := 4 * DEFAULT_MSS.

Inductive TcpState :=
| Closed | Listen | SynSent | SynReceived | Established | FinWait1 | FinWait2 | CloseWait
| Closing | LastAck | TimeWait.
#[export] Instance TcpState_eq_dec : EqDecision TcpState.
Proof. solve_decision. Defined.

Record RetransmitEntry := mkRetransmit { re_seq : Z; re_data : bytes; sent_at : Z; retransmit_count : Z }.

Record TcpControlBlock := mkTcb {
  local : SocketApiAddr;
  remote : SocketApiAddr;
  state : TcpState;
  snd_una : Z;
  snd_nxt : Z;
  snd_wnd : Z;
  iss : Z;
  rcv_nxt : Z;
  rcv_wnd : Z;
  irs : Z;
  recv_buffer : bytes;
  retransmit_queue : list RetransmitEntry;
  rto_ms : Z;
  srtt_ms : Z;
  rttvar_ms : Z;
  cwnd : Z;
  ssthresh : Z;
  mss : Z;
  dup_ack_count : Z;
  snd_wscale : Z;
  rcv_wscale : Z;
  time_wait_started_ms : Z;
}.

(** ** Options and window scaling *)

Inductive TcpOption := Mss (v : Z) | WindowScale (v : Z) | Unknown (kind : Z).

Definition MAX_WINDOW_SCALE : Z := 14.

(** The loop of [parse_tcp_options] on the bytes from index [i] on. *)
Fixpoint options_loop (fuel : nat) (b : bytes) : list TcpOption :=
  match fuel, b with
  | O, _ | _, [] => []
  | S fuel, kind :: rest =>
      if kind =? 0 then []
      else if kind =? 1 then options_loop fuel rest
      else
        match rest with
        | [] => []
        | len :: _ =>
            if (len <? 2) || (Z.of_nat (length b) <? len) then []
            else
              let here :=
                if (kind =? 2) && (len =? 4) then
                  match u16_at b 2 with Some v => [Mss v] | None => [] end
                else if (kind =? 3) && (len =? 3) then
                  match b !! 2%nat with Some v => [WindowScale (Z.min v MAX_WINDOW_SCALE)] | None => [] end
                else [Unknown kind] in
              here ++ options_loop fuel (drop (Z.to_nat len) b)
        end
  end.
Definition parse_tcp_options (b : bytes) : list TcpOption := options_loop (length b) b.

Definition encode_window_scale (shift : Z) : bytes := [3; 3; Z.min shift MAX_WINDOW_SCALE].
Definition encode_mss (m : Z) : bytes := [2; 4] ++ be16 m.
Definition scaled_window (w shift : Z) : Z := Z.shiftl w (Z.min shift MAX_WINDOW_SCALE).
Definition negotiated_scales (local_shift : Z) (peer_shift : option Z) : Z * Z :=
  match peer_shift with
  | None => (0, 0)
  | Some peer => (Z.min local_shift MAX_WINDOW_SCALE, Z.min peer MAX_WINDOW_SCALE)
  end.

(** ** Segments *)

Record Segment := mkSegment {
  s_src_ip : bytes; s_dst_ip : bytes; s_src_port : Z; s_dst_port : Z;
  s_seq : Z; s_ack : Z; s_flags : Z; s_window : Z; s_options : bytes; s_payload : bytes;
}.

(** The header [build_tcp_segment_with_options] fills in, before its checksum. *)
Definition seg_header (s : Segment) : TcpHeader :=
  mkTcp (s_src_port s) (s_dst_port s) (s_seq s) (s_ack s)
    (Z.lor (Z.shiftl (5 + Z.of_nat (length (s_options s)) / 4) 12) (s_flags s)) (s_window s) 0 0.

(** As a release build runs it: a debug build panics on options of a wrong length instead of dropping them, and
    no caller passes such options ([segment_ok]). *)
Definition build_tcp_segment_with_options (s : Segment) : exec bytes :=
  let opts :=
    if (Z.of_nat (length (s_options s)) mod 4 =? 0) && (Z.of_nat (length (s_options s)) <=? 40)
    then s_options s else [] in
  let s := mkSegment (s_src_ip s) (s_dst_ip s) (s_src_port s) (s_dst_port s) (s_seq s) (s_ack s)
             (s_flags s) (s_window s) opts (s_payload s) in
  let rest := opts ++ s_payload s in
  let tcp_len := (20 + Z.of_nat (length rest)) mod 2 ^ 16 in
  let h := seg_header s in
  c ← tcp_compute_checksum h (mkPseudo (s_src_ip s) (s_dst_ip s) 0 PROTO_TCP tcp_len) rest;
  let h := mkTcp (tcp_src_port h) (tcp_dst_port h) (seq_num h) (ack_num h) (data_offset_flags h)
             (window h) c (urgent_ptr h) in
  let out := replicate (20 + length rest) 0 in
  let out := default out (tcp_serialize h out) in
  build_ipv4_packet (s_src_ip s) (s_dst_ip s) PROTO_TCP 64 0 (put_range out 20 rest).

Definition wire (s : Segment) : exec bytes := build_tcp_segment_with_options s.

(** [build_tcp_segment]: the same without options. *)
Definition build_tcp_segment (src_ip dst_ip : bytes) (src_port dst_port seq ack fl win : Z)
    (payload : bytes) : Segment :=
  mkSegment src_ip dst_ip src_port dst_port seq ack fl win [] payload.

Definition TcpConnectionKey : Type := SocketApiAddr * SocketApiAddr.

(** [u64::from_be_bytes([a, b, c, d, ph, pl, 0, 0])]. *)
Definition encode_addr_key (a : SocketApiAddr) : Z := (addr_u32 (sa_ip a) * 2 ^ 16 + sa_port a) * 2 ^ 16.
Definition encode_conn_key (k : TcpConnectionKey) : Z * Z := (encode_addr_key k.1, encode_addr_key k.2).

Inductive TcpOutput :=
| SendSegment (s : Segment) (dst_ip : bytes)
| ConnectionEstablished (key : TcpConnectionKey)
| DataReceived (key : TcpConnectionKey)
| ConnectionClosed (key : TcpConnectionKey)
| ConnectionRefused (key : TcpConnectionKey).

(** ** Sequence numbers *)

Definition wrapping_sub (a b : Z) : Z := (a - b) mod 2 ^ 32.
Definition seq_lt (a b : Z) : bool := (wrapping_sub b a <? 2 ^ 31) && negb (a =? b).
Definition seq_le (a b : Z) : bool := (a =? b) || seq_lt a b.

(** ** Control blocks *)

Definition new_syn_sent (l r : SocketApiAddr) (isn : Z) : TcpControlBlock :=
  mkTcb l r SynSent isn (wrapping_add 32 isn 1) 0 isn 0 65535 0 [] [] RTO_INITIAL_MS 0 0
    INITIAL_CWND INITIAL_SSTHRESH DEFAULT_MSS 0 0 0 0.

Definition new_syn_received (l r : SocketApiAddr) (peer_isn isn : Z) : TcpControlBlock :=
  mkTcb l r SynReceived isn (wrapping_add 32 isn 1) 65535 isn (wrapping_add 32 peer_isn 1) 65535
    peer_isn [] [] RTO_INITIAL_MS 0 0 INITIAL_CWND INITIAL_SSTHRESH DEFAULT_MSS 0 0 0 0.

(** Field updates. *)
Definition set_state (t : TcpControlBlock) (s : TcpState) : TcpControlBlock :=
  mkTcb (local t) (remote t) s (snd_una t) (snd_nxt t) (snd_wnd t) (iss t) (rcv_nxt t) (rcv_wnd t)
    (irs t) (recv_buffer t) (retransmit_queue t) (rto_ms t) (srtt_ms t) (rttvar_ms t) (cwnd t)
    (ssthresh t) (mss t) (dup_ack_count t) (snd_wscale t) (rcv_wscale t) (time_wait_started_ms t).
Definition set_snd (t : TcpControlBlock) (una nxt wnd : Z) : TcpControlBlock :=
  mkTcb (local t) (remote t) (state t) una nxt wnd (iss t) (rcv_nxt t) (rcv_wnd t)
    (irs t) (recv_buffer t) (retransmit_queue t) (rto_ms t) (srtt_ms t) (rttvar_ms t) (cwnd t)
    (ssthresh t) (mss t) (dup_ack_count t) (snd_wscale t) (rcv_wscale t) (time_wait_started_ms t).
Definition set_rcv (t : TcpControlBlock) (nxt : Z) (buf : bytes) : TcpControlBlock :=
  mkTcb (local t) (remote t) (state t) (snd_una t) (snd_nxt t) (snd_wnd t) (iss t) nxt (rcv_wnd t)
    (irs t) buf (retransmit_queue t) (rto_ms t) (srtt_ms t) (rttvar_ms t) (cwnd t)
    (ssthresh t) (mss t) (dup_ack_count t) (snd_wscale t) (rcv_wscale t) (time_wait_started_ms t).
Definition set_irs (t : TcpControlBlock) (v : Z) : TcpControlBlock :=
  mkTcb (local t) (remote t) (state t) (snd_una t) (snd_nxt t) (snd_wnd t) (iss t) (rcv_nxt t)
    (rcv_wnd t) v (recv_buffer t) (retransmit_queue t) (rto_ms t) (srtt_ms t) (rttvar_ms t) (cwnd t)
    (ssthresh t) (mss t) (dup_ack_count t) (snd_wscale t) (rcv_wscale t) (time_wait_started_ms t).
Definition set_queue (t : TcpControlBlock) (q : list RetransmitEntry) : TcpControlBlock :=
  mkTcb (local t) (remote t) (state t) (snd_una t) (snd_nxt t) (snd_wnd t) (iss t) (rcv_nxt t)
    (rcv_wnd t) (irs t) (recv_buffer t) q (rto_ms t) (srtt_ms t) (rttvar_ms t) (cwnd t)
    (ssthresh t) (mss t) (dup_ack_count t) (snd_wscale t) (rcv_wscale t) (time_wait_started_ms t).
Definition set_congestion (t : TcpControlBlock) (cw ss dup rto : Z) : TcpControlBlock :=
  mkTcb (local t) (remote t) (state t) (snd_una t) (snd_nxt t) (snd_wnd t) (iss t) (rcv_nxt t)
    (rcv_wnd t) (irs t) (recv_buffer t) (retransmit_queue t) rto (srtt_ms t) (rttvar_ms t) cw
    ss (mss t) dup (snd_wscale t) (rcv_wscale t) (time_wait_started_ms t).
Definition set_rtt (t : TcpControlBlock) (srtt rttvar rto : Z) : TcpControlBlock :=
  mkTcb (local t) (remote t) (state t) (snd_una t) (snd_nxt t) (snd_wnd t) (iss t) (rcv_nxt t)
    (rcv_wnd t) (irs t) (recv_buffer t) (retransmit_queue t) rto srtt rttvar (cwnd t)
    (ssthresh t) (mss t) (dup_ack_count t) (snd_wscale t) (rcv_wscale t) (time_wait_started_ms t).
Definition set_scales (t : TcpControlBlock) (snd rcv : Z) : TcpControlBlock :=
  mkTcb (local t) (remote t) (state t) (snd_una t) (snd_nxt t) (snd_wnd t) (iss t) (rcv_nxt t)
    (rcv_wnd t) (irs t) (recv_buffer t) (retransmit_queue t) (rto_ms t) (srtt_ms t) (rttvar_ms t)
    (cwnd t) (ssthresh t) (mss t) (dup_ack_count t) snd rcv (time_wait_started_ms t).
Definition set_time_wait (t : TcpControlBlock) (now : Z) : TcpControlBlock :=
  mkTcb (local t) (remote t) (state t) (snd_una t) (snd_nxt t) (snd_wnd t) (iss t) (rcv_nxt t)
    (rcv_wnd t) (irs t) (recv_buffer t) (retransmit_queue t) (rto_ms t) (srtt_ms t) (rttvar_ms t)
    (cwnd t) (ssthresh t) (mss t) (dup_ack_count t) (snd_wscale t) (rcv_wscale t) now.

Definition apply_window_scale (t : TcpControlBlock) (local_shift : Z) (peer_shift : option Z) : TcpControlBlock :=
  let '(rcv, snd) := negotiated_scales local_shift peer_shift in set_scales t snd rcv.
Definition effective_send_window (t : TcpControlBlock) : Z := scaled_window (snd_wnd t) (snd_wscale t).

(** RFC 6298. *)
Definition update_rtt (t : TcpControlBlock) (sample : Z) : exec TcpControlBlock :=
  '(srtt, rttvar) ←
    (if srtt_ms t =? 0 then Done (sample, sample / 2)
     else
       let diff := if sample <? srtt_ms t then srtt_ms t - sample else sample - srtt_ms t in
       v ← mul_uint 64 3 (rttvar_ms t);
       v ← add_uint 64 v diff;
       r ← mul_uint 64 7 (srtt_ms t);
       r ← add_uint 64 r sample;
       Done (r / 8, v / 4));
  rto ← add_uint 64 srtt (Z.max (saturating_mul 64 rttvar 4) 1);
  Done (set_rtt t srtt rttvar (Z.min (Z.max rto 200) 60000)).
(** Estimates and samples below 2^60 ms never overflow; they stay below, and the timeout is within its bounds. *)
Lemma update_rtt_bounded t sample :
  0 <= srtt_ms t < 2 ^ 60 -> 0 <= rttvar_ms t < 2 ^ 60 -> 0 <= sample < 2 ^ 60 ->
  exists t', update_rtt t sample = Done t' /\ 0 <= srtt_ms t' < 2 ^ 60 /\ 0 <= rttvar_ms t' < 2 ^ 60 /\ 200 <= rto_ms t' <= 60000.
Proof.
  intros Hs Hv Hx. unfold update_rtt.
  assert (forall r v, 0 <= r < 2 ^ 60 -> 0 <= v < 2 ^ 60 -> exists t',
    (rto ← add_uint 64 r (Z.max (saturating_mul 64 v 4) 1); Done (set_rtt t r v (Z.min (Z.max rto 200) 60000))) = Done t' /\
    0 <= srtt_ms t' < 2 ^ 60 /\ 0 <= rttvar_ms t' < 2 ^ 60 /\ 200 <= rto_ms t' <= 60000) as H.
  { intros r v Hr Hv'. rewrite add_uint_Done by (unfold saturating_mul, uint_max; lia). eexists. split; [done|]. cbn [set_rtt srtt_ms rttvar_ms rto_ms]. lia. }
  destruct (Z.eqb_spec (srtt_ms t) 0).
  - apply H; [done|]. pose proof (Z.div_mod sample 2 ltac:(lia)). pose proof (Z.mod_pos_bound sample 2 ltac:(lia)). lia.
  - set (diff := if sample <? srtt_ms t then _ else _). assert (0 <= diff < 2 ^ 60) by (unfold diff; destruct (Z.ltb_spec sample (srtt_ms t)); lia).
    rewrite mul_uint_Done by lia. cbn [mbind exec_bind]. rewrite add_uint_Done by lia. cbn [mbind exec_bind].
    rewrite mul_uint_Done by lia. cbn [mbind exec_bind]. rewrite add_uint_Done by lia. cbn [mbind exec_bind]. apply H.
    + split; [apply Z.div_pos; lia|apply Z.div_lt_upper_bound; lia].
    + split; [apply Z.div_pos; lia|apply Z.div_lt_upper_bound; lia].
Qed.

(** A segment of the connection with its current addresses and window. *)
Definition conn_segment (t : TcpControlBlock) (seq ack fl win : Z) (payload : bytes) : TcpOutput :=
  SendSegment (build_tcp_segment (sa_ip (local t)) (sa_ip (remote t)) (sa_port (local t))
                 (sa_port (remote t)) seq ack fl win payload) (sa_ip (remote t)).
(** The pure acknowledgement sent from most states. *)
Definition ack_segment (t : TcpControlBlock) : TcpOutput :=
  conn_segment t (snd_nxt t) (rcv_nxt t) ACK (rcv_wnd t) [].

Definition has_flag (h : TcpHeader) (f : Z) : bool := negb (Z.land (tcp_flags h) f =? 0).

(** ** Acknowledgements *)

Definition entry_end (e : RetransmitEntry) : Z :=
  wrapping_add 32 (re_seq e) (Z.of_nat (length (re_data e)) mod 2 ^ 32).

Definition process_ack (t : TcpControlBlock) (h : TcpHeader) : TcpControlBlock * list TcpOutput :=
  let ack := ack_num h in
  if (ack =? snd_una t) && negb (bool_decide (length (retransmit_queue t) = 0%nat)) then
    let dup := saturating_add 8 (dup_ack_count t) 1 in
    if dup =? 3 then
      let ss := Z.max (cwnd t / 2) (2 * mss t) in
      let t := set_congestion t (ss + 3 * mss t) ss dup (rto_ms t) in
      (t, match retransmit_queue t with
          | e :: _ => [conn_segment t (re_seq e) (rcv_nxt t) (Z.lor ACK PSH) (rcv_wnd t) (re_data e)]
          | [] => []
          end)
    else (set_congestion t (cwnd t) (ssthresh t) dup (rto_ms t), [])
  else if seq_lt (snd_una t) ack && seq_le ack (snd_nxt t) then
    let t := set_snd t ack (snd_nxt t) (window h) in
    let t := set_queue t (List.filter (fun e => seq_lt ack (entry_end e)) (retransmit_queue t)) in
    let cw :=
      if cwnd t <? ssthresh t then saturating_add 32 (cwnd t) (mss t)
      else
        let inc := saturating_mul 32 (mss t) (mss t) / Z.max (cwnd t) 1 in
        saturating_add 32 (cwnd t) (Z.max inc 1) in
    (set_congestion t cw (ssthresh t) 0 (rto_ms t), [])
  else (t, []).

(** ** Segments in each state *)

(** What happens to the connection: it is kept, removed, or moved to the backlog of its listener. *)
Inductive Outcome := Keep (t : TcpControlBlock) | Remove | ToBacklog (t : TcpControlBlock).

(** In-order data in [Established]. *)
Definition receive_data (key : TcpConnectionKey) (t : TcpControlBlock) (h : TcpHeader) (payload : bytes) :
    TcpControlBlock * list TcpOutput :=
  if negb (bool_decide (payload = [])) && (seq_num h =? rcv_nxt t) then
    let t := set_rcv t (wrapping_add 32 (rcv_nxt t) (Z.of_nat (length payload) mod 2 ^ 32))
               (recv_buffer t ++ payload) in
    (t, [ack_segment t; DataReceived key])
  else (t, []).

Definition process_segment (key : TcpConnectionKey) (t : TcpControlBlock) (h : TcpHeader)
    (payload : bytes) (now : Z) : Outcome * list TcpOutput :=
  match state t with
  | SynSent =>
      if has_flag h SYN && has_flag h ACK then
        if negb (ack_num h =? snd_nxt t) then
          (Keep t, [conn_segment t (ack_num h) 0 RST 0 []])
        else
          let t := set_rcv (set_irs t (seq_num h)) (wrapping_add 32 (seq_num h) 1) (recv_buffer t) in
          let t := set_state (set_snd t (ack_num h) (snd_nxt t) (window h)) Established in
          let t := set_queue t [] in
          (Keep t, [ack_segment t; ConnectionEstablished key])
      else if has_flag h RST then (Remove, [ConnectionRefused key])
      else (Keep t, [])
  | SynReceived =>
      if has_flag h ACK && (ack_num h =? snd_nxt t) then
        (ToBacklog (set_state (set_snd t (ack_num h) (snd_nxt t) (window h)) Established),
         [ConnectionEstablished key])
      else (Keep t, [])
  | Established =>
      let '(t, out1) := if has_flag h ACK then process_ack t h else (t, []) in
      let '(t, out2) := receive_data key t h payload in
      if has_flag h FIN then
        let t := set_state (set_rcv t (wrapping_add 32 (rcv_nxt t) 1) (recv_buffer t)) CloseWait in
        (Keep t, out1 ++ out2 ++ [ack_segment t])
      else (Keep t, out1 ++ out2)
  | FinWait1 =>
      let t :=
        if has_flag h ACK && (ack_num h =? snd_nxt t)
        then set_state (set_snd t (ack_num h) (snd_nxt t) (snd_wnd t)) FinWait2 else t in
      if has_flag h FIN then
        let t := set_rcv t (wrapping_add 32 (rcv_nxt t) 1) (recv_buffer t) in
        match state t with
        | FinWait2 => let t := set_state t TimeWait in (Keep (set_time_wait t now), [ack_segment t])
        | _ => let t := set_state t Closing in (Keep t, [ack_segment t])
        end
      else (Keep t, [])
  | FinWait2 =>
      if has_flag h FIN then
        let t := set_rcv t (wrapping_add 32 (rcv_nxt t) 1) (recv_buffer t) in
        let t := set_time_wait (set_state t TimeWait) now in
        (Keep t, [ack_segment t])
      else (Keep t, [])
  | Closing =>
      if has_flag h ACK && (ack_num h =? snd_nxt t)
      then (Keep (set_time_wait (set_state t TimeWait) now), [])
      else (Keep t, [])
  | LastAck =>
      if has_flag h ACK && (ack_num h =? snd_nxt t)
      then (Remove, [ConnectionClosed key])
      else (Keep t, [])
  | TimeWait =>
      if has_flag h FIN then let t := set_time_wait t now in (Keep t, [ack_segment t])
      else (Keep t, [])
  | Closed | Listen | CloseWait => (Keep t, [])
  end.

(** ** The timer *)

(** [iter_mut().find(|e| e.seq == seq)]: the first such entry, with the queue before and after it. *)
Fixpoint find_entry (seq : Z) (q : list RetransmitEntry) :
    option (list RetransmitEntry * RetransmitEntry * list RetransmitEntry) :=
  match q with
  | [] => None
  | e :: q =>
      if re_seq e =? seq then Some ([], e, q)
      else match find_entry seq q with
           | Some (pre, x, post) => Some (e :: pre, x, post)
           | None => None
           end
  end.

(** One expired entry; [None] when the retries are used up and the connection is reset. *)
Definition retransmit_one (key : TcpConnectionKey) (now : Z) (t : TcpControlBlock) (seq : Z) :
    option TcpControlBlock * list TcpOutput :=
  match find_entry seq (retransmit_queue t) with
  | None => (Some t, [])
  | Some (pre, e, post) =>
      if MAX_RETRANSMIT <=? retransmit_count e then
        (None, [conn_segment t (snd_nxt t) (rcv_nxt t) RST 0 []; ConnectionClosed key])
      else
        let e := mkRetransmit (re_seq e) (re_data e) now (retransmit_count e + 1) in
        let out := [conn_segment t (re_seq e) (rcv_nxt t) (Z.lor ACK PSH) (rcv_wnd t) (re_data e)] in
        let t := set_queue t (pre ++ e :: post) in
        (Some (set_congestion t (mss t) (Z.max (cwnd t / 2) (2 * mss t)) (dup_ack_count t)
                 (Z.min (saturating_mul 64 (rto_ms t) 2) 60000)), out)
  end.

Fixpoint retransmit_loop (key : TcpConnectionKey) (now : Z) (t : TcpControlBlock) (seqs : list Z) :
    option TcpControlBlock * list TcpOutput :=
  match seqs with
  | [] => (Some t, [])
  | seq :: seqs =>
      match retransmit_one key now t seq with
      | (None, out) => (None, out)
      | (Some t, out) => let '(r, out') := retransmit_loop key now t seqs in (r, out ++ out')
      end
  end.

Definition expired_seqs (t : TcpControlBlock) (now : Z) : list Z :=
  re_seq <$> List.filter (fun e => rto_ms t <=? saturating_sub now (sent_at e)) (retransmit_queue t).

Definition tick_connection (key : TcpConnectionKey) (now : Z) (t : TcpControlBlock) :
    option TcpControlBlock * list TcpOutput :=
  if bool_decide (state t = TimeWait) && (TIME_WAIT_MS <=? saturating_sub now (time_wait_started_ms t))
  then (None, [ConnectionClosed key])
  else retransmit_loop key now t (expired_seqs t now).

(** ** Transmission, reception and close on a control block *)

(** [data.chunks(n)]. *)
Fixpoint chunks_loop (fuel n : nat) (data : bytes) : list bytes :=
  match fuel with
  | O => []
  | S fuel => match data with [] => [] | _ => take n data :: chunks_loop fuel n (drop n data) end
  end.
Definition chunks (n : nat) (data : bytes) : list bytes := chunks_loop (length data) n data.

Definition send_chunk (now : Z) (t : TcpControlBlock) (chunk : bytes) : TcpControlBlock * TcpOutput :=
  let out := conn_segment t (snd_nxt t) (rcv_nxt t) (Z.lor ACK PSH) (rcv_wnd t) chunk in
  let q := retransmit_queue t ++ [mkRetransmit (snd_nxt t) chunk now 0] in
  let nxt := wrapping_add 32 (snd_nxt t) (Z.of_nat (length chunk) mod 2 ^ 32) in
  (set_queue (set_snd t (snd_una t) nxt (snd_wnd t)) q, out).

Fixpoint send_chunks (now : Z) (t : TcpControlBlock) (cs : list bytes) : TcpControlBlock * list TcpOutput :=
  match cs with
  | [] => (t, [])
  | c :: cs =>
      let '(t, o) := send_chunk now t c in
      let '(t, os) := send_chunks now t cs in (t, o :: os)
  end.

Definition can_send (s : TcpState) : bool :=
  match s with Established | CloseWait => true | _ => false end.

Definition close_tcb (t : TcpControlBlock) : TcpControlBlock * list TcpOutput :=
  let fin := conn_segment t (snd_nxt t) (rcv_nxt t) (Z.lor FIN ACK) (rcv_wnd t) [] in
  let t' := set_snd t (snd_una t) (wrapping_add 32 (snd_nxt t) 1) (snd_wnd t) in
  match state t with
  | Established => (set_state t' FinWait1, [fin])
  | CloseWait => (set_state t' LastAck, [fin])
  | _ => (t, [])
  end.

(** ** The socket table *)

Record ListenQueue := mkListen { backlog : list TcpControlBlock; max_backlog : Z }.

Record TcpSocketTable := mkTable {
  connections : gmap (Z * Z) TcpControlBlock;
  listeners : gmap Z ListenQueue;
  next_isn_ : Z;
  last_now : Z;
}.

Definition TcpSocketTable_new : TcpSocketTable := mkTable ∅ ∅ 16777217 0.

Definition conn_get (t : TcpSocketTable) (k : TcpConnectionKey) : option TcpControlBlock :=
  connections t !! encode_conn_key k.
Definition conn_contains (t : TcpSocketTable) (k : TcpConnectionKey) : bool :=
  match conn_get t k with Some _ => true | None => false end.
Definition with_connections (t : TcpSocketTable) (m : gmap (Z * Z) TcpControlBlock) : TcpSocketTable :=
  mkTable m (listeners t) (next_isn_ t) (last_now t).
Definition conn_insert (t : TcpSocketTable) (k : TcpConnectionKey) (b : TcpControlBlock) : TcpSocketTable :=
  with_connections t (<[encode_conn_key k := b]> (connections t)).
Definition conn_remove (t : TcpSocketTable) (k : TcpConnectionKey) : TcpSocketTable :=
  with_connections t (delete (encode_conn_key k) (connections t)).
Definition with_listeners (t : TcpSocketTable) (m : gmap Z ListenQueue) : TcpSocketTable :=
  mkTable (connections t) m (next_isn_ t) (last_now t).
Definition with_now (t : TcpSocketTable) (now : Z) : TcpSocketTable :=
  mkTable (connections t) (listeners t) (next_isn_ t) now.

Definition next_isn (t : TcpSocketTable) : Z * TcpSocketTable :=
  (next_isn_ t, mkTable (connections t) (listeners t) (wrapping_add 32 (next_isn_ t) 89837) (last_now t)).

Definition syn_segment (l r : SocketApiAddr) (isn : Z) : Segment :=
  mkSegment (sa_ip l) (sa_ip r) (sa_port l) (sa_port r) isn 0 SYN 65535 (encode_mss DEFAULT_MSS) [].

Definition connect (t : TcpSocketTable) (l r : SocketApiAddr) :
    exec (result NetError TcpConnectionKey * list TcpOutput * TcpSocketTable) :=
  let key := (l, r) in
  if conn_contains t key then Done (Err AddrInUse, [], t)
  else
    let '(isn, t) := next_isn t in
    let tcb := new_syn_sent l r isn in
    let syn := syn_segment l r isn in
    data ← wire syn;
    let tcb := set_queue tcb [mkRetransmit isn data (last_now t) 0] in
    Done (Ok key, [SendSegment syn (sa_ip r)], conn_insert t key tcb).

Definition tcp_listen (t : TcpSocketTable) (port max : Z) : result NetError () * TcpSocketTable :=
  match listeners t !! port with
  | Some _ => (Err AddrInUse, t)
  | None => (Ok (), with_listeners t (<[port := mkListen [] max]> (listeners t)))
  end.

Definition accept (t : TcpSocketTable) (port : Z) : option TcpConnectionKey * TcpSocketTable :=
  match listeners t !! port with
  | Some (mkListen (tcb :: q) max) =>
      let t := with_listeners t (<[port := mkListen q max]> (listeners t)) in
      let key := (local tcb, remote tcb) in
      (Some key, conn_insert t key tcb)
  | _ => (None, t)
  end.

Definition send (t : TcpSocketTable) (key : TcpConnectionKey) (data : bytes) :
    result NetError Z * list TcpOutput * TcpSocketTable :=
  match conn_get t key with
  | None => (Err NotConnected, [], t)
  | Some tcb =>
      if negb (can_send (state tcb)) then (Err InvalidArgument, [], t)
      else
        let n := Z.to_nat (Z.max (mss tcb) 1) in
        let '(tcb, outs) := send_chunks (last_now t) tcb (chunks n data) in
        (Ok (Z.of_nat (length data)), outs, conn_insert t key tcb)
  end.

(** [recv] into a buffer of [n] bytes: the bytes it stores. *)
Definition recv (t : TcpSocketTable) (key : TcpConnectionKey) (n : nat) : result NetError bytes * TcpSocketTable :=
  match conn_get t key with
  | None => (Err NotConnected, t)
  | Some tcb =>
      let n := Nat.min n (length (recv_buffer tcb)) in
      (Ok (take n (recv_buffer tcb)),
       conn_insert t key (set_rcv tcb (rcv_nxt tcb) (drop n (recv_buffer tcb))))
  end.

Definition close (t : TcpSocketTable) (key : TcpConnectionKey) :
    result NetError () * list TcpOutput * TcpSocketTable :=
  match conn_get t key with
  | None => (Err NotConnected, [], t)
  | Some tcb => let '(tcb, outs) := close_tcb tcb in (Ok (), outs, conn_insert t key tcb)
  end.

(** The reset that answers a segment without a connection. *)
Definition reset_reply (h : TcpHeader) (src_ip dst_ip : bytes) : TcpOutput :=
  SendSegment
    (if has_flag h ACK
     then build_tcp_segment dst_ip src_ip (tcp_dst_port h) (tcp_src_port h) (ack_num h) 0 RST 0 []
     else build_tcp_segment dst_ip src_ip (tcp_dst_port h) (tcp_src_port h) 0
            (wrapping_add 32 (seq_num h) 1) (Z.lor RST ACK) 0 []) src_ip.

(** A SYN for a listener with room: the new block and the answer. *)
Definition passive_open (t : TcpSocketTable) (h : TcpHeader) (src_ip dst_ip : bytes)
    (l r : SocketApiAddr) : list TcpOutput * TcpSocketTable :=
  let '(isn, t) := next_isn t in
  let tcb := new_syn_received l r (seq_num h) isn in
  ([SendSegment (mkSegment dst_ip src_ip (tcp_dst_port h) (tcp_src_port h) isn (rcv_nxt tcb)
      (Z.lor SYN ACK) (rcv_wnd tcb) (encode_mss DEFAULT_MSS) []) src_ip],
   conn_insert t (l, r) tcb).

(** [process_segment] on the table. *)
Definition deliver (t : TcpSocketTable) (key : TcpConnectionKey) (tcb : TcpControlBlock) (h : TcpHeader)
    (payload : bytes) (now : Z) : list TcpOutput * TcpSocketTable :=
  match process_segment key tcb h payload now with
  | (Keep tcb, outs) => (outs, conn_insert t key tcb)
  | (Remove, outs) => (outs, conn_remove t key)
  | (ToBacklog tcb, outs) =>
      let t := conn_remove t key in
      let port := sa_port (local tcb) in
      (outs, match listeners t !! port with
             | Some q => with_listeners t (<[port := mkListen (backlog q ++ [tcb]) (max_backlog q)]> (listeners t))
             | None => t
             end)
  end.

Definition handle_segment (t : TcpSocketTable) (h : TcpHeader) (payload src_ip dst_ip : bytes) (now : Z) :
    list TcpOutput * TcpSocketTable :=
  let t := with_now t now in
  let l := mkAddr dst_ip (tcp_dst_port h) in
  let r := mkAddr src_ip (tcp_src_port h) in
  let key := (l, r) in
  if has_flag h RST then
    if conn_contains t key then ([ConnectionClosed key], conn_remove t key) else ([], t)
  else
    match conn_get t key with
    | Some tcb => deliver t key tcb h payload now
    | None =>
        if has_flag h SYN && negb (has_flag h ACK) then
          match listeners t !! tcp_dst_port h with
          | Some q =>
              if max_backlog q <=? Z.of_nat (length (backlog q)) then
                ([SendSegment (build_tcp_segment dst_ip src_ip (tcp_dst_port h) (tcp_src_port h) 0
                    (wrapping_add 32 (seq_num h) 1) (Z.lor RST ACK) 0 []) src_ip], t)
              else passive_open t h src_ip dst_ip l r
          | None => ([reset_reply h src_ip dst_ip], t)
          end
        else ([reset_reply h src_ip dst_ip], t)
    end.

(** The keys of the table in their order. *)
Definition ekey_le (a b : Z * Z) : Prop := a.1 < b.1 \/ (a.1 = b.1 /\ a.2 <= b.2).
#[export] Instance ekey_le_dec : RelDecision ekey_le.
Proof. intros a b. unfold ekey_le. apply _. Defined.
Definition conn_keys (t : TcpSocketTable) : list (Z * Z) :=
  merge_sort ekey_le (map_to_list (connections t)).*1.

Definition tick_one (now : Z) (s : list TcpOutput * TcpSocketTable) (ekey : Z * Z) :
    list TcpOutput * TcpSocketTable :=
  let '(outs, t) := s in
  match connections t !! ekey with
  | None => (outs, t)
  | Some tcb0 =>
      let key := (local tcb0, remote tcb0) in
      match conn_get t key with
      | None => (outs, t)
      | Some tcb =>
          match tick_connection key now tcb with
          | (Some tcb, os) => (outs ++ os, conn_insert t key tcb)
          | (None, os) => (outs ++ os, conn_remove t key)
          end
      end
  end.

Definition tick (t : TcpSocketTable) (now : Z) : list TcpOutput * TcpSocketTable :=
  foldl (tick_one now) ([], with_now t now) (conn_keys t).

(** ** Sequence-number arithmetic *)

(** The sequence number of the byte at offset [off] of a stream that starts at [base]. *)
Definition seqn (base off : Z) : Z := (base + off) mod 2 ^ 32.

Lemma seqn_add base off n : wrapping_add 32 (seqn base off) (n mod 2 ^ 32) = seqn base (off + n).
Proof. unfold wrapping_add, seqn. rewrite <- Zplus_mod. f_equal. lia. Qed.

Lemma seqn_sub base x y : wrapping_sub (seqn base x) (seqn base y) = (x - y) mod 2 ^ 32.
Proof. unfold wrapping_sub, seqn. rewrite <- Zminus_mod. f_equal. lia. Qed.

Lemma seqn_inj base x y : 0 <= x < 2 ^ 32 -> 0 <= y < 2 ^ 32 -> seqn base x = seqn base y -> x = y.
Proof.
  intros Hx Hy He. assert (Hd : (x - y) mod 2 ^ 32 = 0).
  { rewrite <- (seqn_sub base), He. unfold wrapping_sub. by rewrite Z.sub_diag. }
  apply Z.mod_divide in Hd as [k Hk]; [|lia]. nia.
Qed.

Lemma seqn_lt base x y :
  0 <= x < 2 ^ 31 -> 0 <= y < 2 ^ 31 -> seq_lt (seqn base x) (seqn base y) = (x <? y).
Proof.
  intros Hx Hy. unfold seq_lt. rewrite seqn_sub.
  destruct (Z.ltb_spec x y).
  - rewrite Z.mod_small, (proj2 (Z.ltb_lt _ _)) by lia.
    rewrite (proj2 (Z.eqb_neq _ _)); [done|]. intros He. apply seqn_inj in He; lia.
  - destruct (decide (x = y)) as [->|]; [by rewrite Z.eqb_refl, andb_false_r|].
    replace ((y - x) mod 2 ^ 32) with (y - x + 2 ^ 32) by (apply Z.mod_unique with (-1); lia).
    by rewrite (proj2 (Z.ltb_ge _ _)) by lia.
Qed.

(** An acceptable acknowledgement of a stream of [n] bytes with [a] acknowledged names an offset
    between the two. *)
Lemma ack_in_window base a n ack :
  0 <= a <= n -> n < 2 ^ 31 -> 0 <= ack < 2 ^ 32 ->
  seq_lt (seqn base a) ack = true -> seq_le ack (seqn base n) = true ->
  exists a', ack = seqn base a' /\ a < a' <= n.
Proof.
  unfold seq_le, seq_lt. intros Ha Hn Hack H1 H2.
  apply andb_true_iff in H1 as [H1 Hne]. zbool.
  set (d1 := wrapping_sub ack (seqn base a)) in *.
  assert (Hd1 : 0 <= d1 < 2 ^ 32) by (apply Z.mod_pos_bound; lia).
  assert (Hak : ack = seqn base (a + d1)).
  { unfold d1, wrapping_sub, seqn. rewrite Z.add_assoc, Zplus_mod_idemp_r.
    replace (base + a + (ack - (base + a) mod 2 ^ 32)) with (ack + (base + a - (base + a) mod 2 ^ 32)) by lia.
    rewrite (Z.div_mod (base + a) (2 ^ 32)) at 1 by lia.
    replace (ack + _) with (ack + (base + a) / 2 ^ 32 * 2 ^ 32) by lia.
    by rewrite Z.mod_add, Z.mod_small by lia. }
  exists (a + d1). split; [done|].
  assert (d1 <> 0) by (intros Hz; apply Hne; rewrite Hak, Hz; f_equal; lia).
  apply orb_true_iff in H2 as [He|Hlt].
  - apply Z.eqb_eq in He. rewrite Hak in He. apply seqn_inj in He; lia.
  - apply andb_true_iff in Hlt as [Hlt _]. zbool. rewrite Hak, seqn_sub in Hlt.
    destruct (decide (a + d1 <= n)); [lia|].
    replace ((n - (a + d1)) mod 2 ^ 32) with (n - (a + d1) + 2 ^ 32) in Hlt
      by (apply Z.mod_unique with (-1); lia). lia.
Qed.

(** ** The sender *)

(** The queue holds, from offset [k] on, consecutive non-empty chunks that make up [rest]. *)
Fixpoint covers_from (base k : Z) (q : list RetransmitEntry) (rest : bytes) : Prop :=
  match q with
  | [] => rest = []
  | e :: q =>
      re_seq e = seqn base k /\ re_data e <> [] /\
      exists rest', rest = re_data e ++ rest' /\
        covers_from base (k + Z.of_nat (length (re_data e))) q rest'
  end.

(** The control block of an established sender that has been given the stream [sent]: its queue
    holds every byte from some offset at or before the first unacknowledged one. *)
Definition sender_ok (base : Z) (sent : bytes) (t : TcpControlBlock) : Prop :=
  state t = Established /\ 0 <= mss t /\
  Z.of_nat (length sent) < 2 ^ 31 /\
  snd_nxt t = seqn base (Z.of_nat (length sent)) /\
  exists a k,
    (k <= a <= length sent)%nat /\ snd_una t = seqn base (Z.of_nat a) /\
    covers_from base (Z.of_nat k) (retransmit_queue t) (drop k sent).

(** The segment carries bytes of the stream at their place. *)
Definition honest (base : Z) (sent : bytes) (seq : Z) (data : bytes) : Prop :=
  exists off, (off + length data <= length sent)%nat /\ seq = seqn base (Z.of_nat off) /\
              take (length data) (drop off sent) = data.

Lemma honest_app base sent more seq data : honest base sent seq data -> honest base (sent ++ more) seq data.
Proof.
  intros (off & Hl & -> & Hd). exists off. rewrite length_app. split; [lia|]. split; [done|].
  rewrite drop_app_le by lia. rewrite take_app_le by (rewrite length_drop; lia). done.
Qed.

Lemma covers_honest base k q sent e :
  covers_from base (Z.of_nat k) q (drop k sent) -> (k <= length sent)%nat -> e ∈ q ->
  honest base sent (re_seq e) (re_data e).
Proof.
  revert k. induction q as [|x q IH]; intros k Hc Hk He; [by apply elem_of_nil in He|].
  destruct Hc as (Hs & Hne & rest & Hr & Hc).
  assert (Hlen : (length (drop k sent) = length (re_data x) + length rest)%nat)
    by (rewrite Hr, length_app; done).
  rewrite length_drop in Hlen.
  apply elem_of_cons in He as [-> |He].
  - exists k. split; [lia|]. split; [done|]. rewrite Hr. apply take_app_length.
  - apply (IH (k + length (re_data x))%nat); [|lia|done].
    rewrite Nat2Z.inj_add, <- drop_drop, Hr, drop_app_length. done.
Qed.

Lemma covers_snoc base k q rest data sq now c :
  covers_from base k q rest -> data <> [] -> sq = seqn base (k + Z.of_nat (length rest)) ->
  covers_from base k (q ++ [mkRetransmit sq data now c]) (rest ++ data).
Proof.
  revert k rest. induction q as [|x q IH]; intros k rest Hc Hne Hs; simpl in *.
  - subst rest. simpl in *. split; [rewrite Hs; f_equal; lia|]. split; [done|].
    exists []. by rewrite app_nil_r.
  - destruct Hc as (Hx & Hxn & r & -> & Hc). split; [done|]. split; [done|].
    exists (r ++ data). rewrite app_assoc. split; [done|]. apply IH; [done|done|].
    rewrite Hs, length_app. f_equal. lia.
Qed.

Lemma covers_bound base k q sent :
  covers_from base (Z.of_nat k) q (drop k sent) -> q <> [] -> (k < length sent)%nat.
Proof.
  destruct q as [|e q]; [done|]. intros (_ & Hne & rest & Hr & _) _.
  assert (length (drop k sent) <> 0%nat) by (rewrite Hr; destruct (re_data e); done).
  rewrite length_drop in *. lia.
Qed.

(** The tail of a covering queue. *)
Lemma covers_tail base k e q sent :
  covers_from base (Z.of_nat k) (e :: q) (drop k sent) ->
  let k' := (k + length (re_data e))%nat in
  entry_end e = seqn base (Z.of_nat k') /\ (k < k' <= length sent)%nat /\
  covers_from base (Z.of_nat k') q (drop k' sent).
Proof.
  intros Hc k'. pose proof (covers_bound _ _ _ _ Hc ltac:(done)) as Hk.
  destruct Hc as (Hs & Hne & rest & Hr & Hc). subst k'.
  assert (Hl : (length (drop k sent) = length (re_data e) + length rest)%nat) by (by rewrite Hr, length_app).
  rewrite length_drop in Hl. assert (length (re_data e) <> 0%nat) by (by destruct (re_data e)).
  split; [unfold entry_end; rewrite Hs, seqn_add; f_equal; lia|]. split; [lia|].
  rewrite <- drop_drop, Hr, drop_app_length, Nat2Z.inj_add. done.
Qed.

Lemma filter_keeps base k a q sent :
  covers_from base (Z.of_nat k) q (drop k sent) -> (a <= k)%nat -> Z.of_nat (length sent) < 2 ^ 31 ->
  List.filter (fun e => seq_lt (seqn base (Z.of_nat a)) (entry_end e)) q = q.
Proof.
  revert k. induction q as [|e q IH]; intros k Hc Ha Hl; [done|].
  apply covers_tail in Hc as (He & Hk & Hc). simpl. rewrite He, seqn_lt by lia.
  rewrite (proj2 (Z.ltb_lt _ _)) by lia. f_equal. apply (IH (k + length (re_data e))%nat); [done|lia|done].
Qed.

Lemma covers_filter base k a q sent :
  covers_from base (Z.of_nat k) q (drop k sent) -> (k <= a <= length sent)%nat ->
  Z.of_nat (length sent) < 2 ^ 31 ->
  exists k', (k' <= a)%nat /\
    covers_from base (Z.of_nat k') (List.filter (fun e => seq_lt (seqn base (Z.of_nat a)) (entry_end e)) q)
      (drop k' sent).
Proof.
  revert k. induction q as [|e q IH]; intros k Hc Ha Hl; [exists k; split; [lia|done]|].
  pose proof Hc as Hc0. apply covers_tail in Hc as (He & Hk & Hc). simpl. rewrite He, seqn_lt by lia.
  destruct (Z.ltb_spec (Z.of_nat a) (Z.of_nat (k + length (re_data e)))).
  - exists k. split; [lia|]. rewrite (filter_keeps _ _ _ _ _ Hc) by lia. done.
  - apply (IH _ Hc); [lia|done].
Qed.

(** The first [a] bytes acknowledged, the queue covers the rest. *)
Lemma process_ack_sender base sent t h t' outs :
  sender_ok base sent t -> in_uint 32 (ack_num h) -> process_ack t h = (t', outs) -> sender_ok base sent t'.
Proof.
  intros (Hst & Hm & Hl & Hn & a & k & Hk & Hu & Hc) Hack. unfold process_ack.
  destruct (_ && negb _).
  { destruct (_ =? 3); intros [= <- <-]; repeat (split; [done|]); by exists a, k. }
  destruct (seq_lt _ _ && _) eqn:Hw; [|intros [= <- <-]; repeat (split; [done|]); by exists a, k].
  intros [= <- <-]. apply andb_true_iff in Hw as [H1 H2]. rewrite Hu in H1. rewrite Hn in H2.
  destruct (ack_in_window base (Z.of_nat a) (Z.of_nat (length sent)) (ack_num h)) as (a' & Ha' & Hr);
    [lia|done|exact Hack|done|done|].
  repeat (split; [done|]). simpl.
  destruct (covers_filter base k (Z.to_nat a') (retransmit_queue t) sent Hc) as (k' & Hk' & Hc'); [lia|done|].
  rewrite Z2Nat.id in Hc' by lia. exists (Z.to_nat a'), k'. split; [lia|]. rewrite Z2Nat.id by lia.
  split; [done|]. by rewrite <- Ha' in Hc'.
Qed.

Lemma send_chunk_sender base sent t now c :
  sender_ok base sent t -> c <> [] -> Z.of_nat (length (sent ++ c)) < 2 ^ 31 ->
  sender_ok base (sent ++ c) (send_chunk now t c).1.
Proof.
  intros (Hst & Hm & Hl & Hn & a & k & Hk & Hu & Hc) Hne Hlen. repeat (split; [done|]).
  split; [simpl; rewrite Hn, seqn_add, length_app; f_equal; lia|].
  exists a, k. rewrite length_app. split; [lia|]. split; [done|]. simpl.
  rewrite drop_app_le by lia. apply covers_snoc; [done|done|].
  rewrite Hn, length_drop. f_equal. lia.
Qed.

(** Every chunk of [data.chunks(n)] is non-empty, and together they are [data]. *)
Lemma chunks_loop_spec fuel n data :
  (0 < n)%nat -> (length data <= fuel)%nat ->
  concat (chunks_loop fuel n data) = data /\
  Forall (fun c => c <> [] /\ (length c <= n)%nat) (chunks_loop fuel n data).
Proof.
  intros Hn. revert data. induction fuel as [|fuel IH]; intros data Hl; simpl.
  { destruct data; [done|simpl in *; lia]. }
  destruct data as [|x data]; [done|].
  destruct (IH (drop n (x :: data))) as [H1 H2]; [rewrite length_drop; simpl in *; lia|].
  cbn [concat]. rewrite H1, take_drop. split; [done|]. constructor; [|done].
  split; [|rewrite length_take; lia]. destruct n; [lia|]. done.
Qed.

Lemma chunks_spec n data :
  (0 < n)%nat ->
  concat (chunks n data) = data /\ Forall (fun c => c <> [] /\ (length c <= n)%nat) (chunks n data).
Proof. intros Hn. by apply chunks_loop_spec. Qed.

(** *** What the sender puts on the network *)

Definition out_segment (o : TcpOutput) : option Segment :=
  match o with SendSegment s _ => Some s | _ => None end.
Definition segments (outs : list TcpOutput) : list Segment := omap out_segment outs.

(** An acknowledgement, or bytes of the stream at their place. *)
Definition good_segment (base : Z) (sent : bytes) (s : Segment) : Prop :=
  s_options s = [] /\ (s_flags s = ACK \/ s_flags s = Z.lor ACK PSH) /\
  (s_payload s = [] \/ honest base sent (s_seq s) (s_payload s)).
Definition good_outputs (base : Z) (sent : bytes) (outs : list TcpOutput) : Prop :=
  Forall (good_segment base sent) (segments outs).

Lemma good_segment_app base sent more s : good_segment base sent s -> good_segment base (sent ++ more) s.
Proof. intros (? & ? & [?|?]); (split; [done|]); (split; [done|]); [by left|right; by apply honest_app]. Qed.

Lemma good_data base sent t seq data :
  honest base sent seq data ->
  good_segment base sent (build_tcp_segment (sa_ip (local t)) (sa_ip (remote t)) (sa_port (local t))
    (sa_port (remote t)) seq (rcv_nxt t) (Z.lor ACK PSH) (rcv_wnd t) data).
Proof. intros H. split; [done|]. split; [by right|by right]. Qed.

Lemma send_chunks_sender base t now cs :
  forall sent, sender_ok base sent t -> Forall (fun c => c <> []) cs ->
  Z.of_nat (length (sent ++ concat cs)) < 2 ^ 31 ->
  let '(t', outs) := send_chunks now t cs in
  sender_ok base (sent ++ concat cs) t' /\ good_outputs base (sent ++ concat cs) outs.
Proof.
  revert t. induction cs as [|c cs IH]; intros t sent Hs Hcs Hl.
  { simpl. rewrite app_nil_r. split; [done|constructor]. }
  inversion Hcs as [|? ? Hc Hcs']; subst. cbn [send_chunks concat] in *.
  pose proof (send_chunk_sender base sent t now c Hs Hc) as H1.
  destruct (send_chunk now t c) as [t1 o] eqn:He. rewrite app_assoc in *. simpl in H1.
  assert (Z.of_nat (length (sent ++ c)) < 2 ^ 31) as Hl1 by (rewrite (length_app (sent ++ c)) in Hl; lia).
  specialize (IH t1 (sent ++ c) (H1 Hl1) Hcs' Hl). destruct (send_chunks now t1 cs) as [t2 os].
  destruct IH as [H2 H3]. split; [done|]. injection He as _ <-. unfold good_outputs. simpl.
  constructor; [|done]. apply good_segment_app, good_data. destruct Hs as (_ & _ & _ & Hn & _).
  exists (length sent). rewrite length_app. split; [lia|]. split; [done|].
  by rewrite drop_app_length, firstn_all.
Qed.

Lemma process_ack_good base sent t h t' outs :
  sender_ok base sent t -> process_ack t h = (t', outs) -> good_outputs base sent outs.
Proof.
  intros (Hst & Hm & Hl & Hn & a & k & Hk & Hu & Hc). unfold process_ack.
  destruct (_ && negb _).
  2:{ destruct (_ && _); intros [= <- <-]; constructor. }
  destruct (_ =? 3); intros [= <- <-]; [|constructor]. simpl.
  destruct (retransmit_queue t) as [|e q] eqn:Hq; [constructor|].
  constructor; [|constructor]. apply (good_data base sent t).
  eapply (covers_honest base k (e :: q)); [done|lia|left].
Qed.

(** Receiving does not touch the send side. *)
Lemma receive_data_sender base sent key t h payload t' outs :
  receive_data key t h payload = (t', outs) ->
  (sender_ok base sent t -> sender_ok base sent t') /\ good_outputs base sent outs.
Proof.
  unfold receive_data. destruct (_ && _); intros [= <- <-]; (split; [done|]); [|constructor].
  constructor; [|constructor]. split; [done|]. split; [by left|by left].
Qed.

Lemma segment_sender base sent key t h payload now t' outs :
  sender_ok base sent t -> in_uint 32 (ack_num h) -> has_flag h FIN = false ->
  process_segment key t h payload now = (Keep t', outs) ->
  sender_ok base sent t' /\ good_outputs base sent outs.
Proof.
  intros Hs Hack Hf. pose proof Hs as (Hst & _). unfold process_segment. rewrite Hst, Hf.
  destruct (if has_flag h ACK then process_ack t h else (t, [])) as [t1 o1] eqn:H1.
  destruct (receive_data key t1 h payload) as [t2 o2] eqn:H2. intros [= <- <-].
  assert (sender_ok base sent t1 /\ good_outputs base sent o1) as [Hs1 Ho1].
  { destruct (has_flag h ACK); [|injection H1 as <- <-; split; [done|constructor]].
    split; [by eapply process_ack_sender|by eapply process_ack_good]. }
  destruct (receive_data_sender base sent _ _ _ _ _ _ H2) as [Hs2 Ho2]. split; [auto|].
  unfold good_outputs, segments. rewrite omap_app. by apply Forall_app.
Qed.

(** *** Retransmission *)

Lemma find_entry_Some seq q pre e post :
  find_entry seq q = Some (pre, e, post) -> q = pre ++ e :: post /\ re_seq e = seq.
Proof.
  revert pre. induction q as [|x q IH]; intros pre; simpl; [done|].
  destruct (Z.eqb_spec (re_seq x) seq) as [Hx|]; [by intros [= <- <- <-]|].
  destruct (find_entry seq q) as [[[p e'] po]|]; [|done]. intros [= <- <- <-].
  destruct (IH p eq_refl) as [-> ?]. done.
Qed.

Lemma covers_update base k pre e post rest now c :
  covers_from base k (pre ++ e :: post) rest ->
  covers_from base k (pre ++ mkRetransmit (re_seq e) (re_data e) now c :: post) rest.
Proof.
  revert k rest. induction pre as [|x pre IH]; intros k rest; [done|].
  intros (Hs & Hne & r & Hr & Hc). split; [done|]. split; [done|]. exists r. auto.
Qed.

Lemma retransmit_one_sender base sent key now t seq t' outs :
  sender_ok base sent t -> retransmit_one key now t seq = (Some t', outs) ->
  sender_ok base sent t' /\ good_outputs base sent outs.
Proof.
  intros Hs. pose proof Hs as (Hst & Hm & Hl & Hn & a & k & Hk & Hu & Hc). unfold retransmit_one.
  destruct (find_entry seq (retransmit_queue t)) as [[[pre e] post]|] eqn:Hf.
  2:{ intros [= <- <-]. split; [done|constructor]. }
  destruct (MAX_RETRANSMIT <=? _); [done|]. intros [= <- <-].
  apply find_entry_Some in Hf as [Hq _]. rewrite Hq in Hc. split.
  - repeat (split; [done|]). exists a, k. split; [done|]. split; [done|]. simpl. by apply covers_update.
  - constructor; [|constructor]. apply (good_data base sent t).
    eapply (covers_honest base k); [exact Hc|lia|]. rewrite elem_of_app. right. left.
Qed.

Lemma retransmit_loop_sender base sent key now seqs t t' outs :
  sender_ok base sent t -> retransmit_loop key now t seqs = (Some t', outs) ->
  sender_ok base sent t' /\ good_outputs base sent outs.
Proof.
  revert t outs. induction seqs as [|seq seqs IH]; intros t outs Hs; simpl.
  { intros [= <- <-]. split; [done|constructor]. }
  destruct (retransmit_one key now t seq) as [[t1|] o1] eqn:H1; [|done].
  destruct (retransmit_loop key now t1 seqs) as [r o2] eqn:H2. intros [= -> <-].
  destruct (retransmit_one_sender _ _ _ _ _ _ _ _ Hs H1) as [Hs1 Ho1].
  destruct (IH _ _ Hs1 H2) as [Hs2 Ho2]. split; [done|].
  unfold good_outputs, segments. rewrite omap_app. by apply Forall_app.
Qed.

(** ** The receiver *)

(** The receiver has taken the first [n] bytes of the stream; the application has [got] of them. *)
Definition receiver_ok (base : Z) (sent got : bytes) (t : TcpControlBlock) : Prop :=
  state t = Established /\
  exists n, (n <= length sent)%nat /\ rcv_nxt t = seqn base (Z.of_nat n) /\
            got ++ recv_buffer t = take n sent.

Lemma process_ack_receiver t h t' outs :
  process_ack t h = (t', outs) ->
  state t' = state t /\ rcv_nxt t' = rcv_nxt t /\ recv_buffer t' = recv_buffer t.
Proof. unfold process_ack. destruct (_ && negb _); [destruct (_ =? 3)|destruct (_ && _)]; by intros [= <- <-]. Qed.

Lemma flags_of_segment s f :
  0 <= s_flags s < 256 -> has_flag (seg_header s) f = negb (Z.land (s_flags s) f =? 0).
Proof.
  intros Hs. unfold has_flag, tcp_flags, seg_header. cbn [data_offset_flags].
  rewrite Z.lor_comm, lor_shiftl by lia. change 255 with (Z.ones 8).
  rewrite Z.land_ones by lia. replace (2 ^ 12) with (16 * 2 ^ 8) by done.
  rewrite Z.mul_assoc, Z.mod_add, Z.mod_small by lia. done.
Qed.

Lemma good_segment_flags base sent s : good_segment base sent s -> has_flag (seg_header s) FIN = false.
Proof. intros (_ & [Hf|Hf] & _); rewrite flags_of_segment by (rewrite Hf; done); by rewrite Hf. Qed.

(** A segment of the stream, whenever it arrives, keeps the receiver on the stream. *)
Lemma segment_receiver base sent got key t s now t' outs :
  Z.of_nat (length sent) < 2 ^ 31 ->
  receiver_ok base sent got t -> good_segment base sent s ->
  process_segment key t (seg_header s) (s_payload s) now = (Keep t', outs) ->
  receiver_ok base sent got t'.
Proof.
  intros Hl (Hst & n & Hn & Hr & Hb) Hg. pose proof (good_segment_flags _ _ _ Hg) as Hf.
  unfold process_segment. rewrite Hst, Hf.
  destruct (if has_flag (seg_header s) ACK then _ else _) as [t1 o1] eqn:H1.
  assert (state t1 = Established /\ rcv_nxt t1 = rcv_nxt t /\ recv_buffer t1 = recv_buffer t) as (Hs1 & Hr1 & Hb1).
  { destruct (has_flag (seg_header s) ACK); [|by injection H1 as <- <-].
    rewrite <- Hst. by eapply process_ack_receiver. }
  unfold receive_data. case_bool_decide as Hp; simpl.
  { intros [= <- <-]. split; [done|]. exists n. by rewrite Hr1, Hb1. }
  destruct (Z.eqb_spec (s_seq s) (rcv_nxt t1)) as [Hseq|]; intros [= <- <-].
  2:{ split; [done|]. exists n. by rewrite Hr1, Hb1. }
  destruct Hg as (_ & _ & [?|(off & Hoff & Hsq & Hd)]); [done|].
  assert (Z.of_nat off = Z.of_nat n) as Heq.
  { apply (seqn_inj base); [lia|lia|]. congruence. }
  apply Nat2Z.inj in Heq. subst off. split; [done|].
  exists (n + length (s_payload s))%nat. split; [done|]. simpl.
  rewrite Hr1, Hr, seqn_add, Nat2Z.inj_add. split; [done|].
  rewrite Hb1, app_assoc, Hb, <- take_take_drop, Hd. done.
Qed.

Lemma receiver_more base sent more got t :
  receiver_ok base sent got t -> receiver_ok base (sent ++ more) got t.
Proof.
  intros (Hst & n & Hn & Hr & Hb). split; [done|]. exists n. rewrite length_app. split; [lia|].
  split; [done|]. by rewrite take_app_le.
Qed.

(** ** A connection over a network that loses, repeats and reorders *)

Record World := mkWorld {
  w_snd : TcpControlBlock;   (* the sender *)
  w_rcv : TcpControlBlock;   (* the receiver *)
  w_sent : bytes;            (* what the sending application has written *)
  w_got : bytes;             (* what the receiving application has read *)
  w_net : list Segment;      (* every segment the sender has emitted *)
}.

Inductive world_step : World -> World -> Prop :=
| step_send w now data s outs :
    Z.of_nat (length (w_sent w ++ data)) < 2 ^ 31 ->
    send_chunks now (w_snd w) (chunks (Z.to_nat (Z.max (mss (w_snd w)) 1)) data) = (s, outs) ->
    world_step w (mkWorld s (w_rcv w) (w_sent w ++ data) (w_got w) (w_net w ++ segments outs))
| step_ack w key h payload now s outs :
    (* any segment but a FIN reaches the sender: lost, stale, repeated or forged acknowledgements *)
    in_uint 32 (ack_num h) -> has_flag h FIN = false ->
    process_segment key (w_snd w) h payload now = (Keep s, outs) ->
    world_step w (mkWorld s (w_rcv w) (w_sent w) (w_got w) (w_net w ++ segments outs))
| step_tick w key now s outs :
    tick_connection key now (w_snd w) = (Some s, outs) ->
    world_step w (mkWorld s (w_rcv w) (w_sent w) (w_got w) (w_net w ++ segments outs))
| step_deliver w key seg now r outs :
    (* any segment ever emitted, in any order and any number of times *)
    seg ∈ w_net w ->
    process_segment key (w_rcv w) (seg_header seg) (s_payload seg) now = (Keep r, outs) ->
    world_step w (mkWorld (w_snd w) r (w_sent w) (w_got w) (w_net w))
| step_read w n :
    world_step w (mkWorld (w_snd w)
      (set_rcv (w_rcv w) (rcv_nxt (w_rcv w)) (drop (Nat.min n (length (recv_buffer (w_rcv w)))) (recv_buffer (w_rcv w))))
      (w_sent w) (w_got w ++ take (Nat.min n (length (recv_buffer (w_rcv w)))) (recv_buffer (w_rcv w))) (w_net w)).

Definition world_ok (base : Z) (w : World) : Prop :=
  sender_ok base (w_sent w) (w_snd w) /\ receiver_ok base (w_sent w) (w_got w) (w_rcv w) /\
  Forall (good_segment base (w_sent w)) (w_net w).

Lemma tick_sender base sent key now t t' outs :
  sender_ok base sent t -> tick_connection key now t = (Some t', outs) ->
  sender_ok base sent t' /\ good_outputs base sent outs.
Proof.
  intros Hs. pose proof Hs as (Hst & _). unfold tick_connection.
  rewrite bool_decide_false by (rewrite Hst; done). simpl. by apply retransmit_loop_sender.
Qed.

Lemma world_step_ok base w w' : world_step w w' -> world_ok base w -> world_ok base w'.
Proof.
  intros Hstep (Hs & Hr & Hn). destruct Hstep; simpl.
  - destruct (chunks_spec (Z.to_nat (Z.max (mss (w_snd w)) 1)) data) as [Hc Hne]; [lia|].
    pose proof (send_chunks_sender base (w_snd w) now (chunks (Z.to_nat (Z.max (mss (w_snd w)) 1)) data) (w_sent w) Hs) as H1.
    rewrite H0, Hc in H1. destruct H1 as [H1 H2]; [by eapply Forall_impl; [exact Hne|]; intros ? [? _]|done|].
    split; [done|]. split; [by apply receiver_more|]. apply Forall_app. split; [|done].
    eapply Forall_impl; [exact Hn|]. intros ? ?. by apply good_segment_app.
  - destruct (segment_sender base (w_sent w) _ _ _ _ _ _ _ Hs H H0 H1) as [Hs' Ho].
    split; [done|]. split; [done|]. by apply Forall_app.
  - destruct (tick_sender base (w_sent w) _ _ _ _ _ Hs H) as [Hs' Ho].
    split; [done|]. split; [done|]. by apply Forall_app.
  - split; [done|]. split; [|done]. rewrite Forall_forall in Hn.
    eapply segment_receiver; [by destruct Hs as (_ & _ & ? & _)|done|by apply Hn|done].
  - split; [done|]. split; [|done]. destruct Hr as (Hst & n' & Hn' & Hr & Hb). split; [done|].
    exists n'. split; [done|]. split; [done|]. simpl. by rewrite <- app_assoc, take_drop.
Qed.

(** Two ends right after a handshake: nothing sent, nothing received, and the receiver expects the
    sender's next byte. *)
Definition fresh_world (s r : TcpControlBlock) : World := mkWorld s r [] [] [].
Definition fresh (s r : TcpControlBlock) : Prop :=
  state s = Established /\ state r = Established /\ 0 <= mss s /\ in_uint 32 (snd_nxt s) /\
  snd_una s = snd_nxt s /\ retransmit_queue s = [] /\ rcv_nxt r = snd_nxt s /\ recv_buffer r = [].

Lemma fresh_ok s r : fresh s r -> world_ok (snd_nxt s) (fresh_world s r).
Proof.
  intros (H1 & H2 & H3 & H4 & H5 & H6 & H7 & H8).
  assert (Hz : snd_nxt s = seqn (snd_nxt s) 0) by (unfold seqn; rewrite Z.add_0_r, Z.mod_small; done).
  split; [|split; [|constructor]]; simpl.
  - repeat (split; [done|]). exists 0%nat, 0%nat. split; [done|]. split; [exact (eq_trans H5 Hz)|]. simpl. by rewrite H6.
  - split; [done|]. exists 0%nat. split; [done|]. split; [exact (eq_trans H7 Hz)|]. by rewrite H8.
Qed.

(** C2. The byte stream is delivered intact: whatever the network does to the segments of an
    established connection (losing, repeating and reordering them, and returning acknowledgements
    that are late, repeated or forged) and however the applications interleave writes, reads and
    timer ticks, what the receiving application has read, followed by what is in the receive
    buffer, is a prefix of what the sending application has written (up to 2^31 bytes). *)
Theorem tcp_stream_integrity (s r : TcpControlBlock) (w : World) :
  fresh s r -> rtc world_step (fresh_world s r) w ->
  exists n, w_got w ++ recv_buffer (w_rcv w) = take n (w_sent w).
Proof.
  intros Hf Hr. assert (Hok : world_ok (snd_nxt s) w).
  { eapply (reach_inv world_step); [intros ? ? H ?; by eapply world_step_ok|by apply fresh_ok|exact Hr]. }
  destruct Hok as (_ & (_ & n & _ & _ & Hb) & _). by exists n.
Qed.

(** No unacknowledged byte is forgotten: in every such run the retransmission queue holds,
    as consecutive non-empty chunks with the right sequence numbers, the whole tail of the written
    stream from an offset [k] at or before the first unacknowledged offset [a] up to the end. *)
Theorem tcp_queue_covers (s r : TcpControlBlock) (w : World) :
  fresh s r -> rtc world_step (fresh_world s r) w ->
  exists a k,
    (k <= a <= length (w_sent w))%nat /\
    snd_una (w_snd w) = (snd_nxt s + Z.of_nat a) mod 2 ^ 32 /\
    snd_nxt (w_snd w) = (snd_nxt s + Z.of_nat (length (w_sent w))) mod 2 ^ 32 /\
    covers_from (snd_nxt s) (Z.of_nat k) (retransmit_queue (w_snd w)) (drop k (w_sent w)).
Proof.
  intros Hf Hr. assert (Hok : world_ok (snd_nxt s) w).
  { eapply (reach_inv world_step); [intros ? ? H ?; by eapply world_step_ok|by apply fresh_ok|exact Hr]. }
  destruct Hok as ((_ & _ & _ & Hn & a & k & Hk & Hu & Hc) & _). by exists a, k.
Qed.

(** ** Delivery without loss *)

(** The segments reach the receiver in order. *)
Definition deliver_all (key : TcpConnectionKey) (now : Z) (r : TcpControlBlock) (segs : list Segment) :
    TcpControlBlock :=
  foldl (fun r s => match process_segment key r (seg_header s) (s_payload s) now with
                    | (Keep r', _) => r'
                    | _ => r
                    end) r segs.

Lemma deliver_chunk key now now' r s c :
  state r = Established -> rcv_nxt r = snd_nxt s -> c <> [] ->
  exists r' o, process_segment key r
      (seg_header (build_tcp_segment (sa_ip (local s)) (sa_ip (remote s)) (sa_port (local s))
         (sa_port (remote s)) (snd_nxt s) (rcv_nxt s) (Z.lor ACK PSH) (rcv_wnd s) c)) c now'
      = (Keep r', o) /\
    state r' = Established /\ rcv_nxt r' = snd_nxt (send_chunk now s c).1 /\
    recv_buffer r' = recv_buffer r ++ c.
Proof.
  intros Hst Hr Hc. set (seg := build_tcp_segment _ _ _ _ _ _ _ _ _).
  unfold process_segment. rewrite Hst.
  rewrite !(flags_of_segment seg) by done. change (negb (Z.land (s_flags seg) ACK =? 0)) with true.
  change (negb (Z.land (s_flags seg) FIN =? 0)) with false. cbv iota.
  destruct (process_ack r (seg_header seg)) as [r1 o1] eqn:H1.
  apply process_ack_receiver in H1 as (Hs1 & Hr1 & Hb1). unfold receive_data.
  rewrite bool_decide_false by done. change (seq_num (seg_header seg)) with (snd_nxt s).
  rewrite Hr1, Hr, Z.eqb_refl. simpl. eexists _, _. split; [done|]. simpl.
  split; [congruence|]. split; [done|]. by rewrite Hb1.
Qed.

Lemma send_chunks_delivers key now now' cs :
  forall s r, Forall (fun c => c <> []) cs -> state r = Established -> rcv_nxt r = snd_nxt s ->
  let '(s', outs) := send_chunks now s cs in
  let r' := deliver_all key now' r (segments outs) in
  recv_buffer r' = recv_buffer r ++ concat cs /\ rcv_nxt r' = snd_nxt s' /\ state r' = Established.
Proof.
  induction cs as [|c cs IH]; intros s r Hcs Hst Hr.
  { simpl. by rewrite app_nil_r. }
  inversion Hcs as [|? ? Hc Hcs']; subst.
  destruct (deliver_chunk key now now' r s c Hst Hr Hc) as (r1 & o1 & Hp & Hst1 & Hr1 & Hb1).
  cbn [send_chunks]. destruct (send_chunk now s c) as [s1 o] eqn:Hs. simpl in Hr1.
  specialize (IH s1 r1 Hcs' Hst1 Hr1). destruct (send_chunks now s1 cs) as [s2 os].
  injection Hs as _ <-. unfold deliver_all. simpl. simpl in Hp. rewrite Hp.
  fold (deliver_all key now' r1 (segments os)). destruct IH as (-> & ? & ?).
  rewrite Hb1, <- app_assoc. done.
Qed.

(** Without loss everything arrives: when the segments that one [send] emits reach the peer in
    order, the peer's receive buffer has grown by exactly the data, and it expects the sender's
    next byte. *)
Theorem tcp_lossless_delivery (key : TcpConnectionKey) (now now' : Z) (s r : TcpControlBlock) (data : bytes) :
  state r = Established -> rcv_nxt r = snd_nxt s ->
  let '(s', outs) := send_chunks now s (chunks (Z.to_nat (Z.max (mss s) 1)) data) in
  let r' := deliver_all key now' r (segments outs) in
  recv_buffer r' = recv_buffer r ++ data /\ rcv_nxt r' = snd_nxt s' /\ state r' = Established.
Proof.
  intros Hst Hr. destruct (chunks_spec (Z.to_nat (Z.max (mss s) 1)) data) as [Hc Hne]; [lia|].
  pose proof (send_chunks_delivers key now now' (chunks (Z.to_nat (Z.max (mss s) 1)) data) s r) as H.
  rewrite Hc in H. apply H; [|done|done]. eapply Forall_impl; [exact Hne|]. by intros ? [? _].
Qed.

(** ** Segments on the wire *)

Definition segment_ok (s : Segment) : Prop :=
  is_array 4 (s_src_ip s) /\ is_array 4 (s_dst_ip s) /\
  in_uint 16 (s_src_port s) /\ in_uint 16 (s_dst_port s) /\ in_uint 32 (s_seq s) /\ in_uint 32 (s_ack s) /\
  0 <= s_flags s < 256 /\ in_uint 16 (s_window s) /\
  is_bytes (s_options s) /\ is_bytes (s_payload s) /\
  (length (s_options s) mod 4 = 0)%nat /\ (length (s_options s) <= 40)%nat /\
  Z.of_nat (length (s_payload s)) <= 65435.

Lemma be32_bytes x : in_uint 32 x -> is_bytes (be32 x).
Proof.
  unfold in_uint. intros Hx. unfold be32. repeat constructor; try (apply Z.mod_pos_bound; lia);
    [apply Z.div_pos|apply Z.div_lt_upper_bound]; lia.
Qed.

(** The number of option words. *)
Lemma option_words s :
  segment_ok s ->
  exists k, length (s_options s) = (4 * k)%nat /\ (k <= 10)%nat /\ Z.of_nat (length (s_options s)) / 4 = Z.of_nat k.
Proof.
  intros (_ & _ & _ & _ & _ & _ & _ & _ & _ & _ & Hm & Hl & _).
  exists (length (s_options s) / 4)%nat.
  pose proof (Nat.div_mod (length (s_options s)) 4 ltac:(lia)) as Hd.
  assert (He : length (s_options s) = (4 * (length (s_options s) / 4))%nat) by lia.
  split; [done|]. split; [lia|]. rewrite Nat2Z.inj_div. done.
Qed.

Lemma dof_words s k :
  0 <= s_flags s < 256 -> Z.of_nat (length (s_options s)) / 4 = Z.of_nat k -> (k <= 10)%nat ->
  in_uint 16 (data_offset_flags (seg_header s)) /\
  Z.shiftr (data_offset_flags (seg_header s)) 12 = 5 + Z.of_nat k.
Proof.
  intros Hf Hk Hle. unfold seg_header. cbn [data_offset_flags]. rewrite Hk, Z.lor_comm, lor_shiftl by lia.
  split; [unfold in_uint; lia|]. rewrite Z.shiftr_div_pow2 by lia. symmetry.
  apply Z.div_unique with (s_flags s); lia.
Qed.

Lemma tcp_parse_options h k rest :
  Z.shiftr (data_offset_flags h) 12 = 5 + Z.of_nat k -> (4 * k <= length rest)%nat ->
  tcp_parse (tcp_bytes h ++ rest) = Some (h, drop (4 * k) rest).
Proof.
  destruct h as [sp dp sn an dof wn ck up]; cbn [data_offset_flags]. intros Hd Hl.
  unfold tcp_parse, tcp_bytes. parse_back. rewrite Hd.
  replace (Z.to_nat (5 + Z.of_nat k) * 4)%nat with (20 + 4 * k)%nat by lia.
  parse_back.
  assert (H1 : (length rest <? 4 * k)%nat = false) by (apply Nat.ltb_ge; lia).
  assert (H2 : (4 * k <=? length rest)%nat = true) by (apply Nat.leb_le; lia).
  rewrite H2. unfold Nat.ltb in H1. destruct (4 * k)%nat; cbn in *; [done|]. by rewrite H1.
Qed.

Lemma tcp_bytes_ok h :
  in_uint 16 (tcp_src_port h) -> in_uint 16 (tcp_dst_port h) -> in_uint 32 (seq_num h) ->
  in_uint 32 (ack_num h) -> in_uint 16 (data_offset_flags h) -> in_uint 16 (window h) ->
  in_uint 16 (tcp_checksum h) -> in_uint 16 (urgent_ptr h) -> is_array 20 (tcp_bytes h).
Proof.
  intros H1 H2 H3 H4 H5 H6 H7 H8. split; [done|]. unfold tcp_bytes.
  repeat (apply Forall_app; split); by (apply be16_bytes || apply be32_bytes).
Qed.

(** The header with its checksum filled in. *)
Definition stamped (h : TcpHeader) (c : Z) : TcpHeader :=
  mkTcp (tcp_src_port h) (tcp_dst_port h) (seq_num h) (ack_num h) (data_offset_flags h) (window h) c (urgent_ptr h).

Lemma tcp_checksum_Done h s d len rest :
  is_array 20 (tcp_bytes (stamped h 0)) -> is_array 4 s -> is_array 4 d -> in_uint 16 len ->
  is_bytes rest -> Z.of_nat (length rest) <= 65475 ->
  exists c, tcp_compute_checksum h (mkPseudo s d 0 PROTO_TCP len) rest = Done c /\ in_uint 16 c.
Proof.
  intros [Hhl Hhb] Hs Hd Hl Hb Hlen. unfold tcp_compute_checksum, tcp_serialize.
  destruct (pseudo_bytes_ok s d PROTO_TCP len) as [Hpl Hpb]; [done|done|unfold is_byte, PROTO_TCP; lia|done|].
  fold (stamped h 0). rewrite write_header_zero by done.
  revert Hhl Hhb. generalize (tcp_bytes (stamped h 0)) as hb. intros hb Hhl Hhb.
  rewrite checksum_combine_concat, internet_checksum_exact; cbn [concat].
  - eexists. split; [done|]. apply ones_complement_bound.
  - rewrite app_nil_r. apply Forall_app. split; [done|]. by apply Forall_app.
  - rewrite app_nil_r, !length_app, Hpl, Hhl. lia.
Qed.

Lemma wire_exact (s : Segment) :
  segment_ok s ->
  exists pkt ih t c,
    wire s = Done pkt /\
    parse_ipv4_packet pkt = Done (Some (ih, t)) /\
    ip_src ih = s_src_ip s /\ ip_dst ih = s_dst_ip s /\ ip_protocol ih = PROTO_TCP /\
    tcp_parse t = Some (stamped (seg_header s) c, s_payload s) /\
    tcp_verify_checksum (stamped (seg_header s) c)
      (mkPseudo (s_src_ip s) (s_dst_ip s) 0 PROTO_TCP (Z.of_nat (length t))) (s_options s ++ s_payload s) = Done true /\
    is_bytes pkt /\ length pkt = (40 + length (s_options s) + length (s_payload s))%nat.
Proof.
  intros Hok. destruct (option_words s Hok) as (k & Hk & Hk10 & Hdiv).
  destruct Hok as (Hs & Hd & Hsp & Hdp & Hsq & Hak & Hf & Hw & Hob & Hpb & Hm & Hol & Hpl).
  destruct (dof_words s k Hf Hdiv Hk10) as [Hdu Hds].
  unfold wire, build_tcp_segment_with_options. cbn [s_src_ip s_dst_ip s_payload s_options].
  replace ((Z.of_nat (length (s_options s)) mod 4 =? 0) && (Z.of_nat (length (s_options s)) <=? 40)) with true
    by (symmetry; apply andb_true_iff; split; [apply Z.eqb_eq; rewrite Hk, Nat2Z.inj_mul, Z.mul_comm; apply Z.mod_mul; lia|lia]).
  replace (mkSegment _ _ _ _ _ _ _ _ (s_options s) (s_payload s)) with s by (by destruct s).
  set (rest := s_options s ++ s_payload s). set (h := seg_header s).
  assert (Hrl : length rest = (length (s_options s) + length (s_payload s))%nat) by (unfold rest; by rewrite length_app).
  assert (Hlen : (20 + Z.of_nat (length rest)) mod 2 ^ 16 = 20 + Z.of_nat (length rest)) by (rewrite Z.mod_small; lia).
  rewrite Hlen. assert (Hrb : is_bytes rest) by (by apply Forall_app).
  assert (Hhb : forall c, in_uint 16 c -> is_array 20 (tcp_bytes (stamped h c))).
  { intros c Hc. by apply tcp_bytes_ok. }
  destruct (tcp_checksum_Done h (s_src_ip s) (s_dst_ip s) (20 + Z.of_nat (length rest)) rest) as (c & Hc & Hcb);
    [apply Hhb; unfold in_uint; lia|done|done|unfold in_uint; lia|done|lia|].
  rewrite Hc. cbn [mbind exec_bind]. fold (stamped h c).
  replace (put_range _ 20 rest) with (tcp_bytes (stamped h c) ++ rest)
    by (symmetry; unfold tcp_serialize; by apply (header_then_payload 20)).
  destruct (build_ipv4_exact (s_src_ip s) (s_dst_ip s) PROTO_TCP 64 0 (tcp_bytes (stamped h c) ++ rest))
    as (ih & Hi & His & Hid & Hip & _ & _ & [Hil Hib] & Hparse);
    [done|done|unfold is_byte, PROTO_TCP; lia|unfold is_byte; lia|unfold in_uint; lia|].
  exists (ipv4_bytes ih ++ tcp_bytes (stamped h c) ++ rest), ih, (tcp_bytes (stamped h c) ++ rest), c.
  split; [done|]. split; [specialize (Hparse []); by rewrite !app_nil_r in Hparse|]. repeat (split; [done|]).
  split; [|split; [|split]].
  - rewrite (tcp_parse_options _ k) by (done || lia). do 2 f_equal. unfold rest. rewrite <- Hk. apply drop_app_length.
  - rewrite length_app. change (length (tcp_bytes _)) with 20%nat. unfold tcp_verify_checksum.
    replace (Z.of_nat (20 + length rest)) with (20 + Z.of_nat (length rest)) by lia.
    replace (tcp_compute_checksum (stamped h c)) with (tcp_compute_checksum h) by done.
    fold rest. rewrite Hc. cbn [mbind exec_bind]. simpl. by rewrite Z.eqb_refl.
  - apply Forall_app. split; [done|]. apply Forall_app. split; [by apply Hhb|done].
  - rewrite !length_app, Hil. change (length (tcp_bytes _)) with 20%nat. lia.
Qed.

(** A segment survives the wire: building it never panics, and the packet parses back to the
    addresses, the ports, both sequence numbers, the flags and the window of the segment, with the
    options skipped, the payload intact, and a correct TCP checksum. *)
Theorem segment_wire_roundtrip (s : Segment) :
  segment_ok s ->
  exists pkt ih t c,
    wire s = Done pkt /\
    parse_ipv4_packet pkt = Done (Some (ih, t)) /\
    ip_src ih = s_src_ip s /\ ip_dst ih = s_dst_ip s /\ ip_protocol ih = PROTO_TCP /\
    tcp_parse t = Some (stamped (seg_header s) c, s_payload s) /\
    tcp_verify_checksum (stamped (seg_header s) c)
      (mkPseudo (s_src_ip s) (s_dst_ip s) 0 PROTO_TCP (Z.of_nat (length t))) (s_options s ++ s_payload s) = Done true.
Proof.
  intros (pkt & ih & t & c & ? & ? & ? & ? & ? & ? & ? & _)%wire_exact. by exists pkt, ih, t, c.
Qed.

(** ** The handshake *)

Definition addr_ok (a : SocketApiAddr) : Prop := is_array 4 (sa_ip a) /\ in_uint 16 (sa_port a).

Lemma syn_segment_ok l r isn : addr_ok l -> addr_ok r -> in_uint 32 isn -> segment_ok (syn_segment l r isn).
Proof.
  intros [Hl Hlp] [Hr Hrp] Hi. unfold segment_ok. simpl.
  repeat (split; [done || (unfold in_uint, SYN; lia) ||
    (repeat (constructor; [unfold is_byte; lia|]); apply be16_bytes; unfold in_uint, DEFAULT_MSS; lia)|]).
  split; [constructor|]. split; [done|]. lia.
Qed.

Lemma wrap_u32 x y : in_uint 32 (wrapping_add 32 x y).
Proof. unfold in_uint, wrapping_add. apply Z.mod_pos_bound. lia. Qed.

(** [connect] on a free key. *)
Lemma connect_exact t l r :
  addr_ok l -> addr_ok r -> in_uint 32 (next_isn_ t) -> conn_get t (l, r) = None ->
  exists data,
    wire (syn_segment l r (next_isn_ t)) = Done data /\
    connect t l r = Done (Ok (l, r), [SendSegment (syn_segment l r (next_isn_ t)) (sa_ip r)],
      conn_insert (next_isn t).2 (l, r)
        (set_queue (new_syn_sent l r (next_isn_ t)) [mkRetransmit (next_isn_ t) data (last_now t) 0])).
Proof.
  intros Hl Hr Hi Hc.
  destruct (wire_exact _ (syn_segment_ok l r (next_isn_ t) Hl Hr Hi)) as (data & _ & _ & _ & Hd & _).
  exists data. split; [done|]. unfold connect, conn_contains. rewrite Hc. cbn [next_isn fst snd].
  rewrite Hd. done.
Qed.

Lemma conn_get_insert t k b : conn_get (conn_insert t k b) k = Some b.
Proof. unfold conn_get, conn_insert. simpl. by rewrite lookup_insert_eq. Qed.

Lemma conn_get_remove t k : conn_get (conn_remove t k) k = None.
Proof. unfold conn_get, conn_remove. simpl. by rewrite lookup_delete_eq. Qed.

Lemma addr_eta a : mkAddr (sa_ip a) (sa_port a) = a.
Proof. by destruct a. Qed.

(** The answers of the handshake. *)
Definition syn_ack_segment (l r : SocketApiAddr) (isn peer_isn : Z) : Segment :=
  mkSegment (sa_ip l) (sa_ip r) (sa_port l) (sa_port r) isn (wrapping_add 32 peer_isn 1) (Z.lor SYN ACK) 65535
    (encode_mss DEFAULT_MSS) [].
Definition final_ack (l r : SocketApiAddr) (seq ack : Z) : Segment :=
  build_tcp_segment (sa_ip l) (sa_ip r) (sa_port l) (sa_port r) seq ack ACK 65535 [].

(** The listener answers a SYN. *)
Lemma passive_open_exact t l r isn now q :
  conn_get t (r, l) = None -> listeners t !! sa_port r = Some q ->
  Z.of_nat (length (backlog q)) < max_backlog q ->
  handle_segment t (seg_header (syn_segment l r isn)) [] (sa_ip l) (sa_ip r) now
  = ([SendSegment (syn_ack_segment r l (next_isn_ t) isn) (sa_ip l)],
     conn_insert (next_isn (with_now t now)).2 (r, l) (new_syn_received r l isn (next_isn_ t))).
Proof.
  intros Hc Hq Hb. unfold handle_segment. rewrite !flags_of_segment by done.
  change (conn_get (with_now t now)) with (conn_get t). simpl.
  rewrite !addr_eta, Hc, Hq. by rewrite (proj2 (Z.leb_gt _ _)).
Qed.

(** An end of a connection right after the handshake. *)
Definition established_block (l r : SocketApiAddr) (isn peer_isn : Z) : TcpControlBlock :=
  mkTcb l r Established (wrapping_add 32 isn 1) (wrapping_add 32 isn 1) 65535 isn (wrapping_add 32 peer_isn 1)
    65535 peer_isn [] [] RTO_INITIAL_MS 0 0 INITIAL_CWND INITIAL_SSTHRESH DEFAULT_MSS 0 0 0 0.

(** The client receives the SYN-ACK. *)
Lemma syn_ack_received t l r ic sv q now :
  conn_get t (l, r) = Some (set_queue (new_syn_sent l r ic) q) ->
  handle_segment t (seg_header (syn_ack_segment r l sv ic)) [] (sa_ip r) (sa_ip l) now
  = ([SendSegment (final_ack l r (wrapping_add 32 ic 1) (wrapping_add 32 sv 1)) (sa_ip r);
      ConnectionEstablished (l, r)], conn_insert (with_now t now) (l, r) (established_block l r ic sv)).
Proof.
  intros Hc. unfold handle_segment. rewrite !flags_of_segment by done.
  change (conn_get (with_now t now)) with (conn_get t). simpl. rewrite !addr_eta, Hc.
  unfold deliver, process_segment. change (state (set_queue (new_syn_sent l r ic) q)) with SynSent.
  cbv iota. rewrite !flags_of_segment by done. simpl. by rewrite Z.eqb_refl.
Qed.

(** The server receives the final acknowledgement. *)
Lemma final_ack_received t l r ic sv q now :
  conn_get t (r, l) = Some (new_syn_received r l ic sv) -> listeners t !! sa_port r = Some q ->
  handle_segment t (seg_header (final_ack l r (wrapping_add 32 ic 1) (wrapping_add 32 sv 1))) []
    (sa_ip l) (sa_ip r) now
  = ([ConnectionEstablished (r, l)],
     with_listeners (conn_remove (with_now t now) (r, l))
       (<[sa_port r := mkListen (backlog q ++ [established_block r l sv ic]) (max_backlog q)]> (listeners t))).
Proof.
  intros Hc Hq. unfold handle_segment. rewrite !flags_of_segment by done.
  change (conn_get (with_now t now)) with (conn_get t). simpl. rewrite !addr_eta, Hc.
  unfold deliver, process_segment. change (state (new_syn_received r l ic sv)) with SynReceived.
  cbv iota. rewrite !flags_of_segment by done. simpl. rewrite Z.eqb_refl. simpl. by rewrite Hq.
Qed.

Lemma established_fresh l r i j : fresh (established_block l r i j) (established_block r l j i).
Proof. pose proof (wrap_u32 i 1). repeat (split; [done|]). done. Qed.

(** The three-way handshake: a client that connects to a listening port with room in its
    backlog, over a network that delivers the three segments, ends up in [Established] with the
    server, and after [accept] each side expects exactly the sequence number the other will send
    next, with empty queues and buffers (in both directions the starting point of the stream
    theorems).  Before [accept] the server keeps the connection only in its backlog: a segment the
    client sends in that time is answered with a reset. *)
Theorem handshake_establishes (tc ts : TcpSocketTable) (l r : SocketApiAddr) (max now1 now2 now3 now4 : Z)
    (h : TcpHeader) (payload : bytes) :
  addr_ok l -> addr_ok r -> in_uint 32 (next_isn_ tc) -> in_uint 32 (next_isn_ ts) ->
  conn_get tc (l, r) = None -> conn_get ts (r, l) = None ->
  listeners ts !! sa_port r = Some (mkListen [] max) -> 0 < max ->
  tcp_src_port h = sa_port l -> tcp_dst_port h = sa_port r ->
  has_flag h RST = false -> has_flag h SYN = false ->
  exists tc1 ts1 tc2 ts2 ts3 syn synack ack c s,
    connect tc l r = Done (Ok (l, r), [SendSegment syn (sa_ip r)], tc1) /\
    handle_segment ts (seg_header syn) [] (sa_ip l) (sa_ip r) now1 = ([SendSegment synack (sa_ip l)], ts1) /\
    handle_segment tc1 (seg_header synack) [] (sa_ip r) (sa_ip l) now2
      = ([SendSegment ack (sa_ip r); ConnectionEstablished (l, r)], tc2) /\
    handle_segment ts1 (seg_header ack) [] (sa_ip l) (sa_ip r) now3 = ([ConnectionEstablished (r, l)], ts2) /\
    (handle_segment ts2 h payload (sa_ip l) (sa_ip r) now4).1 = [reset_reply h (sa_ip l) (sa_ip r)] /\
    accept ts2 (sa_port r) = (Some (r, l), ts3) /\
    conn_get tc2 (l, r) = Some c /\ conn_get ts3 (r, l) = Some s /\
    fresh c s /\ fresh s c.
Proof.
  intros Hl Hr Hic His Hc Hs Hlis Hmax Hhs Hhd Hrst Hsyn.
  destruct (connect_exact tc l r Hl Hr Hic Hc) as (data & _ & Hconn).
  set (tc1 := conn_insert (next_isn tc).2 (l, r) _) in Hconn.
  pose proof (passive_open_exact ts l r (next_isn_ tc) now1 _ Hs Hlis Hmax) as Hsa.
  set (ts1 := conn_insert _ (r, l) _) in Hsa.
  pose proof (syn_ack_received tc1 l r (next_isn_ tc) (next_isn_ ts) _ now2 (conn_get_insert _ _ _)) as Hca.
  pose proof (final_ack_received ts1 l r (next_isn_ tc) (next_isn_ ts) _ now3 (conn_get_insert _ _ _) Hlis) as Hfin.
  set (ts2 := with_listeners _ _) in Hfin.
  set (s := established_block r l (next_isn_ ts) (next_isn_ tc)) in *.
  eexists tc1, ts1, _, ts2,
    (conn_insert (with_listeners ts2 (<[sa_port r := mkListen [] max]> (listeners ts2))) (r, l) s),
    _, _, _, _, s.
  split; [exact Hconn|]. split; [exact Hsa|]. split; [exact Hca|]. split; [exact Hfin|]. split.
  { unfold handle_segment. rewrite Hrst, Hhs, Hhd, !addr_eta.
    change (conn_get (with_now ts2 now4)) with (conn_get (conn_remove (with_now ts1 now3) (r, l))).
    rewrite conn_get_remove, Hsyn. done. }
  split; [unfold accept, ts2; simpl; by rewrite lookup_insert_eq|].
  split; [apply conn_get_insert|]. split; [apply conn_get_insert|].
  split; apply established_fresh.
Qed.

(** ** Where the connection is lost *)

(** A lost SYN is not recovered: the timer re-sends the queued SYN packet as the payload of a
    data segment without the SYN flag, which a listener without a connection answers with a
    reset. *)
Theorem syn_retransmission_garbled (tc ts : TcpSocketTable) (l r : SocketApiAddr) (now now' : Z) :
  addr_ok l -> addr_ok r -> in_uint 32 (next_isn_ tc) -> conn_get tc (l, r) = None ->
  conn_get ts (r, l) = None -> last_now tc + RTO_INITIAL_MS <= now ->
  exists tc1 tcb tcb' syn seg,
    connect tc l r = Done (Ok (l, r), [SendSegment syn (sa_ip r)], tc1) /\
    conn_get tc1 (l, r) = Some tcb /\
    tick_connection (l, r) now tcb = (Some tcb', [SendSegment seg (sa_ip r)]) /\
    has_flag (seg_header syn) SYN = true /\ has_flag (seg_header seg) SYN = false /\
    wire syn = Done (s_payload seg) /\
    handle_segment ts (seg_header seg) (s_payload seg) (sa_ip l) (sa_ip r) now'
      = ([reset_reply (seg_header seg) (sa_ip l) (sa_ip r)], with_now ts now').
Proof.
  intros Hl Hr Hi Hc Hs Hn. destruct (connect_exact tc l r Hl Hr Hi Hc) as (data & Hw & Hconn).
  set (tc1 := conn_insert _ (l, r) _) in Hconn. set (isn := next_isn_ tc) in *.
  eexists tc1, _, _, (syn_segment l r isn), _. split; [exact Hconn|]. split; [apply conn_get_insert|].
  split.
  - unfold tick_connection. rewrite bool_decide_false by done. cbn [andb]. unfold expired_seqs. simpl.
    unfold saturating_sub, RTO_INITIAL_MS in *.
    rewrite (proj2 (Z.leb_le 1000 _)) by lia. simpl. unfold retransmit_one. simpl.
    rewrite Z.eqb_refl. simpl. reflexivity.
  - split; [by rewrite flags_of_segment|]. split; [by rewrite flags_of_segment|]. split; [done|].
    unfold handle_segment. rewrite !flags_of_segment by done.
    change (conn_get (with_now ts now')) with (conn_get ts). simpl. rewrite !addr_eta, Hs. done.
Qed.

(** *** A lost acknowledgement *)

(** A segment the receiver has already taken is ignored: the state does not change and, when it
    acknowledges nothing new, no acknowledgement is sent. *)
Lemma duplicate_unanswered key r h payload now :
  state r = Established -> retransmit_queue r = [] -> seq_num h <> rcv_nxt r -> ack_num h = snd_una r ->
  has_flag h FIN = false -> process_segment key r h payload now = (Keep r, []).
Proof.
  intros Hst Hq Hs Ha Hf. unfold process_segment. rewrite Hst, Hf.
  assert (Hp : (if has_flag h ACK then process_ack r h else (r, [])) = (r, [])).
  { destruct (has_flag h ACK); [|done]. unfold process_ack. rewrite Hq, Ha, Z.eqb_refl. simpl.
    unfold seq_lt. by rewrite Z.eqb_refl, andb_false_r. }
  rewrite Hp. unfold receive_data. rewrite (proj2 (Z.eqb_neq _ _)) by done. by rewrite andb_false_r.
Qed.

(** The timer at a sequence of times. *)
Fixpoint tick_all (key : TcpConnectionKey) (t : TcpControlBlock) (nows : list Z) :
    option TcpControlBlock * list TcpOutput :=
  match nows with
  | [] => (Some t, [])
  | now :: nows =>
      match tick_connection key now t with
      | (Some t, o) => let '(r, os) := tick_all key t nows in (r, o ++ os)
      | (None, o) => (None, o)
      end
  end.

(** Each time is at least the longest timeout after the one before. *)
Fixpoint spaced (last : Z) (nows : list Z) : Prop :=
  match nows with [] => True | now :: nows => last + 60000 <= now /\ spaced now nows end.

(** A sender whose only outstanding segment is [data] at [seq], sent at [at_] and repeated [n] times. *)
Definition stuck (t : TcpControlBlock) (seq : Z) (data : bytes) (at_ n : Z) : Prop :=
  state t = Established /\ retransmit_queue t = [mkRetransmit seq data at_ n] /\ rto_ms t <= 60000.

Lemma stuck_tick key t seq data at_ n now :
  stuck t seq data at_ n -> at_ + 60000 <= now ->
  (n < MAX_RETRANSMIT ->
   exists t', tick_connection key now t
     = (Some t', [conn_segment t seq (rcv_nxt t) (Z.lor ACK PSH) (rcv_wnd t) data]) /\
     stuck t' seq data now (n + 1) /\ rcv_nxt t' = rcv_nxt t) /\
  (MAX_RETRANSMIT <= n ->
   tick_connection key now t
     = (None, [conn_segment t (snd_nxt t) (rcv_nxt t) RST 0 []; ConnectionClosed key])).
Proof.
  intros (Hst & Hq & Hrto) Hn. unfold tick_connection. rewrite Hst. cbn [bool_decide].
  rewrite bool_decide_false by done. cbn [andb]. unfold expired_seqs. rewrite Hq. simpl.
  unfold saturating_sub. rewrite (proj2 (Z.leb_le (rto_ms t) _)) by lia. simpl.
  unfold retransmit_one. rewrite Hq. simpl. rewrite Z.eqb_refl. simpl. split; intros Hc.
  - rewrite (proj2 (Z.leb_gt _ _)) by done. simpl. eexists. split; [done|]. split; [|done].
    split; [done|]. split; [done|]. simpl. lia.
  - by rewrite (proj2 (Z.leb_le _ _)).
Qed.

Lemma stuck_run key seq data nows :
  forall t at_ n, stuck t seq data at_ n -> spaced at_ nows -> n + Z.of_nat (length nows) <= MAX_RETRANSMIT ->
  exists t' at', tick_all key t nows = (Some t', (tick_all key t nows).2) /\
    stuck t' seq data at' (n + Z.of_nat (length nows)) /\ at' = foldl (fun _ x => x) at_ nows /\
    length (segments (tick_all key t nows).2) = length nows /\
    Forall (fun s => s_seq s = seq /\ s_ack s = rcv_nxt t /\ s_flags s = Z.lor ACK PSH /\ s_payload s = data)
      (segments (tick_all key t nows).2).
Proof.
  induction nows as [|now nows IH]; intros t at_ n Hs Hsp Hn.
  { exists t, at_. simpl. rewrite Z.add_0_r. repeat (split; [done|]). constructor. }
  destruct Hsp as [Hnow Hsp]. simpl length in Hn.
  destruct (proj1 (stuck_tick key t seq data at_ n now Hs Hnow) ltac:(lia)) as (t1 & Ht & Hs1 & Hr1).
  destruct (IH t1 now (n + 1) Hs1 Hsp ltac:(lia)) as (t2 & at' & Ha & Hs2 & Hat & Hl & Hall).
  cbn [tick_all]. rewrite Ht. destruct (tick_all key t1 nows) as [o os]. simpl in *.
  injection Ha as ->. exists t2, at'. split; [done|].
  split; [by replace (n + Z.of_nat (S (length nows))) with (n + 1 + Z.of_nat (length nows)) by lia|].
  split; [done|]. split; [by rewrite Hl|].
  constructor; [done|]. eapply Forall_impl; [exact Hall|]. intros x (? & ? & ? & ?). by rewrite <- Hr1.
Qed.

(** One lost acknowledgement ends an idle connection: when the receiver has taken a segment but
    its acknowledgement was lost, the sender repeats the segment five times, the receiver answers
    none of the repetitions (its state does not change and it emits nothing), and at the next
    timeout the sender resets the connection. *)
Theorem lost_ack_resets (key key' : TcpConnectionKey) (s r : TcpControlBlock) (seq at_ now now' : Z)
    (data : bytes) (nows : list Z) :
  stuck s seq data at_ 0 -> length nows = 5%nat -> spaced at_ (nows ++ [now]) ->
  state r = Established -> retransmit_queue r = [] -> seq <> rcv_nxt r -> rcv_nxt s = snd_una r ->
  exists s' outs,
    tick_all key s nows = (Some s', outs) /\
    length (segments outs) = 5%nat /\
    Forall (fun seg => process_segment key' r (seg_header seg) (s_payload seg) now' = (Keep r, []))
      (segments outs) /\
    tick_connection key now s'
      = (None, [conn_segment s' (snd_nxt s') (rcv_nxt s') RST 0 []; ConnectionClosed key]).
Proof.
  intros Hs Hl Hsp Hst Hq Hne Ha.
  assert (Hsp1 : spaced at_ nows /\ foldl (fun _ x => x) at_ nows + 60000 <= now).
  { clear -Hsp. revert at_ Hsp. induction nows as [|x nows IH]; intros at_; simpl; [tauto|].
    intros [H1 H2]. by destruct (IH x H2). }
  destruct Hsp1 as [Hsp1 Hlast].
  destruct (stuck_run key seq data nows s at_ 0 Hs Hsp1) as (s' & at' & Ht & Hs' & Hat & Hlen & Hall).
  { rewrite Hl. done. }
  exists s', (tick_all key s nows).2. split; [done|]. split; [by rewrite Hlen|]. split.
  - eapply Forall_impl; [exact Hall|]. intros seg (H1 & H2 & H3 & H4).
    apply duplicate_unanswered; [done|done|simpl; congruence|simpl; congruence|].
    rewrite flags_of_segment by (by rewrite H3). by rewrite H3.
  - rewrite Hl in Hs'. apply (stuck_tick key s' seq data at' _ now Hs'); [congruence|done].
Qed.

(** ** Concrete instances *)

Definition addr_a : SocketApiAddr := mkAddr ip_a 40000.
Definition addr_b : SocketApiAddr := mkAddr ip_b 80.
Lemma addr_a_ok : addr_ok addr_a.
Proof. split; [exact ip_a_array|unfold in_uint; simpl; lia]. Qed.
Lemma addr_b_ok : addr_ok addr_b.
Proof. split; [exact ip_b_array|unfold in_uint; simpl; lia]. Qed.

(** Both ends after a handshake, the sender's first number just below the wrap-around. *)
Definition end_a : TcpControlBlock := established_block addr_a addr_b (2 ^ 32 - 3) 7.
Definition end_b : TcpControlBlock := established_block addr_b addr_a 7 (2 ^ 32 - 3).

Definition sent_a : TcpControlBlock * list TcpOutput := send_chunks 0 end_a (chunks 1460 [1; 2; 3; 4]).
Definition world_1 : World := mkWorld sent_a.1 end_b [1; 2; 3; 4] [] (segments sent_a.2).
Definition seg_1 : Segment :=
  build_tcp_segment ip_a ip_b 40000 80 (2 ^ 32 - 2) 8 (Z.lor ACK PSH) 65535 [1; 2; 3; 4].
Definition got_b : Outcome * list TcpOutput :=
  process_segment (addr_b, addr_a) end_b (seg_header seg_1) (s_payload seg_1) 0.
Definition world_2 : World :=
  mkWorld sent_a.1 (match got_b.1 with Keep r => r | _ => end_b end) [1; 2; 3; 4] [] (segments sent_a.2).

Lemma world_run : rtc world_step (fresh_world end_a end_b) world_2.
Proof.
  apply (rtc_l _ _ world_1); [|apply (rtc_l _ _ world_2); [|apply rtc_refl]].
  - apply (step_send (fresh_world end_a end_b) 0 [1; 2; 3; 4] sent_a.1 sent_a.2); [simpl; lia|reflexivity].
  - apply (step_deliver world_1 (addr_b, addr_a) seg_1 0 _ got_b.2); [|vm_compute; reflexivity].
    replace (w_net world_1) with [seg_1] by (vm_compute; reflexivity). left.
Qed.

Lemma tcp_stream_integrity_witness :
  exists n, w_got world_2 ++ recv_buffer (w_rcv world_2) = take n [1; 2; 3; 4].
Proof. exact (tcp_stream_integrity end_a end_b world_2 (established_fresh _ _ _ _) world_run). Defined.

Lemma tcp_queue_covers_witness :
  exists a k, snd_una (w_snd world_2) = (snd_nxt end_a + Z.of_nat a) mod 2 ^ 32 /\
    covers_from (snd_nxt end_a) (Z.of_nat k) (retransmit_queue (w_snd world_2)) (drop k [1; 2; 3; 4]).
Proof.
  destruct (tcp_queue_covers end_a end_b world_2 (established_fresh _ _ _ _) world_run) as (a & k & _ & Hu & _ & Hc).
  exists a, k. split; [exact Hu|exact Hc].
Defined.

Lemma tcp_lossless_delivery_witness :
  recv_buffer (deliver_all (addr_b, addr_a) 0 end_b
    (segments (send_chunks 0 end_a (chunks 1460 [1; 2; 3; 4])).2)) = [1; 2; 3; 4].
Proof.
  pose proof (tcp_lossless_delivery (addr_b, addr_a) 0 0 end_a end_b [1; 2; 3; 4] eq_refl eq_refl) as H.
  change (chunks 1460 [1; 2; 3; 4]) with (chunks (Z.to_nat (Z.max (mss end_a) 1)) [1; 2; 3; 4]).
  destruct (send_chunks 0 end_a _) as [s' outs]. exact (proj1 H).
Defined.

Lemma segment_wire_roundtrip_witness :
  exists pkt ih t c, wire (syn_segment addr_a addr_b 5) = Done pkt /\
    parse_ipv4_packet pkt = Done (Some (ih, t)) /\
    tcp_parse t = Some (stamped (seg_header (syn_segment addr_a addr_b 5)) c, []).
Proof.
  destruct (segment_wire_roundtrip (syn_segment addr_a addr_b 5)) as (pkt & ih & t & c & Hw & Hp & _ & _ & _ & Ht & _).
  - apply syn_segment_ok; [exact addr_a_ok|exact addr_b_ok|unfold in_uint; lia].
  - exists pkt, ih, t, c. split; [exact Hw|]. split; [exact Hp|exact Ht].
Defined.

Definition server : TcpSocketTable := (tcp_listen TcpSocketTable_new 80 4).2.
Definition early_header : TcpHeader := seg_header (build_tcp_segment ip_a ip_b 40000 80 9 9 (Z.lor ACK PSH) 65535 [1]).

Lemma handshake_establishes_witness :
  exists tc1 syn, connect TcpSocketTable_new addr_a addr_b = Done (Ok (addr_a, addr_b), [SendSegment syn ip_b], tc1) /\
  exists ts1 synack, handle_segment server (seg_header syn) [] ip_a ip_b 1 = ([SendSegment synack ip_a], ts1).
Proof.
  destruct (handshake_establishes TcpSocketTable_new server addr_a addr_b 4 1 2 3 4 early_header [1])
    as (tc1 & ts1 & _ & _ & _ & syn & synack & _ & _ & _ & Hc & Hs & _).
  - exact addr_a_ok.
  - exact addr_b_ok.
  - split; [discriminate|reflexivity].
  - split; [discriminate|reflexivity].
  - reflexivity.
  - reflexivity.
  - reflexivity.
  - lia.
  - reflexivity.
  - reflexivity.
  - reflexivity.
  - reflexivity.
  - exists tc1, syn. split; [exact Hc|]. exists ts1, synack. exact Hs.
Defined.

Lemma syn_retransmission_garbled_witness :
  exists tc1 syn seg, connect TcpSocketTable_new addr_a addr_b = Done (Ok (addr_a, addr_b), [SendSegment syn ip_b], tc1) /\
    has_flag (seg_header seg) SYN = false /\ wire syn = Done (s_payload seg).
Proof.
  destruct (syn_retransmission_garbled TcpSocketTable_new server addr_a addr_b 1000 1001)
    as (tc1 & _ & _ & syn & seg & Hc & _ & _ & _ & Hf & Hw & _).
  - exact addr_a_ok.
  - exact addr_b_ok.
  - split; [discriminate|reflexivity].
  - reflexivity.
  - reflexivity.
  - unfold RTO_INITIAL_MS. simpl. lia.
  - exists tc1, syn, seg. split; [exact Hc|]. split; [exact Hf|exact Hw].
Defined.

Lemma lost_ack_resets_witness :
  exists s' outs, tick_all (addr_a, addr_b) (w_snd world_2) [60000; 120000; 180000; 240000; 300000] = (Some s', outs) /\
    (tick_connection (addr_a, addr_b) 360000 s').1 = None.
Proof.
  destruct (lost_ack_resets (addr_a, addr_b) (addr_b, addr_a) (w_snd world_2) (w_rcv world_2) (2 ^ 32 - 2) 0 360000 0
    [1; 2; 3; 4] [60000; 120000; 180000; 240000; 300000]) as (s' & outs & Ht & _ & _ & Hr).
  - split; [reflexivity|]. split; [vm_compute; reflexivity|]. vm_compute. discriminate.
  - reflexivity.
  - simpl. lia.
  - vm_compute. reflexivity.
  - vm_compute. reflexivity.
  - vm_compute. discriminate.
  - vm_compute. reflexivity.
  - exists s', outs. split; [exact Ht|]. rewrite Hr. reflexivity.
Defined.
