(* ===== verification/Dns.v ===== *)
(** * The DNS stub resolver

    [src/crates/nexacore-net/src/dns.rs]: queries, responses with compressed
    names, and the cache.  A name is its UTF-8 bytes.  Offsets are [usize]
    values; [checked_add] and the plain additions are kept apart, since the
    latter panic. *)

From S2P Require Import Prelude NetHeaders.

Definition MAX_POINTER_HOPS : nat := 16.
Definition QTYPE_A : Z := 1.
Definition QCLASS_IN : Z := 1.

Record DnsRecord := mkRecord {
  rr_name : bytes; rtype : Z; rclass : Z; rr_ttl : Z; rdata : bytes
}.
#[export] Instance DnsRecord_eq_dec : EqDecision DnsRecord.
Proof. solve_decision. Defined.

Record DnsCacheEntry := mkCacheEntry { addresses : list bytes; ce_ttl : Z; cached_at : Z }.

Inductive DnsError := Truncated | PointerLoop | ServerError (rcode : Z) | NoRecords | InvalidName.
#[export] Instance DnsError_eq_dec : EqDecision DnsError.
Proof. solve_decision. Defined.

(** The [?] operator in code that can also panic. *)
Definition try {E A B} (m : exec (result E A)) (k : A -> exec (result E B)) : exec (result E B) :=
  match m with
  | Panic => Panic
  | Done (Err e) => Done (Err e)
  | Done (Ok a) => k a
  end.
Notation "x ←? m ; k" := (try m (fun x => k))
  (at level 20, m at level 100, k at level 200, only parsing) : nexa_scope.
#[local] Open Scope nexa_scope.

(** [*bytes.get(i).ok_or(Truncated)?] and [checked_add(..).ok_or(Truncated)?]. *)
Definition get_at (b : bytes) (i : Z) : exec (result DnsError Z) :=
  Done (ok_or (b !! Z.to_nat i) Truncated).
Definition advance (off n : Z) : exec (result DnsError Z) :=
  Done (ok_or (checked_add 64 off n) Truncated).
(** [*bytes.get(off + n).ok_or(Truncated)?], with a plain addition. *)
Definition get_plus (b : bytes) (off n : Z) : exec (result DnsError Z) :=
  i ← add_uint 64 off n; get_at b i.

#[global] Arguments try {E A B} m k : simpl never.
#[global] Arguments get_at b i : simpl never.
#[global] Arguments advance off n : simpl never.
#[global] Arguments get_plus b off n : simpl never.

(** ** Encoding *)

Fixpoint encode_labels (ls : list bytes) (out : bytes) : result DnsError bytes :=
  match ls with
  | [] => Ok (out ++ [0])
  | l :: ls =>
      if bool_decide (l = []) then encode_labels ls out
      else if 63 <? Z.of_nat (length l) then Err InvalidName
      else encode_labels ls (out ++ Z.of_nat (length l) :: l)
  end.
Definition encode_dns_name (name out : bytes) : result DnsError bytes :=
  encode_labels (split_on (Z.eqb 46) name) out.

Definition encode_dns_query (name : bytes) (id : Z) : result DnsError bytes :=
  out ← encode_dns_name name (be16 id ++ [1; 0; 0; 1; 0; 0; 0; 0; 0; 0]);
  Ok (out ++ be16 QTYPE_A ++ be16 QCLASS_IN).

(** ** Decoding *)

(** The loop of [skip_dns_name]; [hops_left] is [MAX_POINTER_HOPS - hops]. *)
Fixpoint skip_loop (b : bytes) (hops_left : nat) (offset : Z) : exec (result DnsError Z) :=
  x ←? get_at b offset;
  if Z.land x 192 =? 192 then advance offset 2
  else if x =? 0 then advance offset 1
  else
    offset ←? advance offset (1 + x);
    match hops_left with
    | O => Done (Err PointerLoop)
    | S hops_left => skip_loop b hops_left offset
    end.
Definition skip_dns_name (b : bytes) (offset : Z) : exec (result DnsError Z) :=
  skip_loop b MAX_POINTER_HOPS offset.

(** [return_offset], set the first time the name ends or jumps. *)
Definition set_return (ret : option Z) (offset n : Z) : exec (result DnsError Z) :=
  match ret with Some r => Done (Ok r) | None => advance offset n end.

(** The loop of [decode_dns_name]; [hops_left] is [MAX_POINTER_HOPS + 1 - hops]. *)
Fixpoint name_loop (b : bytes) (hops_left : nat) (offset : Z) (ret : option Z) (labels : list bytes) :
    exec (result DnsError (list bytes * Z)) :=
  match hops_left with
  | O => Done (Err PointerLoop)
  | S hops_left =>
      x ←? get_at b offset;
      if Z.land x 192 =? 192 then
        lo ←? get_plus b offset 1;
        let ptr := Z.lor (Z.shiftl (Z.land x 63) 8) lo in
        ret ←? set_return ret offset 2;
        name_loop b hops_left ptr (Some ret) labels
      else if x =? 0 then
        ret ←? set_return ret offset 1;
        Done (Ok (labels, ret))
      else
        label_start ←? advance offset 1;
        label_end ←? advance label_start x;
        label ←? Done (ok_or (get_range b label_start x) Truncated);
        name_loop b hops_left label_end ret (if utf8_valid label then labels ++ [label] else labels)
  end.

(** [labels.join(".")]. *)
Fixpoint join_dots (ls : list bytes) : bytes :=
  match ls with
  | [] => []
  | [l] => l
  | l :: ls => l ++ 46 :: join_dots ls
  end.

Definition decode_dns_name (b : bytes) (start : Z) : exec (result DnsError (bytes * Z)) :=
  p ←? name_loop b (S MAX_POINTER_HOPS) start None [];
  Done (Ok (join_dots p.1, p.2)).

(** [u16::from_be_bytes([*bytes.get(off + i)?, *bytes.get(off + i + 1)?])] and the [u32] form. *)
Definition get_u16 (b : bytes) (off i : Z) : exec (result DnsError Z) :=
  hi ←? get_plus b off i; lo ←? get_plus b off (i + 1); Done (Ok (from_be16 hi lo)).
Definition get_u32 (b : bytes) (off i : Z) : exec (result DnsError Z) :=
  x ←? get_plus b off i; y ←? get_plus b off (i + 1);
  z ←? get_plus b off (i + 2); w ←? get_plus b off (i + 3); Done (Ok (from_be32 x y z w)).

(** The question section, [n] entries hops_left. *)
Fixpoint skip_questions (b : bytes) (n : nat) (offset : Z) : exec (result DnsError Z) :=
  match n with
  | O => Done (Ok offset)
  | S n =>
      offset ←? skip_dns_name b offset;
      offset ←? advance offset 4;
      if Z.of_nat (length b) <? offset then Done (Err Truncated) else skip_questions b n offset
  end.

(** One resource record. *)
Definition decode_record (b : bytes) (offset : Z) : exec (result DnsError (DnsRecord * Z)) :=
  p ←? decode_dns_name b offset;
  let '(name, offset) := p in
  fixed_end ← add_uint 64 offset 10;
  if Z.of_nat (length b) <? fixed_end then Done (Err Truncated)
  else
    rt ←? get_u16 b offset 0;
    rc ←? get_u16 b offset 2;
    tt ←? get_u32 b offset 4;
    rdlength ←? get_u16 b offset 8;
    offset ← add_uint 64 offset 10;
    data_end ← add_uint 64 offset rdlength;
    if Z.of_nat (length b) <? data_end then Done (Err Truncated)
    else
      data ←? Done (ok_or (get_range b offset rdlength) Truncated);
      Done (Ok (mkRecord name rt rc tt data, data_end)).

(** The answer section, [n] records hops_left. *)
Fixpoint decode_answers (b : bytes) (n : nat) (offset : Z) (records : list DnsRecord) :
    exec (result DnsError (list DnsRecord)) :=
  match n with
  | O => Done (Ok records)
  | S n =>
      p ←? decode_record b offset;
      decode_answers b n p.2 (records ++ [p.1])
  end.

Definition decode_dns_response (b : bytes) : exec (result DnsError (list DnsRecord)) :=
  if Z.of_nat (length b) <? 12 then Done (Err Truncated)
  else
    flags ←? get_u16 b 2 0;
    let rcode := Z.land flags 15 in
    if negb (rcode =? 0) then Done (Err (ServerError rcode))
    else
      qdcount ←? get_u16 b 4 0;
      ancount ←? get_u16 b 6 0;
      offset ←? skip_questions b (Z.to_nat qdcount) 12;
      decode_answers b (Z.to_nat ancount) offset [].

(** ** The resolver *)

(** [str::to_lowercase] on UTF-8: only its effect on ASCII is used. *)
Definition ascii_lower (c : Z) : Z := if (65 <=? c) && (c <=? 90) then c + 32 else c.
Definition ascii_name (s : bytes) : Prop := Forall (fun c => 0 <= c < 128) s.
Class Lowercase := {
  to_lowercase : bytes -> bytes;
  to_lowercase_ascii : forall s, ascii_name s -> to_lowercase s = ascii_lower <$> s;
}.

Record DnsResolver := mkResolver {
  servers : list bytes; dns_cache : gmap bytes DnsCacheEntry; next_id : Z
}.
Definition DnsResolver_new (s : list bytes) : DnsResolver := mkResolver s ∅ 1.

Definition build_query (r : DnsResolver) (name : bytes) : Z * bytes * DnsResolver :=
  let id := next_id r in
  let b := match encode_dns_query name id with Ok b => b | Err _ => [] end in
  (id, b, mkResolver (servers r) (dns_cache r) (wrapping_add 16 id 1)).

Definition is_address (r : DnsRecord) : bool := (rtype r =? QTYPE_A) && (length (rdata r) =? 4)%nat.
Definition handle_response (b : bytes) : exec (result DnsError (list bytes)) :=
  records ←? decode_dns_response b;
  let addrs := (fun r => take 4 (rdata r)) <$> List.filter is_address records in
  if bool_decide (addrs = []) then Done (Err NoRecords) else Done (Ok addrs).

Section cache.
Context `{Lowercase}.

Definition resolve_cached (r : DnsResolver) (name : bytes) (now : Z) : option (list bytes) :=
  entry ← dns_cache r !! to_lowercase name;
  if ce_ttl entry <=? saturating_sub now (cached_at entry) then None else Some (addresses entry).

Definition cache_result (r : DnsResolver) (name : bytes) (addrs : list bytes) (ttl now : Z) : DnsResolver :=
  mkResolver (servers r) (<[to_lowercase name := mkCacheEntry addrs ttl now]> (dns_cache r)) (next_id r).
End cache.

(** ** No response makes the decoder panic *)

Lemma get_at_Ok b i x : get_at b i = Done (Ok x) -> 0 <= i -> b !! Z.to_nat i = Some x /\ i < Z.of_nat (length b).
Proof.
  unfold get_at. intros [= Hx] Hi. destruct (b !! Z.to_nat i) as [y|] eqn:E; [|done].
  injection Hx as <-. apply lookup_lt_Some in E. split; [done|lia].
Qed.

Lemma get_plus_Done b off n : off + n < 2 ^ 64 -> get_plus b off n = get_at b (off + n).
Proof. unfold get_plus. intros H. by rewrite add_uint_Done. Qed.

Lemma advance_cases off n :
  advance off n = Done (Ok (off + n)) /\ off + n < 2 ^ 64 \/ advance off n = Done (Err Truncated).
Proof.
  unfold advance, checked_add. destruct (Z.ltb_spec (off + n) (2 ^ 64)); [by left|by right].
Qed.

(** The computation returns, and a success satisfies [P]. *)
Definition returns {E A} (m : exec (result E A)) (P : A -> Prop) : Prop :=
  match m with Panic => False | Done (Err _) => True | Done (Ok a) => P a end.

Lemma returns_try {E A B} (m : exec (result E A)) (k : A -> exec (result E B)) P Q :
  returns m P -> (forall a, P a -> returns (k a) Q) -> returns (try m k) Q.
Proof. unfold try. destruct m as [[a|e]|]; simpl; auto. Qed.

Lemma returns_impl {E A} (m : exec (result E A)) (P Q : A -> Prop) :
  returns m P -> (forall a, P a -> Q a) -> returns m Q.
Proof. destruct m as [[a|e]|]; simpl; auto. Qed.

Lemma get_at_returns b i :
  0 <= i -> is_bytes b -> returns (get_at b i) (fun x => is_byte x /\ i < Z.of_nat (length b)).
Proof.
  intros Hi Hb. unfold get_at, returns. destruct (b !! Z.to_nat i) as [x|] eqn:E; simpl; [|done].
  split; [by eapply Forall_lookup_1|]. apply lookup_lt_Some in E. lia.
Qed.

Lemma get_plus_returns b off n :
  0 <= off -> 0 <= n -> off + n < 2 ^ 64 -> is_bytes b -> returns (get_plus b off n) is_byte.
Proof.
  intros ???? . rewrite get_plus_Done by done. eapply returns_impl; [apply get_at_returns; [lia|done]|].
  by intros x [? ?].
Qed.

Lemma advance_returns off n : returns (advance off n) (fun o => o = off + n).
Proof. by destruct (advance_cases off n) as [[-> _]| ->]. Qed.

Lemma get_u16_returns b off i :
  0 <= off -> 0 <= i -> off + i + 1 < 2 ^ 64 -> is_bytes b -> returns (get_u16 b off i) (in_uint 16).
Proof.
  intros ????. unfold get_u16. eapply returns_try; [apply get_plus_returns; [lia..|done]|]. intros hi Hhi.
  eapply returns_try; [apply get_plus_returns; [lia..|done]|]. intros lo Hlo.
  unfold is_byte in *. simpl. unfold in_uint, from_be16. lia.
Qed.

Lemma get_u32_returns b off i :
  0 <= off -> 0 <= i -> off + i + 3 < 2 ^ 64 -> is_bytes b -> returns (get_u32 b off i) (in_uint 32).
Proof.
  intros ????. unfold get_u32.
  do 4 (eapply returns_try; [apply get_plus_returns; [lia..|done]|]; intros ? ?).
  unfold is_byte in *. simpl. unfold in_uint, from_be32. lia.
Qed.

Section safety.
Context (b : bytes) (Hb : is_bytes b) (Hlen : Z.of_nat (length b) < 2 ^ 63).

Lemma skip_returns n offset :
  0 <= offset -> returns (skip_loop b n offset) (fun o => 0 <= o <= Z.of_nat (length b) + 1).
Proof.
  revert offset. induction n as [|n IH]; intros offset Ho; simpl;
    (eapply returns_try; [by apply get_at_returns|]); intros x [Hx Hlt]; unfold is_byte in Hx;
    repeat (case_match; [eapply returns_impl; [apply advance_returns|]; intros ? ->; lia|]);
    (eapply returns_try; [apply advance_returns|]); intros o ->; [done|].
  apply IH. lia.
Qed.

Lemma name_loop_returns n offset ret labels :
  0 <= offset -> (forall r, ret = Some r -> 0 <= r <= Z.of_nat (length b) + 1) ->
  returns (name_loop b n offset ret labels) (fun p => 0 <= p.2 <= Z.of_nat (length b) + 1).
Proof.
  revert offset ret labels. induction n as [|n IH]; intros offset ret labels Ho Hr; simpl; [done|].
  eapply returns_try; [by apply get_at_returns|]. intros x [Hx Hlt]. unfold is_byte in Hx.
  assert (Hset : forall k, 0 <= k <= 2 ->
    returns (set_return ret offset k) (fun r => 0 <= r <= Z.of_nat (length b) + 1)).
  { intros k Hk. unfold set_return. destruct ret as [r|]; [by apply Hr|].
    eapply returns_impl; [apply advance_returns|]. intros ? ->; lia. }
  case_match.
  { eapply returns_try; [apply get_plus_returns; [lia..|done]|]. intros lo Hlo. unfold is_byte in Hlo.
    eapply returns_try; [apply Hset; lia|]. intros r Hr'. apply IH; [|by intros ? [= <-]].
    assert (0 <= Z.land x 63) by (apply Z.land_nonneg; lia).
    apply Z.lor_nonneg. split; [|lia]. by apply Z.shiftl_nonneg. }
  case_match; [eapply returns_try; [apply Hset; lia|]; by intros r Hr'|].
  eapply returns_try; [apply advance_returns|]. intros s ->.
  eapply returns_try; [apply advance_returns|]. intros e ->.
  eapply (returns_try _ _ (fun _ => True)); [by destruct (get_range b _ _)|]. intros l _.
  apply IH; [lia|done].
Qed.

Lemma questions_return n offset :
  0 <= offset <= Z.of_nat (length b) ->
  returns (skip_questions b n offset) (fun o => 0 <= o <= Z.of_nat (length b)).
Proof.
  revert offset. induction n as [|n IH]; intros offset Ho; simpl; [done|].
  eapply returns_try; [apply skip_returns; lia|]. intros o1 H1. cbn beta in H1.
  eapply returns_try; [apply advance_returns|]. intros o2 ->. case_match; [done|]. zbool. apply IH. lia.
Qed.

(** A decoded record has fields of its widths and data that is a piece of the message. *)
Definition record_in (r : DnsRecord) : Prop :=
  in_uint 16 (rtype r) /\ in_uint 16 (rclass r) /\ in_uint 32 (rr_ttl r) /\
  exists off, 0 <= off /\ get_range b off (Z.of_nat (length (rdata r))) = Some (rdata r).

Lemma record_returns offset :
  0 <= offset <= Z.of_nat (length b) ->
  returns (decode_record b offset) (fun p => record_in p.1 /\ 0 <= p.2 <= Z.of_nat (length b)).
Proof.
  intros Ho. unfold decode_record, decode_dns_name.
  eapply (returns_try _ _ (fun p => 0 <= p.2 <= Z.of_nat (length b) + 1)).
  { eapply returns_try; [apply name_loop_returns; [lia|done]|]. by intros p Hp. }
  intros [name o] Hn. simpl in Hn. rewrite add_uint_Done by lia. cbn [mbind exec_bind]. case_match; [done|]. zbool.
  eapply returns_try; [apply get_u16_returns; [lia..|done]|]. intros rt Hrt.
  eapply returns_try; [apply get_u16_returns; [lia..|done]|]. intros rc Hrc.
  eapply returns_try; [apply get_u32_returns; [lia..|done]|]. intros tt Htt.
  eapply returns_try; [apply get_u16_returns; [lia..|done]|]. intros rd Hrd. unfold in_uint in Hrd.
  rewrite !add_uint_Done by lia. cbn [mbind exec_bind].
  case_match; [done|]. zbool. destruct (get_range b (o + 10) rd) as [d|] eqn:Hd; [|done]. simpl.
  split; [|lia]. split_and!; [done..|]. exists (o + 10). split; [lia|]. cbn [rdata].
  by rewrite (get_range_length b (o + 10) rd d) by (done || lia).
Qed.

Lemma answers_return n offset recs :
  0 <= offset <= Z.of_nat (length b) -> Forall record_in recs ->
  returns (decode_answers b n offset recs) (fun rs => Forall record_in rs /\ length rs = (length recs + n)%nat).
Proof.
  revert offset recs. induction n as [|n IH]; intros offset recs Ho Hr; simpl; [by rewrite Nat.add_0_r|].
  eapply returns_try; [by apply record_returns|]. intros p [Hp1 Hp2].
  eapply returns_impl; [apply IH; [done|]|].
  - apply Forall_app. split; [done|]. by constructor.
  - intros rs [? Hl]. split; [done|]. rewrite Hl, length_app. simpl. lia.
Qed.
End safety.

(** ** Names on the wire *)

Definition label_ok (l : bytes) : Prop := 1 <= Z.of_nat (length l) <= 63 /\ utf8_valid l = true.
Definition label_bytes (l : bytes) : bytes := Z.of_nat (length l) :: l.
Definition labels_bytes (ls : list bytes) : bytes := concat (label_bytes <$> ls).
Definition non_empty_labels (name : bytes) : list bytes :=
  filter (fun l => l <> []) (split_on (Z.eqb 46) name).

Lemma length_labels_cons l ls :
  length (labels_bytes (l :: ls)) = (S (length l) + length (labels_bytes ls))%nat.
Proof. unfold labels_bytes. cbn [fmap list_fmap concat]. by rewrite length_app. Qed.

Lemma get_at_app pre x post : get_at (pre ++ x :: post) (Z.of_nat (length pre)) = Done (Ok x).
Proof. unfold get_at. rewrite Nat2Z.id, list_lookup_middle by done. done. Qed.

Lemma advance_Done off n : off + n < 2 ^ 64 -> advance off n = Done (Ok (off + n)).
Proof. intros H. unfold advance, checked_add. by uint_ok. Qed.

Lemma label_not_pointer l : label_ok l ->
  (Z.land (Z.of_nat (length l)) 192 =? 192) = false /\ (Z.of_nat (length l) =? 0) = false.
Proof.
  intros [Hl _]. split; [|lia]. apply Z.eqb_neq. intros H.
  assert (Z.testbit (Z.of_nat (length l)) 7 = true) as Ht.
  { assert (Z.testbit (Z.land (Z.of_nat (length l)) 192) 7 = true) as Hb by (by rewrite H).
    by rewrite Z.land_spec, andb_true_r in Hb. }
  rewrite Z.testbit_true, Z.div_small in Ht by lia. done.
Qed.

Lemma skip_labels pre ls post n :
  Forall label_ok ls -> Z.of_nat (length (pre ++ labels_bytes ls ++ 0 :: post)) < 2 ^ 63 ->
  skip_loop (pre ++ labels_bytes ls ++ 0 :: post) n (Z.of_nat (length pre)) =
  if (length ls <=? n)%nat then Done (Ok (Z.of_nat (length pre + length (labels_bytes ls) + 1)))
  else Done (Err PointerLoop).
Proof.
  intros Hls. revert pre n. induction Hls as [|l ls Hl Hls IH]; intros pre n Hlen.
  - destruct n; simpl; rewrite get_at_app; unfold try; simpl; rewrite length_app in Hlen; simpl in Hlen;
      (rewrite advance_Done by lia); do 2 f_equal; lia.
  - destruct (label_not_pointer l Hl) as [Hp Hz].
    assert (pre ++ labels_bytes (l :: ls) ++ 0 :: post =
            (pre ++ label_bytes l) ++ labels_bytes ls ++ 0 :: post) as Heq
      by (unfold labels_bytes; simpl; by rewrite <- !app_assoc).
    assert (Z.of_nat (length pre) + (1 + Z.of_nat (length l)) = Z.of_nat (length (pre ++ label_bytes l)))
      as Hoff by (rewrite length_app; simpl; lia).
    assert (get_at (pre ++ labels_bytes (l :: ls) ++ 0 :: post) (Z.of_nat (length pre))
            = Done (Ok (Z.of_nat (length l)))) as Hg by apply get_at_app.
    assert (Z.of_nat (length pre) + (1 + Z.of_nat (length l)) < 2 ^ 64)
      by (rewrite Heq in Hlen; rewrite Hoff; rewrite length_app in Hlen; lia).
    destruct n as [|n]; cbn [skip_loop]; rewrite Hg; unfold try at 1; rewrite Hp, Hz, advance_Done by done;
      unfold try; simpl Nat.leb; [done|].
    rewrite Heq, Hoff in *. rewrite IH by done. destruct (_ <=? _)%nat; [|done].
    do 2 f_equal. rewrite length_labels_cons, length_app. simpl. lia.
Qed.

Lemma name_labels pre ls post n ret acc :
  Forall label_ok ls -> Z.of_nat (length (pre ++ labels_bytes ls ++ 0 :: post)) < 2 ^ 63 ->
  name_loop (pre ++ labels_bytes ls ++ 0 :: post) n (Z.of_nat (length pre)) ret acc =
  if (length ls <? n)%nat
  then Done (Ok (acc ++ ls, default (Z.of_nat (length pre + length (labels_bytes ls) + 1)) ret))
  else Done (Err PointerLoop).
Proof.
  intros Hls. revert pre n acc. induction Hls as [|l ls Hl Hls IH]; intros pre n acc Hlen.
  - change (labels_bytes [] ++ 0 :: post) with (0 :: post) in *.
    destruct n as [|n]; [done|]. cbn [name_loop]. rewrite get_at_app. unfold try at 1. simpl.
    rewrite length_app in Hlen. simpl in Hlen. unfold set_return. destruct ret as [r|].
    + unfold try. by rewrite app_nil_r.
    + rewrite advance_Done by lia. unfold try. rewrite app_nil_r. simpl. do 3 f_equal. lia.
  - destruct n as [|n]; [done|]. destruct (label_not_pointer l Hl) as [Hp Hz].
    assert (pre ++ labels_bytes (l :: ls) ++ 0 :: post =
            (pre ++ label_bytes l) ++ labels_bytes ls ++ 0 :: post) as Heq
      by (unfold labels_bytes; simpl; by rewrite <- !app_assoc).
    assert (Z.of_nat (length pre) + 1 + Z.of_nat (length l) = Z.of_nat (length (pre ++ label_bytes l)))
      as Hoff by (rewrite length_app; simpl; lia).
    assert (get_at (pre ++ labels_bytes (l :: ls) ++ 0 :: post) (Z.of_nat (length pre))
            = Done (Ok (Z.of_nat (length l)))) as Hg by apply get_at_app.
    assert (get_range (pre ++ labels_bytes (l :: ls) ++ 0 :: post) (Z.of_nat (length pre) + 1)
              (Z.of_nat (length l)) = Some l) as Hr.
    { rewrite Heq. unfold label_bytes. rewrite cons_middle, <- !app_assoc, app_assoc.
      apply get_range_after; [rewrite length_app; simpl; lia|done]. }
    rewrite Heq, length_app in Hlen.
    cbn [name_loop]. rewrite Hg. unfold try at 1. rewrite Hp, Hz, advance_Done by lia. unfold try at 1.
    rewrite advance_Done by (rewrite Hoff; lia). unfold try at 1. rewrite Hr. unfold try. cbn [ok_or].
    destruct Hl as [_ ->]. rewrite Heq, Hoff. rewrite IH by (rewrite length_app; lia).
    change (length (l :: ls) <? S n)%nat with (length ls <? n)%nat. destruct (_ <? n)%nat; [|done].
    rewrite <- app_assoc. do 4 f_equal. rewrite length_labels_cons, length_app. simpl. lia.
Qed.

Lemma name_pointer b n off labels x lo :
  get_at b off = Done (Ok x) -> Z.land x 192 = 192 -> get_plus b off 1 = Done (Ok lo) -> off + 2 < 2 ^ 64 ->
  name_loop b (S n) off None labels
  = name_loop b n (Z.lor (Z.shiftl (Z.land x 63) 8) lo) (Some (off + 2)) labels.
Proof.
  intros Hx H192 Hlo Ho. cbn [name_loop]. rewrite Hx. unfold try at 1. rewrite H192, Z.eqb_refl, Hlo.
  unfold try at 1, set_return. by rewrite advance_Done.
Qed.

(** ** Queries and their responses *)

Lemma ascii_utf8 s : ascii_name s -> utf8_valid s = true.
Proof.
  induction 1 as [|c s Hc _ IH]; [done|]. simpl. rewrite (proj2 (Z.ltb_lt c 128)) by lia. done.
Qed.

Lemma split_ascii sep s : ascii_name s -> Forall ascii_name (split_on sep s).
Proof.
  induction 1 as [|c s Hc _ IH]; simpl; [by repeat constructor|].
  case_match; [by constructor; [constructor|]|]. destruct (split_on sep s) as [|p ps]; [repeat constructor; lia|].
  inversion IH. constructor; [by constructor|done].
Qed.

Lemma encode_labels_Ok ls out o :
  encode_labels ls out = Ok o ->
  let ks := filter (fun l => l <> []) ls in
  o = out ++ labels_bytes ks ++ [0] /\ Forall (fun l => 1 <= Z.of_nat (length l) <= 63) ks.
Proof.
  revert out. induction ls as [|l ls IH]; intros out; simpl; [by intros [= <-]|].
  case_bool_decide as He.
  { intros Ho%IH. rewrite filter_cons_False by (intros Hn; by apply Hn). done. }
  destruct (63 <? _) eqn:E; [done|]. zbool. intros Ho%IH. rewrite filter_cons_True by done.
  destruct Ho as [-> Hk]. split.
  - unfold labels_bytes at 2. cbn [fmap list_fmap concat]. by rewrite <- !app_assoc.
  - constructor; [|done]. destruct l; [done|]. simpl in *. lia.
Qed.

(** The message of a server that copies the question and gives answers whose names point to it. *)
Record Answer := mkAnswer { an_type : Z; an_class : Z; an_ttl : Z; an_data : bytes }.
Definition answer_ok (a : Answer) : Prop :=
  in_uint 16 (an_type a) /\ in_uint 16 (an_class a) /\ in_uint 32 (an_ttl a) /\
  in_uint 16 (Z.of_nat (length (an_data a))).
Definition answer_bytes (a : Answer) : bytes :=
  [192; 12] ++ be16 (an_type a) ++ be16 (an_class a) ++ be32 (an_ttl a)
  ++ be16 (Z.of_nat (length (an_data a))) ++ an_data a.
Definition response_to (query : bytes) (answers : list Answer) : bytes :=
  take 2 query ++ [129; 128] ++ be16 1 ++ be16 (Z.of_nat (length answers)) ++ [0; 0; 0; 0]
  ++ drop 12 query ++ concat (answer_bytes <$> answers).
Definition answer_record (name : bytes) (a : Answer) : DnsRecord :=
  mkRecord name (an_type a) (an_class a) (an_ttl a) (an_data a).

Lemma get_plus_app P d i x :
  d !! Z.to_nat i = Some x -> 0 <= i -> Z.of_nat (length (P ++ d)) < 2 ^ 63 ->
  get_plus (P ++ d) (Z.of_nat (length P)) i = Done (Ok x).
Proof.
  intros Hd Hi Hl. rewrite length_app in Hl. pose proof (lookup_lt_Some _ _ _ Hd).
  rewrite get_plus_Done by lia. unfold get_at.
  replace (Z.to_nat (Z.of_nat (length P) + i)) with (length P + Z.to_nat i)%nat by lia.
  by rewrite lookup_app_r, Nat.add_comm, Nat.add_sub, Hd by lia.
Qed.

Lemma get_u16_app P d i v :
  d !! Z.to_nat i = Some (v / 256) -> d !! Z.to_nat (i + 1) = Some (v mod 256) -> 0 <= i ->
  Z.of_nat (length (P ++ d)) < 2 ^ 63 -> get_u16 (P ++ d) (Z.of_nat (length P)) i = Done (Ok v).
Proof.
  intros H1 H2 Hi Hl. unfold get_u16. rewrite (get_plus_app _ _ _ _ H1), (get_plus_app _ _ _ _ H2) by (done || lia).
  unfold try. by rewrite from_be16_be16.
Qed.

Lemma get_u32_app P d i v :
  take 4 (drop (Z.to_nat i) d) = be32 v -> 0 <= i -> Z.of_nat (length (P ++ d)) < 2 ^ 63 ->
  get_u32 (P ++ d) (Z.of_nat (length P)) i = Done (Ok v).
Proof.
  intros Hd Hi Hl.
  assert (forall k, (k < 4)%nat -> d !! Z.to_nat (i + Z.of_nat k) = be32 v !! k) as Hk.
  { intros k Hk. rewrite <- Hd, lookup_take_lt, lookup_drop by done. f_equal. lia. }
  unfold get_u32. rewrite (get_plus_app P d i (v / 2 ^ 24)) by (done || (rewrite <- (Z.add_0_r i); by apply (Hk 0%nat); lia)).
  rewrite (get_plus_app P d (i + 1) (v / 2 ^ 16 mod 256)) by (done || lia || (apply (Hk 1%nat); lia)).
  rewrite (get_plus_app P d (i + 2) (v / 2 ^ 8 mod 256)) by (done || lia || (apply (Hk 2%nat); lia)).
  rewrite (get_plus_app P d (i + 3) (v mod 256)) by (done || lia || (apply (Hk 3%nat); lia)).
  unfold try. by rewrite from_be32_be32.
Qed.

Section response.
Context (H : bytes) (ls : list bytes) (rest : bytes).
Context (HH : length H = 12%nat) (Hls : Forall label_ok ls).

Abbreviation message tl := (H ++ labels_bytes ls ++ 0 :: rest ++ tl).

(** The record at the end of what is already read. *)
Lemma decode_record_answer P a post tl :
  P ++ answer_bytes a ++ post = message tl ->
  answer_ok a -> Z.of_nat (length (P ++ answer_bytes a ++ post)) < 2 ^ 63 ->
  decode_record (P ++ answer_bytes a ++ post) (Z.of_nat (length P)) =
  if (length ls <=? 15)%nat
  then Done (Ok (answer_record (join_dots ls) a, Z.of_nat (length (P ++ answer_bytes a))))
  else Done (Err PointerLoop).
Proof.
  intros Hm (Ht & Hc & Htt & Hd) Hlen. unfold decode_record, decode_dns_name.
  set (B := P ++ answer_bytes a ++ post) in *.
  assert (name_loop B (S MAX_POINTER_HOPS) (Z.of_nat (length P)) None [] =
          if (length ls <=? 15)%nat then Done (Ok (ls, Z.of_nat (length P) + 2)) else Done (Err PointerLoop))
    as Hname.
  { assert (get_at B (Z.of_nat (length P)) = Done (Ok 192)) as Hg1 by apply get_at_app.
    assert (get_plus B (Z.of_nat (length P)) 1 = Done (Ok 12)) as Hg2
      by (apply get_plus_app; [done|lia|done]).
    rewrite (name_pointer _ _ _ _ 192 12) by (done || (subst B; rewrite length_app in Hlen; lia)).
    replace (Z.lor _ 12) with (Z.of_nat (length H)) by (by rewrite HH).
    rewrite Hm. rewrite (name_labels H ls) by (done || by rewrite <- Hm).
    unfold MAX_POINTER_HOPS. destruct (length ls <=? 15)%nat eqn:E.
    - apply Nat.leb_le in E. rewrite (proj2 (Nat.ltb_lt _ _)) by lia. done.
    - apply Nat.leb_gt in E. rewrite (proj2 (Nat.ltb_ge _ _)) by lia. done. }
  rewrite Hname. destruct (length ls <=? 15)%nat; [|done]. unfold try at 2. cbn [fst snd]. unfold try at 1.
  unfold in_uint in *. set (D := be16 (an_type a) ++ be16 (an_class a) ++ be32 (an_ttl a)
                         ++ be16 (Z.of_nat (length (an_data a))) ++ an_data a ++ post).
  assert (B = (P ++ [192; 12]) ++ D) as HB.
  { subst B D. unfold answer_bytes. by rewrite <- !app_assoc. }
  assert (Z.of_nat (length P) + 2 = Z.of_nat (length (P ++ [192; 12]))) as Ho by (rewrite length_app; simpl; lia).
  rewrite Ho. clear Hm Hname. clearbody B. subst B. set (Q := P ++ [192; 12]) in *.
  assert (length D = (10 + (length (an_data a) + length post))%nat) as HD
    by (subst D; unfold be16, be32; simpl; by rewrite length_app).
  assert (length (Q ++ D) = (length Q + length D)%nat) as HL by apply length_app.
  rewrite add_uint_Done by lia. cbn [mbind exec_bind]. rewrite (proj2 (Z.ltb_ge _ _)) by lia.
  rewrite (get_u16_app Q D 0 (an_type a)) by done. unfold try at 1.
  rewrite (get_u16_app Q D 2 (an_class a)) by done. unfold try at 1.
  rewrite (get_u32_app Q D 4 (an_ttl a)) by done. unfold try at 1.
  rewrite (get_u16_app Q D 8 (Z.of_nat (length (an_data a)))) by done. unfold try at 1.
  rewrite add_uint_Done by lia. cbn [mbind exec_bind]. rewrite (proj2 (Z.ltb_ge _ _)) by lia.
  assert (get_range (Q ++ D) (Z.of_nat (length Q) + 10) (Z.of_nat (length (an_data a))) = Some (an_data a)) as ->.
  { subst D. rewrite !app_assoc, <- (app_assoc _ (an_data a)). apply get_range_after; [|done].
    rewrite !length_app. unfold be16, be32. simpl. lia. }
  unfold try. cbn [ok_or]. do 3 f_equal. subst Q. unfold answer_bytes, be16, be32. rewrite !length_app. simpl. lia.
Qed.
Lemma decode_answers_ok todo pre recs :
  Forall answer_ok todo ->
  Z.of_nat (length (message (concat (answer_bytes <$> pre ++ todo)))) < 2 ^ 63 ->
  decode_answers (message (concat (answer_bytes <$> pre ++ todo))) (length todo)
    (Z.of_nat (length (message (concat (answer_bytes <$> pre))))) recs =
  if (length ls <=? 15)%nat || bool_decide (todo = [])
  then Done (Ok (recs ++ (answer_record (join_dots ls) <$> todo)))
  else Done (Err PointerLoop).
Proof.
  intros Hok. revert pre recs. induction Hok as [|a todo Ha Hok IH]; intros pre recs Hlen.
  { rewrite bool_decide_eq_true_2, orb_true_r by done. simpl. by rewrite app_nil_r. }
  assert (message (concat (answer_bytes <$> pre ++ a :: todo)) =
          message (concat (answer_bytes <$> pre)) ++ answer_bytes a ++ concat (answer_bytes <$> todo)) as Heq.
  { rewrite fmap_app, concat_app. simpl. by rewrite <- !app_assoc; simpl; rewrite <- !app_assoc. }
  cbn [length decode_answers]. rewrite Heq in *.
  rewrite (decode_record_answer _ _ _ _ (eq_sym Heq)) by done.
  rewrite (bool_decide_eq_false_2 (_ :: _ = [])), orb_false_r by done.
  destruct (length ls <=? 15)%nat eqn:E; [|done]. unfold try. cbn [fst snd].
  assert (message (concat (answer_bytes <$> pre)) ++ answer_bytes a =
          message (concat (answer_bytes <$> pre ++ [a]))) as HP.
  { rewrite fmap_app, concat_app. simpl. rewrite app_nil_r. by rewrite <- !app_assoc; simpl; rewrite <- !app_assoc. }
  assert (message (concat (answer_bytes <$> pre)) ++ answer_bytes a ++ concat (answer_bytes <$> todo) =
          message (concat (answer_bytes <$> (pre ++ [a]) ++ todo))) as HB
    by (rewrite <- Heq, <- app_assoc; done).
  rewrite HP, HB. rewrite (IH (pre ++ [a])) by (by rewrite <- HB). simpl. by rewrite <- app_assoc.
Qed.
End response.

(** A decoder run on any bytes at all returns, without a panic and within the bounds of its
    loops: a success yields exactly as many records as the header announces, with fields of their
    widths and data that is a contiguous piece of the message. *)
Theorem dns_decode_safe (b : bytes) :
  is_bytes b -> Z.of_nat (length b) < 2 ^ 63 ->
  exists r, decode_dns_response b = Done r /\
    forall recs, r = Ok recs ->
      Forall (record_in b) recs /\ u16_at b 6 = Some (Z.of_nat (length recs)).
Proof.
  intros Hb Hl. cut (returns (decode_dns_response b)
    (fun recs => Forall (record_in b) recs /\ u16_at b 6 = Some (Z.of_nat (length recs)))).
  { destruct (decode_dns_response b) as [r|] eqn:E; [|done]. intros Hr. exists r. split; [done|].
    by intros recs ->. }
  unfold decode_dns_response. case_match; [done|]. zbool.
  eapply returns_try; [apply get_u16_returns; [lia..|done]|]. intros fl _. case_match; [done|].
  eapply returns_try; [apply get_u16_returns; [lia..|done]|]. intros qd Hqd.
  destruct (get_u16 b 6 0) as [[an|e]|] eqn:Han; [|done|].
  2: { pose proof (get_u16_returns b 6 0 ltac:(lia) ltac:(lia) ltac:(lia) Hb) as Hr. by rewrite Han in Hr. }
  pose proof (get_u16_returns b 6 0 ltac:(lia) ltac:(lia) ltac:(lia) Hb) as Hr. rewrite Han in Hr. simpl in Hr.
  unfold try at 1. eapply returns_try; [apply questions_return; [done..|lia]|]. intros o Ho.
  eapply returns_impl; [by apply answers_return|]. intros recs [Hrec Hn]. split; [done|].
  rewrite Hn, Nat.add_0_l, Z2Nat.id by (unfold in_uint in Hr; lia).
  revert Han. unfold get_u16. rewrite !get_plus_Done by lia. unfold get_at, try, u16_at.
  change (Z.to_nat (6 + 0)) with 6%nat. change (Z.to_nat (6 + (0 + 1))) with 7%nat.
  destruct (b !! 6%nat), (b !! 7%nat); simpl; congruence.
Qed.

Definition response_header (id : Z) (n : Z) : bytes := be16 id ++ [129; 128] ++ be16 1 ++ be16 n ++ [0; 0; 0; 0].

Lemma encode_query_Ok name id query :
  ascii_name name -> encode_dns_query name id = Ok query ->
  Forall label_ok (non_empty_labels name) /\
  forall answers, response_to query answers =
    response_header id (Z.of_nat (length answers)) ++ labels_bytes (non_empty_labels name)
    ++ 0 :: [0; 1; 0; 1] ++ concat (answer_bytes <$> answers).
Proof.
  intros Hn. unfold encode_dns_query, encode_dns_name.
  destruct (encode_labels _ _) as [o|] eqn:E; [|done]. intros [= <-].
  apply encode_labels_Ok in E as [-> Hk]. fold (non_empty_labels name) in *. split.
  - apply Forall_forall. intros l Hl. rewrite Forall_forall in Hk. split; [by apply Hk|].
    apply ascii_utf8. apply list_elem_of_filter in Hl as [_ Hl].
    by eapply Forall_forall in Hl; [|by apply split_ascii].
  - intros answers. unfold response_to, response_header, be16. simpl. rewrite <- ?app_assoc. simpl.
    by rewrite drop_0, <- ?app_assoc.
Qed.

Lemma get_u16_lookup b off i v :
  b !! Z.to_nat (off + i) = Some (v / 256) -> b !! Z.to_nat (off + (i + 1)) = Some (v mod 256) ->
  off + i + 1 < 2 ^ 64 -> get_u16 b off i = Done (Ok v).
Proof.
  intros H1 H2 Hi. unfold get_u16. rewrite !get_plus_Done by lia. unfold get_at. rewrite H1, H2. unfold try.
  simpl. by rewrite from_be16_be16.
Qed.

Lemma decode_response_message id ls answers :
  Forall label_ok ls -> Forall answer_ok answers -> 1 <= Z.of_nat (length answers) < 2 ^ 16 ->
  let b := response_header id (Z.of_nat (length answers)) ++ labels_bytes ls
             ++ 0 :: [0; 1; 0; 1] ++ concat (answer_bytes <$> answers) in
  Z.of_nat (length b) < 2 ^ 63 ->
  decode_dns_response b =
  Done (if (length ls <=? 15)%nat then Ok (answer_record (join_dots ls) <$> answers) else Err PointerLoop).
Proof.
  intros Hls Ha Hn b Hb. pose (H := response_header id (Z.of_nat (length answers))).
  assert (length H = 12%nat) as HH by done.
  pose proof (decode_answers_ok H ls [0; 1; 0; 1] HH Hls answers [] [] Ha Hb) as Hans.
  rewrite app_nil_l, bool_decide_eq_false_2, orb_false_r in Hans by (intros ->; simpl in Hn; lia).
  pose proof (skip_labels H ls ([0; 1; 0; 1] ++ concat (answer_bytes <$> answers)) MAX_POINTER_HOPS Hls Hb) as Hskip.
  assert (length b = (12 + length (labels_bytes ls) + 5 + length (concat (answer_bytes <$> answers)))%nat) as Hbl.
  { subst b. fold H. rewrite !length_app, HH. cbn [length app]. lia. }
  rewrite HH in Hskip. change (H ++ labels_bytes ls ++ 0 :: [0; 1; 0; 1] ++ concat (answer_bytes <$> answers)) with b in Hskip, Hans.
  assert (length (H ++ labels_bytes ls ++ 0 :: [0; 1; 0; 1] ++ concat (answer_bytes <$> [])) =
          (12 + length (labels_bytes ls) + 5)%nat) as Hoff by (rewrite !length_app, HH; cbn [length app fmap list_fmap concat]; lia).
  rewrite Hoff in Hans. unfold decode_dns_response. rewrite (proj2 (Z.ltb_ge _ _)) by lia.
  rewrite (get_u16_lookup b 2 0 33152) by done. unfold try at 1. cbn match.
  rewrite (get_u16_lookup b 4 0 1) by done. unfold try at 1.
  rewrite (get_u16_lookup b 6 0 (Z.of_nat (length answers))) by done. unfold try at 1.
  change (negb (Z.land 33152 15 =? 0)) with false. change (Z.to_nat 1) with 1%nat. change 12 with (Z.of_nat 12).
  cbn [skip_questions]. unfold skip_dns_name. rewrite Hskip. unfold MAX_POINTER_HOPS. destruct (Nat.leb_spec (length ls) 16).
  - unfold try at 2. rewrite advance_Done by lia. unfold try at 2. rewrite (proj2 (Z.ltb_ge _ _)) by lia.
    unfold try at 1. rewrite Nat2Z.id. replace (_ + 4) with (Z.of_nat (12 + length (labels_bytes ls) + 5)) by lia.
    rewrite Hans. by destruct (_ <=? 15)%nat.
  - unfold try. by rewrite (proj2 (Nat.leb_gt _ _)) by lia.
Qed.

Lemma addresses_rdata records :
  (fun r => take 4 (rdata r)) <$> List.filter is_address records = rdata <$> List.filter is_address records.
Proof.
  induction records as [|r rs IH]; simpl; [done|]. destruct (is_address r) eqn:E; [|done]. simpl. f_equal; [|done].
  unfold is_address in E. apply andb_true_iff in E as [_ E]. apply Nat.eqb_eq in E. by rewrite take_ge by lia.
Qed.

(** C31. What a resolver asks comes back as the answer: to the query it encodes for an ASCII name, a
    response that copies the question and whose records point to it decodes to exactly these
    records under the queried name without its empty labels, and the addresses extracted are those of the A records in
    order; this holds for names of up to fifteen labels, and every longer name is refused as a
    pointer loop although its query is sent. *)
Theorem dns_response_decoded (name : bytes) (id : Z) (query : bytes) (answers : list Answer) :
  ascii_name name -> encode_dns_query name id = Ok query ->
  Forall answer_ok answers -> 1 <= Z.of_nat (length answers) < 2 ^ 16 ->
  Z.of_nat (length (response_to query answers)) < 2 ^ 63 ->
  let records := answer_record (join_dots (non_empty_labels name)) <$> answers in
  decode_dns_response (response_to query answers) =
    Done (if (length (non_empty_labels name) <=? 15)%nat then Ok records else Err PointerLoop) /\
  ((length (non_empty_labels name) <= 15)%nat ->
   let addrs := rdata <$> List.filter is_address records in
   handle_response (response_to query answers) =
     Done (if bool_decide (addrs = []) then Err NoRecords else Ok addrs)).
Proof.
  intros Hn Hq Ha Hlen Hb records.
  assert (decode_dns_response (response_to query answers) =
    Done (if (length (non_empty_labels name) <=? 15)%nat then Ok records else Err PointerLoop)) as Hdec.
  { destruct (encode_query_Ok _ _ _ Hn Hq) as (Hls & Hresp). rewrite Hresp in *.
    by apply decode_response_message. }
  split; [done|]. intros H15 addrs. unfold handle_response. rewrite Hdec, (proj2 (Nat.leb_le _ _)) by done.
  unfold try. rewrite addresses_rdata. fold addrs. by destruct (bool_decide _).
Qed.

(** The cache is the last result stored under the lower-cased name, for as long as its time
    to live: a lookup at [now] gives the addresses stored most recently for a name that differs
    at most in the case of ASCII letters, until [ttl] seconds have passed since they were stored,
    and nothing for other names. *)
Theorem dns_cache_exact `{Lowercase} (r : DnsResolver) (name name' : bytes) (addrs : list bytes) (ttl at_ now : Z) :
  ascii_name name -> ascii_name name' -> in_uint 32 ttl -> in_uint 64 at_ -> in_uint 64 now ->
  resolve_cached (cache_result r name addrs ttl at_) name' now =
  if bool_decide (ascii_lower <$> name = ascii_lower <$> name')
  then if (now <? at_ + ttl) && (0 <? ttl) then Some addrs else None
  else resolve_cached r name' now.
Proof.
  intros Hn Hn' Ht Ha Hnow. unfold in_uint in *. unfold resolve_cached, cache_result. cbn [dns_cache].
  rewrite !to_lowercase_ascii by done. case_bool_decide as He.
  - rewrite He, lookup_insert_eq. cbn [mbind option_bind ce_ttl cached_at addresses]. unfold saturating_sub.
    destruct (Z.ltb_spec now (at_ + ttl)), (Z.ltb_spec 0 ttl); simpl; destruct (Z.leb_spec ttl (Z.max 0 (now - at_)));
      done || lia.
  - by rewrite lookup_insert_ne.
Qed.

(** *** Instances *)

(** A message whose answer name is a pointer to itself. *)
Definition looping : bytes := [0; 1; 129; 128; 0; 0; 0; 1; 0; 0; 0; 0; 192; 12].

Lemma dns_decode_safe_witness :
  exists r, decode_dns_response looping = Done r /\
    forall recs, r = Ok recs ->
      Forall (record_in looping) recs /\ u16_at looping 6 = Some (Z.of_nat (length recs)).
Proof.
  apply (dns_decode_safe looping); [|simpl; lia].
  apply (bool_decide_unpack (Forall (fun x => 0 <= x < 256) looping)). vm_compute. done.
Defined.

(** "a.b" with one address. *)
Definition demo_name : bytes := [97; 46; 98].
Definition demo_answers : list Answer := [mkAnswer 1 1 60 [10; 0; 0; 7]].
Definition demo_query : bytes :=
  [0; 7; 1; 0; 0; 1; 0; 0; 0; 0; 0; 0; 1; 97; 1; 98; 0; 0; 1; 0; 1].

Lemma dns_response_decoded_witness :
  encode_dns_query demo_name 7 = Ok demo_query /\
  handle_response (response_to demo_query demo_answers) = Done (Ok [[10; 0; 0; 7]]).
Proof.
  split; [reflexivity|]. etrans.
  - apply (proj2 (dns_response_decoded demo_name 7 demo_query demo_answers
      ltac:(repeat constructor; lia) ltac:(reflexivity)
      ltac:(repeat constructor; simpl; lia) ltac:(simpl; lia) ltac:(vm_compute; done))). vm_compute. lia.
  - vm_compute. reflexivity.
Defined.

#[export] Instance Lowercase_ascii : Lowercase :=
  {| to_lowercase s := ascii_lower <$> s; to_lowercase_ascii s _ := eq_refl |}.

Lemma dns_cache_exact_witness :
  resolve_cached (cache_result (DnsResolver_new []) demo_name [[10; 0; 0; 7]] 60 1000) [65; 46; 66] 1059
  = Some [[10; 0; 0; 7]].
Proof.
  etrans; [apply (dns_cache_exact (DnsResolver_new []) demo_name [65; 46; 66] [[10; 0; 0; 7]] 60 1000 1059)|].
  all: try (vm_compute; reflexivity). all: try (repeat constructor; lia). all: try (unfold in_uint; lia).
Defined.
