(* ===== verification/Icmp.v ===== *)
(** * ICMP

    [src/crates/nexacore-net/src/icmp.rs]: echo requests and replies, the
    table of pending pings, and the messages the handler builds. *)

From S2P Require Import Prelude NetHeaders.

Definition ECHO_REPLY : Z := 0.
Definition DEST_UNREACHABLE : Z := 3.
Definition ECHO_REQUEST : Z := 8.
Definition TIME_EXCEEDED : Z := 11.

Record PingPending := mkPingPending { ping_sent_at : Z; ping_payload : bytes }.
Record PingState := mkPing { identifier : Z; next_seq : Z; ping_pending : gmap Z PingPending }.

Record IcmpReply := mkReply { reply_data : bytes; reply_dst_ip : bytes }.

Inductive IcmpHandleResult :=
| Reply (r : IcmpReply)
| PingResponse (id seq rtt_ns : Z)
| DestUnreachable (code : Z)
| TimeExceeded
| IcmpIgnored.

Record IcmpHandler := mkIcmpHandler { pending_pings : gmap Z PingState }.
Definition IcmpHandler_new : IcmpHandler := mkIcmpHandler ∅.

(** A header with its checksum, followed by the payload: the end of every [build_*]. *)
Definition icmp_message (h : IcmpHeader) (payload : bytes) : exec bytes :=
  c ← icmp_compute_checksum h payload;
  let h := mkIcmp (icmp_type h) (icmp_code h) c (icmp_rest h) in
  let out := replicate (8 + length payload) 0 in
  let out := default out (icmp_serialize h out) in
  Done (put_range out 8 payload).

Definition build_echo_request (id seq : Z) (payload : bytes) : exec bytes :=
  icmp_message (mkIcmp ECHO_REQUEST 0 0 (to_rest (mkEcho id seq))) payload.
Definition build_echo_reply (request : IcmpHeader) (payload : bytes) : exec bytes :=
  icmp_message (mkIcmp ECHO_REPLY 0 0 (icmp_rest request)) payload.
Definition build_dest_unreachable (code : Z) (original_packet : bytes) : exec bytes :=
  icmp_message (mkIcmp DEST_UNREACHABLE code 0 [0; 0; 0; 0]) (take 28 original_packet).

(** The array behind [rest] always has four bytes. *)
Definition echo_of (rest : bytes) : IcmpEchoHeader := default (mkEcho 0 0) (from_rest rest).

Definition handle_icmp (s : IcmpHandler) (h : IcmpHeader) (payload src_ip : bytes) (now : Z) :
    exec (IcmpHandleResult * IcmpHandler) :=
  if icmp_type h =? ECHO_REQUEST then
    d ← build_echo_reply h payload; Done (Reply (mkReply d src_ip), s)
  else if icmp_type h =? ECHO_REPLY then
    let e := echo_of (icmp_rest h) in
    match pending_pings s !! echo_id e with
    | None => Done (IcmpIgnored, s)
    | Some st =>
        match ping_pending st !! echo_sequence e with
        | None => Done (IcmpIgnored, s)
        | Some p =>
            let st := mkPing (identifier st) (next_seq st) (delete (echo_sequence e) (ping_pending st)) in
            Done (PingResponse (echo_id e) (echo_sequence e) (saturating_sub now (ping_sent_at p)),
                  mkIcmpHandler (<[echo_id e := st]> (pending_pings s)))
        end
    end
  else if icmp_type h =? DEST_UNREACHABLE then Done (DestUnreachable (icmp_code h), s)
  else if icmp_type h =? TIME_EXCEEDED then Done (TimeExceeded, s)
  else Done (IcmpIgnored, s).

Definition register_ping (s : IcmpHandler) (id : Z) : IcmpHandler :=
  match pending_pings s !! id with
  | Some _ => s
  | None => mkIcmpHandler (<[id := mkPing id 0 ∅]> (pending_pings s))
  end.

Definition record_sent (s : IcmpHandler) (id seq sent_at : Z) (payload : bytes) : IcmpHandler :=
  match pending_pings s !! id with
  | Some st =>
      mkIcmpHandler (<[id := mkPing (identifier st) (next_seq st)
                              (<[seq := mkPingPending sent_at payload]> (ping_pending st))]> (pending_pings s))
  | None => s
  end.

(** ** Messages *)

Lemma icmp_bytes_ok h :
  is_byte (icmp_type h) -> is_byte (icmp_code h) -> in_uint 16 (icmp_checksum h) -> is_array 4 (icmp_rest h) ->
  is_array 8 (icmp_bytes h).
Proof.
  intros Ht Hc Hk [Hl Hb]. unfold icmp_bytes. split; [by rewrite !length_app, Hl|].
  apply Forall_app. split; [by apply Forall_cons_2, Forall_cons_2; [| |constructor]|]. apply Forall_app. split; [by apply be16_bytes|done].
Qed.

(** A message parses back to its header and payload, with a correct checksum. *)
Lemma icmp_message_exact h payload :
  is_byte (icmp_type h) -> is_byte (icmp_code h) -> is_array 4 (icmp_rest h) ->
  is_bytes payload -> Z.of_nat (length payload) <= 65535 ->
  exists c m, icmp_message h payload = Done m /\
    let h' := mkIcmp (icmp_type h) (icmp_code h) c (icmp_rest h) in
    m = icmp_bytes h' ++ payload /\ is_array 8 (icmp_bytes h') /\
    icmp_parse m = Some (h', payload) /\ icmp_verify_checksum h' payload = Done true.
Proof.
  intros Ht Hc Hr Hb Hl.
  assert (exists c, icmp_compute_checksum h payload = Done c /\ in_uint 16 c) as (c & Hck & Hcb).
  { unfold icmp_compute_checksum, icmp_serialize.
    destruct (icmp_bytes_ok (mkIcmp (icmp_type h) (icmp_code h) 0 (icmp_rest h))) as [H8 H8b];
      [done|done|unfold in_uint; simpl; lia|done|].
    rewrite write_header_zero by done. revert H8 H8b. generalize (icmp_bytes (mkIcmp (icmp_type h) (icmp_code h) 0 (icmp_rest h))).
    intros hb H8 H8b. rewrite checksum_combine_concat, internet_checksum_exact; cbn [concat].
    - eexists. split; [done|]. apply ones_complement_bound.
    - rewrite app_nil_r. by apply Forall_app.
    - rewrite app_nil_r, length_app, H8. lia. }
  exists c. eexists. unfold icmp_message. rewrite Hck. cbn [mbind exec_bind]. split; [done|].
  set (h' := mkIcmp _ _ c _).
  assert (is_array 8 (icmp_bytes h')) as Hok by (by apply icmp_bytes_ok).
  assert (put_range (default (replicate (8 + length payload) 0)
            (icmp_serialize h' (replicate (8 + length payload) 0))) 8 payload = icmp_bytes h' ++ payload) as ->
    by (unfold icmp_serialize; apply (header_then_payload 8); apply Hok).
  split; [done|]. split; [done|]. split.
  - apply icmp_roundtrip. by destruct Hr.
  - unfold icmp_verify_checksum. replace (icmp_compute_checksum h' payload) with (icmp_compute_checksum h payload) by done.
    rewrite Hck. cbn [mbind exec_bind]. simpl. by rewrite Z.eqb_refl.
Qed.

(** Pinging works end to end: the message built for an echo request parses back to a request, the
    handler that receives it answers with a reply that parses back with a correct checksum and
    carries the same identifier, sequence number and payload, and the handler that sent it, having
    recorded the request, reports the elapsed time exactly once. *)
Theorem ping_roundtrip (s peer : IcmpHandler) (id seq sent now : Z) (payload src dst : bytes) (st : PingState) :
  in_uint 16 id -> in_uint 16 seq -> is_bytes payload -> Z.of_nat (length payload) <= 65535 ->
  pending_pings s !! id = Some st -> sent <= now ->
  exists m h r h',
    build_echo_request id seq payload = Done m /\ icmp_parse m = Some (h, payload) /\
    handle_icmp peer h payload src now = Done (Reply (mkReply r src), peer) /\
    icmp_parse r = Some (h', payload) /\ icmp_verify_checksum h' payload = Done true /\
    exists s', handle_icmp (record_sent s id seq sent payload) h' payload dst now
               = Done (PingResponse id seq (now - sent), s') /\
      handle_icmp s' h' payload dst now = Done (IcmpIgnored, s').
Proof.
  intros Hid Hsq Hb Hl Hst Hnow.
  assert (is_array 4 (to_rest (mkEcho id seq))) as Hr.
  { split; [done|]. apply Forall_app. split; by apply be16_bytes. }
  destruct (icmp_message_exact (mkIcmp ECHO_REQUEST 0 0 (to_rest (mkEcho id seq))) payload)
    as (c & m & Hm & _ & _ & Hp & _); [unfold is_byte, ECHO_REQUEST; simpl; lia..|done|done|done|].
  destruct (icmp_message_exact (mkIcmp ECHO_REPLY 0 0 (to_rest (mkEcho id seq))) payload)
    as (c' & r & Hm' & _ & _ & Hp' & Hv); [unfold is_byte, ECHO_REPLY; simpl; lia..|done|done|done|].
  cbn [icmp_type icmp_code icmp_rest] in *. eexists m, _, r, _.
  split; [done|]. split; [exact Hp|]. split.
  { unfold handle_icmp, build_echo_reply. cbn [icmp_type icmp_rest]. by rewrite Z.eqb_refl, Hm'. }
  split; [exact Hp'|]. split; [exact Hv|].
  assert (echo_of (to_rest (mkEcho id seq)) = mkEcho id seq) as He.
  { unfold echo_of, to_rest, from_rest, u16_at, be16. simpl. by rewrite !from_be16_be16. }
  unfold handle_icmp at 1. cbn [icmp_type icmp_rest]. change (ECHO_REPLY =? ECHO_REQUEST) with false.
  rewrite Z.eqb_refl, He. unfold record_sent. rewrite Hst. cbn [pending_pings echo_id echo_sequence].
  rewrite !lookup_insert_eq. cbn [ping_pending]. rewrite lookup_insert_eq. eexists. split.
  { do 3 f_equal. unfold saturating_sub. simpl. lia. }
  unfold handle_icmp. cbn [icmp_type icmp_rest]. change (ECHO_REPLY =? ECHO_REQUEST) with false.
  rewrite Z.eqb_refl, He. cbn [pending_pings echo_id echo_sequence]. rewrite lookup_insert_eq.
  cbn [ping_pending]. by rewrite lookup_delete_eq.
Qed.

Lemma ping_roundtrip_witness :
  exists m h r h',
    build_echo_request 7 1 [1; 2; 3] = Done m /\ icmp_parse m = Some (h, [1; 2; 3]) /\
    handle_icmp IcmpHandler_new h [1; 2; 3] [10; 0; 0; 2] 500 = Done (Reply (mkReply r [10; 0; 0; 2]), IcmpHandler_new) /\
    icmp_parse r = Some (h', [1; 2; 3]) /\ icmp_verify_checksum h' [1; 2; 3] = Done true /\
    exists s', handle_icmp (record_sent (register_ping IcmpHandler_new 7) 7 1 200 [1; 2; 3]) h' [1; 2; 3] [10; 0; 0; 1] 500
               = Done (PingResponse 7 1 (500 - 200), s') /\
      handle_icmp s' h' [1; 2; 3] [10; 0; 0; 1] 500 = Done (IcmpIgnored, s').
Proof.
  apply (ping_roundtrip (register_ping IcmpHandler_new 7) IcmpHandler_new 7 1 200 500 [1; 2; 3] [10; 0; 0; 2]
           [10; 0; 0; 1] (mkPing 7 0 ∅)); try (unfold in_uint; lia); try done.
  repeat (constructor; [unfold is_byte; lia|]). constructor.
Defined.
