(* ===== verification/NetService.v ===== *)
(** * The network service

    [src/crates/nexacore-net/src/service.rs]: the service that ties the ARP
    table, ICMP, UDP, TCP and the DNS cache together.  [handle_frame] is the
    frame path, [handle_socket_request] the socket path, [tick] the timers.
    Frame counters and handles use the plain [+= 1] of the code, which panics
    at [u64::MAX]. *)

From S2P Require Import Prelude NetHeaders Arp Tcp Dns Icmp.

Definition EPHEMERAL_PORT_START : Z := 49152.
Definition EPHEMERAL_PORT_END : Z := 65534.

Record IfaceCounters := mkCounters { rx_bytes : Z; tx_bytes : Z; rx_frames : Z; tx_frames : Z }.
Definition IfaceCounters_default : IfaceCounters := mkCounters 0 0 0 0.

Record InterfaceConfig := mkIface {
  if_name : str; if_ip : bytes; if_netmask : Cidr; if_mac : bytes; if_mtu : Z
}.

(** ** The socket interface *)

Inductive SocketDomain := Inet | Inet6.
Inductive SocketType := Stream | Dgram | Raw.
Inductive ShutdownHow := ShutRead | ShutWrite | ShutBoth.
Inductive SocketOption :=
| ReuseAddr (v : bool) | KeepAlive (v : bool) | NoDelay (v : bool)
| RecvTimeout (us : Z) | SendTimeout (us : Z) | Broadcast (v : bool).

Inductive SocketRequest :=
| ReqSocket (domain : SocketDomain) (type : SocketType)
| ReqBind (handle : Z) (addr : SocketApiAddr)
| ReqListen (handle backlog : Z)
| ReqAccept (handle : Z)
| ReqConnect (handle : Z) (addr : SocketApiAddr)
| ReqSend (handle : Z) (data : bytes) (flags : Z)
| ReqRecv (handle max_len flags : Z)
| ReqSendTo (handle : Z) (data : bytes) (addr : SocketApiAddr)
| ReqRecvFrom (handle max_len : Z)
| ReqClose (handle : Z)
| ReqGetSockName (handle : Z)
| ReqGetPeerName (handle : Z)
| ReqSetSockOpt (handle : Z) (option : SocketOption)
| ReqShutdown (handle : Z) (how : ShutdownHow)
| ReqResolve (hostname : bytes)
| ReqListSockets.

Record SocketInfo := mkInfo {
  si_protocol : SocketType; si_local : SocketApiAddr; si_remote : SocketApiAddr; si_state : str
}.

Inductive SocketResponse :=
| RespOk (n : Z)
| RespHandle (h : Z)
| RespData (d : bytes)
| RespAddr (a : SocketApiAddr)
| RespDataFrom (d : bytes) (a : SocketApiAddr)
| RespAddresses (l : list SocketApiAddr)
| RespError (e : NetError)
| RespSocketList (l : list SocketInfo)
| RespPending.

Inductive ServiceOutput :=
| SendFrame (interface : nat) (data : bytes)
| OutResponse (r : SocketResponse).

Record SocketOptions := mkOptions {
  reuse_addr : bool; keep_alive : bool; no_delay : bool;
  recv_timeout_us : Z; send_timeout_us : Z; broadcast : bool
}.
Definition SocketOptions_default : SocketOptions := mkOptions false false false 0 0 false.

Definition apply_option (o : SocketOptions) (x : SocketOption) : SocketOptions :=
  let 'mkOptions ra ka nd rt st bc := o in
  match x with
  | ReuseAddr v => mkOptions v ka nd rt st bc
  | KeepAlive v => mkOptions ra v nd rt st bc
  | NoDelay v => mkOptions ra ka v rt st bc
  | RecvTimeout us => mkOptions ra ka nd us st bc
  | SendTimeout us => mkOptions ra ka nd rt us bc
  | Broadcast v => mkOptions ra ka nd rt st v
  end.

(** ** State *)

Record NetworkService := mkService {
  interfaces : list InterfaceConfig;
  counters_ : list IfaceCounters;
  arp : ArpTable;
  routing : RoutingTable;
  icmp : IcmpHandler;
  udp : UdpSocketTable;
  tcp : TcpSocketTable;
  dns : DnsResolver;
  next_handle : Z;
  socket_state : gmap Z TcpConnectionKey;
  socket_options_ : gmap Z SocketOptions;
  next_ephemeral_port : Z;
  pending_tx : list ServiceOutput;
  pending_connect : option (Z * TcpConnectionKey);
}.

Definition NetworkService_new : NetworkService :=
  mkService [] [] (ArpTable_new ARP_MAX_ENTRIES) RoutingTable_new IcmpHandler_new UdpSocketTable_new
    TcpSocketTable_new (DnsResolver_new []) 1 ∅ ∅ EPHEMERAL_PORT_START [] None.

Definition set_ifaces (s : NetworkService) i c r : NetworkService :=
  mkService i c (arp s) r (icmp s) (udp s) (tcp s) (dns s) (next_handle s) (socket_state s)
    (socket_options_ s) (next_ephemeral_port s) (pending_tx s) (pending_connect s).
Definition set_counters (s : NetworkService) c : NetworkService := set_ifaces s (interfaces s) c (routing s).
Definition set_arp (s : NetworkService) a : NetworkService :=
  mkService (interfaces s) (counters_ s) a (routing s) (icmp s) (udp s) (tcp s) (dns s) (next_handle s)
    (socket_state s) (socket_options_ s) (next_ephemeral_port s) (pending_tx s) (pending_connect s).
Definition set_icmp (s : NetworkService) i : NetworkService :=
  mkService (interfaces s) (counters_ s) (arp s) (routing s) i (udp s) (tcp s) (dns s) (next_handle s)
    (socket_state s) (socket_options_ s) (next_ephemeral_port s) (pending_tx s) (pending_connect s).
Definition set_udp (s : NetworkService) u : NetworkService :=
  mkService (interfaces s) (counters_ s) (arp s) (routing s) (icmp s) u (tcp s) (dns s) (next_handle s)
    (socket_state s) (socket_options_ s) (next_ephemeral_port s) (pending_tx s) (pending_connect s).
Definition set_tcp (s : NetworkService) t : NetworkService :=
  mkService (interfaces s) (counters_ s) (arp s) (routing s) (icmp s) (udp s) t (dns s) (next_handle s)
    (socket_state s) (socket_options_ s) (next_ephemeral_port s) (pending_tx s) (pending_connect s).
Definition set_handles (s : NetworkService) n m : NetworkService :=
  mkService (interfaces s) (counters_ s) (arp s) (routing s) (icmp s) (udp s) (tcp s) (dns s) n
    m (socket_options_ s) (next_ephemeral_port s) (pending_tx s) (pending_connect s).
Definition set_options (s : NetworkService) m : NetworkService :=
  mkService (interfaces s) (counters_ s) (arp s) (routing s) (icmp s) (udp s) (tcp s) (dns s) (next_handle s)
    (socket_state s) m (next_ephemeral_port s) (pending_tx s) (pending_connect s).
Definition set_port (s : NetworkService) p : NetworkService :=
  mkService (interfaces s) (counters_ s) (arp s) (routing s) (icmp s) (udp s) (tcp s) (dns s) (next_handle s)
    (socket_state s) (socket_options_ s) p (pending_tx s) (pending_connect s).
Definition set_pending_tx (s : NetworkService) l : NetworkService :=
  mkService (interfaces s) (counters_ s) (arp s) (routing s) (icmp s) (udp s) (tcp s) (dns s) (next_handle s)
    (socket_state s) (socket_options_ s) (next_ephemeral_port s) l (pending_connect s).
Definition set_pending_connect (s : NetworkService) c : NetworkService :=
  mkService (interfaces s) (counters_ s) (arp s) (routing s) (icmp s) (udp s) (tcp s) (dns s) (next_handle s)
    (socket_state s) (socket_options_ s) (next_ephemeral_port s) (pending_tx s) c.

(** ** Interfaces and counters *)

Definition socket_options (s : NetworkService) (handle : Z) : SocketOptions :=
  default SocketOptions_default (socket_options_ s !! handle).
Definition take_pending_tx (s : NetworkService) : list ServiceOutput * NetworkService :=
  (pending_tx s, set_pending_tx s []).

Definition add_interface (s : NetworkService) (c : InterfaceConfig) : NetworkService :=
  set_ifaces s (interfaces s ++ [c]) (counters_ s ++ [IfaceCounters_default])
    (add_route (routing s) (mkRoute (if_netmask c) None (if_name c) 0)).

Definition counters (s : NetworkService) (idx : nat) : IfaceCounters :=
  default IfaceCounters_default (counters_ s !! idx).

Definition record_rx (s : NetworkService) (idx : nat) (len : Z) : exec NetworkService :=
  match counters_ s !! idx with
  | None => Done s
  | Some c =>
      f ← add_uint 64 (rx_frames c) 1;
      Done (set_counters s (<[idx := mkCounters (saturating_add 64 (rx_bytes c) len) (tx_bytes c) f (tx_frames c)]>
                              (counters_ s)))
  end.
Definition record_tx (s : NetworkService) (idx : nat) (len : Z) : exec NetworkService :=
  match counters_ s !! idx with
  | None => Done s
  | Some c =>
      f ← add_uint 64 (tx_frames c) 1;
      Done (set_counters s (<[idx := mkCounters (rx_bytes c) (saturating_add 64 (tx_bytes c) len) (rx_frames c) f]>
                              (counters_ s)))
  end.

Definition UNSPECIFIED : bytes := [0; 0; 0; 0].
Definition first_mac (s : NetworkService) : bytes :=
  match interfaces s with i :: _ => if_mac i | [] => zero_mac end.
Definition first_ip (s : NetworkService) : bytes :=
  match interfaces s with i :: _ => if_ip i | [] => UNSPECIFIED end.

(** ** Frames *)

(** A zeroed buffer, the Ethernet header written at its start and the payload after it. *)
Definition ethernet_frame (h : EthernetHeader) (payload : bytes) : bytes :=
  let out := replicate (14 + length payload) 0 in
  let out := default out (ethernet_serialize h out) in
  put_range out 14 payload.
Definition arp_frame (h : EthernetHeader) (p : ArpPacket) : bytes :=
  ethernet_frame h (serialized 28 (arp_serialize p)).

Definition build_arp_request_frame (target our_mac our_ip : bytes) : option bytes :=
  Some (arp_frame (mkEthernet (replicate 6 255) our_mac ETHERTYPE_ARP) (build_request our_mac our_ip target)).

Definition wrap_in_ethernet (s : NetworkService) (dst_ip our_mac payload : bytes) : option bytes * NetworkService :=
  match resolve (arp s) dst_ip (Some (mkPending payload dst_ip)) with
  | (Resolved mac, a) => (Some (ethernet_frame (mkEthernet mac our_mac ETHERTYPE_IPV4) payload), set_arp s a)
  | (Pending, a) => (None, set_arp s a)
  end.

(** [if let Some(frame) = wrap_in_ethernet(..) { record_tx(..); out.push(SendFrame { .. }) }]. *)
Definition transmit (s : NetworkService) (idx : nat) (dst_ip our_mac payload : bytes) (out : list ServiceOutput) :
    exec (list ServiceOutput * NetworkService) :=
  match wrap_in_ethernet s dst_ip our_mac payload with
  | (Some f, s) => s ← record_tx s idx (Z.of_nat (length f)); Done (out ++ [SendFrame idx f], s)
  | (None, s) => Done (out, s)
  end.

Definition resolve_pending_connect (s : NetworkService) (key : TcpConnectionKey) (r : SocketResponse) :
    option ServiceOutput * NetworkService :=
  match pending_connect s with
  | Some (_, k) =>
      if bool_decide (k = key) then (Some (OutResponse r), set_pending_connect s None) else (None, s)
  | None => (None, s)
  end.

(** The deferred reply is pushed when there is one. *)
Definition answer_connect (s : NetworkService) (key : TcpConnectionKey) (r : SocketResponse)
    (out : list ServiceOutput) : list ServiceOutput * NetworkService :=
  let '(o, s) := resolve_pending_connect s key r in (out ++ option_list o, s).

Definition emit_one (s : NetworkService) (idx : nat) (our_mac : bytes) (o : TcpOutput) (out : list ServiceOutput) :
    exec (list ServiceOutput * NetworkService) :=
  match o with
  | SendSegment seg dst_ip => data ← wire seg; transmit s idx dst_ip our_mac data out
  | ConnectionEstablished key => Done (answer_connect s key (RespOk 0) out)
  | Tcp.ConnectionRefused key => Done (answer_connect s key (RespError NetHeaders.ConnectionRefused) out)
  | ConnectionClosed key => Done (answer_connect s key (RespError TimedOut) out)
  | DataReceived _ => Done (out, s)
  end.

Fixpoint emit_tcp_outputs (s : NetworkService) (outs : list TcpOutput) (idx : nat) (our_mac : bytes)
    (out : list ServiceOutput) : exec (list ServiceOutput * NetworkService) :=
  match outs with
  | [] => Done (out, s)
  | o :: outs =>
      '(out, s) ← emit_one s idx our_mac o out;
      emit_tcp_outputs s outs idx our_mac out
  end.

(** The packets that waited for an address are sent. *)
Fixpoint send_waiting (s : NetworkService) (idx : nat) (our_mac : bytes) (ps : list PendingPacket)
    (out : list ServiceOutput) : exec (list ServiceOutput * NetworkService) :=
  match ps with
  | [] => Done (out, s)
  | p :: ps =>
      '(out, s) ← transmit s idx (next_hop_ip p) our_mac (pp_data p) out;
      send_waiting s idx our_mac ps out
  end.

Definition handle_arp (s : NetworkService) (idx : nat) (pkt : ArpPacket) (our_mac our_ip : bytes)
    (out : list ServiceOutput) : exec (list ServiceOutput * NetworkService) :=
  let '(r, a) := handle_arp_packet (arp s) pkt our_mac our_ip in
  let s := set_arp s a in
  match r with
  | SendReply reply =>
      let frame := arp_frame (mkEthernet (sender_mac pkt) our_mac ETHERTYPE_ARP) reply in
      s ← record_tx s idx (Z.of_nat (length frame));
      let out := out ++ [SendFrame idx frame] in
      let '(ps, a) := drain_pending (arp s) (sender_ip pkt) in
      send_waiting (set_arp s a) idx our_mac ps out
  | UpdatedTable =>
      let '(ps, a) := drain_pending (arp s) (sender_ip pkt) in
      send_waiting (set_arp s a) idx our_mac ps out
  | Ignored => Done (out, s)
  end.

(** ** The frame path *)

Definition handle_ip (s : NetworkService) (idx : nat) (h : Ipv4Header) (payload our_mac our_ip : bytes) (now : Z) :
    exec (list ServiceOutput * NetworkService) :=
  if ip_protocol h =? PROTO_ICMP then
    match icmp_parse payload with
    | None => Done ([], s)
    | Some (ih, ip) =>
        '(r, i) ← handle_icmp (icmp s) ih ip (ip_src h) now;
        let s := set_icmp s i in
        match r with
        | Reply reply =>
            pkt ← build_ipv4_packet our_ip (ip_src h) PROTO_ICMP 64 0 (reply_data reply);
            transmit s idx (ip_src h) our_mac pkt []
        | _ => Done ([], s)
        end
    end
  else if ip_protocol h =? PROTO_UDP then
    match udp_parse payload with
    | None => Done ([], s)
    | Some (uh, up) => Done ([], set_udp s (udp_handle_packet (udp s) uh up (ip_src h)))
    end
  else if ip_protocol h =? PROTO_TCP then
    match tcp_parse payload with
    | None => Done ([], s)
    | Some (th, tp) =>
        let '(outs, t) := handle_segment (tcp s) th tp (ip_src h) (ip_dst h) now in
        emit_tcp_outputs (set_tcp s t) outs idx our_mac []
    end
  else Done ([], s).

Definition handle_frame (s : NetworkService) (idx : nat) (frame : bytes) (now : Z) :
    exec (list ServiceOutput * NetworkService) :=
  s ← record_rx s idx (Z.of_nat (length frame));
  match ethernet_parse frame with
  | None => Done ([], s)
  | Some (eth, payload) =>
      let our_mac := match interfaces s !! idx with Some i => if_mac i | None => zero_mac end in
      let our_ip := match interfaces s !! idx with Some i => if_ip i | None => UNSPECIFIED end in
      if ether_type eth =? ETHERTYPE_ARP then
        match arp_parse payload with
        | Some pkt => handle_arp s idx pkt our_mac our_ip []
        | None => Done ([], s)
        end
      else if ether_type eth =? ETHERTYPE_IPV4 then
        p ← parse_ipv4_packet payload;
        match p with
        | None => Done ([], s)
        | Some (h, ip_payload) => handle_ip s idx h ip_payload our_mac our_ip now
        end
      else Done ([], s)
  end.

(** ** The timers *)

Fixpoint send_arp_requests (s : NetworkService) (targets : list bytes) (our_mac our_ip : bytes)
    (out : list ServiceOutput) : exec (list ServiceOutput * NetworkService) :=
  match targets with
  | [] => Done (out, s)
  | t :: targets =>
      match build_arp_request_frame t our_mac our_ip with
      | Some f =>
          s ← record_tx s 0 (Z.of_nat (length f));
          send_arp_requests s targets our_mac our_ip (out ++ [SendFrame 0 f])
      | None => send_arp_requests s targets our_mac our_ip out
      end
  end.

Definition tick (s : NetworkService) (now : Z) : exec (list ServiceOutput * NetworkService) :=
  let now_secs := now / 1000 in
  let s := set_arp s (expire_stale (arp s) now_secs ARP_TIMEOUT_SECS) in
  '(out, s) ←
    match interfaces s with
    | i :: _ =>
        let '(targets, a) := due_retransmits (arp s) now_secs in
        send_arp_requests (set_arp s a) targets (if_mac i) (if_ip i) []
    | [] => Done ([], s)
    end;
  let '(outs, t) := Tcp.tick (tcp s) now in
  emit_tcp_outputs (set_tcp s t) outs 0 (first_mac s) out.

(** ** The socket path *)

Definition alloc_ephemeral_port (s : NetworkService) : Z * NetworkService :=
  let p := next_ephemeral_port s in
  (p, set_port s (if EPHEMERAL_PORT_END <=? p then EPHEMERAL_PORT_START else p + 1)).

(** [u16::try_from(handle.0).unwrap_or(0)]. *)
Definition handle_port (handle : Z) : Z := if handle <? 2 ^ 16 then handle else 0.
Definition listen_port (s : NetworkService) (handle : Z) : Z :=
  match (socket_state s !! handle : option TcpConnectionKey) with
  | Some (l, _) => sa_port l
  | None => handle_port handle
  end.

Definition alloc_handle (s : NetworkService) : exec (SocketResponse * NetworkService) :=
  n ← add_uint 64 (next_handle s) 1;
  Done (RespHandle (next_handle s), set_handles s n (socket_state s)).

(** The SYN of [Connect]: sent, or an ARP request for it. *)
Fixpoint send_syn (s : NetworkService) (outs : list TcpOutput) (our_mac local_ip : bytes) : exec NetworkService :=
  match outs with
  | [] => Done s
  | SendSegment seg dst_ip :: outs =>
      data ← wire seg;
      s ← match wrap_in_ethernet s dst_ip our_mac data with
          | (Some f, s) =>
              s ← record_tx s 0 (Z.of_nat (length f)); Done (set_pending_tx s (pending_tx s ++ [SendFrame 0 f]))
          | (None, s) =>
              match build_arp_request_frame dst_ip our_mac local_ip with
              | Some f =>
                  s ← record_tx s 0 (Z.of_nat (length f));
                  Done (set_pending_tx s (pending_tx s ++ [SendFrame 0 f]))
              | None => Done s
              end
          end;
      send_syn s outs our_mac local_ip
  | _ :: outs => send_syn s outs our_mac local_ip
  end.

(** The segments of [Send] and [Close] go to [pending_tx]. *)
Definition queue_outputs (s : NetworkService) (outs : list TcpOutput) : exec NetworkService :=
  '(o, s) ← emit_tcp_outputs s outs 0 (first_mac s) [];
  Done (set_pending_tx s (pending_tx s ++ o)).

Definition do_connect (s : NetworkService) (handle : Z) (addr : SocketApiAddr) :
    exec (SocketResponse * NetworkService) :=
  match pending_connect s with
  | Some _ => Done (RespError WouldBlock, s)
  | None =>
      let local_ip := first_ip s in
      let '(ephemeral, s) := alloc_ephemeral_port s in
      '(r, outs, t) ← connect (tcp s) (mkAddr local_ip ephemeral) addr;
      let s := set_tcp s t in
      match r with
      | Err e => Done (RespError e, s)
      | Ok key =>
          let s := set_handles s (next_handle s) (<[handle := key]> (socket_state s)) in
          let s := set_pending_connect s (Some (handle, key)) in
          s ← send_syn s outs (first_mac s) local_ip;
          Done (RespPending, s)
      end
  end.

Definition do_close (s : NetworkService) (handle : Z) : exec (SocketResponse * NetworkService) :=
  let s := set_options s (delete handle (socket_options_ s)) in
  match socket_state s !! handle with
  | Some key =>
      let s := set_handles s (next_handle s) (delete handle (socket_state s)) in
      let '(_, outs, t) := close (tcp s) key in
      s ← queue_outputs (set_tcp s t) outs;
      Done (RespOk 0, s)
  | None => Done (RespOk 0, set_udp s (udp_close (udp s) (handle_port handle)))
  end.

Definition handle_socket_request `{Lowercase} (s : NetworkService) (req : SocketRequest) :
    exec (SocketResponse * NetworkService) :=
  match req with
  | ReqSocket _ _ => alloc_handle s
  | ReqBind _ addr =>
      let '(r, u) := udp_bind (udp s) (sa_port addr) in
      Done (match r with Ok p => RespOk p | Err e => RespError e end, set_udp s u)
  | ReqListen handle backlog =>
      let '(r, t) := tcp_listen (tcp s) (listen_port s handle) backlog in
      Done (match r with Ok _ => RespOk 0 | Err e => RespError e end, set_tcp s t)
  | ReqAccept handle =>
      let '(r, t) := accept (tcp s) (listen_port s handle) in
      let s := set_tcp s t in
      match r with
      | Some _ => alloc_handle s
      | None => Done (RespError WouldBlock, s)
      end
  | ReqConnect handle addr => do_connect s handle addr
  | ReqSend handle data _ =>
      match socket_state s !! handle with
      | None => Done (RespError NotConnected, s)
      | Some key =>
          let '(r, outs, t) := send (tcp s) key data in
          let s := set_tcp s t in
          match r with
          | Ok n => s ← queue_outputs s outs; Done (RespOk n, s)
          | Err e => Done (RespError e, s)
          end
      end
  | ReqRecv handle max_len _ =>
      match socket_state s !! handle with
      | None => Done (RespError NotConnected, s)
      | Some key =>
          let '(r, t) := recv (tcp s) key (Z.to_nat max_len) in
          Done (match r with Ok d => RespData d | Err e => RespError e end, set_tcp s t)
      end
  | ReqSendTo handle data addr =>
      r ← sendto (udp s) (handle_port handle) addr (first_ip s) (sa_ip addr) data;
      Done (match r with Ok p => RespOk (Z.of_nat (length p)) | Err e => RespError e end, s)
  | ReqRecvFrom handle _ =>
      let '(r, u) := recvfrom (udp s) (handle_port handle) in
      Done (match r with Some (a, d) => RespDataFrom d a | None => RespError WouldBlock end, set_udp s u)
  | ReqClose handle => do_close s handle
  | ReqResolve hostname =>
      Done (match resolve_cached (dns s) hostname 0 with
            | None => RespError HostUnreachable
            | Some addrs => RespAddresses ((fun a => mkAddr a 0) <$> addrs)
            end, s)
  | ReqListSockets => Done (RespSocketList [], s)
  | ReqSetSockOpt handle opt =>
      Done (RespOk 0, set_options s (<[handle := apply_option (socket_options s handle) opt]> (socket_options_ s)))
  | ReqGetSockName _ | ReqGetPeerName _ | ReqShutdown _ _ => Done (RespOk 0, s)
  end.

(** ** Frames on the wire *)

Definition iface_ok (i : InterfaceConfig) : Prop := is_array 6 (if_mac i) /\ is_array 4 (if_ip i).

Lemma frame_bytes h payload :
  length (eth_dst h) = 6%nat -> length (eth_src h) = 6%nat ->
  ethernet_frame h payload = ethernet_bytes h ++ payload.
Proof.
  intros Hd Hs. unfold ethernet_frame, ethernet_serialize. apply (header_then_payload 14).
  unfold ethernet_bytes. by rewrite !length_app, Hd, Hs.
Qed.

Lemma frame_parse h payload :
  length (eth_dst h) = 6%nat -> length (eth_src h) = 6%nat ->
  ethernet_parse (ethernet_frame h payload) = Some (h, payload).
Proof. intros Hd Hs. rewrite frame_bytes by done. by apply ethernet_roundtrip. Qed.

Definition arp_packet_ok (p : ArpPacket) : Prop :=
  length (sender_mac p) = 6%nat /\ length (sender_ip p) = 4%nat /\
  length (target_mac p) = 6%nat /\ length (target_ip p) = 4%nat.

Lemma arp_serialized p : arp_packet_ok p -> serialized 28 (arp_serialize p) = arp_bytes p.
Proof.
  intros (H1 & H2 & H3 & H4). apply write_header_zero. unfold arp_bytes.
  rewrite !length_app, H1, H2, H3, H4. done.
Qed.

(** ** Counters *)

(** Every frame counter can be incremented [n] more times. *)
Definition room (s : NetworkService) (n : Z) : Prop :=
  Forall (fun c => rx_frames c + n < 2 ^ 64 /\ tx_frames c + n < 2 ^ 64) (counters_ s).

Lemma room_mono s m n : n <= m -> room s m -> room s n.
Proof. intros Hn Hr. eapply Forall_impl; [exact Hr|]. simpl. lia. Qed.

Lemma record_rx_room s idx len n :
  0 <= n -> room s (n + 1) -> exists c, record_rx s idx len = Done (set_counters s c) /\
    room (set_counters s c) n /\ length c = length (counters_ s).
Proof.
  intros Hn Hr. unfold record_rx. destruct (counters_ s !! idx) as [c|] eqn:E.
  - pose proof (Forall_lookup_1 _ _ _ _ Hr E) as Hc. cbn beta in Hc. rewrite add_uint_Done by lia. eexists. split; [done|].
    split; [|by rewrite length_insert]. unfold room in *. cbn. apply Forall_insert; [|simpl; lia].
    eapply Forall_impl; [exact Hr|]. simpl. lia.
  - exists (counters_ s). split; [by destruct s|]. split; [|done]. eapply Forall_impl; [exact Hr|]. simpl. lia.
Qed.

Lemma record_tx_room s idx len n :
  0 <= n -> room s (n + 1) -> exists c, record_tx s idx len = Done (set_counters s c) /\
    room (set_counters s c) n /\ length c = length (counters_ s).
Proof.
  intros Hn Hr. unfold record_tx. destruct (counters_ s !! idx) as [c|] eqn:E.
  - pose proof (Forall_lookup_1 _ _ _ _ Hr E) as Hc. cbn beta in Hc. rewrite add_uint_Done by lia. eexists. split; [done|].
    split; [|by rewrite length_insert]. unfold room in *. cbn. apply Forall_insert; [|simpl; lia].
    eapply Forall_impl; [exact Hr|]. simpl. lia.
  - exists (counters_ s). split; [by destruct s|]. split; [|done]. eapply Forall_impl; [exact Hr|]. simpl. lia.
Qed.

(** Sending to an address that is resolved. *)
Lemma transmit_resolved s idx dst mac our payload out n :
  0 <= n -> room s (n + 1) -> (resolve (arp s) dst (Some (mkPending payload dst))) = (Resolved mac, arp s) ->
  exists c, transmit s idx dst our payload out =
      Done (out ++ [SendFrame idx (ethernet_frame (mkEthernet mac our ETHERTYPE_IPV4) payload)], set_counters s c) /\
    room (set_counters s c) n /\ length c = length (counters_ s).
Proof.
  intros Hn Hr Ha. unfold transmit, wrap_in_ethernet. rewrite Ha.
  replace (set_arp s (arp s)) with s by (by destruct s).
  destruct (record_tx_room s idx (Z.of_nat (length (ethernet_frame (mkEthernet mac our ETHERTYPE_IPV4) payload))) n Hn Hr)
    as (c & Hc & Hrc & Hl).
  exists c. by rewrite Hc.
Qed.

(** ** Frames of each kind *)

Lemma handle_frame_arp s idx i eth p now n :
  0 <= n -> room s (n + 1) -> interfaces s !! idx = Some i -> arp_packet_ok p ->
  length (eth_dst eth) = 6%nat -> length (eth_src eth) = 6%nat -> ether_type eth = ETHERTYPE_ARP ->
  exists c, handle_frame s idx (arp_frame eth p) now = handle_arp (set_counters s c) idx p (if_mac i) (if_ip i) [] /\
    room (set_counters s c) n /\ length c = length (counters_ s).
Proof.
  intros Hn Hr Hi Hp Hd Hs Ht. unfold handle_frame.
  destruct (record_rx_room s idx (Z.of_nat (length (arp_frame eth p))) n Hn Hr) as (c & Hc & Hrc & Hl).
  exists c. rewrite Hc. cbn [mbind exec_bind]. unfold arp_frame. rewrite frame_parse by done.
  rewrite Ht, Z.eqb_refl. cbn [interfaces set_counters set_ifaces]. rewrite Hi, arp_serialized by done.
  destruct Hp as (H1 & H2 & H3 & H4). by rewrite arp_roundtrip.
Qed.

(** The header the receiver sees differs in its checksum only, which TCP does not look at. *)
Lemma handle_stamped t s c payload src dst now :
  handle_segment t (stamped (seg_header s) c) payload src dst now
  = handle_segment t (seg_header s) payload src dst now.
Proof. reflexivity. Qed.

Lemma handle_frame_tcp s idx i eth seg pkt now n :
  0 <= n -> room s (n + 1) -> interfaces s !! idx = Some i -> segment_ok seg -> wire seg = Done pkt ->
  length (eth_dst eth) = 6%nat -> length (eth_src eth) = 6%nat -> ether_type eth = ETHERTYPE_IPV4 ->
  exists c, handle_frame s idx (ethernet_frame eth pkt) now =
      (let '(outs, t) := handle_segment (tcp s) (seg_header seg) (s_payload seg) (s_src_ip seg) (s_dst_ip seg) now in
       emit_tcp_outputs (set_tcp (set_counters s c) t) outs idx (if_mac i) []) /\
    room (set_counters s c) n /\ length c = length (counters_ s).
Proof.
  intros Hn Hr Hi Hseg Hw Hd Hs Ht. unfold handle_frame.
  destruct (record_rx_room s idx (Z.of_nat (length (ethernet_frame eth pkt))) n Hn Hr) as (c & Hc & Hrc & Hl).
  exists c. rewrite Hc. cbn [mbind exec_bind]. rewrite frame_parse by done.
  rewrite Ht. change (ETHERTYPE_IPV4 =? ETHERTYPE_ARP) with false. rewrite Z.eqb_refl.
  destruct (wire_exact seg Hseg) as (pkt' & ih & tb & ck & Hw' & Hparse & Hsrc & Hdst & Hproto & Htcp & _).
  rewrite Hw in Hw'. injection Hw' as <-. rewrite Hparse. cbn [mbind exec_bind].
  unfold handle_ip. rewrite Hproto. change (PROTO_TCP =? PROTO_ICMP) with false.
  change (PROTO_TCP =? PROTO_UDP) with false. rewrite Z.eqb_refl, Htcp, Hsrc, Hdst, handle_stamped.
  cbn [tcp interfaces set_counters set_ifaces]. rewrite Hi. done.
Qed.

(** ** Connecting over a cold ARP cache *)

(** Learning a mapping hands over what waits for it, and resolves the address. *)
Lemma drain_insert t ip mac :
  exists a, drain_pending (arp_insert t ip mac 0) ip = (queue_of (make_room t ip) ip, a) /\
    forall p, resolve a ip p = (Resolved mac, a).
Proof.
  destruct (arp_insert_eq t ip mac 0) as [lr Heq]. unfold drain_pending. rewrite Heq, lookup_insert_eq.
  eexists. split.
  - f_equal. cbn [entry_state]. by destruct (queue_of (make_room t ip) ip).
  - intros p. unfold resolve. cbn [entries set_entries]. by rewrite lookup_insert_eq.
Qed.

Lemma learn_resolves t ip mac :
  entries t !! ip_key ip = None ->
  exists a, drain_pending (arp_insert t ip mac 0) ip = ([], a) /\ forall p, resolve a ip p = (Resolved mac, a).
Proof.
  intros Hn. destruct (drain_insert t ip mac) as (a & Hd & Hr). exists a. split; [|done]. rewrite Hd. f_equal.
  unfold queue_of. replace (entries (make_room t ip) !! ip_key ip) with (@None ArpEntry); [done|].
  unfold make_room. rewrite Hn. case_match; [|done]. unfold evict_oldest.
  destruct (oldest (entries t)) as [[k e]|]; [|done]. symmetry. apply lookup_delete_None. by right.
Qed.

(** The same while a packet waits for the answer. *)
Lemma reply_resolves t ip mac p :
  entries t !! ip_key ip = None ->
  exists t1 a, resolve t ip (Some p) = (Pending, t1) /\
    drain_pending (arp_insert t1 ip mac 0) ip = ([p], a) /\ forall q, resolve a ip q = (Resolved mac, a).
Proof.
  intros Hn. destruct (resolve t ip (Some p)) as [r t1] eqn:E. exists t1.
  destruct (drain_insert t1 ip mac) as (a & Hd & Hr). exists a. revert E. unfold resolve. rewrite Hn.
  intros [= <- Ht1]. split; [done|]. split; [|done]. rewrite Hd. f_equal. unfold queue_of, make_room.
  rewrite <- Ht1. cbn [entries set_entries]. rewrite lookup_insert_eq. cbn [entries set_entries].
  rewrite lookup_insert_eq. done.
Qed.

Section handshake.
Context (ia ib : InterfaceConfig) (Hia : iface_ok ia) (Hib : iface_ok ib).

Definition request_frame : bytes :=
  arp_frame (mkEthernet (replicate 6 255) (if_mac ia) ETHERTYPE_ARP) (build_request (if_mac ia) (if_ip ia) (if_ip ib)).
Definition reply_packet : ArpPacket := mkArp 1 2048 6 4 ARP_REPLY (if_mac ib) (if_ip ib) (if_mac ia) (if_ip ia).
Definition reply_frame : bytes := arp_frame (mkEthernet (if_mac ia) (if_mac ib) ETHERTYPE_ARP) reply_packet.
Definition frame_to_b (pkt : bytes) : bytes := ethernet_frame (mkEthernet (if_mac ib) (if_mac ia) ETHERTYPE_IPV4) pkt.
Definition frame_to_a (pkt : bytes) : bytes := ethernet_frame (mkEthernet (if_mac ia) (if_mac ib) ETHERTYPE_IPV4) pkt.

(** [Connect] holds the SYN back and asks for the address. *)
Lemma client_connects (a : NetworkService) handle port l r n :
  interfaces a = [ia] -> pending_connect a = None ->
  l = mkAddr (if_ip ia) (next_ephemeral_port a) -> r = mkAddr (if_ip ib) port ->
  addr_ok l -> addr_ok r -> in_uint 32 (next_isn_ (tcp a)) -> conn_get (tcp a) (l, r) = None ->
  entries (arp a) !! ip_key (if_ip ib) = None -> 0 <= n -> room a (n + 1) ->
  exists a1 data q, do_connect a handle r = Done (RespPending, a1) /\
    wire (syn_segment l r (next_isn_ (tcp a))) = Done data /\
    tcp a1 = conn_insert (next_isn (tcp a)).2 (l, r) (set_queue (new_syn_sent l r (next_isn_ (tcp a))) q) /\
    arp a1 = (resolve (arp a) (if_ip ib) (Some (mkPending data (if_ip ib)))).2 /\
    pending_tx a1 = pending_tx a ++ [SendFrame 0 request_frame] /\
    pending_connect a1 = Some (handle, (l, r)) /\ interfaces a1 = [ia] /\
    socket_state a1 = <[handle := (l, r)]> (socket_state a) /\ next_handle a1 = next_handle a /\ room a1 n.
Proof.
  intros Hi Hp -> Hr Hlok Hrok Hisn Hc Ha Hn Hroom. unfold do_connect, first_ip. rewrite Hp, Hi. cbn [alloc_ephemeral_port].
  set (l := mkAddr (if_ip ia) _) in *. assert (sa_ip r = if_ip ib) as Hrip by (by rewrite Hr). clear Hr.
  destruct (connect_exact (tcp a) l r Hlok Hrok Hisn Hc) as (data & Hw & Hconn).
  cbn [tcp set_port]. rewrite Hconn. cbn [mbind exec_bind send_syn]. rewrite Hw. cbn [mbind exec_bind].
  destruct (reply_resolves (arp a) (if_ip ib) [] (mkPending data (if_ip ib)) Ha) as (t1 & _ & Hres & _).
  unfold wrap_in_ethernet. cbn [arp set_pending_connect set_handles set_tcp set_port]. rewrite Hrip, Hres.
  unfold build_arp_request_frame, first_mac.
  cbn [interfaces set_arp set_pending_connect set_handles set_tcp set_port]. rewrite Hi. fold request_frame.
  match goal with |- context [record_tx ?s 0 ?len] => set (s1 := s) end.
  destruct (record_tx_room s1 0 (Z.of_nat (length request_frame)) n Hn Hroom) as (c & Hc1 & Hrc & _).
  rewrite Hc1. cbn [mbind exec_bind]. eexists _, data, _. split; [done|]. split; [done|].
  subst s1. rewrite Hres. repeat (split; [done|]). exact Hrc.
Qed.

(** The peer answers the request and knows the sender from then on. *)
Lemma server_answers_arp (b : NetworkService) now n :
  interfaces b = [ib] -> entries (arp b) !! ip_key (if_ip ia) = None -> 0 <= n -> room b (n + 2) ->
  exists c t, handle_frame b 0 request_frame now = Done ([SendFrame 0 reply_frame], set_counters (set_arp b t) c) /\
    (forall p, resolve t (if_ip ia) p = (Resolved (if_mac ia), t)) /\ room (set_counters (set_arp b t) c) n.
Proof.
  intros Hi Ha Hn Hr. destruct Hia as [[Hma _] [Hipa _]], Hib as [[Hmb _] [Hipb _]].
  replace (n + 2) with (n + 1 + 1) in Hr by lia.
  destruct (handle_frame_arp b 0 ib (mkEthernet (replicate 6 255) (if_mac ia) ETHERTYPE_ARP)
    (build_request (if_mac ia) (if_ip ia) (if_ip ib)) now (n + 1)) as (c & Hf & Hrc & _);
    [lia|done|by rewrite Hi|done|done|done|done|].
  unfold request_frame. rewrite Hf. unfold handle_arp, handle_arp_packet. cbn [build_request htype ptype operation].
  cbn [negb orb Z.eqb Pos.eqb ARP_REQUEST target_ip sender_ip sender_mac arp set_counters set_ifaces].
  rewrite bool_decide_eq_true_2 by done. cbn [negb].
  destruct (learn_resolves (arp b) (if_ip ia) (if_mac ia) Ha) as (t & Hdr & Hres).
  match goal with |- context [record_tx ?s 0 ?len] => destruct (record_tx_room s 0 len n Hn Hrc) as (c2 & Hc2 & Hrc2 & _) end.
  rewrite Hc2. cbn [mbind exec_bind arp set_counters set_ifaces set_arp build_request sender_ip sender_mac]. rewrite Hdr. cbn [send_waiting].
  exists c2, t. split; [done|]. done.
Qed.
(** The reply releases the packet that waited. *)
Lemma client_learns (a : NetworkService) t0 data now n :
  interfaces a = [ia] -> entries t0 !! ip_key (if_ip ib) = None ->
  arp a = (resolve t0 (if_ip ib) (Some (mkPending data (if_ip ib)))).2 -> 0 <= n -> room a (n + 2) ->
  exists c t, handle_frame a 0 reply_frame now = Done ([SendFrame 0 (frame_to_b data)], set_counters (set_arp a t) c) /\
    (forall p, resolve t (if_ip ib) p = (Resolved (if_mac ib), t)) /\ room (set_counters (set_arp a t) c) n.
Proof.
  intros Hi Ha Harp Hn Hr. destruct Hia as [[Hma _] [Hipa _]], Hib as [[Hmb _] [Hipb _]].
  replace (n + 2) with (n + 1 + 1) in Hr by lia.
  destruct (handle_frame_arp a 0 ia (mkEthernet (if_mac ia) (if_mac ib) ETHERTYPE_ARP) reply_packet now (n + 1))
    as (c & Hf & Hrc & _); [lia|done|by rewrite Hi|done|done|done|done|].
  unfold reply_frame. rewrite Hf. unfold handle_arp, handle_arp_packet.
  cbn [reply_packet htype ptype operation negb orb Z.eqb Pos.eqb ARP_REPLY ARP_REQUEST sender_ip sender_mac arp
       set_counters set_ifaces set_arp].
  destruct (reply_resolves t0 (if_ip ib) (if_mac ib) (mkPending data (if_ip ib)) Ha) as (t1 & t & Hres & Hdr & Hok).
  rewrite Harp, Hres. cbn [snd]. rewrite Hdr. cbn [send_waiting next_hop_ip pp_data].
  match goal with |- context [transmit ?s 0 _ _ _ _] =>
    destruct (transmit_resolved s 0 (if_ip ib) (if_mac ib) (if_mac ia) data [] n Hn Hrc (Hok _)) as (c2 & Hc2 & Hrc2 & _) end.
  rewrite Hc2. exists c2, t. split; [done|]. done.
Qed.

Context (l r : SocketApiAddr) (Hlip : sa_ip l = if_ip ia) (Hrip : sa_ip r = if_ip ib).
Context (Hl : addr_ok l) (Hr : addr_ok r).

Lemma syn_ack_ok isn peer : in_uint 32 isn -> segment_ok (syn_ack_segment r l isn peer).
Proof.
  intros Hi. pose proof (wrap_u32 peer 1). destruct Hl, Hr. unfold segment_ok. simpl.
  repeat (split; [done || (unfold in_uint, SYN, ACK; simpl; lia) ||
    (repeat (constructor; [unfold is_byte; lia|]); apply be16_bytes; unfold in_uint, DEFAULT_MSS; lia)|]).
  split; [constructor|]. split; [done|]. lia.
Qed.

Lemma final_ack_ok x y : in_uint 32 x -> in_uint 32 y -> segment_ok (final_ack l r x y).
Proof.
  intros Hx Hy. destruct Hl, Hr. unfold segment_ok. simpl.
  repeat (split; [done || (unfold in_uint, ACK; simpl; lia) || constructor|]). lia.
Qed.

(** The listener answers the SYN. *)
Lemma server_opens (b : NetworkService) isn data max now n :
  interfaces b = [ib] -> wire (syn_segment l r isn) = Done data -> in_uint 32 isn -> in_uint 32 (next_isn_ (tcp b)) ->
  conn_get (tcp b) (r, l) = None -> listeners (tcp b) !! sa_port r = Some (mkListen [] max) -> 0 < max ->
  (forall p, resolve (arp b) (if_ip ia) p = (Resolved (if_mac ia), arp b)) -> 0 <= n -> room b (n + 2) ->
  exists c pkt, handle_frame b 0 (frame_to_b data) now =
      Done ([SendFrame 0 (frame_to_a pkt)],
            set_counters (set_tcp b (conn_insert (next_isn (with_now (tcp b) now)).2 (r, l)
              (new_syn_received r l isn (next_isn_ (tcp b))))) c) /\
    wire (syn_ack_segment r l (next_isn_ (tcp b)) isn) = Done pkt /\
    room (set_counters b c) n.
Proof.
  intros Hi Hw Hisn Hbisn Hc Hlis Hmax Hres Hn Hroom. replace (n + 2) with (n + 1 + 1) in Hroom by lia.
  pose proof Hia as [[Hma _] _]. pose proof Hib as [[Hmb _] _].
  destruct (handle_frame_tcp b 0 ib (mkEthernet (if_mac ib) (if_mac ia) ETHERTYPE_IPV4) (syn_segment l r isn) data now (n + 1))
    as (c & Hf & Hrc & _); [lia|done|by rewrite Hi|by apply syn_segment_ok|done|done|done|done|].
  unfold frame_to_b. rewrite Hf. cbn [s_payload s_src_ip s_dst_ip syn_segment].
  change (seg_header (mkSegment _ _ _ _ _ _ _ _ _ _)) with (seg_header (syn_segment l r isn)).
  rewrite (passive_open_exact _ _ _ _ _ _ Hc Hlis Hmax).
  destruct (wire_exact _ (syn_ack_ok (next_isn_ (tcp b)) isn Hbisn)) as (pkt & _ & _ & _ & Hw2 & _).
  cbn [emit_tcp_outputs emit_one]. rewrite Hw2. cbn [mbind exec_bind]. rewrite Hlip.
  match goal with |- context [transmit ?s 0 _ _ _ _] =>
    destruct (transmit_resolved s 0 (if_ip ia) (if_mac ia) (if_mac ib) pkt [] n Hn Hrc (Hres _)) as (c2 & Hc2 & Hrc2 & _) end.
  rewrite Hc2. exists c2, pkt. split; [done|]. split; [done|]. exact Hrc2.
Qed.

(** The SYN-ACK completes the deferred [Connect]. *)
Lemma client_establishes (a : NetworkService) handle ic sv q pkt now n :
  interfaces a = [ia] -> wire (syn_ack_segment r l sv ic) = Done pkt -> in_uint 32 sv ->
  conn_get (tcp a) (l, r) = Some (set_queue (new_syn_sent l r ic) q) ->
  pending_connect a = Some (handle, (l, r)) ->
  (forall p, resolve (arp a) (if_ip ib) p = (Resolved (if_mac ib), arp a)) -> 0 <= n -> room a (n + 2) ->
  exists c ack, handle_frame a 0 (frame_to_a pkt) now =
      Done ([SendFrame 0 (frame_to_b ack); OutResponse (RespOk 0)],
            set_pending_connect (set_counters (set_tcp a (conn_insert (with_now (tcp a) now) (l, r)
              (established_block l r ic sv))) c) None) /\
    wire (final_ack l r (wrapping_add 32 ic 1) (wrapping_add 32 sv 1)) = Done ack /\
    room (set_counters a c) n.
Proof.
  intros Hi Hw Hsv Hc Hp Hres Hn Hroom. replace (n + 2) with (n + 1 + 1) in Hroom by lia.
  pose proof Hia as [[Hma _] _]. pose proof Hib as [[Hmb _] _].
  destruct (handle_frame_tcp a 0 ia (mkEthernet (if_mac ia) (if_mac ib) ETHERTYPE_IPV4) (syn_ack_segment r l sv ic) pkt now (n + 1))
    as (c & Hf & Hrc & _); [lia|done|by rewrite Hi|by apply syn_ack_ok|done|done|done|done|].
  unfold frame_to_a. rewrite Hf. cbn [s_payload s_src_ip s_dst_ip syn_ack_segment].
  change (seg_header (mkSegment _ _ _ _ _ _ _ _ _ _)) with (seg_header (syn_ack_segment r l sv ic)).
  rewrite (syn_ack_received _ _ _ _ _ _ _ Hc).
  destruct (wire_exact _ (final_ack_ok _ _ (wrap_u32 ic 1) (wrap_u32 sv 1))) as (ack & _ & _ & _ & Hw2 & _).
  cbn [emit_tcp_outputs emit_one]. rewrite Hw2. cbn [mbind exec_bind]. rewrite Hrip.
  match goal with |- context [transmit ?s 0 _ _ _ _] =>
    destruct (transmit_resolved s 0 (if_ip ib) (if_mac ib) (if_mac ia) ack [] n Hn Hrc (Hres _)) as (c2 & Hc2 & Hrc2 & _) end.
  rewrite Hc2. cbn [mbind exec_bind]. unfold answer_connect, resolve_pending_connect.
  cbn [pending_connect set_counters set_ifaces set_tcp]. rewrite Hp, bool_decide_eq_true_2 by done.
  exists c2, ack. split; [done|]. split; [done|]. exact Hrc2.
Qed.

(** The final acknowledgement puts the connection into the backlog. *)
Lemma server_establishes (b : NetworkService) ic sv max ack now n :
  interfaces b = [ib] -> wire (final_ack l r (wrapping_add 32 ic 1) (wrapping_add 32 sv 1)) = Done ack ->
  conn_get (tcp b) (r, l) = Some (new_syn_received r l ic sv) ->
  listeners (tcp b) !! sa_port r = Some (mkListen [] max) -> pending_connect b = None -> 0 <= n -> room b (n + 1) ->
  exists c, handle_frame b 0 (frame_to_b ack) now =
    Done ([], set_counters (set_tcp b (with_listeners (conn_remove (with_now (tcp b) now) (r, l))
      (<[sa_port r := mkListen [established_block r l sv ic] max]> (listeners (tcp b))))) c).
Proof.
  intros Hi Hw Hc Hlis Hp Hn Hroom. pose proof Hia as [[Hma _] _]. pose proof Hib as [[Hmb _] _].
  destruct (handle_frame_tcp b 0 ib (mkEthernet (if_mac ib) (if_mac ia) ETHERTYPE_IPV4)
    (final_ack l r (wrapping_add 32 ic 1) (wrapping_add 32 sv 1)) ack now n)
    as (c & Hf & _); [done|done|by rewrite Hi|by apply final_ack_ok; apply wrap_u32|done|done|done|done|].
  unfold frame_to_b. rewrite Hf. cbn [s_payload s_src_ip s_dst_ip final_ack build_tcp_segment].
  change (seg_header (mkSegment _ _ _ _ _ _ _ _ _ _))
    with (seg_header (final_ack l r (wrapping_add 32 ic 1) (wrapping_add 32 sv 1))).
  rewrite (final_ack_received _ _ _ _ _ _ _ Hc Hlis). exists c.
  cbn [emit_tcp_outputs emit_one mbind exec_bind]. unfold answer_connect, resolve_pending_connect.
  cbn [pending_connect set_counters set_ifaces set_tcp]. rewrite Hp. done.
Qed.
End handshake.

Lemma accept_handle `{Lowercase} (b : NetworkService) port tcb q max :
  in_uint 16 port -> socket_state b !! port = None ->
  listeners (tcp b) !! port = Some (mkListen (tcb :: q) max) -> next_handle b + 1 < 2 ^ 64 ->
  handle_socket_request b (ReqAccept port) = Done (RespHandle (next_handle b),
    set_handles (set_tcp b (conn_insert (with_listeners (tcp b) (<[port := mkListen q max]> (listeners (tcp b))))
      (local tcb, remote tcb) tcb)) (next_handle b + 1) (socket_state b)).
Proof.
  intros Hp Hs Hl Hh. cbn [handle_socket_request]. unfold listen_port, accept, alloc_handle, handle_port. rewrite Hs.
  rewrite (proj2 (Z.ltb_lt port (2 ^ 16))) by (unfold in_uint in Hp; lia). rewrite Hl.
  cbn [next_handle set_tcp]. by rewrite add_uint_Done.
Qed.

(** C15. Two services on one link, with nothing resolved yet, connect through the whole stack: the
    client's [Connect] is held back while it asks for the hardware address, the ARP reply releases
    the SYN, and after the three handshake segments, each in its Ethernet and IP envelope, the
    deferred [Connect] is answered with [Ok] exactly then, the peer's [Accept] returns a handle, and
    the two control blocks are in the state from which the stream theorems start.  The accepted
    handle, however, is bound to no connection: [Send] and [Recv] on it fail. *)
Theorem service_connects `{Lowercase} (a b : NetworkService) (ia ib : InterfaceConfig)
    (handle port max t1 t2 t3 t4 t5 : Z) :
  iface_ok ia -> iface_ok ib -> interfaces a = [ia] -> interfaces b = [ib] ->
  pending_connect a = None -> pending_connect b = None -> in_uint 16 port ->
  EPHEMERAL_PORT_START <= next_ephemeral_port a <= EPHEMERAL_PORT_END ->
  in_uint 32 (next_isn_ (tcp a)) -> in_uint 32 (next_isn_ (tcp b)) ->
  let l := mkAddr (if_ip ia) (next_ephemeral_port a) in
  let r := mkAddr (if_ip ib) port in
  conn_get (tcp a) (l, r) = None -> conn_get (tcp b) (r, l) = None ->
  listeners (tcp b) !! port = Some (mkListen [] max) -> 0 < max ->
  entries (arp a) !! ip_key (if_ip ib) = None -> entries (arp b) !! ip_key (if_ip ia) = None ->
  room a 5 -> room b 5 -> socket_state b !! port = None -> socket_state b !! next_handle b = None ->
  next_handle b + 1 < 2 ^ 64 ->
  exists a1 a2 a3 b1 b2 b3 b4 f1 f2 f3 f4 f5 c s,
    handle_socket_request a (ReqConnect handle r) = Done (RespPending, a1) /\
    (take_pending_tx a1).1 = pending_tx a ++ [SendFrame 0 f1] /\
    handle_frame b 0 f1 t1 = Done ([SendFrame 0 f2], b1) /\
    handle_frame (take_pending_tx a1).2 0 f2 t2 = Done ([SendFrame 0 f3], a2) /\
    handle_frame b1 0 f3 t3 = Done ([SendFrame 0 f4], b2) /\
    handle_frame a2 0 f4 t4 = Done ([SendFrame 0 f5; OutResponse (RespOk 0)], a3) /\
    handle_frame b2 0 f5 t5 = Done ([], b3) /\
    handle_socket_request b3 (ReqAccept port) = Done (RespHandle (next_handle b), b4) /\
    socket_state a3 !! handle = Some (l, r) /\ pending_connect a3 = None /\
    conn_get (tcp a3) (l, r) = Some c /\ conn_get (tcp b4) (r, l) = Some s /\ fresh c s /\ fresh s c /\
    forall data fl n, handle_socket_request b4 (ReqSend (next_handle b) data fl) = Done (RespError NotConnected, b4) /\
      handle_socket_request b4 (ReqRecv (next_handle b) n fl) = Done (RespError NotConnected, b4).
Proof.
  intros Hia Hib Hi Hj Hpa Hpb Hport Heph Hisa Hisb l r Hca Hcb Hlis Hmax Haa Hab Hra Hrb Hsp Hsh Hh.
  assert (addr_ok l) as Hl by (split; [apply Hia|]; unfold in_uint, EPHEMERAL_PORT_START, EPHEMERAL_PORT_END in *; simpl; lia).
  assert (addr_ok r) as Hr by (split; [apply Hib|done]).
  destruct (client_connects ia ib a handle port l r 4) as
    (a1 & data & q & Hreq & Hsyn & Htcp & Harp & Htx & Hpc & Hia1 & Hst & Hnh & Hroom1); try done.
  destruct (server_answers_arp ia ib Hia Hib b t1 3) as (cb1 & tb & Hb1 & Hresb & Hroomb1); try done.
  destruct (client_learns ia ib Hia Hib (set_pending_tx a1 []) (arp a) data t2 2) as (ca2 & ta & Ha2 & Hresa & Hrooma2); try done.
  destruct (server_opens ia ib Hia Hib l r eq_refl Hl Hr (set_counters (set_arp b tb) cb1) _ _ max t3 1
    Hj Hsyn Hisa Hisb Hcb Hlis Hmax Hresb)
    as (cb2 & pkt & Hb2 & Hsa & Hroomb2); [done|exact Hroomb1|].
  destruct (client_establishes ia ib Hia Hib l r eq_refl Hl Hr (set_counters (set_arp (set_pending_tx a1 []) ta) ca2)
    handle (next_isn_ (tcp a)) (next_isn_ (tcp b)) q pkt t4 0) as (ca3 & ack & Ha3 & Hack & _); try done.
  { cbn [tcp set_counters set_ifaces set_arp set_pending_tx]. rewrite Htcp. apply conn_get_insert. }
  destruct (server_establishes ia ib Hia Hib l r Hl Hr
    (set_counters (set_tcp (set_counters (set_arp b tb) cb1) (conn_insert (next_isn (with_now (tcp b) t3)).2 (r, l)
       (new_syn_received r l (next_isn_ (tcp a)) (next_isn_ (tcp b))))) cb2)
    (next_isn_ (tcp a)) (next_isn_ (tcp b)) max ack t5 0) as (cb3 & Hb3); try done; [apply conn_get_insert|].
  match type of Hb3 with _ = Done (_, ?x) => pose (b3 := x) end.
  eexists a1, _, _, _, _, b3, _, _, _, _, _, _, _, (established_block r l (next_isn_ (tcp b)) (next_isn_ (tcp a))).
  split; [exact Hreq|]. split; [exact Htx|]. split; [exact Hb1|]. split; [exact Ha2|]. split; [exact Hb2|].
  split; [exact Ha3|]. split; [exact Hb3|].
  split; [apply (accept_handle b3); [done|exact Hsp|apply lookup_insert_eq|exact Hh]|].
  split; [change (socket_state a1 !! handle = Some (l, r)); by rewrite Hst, lookup_insert_eq|]. split; [done|].
  split; [apply conn_get_insert|]. split; [apply conn_get_insert|].
  split; [apply established_fresh|]. split; [apply established_fresh|].
  intros d fl n. cbn [handle_socket_request]. unfold b3. cbn [socket_state set_handles set_tcp set_counters set_ifaces set_arp].
  by rewrite Hsh.
Qed.

(** ** Deferred replies *)

Inductive SvcEvent :=
| EvInterface (c : InterfaceConfig)
| EvFrame (idx : nat) (frame : bytes) (now : Z)
| EvTick (now : Z)
| EvRequest (req : SocketRequest)
| EvDrain.

Section accounting.
Context `{Lowercase}.

(** One call of the event loop: the immediate responses, the outputs and the new state. *)
Definition svc_step (s : NetworkService) (ev : SvcEvent) :
    exec (list SocketResponse * list ServiceOutput * NetworkService) :=
  match ev with
  | EvInterface c => Done ([], [], add_interface s c)
  | EvFrame idx frame now => '(o, s) ← handle_frame s idx frame now; Done ([], o, s)
  | EvTick now => '(o, s) ← tick s now; Done ([], o, s)
  | EvRequest req => '(r, s) ← handle_socket_request s req; Done ([r], [], s)
  | EvDrain => let '(o, s) := take_pending_tx s in Done ([], o, s)
  end.

Fixpoint svc_run (s : NetworkService) (evs : list SvcEvent) :
    exec (list SocketResponse * list ServiceOutput * NetworkService) :=
  match evs with
  | [] => Done ([], [], s)
  | ev :: evs =>
      '(r, o, s) ← svc_step s ev;
      '(rs, os, s) ← svc_run s evs;
      Done (r ++ rs, o ++ os, s)
  end.

Definition deferred (rs : list SocketResponse) : nat :=
  length (List.filter (fun r => match r with RespPending => true | _ => false end) rs).
Definition delivered (os : list ServiceOutput) : nat :=
  length (List.filter (fun o => match o with OutResponse _ => true | _ => false end) os).
Definition waiting (s : NetworkService) : nat := match pending_connect s with Some _ => 1 | None => 0 end.
(** The replies still owed: queued for the event loop, or waiting for the handshake. *)
Definition owed (s : NetworkService) : nat := (delivered (pending_tx s) + waiting s)%nat.

Lemma delivered_app a b : delivered (a ++ b) = (delivered a + delivered b)%nat.
Proof. unfold delivered. by rewrite List.filter_app, length_app. Qed.
Lemma deferred_app a b : deferred (a ++ b) = (deferred a + deferred b)%nat.
Proof. unfold deferred. by rewrite List.filter_app, length_app. Qed.

(** What a frame-sending step keeps: replies delivered and owed, and the queue of the socket path. *)
Definition keeps (s : NetworkService) (out : list ServiceOutput) (s' : NetworkService) (out' : list ServiceOutput) : Prop :=
  (delivered out' + waiting s' = delivered out + waiting s)%nat /\ pending_tx s' = pending_tx s.

Lemma keeps_refl s out : keeps s out s out.
Proof. done. Qed.
Lemma keeps_trans s1 o1 s2 o2 s3 o3 : keeps s1 o1 s2 o2 -> keeps s2 o2 s3 o3 -> keeps s1 o1 s3 o3.
Proof. intros [? ?] [? ?]. split; [lia|congruence]. Qed.

Lemma record_tx_keeps s idx len s' : record_tx s idx len = Done s' -> waiting s' = waiting s /\ pending_tx s' = pending_tx s.
Proof.
  unfold record_tx. destruct (counters_ s !! idx); [|by intros [= <-]].
  intros (f & _ & [= <-])%bind_Done. done.
Qed.

Lemma transmit_keeps s idx dst mac p out out' s' : transmit s idx dst mac p out = Done (out', s') -> keeps s out s' out'.
Proof.
  unfold transmit, wrap_in_ethernet. destruct (resolve (arp s) dst _) as [[m|] a].
  - intros (s1 & (Hw & Ht)%record_tx_keeps & [= <- <-])%bind_Done. split; [|done].
    rewrite delivered_app, Hw. unfold delivered, waiting. simpl. lia.
  - by intros [= <- <-].
Qed.

Lemma answer_keeps s key r out out' s' : answer_connect s key r out = (out', s') -> keeps s out s' out'.
Proof.
  unfold answer_connect, resolve_pending_connect. destruct (pending_connect s) as [[h k]|] eqn:E.
  - case_bool_decide; intros [= <- <-]; (split; [|done]); rewrite delivered_app; unfold waiting; simpl; rewrite ?E;
      unfold delivered; simpl; lia.
  - intros [= <- <-]. split; [|done]. rewrite delivered_app. unfold delivered. simpl. lia.
Qed.

Lemma emit_keeps s outs idx mac out out' s' : emit_tcp_outputs s outs idx mac out = Done (out', s') -> keeps s out s' out'.
Proof.
  revert s out. induction outs as [|o outs IH]; intros s out; cbn [emit_tcp_outputs]; [by intros [= <- <-]|].
  intros ([o1 s1] & H1 & H2%IH)%bind_Done. eapply keeps_trans; [|exact H2]. destruct o; cbn [emit_one] in H1.
  - apply bind_Done in H1 as (data & _ & H1). by apply transmit_keeps in H1.
  - injection H1 as H1. by apply answer_keeps in H1.
  - by injection H1 as <- <-.
  - injection H1 as H1. by apply answer_keeps in H1.
  - injection H1 as H1. by apply answer_keeps in H1.
Qed.

Lemma send_waiting_keeps s idx mac ps out out' s' : send_waiting s idx mac ps out = Done (out', s') -> keeps s out s' out'.
Proof.
  revert s out. induction ps as [|p ps IH]; intros s out; cbn [send_waiting]; [by intros [= <- <-]|].
  intros ([o1 s1] & H1%transmit_keeps & H2%IH)%bind_Done. by eapply keeps_trans.
Qed.
Lemma handle_arp_keeps s idx pkt mac ip out out' s' : handle_arp s idx pkt mac ip out = Done (out', s') -> keeps s out s' out'.
Proof.
  unfold handle_arp. destruct (handle_arp_packet (arp s) pkt mac ip) as [[reply| |] a].
  - intros (s1 & (Hw & Ht)%record_tx_keeps & Hs)%bind_Done. destruct (drain_pending (arp s1) (sender_ip pkt)) as [ps a1].
    apply send_waiting_keeps in Hs as [Hd Hp]. change (waiting (set_arp s1 a1)) with (waiting s1) in Hd. split.
    + rewrite Hd, delivered_app, Hw. unfold delivered, waiting. simpl. lia.
    + by rewrite Hp.
  - cbn [arp set_arp]. destruct (drain_pending a (sender_ip pkt)) as [ps a1]. by intros Hs%send_waiting_keeps.
  - by intros [= <- <-].
Qed.

Lemma handle_ip_keeps s idx h payload mac ip now out s' :
  handle_ip s idx h payload mac ip now = Done (out, s') -> keeps s [] s' out.
Proof.
  unfold handle_ip. destruct (_ =? _).
  { destruct (icmp_parse payload) as [[ih ip']|]; [|by intros [= <- <-]].
    intros ([r i] & _ & Hr)%bind_Done. destruct r; try by injection Hr as <- <-.
    apply bind_Done in Hr as (pkt & _ & Hr%transmit_keeps). done. }
  destruct (_ =? _).
  { destruct (udp_parse payload) as [[uh up]|]; by intros [= <- <-]. }
  destruct (_ =? _); [|by intros [= <- <-]].
  destruct (tcp_parse payload) as [[th tp]|]; [|by intros [= <- <-]].
  destruct (handle_segment _ _ _ _ _ _) as [outs t]. by intros Hs%emit_keeps.
Qed.

Lemma handle_frame_keeps s idx frame now out s' : handle_frame s idx frame now = Done (out, s') -> keeps s [] s' out.
Proof.
  unfold handle_frame. intros (s1 & Hrx & Hf)%bind_Done.
  assert (waiting s1 = waiting s /\ pending_tx s1 = pending_tx s) as [Hw Ht].
  { revert Hrx. unfold record_rx. destruct (counters_ s !! idx); [|by intros [= <-]].
    by intros (f & _ & [= <-])%bind_Done. }
  cut (keeps s1 [] s' out); [intros [? ?]; split; [lia|congruence]|].
  destruct (ethernet_parse frame) as [[eth p]|]; [|by injection Hf as <- <-].
  destruct (ether_type eth =? ETHERTYPE_ARP).
  { destruct (arp_parse p); [by apply handle_arp_keeps in Hf|by injection Hf as <- <-]. }
  destruct (ether_type eth =? ETHERTYPE_IPV4); [|by injection Hf as <- <-].
  apply bind_Done in Hf as ([[h ip]|] & _ & Hf); [by apply handle_ip_keeps in Hf|by injection Hf as <- <-].
Qed.

Lemma arp_requests_keeps s ts mac ip out out' s' :
  send_arp_requests s ts mac ip out = Done (out', s') -> keeps s out s' out'.
Proof.
  revert s out. induction ts as [|t ts IH]; intros s out; cbn [send_arp_requests]; [by intros [= <- <-]|].
  intros (s1 & (Hw & Ht)%record_tx_keeps & [Hd Hp]%IH)%bind_Done. split; [|congruence].
  rewrite Hd, delivered_app, Hw. unfold delivered. simpl. lia.
Qed.

Lemma tick_keeps s now out s' : tick s now = Done (out, s') -> keeps s [] s' out.
Proof.
  unfold tick. intros ([o1 s1] & H1 & H2)%bind_Done. destruct (Tcp.tick (tcp s1) now) as [outs t].
  apply emit_keeps in H2 as [Hd Hp]. cut (keeps s [] s1 o1).
  { intros [? ?]. split; [|by rewrite Hp]. rewrite Hd. done. }
  cbn [interfaces set_arp arp] in H1. destruct (interfaces s) as [|i rest]; [by injection H1 as <- <-|].
  destruct (due_retransmits _ _) as [ts a]. by apply arp_requests_keeps in H1.
Qed.

(** The requests: what a request adds to what is owed is one for [Pending]. *)
Lemma send_syn_keeps s outs mac ip s' : send_syn s outs mac ip = Done s' -> owed s' = owed s.
Proof.
  revert s. induction outs as [|o outs IH]; intros s; cbn [send_syn]; [by intros [= <-]|].
  destruct o; try apply IH. intros (data & _ & Hs)%bind_Done. apply bind_Done in Hs as (s1 & H1 & H2%IH). rewrite H2.
  assert (forall s2 f, (s3 ← record_tx s2 0 (Z.of_nat (length f)); Done (set_pending_tx s3 (pending_tx s3 ++ [SendFrame 0 f])))
            = Done s1 -> owed s1 = owed s2) as Hq.
  { intros s2 f (s3 & (Hw & Ht)%record_tx_keeps & [= <-])%bind_Done. unfold owed, waiting in *. simpl.
    rewrite delivered_app, Ht, Hw. unfold delivered. simpl. lia. }
  revert H1. unfold wrap_in_ethernet. destruct (resolve (arp s) dst_ip _) as [[m|] a]; by intros H1%Hq.
Qed.

Lemma queue_keeps s outs s' : queue_outputs s outs = Done s' -> owed s' = owed s.
Proof.
  unfold queue_outputs. intros ([o s1] & [Hd Hp]%emit_keeps & [= <-])%bind_Done. unfold owed, waiting in *. simpl.
  rewrite delivered_app, Hp. unfold delivered at 2 in Hd. simpl in Hd. lia.
Qed.

Ltac acct := unfold owed, waiting, deferred; simpl; lia.

Lemma request_keeps s req r s' :
  handle_socket_request s req = Done (r, s') -> owed s' = (owed s + deferred [r])%nat.
Proof.
  assert (forall x, (forall n, alloc_handle x = Done (r, n) -> owed n = (owed x + deferred [r])%nat)) as Hah.
  { intros x n. unfold alloc_handle. intros (k & _ & [= <- <-])%bind_Done. acct. }
  destruct req; cbn [handle_socket_request]; try (by intros [= <- <-]; acct).
  - by intros ?%Hah.
  - destruct (udp_bind _ _) as [[p|e] u]; intros [= <- <-]; acct.
  - destruct (tcp_listen _ _ _) as [[p|e] u]; intros [= <- <-]; acct.
  - destruct (accept _ _) as [[k|] t]; [by intros ?%Hah|]. intros [= <- <-]. acct.
  - unfold do_connect. destruct (pending_connect s) eqn:Hp; [intros [= <- <-]; acct|].
    cbn [alloc_ephemeral_port]. intros ([[rr outs] t] & _ & Hc)%bind_Done. destruct rr as [key|e].
    + apply bind_Done in Hc as (s1 & Hs%send_syn_keeps & [= <- <-]). rewrite Hs. unfold owed, waiting. simpl. rewrite Hp. acct.
    + injection Hc as <- <-. acct.
  - destruct (socket_state s !! handle) as [k|]; [|intros [= <- <-]; acct].
    destruct (send _ _ _) as [[[n|e] outs] t]; [|intros [= <- <-]; acct].
    intros (s1 & Hs%queue_keeps & [= <- <-])%bind_Done. rewrite Hs. acct.
  - destruct (socket_state s !! handle) as [k|]; [|intros [= <- <-]; acct].
    destruct (recv _ _ _) as [[d|e] t]; intros [= <- <-]; acct.
  - intros ([p|e] & _ & [= <- <-])%bind_Done; acct.
  - destruct (recvfrom _ _) as [[[ad d]|] u]; intros [= <- <-]; acct.
  - unfold do_close. cbn [socket_state set_options]. destruct (socket_state s !! handle) as [k|];
      [|intros [= <- <-]; acct].
    destruct (close _ _) as [[rr outs] t]. intros (s1 & Hs%queue_keeps & [= <- <-])%bind_Done. rewrite Hs.
    acct.
  - destruct (resolve_cached _ _ _); intros [= <- <-]; acct.
Qed.

Lemma step_keeps s ev rs os s' :
  svc_step s ev = Done (rs, os, s') -> (delivered os + owed s' = owed s + deferred rs)%nat.
Proof.
  destruct ev; cbn [svc_step].
  - intros [= <- <- <-]. unfold owed, waiting. simpl. unfold delivered, deferred. simpl. lia.
  - intros ([o s1] & [Hd Hp]%handle_frame_keeps & [= <- <- <-])%bind_Done. unfold owed. rewrite Hp.
    unfold deferred. simpl. change (delivered []) with 0%nat in Hd. lia.
  - intros ([o s1] & [Hd Hp]%tick_keeps & [= <- <- <-])%bind_Done. unfold owed. rewrite Hp.
    unfold deferred. simpl. change (delivered []) with 0%nat in Hd. lia.
  - intros ([r s1] & Hr%request_keeps & [= <- <- <-])%bind_Done. rewrite Hr. done.
  - intros [= <- <- <-]. unfold owed, deferred, waiting. simpl. lia.
Qed.

(** The deferred replies of [Connect] balance: over any run of the service, every [Pending]
    answer is matched by at most one reply delivered later, no reply is delivered that nobody
    waits for, and the difference is exactly what the state still owes; at most one connection
    attempt waits for its handshake at a time. *)
Theorem connect_replies_balance (evs : list SvcEvent) (rs : list SocketResponse) (os : list ServiceOutput)
    (s : NetworkService) :
  svc_run NetworkService_new evs = Done (rs, os, s) ->
  deferred rs = (delivered os + delivered (pending_tx s) + waiting s)%nat /\ (waiting s <= 1)%nat.
Proof.
  intros Hrun. split; [|unfold waiting; destruct (pending_connect s); lia].
  cut (forall evs s0 rs os s, svc_run s0 evs = Done (rs, os, s) -> (delivered os + owed s = owed s0 + deferred rs)%nat).
  { intros Hk. apply Hk in Hrun. unfold owed at 2 in Hrun. unfold owed in Hrun.
    change (delivered (pending_tx NetworkService_new)) with 0%nat in Hrun.
    change (waiting NetworkService_new) with 0%nat in Hrun. lia. }
  clear. induction evs as [|ev evs IH]; intros s0 rs os s; cbn [svc_run].
  { intros [= <- <- <-]. unfold delivered, deferred. simpl. lia. }
  intros ([[r o] s1] & H1%step_keeps & Hs)%bind_Done.
  apply bind_Done in Hs as ([[rs1 os1] s2] & H2%IH & [= <- <- <-]).
  rewrite delivered_app, deferred_app. lia.
Qed.
End accounting.

(** ** A refused connection *)

Definition reset_segment (r l : SocketApiAddr) (isn : Z) : Segment :=
  build_tcp_segment (sa_ip r) (sa_ip l) (sa_port r) (sa_port l) 0 (wrapping_add 32 isn 1) (Z.lor RST ACK) 0 [].

Lemma reset_segment_ok r l isn : addr_ok l -> addr_ok r -> segment_ok (reset_segment r l isn).
Proof.
  intros [? ?] [? ?]. pose proof (wrap_u32 isn 1). unfold segment_ok. simpl.
  repeat (split; [done || (unfold in_uint, RST, ACK; simpl; lia) || constructor|]). lia.
Qed.

(** A connection to a port nobody listens on is reported as timed out: the peer's reset makes the
    TCP layer report a closed connection, not a refused one, and the service turns that into
    [TimedOut] at once. *)
Theorem refused_connect_times_out (a b : NetworkService) (ia ib : InterfaceConfig) (l r : SocketApiAddr)
    (handle isn now now' : Z) (tcb : TcpControlBlock) (data : bytes) :
  iface_ok ia -> iface_ok ib -> interfaces a = [ia] -> interfaces b = [ib] ->
  sa_ip l = if_ip ia -> sa_ip r = if_ip ib -> addr_ok l -> addr_ok r -> in_uint 32 isn ->
  pending_connect a = Some (handle, (l, r)) -> conn_get (tcp a) (l, r) = Some tcb ->
  wire (syn_segment l r isn) = Done data ->
  conn_get (tcp b) (r, l) = None -> listeners (tcp b) !! sa_port r = None ->
  (forall p, resolve (arp b) (if_ip ia) p = (Resolved (if_mac ia), arp b)) -> room a 1 -> room b 2 ->
  exists b' f a',
    handle_frame b 0 (frame_to_b ia ib data) now = Done ([SendFrame 0 f], b') /\
    handle_frame a 0 f now' = Done ([OutResponse (RespError TimedOut)], a') /\ pending_connect a' = None.
Proof.
  intros Hia Hib Hi Hj Hlip Hrip Hl Hr Hisn Hp Hc Hw Hcb Hlis Hres Hra Hrb.
  pose proof Hia as [[Hma _] _]. pose proof Hib as [[Hmb _] _].
  destruct (handle_frame_tcp b 0 ib (mkEthernet (if_mac ib) (if_mac ia) ETHERTYPE_IPV4) (syn_segment l r isn) data now 1)
    as (c & Hf & Hrc & _); [lia|done|by rewrite Hj|by apply syn_segment_ok|done|done|done|done|].
  destruct (wire_exact _ (reset_segment_ok r l isn Hl Hr)) as (pkt & _ & _ & _ & Hw2 & _).
  assert (handle_segment (tcp b) (seg_header (syn_segment l r isn)) [] (sa_ip l) (sa_ip r) now
          = ([SendSegment (reset_segment r l isn) (sa_ip l)], with_now (tcp b) now)) as Hh.
  { unfold handle_segment. rewrite !flags_of_segment by done. change (conn_get (with_now (tcp b) now)) with (conn_get (tcp b)).
    simpl. rewrite !addr_eta, Hcb, Hlis. unfold reset_reply. rewrite flags_of_segment by done. done. }
  cbn [s_payload s_src_ip s_dst_ip syn_segment] in Hf.
  change (seg_header (mkSegment _ _ _ _ _ _ _ _ _ _)) with (seg_header (syn_segment l r isn)) in Hf.
  rewrite Hh in Hf. cbn [emit_tcp_outputs emit_one] in Hf. rewrite Hw2 in Hf. cbn [mbind exec_bind] in Hf. rewrite Hlip in Hf.
  match type of Hf with context [transmit ?s 0 _ _ _ _] =>
    destruct (transmit_resolved s 0 (if_ip ia) (if_mac ia) (if_mac ib) pkt [] 0 ltac:(lia) Hrc (Hres _)) as (c2 & Hc2 & _) end.
  rewrite Hc2 in Hf.
  destruct (handle_frame_tcp a 0 ia (mkEthernet (if_mac ia) (if_mac ib) ETHERTYPE_IPV4) (reset_segment r l isn) pkt now' 0)
    as (c3 & Hf3 & _); [lia|done|by rewrite Hi|by apply reset_segment_ok|done|done|done|done|].
  eexists _, _, _. split; [exact Hf|]. split.
  - rewrite Hf3. cbn [s_payload s_src_ip s_dst_ip reset_segment build_tcp_segment].
    change (seg_header (mkSegment _ _ _ _ _ _ _ _ _ _)) with (seg_header (reset_segment r l isn)).
    unfold handle_segment. rewrite !flags_of_segment by done. simpl. rewrite !addr_eta. unfold conn_contains.
    change (conn_get (with_now (tcp a) now')) with (conn_get (tcp a)). rewrite Hc.
    cbn [emit_tcp_outputs emit_one mbind exec_bind]. unfold answer_connect, resolve_pending_connect.
    cbn [pending_connect set_counters set_ifaces set_tcp]. rewrite Hp, bool_decide_eq_true_2 by done. done.
  - done.
Qed.

(** ** Two machines on a link *)

Definition demo_if_a : InterfaceConfig := mkIface [101; 48] ip_a (mkCidr ip_a 24) [2; 0; 0; 0; 0; 1] 1500.
Definition demo_if_b : InterfaceConfig := mkIface [101; 48] ip_b (mkCidr ip_b 24) [2; 0; 0; 0; 0; 2] 1500.
Lemma demo_a_ok : iface_ok demo_if_a.
Proof. split; [|apply ip_a_array]. split; [done|]. repeat (apply Forall_cons_2; [unfold is_byte; lia|]). constructor. Qed.
Lemma demo_b_ok : iface_ok demo_if_b.
Proof. split; [|apply ip_b_array]. split; [done|]. repeat (apply Forall_cons_2; [unfold is_byte; lia|]). constructor. Qed.

Definition demo_client : NetworkService := add_interface NetworkService_new demo_if_a.
Definition demo_server : NetworkService :=
  match handle_socket_request (add_interface NetworkService_new demo_if_b) (ReqListen 80 5) with
  | Done (_, s) => s
  | Panic => NetworkService_new
  end.

Lemma demo_room s n : counters_ s = [IfaceCounters_default] -> n < 2 ^ 64 -> room s n.
Proof. intros Hc Hn. unfold room. rewrite Hc. apply Forall_singleton. cbn. lia. Qed.

Lemma service_connects_witness :
  let l := mkAddr ip_a EPHEMERAL_PORT_START in
  let r := mkAddr ip_b 80 in
  exists a1 a2 a3 b1 b2 b3 b4 f1 f2 f3 f4 f5 c s,
    handle_socket_request demo_client (ReqConnect 1 r) = Done (RespPending, a1) /\
    (take_pending_tx a1).1 = [SendFrame 0 f1] /\
    handle_frame demo_server 0 f1 10 = Done ([SendFrame 0 f2], b1) /\
    handle_frame (take_pending_tx a1).2 0 f2 20 = Done ([SendFrame 0 f3], a2) /\
    handle_frame b1 0 f3 30 = Done ([SendFrame 0 f4], b2) /\
    handle_frame a2 0 f4 40 = Done ([SendFrame 0 f5; OutResponse (RespOk 0)], a3) /\
    handle_frame b2 0 f5 50 = Done ([], b3) /\
    handle_socket_request b3 (ReqAccept 80) = Done (RespHandle 1, b4) /\
    socket_state a3 !! 1 = Some (l, r) /\ pending_connect a3 = None /\
    conn_get (tcp a3) (l, r) = Some c /\ conn_get (tcp b4) (r, l) = Some s /\ fresh c s /\ fresh s c /\
    forall data fl n, handle_socket_request b4 (ReqSend 1 data fl) = Done (RespError NotConnected, b4) /\
      handle_socket_request b4 (ReqRecv 1 n fl) = Done (RespError NotConnected, b4).
Proof.
  apply (service_connects demo_client demo_server demo_if_a demo_if_b 1 80 5 10 20 30 40 50);
    solve [apply demo_a_ok | apply demo_b_ok | by apply demo_room | by vm_compute | unfold in_uint; cbn; lia].
Defined.

Definition busy_run : list SvcEvent :=
  [EvInterface demo_if_a; EvRequest (ReqConnect 1 (mkAddr ip_b 80)); EvRequest (ReqConnect 2 (mkAddr ip_b 81)); EvDrain].
Lemma busy_run_ends : exists rs os s, svc_run NetworkService_new busy_run = Done (rs, os, s) /\ deferred rs = 1%nat.
Proof.
  assert (match svc_run NetworkService_new busy_run with Done (rs, _, _) => deferred rs = 1%nat | Panic => False end) as Hc
    by (vm_compute; reflexivity).
  revert Hc. generalize (svc_run NetworkService_new busy_run). intros [[[rs os] s]|] Hc; [|done]. by exists rs, os, s.
Qed.

Lemma connect_replies_balance_witness :
  exists rs os s, svc_run NetworkService_new busy_run = Done (rs, os, s) /\ deferred rs = 1%nat /\
    deferred rs = (delivered os + delivered (pending_tx s) + waiting s)%nat /\ (waiting s <= 1)%nat.
Proof.
  destruct busy_run_ends as (rs & os & s & E & Hd). exists rs, os, s. split; [exact E|]. split; [exact Hd|].
  exact (connect_replies_balance busy_run rs os s E).
Defined.

Definition demo_connecting : NetworkService :=
  match do_connect demo_client 1 (mkAddr ip_b 80) with Done (_, s) => s | Panic => NetworkService_new end.
Definition demo_closed : NetworkService :=
  set_arp (add_interface NetworkService_new demo_if_b) (arp_insert (ArpTable_new ARP_MAX_ENTRIES) ip_a (if_mac demo_if_a) 0).
Definition demo_syn : Segment := syn_segment (mkAddr ip_a EPHEMERAL_PORT_START) (mkAddr ip_b 80) (next_isn_ TcpSocketTable_new).
Definition demo_syn_bytes : bytes := match wire demo_syn with Done d => d | Panic => [] end.

Lemma refused_connect_times_out_witness :
  exists b' f a',
    handle_frame demo_closed 0 (frame_to_b demo_if_a demo_if_b demo_syn_bytes) 10 = Done ([SendFrame 0 f], b') /\
    handle_frame demo_connecting 0 f 20 = Done ([OutResponse (RespError TimedOut)], a') /\ pending_connect a' = None.
Proof.
  eapply (refused_connect_times_out demo_connecting demo_closed demo_if_a demo_if_b (mkAddr ip_a EPHEMERAL_PORT_START)
           (mkAddr ip_b 80) 1 (next_isn_ TcpSocketTable_new) 10 20).
  - apply demo_a_ok.
  - apply demo_b_ok.
  - by vm_compute.
  - by vm_compute.
  - done.
  - done.
  - split; [apply ip_a_array|]. unfold in_uint. cbn. unfold EPHEMERAL_PORT_START. lia.
  - split; [apply ip_b_array|]. unfold in_uint. cbn. lia.
  - unfold in_uint. cbn. lia.
  - by vm_compute.
  - vm_compute. reflexivity.
  - by vm_compute.
  - by vm_compute.
  - by vm_compute.
  - intros p. by vm_compute.
  - eapply Forall_impl; [instantiate (1 := fun c => rx_frames c <= 10 /\ tx_frames c <= 10)|cbn; lia].
    vm_compute. by repeat constructor.
  - by apply demo_room.
Defined.
