(* ===== verification/NetSafety.v ===== *)
(** * The network service under hostile input

    The typing invariant of TCP control blocks and of the whole service of
    [NetService]: every operation keeps it, every segment the TCP layer emits
    can be serialised, and no frame, whatever its bytes, makes the service
    panic. *)

From S2P Require Import Prelude NetHeaders Arp Tcp Dns Icmp NetService.

(** ** Control blocks *)

Definition entry_typed (e : RetransmitEntry) : Prop :=
  in_uint 32 (re_seq e) /\ is_bytes (re_data e) /\ Z.of_nat (length (re_data e)) <= DEFAULT_MSS.

Record tcb_typed (t : TcpControlBlock) : Prop := mkTyped {
  tt_local : addr_ok (local t);
  tt_remote : addr_ok (remote t);
  tt_snd : in_uint 32 (snd_nxt t);
  tt_rcv : in_uint 32 (rcv_nxt t);
  tt_wnd : in_uint 16 (rcv_wnd t);
  tt_mss : mss t = DEFAULT_MSS;
  tt_queue : Forall entry_typed (retransmit_queue t);
}.

Definition out_typed (o : TcpOutput) : Prop :=
  match o with SendSegment s _ => segment_ok s | _ => True end.

Create HintDb typed.

Lemma set_state_typed t s : tcb_typed t -> tcb_typed (set_state t s).
Proof. by destruct 1. Qed.
Lemma set_snd_typed t u n w : in_uint 32 n -> tcb_typed t -> tcb_typed (set_snd t u n w).
Proof. by destruct 2. Qed.
Lemma set_rcv_typed t n b : in_uint 32 n -> tcb_typed t -> tcb_typed (set_rcv t n b).
Proof. by destruct 2. Qed.
Lemma set_irs_typed t v : tcb_typed t -> tcb_typed (set_irs t v).
Proof. by destruct 1. Qed.
Lemma set_queue_typed t q : Forall entry_typed q -> tcb_typed t -> tcb_typed (set_queue t q).
Proof. by destruct 2. Qed.
Lemma set_congestion_typed t a b c d : tcb_typed t -> tcb_typed (set_congestion t a b c d).
Proof. by destruct 1. Qed.
Lemma set_time_wait_typed t v : tcb_typed t -> tcb_typed (set_time_wait t v).
Proof. by destruct 1. Qed.
#[export] Hint Resolve set_state_typed set_snd_typed set_rcv_typed set_irs_typed set_queue_typed
  set_congestion_typed set_time_wait_typed wrap_u32 tt_snd tt_rcv tt_wnd tt_queue
  List.Forall_nil : typed.

Lemma conn_segment_typed t seq ack fl win payload :
  tcb_typed t -> in_uint 32 seq -> in_uint 32 ack -> 0 <= fl < 256 -> in_uint 16 win -> is_bytes payload ->
  Z.of_nat (length payload) <= DEFAULT_MSS -> out_typed (conn_segment t seq ack fl win payload).
Proof.
  intros [[? ?] [? ?] _ _ _ _ _] Hs Ha Hf Hw Hb Hl. unfold DEFAULT_MSS in Hl. cbn.
  unfold segment_ok. cbn. repeat (split; [done || (by constructor) || lia|]). lia.
Qed.

Lemma ack_segment_typed t : tcb_typed t -> out_typed (ack_segment t).
Proof.
  intros Ht. apply conn_segment_typed; [done|by destruct Ht..| |by destruct Ht|by constructor|done].
  unfold ACK. lia.
Qed.

(** A retransmission of an entry of the queue. *)
Lemma data_segment_typed t e :
  tcb_typed t -> entry_typed e ->
  out_typed (conn_segment t (re_seq e) (rcv_nxt t) (Z.lor ACK PSH) (rcv_wnd t) (re_data e)).
Proof.
  intros Ht (Hs & Hb & Hl). apply conn_segment_typed; try done; try by destruct Ht.
Qed.
#[export] Hint Resolve ack_segment_typed data_segment_typed : typed.

Lemma process_ack_typed t h t' outs :
  tcb_typed t -> in_uint 32 (ack_num h) -> process_ack t h = (t', outs) ->
  tcb_typed t' /\ Forall out_typed outs /\ (length outs <= 1)%nat.
Proof.
  intros Ht Ha. unfold process_ack. destruct (_ && _).
  - destruct (_ =? 3).
    + intros [= <- <-]. split; [eauto with typed|].
      pose proof (tt_queue _ Ht) as Hq.
      change (retransmit_queue (set_congestion t _ _ _ _)) with (retransmit_queue t).
      destruct (retransmit_queue t) as [|e q]; [split; [constructor|simpl; lia]|]. inversion Hq; subst.
      split; [|simpl; lia]. constructor; [|constructor]. eapply (data_segment_typed (set_congestion t _ _ _ _)); eauto with typed.
    + intros [= <- <-]. split; [eauto with typed|]. split; [constructor|simpl; lia].
  - destruct (_ && _); intros [= <- <-]; (split; [|split; [constructor|simpl; lia]]); [|done].
    apply set_congestion_typed, set_queue_typed; [|eauto with typed].
    pose proof (tt_queue _ Ht) as Hq. cbn [retransmit_queue set_snd].
    rewrite Forall_forall in Hq |- *. intros e He. apply Hq. by apply list_elem_of_In, List.filter_In in He as [?%list_elem_of_In _].
Qed.

Lemma receive_data_typed key t h payload t' outs :
  tcb_typed t -> receive_data key t h payload = (t', outs) ->
  tcb_typed t' /\ Forall out_typed outs /\ (length outs <= 2)%nat.
Proof.
  intros Ht. unfold receive_data. destruct (_ && _); intros [= <- <-]; [|split; [done|split; [constructor|simpl; lia]]].
  assert (tcb_typed (set_rcv t (wrapping_add 32 (rcv_nxt t) (Z.of_nat (length payload) mod 2 ^ 32)) (recv_buffer t ++ payload)))
    as Ht' by eauto with typed.
  split; [done|]. split; [|simpl; lia]. constructor; [by apply ack_segment_typed|]. by constructor.
Qed.

Definition outcome_typed (o : Outcome) : Prop :=
  match o with Keep t | ToBacklog t => tcb_typed t | Remove => True end.

Definition header_typed (h : TcpHeader) : Prop :=
  in_uint 16 (tcp_src_port h) /\ in_uint 16 (tcp_dst_port h) /\ in_uint 32 (seq_num h) /\ in_uint 32 (ack_num h).

(** A branch that keeps a block and sends at most its acknowledgement. *)
Ltac typed_branch :=
  split; [cbn [outcome_typed]; eauto 8 with typed|split; [|simpl; lia]];
  repeat (constructor; [solve [exact I | apply ack_segment_typed; eauto 8 with typed]|]); by constructor.

Lemma process_segment_typed key t h payload now o outs :
  tcb_typed t -> header_typed h -> process_segment key t h payload now = (o, outs) ->
  outcome_typed o /\ Forall out_typed outs /\ (length outs <= 4)%nat.
Proof.
  intros Ht (Hsp & Hdp & Hs & Ha). unfold process_segment. destruct (state t).
  - intros [= <- <-]. typed_branch.
  - intros [= <- <-]. typed_branch.
  - destruct (_ && _).
    + destruct (negb _); intros [= <- <-]; [|typed_branch]. split; [done|]. split; [|simpl; lia].
      constructor; [|constructor]. apply conn_segment_typed; try done; try (unfold in_uint; lia). by constructor.
    + destruct (has_flag h RST); intros [= <- <-]; typed_branch.
  - destruct (_ && _); intros [= <- <-]; typed_branch.
  - destruct (if has_flag h ACK then _ else _) as [t1 o1] eqn:E1.
    assert (tcb_typed t1 /\ Forall out_typed o1 /\ (length o1 <= 1)%nat) as (Ht1 & Ho1 & Hl1).
    { destruct (has_flag h ACK); [by eapply process_ack_typed|]. injection E1 as <- <-. split; [done|]. split; [constructor|simpl; lia]. }
    destruct (receive_data key t1 h payload) as [t2 o2] eqn:E2.
    destruct (receive_data_typed _ _ _ _ _ _ Ht1 E2) as (Ht2 & Ho2 & Hl2).
    destruct (has_flag h FIN); intros [= <- <-]; cbn [outcome_typed].
    + split; [eauto with typed|]. rewrite !length_app. split; [|simpl; lia].
      apply Forall_app. split; [done|]. apply Forall_app. split; [done|]. constructor; [|constructor]. eauto 6 with typed.
    + split; [done|]. rewrite length_app. split; [|lia]. by apply Forall_app.
  - set (t1 := if _ && _ then _ else t). assert (tcb_typed t1) as Ht1 by (subst t1; case_match; eauto with typed).
    clearbody t1. destruct (has_flag h FIN); [|intros [= <- <-]; typed_branch].
    destruct (state _); intros [= <- <-]; typed_branch.
  - destruct (has_flag h FIN); intros [= <- <-]; typed_branch.
  - intros [= <- <-]. typed_branch.
  - destruct (_ && _); intros [= <- <-]; typed_branch.
  - destruct (_ && _); intros [= <- <-]; typed_branch.
  - destruct (has_flag h FIN); intros [= <- <-]; typed_branch.
Qed.

(** ** The table of connections *)

Record tcp_typed (t : TcpSocketTable) : Prop := mkTcpTyped {
  ty_conns : map_Forall (fun _ b => tcb_typed b) (connections t);
  ty_listen : map_Forall (fun _ q => Forall tcb_typed (backlog q)) (listeners t);
  ty_isn : in_uint 32 (next_isn_ t);
}.

Lemma tcp_new_typed : tcp_typed TcpSocketTable_new.
Proof. split; [apply map_Forall_empty..|unfold in_uint; simpl; lia]. Qed.

Lemma with_now_typed t now : tcp_typed t -> tcp_typed (with_now t now).
Proof. by destruct 1. Qed.
Lemma next_isn_typed t : tcp_typed t -> tcp_typed (next_isn t).2.
Proof. destruct 1. split; try done. apply wrap_u32. Qed.
Lemma conn_insert_typed t k b : tcp_typed t -> tcb_typed b -> tcp_typed (conn_insert t k b).
Proof. intros [Hc Hl Hi] Hb. split; try done. by apply map_Forall_insert_2. Qed.
Lemma conn_remove_typed t k : tcp_typed t -> tcp_typed (conn_remove t k).
Proof. intros [Hc Hl Hi]. split; try done. by apply map_Forall_delete. Qed.
Lemma with_listeners_typed t m :
  tcp_typed t -> map_Forall (fun _ q => Forall tcb_typed (backlog q)) m -> tcp_typed (with_listeners t m).
Proof. by destruct 1. Qed.
Lemma conn_get_typed t k b : tcp_typed t -> conn_get t k = Some b -> tcb_typed b.
Proof. intros [Hc _ _] Hg. exact (Hc _ _ Hg). Qed.
#[export] Hint Resolve with_now_typed next_isn_typed conn_insert_typed conn_remove_typed conn_get_typed : typed.

Lemma new_syn_sent_typed l r isn : addr_ok l -> addr_ok r -> tcb_typed (new_syn_sent l r isn).
Proof. intros Hl Hr. split; try done; try apply wrap_u32; try constructor; unfold in_uint; simpl; lia. Qed.
Lemma new_syn_received_typed l r peer isn : addr_ok l -> addr_ok r -> tcb_typed (new_syn_received l r peer isn).
Proof. intros Hl Hr. split; try done; try apply wrap_u32; try constructor; unfold in_uint; simpl; lia. Qed.

(** A segment without options and payload is serialisable when its fields are in range. *)
Lemma control_segment_ok src dst sp dp seq ack fl win :
  is_array 4 src -> is_array 4 dst -> in_uint 16 sp -> in_uint 16 dp -> in_uint 32 seq -> in_uint 32 ack ->
  0 <= fl < 256 -> in_uint 16 win -> segment_ok (build_tcp_segment src dst sp dp seq ack fl win []).
Proof.
  intros. unfold segment_ok. cbn. repeat (split; [done || (by constructor) || lia|]). lia.
Qed.

Lemma deliver_typed t key b h payload now outs t' :
  tcp_typed t -> tcb_typed b -> header_typed h -> deliver t key b h payload now = (outs, t') ->
  tcp_typed t' /\ Forall out_typed outs /\ (length outs <= 4)%nat.
Proof.
  intros Ht Hb Hh. unfold deliver. destruct (process_segment key b h payload now) as [o os] eqn:E.
  destruct (process_segment_typed _ _ _ _ _ _ _ Hb Hh E) as (Ho & Hos & Hl).
  destruct o as [b'| |b']; intros [= <- <-]; (split; [|done]); cbn [outcome_typed] in Ho; eauto with typed.
  pose proof (conn_remove_typed t key Ht) as Hr. destruct (listeners _ !! _) as [q|] eqn:Hq; [|done].
  apply with_listeners_typed; [done|]. destruct Hr as [_ Hl' _]. apply map_Forall_insert_2; [|done].
  cbn [backlog]. apply Forall_app. split; [exact (Hl' _ _ Hq)|]. by apply Forall_singleton.
Qed.

Lemma handle_segment_typed t h payload src dst now outs t' :
  tcp_typed t -> header_typed h -> is_array 4 src -> is_array 4 dst ->
  handle_segment t h payload src dst now = (outs, t') ->
  tcp_typed t' /\ Forall out_typed outs /\ (length outs <= 4)%nat.
Proof.
  intros Ht Hh Hs Hd. pose proof Hh as (Hsp & Hdp & Hsq & Hak).
  assert (forall o, out_typed o -> Forall out_typed [o] /\ (length [o] <= 4)%nat) as Hone
    by (intros o Ho; split; [by apply Forall_singleton|simpl; lia]).
  assert (Forall out_typed [] /\ (length (@nil TcpOutput) <= 4)%nat) as Hnone by (split; [constructor|simpl; lia]).
  assert (out_typed (reset_reply h src dst)) as Hrst.
  { unfold reset_reply. cbn [out_typed]. case_match; apply control_segment_ok; try done; try apply wrap_u32;
      unfold in_uint; simpl; lia. }
  unfold handle_segment. destruct (has_flag h RST).
  { case_match; intros [= <- <-]; (split; [eauto with typed|]); [by apply Hone|done]. }
  destruct (conn_get _ _) as [b|] eqn:Hg.
  { intros Hdel. eapply deliver_typed in Hdel; eauto with typed. }
  destruct (_ && _); [|intros [= <- <-]; split; [eauto with typed|by apply Hone]].
  destruct (listeners _ !! _) as [q|]; [|intros [= <- <-]; split; [eauto with typed|by apply Hone]].
  destruct (_ <=? _); intros [= <- <-].
  - split; [eauto with typed|]. apply Hone. apply control_segment_ok; try done; try apply wrap_u32;
      unfold in_uint; simpl; lia.
  - split.
    + apply conn_insert_typed; [exact (next_isn_typed _ (with_now_typed t now Ht))|]. by apply new_syn_received_typed.
    + apply Hone. exact (syn_ack_ok (mkAddr src (tcp_src_port h)) (mkAddr dst (tcp_dst_port h)) (conj Hs Hsp) (conj Hd Hdp)
                            (next_isn_ t) (seq_num h) (ty_isn t Ht)).
Qed.

Lemma retransmit_one_typed key now t seq o outs :
  tcb_typed t -> retransmit_one key now t seq = (o, outs) ->
  (forall t', o = Some t' -> tcb_typed t') /\ Forall out_typed outs.
Proof.
  intros Ht. unfold retransmit_one. destruct (find_entry seq (retransmit_queue t)) as [[[pre e] post]|] eqn:E.
  2: { intros [= <- <-]. split; [by intros ? [= <-]|constructor]. }
  pose proof (tt_queue t Ht) as Hq. apply find_entry_Some in E as [Hqe _]. rewrite Hqe in Hq.
  apply Forall_app in Hq as [Hpre Hq]. inversion Hq as [|? ? He Hpost]; subst.
  destruct (_ <=? _); intros [= <- <-].
  - split; [done|]. constructor; [|by apply Forall_singleton].
    apply conn_segment_typed; try done; try (by destruct Ht); try (unfold in_uint; lia). by constructor.
  - assert (entry_typed (mkRetransmit (re_seq e) (re_data e) now (retransmit_count e + 1))) as He' by done. split.
    + intros ? [= <-]. apply set_congestion_typed, set_queue_typed; [|done].
      apply Forall_app. split; [done|]. by constructor.
    + apply Forall_singleton. by apply (data_segment_typed t _ Ht He').
Qed.

Lemma retransmit_loop_typed key now seqs t o outs :
  tcb_typed t -> retransmit_loop key now t seqs = (o, outs) ->
  (forall t', o = Some t' -> tcb_typed t') /\ Forall out_typed outs.
Proof.
  revert t outs. induction seqs as [|seq seqs IH]; intros t outs Ht; cbn [retransmit_loop].
  { intros [= <- <-]. split; [by intros ? [= <-]|constructor]. }
  destruct (retransmit_one key now t seq) as [[t1|] o1] eqn:E1; destruct (retransmit_one_typed _ _ _ _ _ _ Ht E1) as [Ht1 Ho1].
  - destruct (retransmit_loop key now t1 seqs) as [o2 os2] eqn:E2. intros [= <- <-].
    destruct (IH _ _ (Ht1 t1 eq_refl) E2) as [? ?]. split; [done|]. by apply Forall_app.
  - intros [= <- <-]. done.
Qed.

Lemma tcp_tick_typed t now outs t' :
  tcp_typed t -> Tcp.tick t now = (outs, t') -> tcp_typed t' /\ Forall out_typed outs.
Proof.
  intros Ht Htick. unfold Tcp.tick in Htick.
  pose proof (foldl_invariant (fun s : list TcpOutput * TcpSocketTable => tcp_typed s.2 /\ Forall out_typed s.1)
    (tick_one now) (conn_keys t) ([], with_now t now)) as Hinv. rewrite Htick in Hinv. cbn [fst snd] in Hinv.
  apply Hinv; [|split; [by apply with_now_typed|constructor]].
  clear -t'. intros [os s] k [Hs Ho]. cbn [fst snd tick_one] in *. destruct (connections s !! k) as [b0|]; [|done].
  destruct (conn_get s _) as [b|] eqn:Hg; [|done]. pose proof (conn_get_typed _ _ _ Hs Hg) as Hb.
  destruct (tick_connection _ now b) as [r o1] eqn:E.
  assert ((forall t', r = Some t' -> tcb_typed t') /\ Forall out_typed o1) as [Hr Ho1].
  { unfold tick_connection in E. destruct (_ && _); [|by eapply retransmit_loop_typed].
    injection E as <- <-. split; [done|]. by apply Forall_singleton. }
  destruct r as [b'|]; cbn [fst snd]; (split; [|by apply Forall_app]); eauto with typed.
Qed.

Lemma connect_typed t l r res outs t' :
  tcp_typed t -> addr_ok l -> addr_ok r -> connect t l r = Done (res, outs, t') ->
  tcp_typed t' /\ Forall out_typed outs.
Proof.
  intros Ht Hl Hr. unfold connect. destruct (conn_contains t (l, r)).
  { intros [= <- <- <-]. split; [done|constructor]. }
  cbn [next_isn]. pose proof (syn_segment_ok l r (next_isn_ t) Hl Hr (ty_isn t Ht)) as Hsyn.
  destruct (wire_exact _ Hsyn) as (data & _ & _ & _ & Hd & _ & _ & _ & _ & _ & _ & Hb & Hlen).
  rewrite Hd. cbn [mbind exec_bind]. intros [= <- <- <-]. split.
  - apply conn_insert_typed; [exact (next_isn_typed t Ht)|]. apply set_queue_typed; [|by apply new_syn_sent_typed].
    apply Forall_singleton. split; [apply (ty_isn t Ht)|]. split; [done|]. cbn [re_data]. rewrite Hlen.
    unfold DEFAULT_MSS. simpl. lia.
  - apply Forall_singleton. exact Hsyn.
Qed.

Lemma send_chunks_typed now cs t t' outs :
  tcb_typed t -> Forall (fun c => is_bytes c /\ Z.of_nat (length c) <= DEFAULT_MSS) cs ->
  send_chunks now t cs = (t', outs) -> tcb_typed t' /\ Forall out_typed outs.
Proof.
  intros Ht Hcs. revert t outs Ht. induction Hcs as [|c cs [Hb Hl] _ IH]; intros t outs Ht; cbn [send_chunks].
  { intros [= <- <-]. split; [done|constructor]. }
  destruct (send_chunk now t c) as [t1 o1] eqn:E1. destruct (send_chunks now t1 cs) as [t2 os] eqn:E2.
  intros [= <- <-]. injection E1 as <- <-.
  assert (entry_typed (mkRetransmit (snd_nxt t) c now 0)) as He by (split; [apply (tt_snd t Ht)|done]).
  apply IH in E2 as [? ?]; [split; [done|]|].
  2: { apply set_queue_typed; [apply Forall_app; split; [apply (tt_queue t Ht)|by apply Forall_singleton]|eauto with typed]. }
 constructor; [|done]. by apply (data_segment_typed t _ Ht He).
Qed.

Lemma send_typed t key data r outs t' :
  tcp_typed t -> is_bytes data -> send t key data = (r, outs, t') -> tcp_typed t' /\ Forall out_typed outs.
Proof.
  intros Ht Hb. unfold send. destruct (conn_get t key) as [b|] eqn:Hg; [|intros [= <- <- <-]; split; [done|constructor]].
  destruct (negb _); [intros [= <- <- <-]; split; [done|constructor]|].
  pose proof (conn_get_typed _ _ _ Ht Hg) as Htb. rewrite (tt_mss b Htb).
  destruct (send_chunks _ b _) as [b' os] eqn:E. intros [= <- <- <-].
  destruct (chunks_spec (Z.to_nat (Z.max DEFAULT_MSS 1)) data) as [Hcat Hch]; [unfold DEFAULT_MSS; lia|].
  apply send_chunks_typed in E as [? ?]; [eauto with typed|done|].
  rewrite Forall_forall in Hch |- *. intros c Hc. split.
  - rewrite <- Hcat in Hb. apply Forall_forall. intros x Hx. eapply Forall_forall; [exact Hb|].
    apply list_elem_of_In, List.in_concat. exists c. split; by apply list_elem_of_In.
  - destruct (Hch c Hc) as [_ Hle]. unfold DEFAULT_MSS in *. lia.
Qed.

Lemma close_typed t key r outs t' :
  tcp_typed t -> close t key = (r, outs, t') -> tcp_typed t' /\ Forall out_typed outs.
Proof.
  intros Ht. unfold close. destruct (conn_get t key) as [b|] eqn:Hg; [|intros [= <- <- <-]; split; [done|constructor]].
  pose proof (conn_get_typed _ _ _ Ht Hg) as Hb.
  destruct (close_tcb b) as [b' os] eqn:E. intros [= <- <- <-].
  assert (out_typed (conn_segment b (snd_nxt b) (rcv_nxt b) (Z.lor FIN ACK) (rcv_wnd b) [])) as Hfin.
  { apply conn_segment_typed; try done; try (by destruct Hb); try (unfold in_uint; simpl; lia). by constructor. }
  revert E. unfold close_tcb. destruct (state b); intros [= <- <-]; (split; [eauto 8 with typed|]);
    first [by constructor | by apply Forall_singleton].
Qed.

Lemma recv_typed t key n r t' : tcp_typed t -> recv t key n = (r, t') -> tcp_typed t'.
Proof.
  intros Ht. unfold recv. destruct (conn_get t key) as [b|] eqn:Hg; intros [= <- <-]; eauto 8 with typed.
Qed.

Lemma accept_typed t port r t' : tcp_typed t -> accept t port = (r, t') -> tcp_typed t'.
Proof.
  intros Ht. unfold accept. destruct (listeners t !! port) as [[[|b q] max]|] eqn:E; intros [= <- <-]; try done.
  pose proof (ty_listen t Ht _ _ E) as Hq. cbn [backlog] in Hq. inversion Hq; subst.
  apply conn_insert_typed; [|done]. apply with_listeners_typed; [done|].
  apply map_Forall_insert_2; [done|apply (ty_listen t Ht)].
Qed.

Lemma listen_typed t port max r t' : tcp_typed t -> tcp_listen t port max = (r, t') -> tcp_typed t'.
Proof.
  intros Ht. unfold tcp_listen. destruct (listeners t !! port); intros [= <- <-]; [done|].
  apply with_listeners_typed; [done|]. apply map_Forall_insert_2; [constructor|apply (ty_listen t Ht)].
Qed.

(** ** The service *)

Record service_ok (s : NetworkService) : Prop := mkServiceOk {
  so_tcp : tcp_typed (tcp s);
  so_arp : arp_ok (arp s);
  so_ifaces : Forall iface_ok (interfaces s);
  so_port : EPHEMERAL_PORT_START <= next_ephemeral_port s <= EPHEMERAL_PORT_END;
}.

Lemma service_new_ok : service_ok NetworkService_new.
Proof.
  split; [apply tcp_new_typed|apply map_Forall_empty|constructor|].
  unfold EPHEMERAL_PORT_START, EPHEMERAL_PORT_END. simpl. unfold EPHEMERAL_PORT_START. lia.
Qed.

Lemma set_tcp_ok s t : service_ok s -> tcp_typed t -> service_ok (set_tcp s t).
Proof. by intros []. Qed.
Lemma set_arp_ok s a : service_ok s -> arp_ok a -> service_ok (set_arp s a).
Proof. by intros []. Qed.
Lemma set_counters_ok s c : service_ok s -> service_ok (set_counters s c).
Proof. by intros []. Qed.

Lemma record_tx_ok s idx len s' : service_ok s -> record_tx s idx len = Done s' -> service_ok s'.
Proof.
  intros Hs. unfold record_tx. destruct (counters_ s !! idx); [|by intros [= <-]].
  intros (f & _ & [= <-])%bind_Done. by apply set_counters_ok.
Qed.

Lemma transmit_ok s idx dst mac p out out' s' :
  service_ok s -> transmit s idx dst mac p out = Done (out', s') ->
  service_ok s' /\ (length out' <= S (length out))%nat.
Proof.
  intros Hs. unfold transmit, wrap_in_ethernet.
  pose proof (resolve_ok (arp s) dst (Some (mkPending p dst)) (so_arp s Hs)) as Ha.
  destruct (resolve (arp s) dst _) as [[m|] a]; cbn [snd] in Ha; pose proof (set_arp_ok s a Hs Ha) as Hs1.
  - intros (s1 & Hr%record_tx_ok & [= <- <-])%bind_Done; [|done]. split; [done|]. rewrite length_app. simpl. lia.
  - intros [= <- <-]. split; [done|]. lia.
Qed.

Lemma transmit_total s idx dst mac p out n :
  0 <= n -> room s (n + 1) -> exists out' s', transmit s idx dst mac p out = Done (out', s') /\ room s' n.
Proof.
  intros Hn Hr. unfold transmit, wrap_in_ethernet. destruct (resolve (arp s) dst _) as [[m|] a].
  - destruct (record_tx_room (set_arp s a) idx
      (Z.of_nat (length (ethernet_frame (mkEthernet m mac ETHERTYPE_IPV4) p))) n Hn Hr) as (c & Hc & Hrc & _).
    rewrite Hc. by eexists _, _.
  - eexists _, _. split; [done|]. by apply (room_mono s (n + 1)); [lia|].
Qed.

Lemma emit_ok s outs idx mac out out' s' :
  service_ok s -> emit_tcp_outputs s outs idx mac out = Done (out', s') ->
  service_ok s' /\ (length out' <= length out + length outs)%nat.
Proof.
  revert s out. induction outs as [|o outs IH]; intros s out Hs; cbn [emit_tcp_outputs].
  { intros [= <- <-]. split; [done|lia]. }
  intros ([o1 s1] & H1 & H2)%bind_Done.
  assert (service_ok s1 /\ (length o1 <= S (length out))%nat) as [Hs1 Hl1].
  { assert (forall key r, answer_connect s key r out = (o1, s1) -> service_ok s1 /\ (length o1 <= S (length out))%nat) as Ha.
    { intros key r. unfold answer_connect, resolve_pending_connect. destruct (pending_connect s) as [[h k]|].
      - case_bool_decide; intros [= <- <-]; rewrite length_app; simpl; (split; [by destruct Hs|lia]).
      - intros [= <- <-]. rewrite length_app. simpl. split; [done|lia]. }
    destruct o; cbn [emit_one] in H1; try (injection H1 as H1; by eapply Ha).
    - apply bind_Done in H1 as (data & _ & H1). by eapply transmit_ok.
    - injection H1 as <- <-. split; [done|lia]. }
  apply IH in H2 as [? ?]; [|done]. split; [done|]. simpl. lia.
Qed.

Lemma emit_total s outs idx mac out n :
  Forall out_typed outs -> 0 <= n -> room s (n + Z.of_nat (length outs)) ->
  exists out' s', emit_tcp_outputs s outs idx mac out = Done (out', s') /\ room s' n.
Proof.
  intros Ho. revert s out. induction Ho as [|o outs Ho _ IH]; intros s out Hn Hr; cbn [emit_tcp_outputs].
  { eexists _, _. split; [done|]. by rewrite Z.add_0_r in Hr. }
  assert (exists o1 s1, emit_one s idx mac o out = Done (o1, s1) /\ room s1 (n + Z.of_nat (length outs))) as (o1 & s1 & H1 & Hr1).
  { assert (forall key r, exists o1 s1, answer_connect s key r out = (o1, s1) /\ room s1 (n + Z.of_nat (length outs))) as Ha.
    { intros key r. assert (room s (n + Z.of_nat (length outs))) by (eapply room_mono; [|exact Hr]; simpl; lia).
      unfold answer_connect, resolve_pending_connect. destruct (pending_connect s) as [[h k]|]; [case_bool_decide|]; by eexists _, _. }
    destruct o; cbn [emit_one].
    - destruct (wire_exact _ Ho) as (data & _ & _ & _ & Hd & _). rewrite Hd. cbn [mbind exec_bind].
      apply transmit_total; [lia|]. by replace (n + Z.of_nat (length outs) + 1) with (n + Z.of_nat (length (SendSegment s0 dst_ip :: outs))) by (simpl; lia).
    - destruct (Ha key (RespOk 0)) as (o1 & s1 & -> & ?). by eexists _, _.
    - eexists _, _. split; [done|]. eapply room_mono; [|exact Hr]. simpl. lia.
    - destruct (Ha key (RespError TimedOut)) as (o1 & s1 & -> & ?). by eexists _, _.
    - destruct (Ha key (RespError NetHeaders.ConnectionRefused)) as (o1 & s1 & -> & ?). by eexists _, _. }
  rewrite H1. cbn [mbind exec_bind]. by apply IH.
Qed.

(** ** Parsed bytes are in range *)

Lemma byte_at b i x : is_bytes b -> b !! i = Some x -> is_byte x.
Proof. intros Hb Hi. exact (Forall_lookup_1 _ _ _ _ Hb Hi). Qed.
Lemma u16_at_typed b i x : is_bytes b -> u16_at b i = Some x -> in_uint 16 x.
Proof.
  intros Hb. unfold u16_at. intros (hi & H1 & (lo & H2 & [= <-])%bind_Some)%bind_Some.
  apply (byte_at _ _ _ Hb) in H1, H2. unfold in_uint, from_be16, is_byte in *. lia.
Qed.
Lemma u32_at_typed b i x : is_bytes b -> u32_at b i = Some x -> in_uint 32 x.
Proof.
  intros Hb. unfold u32_at.
  intros (x1 & H1 & (x2 & H2 & (x3 & H3 & (x4 & H4 & [= <-])%bind_Some)%bind_Some)%bind_Some)%bind_Some.
  apply (byte_at _ _ _ Hb) in H1, H2, H3, H4. unfold in_uint, from_be32, is_byte in *. lia.
Qed.
Lemma arr_at_typed b i n x : is_bytes b -> arr_at b i n = Some x -> is_array n x.
Proof.
  intros Hb. unfold arr_at. destruct (Nat.leb_spec (i + n) (length b)); intros [= <-]. split.
  - rewrite length_take, length_drop. lia.
  - by apply Forall_take, Forall_drop.
Qed.
Lemma rest_at_typed b i x : is_bytes b -> rest_at b i = Some x -> is_bytes x /\ (length x = length b - i)%nat.
Proof.
  intros Hb. unfold rest_at. destruct (_ <=? _)%nat; intros [= <-]. split; [by apply Forall_drop|apply length_drop].
Qed.

(** The fields of a parse, one after another. *)
Ltac parsed :=
  repeat match goal with
  | H : (if ?c then None else _) = Some _ |- _ => destruct c; [discriminate H|]
  | H : _ ≫= _ = Some _ |- _ => apply bind_Some in H as (? & ? & H)
  end.

Lemma ethernet_parse_typed b h rest :
  is_bytes b -> ethernet_parse b = Some (h, rest) -> is_bytes rest /\ (length rest = length b - 14)%nat.
Proof. intros Hb Hp. unfold ethernet_parse in Hp. parsed. injection Hp as <- <-. by eapply rest_at_typed. Qed.

Lemma ipv4_parse_typed b h rest :
  is_bytes b -> ipv4_parse b = Some (h, rest) -> ipv4_ok h /\ is_bytes rest /\ (length rest <= length b - 20)%nat.
Proof.
  intros Hb Hp. unfold ipv4_parse in Hp. destruct (_ <? _)%nat; [done|].
  apply bind_Some in Hp as (vi & Hvi & Hp). destruct (Nat.ltb_spec (Z.to_nat (Z.land vi 15) * 4) 20); [done|].
  destruct (_ <? _)%nat; [done|]. cbn [orb] in Hp. parsed. injection Hp as <- <-. split.
  - repeat (split; [solve [by eapply byte_at | by eapply u16_at_typed | by eapply arr_at_typed]|]). by eapply arr_at_typed.
  - destruct (rest_at_typed _ _ _ Hb ltac:(eassumption)) as [? ?]. split; [done|]. lia.
Qed.

Lemma icmp_parse_typed b h rest :
  is_bytes b -> icmp_parse b = Some (h, rest) ->
  is_byte (icmp_type h) /\ is_byte (icmp_code h) /\ is_array 4 (icmp_rest h) /\ is_bytes rest /\ (length rest <= length b)%nat.
Proof.
  intros Hb Hp. unfold icmp_parse in Hp. parsed. injection Hp as <- <-.
  repeat (split; [solve [by eapply byte_at | by eapply arr_at_typed]|]).
  destruct (rest_at_typed _ _ _ Hb ltac:(eassumption)) as [? ?]. split; [done|]. lia.
Qed.

Lemma tcp_parse_typed b h rest : is_bytes b -> tcp_parse b = Some (h, rest) -> header_typed h.
Proof.
  intros Hb Hp. unfold tcp_parse in Hp. parsed. injection Hp as <- <-.
  repeat (split; [solve [by eapply u16_at_typed | by eapply u32_at_typed]|]). by eapply u32_at_typed.
Qed.

(** Verifying the header checksum of any packet terminates. *)
Lemma parse_ipv4_total b :
  is_bytes b -> exists r, parse_ipv4_packet b = Done r /\
    forall h rest, r = Some (h, rest) -> ipv4_ok h /\ is_bytes rest /\ (length rest <= length b - 20)%nat.
Proof.
  intros Hb. unfold parse_ipv4_packet. destruct (ipv4_parse b) as [[h rest]|] eqn:E; [|by exists None].
  pose proof (ipv4_parse_typed _ _ _ Hb E) as Hh. destruct (ipv4_checksum_Done h (proj1 Hh)) as (c & Hc & _).
  unfold ipv4_verify_checksum. rewrite Hc. cbn [mbind exec_bind]. eexists. split; [done|].
  intros h' rest'. case_match; [|done]. by intros [= <- <-].
Qed.

(** ** The frame path *)

Lemma send_waiting_ok s idx mac ps out out' s' :
  service_ok s -> send_waiting s idx mac ps out = Done (out', s') ->
  service_ok s' /\ (length out' <= length out + length ps)%nat.
Proof.
  revert s out. induction ps as [|p ps IH]; intros s out Hs; cbn [send_waiting].
  { intros [= <- <-]. split; [done|lia]. }
  intros ([o1 s1] & [Hs1 Hl1]%transmit_ok & H2)%bind_Done; [|done].
  apply IH in H2 as [? ?]; [|done]. split; [done|]. simpl. lia.
Qed.

Lemma send_waiting_total s idx mac ps out n :
  0 <= n -> room s (n + Z.of_nat (length ps)) ->
  exists out' s', send_waiting s idx mac ps out = Done (out', s') /\ room s' n.
Proof.
  intros Hn. revert s out. induction ps as [|p ps IH]; intros s out Hr; cbn [send_waiting].
  { eexists _, _. split; [done|]. by rewrite Z.add_0_r in Hr. }
  destruct (transmit_total s idx (next_hop_ip p) mac (pp_data p) out (n + Z.of_nat (length ps))) as (o1 & s1 & H1 & Hr1);
    [lia|by replace (n + Z.of_nat (length ps) + 1) with (n + Z.of_nat (length (p :: ps))) by (simpl; lia)|].
  rewrite H1. by apply IH.
Qed.

Lemma drain_ok t ip : arp_ok t -> arp_ok (drain_pending t ip).2 /\ (length (drain_pending t ip).1 <= 8)%nat.
Proof.
  intros Ht. unfold drain_pending. destruct (entries t !! ip_key ip) as [e|] eqn:E; cbn [fst snd]; [|split; [done|simpl; lia]].
  destruct (Ht _ _ E) as [Hk Hq]. split; [by apply map_Forall_insert_2|].
  destruct (entry_state e); unfold ARP_MAX_PENDING in *; simpl; lia.
Qed.

(** What is sent when an address becomes known. *)
Lemma release_total s idx mac ip out n :
  service_ok s -> 0 <= n -> room s (n + 8) ->
  exists out' s', (let '(ps, a) := drain_pending (arp s) ip in send_waiting (set_arp s a) idx mac ps out) = Done (out', s') /\
    service_ok s' /\ (length out' <= length out + 8)%nat /\ room s' n.
Proof.
  intros Hs Hn Hr. pose proof (drain_ok (arp s) ip (so_arp s Hs)) as [Ha Hl].
  destruct (drain_pending (arp s) ip) as [ps a]. cbn [fst snd] in *.
  destruct (send_waiting_total (set_arp s a) idx mac ps out n Hn) as (o & s1 & H1 & Hr1).
  { eapply (room_mono s (n + 8)); [lia|done]. }
  exists o, s1. split; [done|]. apply send_waiting_ok in H1 as [? ?]; [|by apply set_arp_ok]. split; [done|]. split; [lia|done].
Qed.

Lemma handle_arp_total s idx pkt mac ip out n :
  service_ok s -> 0 <= n -> room s (n + 9) ->
  exists out' s', handle_arp s idx pkt mac ip out = Done (out', s') /\ service_ok s' /\
    (length out' <= length out + 9)%nat /\ room s' n.
Proof.
  intros Hs Hn Hr. unfold handle_arp.
  assert (arp_ok (handle_arp_packet (arp s) pkt mac ip).2) as Ha.
  { unfold handle_arp_packet. pose proof (so_arp s Hs). repeat case_match; try done; by apply arp_insert_ok. }
  destruct (handle_arp_packet (arp s) pkt mac ip) as [r a]. cbn [snd] in Ha. pose proof (set_arp_ok s a Hs Ha) as Hs1.
  destruct r as [reply| |].
  - match goal with |- context [record_tx ?x idx ?len] =>
      destruct (record_tx_room x idx len (n + 8)) as (c & Hc & Hrc & _);
        [lia|by replace (n + 8 + 1) with (n + 9) by lia|]; pose proof (record_tx_ok _ _ _ _ Hs1 Hc) as Hs2 end.
    rewrite Hc. cbn [mbind exec_bind].
    match goal with |- context [drain_pending (arp ?x) ?i] =>
      destruct (release_total x idx mac i (out ++ [SendFrame idx (arp_frame (mkEthernet (sender_mac pkt) mac ETHERTYPE_ARP) reply)]) n Hs2 Hn Hrc)
        as (o & s' & Ho & Hs' & Hl & Hr') end.
    exists o, s'. split; [exact Ho|]. split; [done|]. rewrite length_app in Hl. simpl in Hl. split; [lia|done].
  - destruct (release_total (set_arp s a) idx mac (sender_ip pkt) out n Hs1 Hn) as (o & s' & Ho & Hs' & Hl & Hr').
    { eapply (room_mono s (n + 9)); [lia|done]. }
    exists o, s'. split; [exact Ho|]. split; [done|]. split; [lia|done].
  - eexists _, _. split; [done|]. split; [done|]. split; [lia|]. eapply (room_mono s (n + 9)); [lia|done].
Qed.

Lemma set_icmp_ok s i : service_ok s -> service_ok (set_icmp s i).
Proof. by intros []. Qed.
Lemma set_udp_ok s u : service_ok s -> service_ok (set_udp s u).
Proof. by intros []. Qed.

Lemma echo_reply_total h payload :
  is_byte (icmp_type h) -> is_byte (icmp_code h) -> is_array 4 (icmp_rest h) -> is_bytes payload ->
  Z.of_nat (length payload) <= 65535 -> exists m, build_echo_reply h payload = Done m.
Proof.
  intros Ht Hc Hr Hb Hl. destruct (icmp_message_exact (mkIcmp ECHO_REPLY 0 0 (icmp_rest h)) payload) as (c & m & Hm & _);
    [unfold is_byte, ECHO_REPLY; simpl; lia..|done|done|done|]. by exists m.
Qed.

Lemma handle_icmp_total s h payload src now :
  is_byte (icmp_type h) -> is_byte (icmp_code h) -> is_array 4 (icmp_rest h) -> is_bytes payload ->
  Z.of_nat (length payload) <= 65535 -> exists r s', handle_icmp s h payload src now = Done (r, s').
Proof.
  intros Ht Hc Hr Hb Hl. destruct (echo_reply_total h payload Ht Hc Hr Hb Hl) as (m & Hm). unfold handle_icmp. rewrite Hm.
  cbn [mbind exec_bind]. repeat case_match; eauto.
Qed.

Lemma handle_ip_total s idx h payload mac ip now :
  service_ok s -> ipv4_ok h -> is_bytes payload -> Z.of_nat (length payload) <= 65535 -> is_array 4 ip -> room s 9 ->
  exists out s', handle_ip s idx h payload mac ip now = Done (out, s') /\ service_ok s' /\ (length out <= 9)%nat.
Proof.
  intros Hs Hh Hb Hl Hip Hr. unfold handle_ip.
  assert (forall x, service_ok x -> exists out s', Done ([] : list ServiceOutput, x) = Done (out, s') /\ service_ok s' /\ (length out <= 9)%nat) as Hnil
    by (intros x Hx; eexists _, _; split; [done|]; split; [done|simpl; lia]).
  destruct Hh as (_ & _ & _ & _ & _ & _ & _ & _ & Hsrc & Hdst).
  destruct (ip_protocol h =? PROTO_ICMP).
  { destruct (icmp_parse payload) as [[ih ipl]|] eqn:E; [|by apply Hnil].
    destruct (icmp_parse_typed _ _ _ Hb E) as (Ht & Hc & Hrs & Hb' & Hl').
    destruct (handle_icmp_total (icmp s) ih ipl (ip_src h) now Ht Hc Hrs Hb') as (r & i & Hi); [lia|].
    rewrite Hi. cbn [mbind exec_bind]. destruct r; try by apply Hnil, set_icmp_ok.
    destruct (build_ipv4_exact ip (ip_src h) PROTO_ICMP 64 0 (reply_data r)) as (h' & Hp & _);
      [done|done|unfold is_byte, in_uint, PROTO_ICMP; simpl; lia..|].
    rewrite Hp. cbn [mbind exec_bind].
    destruct (transmit_total (set_icmp s i) idx (ip_src h) mac (ipv4_bytes h' ++ reply_data r) [] 8) as (o & s1 & H1 & _); [lia|done|].
    exists o, s1. split; [done|]. apply transmit_ok in H1 as [? ?]; [|by apply set_icmp_ok]. split; [done|]. simpl in *. lia. }
  destruct (ip_protocol h =? PROTO_UDP).
  { destruct (udp_parse payload) as [[uh up]|]; [|by apply Hnil]. by apply Hnil, set_udp_ok. }
  destruct (ip_protocol h =? PROTO_TCP); [|by apply Hnil].
  destruct (tcp_parse payload) as [[th tp]|] eqn:E; [|by apply Hnil].
  destruct (handle_segment (tcp s) th tp (ip_src h) (ip_dst h) now) as [outs t] eqn:Hseg.
  destruct (handle_segment_typed _ _ _ _ _ _ _ _ (so_tcp s Hs) (tcp_parse_typed _ _ _ Hb E) Hsrc Hdst Hseg) as (Ht & Ho & Hn).
  destruct (emit_total (set_tcp s t) outs idx mac [] 0 Ho) as (o & s1 & H1 & _); [lia|apply (room_mono s 9); [lia|done]|].
  exists o, s1. split; [done|]. apply emit_ok in H1 as [? ?]; [|by apply set_tcp_ok]. split; [done|]. simpl in *. lia.
Qed.

Lemma record_rx_ok s idx len s' : service_ok s -> record_rx s idx len = Done s' -> service_ok s'.
Proof.
  intros Hs. unfold record_rx. destruct (counters_ s !! idx); [|by intros [= <-]].
  intros (f & _ & [= <-])%bind_Done. by apply set_counters_ok.
Qed.

Lemma iface_ip_ok s idx :
  service_ok s -> is_array 4 match interfaces s !! idx with Some i => if_ip i | None => UNSPECIFIED end.
Proof.
  intros Hs. destruct (interfaces s !! idx) as [i|] eqn:E.
  - exact (proj2 (Forall_lookup_1 _ _ _ _ (so_ifaces s Hs) E)).
  - split; [done|]. repeat (apply Forall_cons_2; [unfold is_byte; lia|]). constructor.
Qed.

(** The largest IP packet in its Ethernet frame. *)
Definition MAX_FRAME : Z := 65535 + 14.

Lemma handle_frame_total s idx frame now :
  service_ok s -> is_bytes frame -> Z.of_nat (length frame) <= MAX_FRAME -> room s 10 ->
  exists out s', handle_frame s idx frame now = Done (out, s') /\ service_ok s' /\ (length out <= 9)%nat.
Proof.
  intros Hs Hb Hl Hr. unfold handle_frame, MAX_FRAME in *.
  destruct (record_rx_room s idx (Z.of_nat (length frame)) 9 ltac:(lia) Hr) as (c & Hc & Hrc & _).
  pose proof (record_rx_ok _ _ _ _ Hs Hc) as Hs1. rewrite Hc. cbn [mbind exec_bind]. clear Hs Hr Hc.
  generalize dependent (set_counters s c). clear s c. intros s Hr Hs.
  assert (exists out s', Done ([] : list ServiceOutput, s) = Done (out, s') /\ service_ok s' /\ (length out <= 9)%nat) as Hnil
    by (eexists _, _; split; [done|]; split; [done|simpl; lia]).
  destruct (ethernet_parse frame) as [[eth payload]|] eqn:E; [|done].
  destruct (ethernet_parse_typed _ _ _ Hb E) as [Hb' Hl'].
  destruct (ether_type eth =? ETHERTYPE_ARP).
  { destruct (arp_parse payload) as [pkt|]; [|done].
    destruct (handle_arp_total s idx pkt (match interfaces s !! idx with Some i => if_mac i | None => zero_mac end)
      (match interfaces s !! idx with Some i => if_ip i | None => UNSPECIFIED end) [] 0 Hs ltac:(lia) Hr) as (o & s' & H1 & H2 & H3 & _).
    exists o, s'. done. }
  destruct (ether_type eth =? ETHERTYPE_IPV4); [|done].
  destruct (parse_ipv4_total payload Hb') as (r & Hp & Hok). rewrite Hp. cbn [mbind exec_bind].
  destruct r as [[h ipl]|]; [|done]. destruct (Hok _ _ eq_refl) as (Hh & Hbi & Hli).
  apply handle_ip_total; [done|done|done|lia|by apply iface_ip_ok|done].
Qed.

(** ** Every event keeps the invariant *)

Definition request_ok (req : SocketRequest) : Prop :=
  match req with
  | ReqConnect _ addr => addr_ok addr
  | ReqSend _ data _ => is_bytes data
  | _ => True
  end.
Definition event_ok (ev : SvcEvent) : Prop :=
  match ev with
  | EvInterface c => iface_ok c
  | EvFrame _ frame _ => is_bytes frame
  | EvRequest req => request_ok req
  | EvTick _ | EvDrain => True
  end.

Lemma release_ok s idx mac ip out out' s' :
  service_ok s -> (let '(ps, a) := drain_pending (arp s) ip in send_waiting (set_arp s a) idx mac ps out) = Done (out', s') ->
  service_ok s'.
Proof.
  intros Hs. pose proof (drain_ok (arp s) ip (so_arp s Hs)) as [Ha _]. destruct (drain_pending (arp s) ip) as [ps a].
  cbn [snd] in Ha. intros [? _]%send_waiting_ok; [done|by apply set_arp_ok].
Qed.

Lemma handle_arp_ok s idx pkt mac ip out out' s' :
  service_ok s -> handle_arp s idx pkt mac ip out = Done (out', s') -> service_ok s'.
Proof.
  intros Hs. unfold handle_arp.
  assert (arp_ok (handle_arp_packet (arp s) pkt mac ip).2) as Ha.
  { unfold handle_arp_packet. pose proof (so_arp s Hs). repeat case_match; try done; by apply arp_insert_ok. }
  destruct (handle_arp_packet (arp s) pkt mac ip) as [r a]. cbn [snd] in Ha. pose proof (set_arp_ok s a Hs Ha) as Hs1.
  destruct r as [reply| |].
  - intros (s2 & Hs2%record_tx_ok & Hd)%bind_Done; [|done]. by eapply release_ok.
  - by apply release_ok.
  - by intros [= <- <-].
Qed.

Lemma handle_frame_ok s0 idx frame now out s' :
  service_ok s0 -> is_bytes frame -> handle_frame s0 idx frame now = Done (out, s') -> service_ok s'.
Proof.
  intros Hs0 Hb. unfold handle_frame. intros (s & Hs%record_rx_ok & Hf)%bind_Done; [|done]. clear s0 Hs0.
  destruct (ethernet_parse frame) as [[eth payload]|] eqn:E; [|by injection Hf as <- <-].
  destruct (ethernet_parse_typed _ _ _ Hb E) as [Hb' _].
  destruct (ether_type eth =? ETHERTYPE_ARP).
  { destruct (arp_parse payload); [by apply handle_arp_ok in Hf|by injection Hf as <- <-]. }
  destruct (ether_type eth =? ETHERTYPE_IPV4); [|by injection Hf as <- <-].
  destruct (parse_ipv4_total payload Hb') as (r & Hp & Hok). rewrite Hp in Hf. cbn [mbind exec_bind] in Hf.
  destruct r as [[h ipl]|]; [|by injection Hf as <- <-].
  destruct (Hok _ _ eq_refl) as ((_ & _ & _ & _ & _ & _ & _ & _ & Hsrc & Hdst) & Hbi & _).
  revert Hf. unfold handle_ip. destruct (_ =? _).
  { destruct (icmp_parse ipl) as [[ih ip']|]; [|by intros [= <- <-]].
    intros ([x i] & _ & Hx)%bind_Done. pose proof (set_icmp_ok s i Hs). destruct x; try by injection Hx as <- <-.
    apply bind_Done in Hx as (pkt & _ & [? _]%transmit_ok); done. }
  destruct (_ =? _).
  { destruct (udp_parse ipl) as [[uh up]|]; intros [= <- <-]; [by apply set_udp_ok|done]. }
  destruct (_ =? _); [|by intros [= <- <-]].
  destruct (tcp_parse ipl) as [[th tp]|] eqn:E'; [|by intros [= <- <-]].
  destruct (handle_segment (tcp s) th tp (ip_src h) (ip_dst h) now) as [outs t] eqn:Hseg.
  destruct (handle_segment_typed _ _ _ _ _ _ _ _ (so_tcp s Hs) (tcp_parse_typed _ _ _ Hbi E') Hsrc Hdst Hseg) as (Ht & _).
  intros [? _]%emit_ok; [done|by apply set_tcp_ok].
Qed.

Lemma expire_ok t now timeout : arp_ok t -> arp_ok (expire_stale t now timeout).
Proof.
  intros Ht k e He. cbn [entries expire_stale] in He. rewrite lookup_omap in He.
  destruct (entries t !! k) as [e0|] eqn:E; [|done]. exact (expire_entry_ok _ _ _ _ _ (Ht _ _ E) He).
Qed.
Lemma due_ok t now : arp_ok t -> arp_ok (due_retransmits t now).2.
Proof.
  intros Ht. unfold arp_ok. cbn. apply map_Forall_fmap. intros k e He. pose proof (Ht _ _ He) as Hk. cbn.
  unfold stamp_request. by case_match.
Qed.

Lemma arp_requests_ok s ts mac ip out out' s' :
  service_ok s -> send_arp_requests s ts mac ip out = Done (out', s') -> service_ok s'.
Proof.
  revert s out. induction ts as [|t ts IH]; intros s out Hs; cbn [send_arp_requests]; [by intros [= <- <-]|].
  intros (s1 & Hs1%record_tx_ok & H2)%bind_Done; [|done]. by eapply IH.
Qed.

Lemma service_tick_ok s now out s' : service_ok s -> tick s now = Done (out, s') -> service_ok s'.
Proof.
  intros Hs. unfold tick. intros ([o1 s1] & H1 & H2)%bind_Done.
  assert (service_ok s1) as Hs1.
  { pose proof (set_arp_ok s _ Hs (expire_ok _ (now / 1000) ARP_TIMEOUT_SECS (so_arp s Hs))) as Hx. revert H1 Hx.
    generalize (set_arp s (expire_stale (arp s) (now / 1000) ARP_TIMEOUT_SECS)). intros s0 H1 Hx.
    destruct (interfaces s0) as [|i l]; [by injection H1 as <- <-|].
    pose proof (due_ok (arp s0) (now / 1000) (so_arp s0 Hx)) as Hd. destruct (due_retransmits _ _) as [ts a].
    apply arp_requests_ok in H1; [done|by apply set_arp_ok]. }
  destruct (Tcp.tick (tcp s1) now) as [outs t] eqn:Et. apply tcp_tick_typed in Et as [Ht _]; [|apply (so_tcp s1 Hs1)].
  apply emit_ok in H2 as [? _]; [done|by apply set_tcp_ok].
Qed.

Lemma first_ip_ok s : service_ok s -> is_array 4 (first_ip s).
Proof.
  intros Hs. pose proof (iface_ip_ok s 0 Hs) as Hi. unfold first_ip. by destruct (interfaces s).
Qed.

Lemma send_syn_ok s outs mac ip s' : service_ok s -> send_syn s outs mac ip = Done s' -> service_ok s'.
Proof.
  revert s. induction outs as [|o outs IH]; intros s Hs; cbn [send_syn]; [by intros [= <-]|].
  destruct o; try by apply IH. intros (data & _ & (s1 & H1 & H2)%bind_Done)%bind_Done. apply IH in H2; [done|].
  assert (forall x f, service_ok x ->
    (y ← record_tx x 0 (Z.of_nat (length f)); Done (set_pending_tx y (pending_tx y ++ [SendFrame 0 f]))) = Done s1 -> service_ok s1) as Hq.
  { intros x f Hx (y & Hy%record_tx_ok & [= <-])%bind_Done; [|done]. by destruct Hy. }
  pose proof (resolve_ok (arp s) dst_ip (Some (mkPending data dst_ip)) (so_arp s Hs)) as Ha.
  revert H1. unfold wrap_in_ethernet. destruct (resolve (arp s) dst_ip _) as [[m|] a]; cbn [snd] in Ha;
    intros H1; (eapply Hq; [|exact H1]); by apply set_arp_ok.
Qed.

Lemma queue_outputs_ok s outs s' : service_ok s -> queue_outputs s outs = Done s' -> service_ok s'.
Proof.
  intros Hs. unfold queue_outputs. intros ([o s1] & [Hs1 _]%emit_ok & [= <-])%bind_Done; [|done]. by destruct Hs1.
Qed.

Lemma connect_ok s handle addr r s' :
  service_ok s -> addr_ok addr -> do_connect s handle addr = Done (r, s') -> service_ok s'.
Proof.
  intros Hs Ha. unfold do_connect. destruct (pending_connect s); [by intros [= <- <-]|]. cbn [alloc_ephemeral_port].
  pose proof (so_port s Hs) as Hp. unfold EPHEMERAL_PORT_START, EPHEMERAL_PORT_END in Hp.
  intros ([[rr outs] t] & Hc & Hk)%bind_Done. cbn [tcp set_port] in Hc.
  apply connect_typed in Hc as [Ht _]; [|apply (so_tcp s Hs)|split; [by apply first_ip_ok|unfold in_uint; simpl; lia]|done].
  assert (forall p, (if EPHEMERAL_PORT_END <=? next_ephemeral_port s then EPHEMERAL_PORT_START else next_ephemeral_port s + 1) = p ->
    EPHEMERAL_PORT_START <= p <= EPHEMERAL_PORT_END) as Hport.
  { intros p <-. unfold EPHEMERAL_PORT_START, EPHEMERAL_PORT_END in *. destruct (Z.leb_spec 65534 (next_ephemeral_port s)); lia. }
  destruct rr as [key|e].
  - apply bind_Done in Hk as (s1 & Hs1%send_syn_ok & [= <- <-]); [done|]. destruct Hs. by split; [| | |apply Hport].
  - injection Hk as <- <-. destruct Hs. by split; [| | |apply Hport].
Qed.

Lemma request_keeps_ok `{Lowercase} s req r s' :
  service_ok s -> request_ok req -> handle_socket_request s req = Done (r, s') -> service_ok s'.
Proof.
  intros Hs Hreq. pose proof (so_tcp s Hs) as Ht.
  assert (forall x n, service_ok x -> alloc_handle x = Done (r, n) -> service_ok n) as Hah.
  { intros x n Hx. unfold alloc_handle. intros (k & _ & [= <- <-])%bind_Done. by destruct Hx. }
  destruct req; cbn [handle_socket_request request_ok] in *; try (by intros [= <- <-]; destruct Hs).
  - by apply Hah.
  - destruct (udp_bind _ _) as [[p|e] u]; intros [= <- <-]; by apply set_udp_ok.
  - destruct (tcp_listen _ _ _) as [p t] eqn:E. intros [= <- <-]. apply set_tcp_ok; [done|]. by eapply listen_typed.
  - destruct (accept _ _) as [k t] eqn:E. apply accept_typed in E; [|done]. pose proof (set_tcp_ok s t Hs E).
    destruct k; [by apply Hah|by intros [= <- <-]].
  - by apply connect_ok.
  - destruct (socket_state s !! handle) as [k|]; [|by intros [= <- <-]].
    destruct (send _ _ _) as [[x outs] t] eqn:E. apply send_typed in E as [Ht' _]; [|done|done].
    pose proof (set_tcp_ok s t Hs Ht'). destruct x; [|by intros [= <- <-]].
    intros (s1 & Hs1%queue_outputs_ok & [= <- <-])%bind_Done; done.
  - destruct (socket_state s !! handle) as [k|]; [|by intros [= <- <-]].
    destruct (recv _ _ _) as [x t] eqn:E. intros [= <- <-]. apply set_tcp_ok; [done|]. by eapply recv_typed.
  - by intros (x & _ & [= <- <-])%bind_Done.
  - destruct (recvfrom _ _) as [x u]. intros [= <- <-]. by apply set_udp_ok.
  - unfold do_close. cbn [socket_state set_options]. destruct (socket_state s !! handle) as [k|].
    + cbn [tcp set_handles set_options]. destruct (close _ _) as [[x outs] t] eqn:E. apply close_typed in E as [Ht' _]; [|done].
      intros (s1 & Hs1%queue_outputs_ok & [= <- <-])%bind_Done; [done|]. by destruct Hs.
    + intros [= <- <-]. by destruct Hs.
Qed.

Lemma step_ok `{Lowercase} s ev rs os s' :
  service_ok s -> event_ok ev -> svc_step s ev = Done (rs, os, s') -> service_ok s'.
Proof.
  intros Hs He. destruct ev; cbn [svc_step event_ok] in *.
  - intros [= <- <- <-]. destruct Hs. split; try done. apply Forall_app. split; [done|by apply Forall_singleton].
  - intros ([o s1] & Hk%handle_frame_ok & [= <- <- <-])%bind_Done; done.
  - intros ([o s1] & Hk%service_tick_ok & [= <- <- <-])%bind_Done; done.
  - intros ([r s1] & Hk%request_keeps_ok & [= <- <- <-])%bind_Done; done.
  - intros [= <- <- <-]. by destruct Hs.
Qed.

Lemma run_ok `{Lowercase} evs s rs os s' :
  service_ok s -> Forall event_ok evs -> svc_run s evs = Done (rs, os, s') -> service_ok s'.
Proof.
  intros Hs He. revert s rs os s' Hs. induction He as [|ev evs He _ IH]; intros s rs os s' Hs; cbn [svc_run]; [by intros [= <- <- <-]|].
  intros ([[r o] s1] & H1%step_ok & H2)%bind_Done; [|done|done].
  apply bind_Done in H2 as ([[rs1 os1] s2] & H2%IH & [= <- <- <-]); done.
Qed.

(** C11. No frame makes the service panic: after any run of frames, requests and ticks on a fresh
    service, whatever bytes arrive next on any interface, they are handled to the end: every parser
    stays in bounds, every segment, ARP and ICMP reply can be built and its checksum computed
    without overflow, and at most nine outputs result (a reply and the eight packets that can wait
    for an address), as long as the frame is no longer than an IP packet and the frame counters
    have room. *)
Theorem frames_never_panic `{Lowercase} (evs : list SvcEvent) (rs : list SocketResponse)
    (os : list ServiceOutput) (s : NetworkService) (idx : nat) (frame : bytes) (now : Z) :
  Forall event_ok evs -> svc_run NetworkService_new evs = Done (rs, os, s) ->
  is_bytes frame -> Z.of_nat (length frame) <= MAX_FRAME -> room s 10 ->
  exists out s', handle_frame s idx frame now = Done (out, s') /\ (length out <= 9)%nat.
Proof.
  intros He Hrun Hb Hl Hr. apply run_ok in Hrun; [|apply service_new_ok|done].
  destruct (handle_frame_total s idx frame now Hrun Hb Hl Hr) as (out & s' & Hf & _ & Hn). by exists out, s'.
Qed.

Definition hostile_run : list SvcEvent :=
  [EvInterface demo_if_b; EvRequest (ReqListen 80 5);
   EvFrame 0 (request_frame demo_if_a demo_if_b) 1000; EvTick 2000].

(** The run ends, with four frames counted at most. *)
Lemma hostile_run_ends :
  exists rs os s, svc_run NetworkService_new hostile_run = Done (rs, os, s) /\ counters_ s = [mkCounters 42 42 1 1].
Proof.
  assert (match svc_run NetworkService_new hostile_run with
          | Done (_, _, s) => counters_ s = [mkCounters 42 42 1 1] | Panic => False end) as Hc by (vm_compute; reflexivity).
  revert Hc. generalize (svc_run NetworkService_new hostile_run). intros [[[rs os] s]|] Hc; [|done]. by exists rs, os, s.
Qed.

Lemma frames_never_panic_witness :
  exists rs os s out s', svc_run NetworkService_new hostile_run = Done (rs, os, s) /\
    handle_frame s 0 (replicate 60 255) 3000 = Done (out, s') /\ (length out <= 9)%nat.
Proof.
  destruct hostile_run_ends as (rs & os & s & E & Hc). exists rs, os, s.
  destruct (frames_never_panic hostile_run rs os s 0 (replicate 60 255) 3000) as (out & s' & Hf & Hl).
  - apply Forall_cons_2; [apply demo_b_ok|]. apply Forall_cons_2; [exact I|]. apply Forall_cons_2; [|by apply Forall_singleton].
    cbn [event_ok]. let f := eval vm_compute in (request_frame demo_if_a demo_if_b) in
      replace (request_frame demo_if_a demo_if_b) with f by (vm_compute; reflexivity).
    repeat (apply Forall_cons_2; [unfold is_byte; lia|]). constructor.
  - exact E.
  - apply Forall_replicate. unfold is_byte. lia.
  - by rewrite length_replicate.
  - unfold room. rewrite Hc. apply Forall_singleton. cbn. lia.
  - exists out, s'. split; [exact E|]. split; [exact Hf|exact Hl].
Defined.
