(* ===== verification/Fat.v ===== *)
(** * FAT volumes

    [nexacore-fatfs]: the reader of FAT12, FAT16 and FAT32 images ([lib.rs]), the FAT16 writer the
    installer stages the boot loader with ([write.rs]) and the FAT16 formatter ([mkfat.rs]).  The
    writer borrows the image mutably: its methods pass the image on, also on their error paths.
    File names are lists of characters and byte strings are lists of bytes; the writer only accepts
    ASCII names, for which the two coincide. *)

From S2P Require Import Prelude.

Inductive FatError := Truncated | Corrupt | BadCluster | ChainCycle | NotADirectory | NoSpace | InvalidPath | Unsupported.
Inductive FatType := Fat12 | Fat16 | Fat32.

#[export] Instance FatError_eq_dec : EqDecision FatError.
Proof. solve_decision. Defined.
#[export] Instance FatType_eq_dec : EqDecision FatType.
Proof. solve_decision. Defined.

Definition rd_u8 (b : bytes) (off : Z) : result FatError Z := ok_or (b !! Z.to_nat off) Truncated.
Definition rd_u16 (b : bytes) (off : Z) : result FatError Z := ok_or (from_le <$> get_range b off 2) Truncated.
Definition rd_u32 (b : bytes) (off : Z) : result FatError Z := ok_or (from_le <$> get_range b off 4) Truncated.

Definition is_power_of_two (x : Z) : bool := (0 <? x) && (Z.land x (x - 1) =? 0).
Definition div_ceil (a b : Z) : Z := (a + b - 1) / b.

(** ** The BIOS parameter block *)

Record Bpb := mkBpb {
  bytes_per_sector : Z;
  sectors_per_cluster : Z;
  reserved_sectors : Z;
  num_fats : Z;
  root_entries : Z;
  total_sectors : Z;
  fat_size_sectors : Z;
  root_cluster : Z
}.

Definition parse_bpb (image : bytes) : result FatError Bpb :=
  if Z.of_nat (length image) <? 512 then Err Truncated
  else
    sig ← rd_u16 image 510;
    if negb (sig =? 0xAA55) then Err Corrupt
    else
      bps ← rd_u16 image 11;
      spc ← rd_u8 image 13;
      res ← rd_u16 image 14;
      nf ← rd_u8 image 16;
      re ← rd_u16 image 17;
      if (bps <? 512) || negb (is_power_of_two bps) || (spc =? 0) || negb (is_power_of_two spc) || (res =? 0) || (nf =? 0)
      then Err Corrupt
      else
        total_16 ← rd_u16 image 19;
        fat_16 ← rd_u16 image 22;
        total ← (if negb (total_16 =? 0) then Ok total_16 else rd_u32 image 32);
        fatsz ← (if negb (fat_16 =? 0) then Ok fat_16 else rd_u32 image 36);
        rootc ← (if fat_16 =? 0 then rd_u32 image 44 else Ok 0);
        if (total =? 0) || (fatsz =? 0) then Err Corrupt
        else Ok (mkBpb bps spc res nf re total fatsz rootc).

Definition root_dir_sectors (b : Bpb) : Z := div_ceil (root_entries b * 32) (bytes_per_sector b).

(** [u32] arithmetic, which panics when it overflows. *)
Definition first_data_sector (b : Bpb) : exec Z :=
  f ← mul_uint 32 (num_fats b) (fat_size_sectors b);
  s ← add_uint 32 (reserved_sectors b) f;
  add_uint 32 s (root_dir_sectors b).

Definition cluster_count (b : Bpb) : exec Z :=
  f ← first_data_sector b;
  Done (saturating_sub (total_sectors b) f / sectors_per_cluster b).

Definition fat_type_of (count : Z) : FatType :=
  if count <=? 4084 then Fat12 else if count <=? 65524 then Fat16 else Fat32.
Definition bpb_fat_type (b : Bpb) : exec FatType := c ← cluster_count b; Done (fat_type_of c).

(** ** The reader *)

Record DirEntry := mkEntry { e_name : str; is_dir : bool; read_only : bool; first_cluster : Z; e_size : Z }.

Definition ATTR_READ_ONLY : Z := 0x01.
Definition ATTR_VOLUME_ID : Z := 0x08.
Definition ATTR_DIRECTORY : Z := 0x10.
Definition ATTR_LFN : Z := 0x0F.
Definition ENTRY_END : Z := 0x00.
Definition ENTRY_DELETED : Z := 0xE5.

Record FatFs := mkFs { image : bytes; bpb : Bpb; fat_type : FatType }.

Definition open (img : bytes) : exec (result FatError FatFs) :=
  match parse_bpb img with
  | Err e => Done (Err e)
  | Ok b => t ← bpb_fat_type b; Done (Ok (mkFs img b t))
  end.

(** [?] in code that can also panic. *)
Definition try_ {A B} (m : exec (result FatError A)) (f : A -> exec (result FatError B)) : exec (result FatError B) :=
  r ← m; match r with Ok a => f a | Err e => Done (Err e) end.
Notation "'let?' x := m 'in' k" := (try_ m (fun x => k)) (at level 10, x pattern, m at level 100, k at level 200) : nexa_scope.
#[local] Open Scope nexa_scope.

Definition sector_offset (fs : FatFs) (sector : Z) : result FatError Z := ok_or (checked_mul 64 sector (bytes_per_sector (bpb fs))) Corrupt.

Definition cluster_offset (fs : FatFs) (cluster : Z) : exec (result FatError Z) :=
  if cluster <? 2 then Done (Err BadCluster)
  else
    f ← first_data_sector (bpb fs);
    match checked_mul 32 (cluster - 2) (sectors_per_cluster (bpb fs)) with
    | None => Done (Err BadCluster)
    | Some o => sector ← add_uint 32 f o; Done (sector_offset fs sector)
    end.

Definition cluster_bytes (fs : FatFs) (cluster : Z) : exec (result FatError bytes) :=
  let? start := cluster_offset fs cluster in
  let len := sectors_per_cluster (bpb fs) * bytes_per_sector (bpb fs) in
  Done (match checked_add 64 start len with
        | None => Err Corrupt
        | Some _ => ok_or (get_range (image fs) start len) Truncated
        end).

Definition eoc_threshold (fs : FatFs) : Z :=
  match fat_type fs with Fat12 => 0x0FF8 | Fat16 => 0xFFF8 | Fat32 => 0x0FFFFFF8 end.

Definition next_cluster (fs : FatFs) (n : Z) : result FatError Z :=
  fat_start ← sector_offset fs (reserved_sectors (bpb fs));
  match fat_type fs with
  | Fat16 => rd_u16 (image fs) (fat_start + n * 2)
  | Fat32 => v ← rd_u32 (image fs) (fat_start + n * 4); Ok (Z.land v 0x0FFFFFFF)
  | Fat12 =>
      raw ← rd_u16 (image fs) (fat_start + n + n / 2);
      Ok (if Z.land n 1 =? 1 then Z.shiftr raw 4 else Z.land raw 0x0FFF)
  end.

(** [for _ in 0..max_steps]. *)
Fixpoint chain_loop (steps : nat) (fs : FatFs) (cluster : Z) (out : bytes) : exec (result FatError bytes) :=
  match steps with
  | O => Done (Err ChainCycle)
  | S steps =>
      let? bs := cluster_bytes fs cluster in
      let? next := Done (next_cluster fs cluster) in
      if (eoc_threshold fs <=? next) || (next <? 2) then Done (Ok (out ++ bs))
      else if next =? cluster then Done (Err ChainCycle)
      else chain_loop steps fs next (out ++ bs)
  end.
Definition read_chain (fs : FatFs) (first : Z) : exec (result FatError bytes) :=
  if first <? 2 then Done (Ok [])
  else c ← cluster_count (bpb fs); chain_loop (Z.to_nat (c + 2)) fs first [].

(** ** Directory entries *)

Definition decode_short_name (raw : bytes) : str :=
  let base := take 8 raw in
  let base := match base with 0x05 :: r => 0xE5 :: r | _ => base end in
  let name := filter (fun b => b <> 32) base in
  let ext := filter (fun b => b <> 32) (take 3 (drop 8 raw)) in
  if bool_decide (ext = []) then name else name ++ [46] ++ ext.

(** The thirteen units of a long-name entry. *)
Definition lfn_offsets : list Z := [1; 3; 5; 7; 9; 14; 16; 18; 20; 22; 24; 28; 30].
Definition accumulate_lfn (raw : bytes) (buf : list Z) : list Z :=
  let seq := Z.land (default 0 (raw !! 0%nat)) 0x1F in
  if seq =? 0 then buf
  else
    let base := (seq - 1) * 13 in
    let buf := buf ++ replicate (Z.to_nat (base + 13) - length buf) 0 in
    splice buf (Z.to_nat base) ((fun off => match get_range raw off 2 with Some s => from_le s | None => 0 end) <$> lfn_offsets).

(** [char::decode_utf16] with U+FFFD for an unpaired surrogate. *)
Fixpoint decode_utf16 (units : list Z) : str :=
  match units with
  | [] => []
  | u :: rest =>
      if (0xD800 <=? u) && (u <? 0xDC00) then
        match rest with
        | v :: rest' =>
            if (0xDC00 <=? v) && (v <? 0xE000) then (0x10000 + (u - 0xD800) * 1024 + (v - 0xDC00)) :: decode_utf16 rest'
            else 0xFFFD :: decode_utf16 rest
        | [] => [0xFFFD]
        end
      else if (0xDC00 <=? u) && (u <? 0xE000) then 0xFFFD :: decode_utf16 rest
      else u :: decode_utf16 rest
  end.
Fixpoint until_pad (units : list Z) : list Z :=
  match units with [] => [] | u :: rest => if (u =? 0) || (u =? 0xFFFF) then [] else u :: until_pad rest end.
Definition assemble_lfn (units : list Z) : str := decode_utf16 (until_pad units).

(** One slot: stop, or the long name so far and the entry it gives. *)
Definition parse_slot (raw : bytes) (lfn : list Z) : option (list Z * option (result FatError DirEntry)) :=
  let first := default 0 (raw !! 0%nat) in
  if first =? ENTRY_END then None
  else if first =? ENTRY_DELETED then Some ([], None)
  else
    let attr := default 0 (raw !! 11%nat) in
    if attr =? ATTR_LFN then Some (accumulate_lfn raw lfn, None)
    else if negb (Z.land attr ATTR_VOLUME_ID =? 0) then Some ([], None)
    else
      let name := if bool_decide (lfn = []) then decode_short_name raw else assemble_lfn lfn in
      Some ([],
        Some (hi ← rd_u16 raw 20; lo ← rd_u16 raw 26; size ← rd_u32 raw 28;
              Ok (mkEntry name (negb (Z.land attr ATTR_DIRECTORY =? 0)) (negb (Z.land attr ATTR_READ_ONLY =? 0))
                    (Z.lor (Z.shiftl hi 16) lo) size))).

(** [while let Some(raw) = bytes.get(offset..offset + 32)]: the length of the region is enough fuel. *)
Fixpoint parse_loop (fuel : nat) (bs : bytes) (offset : Z) (lfn : list Z) (entries : list DirEntry) : result FatError (list DirEntry) :=
  match fuel with
  | O => Ok entries
  | S fuel =>
      match get_range bs offset 32 with
      | None => Ok entries
      | Some raw =>
          match parse_slot raw lfn with
          | None => Ok entries
          | Some (lfn, None) => parse_loop fuel bs (offset + 32) lfn entries
          | Some (lfn, Some (Ok e)) => parse_loop fuel bs (offset + 32) lfn (entries ++ [e])
          | Some (_, Some (Err e)) => Err e
          end
      end
  end.
Definition parse_dir (bs : bytes) : result FatError (list DirEntry) := parse_loop (S (length bs)) bs 0 [] [].

Definition root_dir_bytes (fs : FatFs) : Z := root_dir_sectors (bpb fs) * bytes_per_sector (bpb fs).
Definition root (fs : FatFs) : exec (result FatError (list DirEntry)) :=
  match fat_type fs with
  | Fat32 => let? bs := read_chain fs (root_cluster (bpb fs)) in Done (parse_dir bs)
  | Fat12 | Fat16 =>
      f ← first_data_sector (bpb fs);
      Done (data ← sector_offset fs f;
            if data <? root_dir_bytes fs then Err Corrupt
            else
              let start := data - root_dir_bytes fs in
              match checked_add 64 start (root_dir_bytes fs) with
              | None => Err Corrupt
              | Some _ => region ← ok_or (get_range (image fs) start (root_dir_bytes fs)) Truncated; parse_dir region
              end)
  end.
Definition read_dir (fs : FatFs) (e : DirEntry) : exec (result FatError (list DirEntry)) :=
  if negb (is_dir e) then Done (Err NotADirectory)
  else let? bs := read_chain fs (first_cluster e) in Done (parse_dir bs).
Definition read_file (fs : FatFs) (e : DirEntry) : exec (result FatError bytes) :=
  let? bs := read_chain fs (first_cluster e) in Done (Ok (take (Z.to_nat (e_size e)) bs)).

(** ** The writer

    Methods of [FatWriter] take the image and give it back, changed, with their result. *)

Definition io (A : Type) : Type := bytes -> result FatError A * bytes.
Definition io_bind {A B} (m : io A) (f : A -> io B) : io B :=
  fun img => match m img with (Ok a, img) => f a img | (Err e, img) => (Err e, img) end.
Definition io_ret {A} (a : A) : io A := fun img => (Ok a, img).
Definition io_fail {A} (e : FatError) : io A := fun img => (Err e, img).
(** A read of the image. *)
Definition io_read {A} (f : bytes -> result FatError A) : io A := fun img => (f img, img).
Notation "'let!' x := m 'in' k" := (io_bind m (fun x => k)) (at level 10, x pattern, m at level 100, k at level 200) : nexa_scope.

Definition FAT16_EOC : Z := 0xFFFF.
Definition FAT16_FREE : Z := 0x0000.
Definition DIR_ENTRY_SIZE : Z := 32.
Definition ATTR_ARCHIVE : Z := 0x20.
(** [DATA_CLUSTERS.contains(&next)]. *)
Definition is_data_cluster (next : Z) : bool := (2 <=? next) && (next <? 0xFFF8).

Inductive Dir := Root | Chain (first : Z).
Record Found := mkFound { f_first : Z; f_is_dir : bool }.

Record FatWriter := mkWriter {
  cluster_size : Z;
  fat_start : Z;
  fat_size_bytes : Z;
  w_num_fats : Z;
  root_start : Z;
  root_slots : Z;
  data_start : Z;
  w_cluster_count : Z
}.

Definition writer_new (img : bytes) : exec (result FatError FatWriter) :=
  match parse_bpb img with
  | Err e => Done (Err e)
  | Ok b =>
      t ← bpb_fat_type b;
      if negb (bool_decide (t = Fat16)) then Done (Err Unsupported)
      else
        f ← first_data_sector b;
        c ← cluster_count b;
        let bps := bytes_per_sector b in
        Done (Ok (mkWriter (sectors_per_cluster b * bps) (reserved_sectors b * bps) (fat_size_sectors b * bps) (num_fats b)
          ((reserved_sectors b + num_fats b * fat_size_sectors b) * bps) (root_entries b) (f * bps) c))
  end.

(** [b.get_mut(off..off + d.len()).ok_or(Truncated)?.copy_from_slice(d)]. *)
Definition wr_bytes (off : Z) (d : bytes) : io () := fun img =>
  if off + Z.of_nat (length d) <=? Z.of_nat (length img) then (Ok (), put_range img off d) else (Err Truncated, img).
Definition wr_u8 (off v : Z) : io () := wr_bytes off [v].
Definition wr_u16 (off v : Z) : io () := wr_bytes off (to_le 2 v).
Definition wr_u32 (off v : Z) : io () := wr_bytes off (to_le 4 v).

Section writer.
Context (w : FatWriter).

Definition fat_get (cluster : Z) : io Z := io_read (fun img => rd_u16 img (fat_start w + cluster * 2)).

(** [for copy in 0..self.num_fats], [n] copies from [copy]. *)
Fixpoint fat_set_loop (n : nat) (copy cluster value : Z) : io () :=
  match n with
  | O => io_ret ()
  | S n =>
      let! _ := wr_u16 (fat_start w + copy * fat_size_bytes w + cluster * 2) value in
      fat_set_loop n (copy + 1) cluster value
  end.
Definition fat_set (cluster value : Z) : io () := fat_set_loop (Z.to_nat (w_num_fats w)) 0 cluster value.

Definition w_cluster_offset (cluster : Z) : result FatError Z :=
  if cluster <? 2 then Err BadCluster
  else ok_or (o ← checked_mul 64 (cluster - 2) (cluster_size w); checked_add 64 o (data_start w)) BadCluster.

Definition zero_cluster (cluster : Z) : io () :=
  let! start := io_read (fun _ => w_cluster_offset cluster) in
  let! _ := io_read (fun _ => ok_or (checked_add 64 start (cluster_size w)) BadCluster) in
  wr_bytes start (replicate (Z.to_nat (cluster_size w)) 0).

(** [for cluster in 2..=last], [n] clusters from [cluster]. *)
Fixpoint alloc_loop (n : nat) (cluster : Z) : io Z :=
  match n with
  | O => io_fail NoSpace
  | S n =>
      let! v := fat_get cluster in
      if v =? FAT16_FREE then
        let! _ := fat_set cluster FAT16_EOC in
        let! _ := zero_cluster cluster in
        io_ret cluster
      else alloc_loop n (cluster + 1)
  end.
Definition alloc_cluster : io Z := alloc_loop (Z.to_nat (w_cluster_count w)) 2.

Fixpoint chain_data (chunks : list bytes) (first prev : Z) : io Z :=
  match chunks with
  | [] => io_ret first
  | chunk :: chunks =>
      let! cluster := alloc_cluster in
      let! _ := (if first =? 0 then io_ret ()
                 else if cluster <? 65536 then fat_set prev cluster else io_fail BadCluster) in
      let! start := io_read (fun _ => w_cluster_offset cluster) in
      let! _ := io_read (fun _ => ok_or (checked_add 64 start (Z.of_nat (length chunk))) BadCluster) in
      let! _ := wr_bytes start chunk in
      chain_data chunks (if first =? 0 then cluster else first) cluster
  end.
Definition write_data_chain (d : bytes) : io Z :=
  if bool_decide (d = []) then io_ret 0 else chain_data (chunks_of (length d) (Z.to_nat (cluster_size w)) d) 0 0.

(** The slots of one cluster at [base]. *)
Definition slots_from (base : Z) (n : nat) : list Z := (fun i => base + Z.of_nat i * DIR_ENTRY_SIZE) <$> seq 0 n.
Definition per_cluster : nat := Z.to_nat (cluster_size w / DIR_ENTRY_SIZE).

(** [for _ in 0..max_steps]. *)
Fixpoint slots_loop (steps : nat) (cluster : Z) (slots : list Z) : io (list Z) :=
  match steps with
  | O => io_ret slots
  | S steps =>
      if cluster <? 2 then io_ret slots
      else
        let! base := io_read (fun _ => w_cluster_offset cluster) in
        let slots := slots ++ slots_from base per_cluster in
        let! next := fat_get cluster in
        if negb (is_data_cluster next) then io_ret slots
        else if next =? cluster then io_fail ChainCycle
        else slots_loop steps next slots
  end.
Definition max_steps : nat := Z.to_nat (w_cluster_count w + 2).
Definition dir_slots (dir : Dir) : io (list Z) :=
  match dir with
  | Root => io_ret (slots_from (root_start w) (Z.to_nat (root_slots w)))
  | Chain first => slots_loop max_steps first []
  end.

(** One slot of a search: the end, a match, or neither. *)
Definition find_slot (raw name : bytes) : result FatError (option (option Found)) :=
  first ← ok_or (raw !! 0%nat) Truncated;
  if first =? 0 then Ok (Some None)
  else if first =? ENTRY_DELETED then Ok None
  else
    attr ← ok_or (raw !! 11%nat) Truncated;
    if (attr =? 0x0F) || negb (Z.land attr 0x08 =? 0) then Ok None
    else if bool_decide (take 11 raw = name) then
      hi ← rd_u16 raw 20;
      lo ← rd_u16 raw 26;
      Ok (Some (Some (mkFound (Z.lor (Z.shiftl hi 16) lo) (negb (Z.land attr ATTR_DIRECTORY =? 0)))))
    else Ok None.
Fixpoint find_loop (slots : list Z) (name img : bytes) : result FatError (option Found) :=
  match slots with
  | [] => Ok None
  | off :: slots =>
      raw ← ok_or (get_range img off DIR_ENTRY_SIZE) Truncated;
      r ← find_slot raw name;
      match r with Some res => Ok res | None => find_loop slots name img end
  end.
Definition find (dir : Dir) (name : bytes) : io (option Found) :=
  let! slots := dir_slots dir in io_read (find_loop slots name).

Fixpoint free_loop (slots : list Z) (img : bytes) : result FatError (option Z) :=
  match slots with
  | [] => Ok None
  | off :: slots =>
      first ← ok_or (img !! Z.to_nat off) Truncated;
      if (first =? 0) || (first =? ENTRY_DELETED) then Ok (Some off) else free_loop slots img
  end.

Fixpoint last_loop (steps : nat) (cluster : Z) : io Z :=
  match steps with
  | O => io_fail ChainCycle
  | S steps =>
      let! next := fat_get cluster in
      if negb (is_data_cluster next) then io_ret cluster
      else if next =? cluster then io_fail ChainCycle
      else last_loop steps next
  end.
Definition chain_last (first : Z) : io Z := last_loop max_steps first.

Definition free_slot (dir : Dir) : io Z :=
  let! slots := dir_slots dir in
  let! r := io_read (free_loop slots) in
  match r with
  | Some off => io_ret off
  | None =>
      match dir with
      | Root => io_fail NoSpace
      | Chain first =>
          let! last := chain_last first in
          let! fresh := alloc_cluster in
          let! _ := (if fresh <? 65536 then fat_set last fresh else io_fail BadCluster) in
          io_read (fun _ => w_cluster_offset fresh)
      end
  end.

Definition write_entry_at (off : Z) (name : bytes) (attr first size : Z) : io () :=
  let! _ := wr_bytes off (replicate (Z.to_nat DIR_ENTRY_SIZE) 0) in
  let! _ := wr_bytes off name in
  let! _ := wr_u8 (off + 11) attr in
  let! _ := wr_u16 (off + 20) (Z.shiftr first 16) in
  let! _ := wr_u16 (off + 26) (Z.land first 0xFFFF) in
  wr_u32 (off + 28) size.

Definition add_entry (dir : Dir) (name : bytes) (attr first size : Z) : io () :=
  let! off := free_slot dir in write_entry_at off name attr first size.

Definition DOT : bytes := 46 :: replicate 10 32.
Definition DOTDOT : bytes := 46 :: 46 :: replicate 9 32.

Definition create_dir (parent : Dir) (name : bytes) : io Dir :=
  let! cluster := alloc_cluster in
  let! base := io_read (fun _ => w_cluster_offset cluster) in
  let! _ := write_entry_at base DOT ATTR_DIRECTORY cluster 0 in
  let parent_cluster := match parent with Root => 0 | Chain c => c end in
  let! _ := write_entry_at (base + DIR_ENTRY_SIZE) DOTDOT ATTR_DIRECTORY parent_cluster 0 in
  let! _ := add_entry parent name ATTR_DIRECTORY cluster 0 in
  io_ret (Chain cluster).

Definition split_path (path : str) : result FatError (list str) :=
  let components := filter (fun c => c <> []) (split_on (fun c => (c =? 92) || (c =? 47)) path) in
  if bool_decide (components = []) then Err InvalidPath else Ok components.

Definition illegal (b : Z) : bool :=
  (b <=? 32) || bool_decide (b ∈ [34; 42; 43; 44; 47; 58; 59; 60; 61; 62; 63; 91; 92; 93; 124; 0x7F]).
Definition to_ascii_uppercase (b : Z) : Z := if (97 <=? b) && (b <=? 122) then b - 32 else b.

(** The field of [n] bytes. *)
Definition encode_field (src : str) (n : nat) : result FatError bytes :=
  if forallb (fun b => (b <? 128) && negb (illegal b)) src && (length src <=? n)%nat
  then Ok ((to_ascii_uppercase <$> src) ++ replicate (n - length src) 32)
  else Err InvalidPath.

(** [component.splitn(2, '.')]. *)
Fixpoint split_dot (s : str) : str * str :=
  match s with
  | [] => ([], [])
  | c :: s => if c =? 46 then ([], s) else let '(a, b) := split_dot s in (c :: a, b)
  end.
Definition encode_8_3 (component : str) : result FatError bytes :=
  if bool_decide (component = []) || bool_decide (component = [46]) || bool_decide (component = [46; 46]) then Err InvalidPath
  else
    let '(base, ext) := split_dot component in
    if bool_decide (46 ∈ ext) then Err InvalidPath
    else if bool_decide (base = []) || (8 <? length base)%nat || (3 <? length ext)%nat then Err InvalidPath
    else
      b ← encode_field base 8;
      e ← encode_field ext 3;
      Ok (b ++ e).

Fixpoint walk_dirs (dirs : list str) (dir : Dir) : io Dir :=
  match dirs with
  | [] => io_ret dir
  | component :: dirs =>
      let! name := io_read (fun _ => encode_8_3 component) in
      let! f := find dir name in
      match f with
      | Some f => if f_is_dir f then walk_dirs dirs (Chain (f_first f)) else io_fail InvalidPath
      | None => let! d := create_dir dir name in walk_dirs dirs d
      end
  end.

Definition write_file (path : str) (d : bytes) : io () :=
  let! components := io_read (fun _ => split_path path) in
  let! file_name := io_read (fun _ => ok_or (last components) InvalidPath) in
  let! dir := walk_dirs (removelast components) Root in
  let! name := io_read (fun _ => encode_8_3 file_name) in
  let! f := find dir name in
  match f with
  | Some _ => io_fail InvalidPath
  | None =>
      let! first := write_data_chain d in
      if Z.of_nat (length d) <? 2 ^ 32 then add_entry dir name ATTR_ARCHIVE first (Z.of_nat (length d)) else io_fail NoSpace
  end.
End writer.

(** ** The formatter *)

Definition BYTES_PER_SECTOR : Z := 512.
Definition RESERVED_SECTORS : Z := 1.
Definition NUM_FATS : Z := 2.
Definition ROOT_ENTRIES : Z := 512.
Definition FAT16_MIN_CLUSTERS : Z := 4085.
Definition FAT16_MAX_CLUSTERS : Z := 65525.

Inductive MkfsError := TooSmall | TooLarge.
Record Geometry := mkGeometry { g_sectors_per_cluster : Z; g_fat_size : Z }.

Definition mk_root_dir_sectors : Z := div_ceil (ROOT_ENTRIES * 32) 512.

(** [while total_sectors / spc >= FAT16_MAX_CLUSTERS && spc < 128]: seven doublings reach 128. *)
Fixpoint spc_loop (fuel : nat) (total_sectors spc : Z) : Z :=
  match fuel with
  | O => spc
  | S fuel => if (FAT16_MAX_CLUSTERS <=? total_sectors / spc) && (spc <? 128) then spc_loop fuel total_sectors (spc * 2) else spc
  end.

(** The [u32] operations here cannot overflow: [fat_size] is at most an eighth of [total_sectors]. *)
Definition geometry (total_sectors : Z) : result MkfsError Geometry :=
  let rds := mk_root_dir_sectors in
  let spc := spc_loop 8 total_sectors 1 in
  if total_sectors <? RESERVED_SECTORS + rds then Err TooSmall
  else
    let after_reserved := total_sectors - (RESERVED_SECTORS + rds) in
    let divisor := 256 * spc + NUM_FATS in
    let fat_size := div_ceil after_reserved divisor in
    let first_data := RESERVED_SECTORS + NUM_FATS * fat_size + rds in
    if total_sectors <? first_data then Err TooSmall
    else
      let count := (total_sectors - first_data) / spc in
      if count <? FAT16_MIN_CLUSTERS then Err TooSmall
      else if FAT16_MAX_CLUSTERS <=? count then Err TooLarge
      else Ok (mkGeometry spc fat_size).

Definition label_field (label : bytes) : bytes := take 11 label ++ replicate (11 - length label) 32.

(** [put_u8] and [put_bytes] write nothing out of range. *)
Definition boot_sector (total_sectors : Z) (g : Geometry) (label img : bytes) : bytes :=
  let img := put_range img 0 [0xEB; 0x3C; 0x90] in
  let img := put_range img 3 [78; 69; 88; 65; 67; 79; 82; 69] in
  let img := put_range img 11 (to_le 2 BYTES_PER_SECTOR) in
  let img := put_range img 13 [g_sectors_per_cluster g mod 256] in
  let img := put_range img 14 (to_le 2 RESERVED_SECTORS) in
  let img := put_range img 16 [NUM_FATS] in
  let img := put_range img 17 (to_le 2 ROOT_ENTRIES) in
  let img := if total_sectors <? 0x10000 then put_range img 19 (to_le 2 total_sectors) else put_range img 32 (to_le 4 total_sectors) in
  let img := put_range img 21 [0xF8] in
  let img := put_range img 22 (to_le 2 (g_fat_size g mod 65536)) in
  let img := put_range img 36 [0x80] in
  let img := put_range img 38 [0x29] in
  let img := put_range img 39 (to_le 4 0x4E584331) in
  let img := put_range img 43 (label_field label) in
  let img := put_range img 54 [70; 65; 84; 49; 54; 32; 32; 32] in
  put_range img 510 (to_le 2 0xAA55).

(** [for copy in 0..NUM_FATS]. *)
Definition seed_fats (g : Geometry) (img : bytes) : bytes :=
  foldl (fun img copy => put_range img ((RESERVED_SECTORS + copy * g_fat_size g) * BYTES_PER_SECTOR) [0xF8; 0xFF; 0xFF; 0xFF]) img [0; 1].

Definition format_fat16 (total_sectors : Z) (label : bytes) : result MkfsError bytes :=
  match geometry total_sectors with
  | Err e => Err e
  | Ok g =>
      let img := boot_sector total_sectors g label (replicate (Z.to_nat (total_sectors * BYTES_PER_SECTOR)) 0) in
      let img := seed_fats g img in
      let root_start := (RESERVED_SECTORS + NUM_FATS * g_fat_size g) * BYTES_PER_SECTOR in
      let img := put_range img root_start (label_field label) in
      Ok (put_range img (root_start + 11) [0x08])
  end.

Definition format_and_open_check (total_sectors : Z) : exec (result MkfsError FatType) :=
  match format_fat16 total_sectors [78; 69; 88; 65; 67; 79; 82; 69] with
  | Err e => Done (Err e)
  | Ok img => fs ← open img; Done (match fs with Ok fs => Ok (fat_type fs) | Err _ => Err TooSmall end)
  end.
