(* ===== verification/FatVolume.v ===== *)
(** * FAT volumes: what an image means

    The table, the clusters and the root directory as functions of the image; the effect of each
    primitive of the writer of [Fat] on them; chains of clusters; and the chain that
    [write_data_chain] builds. *)

From S2P Require Import Prelude Fat.

#[local] Open Scope nexa_scope.

(** ** Geometry and views *)

(** The regions of a volume of [n] bytes follow one another.  A table has at least as many entries as
    there are clusters, but entries 0 and 1 are not clusters: the entries of the last two clusters may
    lie in the second copy of the table. *)
Record geo (w : FatWriter) (n : Z) : Prop := {
  ge_cs : 0 < cluster_size w /\ cluster_size w mod 32 = 0 /\ 64 <= cluster_size w;
  ge_fat : 512 <= fat_start w;
  ge_fats : 2 <= w_num_fats w;
  ge_size : 2 * w_cluster_count w <= fat_size_bytes w /\ 4 <= fat_size_bytes w;
  ge_root : root_start w = fat_start w + w_num_fats w * fat_size_bytes w;
  ge_slots : 0 < root_slots w;
  ge_data : root_start w + 32 * root_slots w <= data_start w;
  ge_end : data_start w + w_cluster_count w * cluster_size w <= n;
  ge_len : n < 2 ^ 63;
  ge_count : 0 <= w_cluster_count w < 65525
}.

Section volume.
Context (w : FatWriter).

Definition fatv (img : bytes) (c : Z) : Z := from_le (bytes_at img (fat_start w + c * 2) 2).
Definition cluster_at (c : Z) : Z := data_start w + (c - 2) * cluster_size w.
Definition clus (img : bytes) (c : Z) : bytes := bytes_at img (cluster_at c) (cluster_size w).
Definition rootv (img : bytes) : bytes := bytes_at img (root_start w) (32 * root_slots w).
Definition header (img : bytes) : bytes := bytes_at img 0 512.
(** The clusters the code counts, and those with an entry in the first table. *)
Definition counted (c : Z) : Prop := 2 <= c < w_cluster_count w + 2.
Definition valid (c : Z) : Prop := counted c /\ 2 * c + 2 <= fat_size_bytes w.
(** The clusters without one are taken. *)
Definition sealed (img : bytes) : Prop := forall c, counted c -> fatv img c = 0 -> valid c.

(** Two images that agree outside the clusters [P] and, where it says so, the root directory. *)
Record same (img img' : bytes) (P : Z -> Prop) : Prop := {
  sm_len : length img' = length img;
  sm_header : header img' = header img;
  sm_fat : forall c, counted c -> ~ (valid c /\ P c) -> fatv img' c = fatv img c;
  sm_clus : forall c, valid c -> ~ P c -> clus img' c = clus img c
}.

Lemma same_refl img P : same img img P.
Proof. by split. Qed.
Lemma same_trans img1 img2 img3 P Q R :
  same img1 img2 P -> same img2 img3 Q -> (forall c, valid c -> P c \/ Q c -> R c) -> same img1 img3 R.
Proof.
  intros [] [] H. split; [congruence|congruence| |]; intros c Hv Hc.
  - assert (~ (valid c /\ P c) /\ ~ (valid c /\ Q c)) as [? ?] by (split; intros [??]; apply Hc; split; auto).
    rewrite sm_fat1, sm_fat0 by done. done.
  - assert (~ P c /\ ~ Q c) as [? ?] by (split; intros ?; apply Hc, H; auto). rewrite sm_clus1, sm_clus0 by done. done.
Qed.
Lemma same_mono img img' (P Q : Z -> Prop) : same img img' P -> (forall c, valid c -> P c -> Q c) -> same img img' Q.
Proof. intros H1 H2. eapply same_trans; [exact H1|apply (same_refl _ (fun _ => False))|]. intros c ? [?|[]]. auto. Qed.
Lemma same_fatv img img' P c : same img img' P -> valid c -> ~ P c -> fatv img' c = fatv img c.
Proof. intros H Hv Hp. apply (sm_fat _ _ _ H); [apply Hv|tauto]. Qed.

Context (n : Z) (G : geo w n).

(** An image of the volume. *)
Definition sized (img : bytes) : Prop := Z.of_nat (length img) = n.
Definition ready (img : bytes) : Prop := sized img /\ sealed img.

Lemma same_sized img img' P : same img img' P -> sized img -> sized img'.
Proof. intros [H _ _ _]. unfold sized. by rewrite H. Qed.

(** Where the regions are. *)
Lemma regions c : valid c ->
  512 <= fat_start w /\ fat_start w + c * 2 + 2 <= fat_start w + fat_size_bytes w /\
  fat_start w + w_num_fats w * fat_size_bytes w = root_start w /\ fat_start w + fat_size_bytes w <= root_start w /\
  root_start w + 32 * root_slots w <= data_start w /\ data_start w <= cluster_at c /\ cluster_at c + cluster_size w <= n /\
  0 < cluster_size w /\ 0 < root_slots w /\ 0 < fat_size_bytes w.
Proof.
  intros [Hv Hf]. unfold counted, cluster_at in *. destruct G as [[? _] ? ? ? ? ? ? ? ? ?]. split_and!; try nia.
Qed.
Lemma counted_entry c : counted c -> fat_start w + c * 2 + 2 <= root_start w /\ 0 <= fat_start w + c * 2 /\ root_start w <= n.
Proof. intros Hv. unfold counted in *. destruct G as [[? _] ? ? ? ? ? ? ? ? ?]. nia. Qed.

Lemma root_bounds : 0 <= root_start w /\ data_start w <= n.
Proof. destruct G as [[? _] ? ? [? ?] ? _ _ ? _ ?]. split; nia. Qed.
Lemma cluster_disjoint c c' : valid c -> valid c' -> c <> c' -> cluster_at c + cluster_size w <= cluster_at c' \/ cluster_at c' + cluster_size w <= cluster_at c.
Proof. intros [Hv _] [Hv' _] Hne. unfold counted, cluster_at in *. destruct G as [[? _] ? ? ? ? ? ? ? ? ?]. destruct (Z.lt_trichotomy c c') as [?|[?|?]]; [left; nia|done|right; nia]. Qed.

(** A write into one cluster. *)
Lemma put_cluster img c o d :
  sized img -> valid c -> 0 <= o -> o + Z.of_nat (length d) <= cluster_size w ->
  let img' := put_range img (cluster_at c + o) d in
  same img img' (eq c) /\ rootv img' = rootv img /\ fatv img' c = fatv img c /\ clus img' c = put_range (clus img c) o d.
Proof.
  intros Hs Hv Ho Hd img'. unfold sized in Hs. destruct (regions c Hv) as (? & ? & ? & ? & ? & ? & ? & ? & ? & ?).
  assert (forall off k, 0 <= off -> 0 <= k -> off + k <= cluster_at c -> bytes_at img' off k = bytes_at img off k) as Hlow
    by (intros; apply bytes_at_other; lia).
  split; [|split; [|split]].
  - split; [unfold img'; apply length_put_range; lia|apply Hlow; lia| |].
    + intros c' Hv' _. unfold fatv. f_equal. destruct (counted_entry c' Hv') as (? & ? & ?). apply Hlow; lia.
    + intros c' Hv' Hne. destruct (regions c' Hv') as (? & ? & ? & ? & ? & ? & ? & ? & ? & ?). apply bytes_at_other; try lia.
      destruct (cluster_disjoint c c' Hv Hv' Hne); lia.
  - apply Hlow; lia.
  - unfold fatv. f_equal. apply Hlow; unfold valid, counted in *; lia.
  - unfold clus, img'. rewrite bytes_at_inside by lia. f_equal. lia.
Qed.

(** A write into the root directory. *)
Lemma put_root img o d :
  sized img -> 0 <= o -> o + Z.of_nat (length d) <= 32 * root_slots w ->
  let img' := put_range img (root_start w + o) d in
  same img img' (fun _ => False) /\ rootv img' = put_range (rootv img) o d.
Proof.
  intros Hs Ho Hd img'. unfold sized in Hs. destruct G as [[Hc _] ? ? ? ? ? ? ? ? ?].
  assert (root_start w + 32 * root_slots w <= n) by nia. assert (fat_start w + fat_size_bytes w <= root_start w) by nia.
  split.
  - split; [unfold img'; apply length_put_range; nia|apply bytes_at_other; nia| |].
    + intros c Hv _. destruct (counted_entry c Hv) as (? & ? & ?). unfold fatv, img'. f_equal. apply bytes_at_other; lia.
    + intros c Hv _. destruct (regions c Hv) as (? & ? & ? & ? & ? & ? & ? & ? & ? & ?). apply bytes_at_other; lia.
  - unfold rootv, img'. rewrite bytes_at_inside by nia. f_equal. lia.
Qed.

(** ** Primitives *)

Lemma fat_get_ok img c : sized img -> counted c -> fat_get w c img = (Ok (fatv img c), img).
Proof.
  intros Hs Hv. unfold sized in Hs. destruct (counted_entry c Hv) as (? & ? & ?).
  unfold fat_get, io_read, rd_u16. rewrite get_bytes_at by lia. done.
Qed.

Lemma wr_ok off d img : 0 <= off -> off + Z.of_nat (length d) <= Z.of_nat (length img) -> wr_bytes off d img = (Ok (), put_range img off d).
Proof. intros Ho Hl. unfold wr_bytes. by rewrite (proj2 (Z.leb_le _ _)) by lia. Qed.

Lemma offset_ok c : valid c -> w_cluster_offset w c = Ok (cluster_at c).
Proof.
  intros Hv. destruct (regions c Hv) as (? & ? & ? & ? & ? & ? & ? & ? & ? & ?). pose proof (ge_len _ _ G).
  unfold w_cluster_offset. rewrite (proj2 (Z.ltb_ge c 2)) by (destruct Hv as [[? ?] _]; lia). unfold cluster_at in *. unfold checked_mul.
  rewrite (proj2 (Z.ltb_lt _ _)) by nia. cbn [mbind option_bind]. unfold checked_add. rewrite (proj2 (Z.ltb_lt _ _)) by lia. cbn. f_equal. lia.
Qed.

(** The table after every copy is written: only the entry of [c] changes. *)
Lemma fat_set_loop_ok k copy c v img :
  sized img -> valid c -> in_uint 16 v -> 0 <= copy -> copy + Z.of_nat k <= w_num_fats w ->
  exists img', fat_set_loop w k copy c v img = (Ok (), img') /\ same img img' (eq c) /\ rootv img' = rootv img /\ clus img' c = clus img c /\
    fatv img' c = if decide (copy = 0 /\ (0 < k)%nat) then v else fatv img c.
Proof.
  intros Hs Hv Hu. revert copy img Hs. induction k as [|k IH]; intros copy img Hs Hc Hk.
  { exists img. split; [done|]. split; [apply same_refl|]. split; [done|]. split; [done|]. by rewrite decide_False by lia. }
  destruct (regions c Hv) as (R1 & R2 & R3 & R4 & R5 & R6 & R7 & R8 & R9 & R10). unfold sized in Hs.
  set (off := fat_start w + copy * fat_size_bytes w + c * 2). assert (0 <= c) by (destruct Hv as [[? ?] _]; lia).
  assert (length (to_le 2 v) = 2%nat) as Hlen by (by rewrite length_to_le by lia).
  assert (fat_start w <= off /\ off + 2 <= root_start w) as [Hoff1 Hoff2].
  { pose proof (ge_root _ _ G). pose proof (ge_size _ _ G). unfold off, valid, counted in *. split; [nia|]. assert ((copy + 1) * fat_size_bytes w <= w_num_fats w * fat_size_bytes w) by nia. lia. }
  set (img1 := put_range img off (to_le 2 v)).
  assert (forall o m, 0 <= o -> 0 <= m -> o + m <= off \/ off + 2 <= o -> bytes_at img1 o m = bytes_at img o m) as Hother
    by (intros; apply bytes_at_other; lia).
  assert (sized img1) as Hs1 by (unfold sized, img1; rewrite length_put_range by lia; done).
  destruct (IH (copy + 1) img1 Hs1 ltac:(lia) ltac:(lia)) as (img' & He & Hsame & Hr & Hcl & Hf). exists img'.
  split; [cbn [fat_set_loop]; unfold io_bind, wr_u16; rewrite wr_ok by lia; exact He|].
  assert (same img img1 (eq c)) as Hsm.
  { split; [unfold img1; apply length_put_range; lia|apply Hother; lia| |].
    - intros c' Hv' Hne. unfold fatv. f_equal. apply Hother; [unfold counted in Hv'; lia|lia|].
      assert (c' <> c) by (intros ->; apply Hne; done). pose proof (ge_size _ _ G) as [Hz1 Hz2]. unfold off, valid, counted in *.
      destruct (decide (copy = 0)) as [->|]; [lia|]. destruct (decide (copy = 1)) as [->|]; [lia|]. left. nia.
    - intros c' Hv' _. destruct (regions c' Hv') as (? & ? & ? & ? & ? & ? & ? & ? & ? & ?). apply Hother; lia. }
  split; [eapply same_trans; [exact Hsm|exact Hsame|]; intros c0 _ [?|?]; done|].
  split; [rewrite Hr; apply Hother; lia|]. split; [rewrite Hcl; apply Hother; lia|].
  rewrite Hf, decide_False by lia. destruct (decide (copy = 0)) as [->|Hne].
  - rewrite decide_True by lia. unfold fatv, img1, off. replace (fat_start w + 0 * fat_size_bytes w) with (fat_start w) by lia.
    rewrite bytes_at_inside by lia. rewrite Z.sub_diag, put_all; [by apply from_to_le|]. rewrite length_bytes_at by lia. done.
  - rewrite decide_False by lia. unfold fatv. f_equal. apply Hother; [lia|lia|]. left. unfold off. nia.
Qed.

Lemma fat_set_ok c v img :
  sized img -> valid c -> in_uint 16 v ->
  exists img', fat_set w c v img = (Ok (), img') /\ same img img' (eq c) /\ rootv img' = rootv img /\ clus img' c = clus img c /\ fatv img' c = v.
Proof.
  intros Hs Hv Hu. pose proof (ge_fats _ _ G).
  destruct (fat_set_loop_ok (Z.to_nat (w_num_fats w)) 0 c v img Hs Hv Hu) as (img' & ? & ? & ? & ? & Hf); [lia|lia|].
  rewrite decide_True in Hf by lia. by exists img'.
Qed.

Lemma zero_cluster_ok c img :
  sized img -> valid c ->
  exists img', zero_cluster w c img = (Ok (), img') /\ same img img' (eq c) /\ rootv img' = rootv img /\ fatv img' c = fatv img c /\
    clus img' c = replicate (Z.to_nat (cluster_size w)) 0.
Proof.
  intros Hs Hv. destruct (regions c Hv) as (? & ? & ? & ? & ? & ? & ? & ? & ? & ?). pose proof (ge_len _ _ G). unfold sized in Hs.
  unfold zero_cluster, io_bind, io_read. rewrite offset_ok by done. unfold checked_add. rewrite (proj2 (Z.ltb_lt _ _)) by lia. cbn [ok_or].
  rewrite wr_ok by (rewrite ?length_replicate; lia). eexists. split; [done|].
  destruct (put_cluster img c 0 (replicate (Z.to_nat (cluster_size w)) 0)) as (? & ? & ? & Hc); [done|done|lia|rewrite length_replicate; lia|].
  rewrite Z.add_0_r in *. split; [done|]. split; [done|]. split; [done|]. rewrite Hc, put_all; [done|]. rewrite length_replicate. unfold clus. by rewrite length_bytes_at by lia.
Qed.

(** Allocation takes a free cluster, marks it as the end of a chain and clears it; it fails when there is none. *)
Definition full (img : bytes) : Prop := forall c, counted c -> fatv img c <> 0.

Record allocated (img : bytes) (c : Z) (img' : bytes) : Prop := {
  al_valid : valid c;
  al_free : fatv img c = 0;
  al_same : same img img' (eq c);
  al_root : rootv img' = rootv img;
  al_eoc : fatv img' c = FAT16_EOC;
  al_zero : clus img' c = replicate (Z.to_nat (cluster_size w)) 0
}.

Lemma same_ready img img' P : same img img' P -> ready img -> ready img'.
Proof.
  intros H [Hs He]. split; [by eapply same_sized|]. intros c Hc Hf. destruct (decide (2 * c + 2 <= fat_size_bytes w)); [by split|].
  apply He; [done|]. rewrite <- Hf. symmetry. apply (sm_fat _ _ _ H); [done|]. intros [[_ ?] _]. lia.
Qed.

Lemma alloc_step k c img :
  ready img -> counted c -> fatv img c = 0 -> exists img', alloc_loop w (S k) c img = (Ok c, img') /\ allocated img c img'.
Proof.
  intros [Hs He] Hc E. pose proof (He c Hc E) as Hv.
  destruct (fat_set_ok c FAT16_EOC img Hs Hv) as (img1 & He1 & Hsm1 & Hr1 & Hc1 & Hf1); [unfold in_uint, FAT16_EOC; lia|].
  destruct (zero_cluster_ok c img1 (same_sized _ _ _ Hsm1 Hs) Hv) as (img2 & He2 & Hsm2 & Hr2 & Hf2 & Hc2).
  exists img2. split; [cbn [alloc_loop]; unfold io_bind; rewrite fat_get_ok, E by done; cbn -[fat_set zero_cluster]; by rewrite He1, He2|].
  split; [done|done| |congruence|congruence|done]. eapply same_trans; [exact Hsm1|exact Hsm2|]. by intros ? _ [?|?].
Qed.

Lemma alloc_loop_ok k c img :
  ready img -> 2 <= c -> c + Z.of_nat k = w_cluster_count w + 2 ->
  (alloc_loop w k c img = (Err NoSpace, img) /\ forall c', c <= c' -> counted c' -> fatv img c' <> 0) \/
  exists c' img', alloc_loop w k c img = (Ok c', img') /\ allocated img c' img'.
Proof.
  intros Hr. revert c. induction k as [|k IH]; intros c Hc Hk; [left; split; [done|]; unfold counted; lia|].
  assert (counted c) as Hv by (unfold counted; lia). destruct (decide (fatv img c = 0)) as [E|E].
  - right. destruct (alloc_step k c img Hr Hv E) as (img' & ? & ?). eauto.
  - assert (alloc_loop w (S k) c img = alloc_loop w k (c + 1) img) as ->.
    { cbn [alloc_loop]. unfold io_bind at 1. rewrite fat_get_ok by (done || apply Hr). by rewrite (proj2 (Z.eqb_neq _ _)) by done. }
    destruct (IH (c + 1)) as [[He Hf]|?]; [lia|lia| |by right]. left. split; [done|]. intros c' Hle Hc'.
    destruct (decide (c' = c)) as [->|]; [done|]. apply Hf; [lia|done].
Qed.

Lemma alloc_ok img :
  ready img ->
  (alloc_cluster w img = (Err NoSpace, img) /\ full img) \/ exists c img', alloc_cluster w img = (Ok c, img') /\ allocated img c img'.
Proof.
  intros Hr. pose proof (ge_count _ _ G). destruct (alloc_loop_ok (Z.to_nat (w_cluster_count w)) 2 img Hr) as [[He Hf]|?]; [lia|lia| |by right].
  left. split; [done|]. intros c Hc. apply Hf; [apply Hc|done].
Qed.

(** ** Chains of clusters *)

Fixpoint links (img : bytes) (cs : list Z) : Prop :=
  match cs with [] => True | c :: cs => fatv img c = hd FAT16_EOC cs /\ links img cs end.
Record chain_ok (img : bytes) (cs : list Z) : Prop := {
  ch_valid : Forall valid cs;
  ch_nodup : NoDup cs;
  ch_links : links img cs
}.
Definition content (img : bytes) (cs : list Z) : bytes := concat (clus img <$> cs).

Lemma links_ext img img' cs : (forall c, c ∈ cs -> fatv img' c = fatv img c) -> links img cs -> links img' cs.
Proof.
  induction cs as [|c cs IH]; [done|]. cbn [links]. intros H [Hc Hl]. split; [by rewrite H by set_solver|]. apply IH; [|done]. intros; apply H; set_solver.
Qed.
Lemma content_ext img img' cs : (forall c, c ∈ cs -> clus img' c = clus img c) -> content img' cs = content img cs.
Proof. intros H. unfold content. f_equal. apply list_fmap_ext. intros i c Hc. apply H. by eapply list_elem_of_lookup_2. Qed.

Lemma chain_same img img' P cs :
  same img img' P -> (forall c, c ∈ cs -> ~ P c) -> chain_ok img cs -> chain_ok img' cs /\ content img' cs = content img cs.
Proof.
  intros Hs HP [Hv Hn Hl]. rewrite Forall_forall in Hv. split.
  - split; [by rewrite Forall_forall|done|]. eapply links_ext, Hl. intros c Hc. eapply same_fatv; eauto.
  - apply content_ext. intros c Hc. apply (sm_clus _ _ _ Hs); auto.
Qed.

Lemma chain_fat img cs c : chain_ok img cs -> c ∈ cs -> fatv img c <> 0.
Proof.
  intros [Hv _ Hl]. induction cs as [|c0 cs IH]; [set_solver|]. destruct Hl as [Hf Hl]. rewrite Forall_cons in Hv. destruct Hv as [Hv0 Hv].
  intros [->|Hc]%elem_of_cons; [|by apply IH]. rewrite Hf. destruct cs as [|c1 cs]; [done|]. cbn.
  rewrite Forall_cons in Hv. destruct Hv as [[[? _] _] _]. lia.
Qed.

Lemma links_snoc img img' cs l c :
  (forall c0, c0 ∈ cs -> fatv img' c0 = fatv img c0) -> links img (cs ++ [l]) -> fatv img' l = c -> fatv img' c = FAT16_EOC ->
  links img' (cs ++ [l; c]).
Proof.
  intros Hs Hl H1 H2. induction cs as [|c0 cs IH]; [done|]. cbn [app links] in *. destruct Hl as [Hc Hl].
  split; [|apply IH; [intros; apply Hs; set_solver|done]]. rewrite Hs by set_solver. rewrite Hc. by destruct cs.
Qed.

Lemma chain_nil img : chain_ok img [].
Proof. split; [by apply Forall_nil|by apply NoDup_nil|done]. Qed.

(** A fresh cluster linked behind a chain. *)
Lemma extend_ok img cs l c img1 :
  ready img -> chain_ok img (cs ++ [l]) -> allocated img c img1 ->
  exists img2, fat_set w l c img1 = (Ok (), img2) /\ chain_ok img2 (cs ++ [l; c]) /\ same img img2 (fun x => x = l \/ x = c) /\
    rootv img2 = rootv img /\ (forall x, x ∈ cs ++ [l] -> clus img2 x = clus img x) /\
    clus img2 c = replicate (Z.to_nat (cluster_size w)) 0.
Proof.
  intros Hr Hch Ha. pose proof Hch as [Hv Hn Hl]. destruct Ha as [Hvc Hfree Hsm Hrt Heoc Hz]. rewrite Forall_forall in Hv.
  assert (c ∉ cs ++ [l]) as Hfresh by (intros Hin; by apply (chain_fat _ _ _ Hch Hin)).
  assert (valid l) as Hvl by (apply Hv; set_solver). assert (l <> c) by set_solver.
  destruct (fat_set_ok l c img1) as (img2 & He & Hsm2 & Hrt2 & Hcl2 & Hf2);
    [by eapply same_sized, Hr|done|pose proof (ge_count _ _ G); destruct Hvc as [[? ?] _]; unfold in_uint; lia|].
  exists img2. split; [done|].
  assert (same img img2 (fun x => x = l \/ x = c)) as Hall by (eapply same_trans; [exact Hsm|exact Hsm2|]; cbn; intros ? _ [?|?]; auto).
  assert (cs ++ [l; c] = (cs ++ [l]) ++ [c]) as Eapp by (by rewrite <- app_assoc).
  split; [|split; [done|split; [congruence|split]]].
  - split.
    + rewrite Eapp, Forall_forall. intros x Hx. apply elem_of_app in Hx as [?|Hx]; [auto|]. apply list_elem_of_singleton in Hx as ->. done.
    + rewrite Eapp. apply NoDup_app. split; [done|]. split; [set_solver|]. apply NoDup_singleton.
    + eapply links_snoc; [|exact Hl|done|].
      * intros x Hx. apply (same_fatv _ _ _ _ Hall); [apply Hv; set_solver|]. intros [->| ->]; [|set_solver].
        apply NoDup_app in Hn as (_ & Hd & _). apply (Hd _ Hx). set_solver.
      * rewrite <- Heoc. by apply (same_fatv _ _ _ _ Hsm2).
  - intros x Hx. assert (valid x) by auto. transitivity (clus img1 x).
    + destruct (decide (x = l)) as [->|]; [done|]. by apply (sm_clus _ _ _ Hsm2).
    + apply (sm_clus _ _ _ Hsm); [done|]. set_solver.
  - rewrite <- Hz. by apply (sm_clus _ _ _ Hsm2).
Qed.

Definition link (cs : list Z) (c : Z) : io () :=
  if hd 0 cs =? 0 then io_ret () else if c <? 65536 then fat_set w (List.last cs 0) c else io_fail BadCluster.

Lemma link_ok img cs c img1 :
  ready img -> chain_ok img cs -> allocated img c img1 ->
  exists img2, link cs c img1 = (Ok (), img2) /\ chain_ok img2 (cs ++ [c]) /\ same img img2 (fun x => x ∈ cs \/ x = c) /\
    rootv img2 = rootv img /\ (forall x, x ∈ cs -> clus img2 x = clus img x) /\ clus img2 c = replicate (Z.to_nat (cluster_size w)) 0.
Proof.
  intros Hr Hch Ha. pose proof Ha as [Hvc Hfree Hsm Hrt Heoc Hz]. destruct (decide (cs = [])) as [->|Hne].
  - exists img1. cbn. split; [done|]. split; [split; [by apply Forall_singleton|apply NoDup_singleton|done]|].
    split; [eapply same_mono; [exact Hsm|]; cbn; auto|]. split; [done|]. split; [set_solver|done].
  - destruct (exists_last Hne) as (cs0 & l & ->). destruct (extend_ok img cs0 l c img1 Hr Hch Ha) as (img2 & He & Hc2 & Hs2 & Hr2 & Hx & Hz2).
    exists img2. split; [|rewrite <- app_assoc; split; [done|split; [|done]]].
    + unfold link. rewrite List.last_last. pose proof (ch_valid _ _ Hch) as Hv. rewrite Forall_forall in Hv.
      rewrite (proj2 (Z.eqb_neq _ _)); [rewrite (proj2 (Z.ltb_lt _ _)); [done|pose proof (ge_count _ _ G); destruct Hvc as [[? ?] _]; lia]|].
      assert (valid (hd 0 (cs0 ++ [l]))) as [[? _] _] by (apply Hv; destruct cs0; set_solver). lia.
    + eapply same_mono; [exact Hs2|]. cbn. set_solver.
Qed.

(** A write into a cluster of a chain. *)
Lemma put_in_chain img cs c o d :
  ready img -> chain_ok img (cs ++ [c]) -> 0 <= o -> o + Z.of_nat (length d) <= cluster_size w ->
  let img' := put_range img (cluster_at c + o) d in
  chain_ok img' (cs ++ [c]) /\ same img img' (eq c) /\ rootv img' = rootv img /\
  content img' cs = content img cs /\ clus img' c = put_range (clus img c) o d.
Proof.
  intros [Hs _] [Hv Hn Hl] Ho Hd img'. rewrite Forall_forall in Hv. assert (valid c) as Hc by (apply Hv; set_solver).
  destruct (put_cluster img c o d Hs Hc Ho Hd) as (Hsm & Hrt & Hf & Hcl). fold img' in Hsm, Hrt, Hf, Hcl. split; [split|split; [done|split; [done|split; [|done]]]].
  - by rewrite Forall_forall.
  - done.
  - eapply links_ext, Hl. intros x Hx. destruct (decide (c = x)) as [->|]; [done|]. apply (same_fatv _ _ _ _ Hsm); auto.
  - apply content_ext. intros x Hx. apply (sm_clus _ _ _ Hsm); [apply Hv; set_solver|]. intros ->. apply NoDup_app in Hn as (_ & Hd' & _). apply (Hd' _ Hx). set_solver.
Qed.

(** Changes to free clusters only. *)
Record fresh (img img' : bytes) : Prop := {
  fr_same : same img img' (fun c => fatv img c = 0);
  fr_root : rootv img' = rootv img
}.
Lemma fresh_refl img : fresh img img.
Proof. split; [apply same_refl|done]. Qed.
Lemma fresh_back img img' c : fresh img img' -> valid c -> fatv img' c = 0 -> fatv img c = 0.
Proof. intros [Hs _] Hv Hf. destruct (decide (fatv img c = 0)) as [|Hne]; [done|]. rewrite <- Hf. symmetry. by apply (same_fatv _ _ _ _ Hs). Qed.
Lemma fresh_step img0 img img' P :
  fresh img0 img -> same img img' P -> rootv img' = rootv img -> (forall c, valid c -> P c -> fatv img0 c = 0) -> fresh img0 img'.
Proof. intros [H1 H2] H3 H4 H5. split; [|congruence]. eapply same_trans; [exact H1|exact H3|]. cbn. intros c Hv [?|?]; auto. Qed.

Definition pad (d : bytes) : bytes := pad_to (Z.to_nat (cluster_size w)) d.

Lemma content_snoc img cs c : content img (cs ++ [c]) = content img cs ++ clus img c.
Proof. unfold content. rewrite fmap_app, concat_app. cbn. by rewrite app_nil_r. Qed.

(** One round of [write_data_chain]. *)
Lemma data_round chunk cs img :
  ready img -> chain_ok img cs -> (length chunk <= Z.to_nat (cluster_size w))%nat ->
  (alloc_cluster w img = (Err NoSpace, img) /\ full img) \/
  exists c img1 img2 img3, alloc_cluster w img = (Ok c, img1) /\ link cs c img1 = (Ok (), img2) /\ valid c /\ fatv img c = 0 /\
    wr_bytes (cluster_at c) chunk img2 = (Ok (), img3) /\ chain_ok img3 (cs ++ [c]) /\ same img img3 (fun x => x ∈ cs \/ x = c) /\
    rootv img3 = rootv img /\ content img3 (cs ++ [c]) = content img cs ++ pad chunk.
Proof.
  intros Hr Hch Hlen. destruct (alloc_ok img Hr) as [?|(c & img1 & He & Ha)]; [by left|]. right.
  destruct (link_ok img cs c img1 Hr Hch Ha) as (img2 & Hl & Hc2 & Hs2 & Hr2 & Hx & Hz). pose proof (al_valid _ _ _ Ha) as Hv.
  pose proof (same_ready _ _ _ Hs2 Hr) as Hrd. pose proof (ge_cs _ _ G). destruct (regions c Hv) as (? & ? & ? & ? & ? & ? & ? & ? & ? & ?).
  destruct (put_in_chain img2 cs c 0 chunk) as (Hc3 & Hs3 & Hr3 & Hct & Hcl); [done|done|lia|lia|]. rewrite Z.add_0_r in *.
  exists c, img1, img2, (put_range img2 (cluster_at c) chunk). split; [done|]. split; [done|]. split; [done|]. split; [apply Ha|].
  split; [apply wr_ok; [lia|]; destruct Hrd as [Hs _]; unfold sized in Hs; lia|]. split; [done|]. split; [|split; [congruence|]].
  - eapply same_trans; [exact Hs2|exact Hs3|]. cbn. intros ? _ [?|?]; auto.
  - rewrite content_snoc, Hct, Hcl, Hz, put_zeros by lia. f_equal. by apply content_ext.
Qed.

Lemma hd_snoc img cs c : chain_ok img cs -> (if hd 0 cs =? 0 then c else hd 0 cs) = hd 0 (cs ++ [c]).
Proof.
  intros [Hv _ _]. destruct cs as [|c0 cs]; [done|]. cbn. rewrite Forall_cons in Hv. destruct Hv as [[[? _] _] _].
  by rewrite (proj2 (Z.eqb_neq _ _)) by lia.
Qed.

Lemma chain_data_ok chunks img0 : forall cs img,
  ready img -> chain_ok img cs -> fresh img0 img -> (forall c, c ∈ cs -> fatv img0 c = 0) ->
  Forall (fun d => (length d <= Z.to_nat (cluster_size w))%nat) chunks ->
  (exists img', chain_data w chunks (hd 0 cs) (List.last cs 0) img = (Err NoSpace, img') /\ fresh img0 img' /\ full img') \/
  (exists new img', chain_data w chunks (hd 0 cs) (List.last cs 0) img = (Ok (hd 0 (cs ++ new)), img') /\ fresh img0 img' /\
    chain_ok img' (cs ++ new) /\ (forall c, c ∈ cs ++ new -> fatv img0 c = 0) /\ content img' (cs ++ new) = content img cs ++ concat (pad <$> chunks)).
Proof.
  induction chunks as [|chunk chunks IH]; intros cs img Hr Hch Hf Hcs Hlen.
  { right. exists [], img. rewrite !app_nil_r. done. }
  apply Forall_cons in Hlen as [Hl1 Hlen]. cbn [chain_data].
  destruct (data_round chunk cs img Hr Hch Hl1) as [[He Hfull]|(c & img1 & img2 & img3 & He & Hlk & Hv & Hfree & Hwr & Hc3 & Hs3 & Hr3 & Hct)].
  { left. exists img. unfold io_bind at 1. rewrite He. done. }
  assert (fatv img0 c = 0) as Hfree0 by (by eapply fresh_back).
  destruct (regions c Hv) as (? & ? & ? & ? & ? & ? & ? & ? & ? & ?). pose proof (ge_len _ _ G).
  assert ((let! cluster := alloc_cluster w in let! _ := link cs cluster in let! start := io_read (fun _ => w_cluster_offset w cluster) in
     let! _ := io_read (fun _ => ok_or (checked_add 64 start (Z.of_nat (length chunk))) BadCluster) in let! _ := wr_bytes start chunk in
     chain_data w chunks (if hd 0 cs =? 0 then cluster else hd 0 cs) cluster) img = chain_data w chunks (hd 0 (cs ++ [c])) (List.last (cs ++ [c]) 0) img3) as E.
  { unfold io_bind, io_read. rewrite He, Hlk, offset_ok by done. unfold checked_add. rewrite (proj2 (Z.ltb_lt _ _)) by lia. cbn [ok_or].
    by rewrite Hwr, (hd_snoc img), List.last_last by done. }
  unfold link in E. rewrite E. assert (fresh img0 img3) as Hf3.
  { eapply fresh_step; [exact Hf|exact Hs3|done|]. cbn. intros x _ [Hx| ->]; auto. }
  destruct (IH (cs ++ [c]) img3) as [?|(new & img' & He' & Hf' & Hch' & Hn' & Hct')]; [by eapply same_ready|done|done|set_solver|done|by left|].
  right. exists (c :: new), img'. rewrite <- app_assoc in *. cbn [app] in *. split; [done|]. split; [done|]. split; [done|]. split; [done|].
  rewrite Hct', Hct, <- app_assoc. done.
Qed.

(** ** The data of a file: a fresh chain that holds it *)
Lemma write_data_chain_ok d img :
  ready img ->
  (exists img', write_data_chain w d img = (Err NoSpace, img') /\ fresh img img' /\ full img') \/
  (exists cs img' k, write_data_chain w d img = (Ok (hd 0 cs), img') /\ fresh img img' /\ chain_ok img' cs /\
    (forall c, c ∈ cs -> fatv img c = 0) /\ content img' cs = d ++ replicate k 0).
Proof.
  intros Hr. unfold write_data_chain. case_bool_decide as E.
  { right. exists [], img, O. subst d. split; [done|]. split; [apply fresh_refl|]. split; [apply chain_nil|]. split; [set_solver|done]. }
  destruct (chunks_of_pad (Z.to_nat (cluster_size w)) (length d) d) as [Hl [k Hk]]; [pose proof (ge_cs _ _ G); lia|lia|].
  destruct (chain_data_ok (chunks_of (length d) (Z.to_nat (cluster_size w)) d) img [] img Hr) as [?|(new & img' & ? & ? & ? & ? & Hct)];
    [apply chain_nil|apply fresh_refl|set_solver|done|by left|]. right. exists new, img', k. rewrite <- Hk. done.
Qed.

(** One cluster is enough for data that fits in it. *)
Lemma write_data_chain_room d img c :
  ready img -> d <> [] -> Z.of_nat (length d) <= cluster_size w -> counted c -> fatv img c = 0 ->
  exists cs img', write_data_chain w d img = (Ok (hd 0 cs), img') /\ fresh img img' /\ chain_ok img' cs.
Proof.
  intros Hr Hne Hlen Hc Hf. destruct (write_data_chain_ok d img Hr) as [(img' & He & _)|(cs & img' & k & He & Hfr & Hch & _)]; [exfalso|eauto].
  destruct (data_round d [] img Hr (chain_nil img)) as [[_ Hfull]|(c1 & img1 & img2 & img3 & Ha & Hl & Hv & _ & Hwr & _)]; [lia|by apply (Hfull c)|].
  assert (chunks_of (length d) (Z.to_nat (cluster_size w)) d = [d]) as Ed.
  { destruct d as [|x d]; [done|]. cbn [length chunks_of]. rewrite take_ge, drop_ge by lia. by destruct (length d). }
  destruct (regions c1 Hv) as (? & ? & ? & ? & ? & ? & ? & ? & ? & ?). pose proof (ge_len _ _ G).
  unfold write_data_chain in He. rewrite bool_decide_false, Ed in He by done. cbn in Hl. injection Hl as ->. unfold chain_data, io_bind in He. rewrite Ha in He.
  cbn [Z.eqb] in He. unfold io_ret, io_read in He. rewrite offset_ok in He by done. unfold checked_add in He. rewrite (proj2 (Z.ltb_lt _ _)) in He by lia. cbn [ok_or] in He.
  rewrite Hwr in He. done.
Qed.
End volume.
