(* ===== verification/FatDirs.v ===== *)
(** * FAT volumes: directories

    8.3 names, 32-byte entries, and the slots of a directory: what the reader and the writer of
    [Fat] find in them and what adding an entry does. *)

From S2P Require Import Prelude Fat FatVolume.

#[local] Open Scope nexa_scope.

(** ** Names *)

(** The names the writer makes, and how the reader shows them. *)
Definition named (k : bytes) : Prop := exists component, encode_8_3 component = Ok k.
Definition shown (k : bytes) : str := decode_short_name k.

(** A character of a name, as it is stored. *)
Definition stored (b : Z) : Prop := 32 < b < 128 /\ b <> 46.

Definition field (s : str) (n : nat) : bytes := s ++ replicate (n - length s) 32.

Lemma encode_field_ok src n r :
  46 ∉ src -> encode_field src n = Ok r -> exists s, r = field s n /\ Forall stored s /\ (length s <= n)%nat /\ length s = length src.
Proof.
  intros Hdot. unfold encode_field. destruct (forallb _ src) eqn:E; [|done]. destruct (length src <=? n)%nat eqn:El; [|done].
  cbn. intros [= <-]. apply Nat.leb_le in El. exists (to_ascii_uppercase <$> src). unfold field. rewrite length_fmap. split; [done|]. split; [|done].
  rewrite forallb_forall in E. rewrite Forall_fmap, Forall_forall. intros b Hb. cbn. specialize (E b (proj1 (list_elem_of_In _ _) Hb)).
  assert (b <> 46) by set_solver. apply andb_true_iff in E as [E1 E2]. apply Z.ltb_lt in E1. unfold illegal in E2.
  apply negb_true_iff, orb_false_iff in E2 as [E2 _]. apply Z.leb_gt in E2. unfold stored, to_ascii_uppercase.
  destruct (97 <=? b) eqn:?, (b <=? 122) eqn:?; cbn; lia.
Qed.

Lemma split_dot_base s : 46 ∉ (split_dot s).1.
Proof.
  induction s as [|c s IH]; [cbn; set_solver|]. cbn. destruct (Z.eqb_spec c 46); [cbn; set_solver|].
  destruct (split_dot s) as [a b]. cbn in *. set_solver.
Qed.

(** The shape of a stored name. *)
Lemma named_shape k : named k -> exists b e, k = field b 8 ++ field e 3 /\ Forall stored b /\ Forall stored e /\ b <> [] /\ (length b <= 8)%nat /\ (length e <= 3)%nat.
Proof.
  intros [comp H]. unfold encode_8_3 in H. destruct (bool_decide (comp = []) || bool_decide (comp = [46]) || bool_decide (comp = [46; 46])); [done|]. pose proof (split_dot_base comp) as Hd.
  destruct (split_dot comp) as [b e]. cbn in Hd. case_bool_decide as He; [done|]. destruct (bool_decide_reflect (b = [])) as [|Hb]; [done|]. cbn [orb] in H.
  destruct (8 <? length b)%nat; [done|]. destruct (3 <? length e)%nat; [done|]. cbn [orb] in H.
  destruct (encode_field b 8) as [b'|] eqn:E1; [|done]. destruct (encode_field e 3) as [e'|] eqn:E2; [|done]. cbn in H. injection H as <-.
  apply encode_field_ok in E1 as (sb & -> & Hsb & Hlb & Hlen); [|done]. apply encode_field_ok in E2 as (se & -> & Hse & Hle & _); [|done].
  exists sb, se. split_and!; try done. intros ->. destruct b; [done|simpl in Hlen; lia].
Qed.

Lemma length_field s n : (length s <= n)%nat -> length (field s n) = n.
Proof. intros. unfold field. rewrite length_app, length_replicate. lia. Qed.
Lemma named_length k : named k -> length k = 11%nat.
Proof. intros (b & e & -> & ? & ? & ? & ? & ?)%named_shape. rewrite length_app, !length_field; lia. Qed.

Lemma filter_field s n : Forall stored s -> filter (fun b => b <> 32) (field s n) = s.
Proof.
  intros H. unfold field. rewrite filter_app. replace (filter (fun b => b <> 32) (replicate (n - length s) 32)) with (@nil Z) by (by induction (n - length s)%nat).
  rewrite app_nil_r. induction H as [|b s Hb _ IH]; [done|]. rewrite filter_cons_True by (unfold stored in Hb; lia). by rewrite IH.
Qed.

Definition kanji (base : bytes) : bytes := match base with 0x05 :: r => 0xE5 :: r | _ => base end.
Lemma kanji_id c r : c <> 5 -> kanji (c :: r) = c :: r.
Proof. intros H. destruct c as [|p|p]; [done| |done]. do 3 (destruct p as [p|p|]; try done). Qed.

Lemma shown_fields b e rest :
  Forall stored b -> Forall stored e -> b <> [] -> (length b <= 8)%nat -> (length e <= 3)%nat ->
  decode_short_name (field b 8 ++ field e 3 ++ rest) = b ++ (if bool_decide (e = []) then [] else 46 :: e).
Proof.
  intros Hb He Hne Hl1 Hl2. unfold decode_short_name. rewrite take_app_length' by (by rewrite length_field).
  rewrite drop_app_length' by (by rewrite length_field). rewrite take_app_length' by (by rewrite length_field).
  change (match field b 8 with 5 :: r => 0xE5 :: r | _ => field b 8 end) with (kanji (field b 8)).
  assert (kanji (field b 8) = field b 8) as ->.
  { destruct b as [|c b]; [done|]. apply kanji_id. apply Forall_cons in Hb as [[? _] _]. lia. }
  rewrite !filter_field by done. case_bool_decide; [by rewrite app_nil_r|done].
Qed.

Lemma shown_field b e :
  Forall stored b -> Forall stored e -> b <> [] -> (length b <= 8)%nat -> (length e <= 3)%nat ->
  shown (field b 8 ++ field e 3) = b ++ (if bool_decide (e = []) then [] else 46 :: e).
Proof. intros. unfold shown. rewrite <- (app_nil_r (field e 3)). by apply shown_fields. Qed.

Lemma cut_dot (b b' e e' : str) : Forall stored b -> Forall stored b' -> b ++ 46 :: e = b' ++ 46 :: e' -> b = b' /\ e = e'.
Proof.
  intros Hb. revert b'. induction Hb as [|c b Hc _ IH]; intros b' Hb' E; destruct b' as [|c' b']; cbn in E.
  - by injection E as <-.
  - injection E as <- _. apply Forall_cons in Hb' as [[_ ?] _]. done.
  - injection E as -> _. by destruct Hc.
  - injection E as <- E. apply Forall_cons in Hb' as [_ Hb']. destruct (IH b' Hb' E) as [-> ->]. done.
Qed.

(** The reader shows different names differently, and none as a dot entry. *)
Lemma shown_inj k k' : named k -> named k' -> shown k = shown k' -> k = k'.
Proof.
  intros (b & e & -> & Hb & He & Hne & Hl1 & Hl2)%named_shape (b' & e' & -> & Hb' & He' & Hne' & Hl1' & Hl2')%named_shape. 
  rewrite !shown_field by done.
  assert (forall x y z, Forall stored x -> x = y ++ 46 :: z -> False) as Hno.
  { intros x y z Hx ->. apply Forall_app in Hx as [_ Hx]. apply Forall_cons in Hx as [[_ ?] _]. done. }
  case_bool_decide as E1; case_bool_decide as E2; rewrite ?app_nil_r.
  - by intros ->; subst.
  - intros ->. exfalso. by eapply (Hno (b' ++ 46 :: e') b' e').
  - intros E. exfalso. by apply (Hno b' b e).
  - intros [-> ->]%cut_dot; done.
Qed.

Lemma shown_no_dot k : named k -> hd 46 (shown k) <> 46 /\ shown k <> [].
Proof.
  intros (b & e & -> & Hb & He & Hne & Hl1 & Hl2)%named_shape. rewrite shown_field by done.
  destruct b as [|c b]; [done|]. apply Forall_cons in Hb as [[_ ?] _]. done.
Qed.

Lemma shown_raw k rest : named k -> decode_short_name (k ++ rest) = shown k.
Proof.
  intros (b & e & -> & Hb & He & Hne & Hl1 & Hl2)%named_shape. by rewrite shown_field, <- app_assoc, shown_fields by done.
Qed.
Lemma named_first k : named k -> exists c r, k = c :: r /\ 32 < c < 128 /\ c <> 46 /\ length r = 10%nat.
Proof.
  intros Hk. pose proof (named_length k Hk) as Hl. apply named_shape in Hk as (b & e & -> & Hb & He & Hne & Hl1 & Hl2). destruct b as [|c b]; [done|].
  apply Forall_cons in Hb as [[? ?] _]. cbn in Hl |- *. eexists _, _. split; [done|]. split; [done|]. split; [done|]. cbn in Hl. lia.
Qed.

(** ** Entries *)

Definition raw_entry (name : bytes) (attr first size : Z) : bytes :=
  name ++ [attr] ++ replicate 8 0 ++ to_le 2 (Z.shiftr first 16) ++ replicate 4 0 ++ to_le 2 (Z.land first 0xFFFF) ++ to_le 4 size.
Definition zero_raw : bytes := replicate 32 0.

Lemma length_raw name attr first size : length name = 11%nat -> length (raw_entry name attr first size) = 32%nat.
Proof. intros H. unfold raw_entry. rewrite !length_app, !length_to_le, H by lia. done. Qed.

Lemma list_2 (l : bytes) : length l = 2%nat -> exists a b, l = [a; b].
Proof. destruct l as [|a [|b []]]; try done. eauto. Qed.
Lemma list_4 (l : bytes) : length l = 4%nat -> exists a b c d, l = [a; b; c; d].
Proof. destruct l as [|a [|b [|c [|d []]]]]; try done. eauto. Qed.
Lemma list_11 (l : bytes) : length l = 11%nat -> exists a b c d e f g h i j k, l = [a; b; c; d; e; f; g; h; i; j; k].
Proof. destruct l as [|a [|b [|c [|d [|e [|f [|g [|h [|i [|j [|k []]]]]]]]]]]]; try done. repeat eexists. Qed.

(** An entry as eleven characters of a name and literal fields. *)
Ltac spell name :=
  let H := fresh in assert (length name = 11%nat) as H by done;
  destruct (list_11 _ H) as (? & ? & ? & ? & ? & ? & ? & ? & ? & ? & ? & ->); clear H.
Ltac spell_le2 v :=
  let a := fresh "a" in let b := fresh "b" in let E := fresh "Ele" in
  destruct (list_2 (to_le 2 v) (length_to_le 2 v ltac:(lia))) as (a & b & E).
Ltac spell_le4 v :=
  let a := fresh "a" in let b := fresh "b" in let c := fresh "c" in let d := fresh "d" in let E := fresh "Ele" in
  destruct (list_4 (to_le 4 v) (length_to_le 4 v ltac:(lia))) as (a & b & c & d & E).

Lemma entry_bytes name attr first size :
  length name = 11%nat ->
  put_range (put_range (put_range (put_range (put_range zero_raw 0 name) 11 [attr]) 20 (to_le 2 (Z.shiftr first 16))) 26 (to_le 2 (Z.land first 0xFFFF))) 28 (to_le 4 size) =
  raw_entry name attr first size.
Proof.
  intros Hn. unfold raw_entry. spell_le2 (Z.shiftr first 16). spell_le2 (Z.land first 0xFFFF). spell_le4 size. rewrite Ele, Ele0, Ele1. spell name. reflexivity.
Qed.

Lemma write_entry_ok off name attr first size img :
  length name = 11%nat -> 0 <= off -> off + 32 <= Z.of_nat (length img) ->
  write_entry_at off name attr first size img = (Ok (), put_range img off (raw_entry name attr first size)).
Proof.
  intros Hn Ho Hl. unfold write_entry_at, io_bind, wr_u8, wr_u16, wr_u32. change (replicate (Z.to_nat DIR_ENTRY_SIZE) 0) with zero_raw.
  assert (length zero_raw = 32%nat) as Hz by done.
  assert (length (to_le 2 (Z.shiftr first 16)) = 2%nat) as L1 by (by rewrite length_to_le by lia).
  assert (length (to_le 2 (Z.land first 0xFFFF)) = 2%nat) as L2 by (by rewrite length_to_le by lia).
  assert (length (to_le 4 size) = 4%nat) as L3 by (by rewrite length_to_le by lia). assert (length [attr] = 1%nat) as L4 by done.
  repeat (rewrite wr_ok by (rewrite ?length_put_range by lia; lia)). f_equal. rewrite <- entry_bytes by done.
  rewrite <- (Z.add_0_r off) at 2. rewrite put_put by lia.
  repeat (rewrite put_put by (rewrite ?length_put_range by lia; lia)). done.
Qed.

Lemma raw_fields name attr first size :
  length name = 11%nat -> in_uint 16 first -> in_uint 32 size ->
  let r := raw_entry name attr first size in
  r !! 0%nat = name !! 0%nat /\ r !! 11%nat = Some attr /\ take 11 r = name /\ rd_u16 r 20 = Ok 0 /\ rd_u16 r 26 = Ok first /\ rd_u32 r 28 = Ok size.
Proof.
  intros Hn Hf Hs. unfold raw_entry. assert (Z.shiftr first 16 = 0) as -> by (unfold in_uint in Hf; rewrite Z.shiftr_div_pow2 by lia; apply Z.div_small; lia).
  assert (Z.land first 0xFFFF = first) as -> by (change 0xFFFF with (Z.ones 16); rewrite Z.land_ones by lia; apply Z.mod_small; unfold in_uint in Hf; lia).
  pose proof (from_to_le 2 first ltac:(lia) Hf) as E1. pose proof (from_to_le 4 size ltac:(lia) Hs) as E2.
  spell_le2 first. spell_le4 size. rewrite Ele, Ele0 in *. spell name. split_and!; try reflexivity; [rewrite <- E1|rewrite <- E2]; reflexivity.
Qed.

Definition attr_ok (attr : Z) : Prop := attr = ATTR_ARCHIVE \/ attr = ATTR_DIRECTORY.

Lemma find_raw k attr first size name :
  named k -> length name = 11%nat -> attr_ok attr -> in_uint 16 first -> in_uint 32 size ->
  find_slot (raw_entry k attr first size) name =
    Ok (if decide (k = name) then Some (Some (mkFound first (bool_decide (attr = ATTR_DIRECTORY)))) else None).
Proof.
  intros Hk Hn Ha Hf Hs. destruct (raw_fields k attr first size (named_length k Hk) Hf Hs) as (R0 & R11 & Rn & R20 & R26 & _).
  destruct (named_first k Hk) as (c & r & Ek & Hc & _ & _). unfold find_slot. rewrite R0, R11, Rn, R20, R26, Ek. cbn -[Z.lor Z.shiftl].
  rewrite (proj2 (Z.eqb_neq c 0)), (proj2 (Z.eqb_neq c _)) by (unfold ENTRY_DELETED; lia). rewrite <- Ek.
  destruct Ha as [-> | ->]; cbn -[Z.lor Z.shiftl]; case_bool_decide; case_decide; try done.
Qed.

Lemma parse_raw k attr first size :
  named k -> attr_ok attr -> in_uint 16 first -> in_uint 32 size ->
  parse_slot (raw_entry k attr first size) [] = Some ([], Some (Ok (mkEntry (shown k) (bool_decide (attr = ATTR_DIRECTORY)) false first size))).
Proof.
  intros Hk Ha Hf Hs. destruct (raw_fields k attr first size (named_length k Hk) Hf Hs) as (R0 & R11 & _ & R20 & R26 & R28).
  destruct (named_first k Hk) as (c & r & Ek & Hc & _ & _). unfold parse_slot. rewrite R0, R11, R20, R26, R28.
  assert (decode_short_name (raw_entry k attr first size) = shown k) as -> by (by apply shown_raw). rewrite Ek. cbn -[Z.lor Z.shiftl].
  rewrite (proj2 (Z.eqb_neq c _)), (proj2 (Z.eqb_neq c _)) by (unfold ENTRY_DELETED, ENTRY_END; lia).
  destruct Ha as [-> | ->]; done.
Qed.

(** An entry that is in use and is no file or directory by a name of its own. *)
Record skipped (r : bytes) : Prop := {
  sk_length : length r = 32%nat;
  sk_used : exists c, r !! 0%nat = Some c /\ c <> 0 /\ c <> ENTRY_DELETED;
  sk_find : forall k, named k -> find_slot r k = Ok None;
  sk_parse : exists o, parse_slot r [] = Some ([], o) /\
    (o = None \/ exists e, o = Some (Ok e) /\ forall k, named k -> e_name e <> shown k)
}.
Lemma raw_used k attr first size :
  named k -> in_uint 16 first -> in_uint 32 size -> exists c, raw_entry k attr first size !! 0%nat = Some c /\ c <> 0 /\ c <> ENTRY_DELETED.
Proof.
  intros Hk Hf Hs. destruct (raw_fields k attr first size (named_length k Hk) Hf Hs) as (R0 & _). destruct (named_first k Hk) as (c & r & -> & Hc & _ & _).
  exists c. rewrite R0. unfold ENTRY_DELETED. split; [done|lia].
Qed.

Lemma dot_skipped name first :
  name = DOT \/ name = DOTDOT -> in_uint 16 first -> skipped (raw_entry name ATTR_DIRECTORY first 0).
Proof.
  intros Hd Hf. assert (length name = 11%nat) as Hl by (by destruct Hd as [-> | ->]).
  destruct (raw_fields name ATTR_DIRECTORY first 0 Hl Hf ltac:(unfold in_uint; lia)) as (R0 & R11 & Rn & R20 & R26 & R28).
  assert (name !! 0%nat = Some 46) as R0' by (by destruct Hd as [-> | ->]). rewrite R0' in R0. split.
  - by apply length_raw.
  - exists 46. done.
  - intros k Hk. unfold find_slot. rewrite R0, R11, Rn, R20, R26. cbn -[Z.lor Z.shiftl]. rewrite bool_decide_false; [done|].
    intros ->. destruct (named_first k Hk) as (c & r & -> & _ & Hc & _). by injection R0' as ->.
  - unfold parse_slot. rewrite R0, R11, R20, R26, R28. cbn -[Z.lor Z.shiftl decode_short_name]. eexists. split; [done|]. right. eexists. split; [done|].
    intros k Hk. destruct (shown_no_dot k Hk) as [H1 H2]. intros E. apply H1. rewrite <- E. by destruct Hd as [-> | ->].
Qed.

(** ** Slots *)

Definition slot_bytes (img : bytes) (slots : list Z) : list bytes := (fun off => bytes_at img off 32) <$> slots.

Lemma slots_from_S base m : slots_from base (S m) = base :: slots_from (base + 32) m.
Proof.
  unfold slots_from. cbn [seq]. cbn [fmap list_fmap]. f_equal; [lia|]. rewrite <- fmap_S_seq, <- list_fmap_compose. apply list_fmap_ext. intros i j _. cbn. unfold DIR_ENTRY_SIZE. lia.
Qed.
Lemma elem_slots_from base m off : off ∈ slots_from base m <-> exists i, (i < m)%nat /\ off = base + 32 * Z.of_nat i.
Proof.
  unfold slots_from, DIR_ENTRY_SIZE. rewrite list_elem_of_fmap. split.
  - intros (i & -> & Hi%elem_of_seq). exists i. lia.
  - intros (i & Hi & ->). exists i. rewrite elem_of_seq. lia.
Qed.
Lemma slots_from_nodup base m : NoDup (slots_from base m).
Proof. unfold slots_from, DIR_ENTRY_SIZE. apply NoDup_fmap_2_strong; [intros; lia|apply NoDup_seq]. Qed.

Lemma slots_concat img base m : 0 <= base -> concat (slot_bytes img (slots_from base m)) = bytes_at img base (32 * Z.of_nat m).
Proof.
  revert base. induction m as [|m IH]; intros base Hb; [done|]. rewrite slots_from_S. cbn [slot_bytes fmap list_fmap concat]. fold (slot_bytes img (slots_from (base + 32) m)).
  rewrite IH by lia. replace (32 * Z.of_nat (S m)) with (32 + 32 * Z.of_nat m) by lia. by rewrite bytes_at_app by lia.
Qed.

(** The fields of the entry of a file or a directory. *)
Record ent := mkEnt { en_name : bytes; en_attr : Z; en_first : Z; en_size : Z }.
Definition raw_of (e : ent) : bytes := raw_entry (en_name e) (en_attr e) (en_first e) (en_size e).
Definition ent_ok (e : ent) : Prop := named (en_name e) /\ attr_ok (en_attr e) /\ in_uint 16 (en_first e) /\ in_uint 32 (en_size e).
Definition en_dir (e : ent) : bool := bool_decide (en_attr e = ATTR_DIRECTORY).
Definition found (e : ent) : Found := mkFound (en_first e) (en_dir e).
Definition shown_entry (e : ent) : DirEntry := mkEntry (shown (en_name e)) (en_dir e) false (en_first e) (en_size e).
Fixpoint look (es : list ent) (name : bytes) : option ent :=
  match es with [] => None | e :: es => if decide (en_name e = name) then Some e else look es name end.

Section dirs.
Context (w : FatWriter) (n : Z) (G : geo w n).

Definition dir_of (cs : list Z) : Dir := match cs with [] => Root | c :: _ => Chain c end.
Definition dslots (cs : list Z) : list Z :=
  match cs with
  | [] => slots_from (root_start w) (Z.to_nat (root_slots w))
  | _ => concat ((fun c => slots_from (cluster_at w c) (per_cluster w)) <$> cs)
  end.
Definition region (img : bytes) (cs : list Z) : bytes := match cs with [] => rootv w img | _ => content w img cs end.
Definition raws (img : bytes) (cs : list Z) : list bytes := slot_bytes img (dslots cs).

Lemma per_cluster_size : 32 * Z.of_nat (per_cluster w) = cluster_size w /\ (2 <= per_cluster w)%nat.
Proof.
  destruct (ge_cs _ _ G) as (? & Hm & ?). unfold per_cluster, DIR_ENTRY_SIZE. pose proof (Z.div_mod (cluster_size w) 32 ltac:(lia)) as E.
  assert (2 <= cluster_size w / 32) by (apply Z.div_le_lower_bound; lia). lia.
Qed.

Lemma region_raws img cs : Forall (valid w) cs -> region img cs = concat (raws img cs).
Proof.
  intros Hv. unfold region, raws, dslots. destruct cs as [|c0 cs0] eqn:E.
  - rewrite slots_concat by (pose proof (ge_root _ _ G); pose proof (ge_fat _ _ G); pose proof (ge_fats _ _ G); pose proof (ge_size _ _ G); nia).
    unfold rootv. pose proof (ge_slots _ _ G). f_equal. lia.
  - rewrite <- E in *. clear E. unfold content. induction cs as [|c cs IH]; [done|]. apply Forall_cons in Hv as [Hc Hv].
    cbn [fmap list_fmap concat]. unfold slot_bytes in *. rewrite fmap_app, concat_app, IH by done. f_equal.
    fold (slot_bytes img (slots_from (cluster_at w c) (per_cluster w))). destruct (regions w n G c Hc) as (? & ? & ? & ? & ? & ? & ? & ? & ? & ?).
    rewrite slots_concat, (proj1 per_cluster_size) by lia. done.
Qed.

(** Where a slot is. *)
Lemma elem_dslots cs off :
  off ∈ dslots cs ->
  (cs = [] /\ exists o, off = root_start w + o /\ 0 <= o /\ o + 32 <= 32 * root_slots w) \/
  (exists c i, c ∈ cs /\ off = cluster_at w c + 32 * i /\ 0 <= i /\ 32 * i + 32 <= cluster_size w).
Proof.
  pose proof per_cluster_size as [Hp _]. destruct cs as [|c0 cs0] eqn:E; cbn [dslots].
  - intros (i & Hi & ->)%elem_slots_from. left. split; [done|]. exists (32 * Z.of_nat i). lia.
  - rewrite <- E. intros (l & Hl & Hoff)%list_elem_of_In%List.in_concat. right. apply list_elem_of_In in Hl, Hoff.
    apply list_elem_of_fmap in Hl as (c & -> & Hc). apply elem_slots_from in Hoff as (i & Hi & ->). exists c, (Z.of_nat i). split; [done|]. lia.
Qed.

Lemma slots_apart cs off off' :
  Forall (valid w) cs -> off ∈ dslots cs -> off' ∈ dslots cs -> off <> off' -> off + 32 <= off' \/ off' + 32 <= off.
Proof.
  intros Hv Ho Ho' Hne. rewrite Forall_forall in Hv. destruct cs as [|c0 cs0] eqn:E.
  - apply elem_slots_from in Ho as (i & _ & ->), Ho' as (j & _ & ->). lia.
  - rewrite <- E in *. apply elem_dslots in Ho as [[? _]|(c & i & Hc & -> & ? & ?)]; [congruence|].
    apply elem_dslots in Ho' as [[? _]|(c' & j & Hc' & -> & ? & ?)]; [congruence|].
    destruct (decide (c = c')) as [->|Hcc]; [lia|]. destruct (cluster_disjoint w n G c c'); [auto|auto|done|lia|lia].
Qed.
Lemma slots_nodup cs : Forall (valid w) cs -> NoDup cs -> NoDup (dslots cs).
Proof.
  intros Hv Hn. destruct cs as [|c0 cs0] eqn:E; [apply slots_from_nodup|]. cbn [dslots]. rewrite <- E in *. clear E.
  induction Hn as [|c cs Hc Hn IH]; [by apply NoDup_nil|]. apply Forall_cons in Hv as [Hvc Hv]. cbn [fmap list_fmap concat]. apply NoDup_app.
  split; [apply slots_from_nodup|]. split; [|by apply IH]. intros off (i & Hi & ->)%elem_slots_from Hoff. destruct cs as [|c1 cs1] eqn:E; [cbn in Hoff; set_solver|].
  rewrite <- E in *. assert (cluster_at w c + 32 * Z.of_nat i ∈ dslots cs) as [[? _]|(c' & j & Hc' & Ej & ? & ?)]%elem_dslots by (by rewrite E in * ); [by subst|].
  rewrite Forall_forall in Hv. pose proof per_cluster_size. destruct (cluster_disjoint w n G c c'); [done|auto|by intros ->|lia|lia].
Qed.
Lemma dir_slot_within cs off : Forall (valid w) cs -> off ∈ dslots cs -> 0 <= off /\ off + 32 <= n.
Proof.
  intros Hv. rewrite Forall_forall in Hv. intros [[-> (o & -> & ? & ?)]|(c & i & Hc & -> & ? & ?)]%elem_dslots.
  - destruct G as [[? _] ? ? ? ? ? ? ? ? ?]. nia.
  - destruct (regions w n G c) as (? & ? & ? & ? & ? & ? & ? & ? & ? & ?); [auto|]. lia.
Qed.

(** A write of one slot. *)
Lemma put_slot img cs i off d :
  ready w n img -> chain_ok w img cs -> dslots cs !! i = Some off -> length d = 32%nat ->
  let img' := put_range img off d in
  raws img' cs = <[i := d]> (raws img cs) /\ chain_ok w img' cs /\ same w img img' (fun c => c ∈ cs) /\ (cs <> [] -> rootv w img' = rootv w img) /\
  (forall c, valid w c -> fatv w img' c = fatv w img c).
Proof.
  intros [Hs Hse] [Hv Hn Hl] Hi Hd img'. pose proof (list_elem_of_lookup_2 _ _ _ Hi) as Hoff. pose proof (slots_nodup cs Hv Hn) as Hnd.
  destruct (dir_slot_within cs off Hv Hoff) as [Ho1 Ho2]. unfold sized in Hs.
  assert (raws img' cs = <[i := d]> (raws img cs)) as Hraws.
  { apply list_eq. intros j. unfold raws, slot_bytes. rewrite list_lookup_fmap. destruct (decide (j = i)) as [->|Hj].
    - rewrite list_lookup_insert_eq by (rewrite length_fmap; by eapply lookup_lt_Some). rewrite Hi. cbn. f_equal. unfold img'.
      rewrite bytes_at_inside by lia. rewrite Z.sub_diag, put_all; [done|]. rewrite length_bytes_at by lia. lia.
    - rewrite list_lookup_insert_ne, list_lookup_fmap by done. destruct (dslots cs !! j) as [off'|] eqn:Ej; [|done]. cbn. f_equal.
      pose proof (list_elem_of_lookup_2 _ _ _ Ej) as Hoff'. destruct (dir_slot_within cs off' Hv Hoff') as [? ?].
      assert (off <> off') by (intros ->; apply Hj; by eapply NoDup_lookup). apply bytes_at_other; try lia. destruct (slots_apart cs off off' Hv Hoff Hoff'); [done|lia|lia]. }
  split; [done|]. assert (same w img img' (fun c => c ∈ cs) /\ (cs <> [] -> rootv w img' = rootv w img) /\ (forall c, valid w c -> fatv w img' c = fatv w img c)) as (H1 & H2 & H3).
  { rewrite Forall_forall in Hv. apply elem_dslots in Hoff as [[-> (o & -> & ? & ?)]|(c & k & Hc & -> & ? & ?)].
    - destruct (put_root w n G img o d Hs) as [H1 _]; [lia|lia|]. fold img' in H1. split; [eapply same_mono; [exact H1|done]|]. split; [done|].
      intros c Hc. apply (same_fatv _ _ _ _ _ H1); [done|tauto].
    - destruct (put_cluster w n G img c (32 * k) d Hs) as (H1 & H2 & H3 & _); [auto|lia|lia|]. fold img' in H1, H2, H3.
      split; [eapply same_mono; [exact H1|]; cbn; by intros ? _ <-|]. split; [done|]. intros x Hx. destruct (decide (c = x)) as [->|]; [done|]. by apply (same_fatv _ _ _ _ _ H1). }
  split; [|done]. split; [done|done|]. 
  apply (links_ext w n G img); [|done]. intros c Hc. apply H3. rewrite Forall_forall in Hv. auto.
Qed.

(** ** Walking a chain *)

Lemma chain_length img cs : chain_ok w img cs -> Z.of_nat (length cs) <= w_cluster_count w.
Proof.
  intros [Hv Hn _]. rewrite Forall_forall in Hv. pose proof (ge_count _ _ G). assert (cs ⊆+ seqZ 2 (w_cluster_count w)) as H1%submseteq_length.
  { apply NoDup_submseteq; [done|]. intros c Hc. apply elem_of_seqZ. destruct (Hv c Hc) as [? _]. unfold counted in *. lia. }
  rewrite length_seqZ in H1. lia.
Qed.

(** The entry of a cluster of a chain: the end, or the next cluster. *)
Lemma next_data img c c' cs : chain_ok w img (c :: c' :: cs) -> fatv w img c = c' /\ is_data_cluster c' = true /\ c' <> c /\ chain_ok w img (c' :: cs).
Proof.
  intros [Hv Hn [Hf Hl]]. apply Forall_cons in Hv as [_ Hv]. apply NoDup_cons in Hn as [Hc Hn]. pose proof Hv as [[Hc' _] _]%Forall_cons.
  pose proof (ge_count _ _ G). unfold counted in Hc'. split; [done|]. split; [|split; [set_solver|done]].
  unfold is_data_cluster. rewrite (proj2 (Z.leb_le _ _)), (proj2 (Z.ltb_lt _ _)) by lia. done.
Qed.
Lemma head_counted img c cs : chain_ok w img (c :: cs) -> valid w c /\ (c <? 2) = false.
Proof. intros [[Hv _]%Forall_cons _ _]. split; [done|]. apply Z.ltb_ge. apply Hv. Qed.

Lemma slots_loop_ok img steps : forall c cs acc, ready w n img -> chain_ok w img (c :: cs) -> (length (c :: cs) <= steps)%nat ->
  slots_loop w steps c acc img = (Ok (acc ++ dslots (c :: cs)), img).
Proof.
  induction steps as [|steps IH]; intros c cs acc Hr Hch Hlen; [simpl in Hlen; lia|]. destruct (head_counted _ _ _ Hch) as [Hv E2].
  cbn [slots_loop]. rewrite E2. unfold io_bind, io_read. rewrite (offset_ok w n G), (fat_get_ok w n G) by first [done|solve [apply Hr]|apply Hv].
  destruct cs as [|c' cs].
  - destruct Hch as [_ _ [Hf _]]. rewrite Hf. cbn. by rewrite app_nil_r.
  - destruct (next_data _ _ _ _ Hch) as (-> & -> & Hne & Hch'). cbn [negb]. rewrite (proj2 (Z.eqb_neq _ _)) by done.
    rewrite (IH c' cs); [|done|done|simpl in *; lia]. cbn. by rewrite <- app_assoc.
Qed.
Lemma last_loop_ok img steps : forall c cs, ready w n img -> chain_ok w img (c :: cs) -> (length (c :: cs) <= steps)%nat ->
  last_loop w steps c img = (Ok (List.last (c :: cs) 0), img).
Proof.
  induction steps as [|steps IH]; intros c cs Hr Hch Hlen; [simpl in Hlen; lia|]. destruct (head_counted _ _ _ Hch) as [Hv E2].
  cbn [last_loop]. unfold io_bind. rewrite (fat_get_ok w n G) by first [solve [apply Hr]|apply Hv]. destruct cs as [|c' cs].
  - destruct Hch as [_ _ [Hf _]]. by rewrite Hf.
  - destruct (next_data _ _ _ _ Hch) as (-> & -> & Hne & Hch'). cbn [negb]. rewrite (proj2 (Z.eqb_neq _ _)) by done.
    rewrite (IH c' cs); [done|done|done|simpl in *; lia].
Qed.

Lemma dir_slots_ok img cs : ready w n img -> chain_ok w img cs -> dir_slots w (dir_of cs) img = (Ok (dslots cs), img).
Proof.
  intros Hr Hch. destruct cs as [|c cs]; [done|]. pose proof (chain_length _ _ Hch). cbn [dir_of dir_slots].
  rewrite (slots_loop_ok img _ c cs []); [done|done|done|unfold max_steps; lia].
Qed.

(** ** Searching *)

(** What the scans find, slot by slot. *)
Fixpoint find_raws (rs : list bytes) (name : bytes) : result FatError (option Found) :=
  match rs with
  | [] => Ok None
  | r :: rs => x ← find_slot r name; match x with Some res => Ok res | None => find_raws rs name end
  end.
Lemma find_loop_raws img name slots :
  Forall (fun off => 0 <= off /\ off + 32 <= Z.of_nat (length img)) slots -> find_loop slots name img = find_raws (slot_bytes img slots) name.
Proof.
  induction 1 as [|off slots [Ho Hl] _ IH]; [done|]. cbn [find_loop slot_bytes fmap list_fmap find_raws]. unfold DIR_ENTRY_SIZE. rewrite get_bytes_at by lia. cbn.
  by rewrite IH.
Qed.
Lemma find_raws_skip pre rs name : (forall r, r ∈ pre -> find_slot r name = Ok None) -> find_raws (pre ++ rs) name = find_raws rs name.
Proof. induction pre as [|r pre IH]; [done|]. intros H. cbn. rewrite H by set_solver. cbn. apply IH. set_solver. Qed.
Lemma find_raws_zero k name : find_raws (replicate k zero_raw) name = Ok None.
Proof. by destruct k. Qed.

Lemma slots_in img cs : ready w n img -> Forall (valid w) cs -> Forall (fun off => 0 <= off /\ off + 32 <= Z.of_nat (length img)) (dslots cs).
Proof. intros [Hs _] Hv. apply Forall_forall. intros off Hoff. unfold sized in Hs. rewrite Hs. by apply (dir_slot_within cs). Qed.

Lemma find_raws_ents es name k :
  Forall ent_ok es -> named name -> find_raws ((raw_of <$> es) ++ replicate k zero_raw) name = Ok (found <$> look es name).
Proof.
  intros Hes Hn. induction Hes as [|e es (Hk & Ha & Hf & Hs) _ IH]; [by apply find_raws_zero|]. cbn [fmap list_fmap app find_raws look].
  rewrite IH. unfold raw_of. rewrite find_raw by (done || by apply named_length). cbn. by destruct (decide _).
Qed.

(** A directory: entries to skip, the entries of its files and directories, free slots. *)
Record dir_shape (img : bytes) (cs : list Z) (pre : list bytes) (es : list ent) (k : nat) : Prop := {
  ds_chain : chain_ok w img cs;
  ds_pre : Forall skipped pre;
  ds_ents : Forall ent_ok es;
  ds_raws : raws img cs = pre ++ (raw_of <$> es) ++ replicate k zero_raw
}.

Lemma find_ok img cs pre es k name :
  ready w n img -> dir_shape img cs pre es k -> named name -> find w (dir_of cs) name img = (Ok (found <$> look es name), img).
Proof.
  intros Hr [Hch Hpre Hes Hraws] Hn. unfold find, io_bind, io_read. rewrite dir_slots_ok by done. f_equal.
  rewrite find_loop_raws by (apply slots_in; [done|apply Hch]). fold (raws img cs). rewrite Hraws, find_raws_skip; [by apply find_raws_ents|].
  intros r Hrp. rewrite Forall_forall in Hpre. by apply (sk_find _ (Hpre r Hrp)).
Qed.

(** ** Adding an entry *)

Definition used (r : bytes) : Prop := exists c, r !! 0%nat = Some c /\ c <> 0 /\ c <> ENTRY_DELETED.
Definition root_full (img : bytes) : Prop := Forall used (raws img []).

Lemma free_loop_ok img slots us k :
  Forall (fun off => 0 <= off /\ off + 32 <= Z.of_nat (length img)) slots -> slot_bytes img slots = us ++ replicate k zero_raw -> Forall used us ->
  free_loop slots img = Ok (slots !! length us).
Proof.
  intros Hin. revert us. induction Hin as [|off slots [Ho Hl] _ IH]; intros us Hs Hu.
  { by destruct us. }
  cbn [free_loop]. assert (img !! Z.to_nat off = bytes_at img off 32 !! 0%nat) as -> by (rewrite lookup_bytes_at by lia; f_equal; lia).
  destruct us as [|u us].
  - destruct k as [|k]; [done|]. injection Hs as -> _. done.
  - injection Hs as -> Hs. apply Forall_cons in Hu as [(c & -> & H0 & H5) Hu]. cbn.
    rewrite (proj2 (Z.eqb_neq c 0)), (proj2 (Z.eqb_neq c _)) by done. cbn. by apply IH.
Qed.

Lemma shape_used img cs pre es k : dir_shape img cs pre es k -> Forall used (pre ++ (raw_of <$> es)).
Proof.
  intros [_ Hp He _]. apply Forall_app. split; [eapply Forall_impl; [exact Hp|]; by intros r []|]. apply Forall_fmap. eapply Forall_impl; [exact He|].
  intros e (? & ? & ? & ?). by apply raw_used.
Qed.

Lemma raws_ext img img' cs :
  Forall (valid w) cs -> (forall c, c ∈ cs -> clus w img' c = clus w img c) -> (cs = [] -> rootv w img' = rootv w img) -> raws img' cs = raws img cs.
Proof.
  intros Hv Hc Hrt. rewrite Forall_forall in Hv. unfold raws, slot_bytes. apply list_fmap_ext. intros i off Hi%list_elem_of_lookup_2.
  apply elem_dslots in Hi as [[-> (o & -> & ? & ?)]|(c & k & Hin & -> & ? & ?)].
  - assert (0 <= root_start w) by (destruct G as [_ ? ? ? ? _ _ _ _ _]; nia).
    rewrite !(bytes_at_sub _ (root_start w) (32 * root_slots w)) by lia. fold (rootv w img') (rootv w img). by rewrite Hrt.
  - destruct (regions w n G c) as (? & ? & ? & ? & ? & ? & ? & ? & ? & ?); [auto|].
    rewrite !(bytes_at_sub _ (cluster_at w c) (cluster_size w)) by lia. fold (clus w img' c) (clus w img c). by rewrite Hc.
Qed.

Lemma dslots_snoc cs c : cs <> [] -> dslots (cs ++ [c]) = dslots cs ++ slots_from (cluster_at w c) (per_cluster w).
Proof.
  intros Hne. assert (forall l, l <> [] -> dslots l = concat ((fun c => slots_from (cluster_at w c) (per_cluster w)) <$> l)) as E by (by intros []).
  rewrite !E by (done || by destruct cs). rewrite fmap_app, concat_app. cbn. by rewrite app_nil_r.
Qed.
Lemma slots_zero img c :
  valid w c -> clus w img c = replicate (Z.to_nat (cluster_size w)) 0 ->
  slot_bytes img (slots_from (cluster_at w c) (per_cluster w)) = replicate (per_cluster w) zero_raw.
Proof.
  intros Hv Hz. destruct (regions w n G c Hv) as (? & ? & ? & ? & ? & ? & ? & ? & ? & ?). pose proof per_cluster_size as [Hp _].
  unfold slot_bytes. rewrite (const_fmap _ _ zero_raw); [unfold slots_from; by rewrite length_fmap, length_seq|].
  intros i off (j & Hj & ->)%list_elem_of_lookup_2%elem_slots_from.
  rewrite (bytes_at_sub _ (cluster_at w c) (cluster_size w)) by lia. fold (clus w img c). rewrite Hz. unfold bytes_at, zero_raw.
  rewrite drop_replicate, take_replicate. f_equal. lia.
Qed.

(** The chain of a directory after an entry is added: as it was, or one cluster longer. *)
Definition grown (img : bytes) (cs cs' : list Z) : Prop :=
  cs' = cs \/ cs <> [] /\ exists c, cs' = cs ++ [c] /\ valid w c /\ fatv w img c = 0.
(** No room: every cluster is taken, or every slot of the root directory. *)
Definition no_room (img : bytes) : Prop := full w img \/ root_full img.

Lemma shape_slot img cs pre es k :
  dir_shape img cs pre es (S k) -> exists off, dslots cs !! (length (pre ++ (raw_of <$> es)))%nat = Some off.
Proof.
  intros [_ _ _ Hr]. assert (length (dslots cs) = length (raws img cs)) as E by (unfold raws, slot_bytes; by rewrite length_fmap).
  rewrite Hr, !length_app, length_replicate in E. apply lookup_lt_is_Some_2. rewrite length_app. lia.
Qed.

(** An entry written into the first free slot. *)
Lemma fill_ok img cs pre es k off e :
  ready w n img -> dir_shape img cs pre es (S k) -> ent_ok e -> dslots cs !! (length (pre ++ (raw_of <$> es)))%nat = Some off ->
  exists img', write_entry_at off (en_name e) (en_attr e) (en_first e) (en_size e) img = (Ok (), img') /\ dir_shape img' cs pre (es ++ [e]) k /\
    same w img img' (fun c => c ∈ cs) /\ (cs <> [] -> rootv w img' = rootv w img).
Proof.
  intros Hr [Hch Hp He Hraws] Hok Hoff. pose proof Hok as (Hk & Ha & Hf & Hsz). pose proof (named_length _ Hk) as Hl.
  pose proof (list_elem_of_lookup_2 _ _ _ Hoff) as Hel. destruct (dir_slot_within cs off (ch_valid _ _ _ Hch) Hel) as [H1 H2].
  rewrite write_entry_ok by (done || (destruct Hr as [Hs _]; unfold sized in Hs; lia)). eexists. split; [done|].
  destruct (put_slot img cs _ off (raw_of e) Hr Hch Hoff) as (Hr' & Hch' & Hsm & Hrt & _); [by apply length_raw|].
  split; [|by split]. split; [done|done|apply Forall_app; split; [done|by apply Forall_singleton]|].
  unfold raw_of in Hr' at 1. rewrite Hr', Hraws, app_assoc. rewrite <- (Nat.add_0_r (length _)), insert_app_r. cbn. by rewrite fmap_app, <- !app_assoc.
Qed.

(** A directory with a free slot takes an entry. *)
Lemma free_slot_room img cs pre es k :
  ready w n img -> dir_shape img cs pre es (S k) ->
  exists off, free_slot w (dir_of cs) img = (Ok off, img) /\ dslots cs !! (length (pre ++ (raw_of <$> es)))%nat = Some off.
Proof.
  intros Hr Hsh. pose proof Hsh as [Hch Hp He Hraws]. destruct (shape_slot _ _ _ _ _ Hsh) as [off Hoff]. exists off. split; [|done].
  assert (free_loop (dslots cs) img = Ok (Some off)) as Hfl.
  { rewrite <- Hoff. eapply free_loop_ok; [apply slots_in; [done|apply Hch]| |by eapply shape_used]. fold (raws img cs). rewrite Hraws, app_assoc. done. }
  unfold free_slot, io_bind, io_read. by rewrite dir_slots_ok, Hfl by done.
Qed.
Lemma add_entry_room img cs pre es k e :
  ready w n img -> dir_shape img cs pre es (S k) -> ent_ok e ->
  exists img', add_entry w (dir_of cs) (en_name e) (en_attr e) (en_first e) (en_size e) img = (Ok (), img').
Proof.
  intros Hr Hsh Hok. destruct (free_slot_room img cs pre es k Hr Hsh) as (off & He & Hoff). destruct (fill_ok img cs pre es k off e Hr Hsh Hok Hoff) as (img' & Hw & _).
  exists img'. unfold add_entry, io_bind. by rewrite He.
Qed.

(** A directory with no free slot is extended by a cluster. *)
Definition grow (first : Z) : io Z :=
  let! last := chain_last w first in
  let! fresh := alloc_cluster w in
  let! _ := (if fresh <? 65536 then fat_set w last fresh else io_fail BadCluster) in
  io_read (fun _ => w_cluster_offset w fresh).

Lemma grow_ok img c0 cs pre es :
  ready w n img -> dir_shape img (c0 :: cs) pre es 0 ->
  (grow c0 img = (Err NoSpace, img) /\ full w img) \/
  (exists c img', grow c0 img = (Ok (cluster_at w c), img') /\ valid w c /\ fatv w img c = 0 /\
    dir_shape img' ((c0 :: cs) ++ [c]) pre es (per_cluster w) /\ same w img img' (fun x => x ∈ (c0 :: cs) ++ [c]) /\ rootv w img' = rootv w img).
Proof.
  intros Hr [Hch Hp He Hraws]. pose proof (chain_length _ _ Hch) as Hlen. 
  assert (chain_last w c0 img = (Ok (List.last (c0 :: cs) 0), img)) as Hlast by (apply last_loop_ok; [done|done|unfold max_steps; lia]).
  destruct (exists_last (l := c0 :: cs) ltac:(done)) as (cs0 & l & E). rewrite E in *. rewrite List.last_last in Hlast.
  destruct (alloc_ok w n G img Hr) as [[Ha Hf]|(c & img1 & Ha & Hal)]; [left; unfold grow, io_bind; by rewrite Hlast, Ha|right].
  destruct (extend_ok w n G img cs0 l c img1 Hr Hch Hal) as (img2 & Hs2 & Hc2 & Hsm & Hrt & Hcl & Hz). pose proof (al_valid _ _ _ _ Hal) as Hv.
  exists c, img2. split.
  { unfold grow, io_bind. rewrite Hlast, Ha. rewrite (proj2 (Z.ltb_lt _ _)) by (pose proof (ge_count _ _ G); destruct Hv as [[? ?] _]; lia).
    rewrite Hs2. unfold io_read. by rewrite (offset_ok w n G). }
  split; [done|]. split; [apply Hal|]. assert ((cs0 ++ [l]) ++ [c] = cs0 ++ [l; c]) as Eapp by (by rewrite <- app_assoc).
  split; [|split; [eapply same_mono; [exact Hsm|]; cbn; intros x _ [->| ->]; set_solver|done]].
  split; [by rewrite Eapp|done|done|]. unfold raws. rewrite dslots_snoc by (by destruct cs0). unfold slot_bytes. rewrite fmap_app.
  fold (slot_bytes img2 (dslots (cs0 ++ [l]))) (slot_bytes img2 (slots_from (cluster_at w c) (per_cluster w))).
  rewrite slots_zero by done. fold (raws img2 (cs0 ++ [l])). rewrite (raws_ext img) by (done || apply Hch || by destruct cs0).
  rewrite Hraws. cbn [replicate]. by rewrite app_nil_r, <- app_assoc.
Qed.

Lemma free_slot_ok img cs pre es k :
  ready w n img -> dir_shape img cs pre es k ->
  (free_slot w (dir_of cs) img = (Err NoSpace, img) /\ no_room img) \/
  (exists img' cs' k' off, free_slot w (dir_of cs) img = (Ok off, img') /\ dir_shape img' cs' pre es (S k') /\ grown img cs cs' /\
    dslots cs' !! (length (pre ++ (raw_of <$> es)))%nat = Some off /\ same w img img' (fun c => c ∈ cs') /\ rootv w img' = rootv w img).
Proof.
  intros Hr Hsh. pose proof Hsh as [Hch Hp He Hraws]. pose proof (shape_used _ _ _ _ _ Hsh) as Hu.
  assert (free_loop (dslots cs) img = Ok (dslots cs !! length (pre ++ (raw_of <$> es)))) as Hfl.
  { eapply free_loop_ok; [apply slots_in; [done|apply Hch]| |exact Hu]. fold (raws img cs). rewrite Hraws, app_assoc. done. }
  destruct k as [|k].
  2:{ right. destruct (free_slot_room img cs pre es k Hr Hsh) as (off & He' & Hoff). exists img, cs, k, off. split; [done|]. split; [done|]. split; [by left|]. split; [done|]. split; [apply same_refl|done]. }
  assert (dslots cs !! length (pre ++ (raw_of <$> es)) = None) as Hnone.
  { apply lookup_ge_None_2. assert (length (raws img cs) = length (dslots cs)) as <- by (unfold raws, slot_bytes; by rewrite length_fmap).
    rewrite Hraws. cbn [replicate]. by rewrite app_nil_r. }
  assert (free_slot w (dir_of cs) img = match dir_of cs with
    | Root => (Err NoSpace, img)
    | Chain first => grow first img end) as ->.
  { unfold free_slot. unfold io_bind at 1 2. unfold io_read at 1. rewrite dir_slots_ok, Hfl, Hnone by done. by destruct cs. }
  destruct cs as [|c0 cs].
  { left. split; [done|]. right. unfold root_full. rewrite Hraws. cbn [replicate]. by rewrite app_nil_r. }
  cbn [dir_of]. destruct (grow_ok img c0 cs pre es Hr Hsh) as [[He' Hf]|(c & img' & He' & Hv & Hfree & Hsh' & Hsm & Hrt)]; [left; split; [done|by left]|right].
  pose proof per_cluster_size as [_ Hpc]. destruct (per_cluster w) as [|pc] eqn:Epc; [lia|].
  exists img', ((c0 :: cs) ++ [c]), pc, (cluster_at w c). split; [done|]. split; [done|]. split; [right; split; [done|eauto]|]. split; [|done].
  apply lookup_ge_None in Hnone. rewrite dslots_snoc, lookup_app_r by done. rewrite Epc, slots_from_S.
  assert (length (dslots (c0 :: cs)) = length (pre ++ (raw_of <$> es))) as <-; [|by rewrite Nat.sub_diag].
  assert (length (raws img (c0 :: cs)) = length (dslots (c0 :: cs))) as <- by (unfold raws, slot_bytes; by rewrite length_fmap).
  rewrite Hraws. cbn [replicate]. by rewrite app_nil_r.
Qed.

(** Adding an entry: the entry follows the others, and nothing else changes but the chain of the directory. *)
Lemma add_entry_ok img cs pre es k e :
  ready w n img -> dir_shape img cs pre es k -> ent_ok e ->
  (add_entry w (dir_of cs) (en_name e) (en_attr e) (en_first e) (en_size e) img = (Err NoSpace, img) /\ no_room img) \/
  (exists img' cs' k', add_entry w (dir_of cs) (en_name e) (en_attr e) (en_first e) (en_size e) img = (Ok (), img') /\
    dir_shape img' cs' pre (es ++ [e]) k' /\ grown img cs cs' /\ same w img img' (fun c => c ∈ cs') /\ (cs <> [] -> rootv w img' = rootv w img)).
Proof.
  intros Hr Hsh Hok. unfold add_entry, io_bind.
  destruct (free_slot_ok img cs pre es k Hr Hsh) as [[He Hn]|(img1 & cs' & k' & off & He & Hsh1 & Hg & Hoff & Hsm & Hrt)]; rewrite He; [by left|right].
  destruct (fill_ok img1 cs' pre es k' off e) as (img2 & He2 & Hsh2 & Hsm2 & Hrt2); [by eapply same_ready|done|done|done|].
  exists img2, cs', k'. split; [done|]. split; [done|]. split; [done|]. split; [eapply same_trans; [exact Hsm|exact Hsm2|]; cbn; tauto|].
  intros Hne. rewrite Hrt2; [done|]. destruct Hg as [->|(_ & c & -> & _)]; [done|by destruct cs].
Qed.
End dirs.
