(* ===== verification/FatTree.v ===== *)
(** * FAT volumes: the tree of files and directories

    The invariant that ties an image to a tree, and the effect of [create_dir], [walk_dirs] and
    [write_file] on it, as steps of an abstract file system. *)

From S2P Require Import Prelude Fat FatVolume FatDirs.

#[local] Open Scope nexa_scope.

(** ** The abstract file system: a tree of files and directories by path *)

Abbreviation path := (list bytes).
Inductive kind := KFile (d : bytes) | KDir.
Abbreviation tree := (gmap path kind).

(** Going down to a directory and making the missing ones.  A volume can be full at any point. *)
Inductive walked : tree -> path -> list str -> result FatError path -> tree -> Prop :=
  | W_here t p : walked t p [] (Ok p) t
  | W_name t p c cs e : encode_8_3 c = Err e -> walked t p (c :: cs) (Err e) t
  | W_down t p c cs k r t' :
      encode_8_3 c = Ok k -> t !! (p ++ [k]) = Some KDir -> walked t (p ++ [k]) cs r t' -> walked t p (c :: cs) r t'
  | W_file t p c cs k d : encode_8_3 c = Ok k -> t !! (p ++ [k]) = Some (KFile d) -> walked t p (c :: cs) (Err InvalidPath) t
  | W_make t p c cs k r t' :
      encode_8_3 c = Ok k -> t !! (p ++ [k]) = None -> walked (<[p ++ [k] := KDir]> t) (p ++ [k]) cs r t' -> walked t p (c :: cs) r t'
  | W_full t p c cs k : encode_8_3 c = Ok k -> t !! (p ++ [k]) = None -> walked t p (c :: cs) (Err NoSpace) t.

Inductive wrote : tree -> str -> bytes -> result FatError () -> tree -> Prop :=
  | O_path t s d e : split_path s = Err e -> wrote t s d (Err e) t
  | O_walk t s d cs x e t' : split_path s = Ok (cs ++ [x]) -> walked t [] cs (Err e) t' -> wrote t s d (Err e) t'
  | O_name t s d cs x e p t' : split_path s = Ok (cs ++ [x]) -> walked t [] cs (Ok p) t' -> encode_8_3 x = Err e -> wrote t s d (Err e) t'
  | O_exists t s d cs x k p t' :
      split_path s = Ok (cs ++ [x]) -> walked t [] cs (Ok p) t' -> encode_8_3 x = Ok k -> t' !! (p ++ [k]) <> None -> wrote t s d (Err InvalidPath) t'
  | O_full t s d cs x k p t' :
      split_path s = Ok (cs ++ [x]) -> walked t [] cs (Ok p) t' -> encode_8_3 x = Ok k -> t' !! (p ++ [k]) = None -> wrote t s d (Err NoSpace) t'
  | O_done t s d cs x k p t' :
      split_path s = Ok (cs ++ [x]) -> walked t [] cs (Ok p) t' -> encode_8_3 x = Ok k -> t' !! (p ++ [k]) = None ->
      Z.of_nat (length d) < 2 ^ 32 -> wrote t s d (Ok ()) (<[p ++ [k] := KFile d]> t').

(** ** The volume of a tree *)

Record item := mkItem { it_chain : list Z; it_kind : kind }.
Definition item_ent (k : bytes) (it : item) : ent :=
  match it_kind it with
  | KFile d => mkEnt k ATTR_ARCHIVE (hd 0 (it_chain it)) (Z.of_nat (length d))
  | KDir => mkEnt k ATTR_DIRECTORY (hd 0 (it_chain it)) 0
  end.
Abbreviation items := (gmap path item).
Definition abs (T : items) : tree := it_kind <$> T.

Section tree.
(** The volume, and its first sector, which never changes. *)
Context (w : FatWriter) (n : Z) (G : geo w n) (boot : bytes).

Definition dir_ok (img : bytes) (T : items) (p : path) (cs : list Z) : Prop :=
  exists pre es k, dir_shape w img cs pre es k /\ forall name, named name -> look es name = item_ent name <$> T !! (p ++ [name]).

Definition item_ok (img : bytes) (T : items) (p : path) (it : item) : Prop :=
  match it_kind it with
  | KFile d => chain_ok w img (it_chain it) /\ Z.of_nat (length d) < 2 ^ 32 /\ exists k, content w img (it_chain it) = d ++ replicate k 0
  | KDir => dir_ok img T p (it_chain it) /\ (it_chain it = [] <-> p = [])
  end.

Record vol_ok (img : bytes) (T : items) : Prop := {
  vo_ready : ready w n img;
  vo_header : header img = boot;
  vo_root : T !! [] = Some (mkItem [] KDir);
  vo_item : forall p it, T !! p = Some it -> item_ok img T p it;
  vo_apart : forall p p' it it' c, T !! p = Some it -> T !! p' = Some it' -> c ∈ it_chain it -> c ∈ it_chain it' -> p = p';
  vo_parent : forall p k it, T !! (p ++ [k]) = Some it -> named k /\ exists cs, T !! p = Some (mkItem cs KDir)
}.

Lemma item_chain img T p it : item_ok img T p it -> chain_ok w img (it_chain it).
Proof. unfold item_ok. destruct (it_kind it); [by intros [? _]|]. by intros [(pre & es & k & [] & _) _]. Qed.

(** Chains that a change spares keep their items. *)
Lemma shape_same img img' P cs pre es k :
  same w img img' P -> (forall c, c ∈ cs -> ~ P c) -> (cs = [] -> rootv w img' = rootv w img) -> dir_shape w img cs pre es k -> dir_shape w img' cs pre es k.
Proof.
  intros Hs HP Hr [Hch Hp He Hraws]. pose proof (ch_valid _ _ _ Hch) as Hv. split; [by eapply (chain_same w n G)|done|done|].
  rewrite (raws_ext w n G img); [done|done| |done]. intros c Hc. apply (sm_clus _ _ _ _ Hs); [by rewrite Forall_forall in Hv; apply Hv|auto].
Qed.
Lemma item_same img img' P T p it :
  same w img img' P -> (forall c, c ∈ it_chain it -> ~ P c) -> 
  (it_chain it = [] -> it_kind it = KDir -> rootv w img' = rootv w img) -> item_ok img T p it -> item_ok img' T p it.
Proof.
  intros Hs HP Hr. unfold item_ok. destruct (it_kind it).
  - intros (Hch & Hl & k & Hk). destruct (chain_same w n G _ _ _ _ Hs HP Hch) as [? ->]. eauto.
  - intros [(pre & es & k & Hsh & Hlook) Hpe]. split; [|done]. exists pre, es, k. split; [eapply shape_same; eauto|done].
Qed.

Lemma vol_fresh img img' T : fresh w img img' -> vol_ok img T -> vol_ok img' T.
Proof.
  intros [Hs Hr] [V1 V0 V2 V3 V4 V5]. split; [by eapply same_ready|by rewrite (sm_header _ _ _ _ Hs)|done| |done|done]. intros p it Hp. eapply item_same; [exact Hs| |done|by apply V3].
  intros c Hc. eapply (chain_fat w n G), Hc. eapply item_chain. by apply V3.
Qed.

(** ** A new item *)

Definition new_ok (img : bytes) (it : item) : Prop :=
  match it_kind it with
  | KFile d => chain_ok w img (it_chain it) /\ Z.of_nat (length d) < 2 ^ 32 /\ exists k, content w img (it_chain it) = d ++ replicate k 0
  | KDir => it_chain it <> [] /\ exists pre k, dir_shape w img (it_chain it) pre [] k
  end.
Lemma new_chain img it : new_ok img it -> chain_ok w img (it_chain it).
Proof. unfold new_ok. destruct (it_kind it); [by intros [? _]|]. by intros [_ (pre & k & [])]. Qed.

Lemma look_app es es' name : look (es ++ es') name = match look es name with Some e => Some e | None => look es' name end.
Proof. induction es as [|e es IH]; [done|]. cbn. by destruct (decide _). Qed.
Lemma item_ent_name name it : en_name (item_ent name it) = name.
Proof. unfold item_ent. by destruct (it_kind it). Qed.
Lemma grown_head img cs cs' k : grown w img cs cs' -> item_ent k (mkItem cs' KDir) = item_ent k (mkItem cs KDir) /\ (cs' = [] <-> cs = []) /\ dir_of cs' = dir_of cs.
Proof. intros [->|[Hne (c & -> & _)]]; [done|]. by destruct cs. Qed.

Section add.
Context (img img' : bytes) (T : items) (p : path) (name : bytes) (it : item) (cs cs' : list Z) (pre : list bytes) (es : list ent) (k : nat).
Context (V : vol_ok img T) (Hp : T !! p = Some (mkItem cs KDir)) (Hnew : T !! (p ++ [name]) = None) (Hname : named name).
Context (Hlook : forall j, named j -> look es j = item_ent j <$> T !! (p ++ [j])).
Context (Hsh : dir_shape w img' cs' pre (es ++ [item_ent name it]) k) (Hg : grown w img cs cs').
Context (Hsm : same w img img' (fun c => c ∈ cs')) (Hrt : cs <> [] -> rootv w img' = rootv w img).
Context (Hit : new_ok img it) (Hap : forall q it' c, T !! q = Some it' -> c ∈ it_chain it' -> c ∉ it_chain it).

Definition added : items := <[p ++ [name] := it]> (<[p := mkItem cs' KDir]> T).

Lemma snoc_ne (q : path) j : q ++ [j] <> q.
Proof. intros E%(f_equal length). rewrite length_app in E. cbn in E. lia. Qed.
Lemma added_new : added !! (p ++ [name]) = Some it.
Proof. apply lookup_insert_eq. Qed.
Lemma added_dir : added !! p = Some (mkItem cs' KDir).
Proof. unfold added. rewrite lookup_insert_ne by apply snoc_ne. apply lookup_insert_eq. Qed.
Lemma added_other q : q <> p -> q <> p ++ [name] -> added !! q = T !! q.
Proof. intros. unfold added. by rewrite !lookup_insert_ne by done. Qed.

(** The chain of the directory meets no other chain. *)
Lemma grown_apart c X : chain_ok w img X -> (c ∈ X -> c ∉ cs) -> c ∈ X -> c ∉ cs'.
Proof.
  intros HX Hno Hc Hin. destruct Hg as [->|[_ (c0 & -> & _ & Hfree)]]; [by apply Hno|]. apply elem_of_app in Hin as [Hin|Hin]; [by apply Hno|].
  apply list_elem_of_singleton in Hin as ->. by apply (chain_fat w n G _ _ _ HX Hc).
Qed.
Lemma other_apart q it' c : T !! q = Some it' -> q <> p -> c ∈ it_chain it' -> c ∉ cs'.
Proof.
  intros Hq Hne. apply grown_apart; [eapply item_chain; by eapply vo_item|]. intros Hc Hcs. apply Hne. by eapply (vo_apart _ _ V).
Qed.
Lemma new_apart c : c ∈ it_chain it -> c ∉ cs'.
Proof. apply grown_apart; [by apply new_chain|]. intros Hc Hcs. by eapply (Hap _ _ c Hp). Qed.

Lemma listing_other q j : q <> p -> item_ent j <$> added !! (q ++ [j]) = item_ent j <$> T !! (q ++ [j]).
Proof.
  intros Hne. destruct (decide (q ++ [j] = p)) as [E|Hqp].
  - rewrite E, added_dir, Hp. cbn. f_equal. by eapply grown_head.
  - rewrite added_other; [done|done|]. intros [? _]%app_inj_tail. done.
Qed.
Lemma listing_dir j : named j -> look (es ++ [item_ent name it]) j = item_ent j <$> added !! (p ++ [j]).
Proof.
  intros Hj. rewrite look_app, Hlook by done. cbn. rewrite item_ent_name. destruct (decide (name = j)) as [<-|Hne].
  - by rewrite Hnew, added_new.
  - rewrite added_other by (apply snoc_ne || intros [_ ?]%app_inj_tail; congruence). by destruct (T !! (p ++ [j])).
Qed.
Lemma listing_new j : added !! ((p ++ [name]) ++ [j]) = None.
Proof.
  rewrite added_other; [|intros E%(f_equal length); rewrite !length_app in E; cbn in E; lia|apply snoc_ne].
  destruct (T !! ((p ++ [name]) ++ [j])) eqn:E; [|done]. apply (vo_parent _ _ V) in E as [_ [x Hx]]. by rewrite Hnew in Hx.
Qed.

Lemma added_item q it' : added !! q = Some it' -> item_ok img' added q it'.
Proof.
  intros Hq. destruct (decide (q = p ++ [name])) as [->|Hn1]; [|destruct (decide (q = p)) as [->|Hn2]].
  - rewrite added_new in Hq. injection Hq as <-. unfold item_ok. pose proof Hit as Hit'. unfold new_ok in Hit'. destruct (it_kind it).
    + destruct Hit' as (Hch & Hl & m & Hm). destruct (chain_same w n G _ _ _ _ Hsm new_apart Hch) as [? ->]. eauto.
    + destruct Hit' as [Hne (pre' & m & Hsh')]. split; [|split; [done|intros E%(f_equal length); rewrite length_app in E; cbn in E; lia]].
      exists pre', [], m. split; [eapply shape_same; [exact Hsm|apply new_apart|done|done]|]. intros j _. by rewrite listing_new.
  - rewrite added_dir in Hq. injection Hq as <-. pose proof (vo_item _ _ V _ _ Hp) as [_ Hpe]. cbn in Hpe. pose proof (grown_head _ _ _ name Hg) as (_ & Hcs & _).
    split; [|cbn; tauto]. exists pre, (es ++ [item_ent name it]), k. split; [done|]. apply listing_dir.
  - rewrite added_other in Hq by done. pose proof (vo_item _ _ V _ _ Hq) as Hok. assert (item_ok img' T q it') as Hok'.
    { eapply item_same; [exact Hsm|intros c; by apply (other_apart q)| |done]. intros Hnil Hk. apply Hrt. intros ->.
      unfold item_ok in Hok. rewrite Hk in Hok. pose proof (vo_item _ _ V _ _ Hp) as [_ Hpe]. cbn in Hpe. destruct Hok as [_ Hq']. apply Hn2.
      destruct Hpe as [-> _]; [|done]. by apply Hq'. }
    unfold item_ok in Hok' |- *. destruct (it_kind it'); [done|]. destruct Hok' as [(pre' & es' & m & Hs' & Hl') Hpe]. split; [|done].
    exists pre', es', m. split; [done|]. intros j Hj. rewrite Hl' by done. symmetry. by apply listing_other.
Qed.

Lemma vol_add : vol_ok img' added.
Proof.
  assert (forall q it', added !! q = Some it' -> q = p ++ [name] /\ it' = it \/ q <> p ++ [name] /\ (q = p /\ it' = mkItem cs' KDir \/ q <> p /\ T !! q = Some it')) as Hcase.
  { intros q it' Hq. destruct (decide (q = p ++ [name])) as [->|Hn1]; [left; rewrite added_new in Hq; naive_solver|right; split; [done|]].
    destruct (decide (q = p)) as [->|Hn2]; [left; rewrite added_dir in Hq; naive_solver|right]. by rewrite added_other in Hq. }
  split; [by eapply same_ready, V|rewrite (sm_header _ _ _ _ Hsm); apply V| |exact added_item| |].
  - pose proof (vo_root _ _ V) as Hr0. destruct (decide (p = [])) as [E|Hne].
    + rewrite <- E in Hr0 |- *. rewrite added_dir. rewrite Hr0 in Hp. injection Hp as <-. by destruct Hg as [->|[? _]].
    + rewrite added_other; [done|done|]. by destruct p.
  - intros q q' i i' c Hq Hq' Hc Hc'. apply Hcase in Hq as [[-> ->]|[Hn1 [[-> ->]|[Hn2 Hq]]]], Hq' as [[-> ->]|[Hn1' [[-> ->]|[Hn2' Hq']]]]; try done; cbn in *.
    + by apply new_apart in Hc.
    + exfalso. by eapply (Hap q').
    + by apply new_apart in Hc'.
    + exfalso. by eapply (other_apart q').
    + exfalso. by eapply (Hap q).
    + exfalso. by eapply (other_apart q).
    + by eapply (vo_apart _ _ V).
  - intros q j i Hq. destruct (decide (q = p)) as [->|Hqp].
    + split; [|eexists; apply added_dir]. apply Hcase in Hq as [[[_ ->]%app_inj_tail _]|[_ [[E _]|[_ Hq]]]]; [done|by apply snoc_ne in E|by apply (vo_parent _ _ V) in Hq as [? _]].
    + assert (exists i', T !! (q ++ [j]) = Some i') as [i' Hi'].
      { apply Hcase in Hq as [[[-> ->]%app_inj_tail _]|[_ [[E _]|[_ Hq]]]]; [done| |eauto]. rewrite E. eauto. }
      apply (vo_parent _ _ V) in Hi' as [Hj [x Hx]]. split; [done|]. exists x. rewrite added_other; [done|done|]. intros ->. by rewrite Hnew in Hx.
Qed.

Lemma abs_added : abs added = <[p ++ [name] := it_kind it]> (abs T).
Proof. unfold abs, added. rewrite !fmap_insert. f_equal. apply insert_id. by rewrite lookup_fmap, Hp. Qed.
End add.

(** ** The operations *)

Lemma first_uint img cs : chain_ok w img cs -> in_uint 16 (hd 0 cs).
Proof.
  intros [Hv _ _]. unfold in_uint. destruct cs as [|c cs]; [cbn; lia|]. apply Forall_cons in Hv as [[[? ?] _] _]. pose proof (ge_count _ _ G). cbn. lia.
Qed.
Lemma item_ent_ok img name it : named name -> new_ok img it -> ent_ok (item_ent name it).
Proof.
  intros Hn Hit. pose proof (first_uint _ _ (new_chain _ _ Hit)) as Hf. unfold new_ok in Hit. unfold ent_ok, item_ent, attr_ok. destruct (it_kind it); cbn.
  - destruct Hit as (_ & Hl & _). split_and!; [done|by left|done|unfold in_uint; lia].
  - split_and!; [done|by right|done|unfold in_uint; lia].
Qed.

(** A new item is entered into a directory, or there is no room. *)
Lemma enter_ok img T p cs name it :
  vol_ok img T -> T !! p = Some (mkItem cs KDir) -> T !! (p ++ [name]) = None -> named name -> new_ok img it ->
  (forall q it' c, T !! q = Some it' -> c ∈ it_chain it' -> c ∉ it_chain it) ->
  let e := item_ent name it in
  (add_entry w (dir_of cs) name (en_attr e) (en_first e) (en_size e) img = (Err NoSpace, img) /\ no_room w img) \/
  (exists img' T', add_entry w (dir_of cs) name (en_attr e) (en_first e) (en_size e) img = (Ok (), img') /\ vol_ok img' T' /\
    T' !! (p ++ [name]) = Some it /\ abs T' = <[p ++ [name] := it_kind it]> (abs T)).
Proof.
  intros V Hp Hnew Hname Hit Hap e. pose proof (vo_item _ _ V _ _ Hp) as [(pre & es & k & Hsh & Hlook) _]. cbn in Hsh, Hlook.
  pose proof (item_ent_ok img name it Hname Hit) as Hok. fold e in Hok. pose proof (item_ent_name name it) as En. fold e in En.
  pose proof (add_entry_ok w n G img cs pre es k e (vo_ready _ _ V) Hsh Hok) as Hadd. rewrite En in Hadd.
  destruct Hadd as [?|(img' & cs' & k' & He & Hsh' & Hg & Hsm & Hrt)]; [by left|right]. exists img', (added T p name it cs'). split; [done|].
  split; [by eapply vol_add|]. split; [apply added_new|]. by apply (abs_added T p name it cs).
Qed.

(** The first cluster of a new directory. *)
Lemma dots_ok img c parent :
  ready w n img -> chain_ok w img [c] -> clus w img c = replicate (Z.to_nat (cluster_size w)) 0 -> in_uint 16 parent ->
  exists img' pre k, (let! _ := write_entry_at (cluster_at w c) DOT ATTR_DIRECTORY c 0 in
      write_entry_at (cluster_at w c + DIR_ENTRY_SIZE) DOTDOT ATTR_DIRECTORY parent 0) img = (Ok (), img') /\
    dir_shape w img' [c] pre [] k /\ same w img img' (eq c) /\ rootv w img' = rootv w img.
Proof.
  intros Hr Hch Hz Hpar. pose proof (first_uint _ _ Hch) as Hc. cbn in Hc. pose proof (ch_valid _ _ _ Hch) as Hv. pose proof Hv as [Hvc _]%Forall_cons.
  destruct (regions w n G c Hvc) as (? & ? & ? & ? & ? & ? & ? & ? & ? & ?). pose proof (per_cluster_size w n G) as [Hps Hpc]. destruct Hr as [Hs He]. pose proof Hs as Hs'. unfold sized in Hs'.
  assert (dslots w [c] = slots_from (cluster_at w c) (per_cluster w)) as Eds by (cbn; by rewrite app_nil_r).
  destruct (per_cluster w) as [|[|pc]] eqn:Epc; [lia|lia|].
  assert (raws w img [c] = replicate (S (S pc)) zero_raw) as Hraw by (unfold raws; rewrite Eds, <- Epc; by apply (slots_zero w n G)).
  set (r1 := raw_entry DOT ATTR_DIRECTORY c 0). set (r2 := raw_entry DOTDOT ATTR_DIRECTORY parent 0).
  destruct (put_slot w n G img [c] 0 (cluster_at w c) r1) as (R1 & C1 & S1 & T1 & _); [done|done|rewrite Eds, slots_from_S; done|by apply length_raw|].
  destruct (put_slot w n G (put_range img (cluster_at w c) r1) [c] 1 (cluster_at w c + 32) r2) as (R2 & C2 & S2 & T2 & _);
    [by eapply same_ready|done|rewrite Eds, !slots_from_S; done|by apply length_raw|].
  exists (put_range (put_range img (cluster_at w c) r1) (cluster_at w c + 32) r2), [r1; r2], pc. split; [|split; [|split]].
  - unfold io_bind. rewrite write_entry_ok by (done || lia). fold r1. unfold DIR_ENTRY_SIZE. rewrite write_entry_ok; [done|done|lia|].
    rewrite length_put_range by lia. lia.
  - split; [done| |by apply Forall_nil|by rewrite R2, R1, Hraw]. apply Forall_cons. split; [apply dot_skipped; auto|]. apply Forall_singleton. apply dot_skipped; auto.
  - eapply same_trans; [exact S1|exact S2|]. cbn. set_solver.
  - rewrite T2, T1; done.
Qed.

Definition parent_cluster (d : Dir) : Z := match d with Root => 0 | Chain c => c end.

Lemma create_dir_ok img T p cs name :
  vol_ok img T -> T !! p = Some (mkItem cs KDir) -> T !! (p ++ [name]) = None -> named name ->
  (exists img', create_dir w (dir_of cs) name img = (Err NoSpace, img') /\ vol_ok img' T /\ no_room w img') \/
  (exists img' c T', create_dir w (dir_of cs) name img = (Ok (Chain c), img') /\ vol_ok img' T' /\
    T' !! (p ++ [name]) = Some (mkItem [c] KDir) /\ abs T' = <[p ++ [name] := KDir]> (abs T)).
Proof.
  intros V Hp Hnew Hname. pose proof (vo_ready _ _ V) as Hr. pose proof (item_chain _ _ _ _ (vo_item _ _ V _ _ Hp)) as Hch. cbn in Hch.
  destruct (alloc_ok w n G img Hr) as [[Ha Hf]|(c & img1 & Ha & Hal)].
  { left. exists img. unfold create_dir, io_bind. rewrite Ha. split; [done|]. split; [done|by left]. }
  pose proof Hal as [Hv Hfree Hsm1 Hrt1 Heoc Hz].
  assert (chain_ok w img1 [c]) as Hc1 by (split; [by apply Forall_singleton|apply NoDup_singleton|done]).
  assert (in_uint 16 (parent_cluster (dir_of cs))) as Hpc by (pose proof (first_uint _ _ Hch); by destruct cs).
  destruct (dots_ok img1 c _ (same_ready _ _ _ _ _ Hsm1 Hr) Hc1 Hz Hpc) as (img2 & pre & k & Hd & Hsh & Hsm2 & Hrt2).
  assert (fresh w img img2) as Hfr.
  { split; [|congruence]. eapply same_trans; [exact Hsm1|exact Hsm2|]. cbn. intros x _ [<-|<-]; done. }
  pose proof (vol_fresh _ _ _ Hfr V) as V2. assert (new_ok img2 (mkItem [c] KDir)) as Hit by (split; [done|by exists pre, k]).
  assert (create_dir w (dir_of cs) name img = (let! _ := add_entry w (dir_of cs) name ATTR_DIRECTORY c 0 in io_ret (Chain c)) img2) as ->.
  { unfold create_dir. unfold io_bind in Hd |- *. rewrite Ha. unfold io_read. rewrite (offset_ok w n G) by done. revert Hd. fold (parent_cluster (dir_of cs)).
    destruct (write_entry_at (cluster_at w c) DOT ATTR_DIRECTORY c 0 img1) as [[]]; [|done]. by intros ->. }
  destruct (enter_ok img2 T p cs name (mkItem [c] KDir) V2 Hp Hnew Hname Hit) as [[He Hno]|(img3 & T' & He & V3 & Hl & Habs)].
  - intros q it' x Hq Hx Hxc. cbn in Hxc. apply list_elem_of_singleton in Hxc as ->.
    apply (chain_fat w n G _ _ _ (item_chain _ _ _ _ (vo_item _ _ V _ _ Hq)) Hx Hfree).
  - left. exists img2. unfold io_bind. cbn in He. by rewrite He.
  - right. exists img3, c, T'. unfold io_bind. cbn in He. by rewrite He.
Qed.

(** Going down the path. *)
Lemma lookup_abs T p : abs T !! p = it_kind <$> T !! p.
Proof. apply lookup_fmap. Qed.

Lemma find_item img T p cs name :
  vol_ok img T -> T !! p = Some (mkItem cs KDir) -> named name ->
  find w (dir_of cs) name img = (Ok ((fun it => found (item_ent name it)) <$> T !! (p ++ [name])), img).
Proof.
  intros V Hp Hname. pose proof (vo_item _ _ V _ _ Hp) as [(pre & es & k & Hsh & Hlook) _]. cbn in Hsh, Hlook.
  rewrite (find_ok w n G img cs pre es k) by (done || apply V). rewrite Hlook by done. by destruct (T !! (p ++ [name])).
Qed.

Lemma encode_err x e : encode_8_3 x = Err e -> e = InvalidPath.
Proof.
  unfold encode_8_3, encode_field. destruct (bool_decide (x = []) || _ || _); [by intros [= <-]|]. destruct (split_dot x) as [b c].
  case_bool_decide; [by intros [= <-]|]. destruct (bool_decide (b = []) || _ || _); [by intros [= <-]|].
  destruct (forallb _ b && _); [|by intros [= <-]]. cbn -[Nat.leb]. destruct (forallb _ c && _); [done|by intros [= <-]].
Qed.
Lemma encode_named x k : encode_8_3 x = Ok k -> named k.
Proof. by exists x. Qed.

Lemma found_dir T img p cs it k :
  vol_ok img T -> T !! (p ++ [k]) = Some (mkItem cs KDir) -> it = mkItem cs KDir -> f_is_dir (found (item_ent k it)) = true /\ Chain (f_first (found (item_ent k it))) = dir_of cs.
Proof.
  intros V Hp ->. pose proof (vo_item _ _ V _ _ Hp) as [_ Hpe]. cbn in Hpe. split; [done|]. cbn. destruct cs; [|done].
  destruct Hpe as [E _]. specialize (E eq_refl). by destruct p.
Qed.

Lemma walk_dirs_ok names : forall img T p cs,
  vol_ok img T -> T !! p = Some (mkItem cs KDir) ->
  exists img' T', vol_ok img' T' /\
  ((exists e, walk_dirs w names (dir_of cs) img = (Err e, img') /\ walked (abs T) p names (Err e) (abs T') /\ (e = NoSpace -> no_room w img')) \/
   (exists p' cs', walk_dirs w names (dir_of cs) img = (Ok (dir_of cs'), img') /\ walked (abs T) p names (Ok p') (abs T') /\ T' !! p' = Some (mkItem cs' KDir))).
Proof.
  induction names as [|x names IH]; intros img T p cs V Hp.
  { exists img, T. split; [done|]. right. exists p, cs. split; [done|]. split; [constructor|done]. }
  destruct (encode_8_3 x) as [k|e] eqn:Ex.
  2:{ exists img, T. split; [done|]. left. exists e. split; [cbn [walk_dirs]; unfold io_bind, io_read; by rewrite Ex|]. split; [by constructor|].
      intros ->. by apply encode_err in Ex. }
  pose proof (find_item img T p cs k V Hp (encode_named _ _ Ex)) as Hfind.
  destruct (T !! (p ++ [k])) as [[ics [d|]]|] eqn:Hk; cbn [fmap option_fmap option_map] in Hfind.
  - exists img, T. split; [done|]. left. exists InvalidPath. split; [cbn [walk_dirs]; unfold io_bind, io_read; by rewrite Ex, Hfind|].
    split; [|done]. eapply W_file; [done|]. by rewrite lookup_abs, Hk.
  - destruct (found_dir T img p ics _ k V Hk eq_refl) as [Ed Ec].
    assert (walk_dirs w (x :: names) (dir_of cs) img = walk_dirs w names (dir_of ics) img) as -> by (cbn [walk_dirs]; unfold io_bind, io_read; by rewrite Ex, Hfind, Ed, Ec).
    destruct (IH img T (p ++ [k]) ics V Hk) as (img' & T' & V' & Hres). exists img', T'. split; [done|].
    assert (abs T !! (p ++ [k]) = Some KDir) as Habs by (by rewrite lookup_abs, Hk).
    destruct Hres as [(e & ? & ? & ?)|(p' & cs' & ? & ? & ?)]; [left; exists e|right; exists p', cs']; (split; [done|]; split; [by eapply W_down|done]).
  - assert (abs T !! (p ++ [k]) = None) as Habs by (by rewrite lookup_abs, Hk).
    assert (walk_dirs w (x :: names) (dir_of cs) img = (let! d := create_dir w (dir_of cs) k in walk_dirs w names d) img) as ->
      by (cbn [walk_dirs]; unfold io_bind, io_read; by rewrite Ex, Hfind).
    destruct (create_dir_ok img T p cs k V Hp Hk (encode_named _ _ Ex)) as [(img1 & He & V1 & Hno)|(img1 & c & T1 & He & V1 & Hl & Ha)]; unfold io_bind; rewrite He.
    + exists img1, T. split; [done|]. left. exists NoSpace. split; [done|]. split; [by eapply W_full|done].
    + destruct (IH img1 T1 (p ++ [k]) [c] V1 Hl) as (img' & T' & V' & Hres). exists img', T'. split; [done|]. rewrite Ha in Hres. cbn [dir_of] in Hres.
      destruct Hres as [(e & ? & ? & ?)|(p' & cs' & ? & ? & ?)]; [left; exists e|right; exists p', cs']; (split; [done|]; split; [by eapply W_make|done]).
Qed.

(** ** Writing a file *)

Lemma split_path_err s e : split_path s = Err e -> e = InvalidPath.
Proof. unfold split_path. case_bool_decide; [by intros [= <-]|done]. Qed.
Lemma split_path_ok s cs : split_path s = Ok cs -> exists l x, cs = l ++ [x] /\ last cs = Some x /\ removelast cs = l.
Proof.
  unfold split_path. case_bool_decide as E; [done|]. intros [= <-]. destruct (exists_last E) as (l & x & ->). exists l, x.
  split; [done|]. split; [apply last_snoc|apply removelast_last].
Qed.

(** Data in fresh clusters, then an entry. *)
Lemma put_file_ok img T p cs k d :
  vol_ok img T -> T !! p = Some (mkItem cs KDir) -> T !! (p ++ [k]) = None -> named k ->
  let m := let! first := write_data_chain w d in
           if Z.of_nat (length d) <? 2 ^ 32 then add_entry w (dir_of cs) k ATTR_ARCHIVE first (Z.of_nat (length d)) else io_fail NoSpace in
  (exists img', m img = (Err NoSpace, img') /\ vol_ok img' T /\ (no_room w img' \/ 2 ^ 32 <= Z.of_nat (length d))) \/
  (exists img' T', m img = (Ok (), img') /\ vol_ok img' T' /\ Z.of_nat (length d) < 2 ^ 32 /\ abs T' = <[p ++ [k] := KFile d]> (abs T)).
Proof.
  intros V Hp Hnew Hk m. pose proof (vo_ready _ _ V) as Hr. unfold m, io_bind.
  destruct (write_data_chain_ok w n G d img Hr) as [(img1 & He & Hf & Hfull)|(fcs & img1 & z & He & Hf & Hch & Hfree & Hct)]; rewrite He.
  { left. exists img1. split; [done|]. split; [by eapply vol_fresh|]. left. by left. }
  pose proof (vol_fresh _ _ _ Hf V) as V1. destruct (Z.ltb_spec (Z.of_nat (length d)) (2 ^ 32)) as [Hlt|Hge]; [|left; exists img1; by split_and!; auto].
  assert (new_ok img1 (mkItem fcs (KFile d))) as Hit by (split; [done|]; split; [done|by exists z]).
  destruct (enter_ok img1 T p cs k (mkItem fcs (KFile d)) V1 Hp Hnew Hk Hit) as [[He2 Hno]|(img2 & T' & He2 & V2 & _ & Ha)].
  - intros q it' x Hq Hx Hxc. cbn in Hxc. apply (chain_fat w n G _ _ _ (item_chain _ _ _ _ (vo_item _ _ V _ _ Hq)) Hx). by apply Hfree.
  - left. exists img1. cbn in He2. rewrite He2. auto.
  - right. exists img2, T'. cbn in He2. rewrite He2. done.
Qed.

Lemma volume_write_ok s d img T :
  vol_ok img T ->
  exists r img' T', write_file w s d img = (r, img') /\ vol_ok img' T' /\ wrote (abs T) s d r (abs T') /\
    (r = Err NoSpace -> no_room w img' \/ 2 ^ 32 <= Z.of_nat (length d)).
Proof.
  intros V. unfold write_file. destruct (split_path s) as [comps|e] eqn:Es.
  2:{ exists (Err e), img, T. split; [done|]. split; [done|]. split; [by constructor|]. intros [= ->]. by apply split_path_err in Es. }
  destruct (split_path_ok _ _ Es) as (l & x & -> & Hlast & Hrem).
  destruct (walk_dirs_ok l img T [] [] V (vo_root _ _ V)) as (img1 & T1 & V1 & [(e & He & Hw & Hno)|(p & cs & He & Hw & Hp)]); change (dir_of []) with Root in He.
  { exists (Err e), img1, T1. split; [unfold io_bind, io_read; by rewrite Hlast, Hrem, He|]. split; [done|]. split; [by eapply O_walk|]. intros [= ->]. auto. }
  set (rest := fun dir : Dir => let! name := io_read (fun _ => encode_8_3 x) in let! f := find w dir name in
    match f with Some _ => io_fail InvalidPath | None => let! first := write_data_chain w d in
      if Z.of_nat (length d) <? 2 ^ 32 then add_entry w dir name ATTR_ARCHIVE first (Z.of_nat (length d)) else io_fail NoSpace end).
  match goal with |- context [io_bind ?a ?b img] => assert (io_bind a b img = rest (dir_of cs) img1) as -> end.
  { unfold io_bind at 1 2 3, io_read at 1 2. rewrite Hlast, Hrem. cbn [ok_or]. rewrite He. done. }
  unfold rest. destruct (encode_8_3 x) as [k|e] eqn:Ex.
  2:{ exists (Err e), img1, T1. split; [done|]. split; [done|]. split; [by eapply O_name|]. intros [= ->]. by apply encode_err in Ex. }
  pose proof (find_item img1 T1 p cs k V1 Hp (encode_named _ _ Ex)) as Hfind. destruct (T1 !! (p ++ [k])) as [it|] eqn:Hk; cbn [fmap option_fmap option_map] in Hfind.
  { exists (Err InvalidPath), img1, T1. split; [unfold io_bind, io_read; by rewrite Hfind|]. split; [done|]. split; [|done]. eapply O_exists; [done|done|done|]. by rewrite lookup_abs, Hk. }
  assert (abs T1 !! (p ++ [k]) = None) as Habs by (by rewrite lookup_abs, Hk).
  destruct (put_file_ok img1 T1 p cs k d V1 Hp Hk (encode_named _ _ Ex)) as [(img2 & He2 & V2 & Hno)|(img2 & T2 & He2 & V2 & Hlen & Ha)].
  - exists (Err NoSpace), img2, T1. split; [unfold io_bind in He2 |- *; unfold io_read; by rewrite Hfind|]. split; [done|]. split; [by eapply O_full|done].
  - exists (Ok ()), img2, T2. split; [unfold io_bind in He2 |- *; unfold io_read; by rewrite Hfind|]. split; [done|]. split; [|done]. rewrite Ha. by eapply O_done.
Qed.
End tree.
