(* ===== verification/FatRefine.v ===== *)
(** * FAT volumes: a formatted volume is the file system it holds

    The reader of [Fat] on a volume of [FatTree], the volume the formatter makes, and the refinement:
    whatever is written to a formatted volume, the reader finds what an abstract file system holds. *)

From S2P Require Import Prelude Fat FatVolume FatDirs FatTree.

#[local] Open Scope nexa_scope.

(** ** Reading by path *)

Definition entry_named (es : list DirEntry) (name : str) : option DirEntry := List.find (fun e => bool_decide (e_name e = name)) es.

(** Down from a listing, and from the root directory. *)
Fixpoint stat_from (fs : FatFs) (es : list DirEntry) (names : list str) : exec (result FatError (option DirEntry)) :=
  match names with
  | [] => Done (Ok None)
  | x :: names =>
      match entry_named es x, names with
      | None, _ => Done (Ok None)
      | Some e, [] => Done (Ok (Some e))
      | Some e, _ => if is_dir e then let? es := read_dir fs e in stat_from fs es names else Done (Ok None)
      end
  end.
Definition fetch (fs : FatFs) (names : list str) : exec (result FatError (option kind)) :=
  let? es := root fs in
  let? o := stat_from fs es names in
  match o with
  | None => Done (Ok None)
  | Some e => if is_dir e then Done (Ok (Some KDir)) else let? d := read_file fs e in Done (Ok (Some (KFile d)))
  end.

(** ** Listings *)

Fixpoint parse_raws (rs : list bytes) (lfn : list Z) (entries : list DirEntry) : result FatError (list DirEntry) :=
  match rs with
  | [] => Ok entries
  | r :: rs =>
      match parse_slot r lfn with
      | None => Ok entries
      | Some (lfn, None) => parse_raws rs lfn entries
      | Some (lfn, Some (Ok e)) => parse_raws rs lfn (entries ++ [e])
      | Some (_, Some (Err e)) => Err e
      end
  end.

Lemma parse_loop_raws rs : forall fuel a lfn es,
  Forall (fun r : bytes => length r = 32%nat) rs -> (length rs < fuel)%nat ->
  parse_loop fuel (a ++ concat rs) (Z.of_nat (length a)) lfn es = parse_raws rs lfn es.
Proof.
  induction rs as [|r rs IH]; intros fuel a lfn es Hr Hf; destruct fuel as [|fuel]; cbn [length] in Hf; try lia; cbn [parse_loop parse_raws concat].
  - unfold get_range. rewrite app_nil_r, (proj2 (Z.leb_gt _ _)) by lia. done.
  - apply Forall_cons in Hr as [Hl Hr]. rewrite get_bytes_at by (rewrite !length_app; lia).
    assert (bytes_at (a ++ r ++ concat rs) (Z.of_nat (length a)) 32 = r) as ->.
    { unfold bytes_at. rewrite drop_app_length' by lia. by rewrite take_app_length' by lia. }
    assert (forall lfn es, parse_loop fuel (a ++ r ++ concat rs) (Z.of_nat (length a) + 32) lfn es = parse_raws rs lfn es) as E.
    { intros. rewrite app_assoc. replace (Z.of_nat (length a) + 32) with (Z.of_nat (length (a ++ r))) by (rewrite length_app; lia). apply IH; [done|lia]. }
    destruct (parse_slot r lfn) as [[lfn' [[e|e]|]]|]; rewrite ?E; done.
Qed.
Lemma parse_dir_raws rs : Forall (fun r : bytes => length r = 32%nat) rs -> parse_dir (concat rs) = parse_raws rs [] [].
Proof.
  intros H. apply (parse_loop_raws rs _ []); [done|]. assert (length rs <= length (concat rs))%nat; [|lia].
  induction H as [|r rs Hr _ IH]; [done|]. cbn. rewrite length_app. lia.
Qed.

(** The listing of a directory: entries without a name of their own, then its files and directories. *)
Lemma parse_pre pre rs es : Forall skipped pre -> exists es', parse_raws (pre ++ rs) [] es = parse_raws rs [] (es ++ es') /\ Forall (fun e => forall k, named k -> e_name e <> shown k) es'.
Proof.
  intros Hp. revert es. induction Hp as [|r pre [_ _ _ (o & Ho & Hn)] _ IH]; intros es; cbn [app parse_raws]; [exists []; by rewrite app_nil_r|].
  rewrite Ho. destruct Hn as [->|(e & -> & He)]; [apply IH|]. destruct (IH (es ++ [e])) as (es' & E & Hes'). exists (e :: es'). rewrite E, <- app_assoc. split; [done|by constructor].
Qed.
Lemma parse_ents es k acc : Forall ent_ok es -> parse_raws ((raw_of <$> es) ++ replicate k zero_raw) [] acc = Ok (acc ++ (shown_entry <$> es)).
Proof.
  intros H. revert acc. induction H as [|e es (Hk & Ha & Hf & Hs) _ IH]; intros acc; [rewrite app_nil_r; by destruct k|].
  cbn [fmap list_fmap app parse_raws]. unfold raw_of at 1. rewrite parse_raw by done. cbn. rewrite IH, <- app_assoc. done.
Qed.
Lemma find_shown es es' k :
  Forall (fun e => forall k, named k -> e_name e <> shown k) es' -> Forall ent_ok es -> named k ->
  entry_named (es' ++ (shown_entry <$> es)) (shown k) = shown_entry <$> look es k.
Proof.
  intros Hp He Hk. unfold entry_named. induction Hp as [|e es' H _ IH]; cbn [app List.find].
  - induction He as [|e es (Hn & _) _ IH]; [done|]. cbn. case_bool_decide as E1; case_decide as E2; try done; [exfalso|by rewrite E2 in E1].
    apply E2. by apply shown_inj.
  - by rewrite bool_decide_false by auto.
Qed.

(** ** The reader on a volume *)

Record bpb_ok (b : Bpb) (w : FatWriter) (f : Z) : Prop := {
  bo_bps : bytes_per_sector b = 512;
  bo_first : first_data_sector b = Done f;
  bo_count : cluster_count b = Done (w_cluster_count w);
  bo_spc : 0 < sectors_per_cluster b /\ cluster_size w = sectors_per_cluster b * 512;
  bo_fat : 0 <= reserved_sectors b /\ fat_start w = reserved_sectors b * 512;
  bo_data : 0 <= f /\ data_start w = f * 512;
  bo_root : root_dir_sectors b * 512 = 32 * root_slots w /\ root_start w + 32 * root_slots w = data_start w;
  bo_fits : f + w_cluster_count w * sectors_per_cluster b < 2 ^ 32
}.

Section reader.
Context (w : FatWriter) (n : Z) (G : geo w n) (b : Bpb) (f : Z) (B : bpb_ok b w f).
Context (img : bytes) (Hr : ready w n img).
Let fs : FatFs := mkFs img b Fat16.

Lemma cluster_bytes_ok c : valid w c -> cluster_bytes fs c = Done (Ok (clus w img c)).
Proof.
  intros Hv. destruct (regions w n G c Hv) as (? & ? & ? & ? & ? & ? & ? & ? & ? & ?). destruct B as [Hb Hf Hc [Hs Hcs] _ [Hf0 Hd] _ Hfit].
  destruct Hv as [[Hc1 Hc2] _]. pose proof (ge_len _ _ G). destruct Hr as [Hsz _]. unfold sized in Hsz. assert ((c - 2) * sectors_per_cluster b < 2 ^ 32) by nia.
  assert (cluster_at w c = (f + (c - 2) * sectors_per_cluster b) * 512) as Eat by (unfold cluster_at; rewrite Hd, Hcs; lia).
  assert (cluster_offset fs c = Done (Ok (cluster_at w c))) as Eo.
  { unfold cluster_offset, fs. cbn [bpb]. rewrite (proj2 (Z.ltb_ge c 2)) by lia. rewrite Hf. cbn [mbind exec_bind]. unfold checked_mul. rewrite (proj2 (Z.ltb_lt _ _)) by lia.
    unfold add_uint. rewrite (proj2 (Z.ltb_lt _ _)) by nia. cbn. unfold sector_offset. cbn [bpb]. rewrite Hb. unfold checked_mul. rewrite (proj2 (Z.ltb_lt _ _)) by lia. cbn. by rewrite Eat. }
  unfold cluster_bytes, try_. rewrite Eo. cbn [mbind exec_bind]. unfold fs. cbn [bpb image]. rewrite Hb, <- Hcs. unfold checked_add.
  rewrite (proj2 (Z.ltb_lt _ _)) by lia. by rewrite get_bytes_at by lia.
Qed.

Lemma next_cluster_ok c : counted w c -> next_cluster fs c = Ok (fatv w img c).
Proof.
  intros Hc. destruct (counted_entry w n G c Hc) as (? & ? & ?). destruct B as [Hb _ _ _ [Hres Hfs] _ _ _]. pose proof (ge_len _ _ G). destruct Hr as [Hsz _]. unfold sized in Hsz.
  pose proof (root_bounds w n G) as [? ?]. unfold counted in Hc. unfold next_cluster, sector_offset, fs. cbn [bpb fat_type image]. rewrite Hb. unfold checked_mul. rewrite (proj2 (Z.ltb_lt _ _)) by lia. cbn. unfold rd_u16.
  rewrite <- Hfs, get_bytes_at by lia. done.
Qed.

Lemma chain_loop_ok steps : forall c cs out, chain_ok w img (c :: cs) -> (length (c :: cs) <= steps)%nat ->
  chain_loop steps fs c out = Done (Ok (out ++ content w img (c :: cs))).
Proof.
  induction steps as [|steps IH]; intros c cs out Hch Hlen; [simpl in Hlen; lia|]. destruct (head_counted _ _ _ _ Hch) as [Hv _].
  cbn [chain_loop]. unfold try_. rewrite cluster_bytes_ok by done. cbn [mbind exec_bind]. rewrite next_cluster_ok by apply Hv. cbn [mbind exec_bind].
  change (eoc_threshold fs) with 0xFFF8. destruct cs as [|c' cs].
  - destruct Hch as [_ _ [-> _]]. cbn. unfold content. cbn. by rewrite app_nil_r.
  - destruct (next_data w n G _ _ _ _ Hch) as (-> & Hd & Hne & Hch'). unfold is_data_cluster in Hd. apply andb_true_iff in Hd as [Hd1 Hd2].
    apply Z.leb_le in Hd1. apply Z.ltb_lt in Hd2. rewrite (proj2 (Z.leb_gt _ _)), (proj2 (Z.ltb_ge _ _)) by lia. cbn [orb].
    rewrite (proj2 (Z.eqb_neq _ _)) by done. rewrite (IH c' cs); [|done|simpl in *; lia]. by rewrite <- app_assoc.
Qed.
Lemma read_chain_ok cs : chain_ok w img cs -> read_chain fs (hd 0 cs) = Done (Ok (content w img cs)).
Proof.
  intros Hch. destruct cs as [|c cs]; [done|]. destruct (head_counted _ _ _ _ Hch) as [_ E]. unfold read_chain. cbn [hd]. rewrite E.
  unfold fs. cbn [bpb]. rewrite (bo_count _ _ _ B). cbn [mbind exec_bind]. pose proof (chain_length w n G _ _ Hch). fold fs. apply (chain_loop_ok _ c cs []); [done|lia].
Qed.

(** The listing of a directory of the tree. *)
Lemma shape_parse cs pre es k :
  dir_shape w img cs pre es k -> exists dots, parse_dir (region w img cs) = Ok (dots ++ (shown_entry <$> es)) /\ Forall (fun e => forall k, named k -> e_name e <> shown k) dots.
Proof.
  intros [Hch Hp He Hraws]. rewrite (region_raws w n G) by apply Hch. rewrite parse_dir_raws.
  2:{ rewrite Hraws. apply Forall_app. split; [eapply Forall_impl; [exact Hp|]; by intros r []|]. apply Forall_app. split.
      - apply Forall_fmap. eapply Forall_impl; [exact He|]. intros e (? & _). by apply length_raw, named_length.
      - by apply Forall_replicate. }
  rewrite Hraws. destruct (parse_pre pre ((raw_of <$> es) ++ replicate k zero_raw) [] Hp) as (dots & -> & Hd). exists dots. by rewrite parse_ents.
Qed.

Lemma root_ok : root fs = Done (parse_dir (rootv w img)).
Proof.
  destruct B as [Hb Hf _ _ _ [Hf0 Hd] [Hr1 Hr2] _]. pose proof (ge_len _ _ G). destruct Hr as [Hsz _]. unfold sized in Hsz.
  pose proof (root_bounds w n G) as [? ?]. pose proof (ge_slots _ _ G).
  unfold root, root_dir_bytes, sector_offset, fs. cbn [bpb fat_type image]. rewrite Hf, Hb. cbn [mbind exec_bind]. unfold checked_mul.
  rewrite (proj2 (Z.ltb_lt _ _)) by lia. cbn [ok_or mbind result_bind]. rewrite Hr1. rewrite (proj2 (Z.ltb_ge _ _)) by lia. unfold checked_add. rewrite (proj2 (Z.ltb_lt _ _)) by lia.
  replace (f * 512 - 32 * root_slots w) with (root_start w) by lia. rewrite get_bytes_at by lia. done.
Qed.

Context (boot : bytes) (T : items) (V : vol_ok w n boot img T).

Lemma vol_closed r : forall q it, T !! (q ++ r) = Some it -> r <> [] -> exists cs, T !! q = Some (mkItem cs KDir).
Proof.
  induction r as [|k r IH] using rev_ind; intros q it Hq Hne; [done|]. rewrite app_assoc in Hq. apply (vo_parent _ _ _ _ _ V) in Hq as [_ [cs Hcs]].
  destruct r as [|k' r]; [rewrite app_nil_r in Hcs; eauto|]. by eapply IH.
Qed.

Lemma listing q cs :
  T !! q = Some (mkItem cs KDir) -> exists l, parse_dir (region w img cs) = Ok l /\
    forall k, named k -> entry_named l (shown k) = (fun it => shown_entry (item_ent k it)) <$> T !! (q ++ [k]).
Proof.
  intros Hq. pose proof (vo_item _ _ _ _ _ V _ _ Hq) as [(pre & es & k & Hsh & Hlook) _]. cbn in Hsh, Hlook.
  destruct (shape_parse _ _ _ _ Hsh) as (dots & Hp & Hd). eexists. split; [exact Hp|]. intros j Hj. destruct Hsh. rewrite find_shown, Hlook by done.
  by destruct (T !! (q ++ [j])).
Qed.

Lemma read_dir_ok q k cs :
  T !! (q ++ [k]) = Some (mkItem cs KDir) -> read_dir fs (shown_entry (item_ent k (mkItem cs KDir))) = Done (parse_dir (region w img cs)).
Proof.
  intros Hq. pose proof (vo_item _ _ _ _ _ V _ _ Hq) as Hok. pose proof (item_chain _ _ _ _ _ Hok) as Hch. destruct Hok as [_ [Hne _]]. cbn in Hch, Hne.
  unfold read_dir, try_. cbn. rewrite read_chain_ok by done. cbn. destruct cs as [|c cs]; [|done]. specialize (Hne eq_refl). by destruct q.
Qed.

Lemma stat_from_ok p : forall q cs l,
  T !! q = Some (mkItem cs KDir) -> parse_dir (region w img cs) = Ok l -> p <> [] -> Forall named p ->
  stat_from fs l (shown <$> p) = Done (Ok ((fun it => shown_entry (item_ent (List.last p []) it)) <$> T !! (q ++ p))).
Proof.
  induction p as [|k p IH]; intros q cs l Hq Hl Hne Hn; [done|]. apply Forall_cons in Hn as [Hk Hn]. destruct (listing q cs Hq) as (l' & Hl' & Hfind).
  rewrite Hl in Hl'. injection Hl' as <-. cbn [fmap list_fmap stat_from]. rewrite Hfind by done. destruct p as [|k' p].
  { cbn [fmap list_fmap]. by destruct (T !! (q ++ [k])). }
  assert (q ++ k :: k' :: p = (q ++ [k]) ++ k' :: p) as Eq by (by rewrite <- app_assoc). rewrite Eq.
  change (List.last (k :: k' :: p) []) with (List.last (k' :: p) []).
  destruct (T !! (q ++ [k])) as [[cs' [d|]]|] eqn:Hqk; cbn [fmap option_fmap option_map].
  - destruct (T !! ((q ++ [k]) ++ k' :: p)) as [it|] eqn:Eit; [|done]. destruct (vol_closed (k' :: p) _ _ Eit) as [? Hx]; [done|]. by rewrite Hqk in Hx.
  - destruct (listing _ _ Hqk) as (l' & Hl' & _). cbn [list_fmap]. unfold try_. rewrite (read_dir_ok q k cs' Hqk), Hl'. cbn [is_dir shown_entry]. 
    rewrite <- (IH (q ++ [k]) cs' l') by done. done.
  - destruct (T !! ((q ++ [k]) ++ k' :: p)) as [it|] eqn:Eit; [|done]. destruct (vol_closed (k' :: p) _ _ Eit) as [? Hx]; [done|]. by rewrite Hqk in Hx.
Qed.

(** The reader finds at every path what the tree has there. *)
Lemma fetch_ok p : p <> [] -> Forall named p -> fetch fs (shown <$> p) = Done (Ok (abs T !! p)).
Proof.
  intros Hne Hn. destruct (listing [] [] (vo_root _ _ _ _ _ V)) as (l & Hl & _). cbn [region] in Hl.
  unfold fetch, try_. rewrite root_ok, Hl. cbn [mbind exec_bind]. rewrite (stat_from_ok p [] [] l (vo_root _ _ _ _ _ V)) by done. cbn [mbind exec_bind app].
  unfold abs. rewrite lookup_fmap. destruct (T !! p) as [[cs [d|]]|] eqn:Hp; [|done|done]. cbn [fmap option_fmap option_map].
  pose proof (vo_item _ _ _ _ _ V _ _ Hp) as (Hch & Hlen & k & Hk). cbn [it_chain] in Hch, Hk. cbn [is_dir shown_entry item_ent it_kind].
  unfold en_dir. rewrite bool_decide_false by done. unfold read_file, try_. cbn [first_cluster e_size shown_entry item_ent it_kind en_first en_size it_chain]. rewrite read_chain_ok by done.
  cbn [mbind exec_bind]. rewrite Hk, take_app_length' by lia. done.
Qed.
End reader.

(** ** The formatted volume *)

Definition spcs : list Z := [1; 2; 4; 8; 16; 32; 64; 128].
Lemma spc_loop_in total : spc_loop 8 total 1 ∈ spcs.
Proof.
  assert (forall fuel spc, spc ∈ spcs -> spc_loop fuel total spc ∈ spcs) as H; [|by apply H; set_solver].
  induction fuel as [|fuel IH]; intros spc Hs; [done|]. cbn [spc_loop]. destruct ((_ <=? _) && (spc <? 128)) eqn:E; [|done].
  apply andb_true_iff in E as [_ E]. apply Z.ltb_lt in E. apply IH. unfold spcs in *. set_unfold. lia.
Qed.

(** What the geometry ensures.  The table is long enough for the clusters alone, not for the two entries before them. *)
Record geometry_ok (total : Z) (g : Geometry) : Prop := {
  gm_spc : g_sectors_per_cluster g ∈ spcs;
  gm_fat : 0 < g_fat_size g < 65536;
  gm_first : 33 + 2 * g_fat_size g <= total;
  gm_count : 4085 <= (total - (33 + 2 * g_fat_size g)) / g_sectors_per_cluster g < 65525;
  gm_table : (total - (33 + 2 * g_fat_size g)) / g_sectors_per_cluster g <= 256 * g_fat_size g
}.
Lemma geometry_spec total g : geometry total = Ok g -> geometry_ok total g.
Proof.
  unfold geometry. pose proof (spc_loop_in total) as Hspc. set (spc := spc_loop 8 total 1) in *. assert (1 <= spc <= 128) as Hb by (unfold spcs in Hspc; set_unfold; lia).
  change (RESERVED_SECTORS + mk_root_dir_sectors) with 33. change NUM_FATS with 2. change RESERVED_SECTORS with 1. change mk_root_dir_sectors with 32.
  destruct (Z.ltb_spec total 33) as [|H1]; [done|]. set (fs := div_ceil (total - 33) (256 * spc + 2)).
  assert (total - 33 <= fs * (256 * spc + 2) < total - 33 + (256 * spc + 2)) as Hfs.
  { unfold fs, div_ceil. pose proof (Z.div_mod (total - 33 + (256 * spc + 2) - 1) (256 * spc + 2) ltac:(lia)). pose proof (Z.mod_pos_bound (total - 33 + (256 * spc + 2) - 1) (256 * spc + 2) ltac:(lia)). nia. }
  replace (1 + 2 * fs + 32) with (33 + 2 * fs) by lia. destruct (Z.ltb_spec total (33 + 2 * fs)) as [|H2]; [done|].
  set (count := (total - (33 + 2 * fs)) / spc). destruct (Z.ltb_spec count FAT16_MIN_CLUSTERS) as [|H3]; [done|]. destruct (Z.leb_spec FAT16_MAX_CLUSTERS count) as [|H4]; [done|].
  intros [= <-]. unfold FAT16_MIN_CLUSTERS, FAT16_MAX_CLUSTERS in *. assert (spc * count <= total - (33 + 2 * fs) < spc * count + spc) as Hc.
  { unfold count. pose proof (Z.div_mod (total - (33 + 2 * fs)) spc ltac:(lia)). pose proof (Z.mod_pos_bound (total - (33 + 2 * fs)) spc ltac:(lia)). lia. }
  split; cbn [g_sectors_per_cluster g_fat_size]; [done| |lia|fold count; lia|fold count; nia]. assert (fs * 256 < 70000) by nia. split; [|lia]. nia.
Qed.

Lemma length_label label : length (label_field label) = 11%nat.
Proof. unfold label_field. rewrite length_app, length_take, length_replicate. lia. Qed.

(** The boot sector. *)
Ltac boot_puts total := unfold boot_sector; destruct (total <? 0x10000).
Lemma length_boot total g label img : length (boot_sector total g label img) = length img.
Proof. boot_puts total; by rewrite !length_put_range by lia. Qed.
Lemma boot_above total g label img off k :
  512 <= Z.of_nat (length img) -> 512 <= off -> 0 <= k -> bytes_at (boot_sector total g label img) off k = bytes_at img off k.
Proof.
  intros Hl Ho Hk. pose proof (length_label label). boot_puts total;
    repeat (rewrite bytes_at_other; [| | | |rewrite ?length_put_range by lia; rewrite ?length_to_le by lia; cbn [length]; lia|right; rewrite ?length_to_le by lia; cbn [length]; lia]; try lia); done.
Qed.
Lemma boot_header total g label img :
  512 <= Z.of_nat (length img) -> bytes_at (boot_sector total g label img) 0 512 = boot_sector total g label (bytes_at img 0 512).
Proof.
  intros Hl. pose proof (length_label label). boot_puts total;
    repeat (rewrite bytes_at_inside; [| | |rewrite ?length_to_le by lia; cbn [length]; lia|rewrite ?length_put_range by lia; lia]; try lia); rewrite ?Z.sub_0_r; done.
Qed.

(** The parameter block is read from the first sector alone. *)
Lemma rd_header (img img' : bytes) off k :
  0 <= off -> 0 <= k -> off + k <= 512 -> 512 <= Z.of_nat (length img) -> 512 <= Z.of_nat (length img') -> header img = header img' -> get_range img off k = get_range img' off k.
Proof.
  intros Ho Hk Hs Hl Hl' E. rewrite !get_bytes_at by lia. f_equal. pose proof (bytes_at_sub img 0 512 off k) as E1. pose proof (bytes_at_sub img' 0 512 off k) as E2.
  rewrite !Z.add_0_l in *. rewrite E1, E2 by lia. unfold header in E. by rewrite E.
Qed.
Lemma rd8_header (img img' : bytes) off :
  0 <= off < 512 -> 512 <= Z.of_nat (length img) -> 512 <= Z.of_nat (length img') -> header img = header img' -> img !! Z.to_nat off = img' !! Z.to_nat off.
Proof.
  intros Ho Hl Hl' E. pose proof (lookup_bytes_at img 0 512 (Z.to_nat off) ltac:(lia) ltac:(lia)) as E1.
  pose proof (lookup_bytes_at img' 0 512 (Z.to_nat off) ltac:(lia) ltac:(lia)) as E2. unfold header in E. rewrite Z2Nat.inj_0, Nat.add_0_l in E1, E2. by rewrite <- E1, <- E2, E.
Qed.
Lemma parse_bpb_header img img' :
  512 <= Z.of_nat (length img) -> 512 <= Z.of_nat (length img') -> header img = header img' -> parse_bpb img = parse_bpb img'.
Proof.
  intros Hl Hl' E. unfold parse_bpb, rd_u8, rd_u16, rd_u32. rewrite !(proj2 (Z.ltb_ge _ 512)) by lia.
  rewrite !(rd_header img img') by (done || lia). by rewrite !(rd8_header img img') by (done || lia).
Qed.

Definition formatted_bpb (total : Z) (g : Geometry) : Bpb := mkBpb 512 (g_sectors_per_cluster g) 1 2 512 total (g_fat_size g) 0.

Lemma boot_fields total g label :
  0 <= total < 2 ^ 32 -> geometry_ok total g ->
  let h := boot_sector total g label (replicate 512 0) in
  rd_u16 h 510 = Ok 0xAA55 /\ rd_u16 h 11 = Ok 512 /\ rd_u8 h 13 = Ok (g_sectors_per_cluster g) /\ rd_u16 h 14 = Ok 1 /\ rd_u8 h 16 = Ok 2 /\ rd_u16 h 17 = Ok 512 /\
  rd_u16 h 22 = Ok (g_fat_size g) /\ (if total <? 0x10000 then rd_u16 h 19 = Ok total else rd_u16 h 19 = Ok 0 /\ rd_u32 h 32 = Ok total).
Proof.
  intros Ht [Hspc Hfat _ _ _] h. unfold h, boot_sector.
  assert (g_sectors_per_cluster g mod 256 = g_sectors_per_cluster g) as -> by (apply Z.mod_small; unfold spcs in Hspc; set_unfold; lia).
  assert (g_fat_size g mod 65536 = g_fat_size g) as -> by (apply Z.mod_small; lia).
  pose proof (from_to_le 2 (g_fat_size g) ltac:(lia) ltac:(unfold in_uint; lia)) as E1. spell_le2 (g_fat_size g). rewrite Ele in *.
  generalize (g_sectors_per_cluster g). intros spc. pose proof (length_label label) as Hl. destruct (list_11 _ Hl) as (? & ? & ? & ? & ? & ? & ? & ? & ? & ? & ? & ->).
  rewrite <- E1 at 1. clear E1 Ele Hl. destruct (Z.ltb_spec total 0x10000).
  - pose proof (from_to_le 2 total ltac:(lia) ltac:(unfold in_uint; lia)) as E2. spell_le2 total. rewrite Ele in *. rewrite <- E2. clear. split_and!; vm_compute; reflexivity.
  - pose proof (from_to_le 4 total ltac:(lia) ltac:(unfold in_uint; lia)) as E2. spell_le4 total. rewrite Ele in *. rewrite <- E2. clear. split_and!; vm_compute; reflexivity.
Qed.

Definition label_raw (label : bytes) : bytes := put_range (put_range zero_raw 0 (label_field label)) 11 [0x08].

Record formatted (total : Z) (g : Geometry) (label img : bytes) : Prop := {
  fm_geo : geometry_ok total g;
  fm_len : Z.of_nat (length img) = total * 512;
  fm_header : header img = boot_sector total g label (replicate 512 0);
  fm_free : bytes_at img 516 2 = [0; 0];
  fm_seeds : bytes_at img (512 + g_fat_size g * 512) 4 = [0xF8; 0xFF; 0xFF; 0xFF];
  fm_label : bytes_at img ((1 + 2 * g_fat_size g) * 512) 32 = label_raw label;
  fm_zero : forall off k, (1 + 2 * g_fat_size g) * 512 + 32 <= off -> 0 <= k -> off + k <= total * 512 -> bytes_at img off k = replicate (Z.to_nat k) 0
}.

(** A write outside the bytes read. *)
Ltac above i := unfold i; rewrite bytes_at_other by lia.
Lemma format_spec total label img : 0 <= total < 2 ^ 32 -> format_fat16 total label = Ok img -> exists g, formatted total g label img.
Proof.
  intros Ht. unfold format_fat16. destruct (geometry total) as [g|] eqn:Eg; [|done]. apply geometry_spec in Eg as Hg. pose proof Hg as [Hspc Hfat Hfirst Hcount _].
  pose proof (length_label label) as Hll. set (fs := g_fat_size g) in *. change BYTES_PER_SECTOR with 512. change RESERVED_SECTORS with 1. change NUM_FATS with 2.
  set (z := replicate (Z.to_nat (total * 512)) 0). assert (Z.of_nat (length z) = total * 512) as Hz by (unfold z; rewrite length_replicate; lia).
  set (i1 := boot_sector total g label z). assert (length i1 = length z) as H1 by apply length_boot.
  unfold seed_fats. cbn [foldl]. change BYTES_PER_SECTOR with 512. change RESERVED_SECTORS with 1. fold fs.
  replace ((1 + 0 * fs) * 512) with 512 by lia. replace ((1 + 1 * fs) * 512) with (512 + fs * 512) by lia. set (sd := [0xF8; 0xFF; 0xFF; 0xFF]).
  assert (length sd = 4%nat) as Hsd by done.
  set (i2 := put_range i1 512 sd). assert (length i2 = length z) as H2 by (unfold i2; by rewrite length_put_range by lia).
  set (i3 := put_range i2 (512 + fs * 512) sd). assert (length i3 = length z) as H3 by (unfold i3; by rewrite length_put_range by lia).
  set (rs := (1 + 2 * fs) * 512). set (i4 := put_range i3 rs (label_field label)). assert (length i4 = length z) as H4 by (unfold i4; by rewrite length_put_range by lia).
  intros [= <-]. assert (length [0x08] = 1%nat) as Hone by done. set (i5 := put_range i4 (rs + 11) [0x08]).
  assert (length i5 = length z) as H5 by (unfold i5; by rewrite length_put_range by lia).
  assert (forall off k, 512 <= off -> 0 <= k -> off + k <= total * 512 -> bytes_at i1 off k = replicate (Z.to_nat k) 0) as Z1.
  { intros off k ? ? ?. unfold i1. rewrite boot_above by lia. apply bytes_at_zeros; [lia|lia|]. lia. }
  assert (forall off k, rs <= off -> 0 <= k -> off + k <= total * 512 -> bytes_at i3 off k = replicate (Z.to_nat k) 0) as Z3.
  { intros off k ? ? ?. above i3. above i2. apply Z1; lia. }
  exists g. split; [done|lia| | | | |].
  - unfold header. above i5. above i4. above i3. above i2. unfold i1. rewrite boot_header by lia. unfold z. by rewrite bytes_at_zeros by lia.
  - above i5. above i4. above i3. above i2. rewrite Z1 by lia. done.
  - fold fs. above i5. above i4. unfold i3. rewrite bytes_at_inside by lia. rewrite Z.sub_diag. apply put_all. rewrite length_bytes_at by lia. done.
  - fold fs rs. unfold i5. rewrite bytes_at_inside by lia. unfold i4. rewrite bytes_at_inside by lia. rewrite Z3 by lia. rewrite Z.sub_diag. replace (rs + 11 - rs) with 11 by lia. done.
  - fold fs rs. intros off k ? ? ?. above i5. above i4. apply Z3; lia.
Qed.

(** The writer of a formatted volume. *)
Definition formatted_count (total : Z) (g : Geometry) : Z := (total - (33 + 2 * g_fat_size g)) / g_sectors_per_cluster g.
Definition formatted_writer (total : Z) (g : Geometry) : FatWriter :=
  mkWriter (g_sectors_per_cluster g * 512) 512 (g_fat_size g * 512) 2 ((1 + 2 * g_fat_size g) * 512) 512 ((33 + 2 * g_fat_size g) * 512) (formatted_count total g).

Section formatted.
Context (total : Z) (g : Geometry) (label img0 : bytes) (F : formatted total g label img0) (Ht : 0 <= total < 2 ^ 32).
Let w : FatWriter := formatted_writer total g.
Let b : Bpb := formatted_bpb total g.
Let n : Z := total * 512.

Lemma spc_bounds : 1 <= g_sectors_per_cluster g <= 128 /\ is_power_of_two (g_sectors_per_cluster g) = true.
Proof.
  destruct (fm_geo _ _ _ _ F) as [Hspc _ _ _ _]. unfold spcs in Hspc. set_unfold. repeat destruct Hspc as [->|Hspc]; [done..|]. done.
Qed.
Lemma count_bounds : g_sectors_per_cluster g * formatted_count total g <= total - (33 + 2 * g_fat_size g).
Proof. pose proof spc_bounds as [? _]. unfold formatted_count. apply Z.mul_div_le. lia. Qed.

Lemma formatted_geo : geo w n.
Proof.
  pose proof spc_bounds as [? _]. pose proof count_bounds. destruct (fm_geo _ _ _ _ F) as [_ ? ? ? ?]. unfold formatted_count in *.
  split; unfold w, n, formatted_writer; cbn [cluster_size fat_start w_num_fats fat_size_bytes root_start root_slots data_start w_cluster_count]; try lia.
  - split; [lia|]. split; [|lia]. replace (g_sectors_per_cluster g * 512) with (g_sectors_per_cluster g * 16 * 32) by lia. apply Z.mod_mul. lia.
  - unfold formatted_count. lia.
  - unfold formatted_count. lia.
  - unfold formatted_count. lia.
Qed.

Lemma formatted_first : first_data_sector b = Done (33 + 2 * g_fat_size g).
Proof.
  destruct (fm_geo _ _ _ _ F) as [_ ? ? ? ?]. unfold first_data_sector, b, formatted_bpb, root_dir_sectors. cbn [num_fats fat_size_sectors reserved_sectors root_entries bytes_per_sector].
  change (div_ceil (512 * 32) 512) with 32. unfold mul_uint. rewrite (proj2 (Z.ltb_lt _ _)) by lia. cbn [mbind exec_bind]. unfold add_uint.
  rewrite (proj2 (Z.ltb_lt _ _)) by lia. cbn [mbind exec_bind]. rewrite (proj2 (Z.ltb_lt _ _)) by lia. f_equal. lia.
Qed.
Lemma formatted_clusters : cluster_count b = Done (formatted_count total g).
Proof.
  destruct (fm_geo _ _ _ _ F) as [_ ? ? ? ?]. unfold cluster_count. rewrite formatted_first. cbn [mbind exec_bind]. unfold saturating_sub, b, formatted_bpb. cbn [total_sectors sectors_per_cluster].
  rewrite Z.max_r by lia. done.
Qed.
Lemma formatted_type : bpb_fat_type b = Done Fat16.
Proof.
  destruct (fm_geo _ _ _ _ F) as [_ ? ? ? ?]. unfold bpb_fat_type. rewrite formatted_clusters. cbn [mbind exec_bind]. unfold fat_type_of, formatted_count.
  rewrite (proj2 (Z.leb_gt _ _)), (proj2 (Z.leb_le _ _)) by lia. done.
Qed.
Lemma formatted_bpb_ok : bpb_ok b w (33 + 2 * g_fat_size g).
Proof.
  pose proof spc_bounds as [? _]. pose proof count_bounds. destruct (fm_geo _ _ _ _ F) as [_ ? ? ? ?].
  split; [done|apply formatted_first|apply formatted_clusters|split; [cbn; lia|done]|done|split; [lia|done]| |cbn; lia].
  unfold w, b, formatted_writer, formatted_bpb. cbn [root_slots root_start data_start]. split; [done|lia].
Qed.

Lemma formatted_parse img : 512 <= Z.of_nat (length img) -> header img = header img0 -> parse_bpb img = Ok b.
Proof.
  intros Hl Hh. rewrite (fm_header _ _ _ _ F) in Hh. set (h := boot_sector total g label (replicate 512 0)) in *.
  assert (length h = 512%nat) as Hlh by (unfold h; rewrite length_boot; by rewrite length_replicate).
  rewrite (parse_bpb_header img h); [|done|lia|rewrite Hh; unfold header, bytes_at; rewrite take_ge; [done|rewrite length_drop; lia]].
  destruct (boot_fields total g label Ht (fm_geo _ _ _ _ F)) as (E1 & E2 & E3 & E4 & E5 & E6 & E7 & E8). fold h in E1, E2, E3, E4, E5, E6, E7, E8.
  pose proof spc_bounds as [? Hpow]. destruct (fm_geo _ _ _ _ F) as [_ ? ? ? ?].
  unfold parse_bpb. rewrite Hlh. change (Z.of_nat 512 <? 512) with false. rewrite E1, E2, E3, E4, E5, E6, E7. cbn [mbind result_bind].
  change (negb (0xAA55 =? 0xAA55)) with false. rewrite Hpow. rewrite (proj2 (Z.eqb_neq (g_sectors_per_cluster g) 0)), (proj2 (Z.eqb_neq (g_fat_size g) 0)) by lia.
  change ((512 <? 512) || negb (is_power_of_two 512) || false || negb true || (1 =? 0) || (2 =? 0)) with false. cbn [negb].
  destruct (total <? 0x10000).
  - rewrite E8. cbn [mbind result_bind]. rewrite (proj2 (Z.eqb_neq total 0)) by lia. cbn [negb mbind result_bind].
    rewrite (proj2 (Z.eqb_neq total 0)), (proj2 (Z.eqb_neq (g_fat_size g) 0)) by lia. done.
  - destruct E8 as [E8 E9]. rewrite E8. cbn [mbind result_bind]. rewrite E9. change (negb (0 =? 0)) with false. cbn [mbind result_bind].
    rewrite (proj2 (Z.eqb_neq total 0)), (proj2 (Z.eqb_neq (g_fat_size g) 0)) by lia. done.
Qed.

Lemma formatted_open img : 512 <= Z.of_nat (length img) -> header img = header img0 -> open img = Done (Ok (mkFs img b Fat16)) /\ writer_new img = Done (Ok w).
Proof.
  intros Hl Hh. pose proof (formatted_parse img Hl Hh) as Hp. unfold open, writer_new. rewrite Hp. rewrite formatted_type. cbn [mbind exec_bind]. split; [done|].
  rewrite bool_decide_true by done. cbn [negb]. by rewrite formatted_first, formatted_clusters.
Qed.

Lemma formatted_ready : ready w n img0.
Proof.
  destruct F as [[_ Hfs Hfirst _ Htab] Hlen _ _ Hseed _ _]. split; [exact Hlen|]. intros c Hc Hz. split; [done|]. destruct (decide (2 * c + 2 <= fat_size_bytes w)) as [|Hgt]; [done|exfalso].
  unfold w, formatted_writer, counted, fatv in *. cbn [w_cluster_count fat_size_bytes fat_start] in *. fold (formatted_count total g) in Htab.
  assert (c = 256 * g_fat_size g \/ c = 256 * g_fat_size g + 1) as Hcc by lia.
  assert (bytes_at img0 (512 + c * 2) 2 = bytes_at (bytes_at img0 (512 + g_fat_size g * 512) 4) (2 * (c - 256 * g_fat_size g)) 2) as E.
  { rewrite <- bytes_at_sub by lia. f_equal. lia. }
  rewrite E, Hseed in Hz. destruct Hcc as [-> | ->]; [rewrite Z.sub_diag in Hz|replace (2 * (256 * g_fat_size g + 1 - 256 * g_fat_size g)) with 2 in Hz by lia]; vm_compute in Hz; done.
Qed.

Definition label_ok : Prop := hd 32 label <> 0 /\ hd 32 label <> ENTRY_DELETED.
Lemma label_skipped : label_ok -> skipped (label_raw label).
Proof.
  intros [H0 H5]. assert (exists r, label_field label = hd 32 label :: r) as [r Er] by (unfold label_field; destruct label; by eexists).
  unfold label_raw. pose proof (length_label label) as Hl. rewrite Er in *. set (c := hd 32 label) in *. clearbody c.
  destruct (list_11 _ Hl) as (c' & ? & ? & ? & ? & ? & ? & ? & ? & ? & ? & E). injection E as <- ->.
  match goal with |- skipped ?r => let r' := eval vm_compute in r in change r with r' end. split; [done|by exists c| |].
  - intros k _. unfold find_slot. cbn. by rewrite (proj2 (Z.eqb_neq c 0)), (proj2 (Z.eqb_neq c _)) by done.
  - exists None. unfold parse_slot. cbn. by rewrite (proj2 (Z.eqb_neq c _)), (proj2 (Z.eqb_neq c _)) by done; auto.
Qed.

Definition empty_items : items := {[ [] := mkItem [] KDir ]}.
Lemma formatted_raws : raws w img0 [] = [label_raw label] ++ replicate 511 zero_raw.
Proof.
  destruct F as [[_ Hfs Hfirst _ _] Hlen _ _ _ Hlab Hzero]. unfold raws, slot_bytes, dslots, w, formatted_writer. cbn [root_start root_slots].
  change (Z.to_nat 512) with (S 511). rewrite slots_from_S. cbn [fmap list_fmap]. rewrite Hlab. cbn [app]. f_equal. rewrite (const_fmap _ _ zero_raw); [unfold slots_from; by rewrite length_fmap, length_seq|].
  intros i off (j & Hj & ->)%list_elem_of_lookup_2%elem_slots_from. rewrite Hzero by lia. done.
Qed.

Lemma formatted_root : label_ok -> dir_shape w img0 [] [label_raw label] [] 511.
Proof. intros Hlab. split; [apply chain_nil|by apply Forall_singleton, label_skipped|by apply Forall_nil|exact formatted_raws]. Qed.

(** A file that fits in one cluster can be written to the root directory of a formatted volume. *)
Lemma formatted_takes s x k d :
  label_ok -> split_path s = Ok [x] -> encode_8_3 x = Ok k -> Z.of_nat (length d) <= 512 -> exists img', write_file w s d img0 = (Ok (), img').
Proof.
  intros Hlab Hs Hx Hlen. pose proof formatted_geo as G. pose proof formatted_ready as Hr. pose proof (formatted_root Hlab) as Hsh. assert (named k) as Hk by (by exists x).
  pose proof spc_bounds as [? _]. destruct (fm_geo _ _ _ _ F) as [_ _ _ Hcount _].
  assert (exists cs img1, write_data_chain w d img0 = (Ok (hd 0 cs), img1) /\ fresh w img0 img1 /\ chain_ok w img1 cs) as (cs & img1 & Hd & [Hsm Hrt] & Hch).
  { destruct (decide (d = [])) as [->|Hne]; [exists [], img0; split; [done|split; [apply fresh_refl|apply chain_nil]]|].
    apply (write_data_chain_room w n G d img0 2); [done|done|unfold w; cbn; lia|unfold counted, w; cbn; unfold formatted_count; lia|].
    unfold fatv. change (fat_start w + 2 * 2) with 516. by rewrite (fm_free _ _ _ _ F). }
  assert (dir_shape w img1 [] [label_raw label] [] 511) as Hsh1 by (eapply (shape_same w n G img0); [exact Hsm|set_solver|done|done]).
  destruct (add_entry_room w n G img1 [] _ _ _ (mkEnt k ATTR_ARCHIVE (hd 0 cs) (Z.of_nat (length d))) (same_ready _ _ _ _ _ Hsm Hr) Hsh1) as [img2 Ha].
  { split_and!; [done|by left|by eapply (first_uint w n G)|unfold in_uint; cbn; lia]. }
  exists img2. unfold write_file, io_bind, io_read. rewrite Hs. cbn [last removelast ok_or walk_dirs]. unfold io_ret at 1. rewrite Hx.
  pose proof (find_ok w n G img0 [] _ _ _ k Hr Hsh Hk) as Hf. cbn [dir_of look fmap option_fmap option_map] in Hf. rewrite Hf, Hd. rewrite (proj2 (Z.ltb_lt _ _)) by lia. exact Ha.
Qed.

Lemma formatted_vol : label_ok -> vol_ok w n (header img0) img0 empty_items.
Proof.
  intros Hlab. assert (forall p it, empty_items !! p = Some it -> p = [] /\ it = mkItem [] KDir) as Hone by (unfold empty_items; intros p it; rewrite lookup_singleton_Some; by intros [<- <-]).
  assert (forall p k, empty_items !! (p ++ [k]) = None) as Hnone by (intros p k; unfold empty_items; apply lookup_singleton_ne; by destruct p).
  split; [exact formatted_ready|done|apply lookup_singleton_eq| | |].
  - intros p it [-> ->]%Hone. split; [|done]. exists [label_raw label], [], 511%nat. split; [|intros name _; by rewrite Hnone].
    by apply formatted_root.
  - intros p p' it it' c [-> _]%Hone [-> _]%Hone. done.
  - intros p k it. by rewrite Hnone.
Qed.
End formatted.

(** ** The refinement *)

Fixpoint write_all (w : FatWriter) (ops : list (str * bytes)) (img : bytes) : list (result FatError ()) * bytes :=
  match ops with
  | [] => ([], img)
  | (s, d) :: ops => let '(r, img) := write_file w s d img in let '(rs, img) := write_all w ops img in (r :: rs, img)
  end.
Inductive wrote_all : tree -> list (str * bytes) -> list (result FatError ()) -> tree -> Prop :=
  | WA_nil t : wrote_all t [] [] t
  | WA_cons t s d r t1 ops rs t2 : wrote t s d r t1 -> wrote_all t1 ops rs t2 -> wrote_all t ((s, d) :: ops) (r :: rs) t2.

Lemma write_all_ok w n boot ops : geo w n -> forall img T rs img',
  vol_ok w n boot img T -> write_all w ops img = (rs, img') ->
  exists T', vol_ok w n boot img' T' /\ wrote_all (abs T) ops rs (abs T') /\
    (forall s d, last ops = Some (s, d) -> last rs = Some (Err NoSpace) -> no_room w img' \/ 2 ^ 32 <= Z.of_nat (length d)).
Proof.
  intros G. induction ops as [|[s d] ops IH]; intros img T rs img' V He; cbn [write_all] in He.
  { injection He as <- <-. exists T. split; [done|]. split; [constructor|done]. }
  destruct (volume_write_ok w n G boot s d img T V) as (r & img1 & T1 & Ew & V1 & Hw & Hno). rewrite Ew in He.
  destruct (write_all w ops img1) as [rs1 img2] eqn:E. injection He as <- <-. destruct (IH img1 T1 rs1 img2 V1 E) as (T' & V' & Hall & Hlast).
  exists T'. split; [done|]. split; [by econstructor|]. intros s0 d0. destruct ops as [|op ops].
  - cbn in E. injection E as <- <-. cbn. intros [= <- <-] [= ->]. auto.
  - destruct rs1 as [|r1 rs1]; [inversion Hall|]. rewrite !last_cons_cons. apply Hlast.
Qed.

Lemma formatted_run total g label img :
  0 <= total < 2 ^ 32 -> label_ok label -> formatted total g label img ->
  writer_new img = Done (Ok (formatted_writer total g)) /\
  forall ops rs img', write_all (formatted_writer total g) ops img = (rs, img') ->
  exists t, open img' = Done (Ok (mkFs img' (formatted_bpb total g) Fat16)) /\ wrote_all {[ [] := KDir ]} ops rs t /\
    (forall p, p <> [] -> Forall named p -> fetch (mkFs img' (formatted_bpb total g) Fat16) (shown <$> p) = Done (Ok (t !! p))) /\
    (forall s d, last ops = Some (s, d) -> last rs = Some (Err NoSpace) -> no_room (formatted_writer total g) img' \/ 2 ^ 32 <= Z.of_nat (length d)).
Proof.
  intros Ht Hlab F. pose proof (formatted_geo _ _ _ _ F Ht) as G. pose proof (formatted_vol _ _ _ _ F Hlab) as V. pose proof (gm_first _ _ (fm_geo _ _ _ _ F)) as Hf.
  pose proof (gm_fat _ _ (fm_geo _ _ _ _ F)). split; [apply (formatted_open _ _ _ _ F Ht); [rewrite (fm_len _ _ _ _ F); lia|done]|].
  intros ops rs img' He. destruct (write_all_ok _ _ _ ops G img _ rs img' V He) as (T' & V' & Hall & Hlast). exists (abs T').
  assert (abs empty_items = {[ [] := KDir ]}) as Eabs by (unfold abs, empty_items; by rewrite map_fmap_singleton). rewrite Eabs in Hall.
  split; [|split; [done|split; [|done]]].
  - destruct (vo_ready _ _ _ _ _ V') as [Hs _]. unfold sized in Hs. apply (formatted_open _ _ _ _ F Ht); [lia|apply V'].
  - intros p Hne Hn. by eapply (fetch_ok _ _ G _ _ (formatted_bpb_ok _ _ _ _ F Ht) img' (vo_ready _ _ _ _ _ V') _ _ V').
Qed.

(** ** Files stay where they are *)

Lemma walked_keeps t p cs r t' q x : walked t p cs r t' -> t !! q = Some x -> t' !! q = Some x.
Proof. induction 1; intros Hq; eauto. apply IHwalked. rewrite lookup_insert_ne; [done|]. by intros <-; rewrite Hq in *. Qed.
Lemma wrote_keeps t s d r t' q x : wrote t s d r t' -> t !! q = Some x -> t' !! q = Some x.
Proof.
  intros Hw Hq. inversion Hw; subst; try done; try by eapply walked_keeps.
  assert (t'0 !! q = Some x) by (by eapply walked_keeps). rewrite lookup_insert_ne; [done|]. intros <-. congruence.
Qed.
Lemma wrote_all_keeps t ops rs t' q x : wrote_all t ops rs t' -> t !! q = Some x -> t' !! q = Some x.
Proof. induction 1; eauto using wrote_keeps. Qed.

Lemma walked_path t p cs p' t' : walked t p cs (Ok p') t' -> exists ks, Forall2 (fun c k => encode_8_3 c = Ok k) cs ks /\ p' = p ++ ks.
Proof.
  intros Hw. remember (Ok p') as r eqn:Er. induction Hw; try discriminate Er.
  - injection Er as ->. exists []. by rewrite app_nil_r.
  - destruct (IHHw Er) as (ks & Hks & ->). exists (k :: ks). rewrite <- app_assoc. split; [by constructor|done].
  - destruct (IHHw Er) as (ks & Hks & ->). exists (k :: ks). rewrite <- app_assoc. split; [by constructor|done].
Qed.
Lemma wrote_file t s d t' :
  wrote t s d (Ok ()) t' -> exists cs ks, split_path s = Ok cs /\ Forall2 (fun c k => encode_8_3 c = Ok k) cs ks /\ ks <> [] /\ t' !! ks = Some (KFile d).
Proof.
  intros Hw. inversion Hw as [| | | | |? ? ? cs x k p t1 Hs Hwalk Hx Hnone Hlen]; subst. destruct (walked_path _ _ _ _ _ Hwalk) as (ks & Hks & ->). exists (cs ++ [x]), (ks ++ [k]).
  split; [done|]. split; [by apply Forall2_app; [|constructor]|]. split; [by destruct ks|]. cbn. apply lookup_insert_eq.
Qed.
Lemma wrote_all_file t ops rs t' i s d :
  wrote_all t ops rs t' -> ops !! i = Some (s, d) -> rs !! i = Some (Ok ()) ->
  exists cs ks, split_path s = Ok cs /\ Forall2 (fun c k => encode_8_3 c = Ok k) cs ks /\ ks <> [] /\ t' !! ks = Some (KFile d).
Proof.
  intros Hw. revert i. induction Hw as [|t s0 d0 r t1 ops rs t2 Hw Hall IH]; intros i Ho Hr; [done|]. destruct i as [|i]; [|by apply (IH i)].
  cbn in Ho, Hr. injection Ho as -> ->. injection Hr as ->. destruct (wrote_file _ _ _ _ Hw) as (cs & ks & ? & ? & ? & Hk). exists cs, ks.
  split_and!; try done. by eapply wrote_all_keeps.
Qed.

(** ** Properties *)

(** C3.  The files of a formatted FAT16 volume.  Format a volume of any size the formatter accepts and write
    files to it, in any number and any order, some of the writes failing: the boot sector still describes the
    volume, and there is a tree of files and directories, the result of those writes in an abstract file system,
    that the reader finds on the volume path by path: the data of every file, the directories, and nothing where
    the tree has nothing.  The writes only fail as the abstract file system does, and one fails for want of space
    only when every cluster is taken, every slot of the root directory is, or the file has 4 GiB. *)
Theorem fat_refines total label img :
  0 <= total < 2 ^ 32 -> label_ok label -> format_fat16 total label = Ok img ->
  exists w, writer_new img = Done (Ok w) /\
  forall ops rs img', write_all w ops img = (rs, img') ->
  exists fs t, open img' = Done (Ok fs) /\ wrote_all {[ [] := KDir ]} ops rs t /\
    (forall p, p <> [] -> Forall named p -> fetch fs (shown <$> p) = Done (Ok (t !! p))) /\
    (forall s d, last ops = Some (s, d) -> last rs = Some (Err NoSpace) -> no_room w img' \/ 2 ^ 32 <= Z.of_nat (length d)).
Proof.
  intros Ht Hlab Hf. destruct (format_spec total label img Ht Hf) as [g F]. destruct (formatted_run total g label img Ht Hlab F) as [Hw Hrun].
  eexists. split; [exact Hw|]. intros ops rs img' He. destruct (Hrun ops rs img' He) as (t & ? & ? & ? & ?). by eexists _, t.
Qed.

Definition demo_label : bytes := [78; 69; 88; 65].
Definition demo_volume : bytes := match format_fat16 4161 demo_label with Ok img => img | Err _ => [] end.
Lemma demo_format : format_fat16 4161 demo_label = Ok demo_volume.
Proof. unfold demo_volume, format_fat16. destruct (geometry 4161) as [g|] eqn:E; [done|vm_compute in E; done]. Qed.
Lemma demo_label_ok : label_ok demo_label.
Proof. by split. Qed.

(** A volume of 4161 sectors. *)
Lemma fat_refines_witness :
  exists w, writer_new demo_volume = Done (Ok w) /\
  forall ops rs img', write_all w ops demo_volume = (rs, img') ->
  exists fs t, open img' = Done (Ok fs) /\ wrote_all {[ [] := KDir ]} ops rs t /\
    (forall p, p <> [] -> Forall named p -> fetch fs (shown <$> p) = Done (Ok (t !! p))) /\
    (forall s d, last ops = Some (s, d) -> last rs = Some (Err NoSpace) -> no_room w img' \/ 2 ^ 32 <= Z.of_nat (length d)).
Proof. apply (fat_refines 4161 demo_label demo_volume); [lia|exact demo_label_ok|exact demo_format]. Defined.

(** C30.  A file that was written is there to read: after any writes to a formatted volume, the reader finds the
    data of every write that returned success at the path of that write. *)
Theorem fat_write_read total label img :
  0 <= total < 2 ^ 32 -> label_ok label -> format_fat16 total label = Ok img ->
  exists w, writer_new img = Done (Ok w) /\
  forall ops rs img' i s d, write_all w ops img = (rs, img') -> ops !! i = Some (s, d) -> rs !! i = Some (Ok ()) ->
  exists fs cs ks, open img' = Done (Ok fs) /\ split_path s = Ok cs /\ Forall2 (fun c k => encode_8_3 c = Ok k) cs ks /\
    fetch fs (shown <$> ks) = Done (Ok (Some (KFile d))).
Proof.
  intros Ht Hlab Hf. destruct (format_spec total label img Ht Hf) as [g F]. destruct (formatted_run total g label img Ht Hlab F) as [Hw Hrun].
  eexists. split; [exact Hw|]. intros ops rs img' i s d He Ho Hr. destruct (Hrun ops rs img' He) as (t & Hopen & Hall & Hfetch & _).
  destruct (wrote_all_file _ _ _ _ _ _ _ Hall Ho Hr) as (cs & ks & Hs & Hks & Hne & Hk). eexists _, cs, ks. split; [exact Hopen|]. split; [done|]. split; [done|].
  rewrite Hfetch, Hk; [done|done|]. clear -Hks. induction Hks; constructor; [by eexists|done].
Qed.

(** The file [A.T] with three bytes, written to that volume. *)
Lemma fat_write_read_witness :
  exists img' fs, open img' = Done (Ok fs) /\ fetch fs [[65; 46; 84]] = Done (Ok (Some (KFile [1; 2; 3]))).
Proof.
  destruct (fat_write_read 4161 demo_label demo_volume) as (w & Hw & Hrun); [lia|exact demo_label_ok|exact demo_format|].
  destruct (format_spec 4161 demo_label demo_volume ltac:(lia) demo_format) as [g F].
  destruct (formatted_run 4161 g demo_label demo_volume ltac:(lia) demo_label_ok F) as [Hw' _]. rewrite Hw in Hw'. injection Hw' as ->.
  destruct (formatted_takes 4161 g demo_label demo_volume F ltac:(lia) [65; 46; 84] [65; 46; 84] (field [65] 8 ++ field [84] 3) [1; 2; 3]) as [img' Hwr];
    [exact demo_label_ok|reflexivity|reflexivity|cbn; lia|].
  destruct (Hrun [([65; 46; 84], [1; 2; 3])] [Ok ()] img' 0%nat [65; 46; 84] [1; 2; 3]) as (fs & cs & ks & Ho & Hs & Hks & Hf); [cbn [write_all]; by rewrite Hwr|done|done|].
  exists img', fs. split; [done|]. vm_compute in Hs. injection Hs as <-. inversion Hks as [|? ? ? ? Hk Hnil]; subst. inversion Hnil; subst.
  vm_compute in Hk. injection Hk as <-. exact Hf.
Defined.

(** On that volume the table has 4096 entries, two fewer than the clusters and the two reserved entries need:
    the entries of the last two clusters are the first two of the second table, which the formatter has
    marked, so the writer never hands those clusters out. *)
Example geometry_short_table :
  geometry 4161 = Ok (mkGeometry 1 16) /\ formatted_count 4161 (mkGeometry 1 16) = 4096 /\ 16 * 512 / 2 = 4096.
Proof. by vm_compute. Qed.

(** A boot sector whose sector counts pass the checks and overflow the sum of the reserved sectors and the tables. *)
Definition crafted_sector : bytes :=
  put_range (put_range (put_range (put_range (put_range (put_range (put_range (put_range (replicate 512 0) 11 (to_le 2 512)) 13 [1]) 14 (to_le 2 1)) 16 [255]) 17 (to_le 2 512))
    32 (to_le 4 100)) 36 (to_le 4 0xFFFFFFFF)) 510 (to_le 2 0xAA55).
Example open_panics : open crafted_sector = Panic.
Proof. by vm_compute. Qed.
