(* ===== verification/AbUpdate.v ===== *)
(** * Seamless updates

    [nexacore-installer/src/{ab,slotwrite}.rs]: the boot-control state of the two root slots and the
    write of a system image to a slot.  The partition of a slot is any [BlockDevice], which may fail. *)

From S2P Require Import Prelude Superblock.

(** ** The boot-control block *)

Inductive Slot := A | B.
#[export] Instance Slot_eq_dec : EqDecision Slot.
Proof. solve_decision. Defined.

Definition MAX_PRIORITY : Z := 15.
Definition MAX_TRIES : Z := 7.

Definition other (s : Slot) : Slot := match s with A => B | B => A end.
Definition slot_index (s : Slot) : Z := match s with A => 0 | B => 1 end.

Record SlotInfo := mkSlot { priority : Z; tries_remaining : Z; successful : bool }.
#[export] Instance SlotInfo_eq_dec : EqDecision SlotInfo.
Proof. solve_decision. Defined.

Definition is_bootable (i : SlotInfo) : bool := (0 <? priority i) && (successful i || (0 <? tries_remaining i)).

Record AbState := mkAb { slot_a : SlotInfo; slot_b : SlotInfo }.
#[export] Instance AbState_eq_dec : EqDecision AbState.
Proof. solve_decision. Defined.

Definition AbState_new : AbState := mkAb (mkSlot MAX_PRIORITY 0 true) (mkSlot 0 0 false).

Definition slot (st : AbState) (s : Slot) : SlotInfo := match s with A => slot_a st | B => slot_b st end.
(** [*self.slot_mut(s) = i]. *)
Definition set_slot (st : AbState) (s : Slot) (i : SlotInfo) : AbState :=
  match s with A => mkAb i (slot_b st) | B => mkAb (slot_a st) i end.

Definition boot_slot (st : AbState) : option Slot :=
  match is_bootable (slot st A), is_bootable (slot st B) with
  | true, true => if priority (slot st A) <? priority (slot st B) then Some B else Some A
  | true, false => Some A
  | false, true => Some B
  | false, false => None
  end.
Definition target_slot (st : AbState) : Slot := other (default A (boot_slot st)).

Definition begin_update (st : AbState) (target : Slot) : AbState := set_slot st target (mkSlot 0 0 false).

Definition finish_update (st : AbState) (target : Slot) : AbState :=
  let previous := other target in
  let i := slot st previous in
  let st := set_slot st previous (mkSlot (Z.min (priority i) (MAX_PRIORITY - 1)) (tries_remaining i) (successful i)) in
  set_slot st target (mkSlot MAX_PRIORITY MAX_TRIES false).

Definition record_boot (st : AbState) (s : Slot) : AbState :=
  let i := slot st s in
  if successful i then st else set_slot st s (mkSlot (priority i) (saturating_sub (tries_remaining i) 1) (successful i)).

Definition mark_successful (st : AbState) (s : Slot) : AbState := set_slot st s (mkSlot MAX_PRIORITY 0 true).

Definition is_rolling_back (st : AbState) : bool :=
  let top := if priority (slot st A) <? priority (slot st B) then B else A in
  match boot_slot st with Some boot => negb (bool_decide (boot = top)) | None => false end.

(** ** Writing an image *)

Definition block_from_chunk (chunk : bytes) : Block := put_range zero_block 0 chunk.

Inductive SlotWriteError :=
  | ImageTooLarge (image_len slot_capacity : Z)
  | SlotInUse
  | Device (e : V3Error)
  | VerifyMismatch.

Section write.
Context {D : Type} `{BlockDevice D}.

Definition image_chunks (image : bytes) : list bytes := chunks_of (length image) (Z.to_nat BLOCK_SIZE) image.

(** [for (index, chunk) in image.chunks(BLOCK_SIZE).enumerate()]. *)
Fixpoint write_chunks (index : Z) (chunks : list bytes) (dev : D) : V3Result () * D :=
  match chunks with
  | [] => (Ok (), dev)
  | chunk :: chunks =>
      match write_block index (block_from_chunk chunk) dev with
      | (Ok _, dev) => write_chunks (index + 1) chunks dev
      | (Err e, dev) => (Err e, dev)
      end
  end.
Fixpoint verify_chunks (index : Z) (chunks : list bytes) (dev : D) : result SlotWriteError () :=
  match chunks with
  | [] => Ok ()
  | chunk :: chunks =>
      match read_block index dev with
      | Ok read => if bool_decide (read = block_from_chunk chunk) then verify_chunks (index + 1) chunks dev else Err VerifyMismatch
      | Err e => Err (Device e)
      end
  end.

Definition write_image_to_slot (dev : D) (s : Slot) (image : bytes) (st : AbState) : result SlotWriteError () * D * AbState :=
  if bool_decide (boot_slot st = Some s) then (Err SlotInUse, dev, st)
  else
    let st := begin_update st s in
    let capacity := saturating_mul 64 (block_count dev) BLOCK_SIZE in
    let image_len := Z.of_nat (length image) in
    if capacity <? image_len then (Err (ImageTooLarge image_len capacity), dev, st)
    else
      match write_chunks 0 (image_chunks image) dev with
      | (Err e, dev) => (Err (Device e), dev, st)
      | (Ok _, dev) =>
          match flush dev with
          | (Err e, dev) => (Err (Device e), dev, st)
          | (Ok _, dev) => (verify_chunks 0 (image_chunks image) dev, dev, st)
          end
      end.

(** The device holds an image: its blocks, read in order, are the image and zeros. *)
Definition stored (dev : D) (image : bytes) : Prop :=
  exists bs k, (forall i b, bs !! i = Some b -> read_block (Z.of_nat i) dev = Ok b) /\ concat bs = image ++ replicate k 0.

Lemma block_pad chunk : (length chunk <= Z.to_nat BLOCK_SIZE)%nat -> block_from_chunk chunk = pad_to (Z.to_nat BLOCK_SIZE) chunk.
Proof.
  intros Hl. unfold block_from_chunk, put_range, zero_block, splice, pad_to. rewrite length_replicate. rewrite (proj2 (Z.leb_le _ _)) by lia.
  rewrite drop_replicate. done.
Qed.
Lemma verify_ok chunks : forall index dev, verify_chunks index chunks dev = Ok () ->
  forall i c, chunks !! i = Some c -> read_block (index + Z.of_nat i) dev = Ok (block_from_chunk c).
Proof.
  induction chunks as [|chunk chunks IH]; intros index dev Hv i c Hi; [done|]. cbn in Hv. destruct (read_block index dev) as [b|] eqn:Er; [|done].
  case_bool_decide as E; [|done]. destruct i as [|i]; cbn in Hi.
  - injection Hi as ->. by rewrite Z.add_0_r, Er, E.
  - replace (index + Z.of_nat (S i)) with (index + 1 + Z.of_nat i) by lia. by apply IH.
Qed.

(** What a call does: it refuses the boot slot and changes nothing, or it leaves the slot unbootable; on success the device holds the image. *)
Lemma write_image_spec dev s image st r dev' st' :
  write_image_to_slot dev s image st = (r, dev', st') ->
  (boot_slot st = Some s /\ r = Err SlotInUse /\ dev' = dev /\ st' = st) \/
  (boot_slot st <> Some s /\ st' = begin_update st s /\ (r = Ok () -> stored dev' image)).
Proof.
  unfold write_image_to_slot. case_bool_decide as Hb; [intros [= <- <- <-]; by left|]. intros Hw. right. split; [done|].
  destruct (_ <? _); [by injection Hw as <- <- <-|]. destruct (write_chunks _ _ _) as [[[]|e] d1]; [|by injection Hw as <- <- <-].
  destruct (flush d1) as [[[]|e] d2]; [|by injection Hw as <- <- <-]. injection Hw as Hv <- <-. split; [done|]. intros ->.
  destruct (chunks_of_pad (Z.to_nat BLOCK_SIZE) (length image) image) as [Hl [k Hk]]; [unfold BLOCK_SIZE; lia|lia|]. fold (image_chunks image) in Hl, Hk.
  exists (block_from_chunk <$> image_chunks image), k. split.
  - intros i b. rewrite list_lookup_fmap. destruct (image_chunks image !! i) as [c|] eqn:Ec; [|done]. intros [= <-]. by apply (verify_ok _ 0 _ Hv).
  - rewrite <- Hk. f_equal. apply list_fmap_ext. intros i c Hc. apply block_pad. rewrite Forall_forall in Hl. apply Hl. by eapply list_elem_of_lookup_2.
Qed.
End write.

(** ** A machine that is updated

    The slots' partitions, the slot the running system was booted from, and a slot that was written and
    verified and awaits the switch.  [image] records what was last written whole to a slot.  The machine
    starts an update as the documentation of [write_image_to_slot] asks, towards [target_slot], and only
    from a slot that is proven and is the one to boot. *)

Section machine.
Context {D : Type} `{BlockDevice D}.

Record machine := mkMachine {
  st : AbState;
  dev : Slot -> D;
  image : Slot -> option bytes;
  running : option Slot;
  pending : option Slot
}.
Definition upd {X} (f : Slot -> X) (s : Slot) (x : X) : Slot -> X := fun s' => if decide (s' = s) then x else f s'.

Inductive event := Boot | Success | Update (img : bytes) | Switch.

Definition may_update (m : machine) : option Slot :=
  match running m with
  | Some r => if successful (slot (st m) r) && bool_decide (boot_slot (st m) = Some r) then Some (target_slot (st m)) else None
  | None => None
  end.
Definition step (m : machine) (e : event) : machine :=
  match e with
  | Boot =>
      match boot_slot (st m) with
      | Some s => mkMachine (record_boot (st m) s) (dev m) (image m) (Some s) (pending m)
      | None => mkMachine (st m) (dev m) (image m) None (pending m)
      end
  | Success => match running m with Some r => mkMachine (mark_successful (st m) r) (dev m) (image m) (running m) (pending m) | None => m end
  | Update img =>
      match may_update m with
      | Some t =>
          let '(r, d, st') := write_image_to_slot (dev m t) t img (st m) in
          mkMachine st' (upd (dev m) t d) (upd (image m) t (if is_ok r then Some img else None)) (running m) (if is_ok r then Some t else None)
      | None => m
      end
  | Switch => match pending m with Some t => mkMachine (finish_update (st m) t) (dev m) (image m) (running m) None | None => m end
  end.
Definition run (m : machine) (es : list event) : machine := foldl step m es.

(** A fresh install: the image is in slot A. *)
Definition installed (da db : D) (img : bytes) : machine :=
  mkMachine AbState_new (fun s => match s with A => da | B => db end) (fun s => match s with A => Some img | B => None end) None None.

Definition whole (m : machine) (s : Slot) : Prop := exists img, image m s = Some img /\ stored (dev m s) img.
Definition proven (i : SlotInfo) : Prop := successful i = true /\ 0 < priority i.

Record safe (m : machine) : Prop := {
  sf_whole : forall s, is_bootable (slot (st m) s) = true -> whole m s;
  sf_running : forall r, running m = Some r -> whole m r;
  sf_pending : forall t, pending m = Some t ->
    whole m t /\ is_bootable (slot (st m) t) = false /\ proven (slot (st m) (other t)) /\ (running m = None \/ running m = Some (other t));
  sf_proven : exists s, proven (slot (st m) s);
  sf_tries : forall s, 0 <= tries_remaining (slot (st m) s) <= MAX_TRIES
}.

Lemma slot_set st s i s' : slot (set_slot st s i) s' = if decide (s' = s) then i else slot st s'.
Proof. by destruct s, s'. Qed.
Lemma slot_cases s s' : s' = s \/ s' = other s.
Proof. destruct s, s'; auto. Qed.
Lemma proven_bootable i : proven i -> is_bootable i = true.
Proof. intros [Hs Hp]. unfold is_bootable. rewrite Hs, (proj2 (Z.ltb_lt _ _)) by lia. done. Qed.
Lemma boot_bootable st s : boot_slot st = Some s -> is_bootable (slot st s) = true.
Proof.
  unfold boot_slot. destruct (is_bootable (slot st A)) eqn:Ea, (is_bootable (slot st B)) eqn:Eb; [destruct (_ <? _)|..]; intros [= <-]; done.
Qed.
Lemma boot_some st s : is_bootable (slot st s) = true -> exists s', boot_slot st = Some s'.
Proof. unfold boot_slot. destruct s; intros ->; repeat (case_match; eauto). Qed.

(** A boot attempt only lowers the tries of a slot that is not proven. *)
Lemma record_boot_slot st s s' :
  (forall x, 0 <= tries_remaining (slot st x)) ->
  let i := slot st s' in let i' := slot (record_boot st s) s' in
  priority i' = priority i /\ successful i' = successful i /\
  tries_remaining i' = if decide (s' = s /\ successful i = false) then Z.max 0 (tries_remaining i - 1) else tries_remaining i.
Proof.
  intros Ht. unfold record_boot. destruct (successful (slot st s)) eqn:E.
  - cbn. split; [done|]. split; [done|]. rewrite decide_False; [done|]. intros [-> ?]. congruence.
  - cbn zeta. rewrite slot_set. destruct (decide (s' = s)) as [->|].
    + cbn. rewrite E. split; [done|]. split; [done|]. by rewrite decide_True.
    + split; [done|]. split; [done|]. rewrite decide_False; [done|]. by intros [? _].
Qed.
Lemma record_boot_bootable st s s' :
  (forall x, 0 <= tries_remaining (slot st x)) -> is_bootable (slot (record_boot st s) s') = true -> is_bootable (slot st s') = true.
Proof.
  intros Ht. destruct (record_boot_slot st s s' Ht) as (Ep & Es & Et). specialize (Ht s'). unfold is_bootable. rewrite Ep, Es. destruct (0 <? _); [|done]. cbn.
  destruct (successful (slot st s')); [done|]. cbn. rewrite Et, !Z.ltb_lt. case_decide; lia.
Qed.
Lemma record_boot_proven st s s' : (forall x, 0 <= tries_remaining (slot st x)) -> proven (slot st s') -> proven (slot (record_boot st s) s').
Proof. intros Ht [Hs Hp]. destruct (record_boot_slot st s s' Ht) as (Ep & Es & _). split; [by rewrite Es|by rewrite Ep]. Qed.

Lemma step_boot m : safe m -> safe (step m Boot).
Proof.
  intros [V1 V2 V3 V4 V5]. assert (forall x, 0 <= tries_remaining (slot (st m) x)) as Ht by (intros x; apply V5). cbn [step].
  destruct (boot_slot (st m)) as [s|] eqn:Eb.
  - split; cbn [st dev image running pending].
    + intros s' Hs'. apply V1. by eapply record_boot_bootable.
    + intros r [= <-]. by apply V1, boot_bootable.
    + intros t Hp. destruct (V3 t Hp) as (Hw & Hnb & Hpr & Hrun). split; [done|]. split; [|split; [by apply record_boot_proven|]].
      * destruct (is_bootable (slot (record_boot (st m) s) t)) eqn:E; [|done]. apply record_boot_bootable in E; [congruence|done].
      * right. f_equal. apply boot_bootable in Eb. destruct (slot_cases t s) as [->|]; [congruence|done].
    + destruct V4 as [p Hp]. exists p. by apply record_boot_proven.
    + intros s'. destruct (record_boot_slot (st m) s s' Ht) as (_ & _ & ->). specialize (V5 s'). case_decide; lia.
  - destruct V4 as [p Hp]. apply proven_bootable in Hp. destruct (boot_some _ _ Hp) as [? ?]. congruence.
Qed.

Lemma step_success m : safe m -> safe (step m Success).
Proof.
  intros V. pose proof V as [V1 V2 V3 V4 V5]. cbn [step]. destruct (running m) as [r|] eqn:Er; [|done]. pose proof (V2 r eq_refl) as Hw. unfold mark_successful.
  split; cbn [st dev image running pending].
  - intros s. rewrite slot_set. case_decide as E; [by subst s|apply V1].
  - intros r' Hr'. by apply V2.
  - intros t Hp. destruct (V3 t Hp) as (Ht & Hnb & Hpr & Hrun). destruct Hrun as [?|[= ->]]; [done|]. rewrite !slot_set.
    rewrite decide_False by (by destruct t). rewrite decide_True by done. split; [done|]. split; [done|]. split; [by split|by right].
  - exists r. rewrite slot_set, decide_True by done. done.
  - intros s. rewrite slot_set. case_decide; [cbn; unfold MAX_TRIES; lia|apply V5].
Qed.

Lemma step_update m img : safe m -> safe (step m (Update img)).
Proof.
  intros V. pose proof V as [V1 V2 V3 V4 V5]. cbn [step]. unfold may_update. destruct (running m) as [r|] eqn:Er; [|done].
  destruct (successful (slot (st m) r)) eqn:Es; [|done]. case_bool_decide as Eb; [|done]. cbn [andb]. unfold target_slot. rewrite Eb. change (default A (Some r)) with r.
  assert (proven (slot (st m) r)) as Hpr.
  { split; [done|]. apply boot_bootable in Eb. unfold is_bootable in Eb. apply andb_true_iff in Eb as [Eb _]. by apply Z.ltb_lt. }
  destruct (write_image_to_slot (dev m (other r)) (other r) img (st m)) as [[res d] st'] eqn:Ew.
  apply write_image_spec in Ew as [(Eb' & _)|(_ & -> & Hok)]; [rewrite Eb in Eb'; by destruct r|].
  assert (r <> other r) as Hne by (by destruct r). unfold begin_update.
  assert (forall m', dev m' = upd (dev m) (other r) d -> image m' = upd (image m) (other r) (if is_ok res then Some img else None) -> whole m' r) as Hwr.
  { intros m' Ed Ei. destruct (V2 r eq_refl) as (i & Hi & Hst). exists i. rewrite Ed, Ei. unfold upd. by rewrite !decide_False by done. }
  split; cbn [st dev image running pending].
  - intros s. rewrite slot_set. case_decide as E; [done|]. intros _. destruct (slot_cases r s) as [->|]; [|done]. by apply Hwr.
  - intros r' [= <-]. by apply Hwr.
  - intros t. destruct res as [[]|e]; [|done]. cbn [is_ok]. intros [= <-]. rewrite !slot_set, decide_True by done.
    assert (other (other r) = r) as -> by (by destruct r). rewrite decide_False by done. split; [|split; [done|split; [done|by right]]].
    exists img. cbn. unfold upd. rewrite !decide_True by done. auto.
  - exists r. rewrite slot_set, decide_False by done. done.
  - intros s. rewrite slot_set. case_decide; [cbn; unfold MAX_TRIES; lia|apply V5].
Qed.

Lemma finish_slot st t s :
  slot (finish_update st t) s =
    if decide (s = t) then mkSlot MAX_PRIORITY MAX_TRIES false
    else mkSlot (Z.min (priority (slot st s)) (MAX_PRIORITY - 1)) (tries_remaining (slot st s)) (successful (slot st s)).
Proof. by destruct s, t. Qed.

Lemma step_switch m : safe m -> safe (step m Switch).
Proof.
  intros V. pose proof V as [V1 V2 V3 V4 V5]. cbn [step]. destruct (pending m) as [t|] eqn:Ep; [|done]. destruct (V3 t eq_refl) as (Hw & Hnb & [Hs Hp] & Hrun).
  split; cbn [st dev image running pending].
  - intros s. rewrite finish_slot. case_decide as E; [by subst s|]. intros Hb. apply V1. revert Hb. unfold is_bootable. cbn. rewrite !andb_true_iff, !Z.ltb_lt. intros [? ?]. split; [lia|done].
  - done.
  - done.
  - exists (other t). rewrite finish_slot, decide_False by (by destruct t). split; [done|]. cbn. unfold MAX_PRIORITY. lia.
  - intros s. rewrite finish_slot. case_decide; [cbn; unfold MAX_TRIES; lia|apply V5].
Qed.

Lemma step_safe m e : safe m -> safe (step m e).
Proof. destruct e; [apply step_boot|apply step_success|apply step_update|apply step_switch]. Qed.
Lemma run_safe es : forall m, safe m -> safe (run m es).
Proof. induction es as [|e es IH]; intros m Hm; [done|]. cbn. by apply IH, step_safe. Qed.
Lemma installed_safe da db img : stored da img -> safe (installed da db img).
Proof.
  intros Hd. split; cbn.
  - intros [] Hs; [by exists img|done].
  - done.
  - done.
  - by exists A.
  - intros []; cbn; unfold MAX_TRIES; lia.
Qed.

(** ** Rolling back *)

Fixpoint boots (n : nat) (st : AbState) : AbState :=
  match n with O => st | S n => boots n (match boot_slot st with Some s => record_boot st s | None => st end) end.

Lemma boots_fixed n st s : boot_slot st = Some s -> successful (slot st s) = true -> boots n st = st.
Proof. intros Hb Hs. induction n as [|n IH]; [done|]. cbn [boots]. rewrite Hb. unfold record_boot. by rewrite Hs. Qed.
Lemma boot_to_proven n : forall st p,
  (forall x, 0 <= tries_remaining (slot st x)) -> proven (slot st p) -> tries_remaining (slot st (other p)) <= Z.of_nat n ->
  exists s, boot_slot (boots n st) = Some s /\ successful (slot (boots n st) s) = true.
Proof.
  induction n as [|n IH]; intros st p Ht Hp Hn.
  - destruct (boot_some st p (proven_bootable _ Hp)) as [s Hs]. exists s. split; [done|]. cbn. destruct (slot_cases p s) as [->|E]; [apply Hp|].
    apply boot_bootable in Hs. unfold is_bootable in Hs. apply andb_true_iff in Hs as [_ Hs]. apply orb_true_iff in Hs as [Hs|Hs]; [done|].
    apply Z.ltb_lt in Hs. rewrite E in Hs. lia.
  - destruct (boot_some st p (proven_bootable _ Hp)) as [s Hs]. destruct (successful (slot st s)) eqn:Esucc.
    + rewrite (boots_fixed (S n) st s Hs Esucc). eauto.
    + assert (boots (S n) st = boots n (record_boot st s)) as -> by (cbn [boots]; by rewrite Hs). apply (IH _ p).
      * intros x. destruct (record_boot_slot st s x Ht) as (_ & _ & ->). specialize (Ht x). case_decide; lia.
      * by apply record_boot_proven.
      * destruct (slot_cases p s) as [->| ->]; [by destruct Hp; congruence|]. destruct (record_boot_slot st (other p) (other p) Ht) as (_ & _ & ->).
        rewrite decide_True by done. lia.
Qed.
End machine.

(** ** Properties *)

(** C6.  Seamless updates never boot a partial image and never lose the system.  Take a machine installed in slot
    A, on partitions that may fail in any way, and let it boot, report success, write updates (each from a slot
    that is proven and is the one to boot) and switch to a verified one, in any order: every slot that the boot
    loader may choose holds a whole image, byte for byte; some slot can be booted; and from there, if no boot is
    ever reported successful, seven more boots lead to a slot that has booted successfully before. *)
Theorem ab_update_safe {D : Type} `{BlockDevice D} (da db : D) (img : bytes) (es : list event) :
  stored da img ->
  let m := run (installed da db img) es in
  (forall s, boot_slot (st m) = Some s -> exists i, image m s = Some i /\ stored (dev m s) i) /\
  (exists s, boot_slot (st m) = Some s) /\
  (exists s, boot_slot (boots (Z.to_nat MAX_TRIES) (st m)) = Some s /\ successful (slot (boots (Z.to_nat MAX_TRIES) (st m)) s) = true).
Proof.
  intros Hd m. destruct (run_safe es _ (installed_safe da db img Hd)) as [V1 V2 V3 [p Hp] V5]. fold m in V1, V2, V3, Hp, V5. split; [|split].
  - intros s Hs. by apply V1, boot_bootable.
  - by eapply boot_some, proven_bootable.
  - apply (boot_to_proven _ _ p); [intros x; apply V5|done|]. apply V5.
Qed.

(** A device of one block. *)
Definition demo_device (b : Z) : MemBlockDevice := mkMem (b :: replicate 4095 0) 1 0 0.
Lemma demo_stored : stored (demo_device 7) [7].
Proof. exists [7 :: replicate 4095 0], 4095%nat. split; [|done]. intros [|i] b Hi; [by injection Hi as <-|done]. Qed.

(** An update is written to slot B and fails to boot. *)
Lemma ab_update_safe_witness :
  let m := run (installed (demo_device 7) (demo_device 0) [7]) [Boot; Update [8]; Switch; Boot] in
  running m = Some B /\ (exists s, boot_slot (boots 7 (st m)) = Some s /\ successful (slot (boots 7 (st m)) s) = true).
Proof.
  intros m. split; [vm_compute; reflexivity|].
  exact (proj2 (proj2 (ab_update_safe (demo_device 7) (demo_device 0) [7] [Boot; Update [8]; Switch; Boot] demo_stored))).
Defined.

(** A second update before the reboot into the first: [target_slot] is the slot the system runs from, the only
    proven one, and [write_image_to_slot] does not refuse it.  If neither image boots, nothing is left to boot. *)
Example second_update_bricks :
  let s1 := finish_update (begin_update AbState_new B) B in
  target_slot s1 = A /\
  (let '(r, _, s2) := write_image_to_slot (demo_device 7) A [8] s1 in
   r = Ok () /\ boot_slot (boots 14 (finish_update s2 A)) = None).
Proof. vm_compute. split; [reflexivity|]. split; reflexivity. Qed.
