(* ===== verification/Gpt.v ===== *)
(** * Partition tables

    [nexacore-installer/src/{gpt,plan,mode}.rs]: GUID partition tables as bytes, the plan of an
    installation, the regions to wipe and the boot order.  The names of partitions are lists of
    characters; [encode_utf16] is written out. *)

From S2P Require Import Prelude.

(** ** The checksum *)

Fixpoint crc_bits (n : nat) (crc : Z) : Z :=
  match n with
  | O => crc
  | S n =>
      let mask := (- Z.land crc 1) mod 2 ^ 32 in
      crc_bits n (Z.lxor (Z.shiftr crc 1) (Z.land 0xEDB88320 mask))
  end.
Definition crc32 (data : bytes) : Z :=
  Z.lxor (foldl (fun crc byte => crc_bits 8 (Z.lxor crc byte)) 0xFFFFFFFF data) 0xFFFFFFFF.

(** The check value of the standard. *)
Example crc32_check : crc32 [49; 50; 51; 52; 53; 54; 55; 56; 57] = 0xCBF43926.
Proof. by vm_compute. Qed.

(** ** Entries *)

Definition SECTOR_SIZE : Z := 512.
Definition ENTRY_COUNT : Z := 128.
Definition ENTRY_SIZE : Z := 128.
Definition PRIMARY_ENTRY_LBA : Z := 2.
Definition ENTRY_SECTORS : Z := (ENTRY_COUNT * ENTRY_SIZE) / SECTOR_SIZE.
Definition FIRST_USABLE_LBA : Z := 2 + ENTRY_SECTORS.

(** A GUID is its sixteen bytes. *)
Definition from_fields (d1 d2 d3 : Z) (d4 : bytes) : bytes := to_le 4 d1 ++ to_le 2 d2 ++ to_le 2 d3 ++ d4.
Definition EFI_SYSTEM : bytes := from_fields 0xC12A7328 0xF81F 0x11D2 [0xBA; 0x4B; 0x00; 0xA0; 0xC9; 0x3E; 0xC9; 0x3B].
Definition NEXACORE_ROOT : bytes := from_fields 0x4E434653 0x0001 0x0001 [0x4E; 0x45; 0x58; 0x41; 0x43; 0x4F; 0x52; 0x45].

Record Partition := mkPart {
  type_guid : bytes;
  unique_guid : bytes;
  first_lba : Z;
  last_lba : Z;
  attributes : Z;
  p_name : str
}.

Definition encode_utf16 (s : str) : list Z :=
  s ≫= fun c => if c <? 0x10000 then [c] else [0xD800 + (c - 0x10000) / 1024; 0xDC00 + (c - 0x10000) mod 1024].

Fixpoint put_name (units : list Z) (off : Z) (out : bytes) : bytes :=
  match units with [] => out | u :: units => put_name units (off + 2) (put_range out off (to_le 2 u)) end.

Definition encode (p : Partition) : bytes :=
  let out := replicate 128 0 in
  let out := put_range out 0 (type_guid p) in
  let out := put_range out 16 (unique_guid p) in
  let out := put_range out 32 (to_le 8 (first_lba p)) in
  let out := put_range out 40 (to_le 8 (last_lba p)) in
  let out := put_range out 48 (to_le 8 (attributes p)) in
  put_name (take 36 (encode_utf16 (p_name p))) 56 out.

(** ** The layout of a disk *)

Record GptLayout := mkLayout { disk_sectors : Z; disk_guid : bytes; partitions : list Partition }.

Section layout.
Context (l : GptLayout).

Definition first_usable_lba : Z := FIRST_USABLE_LBA.
Definition last_usable_lba : Z := saturating_sub (disk_sectors l) FIRST_USABLE_LBA.
Definition backup_header_lba : Z := saturating_sub (disk_sectors l) 1.
Definition backup_entry_lba : Z := saturating_sub (disk_sectors l) (1 + ENTRY_SECTORS).

(** [resize] cuts or fills up. *)
Definition entry_array : bytes :=
  let out := concat (encode <$> take (Z.to_nat ENTRY_COUNT) (partitions l)) in
  take (Z.to_nat (ENTRY_COUNT * ENTRY_SIZE)) out ++ replicate (Z.to_nat (ENTRY_COUNT * ENTRY_SIZE) - length out) 0.
Definition entry_array_crc : Z := crc32 entry_array.

Definition protective_mbr : bytes :=
  let mbr := replicate 512 0 in
  let mbr := put_range mbr (446 + 4) [0xEE] in
  let mbr := put_range mbr (446 + 8) (to_le 4 1) in
  let size := Z.min (saturating_sub (disk_sectors l) 1) (uint_max 32) in
  let mbr := put_range mbr (446 + 12) (to_le 4 size) in
  put_range mbr 510 (to_le 2 0xAA55).

(** The header before its own checksum is filled in. *)
Definition header_fields (backup : bool) : bytes :=
  let h := replicate 512 0 in
  let h := put_range h 0 [69; 70; 73; 32; 80; 65; 82; 84] in
  let h := put_range h 8 (to_le 4 0x00010000) in
  let h := put_range h 12 (to_le 4 92) in
  let '(current, other, entry_lba) :=
    if backup then (backup_header_lba, 1, backup_entry_lba) else (1, backup_header_lba, PRIMARY_ENTRY_LBA) in
  let h := put_range h 24 (to_le 8 current) in
  let h := put_range h 32 (to_le 8 other) in
  let h := put_range h 40 (to_le 8 first_usable_lba) in
  let h := put_range h 48 (to_le 8 last_usable_lba) in
  let h := put_range h 56 (disk_guid l) in
  let h := put_range h 72 (to_le 8 entry_lba) in
  let h := put_range h 80 (to_le 4 ENTRY_COUNT) in
  let h := put_range h 84 (to_le 4 ENTRY_SIZE) in
  put_range h 88 (to_le 4 entry_array_crc).
Definition header (backup : bool) : bytes :=
  let h := header_fields backup in
  put_range h 16 (to_le 4 (crc32 (default [] (get_range h 0 92)))).
End layout.

(** ** The plan of an installation *)

Definition ALIGN_SECTORS : Z := 2048.
Definition DEFAULT_ESP_BYTES : Z := 512 * 1024 * 1024.
Inductive PlanError := DiskTooSmall.
Record InstallGuids := mkGuids { g_disk : bytes; g_esp : bytes; g_root : bytes }.

Definition div_ceil (a b : Z) : Z := (a + b - 1) / b.
Definition align_up (value align : Z) : exec Z := if align =? 0 then Done value else mul_uint 64 (div_ceil value align) align.

Definition esp_label : str := [69; 70; 73; 32; 83; 121; 115; 116; 101; 109].
Definition root_label : str := [78; 101; 120; 97; 67; 111; 114; 101; 32; 82; 111; 111; 116].

Definition plan_partitions (disk_sectors esp_bytes : Z) (g : InstallGuids) : exec (result PlanError (list Partition)) :=
  esp_sectors ← align_up (div_ceil esp_bytes 512) ALIGN_SECTORS;
  esp_first ← align_up FIRST_USABLE_LBA ALIGN_SECTORS;
  e ← add_uint 64 esp_first esp_sectors;
  esp_last ← sub_uint e 1;
  r ← add_uint 64 esp_last 1;
  root_first ← align_up r ALIGN_SECTORS;
  let last_usable := saturating_sub disk_sectors FIRST_USABLE_LBA in
  if last_usable <=? root_first then Done (Err DiskTooSmall)
  else Done (Ok [mkPart EFI_SYSTEM (g_esp g) esp_first esp_last 0 esp_label; mkPart NEXACORE_ROOT (g_root g) root_first last_usable 0 root_label]).

Definition build_layout (disk_sectors : Z) (g : InstallGuids) : exec (result PlanError GptLayout) :=
  r ← plan_partitions disk_sectors DEFAULT_ESP_BYTES g;
  Done (match r with Ok ps => Ok (mkLayout disk_sectors (g_disk g) ps) | Err e => Err e end).

(** ** Replacing a disk and keeping its boot entries *)

Inductive InstallMode := DualBoot | ReplaceDisk.
#[export] Instance InstallMode_eq_dec : EqDecision InstallMode.
Proof. solve_decision. Defined.
Record ExistingBootEntry := mkBootEntry { b_index : Z; description : str }.

Definition merged_boot_order (mode : InstallMode) (nexacore_index : Z) (existing : list ExistingBootEntry) : list Z :=
  nexacore_index ::
  (if bool_decide (mode = DualBoot) then filter (fun i => i <> nexacore_index) (b_index <$> existing) else []).

(** Start and length. *)
Definition gpt_wipe_regions (disk_sectors : Z) : list (Z * Z) :=
  let backup_len := ENTRY_SECTORS + 1 in
  [(0, FIRST_USABLE_LBA); (saturating_sub disk_sectors backup_len, backup_len)].

(** ** What firmware reads

    The checks of the UEFI specification on a header sector and its entry array, and an entry's fields. *)

Definition le (b : bytes) (off n : Z) : Z := from_le (bytes_at b off n).

Record header_valid (h array : bytes) (lba : Z) : Prop := {
  hv_signature : bytes_at h 0 8 = [69; 70; 73; 32; 80; 65; 82; 84];
  hv_revision : le h 8 4 = 0x00010000;
  hv_size : le h 12 4 = 92;
  hv_crc : le h 16 4 = crc32 (put_range (bytes_at h 0 92) 16 [0; 0; 0; 0]);
  hv_lba : le h 24 8 = lba;
  hv_array : le h 80 4 * le h 84 4 = Z.of_nat (length array);
  hv_array_crc : le h 88 4 = crc32 array
}.

Definition entry_at (array : bytes) (i : nat) : bytes := bytes_at array (ENTRY_SIZE * Z.of_nat i) ENTRY_SIZE.
Definition name_units (e : bytes) : list Z := (fun j => le e (56 + 2 * Z.of_nat j) 2) <$> seq 0 36.
Definition pad_units (s : str) : list Z := let u := take 36 (encode_utf16 s) in u ++ replicate (36 - length u) 0.

(** ** Bytes *)

Lemma crc_bits_uint n crc : in_uint 32 crc -> in_uint 32 (crc_bits n crc).
Proof.
  revert crc. induction n as [|n IH]; intros crc Hc; [done|]. cbn [crc_bits]. apply IH, lxor_uint; [lia| |].
  - unfold in_uint in *. rewrite Z.shiftr_div_pow2 by lia. split; [apply Z.div_pos; lia|]. apply Z.div_lt_upper_bound; lia.
  - assert (Z.land crc 1 = 0 \/ Z.land crc 1 = 1) as [-> | ->]; [|unfold in_uint; vm_compute; done..].
    pose proof (Z.land_ones crc 1 ltac:(lia)) as E. change (Z.ones 1) with 1 in E. change (2 ^ 1) with 2 in E. pose proof (Z.mod_pos_bound crc 2 ltac:(lia)). lia.
Qed.
Lemma crc32_uint d : is_bytes d -> in_uint 32 (crc32 d).
Proof.
  intros Hd. unfold crc32. apply lxor_uint; [lia| |unfold in_uint; lia]. assert (in_uint 32 0xFFFFFFFF) as Hi by (unfold in_uint; lia). revert Hi. generalize 0xFFFFFFFF.
  induction Hd as [|b d Hb _ IH]; intros crc Hc; [done|]. cbn [foldl]. apply IH, crc_bits_uint, lxor_uint; [lia|done|]. unfold is_byte, in_uint in *. lia.
Qed.

Lemma le_to_le n v : 0 <= n -> in_uint (n * 8) v -> from_le (to_le n v) = v.
Proof. apply from_to_le. Qed.

(** Reading past and at the writes of a buffer. *)
Ltac put_side := rewrite ?length_put_range by lia; rewrite ?length_to_le by lia; rewrite ?length_replicate; cbn [length]; lia.
Ltac read_puts := repeat first [rewrite bytes_at_put by put_side|rewrite bytes_at_other by put_side].

Lemma concat_block (bs : list bytes) m i b rest :
  Forall (fun x => Z.of_nat (length x) = m) bs -> bs !! i = Some b -> bytes_at (concat bs ++ rest) (m * Z.of_nat i) m = b.
Proof.
  intros H. revert i. induction H as [|x bs Hx _ IH]; intros i Hi; [done|]. destruct i as [|i].
  - cbn in Hi. injection Hi as ->. rewrite Z.mul_0_r. unfold bytes_at. change (Z.to_nat 0) with 0%nat. cbn [drop concat].
    rewrite drop_0, <- app_assoc, take_app_length' by lia. done.
  - rewrite <- (IH i Hi). unfold bytes_at. f_equal. cbn [concat]. rewrite <- app_assoc. replace (Z.to_nat (m * Z.of_nat (S i))) with (length x + Z.to_nat (m * Z.of_nat i))%nat by lia.
    by rewrite drop_app_add.
Qed.

Lemma length_put_name units : forall off out, 0 <= off -> length (put_name units off out) = length out.
Proof. induction units as [|u units IH]; intros off out Ho; [done|]. cbn [put_name]. rewrite IH by lia. apply length_put_range. lia. Qed.
Lemma put_name_other units : forall off out o k, 0 <= o -> 0 <= k -> o + k <= off -> off + 2 * Z.of_nat (length units) <= Z.of_nat (length out) ->
  bytes_at (put_name units off out) o k = bytes_at out o k.
Proof.
  induction units as [|u units IH]; intros off out o k Ho Hk Hok Hl; [done|]. cbn [put_name length] in *. rewrite IH by (rewrite ?length_put_range by lia; lia).
  apply bytes_at_other; try lia; rewrite length_to_le by lia; lia.
Qed.
Lemma put_name_units units : forall off out j, 0 <= off -> Forall (in_uint 16) units -> off + 2 * Z.of_nat (length units) <= Z.of_nat (length out) ->
  off + 2 * Z.of_nat j + 2 <= Z.of_nat (length out) ->
  le (put_name units off out) (off + 2 * Z.of_nat j) 2 = default (le out (off + 2 * Z.of_nat j) 2) (units !! j).
Proof.
  induction units as [|u units IH]; intros off out j Ho Hu Hl Hj; [done|]. apply Forall_cons in Hu as [Hu Hus]. cbn [put_name length] in *.
  assert (length (to_le 2 u) = 2%nat) as H2 by (by rewrite length_to_le by lia). destruct j as [|j].
  - cbn. rewrite Z.add_0_r. unfold le. rewrite put_name_other by (rewrite ?length_put_range by lia; lia). rewrite bytes_at_put by lia. by apply from_to_le.
  - replace (off + 2 * Z.of_nat (S j)) with (off + 2 + 2 * Z.of_nat j) by lia. rewrite IH by (done || rewrite ?length_put_range by lia; lia). cbn [lookup list_lookup].
    f_equal. unfold le. by rewrite bytes_at_other by lia.
Qed.

(** ** Entries and headers *)

Definition is_guid (g : bytes) : Prop := length g = 16%nat /\ is_bytes g.
Definition part_ok (p : Partition) : Prop :=
  is_guid (type_guid p) /\ is_guid (unique_guid p) /\ in_uint 64 (first_lba p) /\ in_uint 64 (last_lba p) /\ in_uint 64 (attributes p) /\
  Forall (in_uint 16) (encode_utf16 (p_name p)).

Definition entry_fields (p : Partition) : bytes :=
  put_range (put_range (put_range (put_range (put_range (replicate 128 0) 0 (type_guid p)) 16 (unique_guid p)) 32 (to_le 8 (first_lba p))) 40 (to_le 8 (last_lba p))) 48 (to_le 8 (attributes p)).
Lemma length_entry_fields p : length (entry_fields p) = 128%nat.
Proof. unfold entry_fields. by rewrite !length_put_range by lia. Qed.
Lemma length_encode p : length (encode p) = 128%nat.
Proof. unfold encode. rewrite length_put_name by lia. apply length_entry_fields. Qed.
Lemma length_units (s : str) : (length (take 36 (encode_utf16 s)) <= 36)%nat.
Proof. rewrite length_take. lia. Qed.

Lemma encode_read p :
  part_ok p ->
  bytes_at (encode p) 0 16 = type_guid p /\ bytes_at (encode p) 16 16 = unique_guid p /\ le (encode p) 32 8 = first_lba p /\ le (encode p) 40 8 = last_lba p /\
  le (encode p) 48 8 = attributes p /\ name_units (encode p) = pad_units (p_name p).
Proof.
  intros ([L1 _] & [L2 _] & H1 & H2 & H3 & Hu). pose proof (length_units (p_name p)) as Hn. pose proof (length_entry_fields p) as Hl.
  assert (forall o k, 0 <= o -> 0 <= k -> o + k <= 56 -> bytes_at (encode p) o k = bytes_at (entry_fields p) o k) as Hlow.
  { intros o k ? ? ?. unfold encode. fold (entry_fields p). apply put_name_other; lia. }
  unfold le. rewrite !Hlow by lia. unfold entry_fields. split_and!.
  - read_puts. done.
  - read_puts. done.
  - read_puts. by apply from_to_le.
  - read_puts. by apply from_to_le.
  - read_puts. by apply from_to_le.
  - unfold name_units, pad_units. set (u := take 36 (encode_utf16 (p_name p))) in *. apply list_eq. intros j. rewrite list_lookup_fmap.
    destruct (decide (j < 36)%nat) as [Hj|Hj].
    + rewrite lookup_seq_lt by done. cbn [fmap option_fmap option_map Nat.add]. unfold encode. fold (entry_fields p) u. rewrite put_name_units by (lia || by apply Forall_take).
      destruct (decide (j < length u)%nat).
      * rewrite lookup_app_l by done. destruct (u !! j) eqn:E; [done|]. apply lookup_ge_None in E. lia.
      * rewrite (lookup_ge_None_2 u) by lia. rewrite lookup_app_r, lookup_replicate_2 by lia. cbn. f_equal. unfold le, entry_fields. read_puts.
        rewrite bytes_at_zeros by lia. done.
    + rewrite lookup_seq_ge by lia. cbn. symmetry. apply lookup_ge_None_2. rewrite length_app, length_replicate. lia.
Qed.

Lemma is_bytes_zeros n : is_bytes (replicate n 0).
Proof. apply Forall_replicate. unfold is_byte. lia. Qed.
Lemma is_bytes_at d off n : is_bytes d -> is_bytes (bytes_at d off n).
Proof. intros H. unfold bytes_at, is_bytes in *. by apply Forall_take, Forall_drop. Qed.
Lemma put_name_bytes units : forall off out, is_bytes out -> is_bytes (put_name units off out).
Proof. induction units as [|u units IH]; intros off out Ho; [done|]. cbn [put_name]. apply IH, is_bytes_put; [done|apply to_le_bytes; lia]. Qed.
Lemma encode_bytes p : part_ok p -> is_bytes (encode p).
Proof.
  intros ([_ B1] & [_ B2] & _). unfold encode. apply put_name_bytes. repeat (apply is_bytes_put); try done; try (apply to_le_bytes; lia). apply is_bytes_zeros.
Qed.

(** A header sector by its variable fields. *)
Definition header_of (current other last guid entry crc : bytes) : bytes :=
  let h := replicate 512 0 in
  let h := put_range h 0 [69; 70; 73; 32; 80; 65; 82; 84] in
  let h := put_range h 8 (to_le 4 0x00010000) in
  let h := put_range h 12 (to_le 4 92) in
  let h := put_range h 24 current in
  let h := put_range h 32 other in
  let h := put_range h 40 (to_le 8 34) in
  let h := put_range h 48 last in
  let h := put_range h 56 guid in
  let h := put_range h 72 entry in
  let h := put_range h 80 (to_le 4 128) in
  let h := put_range h 84 (to_le 4 128) in
  put_range h 88 crc.

Lemma fields_layout current other last guid entry crc :
  length current = Z.to_nat 8 -> length other = Z.to_nat 8 -> length last = Z.to_nat 8 -> length guid = 16%nat -> length entry = Z.to_nat 8 -> length crc = Z.to_nat 4 ->
  let h := header_of current other last guid entry crc in
  bytes_at h 0 8 = [69; 70; 73; 32; 80; 65; 82; 84] /\ bytes_at h 8 4 = to_le 4 0x00010000 /\ bytes_at h 12 4 = to_le 4 92 /\ bytes_at h 16 4 = [0; 0; 0; 0] /\
  bytes_at h 24 8 = current /\ bytes_at h 32 8 = other /\ bytes_at h 40 8 = to_le 8 34 /\ bytes_at h 48 8 = last /\ bytes_at h 56 16 = guid /\
  bytes_at h 72 8 = entry /\ bytes_at h 80 4 = to_le 4 128 /\ bytes_at h 84 4 = to_le 4 128 /\ bytes_at h 88 4 = crc.
Proof.
  intros L1 L2 L3 L4 L5 L6. change (Z.to_nat 8) with 8%nat in *. change (Z.to_nat 4) with 4%nat in *.
  do 8 (destruct current as [|? current]; [discriminate|]). do 8 (destruct other as [|? other]; [discriminate|]). do 8 (destruct last as [|? last]; [discriminate|]).
  do 16 (destruct guid as [|? guid]; [discriminate|]). do 8 (destruct entry as [|? entry]; [discriminate|]). do 4 (destruct crc as [|? crc]; [discriminate|]).
  destruct current, other, last, guid, entry, crc; try discriminate. clear. vm_compute. done.
Qed.

Section valid.
Context (l : GptLayout) (Hparts : (length (partitions l) <= 128)%nat) (Hok : Forall part_ok (partitions l)).
Context (Hguid : is_guid (disk_guid l)) (Hdisk : 34 <= disk_sectors l < 2 ^ 64).

Lemma length_concat_encode (ps : list Partition) : length (concat (encode <$> ps)) = (128 * length ps)%nat.
Proof. induction ps as [|p ps IH]; [done|]. cbn [fmap list_fmap concat length]. rewrite length_app, length_encode. cbn in IH. rewrite IH. lia. Qed.

Lemma entry_array_eq : entry_array l = concat (encode <$> partitions l) ++ replicate (Z.to_nat 16384 - 128 * length (partitions l)) 0.
Proof.
  unfold entry_array. change (Z.to_nat ENTRY_COUNT) with 128%nat. change (Z.to_nat (ENTRY_COUNT * ENTRY_SIZE)) with (Z.to_nat 16384). rewrite (take_ge (partitions l)) by lia.
  rewrite length_concat_encode. rewrite take_ge by (rewrite length_concat_encode; lia). do 2 f_equal.
Qed.
Lemma length_array : Z.of_nat (length (entry_array l)) = 16384.
Proof. rewrite entry_array_eq, length_app, length_concat_encode, length_replicate. lia. Qed.

Lemma entry_used i p : partitions l !! i = Some p -> entry_at (entry_array l) i = encode p.
Proof.
  intros Hp. rewrite entry_array_eq. unfold entry_at. apply (concat_block _ 128).
  - apply Forall_fmap, Forall_forall. intros x _. cbn. by rewrite length_encode.
  - by rewrite list_lookup_fmap, Hp.
Qed.
Lemma entry_unused i : (length (partitions l) <= i < 128)%nat -> entry_at (entry_array l) i = replicate 128 0.
Proof.
  intros Hi. rewrite entry_array_eq. unfold entry_at, bytes_at, ENTRY_SIZE. rewrite drop_app_ge by (rewrite length_concat_encode; lia).
  rewrite length_concat_encode, drop_replicate, take_replicate. f_equal. lia.
Qed.

Lemma array_bytes : is_bytes (entry_array l).
Proof.
  rewrite entry_array_eq. apply Forall_app. split; [|apply is_bytes_zeros]. revert Hok. generalize (partitions l). clear. induction 1 as [|p ps Hp _ IH]; [constructor|].
  cbn [fmap list_fmap concat]. apply Forall_app. split; [by apply encode_bytes|done].
Qed.

Lemma length_fields b : length (header_fields l b) = 512%nat.
Proof. unfold header_fields. destruct b; by rewrite !length_put_range by lia. Qed.
Lemma fields_bytes b : is_bytes (header_fields l b).
Proof.
  destruct Hguid as [_ Hg]. unfold header_fields. destruct b; repeat (apply is_bytes_put); try done; try (apply to_le_bytes; lia); try apply is_bytes_zeros; repeat constructor; unfold is_byte; lia.
Qed.

Lemma fields_of_layout b :
  header_fields l b = header_of (to_le 8 (if b then backup_header_lba l else 1)) (to_le 8 (if b then 1 else backup_header_lba l)) (to_le 8 (last_usable_lba l)) (disk_guid l)
    (to_le 8 (if b then backup_entry_lba l else 2)) (to_le 4 (entry_array_crc l)).
Proof. unfold header_fields, header_of. by destruct b. Qed.

(** The fields of a header before its checksum. *)
Lemma fields_read b :
  let h := header_fields l b in
  bytes_at h 0 8 = [69; 70; 73; 32; 80; 65; 82; 84] /\ le h 8 4 = 0x00010000 /\ le h 12 4 = 92 /\ bytes_at h 16 4 = [0; 0; 0; 0] /\
  le h 24 8 = (if b then disk_sectors l - 1 else 1) /\ le h 32 8 = (if b then 1 else disk_sectors l - 1) /\
  le h 40 8 = 34 /\ le h 48 8 = disk_sectors l - 34 /\ bytes_at h 56 16 = disk_guid l /\
  le h 72 8 = (if b then disk_sectors l - 33 else 2) /\ le h 80 4 = 128 /\ le h 84 4 = 128 /\ le h 88 4 = crc32 (entry_array l).
Proof.
  destruct Hguid as [Lg _]. pose proof (crc32_uint _ array_bytes) as Hcrc.
  assert (backup_header_lba l = disk_sectors l - 1) as Eb by (unfold backup_header_lba, saturating_sub; lia).
  assert (backup_entry_lba l = disk_sectors l - 33) as Ee by (unfold backup_entry_lba, saturating_sub; change (1 + ENTRY_SECTORS) with 33; lia).
  assert (last_usable_lba l = disk_sectors l - 34) as El by (unfold last_usable_lba, saturating_sub; change FIRST_USABLE_LBA with 34; lia).
  pose proof (fields_layout _ _ _ _ _ _ (length_to_le 8 (if b then disk_sectors l - 1 else 1) ltac:(lia)) (length_to_le 8 (if b then 1 else disk_sectors l - 1) ltac:(lia))
    (length_to_le 8 (disk_sectors l - 34) ltac:(lia)) Lg (length_to_le 8 (if b then disk_sectors l - 33 else 2) ltac:(lia)) (length_to_le 4 (crc32 (entry_array l)) ltac:(lia))) as R.
  cbv zeta in R. intros h. assert (h = header_of (to_le 8 (if b then disk_sectors l - 1 else 1)) (to_le 8 (if b then 1 else disk_sectors l - 1)) (to_le 8 (disk_sectors l - 34))
    (disk_guid l) (to_le 8 (if b then disk_sectors l - 33 else 2)) (to_le 4 (crc32 (entry_array l)))) as E.
  { unfold h. by rewrite fields_of_layout, Eb, Ee, El. }
  clearbody h. rewrite <- E in R. clear E. destruct R as (R1 & R2 & R3 & R4 & R5 & R6 & R7 & R8 & R9 & R10 & R11 & R12 & R13).
  unfold le. rewrite R1, R2, R3, R4, R5, R6, R7, R8, R9, R10, R11, R12, R13.
  assert (forall v, in_uint 64 v -> from_le (to_le 8 v) = v) as E8 by (intros; apply from_to_le; [lia|done]). unfold in_uint in E8.
  assert (forall v, in_uint 32 v -> from_le (to_le 4 v) = v) as E4 by (intros; apply from_to_le; [lia|done]).
  rewrite !E8 by (destruct b; lia). rewrite !E4 by (done || unfold in_uint; lia). done.
Qed.

Lemma put_back (x d : bytes) off : 0 <= off -> off + Z.of_nat (length d) <= Z.of_nat (length x) -> bytes_at x off (Z.of_nat (length d)) = d -> put_range x off d = x.
Proof.
  intros Ho Hl Hd. apply list_eq. intros i. rewrite lookup_put by lia. case_decide as Hi; [|done]. rewrite <- Hd at 1. rewrite lookup_bytes_at by lia. f_equal. lia.
Qed.

(** A header passes the checks, and its fields are those it was filled with. *)
Lemma header_read b off k :
  0 <= off -> 0 <= k -> off + k <= 16 \/ 20 <= off -> bytes_at (header l b) off k = bytes_at (header_fields l b) off k.
Proof. intros. pose proof (length_fields b). unfold header. apply bytes_at_other; try lia; rewrite length_to_le by lia; lia. Qed.

Lemma header_ok b : header_valid (header l b) (entry_array l) (if b then disk_sectors l - 1 else 1).
Proof.
  destruct (fields_read b) as (F1 & F2 & F3 & F4 & F5 & F6 & F7 & F8 & F9 & F10 & F11 & F12 & F13). pose proof (length_fields b) as Hl. unfold le in *.
  split; unfold le; rewrite ?header_read by lia; try done; [|rewrite F11, F12, length_array; done].
  assert (default [] (get_range (header_fields l b) 0 92) = bytes_at (header_fields l b) 0 92) as Eg by (by rewrite get_bytes_at by lia).
  unfold header. rewrite Eg. set (h := header_fields l b) in *. set (c := crc32 (bytes_at h 0 92)).
  assert (length (to_le 4 c) = 4%nat) as L4 by (by rewrite length_to_le by lia).
  assert (put_range (bytes_at (put_range h 16 (to_le 4 c)) 0 92) 16 [0; 0; 0; 0] = bytes_at h 0 92) as ->.
  { rewrite bytes_at_inside by lia. rewrite Z.sub_0_r. assert (length (bytes_at h 0 92) = 92%nat) as L92 by (by rewrite length_bytes_at by lia).
    rewrite <- (Z.add_0_r 16) at 2. rewrite put_put by (cbn [length]; lia). rewrite put_all by (by rewrite L4).
    apply put_back; cbn [length]; [lia|lia|]. change (Z.of_nat 4) with 4. rewrite <- (Z.add_0_l 16), <- bytes_at_sub by lia. done. }
  rewrite bytes_at_put by lia. apply from_to_le; [lia|]. apply crc32_uint, is_bytes_at, fields_bytes.
Qed.
End valid.

(** ** Properties *)

Lemma div_ceil_bounds a b : 0 < b -> b * (div_ceil a b - 1) < a <= b * div_ceil a b.
Proof. intros Hb. unfold div_ceil. pose proof (Z.div_mod (a + b - 1) b ltac:(lia)). pose proof (Z.mod_pos_bound (a + b - 1) b ltac:(lia)). nia. Qed.
Lemma align_ok v a : 0 < a -> 0 <= v -> v + a < 2 ^ 64 -> align_up v a = Done (div_ceil v a * a).
Proof. intros Ha Hv Hb. pose proof (div_ceil_bounds v a Ha). unfold align_up, mul_uint. rewrite (proj2 (Z.eqb_neq a 0)) by lia. by rewrite (proj2 (Z.ltb_lt _ _)) by lia. Qed.

(** Sectors [first] to [last] do not meet the region of [len] sectors at [start]. *)
Definition clear_of (p : Partition) (r : Z * Z) : Prop := last_lba p < r.1 \/ r.1 + r.2 <= first_lba p.

(** C40.  The plan of an installation, for every size of disk and of the EFI system partition: planning never
    overflows; it refuses a disk exactly when at most one usable sector would be left for the root partition after
    the aligned EFI partition (so a root partition of one sector is refused: [one_sector_root_refused]); otherwise both partitions start on a 1-MiB boundary, the EFI partition has at least the bytes asked
    for and less than a MiB more, the root partition follows it and takes the rest of the usable sectors, and
    neither meets the partition tables at the two ends of the disk. *)
Theorem plan_partitions_exact disk esp g :
  in_uint 64 disk -> in_uint 64 esp ->
  exists e r, e = 2048 * div_ceil (div_ceil esp 512) 2048 /\ r = 2048 + e /\ esp <= 512 * e < esp + 2 ^ 20 /\
  plan_partitions disk esp g =
    (if disk <=? r + 34 then Done (Err DiskTooSmall)
     else Done (Ok [mkPart EFI_SYSTEM (g_esp g) 2048 (r - 1) 0 esp_label; mkPart NEXACORE_ROOT (g_root g) r (disk - 34) 0 root_label])) /\
  forall ps, plan_partitions disk esp g = Done (Ok ps) ->
    Forall (fun p => first_lba p mod 2048 = 0 /\ 34 <= first_lba p /\ last_lba p <= disk - 34 /\ Forall (clear_of p) (gpt_wipe_regions disk)) ps.
Proof.
  intros Hd He. unfold in_uint in *. set (s := div_ceil esp 512). pose proof (div_ceil_bounds esp 512 ltac:(lia)) as H1. fold s in H1.
  set (k := div_ceil s 2048). pose proof (div_ceil_bounds s 2048 ltac:(lia)) as H2. fold k in H2. exists (2048 * k), (2048 + 2048 * k).
  split; [done|]. split; [done|]. split; [lia|].
  assert (plan_partitions disk esp g = if disk <=? 2048 + 2048 * k + 34 then Done (Err DiskTooSmall)
     else Done (Ok [mkPart EFI_SYSTEM (g_esp g) 2048 (2048 + 2048 * k - 1) 0 esp_label; mkPart NEXACORE_ROOT (g_root g) (2048 + 2048 * k) (disk - 34) 0 root_label])) as E.
  { unfold plan_partitions, ALIGN_SECTORS. change FIRST_USABLE_LBA with 34. fold s. rewrite (align_ok s) by lia. fold k. cbn [mbind exec_bind].
    rewrite (align_ok 34) by lia. change (div_ceil 34 2048 * 2048) with 2048. cbn [mbind exec_bind].
    rewrite (add_uint_Done 64 2048 (k * 2048)) by lia. cbn [mbind exec_bind]. rewrite (sub_uint_Done (2048 + k * 2048) 1) by lia. cbn [mbind exec_bind].
    rewrite (add_uint_Done 64 (2048 + k * 2048 - 1) 1) by lia. cbn [mbind exec_bind]. rewrite align_ok by lia. cbn [mbind exec_bind]. replace (2048 + k * 2048 - 1 + 1) with ((1 + k) * 2048) by lia.
    assert (div_ceil ((1 + k) * 2048) 2048 = 1 + k) as -> by (pose proof (div_ceil_bounds ((1 + k) * 2048) 2048 ltac:(lia)); lia).
    unfold saturating_sub. destruct (Z.leb_spec disk (2048 + 2048 * k + 34)).
    - by rewrite (proj2 (Z.leb_le _ _)) by lia.
    - rewrite (proj2 (Z.leb_gt _ _)) by lia. do 2 f_equal. rewrite Z.max_r by lia. f_equal; [f_equal; lia|]. f_equal. f_equal; lia. }
  split; [done|]. intros ps. rewrite E. destruct (Z.leb_spec disk (2048 + 2048 * k + 34)); [done|]. intros [= <-].
  unfold gpt_wipe_regions, saturating_sub, clear_of. change FIRST_USABLE_LBA with 34. change ENTRY_SECTORS with 32.
  assert ((2048 + 2048 * k) mod 2048 = 0) as Em by (replace (2048 + 2048 * k) with ((1 + k) * 2048) by lia; apply Z.mod_mul; lia).
  constructor; [|constructor; [|constructor]]; cbn [first_lba last_lba]; (split; [done|]; split; [lia|]; split; [lia|]);
    (constructor; [|constructor; [|constructor]]); cbn [first_lba last_lba fst snd]; lia.
Qed.

Definition demo_guid (b : Z) : bytes := replicate 16 b.
Definition demo_guids : InstallGuids := mkGuids (demo_guid 1) (demo_guid 2) (demo_guid 3).
Lemma plan_partitions_exact_witness :
  plan_partitions 2097152 DEFAULT_ESP_BYTES demo_guids =
    Done (Ok [mkPart EFI_SYSTEM (demo_guid 2) 2048 1050623 0 esp_label; mkPart NEXACORE_ROOT (demo_guid 3) 1050624 2097118 0 root_label]).
Proof.
  destruct (plan_partitions_exact 2097152 DEFAULT_ESP_BYTES demo_guids) as (e & r & He & Hr & _ & Hp & _); [unfold in_uint; lia|unfold in_uint, DEFAULT_ESP_BYTES; lia|].
  rewrite Hp, Hr, He. vm_compute. reflexivity.
Defined.

(** The documentation promises the refusal only when no non-empty root partition fits.  With an EFI partition of
    1 MiB, the sector 4096 of a disk of 4130 sectors is usable and not taken, and the disk is refused; with one
    sector more the root partition has the sectors 4096 and 4097. *)
Example one_sector_root_refused g :
  plan_partitions 4130 (2 ^ 20) g = Done (Err DiskTooSmall) /\
  Forall (fun r : Z * Z => 4096 < r.1 \/ r.1 + r.2 <= 4096) (gpt_wipe_regions 4130) /\
  match plan_partitions 4131 (2 ^ 20) g with Done (Ok [esp; root]) => last_lba esp = 4095 /\ first_lba root = 4096 /\ last_lba root = 4097 | _ => False end.
Proof.
  split; [reflexivity|]. split; [|vm_compute; repeat split].
  constructor; [right; vm_compute; discriminate|]. constructor; [left; vm_compute; reflexivity|constructor].
Qed.

(** The partition table on the disk.  For every disk of at least 34 sectors and every list of at most 128
    partitions with GUIDs of sixteen bytes: both headers pass the checks firmware makes (signature, revision, size,
    their own checksum, their own address, the size and the checksum of the entry array) and name one another and
    the place of their copy of the array; reading the array gives back every partition, with its name cut to 36
    units, and the other entries are unused. *)
Theorem gpt_roundtrip l :
  (length (partitions l) <= 128)%nat -> Forall part_ok (partitions l) -> is_guid (disk_guid l) -> 34 <= disk_sectors l < 2 ^ 64 ->
  header_valid (header l false) (entry_array l) 1 /\ header_valid (header l true) (entry_array l) (disk_sectors l - 1) /\
  (le (header l false) 32 8 = disk_sectors l - 1 /\ le (header l true) 32 8 = 1) /\ (le (header l false) 72 8 = 2 /\ le (header l true) 72 8 = disk_sectors l - 33) /\
  (forall b, le (header l b) 40 8 = 34 /\ le (header l b) 48 8 = disk_sectors l - 34 /\ bytes_at (header l b) 56 16 = disk_guid l) /\
  (forall i p, partitions l !! i = Some p ->
    let e := entry_at (entry_array l) i in
    bytes_at e 0 16 = type_guid p /\ bytes_at e 16 16 = unique_guid p /\ le e 32 8 = first_lba p /\ le e 40 8 = last_lba p /\ le e 48 8 = attributes p /\
    name_units e = pad_units (p_name p)) /\
  (forall i, (length (partitions l) <= i < 128)%nat -> entry_at (entry_array l) i = replicate 128 0).
Proof.
  intros Hlen Hok Hg Hd. pose proof (header_ok l Hlen Hok Hg Hd) as Hv.
  destruct (fields_read l Hlen Hok Hg Hd false) as (_ & _ & _ & _ & _ & F6 & F7 & F8 & F9 & F10 & _).
  destruct (fields_read l Hlen Hok Hg Hd true) as (_ & _ & _ & _ & _ & T6 & T7 & T8 & T9 & T10 & _). unfold le in F6, F7, F8, F10, T6, T7, T8, T10.
  split; [apply (Hv false)|]. split; [apply (Hv true)|]. unfold le. rewrite !(header_read l) by lia. split; [done|]. split; [done|]. split; [|split].
  - intros b. rewrite !(header_read l) by lia. by destruct b.
  - intros i p Hp. rewrite (entry_used l Hlen i p Hp). apply encode_read. rewrite Forall_forall in Hok. apply Hok. by eapply list_elem_of_lookup_2.
  - intros i Hi. by apply entry_unused.
Qed.

(** The table of an installation on a disk of one GiB. *)
Definition demo_layout : GptLayout :=
  mkLayout 2097152 (demo_guid 1)
    [mkPart EFI_SYSTEM (demo_guid 2) 2048 1050623 0 esp_label; mkPart NEXACORE_ROOT (demo_guid 3) 1050624 2097118 0 root_label].
Lemma is_guid_dec g : (length g =? 16)%nat && forallb (fun b => (0 <=? b) && (b <? 256)) g = true -> is_guid g.
Proof.
  rewrite andb_true_iff, Nat.eqb_eq, forallb_forall. intros [Hl Hg]. split; [done|]. apply Forall_forall. intros b Hb%list_elem_of_In%Hg.
  apply andb_true_iff in Hb as [H1%Z.leb_le H2%Z.ltb_lt]. unfold is_byte. lia.
Qed.
Lemma demo_parts : Forall part_ok (partitions demo_layout).
Proof.
  assert (forall s : str, forallb (fun u => (0 <=? u) && (u <? 65536)) s = true -> Forall (in_uint 16) s) as Hu.
  { intros s. rewrite forallb_forall. intros Hs. apply Forall_forall. intros u Hb%list_elem_of_In%Hs. apply andb_true_iff in Hb as [H1%Z.leb_le H2%Z.ltb_lt]. unfold in_uint. lia. }
  constructor; [|constructor; [|constructor]]; (split; [by apply is_guid_dec|]; split; [by apply is_guid_dec|]); cbn [first_lba last_lba attributes p_name];
    (split; [unfold in_uint; lia|]; split; [unfold in_uint; lia|]; split; [unfold in_uint; lia|]); by apply Hu.
Qed.
Lemma gpt_roundtrip_witness :
  build_layout 2097152 demo_guids = Done (Ok demo_layout) /\ header_valid (header demo_layout true) (entry_array demo_layout) 2097151 /\
  le (entry_at (entry_array demo_layout) 1) 32 8 = 1050624.
Proof.
  destruct (gpt_roundtrip demo_layout) as (_ & Hb & _ & _ & _ & He & _); [cbn; lia|exact demo_parts|by apply is_guid_dec|cbn; lia|].
  split; [vm_compute; reflexivity|]. split; [exact Hb|]. by destruct (He 1%nat _ eq_refl) as (_ & _ & Hl & _).
Defined.
